(* ===== verification/_CoqProject ===== *)
-Q . S2P
Prelude.v
Memory.v
Status.v
Arena.v
Str.v
Bytes.v
Simd.v
StrArena.v
Container.v
HashIndex.v
Queue.v
Loop.v
Async.v
Scope.v
Resource.v
Sink.v
Builder.v
Wire.v
Http2Frame.v
WebSocket.v
Diag.v
RouteMatch.v
RouteParse.v
RouteFlow.v
Stream.v
StreamPump.v
StreamMemory.v
StreamFlow.v
Capability.v
CapabilityReport.v
Json.v
JsonWriter.v
Intern.v
HttpResponse.v
HttpWire.v
HttpRead.v
HttpBackend.v
HttpAdmission.v
HttpBody.v
HttpBodyStream.v
HttpMedia.v
Http2Map.v
Http2Request.v
Http2Build.v
HttpParse.v
HttpAssemble.v
HttpHead.v
HttpEntry.v
AsyncLoop.v
Provider.v
ProviderRun.v
ProviderInv.v
ProviderAccounts.v
ProviderRuns.v
HttpQuery.v
Frame.v
Http2Response.v
WebSocketHandshake.v
FsPath.v
