(* ===== verification/Prelude.v ===== *)
(** Verification library of the Sloppy native runtime core (src/src/core,
    headers in src/include/sloppy).

    * The program

    Sloppy is an application runtime: a C core under a JavaScript engine.  The
    core is layered.  At the bottom, status codes and checked size arithmetic
    (status.c, checked_math.c) and a caller-backed arena (arena.c) from which
    everything else takes its memory.  On it, borrowed string and byte views with
    scalar, SSE2 and AVX2 routines (string.c, bytes.c, *_simd_*.c), arena copies
    of strings, fixed vectors, ring queues and a hash index (container.c), and the
    byte and string builders (builder.c).  On those, the control structures: the
    event loop (loop.c), cancellation tokens and async objects that settle through
    the loop (cancellation.c, async.c), cleanup scopes (scope.c), the table that
    hands out generation-checked resource ids (resource.c), byte streams with
    back-pressure and the pump between them (stream.c), the table of interned
    strings (intern.c), the completion loop that threads post to
    (async_backend.c, async_backend_libuv.c) and the provider executor, which runs
    operations on worker threads and completes them through that loop
    (provider_executor.c).  At the top, what an application meets: the HTTP/1.1
    request parser (http.c over llhttp), query strings (http_context.c), the admission of connections and
    requests and the reading of bodies (http_backend.c), HTTP/2 frames and the
    mapping of header lists to requests (http2_frame.c, http2_mapping.c), HTTP/1.1
    responses (http_response.c), WebSocket handshakes and frames (websocket.c), route patterns
    (route.c), JSON output (json_writer.c), file-system paths (fs.c) and the capability
    checks on the application's plan (capability.c, plan.c).

    * Files and what they model

    - Prelude: machine integers as [Z] with explicit wrap-around, status codes,
      [result] for a C function that returns SlStatus and fills an out-parameter,
      the state monad [ST] with early return, the build configuration, tactics.
    - Memory: flat byte-addressed memory; the copy and fill loops of the runtime
      and when they equal "read all, then write"; views [SlStr] and [SlBytes].
    - Status (checked_math.c, status.c): the checked size helpers.
    - Arena (arena.c): every operation, poisoning included; a step relation
      [arena_step] over allocations, marks and resets with reachability.
    - Str (string.c): comparisons and searches, word loops as written.
    - Bytes (bytes.c): byte views and scalar searches.
    - Simd (string_simd_*.c, bytes_simd_*.c and the dispatchers): the vector
      routines lane by lane, parameterised by the width; class [SimdConfig] is the
      back end the build selects.
    - StrArena (string.c): owned strings with inline storage, arena copies,
      NUL-terminated copies.
    - Container (container.c): arena arrays, fixed vectors, ring queues over raw
      element storage.  HashIndex: the chained hash index.
    - Queue: the interfaces [QueueOps]/[QueueLaws] and [StackOps]/[StackLaws]
      between the containers and their clients, with a byte layout per element
      type ([Layout]); instances from the ring queue and the fixed vector.
    - Loop (loop.c), Async (cancellation.c, async.c), Scope (scope.c): the control
      structures, proved against the queue and stack interfaces; callbacks are
      parameters.
    - Resource (resource.c): the resource table; cleanup calls are a trace.
    - Sink, Builder (builder.c): the interface of an output sink and the builders
      that implement it; integer formatting.
    - Wire: big-endian integers, flag sets, shift-and-mask lemmas.
    - Http2Frame (http2_frame.c): header, per-type validation, frames, SETTINGS.
    - WebSocket (websocket.c, the frame half): parser, writer, masking, UTF-8,
      close codes; the writer is proved against the sink interface.
      WebSocketHandshake (the other half): the opening handshake over the class
      [OpenSsl], what its manual states as [OpenSslLaws].
    - Diag (diagnostics.c, construction only): diagnostics with arena-owned text.
    - RouteMatch, RouteParse, RouteFlow (route.c): matching a path against parsed
      segments, parsing a pattern, and the two composed.
    - Stream, StreamPump, StreamMemory, StreamFlow (stream.c): the stream state
      machines over the interface [StreamWorld] of an adapter, the pump, the memory
      and chunk-list adapters, and whole transfers between them.
    - Capability, CapabilityReport (capability.c and the shape tests of plan.c):
      the registry and its checks, and the diagnostics of refusals.
    - Json, JsonWriter (json_writer.c): escaping against the sink interface with
      room ([SinkStore]), then builders and the fixed writer.
    - HttpResponse, HttpWire, HttpRead (http_response.c): the response writer, the
      bytes it sends, and a client that reads them back.
    - Intern (intern.c): interning over HashIndex and StrArena; the hash function is
      a parameter.
    - HttpBackend, HttpAdmission (http_backend.c): backends, connections and requests
      as objects at addresses, and the accounts of their slots over any run of calls.
    - HttpBody, HttpBodyStream, HttpMedia (http_backend.c): the body reader, bodies as
      streams, the classification of media types.
    - Http2Map, Http2Request, Http2Build (http2_mapping.c, its request half): header lists
      to requests, first the checks, then the copies.
    - HttpParse, HttpAssemble, HttpHead, HttpEntry (http.c): the callbacks that
      llhttp drives, how their pieces are put together, a reference that reads a
      request off the callbacks, and the entry point.  llhttp is the class [Llhttp],
      what is relied on the class [LlhttpLaws].
    - HttpQuery (http_context.c): the query string of a request target.
    - Frame: a caller's object or stack frame in memory, and what stays of the caller's
      texts while it is written and the arena grows.
    - Http2Response (http2_mapping.c, its response half, and the stream adapter of
      http_response.c): responses as header lists.
    - AsyncLoop (async_backend.c, async_backend_libuv.c): the completion loop of either
      backend over the class [AsyncCallbacks] of what callbacks and libuv do.
    - Provider (provider_executor.c): descriptors, submission, slots, settlement,
      shutdown and disposal.  ProviderRun: the worker threads and the owner as a step
      relation [run_step] between the sections under the executor's lock.
      ProviderInv: the invariant [pinv] of those steps.  ProviderAccounts,
      ProviderRuns: what holds in every reachable state.
    - FsPath (fs.c, the path half): classification, normalization and resolution of
      file-system paths under a policy.

    A definition keeps the name of the C function it translates; helper
    definitions stand for loops or phases inside one function.  NULL-ness of a
    pointer argument is a [nullable]; the object behind it is in the state.

    * What the theorems show

    - Memory safety of the base: live arena blocks are aligned, never overlap and keep
      their contents; allocation is exact; marks stay valid; checked sizes are exact.
    - Equivalence: word-at-a-time and vector routines agree with the byte-level
      specification; containers refine a bounded deque, a stack, a chained map.
    - Control: drains are FIFO and complete, async objects settle once and continue
      once with what they settled with, the first cancellation wins, scopes run
      cleanups once in reverse order.
    - Providers: under every interleaving of owner and workers the executor's accounts
      are exact and within their limits, every operation is dispatched at most once and
      cleaned up exactly once and not under a running worker, nothing queued waits while
      there is room, and a single worker runs an operation at most once; a pool may run
      one twice, which is a defect of the code.
    - Resources: an id never names something else, a closed id never resolves
      again, every cleanup runs exactly once.
    - Protocols: HTTP/2 and WebSocket parsers accept exactly the legal frames,
      ask for more input on a prefix of one, and invert the writers; UTF-8
      validation is exact.  The opening handshake answers exactly as specified for
      keys that fit the array they are decoded into; the base64 form of more than 32
      bytes overwrites the stack, which is a defect of the code.
    - Routes: a pattern parses to the unique meaning of its text, and a path matches
      exactly when that meaning accepts its parts.
    - Streams: no interleaving of reads, writes, drains and cancellations loses,
      repeats or reorders a byte; a transfer that is drained completes if the writer takes
      the reader's chunks; ended streams stay ended.
    - Capabilities: a check passes exactly when the plan grants the operation; the
      registry accepts exactly the well-formed plans; refusals name their reason.
    - Responses: a client reads back exactly the status, fields and body given, with
      one correct Content-Length, whatever bytes the caller supplies; over HTTP/2 the
      header list and body are exactly those of the response, or it is refused, among
      other reasons for being a stream under too small a limit, a defect.
    - Requests: the HTTP/1.1 parser answers exactly what the reference reads, within
      its limits and with one framing; HTTP/2 header lists are refused or mapped exactly,
      two kinds of malformed ones apart, which the code overlooks; query strings are
      read as they are meant; admission counts the holders of slots, requests follow their lifecycle, and bodies
      are read whole or given back.
    - JSON: escaped text reads back as the original, within the buffer.
    - Interning: find-or-append on distinct strings, canonical and stable symbols.
    - Paths: a path is resolved to exactly what it means, and never outside its root.
    The main theorem of each group has a doc comment "Cn"; the lemmas [..._witness] in the
    [Demo] modules apply them to concrete states.

    * Fuel and bounds

    Loops that are not structural carry fuel with a proof that it suffices: the
    builder's doubling loop 64 rounds (a size_t doubles at most 64 times),
    decimal digits 20 rounds (2^64 has 20 digits), hash chains capacity + 1, the
    UTF-8 loop one round per byte, C-string scans the distance to the terminator.
    Drains and scope closes take fuel because their callbacks are arbitrary; the
    termination theorems give the amount that is enough.  The executor's activation
    loop has one round more than there are slots, since each round takes an operation
    out of the queue.  size_t, uintptr_t and uint64_t have 64 bits.

    * Not modelled

    Third-party code (llhttp, nghttp2, yyjson, OpenSSL, libsodium, libuv, ryu, database
    clients, V8) and what mostly wraps it: the HPACK codec, HTTP/2 sessions, the plan
    reader, cryptography, the libuv transport, the data providers, the engine bridge.
    Threads are modelled only where they meet shared state, in the provider executor;
    the worker pool, the application host and the platform layer are not, nor are access
    to files and file watchers, which are the platform's.  Nor are the
    glue that dispatches requests to the engine, the rendering of diagnostics (a
    component's diagnostic is kept as a value), logging and metrics,
    float formatting and profiling counters. *)

From stdpp Require Export base list numbers sets relations.
From Stdlib Require Export ZArith Lia.
#[export] Set Default Goal Selector "!".
Open Scope Z_scope.

(** * Machine integers

    A C integer of width [w] is a [Z]; arithmetic that the source leaves
    unchecked is written with the wrap-around of its type. *)

Definition wrap8 (z : Z) : Z := z mod 2 ^ 8.
Definition wrap16 (z : Z) : Z := z mod 2 ^ 16.
Definition wrap32 (z : Z) : Z := z mod 2 ^ 32.
Definition wrap64 (z : Z) : Z := z mod 2 ^ 64.

(** [size_t], [uintptr_t] and [uint64_t] have 64 bits on every runtime target. *)
Definition SIZE_MAX : Z := 2 ^ 64 - 1.
Definition UINTPTR_MAX : Z := 2 ^ 64 - 1.
Definition UINT32_MAX : Z := 2 ^ 32 - 1.

Definition is_size (z : Z) : Prop := 0 <= z <= SIZE_MAX.
Definition is_u32 (z : Z) : Prop := 0 <= z <= UINT32_MAX.
Definition is_byte (z : Z) : Prop := 0 <= z < 256.

(** * Status codes (include/sloppy/status.h) *)

Inductive SlStatusCode :=
| SL_STATUS_OK
| SL_STATUS_INVALID_ARGUMENT
| SL_STATUS_OUT_OF_MEMORY
| SL_STATUS_OVERFLOW
| SL_STATUS_OUT_OF_RANGE
| SL_STATUS_ASSERTION_FAILED
| SL_STATUS_INTERNAL
| SL_STATUS_UNSUPPORTED
| SL_STATUS_INVALID_STATE
| SL_STATUS_CAPACITY_EXCEEDED
| SL_STATUS_STALE_RESOURCE
| SL_STATUS_WRONG_RESOURCE_KIND
| SL_STATUS_CANCELLED
| SL_STATUS_DEADLINE_EXCEEDED.

#[export] Instance SlStatusCode_eq_dec : EqDecision SlStatusCode.
Proof. solve_decision. Defined.

(** * Results and effects

    A C function that returns [SlStatus] and fills an out-parameter is a
    function into [result]: [Ok v] is "returns OK and stores [v]", [Err c] is
    "returns [c] and leaves the out-parameter untouched".  [Err] is never used
    with [SL_STATUS_OK].  Whether a pointer argument is NULL is the argument of
    type [nullable]; the object behind it is in the state. *)

Inductive result (A : Type) : Type :=
| Ok (a : A)
| Err (c : SlStatusCode).
Arguments Ok {A} a.
Arguments Err {A} c.

#[export] Instance result_eq_dec {A} `{EqDecision A} : EqDecision (result A).
Proof. solve_decision. Defined.

Definition status_of {A} (r : result A) : SlStatusCode :=
  match r with Ok _ => SL_STATUS_OK | Err c => c end.

Definition is_ok {A} (r : result A) : bool :=
  match r with Ok _ => true | Err _ => false end.

Inductive nullable := NULL | REF.

Definition is_null (p : nullable) : bool :=
  match p with NULL => true | REF => false end.

#[export] Instance result_ret : MRet result := fun A a => Ok a.
#[export] Instance result_bind : MBind result :=
  fun A B k r => match r with Ok a => k a | Err c => Err c end.

(** State passing with early return: the state an operation leaves behind when
    it fails is the state at the point of failure. *)
Definition ST (S A : Type) : Type := S -> result A * S.

#[export] Instance st_ret {S} : MRet (ST S) := fun A a s => (Ok a, s).
#[export] Instance st_bind {S} : MBind (ST S) :=
  fun A B k c s =>
    match c s with
    | (Ok a, s') => k a s'
    | (Err e, s') => (Err e, s')
    end.

Definition fail {S A} (c : SlStatusCode) : ST S A := fun s => (Err c, s).
Definition gets {S A} (f : S -> A) : ST S A := fun s => (Ok (f s), s).
Definition modify {S} (f : S -> S) : ST S unit := fun s => (Ok tt, f s).
Definition lift {S A} (r : result A) : ST S A := fun s => (r, s).

(** Clean-up after an error: [goto failure]. *)
Definition on_error {S A} (c : ST S A) (handler : SlStatusCode -> ST S A) : ST S A :=
  fun s => match c s with (Ok a, s') => (Ok a, s') | (Err e, s') => handler e s' end.

(** A component that owns [S1] calls one that owns [S2]. *)
Definition zoom {S1 S2 A} (get : S1 -> S2) (set : S2 -> S1 -> S1) (c : ST S2 A) : ST S1 A :=
  fun s => let '(r, s2) := c (get s) in (r, set s2 s).

Declare Scope sloppy_scope.
Delimit Scope sloppy_scope with sloppy.
Open Scope sloppy_scope.

Notation "'return_if' b 'with' c ';;' k" :=
  (if b then fail c else k)
    (at level 100, b at level 99, c at level 99, k at level 200, right associativity)
    : sloppy_scope.
Notation "'error_if' b 'with' c ';;' k" :=
  (if b then Err c else k)
    (at level 100, b at level 99, c at level 99, k at level 200, right associativity)
    : sloppy_scope.

(** Build configuration: [SL_ENABLE_ASSERTS] selects the assert-enabled build,
    which also poisons arena ranges. *)
Class BuildConfig := { SL_ENABLE_ASSERTS : bool }.

Definition assert_build : BuildConfig := {| SL_ENABLE_ASSERTS := true |}.
Definition release_build : BuildConfig := {| SL_ENABLE_ASSERTS := false |}.

(** * Tactics *)

Create HintDb sloppy.

(** Case analysis on the tests of a model, keeping the equations. *)
Ltac split_if :=
  match goal with
  | |- context [if ?b then _ else _] => destruct b eqn:?
  | H : context [if ?b then _ else _] |- _ => destruct b eqn:?
  end.

Ltac split_match :=
  match goal with
  | |- context [match ?x with _ => _ end] => destruct x eqn:?
  | H : context [match ?x with _ => _ end] |- _ => destruct x eqn:?
  end.

(** Arithmetic with the constants of the machine integers unfolded. *)
Ltac size_lia :=
  unfold is_size, is_u32, is_byte, SIZE_MAX, UINTPTR_MAX, UINT32_MAX in *; lia.

(** Linear arithmetic with division and remainder by constants. *)
Ltac div_lia := Z.div_mod_to_equations; lia.

Ltac unfold_st :=
  unfold mbind, mret, st_bind, st_ret, result_bind, result_ret, fail, gets, modify, lift in *.

(** * Generic lemmas *)

Lemma wrap64_small z : is_size z -> wrap64 z = z.
Proof. intros. unfold wrap64. apply Z.mod_small. size_lia. Qed.

Lemma wrap64_range z : is_size (wrap64 z).
Proof. unfold wrap64. pose proof (Z.mod_pos_bound z (2 ^ 64) eq_refl). size_lia. Qed.

Lemma wrap32_small z : is_u32 z -> wrap32 z = z.
Proof. intros. unfold wrap32. apply Z.mod_small. size_lia. Qed.

Lemma wrap32_range z : is_u32 (wrap32 z).
Proof. unfold wrap32. pose proof (Z.mod_pos_bound z (2 ^ 32) eq_refl). size_lia. Qed.

Lemma wrap8_small z : is_byte z -> wrap8 z = z.
Proof. intros. unfold wrap8. apply Z.mod_small. size_lia. Qed.

Lemma wrap8_range z : is_byte (wrap8 z).
Proof. unfold wrap8. pose proof (Z.mod_pos_bound z (2 ^ 8) eq_refl). size_lia. Qed.

#[export] Hint Resolve wrap64_range wrap32_range wrap8_range : sloppy.

Lemma st_bind_ok {S A B} (c : ST S A) (k : A -> ST S B) s r s' :
  (c ≫= k) s = (Ok r, s') ->
  exists a s1, c s = (Ok a, s1) /\ k a s1 = (Ok r, s').
Proof. unfold_st. destruct (c s) as [[a|e] s1]; naive_solver. Qed.
