(* ===== verification/Memory.v ===== *)
(** Byte-addressed memory.

    The runtime's byte data (arena buffers, string and byte views, builder
    storage) lives in one flat memory, so that aliasing between views, buffers
    and arena blocks is part of the model.  A pointer to bytes is an address;
    NULL is address 0.  A cell holds an integer whose low eight bits are the
    byte an [unsigned char] read returns, so a store performs the conversion to
    [unsigned char] by itself. *)

From S2P Require Import Prelude.

Definition mem : Type := Z -> Z.

Definition ld8 (m : mem) (a : Z) : Z := wrap8 (m a).
Definition st8 (m : mem) (a v : Z) : mem := fun x => if x =? a then v else m x.

(** [n] bytes from address [a]. *)
Fixpoint load (m : mem) (a : Z) (n : nat) : list Z :=
  match n with
  | O => []
  | S n => ld8 m a :: load m (a + 1) n
  end.

Definition load_bytes (m : mem) (a len : Z) : list Z := load m a (Z.to_nat len).

Fixpoint store (m : mem) (a : Z) (vs : list Z) : mem :=
  match vs with
  | [] => m
  | v :: vs => store (st8 m a v) (a + 1) vs
  end.

(** [for (index = 0; index < size; index++) ptr[index] = value;] *)
Fixpoint fill (m : mem) (ptr : Z) (n : nat) (value : Z) : mem :=
  match n with
  | O => m
  | S n => fill (st8 m ptr value) (ptr + 1) n value
  end.

(** [for (index = 0; index < length; index++) dst[index] = src[index];] *)
Fixpoint copy_forward (m : mem) (dst src : Z) (n : nat) : mem :=
  match n with
  | O => m
  | S n => copy_forward (st8 m dst (ld8 m src)) (dst + 1) (src + 1) n
  end.

(** [for (index = length; index > 0; index--) dst[index-1] = src[index-1];] *)
Fixpoint copy_backward (m : mem) (dst src : Z) (n : nat) : mem :=
  match n with
  | O => m
  | S n => copy_backward (st8 m (dst + Z.of_nat n) (ld8 m (src + Z.of_nat n))) dst src n
  end.

(** Borrowed views (include/sloppy/string.h, include/sloppy/bytes.h): a pointer
    and a length, owning nothing. *)
Record SlStr := { str_ptr : Z; str_length : Z }.
Record SlBytes := { bytes_ptr : Z; bytes_length : Z }.

(** The contents of a view. *)
Definition str_val (m : mem) (s : SlStr) : list Z := load_bytes m (str_ptr s) (str_length s).
Definition bytes_val (m : mem) (b : SlBytes) : list Z := load_bytes m (bytes_ptr b) (bytes_length b).

(** A view a caller may legally pass: a length that is a [size_t], and storage
    that does not run past the end of the address space. *)
Definition str_wf (s : SlStr) : Prop :=
  0 <= str_length s /\ 0 <= str_ptr s /\ str_ptr s + str_length s <= UINTPTR_MAX.
Definition bytes_wf (b : SlBytes) : Prop :=
  0 <= bytes_length b /\ 0 <= bytes_ptr b /\ bytes_ptr b + bytes_length b <= UINTPTR_MAX.

(** Two memories agree on the bytes outside [[lo, hi)]. *)
Definition same_outside (lo hi : Z) (m m' : mem) : Prop :=
  forall a, ~ (lo <= a < hi) -> ld8 m' a = ld8 m a.

(** The ranges [[a, a+n)] and [[b, b+k)] share no address. *)
Definition disjoint_ranges (a n b k : Z) : Prop := a + n <= b \/ b + k <= a \/ n <= 0 \/ k <= 0.

Section Lemmas.
Implicit Types (m : mem) (a : Z).

Lemma ld8_range m a : is_byte (ld8 m a).
Proof. apply wrap8_range. Qed.

Lemma ld8_st8 m a v b : ld8 (st8 m a v) b = if b =? a then wrap8 v else ld8 m b.
Proof. unfold ld8, st8. by destruct (b =? a). Qed.

Lemma ld8_st8_eq m a v : ld8 (st8 m a v) a = wrap8 v.
Proof. by rewrite ld8_st8, Z.eqb_refl. Qed.

Lemma ld8_st8_ne m a v b : a <> b -> ld8 (st8 m a v) b = ld8 m b.
Proof. intros. rewrite ld8_st8. by destruct (Z.eqb_spec b a). Qed.

Lemma length_load m a n : length (load m a n) = n.
Proof. revert a; induction n; intros; simpl; auto. Qed.

Lemma length_load_bytes m a len : 0 <= len -> Z.of_nat (length (load_bytes m a len)) = len.
Proof. intros. unfold load_bytes. rewrite length_load. lia. Qed.

Lemma load_lookup m a n i :
  (i < n)%nat -> load m a n !! i = Some (ld8 m (a + Z.of_nat i)).
Proof.
  revert a i; induction n as [|n IH]; intros a i Hi; [lia|].
  destruct i as [|i]; simpl; [by rewrite Z.add_0_r|].
  rewrite IH by lia. do 2 f_equal. lia.
Qed.

(** Extensionality: the loaded list depends only on the bytes of the range. *)
Lemma load_ext m m' a b n :
  (forall i, 0 <= i < Z.of_nat n -> ld8 m (a + i) = ld8 m' (b + i)) ->
  load m a n = load m' b n.
Proof.
  revert a b; induction n as [|n IH]; intros a b H; [done|]. simpl. f_equal.
  - specialize (H 0). rewrite !Z.add_0_r in H. apply H. lia.
  - apply IH. intros i Hi. specialize (H (i + 1)).
    replace (a + 1 + i) with (a + (i + 1)) by lia.
    replace (b + 1 + i) with (b + (i + 1)) by lia. apply H. lia.
Qed.

Lemma load_inj m m' a b n :
  load m a n = load m' b n ->
  forall i, 0 <= i < Z.of_nat n -> ld8 m (a + i) = ld8 m' (b + i).
Proof.
  intros H i Hi.
  pose proof (load_lookup m a n (Z.to_nat i) ltac:(lia)) as H1.
  pose proof (load_lookup m' b n (Z.to_nat i) ltac:(lia)) as H2.
  rewrite H, H2 in H1. rewrite Z2Nat.id in H1 by lia. congruence.
Qed.

Lemma load_app m a n k : load m a (n + k) = load m a n ++ load m (a + Z.of_nat n) k.
Proof.
  revert a; induction n as [|n IH]; intros a; [simpl; f_equal; lia|].
  simpl. f_equal. rewrite IH. do 2 f_equal. lia.
Qed.

Lemma load_bytes_app m a n k :
  0 <= n -> 0 <= k -> load_bytes m a (n + k) = load_bytes m a n ++ load_bytes m (a + n) k.
Proof.
  intros. unfold load_bytes. rewrite Z2Nat.inj_add by lia.
  rewrite load_app. do 2 f_equal. lia.
Qed.

Lemma load_bytes_nonpos m a n : n <= 0 -> load_bytes m a n = [].
Proof. intros. unfold load_bytes. by replace (Z.to_nat n) with O by lia. Qed.

Lemma load_bytes_cons m a n : 0 < n -> load_bytes m a n = ld8 m a :: load_bytes m (a + 1) (n - 1).
Proof.
  intros. unfold load_bytes. replace (Z.to_nat n) with (S (Z.to_nat (n - 1))) by lia. done.
Qed.

Lemma load_is_byte m a n : Forall is_byte (load m a n).
Proof. revert a; induction n; intros; simpl; constructor; auto using ld8_range. Qed.

Lemma load_same m m' lo hi a n :
  same_outside lo hi m m' -> disjoint_ranges lo (hi - lo) a (Z.of_nat n) ->
  load m' a n = load m a n.
Proof.
  intros Hs Hd. apply load_ext. intros i Hi. apply Hs. unfold disjoint_ranges in Hd. lia.
Qed.

Lemma load_bytes_same m m' lo hi a n :
  same_outside lo hi m m' -> disjoint_ranges lo (hi - lo) a n ->
  load_bytes m' a n = load_bytes m a n.
Proof.
  intros Hs Hd. eapply load_same; [done|]. unfold disjoint_ranges in *. lia.
Qed.

Lemma same_outside_refl lo hi m : same_outside lo hi m m.
Proof. done. Qed.

Lemma same_outside_trans lo hi m1 m2 m3 :
  same_outside lo hi m1 m2 -> same_outside lo hi m2 m3 -> same_outside lo hi m1 m3.
Proof. intros H1 H2 a Ha. by rewrite H2, H1. Qed.

Lemma same_outside_weaken lo hi lo' hi' m m' :
  same_outside lo hi m m' -> lo' <= lo -> hi <= hi' -> same_outside lo' hi' m m'.
Proof. intros H ?? a Ha. apply H. lia. Qed.

Lemma st8_same_outside m a v : same_outside a (a + 1) m (st8 m a v).
Proof. intros b Hb. apply ld8_st8_ne. lia. Qed.

Lemma ld8_fill m p n v a :
  ld8 (fill m p n v) a = if (p <=? a) && (a <? p + Z.of_nat n) then wrap8 v else ld8 m a.
Proof.
  revert m p; induction n as [|n IH]; intros m p; simpl.
  - destruct (Z.leb_spec p a), (Z.ltb_spec a (p + Z.of_nat 0)); simpl; auto; lia.
  - rewrite IH, ld8_st8.
    destruct (Z.leb_spec (p + 1) a), (Z.ltb_spec a (p + 1 + Z.of_nat n)), (Z.eqb_spec a p),
      (Z.leb_spec p a), (Z.ltb_spec a (p + Z.of_nat (S n))); simpl; auto; lia.
Qed.

Lemma fill_same_outside m p n v : same_outside p (p + Z.of_nat n) m (fill m p n v).
Proof.
  intros a Ha. rewrite ld8_fill.
  by destruct (Z.leb_spec p a), (Z.ltb_spec a (p + Z.of_nat n)); simpl; try lia.
Qed.

Lemma ld8_store m p vs a :
  ld8 (store m p vs) a =
  if (p <=? a) && (a <? p + Z.of_nat (length vs))
  then wrap8 (default 0 (vs !! Z.to_nat (a - p))) else ld8 m a.
Proof.
  revert m p; induction vs as [|v vs IH]; intros m p; simpl.
  - destruct (Z.leb_spec p a), (Z.ltb_spec a (p + Z.of_nat 0)); simpl; auto; lia.
  - rewrite IH, ld8_st8.
    destruct (Z.leb_spec (p + 1) a), (Z.ltb_spec a (p + 1 + Z.of_nat (length vs))),
      (Z.eqb_spec a p), (Z.leb_spec p a),
      (Z.ltb_spec a (p + Z.of_nat (S (length vs)))); simpl; try lia; auto.
    + replace (Z.to_nat (a - p)) with (S (Z.to_nat (a - (p + 1)))) by lia. done.
    + subst. by rewrite Z.sub_diag.
Qed.

Lemma store_same_outside m p vs : same_outside p (p + Z.of_nat (length vs)) m (store m p vs).
Proof.
  intros a Ha. rewrite ld8_store.
  by destruct (Z.leb_spec p a), (Z.ltb_spec a (p + Z.of_nat (length vs))); simpl; try lia.
Qed.

Lemma store_app m p vs ws :
  store m p (vs ++ ws) = store (store m p vs) (p + Z.of_nat (length vs)) ws.
Proof.
  revert m p. induction vs as [|v vs IH]; intros m p; cbn [app store length].
  - f_equal. lia.
  - rewrite IH. f_equal. lia.
Qed.

Lemma load_store m p vs : Forall is_byte vs -> load (store m p vs) p (length vs) = vs.
Proof.
  intros Hb. apply list_eq. intros i. destruct (decide (i < length vs)%nat) as [Hi|Hi].
  - rewrite load_lookup by lia. rewrite ld8_store.
    destruct (Z.leb_spec p (p + Z.of_nat i)),
      (Z.ltb_spec (p + Z.of_nat i) (p + Z.of_nat (length vs))); simpl; try lia.
    replace (Z.to_nat (p + Z.of_nat i - p)) with i by lia.
    destruct (lookup_lt_is_Some_2 vs i Hi) as [v Hv]. rewrite Hv. simpl.
    by rewrite wrap8_small by (eapply Forall_lookup_1; eauto).
  - rewrite !lookup_ge_None_2; rewrite ?length_load; try lia; done.
Qed.
End Lemmas.

(** [m'] is [m] with the [n] bytes at [src] written to [dst], as if all of them
    had been read before the first write. *)
Definition copied (dst src n : Z) (m m' : mem) : Prop :=
  forall a, ld8 m' a = if (dst <=? a) && (a <? dst + n) then ld8 m (src + (a - dst)) else ld8 m a.

Lemma copied_nothing dst src n m : n <= 0 -> copied dst src n m m.
Proof.
  intros Hn a. destruct (Z.leb_spec dst a), (Z.ltb_spec a (dst + n)); simpl; auto; lia.
Qed.

Lemma copied_self p n m : copied p p n m m.
Proof. intros a. split_if; [f_equal; lia|done]. Qed.

(** Copying a range in two parts, when the first part is not written into the
    source of the second. *)
Lemma copied_app dst src n k m m1 m2 :
  0 <= n -> 0 <= k -> disjoint_ranges dst (n + k) src (n + k) ->
  copied dst src n m m1 -> copied (dst + n) (src + n) k m1 m2 -> copied dst src (n + k) m m2.
Proof.
  intros Hn Hk Hd H1 H2 a. unfold disjoint_ranges in Hd.
  rewrite H2, !H1.
  destruct (Z.leb_spec (dst + n) a), (Z.ltb_spec a (dst + n + k)), (Z.leb_spec dst a),
    (Z.ltb_spec a (dst + n)), (Z.ltb_spec a (dst + (n + k))); simpl; try lia; auto.
  destruct (Z.leb_spec dst (src + n + (a - (dst + n)))),
    (Z.ltb_spec (src + n + (a - (dst + n))) (dst + n)); simpl; try lia; f_equal; lia.
Qed.

(** The three copy loops of the runtime agree with "read everything, then
    write": forward when the destination does not start inside the source,
    backward when it does not end inside it. *)

Lemma copy_forward_copied m dst src n :
  dst <= src \/ src + Z.of_nat n <= dst ->
  copied dst src (Z.of_nat n) m (copy_forward m dst src n).
Proof.
  intros Hd a. revert m dst src Hd; induction n as [|n IH]; intros m dst src Hd; simpl.
  - destruct (Z.leb_spec dst a), (Z.ltb_spec a (dst + Z.of_nat 0)); simpl; auto; lia.
  - rewrite IH by lia. rewrite !ld8_st8, wrap8_small by apply ld8_range.
    destruct (Z.leb_spec (dst + 1) a), (Z.ltb_spec a (dst + 1 + Z.of_nat n)),
      (Z.leb_spec dst a), (Z.ltb_spec a (dst + Z.of_nat (S n)));
      simpl; try lia; try (destruct (Z.eqb_spec a dst); try lia; f_equal; lia).
    destruct (Z.eqb_spec (src + 1 + (a - (dst + 1))) dst); [lia|]. f_equal. lia.
Qed.

Lemma copy_backward_copied m dst src n :
  src <= dst \/ dst + Z.of_nat n <= src ->
  copied dst src (Z.of_nat n) m (copy_backward m dst src n).
Proof.
  intros Hd a. revert m Hd; induction n as [|n IH]; intros m Hd; cbn [copy_backward].
  - destruct (Z.leb_spec dst a), (Z.ltb_spec a (dst + Z.of_nat 0)); simpl; auto; lia.
  - rewrite IH by lia. rewrite !ld8_st8, wrap8_small by apply ld8_range.
    destruct (Z.leb_spec dst a), (Z.ltb_spec a (dst + Z.of_nat n)),
      (Z.ltb_spec a (dst + Z.of_nat (S n))); simpl; try lia;
      try (destruct (Z.eqb_spec a (dst + Z.of_nat n)); try lia; f_equal; lia).
    destruct (Z.eqb_spec (src + (a - dst)) (dst + Z.of_nat n)); [lia|]. done.
Qed.

Lemma copied_load m m' dst src n :
  copied dst src (Z.of_nat n) m m' ->
  load m' dst n = load m src n /\ same_outside dst (dst + Z.of_nat n) m m'.
Proof.
  intros H. split.
  - apply load_ext. intros i Hi. rewrite H.
    destruct (Z.leb_spec dst (dst + i)), (Z.ltb_spec (dst + i) (dst + Z.of_nat n));
      simpl; try lia. f_equal. lia.
  - intros a Ha. rewrite H.
    destruct (Z.leb_spec dst a), (Z.ltb_spec a (dst + Z.of_nat n)); simpl; try lia; done.
Qed.

Lemma copied_load_bytes m m' dst src n :
  0 <= n -> copied dst src n m m' ->
  load_bytes m' dst n = load_bytes m src n /\ same_outside dst (dst + n) m m'.
Proof.
  intros Hn H. unfold load_bytes. rewrite <- (Z2Nat.id n) in H by done.
  destruct (copied_load _ _ _ _ _ H) as [H1 H2]. rewrite Z2Nat.id in H2 by done. done.
Qed.

#[export] Hint Resolve ld8_range same_outside_refl : sloppy.
