(* ===== verification/Status.v ===== *)
(** Status helpers and checked [size_t] arithmetic
    (src/core/status.c, src/core/checked_math.c). *)

From S2P Require Import Prelude.

Definition sl_status_is_ok (status : SlStatusCode) : bool :=
  match status with SL_STATUS_OK => true | _ => false end.

Definition sl_checked_add_size (a b : Z) (out : nullable) : result Z :=
  error_if is_null out with SL_STATUS_INVALID_ARGUMENT ;;
  error_if SIZE_MAX - b <? a with SL_STATUS_OVERFLOW ;;
  Ok (wrap64 (a + b)).

Definition sl_checked_mul_size (a b : Z) (out : nullable) : result Z :=
  error_if is_null out with SL_STATUS_INVALID_ARGUMENT ;;
  error_if negb (a =? 0) && (SIZE_MAX / a <? b) with SL_STATUS_OVERFLOW ;;
  Ok (wrap64 (a * b)).

Definition sl_checked_add3_size (a b c : Z) (out : nullable) : result Z :=
  error_if is_null out with SL_STATUS_INVALID_ARGUMENT ;;
  partial ← sl_checked_add_size a b REF;
  sl_checked_add_size partial c out.

Definition sl_checked_array_size (count elem_size : Z) (out : nullable) : result Z :=
  sl_checked_mul_size count elem_size out.

(** * Lemmas *)

(** What the checked operations compute, in terms of the unbounded result. *)
Definition checked (exact : Z) : result Z :=
  if exact <=? SIZE_MAX then Ok exact else Err SL_STATUS_OVERFLOW.

Lemma checked_add_spec a b :
  is_size a -> is_size b -> sl_checked_add_size a b REF = checked (a + b).
Proof.
  intros Ha Hb. unfold sl_checked_add_size, checked. simpl.
  destruct (Z.ltb_spec (SIZE_MAX - b) a), (Z.leb_spec (a + b) SIZE_MAX); try lia; [done|].
  by rewrite wrap64_small by size_lia.
Qed.

Lemma checked_mul_spec a b :
  is_size a -> is_size b -> sl_checked_mul_size a b REF = checked (a * b).
Proof.
  intros Ha Hb. unfold sl_checked_mul_size, checked. simpl.
  destruct (Z.eqb_spec a 0) as [->|Hne]; simpl; [done|].
  assert (H : b <= SIZE_MAX / a <-> a * b <= SIZE_MAX).
  { split; intros; [|apply Z.div_le_lower_bound; size_lia].
    etransitivity; [apply Z.mul_le_mono_nonneg_l; [size_lia|done]|].
    apply Z.mul_div_le. size_lia. }
  destruct (Z.ltb_spec (SIZE_MAX / a) b), (Z.leb_spec (a * b) SIZE_MAX); try lia; [done|].
  rewrite wrap64_small; [done|]. unfold is_size in *. nia.
Qed.

Lemma checked_ok z r : checked z = Ok r -> r = z /\ z <= SIZE_MAX.
Proof. unfold checked. destruct (Z.leb_spec z SIZE_MAX); naive_solver. Qed.

Lemma checked_add_ok a b r :
  is_size a -> is_size b -> sl_checked_add_size a b REF = Ok r -> r = a + b /\ is_size r.
Proof.
  intros Ha Hb H. rewrite checked_add_spec in H by done. apply checked_ok in H as [-> ?].
  split; [done|]. size_lia.
Qed.

Lemma checked_mul_ok a b r :
  is_size a -> is_size b -> sl_checked_mul_size a b REF = Ok r -> r = a * b /\ is_size r.
Proof.
  intros Ha Hb H. rewrite checked_mul_spec in H by done. apply checked_ok in H as [-> ?].
  split; [done|]. unfold is_size in *. nia.
Qed.

(** The checked size helpers compute the exact sum, product and three-way
    sum when it fits in [size_t] and report OVERFLOW otherwise; they never
    return a wrapped value. *)
Theorem checked_size_arithmetic_exact a b c :
  is_size a -> is_size b -> is_size c ->
  sl_checked_add_size a b REF = checked (a + b) /\
  sl_checked_mul_size a b REF = checked (a * b) /\
  sl_checked_array_size a b REF = checked (a * b) /\
  sl_checked_add3_size a b c REF = checked (a + b + c).
Proof.
  intros Ha Hb Hc. split_and!; [by apply checked_add_spec|by apply checked_mul_spec..|].
  unfold sl_checked_add3_size. simpl. rewrite checked_add_spec by done. unfold checked at 1.
  destruct (Z.leb_spec (a + b) SIZE_MAX); simpl.
  - apply checked_add_spec; [size_lia|done].
  - unfold checked. destruct (Z.leb_spec (a + b + c) SIZE_MAX); [size_lia|done].
Qed.

Lemma checked_size_arithmetic_exact_witness :
  sl_checked_add_size SIZE_MAX 1 REF = Err SL_STATUS_OVERFLOW /\
  sl_checked_mul_size (2 ^ 32) (2 ^ 31) REF = Ok (2 ^ 63) /\
  sl_checked_add3_size SIZE_MAX 0 1 REF = Err SL_STATUS_OVERFLOW.
Proof.
  split; [|split].
  - apply (checked_size_arithmetic_exact SIZE_MAX 1 0); size_lia.
  - apply (checked_size_arithmetic_exact (2 ^ 32) (2 ^ 31) 0); size_lia.
  - apply (checked_size_arithmetic_exact SIZE_MAX 0 1); size_lia.
Defined.
