(* ===== verification/Arena.v ===== *)
(** The caller-backed arena allocator (src/core/arena.c).

    The arena owns no storage: [ar_base] is the address of the caller's buffer
    in the flat memory.  Operations run on a [World], the memory together with
    the arena they are given; assert-enabled builds poison the ranges they hand
    out or take back, which the model performs on the memory. *)

From S2P Require Import Prelude Memory Status.

Record SlArena := {
  ar_base : Z;
  ar_capacity : Z;
  ar_offset : Z;
  ar_high_water : Z;
  ar_generation : Z;
}.

Record SlArenaMark := { mark_offset : Z; mark_generation : Z }.

Record SlArenaStats := {
  stats_capacity : Z;
  stats_used : Z;
  stats_remaining : Z;
  stats_high_water : Z;
  stats_generation : Z;
}.

Record World := { w_mem : mem; w_arena : SlArena }.

Definition SL_ARENA_POISON_ALLOC : Z := 205.
Definition SL_ARENA_POISON_RESET : Z := 221.

Definition set_arena (a : SlArena) (w : World) : World := {| w_mem := w_mem w; w_arena := a |}.
Definition set_mem (m : mem) (w : World) : World := {| w_mem := m; w_arena := w_arena w |}.

Definition with_offset (offset high_water : Z) (a : SlArena) : SlArena :=
  {| ar_base := ar_base a; ar_capacity := ar_capacity a; ar_offset := offset;
     ar_high_water := high_water; ar_generation := ar_generation a |}.

Section Operations.
Context `{BuildConfig}.

Definition sl_arena_is_power_of_two (value : Z) : bool :=
  negb (value =? 0) && (Z.land value (wrap64 (value - 1)) =? 0).

(** [sl_arena_poison], compiled only into assert-enabled builds. *)
Definition sl_arena_poison (ptr size value : Z) (w : World) : World :=
  if SL_ENABLE_ASSERTS then set_mem (fill (w_mem w) ptr (Z.to_nat size) value) w else w.

Definition sl_arena_alignment_padding (arena : SlArena) (alignment : Z) : result Z :=
  error_if UINTPTR_MAX <? alignment with SL_STATUS_INVALID_ARGUMENT ;;
  let base_address := ar_base arena in
  error_if UINTPTR_MAX - base_address <? ar_offset arena with SL_STATUS_INTERNAL ;;
  let current_address := wrap64 (base_address + ar_offset arena) in
  let mask := wrap64 (alignment - 1) in
  let misalignment := Z.land current_address mask in
  Ok (if misalignment =? 0 then 0 else wrap64 (alignment - misalignment)).

Definition sl_arena_init (arena : nullable) (buffer capacity : Z) : ST World unit :=
  return_if is_null arena with SL_STATUS_INVALID_ARGUMENT ;;
  return_if (buffer =? 0) && negb (capacity =? 0) with SL_STATUS_INVALID_ARGUMENT ;;
  modify (set_arena {| ar_base := buffer; ar_capacity := capacity; ar_offset := 0;
                       ar_high_water := 0; ar_generation := 1 |}).

(** [generation += 1; if (generation == 0) generation = 1;] on an [unsigned int]. *)
Definition next_generation (generation : Z) : Z :=
  let next := wrap32 (generation + 1) in if next =? 0 then 1 else next.

Definition sl_arena_reset (arena : nullable) (w : World) : World :=
  if is_null arena then w else
  let a := w_arena w in
  let w :=
    if negb (ar_base a =? 0) && negb (ar_offset a =? 0) then
      let poison_size := if ar_capacity a <? ar_offset a then ar_capacity a else ar_offset a in
      if negb (poison_size =? 0)
      then sl_arena_poison (ar_base a) poison_size SL_ARENA_POISON_RESET w else w
    else w in
  set_arena {| ar_base := ar_base a; ar_capacity := ar_capacity a; ar_offset := 0;
               ar_high_water := ar_high_water a;
               ar_generation := next_generation (ar_generation a) |} w.

Definition sl_arena_dispose (arena : nullable) (w : World) : World :=
  if is_null arena then w else
  let a := w_arena w in
  let w :=
    if negb (ar_base a =? 0) && negb (ar_offset a =? 0)
    then sl_arena_poison (ar_base a) (ar_offset a) SL_ARENA_POISON_RESET w else w in
  set_arena {| ar_base := 0; ar_capacity := 0; ar_offset := 0; ar_high_water := 0;
               ar_generation := next_generation (ar_generation a) |} w.

Definition sl_arena_mark (arena : nullable) (w : World) : SlArenaMark :=
  if is_null arena then {| mark_offset := 0; mark_generation := 0 |}
  else {| mark_offset := ar_offset (w_arena w); mark_generation := ar_generation (w_arena w) |}.

Definition sl_arena_reset_to (arena : nullable) (mark : SlArenaMark) : ST World unit :=
  a ← gets w_arena;
  return_if is_null arena with SL_STATUS_INVALID_ARGUMENT ;;
  return_if negb (mark_generation mark =? ar_generation a) with SL_STATUS_INVALID_ARGUMENT ;;
  return_if (ar_offset a <? mark_offset mark) || (ar_capacity a <? mark_offset mark)
    with SL_STATUS_OUT_OF_RANGE ;;
  modify (fun w =>
    if negb (ar_base a =? 0) && (mark_offset mark <? ar_offset a)
    then sl_arena_poison (ar_base a + mark_offset mark) (ar_offset a - mark_offset mark)
           SL_ARENA_POISON_RESET w
    else w);;
  modify (set_arena (with_offset (mark_offset mark) (ar_high_water a) a)).

Definition sl_arena_alloc (arena : nullable) (size alignment : Z) (out : nullable) : ST World Z :=
  a ← gets w_arena;
  return_if is_null arena || is_null out || (size =? 0)
            || negb (sl_arena_is_power_of_two alignment)
    with SL_STATUS_INVALID_ARGUMENT ;;
  return_if (ar_capacity a <? ar_offset a) || ((ar_base a =? 0) && negb (ar_capacity a =? 0))
    with SL_STATUS_INTERNAL ;;
  return_if ar_base a =? 0 with SL_STATUS_OUT_OF_MEMORY ;;
  padding ← lift (sl_arena_alignment_padding a alignment);
  total_advance ← lift (sl_checked_add_size padding size REF);
  offset_with_padding ← lift (sl_checked_add_size (ar_offset a) padding REF);
  final_offset ← lift (sl_checked_add_size (ar_offset a) total_advance REF);
  return_if ar_capacity a <? final_offset with SL_STATUS_OUT_OF_MEMORY ;;
  let result := ar_base a + offset_with_padding in
  let high_water :=
    if ar_high_water a <? final_offset then final_offset else ar_high_water a in
  modify (set_arena (with_offset final_offset high_water a));;
  modify (sl_arena_poison result size SL_ARENA_POISON_ALLOC);;
  mret result.

Definition sl_arena_capacity (arena : nullable) (w : World) : Z :=
  if is_null arena then 0 else ar_capacity (w_arena w).

Definition sl_arena_used (arena : nullable) (w : World) : Z :=
  if is_null arena then 0 else ar_offset (w_arena w).

Definition sl_arena_remaining (arena : nullable) (w : World) : Z :=
  if is_null arena || (ar_capacity (w_arena w) <? ar_offset (w_arena w)) then 0
  else ar_capacity (w_arena w) - ar_offset (w_arena w).

Definition sl_arena_high_water (arena : nullable) (w : World) : Z :=
  if is_null arena then 0 else ar_high_water (w_arena w).

Definition sl_arena_stats (arena : nullable) (w : World) : SlArenaStats :=
  if is_null arena
  then {| stats_capacity := 0; stats_used := 0; stats_remaining := 0; stats_high_water := 0;
          stats_generation := 0 |}
  else {| stats_capacity := ar_capacity (w_arena w);
          stats_used := ar_offset (w_arena w);
          stats_remaining := sl_arena_remaining arena w;
          stats_high_water := ar_high_water (w_arena w);
          stats_generation := ar_generation (w_arena w) |}.

Definition sl_arena_contains_str (arena : nullable) (str : SlStr) (w : World) : bool :=
  let a := w_arena w in
  if is_null arena then false else
  if str_length str =? 0 then true else
  if (ar_base a =? 0) || (str_ptr str =? 0) || (ar_capacity a =? 0)
     || (UINTPTR_MAX <? ar_capacity a)
  then false else
  let arena_start := ar_base a in
  if UINTPTR_MAX - arena_start <? ar_capacity a then false else
  let arena_end := wrap64 (arena_start + ar_capacity a) in
  let str_start := str_ptr str in
  if UINTPTR_MAX - str_start <? str_length str then false else
  let str_end := wrap64 (str_start + str_length str) in
  (arena_start <=? str_start) && (str_end <=? arena_end).
End Operations.

#[global] Arguments sl_arena_alloc : simpl never.
#[global] Arguments sl_arena_reset : simpl never.
#[global] Arguments sl_arena_reset_to : simpl never.
#[global] Arguments sl_arena_dispose : simpl never.
#[global] Arguments sl_arena_poison : simpl never.

(** * Invariant *)

Definition arena_wf (a : SlArena) : Prop :=
  0 <= ar_offset a <= ar_high_water a /\ ar_high_water a <= ar_capacity a /\
  0 <= ar_base a /\ (ar_base a = 0 -> ar_capacity a = 0) /\
  ar_base a + ar_capacity a <= UINTPTR_MAX /\
  1 <= ar_generation a <= UINT32_MAX.

(** The padding that moves the cursor to the next multiple of [alignment]. *)
Definition arena_padding (a : SlArena) (alignment : Z) : Z :=
  (- (ar_base a + ar_offset a)) mod alignment.

Lemma land_pred_zero_pow2 v : 0 < v -> Z.land v (v - 1) = 0 -> v = 2 ^ Z.log2 v.
Proof.
  intros Hv Hl. destruct (Z.log2_spec v Hv) as [Hlo Hhi].
  destruct (Z.eq_dec v (2 ^ Z.log2 v)) as [|Hne]; [done|exfalso].
  assert (Hlog : Z.log2 (v - 1) = Z.log2 v).
  { apply Z.log2_unique; [apply Z.log2_nonneg|]. lia. }
  assert (Hbit : Z.testbit (Z.land v (v - 1)) (Z.log2 v) = true).
  { rewrite Z.land_spec, Z.bit_log2 by lia. rewrite <- Hlog, Z.bit_log2; [done|].
    pose proof (Z.pow_pos_nonneg 2 (Z.log2 v) ltac:(lia) (Z.log2_nonneg v)). lia. }
  rewrite Hl, Z.bits_0 in Hbit. done.
Qed.

Lemma is_power_of_two_inv v :
  is_size v -> sl_arena_is_power_of_two v = true -> exists k, 0 <= k < 64 /\ v = 2 ^ k.
Proof.
  intros Hv H. unfold sl_arena_is_power_of_two in H. apply andb_true_iff in H as [H1 H2].
  rewrite wrap64_small in H2 by size_lia. apply Z.eqb_eq in H2.
  exists (Z.log2 v). split.
  - split; [apply Z.log2_nonneg|]. apply Z.log2_lt_pow2; size_lia.
  - apply land_pred_zero_pow2; [size_lia|done].
Qed.

Lemma alignment_padding_spec a k :
  arena_wf a -> 0 <= k < 64 ->
  sl_arena_alignment_padding a (2 ^ k) = Ok (arena_padding a (2 ^ k)).
Proof.
  intros Hwf Hk. unfold arena_wf in Hwf.
  assert (H2 : 1 <= 2 ^ k <= 2 ^ 63).
  { split; [pose proof (Z.pow_pos_nonneg 2 k)|apply Z.pow_le_mono_r]; lia. }
  unfold sl_arena_alignment_padding, arena_padding.
  destruct (Z.ltb_spec UINTPTR_MAX (2 ^ k)); [size_lia|].
  destruct (Z.ltb_spec (UINTPTR_MAX - ar_base a) (ar_offset a)); [size_lia|].
  rewrite (wrap64_small (ar_base a + ar_offset a)) by size_lia.
  rewrite (wrap64_small (2 ^ k - 1)) by size_lia.
  replace (2 ^ k - 1) with (Z.ones k) by (rewrite Z.ones_equiv; lia).
  rewrite Z.land_ones by lia. f_equal.
  set (cur := ar_base a + ar_offset a).
  pose proof (Z.mod_pos_bound cur (2 ^ k) ltac:(lia)).
  destruct (Z.eqb_spec (cur mod 2 ^ k) 0) as [E|E].
  - by rewrite Z.mod_opp_l_z by lia.
  - rewrite Z.mod_opp_l_nz by lia. apply wrap64_small. size_lia.
Qed.

Section Laws.
Context `{BuildConfig}.
Implicit Types (w : World).

Lemma sl_arena_poison_arena p n v w : w_arena (sl_arena_poison p n v w) = w_arena w.
Proof. unfold sl_arena_poison. by destruct SL_ENABLE_ASSERTS. Qed.

Lemma sl_arena_poison_mem p n v w :
  0 <= n -> same_outside p (p + n) (w_mem w) (w_mem (sl_arena_poison p n v w)).
Proof.
  intros. unfold sl_arena_poison. destruct SL_ENABLE_ASSERTS; simpl; [|done].
  rewrite <- (Z2Nat.id n) at 1 by done. apply fill_same_outside.
Qed.

(** The block an allocation returns: aligned, placed at the first aligned
    address after the cursor, inside the buffer, written nowhere else. *)
Record alloc_post (size alignment p : Z) (w w' : World) : Prop := {
  ap_align : p mod alignment = 0;
  ap_first : p = ar_base (w_arena w) + ar_offset (w_arena w)
                 + arena_padding (w_arena w) alignment;
  ap_fits : ar_offset (w_arena w') <= ar_capacity (w_arena w);
  ap_end : p + size = ar_base (w_arena w) + ar_offset (w_arena w');
  ap_arena : w_arena w' = with_offset (ar_offset (w_arena w'))
               (Z.max (ar_high_water (w_arena w)) (ar_offset (w_arena w'))) (w_arena w);
  ap_mem : same_outside p (p + size) (w_mem w) (w_mem w');
  ap_nonnull : 0 < ar_base (w_arena w);
}.

Lemma arena_padding_bound a al : 0 < al -> 0 <= arena_padding a al < al.
Proof. intros. apply Z.mod_pos_bound. done. Qed.

Lemma arena_padding_aligned a al :
  0 < al -> (ar_base a + ar_offset a + arena_padding a al) mod al = 0.
Proof.
  intros. unfold arena_padding. rewrite Zplus_mod_idemp_r.
  rewrite Z.add_opp_diag_r. done.
Qed.

(** Complete description of [sl_arena_alloc] on a well-formed arena. *)
Lemma sl_arena_alloc_cases size al w :
  arena_wf (w_arena w) -> is_size size -> is_size al ->
  match sl_arena_alloc REF size al REF w with
  | (Ok p, w') => size <> 0 /\ sl_arena_is_power_of_two al = true /\ alloc_post size al p w w'
  | (Err c, w') =>
      w' = w /\
      (size = 0 \/ sl_arena_is_power_of_two al = false \/ ar_base (w_arena w) = 0 \/
       ar_capacity (w_arena w) < ar_offset (w_arena w) + arena_padding (w_arena w) al + size)
  end.
Proof.
  intros Hwf Hsz Hal. pose proof Hwf as Hwf0. unfold arena_wf in Hwf0.
  unfold sl_arena_alloc. unfold_st. simpl.
  destruct (Z.eqb_spec size 0); simpl; [auto|].
  destruct (sl_arena_is_power_of_two al) eqn:Hp; simpl; [|auto].
  apply is_power_of_two_inv in Hp as (k & Hk & ->); [|done].
  destruct (Z.ltb_spec (ar_capacity (w_arena w)) (ar_offset (w_arena w))); simpl; [lia|].
  destruct (Z.eqb_spec (ar_base (w_arena w)) 0) as [E|E]; simpl.
  { destruct (Z.eqb_spec (ar_capacity (w_arena w)) 0); simpl; [auto|lia]. }
  rewrite alignment_padding_spec by done.
  assert (Hal0 : 0 < 2 ^ k) by (apply Z.pow_pos_nonneg; lia).
  pose proof (arena_padding_bound (w_arena w) (2 ^ k) Hal0) as Hpad.
  set (pad := arena_padding (w_arena w) (2 ^ k)) in *.
  rewrite !checked_add_spec by size_lia. unfold checked.
  destruct (Z.leb_spec (pad + size) SIZE_MAX); [|split; [done|right; right; right; size_lia]].
  destruct (Z.leb_spec (ar_offset (w_arena w) + pad) SIZE_MAX);
    [|split; [done|right; right; right; size_lia]].
  rewrite !checked_add_spec by size_lia. unfold checked.
  destruct (Z.leb_spec (ar_offset (w_arena w) + (pad + size)) SIZE_MAX);
    [|split; [done|right; right; right; size_lia]].
  destruct (Z.ltb_spec (ar_capacity (w_arena w)) (ar_offset (w_arena w) + (pad + size)));
    [split; [done|right; right; right; lia]|].
  split; [done|]. split; [done|].
  set (w1 := set_arena _ w).
  set (p := ar_base (w_arena w) + (ar_offset (w_arena w) + pad)).
  assert (Ha : w_arena (sl_arena_poison p size SL_ARENA_POISON_ALLOC w1) = w_arena w1)
    by apply sl_arena_poison_arena.
  constructor; rewrite ?Ha; unfold w1; simpl.
  - unfold p. rewrite Z.add_assoc. by apply arena_padding_aligned.
  - unfold p, pad. lia.
  - done.
  - unfold p. lia.
  - unfold with_offset; simpl. f_equal.
    destruct (Z.ltb_spec (ar_high_water (w_arena w)) (ar_offset (w_arena w) + (pad + size))); lia.
  - apply (sl_arena_poison_mem p size SL_ARENA_POISON_ALLOC w1). size_lia.
  - lia.
Qed.

Lemma sl_arena_alloc_ok size al p w w' :
  arena_wf (w_arena w) -> is_size size -> is_size al ->
  sl_arena_alloc REF size al REF w = (Ok p, w') ->
  size <> 0 /\ sl_arena_is_power_of_two al = true /\ alloc_post size al p w w'.
Proof. intros Hwf ?? E. pose proof (sl_arena_alloc_cases size al w) as P. rewrite E in P. auto. Qed.

Lemma sl_arena_alloc_err arena out size al c w w' :
  sl_arena_alloc arena size al out w = (Err c, w') -> w' = w.
Proof.
  unfold sl_arena_alloc. unfold_st. intros H0.
  repeat (split_match; simplify_eq; try done).
Qed.

(** An allocation that does not fit, and the statuses it is refused with. *)
Definition no_room (a : SlArena) (size al : Z) : Prop := ar_capacity a < ar_offset a + arena_padding a al + size.
Definition starved (c : SlStatusCode) : Prop := c = SL_STATUS_OUT_OF_MEMORY \/ c = SL_STATUS_OVERFLOW.

Lemma sl_arena_alloc_starved size al c w w' :
  arena_wf (w_arena w) -> is_size size -> is_size al -> size <> 0 -> sl_arena_is_power_of_two al = true ->
  sl_arena_alloc REF size al REF w = (Err c, w') -> w' = w /\ starved c /\ no_room (w_arena w) size al.
Proof.
  intros Hwf Hsz Hal Hnz Hp E. pose proof (sl_arena_alloc_cases size al w Hwf Hsz Hal) as Hc. rewrite E in Hc.
  destruct Hc as [-> Hc]. pose proof Hwf as Hwf0. unfold arena_wf in Hwf0. split; [done|].
  pose proof Hp as Hp'. apply is_power_of_two_inv in Hp' as (k & Hk & ->); [|done].
  pose proof (arena_padding_bound (w_arena w) (2 ^ k) ltac:(apply Z.pow_pos_nonneg; lia)). split.
  - revert E. unfold sl_arena_alloc. unfold_st. destruct (Z.eqb_spec size 0); [done|]. rewrite Hp. cbn [is_null orb negb].
    destruct (Z.ltb_spec (ar_capacity (w_arena w)) (ar_offset (w_arena w))); [lia|]. cbn [orb].
    destruct (Z.eqb_spec (ar_base (w_arena w)) 0) as [Eb|Eb]; cbn [andb].
    { destruct (Z.eqb_spec (ar_capacity (w_arena w)) 0); [|lia]. intros [= <-]. by left. }
    rewrite alignment_padding_spec by done. unfold sl_checked_add_size. cbn [is_null].
    repeat (split_if; [intros [= <-]; unfold starved; auto|]). done.
  - unfold no_room. destruct Hc as [?|[?|[Hb|?]]]; [done|congruence| |done]. size_lia.
Qed.

Lemma alloc_post_wf size al p w w' :
  arena_wf (w_arena w) -> 0 <= size -> sl_arena_is_power_of_two al = true -> is_size al ->
  alloc_post size al p w w' -> arena_wf (w_arena w').
Proof.
  intros Hwf Hs Hp Hal [? Hf ? He Ha ? ?].
  apply is_power_of_two_inv in Hp as (k & Hk & ->); [|done].
  pose proof (arena_padding_bound (w_arena w) (2 ^ k) ltac:(apply Z.pow_pos_nonneg; lia)).
  rewrite Ha. unfold arena_wf in *. simpl. lia.
Qed.
End Laws.

(** * What the arena promises its clients

    Clients hold views of bytes that are not in the arena's free space: caller
    storage, or blocks handed out earlier.  Such a view is untouched by an
    allocation, and the block returned is disjoint from it. *)

Definition outside_free (a : SlArena) (p n : Z) : Prop :=
  disjoint_ranges p n (ar_base a + ar_offset a) (ar_capacity a - ar_offset a).

(** A range inside the arena's used part, or anywhere but its free part, stays
    so while the arena only moves forward. *)
Lemma outside_free_forward a a' p n :
  ar_base a' = ar_base a -> ar_capacity a' = ar_capacity a -> ar_offset a <= ar_offset a' ->
  outside_free a p n -> outside_free a' p n.
Proof. unfold outside_free, disjoint_ranges. lia. Qed.

Lemma outside_free_sub a p n q k :
  outside_free a p n -> p <= q -> q + k <= p + n -> outside_free a q k.
Proof. unfold outside_free, disjoint_ranges. lia. Qed.

Lemma alloc_post_block size al p w w' :
  arena_wf (w_arena w) -> 0 < al -> 0 <= size -> alloc_post size al p w w' ->
  ar_base (w_arena w) + ar_offset (w_arena w) <= p /\
  p + size <= ar_base (w_arena w) + ar_capacity (w_arena w) /\ 0 < p.
Proof.
  intros Hwf Hal Hs [? Hf ? He Ha ? ?]. pose proof (arena_padding_bound (w_arena w) al Hal).
  unfold arena_wf in Hwf. lia.
Qed.

Lemma alloc_post_outside size al p w w' q n :
  arena_wf (w_arena w) -> 0 < al -> 0 <= size -> alloc_post size al p w w' ->
  outside_free (w_arena w) q n ->
  disjoint_ranges p size q n /\ load_bytes (w_mem w') q n = load_bytes (w_mem w) q n /\
  outside_free (w_arena w') q n.
Proof.
  intros Hwf Hal Hs Hpost Ho.
  destruct (alloc_post_block _ _ _ _ _ Hwf Hal Hs Hpost) as (? & ? & ?).
  destruct Hpost as [? Hf ? He Ha Hm ?].
  assert (Hd : disjoint_ranges p size q n) by (unfold outside_free, disjoint_ranges in *; lia).
  split_and!; [done| |].
  - eapply load_bytes_same; [apply Hm|]. unfold disjoint_ranges in *. lia.
  - apply (outside_free_forward (w_arena w)); [by rewrite Ha..|lia|done].
Qed.

(** What a client of the arena may rely on after a successful allocation. *)
Record fresh_block (p size : Z) (w w' : World) : Prop := {
  fb_pos : 0 < p;
  fb_end : p + size <= UINTPTR_MAX;
  fb_wf : arena_wf (w_arena w');
  fb_owned : outside_free (w_arena w') p size;
  fb_mem : same_outside p (p + size) (w_mem w) (w_mem w');
  fb_others : forall q n, outside_free (w_arena w) q n ->
    disjoint_ranges p size q n /\ load_bytes (w_mem w') q n = load_bytes (w_mem w) q n /\
    outside_free (w_arena w') q n;
}.

Lemma sl_arena_alloc_fresh `{BuildConfig} size al p w w' :
  arena_wf (w_arena w) -> is_size size -> is_size al ->
  sl_arena_alloc REF size al REF w = (Ok p, w') -> size <> 0 /\ fresh_block p size w w'.
Proof.
  intros Hwf Hs Hal E. apply sl_arena_alloc_ok in E as (Hz & Hp & Hpost); [|done..].
  assert (0 < al) by (apply is_power_of_two_inv in Hp as (k & ? & ->); [apply Z.pow_pos_nonneg; lia|done]).
  assert (0 <= size) by size_lia.
  pose proof (alloc_post_wf size al p w w' Hwf ltac:(lia) Hp Hal Hpost).
  destruct (alloc_post_block size al p w w') as (? & ? & ?); [done..|].
  split; [done|]. split; try done.
  - unfold arena_wf in Hwf. lia.
  - destruct Hpost as [? Hf ? He Ha ? ?]. unfold outside_free, disjoint_ranges.
    rewrite Ha in He |- *; simpl in *. lia.
  - apply Hpost.
  - intros q n. by apply (alloc_post_outside size al p w w').
Qed.

(** * The arena as a transition system

    A run of the arena interleaves allocations, rollbacks to marks and full
    resets, successful or not, with writes of the client into the blocks it
    holds.  The ghost list [sys_live] records the blocks that the contract of
    arena.h still allows the client to use, newest first; [sys_resets] counts
    full resets. *)

Record Block := { blk_ptr : Z; blk_size : Z; blk_align : Z }.

Record ArenaSys := {
  sys_world : World;
  sys_live : list Block;
  sys_resets : nat;
}.

Definition block_end (b : Block) : Z := blk_ptr b + blk_size b.

(** The block starts at a multiple of the alignment it was asked with, a power of two. *)
Definition aligned (b : Block) : Prop := sl_arena_is_power_of_two (blk_align b) = true /\ blk_ptr b mod blk_align b = 0.

(** The blocks a rollback to [offset] leaves valid. *)
Definition surviving (a : SlArena) (offset : Z) (live : list Block) : list Block :=
  filter (fun b => block_end b <= ar_base a + offset) live.

Inductive arena_op `{BuildConfig} : ArenaSys -> ArenaSys -> Prop :=
| op_alloc w live k size al p w' :
    is_size size -> is_size al ->
    sl_arena_alloc REF size al REF w = (Ok p, w') ->
    arena_op {| sys_world := w; sys_live := live; sys_resets := k |}
             {| sys_world := w'; sys_live := {| blk_ptr := p; blk_size := size; blk_align := al |} :: live; sys_resets := k |}
| op_alloc_err w live k arena size al out c w' :
    sl_arena_alloc arena size al out w = (Err c, w') ->
    arena_op {| sys_world := w; sys_live := live; sys_resets := k |}
             {| sys_world := w'; sys_live := live; sys_resets := k |}
| op_reset_to w live k mark w' :
    0 <= mark_offset mark ->
    sl_arena_reset_to REF mark w = (Ok tt, w') ->
    arena_op {| sys_world := w; sys_live := live; sys_resets := k |}
             {| sys_world := w'; sys_live := surviving (w_arena w) (mark_offset mark) live;
                sys_resets := k |}
| op_reset_to_err w live k arena mark c w' :
    sl_arena_reset_to arena mark w = (Err c, w') ->
    arena_op {| sys_world := w; sys_live := live; sys_resets := k |}
             {| sys_world := w'; sys_live := live; sys_resets := k |}
| op_reset w live k :
    arena_op {| sys_world := w; sys_live := live; sys_resets := k |}
             {| sys_world := sl_arena_reset REF w; sys_live := []; sys_resets := S k |}.

Inductive arena_step `{BuildConfig} : ArenaSys -> ArenaSys -> Prop :=
| step_op s s' : arena_op s s' -> arena_step s s'
| step_write w live k a v :
    Exists (fun b => blk_ptr b <= a < block_end b) live ->
    arena_step {| sys_world := w; sys_live := live; sys_resets := k |}
               {| sys_world := set_mem (st8 (w_mem w) a v) w; sys_live := live; sys_resets := k |}.

(** Blocks lie in allocation order between [base] and [top]. *)
Fixpoint stacked (base top : Z) (live : list Block) : Prop :=
  match live with
  | [] => base <= top
  | b :: rest => 0 < blk_size b /\ base <= blk_ptr b /\ block_end b <= top /\ stacked base (blk_ptr b) rest
  end.

Definition sys_inv (s : ArenaSys) : Prop :=
  let a := w_arena (sys_world s) in
  arena_wf a /\ stacked (ar_base a) (ar_base a + ar_offset a) (sys_live s) /\ Forall aligned (sys_live s).

Lemma stacked_weaken base top top' live :
  stacked base top live -> top <= top' -> stacked base top' live.
Proof. destruct live as [|b]; simpl; intuition lia. Qed.

Lemma stacked_base base top live : stacked base top live -> base <= top.
Proof.
  revert top; induction live as [|b live IH]; intros top; simpl; [done|].
  unfold block_end. intros (? & ? & ? & ?). lia.
Qed.

Lemma stacked_sublist base top live live' :
  sublist live' live -> stacked base top live -> stacked base top live'.
Proof.
  intros Hsub. revert top. induction Hsub as [|b l1 l2 _ IH|b l1 l2 _ IH]; intros top; simpl.
  - done.
  - intros (? & ? & ? & ?). auto.
  - intros (? & ? & ? & Hs). apply IH in Hs. eapply stacked_weaken; [done|unfold block_end in *; lia].
Qed.

Lemma stacked_filter base top top' live :
  stacked base top live -> base <= top' ->
  stacked base top' (filter (fun b => block_end b <= top') live).
Proof.
  intros Hs Hb.
  pose proof (stacked_sublist _ _ _ _ (sublist_filter (fun b => block_end b <= top') live) Hs) as Hs'.
  destruct (filter _ live) as [|b l] eqn:E; simpl in *; [done|].
  assert (Hin : b ∈ filter (fun b => block_end b <= top') live) by (rewrite E; apply list_elem_of_here).
  apply list_elem_of_filter in Hin as [Hle _]. intuition lia.
Qed.

Lemma stacked_block base top live b :
  stacked base top live -> b ∈ live -> 0 < blk_size b /\ base <= blk_ptr b /\ block_end b <= top.
Proof.
  revert top; induction live as [|c live IH]; intros top Hs Hin; [set_solver|].
  simpl in Hs. destruct Hs as (Hn & Hp & He & Hs). apply elem_of_cons in Hin as [->|Hin]; [lia|].
  specialize (IH _ Hs Hin). unfold block_end in *. lia.
Qed.

Definition disjoint_blocks (b c : Block) : Prop := disjoint_ranges (blk_ptr b) (blk_size b) (blk_ptr c) (blk_size c).

Lemma stacked_disjoint base top live i j b c :
  stacked base top live -> i <> j -> live !! i = Some b -> live !! j = Some c -> disjoint_blocks b c.
Proof.
  revert top i j; induction live as [|d live IH]; intros top i j Hs Hij Hi Hj; [done|].
  simpl in Hs. destruct Hs as (Hn & Hp & He & Hs). unfold disjoint_blocks, disjoint_ranges.
  destruct i as [|i], j as [|j]; simpl in Hi, Hj; simplify_eq; try lia.
  - apply list_elem_of_lookup_2, (stacked_block _ _ _ _ Hs) in Hj. unfold block_end in *. lia.
  - apply list_elem_of_lookup_2, (stacked_block _ _ _ _ Hs) in Hi. unfold block_end in *. lia.
  - eapply (IH _ i j); eauto.
Qed.

Section Reachability.
Context `{BuildConfig}.

Lemma next_generation_range g : 1 <= g <= UINT32_MAX -> 1 <= next_generation g <= UINT32_MAX.
Proof.
  intros. unfold next_generation. pose proof (wrap32_range (g + 1)).
  destruct (Z.eqb_spec (wrap32 (g + 1)) 0); size_lia.
Qed.

Lemma sl_arena_reset_arena w :
  w_arena (sl_arena_reset REF w) =
  {| ar_base := ar_base (w_arena w); ar_capacity := ar_capacity (w_arena w); ar_offset := 0;
     ar_high_water := ar_high_water (w_arena w);
     ar_generation := next_generation (ar_generation (w_arena w)) |}.
Proof. unfold sl_arena_reset. simpl. repeat split_if; done. Qed.

Lemma sl_arena_reset_wf w : arena_wf (w_arena w) -> arena_wf (w_arena (sl_arena_reset REF w)).
Proof.
  intros Hwf. rewrite sl_arena_reset_arena. unfold arena_wf in *; simpl.
  pose proof (next_generation_range (ar_generation (w_arena w))). lia.
Qed.

Lemma sl_arena_dispose_wf w : arena_wf (w_arena w) -> arena_wf (w_arena (sl_arena_dispose REF w)).
Proof.
  intros Hwf. unfold sl_arena_dispose; simpl. unfold arena_wf in *.
  pose proof (next_generation_range (ar_generation (w_arena w))). repeat split_if; simpl; size_lia.
Qed.

Lemma sl_arena_reset_to_err arena mark c w w' :
  sl_arena_reset_to arena mark w = (Err c, w') -> w' = w.
Proof. unfold sl_arena_reset_to. unfold_st. intros. repeat split_match; simplify_eq; done. Qed.

(** A successful rollback: the cursor is the mark's, and only bytes above the
    mark may have been poisoned. *)
Lemma sl_arena_reset_to_ok mark w w' :
  arena_wf (w_arena w) -> 0 <= mark_offset mark ->
  sl_arena_reset_to REF mark w = (Ok tt, w') ->
  mark_generation mark = ar_generation (w_arena w) /\
  mark_offset mark <= ar_offset (w_arena w) /\
  w_arena w' = with_offset (mark_offset mark) (ar_high_water (w_arena w)) (w_arena w) /\
  same_outside (ar_base (w_arena w) + mark_offset mark) (ar_base (w_arena w) + ar_offset (w_arena w))
    (w_mem w) (w_mem w').
Proof.
  intros Hwf Hm. unfold sl_arena_reset_to. unfold_st. simpl.
  destruct (Z.eqb_spec (mark_generation mark) (ar_generation (w_arena w))); simpl; [|done].
  destruct (Z.ltb_spec (ar_offset (w_arena w)) (mark_offset mark)); simpl; [done|].
  destruct (Z.ltb_spec (ar_capacity (w_arena w)) (mark_offset mark)); simpl; [done|].
  intros [= <-]. split_and!; [done..|].
  split_if; simpl; [|done].
  replace (ar_base (w_arena w) + ar_offset (w_arena w))
    with (ar_base (w_arena w) + mark_offset mark + (ar_offset (w_arena w) - mark_offset mark)) by lia.
  apply sl_arena_poison_mem. lia.
Qed.

Lemma arena_op_inv s s' : sys_inv s -> arena_op s s' -> sys_inv s'.
Proof.
  intros (Hwf & Hst & Hal) Hstep. destruct Hstep; unfold sys_inv in *; simpl in *.
  - match goal with E : sl_arena_alloc _ _ _ _ _ = _ |- _ =>
      apply sl_arena_alloc_ok in E as (Hz & Hp & Hpost); [|done..] end.
    split; [eapply alloc_post_wf; [done| |done|done|done]; size_lia|]. destruct Hpost as [? Hf ? He Ha ? ?].
    pose proof Hp as Hp'. apply is_power_of_two_inv in Hp' as (k' & Hk & ->); [|done].
    pose proof (arena_padding_bound (w_arena w) (2 ^ k') ltac:(apply Z.pow_pos_nonneg; lia)).
    unfold arena_wf in Hwf. rewrite Ha; simpl. unfold block_end; simpl. split_and!; [size_lia|lia|lia| |constructor; [by split|done]].
    eapply stacked_weaken; [done|]. lia.
  - match goal with E : sl_arena_alloc _ _ _ _ _ = _ |- _ =>
      apply sl_arena_alloc_err in E as -> end. done.
  - match goal with E : sl_arena_reset_to _ _ _ = _ |- _ =>
      apply sl_arena_reset_to_ok in E as (? & ? & Ha & ?); [|done..] end.
    rewrite Ha. simpl. split; [unfold arena_wf in *; simpl; lia|].
    unfold surviving. split; [eapply stacked_filter; [done|]; lia|rewrite Forall_forall in Hal |- *; intros b Hb; apply Hal; by apply list_elem_of_filter in Hb as [_ Hb]].
  - match goal with E : sl_arena_reset_to _ _ _ = _ |- _ =>
      apply sl_arena_reset_to_err in E as -> end. done.
  - split_and!; [exact (sl_arena_reset_wf w Hwf)|lia|constructor].
Qed.

Lemma arena_step_inv s s' : sys_inv s -> arena_step s s' -> sys_inv s'.
Proof. intros Hi Hs. destruct Hs; [by eapply arena_op_inv|done]. Qed.

Lemma arena_steps_inv s s' : sys_inv s -> rtc arena_step s s' -> sys_inv s'.
Proof. intros Hi Hs. induction Hs; eauto using arena_step_inv. Qed.

(** The state of a system whose arena was just initialised. *)
Definition arena_sys_init (buffer capacity : Z) (m : mem) (a0 : SlArena) : ArenaSys :=
  {| sys_world := snd (sl_arena_init REF buffer capacity {| w_mem := m; w_arena := a0 |});
     sys_live := []; sys_resets := 0 |}.

Lemma arena_sys_init_inv buffer capacity m a0 :
  0 < buffer -> 0 <= capacity -> buffer + capacity <= UINTPTR_MAX ->
  sys_inv (arena_sys_init buffer capacity m a0).
Proof.
  intros. unfold arena_sys_init, sl_arena_init. unfold_st. simpl.
  destruct (Z.eqb_spec buffer 0); [lia|]. simpl. unfold sys_inv, arena_wf. simpl. split_and!; [size_lia..|constructor].
Qed.

Lemma sl_arena_alloc_config arena size al out r w w' :
  sl_arena_alloc arena size al out w = (r, w') ->
  ar_base (w_arena w') = ar_base (w_arena w) /\ ar_capacity (w_arena w') = ar_capacity (w_arena w) /\
  ar_generation (w_arena w') = ar_generation (w_arena w).
Proof.
  unfold sl_arena_alloc. unfold_st. intros E.
  repeat (split_match; simplify_eq; try done); rewrite sl_arena_poison_arena; done.
Qed.

Lemma sl_arena_reset_to_config arena mark r w w' :
  sl_arena_reset_to arena mark w = (r, w') ->
  ar_base (w_arena w') = ar_base (w_arena w) /\ ar_capacity (w_arena w') = ar_capacity (w_arena w) /\
  ar_generation (w_arena w') = ar_generation (w_arena w).
Proof. unfold sl_arena_reset_to. unfold_st. intros E. repeat (split_match; simplify_eq; try done). Qed.

(** Only a full reset moves the generation, and nothing moves the buffer. *)
Lemma arena_step_config s s' :
  arena_step s s' ->
  let a := w_arena (sys_world s) in
  let a' := w_arena (sys_world s') in
  ar_base a' = ar_base a /\ ar_capacity a' = ar_capacity a /\
  (sys_resets s' = sys_resets s /\ ar_generation a' = ar_generation a \/
   sys_resets s' = S (sys_resets s) /\ ar_generation a' = next_generation (ar_generation a)).
Proof.
  intros Hstep. destruct Hstep as [?? Hop|]; [destruct Hop|]; simpl;
    repeat match goal with
    | E : sl_arena_alloc _ _ _ _ _ = _ |- _ => apply sl_arena_alloc_config in E
    | E : sl_arena_reset_to _ _ _ = _ |- _ => apply sl_arena_reset_to_config in E
    end; destruct_and?; (split_and!; [done..|]); first [by left | by right].
Qed.

Lemma arena_steps_config s s' :
  rtc arena_step s s' ->
  let a := w_arena (sys_world s) in
  let a' := w_arena (sys_world s') in
  ar_base a' = ar_base a /\ ar_capacity a' = ar_capacity a /\
  exists n, sys_resets s' = (n + sys_resets s)%nat /\
            ar_generation a' = Nat.iter n next_generation (ar_generation a).
Proof.
  induction 1 as [s|s1 s2 s3 H1 _ (Hb & Hc & n & Hn & Hg)]; simpl.
  - split_and!; [done..|]. by exists O.
  - apply arena_step_config in H1 as (Hb1 & Hc1 & [[Hr Hg1]|[Hr Hg1]]);
      (split_and!; [congruence..|]).
    + exists n. by rewrite Hn, Hg, Hr, Hg1.
    + exists (S n). rewrite Hn, Hg, Hr, Hg1, Nat.iter_succ_r. split; [lia|done].
Qed.

Lemma next_generation_mod g :
  1 <= g <= UINT32_MAX -> next_generation g = g mod UINT32_MAX + 1.
Proof.
  intros. unfold next_generation. destruct (Z.eq_dec g UINT32_MAX) as [->|].
  - by vm_compute.
  - rewrite wrap32_small, Z.mod_small by size_lia. destruct (Z.eqb_spec (g + 1) 0); size_lia.
Qed.

Lemma iter_next_generation n g :
  1 <= g <= UINT32_MAX ->
  Nat.iter n next_generation g = (g - 1 + Z.of_nat n) mod UINT32_MAX + 1.
Proof.
  intros Hg. induction n as [|n IH].
  - simpl. rewrite Z.mod_small by size_lia. lia.
  - rewrite Nat.iter_succ, IH, next_generation_mod.
    + rewrite Zplus_mod_idemp_l. do 2 f_equal. lia.
    + pose proof (Z.mod_pos_bound (g - 1 + Z.of_nat n) UINT32_MAX ltac:(size_lia)). lia.
Qed.
End Reachability.

(** * Properties *)

Section Theorems.
Context `{BuildConfig}.

(** C1: From initialisation on, in every state reachable by any interleaving of
    allocations, rollbacks, resets (successful or refused) and client writes,
    the blocks the client may still use lie inside the caller's buffer, each starts at
    a multiple of the alignment it was asked with, and no two of them share a byte. *)
Theorem arena_live_blocks_disjoint buffer capacity m a0 s :
  0 < buffer -> 0 <= capacity -> buffer + capacity <= UINTPTR_MAX ->
  rtc arena_step (arena_sys_init buffer capacity m a0) s ->
  (forall b, b ∈ sys_live s -> 0 < blk_size b /\ buffer <= blk_ptr b /\ block_end b <= buffer + capacity /\ aligned b) /\
  (forall i j b c, i <> j -> sys_live s !! i = Some b -> sys_live s !! j = Some c -> disjoint_blocks b c).
Proof.
  intros Hb Hc Hbc Hs. pose proof (arena_steps_config _ _ Hs) as (Hbase & Hcap & _).
  apply arena_steps_inv in Hs as (Hwf & Hst & Hal); [|by apply arena_sys_init_inv].
  unfold arena_sys_init, sl_arena_init in Hbase, Hcap. simpl in Hbase, Hcap.
  destruct (Z.eqb_spec buffer 0); [lia|]. simpl in *.
  split; [|eauto using stacked_disjoint].
  intros b Hin. rewrite Forall_forall in Hal. specialize (Hal b Hin).
  eapply stacked_block in Hin; [|done]. unfold arena_wf in Hwf. split_and!; [lia..|done].
Qed.

(** No arena operation, poisoning included, changes a byte of a block that
    stays valid: allocation leaves every live block alone, and a rollback or a
    refused request leaves the blocks that survive it alone. *)
Theorem arena_preserves_live_contents s s' b :
  sys_inv s -> arena_op s s' -> b ∈ sys_live s -> b ∈ sys_live s' ->
  load_bytes (w_mem (sys_world s')) (blk_ptr b) (blk_size b) =
  load_bytes (w_mem (sys_world s)) (blk_ptr b) (blk_size b).
Proof.
  intros (Hwf & Hst & _) Hop Hb Hb'.
  pose proof (stacked_block _ _ _ _ Hst Hb) as (Hn & Hlo & Hhi).
  destruct Hop; simpl in *.
  - match goal with E : sl_arena_alloc _ _ _ _ _ = _ |- _ =>
      apply sl_arena_alloc_ok in E as (Hz & Hp & []); [|done..] end.
    apply is_power_of_two_inv in Hp as (k' & Hk & ->); [|done].
    pose proof (arena_padding_bound (w_arena w) (2 ^ k') ltac:(apply Z.pow_pos_nonneg; lia)).
    eapply load_bytes_same; [done|]. unfold disjoint_ranges, block_end in *. lia.
  - match goal with E : sl_arena_alloc _ _ _ _ _ = _ |- _ =>
      apply sl_arena_alloc_err in E as -> end. done.
  - match goal with E : sl_arena_reset_to _ _ _ = _ |- _ =>
      apply sl_arena_reset_to_ok in E as (? & ? & Ha & Hm); [|done..] end.
    apply list_elem_of_filter in Hb' as [He _].
    eapply load_bytes_same; [done|]. unfold disjoint_ranges, block_end in *. lia.
  - match goal with E : sl_arena_reset_to _ _ _ = _ |- _ =>
      apply sl_arena_reset_to_err in E as -> end. done.
  - set_solver.
Qed.

(** [sl_arena_alloc] on a well-formed arena is total and exact.  It
    succeeds precisely when the size is nonzero, the alignment a power of two,
    the arena has storage and the padded request fits; the block then starts at
    the first aligned address at or after the cursor and ends at the new
    cursor, only its own bytes may be written, and the invariant is kept.
    Every refusal leaves memory and arena unchanged. *)
Theorem arena_alloc_exact size al w :
  arena_wf (w_arena w) -> is_size size -> is_size al ->
  let a := w_arena w in
  (size <> 0 /\ sl_arena_is_power_of_two al = true /\ ar_base a <> 0 /\
     ar_offset a + arena_padding a al + size <= ar_capacity a ->
   exists w', sl_arena_alloc REF size al REF w =
                (Ok (ar_base a + ar_offset a + arena_padding a al), w') /\
     (ar_base a + ar_offset a + arena_padding a al) mod al = 0 /\
     ar_offset (w_arena w') = ar_offset a + arena_padding a al + size /\
     same_outside (ar_base a + ar_offset a + arena_padding a al)
       (ar_base a + ar_offset a + arena_padding a al + size) (w_mem w) (w_mem w') /\
     arena_wf (w_arena w')) /\
  (~ (size <> 0 /\ sl_arena_is_power_of_two al = true /\ ar_base a <> 0 /\
      ar_offset a + arena_padding a al + size <= ar_capacity a) ->
   exists c, c <> SL_STATUS_OK /\ sl_arena_alloc REF size al REF w = (Err c, w)).
Proof.
  intros Hwf Hs Hal. simpl.
  pose proof (sl_arena_alloc_cases size al w Hwf Hs Hal) as P.
  destruct (sl_arena_alloc REF size al REF w) as [[p|c] w'] eqn:E; split.
  - intros _. destruct P as (? & Hp & Hpost). exists w'.
    assert (Hs0 : 0 <= size) by size_lia.
    pose proof (alloc_post_wf _ _ _ _ _ Hwf Hs0 Hp Hal Hpost).
    destruct Hpost as [? -> ? ? ? ? ?]. split_and!; auto. lia.
  - intros Hn. destruct P as (? & Hp & []). destruct Hn. split_and!; [done|done|lia|lia].
  - intros (? & ? & ? & ?). destruct P as [_ [?|[?|[?|?]]]]; congruence || lia.
  - intros _. destruct P as [-> _]. exists c. split; [|done].
    revert E. unfold sl_arena_alloc, sl_arena_alignment_padding, sl_checked_add_size. unfold_st.
    intros E. repeat (split_match; simplify_eq; try done).
Qed.

(** Marks.  A mark stays usable across any steps that contain no full
    reset and do not roll back below it: going back to it restores exactly the
    cursor it captured.  After at least one full reset, and for fewer than
    [2^32 - 1] of them (the generation counter then starts over), it is refused
    with INVALID_ARGUMENT and nothing changes. *)
Theorem arena_mark_lifetime s s' n :
  sys_inv s -> rtc arena_step s s' ->
  sys_resets s' = (n + sys_resets s)%nat -> Z.of_nat n < UINT32_MAX ->
  let mark := sl_arena_mark REF (sys_world s) in
  (n = O -> ar_offset (w_arena (sys_world s)) <= ar_offset (w_arena (sys_world s')) ->
   exists w', sl_arena_reset_to REF mark (sys_world s') = (Ok tt, w') /\
     w_arena w' = with_offset (ar_offset (w_arena (sys_world s)))
                    (ar_high_water (w_arena (sys_world s'))) (w_arena (sys_world s'))) /\
  (n <> O -> sl_arena_reset_to REF mark (sys_world s') =
               (Err SL_STATUS_INVALID_ARGUMENT, sys_world s')).
Proof.
  intros Hi Hs Hn Hlt. simpl. pose proof (arena_steps_inv _ _ Hi Hs) as [Hwf' _].
  destruct Hi as [Hwf _].
  destruct (arena_steps_config _ _ Hs) as (_ & Hc & n' & Hn' & Hg). assert (n' = n) as -> by lia.
  assert (Hr : 1 <= ar_generation (w_arena (sys_world s)) <= UINT32_MAX)
    by (unfold arena_wf in Hwf; lia).
  rewrite iter_next_generation in Hg by done.
  unfold sl_arena_reset_to, sl_arena_mark. unfold_st. simpl. rewrite Hg. split.
  - intros -> Ho. rewrite Z.add_0_r, Z.mod_small, Z.sub_add, Z.eqb_refl by size_lia. simpl.
    unfold arena_wf in Hwf'.
    destruct (Z.ltb_spec (ar_offset (w_arena (sys_world s'))) (ar_offset (w_arena (sys_world s))));
      [lia|].
    destruct (Z.ltb_spec (ar_capacity (w_arena (sys_world s'))) (ar_offset (w_arena (sys_world s))));
      [lia|].
    simpl. eexists. split; [done|]. done.
  - intros Hne. destruct (Z.eqb_spec (ar_generation (w_arena (sys_world s)))
      ((ar_generation (w_arena (sys_world s)) - 1 + Z.of_nat n) mod UINT32_MAX + 1)) as [E|];
      [exfalso|done].
    set (g := ar_generation (w_arena (sys_world s))) in *.
    destruct (Z_lt_ge_dec (g - 1 + Z.of_nat n) UINT32_MAX).
    + rewrite Z.mod_small in E by lia. lia.
    + rewrite <- (Z.mod_unique (g - 1 + Z.of_nat n) UINT32_MAX 1 (g - 1 + Z.of_nat n - UINT32_MAX))
        in E by lia. lia.
Qed.
End Theorems.

(** * Concrete runs *)

Module Demo.
#[local] Existing Instance assert_build.

(** A 64-byte arena at address 4096, then a 16-byte and a 3-byte block. *)
Definition demo0 : ArenaSys :=
  arena_sys_init 4096 64 (fun _ => 7) {| ar_base := 0; ar_capacity := 0; ar_offset := 0;
                                         ar_high_water := 0; ar_generation := 0 |}.
Definition demo1 : ArenaSys :=
  {| sys_world := snd (sl_arena_alloc REF 16 8 REF (sys_world demo0));
     sys_live := [{| blk_ptr := 4096; blk_size := 16; blk_align := 8 |}]; sys_resets := 0 |}.
Definition demo2 : ArenaSys :=
  {| sys_world := snd (sl_arena_alloc REF 3 1 REF (sys_world demo1));
     sys_live := {| blk_ptr := 4112; blk_size := 3; blk_align := 1 |} :: sys_live demo1; sys_resets := 0 |}.
Definition demo3 : ArenaSys :=
  {| sys_world := sl_arena_reset REF (sys_world demo2); sys_live := []; sys_resets := 1 |}.

Lemma demo_op1 : arena_op demo0 demo1.
Proof. eapply (op_alloc _ _ _ 16 8); [size_lia..|reflexivity]. Qed.

Lemma demo_op2 : arena_op demo1 demo2.
Proof. eapply (op_alloc _ _ _ 3 1); [size_lia..|reflexivity]. Qed.

Lemma demo_op3 : arena_op demo2 demo3.
Proof. apply op_reset. Qed.

Lemma demo_inv : sys_inv demo0.
Proof. apply arena_sys_init_inv; size_lia. Qed.

Lemma demo1_inv : sys_inv demo1.
Proof. eapply arena_op_inv; [apply demo_inv|apply demo_op1]. Qed.

Lemma arena_live_blocks_disjoint_witness : disjoint_ranges 4112 3 4096 16.
Proof.
  destruct (arena_live_blocks_disjoint 4096 64 (fun _ => 7)
    {| ar_base := 0; ar_capacity := 0; ar_offset := 0; ar_high_water := 0; ar_generation := 0 |}
    demo2) as [_ H]; [lia|lia|size_lia| |].
  - eapply rtc_l; [apply step_op, demo_op1|]. eapply rtc_l; [apply step_op, demo_op2|]. apply rtc_refl.
  - exact (H 0%nat 1%nat _ _ ltac:(lia) eq_refl eq_refl).
Defined.

Lemma arena_preserves_live_contents_witness :
  load_bytes (w_mem (sys_world demo2)) 4096 16 = repeat 205 16.
Proof.
  transitivity (load_bytes (w_mem (sys_world demo1)) 4096 16); [|reflexivity].
  apply (arena_preserves_live_contents demo1 demo2 {| blk_ptr := 4096; blk_size := 16; blk_align := 8 |}).
  - apply demo1_inv.
  - apply demo_op2.
  - apply list_elem_of_here.
  - apply list_elem_of_further, list_elem_of_here.
Defined.

Lemma arena_alloc_exact_witness :
  exists w', sl_arena_alloc REF 4 32 REF (sys_world demo2) = (Ok 4128, w').
Proof.
  destruct (arena_alloc_exact 4 32 (sys_world demo2)) as [H _].
  - eapply arena_op_inv; [apply demo1_inv|apply demo_op2].
  - size_lia.
  - size_lia.
  - destruct H as (w' & E & _); [|exists w'; exact E].
    split_and!; [lia|reflexivity|vm_compute; discriminate|vm_compute; discriminate].
Defined.

Lemma arena_mark_lifetime_witness :
  sl_arena_reset_to REF (sl_arena_mark REF (sys_world demo1)) (sys_world demo3) =
    (Err SL_STATUS_INVALID_ARGUMENT, sys_world demo3).
Proof.
  apply (arena_mark_lifetime demo1 demo3 1).
  - apply demo1_inv.
  - eapply rtc_l; [apply step_op, demo_op2|]. eapply rtc_l; [apply step_op, demo_op3|]. apply rtc_refl.
  - reflexivity.
  - size_lia.
  - lia.
Defined.
End Demo.
