(* ===== verification/Str.v ===== *)
(** Borrowed string views (src/core/string.c, everything that does not allocate).

    Byte data is read from the flat memory, so that the word-wise copy and
    compare loops run on real addresses. *)

From S2P Require Import Prelude Memory.

Definition SL_STR_WORD_SIZE : Z := 8.

Definition sl_str_has_valid_storage (str : SlStr) : bool :=
  (str_length str =? 0) || negb (str_ptr str =? 0).

Definition sl_internal_load_u64 (m : mem) (src : Z) : Z :=
  Z.lor (Z.lor (Z.lor (Z.lor (Z.lor (Z.lor (Z.lor
    (ld8 m src)
    (Z.shiftl (ld8 m (src + 1)) 8))
    (Z.shiftl (ld8 m (src + 2)) 16))
    (Z.shiftl (ld8 m (src + 3)) 24))
    (Z.shiftl (ld8 m (src + 4)) 32))
    (Z.shiftl (ld8 m (src + 5)) 40))
    (Z.shiftl (ld8 m (src + 6)) 48))
    (Z.shiftl (ld8 m (src + 7)) 56).

Definition sl_internal_store_u64 (m : mem) (dest word : Z) : mem :=
  let m := st8 m dest (Z.land word 255) in
  let m := st8 m (dest + 1) (Z.land (Z.shiftr word 8) 255) in
  let m := st8 m (dest + 2) (Z.land (Z.shiftr word 16) 255) in
  let m := st8 m (dest + 3) (Z.land (Z.shiftr word 24) 255) in
  let m := st8 m (dest + 4) (Z.land (Z.shiftr word 32) 255) in
  let m := st8 m (dest + 5) (Z.land (Z.shiftr word 40) 255) in
  let m := st8 m (dest + 6) (Z.land (Z.shiftr word 48) 255) in
  st8 m (dest + 7) (Z.land (Z.shiftr word 56) 255).

(** The word loop of [sl_internal_copy]; [index] is the byte index. *)
Fixpoint copy_words (m : mem) (dest src index : Z) (words : nat) : mem :=
  match words with
  | O => m
  | S words =>
      copy_words (sl_internal_store_u64 m (dest + index) (sl_internal_load_u64 m (src + index)))
        dest src (index + SL_STR_WORD_SIZE) words
  end.

Definition sl_internal_copy (m : mem) (dest src length : Z) : mem :=
  if (length =? 0) || (dest =? src) then m else
  let word_count := length / SL_STR_WORD_SIZE in
  let m := copy_words m dest src 0 (Z.to_nat word_count) in
  let index := word_count * SL_STR_WORD_SIZE in
  copy_forward m (dest + index) (src + index) (Z.to_nat (length - index)).

(** Byte-by-byte comparison: the loop shared by [sl_internal_compare_word_bytes]
    and the tail of [sl_internal_compare]. *)
Fixpoint compare_loop (m : mem) (left right : Z) (n : nat) : Z :=
  match n with
  | O => 0
  | S n =>
      let left_byte := ld8 m left in
      let right_byte := ld8 m right in
      if negb (left_byte =? right_byte) then (if left_byte <? right_byte then -1 else 1)
      else compare_loop m (left + 1) (right + 1) n
  end.

Definition sl_internal_compare_word_bytes (m : mem) (left right : Z) : Z :=
  compare_loop m left right (Z.to_nat SL_STR_WORD_SIZE).

(** The word loop, continuing with [tail] bytes after the last word. *)
Fixpoint compare_words (m : mem) (left right index : Z) (words : nat) (tail : nat) : Z :=
  match words with
  | O => compare_loop m (left + index) (right + index) tail
  | S words =>
      let left_word := sl_internal_load_u64 m (left + index) in
      let right_word := sl_internal_load_u64 m (right + index) in
      if negb (left_word =? right_word)
      then sl_internal_compare_word_bytes m (left + index) (right + index)
      else compare_words m left right (index + SL_STR_WORD_SIZE) words tail
  end.

Definition sl_internal_compare (m : mem) (left right length : Z) : Z :=
  if (length =? 0) || (left =? right) then 0 else
  let word_count := length / SL_STR_WORD_SIZE in
  compare_words m left right 0 (Z.to_nat word_count)
    (Z.to_nat (length - word_count * SL_STR_WORD_SIZE)).

Definition sl_str_ascii_lower (ch : Z) : Z :=
  let upper_delta := wrap32 (ch - 65) in
  let mask := Z.shiftl (if upper_delta <=? 25 then 1 else 0) 5 in
  Z.lor ch mask.

Definition sl_str_from_parts (ptr length : Z) : SlStr := {| str_ptr := ptr; str_length := length |}.

Definition sl_str_empty : SlStr := {| str_ptr := 0; str_length := 0 |}.

Definition sl_str_is_empty (str : SlStr) : bool := str_length str =? 0.

(** [while (cstr[length] != 0) length++], with a bound on the scan: a C string
    ends before the end of the address space. *)
Fixpoint cstr_length (m : mem) (cstr : Z) (fuel : nat) : option Z :=
  match fuel with
  | O => None
  | S fuel => if ld8 m cstr =? 0 then Some 0 else Z.succ <$> cstr_length m (cstr + 1) fuel
  end.

Definition sl_str_from_cstr (m : mem) (cstr : Z) (fuel : nat) : option SlStr :=
  if cstr =? 0 then Some sl_str_empty
  else sl_str_from_parts cstr <$> cstr_length m cstr fuel.

Definition sl_str_equal (m : mem) (left right : SlStr) : bool :=
  if negb (str_length left =? str_length right) then false else
  if str_length left =? 0 then true else
  if (str_ptr left =? 0) || (str_ptr right =? 0) then false else
  if str_ptr left =? str_ptr right then true else
  sl_internal_compare m (str_ptr left) (str_ptr right) (str_length left) =? 0.

Definition sl_str_compare (m : mem) (left right : SlStr) : Z :=
  let common :=
    if str_length left <? str_length right then str_length left else str_length right in
  let by_length :=
    if str_length left =? str_length right then 0
    else if str_length left <? str_length right then -1 else 1 in
  if negb (sl_str_has_valid_storage left) || negb (sl_str_has_valid_storage right) then
    if negb (sl_str_has_valid_storage left) && negb (sl_str_has_valid_storage right)
    then by_length
    else if negb (sl_str_has_valid_storage left) then -1 else 1
  else
    let result :=
      if negb (common =? 0) then sl_internal_compare m (str_ptr left) (str_ptr right) common else 0 in
    if negb (common =? 0) && negb (result =? 0) then (if result <? 0 then -1 else 1)
    else by_length.

Definition sl_str_starts_with (m : mem) (str prefix : SlStr) : bool :=
  if str_length prefix =? 0 then true else
  if (str_length str <? str_length prefix) || (str_ptr str =? 0) || (str_ptr prefix =? 0)
  then false else
  sl_internal_compare m (str_ptr str) (str_ptr prefix) (str_length prefix) =? 0.

Definition sl_str_ends_with (m : mem) (str suffix : SlStr) : bool :=
  if str_length suffix =? 0 then true else
  if (str_length str <? str_length suffix) || (str_ptr str =? 0) || (str_ptr suffix =? 0)
  then false else
  let offset := str_length str - str_length suffix in
  sl_internal_compare m (str_ptr str + offset) (str_ptr suffix) (str_length suffix) =? 0.

Fixpoint equal_ci_loop (m : mem) (left right : Z) (n : nat) : bool :=
  match n with
  | O => true
  | S n =>
      if negb (sl_str_ascii_lower (ld8 m left) =? sl_str_ascii_lower (ld8 m right)) then false
      else equal_ci_loop m (left + 1) (right + 1) n
  end.

Definition sl_str_equal_ci_ascii_scalar (m : mem) (left right : SlStr) : bool :=
  if negb (str_length left =? str_length right) then false else
  if str_length left =? 0 then true else
  if (str_ptr left =? 0) || (str_ptr right =? 0) then false else
  if str_ptr left =? str_ptr right then true else
  equal_ci_loop m (str_ptr left) (str_ptr right) (Z.to_nat (str_length left)).

Fixpoint contains_nul_loop (m : mem) (ptr : Z) (n : nat) : bool :=
  match n with
  | O => false
  | S n => if ld8 m ptr =? 0 then true else contains_nul_loop m (ptr + 1) n
  end.

Definition sl_str_contains_nul_scalar (m : mem) (str : SlStr) : bool :=
  if negb (sl_str_has_valid_storage str) then false
  else contains_nul_loop m (str_ptr str) (Z.to_nat (str_length str)).

(** * Lemmas: words *)

Lemma land_mul_pow2_low a b k : 0 <= k -> 0 <= a < 2 ^ k -> Z.land a (b * 2 ^ k) = 0.
Proof.
  intros Hk Ha. apply Z.bits_inj'. intros n Hn. rewrite Z.bits_0, Z.land_spec.
  destruct (Z.ltb_spec n k).
  - rewrite Z.mul_pow2_bits_low by done. apply andb_false_r.
  - destruct (Z.eq_dec a 0) as [->|]; [by rewrite Z.bits_0|].
    rewrite (Z.bits_above_log2 a n); [done|lia|]. apply Z.log2_lt_pow2; [lia|].
    eapply Z.lt_le_trans; [apply Ha|apply Z.pow_le_mono_r; lia].
Qed.

Lemma lor_shiftl_add a b k : 0 <= k -> 0 <= a < 2 ^ k -> Z.lor a (Z.shiftl b k) = a + b * 2 ^ k.
Proof.
  intros Hk Ha. rewrite Z.shiftl_mul_pow2 by done.
  rewrite Z.add_nocarry_lxor by (by apply land_mul_pow2_low).
  symmetry. by apply Z.lxor_lor, land_mul_pow2_low.
Qed.

Lemma load_u64_sum m a :
  sl_internal_load_u64 m a =
  ld8 m a + ld8 m (a + 1) * 2 ^ 8 + ld8 m (a + 2) * 2 ^ 16 + ld8 m (a + 3) * 2 ^ 24
  + ld8 m (a + 4) * 2 ^ 32 + ld8 m (a + 5) * 2 ^ 40 + ld8 m (a + 6) * 2 ^ 48
  + ld8 m (a + 7) * 2 ^ 56.
Proof.
  unfold sl_internal_load_u64.
  pose proof (ld8_range m a). pose proof (ld8_range m (a + 1)). pose proof (ld8_range m (a + 2)).
  pose proof (ld8_range m (a + 3)). pose proof (ld8_range m (a + 4)).
  pose proof (ld8_range m (a + 5)). pose proof (ld8_range m (a + 6)).
  unfold is_byte in *. rewrite (lor_shiftl_add (ld8 m a)) by lia.
  do 6 rewrite (lor_shiftl_add (_ + _)) by lia. done.
Qed.

Lemma load_8 m a :
  load m a 8 = [ld8 m a; ld8 m (a + 1); ld8 m (a + 2); ld8 m (a + 3); ld8 m (a + 4); ld8 m (a + 5);
                ld8 m (a + 6); ld8 m (a + 7)].
Proof. cbn [load]. rewrite <- !Z.add_assoc. done. Qed.

(** Little-endian value of a byte list. *)
Fixpoint le_value (bs : list Z) : Z :=
  match bs with [] => 0 | b :: bs => b + 256 * le_value bs end.

Lemma le_value_inj bs cs :
  Forall is_byte bs -> Forall is_byte cs -> length bs = length cs ->
  le_value bs = le_value cs -> bs = cs.
Proof.
  intros Hb. revert cs. induction Hb as [|b bs Hb _ IH]; intros [|c cs] Hc Hl E; simplify_eq/=; [done|].
  inv Hc. unfold is_byte in *. f_equal; [lia|]. apply IH; [done..|lia].
Qed.

Lemma load_u64_le m a : sl_internal_load_u64 m a = le_value (load m a 8).
Proof. rewrite load_u64_sum, load_8. cbn [le_value]. lia. Qed.

(** Two words are equal exactly when their eight bytes are. *)
Lemma load_u64_inj m a b :
  sl_internal_load_u64 m a = sl_internal_load_u64 m b <-> load m a 8 = load m b 8.
Proof.
  rewrite !load_u64_le. split; [|congruence].
  apply le_value_inj; [apply load_is_byte..|]. by rewrite !length_load.
Qed.

(** Storing a loaded word copies its eight bytes. *)
Lemma le_value_byte (bs : list Z) i b :
  Forall is_byte bs -> bs !! i = Some b ->
  Z.land (Z.shiftr (le_value bs) (8 * Z.of_nat i)) 255 = b.
Proof.
  intros Hb. revert i. induction Hb as [|c bs Hc _ IH]; intros i Hi; [done|].
  change 255 with (Z.ones 8). rewrite Z.land_ones by done.
  unfold is_byte in Hc. destruct i as [|i]; simplify_eq/=.
  - rewrite Z.shiftr_0_r. change (2 ^ 8) with 256. div_lia.
  - rewrite <- (IH i Hi). change 255 with (Z.ones 8). rewrite Z.land_ones by done. f_equal.
    replace (8 * Z.of_nat (S i)) with (8 + 8 * Z.of_nat i) by lia.
    rewrite <- Z.shiftr_shiftr by lia. f_equal.
    rewrite Z.shiftr_div_pow2 by done. change (2 ^ 8) with 256. div_lia.
Qed.

Lemma store_load_u64 m dest src :
  copied dest src 8 m (sl_internal_store_u64 m dest (sl_internal_load_u64 m src)).
Proof.
  intros a. unfold sl_internal_store_u64. rewrite load_u64_le.
  assert (Hb : forall i, (i < 8)%nat ->
    wrap8 (Z.land (Z.shiftr (le_value (load m src 8)) (8 * Z.of_nat i)) 255) = ld8 m (src + Z.of_nat i)).
  { intros i Hi. erewrite le_value_byte; [|apply load_is_byte|by apply load_lookup].
    apply wrap8_small, ld8_range. }
  rewrite !ld8_st8.
  destruct (Z.leb_spec dest a), (Z.ltb_spec a (dest + 8)); cbn [andb];
    repeat match goal with |- context [?x =? ?y] => destruct (Z.eqb_spec x y); try lia end; try done.
  - etransitivity; [apply (Hb 7%nat); lia|f_equal; lia].
  - etransitivity; [apply (Hb 6%nat); lia|f_equal; lia].
  - etransitivity; [apply (Hb 5%nat); lia|f_equal; lia].
  - etransitivity; [apply (Hb 4%nat); lia|f_equal; lia].
  - etransitivity; [apply (Hb 3%nat); lia|f_equal; lia].
  - etransitivity; [apply (Hb 2%nat); lia|f_equal; lia].
  - etransitivity; [apply (Hb 1%nat); lia|f_equal; lia].
  - rewrite <- (Z.shiftr_0_r (le_value _)). etransitivity; [apply (Hb 0%nat); lia|f_equal; lia].
Qed.

Lemma copy_words_copied dest src words m index :
  0 <= index -> disjoint_ranges (dest + index) (8 * Z.of_nat words) (src + index) (8 * Z.of_nat words) ->
  copied (dest + index) (src + index) (8 * Z.of_nat words) m (copy_words m dest src index words).
Proof.
  revert m index. induction words as [|words IH]; intros m index Hi Hd; cbn [copy_words].
  - apply copied_nothing. lia.
  - replace (8 * Z.of_nat (S words)) with (8 + 8 * Z.of_nat words) in * by lia.
    eapply copied_app; [lia|lia|done|apply store_load_u64|].
    unfold SL_STR_WORD_SIZE. rewrite <- !Z.add_assoc. apply IH; [lia|].
    unfold disjoint_ranges in *. lia.
Qed.

(** The word-wise copy is a byte copy when the ranges do not overlap (the
    [restrict] contract), and a no-op when they coincide. *)
Lemma sl_internal_copy_copied m dest src len :
  0 <= len -> disjoint_ranges dest len src len \/ dest = src ->
  copied dest src len m (sl_internal_copy m dest src len).
Proof.
  intros Hl Hd. unfold sl_internal_copy.
  destruct (Z.eqb_spec len 0); simpl; [apply copied_nothing; lia|].
  destruct (Z.eqb_spec dest src) as [->|]; [apply copied_self|].
  destruct Hd as [Hd|]; [|done]. unfold SL_STR_WORD_SIZE.
  set (q := len / 8). assert (Hq : 8 * q <= len < 8 * q + 8) by (unfold q; div_lia).
  replace (copied dest src len) with (copied dest src (8 * q + (len - 8 * q))) by (f_equal; lia).
  eapply copied_app; [lia|lia|unfold disjoint_ranges in *; lia| |].
  - pose proof (copy_words_copied dest src (Z.to_nat q) m 0) as P.
    rewrite !Z.add_0_r, Z2Nat.id in P by lia. apply P; [lia|]. unfold disjoint_ranges in *. lia.
  - replace (q * 8) with (8 * q) by lia. rewrite <- (Z2Nat.id (len - 8 * q)) at 1 by lia.
    apply copy_forward_copied. unfold disjoint_ranges in Hd. lia.
Qed.

(** * Lemmas: comparison *)

(** Reference ordering: lexicographic on bytes, a proper prefix first. *)
Fixpoint lex_compare (xs ys : list Z) : Z :=
  match xs, ys with
  | [], [] => 0
  | [], _ :: _ => -1
  | _ :: _, [] => 1
  | x :: xs, y :: ys => if x =? y then lex_compare xs ys else if x <? y then -1 else 1
  end.

Lemma lex_compare_refl xs : lex_compare xs xs = 0.
Proof. induction xs as [|x xs IH]; simpl; [done|]. by rewrite Z.eqb_refl. Qed.

Lemma lex_compare_eq xs ys : lex_compare xs ys = 0 <-> xs = ys.
Proof.
  split; [|intros ->; apply lex_compare_refl].
  revert ys; induction xs as [|x xs IH]; intros [|y ys]; simpl; try done.
  destruct (Z.eqb_spec x y) as [->|]; [intros; f_equal; auto|]. by destruct (x <? y).
Qed.

Lemma lex_compare_range xs ys : lex_compare xs ys = -1 \/ lex_compare xs ys = 0 \/ lex_compare xs ys = 1.
Proof.
  revert ys; induction xs as [|x xs IH]; intros [|y ys]; simpl; auto.
  destruct (x =? y); [done|]. destruct (x <? y); auto.
Qed.

Lemma lex_compare_antisym xs ys : lex_compare ys xs = - lex_compare xs ys.
Proof.
  revert ys; induction xs as [|x xs IH]; intros [|y ys]; simpl; try done.
  rewrite (Z.eqb_sym y x). destruct (Z.eqb_spec x y); [done|].
  destruct (Z.ltb_spec x y), (Z.ltb_spec y x); simpl; lia.
Qed.

Lemma lex_compare_app xs ys xs' ys' :
  length xs = length ys ->
  lex_compare (xs ++ xs') (ys ++ ys') =
  if lex_compare xs ys =? 0 then lex_compare xs' ys' else lex_compare xs ys.
Proof.
  revert ys; induction xs as [|x xs IH]; intros [|y ys] Hl; simplify_eq/=; [done|].
  destruct (x =? y); [by apply IH|]. by destruct (x <? y).
Qed.

Lemma compare_loop_lex m l r n : compare_loop m l r n = lex_compare (load m l n) (load m r n).
Proof.
  revert l r; induction n as [|n IH]; intros l r; simpl; [done|].
  destruct (ld8 m l =? ld8 m r); simpl; [apply IH|done].
Qed.

Lemma compare_words_lex m l r index words tail :
  compare_words m l r index words tail =
  lex_compare (load m (l + index) (8 * words + tail)) (load m (r + index) (8 * words + tail)).
Proof.
  revert index; induction words as [|words IH]; intros index; cbn [compare_words].
  - apply compare_loop_lex.
  - replace (8 * S words + tail)%nat with (8 + (8 * words + tail))%nat by lia.
    rewrite !(load_app _ _ 8), lex_compare_app by (by rewrite !length_load).
    destruct (Z.eqb_spec (sl_internal_load_u64 m (l + index)) (sl_internal_load_u64 m (r + index)))
      as [E|E]; cbn [negb].
    + apply load_u64_inj in E. rewrite E, lex_compare_refl. simpl. rewrite IH. unfold SL_STR_WORD_SIZE.
      do 2 f_equal; lia.
    + unfold sl_internal_compare_word_bytes. rewrite compare_loop_lex. simpl Z.to_nat.
      destruct (Z.eqb_spec (lex_compare (load m (l + index) 8) (load m (r + index) 8)) 0) as [E'|];
        [|done].
      destruct E. by apply load_u64_inj, lex_compare_eq.
Qed.

(** The word-wise comparison is the lexicographic one. *)
Lemma sl_internal_compare_lex m l r len :
  0 <= len -> sl_internal_compare m l r len = lex_compare (load_bytes m l len) (load_bytes m r len).
Proof.
  intros Hl. unfold sl_internal_compare.
  destruct (Z.eqb_spec len 0) as [->|]; simpl; [done|].
  destruct (Z.eqb_spec l r) as [->|]; [by rewrite lex_compare_refl|].
  rewrite compare_words_lex, !Z.add_0_r. unfold load_bytes, SL_STR_WORD_SIZE.
  replace (8 * Z.to_nat (len / 8) + Z.to_nat (len - len / 8 * 8))%nat with (Z.to_nat len); [done|].
  assert (0 <= len / 8 /\ len / 8 * 8 <= len) by div_lia. lia.
Qed.

Definition str_valid (s : SlStr) : Prop := 0 <= str_length s /\ (str_length s = 0 \/ str_ptr s <> 0).

Lemma str_valid_storage s : str_valid s -> sl_str_has_valid_storage s = true.
Proof.
  intros [? Hv]. unfold sl_str_has_valid_storage.
  destruct (Z.eqb_spec (str_length s) 0), (Z.eqb_spec (str_ptr s) 0); simpl; try done; lia.
Qed.

Lemma length_str_val m s : 0 <= str_length s -> Z.of_nat (length (str_val m s)) = str_length s.
Proof. apply length_load_bytes. Qed.

Lemma sl_str_equal_spec m l r :
  str_valid l -> str_valid r -> sl_str_equal m l r = bool_decide (str_val m l = str_val m r).
Proof.
  intros [Hl Hl'] [Hr Hr']. unfold sl_str_equal.
  destruct (Z.eqb_spec (str_length l) (str_length r)) as [E|E]; simpl.
  2: { symmetry. apply bool_decide_eq_false_2. intros Hv. apply (f_equal length) in Hv.
       pose proof (length_str_val m l Hl). pose proof (length_str_val m r Hr). lia. }
  destruct (Z.eqb_spec (str_length l) 0) as [E0|E0].
  { symmetry. apply bool_decide_eq_true_2. unfold str_val. rewrite <- E, E0. done. }
  destruct (Z.eqb_spec (str_ptr l) 0); [lia|]. destruct (Z.eqb_spec (str_ptr r) 0); [lia|]. simpl.
  destruct (Z.eqb_spec (str_ptr l) (str_ptr r)) as [Ep|].
  { symmetry. apply bool_decide_eq_true_2. unfold str_val. by rewrite E, Ep. }
  rewrite sl_internal_compare_lex by done. unfold str_val. rewrite <- E.
  destruct (Z.eqb_spec (lex_compare (load_bytes m (str_ptr l) (str_length l))
    (load_bytes m (str_ptr r) (str_length l))) 0) as [E'|E']; symmetry.
  - by apply bool_decide_eq_true_2, lex_compare_eq.
  - apply bool_decide_eq_false_2. intros Hv. by apply E', lex_compare_eq.
Qed.

Lemma sl_str_compare_spec m l r :
  str_valid l -> str_valid r -> sl_str_compare m l r = lex_compare (str_val m l) (str_val m r).
Proof.
  intros Hl Hr. unfold sl_str_compare. rewrite !str_valid_storage by done. simpl.
  destruct Hl as [Hl _], Hr as [Hr _].
  set (common := if str_length l <? str_length r then str_length l else str_length r).
  assert (Hc : 0 <= common /\ common <= str_length l /\ common <= str_length r /\
               (common = str_length l \/ common = str_length r))
    by (unfold common; destruct (Z.ltb_spec (str_length l) (str_length r)); lia).
  clearbody common. unfold str_val.
  replace (str_length l) with (common + (str_length l - common)) at 3 by lia.
  replace (str_length r) with (common + (str_length r - common)) at 3 by lia.
  rewrite !load_bytes_app by lia.
  rewrite lex_compare_app by (unfold load_bytes; by rewrite !length_load).
  rewrite sl_internal_compare_lex by lia.
  assert (Htail : lex_compare (load_bytes m (str_ptr l + common) (str_length l - common))
                    (load_bytes m (str_ptr r + common) (str_length r - common)) =
    if str_length l =? str_length r then 0 else if str_length l <? str_length r then -1 else 1).
  { destruct (Z.eqb_spec (str_length l) (str_length r)), (Z.ltb_spec (str_length l) (str_length r)).
    all: destruct (Z.eq_dec (str_length l - common) 0) as [El|El], (Z.eq_dec (str_length r - common) 0) as [Er|Er];
      try lia; rewrite ?El, ?Er; rewrite ?(load_bytes_cons _ _ (str_length l - common)) by lia;
      rewrite ?(load_bytes_cons _ _ (str_length r - common)) by lia; done. }
  rewrite Htail. destruct (Z.eqb_spec common 0) as [->|]; simpl; [done|].
  destruct (lex_compare_range (load_bytes m (str_ptr l) common) (load_bytes m (str_ptr r) common))
    as [E|[E|E]]; rewrite E; done.
Qed.

Lemma load_bytes_take m a n k : 0 <= n <= k -> take (Z.to_nat n) (load_bytes m a k) = load_bytes m a n.
Proof.
  intros. replace k with (n + (k - n)) by lia. rewrite load_bytes_app by lia.
  apply take_app_length'. unfold load_bytes. by rewrite length_load.
Qed.

Lemma load_bytes_drop m a n k :
  0 <= n <= k -> drop (Z.to_nat n) (load_bytes m a k) = load_bytes m (a + n) (k - n).
Proof.
  intros. replace k with (n + (k - n)) at 1 by lia. rewrite load_bytes_app by lia.
  apply drop_app_length'. unfold load_bytes. by rewrite length_load.
Qed.

Lemma sl_str_starts_with_spec m s p :
  str_valid s -> str_valid p ->
  sl_str_starts_with m s p = true <-> exists rest, str_val m s = str_val m p ++ rest.
Proof.
  intros [Hs Hs'] [Hp Hp']. unfold sl_str_starts_with.
  destruct (Z.eqb_spec (str_length p) 0) as [E0|E0].
  { split; [|done]. intros _. exists (str_val m s). unfold str_val at 2. by rewrite E0. }
  destruct (Z.ltb_spec (str_length s) (str_length p)); simpl.
  { split; [done|]. intros [rest E]. apply (f_equal length) in E. rewrite length_app in E.
    pose proof (length_str_val m s Hs). pose proof (length_str_val m p Hp). lia. }
  destruct (Z.eqb_spec (str_ptr s) 0); [lia|]. destruct (Z.eqb_spec (str_ptr p) 0); [lia|]. simpl.
  rewrite sl_internal_compare_lex, Z.eqb_eq, lex_compare_eq by done.
  rewrite <- (load_bytes_take m (str_ptr s) (str_length p) (str_length s)) by lia.
  fold (str_val m s). change (load_bytes m (str_ptr p) (str_length p)) with (str_val m p). split.
  - intros <-. exists (drop (Z.to_nat (str_length p)) (str_val m s)). by rewrite take_drop.
  - intros [rest ->]. apply take_app_length'. pose proof (length_str_val m p Hp). lia.
Qed.

Lemma sl_str_ends_with_spec m s p :
  str_valid s -> str_valid p ->
  sl_str_ends_with m s p = true <-> exists rest, str_val m s = rest ++ str_val m p.
Proof.
  intros [Hs Hs'] [Hp Hp']. unfold sl_str_ends_with.
  destruct (Z.eqb_spec (str_length p) 0) as [E0|E0].
  { split; [|done]. intros _. exists (str_val m s). unfold str_val at 3. rewrite E0. simpl.
    symmetry. apply app_nil_r. }
  destruct (Z.ltb_spec (str_length s) (str_length p)); simpl.
  { split; [done|]. intros [rest E]. apply (f_equal length) in E. rewrite length_app in E.
    pose proof (length_str_val m s Hs). pose proof (length_str_val m p Hp). lia. }
  destruct (Z.eqb_spec (str_ptr s) 0); [lia|]. destruct (Z.eqb_spec (str_ptr p) 0); [lia|]. simpl.
  rewrite sl_internal_compare_lex, Z.eqb_eq, lex_compare_eq by done.
  set (off := str_length s - str_length p).
  replace (load_bytes m (str_ptr s + off) (str_length p)) with (drop (Z.to_nat off) (str_val m s))
    by (unfold str_val; rewrite load_bytes_drop by lia; f_equal; lia).
  change (load_bytes m (str_ptr p) (str_length p)) with (str_val m p). split.
  - intros <-. exists (take (Z.to_nat off) (str_val m s)). by rewrite take_drop.
  - intros [rest E]. rewrite E. apply drop_app_length'. apply (f_equal length) in E.
    rewrite length_app in E.
    pose proof (length_str_val m s Hs). pose proof (length_str_val m p Hp). lia.
Qed.

(** ASCII lower case of one byte. *)
Definition ascii_lower (c : Z) : Z := if (65 <=? c) && (c <=? 90) then c + 32 else c.

Lemma lor_32_upper c : 65 <= c <= 90 -> Z.lor c 32 = c + 32.
Proof.
  intros. assert (Hin : In c (map Z.of_nat (seq 65 26))).
  { apply in_map_iff. exists (Z.to_nat c). split; [lia|]. apply in_seq. lia. }
  vm_compute in Hin. repeat destruct Hin as [<-|Hin]; [reflexivity..|done].
Qed.

Lemma sl_str_ascii_lower_spec c : is_byte c -> sl_str_ascii_lower c = ascii_lower c.
Proof.
  intros Hc. unfold sl_str_ascii_lower, ascii_lower, is_byte in *.
  destruct (Z_lt_ge_dec c 65).
  - replace (wrap32 (c - 65)) with (c - 65 + 2 ^ 32) by (unfold wrap32; div_lia).
    destruct (Z.leb_spec (c - 65 + 2 ^ 32) 25), (Z.leb_spec 65 c); simpl; try lia. apply Z.lor_0_r.
  - rewrite wrap32_small by size_lia.
    destruct (Z.leb_spec (c - 65) 25), (Z.leb_spec 65 c), (Z.leb_spec c 90); cbn [andb]; try lia.
    + by apply lor_32_upper.
    + apply Z.lor_0_r.
Qed.

Lemma equal_ci_loop_spec m l r n :
  equal_ci_loop m l r n = bool_decide (map ascii_lower (load m l n) = map ascii_lower (load m r n)).
Proof.
  revert l r; induction n as [|n IH]; intros l r; simpl; [done|].
  rewrite !sl_str_ascii_lower_spec by apply ld8_range. rewrite IH.
  destruct (Z.eqb_spec (ascii_lower (ld8 m l)) (ascii_lower (ld8 m r))); simpl;
    repeat case_bool_decide; congruence.
Qed.

(** Case-insensitive equality is equality after ASCII lower-casing. *)
Lemma sl_str_equal_ci_scalar_spec m l r :
  str_valid l -> str_valid r ->
  sl_str_equal_ci_ascii_scalar m l r =
  bool_decide (map ascii_lower (str_val m l) = map ascii_lower (str_val m r)).
Proof.
  intros [Hl Hl'] [Hr Hr']. unfold sl_str_equal_ci_ascii_scalar.
  destruct (Z.eqb_spec (str_length l) (str_length r)) as [E|E]; simpl.
  2: { symmetry. apply bool_decide_eq_false_2. intros Hv. apply (f_equal length) in Hv.
       rewrite !length_map in Hv.
       pose proof (length_str_val m l Hl). pose proof (length_str_val m r Hr). lia. }
  destruct (Z.eqb_spec (str_length l) 0) as [E0|E0].
  { symmetry. apply bool_decide_eq_true_2. unfold str_val. rewrite <- E, E0. done. }
  destruct (Z.eqb_spec (str_ptr l) 0); [lia|]. destruct (Z.eqb_spec (str_ptr r) 0); [lia|]. simpl.
  destruct (Z.eqb_spec (str_ptr l) (str_ptr r)) as [Ep|].
  { symmetry. apply bool_decide_eq_true_2. unfold str_val. by rewrite E, Ep. }
  rewrite equal_ci_loop_spec. unfold str_val, load_bytes. by rewrite <- E.
Qed.

Lemma contains_nul_loop_spec m p n : contains_nul_loop m p n = bool_decide (0 ∈ load m p n).
Proof.
  revert p; induction n as [|n IH]; intros p; simpl; [done|]. rewrite IH.
  destruct (Z.eqb_spec (ld8 m p) 0) as [->|]; repeat case_bool_decide; try done;
    rewrite elem_of_cons in *; intuition congruence.
Qed.

Lemma sl_str_contains_nul_scalar_spec m s :
  str_valid s -> sl_str_contains_nul_scalar m s = bool_decide (0 ∈ str_val m s).
Proof.
  intros Hs. unfold sl_str_contains_nul_scalar. rewrite str_valid_storage by done. simpl.
  apply contains_nul_loop_spec.
Qed.

(** A terminated string is read back with its length. *)
Lemma cstr_length_spec m p n fuel :
  (n < fuel)%nat -> 0 ∉ load m p n -> ld8 m (p + Z.of_nat n) = 0 ->
  cstr_length m p fuel = Some (Z.of_nat n).
Proof.
  revert p fuel; induction n as [|n IH]; intros p [|fuel] Hf Hz Hn; try lia; simpl.
  - rewrite Z.add_0_r in Hn. by rewrite Hn.
  - cbn [load] in Hz. rewrite not_elem_of_cons in Hz. destruct Hz as [Hne Hz].
    destruct (Z.eqb_spec (ld8 m p) 0); [congruence|].
    rewrite (IH (p + 1)); [simpl; f_equal; lia|lia|done|].
    rewrite <- Hn. f_equal. lia.
Qed.

Lemma sl_str_from_cstr_spec m p len fuel :
  p <> 0 -> 0 <= len -> (Z.to_nat len < fuel)%nat -> 0 ∉ load_bytes m p len -> ld8 m (p + len) = 0 ->
  sl_str_from_cstr m p fuel = Some (sl_str_from_parts p len).
Proof.
  intros Hp Hl Hf Hz Hn. unfold sl_str_from_cstr. destruct (Z.eqb_spec p 0); [done|].
  rewrite (cstr_length_spec m p (Z.to_nat len)); [simpl; do 2 f_equal; lia|done|done|].
  by rewrite Z2Nat.id.
Qed.

(** Comparison of string views is comparison of their bytes: equality is
    equality of contents, [sl_str_compare] is the lexicographic order (a proper
    prefix is smaller), so it is antisymmetric and 0 exactly on equal contents,
    and the prefix and suffix tests are those of the contents.  The word-wise
    loops never change the answer. *)
Theorem str_compare_by_contents m l r :
  str_valid l -> str_valid r ->
  sl_str_equal m l r = bool_decide (str_val m l = str_val m r) /\
  sl_str_compare m l r = lex_compare (str_val m l) (str_val m r) /\
  sl_str_compare m r l = - sl_str_compare m l r /\
  (sl_str_compare m l r = 0 <-> sl_str_equal m l r = true) /\
  (sl_str_starts_with m l r = true <-> exists rest, str_val m l = str_val m r ++ rest) /\
  (sl_str_ends_with m l r = true <-> exists rest, str_val m l = rest ++ str_val m r).
Proof.
  intros Hl Hr. rewrite !sl_str_compare_spec, sl_str_equal_spec by done.
  rewrite bool_decide_eq_true, lex_compare_eq. split_and!; try done.
  - apply lex_compare_antisym.
  - by apply sl_str_starts_with_spec.
  - by apply sl_str_ends_with_spec.
Qed.

Module Demo.
(** "route-table" and "route-tablf": the first difference is in the tail after
    one word. *)
Definition m0 : mem :=
  store (store (fun _ => 0) 100 [114; 111; 117; 116; 101; 45; 116; 97; 98; 108; 101])
    200 [114; 111; 117; 116; 101; 45; 116; 97; 98; 108; 102].

Lemma str_compare_by_contents_witness :
  sl_str_compare m0 (sl_str_from_parts 100 11) (sl_str_from_parts 200 11) = -1 /\
  sl_str_compare m0 (sl_str_from_parts 200 11) (sl_str_from_parts 100 11) = 1.
Proof.
  destruct (str_compare_by_contents m0 (sl_str_from_parts 100 11) (sl_str_from_parts 200 11))
    as (_ & H1 & H2 & _); [split; simpl; lia..|].
  rewrite H2, H1. vm_compute. split; reflexivity.
Defined.
End Demo.
