(* ===== verification/Bytes.v ===== *)
(** Borrowed byte views and the scalar byte searches (src/core/bytes.c). *)

From S2P Require Import Prelude Memory Str.

Record SlBytesFindResult := { found : bool; index : Z; value : Z }.

Definition sl_bytes_has_valid_storage (bytes : SlBytes) : bool :=
  (bytes_length bytes =? 0) || negb (bytes_ptr bytes =? 0).

Definition sl_bytes_from_parts (ptr length : Z) : SlBytes :=
  {| bytes_ptr := ptr; bytes_length := length |}.

Definition sl_bytes_empty : SlBytes := {| bytes_ptr := 0; bytes_length := 0 |}.

Definition sl_bytes_is_empty (bytes : SlBytes) : bool := bytes_length bytes =? 0.

(** C's [memcmp]: the order of the first pair of different bytes. *)
Definition memcmp (m : mem) (left right n : Z) : Z := compare_loop m left right (Z.to_nat n).

Definition sl_bytes_equal (m : mem) (left right : SlBytes) : bool :=
  if negb (bytes_length left =? bytes_length right) then false else
  if bytes_length left =? 0 then true else
  if (bytes_ptr left =? 0) || (bytes_ptr right =? 0) then false else
  if bytes_ptr left =? bytes_ptr right then true else
  memcmp m (bytes_ptr left) (bytes_ptr right) (bytes_length left) =? 0.

Definition sl_bytes_starts_with (m : mem) (bytes prefix : SlBytes) : bool :=
  if bytes_length prefix =? 0 then true else
  if (bytes_length bytes <? bytes_length prefix) || (bytes_ptr bytes =? 0) || (bytes_ptr prefix =? 0)
  then false else
  memcmp m (bytes_ptr bytes) (bytes_ptr prefix) (bytes_length prefix) =? 0.

Definition sl_bytes_ends_with (m : mem) (bytes suffix : SlBytes) : bool :=
  if bytes_length suffix =? 0 then true else
  if (bytes_length bytes <? bytes_length suffix) || (bytes_ptr bytes =? 0) || (bytes_ptr suffix =? 0)
  then false else
  let offset := bytes_length bytes - bytes_length suffix in
  memcmp m (bytes_ptr bytes + offset) (bytes_ptr suffix) (bytes_length suffix) =? 0.

Definition find_nothing (bytes : SlBytes) : SlBytesFindResult :=
  {| found := false; index := bytes_length bytes; value := 0 |}.

(** [for (; index < length; index++) if (ptr[index] == needle) break;], with
    [n] bytes left; [None] when the loop runs to the end. *)
Fixpoint find_loop (m : mem) (ptr i needle : Z) (n : nat) : option SlBytesFindResult :=
  match n with
  | O => None
  | S n =>
      if ld8 m (ptr + i) =? needle
      then Some {| found := true; index := i; value := needle |}
      else find_loop m ptr (i + 1) needle n
  end.

Definition sl_bytes_find_scalar (m : mem) (bytes : SlBytes) (needle : Z) (out : nullable)
    : result SlBytesFindResult :=
  error_if is_null out || negb (sl_bytes_has_valid_storage bytes)
    with SL_STATUS_INVALID_ARGUMENT ;;
  Ok (default (find_nothing bytes)
        (find_loop m (bytes_ptr bytes) 0 needle (Z.to_nat (bytes_length bytes)))).

(** The inner loop over the needles. *)
Fixpoint needle_loop (m : mem) (byte ptr : Z) (n : nat) : bool :=
  match n with
  | O => false
  | S n => if byte =? ld8 m ptr then true else needle_loop m byte (ptr + 1) n
  end.

Fixpoint find_any_loop (m : mem) (ptr i : Z) (needles : SlBytes) (n : nat)
    : option SlBytesFindResult :=
  match n with
  | O => None
  | S n =>
      if needle_loop m (ld8 m (ptr + i)) (bytes_ptr needles) (Z.to_nat (bytes_length needles))
      then Some {| found := true; index := i; value := ld8 m (ptr + i) |}
      else find_any_loop m ptr (i + 1) needles n
  end.

Definition sl_bytes_find_any_scalar (m : mem) (bytes needles : SlBytes) (out : nullable)
    : result SlBytesFindResult :=
  error_if is_null out || negb (sl_bytes_has_valid_storage bytes)
           || negb (sl_bytes_has_valid_storage needles)
    with SL_STATUS_INVALID_ARGUMENT ;;
  if bytes_length needles =? 0 then Ok (find_nothing bytes) else
  Ok (default (find_nothing bytes)
        (find_any_loop m (bytes_ptr bytes) 0 needles (Z.to_nat (bytes_length bytes)))).

(** * Lemmas *)

Definition bytes_valid (b : SlBytes) : Prop :=
  0 <= bytes_length b /\ (bytes_length b = 0 \/ bytes_ptr b <> 0).

Lemma bytes_valid_storage b : bytes_valid b -> sl_bytes_has_valid_storage b = true.
Proof.
  unfold sl_bytes_has_valid_storage. intros [? [->|Hne]]; [done|].
  apply orb_true_iff. right. by destruct (Z.eqb_spec (bytes_ptr b) 0).
Qed.

(** Searching a list for its first element that satisfies [P]. *)
Fixpoint first_match (P : Z -> bool) (bs : list Z) : option (nat * Z) :=
  match bs with
  | [] => None
  | b :: bs => if P b then Some (O, b) else (fun '(i, v) => (S i, v)) <$> first_match P bs
  end.

Lemma first_match_some P bs i v :
  first_match P bs = Some (i, v) <->
  bs !! i = Some v /\ P v = true /\ forall j w, (j < i)%nat -> bs !! j = Some w -> P w = false.
Proof.
  revert i; induction bs as [|b bs IH]; intros i; simpl.
  { split; [done|]. intros (? & _). done. }
  destruct (P b) eqn:Eb.
  - split; [intros [= <- <-]; split_and!; try done; intros; lia|].
    intros (Hi & Hv & Hlt). destruct i as [|i]; [by simplify_eq/=|].
    specialize (Hlt O b ltac:(lia) eq_refl). congruence.
  - rewrite fmap_Some. split.
    + intros ([i' v'] & E & [= -> ->]). apply IH in E as (? & ? & Hlt). split_and!; try done.
      intros [|j] w Hj; simpl; [congruence|]. intros. eapply Hlt; [|done]. lia.
    + intros (Hi & Hv & Hlt). destruct i as [|i]; simpl in Hi; [congruence|].
      exists (i, v). split; [|done]. apply IH. split_and!; try done.
      intros j w Hj Hw. apply (Hlt (S j) w); [lia|done].
Qed.

Lemma first_match_none P bs : first_match P bs = None <-> Forall (fun b => P b = false) bs.
Proof.
  induction bs as [|b bs IH]; simpl; [by split|]. rewrite Forall_cons.
  destruct (P b); [split; [done|intros [? _]; done]|]. rewrite fmap_None, IH.
  split; [by split|by intros []].
Qed.

Lemma first_match_app P bs cs :
  first_match P (bs ++ cs) =
  match first_match P bs with
  | Some r => Some r
  | None => (fun '(i, v) => ((length bs + i)%nat, v)) <$> first_match P cs
  end.
Proof.
  induction bs as [|b bs IH]; simpl; [by destruct (first_match P cs) as [[]|]|].
  destruct (P b); [done|]. rewrite IH.
  by destruct (first_match P bs) as [[]|], (first_match P cs) as [[]|].
Qed.

Lemma first_match_ext P Q bs :
  (forall b, b ∈ bs -> P b = Q b) -> first_match P bs = first_match Q bs.
Proof.
  induction bs as [|b bs IH]; intros E; simpl; [done|].
  rewrite (E b) by apply list_elem_of_here. rewrite IH; [done|].
  intros. apply E. by apply list_elem_of_further.
Qed.

(** The result a search from index [i] reports for a match of the remaining bytes. *)
Definition report (i : Z) : nat * Z -> SlBytesFindResult :=
  fun '(k, v) => {| found := true; index := i + Z.of_nat k; value := v |}.

Lemma report_succ i (o : option (nat * Z)) :
  report i <$> ((fun '(k, v) => (S k, v)) <$> o) = report (i + 1) <$> o.
Proof. destruct o as [[k v]|]; [|done]. simpl. do 2 f_equal. lia. Qed.

Lemma find_loop_spec m p i needle n :
  find_loop m p i needle n = report i <$> first_match (fun b => b =? needle) (load m (p + i) n).
Proof.
  revert i; induction n as [|n IH]; intros i; [done|]. cbn [find_loop load first_match].
  destruct (Z.eqb_spec (ld8 m (p + i)) needle) as [->|].
  - simpl. do 2 f_equal. lia.
  - rewrite report_succ, IH. do 3 f_equal. lia.
Qed.

Lemma needle_loop_spec m b p n : needle_loop m b p n = bool_decide (b ∈ load m p n).
Proof.
  revert p; induction n as [|n IH]; intros p; simpl; [done|]. rewrite IH.
  destruct (Z.eqb_spec b (ld8 m p)) as [->|]; repeat case_bool_decide; try done;
    rewrite elem_of_cons in *; intuition congruence.
Qed.

Definition is_needle (ns : list Z) (b : Z) : bool := bool_decide (b ∈ ns).

Lemma find_any_loop_spec m p i needles n :
  find_any_loop m p i needles n =
  report i <$> first_match (is_needle (bytes_val m needles)) (load m (p + i) n).
Proof.
  revert i; induction n as [|n IH]; intros i; [done|]. cbn [find_any_loop load first_match].
  rewrite needle_loop_spec. change (load m (bytes_ptr needles) _) with (bytes_val m needles).
  unfold is_needle at 1. destruct (bool_decide _).
  - simpl. do 2 f_equal. lia.
  - rewrite report_succ, IH. do 3 f_equal. lia.
Qed.

(** The contract of the searches: the first matching index, or not found with
    the length as index. *)
Definition find_spec (m : mem) (bytes : SlBytes) (P : Z -> bool) : SlBytesFindResult :=
  default (find_nothing bytes) (report 0 <$> first_match P (bytes_val m bytes)).

Lemma sl_bytes_find_scalar_spec m bytes needle :
  bytes_valid bytes ->
  sl_bytes_find_scalar m bytes needle REF = Ok (find_spec m bytes (fun b => b =? needle)).
Proof.
  intros Hv. unfold sl_bytes_find_scalar. rewrite bytes_valid_storage by done. simpl.
  rewrite find_loop_spec, Z.add_0_r. done.
Qed.

Lemma find_spec_never m bytes P :
  (forall b, P b = false) -> find_spec m bytes P = find_nothing bytes.
Proof.
  intros HP. unfold find_spec. replace (first_match _ _) with (@None (nat * Z)); [done|].
  symmetry. apply first_match_none. by apply Forall_forall.
Qed.

Lemma sl_bytes_find_any_scalar_spec m bytes needles :
  bytes_valid bytes -> bytes_valid needles ->
  sl_bytes_find_any_scalar m bytes needles REF =
  Ok (find_spec m bytes (is_needle (bytes_val m needles))).
Proof.
  intros Hv Hn. unfold sl_bytes_find_any_scalar. rewrite !bytes_valid_storage by done. simpl.
  destruct (Z.eqb_spec (bytes_length needles) 0) as [E|].
  - rewrite find_spec_never; [done|]. intros b. unfold is_needle, bytes_val. by rewrite E.
  - rewrite find_any_loop_spec, Z.add_0_r. done.
Qed.

(** Byte views compare like the string views over the same storage. *)
Definition as_str (b : SlBytes) : SlStr :=
  {| str_ptr := bytes_ptr b; str_length := bytes_length b |}.

Lemma memcmp_internal_compare m l r n :
  0 <= n -> (memcmp m l r n =? 0) = (sl_internal_compare m l r n =? 0).
Proof. intros. unfold memcmp. by rewrite compare_loop_lex, sl_internal_compare_lex. Qed.

Lemma sl_bytes_equal_str m l r :
  0 <= bytes_length l -> sl_bytes_equal m l r = sl_str_equal m (as_str l) (as_str r).
Proof. intros. unfold sl_bytes_equal. by rewrite memcmp_internal_compare. Qed.

Lemma sl_bytes_starts_with_str m b p :
  0 <= bytes_length p -> sl_bytes_starts_with m b p = sl_str_starts_with m (as_str b) (as_str p).
Proof. intros. unfold sl_bytes_starts_with. by rewrite memcmp_internal_compare. Qed.

Lemma sl_bytes_ends_with_str m b p :
  0 <= bytes_length p -> sl_bytes_ends_with m b p = sl_str_ends_with m (as_str b) (as_str p).
Proof. intros. unfold sl_bytes_ends_with. by rewrite memcmp_internal_compare. Qed.
