(* ===== verification/Simd.v ===== *)
(** The vector back ends of the string and byte primitives
    (src/core/string_simd_sse2.c, string_simd_avx2.c, bytes_simd_sse2.c,
    bytes_simd_avx2.c) and the dispatchers of string.c and bytes.c that select a
    back end at build time.

    The two instruction sets run the same code at 16 and at 32 lanes, so the
    kernels are written once over the number of lanes. *)

From S2P Require Import Prelude Memory Str Bytes.

(** * Vectors of bytes *)

Definition vec : Type := list Z.

Definition vset1 (lanes : nat) (v : Z) : vec := replicate lanes (wrap8 v).
Definition vloadu (lanes : nat) (m : mem) (ptr : Z) : vec := load m ptr lanes.
Definition lane_mask (b : bool) : Z := if b then 255 else 0.
Definition signed8 (b : Z) : Z := if b <? 128 then b else b - 256.
Definition vcmpeq : vec -> vec -> vec := zip_with (fun a b => lane_mask (a =? b)).
Definition vcmpgt : vec -> vec -> vec := zip_with (fun a b => lane_mask (signed8 b <? signed8 a)).
Definition vor : vec -> vec -> vec := zip_with Z.lor.
Definition vand : vec -> vec -> vec := zip_with Z.land.

(** [movemask]: bit [i] of the result is the top bit of lane [i]. *)
Fixpoint vmovemask (v : vec) : Z :=
  match v with
  | [] => 0
  | b :: v => (if Z.testbit b 7 then 1 else 0) + 2 * vmovemask v
  end.

(** [sl_*_first_mask_index]: count trailing zeros, or the lane count for 0. *)
Fixpoint ctz (lanes : nat) (mask : Z) : Z :=
  match lanes with
  | O => 0
  | S lanes => if Z.testbit mask 0 then 0 else 1 + ctz lanes (mask / 2)
  end.

Definition first_mask_index (lanes : nat) (mask : Z) : Z :=
  if mask =? 0 then Z.of_nat lanes else ctz lanes mask.

Inductive simd_backend := SCALAR | SSE2 | AVX2.

(** [SL_STRING_SIMD_*] and [SL_BYTES_SIMD_*]. *)
Class SimdConfig := { SL_STRING_SIMD : simd_backend; SL_BYTES_SIMD : simd_backend }.

(** * Kernels *)

Section Kernels.
Variable lanes : nat.
Implicit Types (m : mem).

Definition ci_equal_chunk (left_chunk right_chunk : vec) : Z :=
  let ascii_case_bit := vset1 lanes 32 in
  let before_a := vset1 lanes 96 in
  let after_z := vset1 lanes 123 in
  let direct_equal := vcmpeq left_chunk right_chunk in
  let left_lower := vor left_chunk ascii_case_bit in
  let right_lower := vor right_chunk ascii_case_bit in
  let lower_equal := vcmpeq left_lower right_lower in
  let left_alpha := vand (vcmpgt left_lower before_a) (vcmpgt after_z left_lower) in
  let right_alpha := vand (vcmpgt right_lower before_a) (vcmpgt after_z right_lower) in
  let case_equal := vand lower_equal (vand left_alpha right_alpha) in
  vmovemask (vor direct_equal case_equal).

(** The scalar tail of the kernel. *)
Definition tail_lower (ch : Z) : Z :=
  if (65 <=? ch) && (ch <=? 90) then wrap8 (ch - 65 + 97) else ch.

Fixpoint ci_equal_tail m (left right : Z) (n : nat) : bool :=
  match n with
  | O => true
  | S n =>
      if negb (tail_lower (ld8 m left) =? tail_lower (ld8 m right)) then false
      else ci_equal_tail m (left + 1) (right + 1) n
  end.

(** [while (index + lanes <= length)]; [fuel] bounds the iterations, and the
    addition has the width of [size_t]. *)
Fixpoint ci_equal_chunks m (left right length i : Z) (fuel : nat) : bool :=
  match fuel with
  | O => ci_equal_tail m (left + i) (right + i) (Z.to_nat (length - i))
  | S fuel =>
      if wrap64 (i + Z.of_nat lanes) <=? length then
        if negb (ci_equal_chunk (vloadu lanes m (left + i)) (vloadu lanes m (right + i))
                 =? 2 ^ Z.of_nat lanes - 1)
        then false
        else ci_equal_chunks m left right length (wrap64 (i + Z.of_nat lanes)) fuel
      else ci_equal_tail m (left + i) (right + i) (Z.to_nat (length - i))
  end.

Definition all_ascii_ci_equal m (left right length : Z) : bool :=
  ci_equal_chunks m left right length 0 (Z.to_nat length).

Definition equal_ci_ascii_simd m (left right : SlStr) : bool :=
  if negb (str_length left =? str_length right) then false else
  if str_length left =? 0 then true else
  if (str_ptr left =? 0) || (str_ptr right =? 0) then false else
  if str_ptr left =? str_ptr right then true else
  all_ascii_ci_equal m (str_ptr left) (str_ptr right) (str_length left).

Fixpoint contains_nul_chunks m (ptr length i : Z) (fuel : nat) : bool :=
  match fuel with
  | O => contains_nul_loop m (ptr + i) (Z.to_nat (length - i))
  | S fuel =>
      if wrap64 (i + Z.of_nat lanes) <=? length then
        if negb (vmovemask (vcmpeq (vloadu lanes m (ptr + i)) (vset1 lanes 0)) =? 0) then true
        else contains_nul_chunks m ptr length (wrap64 (i + Z.of_nat lanes)) fuel
      else contains_nul_loop m (ptr + i) (Z.to_nat (length - i))
  end.

Definition contains_nul_simd m (str : SlStr) : bool :=
  if (str_length str =? 0) || (str_ptr str =? 0) then false else
  contains_nul_chunks m (str_ptr str) (str_length str) 0 (Z.to_nat (str_length str)).

Definition match_mask m (ptr : Z) (needle : Z) : Z :=
  vmovemask (vcmpeq (vloadu lanes m ptr) (vset1 lanes needle)).

Fixpoint find_chunks m (ptr length needle i : Z) (fuel : nat) : option SlBytesFindResult :=
  match fuel with
  | O => find_loop m ptr i needle (Z.to_nat (length - i))
  | S fuel =>
      if wrap64 (i + Z.of_nat lanes) <=? length then
        let mask := match_mask m (ptr + i) needle in
        if negb (mask =? 0)
        then Some {| found := true; index := i + first_mask_index lanes mask; value := needle |}
        else find_chunks m ptr length needle (wrap64 (i + Z.of_nat lanes)) fuel
      else find_loop m ptr i needle (Z.to_nat (length - i))
  end.

Definition bytes_find_simd m (bytes : SlBytes) (needle : Z) : SlBytesFindResult :=
  default (find_nothing bytes)
    (find_chunks m (bytes_ptr bytes) (bytes_length bytes) needle 0 (Z.to_nat (bytes_length bytes))).

(** The mask of the specialised loop for two to four needles. *)
Definition few_needles_mask m (ptr : Z) (needles : SlBytes) : Z :=
  let needle k := ld8 m (bytes_ptr needles + k) in
  let mask := Z.lor (match_mask m ptr (needle 0)) (match_mask m ptr (needle 1)) in
  let mask := if 2 <? bytes_length needles then Z.lor mask (match_mask m ptr (needle 2)) else mask in
  if 3 <? bytes_length needles then Z.lor mask (match_mask m ptr (needle 3)) else mask.

(** The mask of the general loop. *)
Fixpoint needles_mask m (ptr needle_ptr mask : Z) (n : nat) : Z :=
  match n with
  | O => mask
  | S n => needles_mask m ptr (needle_ptr + 1) (Z.lor mask (match_mask m ptr (ld8 m needle_ptr))) n
  end.

(** The two chunk loops differ only in how they compute the mask; a loop that
    finds nothing leaves its final index to the next. *)
Fixpoint find_any_chunks m (mask_at : Z -> Z) (ptr length i : Z) (fuel : nat)
    : SlBytesFindResult + Z :=
  match fuel with
  | O => inr i
  | S fuel =>
      if wrap64 (i + Z.of_nat lanes) <=? length then
        let mask := mask_at (ptr + i) in
        if negb (mask =? 0)
        then let k := i + first_mask_index lanes mask in
             inl {| found := true; index := k; value := ld8 m (ptr + k) |}
        else find_any_chunks m mask_at ptr length (wrap64 (i + Z.of_nat lanes)) fuel
      else inr i
  end.

Definition bytes_find_any_simd m (bytes needles : SlBytes) : SlBytesFindResult :=
  let ptr := bytes_ptr bytes in
  let length := bytes_length bytes in
  let fuel := Z.to_nat length in
  if bytes_length needles =? 0 then find_nothing bytes else
  if bytes_length needles =? 1 then bytes_find_simd m bytes (ld8 m (bytes_ptr needles)) else
  let few :=
    if bytes_length needles <=? 4
    then find_any_chunks m (fun p => few_needles_mask m p needles) ptr length 0 fuel
    else inr 0 in
  match few with
  | inl r => r
  | inr i =>
      match find_any_chunks m
              (fun p => needles_mask m p (bytes_ptr needles) 0 (Z.to_nat (bytes_length needles)))
              ptr length i fuel with
      | inl r => r
      | inr i => default (find_nothing bytes)
                   (find_any_loop m ptr i needles (Z.to_nat (length - i)))
      end
  end.
End Kernels.

Definition sl_str_equal_ci_ascii_sse2 := equal_ci_ascii_simd 16.
Definition sl_str_contains_nul_sse2 := contains_nul_simd 16.
Definition sl_bytes_find_sse2 := bytes_find_simd 16.
Definition sl_bytes_find_any_sse2 := bytes_find_any_simd 16.
Definition sl_str_equal_ci_ascii_avx2 := equal_ci_ascii_simd 32.
Definition sl_str_contains_nul_avx2 := contains_nul_simd 32.
Definition sl_bytes_find_avx2 := bytes_find_simd 32.
Definition sl_bytes_find_any_avx2 := bytes_find_any_simd 32.

(** * Dispatchers *)

Section Dispatch.
Context `{SimdConfig}.

Definition sl_str_equal_ci_ascii (m : mem) (left right : SlStr) : bool :=
  match SL_STRING_SIMD with
  | AVX2 => sl_str_equal_ci_ascii_avx2 m left right
  | SSE2 => sl_str_equal_ci_ascii_sse2 m left right
  | SCALAR => sl_str_equal_ci_ascii_scalar m left right
  end.

Definition sl_str_starts_with_ci_ascii (m : mem) (str prefix : SlStr) : bool :=
  if str_length prefix =? 0 then true else
  if (str_length str <? str_length prefix) || (str_ptr str =? 0) || (str_ptr prefix =? 0)
  then false else
  sl_str_equal_ci_ascii m (sl_str_from_parts (str_ptr str) (str_length prefix)) prefix.

Definition sl_str_ends_with_ci_ascii (m : mem) (str suffix : SlStr) : bool :=
  if str_length suffix =? 0 then true else
  if (str_length str <? str_length suffix) || (str_ptr str =? 0) || (str_ptr suffix =? 0)
  then false else
  let offset := str_length str - str_length suffix in
  sl_str_equal_ci_ascii m (sl_str_from_parts (str_ptr str + offset) (str_length suffix)) suffix.

Definition sl_str_contains_nul (m : mem) (str : SlStr) : bool :=
  if negb (sl_str_has_valid_storage str) then false else
  match SL_STRING_SIMD with
  | AVX2 => sl_str_contains_nul_avx2 m str
  | SSE2 => sl_str_contains_nul_sse2 m str
  | SCALAR => sl_str_contains_nul_scalar m str
  end.

Definition sl_bytes_find (m : mem) (bytes : SlBytes) (needle : Z) (out : nullable)
    : result SlBytesFindResult :=
  error_if is_null out || negb (sl_bytes_has_valid_storage bytes)
    with SL_STATUS_INVALID_ARGUMENT ;;
  match SL_BYTES_SIMD with
  | AVX2 => Ok (sl_bytes_find_avx2 m bytes needle)
  | SSE2 => Ok (sl_bytes_find_sse2 m bytes needle)
  | SCALAR => sl_bytes_find_scalar m bytes needle out
  end.

Definition sl_bytes_find_any (m : mem) (bytes needles : SlBytes) (out : nullable)
    : result SlBytesFindResult :=
  error_if is_null out || negb (sl_bytes_has_valid_storage bytes)
           || negb (sl_bytes_has_valid_storage needles)
    with SL_STATUS_INVALID_ARGUMENT ;;
  match SL_BYTES_SIMD with
  | AVX2 => Ok (sl_bytes_find_any_avx2 m bytes needles)
  | SSE2 => Ok (sl_bytes_find_any_sse2 m bytes needles)
  | SCALAR => sl_bytes_find_any_scalar m bytes needles out
  end.
End Dispatch.

(** * Lemmas: masks *)

Fixpoint of_bits (bs : list bool) : Z :=
  match bs with
  | [] => 0
  | b :: bs => (if b then 1 else 0) + 2 * of_bits bs
  end.

Lemma of_bits_nonneg bs : 0 <= of_bits bs.
Proof. induction bs as [|[] bs]; simpl; lia. Qed.

Lemma vmovemask_bits v : vmovemask v = of_bits (map (fun b => Z.testbit b 7) v).
Proof. induction v as [|b v IH]; simpl; [done|]. by rewrite IH. Qed.

Lemma lor_double a b (x y : bool) :
  Z.lor ((if x then 1 else 0) + 2 * a) ((if y then 1 else 0) + 2 * b) =
  (if x || y then 1 else 0) + 2 * Z.lor a b.
Proof.
  assert (Hodd : forall (z : bool) c, (if z then 1 else 0) + 2 * c = 2 * c + Z.b2z z)
    by (intros [] ?; simpl; lia).
  rewrite !Hodd. apply Z.bits_inj'. intros n Hn. rewrite Z.lor_spec.
  destruct (Z.eq_dec n 0) as [->|].
  - rewrite !Z.testbit_0_r. done.
  - replace n with (Z.succ (n - 1)) by lia. rewrite !Z.testbit_succ_r by lia.
    by rewrite Z.lor_spec.
Qed.

Lemma of_bits_lor bs cs :
  length bs = length cs -> Z.lor (of_bits bs) (of_bits cs) = of_bits (zip_with orb bs cs).
Proof.
  revert cs; induction bs as [|b bs IH]; intros [|c cs] E; simpl in *; try done.
  rewrite lor_double, IH by lia. done.
Qed.

Lemma of_bits_full bs :
  (of_bits bs =? 2 ^ Z.of_nat (length bs) - 1) = forallb id bs.
Proof.
  assert (Hub : forall cs, of_bits cs < 2 ^ Z.of_nat (length cs)).
  { induction cs as [|[] cs]; simpl length; [done| |];
      rewrite Nat2Z.inj_succ, Z.pow_succ_r by lia; simpl; lia. }
  induction bs as [|b bs IH]; [done|]. simpl length.
  rewrite Nat2Z.inj_succ, Z.pow_succ_r by lia. specialize (Hub bs). cbn [of_bits forallb id].
  rewrite <- IH. destruct b; simpl; [|].
  - destruct (Z.eqb_spec (1 + 2 * of_bits bs) (2 * 2 ^ Z.of_nat (length bs) - 1)),
      (Z.eqb_spec (of_bits bs) (2 ^ Z.of_nat (length bs) - 1)); lia.
  - apply Z.eqb_neq. lia.
Qed.

Lemma ctz_bits_zero n b bs :
  first_mask_index (S n) (of_bits (b :: bs)) =
  if b then 0 else 1 + first_mask_index n (of_bits bs).
Proof.
  pose proof (of_bits_nonneg bs). unfold first_mask_index. cbn [ctz of_bits]. destruct b; simpl.
  - destruct (Z.eqb_spec (1 + 2 * of_bits bs) 0); [lia|].
    rewrite Z.odd_add, Z.odd_mul. done.
  - rewrite !Z.add_0_l, Z.odd_mul. cbn [Z.odd andb].
    replace (2 * of_bits bs / 2) with (of_bits bs) by (rewrite Z.mul_comm, Z.div_mul; lia).
    destruct (Z.eqb_spec (2 * of_bits bs) 0), (Z.eqb_spec (of_bits bs) 0); lia.
Qed.

(** The mask of a chunk finds the chunk's first match. *)
Lemma mask_first P bs :
  match first_match P bs with
  | None => of_bits (map P bs) = 0
  | Some (k, v) =>
      of_bits (map P bs) <> 0 /\
      first_mask_index (length bs) (of_bits (map P bs)) = Z.of_nat k /\ bs !! k = Some v
  end.
Proof.
  induction bs as [|b bs IH]; [done|]. cbn [first_match map length].
  rewrite ctz_bits_zero. cbn [of_bits].
  pose proof (of_bits_nonneg (map P bs)). destruct (P b).
  - simpl. split_and!; [lia|done..].
  - destruct (first_match P bs) as [[k v]|]; simpl.
    + destruct IH as (? & -> & ?). split_and!; [lia|lia|done].
    + lia.
Qed.

Lemma match_mask_bits lanes m p needle :
  is_byte needle ->
  match_mask lanes m p needle = of_bits (map (fun b => b =? needle) (load m p lanes)).
Proof.
  intros Hn. unfold match_mask, vset1, vloadu. rewrite wrap8_small by done.
  rewrite vmovemask_bits. f_equal. revert p; induction lanes as [|n IH]; intros p; simpl; [done|].
  f_equal; [|apply IH]. by destruct (ld8 m p =? needle).
Qed.

(** * Lemmas: chunk loops *)

(** What a chunk loop may assume of its counters: the [size_t] addition in its
    condition does not wrap. *)
Definition chunked (lanes : nat) (length i : Z) : Prop :=
  (0 < lanes)%nat /\ 0 <= i <= length /\ length + Z.of_nat lanes <= SIZE_MAX.

Lemma chunked_next lanes length i :
  chunked lanes length i -> wrap64 (i + Z.of_nat lanes) = i + Z.of_nat lanes.
Proof. intros (? & ? & ?). apply wrap64_small. size_lia. Qed.

Lemma chunked_step lanes length i :
  chunked lanes length i -> i + Z.of_nat lanes <= length -> chunked lanes length (i + Z.of_nat lanes).
Proof. unfold chunked. lia. Qed.

Lemma load_chunk m p i length lanes :
  0 <= i -> i + Z.of_nat lanes <= length ->
  load m (p + i) (Z.to_nat (length - i)) =
  load m (p + i) lanes
  ++ load m (p + (i + Z.of_nat lanes)) (Z.to_nat (length - (i + Z.of_nat lanes))).
Proof.
  intros. replace (Z.to_nat (length - i))
    with (lanes + Z.to_nat (length - (i + Z.of_nat lanes)))%nat by lia.
  rewrite load_app. do 2 f_equal. lia.
Qed.

(** Searching the rest of a view, one chunk ahead. *)
Lemma search_chunk P m p i length lanes :
  0 <= i -> i + Z.of_nat lanes <= length ->
  let mask := of_bits (map P (load m (p + i) lanes)) in
  let k := i + first_mask_index lanes mask in
  report i <$> first_match P (load m (p + i) (Z.to_nat (length - i))) =
  if negb (mask =? 0) then Some {| found := true; index := k; value := ld8 m (p + k) |}
  else report (i + Z.of_nat lanes) <$>
         first_match P (load m (p + (i + Z.of_nat lanes)) (Z.to_nat (length - (i + Z.of_nat lanes)))).
Proof.
  intros Hi Hl. cbv zeta. rewrite (load_chunk m p i length lanes) by done. rewrite first_match_app.
  pose proof (mask_first P (load m (p + i) lanes)) as Hm. rewrite length_load in *.
  destruct (first_match P (load m (p + i) lanes)) as [[k v]|].
  - destruct Hm as (Hne & -> & Hk). destruct (Z.eqb_spec (of_bits (map P (load m (p + i) lanes))) 0);
      [done|]. simpl. assert (k < lanes)%nat.
    { apply lookup_lt_Some in Hk. by rewrite length_load in Hk. }
    rewrite load_lookup in Hk by done. injection Hk as <-. do 3 f_equal; lia.
  - rewrite Hm. simpl. destruct (first_match _ _) as [[k v]|]; [|done]. simpl. do 2 f_equal. lia.
Qed.

Lemma search_chunk_value P m p i length r :
  report i <$> first_match P (load m (p + i) (Z.to_nat (length - i))) = Some r -> P (value r) = true.
Proof.
  destruct (first_match _ _) as [[k v]|] eqn:E; [|done]. intros [= <-].
  by apply first_match_some in E as (_ & ? & _).
Qed.

Lemma find_chunks_spec lanes m p length needle i fuel :
  chunked lanes length i -> is_byte needle ->
  find_chunks lanes m p length needle i fuel =
  report i <$> first_match (fun b => b =? needle) (load m (p + i) (Z.to_nat (length - i))).
Proof.
  intros Hc Hb. revert i Hc; induction fuel as [|fuel IH]; intros i Hc; cbn [find_chunks];
    [apply find_loop_spec|].
  rewrite (chunked_next _ _ _ Hc).
  destruct (Z.leb_spec (i + Z.of_nat lanes) length) as [Hl|]; [|apply find_loop_spec].
  rewrite match_mask_bits by done.
  pose proof (search_chunk (fun b => b =? needle) m p i length lanes) as Hs. cbv zeta in Hs.
  pose proof (search_chunk_value (fun b => b =? needle) m p i length) as Hv.
  rewrite Hs in Hv |- * by (try apply Hc; done).
  split_if; [|by apply IH, chunked_step]. specialize (Hv _ eq_refl). simpl in Hv.
  apply Z.eqb_eq in Hv. by rewrite Hv.
Qed.

Lemma bytes_find_simd_spec lanes m bytes needle :
  chunked lanes (bytes_length bytes) 0 -> is_byte needle ->
  bytes_find_simd lanes m bytes needle = find_spec m bytes (fun b => b =? needle).
Proof.
  intros Hc Hb. unfold bytes_find_simd. rewrite find_chunks_spec by done.
  by rewrite Z.add_0_r, Z.sub_0_r.
Qed.

(** Any way to compute the mask of the needles gives the same chunk loop. *)
Lemma find_any_chunks_spec lanes m P mask_at p length i fuel :
  chunked lanes length i ->
  (forall q, mask_at q = of_bits (map P (load m q lanes))) ->
  let rest j := report j <$> first_match P (load m (p + j) (Z.to_nat (length - j))) in
  match find_any_chunks lanes m mask_at p length i fuel with
  | inl r => rest i = Some r
  | inr j => chunked lanes length j /\ rest i = rest j
  end.
Proof.
  intros Hc Hm. cbv zeta. revert i Hc; induction fuel as [|fuel IH]; intros i Hc;
    cbn [find_any_chunks]; [done|].
  rewrite (chunked_next _ _ _ Hc).
  destruct (Z.leb_spec (i + Z.of_nat lanes) length) as [Hl|]; [|done]. rewrite Hm.
  pose proof (search_chunk P m p i length lanes) as Hs. cbv zeta in Hs.
  rewrite Hs by (try apply Hc; done). split_if; [done|]. by apply IH, (chunked_step lanes).
Qed.

Lemma lor_masks lanes m p P Q :
  Z.lor (of_bits (map P (load m p lanes))) (of_bits (map Q (load m p lanes))) =
  of_bits (map (fun b => P b || Q b) (load m p lanes)).
Proof.
  rewrite of_bits_lor by (by rewrite !length_map). f_equal.
  induction (load m p lanes) as [|b bs IH]; simpl; [done|]. by rewrite IH.
Qed.

Lemma of_bits_map_ext (P Q : Z -> bool) bs :
  (forall b, P b = Q b) -> of_bits (map P bs) = of_bits (map Q bs).
Proof. intros E. f_equal. by apply map_ext. Qed.

Lemma needles_mask_spec lanes m p q P n :
  needles_mask lanes m p q (of_bits (map P (load m p lanes))) n =
  of_bits (map (fun b => P b || is_needle (load m q n) b) (load m p lanes)).
Proof.
  revert q P; induction n as [|n IH]; intros q P; cbn [needles_mask load].
  - apply of_bits_map_ext. intros b. unfold is_needle. by rewrite orb_false_r.
  - rewrite match_mask_bits by apply ld8_range. rewrite lor_masks, IH. apply of_bits_map_ext.
    intros b. unfold is_needle. rewrite <- orb_assoc. f_equal.
    destruct (Z.eqb_spec b (ld8 m q)); simpl; repeat case_bool_decide; try done;
      rewrite elem_of_cons in *; intuition congruence.
Qed.

Lemma bytes_val_cons m bytes :
  0 < bytes_length bytes ->
  bytes_val m bytes =
  ld8 m (bytes_ptr bytes)
  :: bytes_val m (sl_bytes_from_parts (bytes_ptr bytes + 1) (bytes_length bytes - 1)).
Proof. intros. unfold bytes_val. by rewrite load_bytes_cons. Qed.

Lemma is_needle_cons n ns b : is_needle (n :: ns) b = (b =? n) || is_needle ns b.
Proof.
  unfold is_needle. destruct (Z.eqb_spec b n); repeat case_bool_decide; try done;
    rewrite elem_of_cons in *; intuition congruence.
Qed.

Lemma few_needles_mask_spec lanes m p needles :
  2 <= bytes_length needles <= 4 ->
  few_needles_mask lanes m p needles =
  of_bits (map (is_needle (bytes_val m needles)) (load m p lanes)).
Proof.
  intros Hn. unfold few_needles_mask. rewrite !match_mask_bits by apply ld8_range.
  rewrite Z.add_0_r, !lor_masks.
  unfold bytes_val, load_bytes.
  assert (bytes_length needles = 2 \/ bytes_length needles = 3 \/ bytes_length needles = 4)
    as [E|[E|E]] by lia; rewrite E; cbn -[ld8 Z.add is_needle load of_bits map];
    rewrite ?lor_masks; apply of_bits_map_ext; intros b;
    [change (Z.to_nat 2) with 2%nat|change (Z.to_nat 3) with 3%nat|change (Z.to_nat 4) with 4%nat];
    cbn [load]; rewrite !is_needle_cons, orb_false_r, <- ?Z.add_assoc, ?orb_assoc; done.
Qed.

Lemma of_bits_never (bs : list Z) : of_bits (map (fun _ => false) bs) = 0.
Proof. induction bs as [|b bs IH]; simpl; [done|]. by rewrite IH. Qed.

Lemma general_mask_spec lanes m needles q :
  needles_mask lanes m q (bytes_ptr needles) 0 (Z.to_nat (bytes_length needles)) =
  of_bits (map (is_needle (bytes_val m needles)) (load m q lanes)).
Proof.
  pose proof (needles_mask_spec lanes m q (bytes_ptr needles) (fun _ => false)
    (Z.to_nat (bytes_length needles))) as Hm.
  rewrite of_bits_never in Hm. done.
Qed.

Lemma bytes_find_any_simd_spec lanes m bytes needles :
  chunked lanes (bytes_length bytes) 0 -> 0 <= bytes_length needles ->
  bytes_find_any_simd lanes m bytes needles = find_spec m bytes (is_needle (bytes_val m needles)).
Proof.
  intros Hc Hn. unfold bytes_find_any_simd.
  destruct (Z.eqb_spec (bytes_length needles) 0) as [E0|].
  { rewrite find_spec_never; [done|]. intros b. unfold is_needle, bytes_val. by rewrite E0. }
  destruct (Z.eqb_spec (bytes_length needles) 1) as [E1|].
  { rewrite bytes_find_simd_spec by (try apply ld8_range; done). unfold find_spec. do 2 f_equal.
    apply first_match_ext. intros b _. unfold bytes_val, load_bytes. rewrite E1. simpl.
    by rewrite is_needle_cons, orb_false_r. }
  set (P := is_needle (bytes_val m needles)).
  set (few := if bytes_length needles <=? 4 then _ else _).
  set (rest j := report j <$> first_match P
                   (load m (bytes_ptr bytes + j) (Z.to_nat (bytes_length bytes - j)))).
  assert (Hfew : match few with
                 | inl r => rest 0 = Some r
                 | inr j => chunked lanes (bytes_length bytes) j /\ rest 0 = rest j end).
  { unfold few. destruct (Z.leb_spec (bytes_length needles) 4); [|done].
    apply find_any_chunks_spec; [done|]. intros q. apply few_needles_mask_spec. lia. }
  replace (find_spec m bytes P) with (default (find_nothing bytes) (rest 0))
    by (unfold rest, find_spec; by rewrite Z.add_0_r, Z.sub_0_r).
  destruct few as [r|j]; [by rewrite Hfew|]. destruct Hfew as [Hj ->].
  pose proof (find_any_chunks_spec lanes m P
    (fun p => needles_mask lanes m p (bytes_ptr needles) 0 (Z.to_nat (bytes_length needles)))
    (bytes_ptr bytes) (bytes_length bytes) j (Z.to_nat (bytes_length bytes)) Hj) as Hg.
  destruct (find_any_chunks _ _ _ _ _ _ _) as [r|k].
  - unfold rest. rewrite Hg; [done|]. apply general_mask_spec.
  - destruct Hg as [_ Hg]; [apply general_mask_spec|]. unfold rest. rewrite Hg.
    by rewrite find_any_loop_spec.
Qed.

(** * Lemmas: string kernels *)

(** One lane of [ci_equal_chunk]. *)
Definition ci_lane (a b : Z) : Z :=
  let la := Z.lor a 32 in
  let lb := Z.lor b 32 in
  let alpha l := Z.land (lane_mask (signed8 96 <? signed8 l)) (lane_mask (signed8 l <? signed8 123)) in
  Z.lor (lane_mask (a =? b)) (Z.land (lane_mask (la =? lb)) (Z.land (alpha la) (alpha lb))).

Lemma ci_equal_chunk_lanes xs ys :
  length xs = length ys ->
  ci_equal_chunk (length xs) xs ys = vmovemask (zip_with ci_lane xs ys).
Proof.
  intros E. unfold ci_equal_chunk. f_equal. revert ys E.
  induction xs as [|x xs IH]; intros [|y ys] E; simpl in E; try done.
  unfold vset1 in *. cbn [length replicate]. cbn -[ci_lane Z.lor Z.land lane_mask signed8]. f_equal.
  apply IH. lia.
Qed.

Definition all_bytes : list Z := map Z.of_nat (seq 0 256).

Lemma all_bytes_elem b : is_byte b -> In b all_bytes.
Proof.
  intros Hb. unfold all_bytes. apply in_map_iff. exists (Z.to_nat b).
  unfold is_byte in Hb. split; [lia|]. apply in_seq. lia.
Qed.

(** The lane test agrees with the ASCII lower case on every pair of bytes; the
    statement is finite and is evaluated. *)
Lemma ci_lane_all :
  forallb (fun a => forallb (fun b =>
    Bool.eqb (Z.testbit (ci_lane a b) 7) (ascii_lower a =? ascii_lower b)) all_bytes) all_bytes = true.
Proof. vm_compute. reflexivity. Qed.

Lemma ci_lane_spec a b :
  is_byte a -> is_byte b -> Z.testbit (ci_lane a b) 7 = (ascii_lower a =? ascii_lower b).
Proof.
  intros Ha%all_bytes_elem Hb%all_bytes_elem. pose proof ci_lane_all as H.
  rewrite forallb_forall in H. specialize (H a Ha). rewrite forallb_forall in H.
  by apply eqb_prop, (H b Hb).
Qed.

Lemma ci_equal_chunk_spec xs ys :
  Forall is_byte xs -> Forall is_byte ys -> length xs = length ys ->
  (ci_equal_chunk (length xs) xs ys =? 2 ^ Z.of_nat (length xs) - 1) =
  bool_decide (map ascii_lower xs = map ascii_lower ys).
Proof.
  intros Hx Hy E. rewrite ci_equal_chunk_lanes, vmovemask_bits by done.
  replace (length xs) with (length (map (fun b => Z.testbit b 7) (zip_with ci_lane xs ys)))
    by (rewrite length_map, length_zip_with; lia).
  rewrite of_bits_full. revert ys Hy E.
  induction Hx as [|x xs Hx Hxs IH]; intros [|y ys] Hy E; try done.
  apply Forall_cons in Hy as [Hy Hys]. cbn [zip_with map forallb]. injection E as E.
  rewrite IH by done. unfold id at 1.
  rewrite ci_lane_spec by done.
  destruct (Z.eqb_spec (ascii_lower x) (ascii_lower y)); simpl; repeat case_bool_decide; congruence.
Qed.

Lemma tail_lower_spec c : is_byte c -> tail_lower c = ascii_lower c.
Proof.
  intros. unfold tail_lower, ascii_lower. split_if; [|done].
  rewrite wrap8_small; [lia|]. unfold is_byte in *. lia.
Qed.

Lemma ci_equal_tail_spec m l r n :
  ci_equal_tail m l r n = bool_decide (map ascii_lower (load m l n) = map ascii_lower (load m r n)).
Proof.
  revert l r; induction n as [|n IH]; intros l r; simpl; [done|].
  rewrite !tail_lower_spec, IH by apply ld8_range.
  destruct (Z.eqb_spec (ascii_lower (ld8 m l)) (ascii_lower (ld8 m r))); simpl;
    repeat case_bool_decide; congruence.
Qed.

Lemma bool_decide_app (xs ys xs' ys' : list Z) :
  length xs = length ys ->
  bool_decide (xs ++ xs' = ys ++ ys') = bool_decide (xs = ys) && bool_decide (xs' = ys').
Proof.
  intros E. destruct (decide (xs = ys)) as [->|Hne].
  - rewrite (bool_decide_eq_true_2 (ys = ys)) by done. simpl. apply bool_decide_ext.
    split; [apply app_inv_head|by intros ->].
  - rewrite (bool_decide_eq_false_2 (xs = ys)) by done. simpl. apply bool_decide_eq_false_2.
    intros [? _]%app_inj_1; done.
Qed.

Lemma ci_equal_chunks_spec lanes m l r length i fuel :
  chunked lanes length i ->
  ci_equal_chunks lanes m l r length i fuel =
  bool_decide (map ascii_lower (load m (l + i) (Z.to_nat (length - i))) =
               map ascii_lower (load m (r + i) (Z.to_nat (length - i)))).
Proof.
  revert i; induction fuel as [|fuel IH]; intros i Hc; cbn [ci_equal_chunks];
    [apply ci_equal_tail_spec|].
  rewrite (chunked_next _ _ _ Hc).
  destruct (Z.leb_spec (i + Z.of_nat lanes) length) as [Hl|]; [|apply ci_equal_tail_spec].
  rewrite !(load_chunk m _ i length lanes), !map_app by (try apply Hc; done).
  rewrite bool_decide_app by (by rewrite !length_map, !length_load).
  rewrite <- IH by (by apply chunked_step).
  pose proof (ci_equal_chunk_spec (load m (l + i) lanes) (load m (r + i) lanes)) as Hs.
  rewrite !length_load in Hs. unfold vloadu. rewrite Hs by (try apply load_is_byte; done).
  by destruct (bool_decide _).
Qed.

Lemma equal_ci_ascii_simd_spec lanes m l r :
  chunked lanes (str_length l) 0 ->
  equal_ci_ascii_simd lanes m l r = sl_str_equal_ci_ascii_scalar m l r.
Proof.
  intros Hc. unfold equal_ci_ascii_simd, sl_str_equal_ci_ascii_scalar, all_ascii_ci_equal.
  rewrite ci_equal_chunks_spec by done. rewrite equal_ci_loop_spec, !Z.add_0_r, Z.sub_0_r. done.
Qed.

Lemma of_bits_zero P (bs : list Z) :
  negb (of_bits (map P bs) =? 0) = existsb P bs.
Proof.
  induction bs as [|b bs IH]; [done|]. cbn [map of_bits existsb].
  pose proof (of_bits_nonneg (map P bs)). destruct (P b); simpl.
  - apply negb_true_iff, Z.eqb_neq. lia.
  - rewrite <- IH. f_equal. destruct (Z.eqb_spec (of_bits (map P bs)) 0) as [->|]; [done|].
    apply Z.eqb_neq. lia.
Qed.

Lemma existsb_zero bs : existsb (fun b => b =? 0) bs = bool_decide (0 ∈ bs).
Proof.
  induction bs as [|b bs IH]; [done|]. simpl. rewrite IH.
  destruct (Z.eqb_spec b 0) as [->|]; repeat case_bool_decide; try done;
    rewrite elem_of_cons in *; intuition congruence.
Qed.

Lemma contains_nul_chunks_spec lanes m p length i fuel :
  chunked lanes length i ->
  contains_nul_chunks lanes m p length i fuel =
  bool_decide (0 ∈ load m (p + i) (Z.to_nat (length - i))).
Proof.
  revert i; induction fuel as [|fuel IH]; intros i Hc; cbn [contains_nul_chunks];
    [apply contains_nul_loop_spec|].
  rewrite (chunked_next _ _ _ Hc).
  destruct (Z.leb_spec (i + Z.of_nat lanes) length) as [Hl|]; [|apply contains_nul_loop_spec].
  pose proof (match_mask_bits lanes m (p + i) 0 ltac:(unfold is_byte; lia)) as Hm.
  unfold match_mask in Hm. rewrite Hm, of_bits_zero, existsb_zero.
  rewrite IH by (by apply chunked_step). rewrite (load_chunk m _ i length lanes) by (try apply Hc; done).
  repeat case_bool_decide; rewrite ?elem_of_app in *; tauto.
Qed.

Lemma contains_nul_simd_spec lanes m s :
  chunked lanes (str_length s) 0 -> sl_str_has_valid_storage s = true ->
  contains_nul_simd lanes m s = sl_str_contains_nul_scalar m s.
Proof.
  intros Hc Hv. unfold contains_nul_simd, sl_str_contains_nul_scalar.
  rewrite contains_nul_chunks_spec by done. rewrite contains_nul_loop_spec, Z.add_0_r, Z.sub_0_r.
  unfold sl_str_has_valid_storage in *.
  destruct (Z.eqb_spec (str_length s) 0) as [->|]; simpl in *; [done|].
  by destruct (str_ptr s =? 0).
Qed.

Section Dispatchers.
Context `{SimdConfig}.

(** A length the vector loops handle: the object leaves room for one more
    vector below the end of the address space. *)
Definition simd_length (len : Z) : Prop := 0 <= len <= SIZE_MAX - 32.

Lemma simd_length_16 len : simd_length len -> chunked 16 len 0.
Proof. unfold simd_length, chunked. lia. Qed.

Lemma simd_length_32 len : simd_length len -> chunked 32 len 0.
Proof. unfold simd_length, chunked. lia. Qed.

Lemma sl_str_equal_ci_ascii_scalar_eq m l r :
  simd_length (str_length l) -> sl_str_equal_ci_ascii m l r = sl_str_equal_ci_ascii_scalar m l r.
Proof.
  intros Hl. unfold sl_str_equal_ci_ascii. destruct SL_STRING_SIMD; [done| |];
    apply equal_ci_ascii_simd_spec; [by apply simd_length_16|by apply simd_length_32].
Qed.

Lemma sl_str_contains_nul_scalar_eq m s :
  simd_length (str_length s) -> sl_str_contains_nul m s = sl_str_contains_nul_scalar m s.
Proof.
  intros Hl. unfold sl_str_contains_nul. destruct (sl_str_has_valid_storage s) eqn:E; simpl.
  - destruct SL_STRING_SIMD; [done| |]; apply contains_nul_simd_spec; try done;
      [by apply simd_length_16|by apply simd_length_32].
  - unfold sl_str_contains_nul_scalar. by rewrite E.
Qed.

Definition folded (m : mem) (v : SlStr) : list Z := map ascii_lower (str_val m v).

Lemma sl_str_equal_ci_ascii_spec m l r :
  str_valid l -> str_valid r -> simd_length (str_length l) -> sl_str_equal_ci_ascii m l r = bool_decide (folded m l = folded m r).
Proof. intros. rewrite sl_str_equal_ci_ascii_scalar_eq by done. by apply sl_str_equal_ci_scalar_spec. Qed.

Lemma length_folded m v : 0 <= str_length v -> Z.of_nat (length (folded m v)) = str_length v.
Proof. intros. unfold folded. rewrite length_map. by apply length_load_bytes. Qed.

Lemma sl_str_starts_with_ci_ascii_spec m s p :
  str_valid s -> str_valid p -> simd_length (str_length s) ->
  sl_str_starts_with_ci_ascii m s p = bool_decide (folded m p `prefix_of` folded m s).
Proof.
  intros [Hs Hs'] [Hp Hp'] Hl. pose proof (length_folded m s Hs) as Ls. pose proof (length_folded m p Hp) as Lp. unfold sl_str_starts_with_ci_ascii.
  destruct (Z.eqb_spec (str_length p) 0) as [E|E].
  { rewrite bool_decide_eq_true_2; [done|]. rewrite (nil_length_inv (folded m p)) by lia. apply prefix_nil. }
  destruct (Z.ltb_spec (str_length s) (str_length p)) as [Hlt|Hge]; cbn [orb].
  { rewrite bool_decide_eq_false_2; [done|]. intros Hpre%prefix_length. lia. }
  destruct (Z.eqb_spec (str_ptr s) 0); [lia|]. destruct (Z.eqb_spec (str_ptr p) 0); [lia|]. cbn [orb].
  rewrite sl_str_equal_ci_ascii_spec; [|split; cbn; lia|split; lia|unfold simd_length in *; cbn; lia].
  apply bool_decide_ext. unfold folded, str_val in *. cbn [str_ptr str_length sl_str_from_parts].
  rewrite <- (load_bytes_take m _ (str_length p) (str_length s)) by lia. rewrite <- firstn_map. split.
  - intros <-. exists (drop (Z.to_nat (str_length p)) (map ascii_lower (load_bytes m (str_ptr s) (str_length s)))). symmetry. apply take_drop.
  - intros [rest ->]. apply take_app_length'. lia.
Qed.

Lemma sl_str_ends_with_ci_ascii_spec m s p :
  str_valid s -> str_valid p -> simd_length (str_length s) -> 0 <= str_ptr s ->
  sl_str_ends_with_ci_ascii m s p = bool_decide (folded m p `suffix_of` folded m s).
Proof.
  intros [Hs Hs'] [Hp Hp'] Hl Hptr. pose proof (length_folded m s Hs) as Ls. pose proof (length_folded m p Hp) as Lp. unfold sl_str_ends_with_ci_ascii.
  destruct (Z.eqb_spec (str_length p) 0) as [E|E].
  { rewrite bool_decide_eq_true_2; [done|]. rewrite (nil_length_inv (folded m p)) by lia. apply suffix_nil. }
  destruct (Z.ltb_spec (str_length s) (str_length p)) as [Hlt|Hge]; cbn [orb].
  { rewrite bool_decide_eq_false_2; [done|]. intros Hsuf%suffix_length. lia. }
  destruct (Z.eqb_spec (str_ptr s) 0); [lia|]. destruct (Z.eqb_spec (str_ptr p) 0); [lia|]. cbn [orb].
  set (k := str_length s - str_length p). rewrite sl_str_equal_ci_ascii_spec; [|split; cbn; [lia|]|split; lia|unfold simd_length in *; cbn; lia].
  2: { right. subst k. lia. }
  apply bool_decide_ext. unfold folded, str_val in *. cbn [str_ptr str_length sl_str_from_parts].
  replace (load_bytes m (str_ptr s + k) (str_length p)) with (drop (Z.to_nat k) (load_bytes m (str_ptr s) (str_length s)))
    by (rewrite load_bytes_drop by lia; f_equal; lia). rewrite <- skipn_map. split.
  - intros <-. exists (take (Z.to_nat k) (map ascii_lower (load_bytes m (str_ptr s) (str_length s)))). symmetry. apply take_drop.
  - intros [rest E']. rewrite E'. apply drop_app_length'. apply (f_equal length) in E'. rewrite length_app in E'. lia.
Qed.

(** C39: Whatever back end the build selects, the case-insensitive comparisons and the
    embedded-NUL scan are those of the specification: equality, the prefix and the
    suffix relation after mapping A-Z to a-z byte by byte (no other byte is folded), and
    membership of the zero byte; equality is that of the scalar reference. *)
Theorem string_backends_agree m l r :
  str_valid l -> str_valid r -> simd_length (str_length l) ->
  sl_str_equal_ci_ascii m l r = sl_str_equal_ci_ascii_scalar m l r /\
  sl_str_equal_ci_ascii m l r = bool_decide (folded m l = folded m r) /\
  sl_str_starts_with_ci_ascii m l r = bool_decide (folded m r `prefix_of` folded m l) /\
  (0 <= str_ptr l -> sl_str_ends_with_ci_ascii m l r = bool_decide (folded m r `suffix_of` folded m l)) /\
  sl_str_contains_nul m l = bool_decide (0 ∈ str_val m l).
Proof.
  intros Hl Hr Hs. split_and!.
  - by apply sl_str_equal_ci_ascii_scalar_eq.
  - by apply sl_str_equal_ci_ascii_spec.
  - by apply sl_str_starts_with_ci_ascii_spec.
  - intros Hp. by apply sl_str_ends_with_ci_ascii_spec.
  - rewrite sl_str_contains_nul_scalar_eq by done. by apply sl_str_contains_nul_scalar_spec.
Qed.

(** Whatever back end the build selects, the byte searches return the first
    index whose byte is the needle (is one of the needles) together with that
    byte, and "not found" with the view's length when there is none. *)
Theorem byte_search_first_match m bytes needles needle :
  bytes_valid bytes -> bytes_valid needles -> is_byte needle ->
  simd_length (bytes_length bytes) ->
  sl_bytes_find m bytes needle REF = Ok (find_spec m bytes (fun b => b =? needle)) /\
  sl_bytes_find_any m bytes needles REF =
    Ok (find_spec m bytes (is_needle (bytes_val m needles))) /\
  (forall P, let r := find_spec m bytes P in
     if found r
     then 0 <= index r < bytes_length bytes /\
          bytes_val m bytes !! Z.to_nat (index r) = Some (value r) /\ P (value r) = true /\
          (forall j b, (j < Z.to_nat (index r))%nat -> bytes_val m bytes !! j = Some b -> P b = false)
     else index r = bytes_length bytes /\ Forall (fun b => P b = false) (bytes_val m bytes)).
Proof.
  intros Hb Hn Hnd Hl. unfold sl_bytes_find, sl_bytes_find_any.
  rewrite !bytes_valid_storage by done. simpl. split_and!.
  - destruct SL_BYTES_SIMD; [by apply sl_bytes_find_scalar_spec| |]; f_equal;
      apply bytes_find_simd_spec; auto using simd_length_16, simd_length_32.
  - destruct SL_BYTES_SIMD; [by apply sl_bytes_find_any_scalar_spec| |]; f_equal;
      apply bytes_find_any_simd_spec; auto using simd_length_16, simd_length_32; apply Hn.
  - intros P. unfold find_spec. destruct (first_match P (bytes_val m bytes)) as [[k v]|] eqn:E; simpl.
    + apply first_match_some in E as (Hk & Hv & Hlt). rewrite Z.add_0_l, Nat2Z.id. split_and!; try done; [lia|].
      apply lookup_lt_Some in Hk.
      pose proof (length_load_bytes m (bytes_ptr bytes) (bytes_length bytes)).
      unfold bytes_val in Hk. unfold simd_length in Hl. lia.
    + split; [done|]. by apply first_match_none.
Qed.
End Dispatchers.

Module Demo.
(** "Content-Type" and "CONTENT-tYPE..." with the bytes beside them. *)
Definition text : list Z := [67; 111; 110; 116; 101; 110; 116; 45; 84; 121; 112; 101; 58; 32; 116; 101; 120; 0].
Definition text' : list Z := [99; 79; 78; 84; 69; 78; 84; 45; 116; 121; 112; 101; 58; 32; 84; 101; 120; 0].
Definition m0 : mem := store (store (fun _ => 7) 100 text) 200 text'.
Definition sse2 : SimdConfig := {| SL_STRING_SIMD := SSE2; SL_BYTES_SIMD := SSE2 |}.
Definition avx2 : SimdConfig := {| SL_STRING_SIMD := AVX2; SL_BYTES_SIMD := AVX2 |}.

Lemma string_backends_agree_witness :
  @sl_str_equal_ci_ascii sse2 m0 (sl_str_from_parts 100 17) (sl_str_from_parts 200 17) = true /\
  @sl_str_contains_nul sse2 m0 (sl_str_from_parts 100 18) = true.
Proof.
  split.
  - rewrite (proj1 (@string_backends_agree sse2 m0 (sl_str_from_parts 100 17)
      (sl_str_from_parts 200 17) ltac:(split; simpl; lia) ltac:(split; simpl; lia)
      ltac:(unfold simd_length; simpl; size_lia))). vm_compute. reflexivity.
  - rewrite (proj2 (proj2 (proj2 (proj2 (@string_backends_agree sse2 m0 (sl_str_from_parts 100 18)
      (sl_str_from_parts 200 18) ltac:(split; simpl; lia) ltac:(split; simpl; lia)
      ltac:(unfold simd_length; simpl; size_lia)))))). vm_compute. reflexivity.
Defined.

Lemma byte_search_first_match_witness :
  @sl_bytes_find avx2 m0 (sl_bytes_from_parts 100 17) 58 REF
  = Ok {| found := true; index := 12; value := 58 |}.
Proof.
  rewrite (proj1 (@byte_search_first_match avx2 m0 (sl_bytes_from_parts 100 17)
    (sl_bytes_from_parts 200 2) 58 ltac:(split; simpl; lia) ltac:(split; simpl; lia)
    ltac:(unfold is_byte; lia) ltac:(unfold simd_length; simpl; size_lia))).
  vm_compute. reflexivity.
Defined.
End Demo.
