(* ===== verification/StrArena.v ===== *)
(** Arena copies of strings (src/core/string.c, [SlOwnedStr] and the view copies).

    A [SlOwnedStr] object keeps its inline buffer ([sso]) in memory:
    [owned_sso] is the address of that buffer. *)

From S2P Require Import Prelude Memory Status Arena Str Simd.

Definition SL_OWNED_STR_SSO_CAPACITY : Z := 16.
Definition SL_OWNED_STR_SSO_MAX_LENGTH : Z := SL_OWNED_STR_SSO_CAPACITY - 1.
Definition SL_STR_WORD_ALIGNMENT : Z := 8.

Record SlOwnedStr := {
  owned_ptr : Z;
  owned_length : Z;
  owned_is_sso : bool;
  owned_arena_generation : Z;
  owned_sso : Z;
}.

(** [None] is a NULL argument. *)
Definition sl_owned_str_as_view_ref (str : option SlOwnedStr) : SlStr :=
  match str with
  | None => sl_str_empty
  | Some str =>
      sl_str_from_parts (if owned_is_sso str then owned_sso str else owned_ptr str)
        (owned_length str)
  end.

Definition sl_owned_str_rebind (str : SlOwnedStr) : SlOwnedStr :=
  if owned_is_sso str
  then {| owned_ptr := owned_sso str; owned_length := owned_length str; owned_is_sso := true;
          owned_arena_generation := owned_arena_generation str; owned_sso := owned_sso str |}
  else str.

(** * Arena copies

    [out_sso] is the address of [out->sso]; writing [*out] writes its sixteen
    inline bytes.  [OwnedLocal] is a [SlOwnedStr] being built on the C stack,
    with its inline bytes as a value. *)

Record OwnedLocal := {
  ol_ptr : Z;
  ol_length : Z;
  ol_is_sso : bool;
  ol_arena_generation : Z;
  ol_sso : list Z;
}.

Definition owned_zero : OwnedLocal :=
  {| ol_ptr := 0; ol_length := 0; ol_is_sso := false; ol_arena_generation := 0;
     ol_sso := replicate 16 0 |}.

Section Copies.
Context {BC : BuildConfig} {SC : SimdConfig}.

(** [src] is given by its bytes; they fit in the inline buffer. *)
Definition sl_owned_str_sso_result (src : list Z) (append_nul : bool) : OwnedLocal :=
  let sso := src ++ drop (length src) (replicate 16 0) in
  {| ol_ptr := 0; ol_length := Z.of_nat (length src); ol_is_sso := true; ol_arena_generation := 0;
     ol_sso := if append_nul then <[length src := 0]> sso else sso |}.

(** [*out = result] *)
Definition write_owned (out_sso : Z) (result : OwnedLocal) : ST World SlOwnedStr :=
  modify (fun w => set_mem (store (w_mem w) out_sso (ol_sso result)) w);;
  mret {| owned_ptr := ol_ptr result; owned_length := ol_length result;
          owned_is_sso := ol_is_sso result;
          owned_arena_generation := ol_arena_generation result; owned_sso := out_sso |}.

Definition sl_owned_str_publish (out_sso : Z) (result : OwnedLocal) : ST World SlOwnedStr :=
  o ← write_owned out_sso result; mret (sl_owned_str_rebind o).

Definition copy_in_world (dest src len : Z) : ST World unit :=
  modify (fun w => set_mem (sl_internal_copy (w_mem w) dest src len) w).

Definition sl_str_copy_to_arena (arena : nullable) (src : SlStr) (out : nullable) (out_sso : Z)
    : ST World SlOwnedStr :=
  return_if is_null arena || is_null out || negb (sl_str_has_valid_storage src)
    with SL_STATUS_INVALID_ARGUMENT ;;
  if str_length src =? 0 then write_owned out_sso owned_zero else
  m ← gets w_mem;
  if str_length src <=? SL_OWNED_STR_SSO_MAX_LENGTH
  then sl_owned_str_publish out_sso (sl_owned_str_sso_result (str_val m src) false) else
  copied ← sl_arena_alloc arena (str_length src) SL_STR_WORD_ALIGNMENT REF;
  copy_in_world copied (str_ptr src) (str_length src);;
  a ← gets w_arena;
  sl_owned_str_publish out_sso
    {| ol_ptr := copied; ol_length := str_length src; ol_is_sso := false;
       ol_arena_generation := ar_generation a; ol_sso := replicate 16 0 |}.

Definition sl_str_copy_view_to_arena (arena : nullable) (src : SlStr) (out : nullable)
    : ST World SlStr :=
  return_if is_null arena || is_null out || negb (sl_str_has_valid_storage src)
    with SL_STATUS_INVALID_ARGUMENT ;;
  if str_length src =? 0 then mret sl_str_empty else
  copied ← sl_arena_alloc arena (str_length src) SL_STR_WORD_ALIGNMENT REF;
  copy_in_world copied (str_ptr src) (str_length src);;
  mret (sl_str_from_parts copied (str_length src)).

Definition sl_str_concat_to_arena (arena : nullable) (left right : SlStr) (out : nullable)
    (out_sso : Z) : ST World SlOwnedStr :=
  return_if is_null arena || is_null out || negb (sl_str_has_valid_storage left)
            || negb (sl_str_has_valid_storage right)
    with SL_STATUS_INVALID_ARGUMENT ;;
  length ← lift (sl_checked_add_size (str_length left) (str_length right) REF);
  if length =? 0 then write_owned out_sso owned_zero else
  m ← gets w_mem;
  if length <=? SL_OWNED_STR_SSO_MAX_LENGTH
  then sl_owned_str_publish out_sso
         (sl_owned_str_sso_result (str_val m left ++ str_val m right) false) else
  copied ← sl_arena_alloc arena length SL_STR_WORD_ALIGNMENT REF;
  copy_in_world copied (str_ptr left) (str_length left);;
  copy_in_world (copied + str_length left) (str_ptr right) (str_length right);;
  a ← gets w_arena;
  sl_owned_str_publish out_sso
    {| ol_ptr := copied; ol_length := length; ol_is_sso := false;
       ol_arena_generation := ar_generation a; ol_sso := replicate 16 0 |}.

Definition sl_str_concat_view_to_arena (arena : nullable) (left right : SlStr) (out : nullable)
    : ST World SlStr :=
  return_if is_null arena || is_null out || negb (sl_str_has_valid_storage left)
            || negb (sl_str_has_valid_storage right)
    with SL_STATUS_INVALID_ARGUMENT ;;
  length ← lift (sl_checked_add_size (str_length left) (str_length right) REF);
  if length =? 0 then mret sl_str_empty else
  copied ← sl_arena_alloc arena length SL_STR_WORD_ALIGNMENT REF;
  copy_in_world copied (str_ptr left) (str_length left);;
  copy_in_world (copied + str_length left) (str_ptr right) (str_length right);;
  mret (sl_str_from_parts copied length).

Definition sl_str_validate_no_nul (m : mem) (str : SlStr) : result unit :=
  error_if negb (sl_str_has_valid_storage str) with SL_STATUS_INVALID_ARGUMENT ;;
  error_if sl_str_contains_nul m str with SL_STATUS_INVALID_ARGUMENT ;;
  Ok tt.

Definition sl_str_copy_to_arena_nul (arena : nullable) (src : SlStr) (out : nullable) (out_sso : Z)
    : ST World SlOwnedStr :=
  return_if is_null arena || is_null out || negb (sl_str_has_valid_storage src)
    with SL_STATUS_INVALID_ARGUMENT ;;
  alloc_size ← lift (sl_checked_add_size (str_length src) 1 REF);
  m ← gets w_mem;
  if str_length src <=? SL_OWNED_STR_SSO_MAX_LENGTH
  then sl_owned_str_publish out_sso (sl_owned_str_sso_result (str_val m src) true) else
  copied ← sl_arena_alloc arena alloc_size SL_STR_WORD_ALIGNMENT REF;
  copy_in_world copied (str_ptr src) (str_length src);;
  modify (fun w => set_mem (st8 (w_mem w) (copied + str_length src) 0) w);;
  a ← gets w_arena;
  sl_owned_str_publish out_sso
    {| ol_ptr := copied; ol_length := str_length src; ol_is_sso := false;
       ol_arena_generation := ar_generation a; ol_sso := replicate 16 0 |}.

Definition sl_str_copy_to_arena_cstr (arena : nullable) (src : SlStr) (out : nullable)
    (out_sso : Z) : ST World SlOwnedStr :=
  m ← gets w_mem;
  lift (sl_str_validate_no_nul m src);;
  sl_str_copy_to_arena_nul arena src out out_sso.
End Copies.

(** * Lemmas: arena copies *)

Section CopyLaws.
Context {BC : BuildConfig} {SC : SimdConfig}.

Lemma alloc8_ok size p w w' :
  arena_wf (w_arena w) -> is_size size ->
  sl_arena_alloc REF size SL_STR_WORD_ALIGNMENT REF w = (Ok p, w') ->
  size <> 0 /\ alloc_post size 8 p w w' /\ arena_wf (w_arena w').
Proof.
  intros Hwf Hs E. assert (Ha : is_size SL_STR_WORD_ALIGNMENT) by (unfold SL_STR_WORD_ALIGNMENT; size_lia).
  apply sl_arena_alloc_ok in E as (Hz & Hp & Hpost); [|done..].
  split_and!; [done..|]. eapply alloc_post_wf; [done| |done|done|done]. size_lia.
Qed.

(** A client copy into a fresh block: the block receives the source bytes, and
    nothing else changes. *)
Lemma alloc_copy size src p w w' :
  arena_wf (w_arena w) -> 0 <= size -> alloc_post size 8 p w w' ->
  outside_free (w_arena w) src size ->
  let m' := sl_internal_copy (w_mem w') p src size in
  load_bytes m' p size = load_bytes (w_mem w) src size /\ same_outside p (p + size) (w_mem w) m'.
Proof.
  intros Hwf Hs Hpost Ho.
  destruct (alloc_post_outside size 8 p w w' src size) as (Hd & Hl & _); [done|lia|done..|].
  destruct (copied_load_bytes (w_mem w') (sl_internal_copy (w_mem w') p src size) p src size Hs)
    as [H1 H2]; [apply sl_internal_copy_copied; auto|]. simpl.
  split; [by rewrite H1, Hl|]. eapply same_outside_trans; [apply Hpost|done].
Qed.

(** Copying two views one after the other into a fresh block. *)
Lemma alloc_copy2 n k l r p w w' :
  arena_wf (w_arena w) -> 0 <= n -> 0 <= k -> alloc_post (n + k) 8 p w w' ->
  outside_free (w_arena w) l n -> outside_free (w_arena w) r k ->
  let m' := sl_internal_copy (sl_internal_copy (w_mem w') p l n) (p + n) r k in
  load_bytes m' p (n + k) = load_bytes (w_mem w) l n ++ load_bytes (w_mem w) r k /\
  same_outside p (p + (n + k)) (w_mem w) m'.
Proof.
  intros Hwf Hn Hk Hpost Hl Hr. cbv zeta.
  destruct (alloc_post_outside (n + k) 8 p w w' l n) as (Hdl & Hll & _); [done|lia|lia|done..|].
  destruct (alloc_post_outside (n + k) 8 p w w' r k) as (Hdr & Hlr & _); [done|lia|lia|done..|].
  set (m1 := sl_internal_copy (w_mem w') p l n). set (m2 := sl_internal_copy m1 (p + n) r k).
  destruct (copied_load_bytes (w_mem w') m1 p l n) as [H1 S1]; [done| |].
  { apply sl_internal_copy_copied; [done|]. left. unfold disjoint_ranges in *. lia. }
  destruct (copied_load_bytes m1 m2 (p + n) r k) as [H2 S2]; [done| |].
  { apply sl_internal_copy_copied; [done|]. left. unfold disjoint_ranges in *. lia. }
  split.
  - rewrite load_bytes_app by done. f_equal.
    + rewrite <- Hll, <- H1. eapply load_bytes_same; [apply S2|]. unfold disjoint_ranges. lia.
    + rewrite H2, <- Hlr. eapply load_bytes_same; [apply S1|]. unfold disjoint_ranges in *. lia.
  - eapply same_outside_trans; [apply Hpost|]. eapply same_outside_trans.
    + eapply same_outside_weaken; [apply S1|lia|lia].
    + eapply same_outside_weaken; [apply S2|lia|lia].
Qed.

(** What a copy into the arena gives its caller. *)
Record view_copy_post (val : list Z) (out : SlStr) (w w' : World) : Prop := {
  vcp_val : str_val (w_mem w') out = val;
  vcp_length : str_length out = Z.of_nat (length val);
  vcp_valid : str_valid out;
  vcp_wf : arena_wf (w_arena w');
  vcp_mem : same_outside (ar_base (w_arena w) + ar_offset (w_arena w))
              (ar_base (w_arena w) + ar_offset (w_arena w')) (w_mem w) (w_mem w');
  vcp_config : ar_base (w_arena w') = ar_base (w_arena w) /\
               ar_capacity (w_arena w') = ar_capacity (w_arena w) /\
               ar_generation (w_arena w') = ar_generation (w_arena w) /\
               ar_offset (w_arena w) <= ar_offset (w_arena w');
  vcp_outside : outside_free (w_arena w') (str_ptr out) (str_length out);
}.

Lemma view_copy_post_empty w :
  arena_wf (w_arena w) -> view_copy_post [] sl_str_empty w w.
Proof.
  intros. split; simpl; auto with lia.
  - split; simpl; lia.
  - apply same_outside_refl.
  - unfold outside_free, disjoint_ranges. lia.
Qed.

(** A fresh block filled by [fill]: the common shape of every view copy. *)
Lemma view_copy_post_block size p val w w1 m' :
  arena_wf (w_arena w) -> 0 < size -> alloc_post size 8 p w w1 -> arena_wf (w_arena w1) ->
  Z.of_nat (length val) = size ->
  load_bytes m' p size = val -> same_outside p (p + size) (w_mem w) m' ->
  view_copy_post val (sl_str_from_parts p size) w (set_mem m' w1).
Proof.
  intros Hwf Hs Hpost Hwf1 Hlen Hval Hm.
  destruct (alloc_post_block size 8 p w w1) as (? & ? & ?); [done|lia|lia|done|].
  destruct Hpost as [? Hf ? He Ha ? ?]. split; simpl.
  - done.
  - lia.
  - split; simpl; lia.
  - done.
  - eapply same_outside_weaken; [done|lia|lia].
  - rewrite Ha; simpl. rewrite Ha in He; simpl in He. lia.
  - unfold outside_free, disjoint_ranges. rewrite Ha; simpl. rewrite Ha in He; simpl in He. lia.
Qed.

Lemma sl_str_copy_view_to_arena_ok src w out w' :
  arena_wf (w_arena w) -> str_valid src -> is_size (str_length src) ->
  outside_free (w_arena w) (str_ptr src) (str_length src) ->
  sl_str_copy_view_to_arena REF src REF w = (Ok out, w') ->
  view_copy_post (str_val (w_mem w) src) out w w'.
Proof.
  intros Hwf Hv Hs Ho. unfold sl_str_copy_view_to_arena, copy_in_world. unfold_st.
  rewrite str_valid_storage by done. simpl.
  destruct (Z.eqb_spec (str_length src) 0) as [E0|E0].
  { intros [= <- <-]. unfold str_val. rewrite E0. by apply view_copy_post_empty. }
  destruct (sl_arena_alloc _ _ _ _ w) as [[p|c] w1] eqn:E; [|done]. simpl. intros [= <- <-].
  apply alloc8_ok in E as (Hz & Hpost & Hwf1); [|done..].
  destruct (alloc_copy (str_length src) (str_ptr src) p w w1) as [H1 H2]; [done|size_lia|done..|].
  apply view_copy_post_block; try done; [size_lia|].
  apply length_load_bytes. size_lia.
Qed.

Lemma sl_str_copy_view_to_arena_err arena src out c w w' :
  sl_str_copy_view_to_arena arena src out w = (Err c, w') -> w' = w.
Proof.
  unfold sl_str_copy_view_to_arena, copy_in_world. unfold_st. intros E.
  repeat (split_match; simplify_eq; try done).
  match goal with E : sl_arena_alloc _ _ _ _ _ = _ |- _ => apply sl_arena_alloc_err in E end. done.
Qed.

Lemma sl_str_concat_view_to_arena_ok l r w out w' :
  arena_wf (w_arena w) -> str_valid l -> str_valid r ->
  is_size (str_length l) -> is_size (str_length r) ->
  outside_free (w_arena w) (str_ptr l) (str_length l) ->
  outside_free (w_arena w) (str_ptr r) (str_length r) ->
  sl_str_concat_view_to_arena REF l r REF w = (Ok out, w') ->
  view_copy_post (str_val (w_mem w) l ++ str_val (w_mem w) r) out w w'.
Proof.
  intros Hwf Hvl Hvr Hl Hr Hol Hor. unfold sl_str_concat_view_to_arena, copy_in_world. unfold_st.
  rewrite !str_valid_storage by done. simpl.
  destruct (sl_checked_add_size _ _ _) as [n|] eqn:En; [|done].
  apply checked_add_ok in En as [-> Hn]; [|done..].
  destruct (Z.eqb_spec (str_length l + str_length r) 0) as [E0|E0].
  { intros [= <- <-]. unfold str_val.
    replace (str_length l) with 0 by size_lia. replace (str_length r) with 0 by size_lia.
    by apply view_copy_post_empty. }
  destruct (sl_arena_alloc _ _ _ _ w) as [[p|c] w1] eqn:E; [|done]. simpl. intros [= <- <-].
  apply alloc8_ok in E as (Hz & Hpost & Hwf1); [|done..].
  destruct (alloc_copy2 (str_length l) (str_length r) (str_ptr l) (str_ptr r) p w w1) as [H1 H2];
    [done|size_lia|size_lia|done..|].
  apply (view_copy_post_block _ _ _ w w1); try done; [size_lia|].
  rewrite length_app, Nat2Z.inj_add. unfold str_val. rewrite !length_load_bytes by size_lia. done.
Qed.
End CopyLaws.

Section OwnedLaws.
Context {BC : BuildConfig} {SC : SimdConfig}.

Lemma sso_result_bytes bs nul :
  (length bs <= 15)%nat ->
  ol_sso (sl_owned_str_sso_result bs nul) = bs ++ replicate (16 - length bs) 0.
Proof.
  intros Hl. unfold sl_owned_str_sso_result. cbn [ol_sso]. rewrite drop_replicate.
  destruct nul; [|done]. rewrite insert_app_r_alt by lia. rewrite Nat.sub_diag.
  destruct (16 - length bs)%nat eqn:E; [lia|done].
Qed.

Lemma sso_store_val m q bs nul :
  Forall is_byte bs -> (length bs <= 15)%nat ->
  let m' := store m q (ol_sso (sl_owned_str_sso_result bs nul)) in
  load m' q (length bs) = bs /\ ld8 m' (q + Z.of_nat (length bs)) = 0.
Proof.
  intros Hb Hl. rewrite sso_result_bytes by done. cbv zeta.
  set (vs := bs ++ replicate (16 - length bs) 0).
  assert (Hvs : Forall is_byte vs).
  { apply Forall_app. split; [done|]. apply Forall_replicate. unfold is_byte. lia. }
  assert (Hlen : length vs = (length bs + (16 - length bs))%nat)
    by (unfold vs; by rewrite length_app, length_replicate).
  pose proof (load_store m q vs Hvs) as Hload. rewrite Hlen, load_app in Hload.
  apply app_inj_1 in Hload as [H1 H2]; [|by rewrite length_load].
  split; [done|]. destruct (16 - length bs)%nat eqn:E; [lia|]. simpl in H2. congruence.
Qed.

(** What an owned copy gives its caller: the view of the returned object has
    the expected bytes, wherever they are stored. *)
Record owned_copy_post (q : Z) (val : list Z) (nul : bool) (o : SlOwnedStr) (w w' : World) : Prop := {
  ocp_val : str_val (w_mem w') (sl_owned_str_as_view_ref (Some o)) = val;
  ocp_length : owned_length o = Z.of_nat (length val);
  ocp_nul : nul = true ->
    ld8 (w_mem w') (str_ptr (sl_owned_str_as_view_ref (Some o)) + owned_length o) = 0;
  ocp_sso : owned_is_sso o = true -> Z.of_nat (length val) <= SL_OWNED_STR_SSO_MAX_LENGTH /\
    w_arena w' = w_arena w;
  ocp_generation : owned_is_sso o = false -> val <> [] ->
    owned_arena_generation o = ar_generation (w_arena w');
  ocp_place : if owned_is_sso o then str_ptr (sl_owned_str_as_view_ref (Some o)) = q
              else val = [] /\ nul = false \/ 0 < owned_ptr o;
  ocp_wf : arena_wf (w_arena w');
}.

Lemma publish_sso_post bs nul q w :
  arena_wf (w_arena w) -> Forall is_byte bs ->
  Z.of_nat (length bs) <= SL_OWNED_STR_SSO_MAX_LENGTH ->
  match sl_owned_str_publish q (sl_owned_str_sso_result bs nul) w with
  | (Ok o, w') => owned_copy_post q bs nul o w w'
  | (Err _, _) => False
  end.
Proof.
  intros Hwf Hb Hl. unfold SL_OWNED_STR_SSO_MAX_LENGTH, SL_OWNED_STR_SSO_CAPACITY in Hl.
  unfold sl_owned_str_publish, write_owned. unfold_st. cbn -[store].
  destruct (sso_store_val (w_mem w) q bs nul Hb ltac:(lia)) as [H1 H2].
  change (ol_sso _) with (ol_sso (sl_owned_str_sso_result bs nul)) in *.
  split; cbn -[store ol_sso]; auto.
  - unfold str_val, load_bytes. cbn -[store ol_sso]. by rewrite Nat2Z.id.
  - done.
Qed.

Lemma publish_block_post size p val nul q w w1 m' :
  arena_wf (w_arena w) -> 0 < size -> 0 < p -> arena_wf (w_arena w1) ->
  Z.of_nat (length val) = size -> load_bytes m' p size = val ->
  (nul = true -> ld8 m' (p + size) = 0) ->
  disjoint_ranges p (size + if nul then 1 else 0) q 16 ->
  match sl_owned_str_publish q
          {| ol_ptr := p; ol_length := size; ol_is_sso := false;
             ol_arena_generation := ar_generation (w_arena w1); ol_sso := replicate 16 0 |}
          (set_mem m' w1) with
  | (Ok o, w') => owned_copy_post q val nul o w w'
  | (Err _, _) => False
  end.
Proof.
  intros Hwf Hs Hp Hwf1 Hlen Hval Hnul Hd.
  unfold sl_owned_str_publish, write_owned. unfold_st. cbn -[store replicate].
  pose proof (store_same_outside m' q (replicate 16 0)) as Hso. rewrite length_replicate in Hso.
  split; cbn -[store replicate]; try done.
  - unfold str_val. cbn -[store replicate]. rewrite <- Hval. eapply load_bytes_same; [apply Hso|].
    unfold disjoint_ranges in *. destruct nul; lia.
  - intros ->. etransitivity; [|by apply Hnul]. apply Hso. unfold disjoint_ranges in Hd. lia.
  - by right.
Qed.

Lemma write_zero_post nul q w :
  arena_wf (w_arena w) -> nul = false ->
  match write_owned q owned_zero w with
  | (Ok o, w') => owned_copy_post q [] nul o w w'
  | (Err _, _) => False
  end.
Proof.
  intros Hwf ->. unfold write_owned. unfold_st. cbn -[store replicate].
  split; try done. by left.
Qed.

(** Success of [c] establishes [owned_copy_post]; failure changes nothing. *)
Definition owned_copy_spec (q : Z) (val : list Z) (nul : bool) (c : ST World SlOwnedStr) (w : World) : Prop :=
  match c w with
  | (Ok o, w') => owned_copy_post q val nul o w w'
  | (Err _, w') => w' = w
  end.

Lemma owned_copy_spec_of_true q val nul (r : result SlOwnedStr * World) w :
  match r with (Ok o, w') => owned_copy_post q val nul o w w' | (Err _, _) => False end ->
  match r with (Ok o, w') => owned_copy_post q val nul o w w' | (Err _, w') => w' = w end.
Proof. by destruct r as [[]]. Qed.

Lemma sl_str_copy_to_arena_ok src q w :
  arena_wf (w_arena w) -> str_valid src -> is_size (str_length src) ->
  outside_free (w_arena w) (str_ptr src) (str_length src) -> outside_free (w_arena w) q 16 ->
  owned_copy_spec q (str_val (w_mem w) src) false (sl_str_copy_to_arena REF src REF q) w.
Proof.
  intros Hwf Hv Hs Ho Hq. unfold owned_copy_spec, sl_str_copy_to_arena, copy_in_world. unfold_st.
  rewrite str_valid_storage by done. cbn -[sl_owned_str_publish write_owned].
  destruct (Z.eqb_spec (str_length src) 0) as [E0|E0].
  { unfold str_val. rewrite E0. apply owned_copy_spec_of_true. by apply write_zero_post. }
  destruct (Z.leb_spec (str_length src) SL_OWNED_STR_SSO_MAX_LENGTH).
  { apply owned_copy_spec_of_true, publish_sso_post; [done|apply load_is_byte|].
    rewrite length_str_val by size_lia. done. }
  destruct (sl_arena_alloc _ _ _ _ w) as [[p|c] w1] eqn:E; [|by apply sl_arena_alloc_err in E].
  apply alloc8_ok in E as (Hz & Hpost & Hwf1); [|done..].
  destruct (alloc_copy (str_length src) (str_ptr src) p w w1) as [H1 H2]; [done|size_lia|done..|].
  destruct (alloc_post_block (str_length src) 8 p w w1) as (_ & _ & Hp); [done|lia|size_lia|done|].
  apply owned_copy_spec_of_true, publish_block_post; try done; [size_lia| |].
  - apply length_str_val. size_lia.
  - rewrite Z.add_0_r. eapply (alloc_post_outside _ 8 p w w1); try done; size_lia.
Qed.

Lemma sl_str_concat_to_arena_ok l r q w :
  arena_wf (w_arena w) -> str_valid l -> str_valid r ->
  is_size (str_length l) -> is_size (str_length r) ->
  outside_free (w_arena w) (str_ptr l) (str_length l) ->
  outside_free (w_arena w) (str_ptr r) (str_length r) -> outside_free (w_arena w) q 16 ->
  owned_copy_spec q (str_val (w_mem w) l ++ str_val (w_mem w) r) false
    (sl_str_concat_to_arena REF l r REF q) w.
Proof.
  intros Hwf Hvl Hvr Hl Hr Hol Hor Hq.
  unfold owned_copy_spec, sl_str_concat_to_arena, copy_in_world. unfold_st.
  rewrite !str_valid_storage by done. cbn -[sl_owned_str_publish write_owned sl_checked_add_size].
  destruct (sl_checked_add_size _ _ _) as [n|] eqn:En; [|done].
  apply checked_add_ok in En as [-> Hn]; [|done..].
  assert (Hlen : Z.of_nat (length (str_val (w_mem w) l ++ str_val (w_mem w) r))
                 = str_length l + str_length r).
  { rewrite length_app, Nat2Z.inj_add, !length_str_val by size_lia. done. }
  destruct (Z.eqb_spec (str_length l + str_length r) 0) as [E0|E0].
  { unfold str_val. replace (str_length l) with 0 by size_lia.
    replace (str_length r) with 0 by size_lia. apply owned_copy_spec_of_true. by apply write_zero_post. }
  destruct (Z.leb_spec (str_length l + str_length r) SL_OWNED_STR_SSO_MAX_LENGTH).
  { apply owned_copy_spec_of_true, publish_sso_post; [done| |lia].
    apply Forall_app. split; apply load_is_byte. }
  destruct (sl_arena_alloc _ _ _ _ w) as [[p|c] w1] eqn:E; [|by apply sl_arena_alloc_err in E].
  apply alloc8_ok in E as (Hz & Hpost & Hwf1); [|done..].
  destruct (alloc_copy2 (str_length l) (str_length r) (str_ptr l) (str_ptr r) p w w1) as [H1 H2];
    [done|size_lia|size_lia|done..|].
  destruct (alloc_post_block (str_length l + str_length r) 8 p w w1) as (_ & _ & Hp);
    [done|lia|size_lia|done|].
  apply owned_copy_spec_of_true.
  refine (publish_block_post _ p _ false _ _ w1 _ _ _ _ _ _ H1 _ _); try done; [size_lia|].
  rewrite Z.add_0_r. eapply (alloc_post_outside _ 8 p w w1); try done; size_lia.
Qed.

Lemma sl_str_copy_to_arena_nul_ok src q w :
  arena_wf (w_arena w) -> str_valid src -> is_size (str_length src) ->
  outside_free (w_arena w) (str_ptr src) (str_length src) -> outside_free (w_arena w) q 16 ->
  owned_copy_spec q (str_val (w_mem w) src) true (sl_str_copy_to_arena_nul REF src REF q) w.
Proof.
  intros Hwf Hv Hs Ho Hq. unfold owned_copy_spec, sl_str_copy_to_arena_nul, copy_in_world. unfold_st.
  rewrite str_valid_storage by done. cbn -[sl_owned_str_publish sl_checked_add_size].
  destruct (sl_checked_add_size _ _ _) as [n|] eqn:En; [|done].
  apply checked_add_ok in En as [-> Hn]; [|size_lia..].
  destruct (Z.leb_spec (str_length src) SL_OWNED_STR_SSO_MAX_LENGTH) as [|Hbig].
  { apply owned_copy_spec_of_true, publish_sso_post; [done|apply load_is_byte|].
    rewrite length_str_val by size_lia. done. }
  unfold SL_OWNED_STR_SSO_MAX_LENGTH, SL_OWNED_STR_SSO_CAPACITY in Hbig.
  destruct (sl_arena_alloc _ _ _ _ w) as [[p|c] w1] eqn:E; [|by apply sl_arena_alloc_err in E].
  apply alloc8_ok in E as (Hz & Hpost & Hwf1); [|done..].
  destruct (alloc_post_outside (str_length src + 1) 8 p w w1 (str_ptr src) (str_length src))
    as (Hd & Hl & _); [done|lia|lia|done..|].
  set (m1 := sl_internal_copy (w_mem w1) p (str_ptr src) (str_length src)).
  destruct (copied_load_bytes (w_mem w1) m1 p (str_ptr src) (str_length src)) as [H1 H2]; [lia| |].
  { apply sl_internal_copy_copied; [lia|]. left. unfold disjoint_ranges in *. lia. }
  apply owned_copy_spec_of_true.
  destruct (alloc_post_block (str_length src + 1) 8 p w w1) as (_ & _ & Hp); [done|lia|lia|done|].
  refine (publish_block_post _ p _ true _ _ w1 (st8 m1 _ 0) _ _ _ _ _ _ _ _); try done; [lia|..].
  - apply length_str_val. lia.
  - rewrite (load_bytes_same m1 _ (p + str_length src) (p + str_length src + 1));
      [by rewrite H1, Hl|apply st8_same_outside|unfold disjoint_ranges; lia].
  - intros _. by rewrite ld8_st8_eq.
  - eapply (alloc_post_outside _ 8 p w w1); try done; lia.
Qed.

(** An owned copy, an owned concatenation and a NUL-terminated copy of
    string views into the arena return an object whose view reads back exactly
    the source bytes, wherever they end up: inline up to fifteen bytes (then the
    arena is not touched) and in a fresh arena block, stamped with the arena's
    generation, above that.  The NUL-terminated copy has a zero byte after its
    last one.  A failing call leaves memory and arena as they were. *)
Theorem owned_copies_preserve_bytes l r q w :
  arena_wf (w_arena w) -> str_valid l -> str_valid r ->
  is_size (str_length l) -> is_size (str_length r) ->
  outside_free (w_arena w) (str_ptr l) (str_length l) ->
  outside_free (w_arena w) (str_ptr r) (str_length r) -> outside_free (w_arena w) q 16 ->
  let vl := str_val (w_mem w) l in
  let vr := str_val (w_mem w) r in
  owned_copy_spec q vl false (sl_str_copy_to_arena REF l REF q) w /\
  owned_copy_spec q (vl ++ vr) false (sl_str_concat_to_arena REF l r REF q) w /\
  owned_copy_spec q vl true (sl_str_copy_to_arena_nul REF l REF q) w.
Proof.
  intros. split_and!; [by apply sl_str_copy_to_arena_ok|by apply sl_str_concat_to_arena_ok|].
  by apply sl_str_copy_to_arena_nul_ok.
Qed.

(** A copy to a C string succeeds only on a source without a zero byte, so
    that the first zero byte of the result is its terminator: reading the result
    as a C string gives back the source.  A source with a zero byte is refused
    before anything is allocated. *)
Theorem cstr_copy_roundtrip src q w :
  arena_wf (w_arena w) -> str_valid src -> simd_length (str_length src) ->
  outside_free (w_arena w) (str_ptr src) (str_length src) -> outside_free (w_arena w) q 16 ->
  match sl_str_copy_to_arena_cstr REF src REF q w with
  | (Ok o, w') =>
      (0 ∉ str_val (w_mem w) src) /\
      (q <> 0 -> forall fuel, (Z.to_nat (str_length src) < fuel)%nat ->
       str_val (w_mem w') <$>
         sl_str_from_cstr (w_mem w') (str_ptr (sl_owned_str_as_view_ref (Some o))) fuel
       = Some (str_val (w_mem w) src))
  | (Err c, w') => w' = w /\ (0 ∈ str_val (w_mem w) src -> c = SL_STATUS_INVALID_ARGUMENT)
  end.
Proof.
  intros Hwf Hv Hs Ho Hq. unfold sl_str_copy_to_arena_cstr, sl_str_validate_no_nul. unfold_st.
  rewrite str_valid_storage by done. simpl negb. cbv iota.
  rewrite sl_str_contains_nul_scalar_eq, sl_str_contains_nul_scalar_spec by done.
  case_bool_decide as Hz; [done|].
  assert (Hsz : is_size (str_length src)) by (unfold simd_length in Hs; size_lia).
  pose proof (sl_str_copy_to_arena_nul_ok src q w Hwf Hv Hsz Ho Hq) as Hc.
  unfold owned_copy_spec in Hc.
  destruct (sl_str_copy_to_arena_nul REF src REF q w) as [[o|c] w'] eqn:Ec; [|done].
  split; [done|]. intros Hq0 fuel Hf. pose proof (ocp_length _ _ _ _ _ _ Hc) as Hlen.
  rewrite length_str_val in Hlen by apply Hv.
  assert (Hp : str_ptr (sl_owned_str_as_view_ref (Some o)) <> 0).
  { destruct Hc as [_ _ _ _ _ Hplace _]. simpl in *. destruct (owned_is_sso o); naive_solver lia. }
  rewrite (sl_str_from_cstr_spec _ _ (str_length src)); try done.
  - simpl. rewrite <- (ocp_val _ _ _ _ _ _ Hc). unfold str_val; simpl. by rewrite Hlen.
  - apply Hv.
  - rewrite <- (ocp_val _ _ _ _ _ _ Hc) in Hz. unfold str_val in Hz. simpl in *. by rewrite Hlen in Hz.
  - rewrite <- Hlen. by apply (ocp_nul _ _ _ _ _ _ Hc).
Qed.
End OwnedLaws.

Module Demo.
#[local] Existing Instance assert_build.
#[local] Instance scalar : SimdConfig := {| SL_STRING_SIMD := SSE2; SL_BYTES_SIMD := SCALAR |}.

(** "hello world, hello arena" at 100, "abc" at 200, an object at 300 and an
    empty arena of 64 bytes at 4096. *)
Definition long : list Z :=
  [104; 101; 108; 108; 111; 32; 119; 111; 114; 108; 100; 44; 32; 104; 101; 108; 108; 111; 32; 97].
Definition w0 : World :=
  {| w_mem := store (store (fun _ => 7) 100 long) 200 [97; 98; 99];
     w_arena := {| ar_base := 4096; ar_capacity := 64; ar_offset := 0; ar_high_water := 0;
                   ar_generation := 1 |} |}.
Definition s_long : SlStr := sl_str_from_parts 100 20.
Definition s_short : SlStr := sl_str_from_parts 200 3.

Lemma w0_wf : arena_wf (w_arena w0).
Proof. unfold arena_wf; simpl; size_lia. Qed.

Lemma owned_copies_preserve_bytes_witness :
  owned_copy_spec 300 long false (sl_str_copy_to_arena REF s_long REF 300) w0 /\
  owned_copy_spec 300 (long ++ [97; 98; 99]) false
    (sl_str_concat_to_arena REF s_long s_short REF 300) w0.
Proof.
  destruct (owned_copies_preserve_bytes s_long s_short 300 w0) as (H1 & H2 & _);
    [apply w0_wf|split; simpl; lia|split; simpl; lia|simpl; size_lia|simpl; size_lia
    |(unfold outside_free, disjoint_ranges; simpl; lia)..|].
  split; [exact H1|exact H2].
Defined.

Lemma cstr_copy_roundtrip_witness :
  match sl_str_copy_to_arena_cstr REF s_long REF 300 w0 with
  | (Ok o, w') => str_val (w_mem w') <$>
                    sl_str_from_cstr (w_mem w') (str_ptr (sl_owned_str_as_view_ref (Some o))) 30
                  = Some long
  | _ => False
  end.
Proof.
  pose proof (cstr_copy_roundtrip s_long 300 w0 w0_wf ltac:(split; simpl; lia)
    ltac:(unfold simd_length; simpl; size_lia)
    ltac:(unfold outside_free, disjoint_ranges; simpl; lia)
    ltac:(unfold outside_free, disjoint_ranges; simpl; lia)) as H.
  destruct (sl_str_copy_to_arena_cstr REF s_long REF 300 w0) as [[o|c] w'] eqn:E.
  - rewrite (proj2 H); [reflexivity|lia|simpl; lia].
  - exfalso. vm_compute in E. discriminate E.
Defined.
End Demo.
