(* ===== verification/Container.v ===== *)
(** Arena arrays, fixed vectors, ring queues and the chained hash index
    (src/core/container.c), and the arena copy of byte views (src/core/bytes.c).

    Element storage is bytes of the flat memory: an element is [elem_size] bytes
    at [items + index * elem_size], as in the source.  The two [size_t] arrays of
    the hash index are lists. *)

From S2P Require Import Prelude Memory Status Arena Bytes.

Record SlSlice := { slice_ptr : Z; slice_count : Z; slice_elem_size : Z }.

Definition sl_container_zero (m : mem) (ptr length : Z) : mem :=
  if ptr =? 0 then m else fill m ptr (Z.to_nat length) 0.

Definition sl_container_copy (m : mem) (dest src length : Z) : mem :=
  copy_forward m dest src (Z.to_nat length).

Definition sl_container_storage_size (count elem_size : Z) (out_size : nullable) : result Z :=
  error_if is_null out_size || (elem_size =? 0) with SL_STATUS_INVALID_ARGUMENT ;;
  sl_checked_array_size count elem_size out_size.

(** Returns an address, or 0 for NULL. *)
Definition sl_container_item_at (items elem_size index : Z) : Z :=
  if items =? 0 then 0 else
  match sl_checked_mul_size index elem_size REF with
  | Ok offset => items + offset
  | Err _ => 0
  end.

Definition sl_slice_empty (elem_size : Z) : SlSlice :=
  {| slice_ptr := 0; slice_count := 0; slice_elem_size := elem_size |}.

(** * Arena arrays *)

Section ArenaArrays.
Context {BC : BuildConfig}.

Definition sl_arena_array_alloc (arena : nullable) (count elem_size alignment : Z) (out : nullable)
    : ST World SlSlice :=
  return_if is_null arena || is_null out || (elem_size =? 0) with SL_STATUS_INVALID_ARGUMENT ;;
  if count =? 0 then mret (sl_slice_empty elem_size) else
  storage_size ← lift (sl_container_storage_size count elem_size REF);
  storage ← sl_arena_alloc arena storage_size alignment REF;
  modify (fun w => set_mem (sl_container_zero (w_mem w) storage storage_size) w);;
  mret {| slice_ptr := storage; slice_count := count; slice_elem_size := elem_size |}.

Definition sl_arena_array_copy (arena : nullable) (src count elem_size alignment : Z)
    (out : nullable) : ST World SlSlice :=
  return_if is_null out || (elem_size =? 0) || (src =? 0) && negb (count =? 0)
    with SL_STATUS_INVALID_ARGUMENT ;;
  copied ← sl_arena_array_alloc arena count elem_size alignment REF;
  (if negb (count =? 0)
   then modify (fun w => set_mem (sl_container_copy (w_mem w) (slice_ptr copied) src
                                    (wrap64 (count * elem_size))) w)
   else mret tt);;
  mret copied.

(** [SlOwnedBytes] is a pointer and a length, like [SlBytes]. *)
Definition sl_bytes_copy_to_arena (arena : nullable) (src : SlBytes) (out : nullable)
    : ST World SlBytes :=
  return_if is_null arena || is_null out || negb (sl_bytes_has_valid_storage src)
    with SL_STATUS_INVALID_ARGUMENT ;;
  if bytes_length src =? 0 then mret sl_bytes_empty else
  copied ← sl_arena_array_copy arena (bytes_ptr src) (bytes_length src) 1 1 REF;
  mret (sl_bytes_from_parts (slice_ptr copied) (bytes_length src)).
End ArenaArrays.

(** * Fixed vectors *)

Record SlFixedVec := { vec_items : Z; vec_elem_size : Z; vec_capacity : Z; vec_count : Z }.

(** A container and the memory its storage is in. *)
Record VecSys := { vs_mem : mem; vs_vec : SlFixedVec }.

Definition with_count (count : Z) (v : SlFixedVec) : SlFixedVec :=
  {| vec_items := vec_items v; vec_elem_size := vec_elem_size v; vec_capacity := vec_capacity v;
     vec_count := count |}.

Definition sl_fixed_vec_init (vec : nullable) (storage elem_size capacity : Z) : ST VecSys unit :=
  return_if is_null vec || (elem_size =? 0) || (storage =? 0) && negb (capacity =? 0)
    with SL_STATUS_INVALID_ARGUMENT ;;
  storage_size ← lift (sl_container_storage_size capacity elem_size REF);
  modify (fun s => {| vs_mem := sl_container_zero (vs_mem s) storage storage_size;
                      vs_vec := {| vec_items := storage; vec_elem_size := elem_size;
                                   vec_capacity := capacity; vec_count := 0 |} |}).

Definition sl_fixed_vec_clear (vec : nullable) (s : VecSys) : VecSys :=
  if is_null vec then s else
  let v := vs_vec s in
  {| vs_mem := match sl_container_storage_size (vec_capacity v) (vec_elem_size v) REF with
               | Ok storage_size => sl_container_zero (vs_mem s) (vec_items v) storage_size
               | Err _ => vs_mem s
               end;
     vs_vec := with_count 0 v |}.

Definition sl_fixed_vec_at (vec : nullable) (v : SlFixedVec) (index : Z) : Z :=
  if is_null vec || (vec_items v =? 0) || (vec_count v <=? index) || (vec_elem_size v =? 0)
  then 0 else sl_container_item_at (vec_items v) (vec_elem_size v) index.

Definition sl_fixed_vec_at_const : nullable -> SlFixedVec -> Z -> Z := sl_fixed_vec_at.

Definition sl_fixed_vec_count (vec : nullable) (v : SlFixedVec) : Z := if is_null vec then 0 else vec_count v.
Definition sl_fixed_vec_capacity (vec : nullable) (v : SlFixedVec) : Z := if is_null vec then 0 else vec_capacity v.

Definition sl_fixed_vec_as_slice (vec : nullable) (v : SlFixedVec) : SlSlice :=
  if is_null vec then sl_slice_empty 0
  else {| slice_ptr := vec_items v; slice_count := vec_count v; slice_elem_size := vec_elem_size v |}.

(** The slices of constant elements have the same fields. *)
Record SlConstSlice := { const_ptr : Z; const_count : Z; const_elem_size : Z }.

Definition sl_const_slice_empty (elem_size : Z) : SlConstSlice :=
  {| const_ptr := 0; const_count := 0; const_elem_size := elem_size |}.

Definition sl_fixed_vec_as_const_slice (vec : nullable) (v : SlFixedVec) : SlConstSlice :=
  if is_null vec then sl_const_slice_empty 0
  else {| const_ptr := vec_items v; const_count := vec_count v; const_elem_size := vec_elem_size v |}.

(** Both pushes: the slot they return, and what is written into it. *)
Definition push_with (fill_slot : mem -> Z -> Z -> mem) : ST VecSys Z :=
  v ← gets vs_vec;
  return_if vec_capacity v <=? vec_count v with SL_STATUS_CAPACITY_EXCEEDED ;;
  return_if vec_items v =? 0 with SL_STATUS_INTERNAL ;;
  let slot := sl_container_item_at (vec_items v) (vec_elem_size v) (vec_count v) in
  return_if slot =? 0 with SL_STATUS_INTERNAL ;;
  modify (fun s => {| vs_mem := fill_slot (vs_mem s) slot (vec_elem_size v);
                      vs_vec := with_count (wrap64 (vec_count v + 1)) v |});;
  mret slot.

Definition sl_fixed_vec_push (vec : nullable) (item : Z) : ST VecSys Z :=
  v ← gets vs_vec;
  return_if is_null vec || (item =? 0) || (vec_elem_size v =? 0) with SL_STATUS_INVALID_ARGUMENT ;;
  push_with (fun m slot n => sl_container_copy m slot item n).

Definition sl_fixed_vec_push_zero (vec : nullable) : ST VecSys Z :=
  v ← gets vs_vec;
  return_if is_null vec || (vec_elem_size v =? 0) with SL_STATUS_INVALID_ARGUMENT ;;
  push_with (fun m slot n => sl_container_zero m slot n).

(** [out_item] is an address, 0 for NULL. *)
Definition sl_fixed_vec_pop (vec : nullable) (out_item : Z) (s : VecSys) : bool * VecSys :=
  let v := vs_vec s in
  if is_null vec || (vec_count v =? 0) || (vec_items v =? 0) || (vec_elem_size v =? 0)
  then (false, s) else
  let last_index := vec_count v - 1 in
  let slot := sl_container_item_at (vec_items v) (vec_elem_size v) last_index in
  if slot =? 0 then (false, s) else
  let m := if negb (out_item =? 0)
           then sl_container_copy (vs_mem s) out_item slot (vec_elem_size v) else vs_mem s in
  (true, {| vs_mem := sl_container_zero m slot (vec_elem_size v);
            vs_vec := with_count last_index v |}).

(** * Ring queues *)

Record SlRingQueue := {
  rq_items : Z; rq_elem_size : Z; rq_capacity : Z; rq_head : Z; rq_tail : Z; rq_count : Z
}.

Record QueueSys := { qs_mem : mem; qs_queue : SlRingQueue }.

Definition with_ends (head tail count : Z) (q : SlRingQueue) : SlRingQueue :=
  {| rq_items := rq_items q; rq_elem_size := rq_elem_size q; rq_capacity := rq_capacity q;
     rq_head := head; rq_tail := tail; rq_count := count |}.

Definition sl_ring_queue_init (queue : nullable) (storage elem_size capacity : Z)
    : ST QueueSys unit :=
  return_if is_null queue || (elem_size =? 0) || (storage =? 0) && negb (capacity =? 0)
    with SL_STATUS_INVALID_ARGUMENT ;;
  storage_size ← lift (sl_container_storage_size capacity elem_size REF);
  modify (fun s => {| qs_mem := sl_container_zero (qs_mem s) storage storage_size;
                      qs_queue := {| rq_items := storage; rq_elem_size := elem_size;
                                     rq_capacity := capacity; rq_head := 0; rq_tail := 0;
                                     rq_count := 0 |} |}).

Definition sl_ring_queue_clear (queue : nullable) (s : QueueSys) : QueueSys :=
  if is_null queue then s else
  let q := qs_queue s in
  {| qs_mem := match sl_container_storage_size (rq_capacity q) (rq_elem_size q) REF with
               | Ok storage_size => sl_container_zero (qs_mem s) (rq_items q) storage_size
               | Err _ => qs_mem s
               end;
     qs_queue := with_ends 0 0 0 q |}.

Definition sl_ring_queue_count (queue : nullable) (q : SlRingQueue) : Z :=
  if is_null queue then 0 else rq_count q.

Definition sl_ring_queue_capacity (queue : nullable) (q : SlRingQueue) : Z :=
  if is_null queue then 0 else rq_capacity q.

Definition sl_ring_queue_is_empty (queue : nullable) (q : SlRingQueue) : bool :=
  is_null queue || (rq_count q =? 0).

Definition sl_ring_queue_is_full (queue : nullable) (q : SlRingQueue) : bool :=
  negb (is_null queue) && (rq_capacity q <=? rq_count q).

Definition sl_ring_queue_push (queue : nullable) (item : Z) : ST QueueSys unit :=
  q ← gets qs_queue;
  return_if is_null queue || (item =? 0) || (rq_elem_size q =? 0) with SL_STATUS_INVALID_ARGUMENT ;;
  return_if rq_capacity q <=? rq_count q with SL_STATUS_CAPACITY_EXCEEDED ;;
  return_if rq_items q =? 0 with SL_STATUS_INTERNAL ;;
  let slot := sl_container_item_at (rq_items q) (rq_elem_size q) (rq_tail q) in
  return_if slot =? 0 with SL_STATUS_INTERNAL ;;
  modify (fun s => {| qs_mem := sl_container_copy (qs_mem s) slot item (rq_elem_size q);
                      qs_queue := with_ends (rq_head q) (wrap64 (rq_tail q + 1) mod rq_capacity q)
                                    (wrap64 (rq_count q + 1)) q |}).

Definition sl_ring_queue_peek_front (queue : nullable) (out_item : Z) (s : QueueSys)
    : bool * QueueSys :=
  let q := qs_queue s in
  if is_null queue || (out_item =? 0) || (rq_count q =? 0) || (rq_items q =? 0)
     || (rq_capacity q =? 0) || (rq_elem_size q =? 0)
  then (false, s) else
  let slot := sl_container_item_at (rq_items q) (rq_elem_size q) (rq_head q) in
  if slot =? 0 then (false, s) else
  (true, {| qs_mem := sl_container_copy (qs_mem s) out_item slot (rq_elem_size q); qs_queue := q |}).

Definition sl_ring_queue_discard_front (queue : nullable) (s : QueueSys) : bool * QueueSys :=
  let q := qs_queue s in
  if is_null queue || (rq_count q =? 0) || (rq_items q =? 0)
     || (rq_capacity q =? 0) || (rq_elem_size q =? 0)
  then (false, s) else
  let slot := sl_container_item_at (rq_items q) (rq_elem_size q) (rq_head q) in
  if slot =? 0 then (false, s) else
  (true, {| qs_mem := sl_container_zero (qs_mem s) slot (rq_elem_size q);
            qs_queue := with_ends (wrap64 (rq_head q + 1) mod rq_capacity q) (rq_tail q)
                          (rq_count q - 1) q |}).

Definition sl_ring_queue_pop_front (queue : nullable) (out_item : Z) (s : QueueSys)
    : bool * QueueSys :=
  match sl_ring_queue_peek_front queue out_item s with
  | (false, s) => (false, s)
  | (true, s) => sl_ring_queue_discard_front queue s
  end.

Definition sl_ring_queue_pop_back (queue : nullable) (out_item : Z) (s : QueueSys)
    : bool * QueueSys :=
  let q := qs_queue s in
  if is_null queue || (out_item =? 0) || (rq_count q =? 0) || (rq_items q =? 0)
     || (rq_capacity q =? 0) || (rq_elem_size q =? 0)
  then (false, s) else
  let tail := wrap64 (wrap64 (rq_tail q + rq_capacity q) - 1) mod rq_capacity q in
  let slot := sl_container_item_at (rq_items q) (rq_elem_size q) tail in
  if slot =? 0 then (false, s) else
  let m := sl_container_copy (qs_mem s) out_item slot (rq_elem_size q) in
  (true, {| qs_mem := sl_container_zero m slot (rq_elem_size q);
            qs_queue := with_ends (rq_head q) tail (rq_count q - 1) q |}).

Section FromArena.
Context {BC : BuildConfig}.

(** Allocate the storage, then initialise the container in the same memory. *)
Definition sl_fixed_vec_init_from_arena (vec arena : nullable) (elem_size alignment capacity : Z)
    : ST (World * SlFixedVec) unit :=
  return_if is_null vec || is_null arena || (elem_size =? 0) with SL_STATUS_INVALID_ARGUMENT ;;
  storage ← zoom fst (fun w s => (w, snd s))
              (sl_arena_array_alloc arena capacity elem_size alignment REF);
  zoom (fun s => {| vs_mem := w_mem (fst s); vs_vec := snd s |})
       (fun v s => (set_mem (vs_mem v) (fst s), vs_vec v))
       (sl_fixed_vec_init vec (slice_ptr storage) elem_size capacity).

Definition sl_ring_queue_init_from_arena (queue arena : nullable) (elem_size alignment capacity : Z)
    : ST (World * SlRingQueue) unit :=
  return_if is_null queue || is_null arena || (elem_size =? 0) with SL_STATUS_INVALID_ARGUMENT ;;
  storage ← zoom fst (fun w s => (w, snd s))
              (sl_arena_array_alloc arena capacity elem_size alignment REF);
  zoom (fun s => {| qs_mem := w_mem (fst s); qs_queue := snd s |})
       (fun q s => (set_mem (qs_mem q) (fst s), qs_queue q))
       (sl_ring_queue_init queue (slice_ptr storage) elem_size capacity).
End FromArena.

(** * Lemmas: element storage *)

(** Storage of [capacity] elements of [es] bytes at [items]: a real object. *)
Definition storage_ok (items es capacity : Z) : Prop :=
  0 < es /\ 0 <= capacity /\ capacity * es < 2 ^ 63 /\ (0 < capacity -> 0 < items) /\
  items + capacity * es <= UINTPTR_MAX.

Definition cell (m : mem) (items es i : Z) : list Z := load_bytes m (items + i * es) es.

Lemma item_at_spec items es capacity i :
  storage_ok items es capacity -> 0 <= i < capacity ->
  sl_container_item_at items es i = items + i * es /\ 0 < items + i * es.
Proof.
  intros (He & Hc & Hb & Hi & Hend) Hr. unfold sl_container_item_at.
  destruct (Z.eqb_spec items 0); [lia|].
  assert (0 <= i * es < 2 ^ 63) by nia.
  rewrite checked_mul_spec by (unfold is_size, SIZE_MAX; nia). unfold checked.
  destruct (Z.leb_spec (i * es) SIZE_MAX); [lia|size_lia].
Qed.

(** Writing one element does not touch the others. *)
Lemma cell_other m m' items es i j :
  0 <= es -> i <> j ->
  same_outside (items + i * es) (items + i * es + es) m m' -> cell m' items es j = cell m items es j.
Proof.
  intros He Hij Hs. unfold cell. eapply load_bytes_same; [apply Hs|].
  unfold disjoint_ranges. assert (i < j \/ j < i) as [?|?] by lia; nia.
Qed.

(** Nor does writing outside the storage. *)
Lemma cell_outside m m' items es capacity j p n :
  0 <= es -> 0 <= j < capacity -> same_outside p (p + n) m m' ->
  disjoint_ranges p n items (capacity * es) -> cell m' items es j = cell m items es j.
Proof.
  intros He Hj Hs Hd. unfold cell. eapply load_bytes_same; [apply Hs|].
  unfold disjoint_ranges in *. replace (p + n - p) with n by lia. nia.
Qed.

Lemma container_copy_spec m dest src n :
  0 <= n -> disjoint_ranges dest n src n ->
  load_bytes (sl_container_copy m dest src n) dest n = load_bytes m src n /\
  same_outside dest (dest + n) m (sl_container_copy m dest src n).
Proof.
  intros Hn Hd. apply copied_load_bytes; [done|]. unfold sl_container_copy.
  rewrite <- (Z2Nat.id n) at 1 by done. apply copy_forward_copied. unfold disjoint_ranges in Hd. lia.
Qed.

Lemma container_zero_spec m p n :
  0 <= n -> same_outside p (p + n) m (sl_container_zero m p n).
Proof.
  intros Hn. unfold sl_container_zero. split_if; [apply same_outside_refl|].
  pose proof (fill_same_outside m p (Z.to_nat n) 0) as H. by rewrite Z2Nat.id in H.
Qed.

Lemma load_zero m p n :
  0 <= n -> p <> 0 -> load_bytes (sl_container_zero m p n) p n = replicate (Z.to_nat n) 0.
Proof.
  intros Hn Hp. unfold sl_container_zero. destruct (Z.eqb_spec p 0); [done|].
  unfold load_bytes. apply list_eq. intros i. destruct (decide (i < Z.to_nat n)%nat).
  - rewrite load_lookup by done. rewrite lookup_replicate_2 by done. f_equal. rewrite ld8_fill.
    destruct (Z.leb_spec p (p + Z.of_nat i)), (Z.ltb_spec (p + Z.of_nat i) (p + Z.of_nat (Z.to_nat n)));
      simpl; try lia. done.
  - rewrite !lookup_ge_None_2; rewrite ?length_load, ?length_replicate; try lia; done.
Qed.

(** * Ring queue: a bounded first-in-first-out queue *)

Lemma wrap_index a k c :
  0 <= a < c -> 0 <= k <= c -> (a + k) mod c = if a + k <? c then a + k else a + k - c.
Proof.
  intros. destruct (Z.ltb_spec (a + k) c); [apply Z.mod_small; lia|].
  symmetry. apply Z.mod_unique with 1; lia.
Qed.

Record queue_wf (q : SlRingQueue) : Prop := {
  qw_storage : storage_ok (rq_items q) (rq_elem_size q) (rq_capacity q);
  qw_count : 0 <= rq_count q <= rq_capacity q;
  qw_ends : 0 < rq_capacity q ->
    0 <= rq_head q < rq_capacity q /\ rq_tail q = (rq_head q + rq_count q) mod rq_capacity q;
}.

(** [n] elements from ring position [i]. *)
Fixpoint ring (m : mem) (q : SlRingQueue) (i : Z) (n : nat) : list (list Z) :=
  match n with
  | O => []
  | S n => cell m (rq_items q) (rq_elem_size q) i :: ring m q ((i + 1) mod rq_capacity q) n
  end.

(** The queue's contents, front first. *)
Definition queue_contents (s : QueueSys) : list (list Z) :=
  ring (qs_mem s) (qs_queue s) (rq_head (qs_queue s)) (Z.to_nat (rq_count (qs_queue s))).

Lemma ring_ext m m' q i n :
  0 < rq_capacity q -> 0 <= i < rq_capacity q ->
  (forall k, 0 <= k < Z.of_nat n ->
     cell m' (rq_items q) (rq_elem_size q) ((i + k) mod rq_capacity q)
     = cell m (rq_items q) (rq_elem_size q) ((i + k) mod rq_capacity q)) ->
  ring m' q i n = ring m q i n.
Proof.
  intros Hc. revert i; induction n as [|n IH]; intros i Hi H; [done|]. cbn [ring]. f_equal.
  - specialize (H 0 ltac:(lia)). by rewrite Z.add_0_r, Z.mod_small in H.
  - apply IH; [apply Z.mod_pos_bound; lia|]. intros k Hk. specialize (H (k + 1) ltac:(lia)).
    rewrite Z.add_mod_idemp_l by lia. by replace (i + 1 + k) with (i + (k + 1)) by lia.
Qed.

Lemma ring_snoc m q i n :
  0 < rq_capacity q -> 0 <= i < rq_capacity q ->
  ring m q i (S n) =
  ring m q i n ++ [cell m (rq_items q) (rq_elem_size q) ((i + Z.of_nat n) mod rq_capacity q)].
Proof.
  intros Hc. revert i; induction n as [|n IH]; intros i Hi.
  - simpl. by rewrite Z.add_0_r, Z.mod_small.
  - cbn [ring]. cbn [ring] in IH. rewrite IH by (apply Z.mod_pos_bound; lia). simpl. do 3 f_equal.
    rewrite Z.add_mod_idemp_l by lia. do 2 f_equal. lia.
Qed.

(** Ring depends on the geometry of the queue only. *)
Lemma ring_geometry m q h t c i n : ring m (with_ends h t c q) i n = ring m q i n.
Proof. revert i; induction n as [|n IH]; intros i; simpl; [done|]. by rewrite IH. Qed.

Lemma length_ring m q i n : length (ring m q i n) = n.
Proof. revert i; induction n; intros; simpl; auto. Qed.

(** A caller's element buffer: [elem_size] bytes outside the queue's storage. *)
Definition item_buffer (q : SlRingQueue) (p : Z) : Prop :=
  0 < p /\ disjoint_ranges p (rq_elem_size q) (rq_items q) (rq_capacity q * rq_elem_size q).

(** What every queue operation keeps: the geometry and the invariant. *)
Definition queue_kept (q q' : SlRingQueue) : Prop :=
  queue_wf q' /\ rq_items q' = rq_items q /\ rq_elem_size q' = rq_elem_size q /\
  rq_capacity q' = rq_capacity q.

Lemma queue_guards q :
  queue_wf q -> 0 < rq_count q ->
  (rq_count q =? 0) = false /\ (rq_items q =? 0) = false /\ (rq_capacity q =? 0) = false /\
  (rq_elem_size q =? 0) = false.
Proof.
  intros [(? & ? & ? & ? & ?) ? ?] Hc. split_and!; apply Z.eqb_neq; lia.
Qed.

Lemma queue_contents_cons s :
  queue_wf (qs_queue s) -> 0 < rq_count (qs_queue s) ->
  queue_contents s =
  cell (qs_mem s) (rq_items (qs_queue s)) (rq_elem_size (qs_queue s)) (rq_head (qs_queue s))
  :: ring (qs_mem s) (qs_queue s) ((rq_head (qs_queue s) + 1) mod rq_capacity (qs_queue s))
       (Z.to_nat (rq_count (qs_queue s) - 1)).
Proof.
  intros Hwf Hc. unfold queue_contents.
  by replace (Z.to_nat (rq_count (qs_queue s))) with (S (Z.to_nat (rq_count (qs_queue s) - 1))) by lia.
Qed.

Lemma queue_push_spec s item :
  let q := qs_queue s in
  queue_wf q -> item_buffer q item ->
  match sl_ring_queue_push REF item s with
  | (Ok _, s') => rq_count q < rq_capacity q /\ queue_kept q (qs_queue s') /\
                  queue_contents s' = queue_contents s ++ [load_bytes (qs_mem s) item (rq_elem_size q)]
  | (Err c, s') => rq_count q = rq_capacity q /\ c = SL_STATUS_CAPACITY_EXCEEDED /\ s' = s
  end.
Proof.
  cbv zeta. destruct s as [m q]. cbn [qs_queue qs_mem]. intros Hwf [Hp Hd].
  pose proof (qw_count _ Hwf) as Hcnt. pose proof (qw_storage _ Hwf) as Hst.
  pose proof Hst as (He & Hc0 & Hb & Hi & Hend).
  unfold sl_ring_queue_push. unfold_st. cbn [qs_queue is_null].
  destruct (Z.eqb_spec item 0); [lia|]. destruct (Z.eqb_spec (rq_elem_size q) 0); [lia|]. cbn [orb].
  destruct (Z.leb_spec (rq_capacity q) (rq_count q)); [split_and!; [lia|done..]|].
  destruct (qw_ends _ Hwf ltac:(lia)) as [Hh Ht].
  destruct (Z.eqb_spec (rq_items q) 0); [lia|].
  assert (Htr : 0 <= rq_tail q < rq_capacity q) by (rewrite Ht; apply Z.mod_pos_bound; lia).
  destruct (item_at_spec _ _ _ (rq_tail q) Hst Htr) as [-> Hpos].
  destruct (Z.eqb_spec (rq_items q + rq_tail q * rq_elem_size q) 0); [lia|].
  assert (rq_capacity q < 2 ^ 63) by nia.
  rewrite !wrap64_small by size_lia.
  destruct (container_copy_spec m (rq_items q + rq_tail q * rq_elem_size q) item (rq_elem_size q))
    as [Hcopy Hsame]; [lia|unfold disjoint_ranges in *; nia|].
  split_and!; [lia|..].
  - split_and!; try done. split; cbn; [done|lia|]. intros _. split; [done|].
    rewrite Ht, Z.add_mod_idemp_l by lia. f_equal. lia.
  - unfold queue_contents. cbn [qs_mem qs_queue rq_head rq_count with_ends].
    replace (Z.to_nat (rq_count q + 1)) with (S (Z.to_nat (rq_count q))) by lia.
    rewrite !ring_geometry, ring_snoc by lia. rewrite Z2Nat.id, <- Ht by lia.
    f_equal; [|f_equal; exact Hcopy].
    apply ring_ext; [lia|done|]. intros k Hk. apply (cell_other _ _ _ _ (rq_tail q)); [lia| |done].
    rewrite Ht, !wrap_index by lia.
    destruct (Z.ltb_spec (rq_head q + rq_count q) (rq_capacity q)),
      (Z.ltb_spec (rq_head q + k) (rq_capacity q)); lia.
Qed.

Lemma queue_peek_spec s out :
  let q := qs_queue s in
  queue_wf q -> item_buffer q out -> 0 < rq_count q ->
  exists m', sl_ring_queue_peek_front REF out s = (true, {| qs_mem := m'; qs_queue := q |}) /\
    Some (load_bytes m' out (rq_elem_size q)) = head (queue_contents s) /\
    same_outside out (out + rq_elem_size q) (qs_mem s) m'.
Proof.
  cbv zeta. destruct s as [m q]. cbn [qs_queue qs_mem]. intros Hwf [Hp Hd] Hcnt.
  destruct (queue_guards q Hwf Hcnt) as (G1 & G2 & G3 & G4).
  pose proof (qw_storage _ Hwf) as Hst. pose proof Hst as (He & Hc0 & Hb & Hi & Hend).
  pose proof (qw_count _ Hwf).
  destruct (qw_ends _ Hwf ltac:(lia)) as [Hh Ht].
  unfold sl_ring_queue_peek_front. cbn [qs_queue is_null orb]. rewrite G1, G2, G3, G4.
  destruct (Z.eqb_spec out 0); [lia|]. cbn [orb].
  destruct (item_at_spec _ _ _ (rq_head q) Hst Hh) as [-> Hpos].
  destruct (Z.eqb_spec (rq_items q + rq_head q * rq_elem_size q) 0); [lia|].
  destruct (container_copy_spec m out (rq_items q + rq_head q * rq_elem_size q) (rq_elem_size q))
    as [Hcopy Hsame]; [lia|unfold disjoint_ranges in *; nia|].
  eexists. split; [done|]. split; [|done].
  rewrite queue_contents_cons by done. cbn [head]. f_equal. exact Hcopy.
Qed.

Lemma queue_discard_spec s :
  let q := qs_queue s in
  queue_wf q -> 0 < rq_count q ->
  exists s', sl_ring_queue_discard_front REF s = (true, s') /\ queue_kept q (qs_queue s') /\
    queue_contents s' = tail (queue_contents s) /\
    same_outside (rq_items q) (rq_items q + rq_capacity q * rq_elem_size q) (qs_mem s) (qs_mem s').
Proof.
  cbv zeta. destruct s as [m q]. cbn [qs_queue qs_mem]. intros Hwf Hcnt.
  destruct (queue_guards q Hwf Hcnt) as (G1 & G2 & G3 & G4).
  pose proof (qw_storage _ Hwf) as Hst. pose proof Hst as (He & Hc0 & Hb & Hi & Hend).
  pose proof (qw_count _ Hwf). destruct (qw_ends _ Hwf ltac:(lia)) as [Hh Ht].
  unfold sl_ring_queue_discard_front. cbn [qs_queue is_null orb]. rewrite G1, G2, G3, G4. cbn [orb].
  destruct (item_at_spec _ _ _ (rq_head q) Hst Hh) as [-> Hpos].
  destruct (Z.eqb_spec (rq_items q + rq_head q * rq_elem_size q) 0); [lia|].
  assert (rq_capacity q < 2 ^ 63) by nia. rewrite wrap64_small by size_lia.
  pose proof (container_zero_spec m (rq_items q + rq_head q * rq_elem_size q) (rq_elem_size q)
    ltac:(lia)) as Hsame.
  eexists. split; [done|]. split_and!.
  - split_and!; try done. split; cbn; [done|lia|]. intros _. split; [apply Z.mod_pos_bound; lia|].
    rewrite Ht, Z.add_mod_idemp_l by lia. f_equal. lia.
  - rewrite (queue_contents_cons {| qs_mem := m; qs_queue := q |}) by done. cbn [tail].
    unfold queue_contents. cbn [qs_mem qs_queue rq_head rq_count with_ends]. rewrite ring_geometry.
    apply ring_ext; [lia|apply Z.mod_pos_bound; lia|]. intros k Hk.
    apply (cell_other _ _ _ _ (rq_head q)); [lia| |done].
    rewrite Z.add_mod_idemp_l by lia. replace (rq_head q + 1 + k) with (rq_head q + (k + 1)) by lia.
    rewrite wrap_index by lia. destruct (Z.ltb_spec (rq_head q + (k + 1)) (rq_capacity q)); lia.
  - eapply same_outside_weaken; [exact Hsame|nia|nia].
Qed.

Lemma contents_outside m m' q p n :
  queue_wf q -> same_outside p (p + n) m m' ->
  disjoint_ranges p n (rq_items q) (rq_capacity q * rq_elem_size q) ->
  queue_contents {| qs_mem := m'; qs_queue := q |} = queue_contents {| qs_mem := m; qs_queue := q |}.
Proof.
  intros Hwf Hs Hd. unfold queue_contents. cbn [qs_mem qs_queue].
  destruct (decide (0 < rq_capacity q)) as [Hc|].
  2: { pose proof (qw_count _ Hwf). by replace (Z.to_nat (rq_count q)) with O by lia. }
  destruct (qw_ends _ Hwf Hc) as [Hh _]. apply ring_ext; [done|done|]. intros k Hk.
  eapply (cell_outside _ _ _ _ (rq_capacity q)); [|apply Z.mod_pos_bound; lia|done..].
  destruct (qw_storage _ Hwf). lia.
Qed.

Lemma queue_empty_count s :
  queue_wf (qs_queue s) -> queue_contents s = [] <-> rq_count (qs_queue s) = 0.
Proof.
  intros Hwf. pose proof (qw_count _ Hwf). unfold queue_contents. split.
  - intros E. apply (f_equal length) in E. rewrite length_ring in E. simpl in E. lia.
  - intros ->. done.
Qed.

Lemma queue_pop_front_spec s out :
  let q := qs_queue s in
  queue_wf q -> item_buffer q out ->
  match sl_ring_queue_pop_front REF out s with
  | (true, s') => queue_kept q (qs_queue s') /\
                  queue_contents s = load_bytes (qs_mem s') out (rq_elem_size q) :: queue_contents s'
  | (false, s') => queue_contents s = [] /\ s' = s
  end.
Proof.
  cbv zeta. destruct s as [m q]. cbn [qs_queue qs_mem]. intros Hwf Hbuf.
  unfold sl_ring_queue_pop_front.
  destruct (decide (0 < rq_count q)) as [Hcnt|Hcnt].
  2: { pose proof (qw_count _ Hwf).
       assert (E : rq_count q = 0) by lia.
       unfold sl_ring_queue_peek_front. cbn [qs_queue is_null orb]. rewrite E. cbn [orb Z.eqb].
       rewrite orb_true_r. cbn [orb].
       split; [|done]. by apply (queue_empty_count {| qs_mem := m; qs_queue := q |}). }
  destruct (queue_peek_spec {| qs_mem := m; qs_queue := q |} out Hwf Hbuf Hcnt) as (m1 & -> & Hhd & Hs1).
  cbn [qs_queue qs_mem] in *.
  destruct (queue_discard_spec {| qs_mem := m1; qs_queue := q |} Hwf Hcnt) as (s' & -> & Hk & Hct & Hs2).
  cbn [qs_queue qs_mem] in *. split; [done|]. destruct Hbuf as [_ Hd].
  rewrite (contents_outside m m1 q out (rq_elem_size q)) in Hct by done.
  rewrite Hct. rewrite (load_bytes_same m1 (qs_mem s') (rq_items q)
    (rq_items q + rq_capacity q * rq_elem_size q)); [|exact Hs2|unfold disjoint_ranges in *; lia].
  destruct (queue_contents {| qs_mem := m; qs_queue := q |}) as [|x xs]; [done|].
  cbn in *. congruence.
Qed.

Lemma queue_pop_back_spec s out :
  let q := qs_queue s in
  queue_wf q -> item_buffer q out ->
  match sl_ring_queue_pop_back REF out s with
  | (true, s') => queue_kept q (qs_queue s') /\
                  queue_contents s = queue_contents s' ++ [load_bytes (qs_mem s') out (rq_elem_size q)]
  | (false, s') => queue_contents s = [] /\ s' = s
  end.
Proof.
  cbv zeta. destruct s as [m q]. cbn [qs_queue qs_mem]. intros Hwf [Hp Hd].
  pose proof (qw_count _ Hwf) as Hcr. unfold sl_ring_queue_pop_back. cbn [qs_queue is_null orb].
  destruct (Z.eqb_spec out 0); [lia|]. cbn [orb].
  destruct (Z.eqb_spec (rq_count q) 0) as [E|E]; cbn [orb].
  { split; [|done]. by apply (queue_empty_count {| qs_mem := m; qs_queue := q |}). }
  destruct (queue_guards q Hwf ltac:(lia)) as (_ & -> & -> & ->). cbn [orb].
  pose proof (qw_storage _ Hwf) as Hst. pose proof Hst as (He & Hc0 & Hb & Hi & Hend).
  destruct (qw_ends _ Hwf ltac:(lia)) as [Hh Ht].
  assert (rq_capacity q < 2 ^ 63) by nia.
  assert (Htr : 0 <= rq_tail q < rq_capacity q) by (rewrite Ht; apply Z.mod_pos_bound; lia).
  rewrite !(wrap64_small (rq_tail q + rq_capacity q)) by size_lia. rewrite !wrap64_small by size_lia.
  set (t := (rq_tail q + rq_capacity q - 1) mod rq_capacity q).
  assert (Htl : t = (rq_head q + (rq_count q - 1)) mod rq_capacity q).
  { unfold t. replace (rq_tail q + rq_capacity q - 1) with (rq_tail q + (rq_capacity q - 1)) by lia.
    rewrite Ht, Z.add_mod_idemp_l by lia.
    replace (rq_head q + rq_count q + (rq_capacity q - 1))
      with (rq_head q + (rq_count q - 1) + 1 * rq_capacity q) by lia.
    apply Z.mod_add. lia. }
  assert (Hti : 0 <= t < rq_capacity q) by (apply Z.mod_pos_bound; lia).
  destruct (item_at_spec _ _ _ t Hst Hti) as [-> Hpos].
  destruct (Z.eqb_spec (rq_items q + t * rq_elem_size q) 0); [lia|].
  set (slot := rq_items q + t * rq_elem_size q) in *.
  set (m1 := sl_container_copy m out slot (rq_elem_size q)).
  destruct (container_copy_spec m out slot (rq_elem_size q)) as [Hcopy Hs1];
    [lia|unfold slot, disjoint_ranges in *; nia|]. fold m1 in Hcopy, Hs1.
  pose proof (container_zero_spec m1 slot (rq_elem_size q) ltac:(lia)) as Hs2. split.
  - split_and!; try done. split; cbn; [done|lia|]. intros _. split; [done|exact Htl].
  - cbn [qs_mem]. rewrite (load_bytes_same m1 _ slot (slot + rq_elem_size q));
      [|exact Hs2|unfold slot, disjoint_ranges in *; nia]. rewrite Hcopy.
    unfold queue_contents. cbn [qs_mem qs_queue rq_head rq_count with_ends]. rewrite ring_geometry.
    replace (Z.to_nat (rq_count q)) with (S (Z.to_nat (rq_count q - 1))) by lia.
    rewrite ring_snoc by lia. rewrite Z2Nat.id, <- Htl by lia. f_equal. symmetry.
    apply ring_ext; [lia|done|]. intros k Hk.
    rewrite (cell_other m1 _ _ _ t); [|lia| |exact Hs2].
    + eapply (cell_outside _ _ _ _ (rq_capacity q)); [lia|apply Z.mod_pos_bound; lia|exact Hs1|done].
    + rewrite Htl, !wrap_index by lia.
      destruct (Z.ltb_spec (rq_head q + (rq_count q - 1)) (rq_capacity q)),
        (Z.ltb_spec (rq_head q + k) (rq_capacity q)); lia.
Qed.

Lemma queue_clear_spec s :
  let q := qs_queue s in
  queue_wf q ->
  queue_kept q (qs_queue (sl_ring_queue_clear REF s)) /\ queue_contents (sl_ring_queue_clear REF s) = [].
Proof.
  cbv zeta. destruct s as [m q]. cbn [qs_queue]. intros Hwf. pose proof (qw_count _ Hwf). split; [|done].
  destruct Hwf. split_and!; try done. split; cbn; [done|lia|]. intros Hc. split; [lia|].
  by rewrite Z.mod_small by lia.
Qed.

(** The abstract component: a bounded double-ended queue of elements that
    observes the outcomes of the operations. *)
Inductive queue_event :=
| Pushed (x : list Z)
| Refused
| PoppedFront (x : option (list Z))
| PoppedBack (x : option (list Z))
| Cleared.

Definition deque_step (cap : Z) (xs : list (list Z)) (e : queue_event) (xs' : list (list Z)) : Prop :=
  match e with
  | Pushed x => Z.of_nat (length xs) < cap /\ xs' = xs ++ [x]
  | Refused => Z.of_nat (length xs) = cap /\ xs' = xs
  | PoppedFront None | PoppedBack None => xs = [] /\ xs' = []
  | PoppedFront (Some x) => xs = x :: xs'
  | PoppedBack (Some x) => xs = xs' ++ [x]
  | Cleared => xs' = []
  end.

Inductive deque_run (cap : Z) : list (list Z) -> list queue_event -> list (list Z) -> Prop :=
| deque_run_nil xs : deque_run cap xs [] xs
| deque_run_cons xs e xs1 es xs2 :
    deque_step cap xs e xs1 -> deque_run cap xs1 es xs2 -> deque_run cap xs (e :: es) xs2.

Inductive queue_cmd := QPush (item : Z) | QPopFront (out : Z) | QPopBack (out : Z) | QClear.

Definition queue_exec (c : queue_cmd) (s : QueueSys) : queue_event * QueueSys :=
  let es := rq_elem_size (qs_queue s) in
  match c with
  | QPush item =>
      match sl_ring_queue_push REF item s with
      | (Ok _, s') => (Pushed (load_bytes (qs_mem s) item es), s')
      | (Err _, s') => (Refused, s')
      end
  | QPopFront out =>
      match sl_ring_queue_pop_front REF out s with
      | (true, s') => (PoppedFront (Some (load_bytes (qs_mem s') out es)), s')
      | (false, s') => (PoppedFront None, s')
      end
  | QPopBack out =>
      match sl_ring_queue_pop_back REF out s with
      | (true, s') => (PoppedBack (Some (load_bytes (qs_mem s') out es)), s')
      | (false, s') => (PoppedBack None, s')
      end
  | QClear => (Cleared, sl_ring_queue_clear REF s)
  end.

Fixpoint queue_run (cs : list queue_cmd) (s : QueueSys) : list queue_event * QueueSys :=
  match cs with
  | [] => ([], s)
  | c :: cs => let '(e, s1) := queue_exec c s in
               let '(es, s2) := queue_run cs s1 in (e :: es, s2)
  end.

Definition cmd_buffer_ok (q : SlRingQueue) (c : queue_cmd) : Prop :=
  match c with QPush p | QPopFront p | QPopBack p => item_buffer q p | QClear => True end.

Lemma queue_length s :
  queue_wf (qs_queue s) -> Z.of_nat (length (queue_contents s)) = rq_count (qs_queue s).
Proof.
  intros Hwf. pose proof (qw_count _ Hwf). unfold queue_contents. rewrite length_ring. lia.
Qed.

Lemma queue_exec_step c s :
  queue_wf (qs_queue s) -> cmd_buffer_ok (qs_queue s) c ->
  let '(e, s') := queue_exec c s in
  queue_kept (qs_queue s) (qs_queue s') /\
  deque_step (rq_capacity (qs_queue s)) (queue_contents s) e (queue_contents s').
Proof.
  intros Hwf Hbuf. assert (Hid : queue_kept (qs_queue s) (qs_queue s)) by done.
  destruct c as [item|out|out|]; cbn [cmd_buffer_ok queue_exec] in *.
  - pose proof (queue_push_spec s item Hwf Hbuf) as H. cbv zeta in H.
    destruct (sl_ring_queue_push REF item s) as [[[]|c] s'].
    + destruct H as (Hc & Hk & Hq). split; [done|]. split; [by rewrite queue_length|done].
    + destruct H as (Hc & _ & ->). split; [done|]. split; [by rewrite queue_length|done].
  - pose proof (queue_pop_front_spec s out Hwf Hbuf) as H. cbv zeta in H.
    destruct (sl_ring_queue_pop_front REF out s) as [[] s']; [done|].
    destruct H as [Hq ->]. split; [done|]. by rewrite Hq.
  - pose proof (queue_pop_back_spec s out Hwf Hbuf) as H. cbv zeta in H.
    destruct (sl_ring_queue_pop_back REF out s) as [[] s']; [done|].
    destruct H as [Hq ->]. split; [done|]. by rewrite Hq.
  - pose proof (queue_clear_spec s Hwf) as [Hk Hq]. done.
Qed.

Lemma cmd_buffer_kept q q' c : queue_kept q q' -> cmd_buffer_ok q c -> cmd_buffer_ok q' c.
Proof. intros (_ & E1 & E2 & E3). unfold cmd_buffer_ok, item_buffer. by rewrite E1, E2, E3. Qed.

(** C9: The ring queue over raw element storage refines a bounded
    first-in-first-out double-ended queue: for every sequence of pushes, front
    and back pops and clears, with buffers outside the queue's storage, the
    outcomes and the bytes moved are those of the abstract queue (a push is
    refused exactly when the queue holds [capacity] elements), and the geometry
    invariant is kept. *)
Theorem ring_queue_refines_deque cs s :
  queue_wf (qs_queue s) -> Forall (cmd_buffer_ok (qs_queue s)) cs ->
  let '(es, s') := queue_run cs s in
  queue_kept (qs_queue s) (qs_queue s') /\
  deque_run (rq_capacity (qs_queue s)) (queue_contents s) es (queue_contents s').
Proof.
  revert s; induction cs as [|c cs IH]; intros s Hwf Hb; cbn [queue_run].
  { split; [done|constructor]. }
  apply Forall_cons in Hb as [Hb Hbs]. pose proof (queue_exec_step c s Hwf Hb) as Hstep.
  destruct (queue_exec c s) as [e s1]. destruct Hstep as [Hk Hd].
  specialize (IH s1). destruct (queue_run cs s1) as [es s2].
  destruct IH as [Hk2 Hd2]; [apply Hk| |].
  { eapply Forall_impl; [done|]. intros x. by apply cmd_buffer_kept. }
  destruct Hk as (Hw1 & E1 & E2 & E3), Hk2 as (Hw2 & F1 & F2 & F3). rewrite E3 in Hd2.
  split; [|by econstructor]. split_and!; congruence.
Qed.

(** * Fixed vector: a bounded stack *)

Record vec_wf (v : SlFixedVec) : Prop := {
  vw_storage : storage_ok (vec_items v) (vec_elem_size v) (vec_capacity v);
  vw_count : 0 <= vec_count v <= vec_capacity v;
}.

Fixpoint cells (m : mem) (items es i : Z) (n : nat) : list (list Z) :=
  match n with
  | O => []
  | S n => cell m items es i :: cells m items es (i + 1) n
  end.

Definition vec_contents (s : VecSys) : list (list Z) :=
  cells (vs_mem s) (vec_items (vs_vec s)) (vec_elem_size (vs_vec s)) 0 (Z.to_nat (vec_count (vs_vec s))).

Lemma cells_snoc m items es i n :
  cells m items es i (S n) = cells m items es i n ++ [cell m items es (i + Z.of_nat n)].
Proof.
  revert i; induction n as [|n IH]; intros i; [simpl; by rewrite Z.add_0_r|].
  cbn [cells] in *. rewrite IH. by replace (i + 1 + Z.of_nat n) with (i + Z.of_nat (S n)) by lia.
Qed.

Lemma cells_ext m m' items es i n :
  (forall k, i <= k < i + Z.of_nat n -> cell m' items es k = cell m items es k) ->
  cells m' items es i n = cells m items es i n.
Proof.
  revert i; induction n as [|n IH]; intros i H; [done|]. cbn [cells]. f_equal; [apply H; lia|].
  apply IH. intros k Hk. apply H. lia.
Qed.

Definition vec_buffer (v : SlFixedVec) (p : Z) : Prop :=
  0 < p /\ disjoint_ranges p (vec_elem_size v) (vec_items v) (vec_capacity v * vec_elem_size v).

Lemma vec_push_spec s item :
  let v := vs_vec s in
  vec_wf v -> vec_buffer v item ->
  match sl_fixed_vec_push REF item s with
  | (Ok slot, s') => vec_wf (vs_vec s') /\
      vec_contents s' = vec_contents s ++ [load_bytes (vs_mem s) item (vec_elem_size v)] /\
      slot = vec_items v + vec_count v * vec_elem_size v /\
      vs_vec s' = with_count (vec_count v + 1) v
  | (Err c, s') => vec_count v = vec_capacity v /\ c = SL_STATUS_CAPACITY_EXCEEDED /\ s' = s
  end.
Proof.
  cbv zeta. destruct s as [m v]. cbn [vs_vec vs_mem]. intros Hwf [Hp Hd].
  pose proof (vw_count _ Hwf) as Hcnt. pose proof (vw_storage _ Hwf) as Hst.
  pose proof Hst as (He & Hc0 & Hb & Hi & Hend). unfold sl_fixed_vec_push, push_with. unfold_st.
  cbn [vs_vec is_null orb]. destruct (Z.eqb_spec item 0); [lia|].
  destruct (Z.eqb_spec (vec_elem_size v) 0); [lia|]. cbn [orb vs_vec vs_mem].
  destruct (Z.leb_spec (vec_capacity v) (vec_count v)); [split_and!; [lia|done..]|].
  destruct (Z.eqb_spec (vec_items v) 0); [lia|].
  destruct (item_at_spec _ _ _ (vec_count v) Hst ltac:(lia)) as [-> Hpos].
  destruct (Z.eqb_spec (vec_items v + vec_count v * vec_elem_size v) 0); [lia|].
  assert (vec_capacity v < 2 ^ 63) by nia. rewrite wrap64_small by size_lia.
  destruct (container_copy_spec m (vec_items v + vec_count v * vec_elem_size v) item (vec_elem_size v))
    as [Hcopy Hsame]; [lia|unfold disjoint_ranges in *; nia|].
  split_and!; [split; cbn; [done|lia]| |done|done].
  unfold vec_contents. cbn [vs_mem vs_vec vec_count vec_items vec_elem_size with_count].
  replace (Z.to_nat (vec_count v + 1)) with (S (Z.to_nat (vec_count v))) by lia.
  rewrite cells_snoc. f_equal.
  - apply cells_ext. intros k Hk. apply (cell_other _ _ _ _ (vec_count v)); [lia|lia|done].
  - rewrite Z.add_0_l, Z2Nat.id by lia. f_equal. exact Hcopy.
Qed.

Lemma vec_pop_spec s out :
  let v := vs_vec s in
  vec_wf v -> vec_buffer v out ->
  match sl_fixed_vec_pop REF out s with
  | (true, s') => vec_wf (vs_vec s') /\
      vec_contents s = vec_contents s' ++ [load_bytes (vs_mem s') out (vec_elem_size v)] /\
      vs_vec s' = with_count (vec_count v - 1) v
  | (false, s') => vec_contents s = [] /\ s' = s
  end.
Proof.
  cbv zeta. destruct s as [m v]. cbn [vs_vec vs_mem]. intros Hwf [Hp Hd].
  pose proof (vw_count _ Hwf) as Hcnt. pose proof (vw_storage _ Hwf) as Hst.
  pose proof Hst as (He & Hc0 & Hb & Hi & Hend). unfold sl_fixed_vec_pop. cbn [vs_vec is_null orb].
  destruct (Z.eqb_spec (vec_count v) 0) as [E|]; cbn [orb].
  { split; [|done]. unfold vec_contents. cbn. by rewrite E. }
  destruct (Z.eqb_spec (vec_items v) 0); [lia|]. destruct (Z.eqb_spec (vec_elem_size v) 0); [lia|].
  cbn [orb]. destruct (item_at_spec _ _ _ (vec_count v - 1) Hst ltac:(lia)) as [-> Hpos].
  set (slot := vec_items v + (vec_count v - 1) * vec_elem_size v) in *.
  destruct (Z.eqb_spec slot 0); [lia|]. destruct (Z.eqb_spec out 0); [lia|]. cbn [negb].
  set (m1 := sl_container_copy m out slot (vec_elem_size v)).
  destruct (container_copy_spec m out slot (vec_elem_size v)) as [Hcopy Hs1];
    [lia|unfold slot, disjoint_ranges in *; nia|]. fold m1 in Hcopy, Hs1.
  pose proof (container_zero_spec m1 slot (vec_elem_size v) ltac:(lia)) as Hs2.
  split_and!; [split; cbn; [done|lia]| |done]. cbn [vs_mem].
  rewrite (load_bytes_same m1 _ slot (slot + vec_elem_size v));
    [|exact Hs2|unfold slot, disjoint_ranges in *; nia]. rewrite Hcopy.
  unfold vec_contents. cbn [vs_mem vs_vec vec_count vec_items vec_elem_size with_count].
  replace (Z.to_nat (vec_count v)) with (S (Z.to_nat (vec_count v - 1))) by lia.
  rewrite cells_snoc. rewrite Z.add_0_l, Z2Nat.id by lia. f_equal. symmetry.
  apply cells_ext. intros k Hk. rewrite (cell_other m1 _ _ _ (vec_count v - 1)); [|lia|lia|exact Hs2].
  eapply (cell_outside _ _ _ _ (vec_capacity v)); [lia|lia|exact Hs1|done].
Qed.

(** The fixed vector is a bounded stack of elements: a push appends a copy
    of the element and returns its slot, or is refused exactly when the vector is
    full and changes nothing; a pop removes the last element and hands out its
    bytes, and fails exactly on an empty vector. *)
Theorem fixed_vec_is_stack s item out :
  let v := vs_vec s in
  vec_wf v -> vec_buffer v item -> vec_buffer v out ->
  match sl_fixed_vec_push REF item s with
  | (Ok slot, s') =>
      vec_wf (vs_vec s') /\
      vec_contents s' = vec_contents s ++ [load_bytes (vs_mem s) item (vec_elem_size v)] /\
      sl_fixed_vec_at REF (vs_vec s') (vec_count v) = slot
  | (Err c, s') => vec_count v = vec_capacity v /\ c = SL_STATUS_CAPACITY_EXCEEDED /\ s' = s
  end /\
  match sl_fixed_vec_pop REF out s with
  | (true, s') => vec_wf (vs_vec s') /\
      vec_contents s = vec_contents s' ++ [load_bytes (vs_mem s') out (vec_elem_size v)]
  | (false, s') => vec_contents s = [] /\ s' = s
  end.
Proof.
  cbv zeta. intros Hwf Hi Ho. split.
  - pose proof (vec_push_spec s item Hwf Hi) as H. cbv zeta in H.
    destruct (sl_fixed_vec_push REF item s) as [[slot|c] s']; [|done].
    destruct H as (H1 & H2 & Hs & Hv). split_and!; try done.
    pose proof (vw_count _ Hwf). pose proof (vw_count _ H1) as Hc. rewrite Hv in Hc |- *.
    unfold sl_fixed_vec_at. cbn in Hc |- *.
    pose proof (vw_storage _ Hwf) as Hst. pose proof Hst as (? & ? & ? & ? & ?).
    destruct (Z.eqb_spec (vec_items (vs_vec s)) 0); [lia|].
    destruct (Z.leb_spec (vec_count (vs_vec s) + 1) (vec_count (vs_vec s))); [lia|].
    destruct (Z.eqb_spec (vec_elem_size (vs_vec s)) 0); [lia|]. cbn [orb].
    destruct (item_at_spec _ _ _ (vec_count (vs_vec s)) Hst ltac:(lia)) as [-> _]. done.
  - pose proof (vec_pop_spec s out Hwf Ho) as H. cbv zeta in H.
    destruct (sl_fixed_vec_pop REF out s) as [[] s']; [|done]. by destruct H as (? & ? & _).
Qed.

(** * Arena arrays *)

Section ArrayLaws.
Context {BC : BuildConfig}.

Lemma array_alloc_spec count es al w :
  arena_wf (w_arena w) -> is_size count -> is_size es -> is_size al -> 0 < count -> 0 < es ->
  match sl_arena_array_alloc REF count es al REF w with
  | (Ok sl, w') =>
      slice_count sl = count /\ slice_elem_size sl = es /\ count * es <= SIZE_MAX /\
      fresh_block (slice_ptr sl) (count * es) w w' /\
      load_bytes (w_mem w') (slice_ptr sl) (count * es) = replicate (Z.to_nat (count * es)) 0
  | (Err _, w') => w' = w
  end.
Proof.
  intros Hwf Hc He Ha Hc0 He0. unfold sl_arena_array_alloc, sl_container_storage_size. unfold_st.
  destruct (Z.eqb_spec es 0); [lia|]. destruct (Z.eqb_spec count 0); [lia|]. cbn [is_null orb].
  unfold sl_checked_array_size. rewrite checked_mul_spec by done. unfold checked.
  destruct (Z.leb_spec (count * es) SIZE_MAX) as [Hle|]; [|done].
  assert (Hsz : is_size (count * es)) by (unfold is_size in *; nia).
  destruct (sl_arena_alloc REF (count * es) al REF w) as [[p|c] w1] eqn:E;
    [|by apply sl_arena_alloc_err in E].
  apply sl_arena_alloc_fresh in E as [Hz HF]; [|done..].
  cbn [slice_count slice_elem_size slice_ptr]. split_and!; try done.
  - destruct HF as [F1 F2 F3 F4 F5 F6]. split; try done.
    + cbn. eapply same_outside_trans; [exact F5|]. apply container_zero_spec. size_lia.
    + intros q k Hq. destruct (F6 q k Hq) as (Hd & Hl & Ho). split_and!; [done| |done].
      cbn. rewrite <- Hl. eapply load_bytes_same; [apply container_zero_spec; size_lia|].
      unfold disjoint_ranges in *. lia.
  - cbn. apply load_zero; [size_lia|]. destruct HF. lia.
Qed.

Lemma array_copy_spec src count es al w :
  arena_wf (w_arena w) -> is_size count -> is_size es -> is_size al -> 0 < count -> 0 < es ->
  src <> 0 -> outside_free (w_arena w) src (count * es) ->
  match sl_arena_array_copy REF src count es al REF w with
  | (Ok sl, w') =>
      slice_count sl = count /\ slice_elem_size sl = es /\
      fresh_block (slice_ptr sl) (count * es) w w' /\
      load_bytes (w_mem w') (slice_ptr sl) (count * es) = load_bytes (w_mem w) src (count * es)
  | (Err _, w') => w' = w
  end.
Proof.
  intros Hwf Hc He Ha Hc0 He0 Hsrc Hof. unfold sl_arena_array_copy. unfold_st.
  destruct (Z.eqb_spec es 0); [lia|]. destruct (Z.eqb_spec src 0); [lia|].
  destruct (Z.eqb_spec count 0); [lia|]. cbn [is_null orb andb negb].
  pose proof (array_alloc_spec count es al w Hwf Hc He Ha Hc0 He0) as H.
  destruct (sl_arena_array_alloc REF count es al REF w) as [[sl|c] w1]; [|done].
  destruct H as (H1 & H2 & H3 & HF & _). rewrite wrap64_small by (unfold is_size in *; nia).
  pose proof HF as [F1 F2 F3 F4 F5 F6].
  destruct (F6 src (count * es) Hof) as (Hd & Hl & _).
  destruct (container_copy_spec (w_mem w1) (slice_ptr sl) src (count * es)) as [Hcopy Hs];
    [unfold is_size in *; nia|done|].
  split_and!; try done; [|by rewrite <- Hl]. split; try done.
  - cbn. by eapply same_outside_trans.
  - intros q k Hq. destruct (F6 q k Hq) as (Hd' & Hl' & Ho'). split_and!; [done| |done].
    cbn. rewrite <- Hl'. eapply load_bytes_same; [exact Hs|]. unfold disjoint_ranges in *. lia.
Qed.

(** Arena arrays: an allocation returns a fresh block of zero bytes of the
    exact product size (an overflowing product is refused), disjoint from every
    range the arena does not own or has handed out before; a copy fills it with
    the source bytes; the copy of a byte view reads back as the view.  A failure
    changes nothing. *)
Theorem arena_arrays_fresh_and_exact count es al src bytes w :
  arena_wf (w_arena w) -> is_size count -> is_size es -> is_size al -> 0 < count -> 0 < es ->
  src <> 0 -> outside_free (w_arena w) src (count * es) ->
  bytes_valid bytes -> is_size (bytes_length bytes) ->
  outside_free (w_arena w) (bytes_ptr bytes) (bytes_length bytes) ->
  match sl_arena_array_alloc REF count es al REF w with
  | (Ok sl, w') =>
      slice_count sl = count /\ slice_elem_size sl = es /\ count * es <= SIZE_MAX /\
      fresh_block (slice_ptr sl) (count * es) w w' /\
      load_bytes (w_mem w') (slice_ptr sl) (count * es) = replicate (Z.to_nat (count * es)) 0
  | (Err _, w') => w' = w
  end /\
  match sl_arena_array_copy REF src count es al REF w with
  | (Ok sl, w') => fresh_block (slice_ptr sl) (count * es) w w' /\
      load_bytes (w_mem w') (slice_ptr sl) (count * es) = load_bytes (w_mem w) src (count * es)
  | (Err _, w') => w' = w
  end /\
  match sl_bytes_copy_to_arena REF bytes REF w with
  | (Ok b, w') => bytes_val (w_mem w') b = bytes_val (w_mem w) bytes /\
                  bytes_length b = bytes_length bytes /\ bytes_valid b
  | (Err _, w') => w' = w
  end.
Proof.
  intros Hwf Hc He Ha Hc0 He0 Hsrc Hof [Hb0 Hbv] Hbs Hbo. split_and!.
  - by apply array_alloc_spec.
  - pose proof (array_copy_spec src count es al w Hwf Hc He Ha Hc0 He0 Hsrc Hof) as H.
    destruct (sl_arena_array_copy REF src count es al REF w) as [[sl|c] w']; [|done].
    by destruct H as (_ & _ & ? & ?).
  - unfold sl_bytes_copy_to_arena. unfold_st. cbn [is_null orb].
    rewrite bytes_valid_storage by done. cbn [negb].
    destruct (Z.eqb_spec (bytes_length bytes) 0) as [E|].
    { unfold bytes_val, bytes_valid. rewrite E. split_and!; try done. by left. }
    pose proof (array_copy_spec (bytes_ptr bytes) (bytes_length bytes) 1 1 w Hwf Hbs
      ltac:(size_lia) ltac:(size_lia) ltac:(lia) ltac:(lia) ltac:(lia)) as H.
    rewrite Z.mul_1_r in H. specialize (H Hbo).
    destruct (sl_arena_array_copy REF (bytes_ptr bytes) (bytes_length bytes) 1 1 REF w)
      as [[sl|c] w']; [|done].
    destruct H as (_ & _ & [F1 _ _ _ _ _] & Hl). split_and!; [exact Hl|done|].
    split; cbn; lia.
Qed.
End ArrayLaws.

Module Demo.
#[local] Existing Instance assert_build.

(** A queue of three 2-byte elements at 1000, wrapped around: head 2, two
    elements; buffers at 100 and 200. *)
Definition q0 : SlRingQueue :=
  {| rq_items := 1000; rq_elem_size := 2; rq_capacity := 3; rq_head := 2; rq_tail := 1; rq_count := 2 |}.
Definition m0 : mem := store (store (fun _ => 0) 1000 [3; 4; 0; 0; 1; 2]) 100 [5; 6].
Definition s0 : QueueSys := {| qs_mem := m0; qs_queue := q0 |}.

Lemma q0_wf : queue_wf q0.
Proof.
  split; cbn; try lia; [|by intros _].
  unfold storage_ok, UINTPTR_MAX; lia.
Qed.

Lemma ring_queue_refines_deque_witness :
  deque_run 3 [[1; 2]; [3; 4]] [Pushed [5; 6]; Refused; PoppedFront (Some [1; 2])] [[3; 4]; [5; 6]].
Proof.
  pose proof (ring_queue_refines_deque [QPush 100; QPush 100; QPopFront 200] s0 q0_wf) as H.
  destruct (queue_run _ s0) as [es s'] eqn:E. destruct H as [_ H].
  { repeat constructor; unfold item_buffer, disjoint_ranges; cbn; lia. }
  assert (E1 : es = [Pushed [5; 6]; Refused; PoppedFront (Some [1; 2])])
    by (apply (f_equal fst) in E; cbn [fst] in E; rewrite <- E; vm_compute; reflexivity).
  assert (E2 : queue_contents s' = [[3; 4]; [5; 6]])
    by (apply (f_equal snd) in E; cbn [snd] in E; rewrite <- E; vm_compute; reflexivity).
  rewrite E1, E2 in H. exact H.
Defined.

Definition v0 : SlFixedVec := {| vec_items := 1000; vec_elem_size := 2; vec_capacity := 3; vec_count := 2 |}.
Definition vs0 : VecSys := {| vs_mem := m0; vs_vec := v0 |}.

Lemma fixed_vec_is_stack_witness :
  match sl_fixed_vec_push REF 100 vs0 with
  | (Ok slot, s') => vec_contents s' = [[3; 4]; [0; 0]; [5; 6]] /\ slot = 1004
  | _ => False
  end.
Proof.
  destruct (fixed_vec_is_stack vs0 100 200) as [H _].
  - split; cbn; [unfold storage_ok, UINTPTR_MAX; lia|lia].
  - unfold vec_buffer, disjoint_ranges; cbn; lia.
  - unfold vec_buffer, disjoint_ranges; cbn; lia.
  - destruct (sl_fixed_vec_push REF 100 vs0) as [[slot|c] s'] eqn:E.
    + destruct H as (_ & -> & <-). split; [vm_compute; reflexivity|].
      apply (f_equal snd) in E. cbn [snd] in E. rewrite <- E. vm_compute. reflexivity.
    + vm_compute in E. discriminate E.
Defined.

Definition w0 : World :=
  {| w_mem := m0; w_arena := {| ar_base := 4096; ar_capacity := 64; ar_offset := 0;
                                ar_high_water := 0; ar_generation := 1 |} |}.

Lemma arena_arrays_fresh_and_exact_witness :
  match sl_arena_array_copy REF 1000 3 2 2 REF w0 with
  | (Ok sl, w') => load_bytes (w_mem w') (slice_ptr sl) 6 = [3; 4; 0; 0; 1; 2]
  | _ => False
  end.
Proof.
  destruct (arena_arrays_fresh_and_exact 3 2 2 1000 (sl_bytes_from_parts 100 2) w0) as (_ & H & _);
    try (cbn; size_lia); try (unfold outside_free, disjoint_ranges; cbn; lia).
  - unfold arena_wf; cbn; size_lia.
  - split; cbn; lia.
  - destruct (sl_arena_array_copy REF 1000 3 2 2 REF w0) as [[sl|c] w'] eqn:E.
    + destruct H as [_ H]. change (3 * 2) with 6 in H. rewrite H. vm_compute. reflexivity.
    + vm_compute in E. discriminate E.
Defined.
End Demo.
