(* ===== verification/HashIndex.v ===== *)
(** The chained hash index of src/core/container.c: buckets and next links as
    1-based entry numbers in two [size_t] arrays, 0 ending a chain. *)

From S2P Require Import Prelude Memory Status Arena Container.

Record SlArenaHashIndex := {
  hx_buckets : option (list Z);
  hx_next_indices : option (list Z);
  hx_capacity : Z;
  hx_bucket_count : Z;
  hx_count : Z;
}.

Definition hx_zero : SlArenaHashIndex :=
  {| hx_buckets := None; hx_next_indices := None; hx_capacity := 0; hx_bucket_count := 0;
     hx_count := 0 |}.

(** An array read; in range wherever the index is well formed. *)
Definition at_index (xs : list Z) (i : Z) : Z := default 0 (xs !! Z.to_nat i).

Section Init.
Context {BC : BuildConfig}.

(** The arrays come out of the arena zeroed. *)
Definition sl_arena_hash_index_init (index arena : nullable) (capacity bucket_count : Z)
    : ST (World * SlArenaHashIndex) unit :=
  return_if is_null index || is_null arena || (capacity =? 0) || (bucket_count =? 0)
    with SL_STATUS_INVALID_ARGUMENT ;;
  mark ← gets (fun s => sl_arena_mark arena (fst s));
  zoom fst (fun w s => (w, snd s)) (sl_arena_array_alloc arena bucket_count 8 8 REF);;
  ((fun s =>
    match sl_arena_array_alloc arena capacity 8 8 REF (fst s) with
    | (Err c, w) => (Err c, (snd (sl_arena_reset_to arena mark w), hx_zero))
    | (Ok _, w) =>
        (Ok tt, (w, {| hx_buckets := Some (replicate (Z.to_nat bucket_count) 0);
                       hx_next_indices := Some (replicate (Z.to_nat capacity) 0);
                       hx_capacity := capacity; hx_bucket_count := bucket_count;
                       hx_count := 0 |}))
    end) : ST (World * SlArenaHashIndex) unit).
End Init.

Definition sl_arena_hash_index_reset (index : nullable) (h : SlArenaHashIndex) : SlArenaHashIndex :=
  if is_null index then h else
  {| hx_buckets := (fun bs => replicate (length bs) 0) <$> hx_buckets h;
     hx_next_indices := (fun ns => replicate (length ns) 0) <$> hx_next_indices h;
     hx_capacity := hx_capacity h; hx_bucket_count := hx_bucket_count h; hx_count := 0 |}.

(** The [while] loop over one chain.  [visited_count] stops it after [capacity]
    entries, so [capacity + 1] steps of fuel are never used up. *)
Fixpoint find_chain (equals : Z -> bool) (next : list Z) (capacity entry visited : Z) (fuel : nat)
    : result Z :=
  match fuel with
  | O => Err SL_STATUS_INVALID_STATE
  | S fuel =>
      if entry =? 0 then Err SL_STATUS_OUT_OF_RANGE else
      if capacity <? entry then Err SL_STATUS_INVALID_STATE else
      if capacity <=? visited then Err SL_STATUS_INVALID_STATE else
      if equals entry then Ok entry else
      find_chain equals next capacity (at_index next (entry - 1)) (visited + 1) fuel
  end.

(** A NULL callback or output pointer is [equals]/[out] NULL. *)
Definition sl_arena_hash_index_find (index : nullable) (h : SlArenaHashIndex) (hash : Z)
    (equals : option (Z -> bool)) (out_entry_index : nullable) : result Z :=
  match equals, hx_buckets h, hx_next_indices h with
  | Some equals, Some buckets, Some next =>
      error_if is_null index || is_null out_entry_index || (hx_bucket_count h =? 0)
        with SL_STATUS_INVALID_ARGUMENT ;;
      let bucket_index := hash mod hx_bucket_count h in
      find_chain equals next (hx_capacity h) (at_index buckets bucket_index) 0
        (S (Z.to_nat (hx_capacity h)))
  | _, _, _ => Err SL_STATUS_INVALID_ARGUMENT
  end.

(** The duplicate scan of one chain in [insert]: fails on a damaged chain and on
    the entry itself. *)
Fixpoint scan_chain (next : list Z) (capacity entry_index current visited : Z) (fuel : nat) : bool :=
  match fuel with
  | O => false
  | S fuel =>
      if current =? 0 then true else
      if (capacity <? current) || (capacity <=? visited) then false else
      if current =? entry_index then false else
      scan_chain next capacity entry_index (at_index next (current - 1)) (visited + 1) fuel
  end.

Fixpoint scan_buckets (buckets next : list Z) (capacity entry_index : Z) : bool :=
  match buckets with
  | [] => true
  | current :: buckets =>
      if scan_chain next capacity entry_index current 0 (S (Z.to_nat capacity))
      then scan_buckets buckets next capacity entry_index else false
  end.

Definition sl_arena_hash_index_insert (index : nullable) (hash entry_index : Z)
    : ST SlArenaHashIndex unit :=
  h ← gets id;
  match hx_buckets h, hx_next_indices h with
  | Some buckets, Some next =>
      return_if is_null index || (hx_bucket_count h =? 0) || (entry_index =? 0)
                || (hx_capacity h <? entry_index) with SL_STATUS_INVALID_ARGUMENT ;;
      return_if negb (scan_buckets buckets next (hx_capacity h) entry_index)
        with SL_STATUS_INVALID_STATE ;;
      return_if hx_capacity h <=? hx_count h with SL_STATUS_CAPACITY_EXCEEDED ;;
      let bucket_index := hash mod hx_bucket_count h in
      modify (fun h =>
        {| hx_buckets := Some (<[Z.to_nat bucket_index := entry_index]> buckets);
           hx_next_indices := Some (<[Z.to_nat (entry_index - 1) := at_index buckets bucket_index]> next);
           hx_capacity := hx_capacity h; hx_bucket_count := hx_bucket_count h;
           hx_count := wrap64 (hx_count h + 1) |})
  | _, _ => fail SL_STATUS_INVALID_ARGUMENT
  end.

(** * The index invariant: disjoint chains *)

(** [es] is the chain that starts at entry [e]. *)
Fixpoint chain (next : list Z) (cap e : Z) (es : list Z) : Prop :=
  match es with
  | [] => e = 0
  | x :: es => e = x /\ 1 <= x <= cap /\ chain next cap (at_index next (x - 1)) es
  end.

Record index_wf (h : SlArenaHashIndex) (buckets next : list Z) (chains : list (list Z)) : Prop := {
  iw_buckets : hx_buckets h = Some buckets;
  iw_next : hx_next_indices h = Some next;
  iw_bucket_count : 0 < hx_bucket_count h /\ Z.of_nat (length buckets) = hx_bucket_count h;
  iw_capacity : is_size (hx_capacity h) /\ Z.of_nat (length next) = hx_capacity h;
  iw_chains : Forall2 (chain next (hx_capacity h)) buckets chains;
  iw_nodup : NoDup (concat chains);
  iw_count : hx_count h = Z.of_nat (length (concat chains));
}.

Lemma chain_range next cap e es : chain next cap e es -> Forall (fun x => 1 <= x <= cap) es.
Proof. revert e; induction es as [|x es IH]; intros e H; [constructor|]. destruct H as (-> & ? & ?).
  constructor; eauto. Qed.

(** Distinct entry numbers up to [cap]: at most [cap] of them. *)
Lemma entries_bound cap (es : list Z) :
  0 <= cap -> NoDup es -> Forall (fun x => 1 <= x <= cap) es -> Z.of_nat (length es) <= cap.
Proof.
  intros Hc Hn Hr. assert (length es <= length (seqZ 1 cap))%nat.
  { apply NoDup_incl_length; [by apply NoDup_ListNoDup|]. intros x Hx.
    rewrite Forall_forall in Hr. apply list_elem_of_In, elem_of_seqZ.
    specialize (Hr x (proj2 (list_elem_of_In _ _) Hx)). lia. }
  rewrite length_seqZ in *. lia.
Qed.

Lemma all_in_range next cap buckets chains :
  Forall2 (chain next cap) buckets chains -> Forall (fun x => 1 <= x <= cap) (concat chains).
Proof.
  induction 1; simpl; [constructor|]. apply Forall_app. split; [by eapply chain_range|done].
Qed.

(** The two loops walk exactly the chain. *)
Lemma find_chain_spec equals next cap e es visited fuel :
  chain next cap e es -> 0 <= visited -> visited + Z.of_nat (length es) <= cap ->
  (length es < fuel)%nat ->
  find_chain equals next cap e visited fuel =
  match list_find (fun x => equals x = true) es with
  | Some (_, x) => Ok x
  | None => Err SL_STATUS_OUT_OF_RANGE
  end.
Proof.
  revert e visited fuel; induction es as [|x es IH]; intros e v [|fuel] Hc Hv Hb Hf;
    simpl in Hf; try lia; cbn [find_chain].
  - simpl in Hc. by subst.
  - destruct Hc as (-> & Hr & Hc). destruct (Z.eqb_spec x 0); [lia|].
    destruct (Z.ltb_spec cap x); [lia|]. cbn [length] in Hb.
    destruct (Z.leb_spec cap v); [lia|]. cbn [list_find].
    destruct (equals x) eqn:Eq; simpl; [done|].
    rewrite IH by (done || lia).
    by destruct (list_find (fun y => equals y = true) es) as [[]|].
Qed.

Lemma scan_chain_spec next cap entry e es visited fuel :
  chain next cap e es -> 0 <= visited -> visited + Z.of_nat (length es) <= cap ->
  (length es < fuel)%nat ->
  scan_chain next cap entry e visited fuel = bool_decide (entry ∉ es).
Proof.
  revert e visited fuel; induction es as [|x es IH]; intros e v [|fuel] Hc Hv Hb Hf;
    simpl in Hf; try lia; cbn [scan_chain].
  - simpl in Hc. subst. symmetry. apply bool_decide_eq_true_2. apply not_elem_of_nil.
  - destruct Hc as (-> & Hr & Hc). destruct (Z.eqb_spec x 0); [lia|].
    destruct (Z.ltb_spec cap x); [lia|]. cbn [length] in Hb.
    destruct (Z.leb_spec cap v); [lia|]. cbn [orb].
    destruct (Z.eqb_spec x entry) as [->|].
    + symmetry. apply bool_decide_eq_false_2. intros Hni. apply Hni, list_elem_of_here.
    + rewrite IH by (done || lia). apply bool_decide_ext. rewrite not_elem_of_cons. naive_solver.
Qed.

Lemma scan_buckets_spec next cap entry buckets chains :
  0 <= cap -> Forall2 (chain next cap) buckets chains -> NoDup (concat chains) ->
  scan_buckets buckets next cap entry = bool_decide (entry ∉ concat chains).
Proof.
  intros Hcap. induction 1 as [|e es buckets chains Hc Hcs IH]; intros Hn; cbn [scan_buckets concat].
  - symmetry. apply bool_decide_eq_true_2, not_elem_of_nil.
  - apply NoDup_app in Hn as (Hn1 & Hd & Hn2).
    pose proof (entries_bound cap es Hcap Hn1 (chain_range _ _ _ _ Hc)).
    rewrite (scan_chain_spec _ _ _ _ es) by (done || lia). rewrite IH by done.
    rewrite (bool_decide_ext (entry ∉ es ++ concat chains) _ (not_elem_of_app _ _ _)).
    rewrite bool_decide_and. by destruct (bool_decide (entry ∉ es)).
Qed.

(** Linking a fresh entry leaves every chain as it was. *)
Lemma chain_insert next cap e es fresh v :
  1 <= fresh -> fresh ∉ es -> chain next cap e es ->
  chain (<[Z.to_nat (fresh - 1) := v]> next) cap e es.
Proof.
  intros Hf. revert e; induction es as [|x es IH]; intros e Hn Hc; [done|].
  destruct Hc as (-> & Hr & Hc). apply not_elem_of_cons in Hn as [Hne Hn].
  split_and!; [done|lia..|]. unfold at_index in *. rewrite list_lookup_insert_ne by lia. by apply IH.
Qed.

Lemma chains_insert next cap buckets chains fresh v :
  1 <= fresh -> fresh ∉ concat chains -> Forall2 (chain next cap) buckets chains ->
  Forall2 (chain (<[Z.to_nat (fresh - 1) := v]> next) cap) buckets chains.
Proof.
  intros Hf Hn H. induction H as [|e es bs cs Hc Hcs IH]; [constructor|]. simpl in Hn.
  apply not_elem_of_app in Hn as [? ?]. constructor; [by apply chain_insert|by apply IH].
Qed.

Lemma concat_insert (chains : list (list Z)) b es x :
  chains !! b = Some es -> x :: concat chains ≡ₚ concat (<[b := x :: es]> chains).
Proof.
  revert b; induction chains as [|c chains IH]; intros [|b] E; simplify_eq/=; [done|].
  rewrite Permutation_middle. by rewrite IH.
Qed.

Lemma concat_split (chains : list (list Z)) b es :
  chains !! b = Some es -> exists l1 l2, concat chains = l1 ++ es ++ l2.
Proof.
  intros (l1 & l2 & -> & _)%list_elem_of_split_length. rewrite concat_app. by eexists _, _.
Qed.

Section Theorems.
Variables (h : SlArenaHashIndex) (buckets next : list Z) (chains : list (list Z)) (hash : Z).
Hypothesis Hwf : index_wf h buckets next chains.

Definition bucket_of : nat := Z.to_nat (hash mod hx_bucket_count h).

Lemma bucket_lookup :
  exists e es, buckets !! bucket_of = Some e /\ at_index buckets (hash mod hx_bucket_count h) = e /\
    chains !! bucket_of = Some es /\ chain next (hx_capacity h) e es.
Proof.
  destruct (iw_bucket_count _ _ _ _ Hwf) as [Hb Hl].
  pose proof (Z.mod_pos_bound hash (hx_bucket_count h) Hb).
  destruct (lookup_lt_is_Some_2 buckets bucket_of) as [e He]; [unfold bucket_of; lia|].
  pose proof (iw_chains _ _ _ _ Hwf) as Hc.
  destruct (Forall2_lookup_l _ _ _ _ _ Hc He) as (es & Hes & Hch). exists e, es.
  split_and!; try done. unfold at_index. fold bucket_of. by rewrite He.
Qed.

Lemma chain_length es : chains !! bucket_of = Some es -> Z.of_nat (length es) <= hx_capacity h.
Proof.
  intros Hes. destruct (iw_capacity _ _ _ _ Hwf) as [Hc _]. pose proof (iw_chains _ _ _ _ Hwf) as Hf.
  destruct (Forall2_lookup_r _ _ _ _ _ Hf Hes) as (e & _ & Hch).
  apply entries_bound; [size_lia| |by eapply chain_range].
  pose proof (iw_nodup _ _ _ _ Hwf) as Hn. apply concat_split in Hes as (l1 & l2 & E).
  rewrite E in Hn. apply NoDup_app in Hn as (_ & _ & Hn).
  by apply NoDup_app in Hn as (? & _).
Qed.

Lemma find_spec equals :
  exists es, chains !! bucket_of = Some es /\
  sl_arena_hash_index_find REF h hash (Some equals) REF =
  match list_find (fun x => equals x = true) es with
  | Some (_, x) => Ok x
  | None => Err SL_STATUS_OUT_OF_RANGE
  end.
Proof.
  destruct bucket_lookup as (e & es & He & Hat & Hes & Hch). exists es. split; [done|].
  unfold sl_arena_hash_index_find. rewrite (iw_buckets _ _ _ _ Hwf), (iw_next _ _ _ _ Hwf).
  destruct (iw_bucket_count _ _ _ _ Hwf). destruct (Z.eqb_spec (hx_bucket_count h) 0); [lia|].
  cbn [is_null orb]. rewrite Hat. pose proof (chain_length es Hes).
  apply find_chain_spec; [done|lia|lia|lia].
Qed.

Lemma insert_spec entry :
  1 <= entry <= hx_capacity h ->
  if bool_decide (entry ∈ concat chains)
  then sl_arena_hash_index_insert REF hash entry h = (Err SL_STATUS_INVALID_STATE, h)
  else exists h' buckets' next' es,
    chains !! bucket_of = Some es /\
    sl_arena_hash_index_insert REF hash entry h = (Ok tt, h') /\
    index_wf h' buckets' next' (<[bucket_of := entry :: es]> chains) /\
    hx_bucket_count h' = hx_bucket_count h.
Proof.
  intros He. destruct (iw_bucket_count _ _ _ _ Hwf) as [Hb Hlb].
  destruct (iw_capacity _ _ _ _ Hwf) as [Hc Hln]. pose proof (iw_chains _ _ _ _ Hwf) as Hch.
  pose proof (iw_nodup _ _ _ _ Hwf) as Hn. pose proof (iw_count _ _ _ _ Hwf) as Hcnt.
  unfold sl_arena_hash_index_insert. unfold_st. unfold id.
  rewrite (iw_buckets _ _ _ _ Hwf), (iw_next _ _ _ _ Hwf).
  destruct (Z.eqb_spec (hx_bucket_count h) 0); [lia|]. destruct (Z.eqb_spec entry 0); [lia|].
  destruct (Z.ltb_spec (hx_capacity h) entry); [lia|]. cbn [is_null orb].
  rewrite (scan_buckets_spec _ _ _ _ chains) by (done || size_lia).
  case_bool_decide as Hin.
  { rewrite bool_decide_eq_false_2 by (intros Hx; by apply Hx). done. }
  rewrite bool_decide_eq_true_2 by done. cbn [negb].
  assert (Hroom : hx_count h < hx_capacity h).
  { pose proof (entries_bound (hx_capacity h) (entry :: concat chains)) as Hx. cbn [length] in Hx.
    rewrite Hcnt. rewrite Nat2Z.inj_succ in Hx. apply Z.le_succ_l.
    apply Hx; [size_lia|by constructor|]. constructor; [done|by eapply all_in_range]. }
  destruct (Z.leb_spec (hx_capacity h) (hx_count h)); [lia|].
  destruct bucket_lookup as (e & es & Hbe & Hat & Hes & Hche). rewrite Hat.
  eexists _, _, _, es. split_and!; [done|done| |done]. split; cbn [hx_buckets hx_next_indices
    hx_bucket_count hx_capacity hx_count]; try done.
  - by rewrite length_insert.
  - by rewrite length_insert.
  - apply Forall2_insert; [by apply chains_insert; [lia|..]|].
    split_and!; [done|lia..|]. unfold at_index. rewrite list_lookup_insert_eq by lia. cbn.
    apply chain_insert; [lia| |done]. intros Hx. apply Hin.
    apply concat_split in Hes as (l1 & l2 & ->). rewrite !elem_of_app. auto.
  - rewrite <- (concat_insert chains bucket_of es entry) by done. by constructor.
  - rewrite <- (concat_insert chains bucket_of es entry) by done. cbn [length].
    rewrite wrap64_small; [lia|]. rewrite Hcnt in *. size_lia.
Qed.
End Theorems.

(** On a well-formed index, a lookup returns the first entry of the hash's
    bucket chain that the caller's test accepts and OUT_OF_RANGE when there is
    none, visiting only that chain; an insertion is refused exactly for an entry
    already linked (in any bucket), and otherwise links the entry, keeps every
    chain disjoint and within bounds, and makes it the entry found first under
    its hash.  The corruption exits of the loops are never taken. *)
Theorem hash_index_insert_find h buckets next chains hash equals entry :
  index_wf h buckets next chains -> 1 <= entry <= hx_capacity h ->
  (exists es, chains !! bucket_of h hash = Some es /\
     sl_arena_hash_index_find REF h hash (Some equals) REF =
     match list_find (fun x => equals x = true) es with
     | Some (_, x) => Ok x
     | None => Err SL_STATUS_OUT_OF_RANGE
     end) /\
  match sl_arena_hash_index_insert REF hash entry h with
  | (Ok _, h') =>
      (entry ∉ concat chains) /\
      (exists buckets' next' chains', index_wf h' buckets' next' chains' /\
         entry :: concat chains ≡ₚ concat chains') /\
      (equals entry = true -> sl_arena_hash_index_find REF h' hash (Some equals) REF = Ok entry)
  | (Err c, h') => entry ∈ concat chains /\ c = SL_STATUS_INVALID_STATE /\ h' = h
  end.
Proof.
  intros Hwf He. split; [by eapply find_spec|].
  pose proof (insert_spec h buckets next chains hash Hwf entry He) as Hi.
  case_bool_decide as Hin; [by rewrite Hi|].
  destruct Hi as (h' & b' & n' & es & Hes & -> & Hwf' & Hbc). split_and!; [done| |].
  - eexists b', n', _. split; [done|]. by apply concat_insert.
  - intros Heq. destruct (find_spec h' b' n' _ hash Hwf' equals) as (es' & Hes' & ->).
    unfold bucket_of in *. rewrite Hbc in Hes'.
    rewrite list_lookup_insert_eq in Hes' by (by eapply lookup_lt_Some).
    injection Hes' as <-. cbn [list_find]. by rewrite Heq.
Qed.

Module Demo.
Definition h0 : SlArenaHashIndex :=
  {| hx_buckets := Some [2; 0]; hx_next_indices := Some [0; 1; 0]; hx_capacity := 3;
     hx_bucket_count := 2; hx_count := 2 |}.

(** Entries 2 and 1 in bucket 0; entry 3 goes to bucket 1. *)
Lemma h0_wf : index_wf h0 [2; 0] [0; 1; 0] [[2; 1]; []].
Proof.
  split; cbn.
  - done.
  - done.
  - lia.
  - size_lia.
  - repeat constructor; cbn; lia.
  - repeat constructor; set_solver.
  - done.
Qed.

Lemma hash_index_insert_find_witness :
  match sl_arena_hash_index_insert REF 7 3 h0 with
  | (Ok _, h') => sl_arena_hash_index_find REF h' 7 (Some (fun e => e =? 3)) REF = Ok 3
  | _ => False
  end.
Proof.
  destruct (hash_index_insert_find h0 _ _ _ 7 (fun e => e =? 3) 3 h0_wf) as [_ H]; [cbn; lia|].
  destruct (sl_arena_hash_index_insert REF 7 3 h0) as [[[]|c] h'] eqn:E.
  - apply H. reflexivity.
  - vm_compute in E. discriminate E.
Defined.
End Demo.
