(* ===== verification/Queue.v ===== *)
(** Typed queues and stacks: the interface between the byte containers and the
    components that keep structs in them (the loop, the scopes).

    [Layout] states how a C struct is laid out in an element slot; [QueueOps] and
    [StackOps] are the operations the clients call, with the laws they rely on.
    The instances run the byte-level ring queue and vector of Container.v through
    a local struct variable of the caller, as the C code does. *)

From S2P Require Import Prelude Memory Container.

(** * Struct layout *)

Class Layout (A : Type) := {
  layout_size : Z;
  encode : A -> list Z;
  decode : list Z -> A;
  layout_ok : A -> Prop;  (* the fields are in range *)
}.

Class LayoutLaws (A : Type) `{Layout A} := {
  layout_size_pos : 0 < layout_size;
  encode_length : forall a : A, Z.of_nat (length (encode a)) = layout_size;
  encode_bytes : forall a : A, Forall is_byte (encode a);
  decode_encode : forall a : A, layout_ok a -> decode (encode a) = a;
}.

(** A little-endian field of [n] bytes. *)
Fixpoint le_bytes (n : nat) (v : Z) : list Z :=
  match n with
  | O => []
  | S n => v mod 256 :: le_bytes n (v / 256)
  end.

Fixpoint le_int (bs : list Z) : Z :=
  match bs with
  | [] => 0
  | b :: bs => b + 256 * le_int bs
  end.

Lemma le_bytes_length n v : length (le_bytes n v) = n.
Proof. revert v; induction n; intros; simpl; auto. Qed.

Lemma le_bytes_bytes n v : Forall is_byte (le_bytes n v).
Proof.
  revert v; induction n; intros v; simpl; constructor; auto.
  unfold is_byte. apply Z.mod_pos_bound. lia.
Qed.

Lemma le_int_bytes n v : 0 <= v < 256 ^ Z.of_nat n -> le_int (le_bytes n v) = v.
Proof.
  revert v; induction n as [|n IH]; intros v Hv; [simpl in *; lia|].
  rewrite Nat2Z.inj_succ, Z.pow_succ_r in Hv by lia. cbn [le_bytes le_int].
  rewrite IH; [pose proof (Z.div_mod v 256); lia|].
  split; [apply Z.div_pos; lia|apply Z.div_lt_upper_bound; lia].
Qed.

(** * Interfaces *)

Class QueueOps (Q A : Type) := {
  q_contents : Q -> list A;
  q_capacity : Q -> Z;
  q_inv : Q -> Prop;
  q_elem_ok : A -> Prop;
  q_push : A -> ST Q unit;
  q_pop_front : Q -> option A * Q;
  q_is_empty : Q -> bool;
  q_clear : Q -> Q;
}.

Class QueueLaws (Q A : Type) `{QueueOps Q A} := {
  q_push_law : forall (a : A) (q : Q), q_inv q -> q_elem_ok a ->
    match q_push a q with
    | (Ok _, q') => q_inv q' /\ q_capacity q' = q_capacity q /\
                    q_contents q' = q_contents q ++ [a] /\
                    Z.of_nat (length (q_contents q)) < q_capacity q
    | (Err c, q') => q_inv q' /\ q_capacity q' = q_capacity q /\ q_contents q' = q_contents q /\
                     c = SL_STATUS_CAPACITY_EXCEEDED /\
                     Z.of_nat (length (q_contents q)) = q_capacity q
    end;
  q_pop_law : forall q : Q, q_inv q ->
    match q_pop_front q with
    | (Some a, q') => q_inv q' /\ q_capacity q' = q_capacity q /\ q_contents q = a :: q_contents q'
    | (None, q') => q' = q /\ q_contents q = []
    end;
  q_empty_law : forall q : Q, q_inv q -> q_is_empty q = true <-> q_contents q = [];
  q_clear_law : forall q : Q, q_inv q ->
    q_inv (q_clear q) /\ q_capacity (q_clear q) = q_capacity q /\ q_contents (q_clear q) = [];
}.

Class StackOps (K A : Type) := {
  k_contents : K -> list A;
  k_inv : K -> Prop;
  k_elem_ok : A -> Prop;
  k_push : A -> ST K unit;
  k_pop : K -> option A * K;
  k_clear : K -> K;
}.

Class StackLaws (K A : Type) `{StackOps K A} := {
  k_push_law : forall (a : A) (k : K), k_inv k -> k_elem_ok a ->
    match k_push a k with
    | (Ok _, k') => k_inv k' /\ k_contents k' = k_contents k ++ [a]
    | (Err c, k') => c = SL_STATUS_CAPACITY_EXCEEDED /\ k_inv k' /\ k_contents k' = k_contents k
    end;
  k_pop_law : forall k : K, k_inv k ->
    match k_pop k with
    | (Some a, k') => k_inv k' /\ k_contents k = k_contents k' ++ [a]
    | (None, k') => k' = k /\ k_contents k = []
    end;
  k_clear_law : forall k : K, k_inv k -> k_inv (k_clear k) /\ k_contents (k_clear k) = [];
}.

(** * The ring queue as a queue of structs *)

(** [trq_local] is the address of the caller's struct variable. *)
Record TypedRing := { trq_sys : QueueSys; trq_local : Z }.

Section Ring.
Context `{LayoutLaws A}.

Definition write_local (m : mem) (local : Z) (a : A) : mem := store m local (encode a).

Definition ring_push (a : A) : ST TypedRing unit := fun r =>
  let s := trq_sys r in
  let s := {| qs_mem := write_local (qs_mem s) (trq_local r) a; qs_queue := qs_queue s |} in
  match sl_ring_queue_push REF (trq_local r) s with
  | (Ok _, s') => (Ok tt, {| trq_sys := s'; trq_local := trq_local r |})
  | (Err c, s') => (Err c, {| trq_sys := s'; trq_local := trq_local r |})
  end.

Definition ring_pop (r : TypedRing) : option A * TypedRing :=
  match sl_ring_queue_pop_front REF (trq_local r) (trq_sys r) with
  | (true, s') => (Some (decode (load_bytes (qs_mem s') (trq_local r) layout_size)),
                   {| trq_sys := s'; trq_local := trq_local r |})
  | (false, s') => (None, {| trq_sys := s'; trq_local := trq_local r |})
  end.

Definition ring_inv (r : TypedRing) : Prop :=
  queue_wf (qs_queue (trq_sys r)) /\ rq_elem_size (qs_queue (trq_sys r)) = layout_size /\
  item_buffer (qs_queue (trq_sys r)) (trq_local r).

#[export] Instance ring_ops : QueueOps TypedRing A := {
  q_contents r := map decode (queue_contents (trq_sys r));
  q_capacity r := rq_capacity (qs_queue (trq_sys r));
  q_inv := ring_inv;
  q_elem_ok := layout_ok;
  q_push := ring_push;
  q_pop_front := ring_pop;
  q_is_empty r := sl_ring_queue_is_empty REF (qs_queue (trq_sys r));
  q_clear r := {| trq_sys := sl_ring_queue_clear REF (trq_sys r); trq_local := trq_local r |};
}.

Lemma kept_inv r s' :
  ring_inv r -> queue_kept (qs_queue (trq_sys r)) (qs_queue s') ->
  ring_inv {| trq_sys := s'; trq_local := trq_local r |}.
Proof.
  intros (Hw & He & Hb) (Hw' & E1 & E2 & E3). unfold ring_inv, item_buffer in *. cbn.
  rewrite E1, E2, E3. done.
Qed.

(** The local struct variable holds the encoding of [a], and the queue is as before. *)
Lemma local_written r a :
  ring_inv r ->
  let q := qs_queue (trq_sys r) in
  let m' := write_local (qs_mem (trq_sys r)) (trq_local r) a in
  load_bytes m' (trq_local r) layout_size = encode a /\
  queue_contents {| qs_mem := m'; qs_queue := q |} = queue_contents (trq_sys r).
Proof.
  intros (Hw & He & _ & Hd). cbv zeta. unfold write_local. pose proof (encode_length a) as Hl. split.
  - unfold load_bytes. rewrite <- Hl, Nat2Z.id. apply load_store, encode_bytes.
  - destruct (trq_sys r) as [m q]. cbn [qs_mem qs_queue] in *.
    apply (contents_outside _ _ _ (trq_local r) layout_size); [done| |by rewrite He in Hd |- *].
    rewrite <- Hl. apply store_same_outside.
Qed.

#[export] Instance ring_laws : QueueLaws TypedRing A.
Proof.
  split.
  - intros a r Hi Hok. destruct (local_written r a Hi) as [Hl Hc]. pose proof Hi as (Hw & He & Hb).
    cbn [q_push ring_ops]. unfold ring_push.
    pose proof (queue_push_spec {| qs_mem := write_local (qs_mem (trq_sys r)) (trq_local r) a;
                                   qs_queue := qs_queue (trq_sys r) |} (trq_local r) Hw Hb) as Hp.
    cbn [qs_queue qs_mem] in Hp. rewrite Hc, He, Hl in Hp.
    destruct (sl_ring_queue_push _ _ _) as [[[]|c] s']; cbn.
    + destruct Hp as (Hr & Hk & Hq). pose proof Hk as (_ & _ & _ & E3). split_and!.
      * by eapply kept_inv.
      * done.
      * rewrite Hq, map_app. cbn. by rewrite decode_encode.
      * rewrite length_map, queue_length by done. done.
    + destruct Hp as (Hr & -> & ->). cbn. rewrite Hc, length_map, queue_length by done.
      split_and!; done.
  - intros r Hi. pose proof Hi as (Hw & He & Hb). cbn [q_pop_front ring_ops]. unfold ring_pop.
    pose proof (queue_pop_front_spec (trq_sys r) (trq_local r) Hw Hb) as Hp. cbv zeta in Hp.
    destruct (sl_ring_queue_pop_front _ _ _) as [[] s'].
    + destruct Hp as (Hk & Hq). pose proof Hk as (_ & _ & _ & E3). rewrite He in Hq. split_and!.
      * by eapply kept_inv.
      * done.
      * cbn. by rewrite Hq.
    + destruct Hp as (Hq & ->). split; [by destruct r|]. cbn. by rewrite Hq.
  - intros r (Hw & _ & _). cbn. unfold sl_ring_queue_is_empty. cbn [is_null orb].
    rewrite Z.eqb_eq, <- queue_empty_count by done. split; [by intros ->|apply map_eq_nil].
  - intros r Hi. pose proof Hi as (Hw & He & Hb).
    destruct (queue_clear_spec (trq_sys r) Hw) as [Hk Hq]. pose proof Hk as (_ & _ & _ & E3).
    split_and!; [by apply (kept_inv r)|done|].
    change (map decode (queue_contents (sl_ring_queue_clear REF (trq_sys r))) = []). by rewrite Hq.
Qed.
End Ring.

(** * The fixed vector as a stack of structs *)

Record TypedVec := { tv_sys : VecSys; tv_local : Z }.

Section Vec.
Context `{LayoutLaws A}.

Definition vec_push (a : A) : ST TypedVec unit := fun r =>
  let s := tv_sys r in
  let s := {| vs_mem := write_local (vs_mem s) (tv_local r) a; vs_vec := vs_vec s |} in
  match sl_fixed_vec_push REF (tv_local r) s with
  | (Ok _, s') => (Ok tt, {| tv_sys := s'; tv_local := tv_local r |})
  | (Err c, s') => (Err c, {| tv_sys := s'; tv_local := tv_local r |})
  end.

Definition vec_pop (r : TypedVec) : option A * TypedVec :=
  match sl_fixed_vec_pop REF (tv_local r) (tv_sys r) with
  | (true, s') => (Some (decode (load_bytes (vs_mem s') (tv_local r) layout_size)),
                   {| tv_sys := s'; tv_local := tv_local r |})
  | (false, s') => (None, {| tv_sys := s'; tv_local := tv_local r |})
  end.

Definition vec_inv (r : TypedVec) : Prop :=
  vec_wf (vs_vec (tv_sys r)) /\ vec_elem_size (vs_vec (tv_sys r)) = layout_size /\
  vec_buffer (vs_vec (tv_sys r)) (tv_local r).

#[export] Instance vec_ops : StackOps TypedVec A := {
  k_contents r := map decode (vec_contents (tv_sys r));
  k_inv := vec_inv;
  k_elem_ok := layout_ok;
  k_push := vec_push;
  k_pop := vec_pop;
  k_clear r := {| tv_sys := sl_fixed_vec_clear REF (tv_sys r); tv_local := tv_local r |};
}.

Lemma vec_inv_count r s' n :
  vec_inv r -> vec_wf (vs_vec s') -> vs_vec s' = with_count n (vs_vec (tv_sys r)) ->
  vec_inv {| tv_sys := s'; tv_local := tv_local r |}.
Proof.
  intros (_ & He & Hb) Hw E. unfold vec_inv, vec_buffer in *. cbn. split; [done|]. by rewrite E.
Qed.

Lemma vec_local_written r a :
  vec_inv r ->
  let v := vs_vec (tv_sys r) in
  let m' := write_local (vs_mem (tv_sys r)) (tv_local r) a in
  load_bytes m' (tv_local r) layout_size = encode a /\
  vec_contents {| vs_mem := m'; vs_vec := v |} = vec_contents (tv_sys r).
Proof.
  intros (Hw & He & _ & Hd). cbv zeta. unfold write_local. pose proof (encode_length a) as Hl. split.
  - unfold load_bytes. rewrite <- Hl, Nat2Z.id. apply load_store, encode_bytes.
  - unfold vec_contents. cbn [vs_mem vs_vec]. pose proof (vw_count _ Hw).
    pose proof (vw_storage _ Hw) as (? & _). apply cells_ext. intros k Hk.
    eapply (cell_outside _ _ _ _ (vec_capacity (vs_vec (tv_sys r))) k (tv_local r) layout_size);
      [lia|lia| |by rewrite He in Hd |- *].
    rewrite <- Hl. apply store_same_outside.
Qed.

#[export] Instance vec_laws : StackLaws TypedVec A.
Proof.
  split.
  - intros a r Hi Hok. destruct (vec_local_written r a Hi) as [Hl Hc]. pose proof Hi as (Hw & He & Hb).
    cbn [k_push vec_ops]. unfold vec_push.
    pose proof (vec_push_spec {| vs_mem := write_local (vs_mem (tv_sys r)) (tv_local r) a;
                                 vs_vec := vs_vec (tv_sys r) |} (tv_local r) Hw Hb) as Hp.
    cbn [vs_vec vs_mem] in Hp. rewrite Hc, He, Hl in Hp.
    destruct (sl_fixed_vec_push _ _ _) as [[slot|c] s']; cbn.
    + destruct Hp as (Hw' & Hq & _ & Hv). split.
      * by eapply vec_inv_count.
      * rewrite Hq, map_app. cbn. by rewrite decode_encode.
    + destruct Hp as (_ & -> & ->). cbn. by rewrite Hc.
  - intros r Hi. pose proof Hi as (Hw & He & Hb). cbn [k_pop vec_ops]. unfold vec_pop.
    pose proof (vec_pop_spec (tv_sys r) (tv_local r) Hw Hb) as Hp. cbv zeta in Hp.
    destruct (sl_fixed_vec_pop _ _ _) as [[] s'].
    + destruct Hp as (Hw' & Hq & Hv). rewrite He in Hq. split.
      * by eapply vec_inv_count.
      * cbn. by rewrite Hq, map_app.
    + destruct Hp as (Hq & ->). split; [by destruct r|]. cbn. by rewrite Hq.
  - intros r (Hw & He & Hb). cbn. split; [|done]. unfold vec_inv. cbn. split_and!; try done.
    destruct Hw as [? ?]. split; cbn; [done|lia].
Qed.
End Vec.
