(* ===== verification/Loop.v ===== *)
(** The completion loop, cancellation tokens and async settlement
    (src/core/loop.c, src/core/cancellation.c, src/core/async.c).

    The loop is written against the queue interface; the ring queue of structs
    discharges it.  Callbacks are arbitrary C code: [call] is a parameter, and
    what a callback does to the loop is a sequence of the loop's own operations. *)

From S2P Require Import Prelude Memory Str Container Queue.

Inductive SlCompletionKind :=
| SL_COMPLETION_KIND_NONE
| SL_COMPLETION_KIND_TEST
| SL_COMPLETION_KIND_USER
| SL_COMPLETION_KIND_ASYNC.

#[export] Instance SlCompletionKind_eq_dec : EqDecision SlCompletionKind.
Proof. solve_decision. Defined.

(** Function and object pointers are addresses. *)
Record SlCompletion := {
  c_kind : SlCompletionKind; c_fn : Z; c_payload : Z; c_user : Z
}.

Record SlLoop (Q : Type) := { lp_queue : Q; lp_stopped : bool; lp_draining : bool }.
Arguments lp_queue {Q} _.
Arguments lp_stopped {Q} _.
Arguments lp_draining {Q} _.
Arguments Build_SlLoop {Q} _ _ _.

(** The loop inside the rest of the program's state. *)
Record LoopSys (Q E : Type) := { ls_loop : SlLoop Q; ls_env : E }.
Arguments ls_loop {Q E} _.
Arguments ls_env {Q E} _.
Arguments Build_LoopSys {Q E} _ _.

Definition set_loop {Q E} (l : SlLoop Q) (s : LoopSys Q E) : LoopSys Q E := Build_LoopSys l (ls_env s).
Definition with_queue {Q} (q : Q) (l : SlLoop Q) : SlLoop Q :=
  Build_SlLoop q (lp_stopped l) (lp_draining l).
Definition with_draining {Q} (d : bool) (l : SlLoop Q) : SlLoop Q :=
  Build_SlLoop (lp_queue l) (lp_stopped l) d.

(** * The struct layout of a completion: 32 bytes *)

Definition kind_code (k : SlCompletionKind) : Z :=
  match k with
  | SL_COMPLETION_KIND_NONE => 0
  | SL_COMPLETION_KIND_TEST => 1
  | SL_COMPLETION_KIND_USER => 2
  | SL_COMPLETION_KIND_ASYNC => 3
  end.

Definition kind_of_code (z : Z) : SlCompletionKind :=
  if z =? 1 then SL_COMPLETION_KIND_TEST else
  if z =? 2 then SL_COMPLETION_KIND_USER else
  if z =? 3 then SL_COMPLETION_KIND_ASYNC else SL_COMPLETION_KIND_NONE.

#[export] Instance completion_layout : Layout SlCompletion := {
  layout_size := 32;
  encode c := le_bytes 8 (kind_code (c_kind c)) ++ le_bytes 8 (c_fn c) ++ le_bytes 8 (c_payload c)
              ++ le_bytes 8 (c_user c);
  decode bs := {| c_kind := kind_of_code (le_int (take 8 bs)); c_fn := le_int (take 8 (drop 8 bs));
                  c_payload := le_int (take 8 (drop 16 bs)); c_user := le_int (drop 24 bs) |};
  layout_ok c := is_size (c_fn c) /\ is_size (c_payload c) /\ is_size (c_user c);
}.

#[export] Instance completion_layout_laws : LayoutLaws SlCompletion.
Proof.
  split.
  - done.
  - intros c. cbn [encode completion_layout layout_size]. by rewrite !length_app, !le_bytes_length.
  - intros c. cbn [encode completion_layout]. rewrite !Forall_app. split_and!; apply le_bytes_bytes.
  - intros [k f p u] (Hf & Hp & Hu). cbn [encode decode completion_layout c_fn c_payload c_user c_kind] in *.
    assert (Hb : forall v, is_size v -> le_int (le_bytes 8 v) = v).
    { intros v Hv. apply le_int_bytes. change (256 ^ Z.of_nat 8) with (2 ^ 64). size_lia. }
    assert (Hk : le_int (le_bytes 8 (kind_code k)) = kind_code k) by (apply Hb; destruct k; cbn; size_lia).
    rewrite take_app_length' by (by rewrite le_bytes_length).
    rewrite (drop_app_length' _ _ 8) by (by rewrite le_bytes_length).
    rewrite take_app_length' by (by rewrite le_bytes_length).
    replace (drop 16 _) with (le_bytes 8 p ++ le_bytes 8 u).
    2: { rewrite app_assoc. by rewrite (drop_app_length' _ _ 16)
           by (by rewrite length_app, !le_bytes_length). }
    rewrite take_app_length' by (by rewrite le_bytes_length).
    replace (drop 24 _) with (le_bytes 8 u).
    2: { rewrite !app_assoc. by rewrite (drop_app_length' _ _ 24)
           by (by rewrite !length_app, !le_bytes_length). }
    rewrite Hk, !Hb by done. by destruct k.
Qed.

(** * Operations *)

Section Operations.
Context {Q : Type} `{QueueOps Q SlCompletion} {E : Type}.
Abbreviation Sys := (LoopSys Q E).

Definition sl_loop_reset (loop : nullable) (s : Sys) : Sys :=
  if is_null loop then s else
  let l := ls_loop s in
  set_loop (Build_SlLoop (q_clear (lp_queue l)) false (lp_draining l)) s.

Definition sl_loop_post (loop : nullable) (kind : SlCompletionKind) (fn payload user : Z)
    : ST Sys unit :=
  return_if is_null loop || (fn =? 0) with SL_STATUS_INVALID_ARGUMENT ;;
  l ← gets ls_loop;
  return_if lp_stopped l with SL_STATUS_INVALID_STATE ;;
  zoom (fun s => lp_queue (ls_loop s)) (fun q s => set_loop (with_queue q (ls_loop s)) s)
    (q_push {| c_kind := kind; c_fn := fn; c_payload := payload; c_user := user |}).

(** The queue operation of [run_once], before the callback. *)
Definition take_completion (s : Sys) : option SlCompletion * Sys :=
  let '(c, q) := q_pop_front (lp_queue (ls_loop s)) in
  (c, set_loop (with_queue q (ls_loop s)) s).

Section Callbacks.
Variable call : SlCompletion -> Sys -> SlStatusCode * Sys.

(** Returns the status, [*out_ran], and the state. *)
Definition sl_loop_run_once (loop : nullable) (s : Sys) : SlStatusCode * Z * Sys :=
  if is_null loop then (SL_STATUS_INVALID_ARGUMENT, 0, s) else
  if lp_stopped (ls_loop s) || q_is_empty (lp_queue (ls_loop s)) then (SL_STATUS_OK, 0, s) else
  match take_completion s with
  | (None, s) => (SL_STATUS_INTERNAL, 0, s)
  | (Some c, s) => let '(status, s) := call c s in (status, 1, s)
  end.

(** The [while] of [drain]; [None] when [fuel] iterations are not enough. *)
Fixpoint drain_loop (fuel : nat) (ran : Z) (s : Sys) : option (SlStatusCode * Z * Sys) :=
  if lp_stopped (ls_loop s) || q_is_empty (lp_queue (ls_loop s)) then Some (SL_STATUS_OK, ran, s) else
  match fuel with
  | O => None
  | S fuel =>
      let '(status, step_ran, s) := sl_loop_run_once REF s in
      if decide (status = SL_STATUS_OK) then drain_loop fuel (ran + step_ran) s
      else Some (status, ran + step_ran, s)
  end.

Definition sl_loop_drain (fuel : nat) (loop : nullable) (s : Sys)
    : option (SlStatusCode * Z * Sys) :=
  if is_null loop then Some (SL_STATUS_INVALID_ARGUMENT, 0, s) else
  if lp_draining (ls_loop s) then Some (SL_STATUS_INVALID_STATE, 0, s) else
  let s := set_loop (with_draining true (ls_loop s)) s in
  '(status, ran, s) ← drain_loop fuel 0 s;
  Some (status, ran, set_loop (with_draining false (ls_loop s)) s).
End Callbacks.

Definition sl_loop_stop (loop : nullable) (s : Sys) : Sys :=
  if is_null loop then s else
  set_loop (Build_SlLoop (lp_queue (ls_loop s)) true (lp_draining (ls_loop s))) s.

Definition sl_loop_is_stopped (loop : nullable) (s : Sys) : bool :=
  negb (is_null loop) && lp_stopped (ls_loop s).
End Operations.

(** [sl_loop_init] builds the ring queue over the caller's completions. *)
Definition sl_loop_init {E} (loop : nullable) (storage capacity : Z)
    : ST (LoopSys TypedRing E) unit :=
  return_if is_null loop with SL_STATUS_INVALID_ARGUMENT ;;
  return_if (storage =? 0) && negb (capacity =? 0) with SL_STATUS_INVALID_ARGUMENT ;;
  zoom (fun s => trq_sys (lp_queue (ls_loop s)))
       (fun q s => set_loop (with_queue {| trq_sys := q; trq_local := trq_local (lp_queue (ls_loop s)) |}
                               (ls_loop s)) s)
       (sl_ring_queue_init REF storage 32 capacity);;
  modify (fun s => set_loop (Build_SlLoop (lp_queue (ls_loop s)) false false) s).

Definition sl_loop_pending_count {E} (loop : nullable) (s : LoopSys TypedRing E) : Z :=
  sl_ring_queue_count loop (qs_queue (trq_sys (lp_queue (ls_loop s)))).

Definition sl_loop_capacity {E} (loop : nullable) (s : LoopSys TypedRing E) : Z :=
  sl_ring_queue_capacity loop (qs_queue (trq_sys (lp_queue (ls_loop s)))).

(** * Traces of loop operations *)

Inductive loop_label :=
| LPost (c : SlCompletion)
| LTake (c : SlCompletion)
| LReset
| LOther.

#[export] Instance SlCompletion_eq_dec : EqDecision SlCompletion.
Proof. solve_decision. Defined.
#[export] Instance loop_label_eq_dec : EqDecision loop_label.
Proof. solve_decision. Defined.

Section Traces.
Context {Q : Type} `{QueueLaws Q SlCompletion} {E : Type}.
Abbreviation Sys := (LoopSys Q E).

Inductive loop_step : Sys -> loop_label -> Sys -> Prop :=
| step_post kind fn payload user s s' :
    q_elem_ok {| c_kind := kind; c_fn := fn; c_payload := payload; c_user := user |} ->
    sl_loop_post REF kind fn payload user s = (Ok tt, s') ->
    loop_step s (LPost {| c_kind := kind; c_fn := fn; c_payload := payload; c_user := user |}) s'
| step_post_refused loop kind fn payload user c s s' :
    q_elem_ok {| c_kind := kind; c_fn := fn; c_payload := payload; c_user := user |} ->
    sl_loop_post loop kind fn payload user s = (Err c, s') -> loop_step s LOther s'
| step_take c s s' :
    lp_stopped (ls_loop s) = false -> take_completion s = (Some c, s') -> loop_step s (LTake c) s'
| step_reset s : loop_step s LReset (sl_loop_reset REF s)
| step_stop s : loop_step s LOther (sl_loop_stop REF s)
| step_draining d s : loop_step s LOther (set_loop (with_draining d (ls_loop s)) s)
| step_env e s : loop_step s LOther (Build_LoopSys (ls_loop s) e).

Inductive loop_trace : Sys -> list loop_label -> Sys -> Prop :=
| trace_nil s : loop_trace s [] s
| trace_cons s l s1 tr s2 : loop_step s l s1 -> loop_trace s1 tr s2 -> loop_trace s (l :: tr) s2.

(** What a trace posted, and what it took to run, in order. *)
Definition posts (tr : list loop_label) : list SlCompletion :=
  omap (fun l => match l with LPost c => Some c | _ => None end) tr.
Definition takes (tr : list loop_label) : list SlCompletion :=
  omap (fun l => match l with LTake c => Some c | _ => None end) tr.

Definition pending (s : Sys) : list SlCompletion := q_contents (lp_queue (ls_loop s)).
Definition loop_inv (s : Sys) : Prop := q_inv (lp_queue (ls_loop s)).

Lemma post_cases loop kind fn payload user s :
  loop_inv s ->
  let c := {| c_kind := kind; c_fn := fn; c_payload := payload; c_user := user |} in
  q_elem_ok c ->
  match sl_loop_post loop kind fn payload user s with
  | (Ok _, s') => loop_inv s' /\ pending s' = pending s ++ [c] /\ ls_env s' = ls_env s /\
                  lp_stopped (ls_loop s) = false /\ fn <> 0 /\
                  lp_stopped (ls_loop s') = false /\
                  lp_draining (ls_loop s') = lp_draining (ls_loop s)
  | (Err _, s') => loop_inv s' /\ pending s' = pending s /\ ls_env s' = ls_env s /\
                   lp_stopped (ls_loop s') = lp_stopped (ls_loop s) /\
                   lp_draining (ls_loop s') = lp_draining (ls_loop s)
  end.
Proof.
  intros Hi c Hok. unfold sl_loop_post, zoom. unfold_st.
  destruct (is_null loop) eqn:En; cbn [orb]; [done|].
  destruct (Z.eqb_spec fn 0); [done|]. destruct (lp_stopped (ls_loop s)) eqn:Es; [done|].
  fold c. pose proof (q_push_law c (lp_queue (ls_loop s)) Hi Hok) as Hp.
  destruct (q_push c (lp_queue (ls_loop s))) as [[[]|e] q']; cbn; unfold loop_inv, pending; cbn.
  - destruct Hp as (? & ? & ? & ?). by split_and!.
  - destruct Hp as (? & ? & ? & ? & ?). by split_and!.
Qed.

(** A post is refused only by a loop that is stopped or full. *)
Lemma post_room kind fn payload user s :
  loop_inv s -> q_elem_ok {| c_kind := kind; c_fn := fn; c_payload := payload; c_user := user |} -> fn <> 0 ->
  lp_stopped (ls_loop s) = false ->
  match sl_loop_post REF kind fn payload user s with
  | (Ok _, _) => True
  | (Err _, _) => Z.of_nat (length (pending s)) = q_capacity (lp_queue (ls_loop s))
  end.
Proof.
  intros Hi Hok Hfn Hs. unfold sl_loop_post, zoom. unfold_st. cbn [is_null orb].
  destruct (Z.eqb_spec fn 0); [done|]. rewrite Hs. pose proof (q_push_law _ (lp_queue (ls_loop s)) Hi Hok) as Hp.
  destruct (q_push _ (lp_queue (ls_loop s))) as [[[]|e] q']; [done|]. by destruct Hp as (_ & _ & _ & _ & ?).
Qed.

Lemma take_cases s :
  loop_inv s ->
  match take_completion s with
  | (Some c, s') => loop_inv s' /\ pending s = c :: pending s' /\ ls_env s' = ls_env s
  | (None, s') => pending s = []
  end.
Proof.
  intros Hi. unfold take_completion. pose proof (q_pop_law (lp_queue (ls_loop s)) Hi) as Hp.
  destruct (q_pop_front (lp_queue (ls_loop s))) as [[c|] q']; unfold loop_inv, pending; cbn.
  - by destruct Hp as (? & ? & ?).
  - by destruct Hp as [_ ?].
Qed.

(** One step: the queue receives at its end and gives from its front. *)
Lemma loop_step_fifo s l s' :
  loop_step s l s' -> loop_inv s -> l <> LReset ->
  loop_inv s' /\ takes [l] ++ pending s' = pending s ++ posts [l].
Proof.
  destruct 1 as [kind fn p u s s' Hok E1|loop kind fn p u c s s' Hok E1|c s s' Es E1|s|s|d s|e s];
    intros Hi Hr; cbn -[pending].
  - pose proof (post_cases REF kind fn p u s Hi Hok) as Hp. rewrite E1 in Hp.
    by destruct Hp as (? & ? & _).
  - pose proof (post_cases loop kind fn p u s Hi Hok) as Hp. rewrite E1 in Hp.
    destruct Hp as (? & ? & _). by rewrite app_nil_r.
  - pose proof (take_cases s Hi) as Ht. rewrite E1 in Ht. destruct Ht as (? & ? & _).
    by rewrite app_nil_r.
  - done.
  - split; [done|]. by rewrite app_nil_r.
  - split; [done|]. by rewrite app_nil_r.
  - split; [done|]. by rewrite app_nil_r.
Qed.

Lemma loop_trace_fifo s tr s' :
  loop_trace s tr s' -> loop_inv s -> LReset ∉ tr ->
  loop_inv s' /\ takes tr ++ pending s' = pending s ++ posts tr.
Proof.
  induction 1 as [s|s l s1 tr s2 Hs Ht IH]; intros Hi Hr; [by rewrite app_nil_r|].
  apply not_elem_of_cons in Hr as [Hl Hr].
  destruct (loop_step_fifo s l s1 Hs Hi ltac:(done)) as [Hi1 E1].
  destruct (IH Hi1 Hr) as [Hi2 E2]. split; [done|].
  change (l :: tr) with ([l] ++ tr). unfold takes, posts in *. rewrite !omap_app.
  rewrite <- !app_assoc, E2, !app_assoc, E1. done.
Qed.

Lemma loop_step_inv s l s' : loop_step s l s' -> loop_inv s -> loop_inv s'.
Proof.
  intros Hs Hi. destruct (decide (l = LReset)) as [->|Hl]; [|by eapply loop_step_fifo].
  inv Hs. by apply q_clear_law.
Qed.

Lemma loop_trace_inv s tr s' : loop_trace s tr s' -> loop_inv s -> loop_inv s'.
Proof. induction 1; eauto using loop_step_inv. Qed.

Lemma loop_trace_app s1 tr1 s2 tr2 s3 :
  loop_trace s1 tr1 s2 -> loop_trace s2 tr2 s3 -> loop_trace s1 (tr1 ++ tr2) s3.
Proof. induction 1; intros; simpl; [done|]. econstructor; eauto. Qed.

(** * Draining *)

Variable call : SlCompletion -> Sys -> SlStatusCode * Sys.

(** A callback acts on the loop through the loop's operations only. *)
Hypothesis call_uses_loop_api : forall c s, exists tr, loop_trace s tr (snd (call c s)).

Lemma run_once_trace s :
  loop_inv s ->
  let '(status, ran, s') := sl_loop_run_once call REF s in
  exists tr, loop_trace s tr s' /\ 0 <= ran <= 1 /\ ran <= Z.of_nat (length (takes tr)).
Proof.
  intros Hi. unfold sl_loop_run_once. cbn [is_null].
  destruct (lp_stopped (ls_loop s)) eqn:Es; cbn [orb].
  { exists []. split_and!; try done. constructor. }
  destruct (q_is_empty (lp_queue (ls_loop s))) eqn:Ee.
  { exists []. split_and!; try done. constructor. }
  pose proof (take_cases s Hi) as Ht. destruct (take_completion s) as [[c|] s1] eqn:Et.
  - destruct Ht as (Hi1 & Hp & _). destruct (call_uses_loop_api c s1) as [tr Htr].
    destruct (call c s1) as [st s2]. exists (LTake c :: tr).
    split_and!; [|lia|lia|cbn; lia]. econstructor; [by apply step_take|done].
  - exfalso. apply (q_empty_law (lp_queue (ls_loop s)) Hi) in Ht. congruence.
Qed.

Lemma drain_loop_trace fuel ran s status ran' s' :
  loop_inv s -> 0 <= ran -> drain_loop call fuel ran s = Some (status, ran', s') ->
  exists tr, loop_trace s tr s' /\ ran <= ran' <= ran + Z.of_nat (length (takes tr)) /\
    (status = SL_STATUS_OK -> lp_stopped (ls_loop s') = true \/ pending s' = []).
Proof.
  revert ran s; induction fuel as [|fuel IH]; intros ran s Hi Hr; cbn [drain_loop].
  - destruct (_ || _) eqn:Eg; [|done]. intros [= <- <- <-]. exists [].
    split_and!; [constructor|lia|cbn; lia|]. intros _.
    apply orb_true_iff in Eg as [?|Eg]; [by left|right]. by apply q_empty_law.
  - destruct (_ || _) eqn:Eg.
    { intros [= <- <- <-]. exists []. split_and!; [constructor|lia|cbn; lia|]. intros _.
      apply orb_true_iff in Eg as [?|Eg]; [by left|right]. by apply q_empty_law. }
    pose proof (run_once_trace s Hi) as Ho.
    destruct (sl_loop_run_once call REF s) as [[st k] s1]. destruct Ho as (tr & Htr & Hk & Hlen).
    destruct (decide (st = SL_STATUS_OK)) as [->|Hne].
    + intros E1. apply IH in E1 as (tr2 & Htr2 & Hb & Hst); [|by eapply loop_trace_inv|lia].
      exists (tr ++ tr2). unfold takes in *. rewrite omap_app, length_app.
      split_and!; [by eapply loop_trace_app|lia|lia|done].
    + intros [= <- <- <-]. exists tr. split_and!; [done|lia|lia|done].
Qed.

(** Draining the loop, with callbacks that may themselves post, stop, reset,
    run or try to drain the loop: completions are taken in exactly the order they
    were posted, each once, before their callback runs (what was taken and what is
    left is what was queued and posted, in order); a nested drain is refused; a
    successful drain leaves the loop stopped or empty. *)
Theorem loop_drain_fifo fuel s status ran s' :
  loop_inv s -> sl_loop_drain call fuel REF s = Some (status, ran, s') ->
  if lp_draining (ls_loop s)
  then status = SL_STATUS_INVALID_STATE /\ ran = 0 /\ s' = s
  else exists tr,
    loop_trace s tr s' /\
    (LReset ∉ tr -> takes tr ++ pending s' = pending s ++ posts tr) /\
    0 <= ran <= Z.of_nat (length (takes tr)) /\
    (status = SL_STATUS_OK -> lp_stopped (ls_loop s') = true \/ pending s' = []) /\
    lp_draining (ls_loop s') = false.
Proof.
  intros Hi. unfold sl_loop_drain. cbn [is_null].
  destruct (lp_draining (ls_loop s)); [by intros [= <- <- <-]|].
  set (s0 := set_loop (with_draining true (ls_loop s)) s).
  destruct (drain_loop call fuel 0 s0) as [[[st r] s1]|] eqn:Ed; [|done].
  intros [= <- <- <-].
  apply drain_loop_trace in Ed as (tr & Htr & Hb & Hst); [|exact Hi|lia].
  assert (Hall : loop_trace s ((LOther :: tr) ++ [LOther])
                   (set_loop (with_draining false (ls_loop s1)) s1)).
  { eapply loop_trace_app; [econstructor; [apply (step_draining true)|exact Htr]|].
    econstructor; [apply (step_draining false)|constructor]. }
  exists ((LOther :: tr) ++ [LOther]). split_and!; try done.
  - intros Hr. by apply (loop_trace_fifo _ _ _ Hall Hi).
  - lia.
  - unfold takes in *. rewrite omap_app, length_app. cbn. lia.
Qed.
End Traces.

Section Complete.
Context {Q : Type} `{QueueLaws Q SlCompletion} {E : Type}.
Abbreviation Sys := (LoopSys Q E).

(** Callbacks that succeed and leave the loop alone. *)
Variable effect : SlCompletion -> E -> E.
Definition quiet_call (c : SlCompletion) (s : Sys) : SlStatusCode * Sys :=
  (SL_STATUS_OK, Build_LoopSys (ls_loop s) (effect c (ls_env s))).

Lemma drain_loop_complete fuel ran s :
  loop_inv s -> lp_stopped (ls_loop s) = false -> (length (pending s) <= fuel)%nat ->
  exists s', drain_loop quiet_call fuel ran s
               = Some (SL_STATUS_OK, ran + Z.of_nat (length (pending s)), s') /\
    pending s' = [] /\ loop_inv s' /\ lp_stopped (ls_loop s') = false /\
    ls_env s' = foldl (fun e c => effect c e) (ls_env s) (pending s).
Proof.
  revert ran s; induction fuel as [|fuel IH]; intros ran s Hi Hs Hf; cbn [drain_loop]; rewrite Hs; cbn [orb].
  - destruct (pending s) as [|] eqn:Ep; [|simpl in Hf; lia].
    rewrite (proj2 (q_empty_law (lp_queue (ls_loop s)) Hi) Ep).
    exists s. cbn. rewrite Z.add_0_r. done.
  - destruct (pending s) as [|c cs] eqn:Ep.
    { rewrite (proj2 (q_empty_law (lp_queue (ls_loop s)) Hi) Ep).
      exists s. cbn. rewrite Z.add_0_r. done. }
    assert (Hne : q_is_empty (lp_queue (ls_loop s)) = false).
    { apply not_true_iff_false. rewrite (q_empty_law (lp_queue (ls_loop s)) Hi).
      intros Hnil. unfold pending in Ep. rewrite Hnil in Ep. discriminate. }
    rewrite Hne. unfold sl_loop_run_once. cbn [is_null]. rewrite Hs, Hne. cbn [orb].
    pose proof (take_cases s Hi) as Ht.
    destruct (take_completion s) as [[c'|] s1] eqn:Et; [|congruence].
    destruct Ht as (Hi1 & Hp1 & He1). rewrite Ep in Hp1. injection Hp1 as <- Hcs.
    assert (Hs1 : lp_stopped (ls_loop s1) = false).
    { unfold take_completion in Et. destruct (q_pop_front _) as [o q]. injection Et as _ <-. done. }
    unfold quiet_call at 1. destruct (decide (SL_STATUS_OK = SL_STATUS_OK)); [|done].
    destruct (IH (ran + 1) (Build_LoopSys (ls_loop s1) (effect c (ls_env s1)))) as (s' & Hd & Hr & Hi' & Hs' & He);
      [done|done|unfold pending in *; cbn in *; rewrite <- Hcs; lia|].
    exists s'. unfold pending in Hd, He |- *. cbn [ls_loop ls_env] in Hd, He. unfold pending in Hcs.
    rewrite <- Hcs in Hd, He. split_and!; try done.
    + rewrite Hd. cbn [length]. do 3 f_equal. lia.
    + rewrite He, He1. done.
Qed.

(** A drain whose callbacks succeed and leave the loop alone terminates, runs
    every pending completion exactly once in posting order, reports their number
    and leaves the loop empty, not stopped and not draining. *)
Theorem loop_drain_complete fuel s :
  loop_inv s -> lp_stopped (ls_loop s) = false -> lp_draining (ls_loop s) = false ->
  (length (pending s) <= fuel)%nat ->
  exists s', sl_loop_drain quiet_call fuel REF s
               = Some (SL_STATUS_OK, Z.of_nat (length (pending s)), s') /\
    pending s' = [] /\ lp_draining (ls_loop s') = false /\ lp_stopped (ls_loop s') = false /\
    ls_env s' = foldl (fun e c => effect c e) (ls_env s) (pending s).
Proof.
  intros Hi Hs Hd Hf. unfold sl_loop_drain. cbn [is_null]. rewrite Hd.
  destruct (drain_loop_complete fuel 0 (set_loop (with_draining true (ls_loop s)) s))
    as (s' & -> & Hp & Hi' & Hs' & He); [done..|].
  exists (set_loop (with_draining false (ls_loop s')) s'). by split_and!.
Qed.
End Complete.

Module Demo.
(** A loop over three completion slots at 1000, with a struct variable at 500;
    the environment is the list of the [user] pointers of the callbacks run. *)
Definition ring0 : TypedRing :=
  {| trq_sys := {| qs_mem := fun _ => 0;
                   qs_queue := {| rq_items := 1000; rq_elem_size := 32; rq_capacity := 3;
                                  rq_head := 1; rq_tail := 1; rq_count := 0 |} |};
     trq_local := 500 |}.
Definition loop0 {E} (e : E) : LoopSys TypedRing E := Build_LoopSys (Build_SlLoop ring0 false false) e.

Lemma ring0_inv : ring_inv ring0.
Proof.
  split; [|split].
  - split; cbn; [unfold storage_ok, UINTPTR_MAX; lia|lia|]. intros _. split; [lia|done].
  - done.
  - unfold item_buffer, disjoint_ranges. cbn. lia.
Qed.

Definition post {E} (fn user : Z) (s : LoopSys TypedRing E) : LoopSys TypedRing E :=
  snd (sl_loop_post REF SL_COMPLETION_KIND_USER fn 0 user s).

Lemma post_inv {E} fn user (s : LoopSys TypedRing E) :
  loop_inv s -> is_size fn -> is_size user -> loop_inv (post fn user s).
Proof.
  intros Hi Hf Hu. unfold post.
  pose proof (post_cases REF SL_COMPLETION_KIND_USER fn 0 user s Hi ltac:(cbn; size_lia)) as H.
  destruct (sl_loop_post _ _ _ _ _ s) as [[]]; apply H.
Qed.

Definition loop2 : LoopSys TypedRing (list Z) := post 77 2 (post 77 1 (loop0 [])).

Lemma loop2_inv : loop_inv loop2.
Proof. apply post_inv; [apply post_inv; [apply ring0_inv|..]|..]; size_lia. Qed.

(** The first callback posts a third completion, the others do nothing. *)
Definition call (c : SlCompletion) (s : LoopSys TypedRing (list Z)) :
    SlStatusCode * LoopSys TypedRing (list Z) :=
  (SL_STATUS_OK, if c_user c =? 1 then post 77 3 s else s).

Lemma call_api c s : exists tr, loop_trace s tr (snd (call c s)).
Proof.
  unfold call, post. cbn [snd]. destruct (c_user c =? 1); [|exists []; constructor].
  destruct (sl_loop_post REF SL_COMPLETION_KIND_USER 77 0 3 s) as [[[]|e] s'] eqn:E; cbn [snd].
  - eexists [_]. econstructor; [|constructor]. eapply step_post; [|exact E]. cbn; size_lia.
  - exists [LOther]. econstructor; [|constructor].
    eapply step_post_refused; [|exact E]. cbn; size_lia.
Qed.

Lemma loop_drain_fifo_witness :
  exists status ran s' tr,
    sl_loop_drain call 5 REF loop2 = Some (status, ran, s') /\ ran = 3 /\
    (LReset ∉ tr -> takes tr ++ pending s' = pending loop2 ++ posts tr).
Proof.
  destruct (sl_loop_drain call 5 REF loop2) as [[[status ran] s']|] eqn:E.
  2: { vm_compute in E. discriminate E. }
  pose proof (loop_drain_fifo call call_api 5 loop2 status ran s' loop2_inv E) as H.
  change (lp_draining (ls_loop loop2)) with false in H. destruct H as (tr & _ & Hf & _).
  exists status, ran, s', tr. split; [reflexivity|split; [|exact Hf]].
  apply (f_equal (fun o => match o with Some (_, r, _) => r | None => 0 end)) in E.
  rewrite <- E. vm_compute. reflexivity.
Defined.

Lemma loop_drain_complete_witness :
  exists s', sl_loop_drain (quiet_call (fun c e => e ++ [c_user c])) 2 REF loop2
               = Some (SL_STATUS_OK, 2, s') /\ pending s' = [] /\ ls_env s' = [1; 2].
Proof.
  destruct (loop_drain_complete (fun c e => e ++ [c_user c]) 2 loop2 loop2_inv) as (s' & E & Hp & _ & _ & He).
  - reflexivity.
  - reflexivity.
  - vm_compute. lia.
  - exists s'. assert (Hlen : Z.of_nat (length (pending loop2)) = 2) by (vm_compute; reflexivity).
    assert (Hfold : foldl (fun e c => e ++ [c_user c]) (ls_env loop2) (pending loop2) = [1; 2])
      by (vm_compute; reflexivity).
    rewrite Hlen in E. rewrite Hfold in He. split_and!; [exact E|exact Hp|exact He].
Defined.
End Demo.
