(* ===== verification/Async.v ===== *)
(** Cancellation tokens and the async settlement primitive
    (src/core/cancellation.c, src/core/async.c). *)

From S2P Require Import Prelude Memory Str Container Queue Loop.

(** * Cancellation tokens *)

Inductive SlCancellationReason :=
| SL_CANCELLATION_REASON_NONE
| SL_CANCELLATION_REASON_CANCELLED
| SL_CANCELLATION_REASON_DEADLINE_EXCEEDED
| SL_CANCELLATION_REASON_BACKPRESSURE
| SL_CANCELLATION_REASON_SHUTDOWN.

#[export] Instance SlCancellationReason_eq_dec : EqDecision SlCancellationReason.
Proof. solve_decision. Defined.

Record SlCancellationToken := {
  tok_cancelled : bool; tok_reason : SlCancellationReason; tok_detail : SlStr
}.

Definition sl_cancellation_detail_valid (detail : SlStr) : bool :=
  (str_length detail =? 0) || negb (str_ptr detail =? 0).

Definition sl_cancellation_token_init (token : nullable) (t : SlCancellationToken)
    : SlCancellationToken :=
  if is_null token then t else
  {| tok_cancelled := false; tok_reason := SL_CANCELLATION_REASON_NONE; tok_detail := sl_str_empty |}.

Definition sl_cancellation_token_cancel (token : nullable) (reason : SlCancellationReason)
    (detail : SlStr) : ST SlCancellationToken unit :=
  return_if is_null token || bool_decide (reason = SL_CANCELLATION_REASON_NONE)
            || negb (sl_cancellation_detail_valid detail) with SL_STATUS_INVALID_ARGUMENT ;;
  t ← gets id;
  return_if tok_cancelled t with SL_STATUS_INVALID_STATE ;;
  modify (fun _ => {| tok_cancelled := true; tok_reason := reason; tok_detail := detail |}).

Definition sl_cancellation_token_is_cancelled (token : nullable) (t : SlCancellationToken) : bool :=
  negb (is_null token) && tok_cancelled t.

Definition sl_cancellation_token_reason (token : nullable) (t : SlCancellationToken)
    : SlCancellationReason :=
  if is_null token || negb (tok_cancelled t) then SL_CANCELLATION_REASON_NONE else tok_reason t.

Definition sl_cancellation_status_code (reason : SlCancellationReason) : SlStatusCode :=
  match reason with
  | SL_CANCELLATION_REASON_DEADLINE_EXCEEDED => SL_STATUS_DEADLINE_EXCEEDED
  | SL_CANCELLATION_REASON_BACKPRESSURE => SL_STATUS_CAPACITY_EXCEEDED
  | SL_CANCELLATION_REASON_CANCELLED | SL_CANCELLATION_REASON_SHUTDOWN => SL_STATUS_CANCELLED
  | SL_CANCELLATION_REASON_NONE => SL_STATUS_INVALID_ARGUMENT
  end.

(** A sequence of cancellation attempts on one token, with their outcomes. *)
Fixpoint cancel_all (rs : list (SlCancellationReason * SlStr)) (t : SlCancellationToken)
    : list (result unit) * SlCancellationToken :=
  match rs with
  | [] => ([], t)
  | (r, d) :: rs =>
      let '(o, t) := sl_cancellation_token_cancel REF r d t in
      let '(os, t) := cancel_all rs t in (o :: os, t)
  end.

Lemma cancel_cancelled r d t :
  tok_cancelled t = true -> exists c, sl_cancellation_token_cancel REF r d t = (Err c, t).
Proof.
  intros Hc. unfold sl_cancellation_token_cancel. unfold_st.
  destruct (_ || _ || _); [by eexists|]. cbn. rewrite Hc. by eexists.
Qed.

Lemma cancel_all_cancelled rs t :
  tok_cancelled t = true ->
  snd (cancel_all rs t) = t /\ Forall (fun o => is_ok o = false) (fst (cancel_all rs t)).
Proof.
  intros Hc. induction rs as [|[r d] rs IH]; cbn [cancel_all]; [done|].
  destruct (cancel_cancelled r d t Hc) as [c ->].
  destruct (cancel_all rs t) as [os t']. cbn in *. destruct IH as [-> ?].
  split; [done|]. by constructor.
Qed.

(** The first cancellation of a token wins: after it, every further attempt
    fails and the token keeps its reason and detail; the first attempt with a
    real reason and a valid detail on a fresh token succeeds. *)
Theorem first_cancellation_wins r d rs t0 :
  r <> SL_CANCELLATION_REASON_NONE -> sl_cancellation_detail_valid d = true ->
  let '(os, t) := cancel_all ((r, d) :: rs) (sl_cancellation_token_init REF t0) in
  exists os', os = Ok tt :: os' /\ Forall (fun o => is_ok o = false) os' /\
    sl_cancellation_token_is_cancelled REF t = true /\
    sl_cancellation_token_reason REF t = r /\ tok_detail t = d.
Proof.
  intros Hr Hd. cbn [cancel_all]. unfold sl_cancellation_token_cancel at 1. unfold_st.
  cbn [is_null orb sl_cancellation_token_init]. rewrite bool_decide_eq_false_2, Hd by done. cbn.
  destruct (cancel_all_cancelled rs {| tok_cancelled := true; tok_reason := r; tok_detail := d |})
    as [E F]; [done|].
  destruct (cancel_all rs _) as [os t]. cbn in *. subst t. exists os. by split_and!.
Qed.

Lemma first_cancellation_wins_witness :
  let '(os, t) := cancel_all
    [(SL_CANCELLATION_REASON_SHUTDOWN, sl_str_empty); (SL_CANCELLATION_REASON_CANCELLED, sl_str_empty)]
    (sl_cancellation_token_init REF {| tok_cancelled := true; tok_reason := SL_CANCELLATION_REASON_NONE;
                                       tok_detail := sl_str_empty |}) in
  exists os', os = Ok tt :: os' /\ Forall (fun o => is_ok o = false) os' /\
    sl_cancellation_token_is_cancelled REF t = true /\
    sl_cancellation_token_reason REF t = SL_CANCELLATION_REASON_SHUTDOWN /\
    tok_detail t = sl_str_empty.
Proof.
  apply (first_cancellation_wins SL_CANCELLATION_REASON_SHUTDOWN sl_str_empty); [discriminate|reflexivity].
Defined.

(** * Async settlement *)

Inductive SlAsyncState :=
| SL_ASYNC_STATE_PENDING
| SL_ASYNC_STATE_FULFILLED
| SL_ASYNC_STATE_REJECTED
| SL_ASYNC_STATE_CANCELLED.

#[export] Instance SlAsyncState_eq_dec : EqDecision SlAsyncState.
Proof. solve_decision. Defined.

Record SlAsyncResult := { ares_status : SlStatusCode; ares_diag : Z; ares_payload : Z; ares_user : Z }.

Record SlAsync := {
  as_state : SlAsyncState;
  as_continuation : Z;
  as_continuation_user : Z;
  as_result : SlAsyncResult;
  as_has_result : bool;
  as_completion_posted : bool;
}.

(** What happens to an object: an initialisation, an accepted settlement, a call of the
    continuation with what it is passed, and the loss of a queued completion in a reset
    of the loop. *)
Inductive async_event :=
| ev_init (cont user : Z)
| ev_settle (st : SlAsyncState) (r : SlAsyncResult)
| ev_call (cont : Z) (st : SlAsyncState) (r : SlAsyncResult) (user : Z)
| ev_lost.

(** The object, with a ghost record of its life. *)
Record AsyncEnv := { ae_async : SlAsync; ae_history : list async_event }.

(** * Lives of an async object *)

(** Where an object is in its life. *)
Inductive async_phase :=
| ph_pending (cont user : Z)
| ph_queued (cont user : Z) (st : SlAsyncState) (r : SlAsyncResult)
| ph_continued
| ph_lost.

#[export] Instance SlAsyncResult_eq_dec : EqDecision SlAsyncResult.
Proof. solve_decision. Defined.

(** The contract: a pending object may be initialised again or settled; a settled one is
    continued, with the continuation, the user pointer, the state and the result it was
    settled with, or lost with the loop's queue; then it may be initialised again. *)
Definition phase_next (ph : async_phase) (e : async_event) : option async_phase :=
  match ph, e with
  | ph_pending _ _, ev_init c u | ph_continued, ev_init c u => Some (ph_pending c u)
  | ph_pending c u, ev_settle st r => Some (ph_queued c u st r)
  | ph_queued c u st r, ev_call c' st' r' u' => 
      if bool_decide (c' = c /\ st' = st /\ r' = r /\ u' = u) then Some ph_continued else None
  | ph_queued _ _ _ _, ev_lost => Some ph_lost
  | _, _ => None
  end.

Fixpoint life (ph : async_phase) (h : list async_event) : option async_phase :=
  match h with
  | [] => Some ph
  | e :: h => ph ← phase_next ph e; life ph h
  end.

Lemma life_snoc ph h e : life ph (h ++ [e]) = ph' ← life ph h; phase_next ph' e.
Proof.
  revert ph. induction h as [|e' h IH]; intros ph; cbn; [by destruct (phase_next ph e)|]. destruct (phase_next ph e') as [ph1|]; [apply (IH ph1)|done].
Qed.

Section Async.
Context {Q : Type} `{QueueLaws Q SlCompletion}.
Abbreviation Sys := (LoopSys Q AsyncEnv).

(** The addresses of [sl_async_dispatch] and of the async object. *)
Variables (dispatch_fn async_addr : Z).

Definition async_of (s : Sys) : SlAsync := ae_async (ls_env s).
Definition set_async (a : SlAsync) (s : Sys) : Sys :=
  Build_LoopSys (ls_loop s) {| ae_async := a; ae_history := ae_history (ls_env s) |}.

Definition sl_async_init (async : nullable) (continuation continuation_user : Z) : ST Sys unit :=
  return_if is_null async || (continuation =? 0) with SL_STATUS_INVALID_ARGUMENT ;;
  a ← gets async_of;
  return_if as_completion_posted a with SL_STATUS_INVALID_STATE ;;
  modify (set_async
    {| as_state := SL_ASYNC_STATE_PENDING; as_continuation := continuation;
       as_continuation_user := continuation_user;
       as_result := {| ares_status := SL_STATUS_OK; ares_diag := 0; ares_payload := 0; ares_user := 0 |};
       as_has_result := false; as_completion_posted := false |}).

Definition sl_async_settle (async loop : nullable) (state : SlAsyncState) (status : SlStatusCode)
    (diag payload user : Z) : ST Sys unit :=
  return_if is_null async || is_null loop with SL_STATUS_INVALID_ARGUMENT ;;
  return_if negb (bool_decide (state = SL_ASYNC_STATE_FULFILLED)) && bool_decide (status = SL_STATUS_OK)
    with SL_STATUS_INVALID_ARGUMENT ;;
  a ← gets async_of;
  return_if negb (bool_decide (as_state a = SL_ASYNC_STATE_PENDING)) || as_completion_posted a
    with SL_STATUS_INVALID_STATE ;;
  sl_loop_post REF SL_COMPLETION_KIND_ASYNC dispatch_fn async_addr async_addr;;
  a ← gets async_of;
  modify (set_async
    {| as_state := state; as_continuation := as_continuation a;
       as_continuation_user := as_continuation_user a;
       as_result := {| ares_status := status; ares_diag := diag; ares_payload := payload;
                       ares_user := user |};
       as_has_result := true; as_completion_posted := true |}).

Definition sl_async_fulfill (async loop : nullable) (payload user : Z) : ST Sys unit :=
  sl_async_settle async loop SL_ASYNC_STATE_FULFILLED SL_STATUS_OK 0 payload user.
Definition sl_async_reject (async loop : nullable) (status : SlStatusCode) (diag : Z) : ST Sys unit :=
  sl_async_settle async loop SL_ASYNC_STATE_REJECTED status diag 0 0.
Definition sl_async_cancel (async loop : nullable) (status : SlStatusCode) (diag : Z) : ST Sys unit :=
  sl_async_settle async loop SL_ASYNC_STATE_CANCELLED status diag 0 0.

Definition sl_async_state (async : nullable) (a : SlAsync) : SlAsyncState :=
  if is_null async then SL_ASYNC_STATE_PENDING else as_state a.
Definition sl_async_is_pending (async : nullable) (a : SlAsync) : bool :=
  negb (is_null async) && bool_decide (as_state a = SL_ASYNC_STATE_PENDING).
Definition sl_async_is_settled (async : nullable) (a : SlAsync) : bool :=
  negb (is_null async) && negb (bool_decide (as_state a = SL_ASYNC_STATE_PENDING)).

(** The completion callback; [continue] calls the continuation at an address. *)
Definition sl_async_dispatch
    (continue : Z -> SlAsyncState -> SlAsyncResult -> Z -> Sys -> SlStatusCode * Sys)
    (payload : nullable) (s : Sys) : SlStatusCode * Sys :=
  let a := async_of s in
  if is_null payload || (as_continuation a =? 0) || negb (as_has_result a)
     || negb (as_completion_posted a)
  then (SL_STATUS_INTERNAL, s) else
  let s := set_async {| as_state := as_state a; as_continuation := as_continuation a;
                        as_continuation_user := as_continuation_user a; as_result := as_result a;
                        as_has_result := as_has_result a; as_completion_posted := false |} s in
  continue (as_continuation a) (as_state a) (as_result a) (as_continuation_user a) s.

(** The three public settlements, and what they settle with. *)
Inductive settlement :=
| by_fulfill (payload user : Z)
| by_reject (status : SlStatusCode) (diag : Z)
| by_cancel (status : SlStatusCode) (diag : Z).

Definition settle_by (o : settlement) : ST Sys unit :=
  match o with
  | by_fulfill payload user => sl_async_fulfill REF REF payload user
  | by_reject status diag => sl_async_reject REF REF status diag
  | by_cancel status diag => sl_async_cancel REF REF status diag
  end.

Definition settles_with (o : settlement) : SlAsyncState * SlAsyncResult :=
  match o with
  | by_fulfill payload user =>
      (SL_ASYNC_STATE_FULFILLED, {| ares_status := SL_STATUS_OK; ares_diag := 0; ares_payload := payload; ares_user := user |})
  | by_reject status diag =>
      (SL_ASYNC_STATE_REJECTED, {| ares_status := status; ares_diag := diag; ares_payload := 0; ares_user := 0 |})
  | by_cancel status diag =>
      (SL_ASYNC_STATE_CANCELLED, {| ares_status := status; ares_diag := diag; ares_payload := 0; ares_user := 0 |})
  end.

Definition note (e : async_event) (s : Sys) : Sys :=
  Build_LoopSys (ls_loop s) {| ae_async := async_of s; ae_history := ae_history (ls_env s) ++ [e] |}.
Definition note_if (res : result unit) (e : async_event) (s : Sys) : Sys :=
  match res with Ok _ => note e s | Err _ => s end.

(** The completion a settlement posts; others are not for this object. *)
Definition own : SlCompletion :=
  {| c_kind := SL_COMPLETION_KIND_ASYNC; c_fn := dispatch_fn; c_payload := async_addr; c_user := async_addr |}.
Definition is_own (c : SlCompletion) : bool := (c_fn c =? dispatch_fn) && (c_payload c =? async_addr).
Definition queued (s : Sys) : list SlCompletion := List.filter is_own (pending s).

(** The loop calls a completion: the call of a continuation is recorded; what it, or
    another completion's function, then does is further steps. *)
Definition call_completion (status : SlStatusCode) (c : SlCompletion) (s : Sys) : SlStatusCode * Sys :=
  if is_own c then
    sl_async_dispatch (fun cont st r user s => (status, note (ev_call cont st r user) s))
      (if c_payload c =? 0 then NULL else REF) s
  else (status, s).

(** Any interleaving of initialisations and settlements, accepted or refused, with what
    else happens to the loop: completions run, other posts, stops, drains and resets. *)
Inductive async_step : Sys -> Sys -> Prop :=
| as_init cont user res s s' :
    sl_async_init REF cont user s = (res, s') -> async_step s (note_if res (ev_init cont user) s')
| as_settle o res s s' :
    settle_by o s = (res, s') -> async_step s (note_if res (ev_settle (fst (settles_with o)) (snd (settles_with o))) s')
| as_run status s : async_step s (snd (sl_loop_run_once (call_completion status) REF s))
| as_post kind fn payload user res s s' :
    let c := {| c_kind := kind; c_fn := fn; c_payload := payload; c_user := user |} in
    is_own c = false -> q_elem_ok c -> sl_loop_post REF kind fn payload user s = (res, s') -> async_step s s'
| as_stop s : async_step s (sl_loop_stop REF s)
| as_draining d s : async_step s (set_loop (with_draining d (ls_loop s)) s)
| as_reset s : async_step s (sl_loop_reset REF (if existsb is_own (pending s) then note ev_lost s else s)).

(** The object and the loop's queue in each phase. *)
Definition in_phase (ph : async_phase) (s : Sys) : Prop :=
  let a := async_of s in
  match ph with
  | ph_pending c u =>
      as_state a = SL_ASYNC_STATE_PENDING /\ as_completion_posted a = false /\ c <> 0 /\
      as_continuation a = c /\ as_continuation_user a = u /\ queued s = []
  | ph_queued c u st r =>
      as_state a = st /\ st <> SL_ASYNC_STATE_PENDING /\ as_result a = r /\ as_has_result a = true /\
      as_completion_posted a = true /\ c <> 0 /\ as_continuation a = c /\ as_continuation_user a = u /\ queued s = [own]
  | ph_continued => as_state a <> SL_ASYNC_STATE_PENDING /\ as_completion_posted a = false /\ queued s = []
  | ph_lost => as_state a <> SL_ASYNC_STATE_PENDING /\ as_completion_posted a = true /\ queued s = []
  end.

Hypothesis Hfn : dispatch_fn <> 0.
Hypothesis Haddr : async_addr <> 0.
Hypothesis Hown : q_elem_ok own.

Lemma is_own_own : is_own own = true.
Proof. unfold is_own. cbn. by rewrite !Z.eqb_refl. Qed.

Lemma settle_by_eq o :
  settle_by o = let '(st, r) := settles_with o in
    sl_async_settle REF REF st (ares_status r) (ares_diag r) (ares_payload r) (ares_user r).
Proof. by destruct o. Qed.

Lemma settles_not_pending o : fst (settles_with o) <> SL_ASYNC_STATE_PENDING.
Proof. by destruct o. Qed.

(** A settlement is refused without effect, or fixes state and result and posts. *)
Lemma settle_cases st r s :
  loop_inv s ->
  match sl_async_settle REF REF st (ares_status r) (ares_diag r) (ares_payload r) (ares_user r) s with
  | (Ok _, s') =>
      as_state (async_of s) = SL_ASYNC_STATE_PENDING /\ as_completion_posted (async_of s) = false /\ loop_inv s' /\
      pending s' = pending s ++ [own] /\ ae_history (ls_env s') = ae_history (ls_env s) /\
      async_of s' = {| as_state := st; as_continuation := as_continuation (async_of s);
                       as_continuation_user := as_continuation_user (async_of s); as_result := r;
                       as_has_result := true; as_completion_posted := true |}
  | (Err _, s') =>
      loop_inv s' /\ pending s' = pending s /\ ls_env s' = ls_env s /\
      (as_state (async_of s) = SL_ASYNC_STATE_PENDING -> as_completion_posted (async_of s) = false ->
       (st <> SL_ASYNC_STATE_FULFILLED -> ares_status r <> SL_STATUS_OK) ->
       lp_stopped (ls_loop s) = false -> q_capacity (lp_queue (ls_loop s)) <= Z.of_nat (length (pending s)))
  end.
Proof.
  intros Hi. unfold sl_async_settle. unfold_st. cbn [is_null orb].
  destruct (bool_decide_reflect (st = SL_ASYNC_STATE_FULFILLED)) as [Hst|Hst]; cbn [negb andb].
  2: destruct (bool_decide_reflect (ares_status r = SL_STATUS_OK)); [split_and!; [done..|intros _ _ Hl; by destruct (Hl Hst)]|].
  all: destruct (bool_decide_reflect (as_state (async_of s) = SL_ASYNC_STATE_PENDING)) as [Hp|]; cbn [negb orb]; [|by split_and!].
  all: destruct (as_completion_posted (async_of s)) eqn:Epost; [by split_and!|].
  all: pose proof (post_cases REF SL_COMPLETION_KIND_ASYNC dispatch_fn async_addr async_addr s Hi Hown) as Hpc;
    pose proof (post_room SL_COMPLETION_KIND_ASYNC dispatch_fn async_addr async_addr s Hi Hown Hfn) as Hrm;
    destruct (sl_loop_post _ _ _ _ _ s) as [[[]|c] s1];
    [destruct Hpc as (H1 & H2 & H3 & _); unfold async_of; cbn; rewrite H3; split_and!; try done; by destruct r|
     destruct Hpc as (H1 & H2 & H3 & _); split_and!; try done; intros _ _ _ Hs; specialize (Hrm Hs); lia].
Qed.

Definition async_ok (p0 : async_phase) (s : Sys) : Prop :=
  loop_inv s /\ exists ph, life p0 (ae_history (ls_env s)) = Some ph /\ in_phase ph s.

(** A step that moves the object from one phase to the next. *)
Lemma async_moved p0 ph ph' e (s s' : Sys) :
  life p0 (ae_history (ls_env s)) = Some ph -> phase_next ph e = Some ph' ->
  loop_inv s' -> ae_history (ls_env s') = ae_history (ls_env s) ++ [e] -> in_phase ph' s' -> async_ok p0 s'.
Proof. intros Hl Hn Hi Hh Hp. split; [done|]. exists ph'. split; [|done]. by rewrite Hh, life_snoc, Hl. Qed.

(** A step that leaves the object alone. *)
Lemma async_stays p0 s s' :
  async_ok p0 s -> loop_inv s' -> ls_env s' = ls_env s -> queued s' = queued s -> async_ok p0 s'.
Proof.
  intros (_ & ph & Hl & Hp) Hi He Hq. split; [done|]. exists ph. rewrite He. split; [done|].
  unfold in_phase, async_of in *. by rewrite He, Hq.
Qed.

Lemma init_step p0 cont user res s s' :
  async_ok p0 s -> sl_async_init REF cont user s = (res, s') -> async_ok p0 (note_if res (ev_init cont user) s').
Proof.
  intros Hok E. unfold sl_async_init in E. unfold_st. cbn [is_null orb] in E.
  destruct (Z.eqb_spec cont 0); [by injection E as <- <-|].
  destruct (as_completion_posted (async_of s)) eqn:Ep; [by injection E as <- <-|]. injection E as <- <-.
  destruct Hok as (Hi & ph & Hl & Hp). cbn [note_if].
  assert (Hph : phase_next ph (ev_init cont user) = Some (ph_pending cont user) /\ queued s = []).
  { destruct ph; cbn in Hp |- *; destruct_and?; (done || congruence). }
  destruct Hph as [Hn Hq]. eapply (async_moved p0 ph); [done|exact Hn|exact Hi|done|]. cbn. by split_and!.
Qed.

Lemma settle_step p0 o res s s' :
  async_ok p0 s -> settle_by o s = (res, s') ->
  async_ok p0 (note_if res (ev_settle (fst (settles_with o)) (snd (settles_with o))) s').
Proof.
  intros Hok E. rewrite settle_by_eq in E. pose proof (settles_not_pending o) as Hnp. destruct (settles_with o) as [st r].
  pose proof Hok as (Hi & ph & Hl & Hp). pose proof (settle_cases st r s Hi) as Hc. rewrite E in Hc. destruct res as [[]|c]; cbn [note_if fst snd].
  - destruct Hc as (H1 & H2 & H3 & H4 & H5 & H6).
    destruct ph as [c u| | |]; cbn in Hp; destruct_and?; try congruence.
    apply (async_moved p0 (ph_pending c u) (ph_queued c u st r) (ev_settle st r) s); [done|done|exact H3|cbn; by rewrite H5|].
    unfold in_phase, note, async_of in *. cbn [ls_env ae_async]. rewrite H6. cbn. split_and!; try done.
    unfold queued, pending in *. cbn [ls_loop]. rewrite H4, List.filter_app. cbn [List.filter]. rewrite is_own_own.
    replace (List.filter is_own _) with (@nil SlCompletion) by done. done.
  - destruct Hc as (H1 & H2 & H3 & _). apply (async_stays p0 s); [done|done|done|]. unfold queued. by rewrite H2.
Qed.

Lemma run_step p0 status s : async_ok p0 s -> async_ok p0 (snd (sl_loop_run_once (call_completion status) REF s)).
Proof.
  intros Hok. pose proof Hok as (Hi & ph & Hl & Hp). unfold sl_loop_run_once. cbn [is_null]. destruct (_ || _); [done|].
  pose proof (take_cases s Hi) as Ht. destruct (take_completion s) as [[c|] s1] eqn:Et.
  2: { apply (async_stays p0 s); [done|..]; unfold take_completion in Et; pose proof (q_pop_law (lp_queue (ls_loop s)) Hi) as Hq;
       destruct (q_pop_front _) as [[?|] q']; try done; injection Et as <-; destruct Hq as [-> _]; done. }
  destruct Ht as (Hi1 & Hpe & He). unfold call_completion. destruct (is_own c) eqn:Eo.
  - assert (Hq : queued s = c :: queued s1) by (unfold queued; rewrite Hpe; cbn; by rewrite Eo).
    destruct ph as [|cc uu st r| |]; cbn in Hp; destruct_and?; try congruence.
    assert (Hc : c = own /\ queued s1 = []) by (split; congruence). destruct Hc as [-> Hq1].
    unfold sl_async_dispatch. unfold async_of in *. rewrite He. cbn [own c_payload]. destruct (Z.eqb_spec async_addr 0); [done|].
    cbn [is_null orb]. repeat match goal with E : _ = true |- _ => rewrite E end. destruct (Z.eqb_spec (as_continuation (ae_async (ls_env s))) 0); [congruence|].
    cbn [negb orb snd]. apply (async_moved p0 (ph_queued cc uu st r) ph_continued (ev_call cc st r uu) s); [done| |exact Hi1|cbn; rewrite He; congruence|].
    + cbn. by rewrite bool_decide_eq_true_2 by done.
    + cbn. split_and!; [congruence|done|exact Hq1].
  - apply (async_stays p0 s); [done|exact Hi1|exact He|]. unfold queued. rewrite Hpe. cbn. by rewrite Eo.
Qed.

Lemma reset_step p0 s : async_ok p0 s -> async_ok p0 (sl_loop_reset REF (if existsb is_own (pending s) then note ev_lost s else s)).
Proof.
  intros Hok. pose proof Hok as (Hi & ph & Hl & Hp). destruct (q_clear_law (lp_queue (ls_loop s)) Hi) as (Hi' & _ & Hc).
  assert (Hq : forall s0, ls_loop s0 = ls_loop s -> queued (sl_loop_reset REF s0) = []).
  { intros s0 E0. unfold queued, pending, sl_loop_reset. cbn. by rewrite E0, Hc. }
  destruct (existsb is_own (pending s)) eqn:Ex.
  - apply existsb_exists in Ex as (c & Hin & Ho). assert (Hne : queued s <> []).
    { intros E0. assert (Hf : In c (queued s)) by (by apply filter_In). by rewrite E0 in Hf. }
    destruct ph as [|cc uu st r| |]; cbn in Hp; destruct_and?; try done.
    apply (async_moved p0 (ph_queued cc uu st r) ph_lost ev_lost s); [done|done|exact Hi'|done|]. cbn. split_and!; [congruence|done|by apply (Hq (note ev_lost s))].
  - apply (async_stays p0 s); [done|exact Hi'|done|]. rewrite Hq by done. symmetry. unfold queued.
    clear - Ex. induction (pending s) as [|c cs IH]; cbn in *; [done|]. by destruct (is_own c); [|apply IH].
Qed.

Lemma async_step_ok p0 s s' : async_step s s' -> async_ok p0 s -> async_ok p0 s'.
Proof.
  intros Hs Hok. pose proof Hok as (Hi & _). destruct Hs as [cont user res s s' E|o res s s' E|status s|kind fn payload user res s s' c Ho Hc E|s|d s|s].
  - by eapply init_step.
  - by eapply settle_step.
  - by apply run_step.
  - pose proof (post_cases REF kind fn payload user s Hi Hc) as Hp. rewrite E in Hp.
    destruct res as [[]|?]; destruct Hp as (H1 & H2 & H3 & _); apply (async_stays p0 s); try done; unfold queued; rewrite H2; [|done].
    rewrite List.filter_app. cbn [List.filter]. fold c. by rewrite Ho, app_nil_r.
  - by apply (async_stays p0 s).
  - by apply (async_stays p0 s).
  - by apply reset_step.
Qed.

(** At most one settlement for each initialisation. *)
Definition settlements (h : list async_event) : nat := length (List.filter (fun e => match e with ev_settle _ _ => true | _ => false end) h).
Definition initialisations (h : list async_event) : nat := length (List.filter (fun e => match e with ev_init _ _ => true | _ => false end) h).

Lemma life_settles ph h ph' :
  life ph h = Some ph' -> (settlements h <= initialisations h + match ph with ph_pending _ _ => 1 | _ => 0 end)%nat.
Proof.
  revert ph. induction h as [|e h IH]; intros ph; [cbn; lia|]. cbn [life]. destruct (phase_next ph e) as [ph1|] eqn:En; [|done].
  cbn. intros Hl. specialize (IH ph1 Hl). unfold settlements, initialisations in *.
  destruct ph, e; cbn in En |- *; try done; repeat case_bool_decide; simplify_eq; cbn in *; lia.
Qed.

(** C8: An async object keeps its contract.  Over every interleaving of initialisations,
    fulfilments, rejections and cancellations, accepted or refused, with whatever else
    happens to the loop, the life of an object initialised once is that of the
    contract: it settles at most once per initialisation; a settlement posts exactly one
    completion, which is in the loop's queue exactly as long as the object is settled
    and not continued (or the loop is reset); when the loop takes that completion the
    continuation is called, once, with the state and result of that settlement.  A
    pending object can be settled whenever the loop is not stopped and not full, and
    a dispatch that no settlement posted is refused without effect. *)
Theorem async_settles_once s0 cont user s s' :
  loop_inv s0 -> queued s0 = [] -> ae_history (ls_env s0) = [] ->
  sl_async_init REF cont user s0 = (Ok tt, s) -> rtc async_step s s' ->
  let h := ae_history (ls_env s') in
  exists ph, life (ph_pending cont user) h = Some ph /\ in_phase ph s' /\ (settlements h <= 1 + initialisations h)%nat /\
    match ph with
    | ph_pending _ _ =>
        lp_stopped (ls_loop s') = false -> Z.of_nat (length (pending s')) < q_capacity (lp_queue (ls_loop s')) ->
        forall o, ares_status (snd (settles_with o)) <> SL_STATUS_OK \/ fst (settles_with o) = SL_ASYNC_STATE_FULFILLED ->
        exists s'', settle_by o s' = (Ok tt, s'')
    | _ => True
    end /\
    match ph with
    | ph_pending _ _ | ph_continued => forall continue, sl_async_dispatch continue REF s' = (SL_STATUS_INTERNAL, s')
    | _ => True
    end.
Proof.
  intros Hi Hq Hh E Hsteps h.
  assert (Hok : async_ok (ph_pending cont user) s).
  { unfold sl_async_init in E. unfold_st. cbn [is_null orb] in E. destruct (Z.eqb_spec cont 0); [done|].
    destruct (as_completion_posted (async_of s0)); [done|]. injection E as <-. split; [exact Hi|].
    exists (ph_pending cont user). cbn. rewrite Hh. split; [done|]. by split_and!. }
  assert (Hok' : async_ok (ph_pending cont user) s') by (clear E; induction Hsteps; eauto using async_step_ok).
  destruct Hok' as (Hi' & ph & Hl & Hp). exists ph. split_and!; [done|done|apply life_settles in Hl; cbn in Hl; subst h; lia|..].
  - destruct ph; try done. cbn in Hp. intros Hs Hroom o Ho. rewrite settle_by_eq. destruct (settles_with o) as [st r].
    pose proof (settle_cases st r s' Hi') as Hc.
    destruct (sl_async_settle _ _ _ _ _ _ _ s') as [[[]|c] s'']; [by exists s''|]. exfalso. destruct Hc as (_ & _ & _ & Hc).
    destruct_and?. specialize (Hc ltac:(done) ltac:(done) ltac:(cbn in Ho; tauto) Hs). lia.
  - destruct ph; try done; cbn in Hp; destruct_and?; intros continue; unfold sl_async_dispatch;
      match goal with Hx : as_completion_posted _ = false |- _ => rewrite Hx end; by rewrite orb_true_r.
Qed.
End Async.

Module Demo.
Definition a0 : SlAsync :=
  {| as_state := SL_ASYNC_STATE_CANCELLED; as_continuation := 0; as_continuation_user := 0;
     as_result := {| ares_status := SL_STATUS_OK; ares_diag := 0; ares_payload := 0; ares_user := 0 |};
     as_has_result := false; as_completion_posted := false |}.
Definition s0 : LoopSys TypedRing AsyncEnv := Loop.Demo.loop0 {| ae_async := a0; ae_history := [] |}.
Definition s1 := snd (sl_async_init REF 11 12 s0).
Definition r1 : SlAsyncResult := {| ares_status := SL_STATUS_OK; ares_diag := 0; ares_payload := 5; ares_user := 6 |}.
Definition s2 := note (ev_settle SL_ASYNC_STATE_FULFILLED r1) (snd (settle_by 77 88 (by_fulfill 5 6) s1)).
Definition s3 := snd (sl_loop_run_once (call_completion 77 88 SL_STATUS_OK) REF s2).

(** Fulfilled, then run by the loop: the continuation at 11 is called. *)
Lemma async_steps0 : rtc (async_step 77 88) s1 s3.
Proof.
  apply (rtc_l _ s1 s2 s3).
  - apply (as_settle 77 88 (by_fulfill 5 6) (Ok tt) s1 (snd (settle_by 77 88 (by_fulfill 5 6) s1))). reflexivity.
  - apply rtc_once. exact (as_run 77 88 SL_STATUS_OK s2).
Qed.

Lemma own0 : q_elem_ok (Q := TypedRing) (own 77 88).
Proof. cbn. size_lia. Qed.

Lemma async_history0 :
  ae_history (ls_env s3) = [ev_settle SL_ASYNC_STATE_FULFILLED r1; ev_call 11 SL_ASYNC_STATE_FULFILLED r1 12].
Proof. vm_compute. reflexivity. Qed.

Lemma async_settles_once_witness :
  exists ph, life (ph_pending 11 12) [ev_settle SL_ASYNC_STATE_FULFILLED r1; ev_call 11 SL_ASYNC_STATE_FULFILLED r1 12] = Some ph /\
    in_phase 77 88 ph s3.
Proof.
  destruct (async_settles_once 77 88 ltac:(lia) ltac:(lia) own0 s0 11 12 s1 s3
    Loop.Demo.ring0_inv eq_refl eq_refl eq_refl async_steps0) as (ph & H1 & H2 & _).
  rewrite async_history0 in H1. exists ph. split; [exact H1|exact H2].
Defined.
End Demo.
