(* ===== verification/Scope.v ===== *)
(** Cleanup scopes (src/core/scope.c), written against the stack interface. *)

From S2P Require Import Prelude Memory Status Container Queue Arena.

Record SlScopeCleanup := { sc_fn : Z; sc_payload : Z; sc_user : Z }.

Record SlScope (K : Type) := { scope_cleanups : K; scope_closed : bool }.
Arguments scope_cleanups {K} _.
Arguments scope_closed {K} _.
Arguments Build_SlScope {K} _ _.

Record ScopeSys (K E : Type) := { ss_scope : SlScope K; ss_env : E }.
Arguments ss_scope {K E} _.
Arguments ss_env {K E} _.
Arguments Build_ScopeSys {K E} _ _.

(** Three pointers: 24 bytes. *)
#[export] Instance cleanup_layout : Layout SlScopeCleanup := {
  layout_size := 24;
  encode c := le_bytes 8 (sc_fn c) ++ le_bytes 8 (sc_payload c) ++ le_bytes 8 (sc_user c);
  decode bs := {| sc_fn := le_int (take 8 bs); sc_payload := le_int (take 8 (drop 8 bs));
                  sc_user := le_int (drop 16 bs) |};
  layout_ok c := is_size (sc_fn c) /\ is_size (sc_payload c) /\ is_size (sc_user c);
}.

#[export] Instance cleanup_layout_laws : LayoutLaws SlScopeCleanup.
Proof.
  split.
  - done.
  - intros c. cbn [encode cleanup_layout layout_size]. by rewrite !length_app, !le_bytes_length.
  - intros c. cbn [encode cleanup_layout]. rewrite !Forall_app. split_and!; apply le_bytes_bytes.
  - intros [f p u] (Hf & Hp & Hu). cbn [encode decode cleanup_layout sc_fn sc_payload sc_user] in *.
    assert (Hb : forall v, is_size v -> le_int (le_bytes 8 v) = v).
    { intros v Hv. apply le_int_bytes. change (256 ^ Z.of_nat 8) with (2 ^ 64). size_lia. }
    rewrite take_app_length' by (by rewrite le_bytes_length).
    rewrite (drop_app_length' _ _ 8) by (by rewrite le_bytes_length).
    rewrite take_app_length' by (by rewrite le_bytes_length).
    rewrite app_assoc, (drop_app_length' _ _ 16) by (by rewrite length_app, !le_bytes_length).
    by rewrite !Hb.
Qed.

Section Operations.
Context {K : Type} `{StackOps K SlScopeCleanup} {E : Type}.
Abbreviation Sys := (ScopeSys K E).

Definition set_scope (sc : SlScope K) (s : Sys) : Sys := Build_ScopeSys sc (ss_env s).

Definition sl_scope_add_cleanup (scope : nullable) (fn payload user : Z) : ST Sys unit :=
  return_if is_null scope || (fn =? 0) with SL_STATUS_INVALID_ARGUMENT ;;
  sc ← gets ss_scope;
  return_if scope_closed sc with SL_STATUS_INVALID_STATE ;;
  zoom (fun s => scope_cleanups (ss_scope s))
       (fun k s => set_scope (Build_SlScope k (scope_closed (ss_scope s))) s)
       (k_push {| sc_fn := fn; sc_payload := payload; sc_user := user |}).

(** [while (sl_fixed_vec_pop(...)) cleanup.fn(...)]; [call] is the callback. *)
Fixpoint close_loop (call : SlScopeCleanup -> Sys -> Sys) (fuel : nat) (s : Sys) : option Sys :=
  match k_pop (scope_cleanups (ss_scope s)) with
  | (None, k) => Some (set_scope (Build_SlScope k (scope_closed (ss_scope s))) s)
  | (Some c, k) =>
      match fuel with
      | O => None
      | S fuel =>
          close_loop call fuel (call c (set_scope (Build_SlScope k (scope_closed (ss_scope s))) s))
      end
  end.

Definition sl_scope_close (call : SlScopeCleanup -> Sys -> Sys) (fuel : nat) (scope : nullable)
    (s : Sys) : option (SlStatusCode * Sys) :=
  if is_null scope then Some (SL_STATUS_INVALID_ARGUMENT, s) else
  if scope_closed (ss_scope s) then Some (SL_STATUS_OK, s) else
  let s := set_scope (Build_SlScope (scope_cleanups (ss_scope s)) true) s in
  s ← close_loop call fuel s; Some (SL_STATUS_OK, s).

Definition sl_scope_reset (scope : nullable) (s : Sys) : Sys :=
  if is_null scope then s else
  set_scope (Build_SlScope (k_clear (scope_cleanups (ss_scope s))) false) s.

Definition sl_scope_is_closed (scope : nullable) (s : Sys) : bool :=
  negb (is_null scope) && scope_closed (ss_scope s).
End Operations.

(** The initialisers build the vector, over the caller's storage or over the arena's. *)
Definition sl_scope_init {E} (scope : nullable) (storage capacity : Z)
    : ST (ScopeSys TypedVec E) unit :=
  return_if is_null scope with SL_STATUS_INVALID_ARGUMENT ;;
  return_if (storage =? 0) && negb (capacity =? 0) with SL_STATUS_INVALID_ARGUMENT ;;
  zoom (fun s => tv_sys (scope_cleanups (ss_scope s)))
       (fun v s => set_scope (Build_SlScope
          {| tv_sys := v; tv_local := tv_local (scope_cleanups (ss_scope s)) |}
          (scope_closed (ss_scope s))) s)
       (sl_fixed_vec_init REF storage 24 capacity);;
  modify (fun s => set_scope (Build_SlScope (scope_cleanups (ss_scope s)) false) s).

Definition sl_scope_init_from_arena `{BuildConfig} (scope arena : nullable) (cleanup_capacity : Z)
    : ST (World * SlScope SlFixedVec) unit :=
  return_if is_null scope || is_null arena with SL_STATUS_INVALID_ARGUMENT ;;
  zoom (fun s => (fst s, scope_cleanups (snd s)))
       (fun v s => (fst v, Build_SlScope (snd v) (scope_closed (snd s))))
       (sl_fixed_vec_init_from_arena REF arena 24 8 cleanup_capacity);;
  modify (fun s => (fst s, Build_SlScope (scope_cleanups (snd s)) false)).

Definition sl_scope_cleanup_count (scope : nullable) (sc : SlScope SlFixedVec) : Z :=
  sl_fixed_vec_count scope (scope_cleanups sc).

Definition sl_scope_cleanup_capacity (scope : nullable) (sc : SlScope SlFixedVec) : Z :=
  sl_fixed_vec_capacity scope (scope_cleanups sc).

(** The same scope as the stack operations see it; [local] is where a cleanup is built. *)
Definition scope_over {E} (local : Z) (w : World) (sc : SlScope SlFixedVec) (env : E) : ScopeSys TypedVec E :=
  Build_ScopeSys (Build_SlScope {| tv_sys := {| vs_mem := w_mem w; vs_vec := scope_cleanups sc |}; tv_local := local |}
                    (scope_closed sc)) env.

Section Laws.
Context {K : Type} `{StackLaws K SlScopeCleanup} {E : Type}.
Abbreviation Sys := (ScopeSys K E).

Definition registered (s : Sys) : list SlScopeCleanup := k_contents (scope_cleanups (ss_scope s)).
Definition scope_inv (s : Sys) : Prop := k_inv (scope_cleanups (ss_scope s)).

(** What registration does; on a closed scope it changes nothing at all. *)
Lemma add_cleanup_cases scope fn payload user s :
  let c := {| sc_fn := fn; sc_payload := payload; sc_user := user |} in
  scope_inv s -> k_elem_ok c ->
  match sl_scope_add_cleanup scope fn payload user s with
  | (Ok _, s') => scope_inv s' /\ registered s' = registered s ++ [c] /\ ss_env s' = ss_env s /\
                  scope_closed (ss_scope s) = false /\ scope_closed (ss_scope s') = false
  | (Err e, s') => scope_inv s' /\ registered s' = registered s /\ ss_env s' = ss_env s /\
                   scope_closed (ss_scope s') = scope_closed (ss_scope s) /\
                   (scope_closed (ss_scope s) = true -> s' = s)
  end.
Proof.
  intros c Hi Hok. unfold sl_scope_add_cleanup, zoom. unfold_st.
  destruct (_ || _); [done|]. destruct (scope_closed (ss_scope s)) eqn:Ec; [done|]. fold c.
  pose proof (k_push_law c (scope_cleanups (ss_scope s)) Hi Hok) as Hp.
  destruct (k_push c _) as [[[]|e] k]; cbn; unfold scope_inv, registered; cbn; rewrite Ec.
  - by destruct Hp as (? & ?).
  - by destruct Hp as (? & ? & ?).
Qed.

(** Callbacks that leave the scope alone; trying to register on the scope being
    closed is such a callback. *)
Variable effect : SlScopeCleanup -> E -> E.
Definition quiet_cleanup (c : SlScopeCleanup) (s : Sys) : Sys :=
  Build_ScopeSys (ss_scope s) (effect c (ss_env s)).

Lemma close_loop_lifo fuel s :
  scope_inv s -> (length (registered s) <= fuel)%nat ->
  exists s', close_loop quiet_cleanup fuel s = Some s' /\ scope_inv s' /\ registered s' = [] /\
    scope_closed (ss_scope s') = scope_closed (ss_scope s) /\
    ss_env s' = foldl (fun e c => effect c e) (ss_env s) (reverse (registered s)).
Proof.
  revert s; induction fuel as [|fuel IH]; intros s Hi Hf; cbn [close_loop];
    pose proof (k_pop_law (scope_cleanups (ss_scope s)) Hi) as Hp;
    destruct (k_pop (scope_cleanups (ss_scope s))) as [[c|] k].
  - destruct Hp as [_ Hc]. unfold registered in Hf. rewrite Hc, length_app in Hf. simpl in Hf. lia.
  - destruct Hp as [-> Hc]. eexists. split; [done|]. unfold registered, scope_inv. cbn. by rewrite Hc.
  - destruct Hp as [Hi' Hc].
    edestruct (IH (quiet_cleanup c (set_scope (Build_SlScope k (scope_closed (ss_scope s))) s)))
      as (s' & -> & Hi2 & Hr & Hcl & He); [done| |].
    { unfold registered in *. cbn. rewrite Hc, length_app in Hf. simpl in Hf. lia. }
    exists s'. split_and!; try done. rewrite He. unfold registered. rewrite Hc, reverse_snoc. done.
  - destruct Hp as [-> Hc]. eexists. split; [done|]. unfold registered, scope_inv. cbn. by rewrite Hc.
Qed.

(** C40: Closing an open scope terminates, runs every registered cleanup exactly
    once in reverse order of registration and leaves the scope closed and empty;
    closing it again does nothing, and registering on a closed scope is refused
    without any effect (so a cleanup that tries to register during the close
    cannot extend it). *)
Theorem scope_close_runs_lifo fuel s fn payload user :
  scope_inv s -> scope_closed (ss_scope s) = false -> (length (registered s) <= fuel)%nat ->
  exists s',
    sl_scope_close quiet_cleanup fuel REF s = Some (SL_STATUS_OK, s') /\
    scope_closed (ss_scope s') = true /\ registered s' = [] /\
    ss_env s' = foldl (fun e c => effect c e) (ss_env s) (reverse (registered s)) /\
    sl_scope_close quiet_cleanup fuel REF s' = Some (SL_STATUS_OK, s') /\
    snd (sl_scope_add_cleanup REF fn payload user s') = s' /\
    fst (sl_scope_add_cleanup REF fn payload user s') <> Ok tt.
Proof.
  intros Hi Hc Hf. unfold sl_scope_close. cbn [is_null]. rewrite Hc.
  destruct (close_loop_lifo fuel (set_scope (Build_SlScope (scope_cleanups (ss_scope s)) true) s))
    as (s' & -> & Hi' & Hr & Hcl & He); [done..|].
  cbn [ss_scope scope_closed set_scope] in Hcl. exists s'. rewrite Hcl.
  split_and!; try done.
  - unfold sl_scope_add_cleanup. unfold_st. destruct (_ || _); [done|]. by rewrite Hcl.
  - unfold sl_scope_add_cleanup. unfold_st. destruct (_ || _); [done|]. by rewrite Hcl.
Qed.

(** Registration appends to the cleanups in order, is refused when the scope
    is closed or full, and a refused registration leaves those registered before
    as they were. *)
Theorem scope_registration scope fn payload user s :
  let c := {| sc_fn := fn; sc_payload := payload; sc_user := user |} in
  scope_inv s -> k_elem_ok c ->
  match sl_scope_add_cleanup scope fn payload user s with
  | (Ok _, s') => scope_inv s' /\ registered s' = registered s ++ [c] /\ ss_env s' = ss_env s /\
                  scope_closed (ss_scope s) = false /\ scope_closed (ss_scope s') = false
  | (Err e, s') => scope_inv s' /\ registered s' = registered s /\ ss_env s' = ss_env s /\
                   scope_closed (ss_scope s') = scope_closed (ss_scope s) /\
                   (scope_closed (ss_scope s) = true -> s' = s)
  end.
Proof. apply add_cleanup_cases. Qed.
End Laws.

(** A scope over arena storage starts open and empty, fit for the stack operations; a
    refusal leaves everything as it was. *)
Lemma scope_from_arena_open {BC : BuildConfig} {E} local capacity w sc (env : E) :
  arena_wf (w_arena w) -> 0 < capacity -> capacity * 24 < 2 ^ 63 -> 0 < local -> outside_free (w_arena w) local 24 ->
  match sl_scope_init_from_arena REF REF capacity (w, sc) with
  | (Ok _, (w', sc')) =>
      scope_inv (scope_over local w' sc' env) /\ registered (scope_over local w' sc' env) = [] /\ scope_closed sc' = false /\
      sl_scope_cleanup_count REF sc' = 0 /\ sl_scope_cleanup_capacity REF sc' = capacity
  | (Err _, s') => s' = (w, sc)
  end.
Proof.
  intros Hwf Hc Hsz Hl Ho. unfold sl_scope_init_from_arena, sl_fixed_vec_init_from_arena, zoom. unfold_st. cbn [is_null orb fst snd].
  pose proof (array_alloc_spec capacity 24 8 w Hwf ltac:(size_lia) ltac:(size_lia) ltac:(size_lia) Hc ltac:(lia)) as Ha.
  change (24 =? 0) with false. cbn [fst snd]. destruct (sl_arena_array_alloc REF capacity 24 8 REF w) as [[sl|c] w1]; cbn [fst snd]; [|subst; by destruct sc].
  destruct Ha as (_ & _ & Hle & [F1 F2 F3 F4 F5 F6] & _). unfold sl_fixed_vec_init, sl_container_storage_size. unfold_st. cbn [is_null orb].
  change (24 =? 0) with false. destruct (Z.eqb_spec (slice_ptr sl) 0); [lia|]. cbn [orb andb]. destruct (Z.eqb_spec capacity 0); [lia|].
  unfold sl_checked_array_size. rewrite checked_mul_spec by size_lia. unfold checked. destruct (Z.leb_spec (capacity * 24) SIZE_MAX); [|lia].
  cbn. split_and!; [|done..]. destruct (F6 local 24 Ho) as (Hd & _). split; [split; cbn; [unfold storage_ok; lia|lia]|split; [done|]].
  split; [done|]. unfold disjoint_ranges in *. cbn. lia.
Qed.

Module Demo.
(** Two cleanup slots at 1000; the environment records the callbacks run. *)
Definition vec0 : TypedVec :=
  {| tv_sys := {| vs_mem := fun _ => 0;
                  vs_vec := {| vec_items := 1000; vec_elem_size := 24; vec_capacity := 2;
                               vec_count := 0 |} |};
     tv_local := 500 |}.
Definition scope0 : ScopeSys TypedVec (list Z) := Build_ScopeSys (Build_SlScope vec0 false) [].

Lemma scope0_inv : scope_inv scope0.
Proof.
  split; [|split].
  - split; cbn; [unfold storage_ok, UINTPTR_MAX; lia|lia].
  - done.
  - unfold vec_buffer, disjoint_ranges. cbn. lia.
Qed.

Definition scope2 : ScopeSys TypedVec (list Z) :=
  snd (sl_scope_add_cleanup REF 7 2 0 (snd (sl_scope_add_cleanup REF 7 1 0 scope0))).

Lemma scope_registration_witness :
  registered (snd (sl_scope_add_cleanup REF 7 1 0 scope0)) = [{| sc_fn := 7; sc_payload := 1; sc_user := 0 |}].
Proof.
  pose proof (scope_registration REF 7 1 0 scope0 scope0_inv ltac:(cbn; size_lia)) as H.
  destruct (sl_scope_add_cleanup REF 7 1 0 scope0) as [[[]|e] s'] eqn:E.
  - cbn [snd]. destruct H as (_ & H & _). rewrite H. vm_compute. reflexivity.
  - vm_compute in E. discriminate E.
Defined.

Lemma scope2_inv : scope_inv scope2.
Proof.
  unfold scope2. pose proof (add_cleanup_cases REF 7 1 0 scope0 scope0_inv ltac:(cbn; size_lia)) as H.
  destruct (sl_scope_add_cleanup REF 7 1 0 scope0) as [[]]; cbn [snd];
    pose proof (add_cleanup_cases REF 7 2 0 s (proj1 H) ltac:(cbn; size_lia)) as H2;
    destruct (sl_scope_add_cleanup REF 7 2 0 s) as [[]]; apply H2.
Qed.

Lemma scope_close_runs_lifo_witness :
  exists s', sl_scope_close (quiet_cleanup (fun c e => e ++ [sc_payload c])) 2 REF scope2
               = Some (SL_STATUS_OK, s') /\ ss_env s' = [2; 1].
Proof.
  destruct (scope_close_runs_lifo (fun c e => e ++ [sc_payload c]) 2 scope2 9 9 9 scope2_inv)
    as (s' & E & _ & _ & He & _).
  - reflexivity.
  - vm_compute. lia.
  - exists s'. split; [exact E|].
    assert (Hf : foldl (fun e c => e ++ [sc_payload c]) (ss_env scope2) (reverse (registered scope2)) = [2; 1])
      by (vm_compute; reflexivity).
    rewrite Hf in He. exact He.
Defined.
End Demo.
