(* ===== verification/Resource.v ===== *)
(** The fixed-capacity resource table (src/core/resource.c).

    The entry array is a list, [None] for a NULL pointer; native pointers,
    cleanup functions and their user data are addresses.  The table's calls of
    cleanup callbacks are recorded in order in [rs_cleanups], and the diagnostic
    written to [*out_diag] in [rs_diag]. *)

From S2P Require Import Prelude Memory Status Arena Container.
From Stdlib Require Strings.String.
Import Strings.String.StringSyntax.
Abbreviation string := String.string.
#[local] Open Scope string_scope.
#[local] Open Scope list_scope.
#[local] Open Scope Z_scope.

Inductive SlResourceKind :=
| SL_RESOURCE_KIND_NONE
| SL_RESOURCE_KIND_SQLITE_CONNECTION
| SL_RESOURCE_KIND_SQLITE_STATEMENT
| SL_RESOURCE_KIND_POSTGRES_CONNECTION
| SL_RESOURCE_KIND_SQLSERVER_CONNECTION
| SL_RESOURCE_KIND_POSTGRES_CURSOR
| SL_RESOURCE_KIND_SQLSERVER_CURSOR
| SL_RESOURCE_KIND_TEST_RESOURCE
| SL_RESOURCE_KIND_FS_FILE_HANDLE
| SL_RESOURCE_KIND_FS_LOCK
| SL_RESOURCE_KIND_FS_WATCH
| SL_RESOURCE_KIND_TCP_CONNECTION
| SL_RESOURCE_KIND_TCP_LISTENER
| SL_RESOURCE_KIND_LOCAL_CONNECTION
| SL_RESOURCE_KIND_LOCAL_SERVER
| SL_RESOURCE_KIND_OS_PROCESS
| SL_RESOURCE_KIND_BACKGROUND_SERVICE
| SL_RESOURCE_KIND_WORK_QUEUE
| SL_RESOURCE_KIND_WORKER_POOL
| SL_RESOURCE_KIND_JS_WORKER
| SL_RESOURCE_KIND_LIMIT.

#[export] Instance SlResourceKind_eq_dec : EqDecision SlResourceKind.
Proof. solve_decision. Defined.

Definition sl_resource_kind_name (kind : SlResourceKind) : string :=
  match kind with
  | SL_RESOURCE_KIND_NONE => "none"
  | SL_RESOURCE_KIND_SQLITE_CONNECTION => "sqlite.connection"
  | SL_RESOURCE_KIND_SQLITE_STATEMENT => "sqlite.statement"
  | SL_RESOURCE_KIND_POSTGRES_CONNECTION => "postgres.connection"
  | SL_RESOURCE_KIND_SQLSERVER_CONNECTION => "sqlserver.connection"
  | SL_RESOURCE_KIND_POSTGRES_CURSOR => "postgres.cursor"
  | SL_RESOURCE_KIND_SQLSERVER_CURSOR => "sqlserver.cursor"
  | SL_RESOURCE_KIND_TEST_RESOURCE => "test.resource"
  | SL_RESOURCE_KIND_FS_FILE_HANDLE => "fs.file_handle"
  | SL_RESOURCE_KIND_FS_LOCK => "fs.lock"
  | SL_RESOURCE_KIND_FS_WATCH => "fs.watch"
  | SL_RESOURCE_KIND_TCP_CONNECTION => "tcp.connection"
  | SL_RESOURCE_KIND_TCP_LISTENER => "tcp.listener"
  | SL_RESOURCE_KIND_LOCAL_CONNECTION => "local.connection"
  | SL_RESOURCE_KIND_LOCAL_SERVER => "local.server"
  | SL_RESOURCE_KIND_OS_PROCESS => "os.process"
  | SL_RESOURCE_KIND_BACKGROUND_SERVICE => "workers.background_service"
  | SL_RESOURCE_KIND_WORK_QUEUE => "workers.queue"
  | SL_RESOURCE_KIND_WORKER_POOL => "workers.pool"
  | SL_RESOURCE_KIND_JS_WORKER => "workers.js_worker"
  | SL_RESOURCE_KIND_LIMIT => "unknown"
  end.

Record SlResourceId := { id_slot : Z; id_generation : Z }.

#[export] Instance SlResourceId_eq_dec : EqDecision SlResourceId.
Proof. solve_decision. Defined.

Record SlResourceEntry := {
  re_ptr : Z;
  re_kind : SlResourceKind;
  re_cleanup : Z;
  re_cleanup_user : Z;
  re_generation : Z;
  re_occupied : bool;
}.

Record SlResourceTable := {
  rt_entries : option (list SlResourceEntry);
  rt_capacity : Z;
  rt_initialized : bool;
}.

Inductive ResourceDiagCode :=
| SL_DIAG_RESOURCE_INVALID_ID
| SL_DIAG_RESOURCE_STALE_ID
| SL_DIAG_RESOURCE_CLOSED
| SL_DIAG_RESOURCE_WRONG_KIND
| SL_DIAG_RESOURCE_TABLE_EXHAUSTED
| SL_DIAG_LIFECYCLE_LEAK_DETECTED.

(** The code, message and hints of a diagnostic; its severity is always error and its
    span unknown. *)
Record ResourceDiag := {
  rd_code : ResourceDiagCode;
  rd_message : string;
  rd_hints : list string;
}.

(** One call of a cleanup callback: function, pointer, user data. *)
Definition cleanup_call : Type := Z * Z * Z.

Record ResourceSys := {
  rs_table : SlResourceTable;
  rs_cleanups : list cleanup_call;
  rs_diag : option ResourceDiag;
}.

Definition set_table (t : SlResourceTable) (s : ResourceSys) : ResourceSys :=
  {| rs_table := t; rs_cleanups := rs_cleanups s; rs_diag := rs_diag s |}.
Definition set_entries (es : list SlResourceEntry) (s : ResourceSys) : ResourceSys :=
  set_table {| rt_entries := Some es; rt_capacity := rt_capacity (rs_table s);
               rt_initialized := rt_initialized (rs_table s) |} s.

Definition sl_resource_kind_is_valid (kind : SlResourceKind) : bool :=
  match kind with SL_RESOURCE_KIND_NONE | SL_RESOURCE_KIND_LIMIT => false | _ => true end.

Definition sl_resource_capacity_is_valid (capacity : Z) : bool := capacity <=? UINT32_MAX.

Definition sl_resource_next_generation (current : Z) (out : nullable) : result Z :=
  error_if is_null out || (current =? 0) with SL_STATUS_INVALID_ARGUMENT ;;
  error_if current =? UINT32_MAX with SL_STATUS_OVERFLOW ;;
  let next := wrap32 (current + 1) in
  error_if next =? 0 with SL_STATUS_OVERFLOW ;;
  Ok next.

Definition sl_resource_clear_entry (entry : SlResourceEntry) : SlResourceEntry :=
  {| re_ptr := 0; re_kind := SL_RESOURCE_KIND_NONE; re_cleanup := 0; re_cleanup_user := 0;
     re_generation := re_generation entry; re_occupied := false |}.

Definition with_generation (g : Z) (e : SlResourceEntry) : SlResourceEntry :=
  {| re_ptr := re_ptr e; re_kind := re_kind e; re_cleanup := re_cleanup e;
     re_cleanup_user := re_cleanup_user e; re_generation := g; re_occupied := re_occupied e |}.

Definition sl_resource_diag (out_diag : nullable) (code : ResourceDiagCode) (message : string)
    (expected actual : SlResourceKind) (operation : string) : ST ResourceSys unit :=
  if is_null out_diag then mret tt else
  modify (fun s => {| rs_table := rs_table s; rs_cleanups := rs_cleanups s;
                      rs_diag := Some {| rd_code := code; rd_message := message;
                                         rd_hints := [operation; sl_resource_kind_name expected;
                                                      sl_resource_kind_name actual] |} |}).

Definition sl_resource_validate_table (table : nullable) (t : SlResourceTable) : result unit :=
  error_if is_null table with SL_STATUS_INVALID_ARGUMENT ;;
  error_if negb (rt_initialized t) with SL_STATUS_INVALID_STATE ;;
  error_if bool_decide (rt_entries t = None) && negb (rt_capacity t =? 0) with SL_STATUS_INVALID_STATE ;;
  Ok tt.

Definition sl_resource_id_invalid : SlResourceId := {| id_slot := 0; id_generation := 0 |}.

Definition sl_resource_id_is_valid (id : SlResourceId) : bool :=
  negb (id_slot id =? 0) && negb (id_generation id =? 0).

(** Report a diagnostic and return an error. *)
Definition fail_diag {A} (out_diag : nullable) (code : ResourceDiagCode) (message : string)
    (expected actual : SlResourceKind) (operation : string) (status : SlStatusCode)
    : ST ResourceSys A :=
  sl_resource_diag out_diag code message expected actual operation;; fail status.

Definition uninitialized_message : string := "resource table is not initialized".

(** The index and the entry it addresses; [None] entries cannot be reached when
    [slot <= capacity] and the table validated. *)
Definition sl_resource_entry_for_id (table : nullable) (id : SlResourceId) (out_entry : nullable)
    (out_diag : nullable) (operation : string) : ST ResourceSys (nat * SlResourceEntry) :=
  t ← gets rs_table;
  match sl_resource_validate_table table t with
  | Err status =>
      fail_diag out_diag SL_DIAG_RESOURCE_INVALID_ID uninitialized_message SL_RESOURCE_KIND_NONE
        SL_RESOURCE_KIND_NONE operation status
  | Ok _ =>
      return_if is_null out_entry with SL_STATUS_INVALID_ARGUMENT ;;
      if negb (sl_resource_id_is_valid id) then
        fail_diag out_diag SL_DIAG_RESOURCE_INVALID_ID "resource id is invalid" SL_RESOURCE_KIND_NONE
          SL_RESOURCE_KIND_NONE operation SL_STATUS_INVALID_ARGUMENT
      else if rt_capacity t <? id_slot id then
        fail_diag out_diag SL_DIAG_RESOURCE_INVALID_ID "resource slot does not exist"
          SL_RESOURCE_KIND_NONE SL_RESOURCE_KIND_NONE operation SL_STATUS_OUT_OF_RANGE
      else
        let index := Z.to_nat (id_slot id - 1) in
        match default [] (rt_entries t) !! index with
        | Some e => mret (index, e)
        | None => fail SL_STATUS_INTERNAL
        end
  end.

Definition fresh_entry : SlResourceEntry :=
  {| re_ptr := 0; re_kind := SL_RESOURCE_KIND_NONE; re_cleanup := 0; re_cleanup_user := 0;
     re_generation := 1; re_occupied := false |}.

(** [storage] is whether the caller's array is non-NULL; its first [capacity]
    entries are overwritten. *)
Definition sl_resource_table_init (table storage : nullable) (capacity : Z) : ST ResourceSys unit :=
  return_if is_null table with SL_STATUS_INVALID_ARGUMENT ;;
  t ← gets rs_table;
  return_if rt_initialized t with SL_STATUS_INVALID_STATE ;;
  return_if is_null storage && negb (capacity =? 0) with SL_STATUS_INVALID_ARGUMENT ;;
  return_if negb (sl_resource_capacity_is_valid capacity) with SL_STATUS_OVERFLOW ;;
  modify (set_table {| rt_entries := if is_null storage then None
                                     else Some (replicate (Z.to_nat capacity) fresh_entry);
                       rt_capacity := capacity; rt_initialized := true |}).

(** [SlResourceEntry] has 40 bytes and alignment 8. *)
Definition sl_resource_table_init_from_arena `{BuildConfig} (table arena : nullable) (capacity : Z)
    : ST (World * ResourceSys) unit :=
  return_if is_null table || is_null arena with SL_STATUS_INVALID_ARGUMENT ;;
  t ← gets (fun s => rs_table (snd s));
  return_if rt_initialized t with SL_STATUS_INVALID_STATE ;;
  return_if negb (sl_resource_capacity_is_valid capacity) with SL_STATUS_OVERFLOW ;;
  if capacity =? 0
  then zoom snd (fun r s => (fst s, r)) (sl_resource_table_init table NULL 0) else
  zoom fst (fun w s => (w, snd s)) (sl_arena_array_alloc arena capacity 40 8 REF);;
  zoom snd (fun r s => (fst s, r)) (sl_resource_table_init table REF capacity).

(** The search for a free entry: its index and the entry. *)
Fixpoint first_free (es : list SlResourceEntry) : option (nat * SlResourceEntry) :=
  match es with
  | [] => None
  | e :: es => if negb (re_occupied e) then Some (O, e)
               else (fun '(i, e) => (S i, e)) <$> first_free es
  end.

Definition sl_resource_table_insert (table : nullable) (kind : SlResourceKind) (ptr cleanup cleanup_user : Z)
    (out_id out_diag : nullable) : ST ResourceSys SlResourceId :=
  t ← gets rs_table;
  match sl_resource_validate_table table t with
  | Err status =>
      fail_diag out_diag SL_DIAG_RESOURCE_INVALID_ID uninitialized_message kind SL_RESOURCE_KIND_NONE
        "insert" status
  | Ok _ =>
      return_if negb (sl_resource_kind_is_valid kind) || (ptr =? 0) || is_null out_id
        with SL_STATUS_INVALID_ARGUMENT ;;
      let es := default [] (rt_entries t) in
      match first_free (take (Z.to_nat (rt_capacity t)) es) with
      | None =>
          fail_diag out_diag SL_DIAG_RESOURCE_TABLE_EXHAUSTED "resource table is exhausted" kind
            SL_RESOURCE_KIND_NONE "insert" SL_STATUS_CAPACITY_EXCEEDED
      | Some (i, e) =>
          let g := if re_generation e =? 0 then 1 else re_generation e in
          if UINT32_MAX <? Z.of_nat i + 1 then
            modify (set_entries (<[i := with_generation g e]> es));; fail SL_STATUS_OVERFLOW
          else
            modify (set_entries (<[i := {| re_ptr := ptr; re_kind := kind; re_cleanup := cleanup;
                                           re_cleanup_user := cleanup_user; re_generation := g;
                                           re_occupied := true |}]> es));;
            mret {| id_slot := wrap32 (Z.of_nat i + 1); id_generation := g |}
      end
  end.

Definition sl_resource_table_get (table : nullable) (id : SlResourceId)
    (expected_kind : SlResourceKind) (out_ptr out_diag : nullable) : ST ResourceSys Z :=
  return_if is_null out_ptr || negb (sl_resource_kind_is_valid expected_kind)
    with SL_STATUS_INVALID_ARGUMENT ;;
  '(_, entry) ← sl_resource_entry_for_id table id REF out_diag "lookup";
  if negb (re_generation entry =? id_generation id) then
    fail_diag out_diag SL_DIAG_RESOURCE_STALE_ID "resource id is stale" expected_kind (re_kind entry)
      "lookup" SL_STATUS_STALE_RESOURCE
  else if negb (re_occupied entry) || (re_ptr entry =? 0) then
    fail_diag out_diag SL_DIAG_RESOURCE_CLOSED "resource is closed" expected_kind (re_kind entry)
      "lookup" SL_STATUS_INVALID_STATE
  else if negb (bool_decide (re_kind entry = expected_kind)) then
    fail_diag out_diag SL_DIAG_RESOURCE_WRONG_KIND "resource kind does not match" expected_kind
      (re_kind entry) "lookup" SL_STATUS_WRONG_RESOURCE_KIND
  else mret (re_ptr entry).

(** [if (cleanup != NULL) cleanup(ptr, cleanup_user);] *)
Definition call_cleanup (entry : SlResourceEntry) (s : ResourceSys) : ResourceSys :=
  if re_cleanup entry =? 0 then s else
  {| rs_table := rs_table s;
     rs_cleanups := rs_cleanups s ++ [(re_cleanup entry, re_ptr entry, re_cleanup_user entry)];
     rs_diag := rs_diag s |}.

Definition sl_resource_table_close_kind (table : nullable) (id : SlResourceId)
    (expected_kind : SlResourceKind) (out_diag : nullable) : ST ResourceSys unit :=
  return_if negb (sl_resource_kind_is_valid expected_kind) with SL_STATUS_INVALID_ARGUMENT ;;
  '(index, entry) ← sl_resource_entry_for_id table id REF out_diag "close";
  if negb (re_generation entry =? id_generation id) then
    fail_diag out_diag SL_DIAG_RESOURCE_STALE_ID "resource id is stale" SL_RESOURCE_KIND_NONE
      (re_kind entry) "close" SL_STATUS_STALE_RESOURCE
  else if negb (re_occupied entry) || (re_ptr entry =? 0) then
    fail_diag out_diag SL_DIAG_RESOURCE_CLOSED "resource is already closed" SL_RESOURCE_KIND_NONE
      (re_kind entry) "close" SL_STATUS_INVALID_STATE
  else if negb (bool_decide (re_kind entry = expected_kind)) then
    fail_diag out_diag SL_DIAG_RESOURCE_WRONG_KIND "resource kind does not match" expected_kind
      (re_kind entry) "close" SL_STATUS_WRONG_RESOURCE_KIND
  else
    next_generation ← lift (sl_resource_next_generation (re_generation entry) REF);
    t ← gets rs_table;
    modify (set_entries (<[index := with_generation next_generation (sl_resource_clear_entry entry)]>
                           (default [] (rt_entries t))));;
    modify (call_cleanup entry).

Definition sl_resource_table_close (table : nullable) (id : SlResourceId) (out_diag : nullable)
    : ST ResourceSys unit :=
  '(_, entry) ← sl_resource_entry_for_id table id REF out_diag "close";
  if negb (sl_resource_kind_is_valid (re_kind entry))
  then sl_resource_table_close_kind table id SL_RESOURCE_KIND_TEST_RESOURCE out_diag
  else sl_resource_table_close_kind table id (re_kind entry) out_diag.

Definition sl_resource_table_contains (table : nullable) (id : SlResourceId)
    (expected_kind : SlResourceKind) (s : ResourceSys) : bool :=
  is_ok (fst (sl_resource_table_get table id expected_kind REF NULL s)).

Definition sl_resource_table_is_alive (table : nullable) (id : SlResourceId) (s : ResourceSys) : bool :=
  if negb (sl_resource_id_is_valid id) then false else
  match fst (sl_resource_entry_for_id table id REF NULL "alive" s) with
  | Err _ => false
  | Ok (_, entry) =>
      re_occupied entry && negb (re_ptr entry =? 0) && (re_generation entry =? id_generation id)
  end.

Definition entry_live (e : SlResourceEntry) : bool := re_occupied e && negb (re_ptr e =? 0).

Definition sl_resource_table_capacity (table : nullable) (s : ResourceSys) : Z :=
  if is_null table then 0 else rt_capacity (rs_table s).

Definition sl_resource_table_live_count (table : nullable) (s : ResourceSys) : Z :=
  match rt_entries (rs_table s) with
  | Some es => if is_null table then 0
               else Z.of_nat (length (filter (fun e => entry_live e = true)
                                        (take (Z.to_nat (rt_capacity (rs_table s))) es)))
  | None => 0
  end.

(** The counters of the loop over the entries; [sn_live_by_kind] is an array indexed by kinds. *)
Record SlResourceTableSnapshot := {
  sn_capacity : Z;
  sn_live_count : Z;
  sn_closed_count : Z;
  sn_leaked_resource_count : Z;
  sn_live_by_kind : SlResourceKind -> Z;
}.

Definition count_entries (p : SlResourceEntry -> bool) (es : list SlResourceEntry) : Z := Z.of_nat (length (List.filter p es)).

Definition sl_resource_table_snapshot (table : nullable) (s : ResourceSys) : SlResourceTableSnapshot :=
  match rt_entries (rs_table s) with
  | Some es =>
      if is_null table then Build_SlResourceTableSnapshot 0 0 0 0 (fun _ => 0) else
      let es := take (Z.to_nat (rt_capacity (rs_table s))) es in
      {| sn_capacity := rt_capacity (rs_table s);
         sn_live_count := count_entries entry_live es;
         sn_closed_count := count_entries (fun e => negb (entry_live e) && (1 <? re_generation e)) es;
         sn_leaked_resource_count := count_entries entry_live es;
         sn_live_by_kind kind := count_entries (fun e => entry_live e && bool_decide (re_kind e = kind)) es |}
  | None => Build_SlResourceTableSnapshot 0 0 0 0 (fun _ => 0)
  end.

Definition sl_resource_table_assert_no_leaks (table out_diag : nullable) : ST ResourceSys unit :=
  (if is_null out_diag then mret tt
   else modify (fun s => {| rs_table := rs_table s; rs_cleanups := rs_cleanups s; rs_diag := None |}));;
  t ← gets rs_table;
  match sl_resource_validate_table table t with
  | Err status =>
      fail_diag out_diag SL_DIAG_RESOURCE_INVALID_ID uninitialized_message SL_RESOURCE_KIND_NONE
        SL_RESOURCE_KIND_NONE "leak check" status
  | Ok _ =>
      snapshot ← gets (sl_resource_table_snapshot table);
      if sn_live_count snapshot =? 0 then mret tt else
      (if is_null out_diag then mret tt
       else modify (fun s => {| rs_table := rs_table s; rs_cleanups := rs_cleanups s;
                                rs_diag := Some {| rd_code := SL_DIAG_LIFECYCLE_LEAK_DETECTED;
                                                   rd_message := "resource table has live resources";
                                                   rd_hints := ["close or transfer resources before leak check"] |} |}));;
      fail SL_STATUS_INVALID_STATE
  end.

(** What [dispose] does to one entry. *)
Definition dispose_entry (entry : SlResourceEntry) : SlResourceEntry :=
  if entry_live entry then
    let cleared := sl_resource_clear_entry entry in
    match sl_resource_next_generation (re_generation entry) REF with
    | Ok next_generation => with_generation next_generation cleared
    | Err _ => cleared
    end
  else entry.

Fixpoint dispose_loop (i : nat) (n : nat) (s : ResourceSys) : ResourceSys :=
  match n with
  | O => s
  | S n =>
      let es := default [] (rt_entries (rs_table s)) in
      dispose_loop (S i) n
        match es !! i with
        | Some entry =>
            if entry_live entry
            then call_cleanup entry (set_entries (<[i := dispose_entry entry]> es) s) else s
        | None => s
        end
  end.

Definition sl_resource_table_dispose (table : nullable) (s : ResourceSys) : ResourceSys :=
  if is_null table || negb (rt_initialized (rs_table s)) || bool_decide (rt_entries (rs_table s) = None)
  then s else
  let s := dispose_loop 0 (Z.to_nat (rt_capacity (rs_table s))) s in
  set_table {| rt_entries := None; rt_capacity := 0; rt_initialized := rt_initialized (rs_table s) |} s.

(** * The table invariant *)

Definition entry_wf (e : SlResourceEntry) : Prop :=
  1 <= re_generation e <= UINT32_MAX /\
  (re_occupied e = true -> re_ptr e <> 0 /\ sl_resource_kind_is_valid (re_kind e) = true).

Record table_wf (t : SlResourceTable) (es : list SlResourceEntry) : Prop := {
  tw_init : rt_initialized t = true;
  tw_entries : default [] (rt_entries t) = es;
  tw_capacity : rt_capacity t = Z.of_nat (length es) /\ rt_capacity t <= UINT32_MAX;
  tw_all : Forall entry_wf es;
}.

(** Only the diagnostic may differ. *)
Definition same_table (s s' : ResourceSys) : Prop :=
  rs_table s' = rs_table s /\ rs_cleanups s' = rs_cleanups s.

Lemma validate_ok t es : table_wf t es -> sl_resource_validate_table REF t = Ok tt.
Proof.
  intros [Hi He [Hc _] _]. unfold sl_resource_validate_table. rewrite Hi. cbn [is_null negb].
  case_bool_decide as Hn; [|done]. rewrite Hn in He. cbn in He. subst es. rewrite Hc. done.
Qed.

Lemma fail_diag_same {A} d code msg ex ac op st s :
  exists s', @fail_diag A d code msg ex ac op st s = (Err st, s') /\ same_table s s'.
Proof.
  unfold fail_diag, sl_resource_diag, same_table. unfold_st. destruct (is_null d); by eexists.
Qed.

Ltac solve_fail_diag :=
  match goal with
  | |- context [@fail_diag ?A ?d ?code ?msg ?ex ?ac ?op ?st ?s] =>
      let H := fresh in
      destruct (@fail_diag_same A d code msg ex ac op st s) as (? & H & ?); rewrite H; clear H
  end.

(** The fields of an id have 32 bits. *)
Definition id_wf (id : SlResourceId) : Prop := is_u32 (id_slot id) /\ is_u32 (id_generation id).

Lemma entry_for_id_cases id d op s es :
  table_wf (rs_table s) es -> id_wf id ->
  match sl_resource_entry_for_id REF id REF d op s with
  | (Ok (i, e), s') =>
      s' = s /\ es !! i = Some e /\ Z.of_nat i + 1 = id_slot id /\ id_generation id <> 0
  | (Err c, s') => same_table s s' /\
      (sl_resource_id_is_valid id = false \/ Z.of_nat (length es) < id_slot id)
  end.
Proof.
  intros Hwf Hid. unfold sl_resource_entry_for_id. unfold_st. rewrite (validate_ok _ es Hwf).
  cbn [is_null]. destruct (sl_resource_id_is_valid id) eqn:Ev; cbn [negb].
  2: { solve_fail_diag. auto. }
  unfold sl_resource_id_is_valid in Ev. apply andb_true_iff in Ev as [E1 E2].
  apply negb_true_iff, Z.eqb_neq in E1. apply negb_true_iff, Z.eqb_neq in E2.
  destruct (tw_capacity _ _ Hwf) as [Hc Hm]. unfold id_wf in Hid.
  destruct (Z.ltb_spec (rt_capacity (rs_table s)) (id_slot id)) as [Hlt|Hle].
  { solve_fail_diag. split; [done|]. lia. }
  destruct (lookup_lt_is_Some_2 es (Z.to_nat (id_slot id - 1))) as [e He]; [size_lia|].
  rewrite (tw_entries _ _ Hwf), He. split_and!; try done. size_lia.
Qed.

(** What a lookup of [id] as [kind] must answer, from the entries alone. *)
Definition lookup_result (es : list SlResourceEntry) (id : SlResourceId) (kind : SlResourceKind)
    : result Z :=
  if negb (sl_resource_id_is_valid id) then Err SL_STATUS_INVALID_ARGUMENT else
  match es !! Z.to_nat (id_slot id - 1) with
  | None => Err SL_STATUS_OUT_OF_RANGE
  | Some e =>
      if negb (re_generation e =? id_generation id) then Err SL_STATUS_STALE_RESOURCE else
      if negb (re_occupied e) then Err SL_STATUS_INVALID_STATE else
      if negb (bool_decide (re_kind e = kind)) then Err SL_STATUS_WRONG_RESOURCE_KIND
      else Ok (re_ptr e)
  end.

Lemma entry_for_id_err id d op s es c s' :
  table_wf (rs_table s) es -> id_wf id ->
  sl_resource_entry_for_id REF id REF d op s = (Err c, s') ->
  forall kind, lookup_result es id kind = Err c.
Proof.
  intros Hwf Hid. unfold sl_resource_entry_for_id, lookup_result. unfold_st.
  rewrite (validate_ok _ es Hwf). cbn [is_null]. intros E kind.
  destruct (sl_resource_id_is_valid id) eqn:Ev; cbn [negb] in *.
  2: { unfold fail_diag, sl_resource_diag in E. unfold_st. destruct (is_null d); by simplify_eq. }
  unfold sl_resource_id_is_valid in Ev. apply andb_true_iff in Ev as [E1 E2].
  apply negb_true_iff, Z.eqb_neq in E1. destruct (tw_capacity _ _ Hwf) as [Hc Hm]. unfold id_wf in Hid.
  destruct (Z.ltb_spec (rt_capacity (rs_table s)) (id_slot id)) as [Hlt|Hle].
  - rewrite lookup_ge_None_2 by size_lia.
    unfold fail_diag, sl_resource_diag in E. unfold_st. destruct (is_null d); by simplify_eq.
  - rewrite (tw_entries _ _ Hwf) in E.
    destruct (lookup_lt_is_Some_2 es (Z.to_nat (id_slot id - 1))) as [e He]; [size_lia|].
    by rewrite He in E.
Qed.

Lemma occupied_ptr es i e :
  Forall entry_wf es -> es !! i = Some e -> re_occupied e = true -> (re_ptr e =? 0) = false.
Proof. intros Hf He Ho. apply Z.eqb_neq. by apply (Forall_lookup_1 _ _ _ _ Hf He). Qed.

(** [solve_fail_diag] with the status: an error with the table untouched. *)
Lemma get_spec id kind d s es :
  table_wf (rs_table s) es -> id_wf id -> sl_resource_kind_is_valid kind = true ->
  fst (sl_resource_table_get REF id kind REF d s) = lookup_result es id kind /\
  same_table s (snd (sl_resource_table_get REF id kind REF d s)).
Proof.
  intros Hwf Hid Hk. unfold sl_resource_table_get. unfold_st. rewrite Hk. cbn [is_null orb negb].
  pose proof (entry_for_id_cases id d "lookup" s es Hwf Hid) as Hc.
  destruct (sl_resource_entry_for_id REF id REF d "lookup" s) as [[[i e]|c] s'] eqn:Ee.
  2: { cbn. destruct Hc as [Hs _]. by rewrite (entry_for_id_err _ _ _ _ _ _ _ Hwf Hid Ee kind). }
  destruct Hc as (-> & He & Hslot & Hg). unfold lookup_result, sl_resource_id_is_valid.
  destruct (Z.eqb_spec (id_slot id) 0); [lia|]. destruct (Z.eqb_spec (id_generation id) 0); [lia|].
  cbn [negb andb]. replace (Z.to_nat (id_slot id - 1)) with i by lia. rewrite He.
  destruct (re_generation e =? id_generation id); cbn [negb]; [|by solve_fail_diag].
  destruct (re_occupied e) eqn:Eo; cbn [negb orb]; [|by solve_fail_diag].
  rewrite (occupied_ptr es i e (tw_all _ _ Hwf) He Eo).
  destruct (bool_decide (re_kind e = kind)); cbn [negb]; [done|by solve_fail_diag].
Qed.

Lemma first_free_some es i e :
  first_free es = Some (i, e) ->
  es !! i = Some e /\ re_occupied e = false /\ Forall (fun e => re_occupied e = true) (take i es).
Proof.
  revert i; induction es as [|x es IH]; intros i; cbn [first_free]; [done|].
  destruct (re_occupied x) eqn:Eo; cbn [negb].
  - destruct (first_free es) as [[j y]|] eqn:Ef; [|done]. intros [= <- ->].
    destruct (IH j eq_refl) as (? & ? & ?). split_and!; [done..|]. cbn. by constructor.
  - intros [= <- <-]. by split_and!.
Qed.

Lemma first_free_none es : first_free es = None -> Forall (fun e => re_occupied e = true) es.
Proof.
  induction es as [|x es IH]; cbn [first_free]; [constructor|].
  destruct (re_occupied x) eqn:Eo; cbn [negb]; [|done].
  destruct (first_free es) as [[]|]; [done|]. intros _. constructor; auto.
Qed.

(** The table after entry [i] was replaced. *)
Lemma set_entries_wf s es i e :
  table_wf (rs_table s) es -> entry_wf e -> table_wf (rs_table (set_entries (<[i := e]> es) s)) (<[i := e]> es).
Proof.
  intros [Hi He [Hc Hm] Ha] Hwf. split; cbn; [done|done| |].
  - by rewrite length_insert.
  - by apply Forall_insert.
Qed.

Definition new_entry (kind : SlResourceKind) (ptr cleanup user g : Z) : SlResourceEntry :=
  {| re_ptr := ptr; re_kind := kind; re_cleanup := cleanup; re_cleanup_user := user;
     re_generation := g; re_occupied := true |}.

Lemma insert_cases kind ptr cleanup user d s es :
  table_wf (rs_table s) es -> sl_resource_kind_is_valid kind = true -> ptr <> 0 ->
  match sl_resource_table_insert REF kind ptr cleanup user REF d s with
  | (Ok id, s') => exists i e,
      es !! i = Some e /\ re_occupied e = false /\
      Forall (fun e => re_occupied e = true) (take i es) /\
      id = {| id_slot := Z.of_nat i + 1; id_generation := re_generation e |} /\ id_wf id /\
      table_wf (rs_table s') (<[i := new_entry kind ptr cleanup user (re_generation e)]> es) /\
      rs_cleanups s' = rs_cleanups s
  | (Err c, s') => same_table s s' /\ c = SL_STATUS_CAPACITY_EXCEEDED /\
                   Forall (fun e => re_occupied e = true) es
  end.
Proof.
  intros Hwf Hk Hp. unfold sl_resource_table_insert. unfold_st. rewrite (validate_ok _ es Hwf), Hk.
  destruct (Z.eqb_spec ptr 0); [done|]. cbn [is_null negb orb].
  destruct (tw_capacity _ _ Hwf) as [Hc Hm]. rewrite (tw_entries _ _ Hwf), Hc, Nat2Z.id, firstn_all.
  destruct (first_free es) as [[i e]|] eqn:Ef.
  2: { solve_fail_diag. split_and!; try done. by apply first_free_none. }
  apply first_free_some in Ef as (He & Ho & Hpre).
  pose proof (Forall_lookup_1 _ _ _ _ (tw_all _ _ Hwf) He) as [Hg _].
  pose proof (lookup_lt_Some _ _ _ He).
  destruct (Z.eqb_spec (re_generation e) 0); [lia|].
  destruct (Z.ltb_spec UINT32_MAX (Z.of_nat i + 1)); [lia|].
  rewrite wrap32_small by size_lia. exists i, e. split_and!; try done.
  - split; cbn; size_lia.
  - by apply set_entries_wf.
Qed.

(** Close succeeds exactly on a live entry of the right kind whose generation can
    advance. *)
Lemma close_kind_cases id kind d s es :
  table_wf (rs_table s) es -> id_wf id -> sl_resource_kind_is_valid kind = true ->
  match sl_resource_table_close_kind REF id kind d s with
  | (Ok _, s') => exists i e,
      es !! i = Some e /\ Z.of_nat i + 1 = id_slot id /\ re_generation e = id_generation id /\
      re_occupied e = true /\ re_kind e = kind /\ re_generation e < UINT32_MAX /\
      table_wf (rs_table s')
        (<[i := with_generation (re_generation e + 1) (sl_resource_clear_entry e)]> es) /\
      rs_cleanups s' = rs_cleanups s ++
        (if re_cleanup e =? 0 then [] else [(re_cleanup e, re_ptr e, re_cleanup_user e)])
  | (Err _, s') => same_table s s'
  end.
Proof.
  intros Hwf Hid Hk. unfold sl_resource_table_close_kind. unfold_st. rewrite Hk. cbn [negb].
  pose proof (entry_for_id_cases id d "close" s es Hwf Hid) as Hc.
  destruct (sl_resource_entry_for_id REF id REF d "close" s) as [[[i e]|c] s'] eqn:Ee; [|apply Hc].
  destruct Hc as (-> & He & Hslot & Hg).
  destruct (Z.eqb_spec (re_generation e) (id_generation id)); cbn [negb]; [|by solve_fail_diag].
  destruct (re_occupied e) eqn:Eo; cbn [negb orb]; [|by solve_fail_diag].
  rewrite (occupied_ptr es i e (tw_all _ _ Hwf) He Eo).
  destruct (bool_decide_reflect (re_kind e = kind)); cbn [negb]; [|by solve_fail_diag].
  pose proof (Forall_lookup_1 _ _ _ _ (tw_all _ _ Hwf) He) as [Hgen _].
  unfold sl_resource_next_generation. cbn [is_null orb].
  destruct (Z.eqb_spec (re_generation e) 0); [lia|].
  destruct (Z.eqb_spec (re_generation e) UINT32_MAX); [done|].
  rewrite wrap32_small by size_lia. destruct (Z.eqb_spec (re_generation e + 1) 0); [lia|].
  rewrite (tw_entries _ _ Hwf). exists i, e. split_and!; try done; [lia| |].
  - assert (Hnew : table_wf (rs_table (set_entries (<[i := with_generation (re_generation e + 1)
      (sl_resource_clear_entry e)]> es) s)) (<[i := with_generation (re_generation e + 1)
      (sl_resource_clear_entry e)]> es)).
    { apply set_entries_wf; [done|]. split; cbn; [lia|done]. }
    unfold call_cleanup. split_if; exact Hnew.
  - unfold call_cleanup. split_if; cbn; [by rewrite app_nil_r|done].
Qed.

Lemma close_is_close_kind id d s es :
  table_wf (rs_table s) es -> id_wf id ->
  (exists kind, sl_resource_kind_is_valid kind = true /\
     sl_resource_table_close REF id d s = sl_resource_table_close_kind REF id kind d s) \/
  (exists c s', sl_resource_table_close REF id d s = (Err c, s') /\ same_table s s').
Proof.
  intros Hwf Hid. unfold sl_resource_table_close. unfold_st.
  pose proof (entry_for_id_cases id d "close" s es Hwf Hid) as Hc.
  destruct (sl_resource_entry_for_id REF id REF d "close" s) as [[[i e]|c] s'].
  - destruct Hc as (-> & _). left. destruct (sl_resource_kind_is_valid (re_kind e)) eqn:Ek; cbn [negb];
      eexists; (split; [|reflexivity]); done.
  - right. destruct Hc as [Hs _]. by eexists _, _.
Qed.

(** The cleanup calls still owed to the live entries, in slot order. *)
Definition owed (e : SlResourceEntry) : list cleanup_call :=
  if entry_live e && negb (re_cleanup e =? 0)
  then [(re_cleanup e, re_ptr e, re_cleanup_user e)] else [].

Definition owed_all (es : list SlResourceEntry) : list cleanup_call := mbind owed es.

Lemma owed_all_insert es i e e' :
  es !! i = Some e -> owed e ++ owed_all (<[i := e']> es) ≡ₚ owed e' ++ owed_all es.
Proof.
  intros He. apply list_elem_of_split_length in He as (l1 & l2 & -> & ->).
  rewrite insert_app_r_alt, Nat.sub_diag by lia. cbn. unfold owed_all. rewrite !bind_app. cbn.
  rewrite !app_assoc. apply Permutation_app_tail. rewrite (Permutation_app_comm (owed e)).
  rewrite <- app_assoc, (Permutation_app_comm (owed e)), app_assoc. apply Permutation_app_tail.
  apply Permutation_app_comm.
Qed.

Lemma dispose_loop_spec i n s es :
  rt_entries (rs_table s) = Some es -> (i + n = length es)%nat ->
  rs_cleanups (dispose_loop i n s) = rs_cleanups s ++ owed_all (drop i es) /\
  rt_initialized (rs_table (dispose_loop i n s)) = rt_initialized (rs_table s).
Proof.
  revert i s es; induction n as [|n IH]; intros i s es He Hn; cbn [dispose_loop].
  - rewrite drop_ge by lia. cbn. by rewrite app_nil_r.
  - rewrite He. cbn [default].
    destruct (lookup_lt_is_Some_2 es i) as [e Hi]; [lia|]. unfold id. rewrite Hi.
    rewrite (drop_S es e i Hi). unfold owed_all. cbn [mbind list_bind]. unfold owed at 1.
    destruct (entry_live e); cbn [andb].
    + assert (Ed : drop (S i) (<[i := dispose_entry e]> es) = drop (S i) es)
        by (apply drop_insert_lt; lia).
      unfold call_cleanup. destruct (re_cleanup e =? 0); cbn [negb].
      * destruct (IH (S i) (set_entries (<[i := dispose_entry e]> es) s) (<[i := dispose_entry e]> es))
          as [-> ->]; [done|rewrite length_insert; lia|]. by rewrite Ed.
      * edestruct (IH (S i)) as [-> ->]; [done|rewrite length_insert; lia|]. cbn.
        rewrite Ed, <- app_assoc. done.
    + by apply IH; [|lia].
Qed.

Lemma dispose_spec s es :
  table_wf (rs_table s) es ->
  table_wf (rs_table (sl_resource_table_dispose REF s)) [] /\
  rs_cleanups (sl_resource_table_dispose REF s) = rs_cleanups s ++ owed_all es.
Proof.
  intros Hwf. unfold sl_resource_table_dispose. rewrite (tw_init _ _ Hwf). cbn [is_null orb negb].
  pose proof (tw_entries _ _ Hwf) as He. destruct (tw_capacity _ _ Hwf) as [Hc Hm].
  destruct (rt_entries (rs_table s)) as [es'|] eqn:Ee; cbn in He; subst es.
  - rewrite bool_decide_eq_false_2 by done. rewrite Hc, Nat2Z.id.
    destruct (dispose_loop_spec 0 (length es') s es' Ee ltac:(lia)) as [H1 H2].
    split; [|exact H1]. rewrite (tw_init _ _ Hwf) in H2.
    split; cbn; [done|done|size_lia|constructor].
  - rewrite bool_decide_eq_true_2 by done. split.
    + split; [apply Hwf|by rewrite Ee| |constructor]. rewrite Hc. cbn. size_lia.
    + cbn. by rewrite app_nil_r.
Qed.

(** * Runs of table operations *)

Inductive resource_cmd :=
| RInsert (kind : SlResourceKind) (ptr cleanup user : Z) (d : nullable)
| RClose (id : SlResourceId) (d : nullable)
| RCloseKind (id : SlResourceId) (kind : SlResourceKind) (d : nullable)
| RGet (id : SlResourceId) (kind : SlResourceKind) (d : nullable)
| RDispose.

Definition cmd_ok (c : resource_cmd) : Prop :=
  match c with
  | RInsert kind ptr _ _ _ => sl_resource_kind_is_valid kind = true /\ ptr <> 0
  | RClose id _ => id_wf id
  | RCloseKind id kind _ | RGet id kind _ => id_wf id /\ sl_resource_kind_is_valid kind = true
  | RDispose => True
  end.

(** The state after a command, and the cleanup a successful insertion registers. *)
Definition resource_exec (c : resource_cmd) (s : ResourceSys) : ResourceSys * list cleanup_call :=
  match c with
  | RInsert kind ptr cleanup user d =>
      let '(r, s') := sl_resource_table_insert REF kind ptr cleanup user REF d s in
      (s', if is_ok r && negb (cleanup =? 0) then [(cleanup, ptr, user)] else [])
  | RClose id d => (snd (sl_resource_table_close REF id d s), [])
  | RCloseKind id kind d => (snd (sl_resource_table_close_kind REF id kind d s), [])
  | RGet id kind d => (snd (sl_resource_table_get REF id kind REF d s), [])
  | RDispose => (sl_resource_table_dispose REF s, [])
  end.

Fixpoint resource_run (cs : list resource_cmd) (s : ResourceSys) : ResourceSys * list cleanup_call :=
  match cs with
  | [] => (s, [])
  | c :: cs => let '(s1, r1) := resource_exec c s in
               let '(s2, r2) := resource_run cs s1 in (s2, r1 ++ r2)
  end.

(** How one slot may change: not at all, to a later generation, from free to
    occupied in the same generation, or the whole table is gone. *)
Definition entry_evolves (e e' : SlResourceEntry) : Prop :=
  e' = e \/ re_generation e < re_generation e' \/
  (re_occupied e = false /\ re_generation e' = re_generation e).

Definition entries_evolve (es es' : list SlResourceEntry) : Prop :=
  forall i e', es' !! i = Some e' -> exists e, es !! i = Some e /\ entry_evolves e e'.

Lemma entries_evolve_refl es : entries_evolve es es.
Proof. intros i e He. exists e. split; [done|by left]. Qed.

Lemma entries_evolve_insert es i e e' :
  es !! i = Some e -> entry_evolves e e' -> entries_evolve es (<[i := e']> es).
Proof.
  intros He Hev j x Hx. apply list_lookup_insert_Some in Hx as [(-> & -> & ?)|[Hne Hx]]; [by exists e|].
  exists x. split; [done|by left].
Qed.

Lemma entry_evolves_trans e1 e2 e3 :
  entry_evolves e1 e2 -> entry_evolves e2 e3 -> entry_evolves e1 e3.
Proof.
  unfold entry_evolves. intros [->|[?|[? ?]]] [->|[?|[? ?]]]; auto.
  - right; left; lia.
  - right; left; lia.
  - right; left; lia.
  - right; right; split; [done|lia].
Qed.

Lemma entries_evolve_trans es1 es2 es3 :
  entries_evolve es1 es2 -> entries_evolve es2 es3 -> entries_evolve es1 es3.
Proof.
  intros H1 H2 i e He. destruct (H2 i e He) as (e2 & He2 & ?). destruct (H1 i e2 He2) as (e1 & ? & ?).
  exists e1. split; [done|]. by eapply entry_evolves_trans.
Qed.

(** One command: invariant, slot evolution, and the books of cleanup calls. *)
Lemma resource_exec_spec c s es :
  table_wf (rs_table s) es -> cmd_ok c ->
  let '(s', new) := resource_exec c s in
  exists es', table_wf (rs_table s') es' /\ entries_evolve es es' /\
    rs_cleanups s' ++ owed_all es' ≡ₚ rs_cleanups s ++ owed_all es ++ new.
Proof.
  intros Hwf Hok.
  assert (Hsame : forall s', same_table s s' -> exists es', table_wf (rs_table s') es' /\
     entries_evolve es es' /\ rs_cleanups s' ++ owed_all es' ≡ₚ rs_cleanups s ++ owed_all es ++ []).
  { intros s' [Ht Hc]. exists es. rewrite Ht, Hc, app_nil_r. split_and!; try done.
    apply entries_evolve_refl. }
  assert (Hclose : forall id kind d, id_wf id -> sl_resource_kind_is_valid kind = true ->
     exists es', table_wf (rs_table (snd (sl_resource_table_close_kind REF id kind d s))) es' /\
     entries_evolve es es' /\
     rs_cleanups (snd (sl_resource_table_close_kind REF id kind d s)) ++ owed_all es'
       ≡ₚ rs_cleanups s ++ owed_all es ++ []).
  { intros id kind d Hid Hk. pose proof (close_kind_cases id kind d s es Hwf Hid Hk) as Hc.
    destruct (sl_resource_table_close_kind REF id kind d s) as [[[]|c'] s']; [|by apply Hsame]. cbn [snd].
    destruct Hc as (i & e & He & _ & Hg & Ho & _ & Hlt & Hwf' & Hcl). eexists. split_and!; [exact Hwf'| |].
    - eapply entries_evolve_insert; [done|]. right; left. cbn. lia.
    - rewrite Hcl, app_nil_r, <- app_assoc. apply Permutation_app_head.
      set (e' := with_generation _ _).
      pose proof (owed_all_insert es i e e' He) as Hp.
      assert (E1 : owed e' = []) by done. rewrite E1 in Hp. cbn [app] in Hp. rewrite <- Hp.
      apply Permutation_app_tail. unfold owed, entry_live. rewrite Ho.
      rewrite (occupied_ptr es i e (tw_all _ _ Hwf) He Ho). cbn. by destruct (re_cleanup e =? 0). }
  destruct c as [kind ptr cleanup user d|id d|id kind d|id kind d|]; cbn [resource_exec cmd_ok] in *.
  - destruct Hok as [Hk Hp]. pose proof (insert_cases kind ptr cleanup user d s es Hwf Hk Hp) as Hi.
    destruct (sl_resource_table_insert REF kind ptr cleanup user REF d s) as [[id|c] s']; cbn [is_ok andb].
    + destruct Hi as (i & e & He & Ho & _ & _ & _ & Hwf' & Hcl). eexists. split_and!; [exact Hwf'| |].
      * eapply entries_evolve_insert; [done|]. right; right. done.
      * rewrite Hcl. apply Permutation_app_head.
        pose proof (owed_all_insert es i e (new_entry kind ptr cleanup user (re_generation e)) He) as Hpm.
        assert (E1 : owed e = []) by (unfold owed, entry_live; by rewrite Ho). rewrite E1 in Hpm.
        cbn [app] in Hpm. rewrite Hpm, Permutation_app_comm. apply Permutation_app_head.
        unfold owed, entry_live. cbn. destruct (Z.eqb_spec ptr 0); [done|]. cbn. by destruct (cleanup =? 0).
    + destruct Hi as [Hs _]. by apply Hsame.
  - destruct (close_is_close_kind id d s es Hwf Hok) as [(kind & Hk & ->)|(c & s' & -> & Hs)];
      [by apply Hclose|by apply Hsame].
  - by apply Hclose; destruct Hok.
  - destruct Hok as [Hid Hk]. apply Hsame. by apply (get_spec id kind d s es).
  - destruct (dispose_spec s es Hwf) as [Hwf' Hcl]. exists []. split_and!; [done| |].
    + intros i e He. done.
    + rewrite Hcl. cbn. by rewrite !app_nil_r.
Qed.

Lemma resource_run_spec cs s es :
  table_wf (rs_table s) es -> Forall cmd_ok cs ->
  let '(s', new) := resource_run cs s in
  exists es', table_wf (rs_table s') es' /\ entries_evolve es es' /\
    rs_cleanups s' ++ owed_all es' ≡ₚ rs_cleanups s ++ owed_all es ++ new.
Proof.
  revert s es; induction cs as [|c cs IH]; intros s es Hwf Hok; cbn [resource_run].
  { exists es. rewrite app_nil_r. split_and!; try done. apply entries_evolve_refl. }
  apply Forall_cons in Hok as [Hc Hcs]. pose proof (resource_exec_spec c s es Hwf Hc) as He.
  destruct (resource_exec c s) as [s1 r1]. destruct He as (es1 & Hwf1 & Hev1 & Hp1).
  specialize (IH s1 es1 Hwf1 Hcs). destruct (resource_run cs s1) as [s2 r2].
  destruct IH as (es2 & Hwf2 & Hev2 & Hp2). exists es2. split_and!; [done|by eapply entries_evolve_trans|].
  rewrite Hp2, !app_assoc, Hp1. by rewrite !app_assoc.
Qed.

(** * Theorems *)

Lemma lookup_result_ok es id kind p :
  lookup_result es id kind = Ok p ->
  exists e, es !! Z.to_nat (id_slot id - 1) = Some e /\ re_generation e = id_generation id /\
    re_occupied e = true /\ re_kind e = kind /\ re_ptr e = p.
Proof.
  unfold lookup_result. destruct (negb _); [done|].
  destruct (es !! Z.to_nat (id_slot id - 1)) as [e|]; [|done].
  destruct (Z.eqb_spec (re_generation e) (id_generation id)); cbn [negb]; [|done].
  destruct (re_occupied e) eqn:Eo; cbn [negb]; [|done].
  destruct (bool_decide_reflect (re_kind e = kind)); cbn [negb]; [|done].
  intros [= <-]. exists e. by split_and!.
Qed.

(** Lookup answers by the entry the id addresses, in this order: an invalid
    id, a slot beyond the table, a generation mismatch (STALE_RESOURCE), a closed
    entry (INVALID_STATE), the wrong kind (WRONG_RESOURCE_KIND), and otherwise the
    stored pointer; the table is never changed, whatever the outcome. *)
Theorem resource_lookup_answers id kind d s es :
  table_wf (rs_table s) es -> id_wf id -> sl_resource_kind_is_valid kind = true ->
  fst (sl_resource_table_get REF id kind REF d s) = lookup_result es id kind /\
  same_table s (snd (sl_resource_table_get REF id kind REF d s)) /\
  sl_resource_table_contains REF id kind s = is_ok (lookup_result es id kind).
Proof.
  intros Hwf Hid Hk. destruct (get_spec id kind d s es Hwf Hid Hk) as [H1 H2].
  destruct (get_spec id kind NULL s es Hwf Hid Hk) as [H3 _]. split_and!; try done.
  unfold sl_resource_table_contains. by rewrite H3.
Qed.

(** An insertion takes the first free slot, never an occupied one, and the id
    it returns resolves to exactly the inserted pointer and kind; lookups of every
    other slot answer as before.  It is refused exactly when all slots are
    occupied, and then nothing changes. *)
Theorem resource_insert_then_get kind ptr cleanup user d s es :
  table_wf (rs_table s) es -> sl_resource_kind_is_valid kind = true -> ptr <> 0 ->
  match sl_resource_table_insert REF kind ptr cleanup user REF d s with
  | (Ok id, s') =>
      fst (sl_resource_table_get REF id kind REF d s') = Ok ptr /\
      (forall id' kind', id_wf id' -> sl_resource_kind_is_valid kind' = true ->
         id_slot id' <> id_slot id ->
         fst (sl_resource_table_get REF id' kind' REF d s')
         = fst (sl_resource_table_get REF id' kind' REF d s))
  | (Err c, s') => same_table s s' /\ c = SL_STATUS_CAPACITY_EXCEEDED /\
                   Forall (fun e => re_occupied e = true) es
  end.
Proof.
  intros Hwf Hk Hp. pose proof (insert_cases kind ptr cleanup user d s es Hwf Hk Hp) as Hi.
  destruct (sl_resource_table_insert REF kind ptr cleanup user REF d s) as [[id|c] s']; [|done].
  destruct Hi as (i & e & He & Ho & _ & -> & Hid & Hwf' & _).
  pose proof (lookup_lt_Some _ _ _ He) as Hlt. split.
  - destruct (get_spec _ kind d s' _ Hwf' Hid Hk) as [-> _]. unfold lookup_result, sl_resource_id_is_valid.
    cbn [id_slot id_generation]. destruct (Z.eqb_spec (Z.of_nat i + 1) 0); [lia|].
    pose proof (Forall_lookup_1 _ _ _ _ (tw_all _ _ Hwf) He) as [Hg _].
    destruct (Z.eqb_spec (re_generation e) 0); [lia|]. cbn [negb andb].
    replace (Z.to_nat (Z.of_nat i + 1 - 1)) with i by lia.
    rewrite list_lookup_insert_eq by done. cbn. rewrite Z.eqb_refl. cbn.
    by rewrite bool_decide_eq_true_2.
  - cbn [id_slot]. intros id' kind' Hid' Hk' Hne.
    destruct (get_spec id' kind' d s' _ Hwf' Hid' Hk') as [-> _].
    destruct (get_spec id' kind' d s _ Hwf Hid' Hk') as [-> _].
    unfold lookup_result. destruct (sl_resource_id_is_valid id') eqn:Ev; cbn [negb]; [|done].
    unfold sl_resource_id_is_valid in Ev. apply andb_true_iff in Ev as [E1 _].
    apply negb_true_iff, Z.eqb_neq in E1. unfold id_wf in Hid'.
    rewrite list_lookup_insert_ne by size_lia. done.
Qed.

(** C2: A closed id is dead for good: once a close of an id succeeds, no later
    sequence of table operations, whatever is inserted into the reused slot,
    makes a lookup of that id succeed again under any kind. *)
Theorem resource_closed_id_stays_dead id kind d s es cs kind' :
  table_wf (rs_table s) es -> id_wf id -> sl_resource_kind_is_valid kind = true ->
  sl_resource_kind_is_valid kind' = true -> Forall cmd_ok cs ->
  is_ok (fst (sl_resource_table_close_kind REF id kind d s)) = true ->
  let s' := fst (resource_run cs (snd (sl_resource_table_close_kind REF id kind d s))) in
  sl_resource_table_contains REF id kind' s' = false.
Proof.
  intros Hwf Hid Hk Hk' Hcs. pose proof (close_kind_cases id kind d s es Hwf Hid Hk) as Hc.
  destruct (sl_resource_table_close_kind REF id kind d s) as [[[]|c] s1]; [|done]. intros _. cbn [snd].
  destruct Hc as (i & e & He & Hslot & Hg & _ & _ & Hlt & Hwf1 & _).
  pose proof (resource_run_spec cs s1 _ Hwf1 Hcs) as Hr. destruct (resource_run cs s1) as [s2 new].
  destruct Hr as (es2 & Hwf2 & Hev & _). cbn [fst].
  unfold sl_resource_table_contains. destruct (get_spec id kind' NULL s2 es2 Hwf2 Hid Hk') as [-> _].
  destruct (lookup_result es2 id kind') as [p|c] eqn:El; [|done]. exfalso.
  apply lookup_result_ok in El as (e2 & He2 & Hg2 & _).
  replace (Z.to_nat (id_slot id - 1)) with i in He2 by lia.
  destruct (Hev i e2 He2) as (e1 & He1 & Hevo).
  rewrite list_lookup_insert_eq in He1 by (by eapply lookup_lt_Some). injection He1 as <-.
  unfold entry_evolves in Hevo. cbn in Hevo. destruct Hevo as [->|[?|[_ ?]]]; cbn in *; lia.
Qed.

(** An id never changes what it names: if it resolves now and again after any
    sequence of operations, it resolves to the same pointer and kind. *)
Theorem resource_id_binding_stable id kind kind' d d' s es cs p p' :
  table_wf (rs_table s) es -> id_wf id -> sl_resource_kind_is_valid kind = true ->
  sl_resource_kind_is_valid kind' = true -> Forall cmd_ok cs ->
  fst (sl_resource_table_get REF id kind REF d s) = Ok p ->
  fst (sl_resource_table_get REF id kind' REF d' (fst (resource_run cs s))) = Ok p' ->
  p' = p /\ kind' = kind.
Proof.
  intros Hwf Hid Hk Hk' Hcs. destruct (get_spec id kind d s es Hwf Hid Hk) as [-> _].
  pose proof (resource_run_spec cs s es Hwf Hcs) as Hr. destruct (resource_run cs s) as [s2 new].
  destruct Hr as (es2 & Hwf2 & Hev & _). cbn [fst].
  destruct (get_spec id kind' d' s2 es2 Hwf2 Hid Hk') as [-> _].
  intros (e & He & Hg & Ho & <- & <-)%lookup_result_ok (e2 & He2 & Hg2 & Ho2 & <- & <-)%lookup_result_ok.
  destruct (Hev _ _ He2) as (e1 & He1 & Hevo). rewrite He in He1. injection He1 as <-.
  destruct Hevo as [->|[?|[Hf _]]]; [done|lia|congruence].
Qed.

(** C7: Cleanups balance: over every sequence of operations on a freshly
    initialised table, the cleanup calls made and the cleanups of the entries
    still live are together exactly the cleanups registered by the successful
    insertions, each with its own pointer.  So a cleanup runs at most once, and
    after disposing of the table every registered cleanup has run exactly once. *)
Theorem resource_cleanups_exactly_once capacity cs s0 :
  0 <= capacity <= UINT32_MAX -> rt_initialized (rs_table s0) = false -> rs_cleanups s0 = [] ->
  Forall cmd_ok cs ->
  let s1 := snd (sl_resource_table_init REF REF capacity s0) in
  let '(s2, registered) := resource_run cs s1 in
  (exists es2, table_wf (rs_table s2) es2 /\ rs_cleanups s2 ++ owed_all es2 ≡ₚ registered) /\
  rs_cleanups (sl_resource_table_dispose REF s2) ≡ₚ registered.
Proof.
  intros Hcap Hi Hcl Hcs. cbv zeta.
  assert (Hwf : table_wf (rs_table (snd (sl_resource_table_init REF REF capacity s0)))
                  (replicate (Z.to_nat capacity) fresh_entry) /\
                rs_cleanups (snd (sl_resource_table_init REF REF capacity s0)) = []).
  { unfold sl_resource_table_init. unfold_st. cbn -[sl_resource_capacity_is_valid]. rewrite Hi.
    unfold sl_resource_capacity_is_valid. destruct (Z.leb_spec capacity UINT32_MAX); [|lia]. cbn.
    split; [|done]. split; cbn; [done|done|rewrite length_replicate; lia|].
    apply Forall_replicate. split; cbn; [size_lia|done]. }
  destruct Hwf as [Hwf Hc1].
  pose proof (resource_run_spec cs _ _ Hwf Hcs) as Hr.
  destruct (resource_run cs _) as [s2 registered]. destruct Hr as (es2 & Hwf2 & _ & Hp).
  rewrite Hc1 in Hp. cbn [app] in Hp.
  assert (Hfresh : owed_all (replicate (Z.to_nat capacity) fresh_entry) = []).
  { generalize (Z.to_nat capacity). induction n as [|n IHn]; [done|]. cbn. exact IHn. }
  rewrite Hfresh in Hp. split; [by exists es2|].
  destruct (dispose_spec s2 es2 Hwf2) as [_ ->]. exact Hp.
Qed.

Module Demo.
Definition s0 : ResourceSys :=
  {| rs_table := {| rt_entries := None; rt_capacity := 0; rt_initialized := false |};
     rs_cleanups := []; rs_diag := None |}.
Definition s1 : ResourceSys := snd (sl_resource_table_init REF REF 2 s0).
Definition insert1 := sl_resource_table_insert REF SL_RESOURCE_KIND_FS_LOCK 500 9 1 REF NULL s1.
Definition s2 : ResourceSys := snd insert1.
Definition id1 : SlResourceId := {| id_slot := 1; id_generation := 1 |}.

Lemma s1_wf : table_wf (rs_table s1) [fresh_entry; fresh_entry].
Proof.
  split; [done|done|vm_compute; split; congruence|].
  repeat (apply List.Forall_cons || apply List.Forall_nil); split; cbn; (size_lia || done).
Qed.

Lemma s2_wf : table_wf (rs_table s2) [new_entry SL_RESOURCE_KIND_FS_LOCK 500 9 1 1; fresh_entry].
Proof.
  split; [done|done|vm_compute; split; congruence|].
  repeat (apply List.Forall_cons || apply List.Forall_nil); split; cbn; (size_lia || done).
Qed.

Lemma id1_wf : id_wf id1.
Proof. split; cbn; size_lia. Qed.

Lemma resource_lookup_answers_witness :
  fst (sl_resource_table_get REF id1 SL_RESOURCE_KIND_FS_WATCH REF NULL s2)
  = Err SL_STATUS_WRONG_RESOURCE_KIND.
Proof.
  rewrite (proj1 (resource_lookup_answers id1 SL_RESOURCE_KIND_FS_WATCH NULL s2 _ s2_wf id1_wf eq_refl)).
  reflexivity.
Defined.

Lemma resource_insert_then_get_witness :
  fst (sl_resource_table_get REF id1 SL_RESOURCE_KIND_FS_LOCK REF NULL s2) = Ok 500.
Proof.
  pose proof (resource_insert_then_get SL_RESOURCE_KIND_FS_LOCK 500 9 1 NULL s1 _ s1_wf eq_refl ltac:(lia)) as H.
  change (sl_resource_table_insert REF SL_RESOURCE_KIND_FS_LOCK 500 9 1 REF NULL s1) with (Ok id1, s2) in H.
  apply H.
Defined.

(** Close the lock, reuse the slot for a file handle: the old id stays dead. *)
Definition reuse : list resource_cmd := [RInsert SL_RESOURCE_KIND_FS_FILE_HANDLE 600 9 2 NULL].

Lemma reuse_ok : Forall cmd_ok reuse.
Proof. repeat constructor; cbn; try done; lia. Qed.

Lemma resource_closed_id_stays_dead_witness :
  sl_resource_table_contains REF id1 SL_RESOURCE_KIND_FS_FILE_HANDLE
    (fst (resource_run reuse (snd (sl_resource_table_close_kind REF id1 SL_RESOURCE_KIND_FS_LOCK NULL s2))))
  = false.
Proof.
  apply (resource_closed_id_stays_dead id1 SL_RESOURCE_KIND_FS_LOCK NULL s2 _ reuse
    SL_RESOURCE_KIND_FS_FILE_HANDLE s2_wf id1_wf); try reflexivity. apply reuse_ok.
Defined.

Lemma resource_id_binding_stable_witness :
  500 = 500 /\ SL_RESOURCE_KIND_FS_LOCK = SL_RESOURCE_KIND_FS_LOCK.
Proof.
  apply (resource_id_binding_stable id1 SL_RESOURCE_KIND_FS_LOCK SL_RESOURCE_KIND_FS_LOCK NULL NULL s2 _
    reuse 500 500 s2_wf id1_wf); try reflexivity. apply reuse_ok.
Defined.

Lemma resource_cleanups_exactly_once_witness :
  rs_cleanups (sl_resource_table_dispose REF (fst (resource_run
    [RInsert SL_RESOURCE_KIND_FS_LOCK 500 9 1 NULL; RClose id1 NULL;
     RInsert SL_RESOURCE_KIND_FS_FILE_HANDLE 600 9 2 NULL; RClose id1 NULL] s1)))
  ≡ₚ [(9, 500, 1); (9, 600, 2)].
Proof.
  apply (resource_cleanups_exactly_once 2 [RInsert SL_RESOURCE_KIND_FS_LOCK 500 9 1 NULL; RClose id1 NULL;
     RInsert SL_RESOURCE_KIND_FS_FILE_HANDLE 600 9 2 NULL; RClose id1 NULL] s0); try reflexivity.
  - size_lia.
  - repeat constructor; cbn; try size_lia; done.
Defined.
End Demo.
