(* ===== verification/Sink.v ===== *)
(** The interface between the builders and the writers that produce output
    through them: a sink of bytes.

    A writer (the WebSocket frame writer, the HTTP/2 frame writer) only appends;
    what it needs to know is that an append that succeeds adds exactly the bytes
    given, that one that fails adds none, and that the storage of the views it
    still has to read is left alone.  Its theorems are proved against this
    interface; Builder.v shows that the byte builder implements it. *)

From S2P Require Import Prelude Memory Bytes.

Class SinkOps (K : Type) := {
  sink_mem : K -> mem;
  sink_contents : K -> list Z;
  sink_inv : K -> Prop;
  (** Ranges of memory the sink does not own and will not write. *)
  sink_foreign : K -> Z -> Z -> Prop;
  sink_append_byte : Z -> ST K unit;
  sink_append_bytes : SlBytes -> ST K unit;
}.

(** A view the writer may still read: valid, and not the sink's storage. *)
Record sink_readable `{SinkOps K} (s : K) (bytes : SlBytes) : Prop := {
  sr_valid : bytes_valid bytes;
  sr_wf : bytes_wf bytes;
  sr_foreign : sink_foreign s (bytes_ptr bytes) (bytes_length bytes);
}.

(** From [s] to [s'] the sink received exactly [vs]. *)
Record sink_step `{SinkOps K} (vs : list Z) (s s' : K) : Prop := {
  ss_inv : sink_inv s';
  ss_contents : sink_contents s' = sink_contents s ++ vs;
  ss_foreign : forall q n, sink_foreign s q n ->
    sink_foreign s' q n /\ load_bytes (sink_mem s') q n = load_bytes (sink_mem s) q n;
}.

(** Success appends [vs]; failure appends nothing. *)
Definition sink_writes `{SinkOps K} (vs : list Z) (c : ST K unit) (s : K) : Prop :=
  match c s with
  | (Ok _, s') => sink_step vs s s'
  | (Err _, s') => sink_step [] s s'
  end.

Class SinkLaws (K : Type) `{SinkOps K} := {
  sink_append_byte_law : forall byte s,
    sink_inv s -> sink_writes [wrap8 byte] (sink_append_byte byte) s;
  sink_append_bytes_law : forall bytes s,
    sink_inv s -> sink_readable s bytes ->
    sink_writes (bytes_val (sink_mem s) bytes) (sink_append_bytes bytes) s;
}.

Section Laws.
Context `{SinkLaws K}.

Lemma sink_step_refl s : sink_inv s -> sink_step [] s s.
Proof. intros. split; [done|by rewrite app_nil_r|done]. Qed.

Lemma sink_step_trans vs ws s1 s2 s3 :
  sink_step vs s1 s2 -> sink_step ws s2 s3 -> sink_step (vs ++ ws) s1 s3.
Proof.
  intros [Hi Hc Hf] [Hi' Hc' Hf']. split; [done|by rewrite Hc', Hc, app_assoc|].
  intros q n Hq. destruct (Hf q n Hq) as [Hq' E]. destruct (Hf' q n Hq') as [Hq'' E'].
  split; [done|]. by rewrite E'.
Qed.

Lemma sink_step_readable vs s s' bytes :
  sink_step vs s s' -> sink_readable s bytes ->
  sink_readable s' bytes /\ bytes_val (sink_mem s') bytes = bytes_val (sink_mem s) bytes.
Proof.
  intros [_ _ Hf] [Hv Hw Hq]. destruct (Hf _ _ Hq) as [Hq' E]. split; [by split|exact E].
Qed.

(** A writer that may have appended a prefix of [vs] when it fails. *)
Definition sink_emits (vs : list Z) (c : ST K unit) (s : K) : Prop :=
  match c s with
  | (Ok _, s') => sink_step vs s s'
  | (Err _, s') => exists ws, ws `prefix_of` vs /\ sink_step ws s s'
  end.

Lemma sink_writes_emits vs c s : sink_writes vs c s -> sink_emits vs c s.
Proof.
  unfold sink_writes, sink_emits. destruct (c s) as [[]]; [done|]. intros Hs. exists [].
  split; [apply prefix_nil|done].
Qed.

Lemma sink_emits_ret s : sink_inv s -> sink_emits [] (mret tt) s.
Proof. apply sink_step_refl. Qed.

Lemma sink_emits_fail vs c s : sink_inv s -> sink_emits vs (fail c) s.
Proof. intros. exists []. split; [apply prefix_nil|by apply sink_step_refl]. Qed.

(** Sequencing: the second writer runs in the state the first one leaves. *)
Lemma sink_emits_seq vs ws c k s :
  sink_emits vs c s -> (forall s', sink_step vs s s' -> sink_emits ws (k tt) s') ->
  sink_emits (vs ++ ws) (c ≫= k) s.
Proof.
  unfold sink_emits. unfold_st. intros Hc Hk. destruct (c s) as [[[]|e] s1].
  - specialize (Hk s1 Hc). destruct (k tt s1) as [[[]|e] s2]; [by eapply sink_step_trans|].
    destruct Hk as (w & Hp & Hs). exists (vs ++ w). split; [by apply prefix_app|].
    by eapply sink_step_trans.
  - destruct Hc as (w & Hp & Hs). exists w. split; [|done].
    etransitivity; [done|by apply prefix_app_r].
Qed.

Lemma sink_emits_byte byte s :
  sink_inv s -> is_byte byte -> sink_emits [byte] (sink_append_byte byte) s.
Proof.
  intros Hi Hb. apply sink_writes_emits. rewrite <- (wrap8_small byte) at 1 by done.
  by apply sink_append_byte_law.
Qed.

Lemma sink_emits_bytes bytes s :
  sink_inv s -> sink_readable s bytes ->
  sink_emits (bytes_val (sink_mem s) bytes) (sink_append_bytes bytes) s.
Proof. intros. by apply sink_writes_emits, sink_append_bytes_law. Qed.
End Laws.

(** * Sinks with room

    A bounded sink is sure to take what fits, and a client may need to know which
    errors it can answer with. *)

Class SinkRoom (K : Type) := {
  (** The number of bytes the sink is sure to take. *)
  sink_room : K -> Z;
  (** The errors it may answer with. *)
  sink_errors : K -> SlStatusCode -> Prop;
}.

(** What fits is written, and errors are those of the sink. *)
Definition sink_total `{SinkRoom K} (vs : list Z) (c : ST K unit) (s : K) : Prop :=
  (Z.of_nat (length vs) <= sink_room s ->
   exists s', c s = (Ok tt, s') /\ sink_room s' = sink_room s - Z.of_nat (length vs)) /\
  match c s with
  | (Ok _, s') => forall e, sink_errors s' e -> sink_errors s e
  | (Err e, _) => sink_errors s e
  end.

Class SinkRoomLaws (K : Type) `{SinkOps K} `{SinkRoom K} := {
  sink_room_byte_law : forall byte (s : K), sink_inv s -> sink_total [wrap8 byte] (sink_append_byte byte) s;
  sink_room_bytes_law : forall bytes (s : K),
    sink_inv s -> sink_readable s bytes -> sink_total (bytes_val (sink_mem s) bytes) (sink_append_bytes bytes) s;
}.

Section RoomLaws.
Context `{SO : SinkOps K} {SR : SinkRoom K} {HL : SinkLaws K} {HR : SinkRoomLaws K}.

Definition sink_sends (vs : list Z) (c : ST K unit) (s : K) : Prop := sink_emits vs c s /\ sink_total vs c s.

Lemma sink_total_seq vs ws c k s :
  sink_total vs c s -> (forall s', c s = (Ok tt, s') -> sink_total ws (k tt) s') -> sink_total (vs ++ ws) (c ≫= k) s.
Proof.
  intros [Hc He] Hk. split.
  - intros Hfit. rewrite length_app, Nat2Z.inj_add in *. destruct Hc as (s1 & E & Hr); [lia|].
    destruct (Hk s1 E) as [(s2 & E2 & Hr2) _]; [lia|]. exists s2. unfold_st. rewrite E. split; [done|lia].
  - clear Hc. revert He Hk. unfold_st. destruct (c s) as [[[]|e] s1]; [|done]. intros He Hk.
    destruct (Hk s1 eq_refl) as [_ H]. revert H. destruct (k tt s1) as [[[]|e] s2]; auto.
Qed.

Lemma sink_total_ret s : sink_total [] (mret tt) s.
Proof. split; [|by intros e]. intros _. exists s. split; [done|]. cbn [length]. lia. Qed.

Lemma sink_sends_ret s : sink_inv s -> sink_sends [] (mret tt) s.
Proof. intros. split; [by apply sink_emits_ret|apply sink_total_ret]. Qed.

Lemma sink_sends_seq vs ws c k s :
  sink_sends vs c s -> (forall s', sink_step vs s s' -> sink_sends ws (k tt) s') -> sink_sends (vs ++ ws) (c ≫= k) s.
Proof.
  intros [He Ht] Hk. split.
  - apply sink_emits_seq; [done|]. intros s' Hs. by apply Hk.
  - apply sink_total_seq; [done|]. intros s' E. apply Hk. unfold sink_emits in He. by rewrite E in He.
Qed.

Lemma sink_sends_byte byte s : sink_inv s -> is_byte byte -> sink_sends [byte] (sink_append_byte byte) s.
Proof.
  intros Hi Hb. split; [by apply sink_emits_byte|]. rewrite <- (wrap8_small byte) at 1 by done. by apply sink_room_byte_law.
Qed.

Lemma sink_sends_bytes bytes s :
  sink_inv s -> sink_readable s bytes -> sink_sends (bytes_val (sink_mem s) bytes) (sink_append_bytes bytes) s.
Proof. intros. split; [by apply sink_emits_bytes|by apply sink_room_bytes_law]. Qed.
End RoomLaws.

(** * Invariants of a state that every step of a writer keeps *)

Section Stable.
Context {S : Type} (P : S -> Prop).

Definition stable {A} (c : ST S A) : Prop := forall s, P s -> P (snd (c s)).

Lemma stable_bind {A B} (c : ST S A) (k : A -> ST S B) : stable c -> (forall a, stable (k a)) -> stable (c ≫= k).
Proof. intros Hc Hk s Hs. specialize (Hc s Hs). unfold_st. destruct (c s) as [[a|e] s1]; [by apply Hk|done]. Qed.

Lemma stable_ret {A} (a : A) : stable (mret a).
Proof. by intros s. Qed.

Lemma stable_fail {A} c : stable (@fail S A c).
Proof. by intros s. Qed.

Lemma stable_gets {A} (f : S -> A) : stable (gets f).
Proof. by intros s. Qed.
End Stable.

Ltac stable_step :=
  first [ apply stable_bind; [|intros ?] | apply stable_ret | apply stable_fail | apply stable_gets | split_if ].
