(* ===== verification/Builder.v ===== *)
(** Byte and string builders over fixed, inline or arena storage, and the
    integer formatters (src/core/builder.c).

    The builder object is [bs_builder]; its inline array [small] and the buffer
    [data] points to live in the flat memory.  The arena of an arena-backed
    builder is the arena of the world. *)

From S2P Require Import Prelude Memory Status Arena Str Bytes Sink.

Inductive SlBuilderStorageKind :=
| SL_BUILDER_STORAGE_INVALID
| SL_BUILDER_STORAGE_FIXED
| SL_BUILDER_STORAGE_ARENA
| SL_BUILDER_STORAGE_SMALL.

#[export] Instance SlBuilderStorageKind_eq_dec : EqDecision SlBuilderStorageKind.
Proof. solve_decision. Defined.

Definition SL_BUILDER_MIN_GROW_CAPACITY : Z := 8.
Definition SL_BYTE_BUILDER_SMALL_CAPACITY : Z := 64.
Definition SL_STRING_FORMAT_U64_CAPACITY : Z := 21.
Definition SL_STRING_FORMAT_I64_CAPACITY : Z := 21.

Record SlByteBuilder := {
  bb_data : Z;
  bb_length : Z;
  bb_capacity : Z;
  bb_max_capacity : Z;
  bb_grow_count : Z;
  bb_copied_bytes : Z;
  bb_appended_bytes : Z;
  bb_failed_reserve_count : Z;
  bb_arena : nullable;
  bb_storage : SlBuilderStorageKind;
  bb_small : Z;  (* the address of the inline array *)
}.

Record SlByteBuilderStats := {
  bst_length : Z;
  bst_capacity : Z;
  bst_max_capacity : Z;
  bst_grow_count : Z;
  bst_copied_bytes : Z;
  bst_appended_bytes : Z;
  bst_failed_reserve_count : Z;
  bst_storage : SlBuilderStorageKind;
}.

Record BuilderSys := { bs_world : World; bs_builder : SlByteBuilder }.

Definition bs_mem (s : BuilderSys) : mem := w_mem (bs_world s).
Definition set_world (w : World) (s : BuilderSys) : BuilderSys :=
  {| bs_world := w; bs_builder := bs_builder s |}.
Definition set_builder (b : SlByteBuilder) (s : BuilderSys) : BuilderSys :=
  {| bs_world := bs_world s; bs_builder := b |}.
Definition set_bs_mem (m : mem) (s : BuilderSys) : BuilderSys :=
  set_world (set_mem m (bs_world s)) s.

Definition sl_byte_builder_copy (m : mem) (dst src length : Z) : mem :=
  if (length =? 0) || (dst =? src) then m else
  if (dst <=? UINTPTR_MAX - length) && (src <=? UINTPTR_MAX - length) then
    let dst_end := wrap64 (dst + length) in
    let src_end := wrap64 (src + length) in
    if (src <? dst) && (dst <? src_end) then copy_backward m dst src (Z.to_nat length)
    else if (dst <? src) && (src <? dst_end) then copy_forward m dst src (Z.to_nat length)
    else copy_forward m dst src (Z.to_nat length)
  else copy_forward m dst src (Z.to_nat length).

Definition sl_builder_counter_add (counter amount : Z) : Z :=
  if SIZE_MAX - amount <? counter then SIZE_MAX else wrap64 (counter + amount).

Definition sl_byte_builder_is_initialized (builder : nullable) (b : SlByteBuilder) : bool :=
  negb (is_null builder) && negb (bool_decide (bb_storage b = SL_BUILDER_STORAGE_INVALID)).

Definition sl_byte_builder_data (b : SlByteBuilder) : Z :=
  if decide (bb_storage b = SL_BUILDER_STORAGE_SMALL) then bb_small b else bb_data b.

Definition sl_byte_builder_validate_span (bytes : SlBytes) : result unit :=
  error_if negb (bytes_length bytes =? 0) && (bytes_ptr bytes =? 0)
    with SL_STATUS_INVALID_ARGUMENT ;;
  Ok tt.

(** The doubling loop; a [size_t] doubles at most 64 times. *)
Fixpoint next_capacity_loop (fuel : nat) (candidate required max_capacity : Z) : Z :=
  match fuel with
  | O => candidate
  | S fuel =>
      if candidate <? required then
        match sl_checked_mul_size candidate 2 REF with
        | Err _ => max_capacity
        | Ok doubled =>
            if max_capacity <? doubled then max_capacity
            else next_capacity_loop fuel doubled required max_capacity
        end
      else candidate
  end.

Definition sl_byte_builder_next_capacity (b : SlByteBuilder) (required : Z) : result Z :=
  error_if bb_max_capacity b <? required with SL_STATUS_CAPACITY_EXCEEDED ;;
  let candidate := if bb_capacity b =? 0 then SL_BUILDER_MIN_GROW_CAPACITY else bb_capacity b in
  let candidate := if bb_max_capacity b <? candidate then bb_max_capacity b else candidate in
  let candidate := next_capacity_loop 64 candidate required (bb_max_capacity b) in
  error_if candidate <? required with SL_STATUS_CAPACITY_EXCEEDED ;;
  Ok candidate.

(** Field updates of the builder object. *)
Definition with_storage (data capacity copied grow : Z) (b : SlByteBuilder) : SlByteBuilder :=
  {| bb_data := data; bb_length := bb_length b; bb_capacity := capacity;
     bb_max_capacity := bb_max_capacity b; bb_grow_count := grow; bb_copied_bytes := copied;
     bb_appended_bytes := bb_appended_bytes b;
     bb_failed_reserve_count := bb_failed_reserve_count b; bb_arena := bb_arena b;
     bb_storage := bb_storage b; bb_small := bb_small b |}.
Definition with_length (length appended : Z) (b : SlByteBuilder) : SlByteBuilder :=
  {| bb_data := bb_data b; bb_length := length; bb_capacity := bb_capacity b;
     bb_max_capacity := bb_max_capacity b; bb_grow_count := bb_grow_count b;
     bb_copied_bytes := bb_copied_bytes b; bb_appended_bytes := appended;
     bb_failed_reserve_count := bb_failed_reserve_count b; bb_arena := bb_arena b;
     bb_storage := bb_storage b; bb_small := bb_small b |}.
Definition with_failed (failed : Z) (b : SlByteBuilder) : SlByteBuilder :=
  {| bb_data := bb_data b; bb_length := bb_length b; bb_capacity := bb_capacity b;
     bb_max_capacity := bb_max_capacity b; bb_grow_count := bb_grow_count b;
     bb_copied_bytes := bb_copied_bytes b; bb_appended_bytes := bb_appended_bytes b;
     bb_failed_reserve_count := failed; bb_arena := bb_arena b; bb_storage := bb_storage b;
     bb_small := bb_small b |}.

Section Operations.
Context {BC : BuildConfig}.

Definition in_arena {A} (c : ST World A) : ST BuilderSys A := zoom bs_world set_world c.

Definition sl_byte_builder_grow (required : Z) : ST BuilderSys unit :=
  b ← gets bs_builder;
  return_if bool_decide (bb_storage b = SL_BUILDER_STORAGE_FIXED)
            || bool_decide (bb_storage b = SL_BUILDER_STORAGE_SMALL)
    with SL_STATUS_CAPACITY_EXCEEDED ;;
  next_capacity ← lift (sl_byte_builder_next_capacity b required);
  next_data ← in_arena (sl_arena_alloc (bb_arena b) next_capacity 1 REF);
  (if negb (bb_length b =? 0)
   then modify (fun s => set_bs_mem
          (sl_byte_builder_copy (bs_mem s) next_data (sl_byte_builder_data b) (bb_length b)) s)
   else mret tt);;
  let copied := if negb (bb_length b =? 0)
                then sl_builder_counter_add (bb_copied_bytes b) (bb_length b)
                else bb_copied_bytes b in
  modify (set_builder (with_storage next_data next_capacity copied
                         (sl_builder_counter_add (bb_grow_count b) 1) b)).

(** [*builder = result] also overwrites the inline array. *)
Definition publish_builder (data capacity max_capacity : Z) (arena : nullable)
    (storage : SlBuilderStorageKind) : ST BuilderSys unit :=
  modify (fun s =>
    let small := bb_small (bs_builder s) in
    set_builder {| bb_data := data; bb_length := 0; bb_capacity := capacity;
                   bb_max_capacity := max_capacity; bb_grow_count := 0; bb_copied_bytes := 0;
                   bb_appended_bytes := 0; bb_failed_reserve_count := 0; bb_arena := arena;
                   bb_storage := storage; bb_small := small |}
      (set_bs_mem (fill (bs_mem s) small (Z.to_nat SL_BYTE_BUILDER_SMALL_CAPACITY) 0) s)).

Definition sl_byte_builder_init_fixed (builder : nullable) (buffer capacity : Z)
    : ST BuilderSys unit :=
  return_if is_null builder || (buffer =? 0) && negb (capacity =? 0)
    with SL_STATUS_INVALID_ARGUMENT ;;
  publish_builder buffer capacity capacity NULL SL_BUILDER_STORAGE_FIXED.

Definition sl_byte_builder_init_small (builder : nullable) : ST BuilderSys unit :=
  return_if is_null builder with SL_STATUS_INVALID_ARGUMENT ;;
  publish_builder 0 SL_BYTE_BUILDER_SMALL_CAPACITY SL_BYTE_BUILDER_SMALL_CAPACITY NULL
    SL_BUILDER_STORAGE_SMALL.

Definition sl_byte_builder_init_arena (builder arena : nullable) (initial_capacity max_capacity : Z)
    : ST BuilderSys unit :=
  return_if is_null builder || is_null arena || (max_capacity <? initial_capacity)
    with SL_STATUS_INVALID_ARGUMENT ;;
  initial_data ← (if negb (initial_capacity =? 0)
                  then in_arena (sl_arena_alloc arena initial_capacity 1 REF)
                  else mret 0);
  publish_builder initial_data initial_capacity max_capacity arena SL_BUILDER_STORAGE_ARENA.

Definition sl_byte_builder_reset (builder : nullable) : ST BuilderSys unit :=
  if is_null builder then mret tt else
  modify (fun s => set_builder (with_length 0 (bb_appended_bytes (bs_builder s)) (bs_builder s)) s).

Definition sl_byte_builder_length (builder : nullable) (b : SlByteBuilder) : Z :=
  if is_null builder then 0 else bb_length b.

Definition sl_byte_builder_capacity (builder : nullable) (b : SlByteBuilder) : Z :=
  if is_null builder then 0 else bb_capacity b.

Definition sl_byte_builder_stats (builder : nullable) (b : SlByteBuilder) : SlByteBuilderStats :=
  if is_null builder
  then {| bst_length := 0; bst_capacity := 0; bst_max_capacity := 0; bst_grow_count := 0;
          bst_copied_bytes := 0; bst_appended_bytes := 0; bst_failed_reserve_count := 0;
          bst_storage := SL_BUILDER_STORAGE_INVALID |}
  else {| bst_length := bb_length b; bst_capacity := bb_capacity b;
          bst_max_capacity := bb_max_capacity b; bst_grow_count := bb_grow_count b;
          bst_copied_bytes := bb_copied_bytes b; bst_appended_bytes := bb_appended_bytes b;
          bst_failed_reserve_count := bb_failed_reserve_count b; bst_storage := bb_storage b |}.

Definition sl_byte_builder_view (builder : nullable) (b : SlByteBuilder) : SlBytes :=
  if is_null builder || (bb_length b =? 0) then sl_bytes_empty else
  let data := sl_byte_builder_data b in
  if data =? 0 then sl_bytes_empty else sl_bytes_from_parts data (bb_length b).

Definition sl_byte_builder_reserve (builder : nullable) (additional : Z) : ST BuilderSys unit :=
  b ← gets bs_builder;
  return_if negb (sl_byte_builder_is_initialized builder b) with SL_STATUS_INVALID_ARGUMENT ;;
  required ← lift (sl_checked_add_size (bb_length b) additional REF);
  if required <=? bb_capacity b then mret tt else
  fun s =>
    match sl_byte_builder_grow required s with
    | (Ok _, s') => (Ok tt, s')
    | (Err c, s') =>
        let b' := bs_builder s' in
        (Err c, set_builder
                  (with_failed (sl_builder_counter_add (bb_failed_reserve_count b') 1) b') s')
    end.

Definition sl_byte_builder_append_bytes (builder : nullable) (bytes : SlBytes) : ST BuilderSys unit :=
  b ← gets bs_builder;
  return_if negb (sl_byte_builder_is_initialized builder b) with SL_STATUS_INVALID_ARGUMENT ;;
  lift (sl_byte_builder_validate_span bytes);;
  if bytes_length bytes =? 0 then mret tt else
  sl_byte_builder_reserve builder (bytes_length bytes);;
  b ← gets bs_builder;
  modify (fun s => set_bs_mem
    (sl_byte_builder_copy (bs_mem s) (sl_byte_builder_data b + bb_length b) (bytes_ptr bytes)
       (bytes_length bytes)) s);;
  modify (set_builder (with_length (wrap64 (bb_length b + bytes_length bytes))
                         (sl_builder_counter_add (bb_appended_bytes b) (bytes_length bytes)) b)).

Definition sl_byte_builder_append_byte (builder : nullable) (byte : Z) : ST BuilderSys unit :=
  b ← gets bs_builder;
  return_if negb (sl_byte_builder_is_initialized builder b) with SL_STATUS_INVALID_ARGUMENT ;;
  sl_byte_builder_reserve builder 1;;
  b ← gets bs_builder;
  modify (fun s => set_bs_mem (st8 (bs_mem s) (sl_byte_builder_data b + bb_length b) byte) s);;
  modify (set_builder (with_length (wrap64 (bb_length b + 1))
                         (sl_builder_counter_add (bb_appended_bytes b) 1) b)).
End Operations.

(** * Integer formatting *)

(** The [do ... while (value != 0)] loop: decimal digits, least significant
    first.  A [uint64_t] has at most twenty. *)
Fixpoint digits_loop (fuel : nat) (value : Z) : list Z :=
  match fuel with
  | O => []
  | S fuel =>
      let digit := 48 + value mod 10 in
      let value := value / 10 in
      digit :: (if negb (value =? 0) then digits_loop fuel value else [])
  end.

Definition format_digits (value : Z) : list Z := digits_loop 20 value.
Arguments format_digits : simpl never.

Definition sl_string_format_u64 (buffer capacity value : Z) (out : nullable) : ST mem SlStr :=
  return_if (buffer =? 0) || is_null out with SL_STATUS_INVALID_ARGUMENT ;;
  let digits := format_digits value in
  let length := Z.of_nat (length digits) in
  return_if capacity <=? length with SL_STATUS_INVALID_ARGUMENT ;;
  modify (fun m => store m buffer (rev digits));;
  modify (fun m => st8 m (buffer + length) 0);;
  mret (sl_str_from_parts buffer length).

Definition sl_string_format_i64 (buffer capacity value : Z) (out : nullable) : ST mem SlStr :=
  return_if (buffer =? 0) || is_null out with SL_STATUS_INVALID_ARGUMENT ;;
  if value <? 0 then
    let magnitude := wrap64 (wrap64 (- (value + 1)) + 1) in
    return_if capacity <? 3 with SL_STATUS_INVALID_ARGUMENT ;;
    modify (fun m => st8 m buffer 45);;
    ((fun m =>
        match sl_string_format_u64 (buffer + 1) (capacity - 1) magnitude REF m with
        | (Err c, m') => (Err c, st8 m' buffer 0)
        | (Ok v, m') => (Ok (sl_str_from_parts buffer (str_length v + 1)), m')
        end) : ST mem SlStr)
  else sl_string_format_u64 buffer capacity (wrap64 value) out.

Definition sl_string_format_size (buffer capacity value : Z) (out : nullable) : ST mem SlStr :=
  sl_string_format_u64 buffer capacity value out.

(** * String builders: the byte builder inside *)

(** A local [SlByteBuilder]: its inline array is at [scratch]. *)
Definition local_builder (scratch : Z) : SlByteBuilder :=
  {| bb_data := 0; bb_length := 0; bb_capacity := 0; bb_max_capacity := 0; bb_grow_count := 0; bb_copied_bytes := 0;
     bb_appended_bytes := 0; bb_failed_reserve_count := 0; bb_arena := NULL;
     bb_storage := SL_BUILDER_STORAGE_INVALID; bb_small := scratch |}.

(** A function that works on a builder of its own; what it leaves is the memory. *)
Definition with_local_builder {A} (scratch : Z) (c : ST BuilderSys A) : ST World A :=
  fun w => let '(r, s) := c {| bs_world := w; bs_builder := local_builder scratch |} in (r, bs_world s).

Section StringBuilder.
Context {BC : BuildConfig}.

Definition in_mem {A} (c : ST mem A) : ST BuilderSys A := zoom bs_mem set_bs_mem c.

Definition sl_string_builder_init_fixed (builder : nullable) (buffer capacity : Z) :=
  return_if is_null builder with SL_STATUS_INVALID_ARGUMENT ;;
  sl_byte_builder_init_fixed REF buffer capacity.

Definition sl_string_builder_init_small (builder : nullable) :=
  return_if is_null builder with SL_STATUS_INVALID_ARGUMENT ;;
  sl_byte_builder_init_small REF.

Definition sl_string_builder_init_arena (builder arena : nullable)
    (initial_capacity max_capacity : Z) :=
  return_if is_null builder with SL_STATUS_INVALID_ARGUMENT ;;
  sl_byte_builder_init_arena REF arena initial_capacity max_capacity.

Definition sl_string_builder_reset (builder : nullable) : ST BuilderSys unit :=
  if is_null builder then mret tt else sl_byte_builder_reset REF.

Definition sl_string_builder_view (builder : nullable) (b : SlByteBuilder) : SlStr :=
  if is_null builder then sl_str_empty else
  let bytes := sl_byte_builder_view REF b in
  sl_str_from_parts (bytes_ptr bytes) (bytes_length bytes).

Definition sl_string_builder_view_with_nul (builder out : nullable) : ST BuilderSys SlStr :=
  return_if is_null builder || is_null out with SL_STATUS_INVALID_ARGUMENT ;;
  sl_byte_builder_reserve REF 1;;
  b ← gets bs_builder;
  modify (fun s => set_bs_mem (st8 (bs_mem s) (sl_byte_builder_data b + bb_length b) 0) s);;
  mret (sl_string_builder_view REF b).

Definition sl_string_builder_reserve (builder : nullable) (additional : Z) : ST BuilderSys unit :=
  return_if is_null builder with SL_STATUS_INVALID_ARGUMENT ;;
  sl_byte_builder_reserve REF additional.

Definition sl_string_builder_append_str (builder : nullable) (str : SlStr) : ST BuilderSys unit :=
  return_if is_null builder with SL_STATUS_INVALID_ARGUMENT ;;
  sl_byte_builder_append_bytes REF (sl_bytes_from_parts (str_ptr str) (str_length str)).

(** [fuel] bounds the scan for the terminator. *)
Definition sl_string_builder_append_cstr (builder : nullable) (cstr : Z) (fuel : nat) : ST BuilderSys unit :=
  return_if is_null builder || (cstr =? 0) with SL_STATUS_INVALID_ARGUMENT ;;
  m ← gets bs_mem ;
  match sl_str_from_cstr m cstr fuel with
  | Some str => sl_string_builder_append_str builder str
  | None => fail SL_STATUS_INVALID_ARGUMENT
  end.

Definition sl_string_builder_length (builder : nullable) (b : SlByteBuilder) : Z :=
  if is_null builder then 0 else sl_byte_builder_length REF b.

Definition sl_string_builder_capacity (builder : nullable) (b : SlByteBuilder) : Z :=
  if is_null builder then 0 else sl_byte_builder_capacity REF b.

Definition sl_string_builder_stats (builder : nullable) (b : SlByteBuilder) : SlByteBuilderStats := sl_byte_builder_stats builder b.

Definition sl_string_builder_append_char (builder : nullable) (value : Z) : ST BuilderSys unit :=
  return_if is_null builder with SL_STATUS_INVALID_ARGUMENT ;;
  sl_byte_builder_append_byte REF value.

(** The appends of numbers format into a local array of the C frame; [local] is
    its address. *)
Definition sl_string_builder_append_u64 (builder : nullable) (local value : Z) : ST BuilderSys unit :=
  return_if is_null builder with SL_STATUS_INVALID_ARGUMENT ;;
  formatted ← in_mem (sl_string_format_u64 local SL_STRING_FORMAT_U64_CAPACITY value REF);
  sl_string_builder_append_str builder formatted.

Definition sl_string_builder_append_i64 (builder : nullable) (local value : Z) : ST BuilderSys unit :=
  return_if is_null builder with SL_STATUS_INVALID_ARGUMENT ;;
  formatted ← in_mem (sl_string_format_i64 local SL_STRING_FORMAT_I64_CAPACITY value REF);
  sl_string_builder_append_str builder formatted.

Definition sl_string_builder_append_size (builder : nullable) (local value : Z) : ST BuilderSys unit :=
  return_if is_null builder with SL_STATUS_INVALID_ARGUMENT ;;
  formatted ← in_mem (sl_string_format_size local SL_STRING_FORMAT_U64_CAPACITY value REF);
  sl_string_builder_append_str builder formatted.
End StringBuilder.

(** * Lemmas: copying and capacity *)

Lemma sl_byte_builder_copy_copied m dst src n :
  0 <= n -> 0 <= dst -> 0 <= src -> dst + n <= UINTPTR_MAX -> src + n <= UINTPTR_MAX ->
  copied dst src n m (sl_byte_builder_copy m dst src n).
Proof.
  intros Hn Hd Hs Hd' Hs'. unfold sl_byte_builder_copy.
  destruct (Z.eqb_spec n 0) as [->|]; [by apply copied_nothing|].
  destruct (Z.eqb_spec dst src) as [->|]; simpl; [apply copied_self|].
  destruct (Z.leb_spec dst (UINTPTR_MAX - n)), (Z.leb_spec src (UINTPTR_MAX - n)); try lia. simpl.
  rewrite !wrap64_small by size_lia. rewrite <- (Z2Nat.id n) at 1 by done.
  destruct (Z.ltb_spec src dst), (Z.ltb_spec dst (src + n)); simpl.
  - apply copy_backward_copied. lia.
  - split_if; apply copy_forward_copied; lia.
  - split_if; apply copy_forward_copied; lia.
  - split_if; apply copy_forward_copied; lia.
Qed.

Lemma next_capacity_loop_spec fuel candidate required max :
  1 <= candidate <= max -> required <= max -> max <= SIZE_MAX ->
  required <= candidate * 2 ^ Z.of_nat fuel ->
  required <= next_capacity_loop fuel candidate required max <= max.
Proof.
  revert candidate; induction fuel as [|fuel IH]; intros c Hc Hr Hm Hf; cbn [next_capacity_loop].
  - simpl in Hf. lia.
  - destruct (Z.ltb_spec c required); [|lia].
    rewrite checked_mul_spec by size_lia. unfold checked.
    destruct (Z.leb_spec (c * 2) SIZE_MAX); [|lia].
    destruct (Z.ltb_spec max (c * 2)); [lia|]. apply IH; try lia.
    rewrite Nat2Z.inj_succ, Z.pow_succ_r in Hf by lia. lia.
Qed.

Lemma sl_byte_builder_next_capacity_spec b required :
  0 <= bb_capacity b < required -> bb_capacity b <= bb_max_capacity b <= SIZE_MAX ->
  if bb_max_capacity b <? required
  then sl_byte_builder_next_capacity b required = Err SL_STATUS_CAPACITY_EXCEEDED
  else exists n, sl_byte_builder_next_capacity b required = Ok n /\ required <= n <= bb_max_capacity b.
Proof.
  intros Hc Hm. unfold sl_byte_builder_next_capacity, SL_BUILDER_MIN_GROW_CAPACITY.
  destruct (Z.ltb_spec (bb_max_capacity b) required) as [|Hr]; [done|].
  set (c0 := if bb_capacity b =? 0 then 8 else bb_capacity b).
  set (c1 := if bb_max_capacity b <? c0 then bb_max_capacity b else c0).
  assert (Hc1 : 1 <= c1 <= bb_max_capacity b).
  { unfold c1, c0. destruct (Z.eqb_spec (bb_capacity b) 0);
      [destruct (Z.ltb_spec (bb_max_capacity b) 8)
      |destruct (Z.ltb_spec (bb_max_capacity b) (bb_capacity b))]; lia. }
  pose proof (next_capacity_loop_spec 64 c1 required (bb_max_capacity b) Hc1 Hr) as Hl.
  destruct Hl as [H1 H2]; [size_lia| |].
  { unfold SIZE_MAX in Hm. change (2 ^ Z.of_nat 64) with (2 ^ 64). lia. }
  exists (next_capacity_loop 64 c1 required (bb_max_capacity b)).
  destruct (Z.ltb_spec (next_capacity_loop 64 c1 required (bb_max_capacity b)) required); [lia|].
  auto.
Qed.

(** Appending a terminated string appends its text. *)
Lemma append_cstr_spec {BC : BuildConfig} cstr len fuel s :
  cstr <> 0 -> 0 <= len -> (Z.to_nat len < fuel)%nat -> 0 ∉ load_bytes (bs_mem s) cstr len -> ld8 (bs_mem s) (cstr + len) = 0 ->
  sl_string_builder_append_cstr REF cstr fuel s = sl_string_builder_append_str REF (sl_str_from_parts cstr len) s.
Proof.
  intros Hc Hl Hf Hz Hn. unfold sl_string_builder_append_cstr. unfold_st. destruct (Z.eqb_spec cstr 0); [done|]. cbn [is_null orb].
  by rewrite (sl_str_from_cstr_spec _ cstr len fuel).
Qed.

(** * The builder invariant *)

(** The bytes built so far. *)
Definition contents (s : BuilderSys) : list Z :=
  load_bytes (bs_mem s) (sl_byte_builder_data (bs_builder s)) (bb_length (bs_builder s)).

(** Storage the builder's arena will not hand out again. *)
Definition settled (s : BuilderSys) (q n : Z) : Prop :=
  bb_storage (bs_builder s) = SL_BUILDER_STORAGE_ARENA -> outside_free (w_arena (bs_world s)) q n.

(** Storage of somebody else: settled, and not the builder's own. *)
Definition foreign (s : BuilderSys) (q n : Z) : Prop :=
  settled s q n /\
  disjoint_ranges q n (sl_byte_builder_data (bs_builder s)) (bb_capacity (bs_builder s)).

Record builder_wf (s : BuilderSys) : Prop := {
  bw_bounds : 0 <= bb_length (bs_builder s) <= bb_capacity (bs_builder s) /\
              bb_capacity (bs_builder s) <= bb_max_capacity (bs_builder s) <= SIZE_MAX;
  bw_init : bb_storage (bs_builder s) <> SL_BUILDER_STORAGE_INVALID;
  bw_ptr : 0 <= sl_byte_builder_data (bs_builder s) /\
           (0 < bb_capacity (bs_builder s) -> 0 < sl_byte_builder_data (bs_builder s)) /\
           sl_byte_builder_data (bs_builder s) + bb_capacity (bs_builder s) <= UINTPTR_MAX;
  bw_arena : bb_storage (bs_builder s) = SL_BUILDER_STORAGE_ARENA ->
             bb_arena (bs_builder s) = REF /\ arena_wf (w_arena (bs_world s));
  bw_settled : settled s (sl_byte_builder_data (bs_builder s)) (bb_capacity (bs_builder s));
}.

(** A failed call: nothing but the failure counter may differ. *)
Definition unchanged (s s' : BuilderSys) : Prop :=
  bs_world s' = bs_world s /\
  exists failed, bs_builder s' = with_failed failed (bs_builder s).

Lemma unchanged_refl s : unchanged s s.
Proof. split; [done|]. exists (bb_failed_reserve_count (bs_builder s)). by destruct (bs_builder s). Qed.

Lemma unchanged_contents s s' : unchanged s s' -> contents s' = contents s.
Proof. intros [Hw [f Hb]]. unfold contents, bs_mem. by rewrite Hw, Hb. Qed.

Lemma unchanged_wf s s' : unchanged s s' -> builder_wf s -> builder_wf s'.
Proof.
  intros [Hw [f Hb]] []. split; unfold settled in *; rewrite ?Hw, ?Hb; done.
Qed.

Lemma unchanged_foreign s s' q n : unchanged s s' -> foreign s q n -> foreign s' q n.
Proof. intros [Hw [f Hb]]. unfold foreign, settled. by rewrite Hw, Hb. Qed.

Lemma foreign_sub s q n p k : foreign s q n -> q <= p -> p + k <= q + n -> foreign s p k.
Proof.
  intros [Hs Hd] H1 H2. split; [intros E; eapply outside_free_sub; [by apply Hs|done|done]|].
  unfold disjoint_ranges in *. lia.
Qed.

(** What [reserve] guarantees on success. *)
Record reserved (additional : Z) (s s' : BuilderSys) : Prop := {
  rs_wf : builder_wf s';
  rs_room : bb_length (bs_builder s') + additional <= bb_capacity (bs_builder s');
  rs_length : bb_length (bs_builder s') = bb_length (bs_builder s);
  rs_contents : contents s' = contents s;
  rs_mem : forall q n, settled s q n -> load_bytes (bs_mem s') q n = load_bytes (bs_mem s) q n;
  rs_foreign : forall q n, foreign s q n -> foreign s' q n;
  rs_storage : bb_storage (bs_builder s') = bb_storage (bs_builder s) /\
               bb_max_capacity (bs_builder s') = bb_max_capacity (bs_builder s);
}.

Section Laws.
Context {BC : BuildConfig}.

Lemma grow_not_arena required s :
  builder_wf s -> bb_storage (bs_builder s) <> SL_BUILDER_STORAGE_ARENA ->
  sl_byte_builder_grow required s = (Err SL_STATUS_CAPACITY_EXCEEDED, s).
Proof.
  intros Hwf Hs. unfold sl_byte_builder_grow. unfold_st.
  pose proof (bw_init _ Hwf). by destruct (bb_storage (bs_builder s)).
Qed.

(** Moving the contents into a fresh block of the arena reserves its room. *)
Lemma moved_reserved s p n required w1 s' :
  let b := bs_builder s in let b' := bs_builder s' in
  builder_wf s -> bb_storage b = SL_BUILDER_STORAGE_ARENA ->
  bb_capacity b < required <= n -> n <= bb_max_capacity b ->
  fresh_block p n (bs_world s) w1 ->
  copied p (sl_byte_builder_data b) (bb_length b) (w_mem w1) (bs_mem s') ->
  w_arena (bs_world s') = w_arena w1 ->
  sl_byte_builder_data b' = p -> bb_capacity b' = n -> bb_length b' = bb_length b ->
  bb_storage b' = SL_BUILDER_STORAGE_ARENA -> bb_arena b' = REF ->
  bb_max_capacity b' = bb_max_capacity b ->
  reserved (required - bb_length b) s s'.
Proof.
  cbv zeta. intros Hwf Es Hr Hn [F1 F2 F3 F4 F5 F6] Hcp Ha Hd Hc Hl Es' Ea' Hm.
  pose proof (bw_bounds _ Hwf) as Hb. pose proof (bw_settled _ Hwf Es) as Hse.
  assert (Hold : outside_free (w_arena (bs_world s)) (sl_byte_builder_data (bs_builder s))
                   (bb_length (bs_builder s))) by (unfold outside_free, disjoint_ranges in *; lia).
  apply copied_load_bytes in Hcp as [Hl1 Ho]; [|lia].
  assert (Hmem : forall q k, settled s q k ->
            load_bytes (bs_mem s') q k = load_bytes (bs_mem s) q k).
  { intros q k Hq. destruct (F6 q k (Hq Es)) as (Hdj & Hld & _). unfold bs_mem at 2. rewrite <- Hld.
    eapply load_bytes_same; [apply Ho|]. unfold disjoint_ranges in *. lia. }
  split; try done.
  - split; rewrite ?Hc, ?Hl, ?Hm, ?Hd; try done; [lia|by rewrite Es'|lia| |].
    + intros _. by rewrite Ea', Ha.
    + intros _. by rewrite Ha.
  - rewrite Hc, Hl. lia.
  - unfold contents. rewrite Hd, Hl, Hl1. by apply F6.
  - intros q k [Hq Hdj]. destruct (F6 q k (Hq Es)) as (Hdj' & _ & Hout).
    split; [intros _; by rewrite Ha|]. rewrite Hd, Hc. unfold disjoint_ranges in *. lia.
  - by rewrite Es'.
Qed.

Lemma grow_spec required s :
  builder_wf s -> bb_capacity (bs_builder s) < required -> is_size required ->
  match sl_byte_builder_grow required s with
  | (Ok _, s') => reserved (required - bb_length (bs_builder s)) s s'
  | (Err _, s') => s' = s
  end.
Proof.
  intros Hwf Hr Hsz. destruct (decide (bb_storage (bs_builder s) = SL_BUILDER_STORAGE_ARENA)) as [Es|];
    [|by rewrite grow_not_arena].
  destruct (bw_arena _ Hwf Es) as [Ea Haw]. pose proof (bw_bounds _ Hwf) as Hb.
  pose proof (bw_ptr _ Hwf) as (Hp1 & Hp2 & Hp3).
  unfold sl_byte_builder_grow, in_arena, zoom. unfold_st. rewrite Es, Ea. simpl.
  pose proof (sl_byte_builder_next_capacity_spec (bs_builder s) required ltac:(lia) ltac:(lia)) as Hn.
  destruct (bb_max_capacity (bs_builder s) <? required); [by rewrite Hn|].
  destruct Hn as (n & -> & Hn).
  destruct (sl_arena_alloc REF n 1 REF (bs_world s)) as [[p|c] w1] eqn:E.
  2: { apply sl_arena_alloc_err in E. subst. by destruct s. }
  apply sl_arena_alloc_fresh in E as [Hz HF]; [|done|size_lia|size_lia].
  destruct (Z.eqb_spec (bb_length (bs_builder s)) 0) as [E0|]; simpl;
    refine (moved_reserved s p n required w1 _ _ _ _ _ HF _ _ _ _ _ _ _ _); try done; try lia;
    try (unfold sl_byte_builder_data; simpl; by rewrite Es).
  - rewrite E0. by apply copied_nothing.
  - apply sl_byte_builder_copy_copied; destruct HF; lia.
Qed.

Lemma reserve_spec additional s :
  builder_wf s -> is_size additional ->
  match sl_byte_builder_reserve REF additional s with
  | (Ok _, s') => reserved additional s s'
  | (Err _, s') => unchanged s s'
  end.
Proof.
  intros Hwf Ha. pose proof (bw_bounds _ Hwf) as Hb. unfold sl_byte_builder_reserve. unfold_st.
  unfold sl_byte_builder_is_initialized. simpl.
  rewrite bool_decide_eq_false_2 by apply Hwf. simpl.
  destruct (sl_checked_add_size _ _ _) as [r|] eqn:Er; [|apply unchanged_refl].
  apply checked_add_ok in Er as [-> Hr]; [|size_lia|done].
  destruct (Z.leb_spec (bb_length (bs_builder s) + additional) (bb_capacity (bs_builder s))) as [|Hgt].
  { split; done. }
  pose proof (grow_spec _ s Hwf Hgt Hr) as Hg.
  destruct (sl_byte_builder_grow _ s) as [[[]|c] s']; cbn [fst snd].
  - by replace additional with (bb_length (bs_builder s) + additional - bb_length (bs_builder s)) by lia.
  - subst s'. split; [done|]. eexists. done.
Qed.
(** What a successful append of [vs] guarantees. *)
Record appended (vs : list Z) (s s' : BuilderSys) : Prop := {
  ad_wf : builder_wf s';
  ad_contents : contents s' = contents s ++ vs;
  ad_foreign : forall q n, foreign s q n ->
    foreign s' q n /\ load_bytes (bs_mem s') q n = load_bytes (bs_mem s) q n;
  ad_storage : bb_storage (bs_builder s') = bb_storage (bs_builder s) /\
               bb_max_capacity (bs_builder s') = bb_max_capacity (bs_builder s);
}.

(** Writing [n] bytes into reserved room. *)
Lemma write_reserved n vs m' appended_count s s1 :
  0 <= n -> reserved n s s1 ->
  let b := bs_builder s1 in
  let p := sl_byte_builder_data b + bb_length b in
  load_bytes m' p n = vs -> same_outside p (p + n) (bs_mem s1) m' ->
  appended vs s (set_builder (with_length (wrap64 (bb_length b + n)) appended_count b)
                   (set_bs_mem m' s1)).
Proof.
  cbv zeta. intros Hn [Hwf Hroom Hlen Hct Hmem Hfor Hst] Hvs Hsame.
  pose proof (bw_bounds _ Hwf) as Hb. pose proof (bw_ptr _ Hwf) as (? & ? & ?).
  rewrite wrap64_small by size_lia.
  assert (Hd : forall len k, sl_byte_builder_data (with_length len k (bs_builder s1))
                             = sl_byte_builder_data (bs_builder s1)) by done.
  split.
  - destruct Hwf. split; try done. simpl in *. lia.
  - rewrite <- Hct. unfold contents, bs_mem. cbn [bs_world bs_builder set_builder set_bs_mem set_world
      set_mem w_mem bb_length with_length]. rewrite Hd, load_bytes_app by lia. f_equal; [|done].
    eapply load_bytes_same; [apply Hsame|]. unfold disjoint_ranges. lia.
  - intros q k Hq. assert (Hs : settled s q k) by apply Hq.
    apply Hfor in Hq as Hq1. split; [exact Hq1|]. rewrite <- (Hmem q k Hs).
    eapply load_bytes_same; [apply Hsame|]. destruct Hq1 as [_ Hdj]. unfold disjoint_ranges in *. lia.
  - apply Hst.
Qed.

Lemma append_bytes_spec bytes s :
  builder_wf s -> bytes_valid bytes -> bytes_wf bytes ->
  settled s (bytes_ptr bytes) (bytes_length bytes) ->
  match sl_byte_builder_append_bytes REF bytes s with
  | (Ok _, s') => appended (bytes_val (bs_mem s) bytes) s s'
  | (Err _, s') => unchanged s s'
  end.
Proof.
  intros Hwf Hv Hbw Hst. unfold sl_byte_builder_append_bytes, sl_byte_builder_validate_span. unfold_st.
  unfold sl_byte_builder_is_initialized at 1. simpl.
  rewrite bool_decide_eq_false_2 by apply Hwf. simpl.
  destruct Hbw as (Hl & Hp & He). destruct Hv as [_ Hv].
  destruct (Z.eqb_spec (bytes_length bytes) 0) as [E0|E0]; simpl.
  { split; [done| |done|done]. unfold bytes_val. rewrite E0. cbn. by rewrite app_nil_r. }
  destruct (Z.eqb_spec (bytes_ptr bytes) 0); [lia|]. simpl.
  assert (Hsz : is_size (bytes_length bytes)) by size_lia.
  pose proof (reserve_spec _ s Hwf Hsz) as Hr.
  destruct (sl_byte_builder_reserve REF (bytes_length bytes) s) as [[[]|c] s1]; [|done]. simpl.
  pose proof (bw_bounds _ (rs_wf _ _ _ Hr)). pose proof (bw_ptr _ (rs_wf _ _ _ Hr)) as (? & ? & ?).
  pose proof (rs_room _ _ _ Hr).
  destruct (copied_load_bytes (bs_mem s1)
    (sl_byte_builder_copy (bs_mem s1) (sl_byte_builder_data (bs_builder s1) + bb_length (bs_builder s1))
       (bytes_ptr bytes) (bytes_length bytes))
    (sl_byte_builder_data (bs_builder s1) + bb_length (bs_builder s1))
    (bytes_ptr bytes) (bytes_length bytes)) as [Hcl Hcs];
    [done|apply sl_byte_builder_copy_copied; lia|].
  apply (write_reserved (bytes_length bytes)); try done.
  rewrite Hcl. by apply (rs_mem _ _ _ Hr).
Qed.

Lemma append_byte_spec byte s :
  builder_wf s ->
  match sl_byte_builder_append_byte REF byte s with
  | (Ok _, s') => appended [wrap8 byte] s s'
  | (Err _, s') => unchanged s s'
  end.
Proof.
  intros Hwf. unfold sl_byte_builder_append_byte. unfold_st.
  unfold sl_byte_builder_is_initialized at 1. simpl.
  rewrite bool_decide_eq_false_2 by apply Hwf. simpl.
  pose proof (reserve_spec 1 s Hwf ltac:(size_lia)) as Hr.
  destruct (sl_byte_builder_reserve REF 1 s) as [[[]|c] s1]; [|done]. simpl.
  apply (write_reserved 1); try done; [|apply st8_same_outside].
  rewrite load_bytes_cons by lia. by rewrite ld8_st8_eq, load_bytes_nonpos.
Qed.
End Laws.

(** * What an append leaves alone in the builder *)

Section Geometry.
Context {BC : BuildConfig}.

(** The storage kind and the maximum never change, and only an arena builder moves. *)
Definition geometry (storage : SlBuilderStorageKind) (max_capacity small data capacity : Z) (s : BuilderSys) : Prop :=
  let b := bs_builder s in
  bb_storage b = storage /\ bb_max_capacity b = max_capacity /\ bb_small b = small /\
  (storage <> SL_BUILDER_STORAGE_ARENA -> sl_byte_builder_data b = data /\ bb_capacity b = capacity).

Lemma stable_reserve st mx sm d c n : stable (geometry st mx sm d c) (sl_byte_builder_reserve REF n).
Proof.
  intros s (Hs & Hm & Hsm & Hg). unfold sl_byte_builder_reserve. unfold_st. destruct (negb _) eqn:Ei; [done|].
  assert (Hni : bb_storage (bs_builder s) <> SL_BUILDER_STORAGE_INVALID).
  { revert Ei. unfold sl_byte_builder_is_initialized.
    by destruct (bool_decide_reflect (bb_storage (bs_builder s) = SL_BUILDER_STORAGE_INVALID)). }
  destruct (sl_checked_add_size _ _ _) as [r|e]; [|done]. destruct (r <=? _); [done|].
  unfold sl_byte_builder_grow. unfold_st.
  destruct (bool_decide_reflect (bb_storage (bs_builder s) = SL_BUILDER_STORAGE_FIXED)); [done|].
  destruct (bool_decide_reflect (bb_storage (bs_builder s) = SL_BUILDER_STORAGE_SMALL)); [done|]. cbn [orb].
  destruct (sl_byte_builder_next_capacity _ _) as [next|e]; [|done].
  unfold in_arena, zoom. destruct (sl_arena_alloc _ _ _ _ _) as [[p|e] w]; [|done]. unfold geometry in *.
  destruct (bb_length (bs_builder s) =? 0);
    cbn [negb snd fst bs_builder set_builder with_storage bb_storage bb_max_capacity set_bs_mem set_world];
    (split; [done|split; [done|split; [done|]]]);
    intros Hna; destruct (bb_storage (bs_builder s)) eqn:Es; congruence.
Qed.

Lemma stable_append_bytes st mx sm d c bytes : stable (geometry st mx sm d c) (sl_byte_builder_append_bytes REF bytes).
Proof.
  intros s Hs. unfold sl_byte_builder_append_bytes. unfold_st. destruct (negb _); [done|].
  destruct (sl_byte_builder_validate_span bytes) as [[]|e]; [|done]. destruct (bytes_length bytes =? 0); [done|].
  pose proof (stable_reserve st mx sm d c (bytes_length bytes) s Hs) as Hr.
  by destruct (sl_byte_builder_reserve REF (bytes_length bytes) s) as [[[]|e] s1].
Qed.

Lemma stable_append_byte st mx sm d c byte : stable (geometry st mx sm d c) (sl_byte_builder_append_byte REF byte).
Proof.
  intros s Hs. unfold sl_byte_builder_append_byte. unfold_st. destruct (negb _); [done|].
  pose proof (stable_reserve st mx sm d c 1 s Hs) as Hr. by destruct (sl_byte_builder_reserve REF 1 s) as [[[]|e] s1].
Qed.
End Geometry.

(** * The byte builder is a sink *)

Section Instance_.
Context {BC : BuildConfig}.

#[export] Instance builder_sink_ops : SinkOps BuilderSys := {
  sink_mem := bs_mem;
  sink_contents := contents;
  sink_inv := builder_wf;
  sink_foreign := foreign;
  sink_append_byte := sl_byte_builder_append_byte REF;
  sink_append_bytes := sl_byte_builder_append_bytes REF;
}.

Lemma appended_step vs s s' : appended vs s s' -> sink_step vs s s'.
Proof. intros [Hwf Hc Hf _]. by split. Qed.

Lemma unchanged_step s s' : builder_wf s -> unchanged s s' -> sink_step [] s s'.
Proof.
  intros Hwf Hu. split; simpl.
  - by eapply unchanged_wf.
  - rewrite app_nil_r. by apply unchanged_contents.
  - intros q n Hq. split; [by eapply unchanged_foreign|].
    destruct Hu as [Hw _]. unfold bs_mem. by rewrite Hw.
Qed.

#[export] Instance builder_sink_laws : SinkLaws BuilderSys.
Proof.
  split.
  - intros byte s Hwf. unfold sink_writes. cbn [sink_append_byte builder_sink_ops].
    pose proof (append_byte_spec byte s Hwf) as Ha.
    destruct (sl_byte_builder_append_byte REF byte s) as [[[]|c] s'];
      [by apply appended_step|by apply unchanged_step].
  - intros bytes s Hwf [Hv Hw [Hs _]]. unfold sink_writes. cbn [sink_append_bytes builder_sink_ops].
    pose proof (append_bytes_spec bytes s Hwf Hv Hw Hs) as Ha.
    destruct (sl_byte_builder_append_bytes REF bytes s) as [[[]|c] s'];
      [by apply appended_step|by apply unchanged_step].
Qed.
End Instance_.

(** * Lemmas: decimal digits *)

(** Reading decimal digits back. *)
Definition parse_decimal (bs : list Z) : Z := fold_left (fun acc d => acc * 10 + (d - 48)) bs 0.

Definition is_digit (b : Z) : Prop := 48 <= b <= 57.

Fixpoint le_decimal (ds : list Z) : Z :=
  match ds with
  | [] => 0
  | d :: ds => (d - 48) + 10 * le_decimal ds
  end.

Lemma parse_decimal_rev ds : parse_decimal (rev ds) = le_decimal ds.
Proof.
  induction ds as [|d ds IH]; [done|]. unfold parse_decimal in *. simpl.
  rewrite fold_left_app. simpl. lia.
Qed.

Lemma digits_loop_spec fuel value :
  0 <= value < 10 ^ Z.of_nat fuel -> (0 < fuel)%nat ->
  le_decimal (digits_loop fuel value) = value /\ Forall is_digit (digits_loop fuel value) /\
  (0 < length (digits_loop fuel value) <= fuel)%nat.
Proof.
  revert value; induction fuel as [|fuel IH]; intros v Hv Hf; [lia|].
  rewrite Nat2Z.inj_succ, Z.pow_succ_r in Hv by lia. cbn [digits_loop].
  assert (Hdm : v = 10 * (v / 10) + v mod 10) by (apply Z.div_mod; lia).
  pose proof (Z.mod_pos_bound v 10 ltac:(lia)).
  destruct (Z.eqb_spec (v / 10) 0) as [E|E]; cbn [negb].
  - cbn [le_decimal length]. split_and!; [lia|repeat constructor; unfold is_digit; lia|lia..].
  - assert (Hq : 0 <= v / 10 < 10 ^ Z.of_nat fuel)
      by (split; [apply Z.div_pos; lia|apply Z.div_lt_upper_bound; lia]).
    assert (fuel <> O) by (intros ->; simpl in Hq; lia).
    destruct (IH _ Hq ltac:(lia)) as (H1 & H2 & H3).
    cbn [le_decimal length]. rewrite H1. split_and!; [lia| |lia..].
    constructor; [unfold is_digit; lia|done].
Qed.

Lemma digits_loop_length fuel k value :
  0 <= value < 10 ^ Z.of_nat k -> (0 < k)%nat -> (length (digits_loop fuel value) <= k)%nat.
Proof.
  revert k value; induction fuel as [|fuel IH]; intros k v Hv Hk; [simpl; lia|].
  destruct k as [|k]; [lia|]. rewrite Nat2Z.inj_succ, Z.pow_succ_r in Hv by lia. cbn [digits_loop].
  destruct (Z.eqb_spec (v / 10) 0) as [E|E]; cbn [negb length]; [lia|].
  assert (Hq : 0 <= v / 10 < 10 ^ Z.of_nat k)
    by (split; [apply Z.div_pos; lia|apply Z.div_lt_upper_bound; lia]).
  assert (k <> O) by (intros ->; simpl in Hq; lia).
  specialize (IH k (v / 10) Hq ltac:(lia)). lia.
Qed.

(** No leading zero: the most significant digit of a nonzero number. *)
Lemma digits_loop_last fuel value :
  0 < value < 10 ^ Z.of_nat fuel -> last (digits_loop fuel value) <> Some 48.
Proof.
  revert value; induction fuel as [|fuel IH]; intros v Hv; [done|].
  rewrite Nat2Z.inj_succ, Z.pow_succ_r in Hv by lia. cbn [digits_loop].
  destruct (Z.eqb_spec (v / 10) 0) as [E|E]; cbn [negb].
  - simpl. intros [= Hz]. assert (v mod 10 = 0) by lia. div_lia.
  - assert (0 < v / 10 < 10 ^ Z.of_nat fuel)
      by (split; [pose proof (Z.div_pos v 10); lia|apply Z.div_lt_upper_bound; lia]).
    specialize (IH (v / 10) ltac:(lia)). destruct (digits_loop fuel (v / 10)) as [|d ds] eqn:Ed.
    + destruct fuel; [simpl in *; lia|]. simpl in Ed. done.
    + by rewrite last_cons_cons.
Qed.

Lemma format_digits_spec value :
  is_size value ->
  parse_decimal (rev (format_digits value)) = value /\ Forall is_digit (rev (format_digits value)) /\
  (0 < length (format_digits value) <= 20)%nat /\
  (value <> 0 -> head (rev (format_digits value)) <> Some 48).
Proof.
  intros Hv. assert (Hb : 0 <= value < 10 ^ Z.of_nat 20) by (change (Z.of_nat 20) with 20; size_lia).
  destruct (digits_loop_spec 20 value Hb ltac:(lia)) as (H1 & H2 & H3). unfold format_digits.
  rewrite parse_decimal_rev. split_and!; try done; try lia.
  - by apply Forall_rev.
  - intros Hne. rewrite rev_alt. change (rev_append ?l []) with (reverse l).
    rewrite head_reverse. apply digits_loop_last. lia.
Qed.

(** What a formatter leaves in the caller's buffer. *)
Record formatted (vs : list Z) (buffer : Z) (v : SlStr) (m m' : mem) : Prop := {
  fm_view : v = sl_str_from_parts buffer (Z.of_nat (length vs));
  fm_bytes : str_val m' v = vs;
  fm_nul : ld8 m' (buffer + Z.of_nat (length vs)) = 0;
  fm_same : same_outside buffer (buffer + Z.of_nat (length vs) + 1) m m';
}.

Lemma is_digit_byte b : is_digit b -> is_byte b.
Proof. unfold is_digit, is_byte. lia. Qed.

Lemma format_u64_spec buffer capacity value m :
  0 < buffer -> is_size value ->
  let vs := rev (format_digits value) in
  if capacity <=? Z.of_nat (length vs)
  then sl_string_format_u64 buffer capacity value REF m = (Err SL_STATUS_INVALID_ARGUMENT, m)
  else exists v m', sl_string_format_u64 buffer capacity value REF m = (Ok v, m') /\
                    formatted vs buffer v m m'.
Proof.
  intros Hbuf Hv. cbv zeta. unfold sl_string_format_u64. unfold_st.
  destruct (Z.eqb_spec buffer 0); [lia|]. cbn [orb is_null].
  rewrite <- (length_rev (format_digits value)). set (vs := rev (format_digits value)).
  destruct (Z.leb_spec capacity (Z.of_nat (length vs))); [done|].
  eexists _, _. split; [done|].
  destruct (format_digits_spec value Hv) as (_ & Hd & _). fold vs in Hd.
  assert (Hb : Forall is_byte vs) by (eapply Forall_impl; [done|apply is_digit_byte]).
  split; try done.
  - unfold str_val, load_bytes. cbn [str_ptr str_length sl_str_from_parts]. rewrite Nat2Z.id.
    rewrite (load_same (store m buffer vs) _ (buffer + Z.of_nat (length vs))
      (buffer + Z.of_nat (length vs) + 1)); [by apply load_store|apply st8_same_outside|].
    unfold disjoint_ranges. lia.
  - by rewrite ld8_st8_eq.
  - apply (same_outside_trans _ _ _ (store m buffer vs)).
    + eapply same_outside_weaken; [apply store_same_outside|lia|lia].
    + eapply same_outside_weaken; [apply st8_same_outside|lia|lia].
Qed.

(** Signed decimal: an optional minus sign. *)
Definition parse_signed (bs : list Z) : Z :=
  match bs with
  | 45 :: ds => - parse_decimal ds
  | ds => parse_decimal ds
  end.

Definition signed_digits (value : Z) : list Z :=
  if value <? 0 then 45 :: rev (format_digits (- value)) else rev (format_digits value).

Lemma parse_signed_digits value :
  - 2 ^ 63 <= value < 2 ^ 63 -> parse_signed (signed_digits value) = value.
Proof.
  intros Hv. unfold signed_digits. destruct (Z.ltb_spec value 0).
  - destruct (format_digits_spec (- value)) as (Hp & _); [size_lia|]. cbn [parse_signed]. lia.
  - destruct (format_digits_spec value) as (Hp & Hd & Hl & _); [size_lia|].
    destruct (rev (format_digits value)) as [|d ds] eqn:E.
    + apply (f_equal length) in E. rewrite length_rev in E. cbn [length] in E. lia.
    + apply Forall_cons in Hd as [Hd _]. rewrite <- Hp. unfold is_digit in Hd.
      unfold parse_signed. repeat (case_match; try lia; try done).
Qed.

Lemma format_i64_spec buffer value m :
  0 < buffer -> - 2 ^ 63 <= value < 2 ^ 63 ->
  exists v m', sl_string_format_i64 buffer SL_STRING_FORMAT_I64_CAPACITY value REF m = (Ok v, m') /\
               formatted (signed_digits value) buffer v m m'.
Proof.
  intros Hbuf Hv. unfold sl_string_format_i64, signed_digits, SL_STRING_FORMAT_I64_CAPACITY.
  unfold_st. destruct (Z.eqb_spec buffer 0); [lia|]. cbn [orb is_null].
  destruct (Z.ltb_spec value 0); cbn -[sl_string_format_u64 wrap64 Z.sub Z.add Z.opp].
  - assert (Hm : wrap64 (wrap64 (- (value + 1)) + 1) = - value).
    { rewrite (wrap64_small (- (value + 1))) by size_lia. rewrite wrap64_small by size_lia. lia. }
    rewrite Hm. destruct (format_digits_spec (- value)) as (_ & _ & Hl & _); [size_lia|].
    assert (Hlen : (length (format_digits (- value)) <= 19)%nat)
      by (apply digits_loop_length; [change (Z.of_nat 19) with 19; lia|lia]).
    pose proof (format_u64_spec (buffer + 1) (21 - 1) (- value) (st8 m buffer 45)) as Hf.
    cbv zeta in Hf. rewrite length_rev in Hf.
    destruct (Z.leb_spec (21 - 1) (Z.of_nat (length (format_digits (- value))))); [lia|].
    destruct Hf as (v & m' & -> & [Hvw Hb Hn Hs]); [lia|size_lia|].
    eexists _, _. split; [done|]. rewrite length_rev in *. split; cbn [length]; rewrite ?length_rev.
    + rewrite Hvw. unfold sl_str_from_parts. cbn [str_length]. f_equal. lia.
    + subst v. unfold str_val in *. cbn [str_ptr str_length sl_str_from_parts] in *.
      rewrite load_bytes_cons by lia. f_equal.
      * rewrite Hs by lia. by rewrite ld8_st8_eq.
      * rewrite <- Hb. f_equal. lia.
    + rewrite <- Hn. f_equal. lia.
    + apply (same_outside_trans _ _ _ (st8 m buffer 45)).
      * eapply same_outside_weaken; [apply st8_same_outside|lia|lia].
      * eapply same_outside_weaken; [apply Hs|lia|lia].
  - rewrite wrap64_small by size_lia.
    pose proof (format_u64_spec buffer 21 value m Hbuf ltac:(size_lia)) as Hf. cbv zeta in Hf.
    destruct (format_digits_spec value) as (_ & _ & Hl & _); [size_lia|]. rewrite length_rev in *.
    destruct (Z.leb_spec 21 (Z.of_nat (length (format_digits value)))); [lia|]. done.
Qed.

(** * Theorems *)

Section Theorems.
Context {BC : BuildConfig}.

(** C10: Appending a byte view or a byte to a well-formed builder either
    appends exactly those bytes, keeps the invariant and leaves every range the
    builder does not own untouched, or fails with nothing changed but the failure
    counter (contents, storage, memory and arena are as before).  The source may
    lie inside the builder itself. *)
Theorem builder_append_exact bytes byte s :
  builder_wf s -> bytes_valid bytes -> bytes_wf bytes ->
  settled s (bytes_ptr bytes) (bytes_length bytes) ->
  match sl_byte_builder_append_bytes REF bytes s with
  | (Ok _, s') => appended (bytes_val (bs_mem s) bytes) s s'
  | (Err _, s') => unchanged s s'
  end /\
  match sl_byte_builder_append_byte REF byte s with
  | (Ok _, s') => appended [wrap8 byte] s s'
  | (Err _, s') => unchanged s s'
  end.
Proof. intros. split; [by apply append_bytes_spec|by apply append_byte_spec]. Qed.

Lemma initialized s : builder_wf s -> sl_byte_builder_is_initialized REF (bs_builder s) = true.
Proof.
  intros Hwf. unfold sl_byte_builder_is_initialized. simpl.
  by rewrite bool_decide_eq_false_2 by apply Hwf.
Qed.

Lemma reserve_outcome n s :
  builder_wf s -> is_size n -> is_size (bb_length (bs_builder s) + n) ->
  (bb_length (bs_builder s) + n <= bb_capacity (bs_builder s) ->
     sl_byte_builder_reserve REF n s = (Ok tt, s)) /\
  (bb_max_capacity (bs_builder s) < bb_length (bs_builder s) + n ->
     fst (sl_byte_builder_reserve REF n s) = Err SL_STATUS_CAPACITY_EXCEEDED).
Proof.
  intros Hwf Hn Hs. pose proof (bw_bounds _ Hwf) as Hb. unfold sl_byte_builder_reserve. unfold_st.
  rewrite initialized by done. cbn [negb].
  rewrite checked_add_spec by (done || size_lia). unfold checked.
  destruct (Z.leb_spec (bb_length (bs_builder s) + n) SIZE_MAX); [|size_lia].
  destruct (Z.leb_spec (bb_length (bs_builder s) + n) (bb_capacity (bs_builder s))) as [|Hgt];
    [split; [done|lia]|]. split; [lia|]. intros Hmax.
  destruct (decide (bb_storage (bs_builder s) = SL_BUILDER_STORAGE_ARENA)) as [Es|];
    [|by rewrite grow_not_arena].
  unfold sl_byte_builder_grow. unfold_st. rewrite Es. cbn [orb bool_decide].
  pose proof (sl_byte_builder_next_capacity_spec (bs_builder s) (bb_length (bs_builder s) + n)
    ltac:(lia) ltac:(lia)) as Hc.
  destruct (Z.ltb_spec (bb_max_capacity (bs_builder s)) (bb_length (bs_builder s) + n)); [|lia].
  rewrite Hc. done.
Qed.

(** An append that fits succeeds. *)
Lemma append_bytes_fits bytes s :
  builder_wf s -> bytes_valid bytes -> bytes_wf bytes ->
  settled s (bytes_ptr bytes) (bytes_length bytes) ->
  bb_length (bs_builder s) + bytes_length bytes <= bb_capacity (bs_builder s) ->
  exists s', sl_byte_builder_append_bytes REF bytes s = (Ok tt, s') /\
    appended (bytes_val (bs_mem s) bytes) s s' /\
    sl_byte_builder_data (bs_builder s') = sl_byte_builder_data (bs_builder s) /\
    bb_capacity (bs_builder s') = bb_capacity (bs_builder s) /\
    bb_length (bs_builder s') = bb_length (bs_builder s) + bytes_length bytes.
Proof.
  intros Hwf Hv Hbw Hst Hfit. pose proof (append_bytes_spec bytes s Hwf Hv Hbw Hst) as Ha.
  pose proof (bw_bounds _ Hwf) as Hb. pose proof Hbw as (Hl & _). revert Ha.
  unfold sl_byte_builder_append_bytes, sl_byte_builder_validate_span. unfold_st.
  rewrite initialized by done. destruct Hv as [_ Hv].
  destruct (Z.eqb_spec (bytes_length bytes) 0); cbn [negb andb];
    [intros Ha; eexists; split_and!; [done..|lia]|].
  destruct (Z.eqb_spec (bytes_ptr bytes) 0); [lia|]. cbn [negb andb].
  destruct (reserve_outcome (bytes_length bytes) s) as [Hr _]; [done|size_lia|size_lia|].
  rewrite (Hr Hfit). intros Ha. eexists. split_and!; [done..|]. cbn. apply wrap64_small. size_lia.
Qed.

(** ** The builder is a sink with room *)

#[export] Instance builder_sink_room : SinkRoom BuilderSys := {
  sink_room s := bb_capacity (bs_builder s) - bb_length (bs_builder s);
  sink_errors s e :=
    bb_storage (bs_builder s) = SL_BUILDER_STORAGE_FIXED \/ bb_storage (bs_builder s) = SL_BUILDER_STORAGE_SMALL ->
    e = SL_STATUS_CAPACITY_EXCEEDED;
}.

(** A builder that cannot grow fails only for lack of room. *)
Lemma reserve_error n s c s' :
  builder_wf s -> is_size n -> is_size (bb_length (bs_builder s) + n) -> sl_byte_builder_reserve REF n s = (Err c, s') ->
  bb_storage (bs_builder s) = SL_BUILDER_STORAGE_FIXED \/ bb_storage (bs_builder s) = SL_BUILDER_STORAGE_SMALL ->
  c = SL_STATUS_CAPACITY_EXCEEDED.
Proof.
  intros Hwf Hn Hs E Hst. pose proof (bw_bounds _ Hwf) as Hb. revert E.
  unfold sl_byte_builder_reserve. unfold_st. rewrite initialized by done. cbn [negb].
  rewrite checked_add_spec by (done || size_lia). unfold checked.
  destruct (Z.leb_spec (bb_length (bs_builder s) + n) SIZE_MAX); [|size_lia].
  destruct (Z.leb_spec (bb_length (bs_builder s) + n) (bb_capacity (bs_builder s))); [done|].
  rewrite grow_not_arena; [by intros [= <- _]|done|]. by destruct Hst as [-> | ->].
Qed.

Lemma append_bytes_error bytes s c s' :
  builder_wf s -> sink_readable s bytes -> sl_byte_builder_append_bytes REF bytes s = (Err c, s') -> sink_errors s c.
Proof.
  intros Hwf [[_ Hv] (Hl & Hp & He) [_ Hd]]. pose proof (bw_bounds _ Hwf) as Hb.
  pose proof (bw_ptr _ Hwf) as (Hp0 & Hp1 & Hp2). unfold disjoint_ranges in Hd.
  unfold sl_byte_builder_append_bytes, sl_byte_builder_validate_span. unfold_st. rewrite initialized by done.
  destruct (Z.eqb_spec (bytes_length bytes) 0); [done|].
  destruct (Z.eqb_spec (bytes_ptr bytes) 0); [lia|]. cbn [negb andb]. intros E Hst.
  assert (Hsum : is_size (bb_length (bs_builder s) + bytes_length bytes)) by size_lia.
  destruct (sl_byte_builder_reserve REF (bytes_length bytes) s) as [[[]|e] s1] eqn:Er; [done|].
  injection E as -> ->. eapply (reserve_error (bytes_length bytes) s); [done|size_lia|done|done|done].
Qed.

Lemma append_byte_room byte s : builder_wf s -> sink_total [wrap8 byte] (sl_byte_builder_append_byte REF byte) s.
Proof.
  intros Hwf. pose proof (bw_bounds _ Hwf) as Hb. pose proof (bw_ptr _ Hwf) as (Hp0 & Hp1 & Hp2).
  pose proof (append_byte_spec byte s Hwf) as Ha.
  unfold sink_total. cbn [sink_room sink_errors builder_sink_room]. change (Z.of_nat (length [wrap8 byte])) with 1. split.
  - intros Hfit. unfold sl_byte_builder_append_byte. unfold_st. rewrite initialized by done. cbn [negb].
    destruct (reserve_outcome 1 s) as [Hr _]; [done|size_lia|size_lia|]. rewrite Hr by lia. eexists. split; [done|].
    cbn. rewrite wrap64_small by size_lia. lia.
  - destruct (sl_byte_builder_append_byte REF byte s) as [[[]|c] s'] eqn:E.
    + intros e H. by rewrite <- (proj1 (ad_storage _ _ _ Ha)).
    + intros Hst. revert E. unfold sl_byte_builder_append_byte. unfold_st. rewrite initialized by done. cbn [negb].
      destruct (sl_byte_builder_reserve REF 1 s) as [[[]|e] s1] eqn:Er; [done|]. intros [= -> ->].
      eapply (reserve_error 1 s); [done|size_lia| |done|done].
      assert (bb_capacity (bs_builder s) < UINTPTR_MAX \/ bb_capacity (bs_builder s) <= 0) by lia. size_lia.
Qed.

#[export] Instance builder_sink_room_laws : SinkRoomLaws BuilderSys.
Proof.
  split; [apply append_byte_room|]. intros b s Hwf Hr. pose proof Hr as [Hv Hw [Hs _]].
  pose proof (append_bytes_spec b s Hwf Hv Hw Hs) as Ha. pose proof (append_bytes_error b s) as He.
  cbn [sink_append_bytes builder_sink_ops]. unfold sink_total.
  replace (Z.of_nat (length (bytes_val (sink_mem s) b))) with (bytes_length b)
    by (symmetry; apply length_load_bytes; apply Hw). split.
  - intros Hfit. cbn in Hfit. destruct (append_bytes_fits b s Hwf Hv Hw Hs ltac:(lia)) as (s' & E & _ & _ & Ec & El).
    exists s'. split; [exact E|]. cbn. lia.
  - destruct (sl_byte_builder_append_bytes REF b s) as [[[]|c] s'].
    + intros e H. cbn in *. by rewrite <- (proj1 (ad_storage _ _ _ Ha)).
    + by eapply He.
Qed.

(** ** A local builder over a caller's buffer *)

Definition fixed_over (scratch buffer capacity : Z) (w : World) : BuilderSys :=
  snd (sl_byte_builder_init_fixed REF buffer capacity {| bs_world := w; bs_builder := local_builder scratch |}).

Lemma fixed_over_spec scratch buffer capacity w :
  0 <= capacity -> 0 <= buffer -> (0 < capacity -> 0 < buffer) -> buffer + capacity <= UINTPTR_MAX ->
  let s := fixed_over scratch buffer capacity w in
  sl_byte_builder_init_fixed REF buffer capacity {| bs_world := w; bs_builder := local_builder scratch |} = (Ok tt, s) /\
  builder_wf s /\
  (bb_storage (bs_builder s) = SL_BUILDER_STORAGE_FIXED /\ sl_byte_builder_data (bs_builder s) = buffer /\
   bb_capacity (bs_builder s) = capacity /\ bb_max_capacity (bs_builder s) = capacity /\ bb_length (bs_builder s) = 0 /\
   bb_small (bs_builder s) = scratch) /\
  (forall q n, disjoint_ranges q n buffer capacity -> foreign s q n) /\
  (forall q n, disjoint_ranges q n scratch SL_BYTE_BUILDER_SMALL_CAPACITY -> load_bytes (bs_mem s) q n = load_bytes (w_mem w) q n).
Proof.
  intros Hc Hb0 Hb He. cbv zeta. unfold fixed_over, sl_byte_builder_init_fixed.
  assert (Hok : is_null REF || (buffer =? 0) && negb (capacity =? 0) = false).
  { cbn [is_null orb]. destruct (Z.eqb_spec buffer 0); [|done]. destruct (Z.eqb_spec capacity 0); [done|lia]. }
  rewrite Hok. split; [done|].
  split; [|split; [done|split]].
  - split; [cbn; size_lia|done| |done|done].
    change (0 <= buffer /\ (0 < capacity -> 0 < buffer) /\ buffer + capacity <= UINTPTR_MAX). lia.
  - intros q n Hq. split; [done|]. exact Hq.
  - intros q n Hq. eapply load_bytes_same; [apply fill_same_outside|]. cbn [bs_builder local_builder bb_small].
    unfold SL_BYTE_BUILDER_SMALL_CAPACITY, disjoint_ranges in *. lia.
Qed.

(** Appends are bounded and fail only for lack of room: an append that fits
    in the current capacity succeeds, one that would exceed the maximum capacity
    is refused with CAPACITY_EXCEEDED, and the length never exceeds the maximum. *)
Theorem builder_append_bounded bytes s :
  builder_wf s -> bytes_valid bytes -> bytes_wf bytes ->
  settled s (bytes_ptr bytes) (bytes_length bytes) -> 0 < bytes_length bytes ->
  is_size (bb_length (bs_builder s) + bytes_length bytes) ->
  let r := sl_byte_builder_append_bytes REF bytes s in
  (bb_length (bs_builder s) + bytes_length bytes <= bb_capacity (bs_builder s) -> fst r = Ok tt) /\
  (bb_max_capacity (bs_builder s) < bb_length (bs_builder s) + bytes_length bytes ->
     fst r = Err SL_STATUS_CAPACITY_EXCEEDED) /\
  bb_length (bs_builder (snd r)) <= bb_max_capacity (bs_builder s).
Proof.
  intros Hwf Hv Hbw Hst Hpos Hsz. cbv zeta.
  pose proof (append_bytes_spec bytes s Hwf Hv Hbw Hst) as Ha. pose proof (bw_bounds _ Hwf).
  destruct (reserve_outcome (bytes_length bytes) s) as [H1 H2]; [done|size_lia|done|].
  split_and!.
  - intros Hfit. by destruct (append_bytes_fits bytes s Hwf Hv Hbw Hst Hfit) as (s' & -> & _).
  - intros Hmax. unfold sl_byte_builder_append_bytes, sl_byte_builder_validate_span. unfold_st.
    rewrite initialized by done. destruct Hv as [_ Hv].
    destruct (Z.eqb_spec (bytes_length bytes) 0); [lia|].
    destruct (Z.eqb_spec (bytes_ptr bytes) 0); [lia|]. cbn [negb andb].
    specialize (H2 Hmax). by destruct (sl_byte_builder_reserve REF _ s) as [[[]|c] s1].
  - destruct (sl_byte_builder_append_bytes REF bytes s) as [[[]|c] s']; cbn [snd].
    + destruct Ha as [Hwf' _ _ [_ Hm]]. pose proof (bw_bounds _ Hwf'). lia.
    + destruct Ha as [_ [f ->]]. simpl. lia.
Qed.

(** Formatting a 64-bit integer never fails in a buffer of the documented
    size, writes only inside it, terminates the text with a zero byte and is
    inverted by reading the text as a decimal number; unsigned text consists of
    digits without a leading zero. *)
Theorem format_integers_roundtrip buffer u i m :
  0 < buffer -> is_size u -> - 2 ^ 63 <= i < 2 ^ 63 ->
  (exists v m', sl_string_format_u64 buffer SL_STRING_FORMAT_U64_CAPACITY u REF m = (Ok v, m') /\
     formatted (str_val m' v) buffer v m m' /\ parse_decimal (str_val m' v) = u /\
     Forall is_digit (str_val m' v) /\ (u <> 0 -> head (str_val m' v) <> Some 48)) /\
  (exists v m', sl_string_format_i64 buffer SL_STRING_FORMAT_I64_CAPACITY i REF m = (Ok v, m') /\
     formatted (str_val m' v) buffer v m m' /\ parse_signed (str_val m' v) = i).
Proof.
  intros Hb Hu Hi. destruct (format_digits_spec u Hu) as (Hp & Hd & Hl & Hz). split.
  - pose proof (format_u64_spec buffer SL_STRING_FORMAT_U64_CAPACITY u m Hb Hu) as Hf.
    cbv zeta in Hf. rewrite length_rev in Hf.
    destruct (Z.leb_spec SL_STRING_FORMAT_U64_CAPACITY (Z.of_nat (length (format_digits u))));
      [unfold SL_STRING_FORMAT_U64_CAPACITY in *; lia|].
    destruct Hf as (v & m' & E & F). exists v, m'. by rewrite (fm_bytes _ _ _ _ _ F).
  - destruct (format_i64_spec buffer i m Hb Hi) as (v & m' & E & F). exists v, m'.
    rewrite (fm_bytes _ _ _ _ _ F). by rewrite parse_signed_digits.
Qed.
End Theorems.

Module Demo.
#[local] Existing Instance assert_build.

(** A 4-byte arena builder holding "abcd" at 4096, allowed to grow to 16 bytes. *)
Definition w0 : World :=
  {| w_mem := store (fun _ => 9) 4096 [97; 98; 99; 100];
     w_arena := {| ar_base := 4096; ar_capacity := 64; ar_offset := 4; ar_high_water := 4;
                   ar_generation := 1 |} |}.
Definition b0 : SlByteBuilder :=
  {| bb_data := 4096; bb_length := 4; bb_capacity := 4; bb_max_capacity := 16; bb_grow_count := 0;
     bb_copied_bytes := 0; bb_appended_bytes := 4; bb_failed_reserve_count := 0; bb_arena := REF;
     bb_storage := SL_BUILDER_STORAGE_ARENA; bb_small := 100 |}.
Definition s0 : BuilderSys := {| bs_world := w0; bs_builder := b0 |}.
Definition self_view : SlBytes := sl_bytes_from_parts 4097 2.

Lemma s0_wf : builder_wf s0.
Proof.
  split.
  - cbn; size_lia.
  - done.
  - change (sl_byte_builder_data (bs_builder s0)) with 4096; cbn; size_lia.
  - intros _. split; [done|]. unfold arena_wf; cbn; size_lia.
  - intros _. change (sl_byte_builder_data (bs_builder s0)) with 4096. unfold outside_free, disjoint_ranges. cbn. lia.
Qed.

(** Appending a piece of the builder to itself, across a growth step. *)
Lemma builder_append_exact_witness :
  match sl_byte_builder_append_bytes REF self_view s0 with
  | (Ok _, s') => contents s' = [97; 98; 99; 100; 98; 99]
  | _ => False
  end.
Proof.
  destruct (builder_append_exact self_view 0 s0 s0_wf) as [H _].
  - split; cbn; lia.
  - unfold bytes_wf; cbn; size_lia.
  - intros _. unfold outside_free, disjoint_ranges; cbn; lia.
  - destruct (sl_byte_builder_append_bytes REF self_view s0) as [[[]|c] s'] eqn:E.
    + rewrite (ad_contents _ _ _ H). reflexivity.
    + vm_compute in E. discriminate E.
Defined.

Lemma builder_append_bounded_witness :
  fst (sl_byte_builder_append_bytes REF (sl_bytes_from_parts 200 13) s0)
  = Err SL_STATUS_CAPACITY_EXCEEDED.
Proof.
  apply (builder_append_bounded (sl_bytes_from_parts 200 13) s0 s0_wf).
  - split; cbn; lia.
  - unfold bytes_wf; cbn; size_lia.
  - intros _. unfold outside_free, disjoint_ranges; cbn; lia.
  - cbn. lia.
  - cbn. size_lia.
  - cbn. lia.
Defined.

Lemma format_integers_roundtrip_witness :
  exists v m', sl_string_format_i64 300 21 (- 2 ^ 63) REF (fun _ => 7) = (Ok v, m') /\
               parse_signed (str_val m' v) = - 2 ^ 63.
Proof.
  destruct (format_integers_roundtrip 300 (2 ^ 64 - 1) (- 2 ^ 63) (fun _ => 7))
    as [_ (v & m' & E & _ & Hp)]; [lia|size_lia|lia|].
  exists v, m'. split; [exact E|exact Hp].
Defined.
End Demo.
