(* ===== verification/Wire.v ===== *)
(** Big-endian integers and flag sets, the parts of the wire formats that the
    HTTP/2 and WebSocket framings share.

    The C code reads and writes integers with shifts and masks, one expression
    per width; the lemmas relate those expressions to the value of a byte list. *)

From S2P Require Import Prelude Memory.

(** The value of a list of bytes, most significant first. *)
Definition be_val (bs : list Z) : Z := foldl (fun acc b => acc * 256 + b) 0 bs.

(** The [n] low-order bytes of [v], most significant first. *)
Fixpoint be_bytes (n : nat) (v : Z) : list Z :=
  match n with
  | O => []
  | S n => (v / 256 ^ Z.of_nat n) mod 256 :: be_bytes n v
  end.

(** Every flag set in [flags] is one of [allowed]. *)
Definition flags_within (flags allowed : Z) : Prop :=
  forall i, Z.testbit flags i = true -> Z.testbit allowed i = true.

(** * Big-endian values *)

Lemma length_be_bytes n v : length (be_bytes n v) = n.
Proof. induction n; cbn; congruence. Qed.

Lemma be_bytes_is_byte n v : Forall is_byte (be_bytes n v).
Proof.
  induction n; constructor; [|done].
  unfold is_byte. apply Z.mod_pos_bound. lia.
Qed.

Lemma be_val_acc acc bs :
  foldl (fun acc b => acc * 256 + b) acc bs = acc * 256 ^ Z.of_nat (length bs) + be_val bs.
Proof.
  unfold be_val. revert acc. induction bs as [|b bs IH]; intros acc; cbn [foldl length]; [lia|].
  rewrite (IH (acc * 256 + b)), (IH (0 * 256 + b)).
  rewrite Nat2Z.inj_succ, Z.pow_succ_r by lia. ring.
Qed.

Lemma be_val_cons b bs : be_val (b :: bs) = b * 256 ^ Z.of_nat (length bs) + be_val bs.
Proof. unfold be_val at 1. cbn [foldl]. rewrite be_val_acc. f_equal. Qed.

Lemma be_val_app bs cs : be_val (bs ++ cs) = be_val bs * 256 ^ Z.of_nat (length cs) + be_val cs.
Proof. unfold be_val at 1. rewrite foldl_app. apply be_val_acc. Qed.

Lemma pow256_pos n : 0 < 256 ^ Z.of_nat n.
Proof. apply Z.pow_pos_nonneg; lia. Qed.

Lemma be_val_range bs : Forall is_byte bs -> 0 <= be_val bs < 256 ^ Z.of_nat (length bs).
Proof.
  induction 1 as [|b bs Hb _ IH]; [cbn; lia|]. rewrite be_val_cons. cbn [length].
  rewrite Nat2Z.inj_succ, Z.pow_succ_r by lia. pose proof (pow256_pos (length bs)).
  unfold is_byte in Hb. nia.
Qed.

Lemma be_val_be_bytes n v : be_val (be_bytes n v) = v mod 256 ^ Z.of_nat n.
Proof.
  induction n as [|n IH]; [cbn; by rewrite Z.mod_1_r|].
  cbn [be_bytes]. rewrite be_val_cons, length_be_bytes, IH, Nat2Z.inj_succ, Z.pow_succ_r by lia.
  rewrite (Z.mul_comm 256), Z.rem_mul_r by (pose proof (pow256_pos n); lia). ring.
Qed.

Lemma be_val_inj bs cs :
  length bs = length cs -> Forall is_byte bs -> Forall is_byte cs -> be_val bs = be_val cs -> bs = cs.
Proof.
  revert cs. induction bs as [|b bs IH]; intros [|c cs] Hl Hb Hc E; try done.
  apply Forall_cons in Hb as [Hb Hbs]. apply Forall_cons in Hc as [Hc Hcs].
  injection Hl as Hl. rewrite !be_val_cons, Hl in E.
  pose proof (be_val_range bs Hbs) as R1. pose proof (be_val_range cs Hcs) as R2. rewrite Hl in R1.
  assert (b = c) as -> by nia. f_equal. apply IH; [done..|lia].
Qed.

Lemma be_bytes_be_val n bs : length bs = n -> Forall is_byte bs -> be_bytes n (be_val bs) = bs.
Proof.
  intros Hl Hb. apply be_val_inj; [by rewrite length_be_bytes|apply be_bytes_is_byte|done|].
  rewrite be_val_be_bytes. apply Z.mod_small. rewrite <- Hl. by apply be_val_range.
Qed.

Lemma load_bytes_val_range m a n :
  0 <= n -> 0 <= be_val (load_bytes m a n) < 256 ^ n.
Proof.
  intros Hn. pose proof (be_val_range (load_bytes m a n) (load_is_byte _ _ _)) as H.
  rewrite length_load_bytes in H by done. done.
Qed.

(** * Shifts and masks *)

Lemma bits_above v k n : 0 <= v < 2 ^ k -> k <= n -> Z.testbit v n = false.
Proof.
  intros Hv Hn. destruct (Z.eq_dec v 0) as [->|]; [apply Z.bits_0|].
  apply Z.bits_above_log2; [lia|]. assert (Z.log2 v < k) by (apply Z.log2_lt_pow2; lia). lia.
Qed.

Lemma lor_disjoint hi lo k : 0 <= k -> 0 <= lo < 2 ^ k -> Z.lor (hi * 2 ^ k) lo = hi * 2 ^ k + lo.
Proof.
  intros Hk Hlo.
  assert (Hand : Z.land (hi * 2 ^ k) lo = 0).
  { apply Z.bits_inj'. intros n Hn. rewrite Z.land_spec, Z.bits_0.
    destruct (Z.lt_ge_cases n k); [by rewrite Z.mul_pow2_bits_low by lia|].
    rewrite (bits_above lo k n) by lia. apply andb_false_r. }
  rewrite <- Z.lxor_lor by done. symmetry. by apply Z.add_nocarry_lxor.
Qed.

Lemma low_byte v k : 0 <= k -> Z.land (Z.shiftr v k) 255 = (v / 2 ^ k) mod 256.
Proof. intros. change 255 with (Z.ones 8). by rewrite Z.land_ones, Z.shiftr_div_pow2. Qed.

Lemma low_bits v k : 0 <= k -> Z.land v (2 ^ k - 1) = v mod 2 ^ k.
Proof. intros. rewrite <- Z.land_ones by lia. by rewrite Z.ones_equiv. Qed.

(** A mask of one bit tests that bit. *)
Lemma land_bit v k : 0 <= k -> (Z.land v (2 ^ k) =? 0) = negb (Z.testbit v k).
Proof.
  intros Hk. destruct (Z.testbit v k) eqn:E; cbn.
  - apply Z.eqb_neq. intros H0. assert (Z.testbit (Z.land v (2 ^ k)) k = false) as H1.
    { rewrite H0. apply Z.bits_0. }
    by rewrite Z.land_spec, E, Z.pow2_bits_true in H1.
  - apply Z.eqb_eq. apply Z.bits_inj'. intros n Hn. rewrite Z.land_spec, Z.bits_0.
    destruct (Z.eq_dec n k) as [->|]; [by rewrite E|]. by rewrite Z.pow2_bits_false, andb_false_r.
Qed.

Lemma byte_high_bit v n : is_byte v -> 8 <= n -> Z.testbit v n = false.
Proof. intros. by apply (bits_above v 8). Qed.

(** [flags & ~allowed] is zero exactly when every flag is allowed. *)
Lemma flags_within_lnot flags allowed :
  is_byte flags -> Z.land flags (Z.lnot allowed) = 0 <-> flags_within flags allowed.
Proof.
  intros Hf. split.
  - intros H0 i Hi. destruct (Z.neg_nonneg_cases i) as [|Hn]; [by rewrite Z.testbit_neg_r in Hi|].
    assert (Z.testbit (Z.land flags (Z.lnot allowed)) i = false) as H1 by (rewrite H0; apply Z.bits_0).
    rewrite Z.land_spec, Z.lnot_spec, Hi in H1 by done. by destruct (Z.testbit allowed i).
  - intros Hw. apply Z.bits_inj'. intros n Hn. rewrite Z.land_spec, Z.lnot_spec, Z.bits_0 by done.
    destruct (Z.testbit flags n) eqn:E; [|done]. by rewrite (Hw n E).
Qed.

(** [(uint8_t)~allowed]: truncating the mask does not matter for a byte. *)
Lemma flags_within_lnot8 flags allowed :
  is_byte flags -> Z.land flags (wrap8 (Z.lnot allowed)) = 0 <-> flags_within flags allowed.
Proof.
  intros Hf. rewrite <- flags_within_lnot by done.
  replace (Z.land flags (wrap8 (Z.lnot allowed))) with (Z.land flags (Z.lnot allowed)); [done|].
  apply Z.bits_inj'. intros n Hn. rewrite !Z.land_spec. unfold wrap8.
  destruct (Z.lt_ge_cases n 8).
  - by rewrite Z.mod_pow2_bits_low by lia.
  - by rewrite (byte_high_bit flags n).
Qed.
