(* ===== verification/Http2Frame.v ===== *)
(** HTTP/2 frames (src/core/http2_frame.c): the nine-byte header, the per-type
    validation, whole-frame parsing and writing, and the SETTINGS payload.

    A parser is a function of the memory and the byte view it is given; a writer
    is a state transformer on the memory.  The specification side gives the wire
    format as lists of bytes ([frame_wire]) and the rules a frame of each type
    has to obey ([frame_rules]). *)

From S2P Require Import Prelude Memory Bytes Wire.

(** * Data *)

Definition SL_HTTP2_FRAME_HEADER_BYTES : Z := 9.
Definition SL_HTTP2_MIN_MAX_FRAME_SIZE : Z := 16384.
Definition SL_HTTP2_MAX_MAX_FRAME_SIZE : Z := 16777215.
Definition SL_HTTP2_MAX_SETTINGS_PER_FRAME : Z := 32.

Definition SL_HTTP2_FRAME_DATA : Z := 0.
Definition SL_HTTP2_FRAME_HEADERS : Z := 1.
Definition SL_HTTP2_FRAME_PRIORITY : Z := 2.
Definition SL_HTTP2_FRAME_RST_STREAM : Z := 3.
Definition SL_HTTP2_FRAME_SETTINGS : Z := 4.
Definition SL_HTTP2_FRAME_PUSH_PROMISE : Z := 5.
Definition SL_HTTP2_FRAME_PING : Z := 6.
Definition SL_HTTP2_FRAME_GOAWAY : Z := 7.
Definition SL_HTTP2_FRAME_WINDOW_UPDATE : Z := 8.
Definition SL_HTTP2_FRAME_CONTINUATION : Z := 9.

Definition SL_HTTP2_FLAG_END_STREAM : Z := 1.
Definition SL_HTTP2_FLAG_ACK : Z := 1.
Definition SL_HTTP2_FLAG_END_HEADERS : Z := 4.
Definition SL_HTTP2_FLAG_PADDED : Z := 8.
Definition SL_HTTP2_FLAG_PRIORITY : Z := 32.

Definition SL_HTTP2_SETTING_ENABLE_PUSH : Z := 2.
Definition SL_HTTP2_SETTING_INITIAL_WINDOW_SIZE : Z := 4.
Definition SL_HTTP2_SETTING_MAX_FRAME_SIZE : Z := 5.

(** The type byte is kept as the byte on the wire: unknown types are legal. *)
Record SlHttp2FrameHeader := {
  fh_length : Z;      (* uint32_t *)
  fh_type : Z;        (* uint8_t *)
  fh_flags : Z;       (* uint8_t *)
  fh_stream_id : Z;   (* uint32_t *)
}.

Record SlHttp2Frame := { fr_header : SlHttp2FrameHeader; fr_payload : SlBytes }.

Record SlHttp2Setting := { setting_id : Z; setting_value : Z }.

#[export] Instance SlHttp2Setting_eq_dec : EqDecision SlHttp2Setting.
Proof. solve_decision. Defined.

(** [settings] has room for [SL_HTTP2_MAX_SETTINGS_PER_FRAME] entries, of which
    the first [setting_count] are in use. *)
Record SlHttp2SettingsFrame := { settings : list SlHttp2Setting; setting_count : Z }.

Definition zero_setting : SlHttp2Setting := {| setting_id := 0; setting_value := 0 |}.
Definition zero_settings_frame : SlHttp2SettingsFrame :=
  {| settings := replicate (Z.to_nat SL_HTTP2_MAX_SETTINGS_PER_FRAME) zero_setting;
     setting_count := 0 |}.

(** * Operations *)

Definition sl_http2_valid_bytes (bytes : SlBytes) : bool :=
  negb (bytes_ptr bytes =? 0) || (bytes_length bytes =? 0).

Definition sl_http2_valid_frame_size (max_frame_size : Z) : bool :=
  (SL_HTTP2_MIN_MAX_FRAME_SIZE <=? max_frame_size) && (max_frame_size <=? SL_HTTP2_MAX_MAX_FRAME_SIZE).

Definition sl_http2_read_u24 (m : mem) (bytes : Z) : Z :=
  Z.lor (Z.lor (Z.shiftl (ld8 m bytes) 16) (Z.shiftl (ld8 m (bytes + 1)) 8)) (ld8 m (bytes + 2)).

Definition sl_http2_read_u32 (m : mem) (bytes : Z) : Z :=
  Z.lor (Z.lor (Z.lor (Z.shiftl (ld8 m bytes) 24) (Z.shiftl (ld8 m (bytes + 1)) 16))
               (Z.shiftl (ld8 m (bytes + 2)) 8))
        (ld8 m (bytes + 3)).

Definition sl_http2_write_u24 (m : mem) (bytes value : Z) : mem :=
  let m := st8 m bytes (Z.land (Z.shiftr value 16) 255) in
  let m := st8 m (bytes + 1) (Z.land (Z.shiftr value 8) 255) in
  st8 m (bytes + 2) (Z.land value 255).

Definition sl_http2_write_u32 (m : mem) (bytes value : Z) : mem :=
  let m := st8 m bytes (Z.land (Z.shiftr value 24) 255) in
  let m := st8 m (bytes + 1) (Z.land (Z.shiftr value 16) 255) in
  let m := st8 m (bytes + 2) (Z.land (Z.shiftr value 8) 255) in
  st8 m (bytes + 3) (Z.land value 255).

Definition sl_http2_write_bytes (m : mem) (dst : Z) (src : SlBytes) : mem :=
  copy_forward m dst (bytes_ptr src) (Z.to_nat (bytes_length src)).

Definition sl_http2_payload_has_padding (m : mem) (frame : SlHttp2Frame) (bytes_after_pad_length : Z) : bool :=
  if Z.land (fh_flags (fr_header frame)) SL_HTTP2_FLAG_PADDED =? 0 then true else
  if bytes_length (fr_payload frame) <? bytes_after_pad_length + 1 then false else
  let pad_length := ld8 m (bytes_ptr (fr_payload frame)) in
  pad_length <=? bytes_length (fr_payload frame) - bytes_after_pad_length - 1.

Definition sl_http2_validate_data (m : mem) (frame : SlHttp2Frame) : result unit :=
  error_if (fh_stream_id (fr_header frame) =? 0)
           || negb (Z.land (fh_flags (fr_header frame)) (Z.lnot 9) =? 0)
    with SL_STATUS_INVALID_ARGUMENT ;;
  if sl_http2_payload_has_padding m frame 0 then Ok tt else Err SL_STATUS_INVALID_ARGUMENT.

Definition sl_http2_validate_headers (m : mem) (frame : SlHttp2Frame) : result unit :=
  let allowed := wrap8 (Z.lor (Z.lor (Z.lor SL_HTTP2_FLAG_END_STREAM SL_HTTP2_FLAG_END_HEADERS)
                                     SL_HTTP2_FLAG_PADDED) SL_HTTP2_FLAG_PRIORITY) in
  let flags := fh_flags (fr_header frame) in
  error_if (fh_stream_id (fr_header frame) =? 0)
           || negb (Z.land flags (wrap8 (Z.lnot allowed)) =? 0)
    with SL_STATUS_INVALID_ARGUMENT ;;
  let padded := negb (Z.land flags SL_HTTP2_FLAG_PADDED =? 0) in
  let priority := negb (Z.land flags SL_HTTP2_FLAG_PRIORITY =? 0) in
  let minimum := if padded then 1 else 0 in
  let priority_offset := if padded then 1 else 0 in
  let minimum := if priority then minimum + 5 else minimum in
  let bytes_after_pad_length := if priority then 5 else 0 in
  error_if bytes_length (fr_payload frame) <? minimum with SL_STATUS_INVALID_ARGUMENT ;;
  error_if negb (sl_http2_payload_has_padding m frame bytes_after_pad_length)
    with SL_STATUS_INVALID_ARGUMENT ;;
  if priority then
    let dependency := Z.land (sl_http2_read_u32 m (bytes_ptr (fr_payload frame) + priority_offset))
                             (2 ^ 31 - 1) in
    error_if dependency =? fh_stream_id (fr_header frame) with SL_STATUS_INVALID_ARGUMENT ;;
    Ok tt
  else Ok tt.

Definition sl_http2_validate_priority (m : mem) (frame : SlHttp2Frame) : result unit :=
  error_if (fh_stream_id (fr_header frame) =? 0) || negb (bytes_length (fr_payload frame) =? 5)
           || negb (fh_flags (fr_header frame) =? 0)
    with SL_STATUS_INVALID_ARGUMENT ;;
  error_if Z.land (sl_http2_read_u32 m (bytes_ptr (fr_payload frame))) (2 ^ 31 - 1)
           =? fh_stream_id (fr_header frame)
    with SL_STATUS_INVALID_ARGUMENT ;;
  Ok tt.

Definition sl_http2_validate_rst_stream (frame : SlHttp2Frame) : result unit :=
  error_if (fh_stream_id (fr_header frame) =? 0) || negb (bytes_length (fr_payload frame) =? 4)
           || negb (fh_flags (fr_header frame) =? 0)
    with SL_STATUS_INVALID_ARGUMENT ;;
  Ok tt.

Definition sl_http2_validate_settings (frame : SlHttp2Frame) : result unit :=
  error_if negb (fh_stream_id (fr_header frame) =? 0)
           || negb (Z.land (fh_flags (fr_header frame)) (wrap8 (Z.lnot SL_HTTP2_FLAG_ACK)) =? 0)
    with SL_STATUS_INVALID_ARGUMENT ;;
  if negb (Z.land (fh_flags (fr_header frame)) SL_HTTP2_FLAG_ACK =? 0) then
    if bytes_length (fr_payload frame) =? 0 then Ok tt else Err SL_STATUS_INVALID_ARGUMENT
  else
  error_if negb (bytes_length (fr_payload frame) mod 6 =? 0) with SL_STATUS_INVALID_ARGUMENT ;;
  Ok tt.

Definition sl_http2_validate_push_promise (m : mem) (frame : SlHttp2Frame) : result unit :=
  let allowed := wrap8 (Z.lor SL_HTTP2_FLAG_END_HEADERS SL_HTTP2_FLAG_PADDED) in
  let flags := fh_flags (fr_header frame) in
  error_if (fh_stream_id (fr_header frame) =? 0)
           || negb (Z.land flags (wrap8 (Z.lnot allowed)) =? 0)
    with SL_STATUS_INVALID_ARGUMENT ;;
  let padded := negb (Z.land flags SL_HTTP2_FLAG_PADDED =? 0) in
  let minimum := if padded then 4 + 1 else 4 in
  let stream_id_offset := if padded then 1 else 0 in
  error_if (bytes_length (fr_payload frame) <? minimum) || negb (sl_http2_payload_has_padding m frame 4)
    with SL_STATUS_INVALID_ARGUMENT ;;
  let promised_stream_id :=
    Z.land (sl_http2_read_u32 m (bytes_ptr (fr_payload frame) + stream_id_offset)) (2 ^ 31 - 1) in
  if promised_stream_id =? 0 then Err SL_STATUS_INVALID_ARGUMENT else Ok tt.

Definition sl_http2_validate_ping (frame : SlHttp2Frame) : result unit :=
  error_if negb (fh_stream_id (fr_header frame) =? 0) || negb (bytes_length (fr_payload frame) =? 8)
           || negb (Z.land (fh_flags (fr_header frame)) (wrap8 (Z.lnot SL_HTTP2_FLAG_ACK)) =? 0)
    with SL_STATUS_INVALID_ARGUMENT ;;
  Ok tt.

Definition sl_http2_validate_goaway (frame : SlHttp2Frame) : result unit :=
  error_if negb (fh_stream_id (fr_header frame) =? 0) || (bytes_length (fr_payload frame) <? 8)
           || negb (fh_flags (fr_header frame) =? 0)
    with SL_STATUS_INVALID_ARGUMENT ;;
  Ok tt.

Definition sl_http2_validate_window_update (m : mem) (frame : SlHttp2Frame) : result unit :=
  error_if negb (bytes_length (fr_payload frame) =? 4) || negb (fh_flags (fr_header frame) =? 0)
    with SL_STATUS_INVALID_ARGUMENT ;;
  let increment := Z.land (sl_http2_read_u32 m (bytes_ptr (fr_payload frame))) (2 ^ 31 - 1) in
  if increment =? 0 then Err SL_STATUS_INVALID_ARGUMENT else Ok tt.

Definition sl_http2_validate_continuation (frame : SlHttp2Frame) : result unit :=
  error_if (fh_stream_id (fr_header frame) =? 0)
           || negb (Z.land (fh_flags (fr_header frame)) (wrap8 (Z.lnot SL_HTTP2_FLAG_END_HEADERS)) =? 0)
    with SL_STATUS_INVALID_ARGUMENT ;;
  Ok tt.

Definition sl_http2_frame_validate (m : mem) (frame_ref : nullable) (frame : SlHttp2Frame)
    (max_frame_size : Z) : result unit :=
  error_if is_null frame_ref || negb (sl_http2_valid_bytes (fr_payload frame))
           || negb (sl_http2_valid_frame_size max_frame_size)
           || negb (fh_length (fr_header frame) =? bytes_length (fr_payload frame))
           || (max_frame_size <? fh_length (fr_header frame))
    with SL_STATUS_INVALID_ARGUMENT ;;
  let type := fh_type (fr_header frame) in
  if type =? SL_HTTP2_FRAME_DATA then sl_http2_validate_data m frame else
  if type =? SL_HTTP2_FRAME_HEADERS then sl_http2_validate_headers m frame else
  if type =? SL_HTTP2_FRAME_PRIORITY then sl_http2_validate_priority m frame else
  if type =? SL_HTTP2_FRAME_RST_STREAM then sl_http2_validate_rst_stream frame else
  if type =? SL_HTTP2_FRAME_SETTINGS then sl_http2_validate_settings frame else
  if type =? SL_HTTP2_FRAME_PUSH_PROMISE then sl_http2_validate_push_promise m frame else
  if type =? SL_HTTP2_FRAME_PING then sl_http2_validate_ping frame else
  if type =? SL_HTTP2_FRAME_GOAWAY then sl_http2_validate_goaway frame else
  if type =? SL_HTTP2_FRAME_WINDOW_UPDATE then sl_http2_validate_window_update m frame else
  if type =? SL_HTTP2_FRAME_CONTINUATION then sl_http2_validate_continuation frame else
  Ok tt.

Definition sl_http2_frame_header_parse (m : mem) (bytes : SlBytes) (out_header : nullable)
    : result SlHttp2FrameHeader :=
  error_if negb (sl_http2_valid_bytes bytes) || is_null out_header
           || (bytes_length bytes <? SL_HTTP2_FRAME_HEADER_BYTES)
    with SL_STATUS_INVALID_ARGUMENT ;;
  Ok {| fh_length := sl_http2_read_u24 m (bytes_ptr bytes);
        fh_type := ld8 m (bytes_ptr bytes + 3);
        fh_flags := ld8 m (bytes_ptr bytes + 4);
        fh_stream_id := Z.land (sl_http2_read_u32 m (bytes_ptr bytes + 5)) (2 ^ 31 - 1) |}.

Definition sl_http2_frame_header_write (header_ref : nullable) (header : SlHttp2FrameHeader)
    (buffer capacity : Z) (out_bytes : nullable) : ST mem SlBytes :=
  return_if is_null header_ref || (buffer =? 0) || is_null out_bytes
            || (capacity <? SL_HTTP2_FRAME_HEADER_BYTES)
            || (SL_HTTP2_MAX_MAX_FRAME_SIZE <? fh_length header)
            || negb (Z.land (fh_stream_id header) (2 ^ 31) =? 0)
    with SL_STATUS_INVALID_ARGUMENT ;;
  modify (fun m => sl_http2_write_u24 m buffer (fh_length header)) ;;
  modify (fun m => st8 m (buffer + 3) (fh_type header)) ;;
  modify (fun m => st8 m (buffer + 4) (fh_flags header)) ;;
  modify (fun m => sl_http2_write_u32 m (buffer + 5) (fh_stream_id header)) ;;
  mret (sl_bytes_from_parts buffer SL_HTTP2_FRAME_HEADER_BYTES).

Definition sl_http2_frame_parse (m : mem) (bytes : SlBytes) (max_frame_size : Z) (out_frame : nullable)
    : result SlHttp2Frame :=
  error_if negb (sl_http2_valid_bytes bytes) || is_null out_frame with SL_STATUS_INVALID_ARGUMENT ;;
  error_if negb (sl_http2_valid_frame_size max_frame_size) with SL_STATUS_INVALID_ARGUMENT ;;
  header ← sl_http2_frame_header_parse m bytes REF ;
  error_if (max_frame_size <? fh_length header)
           || (bytes_length bytes <? SL_HTTP2_FRAME_HEADER_BYTES + fh_length header)
    with SL_STATUS_INVALID_ARGUMENT ;;
  let frame := {| fr_header := header;
                  fr_payload := sl_bytes_from_parts (bytes_ptr bytes + SL_HTTP2_FRAME_HEADER_BYTES)
                                                    (fh_length header) |} in
  _ ← sl_http2_frame_validate m REF frame max_frame_size ;
  Ok frame.

Definition sl_http2_frame_write (frame_ref : nullable) (frame : SlHttp2Frame) (buffer capacity : Z)
    (out_bytes : nullable) : ST mem SlBytes :=
  return_if is_null frame_ref || (buffer =? 0) || is_null out_bytes
            || negb (sl_http2_valid_bytes (fr_payload frame))
            || negb (fh_length (fr_header frame) =? bytes_length (fr_payload frame))
            || (capacity <? wrap64 (SL_HTTP2_FRAME_HEADER_BYTES + bytes_length (fr_payload frame)))
    with SL_STATUS_INVALID_ARGUMENT ;;
  header ← sl_http2_frame_header_write REF (fr_header frame) buffer capacity REF ;
  (if negb (bytes_length (fr_payload frame) =? 0)
   then modify (fun m => sl_http2_write_bytes m (buffer + bytes_length header) (fr_payload frame))
   else mret tt) ;;
  mret (sl_bytes_from_parts buffer (bytes_length header + bytes_length (fr_payload frame))).

(** The value checks of the [switch] in the settings loop. *)
Definition setting_value_ok (id value : Z) : bool :=
  if id =? SL_HTTP2_SETTING_ENABLE_PUSH then negb (1 <? value) else
  if id =? SL_HTTP2_SETTING_INITIAL_WINDOW_SIZE then negb (2 ^ 31 - 1 <? value) else
  if id =? SL_HTTP2_SETTING_MAX_FRAME_SIZE then sl_http2_valid_frame_size value else
  true.

(** The loop over the six-byte entries, [n] of them left from [cursor]. *)
Fixpoint settings_loop (m : mem) (cursor : Z) (n : nat) : ST SlHttp2SettingsFrame unit :=
  match n with
  | O => mret tt
  | S n =>
      let id := wrap16 (Z.lor (Z.shiftl (ld8 m cursor) 8) (ld8 m (cursor + 1))) in
      let value := sl_http2_read_u32 m (cursor + 2) in
      return_if negb (setting_value_ok id value) with SL_STATUS_INVALID_ARGUMENT ;;
      modify (fun out =>
        {| settings := <[Z.to_nat (setting_count out) := {| setting_id := id; setting_value := value |}]>
                         (settings out);
           setting_count := setting_count out + 1 |}) ;;
      settings_loop m (cursor + 6) n
  end.

Definition sl_http2_settings_parse (m : mem) (frame_ref : nullable) (frame : SlHttp2Frame)
    (out_settings : nullable) : ST SlHttp2SettingsFrame unit :=
  return_if is_null frame_ref || is_null out_settings
            || negb (fh_type (fr_header frame) =? SL_HTTP2_FRAME_SETTINGS)
    with SL_STATUS_INVALID_ARGUMENT ;;
  modify (fun _ => zero_settings_frame) ;;
  lift (sl_http2_validate_settings frame) ;;
  if negb (Z.land (fh_flags (fr_header frame)) SL_HTTP2_FLAG_ACK =? 0) then mret tt else
  let count := bytes_length (fr_payload frame) / 6 in
  return_if SL_HTTP2_MAX_SETTINGS_PER_FRAME <? count with SL_STATUS_CAPACITY_EXCEEDED ;;
  settings_loop m (bytes_ptr (fr_payload frame)) (Z.to_nat count).

(** * Specification: the wire format and the rules per frame type *)

(** The bytes of a frame; [r] is the reserved bit in front of the stream id. *)
Definition header_wire (r : Z) (h : SlHttp2FrameHeader) : list Z :=
  be_bytes 3 (fh_length h) ++ [fh_type h; fh_flags h] ++ be_bytes 4 (r * 2 ^ 31 + fh_stream_id h).

Definition frame_wire (r : Z) (h : SlHttp2FrameHeader) (payload : list Z) : list Z :=
  header_wire r h ++ payload.

(** The fields of a header that fit their place on the wire. *)
Definition header_wf (h : SlHttp2FrameHeader) : Prop :=
  0 <= fh_length h < 2 ^ 24 /\ is_byte (fh_type h) /\ is_byte (fh_flags h) /\
  0 <= fh_stream_id h < 2 ^ 31.

Definition padded (flags : Z) : bool := Z.testbit flags 3.
Definition prioritised (flags : Z) : bool := Z.testbit flags 5.

(** A payload with an optional pad length, [k] bytes of fixed fields, a body and
    as much padding as the pad length says. *)
Definition padded_layout (flags : Z) (k : nat) (payload fields : list Z) : Prop :=
  exists body padding,
    payload = (if padded flags then [Z.of_nat (length padding)] else []) ++ fields ++ body ++ padding /\
    length fields = k /\ (padded flags = false -> padding = []).

(** The 31-bit identifier in a four-byte field. *)
Definition id31 (bs : list Z) : Z := be_val (take 4 bs) mod 2 ^ 31.

Definition frame_rules (h : SlHttp2FrameHeader) (p : list Z) : Prop :=
  let t := fh_type h in let flags := fh_flags h in let id := fh_stream_id h in
  if t =? SL_HTTP2_FRAME_DATA then
    id <> 0 /\ flags_within flags (Z.lor SL_HTTP2_FLAG_END_STREAM SL_HTTP2_FLAG_PADDED) /\
    exists fields, padded_layout flags 0 p fields
  else if t =? SL_HTTP2_FRAME_HEADERS then
    id <> 0 /\
    flags_within flags (Z.lor (Z.lor SL_HTTP2_FLAG_END_STREAM SL_HTTP2_FLAG_END_HEADERS)
                              (Z.lor SL_HTTP2_FLAG_PADDED SL_HTTP2_FLAG_PRIORITY)) /\
    exists fields, padded_layout flags (if prioritised flags then 5 else 0) p fields /\
                   (prioritised flags = true -> id31 fields <> id)
  else if t =? SL_HTTP2_FRAME_PRIORITY then
    id <> 0 /\ flags = 0 /\ length p = 5%nat /\ id31 p <> id
  else if t =? SL_HTTP2_FRAME_RST_STREAM then
    id <> 0 /\ flags = 0 /\ length p = 4%nat
  else if t =? SL_HTTP2_FRAME_SETTINGS then
    id = 0 /\ flags_within flags SL_HTTP2_FLAG_ACK /\
    (if Z.testbit flags 0 then p = [] else exists n, length p = (n * 6)%nat)
  else if t =? SL_HTTP2_FRAME_PUSH_PROMISE then
    id <> 0 /\ flags_within flags (Z.lor SL_HTTP2_FLAG_END_HEADERS SL_HTTP2_FLAG_PADDED) /\
    exists fields, padded_layout flags 4 p fields /\ id31 fields <> 0
  else if t =? SL_HTTP2_FRAME_PING then
    id = 0 /\ flags_within flags SL_HTTP2_FLAG_ACK /\ length p = 8%nat
  else if t =? SL_HTTP2_FRAME_GOAWAY then
    id = 0 /\ flags = 0 /\ (8 <= length p)%nat
  else if t =? SL_HTTP2_FRAME_WINDOW_UPDATE then
    flags = 0 /\ length p = 4%nat /\ id31 p <> 0
  else if t =? SL_HTTP2_FRAME_CONTINUATION then
    id <> 0 /\ flags_within flags SL_HTTP2_FLAG_END_HEADERS
  else True.

(** * Integers on the wire *)

Lemma read_u24_val m a : sl_http2_read_u24 m a = be_val (load_bytes m a 3).
Proof.
  unfold sl_http2_read_u24, load_bytes. rewrite !Z.shiftl_mul_pow2 by lia.
  pose proof (ld8_range m (a + 1)) as H1. pose proof (ld8_range m (a + 2)) as H2.
  unfold is_byte in *.
  rewrite (lor_disjoint _ _ 16) by lia.
  replace (ld8 m a * 2 ^ 16 + ld8 m (a + 1) * 2 ^ 8)
    with ((ld8 m a * 2 ^ 8 + ld8 m (a + 1)) * 2 ^ 8) by ring.
  rewrite lor_disjoint by lia. change (Z.to_nat 3) with 3%nat. unfold be_val. cbn [load foldl].
  replace (a + 1 + 1) with (a + 2) by lia. lia.
Qed.

Lemma read_u32_val m a : sl_http2_read_u32 m a = be_val (load_bytes m a 4).
Proof.
  unfold sl_http2_read_u32, load_bytes. rewrite !Z.shiftl_mul_pow2 by lia.
  pose proof (ld8_range m (a + 1)) as H1. pose proof (ld8_range m (a + 2)) as H2.
  pose proof (ld8_range m (a + 3)) as H3.
  unfold is_byte in *.
  rewrite (lor_disjoint _ (ld8 m (a + 1) * _) 24) by lia.
  replace (ld8 m a * 2 ^ 24 + ld8 m (a + 1) * 2 ^ 16)
    with ((ld8 m a * 2 ^ 8 + ld8 m (a + 1)) * 2 ^ 16) by ring.
  rewrite (lor_disjoint _ (ld8 m (a + 2) * _) 16) by lia.
  replace ((ld8 m a * 2 ^ 8 + ld8 m (a + 1)) * 2 ^ 16 + ld8 m (a + 2) * 2 ^ 8)
    with ((ld8 m a * 2 ^ 16 + ld8 m (a + 1) * 2 ^ 8 + ld8 m (a + 2)) * 2 ^ 8) by ring.
  rewrite lor_disjoint by lia. change (Z.to_nat 4) with 4%nat. unfold be_val. cbn [load foldl].
  replace (a + 1 + 1) with (a + 2) by lia. replace (a + 2 + 1) with (a + 3) by lia. lia.
Qed.

Lemma read_id31 m a n :
  4 <= n -> Z.land (sl_http2_read_u32 m a) (2 ^ 31 - 1) = id31 (load_bytes m a n).
Proof.
  intros Hn. rewrite low_bits, read_u32_val by lia. unfold id31. do 2 f_equal.
  replace n with (4 + (n - 4)) by lia. rewrite load_bytes_app by lia.
  rewrite take_app_length'; [done|]. unfold load_bytes. by rewrite length_load.
Qed.

Lemma write_u24_store m a v : sl_http2_write_u24 m a v = store m a (be_bytes 3 v).
Proof.
  unfold sl_http2_write_u24. rewrite !low_byte by lia.
  change 255 with (2 ^ 8 - 1). rewrite low_bits by lia. cbn [be_bytes store].
  replace (a + 1 + 1) with (a + 2) by lia. by rewrite Z.div_1_r.
Qed.

Lemma write_u32_store m a v : sl_http2_write_u32 m a v = store m a (be_bytes 4 v).
Proof.
  unfold sl_http2_write_u32. rewrite !low_byte by lia.
  change 255 with (2 ^ 8 - 1). rewrite low_bits by lia. cbn [be_bytes store].
  replace (a + 1 + 1) with (a + 2) by lia. replace (a + 2 + 1) with (a + 3) by lia.
  by rewrite Z.div_1_r.
Qed.

(** * Validation *)

Lemma flag_padded flags : (Z.land flags SL_HTTP2_FLAG_PADDED =? 0) = negb (padded flags).
Proof. exact (land_bit flags 3 ltac:(lia)). Qed.

Lemma flag_priority flags : (Z.land flags SL_HTTP2_FLAG_PRIORITY =? 0) = negb (prioritised flags).
Proof. exact (land_bit flags 5 ltac:(lia)). Qed.

Lemma flag_ack flags : (Z.land flags SL_HTTP2_FLAG_ACK =? 0) = negb (Z.testbit flags 0).
Proof. exact (land_bit flags 0 ltac:(lia)). Qed.

Definition pad_offset (flags : Z) : Z := if padded flags then 1 else 0.

(** The padding check accepts exactly the payloads with the layout, and the fixed
    fields are then where the code reads them. *)
Lemma padded_layout_fields m f k fields :
  0 <= bytes_length (fr_payload f) ->
  padded_layout (fh_flags (fr_header f)) k (bytes_val m (fr_payload f)) fields ->
  fields = load_bytes m (bytes_ptr (fr_payload f) + pad_offset (fh_flags (fr_header f))) (Z.of_nat k).
Proof.
  intros Hlen (body & padding & E & Hk & Hp). unfold bytes_val in E.
  set (flags := fh_flags (fr_header f)) in *. set (len := bytes_length (fr_payload f)) in *.
  set (ptr := bytes_ptr (fr_payload f)) in *.
  assert (Hl : len = pad_offset flags + Z.of_nat k + Z.of_nat (length body) + Z.of_nat (length padding)).
  { rewrite <- (length_load_bytes m ptr len), E by done. rewrite !length_app, Hk. unfold pad_offset.
    destruct (padded flags); cbn [length]; lia. }
  assert (Ho : 0 <= pad_offset flags) by (unfold pad_offset; destruct (padded flags); lia).
  replace len with (pad_offset flags + (Z.of_nat k + (len - pad_offset flags - Z.of_nat k))) in E by lia.
  rewrite !load_bytes_app in E by lia.
  apply app_inj_1 in E as [_ E].
  - apply app_inj_1 in E as [E _]; [done|]. rewrite Hk. unfold load_bytes. rewrite length_load. lia.
  - unfold load_bytes, pad_offset. rewrite length_load. by destruct (padded flags).
Qed.

Lemma padding_layout m f k :
  0 <= bytes_length (fr_payload f) ->
  (pad_offset (fh_flags (fr_header f)) + Z.of_nat k <= bytes_length (fr_payload f) /\
   sl_http2_payload_has_padding m f (Z.of_nat k) = true) <->
  exists fields, padded_layout (fh_flags (fr_header f)) k (bytes_val m (fr_payload f)) fields.
Proof.
  intros Hlen. unfold sl_http2_payload_has_padding. rewrite flag_padded.
  unfold padded_layout, pad_offset, bytes_val. set (flags := fh_flags (fr_header f)).
  set (len := bytes_length (fr_payload f)) in *. set (ptr := bytes_ptr (fr_payload f)).
  pose proof (ld8_range m ptr) as Hb. unfold is_byte in Hb.
  destruct (padded flags) eqn:Hp; cbn [negb].
  - destruct (Z.ltb_spec len (Z.of_nat k + 1)) as [Hs|Hs].
    + split; [by intros [_ ?]|]. intros (fields & body & padding & E & Hk & _).
      pose proof (length_load_bytes m ptr len Hlen) as HL. rewrite E in HL.
      cbn [app length] in HL. rewrite !length_app in HL. lia.
    + rewrite Z.leb_le. split.
      * intros [_ Hpad]. set (pad := ld8 m ptr) in *.
        exists (load_bytes m (ptr + 1) (Z.of_nat k)),
               (load_bytes m (ptr + 1 + Z.of_nat k) (len - Z.of_nat k - 1 - pad)),
               (load_bytes m (ptr + 1 + Z.of_nat k + (len - Z.of_nat k - 1 - pad)) pad).
        split_and!; [|unfold load_bytes; rewrite length_load; lia|done].
        rewrite length_load_bytes by lia. rewrite load_bytes_cons by lia. cbn [app]. f_equal.
        rewrite <- !load_bytes_app by lia. f_equal. lia.
      * intros (fields & body & padding & E & Hk & _). split; [lia|].
        pose proof (length_load_bytes m ptr len Hlen) as HL. rewrite E in HL.
        rewrite load_bytes_cons in E by lia. injection E as -> _.
        cbn [app length] in HL. rewrite !length_app in HL. lia.
  - split.
    + intros [Hk _].
      exists (load_bytes m ptr (Z.of_nat k)), (load_bytes m (ptr + Z.of_nat k) (len - Z.of_nat k)), [].
      split_and!; [|unfold load_bytes; rewrite length_load; lia|done].
      rewrite app_nil_r. cbn [app]. rewrite <- load_bytes_app by lia. f_equal. lia.
    + intros (fields & body & padding & E & Hk & _). split; [|done].
      pose proof (length_load_bytes m ptr len Hlen) as HL. rewrite E in HL.
      cbn [app] in HL. rewrite !length_app in HL. lia.
Qed.

Lemma error_if_ok {A} (b : bool) c (k : result A) v :
  (if b then Err c else k) = Ok v <-> b = false /\ k = Ok v.
Proof. destruct b; naive_solver. Qed.

Lemma ok_if (b : bool) c : (if b then Ok tt else Err c) = Ok tt <-> b = true.
Proof. destruct b; naive_solver. Qed.

Lemma payload_length m b n :
  0 <= bytes_length b -> length (bytes_val m b) = n <-> bytes_length b = Z.of_nat n.
Proof. intros Hb. unfold bytes_val, load_bytes. rewrite length_load. lia. Qed.

Lemma and_assoc_iff (P Q R : Prop) : (P /\ Q) /\ R <-> P /\ Q /\ R.
Proof. tauto. Qed.

(** Turns the code's guards into propositions. *)
Ltac guards :=
  rewrite ?error_if_ok, ?ok_if, ?orb_false_iff, ?negb_false_iff, ?Z.eqb_eq, ?Z.eqb_neq, ?Z.ltb_ge.

Section Validate.
Context (m : mem) (f : SlHttp2Frame).
Let h : SlHttp2FrameHeader := fr_header f.
Let p : list Z := bytes_val m (fr_payload f).
Hypothesis Hlen : 0 <= bytes_length (fr_payload f).
Hypothesis Hflags : is_byte (fh_flags h).

Lemma data_rules :
  sl_http2_validate_data m f = Ok tt <->
  fh_stream_id h <> 0 /\
  flags_within (fh_flags h) (Z.lor SL_HTTP2_FLAG_END_STREAM SL_HTTP2_FLAG_PADDED) /\
  exists fields, padded_layout (fh_flags h) 0 p fields.
Proof.
  unfold sl_http2_validate_data. guards. fold h.
  change 9 with (Z.lor SL_HTTP2_FLAG_END_STREAM SL_HTTP2_FLAG_PADDED).
  rewrite flags_within_lnot by done. unfold p. pose proof (padding_layout m f 0 Hlen) as Hl. fold h in Hl.
  rewrite <- Hl. change (Z.of_nat 0) with 0.
  assert (sl_http2_payload_has_padding m f 0 = true -> pad_offset (fh_flags h) + 0 <= bytes_length (fr_payload f)).
  { unfold sl_http2_payload_has_padding, pad_offset. rewrite flag_padded. fold h.
    destruct (padded (fh_flags h)); cbn [negb]; [|lia]. split_if; [done|]. lia. }
  tauto.
Qed.

Lemma headers_rules :
  sl_http2_validate_headers m f = Ok tt <->
  fh_stream_id h <> 0 /\
  flags_within (fh_flags h) (Z.lor (Z.lor SL_HTTP2_FLAG_END_STREAM SL_HTTP2_FLAG_END_HEADERS)
                                   (Z.lor SL_HTTP2_FLAG_PADDED SL_HTTP2_FLAG_PRIORITY)) /\
  exists fields, padded_layout (fh_flags h) (if prioritised (fh_flags h) then 5 else 0) p fields /\
                 (prioritised (fh_flags h) = true -> id31 fields <> fh_stream_id h).
Proof.
  unfold sl_http2_validate_headers. guards. fold h. cbv zeta.
  rewrite flags_within_lnot8 by done. rewrite flag_padded, flag_priority, !negb_involutive.
  change (wrap8 _) with (Z.lor (Z.lor SL_HTTP2_FLAG_END_STREAM SL_HTTP2_FLAG_END_HEADERS)
                                   (Z.lor SL_HTTP2_FLAG_PADDED SL_HTTP2_FLAG_PRIORITY)).
  set (k := if prioritised (fh_flags h) then 5%nat else 0%nat).
  pose proof (padding_layout m f k Hlen) as Hl. fold h in Hl. fold p in Hl.
  assert (Hk : (if prioritised (fh_flags h) then 5 else 0) = Z.of_nat k) by (subst k; by destruct prioritised).
  assert (Hm : (if prioritised (fh_flags h) then (if padded (fh_flags h) then 1 else 0) + 5
                else if padded (fh_flags h) then 1 else 0) = pad_offset (fh_flags h) + Z.of_nat k).
  { unfold pad_offset. subst k. by destruct prioritised, padded. }
  rewrite Hk, Hm. change (if padded (fh_flags h) then 1 else 0) with (pad_offset (fh_flags h)).
  assert (Hid : forall fields, padded_layout (fh_flags h) k p fields ->
            (if prioritised (fh_flags h)
             then if Z.land (sl_http2_read_u32 m (bytes_ptr (fr_payload f) + pad_offset (fh_flags h)))
                       (2 ^ 31 - 1) =? fh_stream_id h
                  then Err SL_STATUS_INVALID_ARGUMENT else Ok tt
             else Ok tt) = Ok tt <->
            (prioritised (fh_flags h) = true -> id31 fields <> fh_stream_id h)).
  { intros fields Hf. apply (padded_layout_fields m f k fields Hlen) in Hf. fold h in Hf. subst fields k.
    destruct (prioritised (fh_flags h)); [|by split]. rewrite (read_id31 _ _ (Z.of_nat 5)) by lia.
    guards. naive_solver. }
  split.
  - intros ((Hs & Hw) & Hmin & Hpad & Hdep). split_and!; [done..|].
    destruct (proj1 Hl (conj Hmin Hpad)) as [fields Hf]. exists fields. split; [done|].
    by apply (Hid fields Hf).
  - intros (Hs & Hw & fields & Hf & Hdep). destruct (proj2 Hl (ex_intro _ fields Hf)) as [Hmin Hpad].
    split_and!; try done. by apply (Hid fields Hf).
Qed.

Lemma priority_rules :
  sl_http2_validate_priority m f = Ok tt <->
  fh_stream_id h <> 0 /\ fh_flags h = 0 /\ length p = 5%nat /\ id31 p <> fh_stream_id h.
Proof.
  unfold sl_http2_validate_priority. guards. fold h. unfold p. rewrite payload_length by done.
  split.
  - intros (((Hs & Hl) & Hf) & Hd & _). rewrite (read_id31 _ _ 5) in Hd by lia.
    unfold bytes_val. rewrite Hl. done.
  - intros (Hs & Hf & Hl & Hd). rewrite (read_id31 _ _ 5) by lia. unfold bytes_val in Hd. rewrite Hl in Hd.
    done.
Qed.

Lemma push_promise_rules :
  sl_http2_validate_push_promise m f = Ok tt <->
  fh_stream_id h <> 0 /\
  flags_within (fh_flags h) (Z.lor SL_HTTP2_FLAG_END_HEADERS SL_HTTP2_FLAG_PADDED) /\
  exists fields, padded_layout (fh_flags h) 4 p fields /\ id31 fields <> 0.
Proof.
  unfold sl_http2_validate_push_promise. guards. fold h. cbv zeta.
  rewrite flags_within_lnot8 by done. rewrite flag_padded, !negb_involutive.
  change (wrap8 _) with (Z.lor SL_HTTP2_FLAG_END_HEADERS SL_HTTP2_FLAG_PADDED).
  pose proof (padding_layout m f 4 Hlen) as Hl. fold h in Hl. fold p in Hl.
  change (if padded (fh_flags h) then 1 else 0) with (pad_offset (fh_flags h)).
  assert (Hm : (if padded (fh_flags h) then 4 + 1 else 4) = pad_offset (fh_flags h) + Z.of_nat 4).
  { unfold pad_offset. by destruct padded. }
  rewrite Hm, (read_id31 _ _ (Z.of_nat 4)) by lia. change 4 with (Z.of_nat 4) in * |-.
  split.
  - intros ((Hs & Hw) & (Hmin & Hpad) & Hdep). split_and!; [done..|].
    destruct (proj1 Hl (conj Hmin Hpad)) as [fields Hf]. exists fields. split; [done|].
    apply (padded_layout_fields m f 4 fields Hlen) in Hf. rewrite Hf. apply Hdep.
  - intros (Hs & Hw & fields & Hf & Hdep). destruct (proj2 Hl (ex_intro _ fields Hf)) as [Hmin Hpad].
    apply (padded_layout_fields m f 4 fields Hlen) in Hf. rewrite Hf in Hdep. split_and!; done.
Qed.

Lemma settings_rules :
  sl_http2_validate_settings f = Ok tt <->
  fh_stream_id h = 0 /\ flags_within (fh_flags h) SL_HTTP2_FLAG_ACK /\
  (if Z.testbit (fh_flags h) 0 then p = [] else exists n, length p = (n * 6)%nat).
Proof.
  unfold sl_http2_validate_settings. guards. fold h.
  rewrite flags_within_lnot8, flag_ack, negb_involutive by done. rewrite and_assoc_iff. do 2 f_equiv.
  destruct (Z.testbit (fh_flags h) 0); guards.
  - unfold p, bytes_val, load_bytes. rewrite <- length_zero_iff_nil, length_load. lia.
  - unfold p, bytes_val, load_bytes. rewrite length_load. split.
    + intros [Hm _]. exists (Z.to_nat (bytes_length (fr_payload f) / 6)). div_lia.
    + intros [n Hn]. split; [|done]. replace (bytes_length (fr_payload f)) with (Z.of_nat n * 6) by lia.
      apply Z.mod_mul. lia.
Qed.

(** The validator accepts exactly the frames of the rules. *)
Lemma validate_rules max_frame_size :
  sl_http2_frame_validate m REF f max_frame_size = Ok tt <->
  (bytes_valid (fr_payload f) /\ sl_http2_valid_frame_size max_frame_size = true /\
   fh_length h = Z.of_nat (length p) /\ fh_length h <= max_frame_size) /\ frame_rules h p.
Proof.
  unfold sl_http2_frame_validate. guards. f_equiv.
  - unfold sl_http2_valid_bytes, bytes_valid, p, bytes_val. rewrite length_load_bytes by done. fold h.
    rewrite orb_true_iff, negb_true_iff, Z.eqb_neq, Z.eqb_eq. naive_solver.
  - cbv zeta. unfold frame_rules. fold h.
    split_if; [apply data_rules|]. split_if; [apply headers_rules|]. split_if; [apply priority_rules|].
    split_if. { unfold sl_http2_validate_rst_stream. guards. fold h. unfold p.
                rewrite payload_length by done. naive_solver. }
    split_if; [apply settings_rules|]. split_if; [apply push_promise_rules|].
    split_if. { unfold sl_http2_validate_ping. guards. fold h. unfold p.
                rewrite payload_length, flags_within_lnot8 by done. naive_solver. }
    split_if. { unfold sl_http2_validate_goaway. guards. fold h. unfold p, bytes_val, load_bytes.
                rewrite length_load. naive_solver lia. }
    split_if. { unfold sl_http2_validate_window_update. guards. fold h. unfold p.
                rewrite payload_length by done. split.
                - intros ((Hl & Hf) & Hd & _). rewrite (read_id31 _ _ 4) in Hd by lia.
                  unfold bytes_val. rewrite Hl. done.
                - intros (Hf & Hl & Hd). rewrite (read_id31 _ _ 4) by lia. unfold bytes_val in Hd.
                  rewrite Hl in Hd. done. }
    split_if. { unfold sl_http2_validate_continuation. guards. fold h.
                rewrite flags_within_lnot8 by done. naive_solver. }
    done.
Qed.
End Validate.

(** * Headers on the wire *)

Lemma length_header_wire r h : length (header_wire r h) = 9%nat.
Proof. done. Qed.

Lemma header_wire_bytes r h : header_wf h -> Forall is_byte (header_wire r h).
Proof.
  intros (_ & Ht & Hf & _). unfold header_wire.
  apply Forall_app_2; [|apply Forall_app_2].
  - apply be_bytes_is_byte.
  - by repeat first [apply List.Forall_nil|apply List.Forall_cons].
  - apply be_bytes_is_byte.
Qed.

(** The nine bytes of a header, split the way the parser reads them. *)
Lemma load_header m a :
  load_bytes m a 9 = load_bytes m a 3 ++ [ld8 m (a + 3); ld8 m (a + 4)] ++ load_bytes m (a + 5) 4.
Proof.
  change 9 with (3 + (1 + (1 + 4))). rewrite !load_bytes_app by lia.
  replace (a + 3 + 1 + 1) with (a + 5) by lia. replace (a + 3 + 1) with (a + 4) by lia. done.
Qed.

Definition parsed_header (m : mem) (a : Z) : SlHttp2FrameHeader :=
  {| fh_length := sl_http2_read_u24 m a; fh_type := ld8 m (a + 3); fh_flags := ld8 m (a + 4);
     fh_stream_id := Z.land (sl_http2_read_u32 m (a + 5)) (2 ^ 31 - 1) |}.

Lemma parsed_header_wf m a : header_wf (parsed_header m a).
Proof.
  unfold header_wf, parsed_header. cbn [fh_length fh_type fh_flags fh_stream_id].
  rewrite read_u24_val, low_bits by lia. split_and!; try apply ld8_range.
  - apply load_bytes_val_range; lia.
  - apply (load_bytes_val_range m a 3); lia.
  - apply Z.mod_pos_bound; lia.
  - apply Z.mod_pos_bound; lia.
Qed.

(** Reading a header and writing it give back the bytes, up to the reserved bit. *)
Lemma parsed_header_wire m a :
  exists r, (r = 0 \/ r = 1) /\ load_bytes m a 9 = header_wire r (parsed_header m a).
Proof.
  exists (be_val (load_bytes m (a + 5) 4) / 2 ^ 31).
  pose proof (load_bytes_val_range m (a + 5) 4 ltac:(lia)) as HR. change (256 ^ 4) with (2 ^ 32) in HR.
  split; [div_lia|].
  rewrite load_header. unfold header_wire, parsed_header. cbn [fh_length fh_type fh_flags fh_stream_id].
  rewrite read_u24_val, read_u32_val, low_bits by lia.
  rewrite (Z.mul_comm (_ / _)), <- Z.div_mod by lia.
  rewrite !be_bytes_be_val; try done; apply load_is_byte.
Qed.

Lemma header_wire_parsed m a r h :
  r = 0 \/ r = 1 -> header_wf h -> load_bytes m a 9 = header_wire r h -> parsed_header m a = h.
Proof.
  intros Hr (Hl & Ht & Hf & Hs) E. rewrite load_header in E. unfold header_wire in E.
  apply app_inj_1 in E as [E1 E]; [|done]. apply app_inj_1 in E as [E2 E5]; [|done].
  injection E2 as E2 E3.
  unfold parsed_header. rewrite read_u24_val, read_u32_val, E1, E2, E3, E5, !be_val_be_bytes, low_bits by lia.
  destruct h as [len ty fl sid]. cbn in *. f_equal; [apply Z.mod_small; lia|].
  rewrite (Z.mod_small _ (256 ^ 4)) by lia.
  rewrite Z.add_comm, Z.mod_add by lia. apply Z.mod_small. lia.
Qed.

Lemma header_parse_eq m bytes :
  bytes_valid bytes -> 9 <= bytes_length bytes ->
  sl_http2_frame_header_parse m bytes REF = Ok (parsed_header m (bytes_ptr bytes)).
Proof.
  intros [Hl Hv] H9. unfold sl_http2_frame_header_parse, sl_http2_valid_bytes, SL_HTTP2_FRAME_HEADER_BYTES.
  destruct (Z.ltb_spec (bytes_length bytes) 9); [lia|].
  destruct (Z.eqb_spec (bytes_ptr bytes) 0), (Z.eqb_spec (bytes_length bytes) 0); cbn; try done; lia.
Qed.

Lemma header_write_store h buffer capacity m :
  header_wf h -> buffer <> 0 -> 9 <= capacity ->
  sl_http2_frame_header_write REF h buffer capacity REF m =
  (Ok {| bytes_ptr := buffer; bytes_length := 9 |}, store m buffer (header_wire 0 h)).
Proof.
  intros (Hl & Ht & Hf & Hs) Hb Hc. unfold sl_http2_frame_header_write.
  rewrite (land_bit _ 31) by lia.
  rewrite (bits_above (fh_stream_id h) 31 31) by lia. cbn [negb is_null].
  unfold SL_HTTP2_FRAME_HEADER_BYTES, SL_HTTP2_MAX_MAX_FRAME_SIZE.
  destruct (Z.eqb_spec buffer 0), (Z.ltb_spec capacity 9), (Z.ltb_spec 16777215 (fh_length h)); try lia.
  cbn [orb]. unfold_st. f_equal. rewrite write_u24_store, write_u32_store. unfold header_wire.
  rewrite !store_app, length_be_bytes. cbn [store length].
  replace (buffer + Z.of_nat 3) with (buffer + 3) by lia.
  replace (buffer + 3 + 1) with (buffer + 4) by lia.
  replace (buffer + 3 + Z.of_nat 2) with (buffer + 5) by lia. done.
Qed.

(** * Frames *)

Definition parsed_frame (m : mem) (bytes : SlBytes) : SlHttp2Frame :=
  let header := parsed_header m (bytes_ptr bytes) in
  {| fr_header := header;
     fr_payload := {| bytes_ptr := bytes_ptr bytes + 9; bytes_length := fh_length header |} |}.

(** The parser in one step: the frame it would build, and when it answers it. *)
Lemma frame_parse_eq m bytes max_frame_size :
  bytes_valid bytes -> bytes_wf bytes -> sl_http2_valid_frame_size max_frame_size = true ->
  let f := parsed_frame m bytes in
  sl_http2_frame_parse m bytes max_frame_size REF =
  if decide (9 <= bytes_length bytes /\ fh_length (fr_header f) <= max_frame_size /\
             9 + fh_length (fr_header f) <= bytes_length bytes /\
             sl_http2_frame_validate m REF f max_frame_size = Ok tt)
  then Ok f else Err SL_STATUS_INVALID_ARGUMENT.
Proof.
  intros Hv Hw Hmax f. unfold sl_http2_frame_parse. rewrite Hmax. cbn [is_null negb].
  assert (Hb : sl_http2_valid_bytes bytes = true).
  { unfold sl_http2_valid_bytes. destruct Hv as [_ [->|Hv]]; [by rewrite orb_true_r|].
    by rewrite (proj2 (Z.eqb_neq _ _) Hv). }
  rewrite Hb. cbn [negb orb]. unfold_st.
  destruct (decide (9 <= bytes_length bytes)) as [H9|H9].
  - rewrite header_parse_eq by done. unfold SL_HTTP2_FRAME_HEADER_BYTES, sl_bytes_from_parts.
    fold (parsed_frame m bytes). fold f.
    change (parsed_header m (bytes_ptr bytes)) with (fr_header f).
    destruct (Z.ltb_spec max_frame_size (fh_length (fr_header f))); cbn [orb].
    { rewrite decide_False; [done|lia]. }
    destruct (Z.ltb_spec (bytes_length bytes) (9 + fh_length (fr_header f))).
    { rewrite decide_False; [done|lia]. }
    change {| fr_header := _; fr_payload := _ |} with f.
    destruct (sl_http2_frame_validate m REF f max_frame_size) as [[]|c] eqn:E.
    + by rewrite decide_True.
    + rewrite decide_False by naive_solver. f_equal. revert E. clear.
      unfold sl_http2_frame_validate, sl_http2_validate_data, sl_http2_validate_headers,
        sl_http2_validate_priority, sl_http2_validate_rst_stream, sl_http2_validate_settings,
        sl_http2_validate_push_promise, sl_http2_validate_ping, sl_http2_validate_goaway,
        sl_http2_validate_window_update, sl_http2_validate_continuation. cbv zeta.
      repeat (case_match; try congruence).
  - unfold sl_http2_frame_header_parse, SL_HTTP2_FRAME_HEADER_BYTES.
    destruct (Z.ltb_spec (bytes_length bytes) 9); [|lia]. rewrite !orb_true_r.
    rewrite decide_False; [done|lia].
Qed.

(** What an accepted frame looks like in the input. *)
Definition frame_at (m : mem) (bytes : SlBytes) (max_frame_size : Z) (f : SlHttp2Frame) : Prop :=
  exists r rest,
    (r = 0 \/ r = 1) /\ header_wf (fr_header f) /\
    fr_payload f = {| bytes_ptr := bytes_ptr bytes + 9; bytes_length := fh_length (fr_header f) |} /\
    bytes_val m bytes = frame_wire r (fr_header f) (bytes_val m (fr_payload f)) ++ rest /\
    fh_length (fr_header f) <= max_frame_size /\
    frame_rules (fr_header f) (bytes_val m (fr_payload f)).

Lemma parsed_frame_rules m bytes max_frame_size :
  sl_http2_frame_validate m REF (parsed_frame m bytes) max_frame_size = Ok tt <->
  (bytes_valid (fr_payload (parsed_frame m bytes)) /\
   sl_http2_valid_frame_size max_frame_size = true /\
   fh_length (parsed_header m (bytes_ptr bytes))
     = Z.of_nat (length (bytes_val m (fr_payload (parsed_frame m bytes)))) /\
   fh_length (parsed_header m (bytes_ptr bytes)) <= max_frame_size) /\
  frame_rules (parsed_header m (bytes_ptr bytes)) (bytes_val m (fr_payload (parsed_frame m bytes))).
Proof.
  pose proof (parsed_header_wf m (bytes_ptr bytes)) as (Hl & _ & Hf & _).
  apply (validate_rules m (parsed_frame m bytes)); [|exact Hf].
  cbn [parsed_frame fr_payload bytes_length]. lia.
Qed.

Lemma frame_parse_sound m bytes max_frame_size f :
  bytes_valid bytes -> bytes_wf bytes -> sl_http2_valid_frame_size max_frame_size = true ->
  sl_http2_frame_parse m bytes max_frame_size REF = Ok f -> frame_at m bytes max_frame_size f.
Proof.
  intros Hv Hw Hmax. rewrite (frame_parse_eq m bytes max_frame_size Hv Hw Hmax). intros E.
  pose proof (parsed_header_wf m (bytes_ptr bytes)) as (Hlr & _).
  case_decide as Hd; [|done]. injection E as <-. destruct Hd as (H9 & Hmx & Hfit & Hval).
  apply parsed_frame_rules in Hval as [_ Hr].
  destruct (parsed_header_wire m (bytes_ptr bytes)) as (r & Hrr & Hh).
  exists r, (load_bytes m (bytes_ptr bytes + 9 + fh_length (parsed_header m (bytes_ptr bytes)))
               (bytes_length bytes - 9 - fh_length (parsed_header m (bytes_ptr bytes)))).
  split_and!; try done; try apply parsed_header_wf.
  unfold frame_wire, bytes_val. cbn [fr_header fr_payload parsed_frame bytes_ptr bytes_length].
  rewrite <- Hh, <- app_assoc. cbn [fr_header parsed_frame] in Hfit.
  rewrite <- !load_bytes_app by lia. f_equal. lia.
Qed.

Lemma frame_at_parsed m bytes max_frame_size f :
  bytes_valid bytes -> frame_at m bytes max_frame_size f ->
  parsed_frame m bytes = f /\ 9 + fh_length (fr_header f) <= bytes_length bytes.
Proof.
  intros Hv (r & rest & Hrr & Hfw & Hp & E & Hmx & Hr). pose proof (proj1 Hfw) as Hlr.
  assert (HL : bytes_length bytes = 9 + fh_length (fr_header f) + Z.of_nat (length rest)).
  { rewrite <- (length_load_bytes m (bytes_ptr bytes) (bytes_length bytes)) by apply Hv.
    fold (bytes_val m bytes). rewrite E. unfold frame_wire, bytes_val.
    rewrite !length_app, length_header_wire, Hp. cbn [bytes_length bytes_ptr].
    rewrite !Nat2Z.inj_add, length_load_bytes by lia. lia. }
  split; [|lia].
  assert (Hh : parsed_header m (bytes_ptr bytes) = fr_header f).
  { apply (header_wire_parsed m (bytes_ptr bytes) r); [done..|].
    unfold bytes_val in E at 1. unfold frame_wire in E. rewrite <- app_assoc in E.
    replace (bytes_length bytes) with (9 + (bytes_length bytes - 9)) in E by lia.
    rewrite load_bytes_app in E by lia. by apply app_inj_1 in E as [E _]. }
  unfold parsed_frame. rewrite Hh. destruct f as [fh fp]. cbn in *. by rewrite Hp.
Qed.

Lemma frame_parse_complete m bytes max_frame_size f :
  bytes_valid bytes -> bytes_wf bytes -> sl_http2_valid_frame_size max_frame_size = true ->
  frame_at m bytes max_frame_size f -> sl_http2_frame_parse m bytes max_frame_size REF = Ok f.
Proof.
  intros Hv Hw Hmax Hf. rewrite (frame_parse_eq m bytes max_frame_size Hv Hw Hmax).
  destruct (frame_at_parsed m bytes max_frame_size f Hv Hf) as [Hp Hfit].
  destruct Hf as (r & rest & Hrr & [Hlr _] & Hpl & E & Hmx & Hr).
  pose proof (parsed_frame_rules m bytes max_frame_size) as Hval.
  change (parsed_header m (bytes_ptr bytes)) with (fr_header (parsed_frame m bytes)) in Hval.
  rewrite Hp in *. rewrite decide_True; [done|]. split_and!; [lia..|].
  apply Hval. split; [|done]. destruct Hw as (? & ? & ?).
  split_and!; [split; rewrite Hpl; cbn [bytes_length bytes_ptr]; lia|done| |done].
  unfold bytes_val. rewrite Hpl. cbn [bytes_length bytes_ptr]. by rewrite length_load_bytes by lia.
Qed.

(** C5: parsing is exact.  For a legal input view and frame-size limit the parser
    answers a frame precisely when the input starts with the wire form of a frame
    that obeys the rules of its type and the limit: the header fields are the
    big-endian fields of the first nine bytes (the reserved bit ignored), the
    payload is the view of the [length] bytes after them, and anything behind is
    not touched.  Every other input is refused with INVALID_ARGUMENT. *)
Theorem http2_frame_parse_exact m bytes max_frame_size f :
  bytes_valid bytes -> bytes_wf bytes -> sl_http2_valid_frame_size max_frame_size = true ->
  (sl_http2_frame_parse m bytes max_frame_size REF = Ok f <-> frame_at m bytes max_frame_size f) /\
  ((exists g, sl_http2_frame_parse m bytes max_frame_size REF = Ok g) \/
   sl_http2_frame_parse m bytes max_frame_size REF = Err SL_STATUS_INVALID_ARGUMENT).
Proof.
  intros Hv Hw Hmax. split.
  - split; [by apply frame_parse_sound|by apply frame_parse_complete].
  - rewrite (frame_parse_eq m bytes max_frame_size Hv Hw Hmax). case_decide; eauto.
Qed.

(** * Writing a frame *)

Lemma frame_write_eq f buffer capacity m :
  header_wf (fr_header f) -> bytes_valid (fr_payload f) ->
  fh_length (fr_header f) = bytes_length (fr_payload f) ->
  buffer <> 0 -> 9 + bytes_length (fr_payload f) <= capacity ->
  disjoint_ranges buffer 9 (bytes_ptr (fr_payload f)) (bytes_length (fr_payload f)) ->
  disjoint_ranges (buffer + 9) (bytes_length (fr_payload f))
                  (bytes_ptr (fr_payload f)) (bytes_length (fr_payload f)) ->
  exists m',
    sl_http2_frame_write REF f buffer capacity REF m =
      (Ok {| bytes_ptr := buffer; bytes_length := 9 + bytes_length (fr_payload f) |}, m') /\
    load_bytes m' buffer 9 = header_wire 0 (fr_header f) /\
    load_bytes m' (buffer + 9) (bytes_length (fr_payload f)) = bytes_val m (fr_payload f) /\
    same_outside buffer (buffer + 9 + bytes_length (fr_payload f)) m m'.
Proof.
  intros Hh Hv Hl Hb Hc Hd1 Hd2. set (p := fr_payload f) in *. pose proof (proj1 Hh) as Hlr.
  set (m1 := store m buffer (header_wire 0 (fr_header f))).
  assert (Hs1 : same_outside buffer (buffer + 9) m m1) by apply (store_same_outside m buffer (header_wire _ _)).
  set (m2 := if negb (bytes_length p =? 0) then sl_http2_write_bytes m1 (buffer + 9) p else m1).
  assert (Hcopy : load_bytes m2 (buffer + 9) (bytes_length p) = load_bytes m1 (bytes_ptr p) (bytes_length p)
                  /\ same_outside (buffer + 9) (buffer + 9 + bytes_length p) m1 m2).
  { subst m2. destruct (Z.eqb_spec (bytes_length p) 0) as [E|E]; cbn [negb].
    - rewrite E. split; [done|]. apply same_outside_refl.
    - apply copied_load_bytes; [lia|]. unfold sl_http2_write_bytes.
      rewrite <- (Z2Nat.id (bytes_length p)) at 1 by lia. apply copy_forward_copied.
      unfold disjoint_ranges in Hd2. lia. }
  destruct Hcopy as [Hcp Hs2]. exists m2. split_and!.
  - unfold sl_http2_frame_write. fold p. rewrite Hl, Z.eqb_refl. cbn [is_null negb orb].
    rewrite (proj2 (Z.eqb_neq _ _) Hb). unfold sl_http2_valid_bytes, SL_HTTP2_FRAME_HEADER_BYTES.
    rewrite wrap64_small by size_lia.
    destruct (Z.ltb_spec capacity (9 + bytes_length p)); [lia|].
    assert (negb (negb (bytes_ptr p =? 0) || (bytes_length p =? 0)) = false) as ->.
    { destruct Hv as [_ [->|Hv]]; [by rewrite orb_true_r|]. by rewrite (proj2 (Z.eqb_neq _ _) Hv). }
    cbn [orb]. unfold_st. rewrite header_write_store by (done || lia). fold m1. unfold m2.
    by destruct (bytes_length p =? 0).
  - rewrite (load_bytes_same m1 m2 (buffer + 9) (buffer + 9 + bytes_length p)); [|done|right; left; lia].
    apply (load_store m buffer (header_wire _ _)). by apply header_wire_bytes.
  - rewrite Hcp. apply (load_bytes_same m m1 buffer (buffer + 9)); [done|].
    by replace (buffer + 9 - buffer) with 9 by lia.
  - apply (same_outside_trans _ _ m m1 m2); [eapply same_outside_weaken; [exact Hs1|lia..]|].
    eapply same_outside_weaken; [exact Hs2|lia..].
Qed.

(** Writing and parsing are inverse.  A frame that validates, written into a
    large enough buffer that does not overlap its payload, yields exactly its wire
    form, changes nothing else in memory, and parses back to the same header and
    the same payload bytes. *)
Theorem http2_frame_roundtrip f buffer capacity max_frame_size m :
  sl_http2_frame_validate m REF f max_frame_size = Ok tt ->
  header_wf (fr_header f) -> bytes_wf (fr_payload f) ->
  0 < buffer -> buffer + 9 + bytes_length (fr_payload f) <= UINTPTR_MAX ->
  9 + bytes_length (fr_payload f) <= capacity ->
  disjoint_ranges buffer (9 + bytes_length (fr_payload f))
                  (bytes_ptr (fr_payload f)) (bytes_length (fr_payload f)) ->
  exists out m',
    sl_http2_frame_write REF f buffer capacity REF m = (Ok out, m') /\
    bytes_val m' out = frame_wire 0 (fr_header f) (bytes_val m (fr_payload f)) /\
    same_outside buffer (buffer + 9 + bytes_length (fr_payload f)) m m' /\
    exists g, sl_http2_frame_parse m' out max_frame_size REF = Ok g /\
              fr_header g = fr_header f /\ bytes_val m' (fr_payload g) = bytes_val m (fr_payload f).
Proof.
  intros Hval Hh Hw Hb Hm Hc Hd. destruct Hw as (Hw1 & Hw2 & Hw3).
  pose proof Hh as (Hlr & _ & Hfl & _).
  apply validate_rules in Hval as [(Hv & Hmax & Hl & Hmx) Hr]; [|done..].
  unfold bytes_val in Hl. rewrite length_load_bytes in Hl by done.
  destruct (frame_write_eq f buffer capacity m) as (m' & Ew & E1 & E2 & Hs);
    [done..|lia|lia|unfold disjoint_ranges in *; lia|unfold disjoint_ranges in *; lia|].
  eexists _, m'. split; [exact Ew|].
  assert (E : bytes_val m' {| bytes_ptr := buffer; bytes_length := 9 + bytes_length (fr_payload f) |}
              = frame_wire 0 (fr_header f) (bytes_val m (fr_payload f))).
  { unfold bytes_val at 1. cbn [bytes_ptr bytes_length]. rewrite load_bytes_app, E1, E2 by lia. done. }
  split_and!; [done|done|].
  set (np := {| bytes_ptr := buffer + 9; bytes_length := fh_length (fr_header f) |}).
  assert (E3 : bytes_val m' np = bytes_val m (fr_payload f)).
  { unfold bytes_val at 1. cbn [bytes_ptr bytes_length np]. by rewrite Hl. }
  exists {| fr_header := fr_header f; fr_payload := np |}. split_and!; [|done|done].
  apply frame_parse_complete; [split; cbn; lia|split_and!; cbn; size_lia|done|].
  exists 0, []. split_and!; cbn [fr_header fr_payload]; try done; [by left|..].
  - rewrite app_nil_r, E3. exact E.
  - by rewrite E3.
Qed.

(** A refused write is not partial.  The frame writer either refuses with
    INVALID_ARGUMENT and leaves the memory as it was, or answers the view of the
    whole frame at the start of the buffer; the latter only when the view fits in
    the capacity, its length agrees with the header and it is in 24 bits. *)
Theorem http2_frame_write_atomic f_ref f buffer capacity out_ref m :
  0 <= fh_length (fr_header f) ->
  match sl_http2_frame_write f_ref f buffer capacity out_ref m with
  | (Err c, m') => c = SL_STATUS_INVALID_ARGUMENT /\ m' = m
  | (Ok out, _) =>
      out = {| bytes_ptr := buffer; bytes_length := 9 + bytes_length (fr_payload f) |} /\
      bytes_length out <= capacity /\
      fh_length (fr_header f) = bytes_length (fr_payload f) /\ fh_length (fr_header f) < 2 ^ 24
  end.
Proof.
  intros Hl0. unfold sl_http2_frame_write, sl_http2_frame_header_write, sl_bytes_from_parts,
    SL_HTTP2_FRAME_HEADER_BYTES, SL_HTTP2_MAX_MAX_FRAME_SIZE. unfold_st.
  destruct (_ || _) eqn:E1; [done|]. destruct (is_null REF || _ || _ || _ || _ || _) eqn:E2; [done|].
  rewrite !orb_false_iff in E1, E2. destruct E1 as ((_ & E3) & E4), E2 as ((_ & E5) & _).
  rewrite negb_false_iff, Z.eqb_eq in E3. rewrite Z.ltb_ge in E4, E5. rewrite wrap64_small in E4 by size_lia.
  destruct (negb _); split_and!; cbn [bytes_length]; done || lia.
Qed.

(** * SETTINGS payloads *)

Definition setting_wire (s : SlHttp2Setting) : list Z :=
  be_bytes 2 (setting_id s) ++ be_bytes 4 (setting_value s).

Definition setting_wf (s : SlHttp2Setting) : Prop :=
  0 <= setting_id s < 2 ^ 16 /\ 0 <= setting_value s < 2 ^ 32.

(** The settings before the first one with a value its id does not allow. *)
Fixpoint accepted (l : list SlHttp2Setting) : list SlHttp2Setting :=
  match l with
  | [] => []
  | s :: l => if setting_value_ok (setting_id s) (setting_value s) then s :: accepted l else []
  end.

(** A settings frame that holds [l] and is zero behind it. *)
Definition settings_of (l : list SlHttp2Setting) : SlHttp2SettingsFrame :=
  {| settings := l ++ replicate (32 - length l) zero_setting; setting_count := Z.of_nat (length l) |}.

Definition setting_at (m : mem) (cursor : Z) : SlHttp2Setting :=
  {| setting_id := be_val (load_bytes m cursor 2); setting_value := be_val (load_bytes m (cursor + 2) 4) |}.

(** The [n] settings from [cursor]. *)
Fixpoint settings_at (m : mem) (cursor : Z) (n : nat) : list SlHttp2Setting :=
  match n with
  | O => []
  | S n => setting_at m cursor :: settings_at m (cursor + 6) n
  end.

Lemma length_settings_at m cursor n : length (settings_at m cursor n) = n.
Proof. revert cursor. induction n; intros; cbn; [done|]. by f_equal. Qed.

Lemma setting_at_wf m cursor : setting_wf (setting_at m cursor).
Proof.
  split; cbn [setting_id setting_value setting_at].
  - apply (load_bytes_val_range m cursor 2); lia.
  - apply (load_bytes_val_range m (cursor + 2) 4); lia.
Qed.

Lemma setting_at_wire m cursor : setting_wire (setting_at m cursor) = load_bytes m cursor 6.
Proof.
  change 6 with (2 + 4). rewrite load_bytes_app by lia. unfold setting_wire.
  cbn [setting_id setting_value setting_at]. rewrite !be_bytes_be_val; try done; apply load_is_byte.
Qed.

Lemma settings_at_wire m cursor n :
  mjoin (setting_wire <$> settings_at m cursor n) = load_bytes m cursor (Z.of_nat n * 6).
Proof.
  revert cursor. induction n as [|n IH]; intros cursor; [done|].
  replace (Z.of_nat (S n) * 6) with (6 + Z.of_nat n * 6) by lia. rewrite load_bytes_app by lia.
  rewrite <- IH, <- setting_at_wire. done.
Qed.

Lemma settings_at_wf m cursor n : Forall setting_wf (settings_at m cursor n).
Proof. revert cursor. induction n; intros; constructor; [apply setting_at_wf|done]. Qed.

(** The id the loop reads: two bytes, no truncation. *)
Lemma setting_id_read m cursor :
  wrap16 (Z.lor (Z.shiftl (ld8 m cursor) 8) (ld8 m (cursor + 1))) = setting_id (setting_at m cursor).
Proof.
  pose proof (ld8_range m cursor) as H0. pose proof (ld8_range m (cursor + 1)) as H1. unfold is_byte in *.
  rewrite Z.shiftl_mul_pow2, lor_disjoint by lia. unfold wrap16. rewrite Z.mod_small by lia.
  cbn [setting_id setting_at]. change (load_bytes m cursor 2) with [ld8 m cursor; ld8 m (cursor + 1)].
  unfold be_val. cbn [foldl]. lia.
Qed.

Lemma settings_of_snoc l s :
  (length l < 32)%nat ->
  {| settings := <[Z.to_nat (setting_count (settings_of l)) := s]> (settings (settings_of l));
     setting_count := setting_count (settings_of l) + 1 |} = settings_of (l ++ [s]).
Proof.
  intros Hl. unfold settings_of. cbn [settings setting_count]. rewrite Nat2Z.id, length_app. cbn [length].
  f_equal; [|lia]. rewrite insert_app_r_alt, Nat.sub_diag by lia.
  destruct (32 - length l)%nat as [|k] eqn:E; [lia|]. cbn [replicate].
  replace (32 - (length l + 1))%nat with k by lia. by rewrite <- app_assoc.
Qed.

Lemma settings_loop_spec m cursor n l :
  (length l + n <= 32)%nat ->
  let ss := settings_at m cursor n in
  settings_loop m cursor n (settings_of l) =
  (if decide (accepted ss = ss) then Ok tt else Err SL_STATUS_INVALID_ARGUMENT,
   settings_of (l ++ accepted ss)).
Proof.
  revert cursor l. induction n as [|n IH]; intros cursor l Hl; cbn [settings_at settings_loop].
  { rewrite app_nil_r. done. }
  rewrite setting_id_read, read_u32_val.
  change (be_val (load_bytes m (cursor + 2) 4)) with (setting_value (setting_at m cursor)).
  set (s := setting_at m cursor). cbn [accepted].
  destruct (setting_value_ok (setting_id s) (setting_value s)); cbn [negb].
  - unfold_st. replace {| setting_id := setting_id s; setting_value := setting_value s |} with s
      by (by destruct s).
    rewrite settings_of_snoc by lia. rewrite IH by (rewrite length_app; cbn [length]; lia).
    rewrite <- app_assoc. cbn [app].
    apply f_equal2; [|done]. repeat case_decide; congruence.
  - unfold_st. rewrite app_nil_r. done.
Qed.

(** Reading SETTINGS.  On a SETTINGS frame that passes validation the payload
    is a sequence of (16-bit id, 32-bit value) entries; an acknowledgement yields
    no settings; more than 32 entries are refused with CAPACITY_EXCEEDED and none
    stored; otherwise the entries are stored in order up to the first whose value
    its id does not allow (ENABLE_PUSH above 1, INITIAL_WINDOW_SIZE above 2^31-1,
    MAX_FRAME_SIZE outside its bounds), which makes the answer INVALID_ARGUMENT. *)
Theorem http2_settings_parse_exact m f out :
  fh_type (fr_header f) = SL_HTTP2_FRAME_SETTINGS -> is_byte (fh_flags (fr_header f)) ->
  0 <= bytes_length (fr_payload f) ->
  sl_http2_validate_settings f = Ok tt ->
  exists l,
    bytes_val m (fr_payload f) = mjoin (setting_wire <$> l) /\ Forall setting_wf l /\
    (Z.testbit (fh_flags (fr_header f)) 0 = true -> l = []) /\
    sl_http2_settings_parse m REF f REF out =
      if decide (32 < length l)%nat then (Err SL_STATUS_CAPACITY_EXCEEDED, settings_of [])
      else (if decide (accepted l = l) then Ok tt else Err SL_STATUS_INVALID_ARGUMENT,
            settings_of (accepted l)).
Proof.
  intros Ht Hf Hlen Hval. set (n := Z.to_nat (bytes_length (fr_payload f) / 6)).
  pose proof (proj1 (settings_rules m f Hlen Hf) Hval) as (_ & _ & Hp).
  assert (Hn : bytes_length (fr_payload f) = Z.of_nat n * 6).
  { destruct (Z.testbit _ 0).
    - apply (f_equal length) in Hp. unfold bytes_val, load_bytes in Hp. rewrite length_load in Hp.
      cbn in Hp. subst n. assert (bytes_length (fr_payload f) = 0) as -> by lia. done.
    - destruct Hp as [k Hk]. unfold bytes_val, load_bytes in Hk. rewrite length_load in Hk. subst n.
      replace (bytes_length (fr_payload f)) with (Z.of_nat k * 6) by lia. rewrite Z.div_mul; lia. }
  exists (settings_at m (bytes_ptr (fr_payload f)) n). split_and!.
  - unfold bytes_val. by rewrite Hn, settings_at_wire.
  - apply settings_at_wf.
  - intros Hack. rewrite Hack in Hp. apply (f_equal length) in Hp.
    unfold bytes_val, load_bytes in Hp. rewrite length_load in Hp. cbn in Hp. by destruct n; [|lia].
  - unfold sl_http2_settings_parse. rewrite Ht, flag_ack, negb_involutive, length_settings_at.
    cbn [is_null negb orb Z.eqb SL_HTTP2_FRAME_SETTINGS Pos.eqb]. unfold_st. cbn [negb].
    rewrite Hval. change zero_settings_frame with (settings_of []).
    assert (Hloop := settings_loop_spec m (bytes_ptr (fr_payload f)) n []). cbn [length Nat.add app] in Hloop.
    destruct (Z.testbit _ 0) eqn:Hack.
    + apply (f_equal length) in Hp. unfold bytes_val, load_bytes in Hp. rewrite length_load in Hp.
      cbn in Hp. assert (n = 0%nat) as -> by lia. done.
    + unfold SL_HTTP2_MAX_SETTINGS_PER_FRAME. fold n.
      destruct (Z.ltb_spec 32 (bytes_length (fr_payload f) / 6)).
      * by rewrite decide_True by (subst n; lia).
      * rewrite decide_False by (subst n; lia). apply Hloop. subst n; lia.
Qed.

Module Demo.
(** A PING frame at address 1000, two payload bytes at 2000 and a SETTINGS payload
    with INITIAL_WINDOW_SIZE = 65535 followed by ENABLE_PUSH = 2 at 3000. *)
Definition ping_bytes : list Z := [0; 0; 8; 6; 0; 0; 0; 0; 0; 1; 2; 3; 4; 5; 6; 7; 8].
Definition m0 : mem := store (store (store (fun _ => 0) 1000 ping_bytes) 2000 [104; 105]) 3000
  [0; 4; 0; 0; 255; 255; 0; 2; 0; 0; 0; 2].
Definition input : SlBytes := {| bytes_ptr := 1000; bytes_length := 17 |}.
Definition ping : SlHttp2Frame :=
  {| fr_header := {| fh_length := 8; fh_type := 6; fh_flags := 0; fh_stream_id := 0 |};
     fr_payload := {| bytes_ptr := 1009; bytes_length := 8 |} |}.
Definition data : SlHttp2Frame :=
  {| fr_header := {| fh_length := 2; fh_type := 0; fh_flags := 1; fh_stream_id := 5 |};
     fr_payload := {| bytes_ptr := 2000; bytes_length := 2 |} |}.
Definition settings_frame : SlHttp2Frame :=
  {| fr_header := {| fh_length := 12; fh_type := 4; fh_flags := 0; fh_stream_id := 0 |};
     fr_payload := {| bytes_ptr := 3000; bytes_length := 12 |} |}.

Lemma http2_frame_parse_exact_witness : frame_at m0 input 16384 ping.
Proof.
  apply (http2_frame_parse_exact m0 input 16384 ping).
  - split; cbn; [lia|by right].
  - split_and!; cbn; size_lia.
  - reflexivity.
  - reflexivity.
Defined.

Lemma http2_frame_roundtrip_witness :
  exists out m', sl_http2_frame_write REF data 5000 64 REF m0 = (Ok out, m') /\
    bytes_val m' out = [0; 0; 2; 0; 1; 0; 0; 0; 5; 104; 105].
Proof.
  destruct (http2_frame_roundtrip data 5000 64 16384 m0) as (out & m' & E & Hv & _).
  - reflexivity.
  - unfold header_wf, is_byte; cbn; lia.
  - split_and!; cbn; size_lia.
  - lia.
  - cbn; size_lia.
  - cbn; lia.
  - cbn. unfold disjoint_ranges. lia.
  - exists out, m'. split; [exact E|]. rewrite Hv. reflexivity.
Defined.

Lemma http2_frame_write_atomic_witness :
  match sl_http2_frame_write REF data 5000 10 REF m0 with
  | (Err c, m') => c = SL_STATUS_INVALID_ARGUMENT /\ m' = m0
  | (Ok _, _) => False
  end.
Proof.
  pose proof (http2_frame_write_atomic REF data 5000 10 REF m0 ltac:(cbn; lia)) as H.
  destruct (sl_http2_frame_write REF data 5000 10 REF m0) as [[out|c] m'] eqn:E; [|exact H].
  vm_compute in E. discriminate E.
Defined.

Lemma http2_settings_parse_exact_witness :
  exists l, bytes_val m0 (fr_payload settings_frame) = mjoin (setting_wire <$> l) /\
    sl_http2_settings_parse m0 REF settings_frame REF zero_settings_frame =
    if decide (32 < length l)%nat then (Err SL_STATUS_CAPACITY_EXCEEDED, settings_of [])
      else (if decide (accepted l = l) then Ok tt else Err SL_STATUS_INVALID_ARGUMENT,
            settings_of (accepted l)).
Proof.
  destruct (http2_settings_parse_exact m0 settings_frame zero_settings_frame) as (l & E & _ & _ & Hp).
  - reflexivity.
  - unfold is_byte; cbn; lia.
  - cbn; lia.
  - reflexivity.
  - exists l. split; [exact E|exact Hp].
Defined.

(** The second entry is refused; the first one is in the output. *)
Example settings_second_refused :
  sl_http2_settings_parse m0 REF settings_frame REF zero_settings_frame
  = (Err SL_STATUS_INVALID_ARGUMENT, settings_of [{| setting_id := 4; setting_value := 65535 |}]).
Proof. vm_compute. reflexivity. Qed.
End Demo.
