(* ===== verification/WebSocket.v ===== *)
(** WebSocket frames (src/core/websocket.c): the frame parser, the frame writer,
    the masking of payloads, the UTF-8 validator and the close-code rules.

    The writer is proved against the sink interface of Sink.v, the parser against
    the arena it copies payloads into.  The specification side is the wire form of
    a frame as a list of bytes ([ws_wire]), the rules of a legal frame
    ([ws_frame_ok]) and UTF-8 as the encoding of Unicode scalar values. *)

From stdpp Require Import strings.
From S2P Require Import Prelude Memory Status Arena Bytes Sink Builder Wire.

Open Scope Z_scope.

(** * Data *)

Definition SL_WEBSOCKET_OPCODE_CONTINUATION : Z := 0.
Definition SL_WEBSOCKET_OPCODE_TEXT : Z := 1.
Definition SL_WEBSOCKET_OPCODE_BINARY : Z := 2.
Definition SL_WEBSOCKET_OPCODE_CLOSE : Z := 8.
Definition SL_WEBSOCKET_OPCODE_PING : Z := 9.
Definition SL_WEBSOCKET_OPCODE_PONG : Z := 10.

Record SlWebSocketFrameParseOptions := { require_mask : bool; max_payload_bytes : Z }.

Record SlWebSocketFrame := { wf_fin : bool; wf_masked : bool; wf_opcode : Z; wf_payload : SlBytes }.

Record SlWebSocketFrameParseResult := {
  pr_frame : SlWebSocketFrame;
  pr_consumed : Z;
  pr_close_code : Z;
}.

(** [wo_mask_key] is the address of the array inside the options. *)
Record SlWebSocketFrameWriteOptions := {
  wo_fin : bool;
  wo_mask : bool;
  wo_opcode : Z;
  wo_payload : SlBytes;
  wo_mask_key : Z;
}.

Definition zero_parse_result : SlWebSocketFrameParseResult :=
  {| pr_frame := {| wf_fin := false; wf_masked := false; wf_opcode := 0; wf_payload := sl_bytes_empty |};
     pr_consumed := 0; pr_close_code := 0 |}.

Definition with_close_code (c : Z) (r : SlWebSocketFrameParseResult) : SlWebSocketFrameParseResult :=
  {| pr_frame := pr_frame r; pr_consumed := pr_consumed r; pr_close_code := c |}.

(** What the caller's [SlDiag] holds: [None] after it was zeroed, or the message of
    an error with code SL_DIAG_INVALID_HTTP_REQUEST. *)
Definition WsDiag : Type := option string.

(** The state the parser works on: memory and arena, [*out_result], [*out_diag]. *)
Record WsParseSys := {
  wp_world : World;
  wp_result : SlWebSocketFrameParseResult;
  wp_diag : WsDiag;
}.

Definition set_wp_world (w : World) (s : WsParseSys) : WsParseSys :=
  {| wp_world := w; wp_result := wp_result s; wp_diag := wp_diag s |}.
Definition set_wp_result (f : SlWebSocketFrameParseResult -> SlWebSocketFrameParseResult) (s : WsParseSys)
    : WsParseSys :=
  {| wp_world := wp_world s; wp_result := f (wp_result s); wp_diag := wp_diag s |}.
Definition set_wp_diag (d : WsDiag) (s : WsParseSys) : WsParseSys :=
  {| wp_world := wp_world s; wp_result := wp_result s; wp_diag := d |}.

(** * Predicates *)

Definition sl_ws_opcode_valid (opcode : Z) : bool :=
  (opcode =? SL_WEBSOCKET_OPCODE_CONTINUATION) || (opcode =? SL_WEBSOCKET_OPCODE_TEXT)
  || (opcode =? SL_WEBSOCKET_OPCODE_BINARY) || (opcode =? SL_WEBSOCKET_OPCODE_CLOSE)
  || (opcode =? SL_WEBSOCKET_OPCODE_PING) || (opcode =? SL_WEBSOCKET_OPCODE_PONG).

Definition sl_ws_opcode_control (opcode : Z) : bool :=
  (opcode =? SL_WEBSOCKET_OPCODE_CLOSE) || (opcode =? SL_WEBSOCKET_OPCODE_PING)
  || (opcode =? SL_WEBSOCKET_OPCODE_PONG).

Definition sl_ws_read_u16 (m : mem) (ptr : Z) : Z :=
  Z.lor (Z.shiftl (ld8 m ptr) 8) (ld8 m (ptr + 1)).

(** [value = (value << 8) | ptr[index]] for the [n] bytes left. *)
Fixpoint read_be_loop (m : mem) (ptr value : Z) (n : nat) : Z :=
  match n with
  | O => value
  | S n => read_be_loop m (ptr + 1) (Z.lor (wrap64 (Z.shiftl value 8)) (ld8 m ptr)) n
  end.

Definition sl_ws_read_u64 (m : mem) (ptr : Z) : Z := read_be_loop m ptr 0 8.

Definition sl_ws_close_code_valid (code : Z) : bool :=
  if (1000 <=? code) && (code <=? 1015)
  then negb (code =? 1004) && negb (code =? 1005) && negb (code =? 1006) && negb (code =? 1015)
  else (3000 <=? code) && (code <=? 4999).

(** The loop over the continuation bytes of a code point: [None] when one of them
    does not have the form 10xxxxxx. *)
Fixpoint utf8_tail_loop (m : mem) (ptr codepoint : Z) (n : nat) : option Z :=
  match n with
  | O => Some codepoint
  | S n =>
      let tail := ld8 m ptr in
      if negb (Z.land tail 192 =? 128) then None
      else utf8_tail_loop m (ptr + 1) (Z.lor (wrap32 (Z.shiftl codepoint 6)) (Z.land tail 63)) n
  end.

(** The lead byte of a multi-byte code point: its payload bits and the number of
    continuation bytes. *)
Definition utf8_lead (ch : Z) : option (Z * Z) :=
  if (194 <=? ch) && (ch <=? 223) then Some (Z.land ch 31, 1) else
  if (224 <=? ch) && (ch <=? 239) then Some (Z.land ch 15, 2) else
  if (240 <=? ch) && (ch <=? 244) then Some (Z.land ch 7, 3) else
  None.

(** One round of the loop per unit of fuel; a round consumes at least one byte. *)
Fixpoint utf8_loop (m : mem) (ptr length : Z) (index : Z) (fuel : nat) : bool :=
  if negb (index <? length) then true else
  match fuel with
  | O => false
  | S fuel =>
      let ch := ld8 m (ptr + index) in
      if ch <=? 127 then utf8_loop m ptr length (index + 1) fuel else
      match utf8_lead ch with
      | None => false
      | Some (codepoint, needed) =>
          if length <=? index + needed then false else
          match utf8_tail_loop m (ptr + index + 1) codepoint (Z.to_nat needed) with
          | None => false
          | Some codepoint =>
              if ((needed =? 2) && (codepoint <? 2048)) || ((needed =? 3) && (codepoint <? 65536))
                 || (1114111 <? codepoint) || ((55296 <=? codepoint) && (codepoint <=? 57343))
              then false
              else utf8_loop m ptr length (index + (needed + 1)) fuel
          end
      end
  end.

Definition sl_ws_utf8_valid (m : mem) (bytes : SlBytes) : bool :=
  if (bytes_ptr bytes =? 0) && negb (bytes_length bytes =? 0) then false else
  utf8_loop m (bytes_ptr bytes) (bytes_length bytes) 0 (Z.to_nat (bytes_length bytes)).

(** * The parser *)

(** [for (index = 0; index < length; index++) bytes[index] ^= mask_key[index % 4];] *)
Fixpoint unmask_loop (m : mem) (ptr : Z) (index : nat) (mask_key : list Z) (n : nat) : mem :=
  match n with
  | O => m
  | S n =>
      let a := ptr + Z.of_nat index in
      unmask_loop (st8 m a (Z.lxor (ld8 m a) (nth (index mod 4)%nat mask_key 0))) ptr (S index) mask_key n
  end.

Section Parser.
Context {BC : BuildConfig}.

Definition sl_ws_copy_payload (arena : nullable) (payload : SlBytes) (masked : bool) (mask_key : list Z)
    (out : nullable) : ST World SlBytes :=
  return_if is_null out || ((bytes_ptr payload =? 0) && negb (bytes_length payload =? 0))
    with SL_STATUS_INVALID_ARGUMENT ;;
  if bytes_length payload =? 0 then mret sl_bytes_empty else
  return_if is_null arena with SL_STATUS_INVALID_ARGUMENT ;;
  storage ← sl_arena_alloc arena (bytes_length payload) 1 REF ;
  let n := Z.to_nat (bytes_length payload) in
  modify (fun w => set_mem (copy_forward (w_mem w) storage (bytes_ptr payload) n) w) ;;
  (if masked : bool then modify (fun w => set_mem (unmask_loop (w_mem w) storage 0 mask_key n) w)
   else mret tt) ;;
  mret (sl_bytes_from_parts storage (bytes_length payload)).

(** Sets the diagnostic and answers [c]. *)
Definition sl_ws_frame_diag {A} (out_diag : nullable) (c : SlStatusCode) (message : string) : ST WsParseSys A :=
  (if is_null out_diag then mret tt else modify (set_wp_diag (Some message))) ;;
  fail c.

(** The 16-bit and 64-bit extended lengths; answers the payload length and the
    header length so far. *)
Definition ws_extended_length (bytes : SlBytes) (payload_length : Z) (out_diag : nullable)
    : ST WsParseSys (Z * Z) :=
  m ← gets (fun s => w_mem (wp_world s)) ;
  let header_length := 2 in
  if payload_length =? 126 then
    return_if bytes_length bytes <? header_length + 2 with SL_STATUS_OUT_OF_RANGE ;;
    let payload_length := sl_ws_read_u16 m (bytes_ptr bytes + header_length) in
    let header_length := header_length + 2 in
    if payload_length <=? 125
    then sl_ws_frame_diag out_diag SL_STATUS_INVALID_ARGUMENT
           "WebSocket frame length is not minimally encoded"
    else mret (payload_length, header_length)
  else if payload_length =? 127 then
    return_if bytes_length bytes <? header_length + 8 with SL_STATUS_OUT_OF_RANGE ;;
    if negb (Z.land (ld8 m (bytes_ptr bytes + header_length)) 128 =? 0)
    then sl_ws_frame_diag out_diag SL_STATUS_INVALID_ARGUMENT
           "WebSocket frame length exceeds signed bounds"
    else
    let payload_length := sl_ws_read_u64 m (bytes_ptr bytes + header_length) in
    let header_length := header_length + 8 in
    if payload_length <=? 65535
    then sl_ws_frame_diag out_diag SL_STATUS_INVALID_ARGUMENT
           "WebSocket frame length is not minimally encoded"
    else mret (payload_length, header_length)
  else mret (payload_length, header_length).

(** The big-endian close code at the start of a payload. *)
Definition ws_close_code_at (m : mem) (payload : SlBytes) : Z :=
  wrap16 (Z.lor (Z.shiftl (ld8 m (bytes_ptr payload)) 8) (ld8 m (bytes_ptr payload + 1))).

(** The checks of the copied payload: close frames and unfragmented text. *)
Definition ws_check_payload (opcode : Z) (fin : bool) (payload : SlBytes) (out_diag : nullable)
    : ST WsParseSys unit :=
  m ← gets (fun s => w_mem (wp_world s)) ;
  (if opcode =? SL_WEBSOCKET_OPCODE_CLOSE then
     if bytes_length payload =? 1
     then sl_ws_frame_diag out_diag SL_STATUS_INVALID_ARGUMENT "WebSocket close payload is malformed"
     else if 2 <=? bytes_length payload then
       if negb (sl_ws_close_code_valid (ws_close_code_at m payload))
       then sl_ws_frame_diag out_diag SL_STATUS_INVALID_ARGUMENT "WebSocket close code is invalid"
       else if negb (sl_ws_utf8_valid m (sl_bytes_from_parts (bytes_ptr payload + 2)
                                                             (bytes_length payload - 2)))
       then modify (set_wp_result (with_close_code 1007)) ;;
            sl_ws_frame_diag out_diag SL_STATUS_INVALID_ARGUMENT
              "WebSocket close reason is not valid UTF-8"
       else mret tt
     else mret tt
   else mret tt) ;;
  if (opcode =? SL_WEBSOCKET_OPCODE_TEXT) && fin && negb (sl_ws_utf8_valid m payload)
  then modify (set_wp_result (with_close_code 1007)) ;;
       sl_ws_frame_diag out_diag SL_STATUS_INVALID_ARGUMENT "WebSocket text payload is not valid UTF-8"
  else mret tt.

(** Filling in [*out_result]. *)
Definition ws_store_result (fin masked : bool) (opcode consumed : Z) (payload : SlBytes)
    : ST WsParseSys unit :=
  m ← gets (fun s => w_mem (wp_world s)) ;
  modify (set_wp_result (fun _ =>
    {| pr_frame := {| wf_fin := fin; wf_masked := masked; wf_opcode := opcode; wf_payload := payload |};
       pr_consumed := consumed;
       pr_close_code := if (opcode =? SL_WEBSOCKET_OPCODE_CLOSE) && (2 <=? bytes_length payload)
                        then ws_close_code_at m payload else 0 |})).

(** From the payload length on: limits, key, copy, checks, result. *)
Definition ws_parse_payload (arena : nullable) (bytes : SlBytes) (max : Z) (fin masked : bool)
    (opcode payload_length header_length : Z) (out_diag : nullable) : ST WsParseSys unit :=
  if sl_ws_opcode_control opcode && (125 <? payload_length)
  then sl_ws_frame_diag out_diag SL_STATUS_INVALID_ARGUMENT
         "WebSocket control frame payload is too large"
  else if (max <? payload_length) || (SIZE_MAX <? payload_length)
  then modify (set_wp_result (with_close_code 1009)) ;;
       sl_ws_frame_diag out_diag SL_STATUS_CAPACITY_EXCEEDED "WebSocket frame payload is too large"
  else
  m ← gets (fun s => w_mem (wp_world s)) ;
  return_if masked && (bytes_length bytes <? header_length + 4) with SL_STATUS_OUT_OF_RANGE ;;
  let mask_key := if masked then load m (bytes_ptr bytes + header_length) 4 else [0; 0; 0; 0] in
  let header_length := if masked then header_length + 4 else header_length in
  return_if bytes_length bytes <? wrap64 (header_length + payload_length) with SL_STATUS_OUT_OF_RANGE ;;
  payload ← zoom wp_world set_wp_world
    (sl_ws_copy_payload arena (sl_bytes_from_parts (bytes_ptr bytes + header_length) payload_length)
       masked mask_key REF) ;
  ws_check_payload opcode fin payload out_diag ;;
  ws_store_result fin masked opcode (header_length + payload_length) payload.

(** From the two header bytes on. *)
Definition ws_parse_header (arena : nullable) (bytes : SlBytes) (require_masked : bool) (max : Z)
    (out_diag : nullable) : ST WsParseSys unit :=
  m ← gets (fun s => w_mem (wp_world s)) ;
  let first := ld8 m (bytes_ptr bytes) in
  let second := ld8 m (bytes_ptr bytes + 1) in
  let fin := negb (Z.land first 128 =? 0) in
  let opcode := Z.land first 15 in
  let masked := negb (Z.land second 128 =? 0) in
  let payload_length := Z.land second 127 in
  modify (set_wp_result (with_close_code 1002)) ;;
  if negb (Z.land first 112 =? 0)
  then sl_ws_frame_diag out_diag SL_STATUS_INVALID_ARGUMENT "WebSocket RSV bits are not supported"
  else if negb (sl_ws_opcode_valid opcode)
  then sl_ws_frame_diag out_diag SL_STATUS_INVALID_ARGUMENT "WebSocket frame opcode is invalid"
  else if require_masked && negb masked
  then sl_ws_frame_diag out_diag SL_STATUS_INVALID_ARGUMENT "client WebSocket frames must be masked"
  else if sl_ws_opcode_control opcode && negb fin
  then sl_ws_frame_diag out_diag SL_STATUS_INVALID_ARGUMENT
         "WebSocket control frames must not be fragmented"
  else
  '(payload_length, header_length) ← ws_extended_length bytes payload_length out_diag ;
  ws_parse_payload arena bytes max fin masked opcode payload_length header_length out_diag.

Definition sl_websocket_parse_frame (arena : nullable) (bytes : SlBytes)
    (options : option SlWebSocketFrameParseOptions) (out_result out_diag : nullable)
    : ST WsParseSys unit :=
  (if is_null out_diag then mret tt else modify (set_wp_diag None)) ;;
  (if is_null out_result then mret tt else modify (set_wp_result (fun _ => zero_parse_result))) ;;
  return_if is_null out_result || ((bytes_ptr bytes =? 0) && negb (bytes_length bytes =? 0))
    with SL_STATUS_INVALID_ARGUMENT ;;
  let effective := default {| require_mask := false; max_payload_bytes := 0 |} options in
  let max := if max_payload_bytes effective =? 0 then 65536 else max_payload_bytes effective in
  return_if bytes_length bytes <? 2 with SL_STATUS_OUT_OF_RANGE ;;
  ws_parse_header arena bytes (require_mask effective) max out_diag.
End Parser.

(** * The writer *)

(** The writer's state: the sink and [*out_diag]. *)
Record WsWriteSys (K : Type) := { ww_sink : K; ww_diag : WsDiag }.
Arguments ww_sink {K} _.
Arguments ww_diag {K} _.
Arguments Build_WsWriteSys {K} _ _.

Section Writer.
Context `{SinkOps K}.

Definition sl_ws_write_u16 (value : Z) : ST K unit :=
  sink_append_byte (Z.land (Z.shiftr value 8) 255) ;;
  sink_append_byte (Z.land value 255).

(** [for (shift = 56; shift >= 0; shift -= 8)], [n] rounds left. *)
Fixpoint write_be_loop (value : Z) (n : nat) : ST K unit :=
  match n with
  | O => mret tt
  | S n =>
      sink_append_byte (Z.land (Z.shiftr value (8 * Z.of_nat n)) 255) ;;
      write_be_loop value n
  end.

Definition sl_ws_write_u64 (value : Z) : ST K unit := write_be_loop value 8.

(** The masked payload, byte by byte, [n] bytes left from [index]. *)
Fixpoint write_masked_loop (ptr mask_key : Z) (index : nat) (n : nat) : ST K unit :=
  match n with
  | O => mret tt
  | S n =>
      m ← gets sink_mem ;
      sink_append_byte (Z.lxor (ld8 m (ptr + Z.of_nat index))
                               (ld8 m (mask_key + Z.of_nat (index mod 4)))) ;;
      write_masked_loop ptr mask_key (S index) n
  end.

(** The writer from its first append on. *)
Definition ws_write_body (options : SlWebSocketFrameWriteOptions) : ST K unit :=
  let payload := wo_payload options in
  let mask_bit := if wo_mask options then 128 else 0 in
  sink_append_byte (Z.lor (if wo_fin options then 128 else 0) (wrap8 (wo_opcode options))) ;;
  (if bytes_length payload <=? 125 then
     sink_append_byte (Z.lor mask_bit (bytes_length payload))
   else if bytes_length payload <=? 65535 then
     sink_append_byte (Z.lor mask_bit 126) ;; sl_ws_write_u16 (bytes_length payload)
   else
     sink_append_byte (Z.lor mask_bit 127) ;; sl_ws_write_u64 (bytes_length payload)) ;;
  if wo_mask options then
    sink_append_bytes (sl_bytes_from_parts (wo_mask_key options) 4) ;;
    write_masked_loop (bytes_ptr payload) (wo_mask_key options) 0 (Z.to_nat (bytes_length payload))
  else sink_append_bytes payload.

Definition ww_frame_diag {A} (out_diag : nullable) (c : SlStatusCode) (message : string)
    : ST (WsWriteSys K) A :=
  (if is_null out_diag then mret tt
   else modify (fun s => {| ww_sink := ww_sink s; ww_diag := Some message |})) ;;
  fail c.

(** [options] is [None] for NULL; [builder] tells whether the sink is there. *)
Definition sl_websocket_write_frame (builder : nullable) (options : option SlWebSocketFrameWriteOptions)
    (out_diag : nullable) : ST (WsWriteSys K) unit :=
  (if is_null out_diag then mret tt
   else modify (fun s => {| ww_sink := ww_sink s; ww_diag := None |})) ;;
  match options with
  | None => fail SL_STATUS_INVALID_ARGUMENT
  | Some options =>
      return_if is_null builder
                || ((bytes_ptr (wo_payload options) =? 0) && negb (bytes_length (wo_payload options) =? 0))
        with SL_STATUS_INVALID_ARGUMENT ;;
      if negb (sl_ws_opcode_valid (wrap8 (wo_opcode options)))
      then ww_frame_diag out_diag SL_STATUS_INVALID_ARGUMENT "WebSocket frame opcode is invalid"
      else if sl_ws_opcode_control (wrap8 (wo_opcode options)) && negb (wo_fin options)
      then ww_frame_diag out_diag SL_STATUS_INVALID_ARGUMENT
             "WebSocket control frames must not be fragmented"
      else if sl_ws_opcode_control (wrap8 (wo_opcode options)) && (125 <? bytes_length (wo_payload options))
      then ww_frame_diag out_diag SL_STATUS_INVALID_ARGUMENT
             "WebSocket control frame payload is too large"
      else zoom ww_sink (fun k s => {| ww_sink := k; ww_diag := ww_diag s |}) (ws_write_body options)
  end.
End Writer.

(** * UTF-8 *)

(** A Unicode scalar value and its encoding (RFC 3629). *)
Definition scalar (cp : Z) : Prop := 0 <= cp <= 1114111 /\ ~ (55296 <= cp <= 57343).

Definition utf8_encode (cp : Z) : list Z :=
  if cp <=? 127 then [cp] else
  if cp <=? 2047 then [192 + cp / 64; 128 + cp mod 64] else
  if cp <=? 65535 then [224 + cp / 4096; 128 + (cp / 64) mod 64; 128 + cp mod 64] else
  [240 + cp / 262144; 128 + (cp / 4096) mod 64; 128 + (cp / 64) mod 64; 128 + cp mod 64].

Definition utf8_text (bs : list Z) : Prop :=
  exists cps, Forall scalar cps /\ bs = mjoin (utf8_encode <$> cps).

(** A boolean property of all bytes, checked by evaluation. *)
Lemma byte_cases (P : Z -> bool) :
  forallb P (seqZ 0 256) = true -> forall b, is_byte b -> P b = true.
Proof.
  intros H b Hb. rewrite forallb_forall in H. apply H. apply list_elem_of_In, elem_of_seqZ.
  unfold is_byte in Hb. lia.
Qed.

Lemma tail_byte t : is_byte t -> (Z.land t 192 =? 128) = (128 <=? t) && (t <? 192).
Proof.
  intros Ht. apply eqb_true_iff.
  by apply (byte_cases (fun t => Bool.eqb (Z.land t 192 =? 128) ((128 <=? t) && (t <? 192)))).
Qed.

Lemma tail_bits t : Z.land t 63 = t mod 64.
Proof. exact (low_bits t 6 ltac:(lia)). Qed.

Lemma tail_accumulate c t :
  0 <= c < 2 ^ 26 -> Z.lor (wrap32 (Z.shiftl c 6)) (Z.land t 63) = c * 64 + t mod 64.
Proof.
  intros Hc. rewrite Z.shiftl_mul_pow2, wrap32_small, tail_bits by size_lia.
  apply (lor_disjoint c (t mod 64) 6); [lia|]. apply Z.mod_pos_bound. lia.
Qed.

(** The round of the loop at [a] with [avail] bytes left: the bytes it consumes. *)
Definition utf8_next (m : mem) (a avail : Z) : option Z :=
  let ch := ld8 m a in
  if ch <=? 127 then Some 1 else
  match utf8_lead ch with
  | None => None
  | Some (codepoint, needed) =>
      if avail <=? needed then None else
      match utf8_tail_loop m (a + 1) codepoint (Z.to_nat needed) with
      | None => None
      | Some codepoint =>
          if ((needed =? 2) && (codepoint <? 2048)) || ((needed =? 3) && (codepoint <? 65536))
             || (1114111 <? codepoint) || ((55296 <=? codepoint) && (codepoint <=? 57343))
          then None else Some (needed + 1)
      end
  end.

Lemma utf8_loop_step m ptr len i fuel :
  i < len ->
  utf8_loop m ptr len i (S fuel) =
  match utf8_next m (ptr + i) (len - i) with
  | None => false
  | Some k => utf8_loop m ptr len (i + k) fuel
  end.
Proof.
  intros Hi. cbn [utf8_loop]. unfold utf8_next. destruct (Z.ltb_spec i len); [cbn [negb]|lia].
  split_if; [done|]. destruct (utf8_lead _) as [[c n]|]; [|done].
  replace (len - i <=? n) with (len <=? i + n)
    by (destruct (Z.leb_spec len (i + n)), (Z.leb_spec (len - i) n); lia).
  split_if; [done|]. destruct (utf8_tail_loop _ _ _ _); [|done]. by split_if.
Qed.

(** The bits a lead byte carries. *)
Lemma utf8_lead_spec ch :
  is_byte ch ->
  utf8_lead ch = if (194 <=? ch) && (ch <=? 223) then Some (ch - 192, 1) else
                 if (224 <=? ch) && (ch <=? 239) then Some (ch - 224, 2) else
                 if (240 <=? ch) && (ch <=? 244) then Some (ch - 240, 3) else None.
Proof.
  intros Hb. unfold utf8_lead. change 31 with (2 ^ 5 - 1). change 15 with (2 ^ 4 - 1).
  change 7 with (2 ^ 3 - 1). rewrite !low_bits by lia.
  split_if; [do 2 f_equal; div_lia|]. split_if; [do 2 f_equal; div_lia|].
  split_if; [do 2 f_equal; div_lia|done].
Qed.

(** Continuation bytes one at a time. *)
Lemma utf8_tail_cons m a c n :
  0 <= c < 2 ^ 26 ->
  utf8_tail_loop m a c (S n) =
  if (128 <=? ld8 m a) && (ld8 m a <? 192)
  then utf8_tail_loop m (a + 1) (c * 64 + ld8 m a mod 64) n else None.
Proof.
  intros Hc. cbn [utf8_tail_loop]. rewrite tail_byte, tail_accumulate by (done || apply ld8_range).
  by destruct (_ && _).
Qed.

Definition is_tail (t : Z) : Prop := 128 <= t < 192.

Lemma encode_two c t :
  194 <= c <= 223 -> is_tail t ->
  let cp := (c - 192) * 64 + t mod 64 in utf8_encode cp = [c; t] /\ 128 <= cp <= 2047.
Proof.
  intros Hc Ht cp. unfold is_tail in *. assert (E : cp = (c - 192) * 64 + (t - 128)) by (subst cp; div_lia).
  split; [|lia]. unfold utf8_encode. clearbody cp.
  destruct (Z.leb_spec cp 127), (Z.leb_spec cp 2047); try lia. f_equal; [|f_equal]; div_lia.
Qed.

Lemma encode_three c t u :
  224 <= c <= 239 -> is_tail t -> is_tail u ->
  let cp := ((c - 224) * 64 + t mod 64) * 64 + u mod 64 in
  cp <= 65535 /\ (2048 <= cp -> utf8_encode cp = [c; t; u]).
Proof.
  intros Hc Ht Hu cp. unfold is_tail in *.
  assert (E : cp = ((c - 224) * 64 + (t - 128)) * 64 + (u - 128)) by (subst cp; div_lia).
  split; [lia|]. intros Hlow. unfold utf8_encode. clearbody cp.
  destruct (Z.leb_spec cp 127), (Z.leb_spec cp 2047), (Z.leb_spec cp 65535); try lia.
  f_equal; [|f_equal; [|f_equal]]; div_lia.
Qed.

Lemma encode_four c t u v :
  240 <= c <= 244 -> is_tail t -> is_tail u -> is_tail v ->
  let cp := (((c - 240) * 64 + t mod 64) * 64 + u mod 64) * 64 + v mod 64 in
  65536 <= cp -> utf8_encode cp = [c; t; u; v].
Proof.
  intros Hc Ht Hu Hv cp Hlow. unfold is_tail in *.
  assert (E : cp = (((c - 240) * 64 + (t - 128)) * 64 + (u - 128)) * 64 + (v - 128)) by (subst cp; div_lia).
  unfold utf8_encode. clearbody cp.
  destruct (Z.leb_spec cp 127), (Z.leb_spec cp 2047), (Z.leb_spec cp 65535); try lia.
  f_equal; [|f_equal; [|f_equal; [|f_equal]]]; div_lia.
Qed.

Lemma tail_test t : (128 <=? t) && (t <? 192) = true <-> is_tail t.
Proof. unfold is_tail. rewrite andb_true_iff, Z.leb_le, Z.ltb_lt. done. Qed.

(** Rewrites one continuation byte of a successful round. *)
Ltac take_tail H Ht :=
  rewrite utf8_tail_cons in H by lia;
  match type of H with context [(128 <=? ?t) && (?t <? 192)] =>
    destruct ((128 <=? t) && (t <? 192)) eqn:Ht; [|discriminate H];
    apply tail_test in Ht; pose proof Ht; unfold is_tail in Ht;
    pose proof (Z.mod_pos_bound t 64 ltac:(lia)) end.

Lemma utf8_next_sound m a avail k :
  0 < avail -> utf8_next m a avail = Some k ->
  exists cp, scalar cp /\ k = Z.of_nat (length (utf8_encode cp)) /\ k <= avail /\
             load_bytes m a k = utf8_encode cp.
Proof.
  intros Hav. unfold utf8_next, scalar. pose proof (ld8_range m a) as Hb. unfold is_byte in Hb.
  destruct (Z.leb_spec (ld8 m a) 127).
  { intros [= <-]. exists (ld8 m a). unfold utf8_encode.
    destruct (Z.leb_spec (ld8 m a) 127); [|lia]. split_and!; try done; cbn; lia. }
  rewrite utf8_lead_spec by done.
  destruct ((194 <=? ld8 m a) && (ld8 m a <=? 223)) eqn:H2;
    [|destruct ((224 <=? ld8 m a) && (ld8 m a <=? 239)) eqn:H3;
      [|destruct ((240 <=? ld8 m a) && (ld8 m a <=? 244)) eqn:H4; [|done]]].
  all: repeat match goal with E : _ && _ = true |- _ => apply andb_true_iff in E as [?%Z.leb_le ?%Z.leb_le] end.
  all: match goal with H : 0 < ?x |- context [?x <=? ?n] => destruct (Z.leb_spec x n) as [|Hn]; [done|] end.
  all: intros E.
  - change (Z.to_nat 1) with 1%nat in E. take_tail E T1. cbn [utf8_tail_loop] in E.
    destruct (encode_two (ld8 m a) (ld8 m (a + 1))) as [He Hr]; [lia|done|].
    destruct (_ || _) eqn:Hbad; [done|]. injection E as <-.
    eexists. split_and!; [..|exact (eq_sym He)]; rewrite ?He; cbn [length]; lia.
  - change (Z.to_nat 2) with 2%nat in E. take_tail E T1. take_tail E T2. cbn [utf8_tail_loop] in E.
    destruct (encode_three (ld8 m a) (ld8 m (a + 1)) (ld8 m (a + 1 + 1))) as [Hr He]; [lia|done|done|].
    destruct (_ || _) eqn:Hbad; [done|]. injection E as <-. specialize (He ltac:(lia)).
    eexists. split_and!; [..|exact (eq_sym He)]; rewrite ?He; cbn [length]; lia.
  - change (Z.to_nat 3) with 3%nat in E. take_tail E T1. take_tail E T2. take_tail E T3.
    cbn [utf8_tail_loop] in E.
    pose proof (encode_four (ld8 m a) (ld8 m (a + 1)) (ld8 m (a + 1 + 1)) (ld8 m (a + 1 + 1 + 1))) as He.
    destruct (_ || _) eqn:Hbad; [done|]. injection E as <-.
    specialize (He ltac:(lia) ltac:(done) ltac:(done) ltac:(done) ltac:(lia)).
    eexists. split_and!; [..|exact (eq_sym He)]; rewrite ?He; cbn [length]; lia.
Qed.

(** Rewrites one continuation byte whose value is known. *)
Ltac give_tail Hv :=
  rewrite utf8_tail_cons by lia; rewrite Hv;
  match goal with |- context [(128 <=? ?t) && (?t <? 192)] =>
    let Ht := fresh in
    assert (Ht : (128 <=? t) && (t <? 192) = true) by (apply tail_test; unfold is_tail; div_lia);
    rewrite Ht; clear Ht end.

(** The value that the continuation bytes add up to. *)
Ltac give_codepoint cp :=
  cbn [utf8_tail_loop];
  match goal with |- context [1114111 <? ?c] => replace c with cp by div_lia end;
  match goal with |- (if ?b then _ else _) = _ => replace b with false by lia end.

Lemma utf8_next_complete m a avail cp :
  scalar cp -> Z.of_nat (length (utf8_encode cp)) <= avail ->
  load_bytes m a (Z.of_nat (length (utf8_encode cp))) = utf8_encode cp ->
  utf8_next m a avail = Some (Z.of_nat (length (utf8_encode cp))).
Proof.
  intros [Hcp Hsur]. unfold utf8_encode, utf8_next. pose proof (ld8_range m a) as Hb.
  destruct (Z.leb_spec cp 127); [|destruct (Z.leb_spec cp 2047); [|destruct (Z.leb_spec cp 65535)]];
    cbn [length]; intros Hav E.
  - injection E as ->. destruct (Z.leb_spec cp 127); [done|lia].
  - injection E as E0 E1. rewrite utf8_lead_spec by done. rewrite E0.
    replace (192 + cp / 64 <=? 127) with false by (symmetry; apply Z.leb_gt; div_lia).
    replace ((194 <=? 192 + cp / 64) && (192 + cp / 64 <=? 223)) with true by div_lia.
    replace (avail <=? 1) with false by lia. change (Z.to_nat 1) with 1%nat.
    assert (0 <= 192 + cp / 64 - 192 < 32) by div_lia.
    give_tail E1. give_codepoint cp. done.
  - injection E as E0 E1 E2. rewrite utf8_lead_spec by done. rewrite E0.
    replace (224 + cp / 4096 <=? 127) with false by (symmetry; apply Z.leb_gt; div_lia).
    replace ((194 <=? 224 + cp / 4096) && (224 + cp / 4096 <=? 223)) with false by div_lia.
    replace ((224 <=? 224 + cp / 4096) && (224 + cp / 4096 <=? 239)) with true by div_lia.
    replace (avail <=? 2) with false by lia. change (Z.to_nat 2) with 2%nat.
    assert (0 <= 224 + cp / 4096 - 224 < 16) by div_lia.
    give_tail E1. pose proof (Z.mod_pos_bound (128 + (cp / 64) mod 64) 64 ltac:(lia)).
    give_tail E2. give_codepoint cp. done.
  - injection E as E0 E1 E2 E3. rewrite utf8_lead_spec by done. rewrite E0.
    replace (240 + cp / 262144 <=? 127) with false by (symmetry; apply Z.leb_gt; div_lia).
    replace ((194 <=? 240 + cp / 262144) && (240 + cp / 262144 <=? 223)) with false by div_lia.
    replace ((224 <=? 240 + cp / 262144) && (240 + cp / 262144 <=? 239)) with false by div_lia.
    replace ((240 <=? 240 + cp / 262144) && (240 + cp / 262144 <=? 244)) with true by div_lia.
    replace (avail <=? 3) with false by lia. change (Z.to_nat 3) with 3%nat.
    assert (0 <= 240 + cp / 262144 - 240 < 8) by div_lia.
    give_tail E1. pose proof (Z.mod_pos_bound (128 + (cp / 4096) mod 64) 64 ltac:(lia)).
    give_tail E2. pose proof (Z.mod_pos_bound (128 + (cp / 64) mod 64) 64 ltac:(lia)).
    give_tail E3. give_codepoint cp. done.
Qed.

Lemma utf8_encode_length cp : 1 <= Z.of_nat (length (utf8_encode cp)) <= 4.
Proof. unfold utf8_encode. repeat split_if; cbn; lia. Qed.

Lemma utf8_loop_text m ptr len i fuel :
  0 <= i <= len -> len - i <= Z.of_nat fuel ->
  utf8_loop m ptr len i fuel = true <-> utf8_text (load_bytes m (ptr + i) (len - i)).
Proof.
  revert i. induction fuel as [|fuel IH]; intros i Hi Hf.
  { assert (i = len) as -> by lia. cbn. rewrite Z.ltb_irrefl, Z.sub_diag. split; [|done].
    intros _. by exists []. }
  destruct (decide (i = len)) as [->|Hne].
  { cbn. rewrite Z.ltb_irrefl, Z.sub_diag. split; [|done]. intros _. by exists []. }
  rewrite utf8_loop_step by lia. split.
  - destruct (utf8_next m (ptr + i) (len - i)) as [k|] eqn:E; [|done]. intros Hl.
    apply utf8_next_sound in E as (cp & Hs & Hk & Hav & El); [|lia].
    pose proof (utf8_encode_length cp). apply IH in Hl as (cps & Hcps & Er); [|lia..].
    exists (cp :: cps). split; [by constructor|]. cbn [fmap list_fmap mjoin list_join].
    replace (len - i) with (k + (len - (i + k))) by lia. rewrite load_bytes_app, El by lia.
    f_equal. etransitivity; [|exact Er]. f_equal. lia.
  - intros (cps & Hcps & E). destruct cps as [|cp cps].
    { apply (f_equal length) in E. unfold load_bytes in E. rewrite length_load in E. cbn in E. lia. }
    apply Forall_cons in Hcps as [Hs Hcps]. cbn [fmap list_fmap mjoin list_join] in E.
    pose proof (utf8_encode_length cp) as Hk. set (k := Z.of_nat (length (utf8_encode cp))) in *.
    assert (Hav : k <= len - i).
    { apply (f_equal length) in E. unfold load_bytes in E. rewrite length_load, length_app in E. lia. }
    replace (len - i) with (k + (len - (i + k))) in E by lia. rewrite load_bytes_app in E by lia.
    apply app_inj_1 in E as [E Er]; [|unfold load_bytes; rewrite length_load; lia].
    rewrite (utf8_next_complete m (ptr + i) (len - i) cp Hs Hav E). fold k.
    apply IH; [lia..|]. exists cps. split; [done|]. etransitivity; [|exact Er]. f_equal. lia.
Qed.

Lemma utf8_valid_loop m bytes :
  bytes_valid bytes ->
  sl_ws_utf8_valid m bytes =
  utf8_loop m (bytes_ptr bytes) (bytes_length bytes) 0 (Z.to_nat (bytes_length bytes)).
Proof.
  intros [Hl Hv]. unfold sl_ws_utf8_valid.
  by replace ((bytes_ptr bytes =? 0) && negb (bytes_length bytes =? 0)) with false
    by (destruct (Z.eqb_spec (bytes_ptr bytes) 0), (Z.eqb_spec (bytes_length bytes) 0); cbn; try done; lia).
Qed.

Lemma utf8_valid_text m bytes :
  bytes_valid bytes -> sl_ws_utf8_valid m bytes = true <-> utf8_text (bytes_val m bytes).
Proof.
  intros Hv. rewrite utf8_valid_loop, utf8_loop_text by (done || destruct Hv; lia).
  unfold bytes_val. by rewrite Z.add_0_r, Z.sub_0_r.
Qed.

(** UTF-8 validation is exact.  The validator accepts a byte view precisely
    when its bytes are the UTF-8 encoding of a sequence of Unicode scalar values:
    no overlong forms, no surrogates, nothing above U+10FFFF, no truncated
    sequence. *)
Theorem websocket_utf8_exact m bytes :
  bytes_valid bytes ->
  sl_ws_utf8_valid m bytes = true <-> utf8_text (bytes_val m bytes).
Proof.
  apply utf8_valid_text.
Qed.

(** * Frames on the wire *)

(** A frame as the peers see it; [f_key] is the masking key, if any. *)
Record ws_frame := { f_fin : bool; f_opcode : Z; f_key : option (list Z); f_payload : list Z }.

Definition f_masked (f : ws_frame) : bool := bool_decide (is_Some (f_key f)).

Definition apply_mask (key payload : list Z) : list Z :=
  imap (fun i b => Z.lxor b (nth (i mod 4)%nat key 0)) payload.

(** The shortest form of a payload length, behind the mask bit. *)
Definition length_field (mask_bit len : Z) : list Z :=
  if len <=? 125 then [mask_bit + len] else
  if len <=? 65535 then (mask_bit + 126) :: be_bytes 2 len else
  (mask_bit + 127) :: be_bytes 8 len.

Definition ws_wire (f : ws_frame) : list Z :=
  [(if f_fin f then 128 else 0) + f_opcode f]
  ++ length_field (if f_masked f then 128 else 0) (Z.of_nat (length (f_payload f)))
  ++ match f_key f with
     | Some key => key ++ apply_mask key (f_payload f)
     | None => f_payload f
     end.

(** The opcodes of RFC 6455 and the rules for control frames. *)
Definition header_ok (f : ws_frame) : Prop :=
  sl_ws_opcode_valid (f_opcode f) = true /\
  (sl_ws_opcode_control (f_opcode f) = true ->
   f_fin f = true /\ Z.of_nat (length (f_payload f)) <= 125) /\
  Forall is_byte (f_payload f) /\
  match f_key f with Some key => length key = 4%nat /\ Forall is_byte key | None => True end.

(** Close payloads are empty or a legal code and a UTF-8 reason; an unfragmented
    text payload is UTF-8. *)
Definition payload_ok (f : ws_frame) : Prop :=
  (f_opcode f = SL_WEBSOCKET_OPCODE_CLOSE ->
   f_payload f = [] \/
   exists code reason, f_payload f = be_bytes 2 code ++ reason /\ 0 <= code < 2 ^ 16 /\
                       sl_ws_close_code_valid code = true /\ utf8_text reason) /\
  (f_opcode f = SL_WEBSOCKET_OPCODE_TEXT -> f_fin f = true -> utf8_text (f_payload f)).

(** * Masking *)

Lemma length_apply_mask key payload : length (apply_mask key payload) = length payload.
Proof. unfold apply_mask. apply length_imap. Qed.

Lemma apply_mask_lookup key payload i :
  apply_mask key payload !! i = (fun b => Z.lxor b (nth (i mod 4)%nat key 0)) <$> payload !! i.
Proof. unfold apply_mask. apply list_lookup_imap. Qed.

(** Masking twice with the same key gives the payload back. *)
Lemma apply_mask_involutive key payload : apply_mask key (apply_mask key payload) = payload.
Proof.
  apply list_eq. intros i. rewrite !apply_mask_lookup. destruct (payload !! i); [|done]. cbn.
  by rewrite Z.lxor_assoc, Z.lxor_nilpotent, Z.lxor_0_r.
Qed.

Lemma lxor_byte a b : is_byte a -> is_byte b -> is_byte (Z.lxor a b).
Proof.
  unfold is_byte. intros Ha Hb. assert (0 <= Z.lxor a b) by (apply Z.lxor_nonneg; lia).
  split; [done|]. destruct (Z.eq_dec (Z.lxor a b) 0) as [->|]; [lia|].
  apply Z.log2_lt_pow2 with (b := 8); [lia|].
  pose proof (Z.log2_lxor a b ltac:(lia) ltac:(lia)).
  assert (Hlog : forall x, 0 <= x < 256 -> Z.log2 x < 8).
  { intros x Hx. destruct (Z.eq_dec x 0) as [->|]; [cbn; lia|]. apply Z.log2_lt_pow2; lia. }
  pose proof (Hlog a Ha). pose proof (Hlog b Hb). lia.
Qed.

Lemma nth_byte key i : Forall is_byte key -> is_byte (nth i key 0).
Proof.
  intros Hk. destruct (nth_in_or_default i key 0) as [Hin| ->]; [|unfold is_byte; lia].
  rewrite Forall_forall in Hk. by apply Hk, list_elem_of_In.
Qed.

Lemma apply_mask_bytes key payload :
  Forall is_byte key -> Forall is_byte payload -> Forall is_byte (apply_mask key payload).
Proof.
  intros Hk Hp. apply Forall_lookup. intros i x. rewrite apply_mask_lookup.
  destruct (payload !! i) eqn:E; [|done]. cbn. intros [= <-]. apply lxor_byte; [|by apply nth_byte].
  by eapply (proj1 (Forall_lookup _ _) Hp).
Qed.

(** * The writer emits the wire form *)

Lemma mask_bit_lor b v : 0 <= v < 128 -> Z.lor (if b : bool then 128 else 0) v = (if b then 128 else 0) + v.
Proof. intros Hv. destruct b; [|by rewrite Z.lor_0_l]. by apply (lor_disjoint 1 v 7). Qed.

Lemma opcode_valid_range opcode : sl_ws_opcode_valid opcode = true -> 0 <= opcode < 16.
Proof.
  unfold sl_ws_opcode_valid. rewrite !orb_true_iff, !Z.eqb_eq.
  unfold SL_WEBSOCKET_OPCODE_CONTINUATION, SL_WEBSOCKET_OPCODE_TEXT, SL_WEBSOCKET_OPCODE_BINARY,
    SL_WEBSOCKET_OPCODE_CLOSE, SL_WEBSOCKET_OPCODE_PING, SL_WEBSOCKET_OPCODE_PONG. lia.
Qed.

Section WriterSpec.
Context {K : Type} {SO : SinkOps K} {SL : SinkLaws K}.

(** The frame the options describe, with the bytes read in memory [m]. *)
Definition frame_of (m : mem) (o : SlWebSocketFrameWriteOptions) : ws_frame :=
  {| f_fin := wo_fin o; f_opcode := wrap8 (wo_opcode o);
     f_key := if wo_mask o then Some (load_bytes m (wo_mask_key o) 4) else None;
     f_payload := bytes_val m (wo_payload o) |}.

Lemma sink_emits_gets {A} (g : K -> A) vs k s :
  sink_emits vs (k (g s)) s -> sink_emits vs (gets g ≫= k) s.
Proof. done. Qed.

Lemma write_be_loop_emits value n s :
  sink_inv s -> sink_emits (be_bytes n value) (write_be_loop value n) s.
Proof.
  revert s. induction n as [|n IH]; intros s Hi; cbn [write_be_loop be_bytes]; [by apply sink_emits_ret|].
  apply (sink_emits_seq [_] (be_bytes n value)); [|intros s' Hs; apply IH, Hs].
  rewrite low_byte by lia. rewrite Z.pow_mul_r by lia. apply sink_emits_byte; [done|].
  unfold is_byte. apply Z.mod_pos_bound. lia.
Qed.

Lemma write_u16_emits value s :
  sink_inv s -> sink_emits (be_bytes 2 value) (sl_ws_write_u16 value) s.
Proof.
  intros Hi. unfold sl_ws_write_u16. rewrite low_byte by lia.
  replace (Z.land value 255) with (value mod 256) by (symmetry; exact (low_bits value 8 ltac:(lia))).
  cbn [be_bytes]. apply (sink_emits_seq [_] [_]).
  - apply sink_emits_byte; [done|]. unfold is_byte. apply Z.mod_pos_bound. lia.
  - intros s' Hs. rewrite Z.div_1_r. apply sink_emits_byte; [apply Hs|].
    unfold is_byte. apply Z.mod_pos_bound. lia.
Qed.

Lemma view_lookup m b i x :
  bytes_val m b !! i = Some x -> ld8 m (bytes_ptr b + Z.of_nat i) = x.
Proof.
  intros E. pose proof (lookup_lt_Some _ _ _ E) as Hl. unfold bytes_val, load_bytes in *.
  rewrite length_load in Hl. rewrite load_lookup in E by done. by injection E as ->.
Qed.

Lemma masked_loop_emits payload key_ptr p key index n s :
  sink_inv s -> sink_readable s payload -> bytes_val (sink_mem s) payload = p ->
  sink_readable s {| bytes_ptr := key_ptr; bytes_length := 4 |} ->
  load_bytes (sink_mem s) key_ptr 4 = key -> (index + n = length p)%nat ->
  sink_emits (drop index (apply_mask key p)) (write_masked_loop (bytes_ptr payload) key_ptr index n) s.
Proof.
  revert index s. induction n as [|n IH]; intros index s Hi Hrp Ep Hrk Ek Hl; cbn [write_masked_loop].
  { rewrite drop_ge by (rewrite length_apply_mask; lia). by apply sink_emits_ret. }
  destruct (lookup_lt_is_Some_2 p index ltac:(lia)) as [x Hx].
  assert (Hkl : length key = 4%nat) by (by rewrite <- Ek).
  destruct (lookup_lt_is_Some_2 key (index mod 4)%nat) as [y Hy].
  { rewrite Hkl. apply Nat.mod_upper_bound. lia. }
  apply sink_emits_gets.
  rewrite (view_lookup (sink_mem s) payload index x) by (by rewrite Ep).
  rewrite (view_lookup (sink_mem s) {| bytes_ptr := key_ptr; bytes_length := 4 |} (index mod 4)%nat y)
    by (unfold bytes_val; cbn [bytes_ptr bytes_length]; by rewrite Ek).
  assert (Hm : apply_mask key p !! index = Some (Z.lxor x y)).
  { rewrite apply_mask_lookup, Hx. cbn. by rewrite (nth_lookup_Some _ _ _ _ Hy). }
  rewrite (drop_S _ _ _ Hm). apply (sink_emits_seq [_]).
  - apply sink_emits_byte; [done|]. apply lxor_byte.
    + rewrite <- Ep in Hx. by apply (Forall_lookup_1 _ _ _ _ (load_is_byte _ _ _) Hx).
    + rewrite <- Ek in Hy. by apply (Forall_lookup_1 _ _ _ _ (load_is_byte _ _ _) Hy).
  - intros s' Hs. destruct (sink_step_readable _ _ _ _ Hs Hrp) as [Hrp' Ep'].
    destruct (sink_step_readable _ _ _ _ Hs Hrk) as [Hrk' Ek'].
    unfold bytes_val in Ek'. cbn [bytes_ptr bytes_length] in Ek'.
    apply IH; [apply Hs|done|congruence|done|congruence|lia].
Qed.

Lemma length_field_emits (o : SlWebSocketFrameWriteOptions) s :
  let len := bytes_length (wo_payload o) in
  let mask_bit := if wo_mask o then 128 else 0 in
  sink_inv s -> is_size len ->
  sink_emits (length_field mask_bit len)
    (if len <=? 125 then sink_append_byte (Z.lor mask_bit len)
     else if len <=? 65535 then sink_append_byte (Z.lor mask_bit 126) ;; sl_ws_write_u16 len
     else sink_append_byte (Z.lor mask_bit 127) ;; sl_ws_write_u64 len) s.
Proof.
  intros len mask_bit Hi Hsz. unfold length_field.
  assert (Hb : forall v, 0 <= v < 128 -> sink_emits [mask_bit + v] (sink_append_byte (Z.lor mask_bit v)) s).
  { intros v Hv. subst mask_bit. rewrite mask_bit_lor by done. apply sink_emits_byte; [done|].
    unfold is_byte. destruct (wo_mask o); lia. }
  destruct (Z.leb_spec len 125); [apply Hb; size_lia|].
  destruct (Z.leb_spec len 65535).
  - apply (sink_emits_seq [_]); [apply Hb; lia|]. intros s' Hs. apply write_u16_emits, Hs.
  - apply (sink_emits_seq [_]); [apply Hb; lia|]. intros s' Hs. apply write_be_loop_emits, Hs.
Qed.

(** The views the writer reads: the payload, and the key when it masks. *)
Definition options_readable (s : K) (o : SlWebSocketFrameWriteOptions) : Prop :=
  sink_readable s (wo_payload o) /\
  (wo_mask o = true -> sink_readable s {| bytes_ptr := wo_mask_key o; bytes_length := 4 |}).

Lemma write_body_emits o s :
  sink_inv s -> options_readable s o -> is_size (bytes_length (wo_payload o)) ->
  sl_ws_opcode_valid (wrap8 (wo_opcode o)) = true ->
  sink_emits (ws_wire (frame_of (sink_mem s) o)) (ws_write_body o) s.
Proof.
  intros Hi [Hrp Hrk] Hsz Hop. apply opcode_valid_range in Hop.
  unfold ws_write_body, ws_wire, f_masked. cbn [frame_of f_fin f_opcode f_key f_payload].
  replace (Z.of_nat (length (bytes_val (sink_mem s) (wo_payload o)))) with (bytes_length (wo_payload o))
    by (unfold bytes_val; rewrite length_load_bytes; [done|size_lia]).
  replace (bool_decide (is_Some (if wo_mask o then Some (load_bytes (sink_mem s) (wo_mask_key o) 4) else None)))
    with (wo_mask o) by (by destruct (wo_mask o)).
  rewrite (mask_bit_lor (wo_fin o)) by lia. apply (sink_emits_seq [_]).
  { apply sink_emits_byte; [done|]. unfold is_byte. destruct (wo_fin o); lia. }
  intros s1 Hs1. apply sink_emits_seq.
  { apply length_field_emits; [apply Hs1|done]. }
  intros s2 Hs2. pose proof (sink_step_trans _ _ _ _ _ Hs1 Hs2) as Hs.
  destruct (sink_step_readable _ _ _ _ Hs Hrp) as [Hrp' Ep'].
  destruct (wo_mask o).
  - destruct (sink_step_readable _ _ _ _ Hs (Hrk eq_refl)) as [Hrk' Ek'].
    unfold bytes_val in Ek'. cbn [bytes_ptr bytes_length] in Ek'.
    apply sink_emits_seq; [rewrite <- Ek'; apply sink_emits_bytes; [apply Hs|done]|].
    intros s3 Hs3. destruct (sink_step_readable _ _ _ _ Hs3 Hrp') as [Hrp3 Ep3].
    destruct (sink_step_readable _ _ _ _ Hs3 Hrk') as [Hrk3 Ek3].
    unfold bytes_val in Ek3. cbn [bytes_ptr bytes_length] in Ek3.
    apply (masked_loop_emits (wo_payload o) _ _ _ 0); [apply Hs3|done|congruence|done|congruence|].
    unfold bytes_val, load_bytes. rewrite length_load. done.
  - rewrite <- Ep'. apply sink_emits_bytes; [apply Hs|done].
Qed.

Lemma frame_of_header_ok m o :
  is_size (bytes_length (wo_payload o)) ->
  header_ok (frame_of m o) <->
  sl_ws_opcode_valid (wrap8 (wo_opcode o)) = true /\
  (sl_ws_opcode_control (wrap8 (wo_opcode o)) = true ->
   wo_fin o = true /\ bytes_length (wo_payload o) <= 125).
Proof.
  intros Hsz. unfold header_ok. cbn [frame_of f_fin f_opcode f_key f_payload].
  unfold bytes_val. rewrite length_load_bytes by size_lia.
  assert (Forall is_byte (load_bytes m (bytes_ptr (wo_payload o)) (bytes_length (wo_payload o))))
    by apply load_is_byte.
  assert (match (if wo_mask o then Some (load_bytes m (wo_mask_key o) 4) else None) with
          | Some key => length key = 4%nat /\ Forall is_byte key | None => True end).
  { destruct (wo_mask o); [|done]. split; [done|apply load_is_byte]. }
  tauto.
Qed.

Lemma ww_frame_diag_sink {A} out_diag c message (s : WsWriteSys K) :
  exists s', ww_frame_diag (A:=A) out_diag c message s = (Err c, s') /\ ww_sink s' = ww_sink s.
Proof. destruct out_diag; eexists; split; reflexivity. Qed.

(** The writer as a whole: argument checks, then the body on the sink. *)
Lemma write_frame_cases o out_diag s :
  bytes_valid (wo_payload o) -> is_size (bytes_length (wo_payload o)) ->
  let f := frame_of (sink_mem (ww_sink s)) o in
  (~ header_ok f /\ exists s', sl_websocket_write_frame REF (Some o) out_diag s
                               = (Err SL_STATUS_INVALID_ARGUMENT, s') /\ ww_sink s' = ww_sink s) \/
  (header_ok f /\ exists d, sl_websocket_write_frame REF (Some o) out_diag s
     = (fst (ws_write_body o (ww_sink s)),
        {| ww_sink := snd (ws_write_body o (ww_sink s)); ww_diag := d |})).
Proof.
  intros [Hl0 Hv] Hsz f. pose proof (frame_of_header_ok (sink_mem (ww_sink s)) o Hsz) as Hok. fold f in Hok.
  set (s0 := match out_diag with NULL => s | REF => {| ww_sink := ww_sink s; ww_diag := None |} end).
  assert (Es : ww_sink s0 = ww_sink s) by (by destruct out_diag).
  assert (E : sl_websocket_write_frame REF (Some o) out_diag s =
    (if negb (sl_ws_opcode_valid (wrap8 (wo_opcode o)))
      then ww_frame_diag out_diag SL_STATUS_INVALID_ARGUMENT "WebSocket frame opcode is invalid"
      else if sl_ws_opcode_control (wrap8 (wo_opcode o)) && negb (wo_fin o)
      then ww_frame_diag out_diag SL_STATUS_INVALID_ARGUMENT
             "WebSocket control frames must not be fragmented"
      else if sl_ws_opcode_control (wrap8 (wo_opcode o)) && (125 <? bytes_length (wo_payload o))
      then ww_frame_diag out_diag SL_STATUS_INVALID_ARGUMENT
             "WebSocket control frame payload is too large"
      else zoom ww_sink (fun k s => {| ww_sink := k; ww_diag := ww_diag s |}) (ws_write_body o)) s0).
  { unfold sl_websocket_write_frame.
    replace ((bytes_ptr (wo_payload o) =? 0) && negb (bytes_length (wo_payload o) =? 0)) with false by lia.
    by destruct out_diag. }
  rewrite E. clear E. rewrite <- Es.
  destruct (sl_ws_opcode_valid _); cbn [negb].
  2:{ left. split; [|apply ww_frame_diag_sink]. rewrite Hok. by intros [? _]. }
  destruct (sl_ws_opcode_control _) eqn:Hc, (wo_fin o) eqn:Hfin; cbn [andb negb];
    try (left; split; [|apply ww_frame_diag_sink]; rewrite Hok; naive_solver).
  1: destruct (Z.ltb_spec 125 (bytes_length (wo_payload o)));
    [left; split; [|apply ww_frame_diag_sink]; rewrite Hok; intros [_ Hh]; specialize (Hh eq_refl); lia|].
  all: right; (split; [apply Hok; naive_solver|]); unfold zoom;
    destruct (ws_write_body o (ww_sink s0)); eexists; reflexivity.
Qed.

(** The frame writer is exact.  For options that describe a legal frame, a
    successful write appends to the sink exactly the wire form of that frame (first
    byte, shortest length form, key, masked payload) and a failing sink leaves a
    prefix of it; options with a bad opcode, a fragmented or an oversized control
    frame are refused with INVALID_ARGUMENT and nothing is appended. *)
Theorem websocket_write_exact o out_diag s :
  sink_inv (ww_sink s) -> options_readable (ww_sink s) o ->
  let f := frame_of (sink_mem (ww_sink s)) o in
  match sl_websocket_write_frame REF (Some o) out_diag s with
  | (Ok _, s') => header_ok f /\ sink_step (ws_wire f) (ww_sink s) (ww_sink s')
  | (Err c, s') =>
      (header_ok f -> exists ws, ws `prefix_of` ws_wire f /\ sink_step ws (ww_sink s) (ww_sink s')) /\
      (~ header_ok f -> c = SL_STATUS_INVALID_ARGUMENT /\ ww_sink s' = ww_sink s)
  end.
Proof.
  intros Hi Hr f. pose proof Hr as [[[Hl0 Hv] [Hw1 [Hw2 Hw3]] _] _].
  assert (Hsz : is_size (bytes_length (wo_payload o))) by size_lia.
  pose proof (frame_of_header_ok (sink_mem (ww_sink s)) o Hsz) as Hok. fold f in Hok.
  destruct (write_frame_cases o out_diag s) as [[Hno (s' & -> & Es)]|[Hh [d ->]]];
    [split; [done|lia]|done|by split|].
  pose proof (proj1 (proj1 Hok Hh)) as Hop.
  pose proof (write_body_emits o (ww_sink s) Hi Hr Hsz Hop) as He. fold f in He. unfold sink_emits in He.
  destruct (ws_write_body o (ww_sink s)) as [[[]|c] k]; cbn [fst snd ww_sink]; by split.
Qed.
End WriterSpec.

(** * The parser: payload copies *)

Lemma ld8_unmask m ptr i key n a :
  Forall is_byte key ->
  ld8 (unmask_loop m ptr i key n) a =
  if (ptr + Z.of_nat i <=? a) && (a <? ptr + Z.of_nat i + Z.of_nat n)
  then Z.lxor (ld8 m a) (nth (Z.to_nat (a - ptr) mod 4)%nat key 0) else ld8 m a.
Proof.
  intros Hk. revert m i. induction n as [|n IH]; intros m i; cbn [unmask_loop].
  { destruct (Z.leb_spec (ptr + Z.of_nat i) a), (Z.ltb_spec a (ptr + Z.of_nat i + Z.of_nat 0));
      cbn [andb]; done || lia. }
  rewrite IH, ld8_st8.
  destruct (Z.eqb_spec a (ptr + Z.of_nat i)) as [->|Hne].
  - destruct (Z.leb_spec (ptr + Z.of_nat (S i)) (ptr + Z.of_nat i)); [lia|].
    destruct (Z.leb_spec (ptr + Z.of_nat i) (ptr + Z.of_nat i)),
      (Z.ltb_spec (ptr + Z.of_nat i) (ptr + Z.of_nat i + Z.of_nat (S n))); try lia. cbn [andb].
    rewrite wrap8_small by (apply lxor_byte; [apply ld8_range|by apply nth_byte]).
    do 2 f_equal. f_equal. lia.
  - destruct (Z.leb_spec (ptr + Z.of_nat (S i)) a), (Z.ltb_spec a (ptr + Z.of_nat (S i) + Z.of_nat n)),
      (Z.leb_spec (ptr + Z.of_nat i) a), (Z.ltb_spec a (ptr + Z.of_nat i + Z.of_nat (S n)));
      cbn [andb]; done || lia.
Qed.

Lemma unmask_load m ptr key n :
  Forall is_byte key -> load (unmask_loop m ptr 0 key n) ptr n = apply_mask key (load m ptr n).
Proof.
  intros Hk. apply list_eq. intros i. rewrite apply_mask_lookup.
  destruct (decide (i < n)%nat).
  - rewrite !load_lookup by done. cbn [fmap option_fmap option_map]. rewrite ld8_unmask by done.
    destruct (Z.leb_spec (ptr + Z.of_nat 0) (ptr + Z.of_nat i)),
      (Z.ltb_spec (ptr + Z.of_nat i) (ptr + Z.of_nat 0 + Z.of_nat n)); try lia. cbn [andb].
    do 3 f_equal. f_equal. lia.
  - rewrite !lookup_ge_None_2 by (rewrite length_load; lia). done.
Qed.

Lemma unmask_same_outside m ptr key n :
  Forall is_byte key -> same_outside ptr (ptr + Z.of_nat n) m (unmask_loop m ptr 0 key n).
Proof.
  intros Hk a Ha. rewrite ld8_unmask by done.
  destruct (Z.leb_spec (ptr + Z.of_nat 0) a), (Z.ltb_spec a (ptr + Z.of_nat 0 + Z.of_nat n));
    cbn [andb]; done || lia.
Qed.

Lemma fresh_block_write p n w w1 m' :
  fresh_block p n w w1 -> same_outside p (p + n) (w_mem w1) m' -> fresh_block p n w (set_mem m' w1).
Proof.
  intros [H1 H2 H3 H4 H5 H6] Hs. split; try done; cbn [w_mem set_mem].
  - by eapply same_outside_trans.
  - intros q k Hq. destruct (H6 q k Hq) as (Hd & E & Ho). split_and!; try done.
    rewrite <- E. eapply load_bytes_same; [exact Hs|]. by replace (p + n - p) with n by lia.
Qed.

Section ParserSpec.
Context {BC : BuildConfig}.

(** What the copy of [src] holds. *)
Definition unmasked (masked : bool) (key src : list Z) : list Z :=
  if masked then apply_mask key src else src.

Lemma copy_payload_spec payload masked key w :
  arena_wf (w_arena w) -> bytes_valid payload -> bytes_wf payload ->
  outside_free (w_arena w) (bytes_ptr payload) (bytes_length payload) -> Forall is_byte key ->
  if decide (bytes_length payload = 0)
  then sl_ws_copy_payload REF payload masked key REF w = (Ok sl_bytes_empty, w)
  else match sl_arena_alloc REF (bytes_length payload) 1 REF w with
       | (Err c, w1) => sl_ws_copy_payload REF payload masked key REF w = (Err c, w1)
       | (Ok p, _) => exists w',
           sl_ws_copy_payload REF payload masked key REF w
             = (Ok {| bytes_ptr := p; bytes_length := bytes_length payload |}, w') /\
           load_bytes (w_mem w') p (bytes_length payload)
             = unmasked masked key (bytes_val (w_mem w) payload) /\
           fresh_block p (bytes_length payload) w w'
       end.
Proof.
  intros Hwf [Hl Hv] (Hw1 & Hw2 & Hw3) Hof Hk.
  assert (E : sl_ws_copy_payload REF payload masked key REF w =
    if bytes_length payload =? 0 then (Ok sl_bytes_empty, w) else
    match sl_arena_alloc REF (bytes_length payload) 1 REF w with
    | (Err c, w1) => (Err c, w1)
    | (Ok p, w1) =>
        let n := Z.to_nat (bytes_length payload) in
        let m1 := copy_forward (w_mem w1) p (bytes_ptr payload) n in
        (Ok {| bytes_ptr := p; bytes_length := bytes_length payload |},
         set_mem (if masked then unmask_loop m1 p 0 key n else m1) w1)
    end).
  { unfold sl_ws_copy_payload.
    replace ((bytes_ptr payload =? 0) && negb (bytes_length payload =? 0)) with false by lia.
    cbn [is_null orb]. destruct (bytes_length payload =? 0); [done|]. unfold_st.
    destruct (sl_arena_alloc _ _ _ _ w) as [[p|c] w1]; [|done]. by destruct masked. }
  rewrite E. clear E. case_decide as Hz; [by rewrite Hz|].
  rewrite (proj2 (Z.eqb_neq _ _) Hz).
  destruct (sl_arena_alloc _ _ _ _ w) as [[p|c] w1] eqn:Ea; [|done].
  apply sl_arena_alloc_fresh in Ea as [_ Hf]; [|done|size_lia|size_lia].
  destruct (fb_others _ _ _ _ Hf _ _ Hof) as (Hd & Es & _).
  set (n := Z.to_nat (bytes_length payload)).
  set (m1 := copy_forward (w_mem w1) p (bytes_ptr payload) n).
  assert (Hc : load_bytes m1 p (bytes_length payload) = bytes_val (w_mem w) payload /\
               same_outside p (p + bytes_length payload) (w_mem w1) m1).
  { unfold bytes_val. rewrite <- Es. apply copied_load_bytes; [lia|]. subst m1 n.
    rewrite <- (Z2Nat.id (bytes_length payload)) at 1 by lia. apply copy_forward_copied.
    unfold disjoint_ranges in Hd. lia. }
  destruct Hc as [Hc Hs]. eexists. split; [reflexivity|]. unfold unmasked. cbn [w_mem set_mem].
  destruct masked.
  - split.
    + unfold load_bytes in Hc |- *. etransitivity; [by apply unmask_load|]. f_equal. exact Hc.
    + apply fresh_block_write; [done|]. eapply same_outside_trans; [exact Hs|].
      replace (bytes_length payload) with (Z.of_nat n) by (subst n; lia). by apply unmask_same_outside.
  - split; [done|]. by apply fresh_block_write.
Qed.

(** The payload checks accept exactly the legal payloads, and then change nothing. *)
Lemma close_split m payload :
  2 <= bytes_length payload ->
  bytes_val m payload
    = be_bytes 2 (ws_close_code_at m payload)
      ++ bytes_val m (sl_bytes_from_parts (bytes_ptr payload + 2) (bytes_length payload - 2)) /\
  0 <= ws_close_code_at m payload < 2 ^ 16.
Proof.
  intros Hl. unfold ws_close_code_at, bytes_val, sl_bytes_from_parts. cbn [bytes_ptr bytes_length].
  set (a := bytes_ptr payload).
  pose proof (ld8_range m a) as H0. pose proof (ld8_range m (a + 1)) as H1. unfold is_byte in *.
  rewrite Z.shiftl_mul_pow2, lor_disjoint by lia. unfold wrap16. rewrite Z.mod_small by lia.
  split; [|lia]. replace (bytes_length payload) with (2 + (bytes_length payload - 2)) at 1 by lia.
  rewrite load_bytes_app by lia. f_equal.
  change (load_bytes m a 2) with [ld8 m a; ld8 m (a + 1)]. cbn [be_bytes]. f_equal; [|f_equal]; div_lia.
Qed.

Lemma be_bytes_two_inj c d : 0 <= c < 2 ^ 16 -> 0 <= d < 2 ^ 16 -> be_bytes 2 c = be_bytes 2 d -> c = d.
Proof.
  intros Hc Hd E. apply (f_equal be_val) in E. rewrite !be_val_be_bytes in E.
  by rewrite !Z.mod_small in E by (cbn; lia).
Qed.

Lemma close_payload_iff m payload :
  bytes_valid payload -> 0 <= bytes_ptr payload ->
  (bytes_val m payload = [] \/
   exists code reason, bytes_val m payload = be_bytes 2 code ++ reason /\ 0 <= code < 2 ^ 16 /\
                       sl_ws_close_code_valid code = true /\ utf8_text reason) <->
  bytes_length payload = 0 \/
  (2 <= bytes_length payload /\ sl_ws_close_code_valid (ws_close_code_at m payload) = true /\
   sl_ws_utf8_valid m (sl_bytes_from_parts (bytes_ptr payload + 2) (bytes_length payload - 2)) = true).
Proof.
  intros [Hl Hv] Hp. assert (HL := length_load_bytes m (bytes_ptr payload) (bytes_length payload) Hl).
  fold (bytes_val m payload) in HL.
  assert (Hu : 2 <= bytes_length payload ->
    sl_ws_utf8_valid m (sl_bytes_from_parts (bytes_ptr payload + 2) (bytes_length payload - 2)) = true <->
    utf8_text (bytes_val m (sl_bytes_from_parts (bytes_ptr payload + 2) (bytes_length payload - 2)))).
  { intros H2. apply utf8_valid_text. split; cbn; lia. }
  split.
  - intros [E|(code & reason & E & Hc & Hcv & Ht)]; [left; rewrite E in HL; cbn in HL; lia|].
    right. assert (H2 : 2 <= bytes_length payload).
    { rewrite <- HL, E, length_app, length_be_bytes. lia. }
    destruct (close_split m payload H2) as [E' Hr]. rewrite E in E'.
    apply app_inj_1 in E' as [Ec Er]; [|done]. apply be_bytes_two_inj in Ec as ->; [|done..].
    split_and!; [done..|]. apply (Hu H2). by rewrite <- Er.
  - intros [E|(H2 & Hcv & Ht)].
    + left. apply length_zero_iff_nil. lia.
    + right. destruct (close_split m payload H2) as [E' Hr]. eexists _, _. split_and!; [exact E'|apply Hr|apply Hr|exact Hcv|by apply Hu].
Qed.

Lemma check_payload_ok opcode fin key payload out_diag s f :
  bytes_valid payload -> 0 <= bytes_ptr payload ->
  f = {| f_fin := fin; f_opcode := opcode; f_key := key;
         f_payload := bytes_val (w_mem (wp_world s)) payload |} ->
  (payload_ok f /\ ws_check_payload opcode fin payload out_diag s = (Ok tt, s)) \/
  (~ payload_ok f /\ exists s', ws_check_payload opcode fin payload out_diag s
                                = (Err SL_STATUS_INVALID_ARGUMENT, s')).
Proof.
  intros Hv Hp ->. unfold payload_ok. cbn [f_opcode f_payload f_fin].
  rewrite (close_payload_iff _ payload Hv Hp), <- (utf8_valid_text _ payload Hv).
  set (m := w_mem (wp_world s)). unfold ws_check_payload, sl_ws_frame_diag.
  destruct (Z.eqb_spec opcode SL_WEBSOCKET_OPCODE_CLOSE) as [->|Hc]; unfold_st; fold m.
  - destruct (Z.eqb_spec (bytes_length payload) 1) as [E1|E1].
    { right. split; [intros [[?|?] _]; [done|lia..]|]. destruct out_diag; eexists; reflexivity. }
    destruct (Z.leb_spec 2 (bytes_length payload)).
    2:{ left. split; [|done]. split; [|done]. intros _. left. destruct Hv. lia. }
    destruct (sl_ws_close_code_valid _); cbn [negb].
    2:{ right. split; [intros [[?|(? & ? & ?)] _]; [done|lia|done]|]. destruct out_diag; eexists; reflexivity. }
    destruct (sl_ws_utf8_valid m (sl_bytes_from_parts _ _)); cbn [negb].
    2:{ right. split; [intros [[?|(? & ? & ?)] _]; [done|lia|done]|]. destruct out_diag; eexists; reflexivity. }
    left. split; [|done]. split; [|done]. intros _. by right.
  - destruct (Z.eqb_spec opcode SL_WEBSOCKET_OPCODE_TEXT) as [->|Ht]; cbn [andb].
    2:{ left. split; [by split|done]. }
    destruct fin; cbn [andb]; [|left; split; [by split|done]].
    destruct (sl_ws_utf8_valid m payload); cbn [negb]; [left; split; [by split|done]|].
    right. split; [intros [_ Hx]; by specialize (Hx eq_refl eq_refl)|]. destruct out_diag; eexists; reflexivity.
Qed.

(** * The parser: extended lengths *)

Lemma read_u16_val m a : sl_ws_read_u16 m a = be_val (load_bytes m a 2).
Proof.
  unfold sl_ws_read_u16. pose proof (ld8_range m a) as H0. pose proof (ld8_range m (a + 1)) as H1.
  unfold is_byte in *. rewrite Z.shiftl_mul_pow2, lor_disjoint by lia.
  change (load_bytes m a 2) with [ld8 m a; ld8 m (a + 1)]. unfold be_val. cbn [foldl]. lia.
Qed.

Lemma read_be_loop_val m a v n :
  0 <= v -> (v + 1) * 256 ^ Z.of_nat n <= 2 ^ 64 ->
  read_be_loop m a v n = v * 256 ^ Z.of_nat n + be_val (load m a n).
Proof.
  revert a v. induction n as [|n IH]; intros a v Hv Hb; cbn [read_be_loop load]; [cbn; lia|].
  rewrite Nat2Z.inj_succ, Z.pow_succ_r in * by lia. pose proof (pow256_pos n) as Hp.
  pose proof (ld8_range m a) as H0. unfold is_byte in H0.
  assert (Hs : wrap64 (Z.shiftl v 8) = v * 256).
  { rewrite Z.shiftl_mul_pow2 by lia. apply wrap64_small. unfold is_size, SIZE_MAX. nia. }
  rewrite Hs. change (v * 256) with (v * 2 ^ 8). rewrite (lor_disjoint v (ld8 m a) 8) by lia.
  rewrite IH by nia.
  rewrite be_val_cons, length_load. ring.
Qed.

Lemma read_u64_val m a : sl_ws_read_u64 m a = be_val (load_bytes m a 8).
Proof. unfold sl_ws_read_u64. rewrite read_be_loop_val by lia. done. Qed.

(** From here on only its value matters; unfolding it in conversions is costly. *)
#[local] Opaque sl_ws_read_u64.

Lemma high_bit_clear b : is_byte b -> (Z.land b 128 =? 0) = (b <? 128).
Proof.
  intros Hb. apply eqb_true_iff.
  by apply (byte_cases (fun b => Bool.eqb (Z.land b 128 =? 0) (b <? 128))).
Qed.

(** The eight-byte lengths the parser admits: the top bit of the first byte clear. *)
Lemma u64_signed m a :
  ld8 m a < 128 <-> be_val (load_bytes m a 8) < 2 ^ 63.
Proof.
  rewrite load_bytes_cons, be_val_cons by lia. change (8 - 1) with 7.
  unfold load_bytes at 1. rewrite length_load.
  pose proof (load_bytes_val_range m (a + 1) 7 ltac:(lia)). pose proof (ld8_range m a). unfold is_byte in *.
  change (Z.of_nat (Z.to_nat 7)) with 7. change (256 ^ 7) with (2 ^ 56) in *. lia.
Qed.

(** The shortest forms, as the bytes they come from. *)
Lemma length_field_16 m a mask_bit :
  125 < be_val (load_bytes m a 2) ->
  length_field mask_bit (be_val (load_bytes m a 2)) = (mask_bit + 126) :: load_bytes m a 2.
Proof.
  intros Hlo. pose proof (load_bytes_val_range m a 2 ltac:(lia)) as Hr. change (256 ^ 2) with 65536 in Hr.
  unfold length_field.
  destruct (Z.leb_spec (be_val (load_bytes m a 2)) 125), (Z.leb_spec (be_val (load_bytes m a 2)) 65535);
    try lia. f_equal. apply be_bytes_be_val; [done|apply load_is_byte].
Qed.

Lemma length_field_64 m a mask_bit :
  65535 < be_val (load_bytes m a 8) ->
  length_field mask_bit (be_val (load_bytes m a 8)) = (mask_bit + 127) :: load_bytes m a 8.
Proof.
  intros Hlo. unfold length_field.
  destruct (Z.leb_spec (be_val (load_bytes m a 8)) 125), (Z.leb_spec (be_val (load_bytes m a 8)) 65535);
    try lia. f_equal. apply be_bytes_be_val; [done|apply load_is_byte].
Qed.

(** An accepted length is the one its shortest form encodes. *)
Lemma extended_length_sound bytes l7 out_diag s pl hl s' :
  0 <= l7 < 128 ->
  ws_extended_length bytes l7 out_diag s = (Ok (pl, hl), s') ->
  2 <= bytes_length bytes ->
  s' = s /\ 0 <= pl < 2 ^ 63 /\ 2 <= hl <= 10 /\ hl <= bytes_length bytes /\
  forall mask_bit, length_field mask_bit pl
    = (mask_bit + l7) :: load_bytes (w_mem (wp_world s)) (bytes_ptr bytes + 2) (hl - 2).
Proof.
  intros Hl7. unfold ws_extended_length, sl_ws_frame_diag. unfold_st.
  generalize (w_mem (wp_world s)) as m. generalize (bytes_ptr bytes + 2) as a. intros a m.
  destruct (Z.eqb_spec l7 126) as [->|H6]; [|destruct (Z.eqb_spec l7 127) as [->|H7]]; intros E H2.
  - destruct (Z.ltb_spec (bytes_length bytes) (2 + 2)); [done|].
    rewrite read_u16_val in E. pose proof (load_bytes_val_range m a 2 ltac:(lia)) as Hr.
    pose proof (length_field_16 m a) as Hf. revert Hf Hr E. generalize (be_val (load_bytes m a 2)) as v.
    intros v Hf Hr E. change (256 ^ 2) with 65536 in Hr.
    destruct (Z.leb_spec v 125); [by destruct out_diag|]. injection E as <- <- <-.
    split_and!; [done|lia..|]. intros mask_bit. replace (2 + 2 - 2) with 2 by lia. by apply Hf.
  - destruct (Z.ltb_spec (bytes_length bytes) (2 + 8)); [done|].
    rewrite high_bit_clear in E by apply ld8_range.
    destruct (Z.ltb_spec (ld8 m a) 128) as [Hh|]; cbn [negb] in E; [|by destruct out_diag].
    apply u64_signed in Hh. pose proof (load_bytes_val_range m a 8 ltac:(lia)) as [Hr _].
    pose proof (length_field_64 m a) as Hf. rewrite <- read_u64_val in Hf, Hh, Hr.
    destruct (Z.leb_spec (sl_ws_read_u64 m a) 65535); [by destruct out_diag|]. injection E as <- <- <-.
    split_and!; [done|lia..|]. intros mask_bit. replace (2 + 8 - 2) with 8 by lia. by apply Hf.
  - injection E as <- <- <-. split_and!; [done|lia..|]. intros mask_bit. unfold length_field.
    by destruct (Z.leb_spec l7 125); [|lia].
Qed.

(** The shortest form of a length is read back, once all of it has arrived. *)
Lemma extended_length_complete bytes pl mask_bit l7 ext out_diag s :
  0 <= pl < 2 ^ 63 -> 2 <= bytes_length bytes -> length_field mask_bit pl = (mask_bit + l7) :: ext ->
  (2 + Z.of_nat (length ext) <= bytes_length bytes ->
   load_bytes (w_mem (wp_world s)) (bytes_ptr bytes + 2) (Z.of_nat (length ext)) = ext) ->
  ws_extended_length bytes l7 out_diag s =
  if bytes_length bytes <? 2 + Z.of_nat (length ext) then (Err SL_STATUS_OUT_OF_RANGE, s)
  else (Ok (pl, 2 + Z.of_nat (length ext)), s).
Proof.
  intros Hpl H2. unfold length_field, ws_extended_length. unfold_st.
  set (m := w_mem (wp_world s)). set (a := bytes_ptr bytes + 2).
  destruct (Z.leb_spec pl 125); [|destruct (Z.leb_spec pl 65535)]; intros E Hext.
  - injection E as E <-. assert (l7 = pl) as -> by lia. cbn [length].
    destruct (Z.eqb_spec pl 126), (Z.eqb_spec pl 127); try lia.
    destruct (Z.ltb_spec (bytes_length bytes) (2 + Z.of_nat 0)); [lia|done].
  - pose proof (f_equal tail E) as Ee. cbn [tail] in Ee. apply (f_equal (hd 0)) in E. cbn [hd] in E.
    assert (l7 = 126) as -> by lia. subst ext. rewrite length_be_bytes in Hext |- *.
    change (126 =? 126) with true. cbv iota. change (Z.of_nat 2) with 2 in *.
    destruct (Z.ltb_spec (bytes_length bytes) (2 + 2)); [done|].
    rewrite read_u16_val, Hext, be_val_be_bytes by lia. rewrite Z.mod_small by (cbn; lia).
    destruct (Z.leb_spec pl 125); [lia|done].
  - pose proof (f_equal tail E) as Ee. cbn [tail] in Ee. apply (f_equal (hd 0)) in E. cbn [hd] in E.
    assert (l7 = 127) as -> by lia. subst ext. rewrite length_be_bytes in Hext |- *.
    change (127 =? 126) with false. change (127 =? 127) with true. cbv iota. change (Z.of_nat 8) with 8 in *.
    destruct (Z.ltb_spec (bytes_length bytes) (2 + 8)); [done|].
    specialize (Hext ltac:(lia)).
    assert (Hv : be_val (load_bytes m a 8) = pl).
    { rewrite Hext, be_val_be_bytes. apply Z.mod_small. cbn; lia. }
    rewrite high_bit_clear by apply ld8_range.
    pose proof (proj2 (u64_signed m a)) as Hs. rewrite Hv in Hs.
    destruct (Z.ltb_spec (ld8 m a) 128); [cbn [negb]|lia].
    rewrite read_u64_val, Hv. destruct (Z.leb_spec pl 65535); [lia|done].
Qed.

(** * The parser: whole frames *)

(** What a successful parse leaves behind: the frame in [*out_result], its payload
    in fresh arena storage, everything else in memory as it was. *)
Record ws_parsed (f : ws_frame) (consumed : Z) (w : World) (s' : WsParseSys) : Prop := {
  wpd_fin : wf_fin (pr_frame (wp_result s')) = f_fin f;
  wpd_masked : wf_masked (pr_frame (wp_result s')) = f_masked f;
  wpd_opcode : wf_opcode (pr_frame (wp_result s')) = f_opcode f;
  wpd_payload : bytes_val (w_mem (wp_world s')) (wf_payload (pr_frame (wp_result s'))) = f_payload f;
  wpd_consumed : pr_consumed (wp_result s') = consumed;
  wpd_close_code : pr_close_code (wp_result s') =
    if (f_opcode f =? SL_WEBSOCKET_OPCODE_CLOSE) && (2 <=? Z.of_nat (length (f_payload f)))
    then be_val (take 2 (f_payload f)) else 0;
  wpd_arena : arena_wf (w_arena (wp_world s'));
  wpd_others : forall q n, outside_free (w_arena w) q n ->
    load_bytes (w_mem (wp_world s')) q n = load_bytes (w_mem w) q n /\
    outside_free (w_arena (wp_world s')) q n;
}.

Lemma close_code_take m payload :
  2 <= bytes_length payload -> ws_close_code_at m payload = be_val (take 2 (bytes_val m payload)).
Proof.
  intros H2. destruct (close_split m payload H2) as [E Hr]. rewrite E, take_app_length' by done.
  rewrite be_val_be_bytes. symmetry. apply Z.mod_small. exact Hr.
Qed.

(** The mask key and the end of the header. *)
Definition full_header (masked : bool) (hl : Z) : Z := if masked then hl + 4 else hl.
Definition key_at (m : mem) (masked : bool) (a : Z) : list Z := if masked then load m a 4 else [0; 0; 0; 0].

Lemma key_at_bytes m masked a : Forall is_byte (key_at m masked a).
Proof.
  unfold key_at. destruct masked; [apply load_is_byte|].
  repeat first [apply List.Forall_nil|apply List.Forall_cons]; unfold is_byte; lia.
Qed.

(** The frame found behind a header that ends at [hl] (without the key). *)
Definition frame_behind (m : mem) (bytes : SlBytes) (fin masked : bool) (opcode pl hl : Z) : ws_frame :=
  let key := key_at m masked (bytes_ptr bytes + hl) in
  {| f_fin := fin; f_opcode := opcode; f_key := if masked then Some key else None;
     f_payload := unmasked masked key
       (load_bytes m (bytes_ptr bytes + full_header masked hl) pl) |}.

(** The outcome of the last phase on a complete frame. *)
Definition payload_outcome (f : ws_frame) (pl consumed : Z) (s : WsParseSys)
    (r : result unit * WsParseSys) : Prop :=
  (exists c w1, pl <> 0 /\ sl_arena_alloc REF pl 1 REF (wp_world s) = (Err c, w1) /\
                r = (Err c, set_wp_world w1 s)) \/
  (~ payload_ok f /\ exists s', r = (Err SL_STATUS_INVALID_ARGUMENT, s')) \/
  (payload_ok f /\ exists s', r = (Ok tt, s') /\ ws_parsed f consumed (wp_world s) s').

Lemma store_result_spec f fin masked opcode key payload pl hl out_diag s s1 :
  bytes_valid payload -> 0 <= bytes_ptr payload ->
  f = {| f_fin := fin; f_opcode := opcode; f_key := if masked : bool then Some key else None;
         f_payload := bytes_val (w_mem (wp_world s1)) payload |} ->
  arena_wf (w_arena (wp_world s1)) ->
  (forall q n, outside_free (w_arena (wp_world s)) q n ->
    load_bytes (w_mem (wp_world s1)) q n = load_bytes (w_mem (wp_world s)) q n /\
    outside_free (w_arena (wp_world s1)) q n) ->
  payload_outcome f pl (hl + pl) s
    ((ws_check_payload opcode fin payload out_diag ;;
      ws_store_result fin masked opcode (hl + pl) payload) s1).
Proof.
  intros Hv Hp Ef Hwf Hoth. right.
  destruct (check_payload_ok opcode fin (if masked then Some key else None) payload out_diag s1 f Hv Hp Ef)
    as [[Hok E]|[Hno [s' E]]].
  - right. split; [done|]. unfold mbind, st_bind. rewrite E. eexists. split; [reflexivity|].
    subst f. split; cbn [wp_result wp_world set_wp_result pr_frame pr_consumed pr_close_code wf_fin
      wf_masked wf_opcode wf_payload f_fin f_opcode f_key f_payload]; try done.
    + by destruct masked.
    + unfold bytes_val at 1. rewrite length_load_bytes by apply Hv.
      destruct (_ =? _); cbn [andb]; [|done]. destruct (Z.leb_spec 2 (bytes_length payload)); [|done].
      by apply close_code_take.
  - left. split; [done|]. unfold mbind, st_bind. rewrite E. by eexists.
Qed.

(** The input of a parse: a legal view that is not the arena's free storage. *)
Record parse_input (bytes : SlBytes) (s : WsParseSys) : Prop := {
  pi_valid : bytes_valid bytes;
  pi_wf : bytes_wf bytes;
  pi_foreign : outside_free (w_arena (wp_world s)) (bytes_ptr bytes) (bytes_length bytes);
  pi_arena : arena_wf (w_arena (wp_world s));
}.

(** The last phase as an equation, once the limits are known to hold. *)
Lemma parse_payload_eq bytes max fin masked opcode pl hl out_diag s :
  0 <= bytes_length bytes -> 0 <= pl < 2 ^ 63 -> 2 <= hl <= 10 -> pl <= max ->
  (sl_ws_opcode_control opcode = true -> pl <= 125) ->
  let h := full_header masked hl in
  let key := key_at (w_mem (wp_world s)) masked (bytes_ptr bytes + hl) in
  ws_parse_payload REF bytes max fin masked opcode pl hl out_diag s =
  if bytes_length bytes <? h + pl then (Err SL_STATUS_OUT_OF_RANGE, s) else
  match sl_ws_copy_payload REF (sl_bytes_from_parts (bytes_ptr bytes + h) pl) masked key REF (wp_world s) with
  | (Ok payload, w') =>
      (ws_check_payload opcode fin payload out_diag ;; ws_store_result fin masked opcode (h + pl) payload)
        (set_wp_world w' s)
  | (Err c, w') => (Err c, set_wp_world w' s)
  end.
Proof.
  intros Hl Hpl Hhl Hmax Hctl h key. unfold ws_parse_payload.
  replace (sl_ws_opcode_control opcode && (125 <? pl)) with false
    by (destruct (sl_ws_opcode_control opcode); cbn [andb]; [|done]; specialize (Hctl eq_refl); lia).
  replace ((max <? pl) || (SIZE_MAX <? pl)) with false by (unfold SIZE_MAX; lia).
  rewrite wrap64_small by (subst h; unfold full_header; destruct masked; size_lia).
  subst h key. unfold full_header, key_at. unfold_st. unfold zoom.
  destruct masked; cbn [andb].
  - destruct (Z.ltb_spec (bytes_length bytes) (hl + 4)), (Z.ltb_spec (bytes_length bytes) (hl + 4 + pl));
      try done; [lia|]. by destruct (sl_ws_copy_payload _ _ _ _ _ _) as [[] ].
  - destruct (Z.ltb_spec (bytes_length bytes) (hl + pl)); [done|].
    by destruct (sl_ws_copy_payload _ _ _ _ _ _) as [[] ].
Qed.

Lemma parse_payload_exact bytes max fin masked opcode pl hl out_diag s :
  parse_input bytes s -> 0 <= pl < 2 ^ 63 -> 2 <= hl <= 10 -> pl <= max ->
  (sl_ws_opcode_control opcode = true -> pl <= 125) ->
  let r := ws_parse_payload REF bytes max fin masked opcode pl hl out_diag s in
  let h := full_header masked hl in
  if bytes_length bytes <? h + pl then r = (Err SL_STATUS_OUT_OF_RANGE, s)
  else payload_outcome (frame_behind (w_mem (wp_world s)) bytes fin masked opcode pl hl) pl (h + pl) s r.
Proof.
  intros [[Hl Hv] (_ & Hw2 & Hw3) Hof Hwf] Hpl Hhl Hmax Hctl r h. subst r.
  rewrite parse_payload_eq by done. fold h.
  destruct (Z.ltb_spec (bytes_length bytes) (h + pl)) as [|Hfit]; [done|].
  set (m := w_mem (wp_world s)). set (key := key_at m masked (bytes_ptr bytes + hl)).
  assert (Hh : 2 <= h <= 14) by (subst h; unfold full_header; destruct masked; lia).
  set (src := sl_bytes_from_parts (bytes_ptr bytes + h) pl).
  assert (Hsv : bytes_valid src) by (split; cbn; lia).
  pose proof (copy_payload_spec src masked key (wp_world s) Hwf Hsv) as Hcp.
  specialize (Hcp ltac:(split_and!; cbn; size_lia)).
  specialize (Hcp ltac:(eapply outside_free_sub; [exact Hof|cbn; lia..])).
  specialize (Hcp (key_at_bytes m masked (bytes_ptr bytes + hl))).
  change (bytes_length src) with pl in Hcp.
  destruct (decide (pl = 0)) as [Hz|Hz].
  - rewrite Hcp. eapply (store_result_spec _ _ _ _ key); cbn [wp_world set_wp_world]; try done.
    + split; cbn; lia.
    + unfold frame_behind. fold key. f_equal. rewrite Hz. by destruct masked.
  - destruct (sl_arena_alloc REF pl 1 REF (wp_world s)) as [[p|c] w1] eqn:Ea.
    + destruct Hcp as (w' & -> & Ep & Hfb). pose proof (fb_pos _ _ _ _ Hfb) as Hp.
      eapply (store_result_spec _ _ _ _ key); cbn [wp_world set_wp_world].
      * split; cbn [bytes_length bytes_ptr]; lia.
      * cbn [bytes_ptr]. lia.
      * unfold frame_behind. fold key. f_equal. symmetry. exact Ep.
      * apply Hfb.
      * intros q n Hq. destruct (fb_others _ _ _ _ Hfb q n Hq) as (_ & ? & ?). done.
    + left. exists c, w1. split_and!; [lia|done|]. by rewrite Hcp.
Qed.

(** Success in the last phase means the limits were kept. *)
Lemma parse_payload_limits arena bytes max fin masked opcode pl hl out_diag s s' :
  ws_parse_payload arena bytes max fin masked opcode pl hl out_diag s = (Ok tt, s') ->
  pl <= max /\ (sl_ws_opcode_control opcode = true -> pl <= 125).
Proof.
  unfold ws_parse_payload, sl_ws_frame_diag.
  destruct (sl_ws_opcode_control opcode && (125 <? pl)) eqn:E1; [by destruct out_diag|].
  destruct ((max <? pl) || (SIZE_MAX <? pl)) eqn:E2; [by destruct out_diag|]. intros _.
  apply orb_false_iff in E2 as [E2%Z.ltb_ge _]. split; [done|]. intros Hc. rewrite Hc in E1. cbn in E1. lia.
Qed.

(** * The two header bytes *)

Definition first_byte_ok (fin : bool) (op : Z) : bool :=
  let b := (if fin then 128 else 0) + op in
  negb (op <? 16) ||
  (Bool.eqb (Z.land b 128 =? 0) (negb fin) && (Z.land b 15 =? op) && (Z.land b 112 =? 0)).

Lemma first_byte_read (fin : bool) op :
  0 <= op < 16 ->
  let b := (if fin then 128 else 0) + op in
  (Z.land b 128 =? 0) = negb fin /\ Z.land b 15 = op /\ Z.land b 112 = 0.
Proof.
  intros Hop b. assert (H : first_byte_ok fin op = true).
  { apply (byte_cases (first_byte_ok fin)); [by destruct fin|unfold is_byte; lia]. }
  unfold first_byte_ok in H. fold b in H. replace (op <? 16) with true in H by lia. cbn [negb orb] in H.
  rewrite !andb_true_iff, eqb_true_iff, !Z.eqb_eq in H. tauto.
Qed.

Lemma second_byte_read (masked : bool) l7 :
  0 <= l7 < 128 ->
  let b := (if masked then 128 else 0) + l7 in
  (Z.land b 128 =? 0) = negb masked /\ Z.land b 127 = l7.
Proof.
  intros Hl b. split.
  - rewrite high_bit_clear by (unfold is_byte; subst b; destruct masked; lia). subst b.
    destruct masked; cbn [negb]; lia.
  - change 127 with (2 ^ 7 - 1). rewrite low_bits by lia. subst b. destruct masked.
    + rewrite Z.add_comm. change 128 with (1 * 2 ^ 7). rewrite Z.mod_add by lia. apply Z.mod_small. lia.
    + apply Z.mod_small. lia.
Qed.

Lemma first_byte_split b :
  is_byte b -> Z.land b 112 = 0 ->
  b = (if negb (Z.land b 128 =? 0) then 128 else 0) + Z.land b 15.
Proof.
  intros Hb H. assert (Hc : (negb (Z.land b 112 =? 0) ||
    (b =? (if negb (Z.land b 128 =? 0) then 128 else 0) + Z.land b 15)) = true).
  { by apply (byte_cases (fun b => negb (Z.land b 112 =? 0) ||
      (b =? (if negb (Z.land b 128 =? 0) then 128 else 0) + Z.land b 15))). }
  rewrite H in Hc. cbn in Hc. by apply Z.eqb_eq in Hc.
Qed.

Lemma second_byte_split b :
  is_byte b -> b = (if negb (Z.land b 128 =? 0) then 128 else 0) + Z.land b 127 /\ 0 <= Z.land b 127 < 128.
Proof.
  intros Hb. rewrite high_bit_clear by done. change 127 with (2 ^ 7 - 1). rewrite low_bits by lia.
  unfold is_byte in Hb. destruct (Z.ltb_spec b 128); cbn [negb]; div_lia.
Qed.

Lemma length_field_shape pl :
  0 <= pl -> exists l7 ext, 0 <= l7 < 128 /\ (forall mb, length_field mb pl = (mb + l7) :: ext) /\
                           Z.of_nat (length ext) <= 8.
Proof.
  intros Hpl. unfold length_field. destruct (Z.leb_spec pl 125); [|destruct (Z.leb_spec pl 65535)].
  - exists pl, []. split_and!; [lia..|done|cbn; lia].
  - exists 126, (be_bytes 2 pl). split_and!; [lia..|done|rewrite length_be_bytes; lia].
  - exists 127, (be_bytes 8 pl). split_and!; [lia..|done|rewrite length_be_bytes; lia].
Qed.

(** The bytes that have arrived of a longer stream. *)
Lemma prefix_segment m bytes (stream pre seg post : list Z) :
  0 <= bytes_length bytes -> bytes_val m bytes `prefix_of` stream -> stream = pre ++ seg ++ post ->
  Z.of_nat (length pre) + Z.of_nat (length seg) <= bytes_length bytes ->
  load_bytes m (bytes_ptr bytes + Z.of_nat (length pre)) (Z.of_nat (length seg)) = seg.
Proof.
  intros Hl [rest Hp] Es Hfit. rewrite Es in Hp. unfold bytes_val in Hp.
  set (a := Z.of_nat (length pre)) in *. set (n := Z.of_nat (length seg)) in *.
  replace (bytes_length bytes) with (a + (n + (bytes_length bytes - a - n))) in Hp by lia.
  rewrite !load_bytes_app in Hp by lia. rewrite <- !app_assoc in Hp.
  apply app_inj_1 in Hp as [_ Hp]; [|unfold load_bytes; rewrite length_load; lia].
  apply app_inj_1 in Hp as [Hp _]; [done|]. unfold load_bytes; rewrite length_load; lia.
Qed.

(** * Soundness and completeness of the parser *)

(** The limits the caller set, with the default for "no limit given". *)
Definition options_max (options : option SlWebSocketFrameParseOptions) : Z :=
  let o := default {| require_mask := false; max_payload_bytes := 0 |} options in
  if max_payload_bytes o =? 0 then 65536 else max_payload_bytes o.

Definition options_mask (options : option SlWebSocketFrameParseOptions) : bool :=
  require_mask (default {| require_mask := false; max_payload_bytes := 0 |} options).

Definition within_limits (options : option SlWebSocketFrameParseOptions) (f : ws_frame) : Prop :=
  Z.of_nat (length (f_payload f)) <= options_max options /\
  Z.of_nat (length (f_payload f)) < 2 ^ 63 /\
  (options_mask options = true -> f_masked f = true).

(** The state after the outputs were reset. *)
Definition reset_state (out_diag : nullable) (s : WsParseSys) : WsParseSys :=
  {| wp_world := wp_world s; wp_result := zero_parse_result;
     wp_diag := if is_null out_diag then wp_diag s else None |}.

Lemma parse_frame_eq bytes options out_diag s :
  bytes_valid bytes ->
  sl_websocket_parse_frame REF bytes options REF out_diag s =
  if bytes_length bytes <? 2 then (Err SL_STATUS_OUT_OF_RANGE, reset_state out_diag s)
  else ws_parse_header REF bytes (options_mask options) (options_max options) out_diag
         (reset_state out_diag s).
Proof.
  intros [Hl Hv]. unfold sl_websocket_parse_frame.
  replace ((bytes_ptr bytes =? 0) && negb (bytes_length bytes =? 0)) with false by lia.
  cbn [is_null orb]. unfold reset_state, options_max, options_mask.
  destruct out_diag, (bytes_length bytes <? 2); reflexivity.
Qed.

Lemma ws_wire_length f h :
  (forall key, f_key f = Some key -> length key = 4%nat) ->
  (exists l7 ext, length_field (if f_masked f then 128 else 0) (Z.of_nat (length (f_payload f)))
                    = l7 :: ext /\ h = 2 + Z.of_nat (length ext)) ->
  Z.of_nat (length (ws_wire f)) = full_header (f_masked f) h + Z.of_nat (length (f_payload f)).
Proof.
  intros Hk (l7 & ext & E & ->). unfold ws_wire. rewrite E. unfold f_masked, full_header.
  destruct (f_key f) as [key|] eqn:Ek; cbn [app length].
  - rewrite !length_app, length_apply_mask, (Hk key eq_refl). cbn. lia.
  - rewrite length_app. cbn. lia.
Qed.

(** The frame read back from the stream behind its header. *)
Lemma frame_behind_wire m bytes f rest l7 ext :
  0 <= bytes_length bytes -> header_ok f -> bytes_val m bytes `prefix_of` ws_wire f ++ rest ->
  length_field (if f_masked f then 128 else 0) (Z.of_nat (length (f_payload f))) = l7 :: ext ->
  let hl := 2 + Z.of_nat (length ext) in
  Z.of_nat (length (ws_wire f)) <= bytes_length bytes ->
  frame_behind m bytes (f_fin f) (f_masked f) (f_opcode f) (Z.of_nat (length (f_payload f))) hl = f.
Proof.
  intros Hl (_ & _ & _ & Hk) Hp E hl Hfit.
  rewrite (ws_wire_length f hl) in Hfit
    by (first [intros key Ek; rewrite Ek in Hk; apply Hk | exists l7, ext; done]).
  unfold frame_behind, f_masked, full_header, key_at in *. destruct f as [fin op key payload].
  cbn [f_fin f_opcode f_key f_payload] in *. unfold ws_wire in Hp. cbn [f_fin f_opcode f_key f_payload] in Hp.
  unfold f_masked in *. cbn [f_key] in *. rewrite E in Hp. destruct key as [key|].
  - change (bool_decide (is_Some (Some key))) with true in *. cbv iota in Hfit |- *. destruct Hk as [Hk4 _].
    set (pre := (if fin then 128 else 0) + op :: l7 :: ext).
    assert (Epre : Z.of_nat (length pre) = hl) by (cbn; lia).
    pose proof (prefix_segment m bytes _ pre key (apply_mask key payload ++ rest) Hl Hp) as H1.
    specialize (H1 ltac:(cbn; by rewrite <- !app_assoc)).
    pose proof (prefix_segment m bytes _ (pre ++ key) (apply_mask key payload) rest Hl Hp) as H2.
    specialize (H2 ltac:(cbn; by rewrite <- !app_assoc)).
    rewrite !length_app, length_apply_mask, Hk4, Nat2Z.inj_add, Epre in H2. rewrite Epre, Hk4 in H1.
    specialize (H1 ltac:(lia)). specialize (H2 ltac:(lia)).
    change (load m (bytes_ptr bytes + hl) 4) with (load_bytes m (bytes_ptr bytes + hl) (Z.of_nat 4)).
    rewrite H1. change (Z.of_nat 4) with 4 in H2. rewrite H2. unfold unmasked.
    by rewrite apply_mask_involutive.
  - change (bool_decide (is_Some None)) with false in *. cbv iota in Hfit |- *.
    set (pre := (if fin then 128 else 0) + op :: l7 :: ext).
    assert (Epre : Z.of_nat (length pre) = hl) by (cbn; lia).
    pose proof (prefix_segment m bytes _ pre payload rest Hl Hp) as H1.
    specialize (H1 ltac:(cbn; by rewrite <- !app_assoc)). rewrite Epre in H1. by rewrite H1 by lia.
Qed.

(** The state in which the header is examined. *)
Definition header_state (s : WsParseSys) : WsParseSys := set_wp_result (with_close_code 1002) s.

(** A header whose two bytes pass the tests goes on with the extended length. *)
Lemma parse_header_eq bytes rm max out_diag s (fin masked : bool) op l7 :
  ld8 (w_mem (wp_world s)) (bytes_ptr bytes) = (if fin then 128 else 0) + op ->
  ld8 (w_mem (wp_world s)) (bytes_ptr bytes + 1) = (if masked then 128 else 0) + l7 ->
  0 <= l7 < 128 -> sl_ws_opcode_valid op = true -> (rm = true -> masked = true) ->
  (sl_ws_opcode_control op = true -> fin = true) ->
  ws_parse_header REF bytes rm max out_diag s =
  match ws_extended_length bytes l7 out_diag (header_state s) with
  | (Ok (pl, hl), s') => ws_parse_payload REF bytes max fin masked op pl hl out_diag s'
  | (Err c, s') => (Err c, s')
  end.
Proof.
  intros E1 E2 Hl7 Hop Hrm Hctl. pose proof (opcode_valid_range op Hop) as Hr.
  destruct (first_byte_read fin op Hr) as (F1 & F2 & F3).
  destruct (second_byte_read masked l7 Hl7) as (S1 & S2).
  unfold ws_parse_header. unfold mbind at 1, st_bind at 1. unfold gets at 1. cbv zeta.
  rewrite E1, E2, F1, F2, F3, S1, S2, !negb_involutive, Hop.
  change (negb (0 =? 0)) with false. cbn [negb]. cbv iota.
  replace (rm && negb masked) with false by (destruct rm, masked; naive_solver).
  replace (sl_ws_opcode_control op && negb fin) with false
    by (destruct (sl_ws_opcode_control op), fin; naive_solver).
  unfold_st. fold (header_state s).
  by destruct (ws_extended_length bytes l7 out_diag (header_state s)) as [[[pl hl]|c] s'].
Qed.

(** A stream that starts with a legal frame: incomplete until all of it is there,
    then the frame. *)
Lemma parse_stream bytes options out_diag s f rest :
  parse_input bytes s -> header_ok f -> within_limits options f ->
  bytes_val (w_mem (wp_world s)) bytes `prefix_of` ws_wire f ++ rest ->
  let r := sl_websocket_parse_frame REF bytes options REF out_diag s in
  let n := Z.of_nat (length (ws_wire f)) in
  if bytes_length bytes <? n then fst r = Err SL_STATUS_OUT_OF_RANGE
  else payload_outcome f (Z.of_nat (length (f_payload f))) n (header_state (reset_state out_diag s)) r.
Proof.
  intros Hin Hok (Hmax & H63 & Hmask) Hp r n. subst r. pose proof (proj1 (pi_valid _ _ Hin)) as Hl.
  pose proof Hok as (Hop & Hctl & _ & Hkey).
  set (pl := Z.of_nat (length (f_payload f))) in *. assert (Hpl : 0 <= pl) by lia.
  destruct (length_field_shape pl Hpl) as (l7 & ext & Hl7 & Hlf & Hext).
  set (mb := if f_masked f then 128 else 0) in *. set (hl := 2 + Z.of_nat (length ext)).
  assert (Hn : n = full_header (f_masked f) hl + pl).
  { apply ws_wire_length; [|by exists (mb + l7), ext].
    intros key Ek. rewrite Ek in Hkey. apply Hkey. }
  assert (Hh : hl <= full_header (f_masked f) hl) by (unfold full_header; destruct (f_masked f); lia).
  rewrite parse_frame_eq by apply Hin.
  destruct (Z.ltb_spec (bytes_length bytes) 2).
  { destruct (Z.ltb_spec (bytes_length bytes) n); [done|lia]. }
  set (m := w_mem (wp_world s)) in *.
  set (b0 := (if f_fin f then 128 else 0) + f_opcode f).
  set (tl := match f_key f with Some key => key ++ apply_mask key (f_payload f) | None => f_payload f end).
  assert (Ew : ws_wire f ++ rest = b0 :: (mb + l7) :: ext ++ tl ++ rest).
  { unfold ws_wire. fold pl. fold mb. fold b0. fold tl. rewrite Hlf. cbn. by rewrite <- app_assoc. }
  assert (B0 : ld8 m (bytes_ptr bytes) = b0).
  { pose proof (prefix_segment m bytes _ [] [b0] ((mb + l7) :: ext ++ tl ++ rest) Hl Hp Ew ltac:(cbn; lia)) as H0.
    change (load_bytes m _ _) with [ld8 m (bytes_ptr bytes + 0)] in H0. rewrite Z.add_0_r in H0.
    by injection H0. }
  assert (B1 : ld8 m (bytes_ptr bytes + 1) = mb + l7).
  { pose proof (prefix_segment m bytes _ [b0] [mb + l7] (ext ++ tl ++ rest) Hl Hp Ew ltac:(cbn; lia)) as H0.
    change (load_bytes m _ _) with [ld8 m (bytes_ptr bytes + 1)] in H0. by injection H0. }
  set (s0 := reset_state out_diag s). change m with (w_mem (wp_world s0)) in B0, B1.
  rewrite (parse_header_eq bytes _ _ out_diag s0 (f_fin f) (f_masked f) (f_opcode f) l7)
    by (try done; naive_solver).
  rewrite (extended_length_complete bytes pl mb l7 ext out_diag (header_state s0)); [|lia|lia|by rewrite Hlf|].
  2:{ intros Hfit. exact (prefix_segment m bytes _ [b0; mb + l7] ext (tl ++ rest) Hl Hp Ew Hfit). }
  fold hl. destruct (Z.ltb_spec (bytes_length bytes) hl).
  { destruct (Z.ltb_spec (bytes_length bytes) n); [done|lia]. }
  assert (Hin' : parse_input bytes (header_state s0)) by (destruct Hin; by split).
  pose proof (parse_payload_exact bytes (options_max options) (f_fin f) (f_masked f) (f_opcode f) pl hl
    out_diag (header_state s0) Hin' ltac:(lia) ltac:(lia) Hmax ltac:(naive_solver)) as Hpp.
  cbv zeta in Hpp. rewrite <- Hn in Hpp. destruct (Z.ltb_spec (bytes_length bytes) n); [by rewrite Hpp|].
  pose proof (frame_behind_wire m bytes f rest (mb + l7) ext Hl Hok Hp (Hlf mb) ltac:(subst n; lia)) as Ef.
  change (w_mem (wp_world (header_state s0))) with m in Hpp. fold hl pl in Ef. by rewrite Ef in Hpp.
Qed.

(** The tests a header passed when the parse succeeded. *)
Lemma parse_header_tests bytes rm max out_diag s s' :
  ws_parse_header REF bytes rm max out_diag s = (Ok tt, s') ->
  let first := ld8 (w_mem (wp_world s)) (bytes_ptr bytes) in
  let masked := negb (Z.land (ld8 (w_mem (wp_world s)) (bytes_ptr bytes + 1)) 128 =? 0) in
  Z.land first 112 = 0 /\ sl_ws_opcode_valid (Z.land first 15) = true /\ (rm = true -> masked = true) /\
  (sl_ws_opcode_control (Z.land first 15) = true -> negb (Z.land first 128 =? 0) = true).
Proof.
  intros E first masked. revert E. unfold ws_parse_header, sl_ws_frame_diag.
  unfold mbind at 1, st_bind at 1. unfold gets at 1. cbv zeta. fold first. fold masked.
  destruct (Z.eqb_spec (Z.land first 112) 0) as [H1|]; cbn [negb]; [|by destruct out_diag].
  destruct (sl_ws_opcode_valid (Z.land first 15)); cbn [negb]; [|by destruct out_diag].
  destruct (rm && negb masked) eqn:H3; [by destruct out_diag|].
  destruct (sl_ws_opcode_control (Z.land first 15) && negb (negb (Z.land first 128 =? 0))) eqn:H4;
    [by destruct out_diag|]. intros _. split_and!; [done..| |].
  - intros ->. by destruct masked.
  - intros Hc. rewrite Hc in H4. by destruct (Z.land first 128 =? 0).
Qed.

Lemma unmasked_mask (masked : bool) key bs :
  apply_mask key (unmasked masked key bs) = if masked then bs else apply_mask key bs.
Proof. unfold unmasked. destruct masked; [apply apply_mask_involutive|done]. Qed.

(** The wire form of the frame found behind a header is the input it was read from. *)
Lemma wire_of_frame_behind m bytes (fin masked : bool) op pl hl l7 :
  0 <= pl -> 2 <= hl -> full_header masked hl + pl <= bytes_length bytes ->
  ld8 m (bytes_ptr bytes) = (if fin then 128 else 0) + op ->
  ld8 m (bytes_ptr bytes + 1) = (if masked then 128 else 0) + l7 ->
  (forall mb, length_field mb pl = (mb + l7) :: load_bytes m (bytes_ptr bytes + 2) (hl - 2)) ->
  ws_wire (frame_behind m bytes fin masked op pl hl)
  = load_bytes m (bytes_ptr bytes) (full_header masked hl + pl).
Proof.
  intros Hpl Hhl Hfit B0 B1 Hlf. set (a := bytes_ptr bytes) in *.
  assert (Hlen : length (f_payload (frame_behind m bytes fin masked op pl hl)) = Z.to_nat pl).
  { unfold frame_behind. cbn [f_payload]. unfold unmasked.
    destruct masked; rewrite ?length_apply_mask; unfold load_bytes; by rewrite length_load. }
  assert (Hm : f_masked (frame_behind m bytes fin masked op pl hl) = masked).
  { unfold f_masked, frame_behind. cbn [f_key]. by destruct masked. }
  unfold ws_wire. rewrite Hm, Hlen, Z2Nat.id, Hlf by done. rewrite <- B1.
  unfold frame_behind. cbn [f_fin f_opcode f_key f_payload]. rewrite <- B0. fold a.
  set (key := key_at m masked (a + hl)).
  assert (Hh : load_bytes m a hl = ld8 m a :: ld8 m (a + 1) :: load_bytes m (a + 2) (hl - 2)).
  { rewrite !load_bytes_cons by lia. do 2 f_equal. f_equal; lia. }
  assert (Htail : match (if masked then Some key else None) with
      | Some key0 => key0 ++ apply_mask key0 (unmasked masked key (load_bytes m (a + full_header masked hl) pl))
      | None => unmasked masked key (load_bytes m (a + full_header masked hl) pl) end
      = load_bytes m (a + hl) (full_header masked hl + pl - hl)).
  { unfold full_header. destruct masked; cbv iota.
    - rewrite unmasked_mask. replace (hl + 4 + pl - hl) with (4 + pl) by lia.
      rewrite load_bytes_app by lia. f_equal. f_equal. lia.
    - cbn [unmasked]. f_equal. lia. }
  rewrite Htail. cbn [app]. replace (full_header masked hl + pl) with (hl + (full_header masked hl + pl - hl)) at 2
    by lia. rewrite load_bytes_app, Hh by (unfold full_header; destruct masked; lia). done.
Qed.

Lemma frame_behind_header_ok m bytes (fin masked : bool) op pl hl :
  0 <= pl -> sl_ws_opcode_valid op = true ->
  (sl_ws_opcode_control op = true -> fin = true /\ pl <= 125) ->
  header_ok (frame_behind m bytes fin masked op pl hl) /\
  Z.of_nat (length (f_payload (frame_behind m bytes fin masked op pl hl))) = pl /\
  f_masked (frame_behind m bytes fin masked op pl hl) = masked.
Proof.
  intros Hpl Hop Hctl.
  assert (Hlen : Z.of_nat (length (f_payload (frame_behind m bytes fin masked op pl hl))) = pl).
  { unfold frame_behind. cbn [f_payload]. unfold unmasked.
    destruct masked; rewrite ?length_apply_mask, length_load_bytes by done; done. }
  split_and!; [|done|by destruct masked].
  pose proof (key_at_bytes m masked (bytes_ptr bytes + hl)) as Hk.
  unfold header_ok. rewrite Hlen. unfold frame_behind in *. cbn [f_fin f_opcode f_key f_payload].
  split_and!; [done|done| |].
  - unfold unmasked. destruct masked; [|apply load_is_byte]. apply apply_mask_bytes; [done|apply load_is_byte].
  - destruct masked; [|done]. split; [done|exact Hk].
Qed.

(** C3: the frame parser is sound.  When a parse succeeds, the input starts with
    the wire form of a frame with a legal opcode, legal control-frame shape, a
    payload within the limits, a mask if one is required, a shortest-form length,
    and a legal close or text payload; [consumed] is the length of that form, the
    result holds the frame with its unmasked payload in fresh arena storage, and
    no other memory has changed. *)
Theorem websocket_parse_sound bytes options out_diag s s' :
  parse_input bytes s ->
  sl_websocket_parse_frame REF bytes options REF out_diag s = (Ok tt, s') ->
  exists f rest,
    bytes_val (w_mem (wp_world s)) bytes = ws_wire f ++ rest /\
    header_ok f /\ payload_ok f /\ within_limits options f /\
    ws_parsed f (Z.of_nat (length (ws_wire f))) (wp_world s) s'.
Proof.
  intros Hin. pose proof (proj1 (pi_valid _ _ Hin)) as Hl. rewrite parse_frame_eq by apply Hin.
  destruct (Z.ltb_spec (bytes_length bytes) 2) as [|H2]; [done|].
  set (s0 := reset_state out_diag s). intros E. pose proof (parse_header_tests _ _ _ _ _ _ E) as Ht.
  cbv zeta in Ht. change (w_mem (wp_world s0)) with (w_mem (wp_world s)) in Ht.
  set (m := w_mem (wp_world s)) in *. set (first := ld8 m (bytes_ptr bytes)) in *.
  set (second := ld8 m (bytes_ptr bytes + 1)) in *. destruct Ht as (H112 & Hop & Hrm & Hctl).
  pose proof (first_byte_split first (ld8_range _ _) H112) as B0.
  destruct (second_byte_split second (ld8_range _ _)) as [B1 Hl7].
  set (fin := negb (Z.land first 128 =? 0)) in *. set (masked := negb (Z.land second 128 =? 0)) in *.
  set (op := Z.land first 15) in *. set (l7 := Z.land second 127) in *.
  rewrite (parse_header_eq bytes _ _ out_diag s0 fin masked op l7) in E by done.
  destruct (ws_extended_length bytes l7 out_diag (header_state s0)) as [[[pl hl]|c] s1] eqn:Ex; [|done].
  apply extended_length_sound in Ex as (-> & Hpl & Hhl & Hfit & Hlf); [|done..].
  change (w_mem (wp_world (header_state s0))) with m in Hlf.
  destruct (parse_payload_limits _ _ _ _ _ _ _ _ _ _ _ E) as [Hmax H125].
  assert (Hin' : parse_input bytes (header_state s0)) by (destruct Hin; by split).
  pose proof (parse_payload_exact bytes (options_max options) fin masked op pl hl out_diag (header_state s0)
    Hin' Hpl Hhl Hmax H125) as Hpp. cbv zeta in Hpp. rewrite E in Hpp.
  change (w_mem (wp_world (header_state s0))) with m in Hpp.
  destruct (Z.ltb_spec (bytes_length bytes) (full_header masked hl + pl)) as [|Hall]; [done|].
  set (f := frame_behind m bytes fin masked op pl hl) in *.
  destruct Hpp as [(? & ? & _ & _ & ?)|[(_ & ? & ?)|(Hpok & s2 & [= <-] & Hparsed)]]; [done..|].
  destruct (frame_behind_header_ok m bytes fin masked op pl hl) as (Hhok & Hlen & Hmk);
    [lia|done|intros Hc; split; [by apply Hctl|by apply H125]|]. fold f in Hhok, Hlen, Hmk.
  assert (Hh : 0 <= full_header masked hl) by (unfold full_header; destruct masked; lia).
  assert (Hwire : ws_wire f = load_bytes m (bytes_ptr bytes) (full_header masked hl + pl))
    by (apply (wire_of_frame_behind _ _ _ _ _ _ _ l7); [lia|lia|done..]).
  exists f, (load_bytes m (bytes_ptr bytes + (full_header masked hl + pl))
                        (bytes_length bytes - (full_header masked hl + pl))).
  split_and!; [|done|done| |].
  - rewrite Hwire, <- load_bytes_app by lia. unfold bytes_val. f_equal. lia.
  - unfold within_limits. rewrite Hlen, Hmk. split_and!; [done|lia|done].
  - rewrite Hwire, length_load_bytes by lia. exact Hparsed.
Qed.

(** C4: the frame parser is complete and incremental.  Let the bytes received so
    far be a prefix of a stream that starts with a legal frame.  As long as a byte
    of the frame is missing the answer is OUT_OF_RANGE ("need more"), never a
    protocol error; once the frame is complete the parser answers it, whatever
    follows, unless the arena cannot hold the payload, in which case the answer is
    the arena's status. *)
Theorem websocket_parse_complete bytes options out_diag s f rest :
  parse_input bytes s -> header_ok f -> payload_ok f -> within_limits options f ->
  bytes_val (w_mem (wp_world s)) bytes `prefix_of` ws_wire f ++ rest ->
  let r := sl_websocket_parse_frame REF bytes options REF out_diag s in
  let pl := Z.of_nat (length (f_payload f)) in
  if bytes_length bytes <? Z.of_nat (length (ws_wire f)) then fst r = Err SL_STATUS_OUT_OF_RANGE
  else (exists c w1, pl <> 0 /\ sl_arena_alloc REF pl 1 REF (wp_world s) = (Err c, w1) /\ fst r = Err c) \/
       (exists s', r = (Ok tt, s') /\ ws_parsed f (Z.of_nat (length (ws_wire f))) (wp_world s) s').
Proof.
  intros Hin Hok Hpok Hlim Hp r pl.
  pose proof (parse_stream bytes options out_diag s f rest Hin Hok Hlim Hp) as Hs. cbv zeta in Hs.
  fold r in Hs. destruct (Z.ltb_spec (bytes_length bytes) (Z.of_nat (length (ws_wire f)))); [done|].
  destruct Hs as [(c & w1 & Hne & Ea & E)|[(Hno & _)|(_ & s' & E & Hparsed)]]; [|done|].
  - left. exists c, w1. split_and!; [done|done|by rewrite E].
  - right. by exists s'.
Qed.
End ParserSpec.

Section RoundTrip.
Context {BC : BuildConfig} {K : Type} {SO : SinkOps K} {SL : SinkLaws K}.

End RoundTrip.

Module Demo.
#[local] Existing Instance assert_build.

(** A masked text frame "hé" ([104; 195; 169], key 1 2 3 4) written into an empty
    arena builder and received at address 3000. *)
Definition payload : SlBytes := {| bytes_ptr := 1000; bytes_length := 3 |}.
Definition sender_world : World :=
  {| w_mem := store (store (fun _ => 0) 1000 [104; 195; 169]) 2000 [1; 2; 3; 4];
     w_arena := {| ar_base := 4096; ar_capacity := 64; ar_offset := 32; ar_high_water := 32;
                   ar_generation := 1 |} |}.
Definition builder0 : SlByteBuilder :=
  {| bb_data := 4096; bb_length := 0; bb_capacity := 32; bb_max_capacity := 64; bb_grow_count := 0;
     bb_copied_bytes := 0; bb_appended_bytes := 0; bb_failed_reserve_count := 0; bb_arena := REF;
     bb_storage := SL_BUILDER_STORAGE_ARENA; bb_small := 100 |}.
Definition sender : WsWriteSys BuilderSys :=
  {| ww_sink := {| bs_world := sender_world; bs_builder := builder0 |}; ww_diag := None |}.
Definition options : SlWebSocketFrameWriteOptions :=
  {| wo_fin := true; wo_mask := true; wo_opcode := SL_WEBSOCKET_OPCODE_TEXT; wo_payload := payload;
     wo_mask_key := 2000 |}.
Definition frame : ws_frame :=
  {| f_fin := true; f_opcode := 1; f_key := Some [1; 2; 3; 4]; f_payload := [104; 195; 169] |}.

Definition received : SlBytes := {| bytes_ptr := 3000; bytes_length := 9 |}.
Definition receiver : WsParseSys :=
  {| wp_world := {| w_mem := store (fun _ => 7) 3000 [129; 131; 1; 2; 3; 4; 105; 193; 170];
                    w_arena := {| ar_base := 8192; ar_capacity := 64; ar_offset := 0; ar_high_water := 0;
                                  ar_generation := 1 |} |};
     wp_result := zero_parse_result; wp_diag := None |}.
Definition parse_options : option SlWebSocketFrameParseOptions :=
  Some {| require_mask := true; max_payload_bytes := 16 |}.

Lemma sender_inv : sink_inv (ww_sink sender).
Proof.
  split.
  - cbn; size_lia.
  - done.
  - change (sl_byte_builder_data (bs_builder (ww_sink sender))) with 4096; cbn; size_lia.
  - intros _. split; [done|]. unfold arena_wf; cbn; size_lia.
  - intros _. change (sl_byte_builder_data (bs_builder (ww_sink sender))) with 4096.
    unfold outside_free, disjoint_ranges. cbn. lia.
Qed.

Lemma sender_readable : options_readable (ww_sink sender) options.
Proof.
  split; [|intros _]; (split; [split; cbn; lia|split_and!; cbn; size_lia|]);
    (split; [intros _; unfold outside_free, disjoint_ranges; cbn; lia|]);
    change (sl_byte_builder_data (bs_builder (ww_sink sender))) with 4096;
    unfold disjoint_ranges; cbn; lia.
Qed.

Lemma receiver_input : parse_input received receiver.
Proof.
  split.
  - split; cbn; lia.
  - split_and!; cbn; size_lia.
  - unfold outside_free, disjoint_ranges; cbn; lia.
  - unfold arena_wf; cbn; size_lia.
Qed.

Lemma text_ok : utf8_text [104; 195; 169].
Proof.
  exists [104; 233]. split; [|reflexivity].
  repeat first [apply List.Forall_nil|apply List.Forall_cons]; unfold scalar; lia.
Qed.

Lemma frame_payload_ok : payload_ok frame.
Proof. split; [done|]. intros _ _. apply text_ok. Qed.

Lemma frame_limits : within_limits parse_options frame.
Proof. split_and!; cbn; [lia|lia|done]. Qed.

Lemma frame_header_ok : header_ok frame.
Proof.
  split_and!; [reflexivity|discriminate| |split; [reflexivity|]];
    repeat first [apply List.Forall_nil|apply List.Forall_cons]; unfold is_byte; lia.
Qed.

Lemma websocket_utf8_exact_witness : sl_ws_utf8_valid (w_mem sender_world) payload = true.
Proof.
  apply (websocket_utf8_exact (w_mem sender_world) payload).
  - split; cbn; lia.
  - change (bytes_val (w_mem sender_world) payload) with [104; 195; 169]. apply text_ok.
Defined.

Lemma websocket_write_exact_witness :
  match sl_websocket_write_frame REF (Some options) REF sender with
  | (Ok _, s') => sink_step [129; 131; 1; 2; 3; 4; 105; 193; 170] (ww_sink sender) (ww_sink s')
  | (Err _, _) => False
  end.
Proof.
  pose proof (websocket_write_exact options REF sender sender_inv sender_readable) as H. cbv zeta in H.
  destruct (sl_websocket_write_frame REF (Some options) REF sender) as [[[]|c] s'] eqn:E.
  - exact (proj2 H).
  - vm_compute in E. discriminate E.
Defined.

Lemma websocket_parse_sound_witness :
  exists f rest, bytes_val (w_mem (wp_world receiver)) received = ws_wire f ++ rest /\ header_ok f.
Proof.
  destruct (websocket_parse_sound received parse_options REF receiver
    (snd (sl_websocket_parse_frame REF received parse_options REF REF receiver)) receiver_input)
    as (f & rest & E & Hh & _).
  - vm_compute. reflexivity.
  - exists f, rest. split; [exact E|exact Hh].
Defined.

(** Six of nine bytes received: more are needed. *)
Lemma websocket_parse_complete_witness :
  fst (sl_websocket_parse_frame REF {| bytes_ptr := 3000; bytes_length := 6 |} parse_options REF REF receiver)
  = Err SL_STATUS_OUT_OF_RANGE.
Proof.
  apply (websocket_parse_complete {| bytes_ptr := 3000; bytes_length := 6 |} parse_options REF receiver
    frame []).
  - split; [split; cbn; lia|split_and!; cbn; size_lia|unfold outside_free, disjoint_ranges; cbn; lia|].
    unfold arena_wf; cbn; size_lia.
  - apply frame_header_ok.
  - apply frame_payload_ok.
  - apply frame_limits.
  - exists [105; 193; 170]. reflexivity.
Defined.

End Demo.
