(* ===== verification/Diag.v ===== *)
(** The diagnostic builder (src/core/diagnostics.c, the part that creates
    diagnostics) and string literals.

    A diagnostic copies its message and hints into an arena.  Spans and related
    notes keep their initial "unknown" values here: the callers modelled do not
    set them. *)

From stdpp Require Import strings.
From Stdlib Require Import Strings.Ascii.
From S2P Require Import Prelude Memory Status Arena Str Container.

Open Scope Z_scope.

Inductive SlDiagSeverity :=
| SL_DIAG_SEVERITY_NOTE
| SL_DIAG_SEVERITY_WARNING
| SL_DIAG_SEVERITY_ERROR
| SL_DIAG_SEVERITY_FATAL.

(** Codes are their numbers in the enumeration. *)
Definition SL_DIAG_NONE : Z := 0.
Definition SL_DIAG_INVALID_ARGUMENT : Z := 1.
Definition SL_DIAG_PERMISSION_DENIED : Z := 6.
Definition SL_DIAG_INVALID_ROUTE_PATTERN : Z := 15.
Definition SL_DIAG_DUPLICATE_ROUTE_PARAM : Z := 16.
Definition SL_DIAG_MAX_HINTS : Z := 4.

(** [hint_count] is the length of [dg_hints]; the source span and the related notes, which
    only rendering reads, are left out. *)
Record SlDiag := {
  dg_severity : SlDiagSeverity;
  dg_code : Z;
  dg_message : SlStr;
  dg_hints : list SlStr;
}.

Definition zero_diag : SlDiag :=
  {| dg_severity := SL_DIAG_SEVERITY_NOTE; dg_code := SL_DIAG_NONE; dg_message := sl_str_empty; dg_hints := [] |}.

Definition sl_diag_str_is_valid (str : SlStr) : bool := (str_length str =? 0) || negb (str_ptr str =? 0).

(** * Literals

    A string literal of the program is an object in read-only memory: [rodata]
    gives its address. *)

Definition string_bytes (s : string) : list Z := map (fun c => Z.of_N (N_of_ascii c)) (String.list_ascii_of_string s).

Definition string_size (s : string) : Z := Z.of_nat (String.length s).

Class ReadOnlyData := { rodata : string -> Z }.

Section Builder.
Context {BC : BuildConfig} {RO : ReadOnlyData}.

Definition literal (s : string) : SlStr := sl_str_from_parts (rodata s) (string_size s).

Definition sl_diag_copy_str (arena : nullable) (src : SlStr) (out : nullable) : ST World SlStr :=
  return_if is_null arena || is_null out || negb (sl_diag_str_is_valid src)
    with SL_STATUS_INVALID_ARGUMENT ;;
  if str_length src =? 0 then mret sl_str_empty else
  copied ← sl_arena_array_copy arena (str_ptr src) (str_length src) 1 1 REF ;
  mret (sl_str_from_parts (slice_ptr copied) (str_length src)).

(** The builder is the diagnostic under construction. *)
Definition sl_diag_builder_init (arena : nullable) (severity : SlDiagSeverity) (code : Z) (message : SlStr)
    : ST World SlDiag :=
  copied_message ← sl_diag_copy_str arena message REF ;
  mret {| dg_severity := severity; dg_code := code; dg_message := copied_message; dg_hints := [] |}.

Definition sl_diag_builder_add_hint (arena : nullable) (builder : SlDiag) (hint : SlStr) : ST World SlDiag :=
  return_if is_null arena with SL_STATUS_INVALID_ARGUMENT ;;
  return_if SL_DIAG_MAX_HINTS <=? Z.of_nat (length (dg_hints builder)) with SL_STATUS_OUT_OF_RANGE ;;
  copied_hint ← sl_diag_copy_str arena hint REF ;
  mret {| dg_severity := dg_severity builder; dg_code := dg_code builder; dg_message := dg_message builder;
          dg_hints := dg_hints builder ++ [copied_hint] |}.

Definition sl_diag_builder_add_hint_owned (arena : nullable) (builder : SlDiag) (hint : SlStr) : result SlDiag :=
  error_if is_null arena || negb (sl_diag_str_is_valid hint) with SL_STATUS_INVALID_ARGUMENT ;;
  error_if SL_DIAG_MAX_HINTS <=? Z.of_nat (length (dg_hints builder)) with SL_STATUS_OUT_OF_RANGE ;;
  Ok {| dg_severity := dg_severity builder; dg_code := dg_code builder; dg_message := dg_message builder;
        dg_hints := dg_hints builder ++ [hint] |}.

Definition sl_diag_builder_finish (arena out : nullable) (builder : SlDiag) : result SlDiag :=
  error_if is_null arena || is_null out with SL_STATUS_INVALID_ARGUMENT ;;
  Ok builder.
End Builder.
