(* ===== verification/RouteMatch.v ===== *)
(** Route patterns: data and matching (src/core/route.c, the matcher half).

    A parsed pattern is an array of segments in an arena and a match an array of
    captured parameters in another; the structures of such an array are kept as a
    list, their views point into the flat memory.  The specification splits a path
    at its slashes and asks each part to be accepted by its segment. *)

From Stdlib Require Import Sorting.Sorted.
From S2P Require Import Prelude Memory Status Arena Str Container.

(** * Data *)

Definition SL_ROUTE_MAX_SEGMENTS : Z := 64.
Definition SL_ROUTE_MAX_PARAMS : Z := 32.

Inductive SlRouteSegmentKind :=
| SL_ROUTE_SEGMENT_STATIC
| SL_ROUTE_SEGMENT_PARAM
| SL_ROUTE_SEGMENT_INVALID.

Inductive SlRouteParamKind :=
| SL_ROUTE_PARAM_STRING
| SL_ROUTE_PARAM_INT
| SL_ROUTE_PARAM_INVALID
| SL_ROUTE_PARAM_UUID
| SL_ROUTE_PARAM_ALPHA
| SL_ROUTE_PARAM_FLOAT.

#[export] Instance SlRouteSegmentKind_eq_dec : EqDecision SlRouteSegmentKind.
Proof. solve_decision. Defined.
#[export] Instance SlRouteParamKind_eq_dec : EqDecision SlRouteParamKind.
Proof. solve_decision. Defined.

Record SlRouteSegment := {
  seg_text : SlStr;
  seg_param_name : SlStr;
  seg_kind : SlRouteSegmentKind;
  seg_param_kind : SlRouteParamKind;
}.

(** [pat_segments] is [None] for a NULL array. *)
Record SlRoutePattern := {
  pat_source : SlStr;
  pat_segments : option (list SlRouteSegment);
  pat_segment_count : Z;
  pat_param_count : Z;
}.

Record SlRouteParam := {
  rp_name : SlStr;
  rp_value : SlStr;
  rp_kind : SlRouteParamKind;
}.

(** [mt_params] is the address of the array in the arena with its contents. *)
Record SlRouteMatch := {
  mt_matched : bool;
  mt_params : option (Z * list SlRouteParam);
  mt_param_count : Z;
}.

Definition no_match : SlRouteMatch := {| mt_matched := false; mt_params := None; mt_param_count := 0 |}.

(** [sizeof(SlRouteParam)]: two views and an enum, eight-byte aligned. *)
Definition route_param_size : Z := 40.
Definition route_param_alignment : Z := 8.

(** * Bytes *)

Definition slash : Z := 47.
Definition question : Z := 63.

Definition sl_route_str_valid (str : SlStr) : bool := (str_length str =? 0) || negb (str_ptr str =? 0).

Fixpoint contains_byte_loop (m : mem) (ptr byte : Z) (n : nat) : bool :=
  match n with
  | O => false
  | S n => if ld8 m ptr =? byte then true else contains_byte_loop m (ptr + 1) byte n
  end.

Definition sl_route_contains_byte (m : mem) (str : SlStr) (byte : Z) : bool :=
  if negb (sl_route_str_valid str) then false else
  contains_byte_loop m (str_ptr str) byte (Z.to_nat (str_length str)).

Definition sl_route_is_name_start (byte : Z) : bool :=
  ((65 <=? byte) && (byte <=? 90)) || ((97 <=? byte) && (byte <=? 122)) || (byte =? 95).

Definition sl_route_is_name_continue (byte : Z) : bool :=
  sl_route_is_name_start byte || ((48 <=? byte) && (byte <=? 57)).

(** [for (...) if (!ok(ptr[index])) return false;] *)
Fixpoint all_bytes_loop (ok : Z -> bool) (m : mem) (ptr : Z) (n : nat) : bool :=
  match n with
  | O => true
  | S n => if negb (ok (ld8 m ptr)) then false else all_bytes_loop ok m (ptr + 1) n
  end.

Definition sl_route_param_name_valid (m : mem) (name : SlStr) : bool :=
  if (str_length name =? 0) || (str_ptr name =? 0) || negb (sl_route_is_name_start (ld8 m (str_ptr name)))
  then false
  else all_bytes_loop sl_route_is_name_continue m (str_ptr name + 1) (Z.to_nat (str_length name - 1)).

(** * Parameter values *)

Definition sl_route_segment_is_ascii_digits (m : mem) (segment : SlStr) : bool :=
  if (str_length segment =? 0) || (str_ptr segment =? 0) then false else
  all_bytes_loop (fun b => negb ((b <? 48) || (57 <? b))) m (str_ptr segment) (Z.to_nat (str_length segment)).

Definition sl_route_ascii_hex (byte : Z) : bool :=
  ((48 <=? byte) && (byte <=? 57)) || ((65 <=? byte) && (byte <=? 70)) || ((97 <=? byte) && (byte <=? 102)).

(** The UUID loop: [dashes] are the positions not reached yet. *)
Fixpoint uuid_loop (m : mem) (ptr : Z) (index : Z) (dashes : list Z) (n : nat) : bool :=
  match n with
  | O => true
  | S n =>
      match dashes with
      | d :: rest =>
          if index =? d then
            if negb (ld8 m (ptr + index) =? 45) then false else uuid_loop m ptr (index + 1) rest n
          else if negb (sl_route_ascii_hex (ld8 m (ptr + index))) then false
          else uuid_loop m ptr (index + 1) dashes n
      | [] =>
          if negb (sl_route_ascii_hex (ld8 m (ptr + index))) then false
          else uuid_loop m ptr (index + 1) dashes n
      end
  end.

Definition sl_route_segment_is_uuid (m : mem) (segment : SlStr) : bool :=
  if negb (str_length segment =? 36) || (str_ptr segment =? 0) then false else
  uuid_loop m (str_ptr segment) 0 [8; 13; 18; 23] (Z.to_nat (str_length segment)).

Definition is_alpha (byte : Z) : bool :=
  ((65 <=? byte) && (byte <=? 90)) || ((97 <=? byte) && (byte <=? 122)).

Definition sl_route_segment_is_alpha (m : mem) (segment : SlStr) : bool :=
  if (str_length segment =? 0) || (str_ptr segment =? 0) then false else
  all_bytes_loop is_alpha m (str_ptr segment) (Z.to_nat (str_length segment)).

Fixpoint float_loop (m : mem) (ptr : Z) (saw_digit saw_dot : bool) (n : nat) : bool :=
  match n with
  | O => saw_digit && saw_dot
  | S n =>
      let byte := ld8 m ptr in
      if (48 <=? byte) && (byte <=? 57) then float_loop m (ptr + 1) true saw_dot n
      else if (byte =? 46) && negb saw_dot then float_loop m (ptr + 1) saw_digit true n
      else false
  end.

Definition sl_route_segment_is_float (m : mem) (segment : SlStr) : bool :=
  if (str_length segment =? 0) || (str_ptr segment =? 0) then false else
  float_loop m (str_ptr segment) false false (Z.to_nat (str_length segment)).

Definition sl_route_match_param (m : mem) (kind : SlRouteParamKind) (segment : SlStr) : bool :=
  if (str_length segment =? 0) || (str_ptr segment =? 0) then false else
  match kind with
  | SL_ROUTE_PARAM_INT => sl_route_segment_is_ascii_digits m segment
  | SL_ROUTE_PARAM_UUID => sl_route_segment_is_uuid m segment
  | SL_ROUTE_PARAM_ALPHA => sl_route_segment_is_alpha m segment
  | SL_ROUTE_PARAM_FLOAT => sl_route_segment_is_float m segment
  | SL_ROUTE_PARAM_STRING => true
  | SL_ROUTE_PARAM_INVALID => false
  end.

(** * Validation of a pattern before matching *)

Definition sl_route_segment_kind_known (kind : SlRouteSegmentKind) : bool :=
  bool_decide (kind = SL_ROUTE_SEGMENT_STATIC) || bool_decide (kind = SL_ROUTE_SEGMENT_PARAM).

Definition sl_route_param_kind_known (kind : SlRouteParamKind) : bool :=
  bool_decide (kind = SL_ROUTE_PARAM_STRING) || bool_decide (kind = SL_ROUTE_PARAM_INT)
  || bool_decide (kind = SL_ROUTE_PARAM_UUID) || bool_decide (kind = SL_ROUTE_PARAM_ALPHA)
  || bool_decide (kind = SL_ROUTE_PARAM_FLOAT).

(** The loop over the segments, counting parameters. *)
Fixpoint validate_segments (m : mem) (param_count actual : Z) (segments : list SlRouteSegment) : result Z :=
  match segments with
  | [] => Ok actual
  | segment :: segments =>
      error_if negb (sl_route_segment_kind_known (seg_kind segment)) with SL_STATUS_INVALID_ARGUMENT ;;
      if bool_decide (seg_kind segment = SL_ROUTE_SEGMENT_STATIC) then
        error_if negb (sl_route_str_valid (seg_text segment)) || (str_length (seg_text segment) =? 0)
          with SL_STATUS_INVALID_ARGUMENT ;;
        validate_segments m param_count actual segments
      else
        error_if negb (sl_route_param_kind_known (seg_param_kind segment))
                 || negb (sl_route_param_name_valid m (seg_param_name segment))
          with SL_STATUS_INVALID_ARGUMENT ;;
        let actual := actual + 1 in
        error_if (param_count <? actual) || (SL_ROUTE_MAX_PARAMS <? actual) with SL_STATUS_INVALID_ARGUMENT ;;
        validate_segments m param_count actual segments
  end.

(** [source == "/"] is a comparison with a one-byte literal. *)
Definition is_root_source (m : mem) (source : SlStr) : bool :=
  (str_length source =? 1) && (ld8 m (str_ptr source) =? slash).

Definition sl_route_pattern_validate_for_match (m : mem) (pattern : SlRoutePattern) : result Z :=
  error_if negb (sl_route_str_valid (pat_source pattern)) || (str_length (pat_source pattern) =? 0)
           || negb (ld8 m (str_ptr (pat_source pattern)) =? slash)
           || sl_route_contains_byte m (pat_source pattern) question
    with SL_STATUS_INVALID_ARGUMENT ;;
  error_if (SL_ROUTE_MAX_SEGMENTS <? pat_segment_count pattern)
           || (SL_ROUTE_MAX_PARAMS <? pat_param_count pattern)
    with SL_STATUS_INVALID_ARGUMENT ;;
  if pat_segment_count pattern =? 0 then
    error_if negb (pat_param_count pattern =? 0) || negb (is_root_source m (pat_source pattern))
      with SL_STATUS_INVALID_ARGUMENT ;;
    Ok 0
  else
  match pat_segments pattern with
  | None => Err SL_STATUS_INVALID_ARGUMENT
  | Some segments =>
      validate_segments m (pat_param_count pattern) 0 (take (Z.to_nat (pat_segment_count pattern)) segments)
  end.

(** * Matching *)

(** The captures of a match under way: the local array and [param_index]. *)
Record Captures := { cap_params : list SlRouteParam; cap_index : Z }.

(** One pattern segment against one path segment: whether it matched, and the
    captures after it. *)
Definition sl_route_match_one_segment (m : mem) (pattern_segment : SlRouteSegment) (path_segment : SlStr)
    (c : Captures) : bool * Captures :=
  if str_length path_segment =? 0 then (false, c) else
  match seg_kind pattern_segment with
  | SL_ROUTE_SEGMENT_STATIC => (sl_str_equal m (seg_text pattern_segment) path_segment, c)
  | _ =>
      if negb (sl_route_match_param m (seg_param_kind pattern_segment) path_segment) then (false, c) else
      (true, {| cap_params := <[Z.to_nat (cap_index c) :=
                                  {| rp_name := seg_param_name pattern_segment; rp_value := path_segment;
                                     rp_kind := seg_param_kind pattern_segment |}]> (cap_params c);
                cap_index := cap_index c + 1 |})
  end.

(** [while (end < length && ptr[end] != '/') end++;], [n] bytes left. *)
Fixpoint segment_end_loop (m : mem) (ptr segment_end : Z) (n : nat) : Z :=
  match n with
  | O => segment_end
  | S n => if ld8 m (ptr + segment_end) =? slash then segment_end
           else segment_end_loop m ptr (segment_end + 1) n
  end.

(** The loop over the pattern's segments: whether all matched, the position in the
    path and the captures at its end. *)
Fixpoint match_segments_loop (m : mem) (path : SlStr) (segments : list SlRouteSegment) (path_pos : Z)
    (c : Captures) : option (Z * Captures) :=
  match segments with
  | [] => Some (path_pos, c)
  | pattern_segment :: segments =>
      if str_length path <=? path_pos then None else
      let segment_end := segment_end_loop m (str_ptr path) path_pos (Z.to_nat (str_length path - path_pos)) in
      let path_segment := sl_str_from_parts (str_ptr path + path_pos) (segment_end - path_pos) in
      match sl_route_match_one_segment m pattern_segment path_segment c with
      | (false, _) => None
      | (true, c) =>
          let path_pos := if segment_end =? str_length path then segment_end else segment_end + 1 in
          match_segments_loop m path segments path_pos c
      end
  end.

(** The captures of a match, or [None] for no match.  [uninit] is the content of
    the local array before the match. *)
Definition sl_route_match_segments (m : mem) (pattern : SlRoutePattern) (path : SlStr)
    (uninit : list SlRouteParam) : option Captures :=
  match match_segments_loop m path
          (take (Z.to_nat (pat_segment_count pattern)) (default [] (pat_segments pattern))) 1
          {| cap_params := uninit; cap_index := 0 |} with
  | None => None
  | Some (path_pos, c) =>
      if (path_pos =? str_length path) && negb (ld8 m (str_ptr path + (str_length path - 1)) =? slash)
      then Some c else None
  end.

Section Match.
Context {BC : BuildConfig}.

(** The arena copy of the captures; [captures] is the address of the local array. *)
Definition sl_route_copy_match_params (arena : nullable) (captures : Z) (c : Captures)
    : ST World (option (Z * list SlRouteParam)) :=
  return_if is_null arena with SL_STATUS_INVALID_ARGUMENT ;;
  if cap_index c =? 0 then mret None else
  param_slice ← sl_arena_array_copy arena captures (cap_index c) route_param_size route_param_alignment REF ;
  mret (Some (slice_ptr param_slice, take (Z.to_nat (cap_index c)) (cap_params c))).

Definition sl_route_pattern_match (arena : nullable) (pattern : option SlRoutePattern) (path : SlStr)
    (out_match : nullable) (captures : Z) (uninit : list SlRouteParam) : ST World SlRouteMatch :=
  return_if is_null out_match with SL_STATUS_INVALID_ARGUMENT ;;
  m ← gets w_mem ;
  match pattern with
  | None => fail SL_STATUS_INVALID_ARGUMENT
  | Some pattern =>
      return_if is_null arena || negb (sl_route_str_valid path) || (str_length path =? 0)
                || negb (ld8 m (str_ptr path) =? slash) || sl_route_contains_byte m path question
        with SL_STATUS_INVALID_ARGUMENT ;;
      _ ← lift (sl_route_pattern_validate_for_match m pattern) ;
      if pat_segment_count pattern =? 0
      then mret {| mt_matched := str_length path =? 1; mt_params := None; mt_param_count := 0 |} else
      match sl_route_match_segments m pattern path uninit with
      | None => mret no_match
      | Some c =>
          copied_params ← sl_route_copy_match_params arena captures c ;
          mret {| mt_matched := true; mt_params := copied_params; mt_param_count := cap_index c |}
      end
  end.
End Match.

(** * Specification *)

(** The parts of a path between its slashes. *)
Fixpoint split_slash (bs : list Z) : list (list Z) :=
  match bs with
  | [] => [[]]
  | b :: bs =>
      if b =? slash then [] :: split_slash bs else
      match split_slash bs with
      | [] => [[b]]
      | p :: ps => (b :: p) :: ps
      end
  end.

Definition is_decimal (b : Z) : Prop := 48 <= b <= 57.
Definition is_hex (b : Z) : Prop := 48 <= b <= 57 \/ 65 <= b <= 70 \/ 97 <= b <= 102.
Definition is_letter (b : Z) : Prop := 65 <= b <= 90 \/ 97 <= b <= 122.

Definition uuid_dash (i : nat) : Prop := i = 8%nat \/ i = 13%nat \/ i = 18%nat \/ i = 23%nat.

(** What a parameter of each kind may capture. *)
Definition param_accepts (kind : SlRouteParamKind) (part : list Z) : Prop :=
  match kind with
  | SL_ROUTE_PARAM_STRING => True
  | SL_ROUTE_PARAM_INT => Forall is_decimal part
  | SL_ROUTE_PARAM_UUID =>
      length part = 36%nat /\
      forall i b, part !! i = Some b -> (uuid_dash i -> b = 45) /\ (~ uuid_dash i -> is_hex b)
  | SL_ROUTE_PARAM_ALPHA => Forall is_letter part
  | SL_ROUTE_PARAM_FLOAT =>
      exists whole fraction, part = whole ++ 46 :: fraction /\
        Forall is_decimal whole /\ Forall is_decimal fraction /\ whole ++ fraction <> []
  | SL_ROUTE_PARAM_INVALID => False
  end.

Definition segment_accepts (m : mem) (segment : SlRouteSegment) (part : list Z) : Prop :=
  part <> [] /\
  match seg_kind segment with
  | SL_ROUTE_SEGMENT_STATIC => part = str_val m (seg_text segment)
  | _ => param_accepts (seg_param_kind segment) part
  end.

(** A pattern against the bytes of a path. *)
Definition route_accepts (m : mem) (segments : list SlRouteSegment) (path : list Z) : Prop :=
  exists rest, path = slash :: rest /\
    match segments with
    | [] => rest = []
    | _ => Forall2 (segment_accepts m) segments (split_slash rest)
    end.

(** * Byte loops *)

Lemma contains_byte_spec m ptr byte n :
  contains_byte_loop m ptr byte n = bool_decide (byte ∈ load m ptr n).
Proof.
  revert ptr. induction n as [|n IH]; intros ptr; cbn [contains_byte_loop load].
  { symmetry. apply bool_decide_eq_false_2. by apply not_elem_of_nil. }
  rewrite IH. destruct (Z.eqb_spec (ld8 m ptr) byte) as [->|Hne].
  - symmetry. apply bool_decide_eq_true_2. by left.
  - apply bool_decide_ext. rewrite elem_of_cons. naive_solver.
Qed.

Lemma all_bytes_spec (ok : Z -> bool) (P : Z -> Prop) m ptr n :
  (forall b, is_byte b -> ok b = true <-> P b) ->
  all_bytes_loop ok m ptr n = true <-> Forall P (load m ptr n).
Proof.
  intros Hok. revert ptr. induction n as [|n IH]; intros ptr; cbn [all_bytes_loop load].
  { split; [constructor|done]. }
  rewrite Forall_cons, <- IH, <- (Hok _ (ld8_range m ptr)). destruct (ok (ld8 m ptr)); cbn; naive_solver.
Qed.

Lemma is_hex_spec b : sl_route_ascii_hex b = true <-> is_hex b.
Proof. unfold sl_route_ascii_hex, is_hex. rewrite !orb_true_iff, !andb_true_iff, !Z.leb_le. tauto. Qed.

Lemma is_letter_spec b : is_alpha b = true <-> is_letter b.
Proof. unfold is_alpha, is_letter. rewrite !orb_true_iff, !andb_true_iff, !Z.leb_le. tauto. Qed.

(** The UUID loop from [index] on, with the dash positions left. *)
Lemma uuid_loop_spec m ptr n : forall (k : nat) dashes,
  (forall i : nat, (k <= i)%nat -> uuid_dash i <-> Z.of_nat i ∈ dashes) ->
  StronglySorted Z.lt dashes -> Forall (fun d => Z.of_nat k <= d) dashes ->
  uuid_loop m ptr (Z.of_nat k) dashes n = true <->
  forall i : nat, (k <= i < k + n)%nat ->
    let b := ld8 m (ptr + Z.of_nat i) in (uuid_dash i -> b = 45) /\ (~ uuid_dash i -> is_hex b).
Proof.
  induction n as [|n IH]; intros k dashes Hd Hs Hk; cbn [uuid_loop].
  { split; [|done]. intros _ i Hi. lia. }
  set (b := ld8 m (ptr + Z.of_nat k)).
  assert (Hhex : forall dashes', (~ uuid_dash k) ->
    (forall i : nat, (S k <= i)%nat -> uuid_dash i <-> Z.of_nat i ∈ dashes') ->
    StronglySorted Z.lt dashes' -> Forall (fun d => Z.of_nat (S k) <= d) dashes' ->
    (if negb (sl_route_ascii_hex b) then false else uuid_loop m ptr (Z.of_nat k + 1) dashes' n) = true <->
    forall i : nat, (k <= i < k + S n)%nat ->
      let b := ld8 m (ptr + Z.of_nat i) in (uuid_dash i -> b = 45) /\ (~ uuid_dash i -> is_hex b)).
  { intros ds Hnd Hd' Hs' Hk'. replace (Z.of_nat k + 1) with (Z.of_nat (S k)) by lia. split.
    - destruct (sl_route_ascii_hex b) eqn:Hh; cbn [negb]; [|done]. intros Hl. pose proof (proj1 (IH (S k) ds Hd' Hs' Hk') Hl) as Hl'.
      intros i Hi. destruct (decide (i = k)) as [->|]; [split; [done|]; intros _; by apply is_hex_spec|].
      apply Hl'. lia.
    - intros H. assert (Hb : is_hex b) by (apply (H k); [lia|done]).
      apply is_hex_spec in Hb. rewrite Hb. cbn [negb]. apply (proj2 (IH (S k) ds Hd' Hs' Hk')).
      intros i Hi. apply H. lia. }
  destruct dashes as [|d dashes].
  - apply Hhex; [intros Hu%(Hd k); [by apply not_elem_of_nil in Hu|lia]| |done|constructor].
    intros i Hi. apply Hd. lia.
  - apply StronglySorted_inv in Hs as [Hs Hlt]. apply Forall_cons in Hk as [Hkd Hk].
    destruct (Z.eqb_spec (Z.of_nat k) d) as [<-|Hne].
    + assert (Hu : uuid_dash k) by (apply Hd; [lia|by left]).
      assert (Hd' : forall i : nat, (S k <= i)%nat -> uuid_dash i <-> Z.of_nat i ∈ dashes).
      { intros i Hi. rewrite Hd by lia. rewrite elem_of_cons. split; [|by right]. intros [?|?]; [lia|done]. }
      assert (Hk' : Forall (fun d => Z.of_nat (S k) <= d) dashes).
      { eapply Forall_impl; [exact Hlt|]. cbn. intros. lia. }
      replace (Z.of_nat k + 1) with (Z.of_nat (S k)) by lia. fold b. split.
      * destruct (Z.eqb_spec b 45); cbn [negb]; [|done]. intros Hl. pose proof (proj1 (IH (S k) dashes Hd' Hs Hk') Hl) as Hl'.
        intros i Hi. destruct (decide (i = k)) as [->|]; [by split|]. apply Hl'. lia.
      * intros H. assert (b = 45) as -> by (apply (H k); [lia|done]). cbn [negb Z.eqb Pos.eqb].
        apply (proj2 (IH (S k) dashes Hd' Hs Hk')). intros i Hi. apply H. lia.
    + apply Hhex.
      * intros Hu%(Hd k); [|lia]. apply elem_of_cons in Hu as [?|Hu]; [done|].
        rewrite Forall_forall in Hlt. apply Hlt in Hu. lia.
      * intros i Hi. apply Hd. lia.
      * by constructor.
      * constructor; [lia|]. eapply Forall_impl; [exact Hlt|]. cbn. intros. lia.
Qed.

Lemma decimal_test b : (48 <=? b) && (b <=? 57) = true <-> is_decimal b.
Proof. unfold is_decimal. rewrite andb_true_iff, !Z.leb_le. done. Qed.

Lemma float_loop_fraction m ptr (saw_digit : bool) n :
  float_loop m ptr saw_digit true n = true <->
  Forall is_decimal (load m ptr n) /\ (saw_digit = true \/ load m ptr n <> []).
Proof.
  revert ptr saw_digit. induction n as [|n IH]; intros ptr sd; cbn [float_loop load].
  { rewrite andb_true_r. naive_solver. }
  rewrite Forall_cons, <- (decimal_test (ld8 m ptr)).
  destruct ((48 <=? ld8 m ptr) && (ld8 m ptr <=? 57)); [rewrite IH; naive_solver|].
  rewrite andb_false_r. naive_solver.
Qed.

Lemma float_loop_whole m ptr (saw_digit : bool) n :
  float_loop m ptr saw_digit false n = true <->
  exists whole fraction, load m ptr n = whole ++ 46 :: fraction /\
    Forall is_decimal whole /\ Forall is_decimal fraction /\ (saw_digit = true \/ whole ++ fraction <> []).
Proof.
  revert ptr saw_digit. induction n as [|n IH]; intros ptr sd; cbn [float_loop load].
  { rewrite andb_false_r. split; [done|]. intros ([|] & ? & ? & _); done. }
  destruct ((48 <=? ld8 m ptr) && (ld8 m ptr <=? 57)) eqn:Hd.
  - apply decimal_test in Hd. rewrite IH. split.
    + intros (w & f & E & Hw & Hf & _). exists (ld8 m ptr :: w), f. rewrite E.
      split_and!; [done|by constructor|done|by right].
    + intros ([|x w] & f & E & Hw & Hf & _); cbn in E; injection E as E1 E2.
      { unfold is_decimal in Hd. lia. }
      apply Forall_cons in Hw as [_ Hw]. exists w, f. split_and!; [done..|by left].
  - assert (Hnd : ~ is_decimal (ld8 m ptr)) by (rewrite <- decimal_test; congruence).
    destruct (Z.eqb_spec (ld8 m ptr) 46) as [E46|Hne]; cbn [andb negb].
    + rewrite float_loop_fraction, E46. split.
      * intros [Hf Hs]. by exists [], (load m (ptr + 1) n).
      * intros ([|x w] & f & E & Hw & Hf & Hs); cbn in E.
        { injection E as ->. done. }
        injection E as E1 E2. apply Forall_cons in Hw as [Hw _]. subst x. unfold is_decimal in Hw. lia.
    + split; [done|]. intros ([|x w] & f & E & Hw & Hf & _); cbn in E; injection E as E1 E2; [done|].
      apply Forall_cons in Hw as [Hw _]. congruence.
Qed.

(** A parameter matches exactly the non-empty parts its kind accepts. *)
Lemma match_param_spec m kind segment :
  0 <= str_length segment -> str_ptr segment <> 0 ->
  sl_route_match_param m kind segment = true <->
  str_val m segment <> [] /\ param_accepts kind (str_val m segment).
Proof.
  intros Hl Hp. unfold sl_route_match_param, str_val, load_bytes.
  rewrite (proj2 (Z.eqb_neq _ _) Hp), orb_false_r.
  assert (Hne : load m (str_ptr segment) (Z.to_nat (str_length segment)) <> [] <-> str_length segment <> 0).
  { rewrite <- length_zero_iff_nil, length_load. lia. }
  destruct (Z.eqb_spec (str_length segment) 0) as [E0|E0].
  { rewrite Hne. naive_solver. }
  assert (Hyes : load m (str_ptr segment) (Z.to_nat (str_length segment)) <> []) by (by apply Hne).
  destruct kind; cbn [param_accepts].
  - tauto.
  - unfold sl_route_segment_is_ascii_digits. rewrite (proj2 (Z.eqb_neq _ _) Hp), (proj2 (Z.eqb_neq _ _) E0).
    cbn [orb]. rewrite (all_bytes_spec _ is_decimal); [tauto|].
    intros b _. unfold is_decimal. rewrite negb_true_iff, orb_false_iff, !Z.ltb_ge. done.
  - naive_solver.
  - unfold sl_route_segment_is_uuid. rewrite (proj2 (Z.eqb_neq _ _) Hp), orb_false_r, length_load.
    destruct (Z.eqb_spec (str_length segment) 36) as [E36|]; cbn [negb]; [|naive_solver lia].
    rewrite E36. change (Z.to_nat 36) with 36%nat. change 0 with (Z.of_nat 0).
    rewrite uuid_loop_spec.
    + rewrite E36 in Hyes. split.
      * intros H. split_and!; [done|done|]. intros i b Hi. pose proof (lookup_lt_Some _ _ _ Hi) as Hlt.
        rewrite length_load in Hlt. rewrite load_lookup in Hi by done. injection Hi as <-. apply H. lia.
      * intros (_ & _ & H) i Hi. apply H. rewrite load_lookup by lia. done.
    + intros i _. unfold uuid_dash. rewrite !elem_of_cons, elem_of_nil. lia.
    + repeat constructor.
    + repeat constructor; lia.
  - unfold sl_route_segment_is_alpha. rewrite (proj2 (Z.eqb_neq _ _) Hp), (proj2 (Z.eqb_neq _ _) E0).
    cbn [orb]. rewrite (all_bytes_spec _ is_letter); [tauto|]. intros b _. apply is_letter_spec.
  - unfold sl_route_segment_is_float. rewrite (proj2 (Z.eqb_neq _ _) Hp), (proj2 (Z.eqb_neq _ _) E0).
    cbn [orb]. rewrite float_loop_whole. naive_solver.
Qed.

(** * Splitting *)

Lemma split_slash_none p : slash ∉ p -> split_slash p = [p].
Proof.
  induction p as [|b p IH]; intros Hn; [done|]. cbn [split_slash].
  apply not_elem_of_cons in Hn as [Hb Hn]. destruct (Z.eqb_spec b slash); [congruence|]. by rewrite IH.
Qed.

Lemma split_slash_first p r : slash ∉ p -> split_slash (p ++ slash :: r) = p :: split_slash r.
Proof.
  induction p as [|b p IH]; intros Hn; [done|]. cbn [split_slash app].
  apply not_elem_of_cons in Hn as [Hb Hn]. destruct (Z.eqb_spec b slash); [congruence|]. by rewrite IH.
Qed.

Lemma split_slash_cons r : exists p ps, split_slash r = p :: ps.
Proof.
  destruct r as [|b r]; cbn [split_slash]; [by eexists _, _|]. destruct (b =? slash); [by eexists _, _|].
  destruct (split_slash r); by eexists _, _.
Qed.

Lemma segment_end_spec m ptr pos n :
  let e := segment_end_loop m ptr pos n in
  pos <= e <= pos + Z.of_nat n /\ (slash ∉ load_bytes m (ptr + pos) (e - pos)) /\
  (e = pos + Z.of_nat n \/ ld8 m (ptr + e) = slash).
Proof.
  revert pos. induction n as [|n IH]; intros pos; cbn [segment_end_loop].
  { rewrite Z.sub_diag. split_and!; [lia..|by apply not_elem_of_nil|left; lia]. }
  destruct (Z.eqb_spec (ld8 m (ptr + pos)) slash) as [E|Hne].
  { rewrite Z.sub_diag. split_and!; [lia..|by apply not_elem_of_nil|by right]. }
  destruct (IH (pos + 1)) as (Hr & Hn & He). set (e := segment_end_loop m ptr (pos + 1) n) in *.
  split_and!; [lia..| |destruct He; [left; lia|by right]].
  rewrite load_bytes_cons by lia. apply not_elem_of_cons. split; [done|].
  replace (ptr + pos + 1) with (ptr + (pos + 1)) by lia. replace (e - pos - 1) with (e - (pos + 1)) by lia. done.
Qed.

(** * The matching loop *)

(** A view of a part of the path. *)
Definition part_view (m : mem) (path v : SlStr) (part : list Z) : Prop :=
  str_val m v = part /\ str_length v = Z.of_nat (length part) /\
  str_ptr path <= str_ptr v /\ str_ptr v + str_length v <= str_ptr path + str_length path.

(** What is left of the path: nothing, or the bytes behind a slash. *)
Definition rest_at (m : mem) (path : SlStr) (pos : Z) (rest : option (list Z)) : Prop :=
  match rest with
  | None => pos = str_length path /\ ld8 m (str_ptr path + (str_length path - 1)) <> slash
  | Some r => 1 <= pos <= str_length path /\ r = load_bytes m (str_ptr path + pos) (str_length path - pos) /\
              ld8 m (str_ptr path + (pos - 1)) = slash
  end.

Definition parts (rest : option (list Z)) : list (list Z) :=
  match rest with None => [] | Some r => split_slash r end.

(** The captures of the parameters among [segments], with the views they took. *)
Fixpoint captured (segments : list SlRouteSegment) (views : list SlStr) : list SlRouteParam :=
  match segments, views with
  | segment :: segments, v :: views =>
      match seg_kind segment with
      | SL_ROUTE_SEGMENT_STATIC => captured segments views
      | _ => {| rp_name := seg_param_name segment; rp_value := v; rp_kind := seg_param_kind segment |}
             :: captured segments views
      end
  | _, _ => []
  end.

(** Writing captures one after the other into the array. *)
Definition capture (c : Captures) (p : SlRouteParam) : Captures :=
  {| cap_params := <[Z.to_nat (cap_index c) := p]> (cap_params c); cap_index := cap_index c + 1 |}.

Definition text_ok (segment : SlRouteSegment) : Prop :=
  seg_kind segment = SL_ROUTE_SEGMENT_STATIC -> str_valid (seg_text segment).

Lemma match_one_spec m segment v c :
  0 <= str_length v -> str_ptr v <> 0 -> text_ok segment ->
  let r := sl_route_match_one_segment m segment v c in
  (fst r = true <-> segment_accepts m segment (str_val m v)) /\
  (fst r = true -> snd r = foldl capture c (captured [segment] [v])).
Proof.
  intros Hl Hp Ht. unfold sl_route_match_one_segment, segment_accepts. cbv zeta. cbn [captured].
  assert (Hne : str_val m v <> [] <-> str_length v <> 0).
  { unfold str_val, load_bytes. rewrite <- length_zero_iff_nil, length_load. lia. }
  destruct (Z.eqb_spec (str_length v) 0) as [E0|E0].
  { cbn [fst snd]. rewrite Hne. naive_solver. }
  assert (Hparam : forall k, let r := (if negb (sl_route_match_param m (seg_param_kind segment) v) then (false, c)
      else (true, capture c k)) in
    (fst r = true <-> str_val m v <> [] /\ param_accepts (seg_param_kind segment) (str_val m v)) /\
    (fst r = true -> snd r = capture c k)).
  { intros k r. subst r. rewrite <- (match_param_spec m _ v Hl Hp).
    destruct (sl_route_match_param m (seg_param_kind segment) v); by cbn. }
  destruct (seg_kind segment) eqn:Ek; [|apply Hparam|apply Hparam].
  cbn [fst snd foldl]. rewrite sl_str_equal_spec; [|by apply Ht|split; [done|by right]].
  rewrite bool_decide_eq_true. split; [|done]. rewrite Hne. naive_solver.
Qed.

(** The next part of the path: its view, and what is left behind it. *)
Lemma next_part m path pos r :
  rest_at m path pos (Some r) -> pos < str_length path -> 0 < str_ptr path ->
  let e := segment_end_loop m (str_ptr path) pos (Z.to_nat (str_length path - pos)) in
  let v := sl_str_from_parts (str_ptr path + pos) (e - pos) in
  let pos' := if e =? str_length path then e else e + 1 in
  pos <= e <= str_length path /\
  exists rest, parts (Some r) = str_val m v :: parts rest /\ part_view m path v (str_val m v) /\
               (str_val m v <> [] -> rest_at m path pos' rest).
Proof.
  intros (Hpos & Hr & Hsl) Hlt Hp e v pos'.
  destruct (segment_end_spec m (str_ptr path) pos (Z.to_nat (str_length path - pos))) as (He & Hn & Hstop).
  fold e in He, Hn, Hstop. rewrite Z2Nat.id in He, Hstop by lia. split; [lia|].
  assert (Hv : str_val m v = load_bytes m (str_ptr path + pos) (e - pos)) by done.
  assert (Hpv : part_view m path v (str_val m v)).
  { unfold part_view. rewrite Hv, length_load_bytes by lia. subst v. cbn [str_ptr str_length sl_str_from_parts].
    split_and!; [done|lia..]. }
  assert (Hlen : str_val m v <> [] -> pos < e).
  { rewrite Hv. intros Hne. destruct (Z.lt_ge_cases pos e); [done|]. by rewrite load_bytes_nonpos in Hne by lia. }
  destruct (Z.eqb_spec e (str_length path)) as [Ee|Ee].
  - exists None. split_and!; [|done|].
    + cbn [parts]. rewrite Hr, <- Ee. fold (str_val m v). rewrite split_slash_none by done. done.
    + intros Hne. specialize (Hlen Hne). subst pos'. split; [done|]. intros Hs.
      apply Hn. replace (e - pos) with (e - pos - 1 + 1) by lia. rewrite load_bytes_app by lia.
      apply elem_of_app. right. rewrite load_bytes_cons by lia. apply elem_of_cons. left.
      rewrite <- Hs. f_equal. lia.
  - assert (Es : ld8 m (str_ptr path + e) = slash) by (destruct Hstop; [lia|done]).
    exists (Some (load_bytes m (str_ptr path + (e + 1)) (str_length path - (e + 1)))). split_and!; [|done|].
    + cbn [parts]. rewrite Hr. replace (str_length path - pos) with ((e - pos) + (1 + (str_length path - (e + 1)))) by lia.
      rewrite !load_bytes_app by lia. replace (str_ptr path + pos + (e - pos)) with (str_ptr path + e) by lia.
      change (load_bytes m (str_ptr path + e) 1) with [ld8 m (str_ptr path + e)]. rewrite Es. cbn [app].
      rewrite split_slash_first by done. rewrite Hv. do 3 f_equal. lia.
    + intros _. subst pos'. unfold rest_at.
      split_and!; [lia..|done|]. replace (e + 1 - 1) with e by lia. done.
Qed.

Lemma captured_cons segment segments v views :
  captured (segment :: segments) (v :: views) = captured [segment] [v] ++ captured segments views.
Proof. cbn [captured]. by destruct (seg_kind segment). Qed.

(** The loop succeeds exactly when the segments accept the first parts left, and
    then it stands behind them with their captures taken. *)
Lemma match_loop_spec m path segments pos rest c :
  0 < str_ptr path -> Forall text_ok segments -> rest_at m path pos rest ->
  match match_segments_loop m path segments pos c with
  | Some (pos', c') => exists used views rest',
      parts rest = used ++ parts rest' /\ rest_at m path pos' rest' /\
      Forall2 (segment_accepts m) segments used /\ Forall2 (part_view m path) views used /\
      c' = foldl capture c (captured segments views)
  | None => forall used tail, parts rest = used ++ tail -> ~ Forall2 (segment_accepts m) segments used
  end.
Proof.
  intros Hp Ht. revert pos rest c. induction Ht as [|segment segments Hs Ht IH]; intros pos rest c Hrest.
  { cbn. exists [], [], rest. split_and!; [done|done|constructor|constructor|done]. }
  cbn [match_segments_loop]. destruct (Z.leb_spec (str_length path) pos) as [Hend|Hlt].
  { intros used tail E Hf. apply Forall2_cons_inv_l in Hf as (part & used' & [Hne _] & _ & ->).
    destruct rest as [r|]; [|done]. destruct Hrest as (Hpos & -> & _).
    rewrite load_bytes_nonpos in E by lia. cbn in E. by injection E as <-. }
  destruct rest as [r|]; [|destruct Hrest; lia].
  destruct (next_part m path pos r Hrest Hlt Hp) as (He & rest' & Eparts & Hv & Hnext).
  set (e := segment_end_loop m (str_ptr path) pos (Z.to_nat (str_length path - pos))) in *.
  set (v := sl_str_from_parts (str_ptr path + pos) (e - pos)) in *.
  destruct Hrest as (Hpos & _).
  destruct (match_one_spec m segment v c) as [Hacc Hcap]; [cbn; lia|cbn; lia|done|].
  destruct (sl_route_match_one_segment m segment v c) as [[] c1]; cbn [fst snd] in Hacc, Hcap.
  - destruct (proj1 Hacc eq_refl) as [Hne _]. specialize (IH _ rest' c1 (Hnext Hne)).
    destruct (match_segments_loop _ _ _ _ _) as [[pos' c']|].
    + destruct IH as (used & views & rest'' & E & Hr & Hf & Hfv & Hc).
      exists (str_val m v :: used), (v :: views), rest''. rewrite Eparts, E.
      split_and!; [done|done|constructor; [by apply Hacc|done]|by constructor|].
      rewrite captured_cons, foldl_app, <- Hcap; done.
    + intros used tail E Hf. apply Forall2_cons_inv_l in Hf as (part & used' & _ & Hf & ->).
      rewrite Eparts in E. cbn in E. injection E as _ E. by apply (IH used' tail).
  - intros used tail E Hf. apply Forall2_cons_inv_l in Hf as (part & used' & Ha & _ & ->).
    rewrite Eparts in E. cbn in E. injection E as <- _. by apply Hacc in Ha.
Qed.

(** * Bounds of the capture array *)

Definition is_param (segment : SlRouteSegment) : bool :=
  negb (bool_decide (seg_kind segment = SL_ROUTE_SEGMENT_STATIC)).

Definition param_total (segments : list SlRouteSegment) : Z :=
  Z.of_nat (length (filter (fun s => is_param s = true) segments)).

Lemma param_total_cons segment segments :
  param_total (segment :: segments) = (if is_param segment then 1 else 0) + param_total segments.
Proof.
  unfold param_total. rewrite filter_cons. destruct (is_param segment); [rewrite decide_True by done|
    rewrite decide_False by done]; cbn [length]; lia.
Qed.

Lemma length_captured segments views :
  length views = length segments -> Z.of_nat (length (captured segments views)) = param_total segments.
Proof.
  revert views. induction segments as [|s segments IH]; intros [|v views] Hl; try done.
  injection Hl as Hl. rewrite param_total_cons. cbn [captured]. unfold is_param.
  rewrite <- (IH views Hl).
  destruct (seg_kind s); [change (negb (bool_decide _)) with false|change (negb (bool_decide _)) with true..];
    cbn [length]; lia.
Qed.

(** What validation establishes about the segments. *)
Lemma validate_segments_ok m param_count actual segments n :
  Forall (fun s => 0 <= str_length (seg_text s)) segments ->
  actual <= SL_ROUTE_MAX_PARAMS ->
  validate_segments m param_count actual segments = Ok n ->
  n = actual + param_total segments /\ n <= SL_ROUTE_MAX_PARAMS /\ Forall text_ok segments.
Proof.
  intros Hl. revert actual. induction Hl as [|s segments Hs Hl IH]; intros actual Ha; cbn [validate_segments].
  { intros [= <-]. split_and!; [change (param_total []) with 0; lia|done|constructor]. }
  destruct (sl_route_segment_kind_known (seg_kind s)) eqn:Ek; [cbn [negb]|done]. rewrite param_total_cons.
  unfold is_param. destruct (bool_decide_reflect (seg_kind s = SL_ROUTE_SEGMENT_STATIC)) as [Est|Est].
  - destruct (negb (sl_route_str_valid (seg_text s)) || (str_length (seg_text s) =? 0)) eqn:Et; [done|].
    intros E. destruct (IH actual Ha E) as (-> & Hn & Hf). cbn [negb]. split_and!; [lia|done|].
    constructor; [|done]. intros _. apply orb_false_iff in Et as [Et _]. apply negb_false_iff in Et.
    unfold sl_route_str_valid in Et. split; [done|]. lia.
  - destruct (_ || _); [done|].
    destruct ((param_count <? actual + 1) || (SL_ROUTE_MAX_PARAMS <? actual + 1)) eqn:Eb; [done|].
    apply orb_false_iff in Eb as [_ Eb%Z.ltb_ge]. intros E. destruct (IH (actual + 1) Eb E) as (-> & Hn & Hf).
    cbn [negb]. split_and!; [lia|done|]. constructor; [|done]. intros Hc. done.
Qed.

Lemma capture_all c ps :
  0 <= cap_index c -> (Z.to_nat (cap_index c) + length ps <= length (cap_params c))%nat ->
  let c' := foldl capture c ps in
  cap_index c' = cap_index c + Z.of_nat (length ps) /\
  take (Z.to_nat (cap_index c')) (cap_params c') = take (Z.to_nat (cap_index c)) (cap_params c) ++ ps /\
  length (cap_params c') = length (cap_params c).
Proof.
  revert c. induction ps as [|p ps IH]; intros c Hc Hroom; cbn [foldl].
  { cbn [length]. rewrite app_nil_r. split_and!; [lia|done|done]. }
  cbn [length] in Hroom. destruct (IH (capture c p)) as (E1 & E2 & E3).
  { cbn. lia. }
  { cbn. rewrite length_insert. lia. }
  cbv zeta. rewrite E1, E3. unfold capture at 3. cbn [cap_index cap_params]. cbn [length].
  split_and!; [cbn; lia| |cbn; by rewrite length_insert].
  rewrite E1 in E2. etransitivity; [exact E2|]. cbn [capture cap_index cap_params].
  replace (Z.to_nat (cap_index c + 1)) with (S (Z.to_nat (cap_index c))) by lia.
  rewrite (take_S_r _ _ p) by (apply list_lookup_insert_eq; lia).
  rewrite take_insert_ge by lia. by rewrite <- app_assoc.
Qed.

(** The segments a pattern's counter covers. *)
Definition pattern_segments (pattern : SlRoutePattern) : list SlRouteSegment :=
  take (Z.to_nat (pat_segment_count pattern)) (default [] (pat_segments pattern)).

Lemma validate_for_match_ok m pattern n :
  0 <= pat_segment_count pattern ->
  Forall (fun s => 0 <= str_length (seg_text s)) (pattern_segments pattern) ->
  sl_route_pattern_validate_for_match m pattern = Ok n ->
  (pat_segment_count pattern = 0 -> pattern_segments pattern = []) /\
  (pat_segment_count pattern <> 0 ->
   n = param_total (pattern_segments pattern) /\ n <= SL_ROUTE_MAX_PARAMS /\
   Forall text_ok (pattern_segments pattern)).
Proof.
  intros Hc Hl. unfold sl_route_pattern_validate_for_match. destruct (_ || _); [done|].
  destruct ((SL_ROUTE_MAX_SEGMENTS <? _) || _); [done|]. unfold pattern_segments in *.
  destruct (Z.eqb_spec (pat_segment_count pattern) 0) as [E0|E0].
  - intros _. split; [by rewrite E0|done].
  - intros E. split; [done|]. intros _. destruct (pat_segments pattern) as [segments|]; [|done].
    change (default [] (Some segments)) with segments in *.
    apply validate_segments_ok in E as (-> & Hn & Hf); [|done|unfold SL_ROUTE_MAX_PARAMS; lia].
    split_and!; [lia|done|done].
Qed.

Lemma accepts_needs_part m segments :
  segments <> [] -> ~ Forall2 (segment_accepts m) segments [].
Proof. intros Hne Hf. apply Forall2_nil_inv_r in Hf. done. Qed.

(** Matching a pattern with segments, before the captures are copied. *)
Lemma match_segments_spec m pattern path uninit :
  0 < str_ptr path -> 1 <= str_length path -> ld8 m (str_ptr path) = slash ->
  Forall text_ok (pattern_segments pattern) -> pattern_segments pattern <> [] ->
  param_total (pattern_segments pattern) <= Z.of_nat (length uninit) ->
  match sl_route_match_segments m pattern path uninit with
  | Some c =>
      route_accepts m (pattern_segments pattern) (str_val m path) /\
      exists views,
        Forall2 (part_view m path) views (split_slash (tail (str_val m path))) /\
        cap_index c = param_total (pattern_segments pattern) /\
        take (Z.to_nat (cap_index c)) (cap_params c) = captured (pattern_segments pattern) views
  | None => ~ route_accepts m (pattern_segments pattern) (str_val m path)
  end.
Proof.
  intros Hp Hl Hs Ht Hne Hroom. set (segments := pattern_segments pattern) in *.
  set (r := load_bytes m (str_ptr path + 1) (str_length path - 1)).
  assert (Hpath : str_val m path = slash :: r).
  { unfold str_val. rewrite load_bytes_cons, Hs by lia. done. }
  assert (Hrest : rest_at m path 1 (Some r)).
  { unfold rest_at. split_and!; [lia..|done|]. by rewrite Z.sub_diag, Z.add_0_r. }
  assert (Hacc : route_accepts m segments (str_val m path) <->
                 Forall2 (segment_accepts m) segments (split_slash r)).
  { rewrite Hpath. unfold route_accepts. destruct segments; [done|]. split.
    - intros (rest & [= <-] & H). exact H.
    - intros H. by exists r. }
  unfold sl_route_match_segments. fold (pattern_segments pattern). fold segments.
  pose proof (match_loop_spec m path segments 1 (Some r) {| cap_params := uninit; cap_index := 0 |}
                Hp Ht Hrest) as Hloop.
  destruct (match_segments_loop _ _ _ _ _) as [[pos' c']|].
  - destruct Hloop as (used & views & rest' & Eparts & Hrest' & Hf & Hv & Hc). cbn [parts] in Eparts.
    assert (Hcut : Forall2 (segment_accepts m) segments (split_slash r) -> parts rest' = []).
    { intros H. rewrite Eparts in H. pose proof (Forall2_length _ _ _ H) as HL.
      rewrite length_app, <- (Forall2_length _ _ _ Hf) in HL. apply length_zero_iff_nil. lia. }
    destruct rest' as [r'|].
    + destruct Hrest' as (Hpos & Er' & Hsl). destruct (split_slash_cons r') as (p & ps & Ep).
      replace ((pos' =? str_length path) && _) with false.
      2:{ symmetry. destruct (Z.eqb_spec pos' (str_length path)) as [->|]; [|done]. by rewrite Hsl. }
      rewrite Hacc. intros H. specialize (Hcut H). cbn [parts] in Hcut. congruence.
    + destruct Hrest' as [-> Hlast]. rewrite Z.eqb_refl, (proj2 (Z.eqb_neq _ _) Hlast). cbn [andb negb].
      cbn [parts] in Eparts. rewrite app_nil_r in Eparts. rewrite Hacc, Hpath. cbn [tail]. rewrite Eparts.
      split; [done|]. exists views.
      split; [done|]. pose proof (length_captured segments views) as Hcl.
      rewrite (Forall2_length _ _ _ Hv), (Forall2_length _ _ _ Hf) in Hcl. specialize (Hcl eq_refl).
      destruct (capture_all {| cap_params := uninit; cap_index := 0 |} (captured segments views)) as (E1 & E2 & _);
        [done|cbn; lia|].
      rewrite <- Hc in E1, E2. cbn [cap_index cap_params] in E1, E2. split; [rewrite E1; lia|done].
  - rewrite Hacc. intros H. apply (Hloop (split_slash r) []); [by rewrite app_nil_r|done].
Qed.

(** Matching is exact.  For a validated pattern and an absolute path without a
    query, the match answers "matched" exactly when the path, split at its slashes,
    has as many parts as the pattern has segments and each non-empty part equals
    its static segment or has the shape its parameter kind demands ("/" matches only
    "/", trailing slashes are strict).  The captures are then the parameters in
    order, with the pattern's names and kinds and values that are slices of the
    path; without a match there are none and nothing is allocated.  The only failure
    is an arena that cannot hold the captures.  At most 32 captures are written. *)
Lemma pattern_match_exact `{BC : BuildConfig} pattern path captures uninit n w :
  arena_wf (w_arena w) -> 0 <= pat_segment_count pattern ->
  Forall (fun s => 0 <= str_length (seg_text s)) (pattern_segments pattern) ->
  (pat_segment_count pattern <> 0 -> pattern_segments pattern <> []) ->
  sl_route_pattern_validate_for_match (w_mem w) pattern = Ok n ->
  0 < str_ptr path -> 1 <= str_length path -> ld8 (w_mem w) (str_ptr path) = slash ->
  question ∉ str_val (w_mem w) path ->
  length uninit = Z.to_nat SL_ROUTE_MAX_PARAMS -> captures <> 0 ->
  outside_free (w_arena w) captures (SL_ROUTE_MAX_PARAMS * route_param_size) ->
  match sl_route_pattern_match REF (Some pattern) path REF captures uninit w with
  | (Ok mt, w') =>
      (mt_matched mt = true <-> route_accepts (w_mem w) (pattern_segments pattern) (str_val (w_mem w) path)) /\
      (mt_matched mt = false -> mt = no_match /\ w' = w) /\
      (mt_matched mt = true ->
       exists views,
         (pattern_segments pattern <> [] ->
          Forall2 (part_view (w_mem w) path) views (split_slash (tail (str_val (w_mem w) path)))) /\
         default [] (snd <$> mt_params mt) = captured (pattern_segments pattern) views /\
         mt_param_count mt = param_total (pattern_segments pattern) /\
         mt_param_count mt <= SL_ROUTE_MAX_PARAMS)
  | (Err c, w') =>
      w' = w /\ sl_arena_array_alloc REF (param_total (pattern_segments pattern)) route_param_size
                  route_param_alignment REF w = (Err c, w)
  end.
Proof.
  intros Hwf Hc Hl Hsegs Hval Hp Hlen Hs Hq Hun Hcap Hof. set (m := w_mem w) in *.
  destruct (validate_for_match_ok m pattern n Hc Hl Hval) as [Hroot Hrest].
  assert (E : sl_route_pattern_match REF (Some pattern) path REF captures uninit w =
    if pat_segment_count pattern =? 0
    then (Ok {| mt_matched := str_length path =? 1; mt_params := None; mt_param_count := 0 |}, w) else
    match sl_route_match_segments m pattern path uninit with
    | None => (Ok no_match, w)
    | Some c =>
        match sl_route_copy_match_params REF captures c w with
        | (Ok ps, w') => (Ok {| mt_matched := true; mt_params := ps; mt_param_count := cap_index c |}, w')
        | (Err e, w') => (Err e, w')
        end
    end).
  { unfold sl_route_pattern_match. unfold_st. cbn [is_null]. cbv beta iota. fold m.
    assert (Hv : sl_route_str_valid path = true) by (unfold sl_route_str_valid; lia).
    assert (Hqf : sl_route_contains_byte m path question = false).
    { unfold sl_route_contains_byte. rewrite Hv. cbn [negb]. rewrite contains_byte_spec.
      apply bool_decide_eq_false_2. exact Hq. }
    rewrite Hv, Hqf, Hs, (proj2 (Z.eqb_neq (str_length path) 0)) by lia. cbn [is_null negb orb Z.eqb].
    rewrite Z.eqb_refl. cbn [negb orb]. rewrite Hval.
    destruct (pat_segment_count pattern =? 0); [done|].
    destruct (sl_route_match_segments m pattern path uninit); [|done].
    by destruct (sl_route_copy_match_params _ _ _ _) as [[]]. }
  rewrite E. clear E. destruct (Z.eqb_spec (pat_segment_count pattern) 0) as [E0|E0].
  - rewrite (Hroot E0). cbn [mt_matched mt_params mt_param_count].
    assert (Hr : str_val m path = slash :: load_bytes m (str_ptr path + 1) (str_length path - 1))
      by (unfold str_val; rewrite load_bytes_cons, Hs by lia; done).
    split_and!.
    + rewrite Hr, Z.eqb_eq. unfold route_accepts. split.
      * intros ->. exists []. split; done.
      * intros (rest & [= <-] & E). apply (f_equal length) in E. unfold load_bytes in E.
        rewrite length_load in E. cbn in E. lia.
    + intros ->. done.
    + intros _. exists []. split_and!; done.
  - destruct (Hrest E0) as (-> & Hmax & Ht). unfold SL_ROUTE_MAX_PARAMS in Hun, Hmax, Hof |- *.
    pose proof (match_segments_spec m pattern path uninit Hp Hlen Hs Ht (Hsegs E0) ltac:(lia)) as Hm.
    destruct (sl_route_match_segments m pattern path uninit) as [c|].
    + destruct Hm as (Hacc & views & Hv & Ei & Ec). unfold sl_route_copy_match_params. unfold_st.
      cbn [is_null]. destruct (Z.eqb_spec (cap_index c) 0) as [Ez|Ez].
      * cbn [mt_matched mt_params mt_param_count default fmap option_fmap option_map snd].
        split_and!; [done|done|]. intros _. exists views. split_and!; [done| |done|lia].
        rewrite <- Ec, Ez. done.
      * assert (Hpos : 0 < param_total (pattern_segments pattern)) by (unfold param_total in *; lia).
        pose proof (array_copy_spec captures (cap_index c) route_param_size route_param_alignment w Hwf) as Ha.
        unfold route_param_size, route_param_alignment in *.
        specialize (Ha ltac:(size_lia) ltac:(size_lia) ltac:(size_lia) ltac:(lia) ltac:(lia) Hcap).
        specialize (Ha ltac:(unfold outside_free, disjoint_ranges in *; lia)).
        destruct (sl_arena_array_copy _ _ _ _ _ _ w) as [[sl|e] w'] eqn:Ecopy.
        -- cbn [mt_matched mt_params mt_param_count default fmap option_fmap option_map snd].
           split_and!; [done|done|]. intros _. exists views. split_and!; [done|exact Ec|done|lia].
        -- split; [done|]. subst w'. rewrite <- Ei. unfold sl_arena_array_copy in Ecopy. revert Ecopy.
           unfold_st. destruct (_ || _) eqn:Eg; [cbn [is_null orb] in Eg; lia|].
           destruct (sl_arena_array_alloc _ _ _ _ _ w) as [[sl|e'] w'']; [|by intros [= -> ->]].
           by destruct (negb _).
    + cbn [mt_matched no_match]. split_and!; [by split|done|done].
Qed.
