(* ===== verification/RouteParse.v ===== *)
(** Route patterns: the pattern parser (src/core/route.c, the parser half).

    The parser works on memory and an arena, a context that remembers the first
    diagnostic, and the caller's diagnostic.  The array of parsed segments is a
    local array of the C function: [parsed] is its address for the arena copy, its
    structures are kept as a list. *)

From stdpp Require Import strings.
From S2P Require Import Prelude Memory Status Arena Str Simd StrArena Container Diag RouteMatch.

Open Scope Z_scope.

(** [sizeof(SlRouteSegment)]: two views and two enums, eight-byte aligned. *)
Definition route_segment_size : Z := 40.
Definition route_segment_alignment : Z := 8.

(** The diagnostic fields of the context; the arena and the caller's pointer are
    arguments of the operations. *)
Record SlRouteParseContext := { ctx_code : Z; ctx_message : SlStr; ctx_hint : SlStr }.

Record RouteSys := { ro_world : World; ro_ctx : SlRouteParseContext; ro_diag : SlDiag }.

Definition set_ro_world (w : World) (s : RouteSys) : RouteSys :=
  {| ro_world := w; ro_ctx := ro_ctx s; ro_diag := ro_diag s |}.
Definition set_ro_ctx (c : SlRouteParseContext) (s : RouteSys) : RouteSys :=
  {| ro_world := ro_world s; ro_ctx := c; ro_diag := ro_diag s |}.
Definition set_ro_diag (d : SlDiag) (s : RouteSys) : RouteSys :=
  {| ro_world := ro_world s; ro_ctx := ro_ctx s; ro_diag := d |}.

Definition in_world {A} (c : ST World A) : ST RouteSys A := zoom ro_world set_ro_world c.

Definition open_brace : Z := 123.
Definition close_brace : Z := 125.
Definition colon_byte : Z := 58.

Section Parser.
Context {BC : BuildConfig} {SC : SimdConfig} {RO : ReadOnlyData}.

Definition sl_route_copy_str (arena : nullable) (src : SlStr) (out : nullable) : ST World SlStr :=
  return_if is_null arena || is_null out || negb (sl_route_str_valid src) with SL_STATUS_INVALID_ARGUMENT ;;
  sl_str_copy_view_to_arena arena src out.

Definition sl_route_set_diag {A} (code : Z) (message hint : string) : ST RouteSys A :=
  modify (set_ro_ctx {| ctx_code := code; ctx_message := literal message; ctx_hint := literal hint |}) ;;
  fail SL_STATUS_INVALID_ARGUMENT.

Definition sl_route_invalid_pattern {A} (message hint : string) : ST RouteSys A :=
  sl_route_set_diag SL_DIAG_INVALID_ROUTE_PATTERN message hint.

Definition sl_route_finish_diag (arena out_diag : nullable) : ST RouteSys unit :=
  ctx ← gets ro_ctx ;
  if is_null out_diag || (ctx_code ctx =? SL_DIAG_NONE) then mret tt else
  modify (set_ro_diag zero_diag) ;;
  builder ← in_world (sl_diag_builder_init arena SL_DIAG_SEVERITY_ERROR (ctx_code ctx) (ctx_message ctx)) ;
  builder ← (if negb (sl_str_is_empty (ctx_hint ctx))
             then in_world (sl_diag_builder_add_hint arena builder (ctx_hint ctx))
             else mret builder) ;
  diag ← lift (sl_diag_builder_finish arena out_diag builder) ;
  modify (set_ro_diag diag).

(** The loop over the segments parsed so far. *)
Fixpoint sl_route_name_duplicate (m : mem) (segments : list SlRouteSegment) (name : SlStr) : bool :=
  match segments with
  | [] => false
  | segment :: segments =>
      if bool_decide (seg_kind segment = SL_ROUTE_SEGMENT_PARAM) && sl_str_equal m (seg_param_name segment) name
      then true else sl_route_name_duplicate m segments name
  end.

Definition sl_route_parse_param_type (type : SlStr) : ST RouteSys SlRouteParamKind :=
  m ← gets (fun s => w_mem (ro_world s)) ;
  if sl_str_equal m type (literal "int") then mret SL_ROUTE_PARAM_INT else
  if sl_str_equal m type (literal "str") then mret SL_ROUTE_PARAM_STRING else
  if sl_str_equal m type (literal "uuid") then mret SL_ROUTE_PARAM_UUID else
  if sl_str_equal m type (literal "alpha") then mret SL_ROUTE_PARAM_ALPHA else
  if sl_str_equal m type (literal "float") then mret SL_ROUTE_PARAM_FLOAT else
  sl_route_invalid_pattern "unknown route parameter type"
    "supported route parameter types are str, int, uuid, alpha, and float".

(** The scan of the text between the braces: the position of the colon, if any. *)
Fixpoint scan_inner (m : mem) (ptr index : Z) (colon : option Z) (n : nat) : ST RouteSys (option Z) :=
  match n with
  | O => mret colon
  | S n =>
      let byte := ld8 m (ptr + index) in
      if (byte =? open_brace) || (byte =? close_brace)
      then sl_route_invalid_pattern "malformed route parameter"
             "nested braces are not supported in route parameters"
      else if byte =? colon_byte then
        match colon with
        | Some _ => sl_route_invalid_pattern "malformed route parameter"
                      "route parameters support at most one type separator"
        | None => scan_inner m ptr (index + 1) (Some index) n
        end
      else scan_inner m ptr (index + 1) colon n
  end.

Definition sl_route_parse_param_segment (arena : nullable) (segment : SlStr) (segments : list SlRouteSegment)
    : ST RouteSys SlRouteSegment :=
  m ← gets (fun s => w_mem (ro_world s)) ;
  if (str_length segment <? 3) || negb (ld8 m (str_ptr segment) =? open_brace)
     || negb (ld8 m (str_ptr segment + (str_length segment - 1)) =? close_brace)
  then sl_route_invalid_pattern "malformed route parameter"
         "parameters must occupy a whole segment like {id} or {id:int}"
  else
  let inner := sl_str_from_parts (str_ptr segment + 1) (str_length segment - 2) in
  colon ← scan_inner m (str_ptr inner) 0 None (Z.to_nat (str_length inner)) ;
  let name := match colon with
              | Some colon => sl_str_from_parts (str_ptr inner) colon
              | None => inner
              end in
  if negb (sl_route_param_name_valid m name)
  then sl_route_invalid_pattern "invalid route parameter name"
         "parameter names must start with a letter or underscore"
  else
  kind ← match colon with
         | Some colon =>
             if str_length inner <=? colon + 1
             then sl_route_invalid_pattern "malformed route parameter" "route parameter type must be non-empty"
             else sl_route_parse_param_type
                    (sl_str_from_parts (str_ptr inner + colon + 1) (str_length inner - colon - 1))
         | None => mret SL_ROUTE_PARAM_STRING
         end ;
  if sl_route_name_duplicate m segments name
  then sl_route_set_diag SL_DIAG_DUPLICATE_ROUTE_PARAM "duplicate route parameter"
         "route parameter names must be unique within one pattern"
  else
  param_name ← in_world (sl_route_copy_str arena name REF) ;
  mret {| seg_text := sl_str_empty; seg_param_name := param_name; seg_kind := SL_ROUTE_SEGMENT_PARAM;
          seg_param_kind := kind |}.

Definition sl_route_parse_static_segment (arena : nullable) (segment : SlStr) : ST RouteSys SlRouteSegment :=
  m ← gets (fun s => w_mem (ro_world s)) ;
  if sl_route_contains_byte m segment open_brace || sl_route_contains_byte m segment close_brace
  then sl_route_invalid_pattern "malformed route parameter"
         "braces are only valid around a whole route parameter segment"
  else
  text ← in_world (sl_route_copy_str arena segment REF) ;
  mret {| seg_text := text; seg_param_name := sl_str_empty; seg_kind := SL_ROUTE_SEGMENT_STATIC;
          seg_param_kind := SL_ROUTE_PARAM_STRING |}.

Definition sl_route_parse_segment (arena : nullable) (segment : SlStr) (segments : list SlRouteSegment)
    : ST RouteSys SlRouteSegment :=
  m ← gets (fun s => w_mem (ro_world s)) ;
  if str_length segment =? 0
  then sl_route_invalid_pattern "empty route segment"
         "empty segments are not supported except for the root pattern"
  else if (ld8 m (str_ptr segment) =? open_brace)
          || (ld8 m (str_ptr segment + (str_length segment - 1)) =? close_brace)
  then sl_route_parse_param_segment arena segment segments
  else sl_route_parse_static_segment arena segment.

(** The loop over the pattern: one segment per unit of fuel. *)
Fixpoint parse_segments_loop (fuel : nat) (arena : nullable) (pattern_text : SlStr) (pos : Z)
    (segments : list SlRouteSegment) (param_count : Z) : ST RouteSys (list SlRouteSegment * Z) :=
  match fuel with
  | O => fail SL_STATUS_INTERNAL
  | S fuel =>
      if negb (pos <=? str_length pattern_text) then mret (segments, param_count) else
      m ← gets (fun s => w_mem (ro_world s)) ;
      let segment_end := segment_end_loop m (str_ptr pattern_text) pos
                           (Z.to_nat (str_length pattern_text - pos)) in
      if SL_ROUTE_MAX_SEGMENTS <=? Z.of_nat (length segments)
      then sl_route_invalid_pattern "route pattern has too many segments"
             "split large route shapes before registering native routes"
      else
      segment ← sl_route_parse_segment arena
                  (sl_str_from_parts (str_ptr pattern_text + pos) (segment_end - pos)) segments ;
      let is_parameter := bool_decide (seg_kind segment = SL_ROUTE_SEGMENT_PARAM) in
      if is_parameter && (SL_ROUTE_MAX_PARAMS <=? param_count)
      then sl_route_invalid_pattern "route pattern has too many parameters"
             "keep one route pattern within the supported parameter bound"
      else
      let param_count := if is_parameter then param_count + 1 else param_count in
      if segment_end =? str_length pattern_text then mret (segments ++ [segment], param_count)
      else parse_segments_loop fuel arena pattern_text (segment_end + 1) (segments ++ [segment]) param_count
  end.

Definition sl_route_parse_pattern_segments (arena : nullable) (pattern_text : SlStr)
    : ST RouteSys (list SlRouteSegment * Z) :=
  m ← gets (fun s => w_mem (ro_world s)) ;
  if negb (ld8 m (str_ptr pattern_text) =? slash)
  then sl_route_invalid_pattern "route pattern must start with slash"
         "route patterns must be absolute paths such as /users/{id}"
  else if sl_route_contains_byte m pattern_text question
  then sl_route_invalid_pattern "route pattern must not include query string"
         "query strings are not part of route pattern matching"
  else if str_length pattern_text =? 1 then mret ([], 0)
  else parse_segments_loop (S (Z.to_nat (str_length pattern_text))) arena pattern_text 1 [] 0.

Definition sl_route_finalize_pattern (arena : nullable) (pattern_text : SlStr) (parsed : Z)
    (parsed_segments : list SlRouteSegment) (param_count : Z) : ST RouteSys SlRoutePattern :=
  source ← in_world (sl_route_copy_str arena pattern_text REF) ;
  let segment_count := Z.of_nat (length parsed_segments) in
  (if negb (segment_count =? 0)
   then in_world (sl_arena_array_copy arena parsed segment_count route_segment_size
                    route_segment_alignment REF) ;; mret tt
   else mret tt) ;;
  mret {| pat_source := source;
          pat_segments := if segment_count =? 0 then None else Some parsed_segments;
          pat_segment_count := segment_count; pat_param_count := param_count |}.

Definition empty_ctx : SlRouteParseContext :=
  {| ctx_code := SL_DIAG_NONE; ctx_message := sl_str_empty; ctx_hint := sl_str_empty |}.

(** The [failure] label: roll the arena back, then report the diagnostic. *)
Definition route_failure {A} (arena out_diag : nullable) (mark : SlArenaMark) (status : SlStatusCode)
    : ST RouteSys A :=
  in_world (sl_arena_reset_to arena mark) ;;
  sl_route_finish_diag arena out_diag ;;
  fail status.

Definition route_parse_body (arena : nullable) (pattern_text : SlStr) (parsed : Z)
    : ST RouteSys SlRoutePattern :=
  if str_length pattern_text =? 0
  then sl_route_invalid_pattern "route pattern must not be empty"
         "route patterns must be absolute paths such as / or /users/{id}"
  else
  '(segments, param_count) ← sl_route_parse_pattern_segments arena pattern_text ;
  sl_route_finalize_pattern arena pattern_text parsed segments param_count.

Definition sl_route_pattern_parse (arena : nullable) (pattern_text : SlStr) (parsed : Z)
    (out_pattern out_diag : nullable) : ST RouteSys SlRoutePattern :=
  (if is_null out_diag then mret tt else modify (set_ro_diag zero_diag)) ;;
  return_if is_null out_pattern with SL_STATUS_INVALID_ARGUMENT ;;
  return_if is_null arena || negb (sl_route_str_valid pattern_text) with SL_STATUS_INVALID_ARGUMENT ;;
  modify (set_ro_ctx empty_ctx) ;;
  mark ← gets (fun s => sl_arena_mark arena (ro_world s)) ;
  on_error (route_parse_body arena pattern_text parsed) (route_failure arena out_diag mark).
End Parser.

(** * Specification

    The syntax of patterns, on bytes. *)

Inductive seg_spec :=
| Static (text : list Z)
| Param (name : list Z) (kind : SlRouteParamKind).

Definition name_ok (name : list Z) : Prop :=
  exists b bs, name = b :: bs /\ sl_route_is_name_start b = true /\
               Forall (fun b => sl_route_is_name_continue b = true) bs.

Definition type_names : list (list Z * SlRouteParamKind) :=
  [ (string_bytes "int", SL_ROUTE_PARAM_INT);
    (string_bytes "str", SL_ROUTE_PARAM_STRING);
    (string_bytes "uuid", SL_ROUTE_PARAM_UUID);
    (string_bytes "alpha", SL_ROUTE_PARAM_ALPHA);
    (string_bytes "float", SL_ROUTE_PARAM_FLOAT) ].

(** A part between slashes: a text without braces, "{name}" or "{name:type}". *)
Definition segment_syntax (part : list Z) (spec : seg_spec) : Prop :=
  match spec with
  | Static text => part = text /\ text <> [] /\ (open_brace ∉ text) /\ (close_brace ∉ text)
  | Param name kind =>
      name_ok name /\
      exists annotation, part = open_brace :: (name ++ annotation) ++ [close_brace] /\
        ((annotation = [] /\ kind = SL_ROUTE_PARAM_STRING) \/
         (exists type, annotation = colon_byte :: type /\ (type, kind) ∈ type_names))
  end.

Definition spec_name (spec : seg_spec) : option (list Z) :=
  match spec with Static _ => None | Param name _ => Some name end.

Definition spec_names (specs : list seg_spec) : list (list Z) := omap spec_name specs.

Definition specs_ok (specs : list seg_spec) : Prop :=
  Z.of_nat (length specs) <= SL_ROUTE_MAX_SEGMENTS /\
  Z.of_nat (length (spec_names specs)) <= SL_ROUTE_MAX_PARAMS /\ NoDup (spec_names specs).

(** A whole pattern: "/" alone, or a slash before parts separated by slashes. *)
Definition pattern_syntax (pattern : list Z) (specs : list seg_spec) : Prop :=
  exists rest, pattern = slash :: rest /\ (question ∉ pattern) /\
    ((rest = [] /\ specs = []) \/
     (rest <> [] /\ Forall2 segment_syntax (split_slash rest) specs /\ specs_ok specs)).

(** A parsed segment read back from memory, its view in storage the arena no
    longer hands out. *)
Definition kept_view (w : World) (v : SlStr) (bytes : list Z) : Prop :=
  str_valid v /\ is_size (str_length v) /\ outside_free (w_arena w) (str_ptr v) (str_length v) /\
  str_val (w_mem w) v = bytes.

Definition parsed_as (w : World) (segment : SlRouteSegment) (spec : seg_spec) : Prop :=
  match spec with
  | Static text =>
      seg_kind segment = SL_ROUTE_SEGMENT_STATIC /\ seg_param_kind segment = SL_ROUTE_PARAM_STRING /\
      seg_param_name segment = sl_str_empty /\ kept_view w (seg_text segment) text
  | Param name kind =>
      seg_kind segment = SL_ROUTE_SEGMENT_PARAM /\ seg_param_kind segment = kind /\
      seg_text segment = sl_str_empty /\ kept_view w (seg_param_name segment) name
  end.

(** The literals of the parser, as objects of a world. *)
Definition route_literals : list string :=
  [ "int"; "str"; "uuid"; "alpha"; "float"; "unknown route parameter type";
    "supported route parameter types are str, int, uuid, alpha, and float"; "malformed route parameter";
    "nested braces are not supported in route parameters";
    "route parameters support at most one type separator";
    "parameters must occupy a whole segment like {id} or {id:int}"; "invalid route parameter name";
    "parameter names must start with a letter or underscore"; "route parameter type must be non-empty";
    "duplicate route parameter"; "route parameter names must be unique within one pattern";
    "braces are only valid around a whole route parameter segment"; "empty route segment";
    "empty segments are not supported except for the root pattern"; "route pattern has too many segments";
    "split large route shapes before registering native routes"; "route pattern has too many parameters";
    "keep one route pattern within the supported parameter bound"; "route pattern must start with slash";
    "route patterns must be absolute paths such as /users/{id}"; "route pattern must not include query string";
    "query strings are not part of route pattern matching"; "route pattern must not be empty";
    "route patterns must be absolute paths such as / or /users/{id}" ]%string.

(** * Worlds the parser moves through *)

Record extends (w w' : World) : Prop := {
  ext_wf : arena_wf (w_arena w');
  ext_base : ar_base (w_arena w') = ar_base (w_arena w);
  ext_capacity : ar_capacity (w_arena w') = ar_capacity (w_arena w);
  ext_generation : ar_generation (w_arena w') = ar_generation (w_arena w);
  ext_offset : ar_offset (w_arena w) <= ar_offset (w_arena w');
  ext_mem : same_outside (ar_base (w_arena w) + ar_offset (w_arena w))
              (ar_base (w_arena w) + ar_capacity (w_arena w)) (w_mem w) (w_mem w');
}.

Lemma extends_refl w : arena_wf (w_arena w) -> extends w w.
Proof. intros. split; auto with lia. apply same_outside_refl. Qed.

Lemma extends_trans w1 w2 w3 : extends w1 w2 -> extends w2 w3 -> extends w1 w3.
Proof.
  intros [H1 B1 C1 G1 O1 M1] [H2 B2 C2 G2 O2 M2]. split; try congruence; [lia|].
  eapply same_outside_trans; [exact M1|]. eapply same_outside_weaken; [exact M2|lia|lia].
Qed.

Lemma extends_load w w' p n :
  extends w w' -> outside_free (w_arena w) p n -> load_bytes (w_mem w') p n = load_bytes (w_mem w) p n.
Proof.
  intros [H B C G O M] Ho. eapply load_bytes_same; [exact M|]. unfold outside_free, disjoint_ranges in *. lia.
Qed.

Lemma extends_outside w w' p n :
  extends w w' -> outside_free (w_arena w) p n -> outside_free (w_arena w') p n.
Proof. intros [H B C G O M]. by apply outside_free_forward. Qed.

Lemma kept_view_extends w w' v bytes : extends w w' -> kept_view w v bytes -> kept_view w' v bytes.
Proof.
  intros He (Hv & Hs & Ho & Hb). split_and!; [done|done|by eapply extends_outside|].
  rewrite <- Hb. by apply extends_load.
Qed.

Lemma parsed_as_extends w w' segment spec :
  extends w w' -> parsed_as w segment spec -> parsed_as w' segment spec.
Proof. intros He. destruct spec; cbn; intros (? & ? & ? & ?); split_and!; eauto using kept_view_extends. Qed.

(** Weaker: whatever the caller may still use keeps its bytes. *)
Definition keeps (w w' : World) : Prop :=
  arena_wf (w_arena w') /\
  forall q n, outside_free (w_arena w) q n ->
    load_bytes (w_mem w') q n = load_bytes (w_mem w) q n /\ outside_free (w_arena w') q n.

Lemma extends_keeps w w' : extends w w' -> keeps w w'.
Proof.
  intros He. split; [apply He|]. intros q n Ho. split; [by apply extends_load|by eapply extends_outside].
Qed.

Lemma fresh_keeps p n w w' : fresh_block p n w w' -> keeps w w'.
Proof. intros [_ _ Hwf _ _ Ho]. split; [done|]. intros q k Hq. by destruct (Ho q k Hq) as (_ & ? & ?). Qed.

Lemma keeps_refl w : arena_wf (w_arena w) -> keeps w w.
Proof. by split. Qed.

Lemma keeps_trans w1 w2 w3 : keeps w1 w2 -> keeps w2 w3 -> keeps w1 w3.
Proof.
  intros [_ H1] [Hwf H2]. split; [done|]. intros q n Ho. destruct (H1 q n Ho) as [E1 Ho2].
  destruct (H2 q n Ho2) as [E2 Ho3]. by rewrite E2.
Qed.

Lemma kept_view_keeps w w' v bytes : keeps w w' -> kept_view w v bytes -> kept_view w' v bytes.
Proof.
  intros [_ H] (Hv & Hs & Ho & Hb). destruct (H _ _ Ho) as [E Ho']. split_and!; [done|done|done|].
  rewrite <- Hb. exact E.
Qed.

Lemma parsed_as_keeps w w' segment spec :
  keeps w w' -> parsed_as w segment spec -> parsed_as w' segment spec.
Proof. intros He. destruct spec; cbn; intros (? & ? & ? & ?); split_and!; eauto using kept_view_keeps. Qed.

(** Exhaustion: the statuses of an arena that cannot serve a request. *)
Definition exhausted (e : SlStatusCode) : Prop := e = SL_STATUS_OUT_OF_MEMORY \/ e = SL_STATUS_OVERFLOW.

Lemma alloc_exhausted `{BC : BuildConfig} size al c w w' :
  arena_wf (w_arena w) -> is_size size -> size <> 0 -> is_size al -> sl_arena_is_power_of_two al = true ->
  sl_arena_alloc REF size al REF w = (Err c, w') -> w' = w /\ exhausted c.
Proof.
  intros Hwf Hs Hz Hal Hp E. split; [by eapply sl_arena_alloc_err|]. revert E.
  pose proof Hwf as Hwf0. unfold arena_wf in Hwf0. unfold sl_arena_alloc. unfold_st. rewrite Hp.
  rewrite (proj2 (Z.eqb_neq _ _) Hz). cbn [is_null orb negb].
  apply is_power_of_two_inv in Hp as (k & Hk & ->); [|done].
  destruct (Z.ltb_spec (ar_capacity (w_arena w)) (ar_offset (w_arena w))); [lia|]. cbn [orb].
  destruct (Z.eqb_spec (ar_base (w_arena w)) 0); cbn [andb].
  { destruct (Z.eqb_spec (ar_capacity (w_arena w)) 0); [|lia]. intros [=]; subst; by left. }
  rewrite alignment_padding_spec by done.
  pose proof (arena_padding_bound (w_arena w) (2 ^ k) ltac:(apply Z.pow_pos_nonneg; lia)) as Hpad.
  set (pad := arena_padding (w_arena w) (2 ^ k)) in *. rewrite !checked_add_spec by size_lia. unfold checked.
  destruct (_ <=? SIZE_MAX) eqn:E1; [|intros [=]; subst; by right].
  destruct (ar_offset _ + pad <=? SIZE_MAX); [|intros [=]; subst; by right].
  rewrite checked_add_spec by size_lia. unfold checked.
  destruct (ar_offset _ + (pad + size) <=? SIZE_MAX); [|intros [=]; subst; by right].
  cbv beta iota. destruct (_ <? _); [|done]. intros [=]; subst; by left.
Qed.

Lemma array_alloc_exhausted `{BC : BuildConfig} count es al c w w' :
  arena_wf (w_arena w) -> is_size count -> is_size es -> is_size al -> 0 < es ->
  sl_arena_is_power_of_two al = true ->
  sl_arena_array_alloc REF count es al REF w = (Err c, w') -> w' = w /\ exhausted c.
Proof.
  intros Hwf Hc He Ha He0 Hp. unfold sl_arena_array_alloc, sl_container_storage_size. unfold_st.
  destruct (Z.eqb_spec es 0); [lia|]. destruct (Z.eqb_spec count 0); [done|]. cbn [is_null orb].
  unfold sl_checked_array_size. rewrite checked_mul_spec by done. unfold checked.
  destruct (Z.leb_spec (count * es) SIZE_MAX) as [Hm|Hm]; cycle 1.
  { intros [=]. subst. split; [done|by right]. }
  destruct (sl_arena_alloc _ _ _ _ w) as [[q|c'] w1] eqn:E; [done|]. intros [= <- <-].
  apply alloc_exhausted in E; [done|done|unfold is_size in *; nia|unfold is_size in *; nia|done|done].
Qed.

Lemma array_copy_exhausted `{BC : BuildConfig} src count es al c w w' :
  arena_wf (w_arena w) -> is_size count -> is_size es -> is_size al -> 0 < es -> src <> 0 ->
  sl_arena_is_power_of_two al = true ->
  sl_arena_array_copy REF src count es al REF w = (Err c, w') -> w' = w /\ exhausted c.
Proof.
  intros Hwf Hc He Ha He0 Hsrc Hp. unfold sl_arena_array_copy. unfold_st.
  destruct (Z.eqb_spec es 0); [lia|]. destruct (Z.eqb_spec src 0); [lia|]. cbn [is_null orb andb negb].
  destruct (sl_arena_array_alloc _ _ _ _ _ w) as [[sl|c'] w1] eqn:E.
  - by destruct (negb _).
  - intros [= <- <-]. by apply array_alloc_exhausted in E.
Qed.

(** * The syntax is unambiguous *)

Lemma name_ok_bytes name b :
  name_ok name -> b ∈ name -> sl_route_is_name_continue b = true.
Proof.
  intros (c & bs & -> & Hc & Hbs) Hb. apply elem_of_cons in Hb as [->|Hb].
  - unfold sl_route_is_name_continue. by rewrite Hc.
  - rewrite Forall_forall in Hbs. by apply Hbs.
Qed.

Lemma name_ok_clean name :
  name_ok name -> (open_brace ∉ name) /\ (close_brace ∉ name) /\ (colon_byte ∉ name).
Proof. intros Hn. split_and!; intros Hin; by apply (name_ok_bytes _ _ Hn) in Hin. Qed.

Lemma type_names_clean type kind :
  (type, kind) ∈ type_names -> (open_brace ∉ type) /\ (close_brace ∉ type) /\ (colon_byte ∉ type).
Proof.
  intros Hin. assert (H : Forall (fun tk => (open_brace ∉ tk.1) /\ (close_brace ∉ tk.1) /\ (colon_byte ∉ tk.1)) type_names).
  { apply (bool_decide_unpack _). vm_compute. exact I. }
  rewrite Forall_forall in H. exact (H _ Hin).
Qed.

Lemma type_names_functional type kind kind' :
  (type, kind) ∈ type_names -> (type, kind') ∈ type_names -> kind = kind'.
Proof.
  intros Hin Hin'.
  assert (H : Forall (fun x => Forall (fun y => x.1 = y.1 -> x.2 = y.2) type_names) type_names).
  { apply (bool_decide_unpack _). vm_compute. exact I. }
  rewrite Forall_forall in H. specialize (H _ Hin). rewrite Forall_forall in H. exact (H _ Hin' eq_refl).
Qed.

Lemma first_split (c : Z) a b a' b' :
  c ∉ a -> c ∉ a' -> a ++ c :: b = a' ++ c :: b' -> a = a' /\ b = b'.
Proof.
  revert a'. induction a as [|x a IH]; intros [|y a'] Ha Ha' E; cbn in E.
  - by injection E.
  - injection E as -> _. by apply not_elem_of_cons in Ha' as [[] _].
  - injection E as -> _. by apply not_elem_of_cons in Ha as [[] _].
  - injection E as -> E. apply not_elem_of_cons in Ha as [_ Ha]. apply not_elem_of_cons in Ha' as [_ Ha'].
    by destruct (IH a' Ha Ha' E) as [-> ->].
Qed.

(** The text between the braces. *)
Definition inner_syntax (inner name : list Z) (kind : SlRouteParamKind) : Prop :=
  name_ok name /\
  ((inner = name /\ kind = SL_ROUTE_PARAM_STRING) \/
   (exists type, inner = name ++ colon_byte :: type /\ (type, kind) ∈ type_names)).

Lemma braced_syntax inner spec :
  segment_syntax (open_brace :: inner ++ [close_brace]) spec <->
  exists name kind, spec = Param name kind /\ inner_syntax inner name kind.
Proof.
  unfold inner_syntax. split.
  - destruct spec as [text|name kind]; cbn.
    + intros (<- & _ & Hn & _). by apply not_elem_of_cons in Hn as [[] _].
    + intros (Hn & ann & E & H). exists name, kind. split; [done|]. split; [done|].
      injection E as E. apply app_inj_tail in E as [-> _]. destruct H as [[-> ->]|(type & -> & Ht)].
      * left. by rewrite app_nil_r.
      * right. by exists type.
  - intros (name & kind & -> & Hn & H). cbn. split; [done|]. destruct H as [[-> ->]|(type & -> & Ht)].
    + exists []. rewrite app_nil_r. split; [done|by left].
    + exists (colon_byte :: type). split; [done|]. right. by exists type.
Qed.

Lemma inner_syntax_clean inner name kind :
  inner_syntax inner name kind -> (open_brace ∉ inner) /\ (close_brace ∉ inner).
Proof.
  intros (Hn & H). destruct (name_ok_clean _ Hn) as (H1 & H2 & _).
  destruct H as [[-> _]|(type & -> & Ht)]; [done|]. destruct (type_names_clean _ _ Ht) as (T1 & T2 & _).
  rewrite !not_elem_of_app, !not_elem_of_cons. by split_and!.
Qed.

Lemma inner_syntax_plain inner name kind :
  colon_byte ∉ inner -> inner_syntax inner name kind <->
  name_ok inner /\ name = inner /\ kind = SL_ROUTE_PARAM_STRING.
Proof.
  intros Hc. unfold inner_syntax. split.
  - intros (Hn & [[-> ->]|(type & -> & _)]); [done|]. exfalso. apply Hc, elem_of_app. right. by left.
  - intros (Hn & -> & ->). split; [done|by left].
Qed.

Lemma inner_syntax_typed a type name kind :
  colon_byte ∉ a -> inner_syntax (a ++ colon_byte :: type) name kind <->
  name_ok a /\ name = a /\ (type, kind) ∈ type_names.
Proof.
  intros Hc. unfold inner_syntax. split.
  - intros (Hn & H). destruct (name_ok_clean _ Hn) as (_ & _ & Hcn). destruct H as [[E _]|(type' & E & Ht)].
    + exfalso. apply Hcn. rewrite <- E. apply elem_of_app. right. by left.
    + by apply first_split in E as [-> ->].
  - intros (Hn & -> & Ht). split; [done|]. right. by exists type.
Qed.

Lemma segment_syntax_functional part spec spec' :
  segment_syntax part spec -> segment_syntax part spec' -> spec = spec'.
Proof.
  assert (Hmix : forall name kind text, segment_syntax part (Param name kind) ->
            segment_syntax part (Static text) -> False).
  { intros name kind text (_ & ann & -> & _) (<- & _ & Hn & _). by apply not_elem_of_cons in Hn as [[] _]. }
  destruct spec as [t|n k], spec' as [t'|n' k']; intros H H'; [|by exfalso; eapply Hmix..|].
  { destruct H as [<- _], H' as [<- _]. done. }
  pose proof H as (Hn & ann & -> & _). apply braced_syntax in H as (n1 & k1 & [= <- <-] & H).
  apply braced_syntax in H' as (n2 & k2 & [= <- <-] & H'). generalize dependent (n ++ ann). intros inner H H'.
  destruct (decide (colon_byte ∈ inner)) as [Hin|Hnin].
  - destruct H as (Hok & [[E _]|(type & E & Ht)]).
    { exfalso. rewrite E in Hin. by apply (name_ok_clean _ Hok). }
    destruct (name_ok_clean _ Hok) as (_ & _ & Hc). subst inner.
    apply inner_syntax_typed in H' as (_ & -> & Ht'); [|done]. by rewrite (type_names_functional _ _ _ Ht Ht').
  - apply inner_syntax_plain in H as (_ & -> & ->); [|done].
    by apply inner_syntax_plain in H' as (_ & -> & ->).
Qed.

Section ParserLaws.
Context {BC : BuildConfig} {SC : SimdConfig} {RO : ReadOnlyData}.

Lemma copy_str_spec v bytes w :
  arena_wf (w_arena w) -> kept_view w v bytes ->
  match sl_route_copy_str REF v REF w with
  | (Ok out, w') => kept_view w' out bytes /\ extends w w'
  | (Err c, w') => w' = w /\ exhausted c
  end.
Proof.
  intros Hwf (Hv & Hs & Ho & Hb). unfold sl_route_copy_str. unfold_st. cbn [is_null orb].
  replace (sl_route_str_valid v) with true by (unfold sl_route_str_valid; destruct Hv; lia). cbn [negb].
  destruct (sl_str_copy_view_to_arena REF v REF w) as [[out|c] w'] eqn:E.
  - apply sl_str_copy_view_to_arena_ok in E as [P1 P2 P3 P4 P5 (B & C & G & O) P7]; [|done..].
    assert (Hl : str_length out = str_length v) by (rewrite P2; apply length_str_val; size_lia).
    split.
    + split_and!; [done|by rewrite Hl|done|]. by rewrite P1.
    + split; try done. eapply same_outside_weaken; [exact P5|lia|]. unfold arena_wf in P4. lia.
  - revert E. unfold sl_str_copy_view_to_arena, copy_in_world. unfold_st. rewrite str_valid_storage by done.
    cbn [is_null orb negb]. destruct (Z.eqb_spec (str_length v) 0); [done|].
    destruct (sl_arena_alloc _ _ _ _ w) as [[p|c'] w1] eqn:E; [done|]. intros [= <- <-].
    apply alloc_exhausted in E; [done|done|done|done|unfold SL_STR_WORD_ALIGNMENT; size_lia|done].
Qed.

(** * Refusals *)

(** The context carries a diagnostic of the parser. *)
Definition diag_set (s : RouteSys) : Prop :=
  exists code message hint,
    (code = SL_DIAG_INVALID_ROUTE_PATTERN \/ code = SL_DIAG_DUPLICATE_ROUTE_PARAM) /\
    message ∈ route_literals /\ hint ∈ route_literals /\
    ro_ctx s = {| ctx_code := code; ctx_message := literal message; ctx_hint := literal hint |}.

(** A refusal changes nothing but the context. *)
Definition refused (s s' : RouteSys) (e : SlStatusCode) : Prop :=
  e = SL_STATUS_INVALID_ARGUMENT /\ ro_world s' = ro_world s /\ ro_diag s' = ro_diag s /\ diag_set s'.

Lemma set_diag_eq {A} code message hint s :
  @sl_route_set_diag RO A code message hint s =
  (Err SL_STATUS_INVALID_ARGUMENT,
   set_ro_ctx {| ctx_code := code; ctx_message := literal message; ctx_hint := literal hint |} s).
Proof. reflexivity. Qed.

Lemma refused_intro code message hint s :
  code = SL_DIAG_INVALID_ROUTE_PATTERN \/ code = SL_DIAG_DUPLICATE_ROUTE_PARAM ->
  message ∈ route_literals -> hint ∈ route_literals ->
  refused s (set_ro_ctx {| ctx_code := code; ctx_message := literal message; ctx_hint := literal hint |} s)
    SL_STATUS_INVALID_ARGUMENT.
Proof. intros Hc Hm Hh. split_and!; [done..|]. by exists code, message, hint. Qed.

Definition literals_kept (w : World) : Prop := Forall (fun l => kept_view w (literal l) (string_bytes l)) route_literals.

Lemma literals_kept_extends w w' : extends w w' -> literals_kept w -> literals_kept w'.
Proof. intros He H. eapply Forall_impl; [exact H|]. intros l. by apply kept_view_extends. Qed.

Lemma equal_literal w v bytes l :
  literals_kept w -> kept_view w v bytes -> l ∈ route_literals ->
  sl_str_equal (w_mem w) v (literal l) = bool_decide (bytes = string_bytes l).
Proof.
  intros Hl (Hv & _ & _ & <-) Hin. unfold literals_kept in Hl. rewrite Forall_forall in Hl.
  destruct (Hl l Hin) as (Hv' & _ & _ & E). by rewrite sl_str_equal_spec, E.
Qed.

Ltac known := repeat constructor.

(** Turns a goal about a refusing call into the reason of the refusal. *)
Ltac refuse :=
  unfold sl_route_invalid_pattern; rewrite set_diag_eq; split; [apply refused_intro; [auto|known|known]|].

Lemma parse_param_type_spec v bytes s :
  literals_kept (ro_world s) -> kept_view (ro_world s) v bytes ->
  match sl_route_parse_param_type v s with
  | (Ok kind, s') => s' = s /\ (bytes, kind) ∈ type_names
  | (Err e, s') => refused s s' e /\ forall kind, (bytes, kind) ∉ type_names
  end.
Proof.
  intros Hl Hv. unfold sl_route_parse_param_type. unfold_st.
  rewrite !(equal_literal _ _ _ _ Hl Hv) by known.
  repeat (let E := fresh "E" in case_bool_decide as E; cbv beta iota; [split; [done|]; rewrite E; known|]).
  refuse.
  intros kind Hin. unfold type_names in Hin. rewrite !elem_of_cons, elem_of_nil in Hin. naive_solver.
Qed.

(** The scan finds the first colon, and refuses braces and a second colon. *)
Lemma scan_inner_spec m ptr n : forall index colon s,
  let bs := load m (ptr + index) n in
  match scan_inner m ptr index colon n s with
  | (Ok c, s') =>
      s' = s /\
      match colon with
      | Some k => c = Some k /\ (colon_byte ∉ bs)
      | None =>
          (c = None /\ (colon_byte ∉ bs)) \/
          (exists a b, bs = a ++ colon_byte :: b /\ c = Some (index + Z.of_nat (length a)) /\ (colon_byte ∉ a))
      end
  | (Err e, s') =>
      refused s s' e /\
      (open_brace ∈ bs \/ close_brace ∈ bs \/
       match colon with
       | Some _ => colon_byte ∈ bs
       | None => exists a b, bs = a ++ colon_byte :: b /\ (colon_byte ∉ a) /\ colon_byte ∈ b
       end)
  end.
Proof.
  induction n as [|n IH]; intros index colon s; cbn [scan_inner load]; cbv zeta.
  { destruct colon; cbn; split; auto using not_elem_of_nil. }
  set (x := ld8 m (ptr + index)).
  destruct ((x =? open_brace) || (x =? close_brace)) eqn:Eb.
  { refuse.
    apply orb_true_iff in Eb as [->%Z.eqb_eq| ->%Z.eqb_eq]; [left|right; left]; by left. }
  destruct (Z.eqb_spec x colon_byte) as [Ex|Ex].
  - rewrite Ex. destruct colon as [k|].
    { refuse.
      right. right. by left. }
    specialize (IH (index + 1) (Some index) s). cbv zeta in IH.
    replace (ptr + (index + 1)) with (ptr + index + 1) in IH by lia.
    destruct (scan_inner _ _ _ _ _ _) as [[c|e] s'].
    + destruct IH as (-> & -> & Hn). split; [done|]. right. exists [], (load m (ptr + index + 1) n).
      split_and!; [done|cbn [length]; f_equal; lia|apply not_elem_of_nil].
    + destruct IH as (Hr & H). split; [done|]. rewrite !elem_of_cons.
      destruct H as [H|[H|H]]; [by auto..|]. right. right.
      exists [], (load m (ptr + index + 1) n). split_and!; [done|apply not_elem_of_nil|done].
  - specialize (IH (index + 1) colon s). cbv zeta in IH.
    replace (ptr + (index + 1)) with (ptr + index + 1) in IH by lia.
    destruct (scan_inner _ _ _ _ _ _) as [[c|e] s'].
    + destruct IH as (-> & H). split; [done|]. destruct colon as [k|].
      { rewrite not_elem_of_cons. naive_solver. }
      destruct H as [[-> H]|(a & b & E & -> & H)].
      * left. rewrite not_elem_of_cons. by split_and!.
      * right. exists (x :: a), b. rewrite E, not_elem_of_cons. split_and!; [done|cbn [length]; f_equal; lia|by auto..].
    + destruct IH as (Hr & H). split; [done|]. rewrite !elem_of_cons.
      destruct H as [H|[H|H]]; [by auto..|]. right. right. destruct colon as [k|]; [by right|].
      destruct H as (a & b & E & Ha & Hb). exists (x :: a), b. rewrite E, not_elem_of_cons. by split_and!.
Qed.

(** * One segment *)

Lemma load_bytes_slice m p (a b c : list Z) :
  load_bytes m p (Z.of_nat (length (a ++ b ++ c))) = a ++ b ++ c ->
  load_bytes m (p + Z.of_nat (length a)) (Z.of_nat (length b)) = b.
Proof.
  rewrite !length_app, !Nat2Z.inj_add, !load_bytes_app by lia. intros E.
  assert (Hl : forall q (l : list Z), length (load_bytes m q (Z.of_nat (length l))) = length l)
    by (intros; unfold load_bytes; rewrite length_load; lia).
  apply app_inj_1 in E as [_ E]; [|apply Hl]. apply app_inj_1 in E as [E _]; [done|apply Hl].
Qed.

(** A slice of a kept view, given by the bytes before, in and behind it. *)
Lemma kept_slice w v p n a b c :
  kept_view w v (a ++ b ++ c) -> 0 < str_ptr v ->
  p = str_ptr v + Z.of_nat (length a) -> n = Z.of_nat (length b) -> kept_view w (sl_str_from_parts p n) b.
Proof.
  intros ([Hv0 _] & Hs & Ho & Hb) Hp -> ->. pose proof (length_str_val (w_mem w) v Hv0) as Hl.
  rewrite Hb in Hl. unfold kept_view, str_val in *. cbn [str_ptr str_length sl_str_from_parts].
  rewrite <- Hl in *. pose proof (load_bytes_slice _ _ _ _ _ Hb).
  rewrite !length_app in *. split_and!; [split; cbn; [lia|right; lia]|size_lia| |done].
  eapply outside_free_sub; [exact Ho|lia|lia].
Qed.

Lemma param_name_valid_spec w v name :
  kept_view w v name -> str_ptr v <> 0 -> sl_route_param_name_valid (w_mem w) v = true <-> name_ok name.
Proof.
  intros ([Hl _] & Hs & Ho & Hb) Hp. unfold sl_route_param_name_valid, name_ok.
  rewrite (proj2 (Z.eqb_neq (str_ptr v) 0)), orb_false_r by lia. unfold str_val in Hb.
  destruct (Z.eqb_spec (str_length v) 0) as [E|E]; cbn [orb].
  { rewrite E in Hb. cbn in Hb. subst name. split; [done|]. by intros (b & bs & [=] & _). }
  rewrite load_bytes_cons in Hb by lia. subst name.
  destruct (sl_route_is_name_start (ld8 (w_mem w) (str_ptr v))) eqn:E1; cbn [negb]; split.
  - intros H. exists (ld8 (w_mem w) (str_ptr v)), (load_bytes (w_mem w) (str_ptr v + 1) (str_length v - 1)).
    split_and!; [done|done|]. by apply all_bytes_spec with (ok := sl_route_is_name_continue).
  - intros (b & bs & [= <- <-] & _ & H). by apply all_bytes_spec with (ok := sl_route_is_name_continue) in H.
  - done.
  - intros (b & bs & [= <- <-] & H & _). congruence.
Qed.

Lemma name_duplicate_spec w segments specs v name :
  Forall2 (parsed_as w) segments specs -> kept_view w v name ->
  sl_route_name_duplicate (w_mem w) segments v = bool_decide (name ∈ spec_names specs).
Proof.
  intros Hf Hv. induction Hf as [|segment spec segments specs Hs Hf IH]; cbn [sl_route_name_duplicate].
  { symmetry. apply bool_decide_eq_false_2. by apply not_elem_of_nil. }
  destruct spec as [text|name' kind]; cbn in Hs; destruct Hs as (Ek & _ & _ & Hk); rewrite Ek, IH.
  - done.
  - destruct Hk as (Hk1 & _ & _ & Hk4), Hv as (Hv1 & _ & _ & Hv4).
    rewrite sl_str_equal_spec, Hk4, Hv4 by done. unfold spec_names. cbn [omap list_omap spec_name].
    change (bool_decide (SL_ROUTE_SEGMENT_PARAM = _)) with true. cbn [andb].
    destruct (bool_decide_reflect (name' = name)) as [E1|E1].
    + symmetry. apply bool_decide_eq_true_2. rewrite E1. by left.
    + apply bool_decide_ext. rewrite elem_of_cons. naive_solver.
Qed.

Definition fresh_spec (specs : list seg_spec) (spec : seg_spec) : Prop :=
  forall name, spec_name spec = Some name -> name ∉ spec_names specs.

(** What parsing one part gives: a segment that reads back as the part's unique
    meaning, a refusal when there is none or its name is taken, or exhaustion. *)
Definition segment_outcome (part : list Z) (specs : list seg_spec) (s : RouteSys)
    (r : result SlRouteSegment * RouteSys) : Prop :=
  match r with
  | (Ok segment, s') =>
      ro_ctx s' = ro_ctx s /\ ro_diag s' = ro_diag s /\ extends (ro_world s) (ro_world s') /\
      exists spec, segment_syntax part spec /\ fresh_spec specs spec /\ parsed_as (ro_world s') segment spec
  | (Err e, s') =>
      (refused s s' e /\ forall spec, segment_syntax part spec -> ~ fresh_spec specs spec) \/
      (exhausted e /\ s' = s)
  end.

Lemma in_world_eq {A} (c : ST World A) s :
  in_world c s = (fst (c (ro_world s)), set_ro_world (snd (c (ro_world s))) s).
Proof. unfold in_world, zoom. by destruct (c (ro_world s)). Qed.

Lemma set_ro_world_same s : set_ro_world (ro_world s) s = s.
Proof. by destruct s. Qed.

Lemma refuse_segment part specs s code message hint :
  code = SL_DIAG_INVALID_ROUTE_PATTERN \/ code = SL_DIAG_DUPLICATE_ROUTE_PARAM ->
  message ∈ route_literals -> hint ∈ route_literals ->
  (forall spec, segment_syntax part spec -> ~ fresh_spec specs spec) ->
  segment_outcome part specs s (sl_route_set_diag code message hint s).
Proof. intros Hc Hm Hh H. rewrite set_diag_eq. left. split; [by apply refused_intro|done]. Qed.

(** Copying the text of a segment whose meaning is known ends its parse. *)
Lemma copy_segment part specs spec v bytes (mk : SlStr -> SlRouteSegment) s :
  arena_wf (w_arena (ro_world s)) -> kept_view (ro_world s) v bytes ->
  segment_syntax part spec -> fresh_spec specs spec ->
  (forall w v', kept_view w v' bytes -> parsed_as w (mk v') spec) ->
  segment_outcome part specs s
    ((v' ← in_world (sl_route_copy_str REF v REF) ; mret (mk v')) s).
Proof.
  intros Hwf Hv Hs Hfr Hmk. unfold_st. rewrite in_world_eq.
  pose proof (copy_str_spec v bytes (ro_world s) Hwf Hv) as Hc.
  destruct (sl_route_copy_str REF v REF (ro_world s)) as [[out|e] w']; cbn [fst snd].
  - destruct Hc as [Hk He]. split_and!; [done|done|done|]. exists spec. split_and!; [done|done|]. by apply Hmk.
  - destruct Hc as [-> Hx]. right. split; [done|]. apply set_ro_world_same.
Qed.

Lemma parse_static_segment_spec v part specs s :
  arena_wf (w_arena (ro_world s)) -> kept_view (ro_world s) v part -> 0 < str_ptr v -> part <> [] ->
  hd 0 part <> open_brace ->
  segment_outcome part specs s (sl_route_parse_static_segment REF v s).
Proof.
  intros Hwf Hv Hp Hne Hhd. unfold sl_route_parse_static_segment.
  assert (Hc : forall b, sl_route_contains_byte (w_mem (ro_world s)) v b = bool_decide (b ∈ part)).
  { intros b. unfold sl_route_contains_byte, sl_route_str_valid.
    replace (negb (str_ptr v =? 0)) with true by lia. rewrite orb_true_r. cbn [negb].
    rewrite contains_byte_spec. destruct Hv as (_ & _ & _ & <-). done. }
  unfold mbind, st_bind at 1, gets. rewrite !Hc.
  destruct (bool_decide_reflect (open_brace ∈ part)) as [H1|H1];
    [|destruct (bool_decide_reflect (close_brace ∈ part)) as [H2|H2]]; cbn [orb].
  3:{ apply (copy_segment part specs (Static part) v part
               (fun text => {| seg_text := text; seg_param_name := sl_str_empty;
                               seg_kind := SL_ROUTE_SEGMENT_STATIC; seg_param_kind := SL_ROUTE_PARAM_STRING |}));
        [done|done|by split_and!|by intros name [=]|intros w v' Hk; by split_and!]. }
  all: apply refuse_segment; [auto|known|known|].
  all: intros [text|name kind] Hs; [destruct Hs as (<- & _ & ? & ?); done|].
  all: destruct Hs as (_ & ann & -> & _); done.
Qed.

Lemma kept_byte w v bytes i b :
  kept_view w v bytes -> bytes !! i = Some b -> ld8 (w_mem w) (str_ptr v + Z.of_nat i) = b.
Proof.
  intros (_ & _ & _ & <-) Hi. unfold str_val, load_bytes in Hi.
  pose proof (lookup_lt_Some _ _ _ Hi) as Hlt. rewrite length_load in Hlt.
  rewrite load_lookup in Hi by done. by injection Hi.
Qed.

Lemma kept_length w v bytes : kept_view w v bytes -> str_length v = Z.of_nat (length bytes).
Proof. intros ([Hl _] & _ & _ & <-). by rewrite length_str_val. Qed.

Lemma kept_braced w v inner :
  kept_view w v (open_brace :: inner ++ [close_brace]) ->
  ld8 (w_mem w) (str_ptr v) = open_brace /\
  ld8 (w_mem w) (str_ptr v + (str_length v - 1)) = close_brace /\
  str_length v = Z.of_nat (length inner) + 2.
Proof.
  intros Hk. pose proof (kept_length _ _ _ Hk) as Hl. cbn [length] in Hl. rewrite length_app in Hl. cbn in Hl.
  split_and!; [| |lia].
  - pose proof (kept_byte _ _ _ 0%nat open_brace Hk eq_refl) as H. by rewrite Z.add_0_r in H.
  - replace (str_length v - 1) with (Z.of_nat (S (length inner))) by lia. apply (kept_byte _ _ _ _ _ Hk).
    cbn. by apply list_lookup_middle.
Qed.

(** The guard of a parameter segment. *)
Lemma braced_guard w v part :
  kept_view w v part ->
  (str_length v <? 3) || negb (ld8 (w_mem w) (str_ptr v) =? open_brace)
    || negb (ld8 (w_mem w) (str_ptr v + (str_length v - 1)) =? close_brace) = false <->
  exists inner, part = open_brace :: inner ++ [close_brace] /\ inner <> [].
Proof.
  intros Hk. rewrite !orb_false_iff, !negb_false_iff, Z.ltb_ge, !Z.eqb_eq. split.
  - intros [[Hl Hf] Hz]. pose proof (kept_length _ _ _ Hk) as Hlen. destruct part as [|b part]; [cbn in Hlen; lia|].
    destruct part as [|c part _] using rev_ind; [cbn in Hlen; lia|].
    pose proof (kept_byte _ _ _ 0%nat b Hk eq_refl) as Hb. rewrite Z.add_0_r in Hb.
    cbn [length] in Hlen. rewrite length_app in Hlen. cbn in Hlen.
    assert (Hc : ld8 (w_mem w) (str_ptr v + (str_length v - 1)) = c).
    { replace (str_length v - 1) with (Z.of_nat (S (length part))) by lia.
      apply (kept_byte _ _ _ _ _ Hk). cbn. by apply list_lookup_middle. }
    exists part. split; [congruence|]. intros ->. cbn in Hlen. lia.
  - intros (inner & -> & Hne). destruct (kept_braced _ _ _ Hk) as (H1 & H2 & H3). split_and!; [|done|done].
    destruct inner; [done|]. cbn in H3. lia.
Qed.

Lemma param_syntax_braced part name kind :
  segment_syntax part (Param name kind) ->
  exists inner, part = open_brace :: inner ++ [close_brace] /\ inner <> [].
Proof.
  intros (Hn & ann & -> & _). exists (name ++ ann). split; [done|].
  destruct Hn as (b & bs & -> & _). done.
Qed.

(** The end of a parameter segment, once its name and kind are known. *)
Lemma finish_param_spec v part name kind segments specs s :
  arena_wf (w_arena (ro_world s)) -> kept_view (ro_world s) v name ->
  Forall2 (parsed_as (ro_world s)) segments specs -> segment_syntax part (Param name kind) ->
  segment_outcome part specs s
    ((if sl_route_name_duplicate (w_mem (ro_world s)) segments v
      then sl_route_set_diag SL_DIAG_DUPLICATE_ROUTE_PARAM "duplicate route parameter"
             "route parameter names must be unique within one pattern"
      else
        param_name ← in_world (sl_route_copy_str REF v REF) ;
        mret {| seg_text := sl_str_empty; seg_param_name := param_name; seg_kind := SL_ROUTE_SEGMENT_PARAM;
                seg_param_kind := kind |}) s).
Proof.
  intros Hwf Hk Hsegs Hsyn. rewrite (name_duplicate_spec _ _ specs v name Hsegs Hk).
  case_bool_decide as Hin.
  - apply refuse_segment; [auto|known|known|]. intros spec Hs Hfr.
    rewrite (segment_syntax_functional _ _ _ Hs Hsyn) in Hfr. by apply (Hfr name).
  - apply (copy_segment part specs (Param name kind) v name
             (fun v' => {| seg_text := sl_str_empty; seg_param_name := v'; seg_kind := SL_ROUTE_SEGMENT_PARAM;
                           seg_param_kind := kind |})); [done|done|done| |intros w v' Hk'; by split_and!].
    by intros name' [= <-].
Qed.

Lemma scan_inner_kept v inner s :
  kept_view (ro_world s) v inner ->
  match scan_inner (w_mem (ro_world s)) (str_ptr v) 0 None (Z.to_nat (str_length v)) s with
  | (Ok c, s') =>
      s' = s /\ ((c = None /\ (colon_byte ∉ inner)) \/
                 (exists a b, inner = a ++ colon_byte :: b /\ c = Some (Z.of_nat (length a)) /\ (colon_byte ∉ a)))
  | (Err e, s') => refused s s' e /\ forall name kind, ~ inner_syntax inner name kind
  end.
Proof.
  intros (_ & _ & _ & Hb).
  pose proof (scan_inner_spec (w_mem (ro_world s)) (str_ptr v) (Z.to_nat (str_length v)) 0 None s) as H.
  rewrite Z.add_0_r in H. cbv zeta in H. unfold str_val, load_bytes in Hb. rewrite Hb in H.
  destruct (scan_inner _ _ _ _ _ s) as [[c|e] s']; [done|]. destruct H as [Hr H]. split; [done|].
  intros name kind Hi. destruct (inner_syntax_clean _ _ _ Hi) as [H1 H2].
  destruct H as [?|[?|(a & b & -> & Ha & Hin)]]; [done..|].
  apply inner_syntax_typed in Hi as (_ & _ & Ht); [|done]. by apply type_names_clean in Ht as (_ & _ & ?).
Qed.

Lemma parse_param_segment_spec v part segments specs s :
  arena_wf (w_arena (ro_world s)) -> literals_kept (ro_world s) -> kept_view (ro_world s) v part ->
  0 < str_ptr v -> open_brace ∈ part \/ close_brace ∈ part ->
  Forall2 (parsed_as (ro_world s)) segments specs ->
  segment_outcome part specs s (sl_route_parse_param_segment REF v segments s).
Proof.
  intros Hwf Hlit Hk Hp Hbr Hsegs. unfold sl_route_parse_param_segment.
  assert (Hstatic : forall text, ~ segment_syntax part (Static text)).
  { intros text (<- & _ & ? & ?). by destruct Hbr. }
  unfold mbind at 1, st_bind at 1, gets. pose proof (braced_guard _ _ _ Hk) as Hg.
  destruct (_ || _) eqn:Eg.
  { apply refuse_segment; [auto|known|known|]. intros [text|name kind] Hs; [by apply Hstatic in Hs|].
    apply param_syntax_braced, Hg in Hs. done. }
  destruct (proj1 Hg eq_refl) as (inner & -> & Hne). clear Hg Eg Hbr Hstatic.
  set (iv := sl_str_from_parts (str_ptr v + 1) (str_length v - 2)).
  destruct (kept_braced _ _ _ Hk) as (_ & _ & Hlen).
  assert (Hki : kept_view (ro_world s) iv inner).
  { apply (kept_slice _ v _ _ [open_brace] inner [close_brace]); [done|done|cbn; lia|lia]. }
  assert (Hip : 0 < str_ptr iv) by (cbn; lia).
  unfold mbind at 1, st_bind at 1. pose proof (scan_inner_kept iv inner s Hki) as Hscan.
  assert (Hno : (forall name kind, ~ inner_syntax inner name kind) ->
    forall spec, segment_syntax (open_brace :: inner ++ [close_brace]) spec -> ~ fresh_spec specs spec).
  { intros Hno spec Hs _. apply braced_syntax in Hs as (name & kind & -> & Hi). by apply (Hno name kind). }
  destruct (scan_inner _ _ _ _ _ s) as [[colon|e] s1]; cycle 1.
  { left. destruct Hscan as [Hr Hi]. split; [done|]. by apply Hno. }
  destruct Hscan as [-> [[-> Hc]|(a & b & -> & -> & Hc)]].
  - destruct (sl_route_param_name_valid _ iv) eqn:Ev; cbn [negb].
    + apply (param_name_valid_spec _ _ _ Hki ltac:(lia)) in Ev. unfold mbind at 1, st_bind at 1.
      apply (finish_param_spec iv _ inner); [done|done|done|]. apply braced_syntax.
      exists inner, SL_ROUTE_PARAM_STRING. split; [done|]. by apply inner_syntax_plain.
    + apply refuse_segment; [auto|known|known|]. apply Hno. intros name kind Hi.
      apply inner_syntax_plain in Hi as (Hok & _); [|done].
      apply (param_name_valid_spec _ _ _ Hki ltac:(lia)) in Hok. congruence.
  - set (nv := sl_str_from_parts (str_ptr iv) (Z.of_nat (length a))).
    assert (Hkn : kept_view (ro_world s) nv a).
    { apply (kept_slice _ iv _ _ [] a (colon_byte :: b)); [done|done|cbn; lia|done]. }
    destruct (sl_route_param_name_valid _ nv) eqn:Ev; cbn [negb].
    2:{ apply refuse_segment; [auto|known|known|]. apply Hno. intros name kind Hi.
        apply inner_syntax_typed in Hi as (Hok & _); [|done].
        apply (param_name_valid_spec _ _ _ Hkn ltac:(cbn in *; lia)) in Hok. congruence. }
    apply (param_name_valid_spec _ _ _ Hkn ltac:(cbn in *; lia)) in Ev.
    pose proof (kept_length _ _ _ Hki) as Hil. rewrite length_app in Hil. cbn [length] in Hil.
    unfold mbind at 1, st_bind at 1. destruct (Z.leb_spec (str_length iv) (Z.of_nat (length a) + 1)) as [He|He].
    { apply (refuse_segment _ specs s); [auto|known|known|]. apply Hno. intros name kind Hi.
      apply inner_syntax_typed in Hi as (_ & _ & Ht); [|done]. destruct b; [|cbn [length] in Hil; lia].
      unfold type_names in Ht. rewrite !elem_of_cons, elem_of_nil in Ht. naive_solver. }
    set (tv := sl_str_from_parts _ _).
    assert (Hkt : kept_view (ro_world s) tv b).
    { apply (kept_slice _ iv _ _ (a ++ [colon_byte]) b []);
        [by rewrite app_nil_r, <- app_assoc|done|rewrite length_app; cbn; lia|lia]. }
    pose proof (parse_param_type_spec tv b s Hlit Hkt) as Hty.
    destruct (sl_route_parse_param_type tv s) as [[kind|e] s2].
    + destruct Hty as [-> Hty]. apply (finish_param_spec nv _ a); [done|done|done|]. apply braced_syntax.
      exists a, kind. split; [done|]. by apply inner_syntax_typed.
    + destruct Hty as [Hr Hty]. left. split; [done|]. apply Hno. intros name kind Hi.
      apply inner_syntax_typed in Hi as (_ & _ & Ht); [|done]. by apply Hty in Ht.
Qed.

Lemma parse_segment_spec v part segments specs s :
  arena_wf (w_arena (ro_world s)) -> literals_kept (ro_world s) -> kept_view (ro_world s) v part ->
  0 < str_ptr v -> Forall2 (parsed_as (ro_world s)) segments specs ->
  segment_outcome part specs s (sl_route_parse_segment REF v segments s).
Proof.
  intros Hwf Hlit Hk Hp Hsegs. unfold sl_route_parse_segment, mbind, st_bind at 1, gets.
  pose proof (kept_length _ _ _ Hk) as Hl. destruct (Z.eqb_spec (str_length v) 0) as [E|E].
  { apply refuse_segment; [auto|known|known|]. destruct part; [|cbn in Hl; lia].
    intros [text|name kind] Hs; [by destruct Hs as (<- & ? & _)|]. by destruct Hs as (_ & ann & ? & _). }
  destruct part as [|b part]; [cbn in Hl; lia|].
  pose proof (kept_byte _ _ _ 0%nat b Hk eq_refl) as Hb. rewrite Z.add_0_r in Hb.
  destruct (exists_last (l := b :: part)) as (init & c & Ec); [done|].
  assert (Hc : ld8 (w_mem (ro_world s)) (str_ptr v + (str_length v - 1)) = c).
  { rewrite Ec, length_app in Hl. cbn in Hl. replace (str_length v - 1) with (Z.of_nat (length init)) by lia.
    apply (kept_byte _ _ _ _ _ Hk). rewrite Ec. by apply list_lookup_middle. }
  rewrite Hb, Hc. destruct ((b =? open_brace) || (c =? close_brace)) eqn:Eb.
  - apply parse_param_segment_spec; try done.
    apply orb_true_iff in Eb as [->%Z.eqb_eq| ->%Z.eqb_eq]; [left; by left|right].
    rewrite Ec. apply elem_of_app. right. by left.
  - apply orb_false_iff in Eb as [?%Z.eqb_neq _]. by apply parse_static_segment_spec.
Qed.

(** * The loop over the pattern *)

Lemma split_next m ptr len pos :
  0 <= pos <= len ->
  let e := segment_end_loop m ptr pos (Z.to_nat (len - pos)) in
  pos <= e <= len /\
  split_slash (load_bytes m (ptr + pos) (len - pos)) =
    load_bytes m (ptr + pos) (e - pos) ::
    (if e =? len then [] else split_slash (load_bytes m (ptr + (e + 1)) (len - (e + 1)))).
Proof.
  intros Hpos e. destruct (segment_end_spec m ptr pos (Z.to_nat (len - pos))) as (He & Hn & Hs).
  fold e in He, Hn, Hs. rewrite Z2Nat.id in He, Hs by lia. split; [lia|].
  destruct (Z.eqb_spec e len) as [->|Hne].
  - by apply split_slash_none.
  - replace (len - pos) with ((e - pos) + (len - e)) by lia. rewrite load_bytes_app by lia.
    replace (ptr + pos + (e - pos)) with (ptr + e) by lia. rewrite (load_bytes_cons m (ptr + e)) by lia.
    destruct Hs as [Hs|Hs]; [lia|]. rewrite Hs, split_slash_first by done.
    replace (ptr + e + 1) with (ptr + (e + 1)) by lia. by replace (len - e - 1) with (len - (e + 1)) by lia.
Qed.

Lemma spec_names_app l1 l2 : spec_names (l1 ++ l2) = spec_names l1 ++ spec_names l2.
Proof. apply omap_app. Qed.

Lemma specs_ok_prefix l1 l2 : specs_ok (l1 ++ l2) -> specs_ok l1.
Proof.
  intros (H1 & H2 & H3). rewrite spec_names_app in *. rewrite length_app in H1, H2.
  apply NoDup_app in H3 as (H3 & _). split_and!; [lia|lia|done].
Qed.

(** Adding one segment keeps the bounds unless it is one too many. *)
Lemma specs_ok_snoc specs spec :
  specs_ok specs ->
  specs_ok (specs ++ [spec]) <->
  Z.of_nat (length specs) < SL_ROUTE_MAX_SEGMENTS /\ fresh_spec specs spec /\
  (spec_name spec <> None -> Z.of_nat (length (spec_names specs)) < SL_ROUTE_MAX_PARAMS).
Proof.
  intros (H1 & H2 & H3). unfold specs_ok, fresh_spec. rewrite spec_names_app, !length_app, NoDup_app.
  destruct spec as [text|name kind]; cbn [spec_name]; unfold spec_names at 2 5 6; cbn.
  - split.
    + intros (H & _). split_and!; [lia|by intros ? [=]|done].
    + intros (H & _ & _). split_and!; [lia|lia|done|by intros ? _ ?%elem_of_nil|constructor].
  - split.
    + intros (H & Hp & _ & Hd & _). split_and!; [lia| |lia]. intros n [= <-] Hin. apply (Hd name Hin). by left.
    + intros (H & Hf & Hp). specialize (Hp ltac:(done)). split_and!; [lia|lia|done| |].
      * intros n Hin Hn. apply elem_of_cons in Hn as [->|Hn%elem_of_nil]; [|done]. by apply (Hf name).
      * apply NoDup_singleton.
Qed.

Definition loop_outcome (parts : list (list Z)) (specs : list seg_spec) (s : RouteSys)
    (r : result (list SlRouteSegment * Z) * RouteSys) : Prop :=
  extends (ro_world s) (ro_world (snd r)) /\ ro_diag (snd r) = ro_diag s /\
  match r with
  | (Ok (segments, param_count), s') =>
      ro_ctx s' = ro_ctx s /\
      exists new, Forall2 segment_syntax parts new /\ specs_ok (specs ++ new) /\
        Forall2 (parsed_as (ro_world s')) segments (specs ++ new) /\
        param_count = Z.of_nat (length (spec_names (specs ++ new)))
  | (Err e, s') =>
      (e = SL_STATUS_INVALID_ARGUMENT /\ diag_set s' /\
       forall new, Forall2 segment_syntax parts new -> ~ specs_ok (specs ++ new)) \/
      (exhausted e /\ ro_ctx s' = ro_ctx s)
  end.

Lemma refuse_loop parts specs s w message hint :
  extends (ro_world s) w ->
  message ∈ route_literals -> hint ∈ route_literals ->
  (forall new, Forall2 segment_syntax parts new -> ~ specs_ok (specs ++ new)) ->
  loop_outcome parts specs s (sl_route_invalid_pattern message hint (set_ro_world w s)).
Proof.
  intros He Hm Hh H. unfold sl_route_invalid_pattern. rewrite set_diag_eq. split_and!; [done|done|].
  left. split_and!; [done| |done]. eexists _, message, hint. split_and!; [by left|done|done|reflexivity].
Qed.

Lemma parsed_kind w segment spec :
  parsed_as w segment spec ->
  bool_decide (seg_kind segment = SL_ROUTE_SEGMENT_PARAM) = bool_decide (is_Some (spec_name spec)).
Proof. destruct spec; cbn; by intros (-> & _). Qed.

Lemma names_snoc specs spec :
  Z.of_nat (length (spec_names (specs ++ [spec]))) =
  Z.of_nat (length (spec_names specs)) + (if bool_decide (is_Some (spec_name spec)) then 1 else 0).
Proof. rewrite spec_names_app, length_app. destruct spec; cbn; lia. Qed.

Lemma same_but_world s s' : ro_ctx s' = ro_ctx s -> ro_diag s' = ro_diag s -> s' = set_ro_world (ro_world s') s.
Proof. destruct s, s'. cbn. by intros -> ->. Qed.

Lemma no_extension parts part specs spec :
  segment_syntax part spec -> ~ specs_ok (specs ++ [spec]) ->
  forall new, Forall2 segment_syntax (part :: parts) new -> ~ specs_ok (specs ++ new).
Proof.
  intros Hs Hno new Hf Hok. apply Forall2_cons_inv_l in Hf as (spec' & new' & Hs' & _ & ->).
  rewrite (segment_syntax_functional _ _ _ Hs' Hs), cons_middle, app_assoc in Hok. by apply specs_ok_prefix in Hok.
Qed.

Lemma parse_loop_spec text pattern fuel : forall pos segments specs s,
  arena_wf (w_arena (ro_world s)) -> literals_kept (ro_world s) -> kept_view (ro_world s) text pattern ->
  0 < str_ptr text -> 0 <= pos <= str_length text -> (Z.to_nat (str_length text - pos) < fuel)%nat ->
  Forall2 (parsed_as (ro_world s)) segments specs -> specs_ok specs ->
  loop_outcome (split_slash (load_bytes (w_mem (ro_world s)) (str_ptr text + pos) (str_length text - pos))) specs s
    (parse_segments_loop fuel REF text pos segments (Z.of_nat (length (spec_names specs))) s).
Proof.
  induction fuel as [|fuel IH]; intros pos segments specs s Hwf Hlit Hk Hp Hpos Hfuel Hsegs Hok; [lia|].
  cbn [parse_segments_loop]. destruct (Z.leb_spec pos (str_length text)) as [_|]; [cbn [negb]|lia].
  unfold mbind at 1, st_bind at 1, gets.
  destruct (split_next (w_mem (ro_world s)) (str_ptr text) (str_length text) pos Hpos) as [He Hsplit].
  set (e := segment_end_loop _ _ _ _) in *. rewrite Hsplit. clear Hsplit.
  set (m := w_mem (ro_world s)) in *. set (part := load_bytes m (str_ptr text + pos) (e - pos)) in *.
  set (rest := if e =? _ then _ else _).
  rewrite (Forall2_length _ _ _ Hsegs). destruct (Z.leb_spec SL_ROUTE_MAX_SEGMENTS (Z.of_nat (length specs))) as [Hmax|Hmax].
  { pose proof (refuse_loop (part :: rest) specs s (ro_world s)) as Hr. rewrite set_ro_world_same in Hr.
    apply Hr; [by apply extends_refl|known|known|].
    intros new Hf (Hn & _). apply Forall2_length in Hf. rewrite length_app in Hn. cbn in Hf. lia. }
  set (v := sl_str_from_parts _ _).
  assert (Hkv : kept_view (ro_world s) v part).
  { destruct Hk as (_ & Hs & Ho & _). unfold kept_view. cbn [v str_ptr str_length sl_str_from_parts].
    split_and!; [split; cbn; lia|size_lia|eapply outside_free_sub; [exact Ho|lia|lia]|done]. }
  unfold mbind at 1, st_bind at 1.
  pose proof (parse_segment_spec v part segments specs s Hwf Hlit Hkv ltac:(cbn; lia) Hsegs) as Hseg.
  destruct (sl_route_parse_segment REF v segments s) as [[segment|err] s1].
  2:{ destruct Hseg as [[(-> & Hw & Hd & Hset) Hno]|[Hx ->]].
      - split_and!; [cbn; rewrite Hw; by apply extends_refl|done|]. left. split_and!; [done|done|].
        intros new Hf. pose proof Hf as Hf'. apply Forall2_cons_inv_l in Hf' as (spec & new' & Hs & _ & _).
        apply (no_extension rest part specs spec Hs); [|done]. rewrite specs_ok_snoc by done.
        intros (_ & Hfr & _). by apply (Hno spec Hs).
      - split_and!; [by apply extends_refl|done|]. by right. }
  destruct Hseg as (Hctx & Hdiag & Hext & spec & Hsyn & Hfr & Hpar).
  rewrite (parsed_kind _ _ _ Hpar). set (isp := bool_decide (is_Some (spec_name spec))).
  destruct (isp && (SL_ROUTE_MAX_PARAMS <=? Z.of_nat (length (spec_names specs)))) eqn:Epar.
  { rewrite (same_but_world s s1 Hctx Hdiag). apply refuse_loop; [done|known|known|].
    apply (no_extension rest part specs spec Hsyn). rewrite specs_ok_snoc by done. intros (_ & _ & Hl).
    apply andb_true_iff in Epar as [Ei Hm%Z.leb_le]. unfold isp in Ei. apply bool_decide_eq_true in Ei as [n En].
    specialize (Hl ltac:(congruence)). lia. }
  assert (Hok' : specs_ok (specs ++ [spec])).
  { apply specs_ok_snoc; [done|]. split_and!; [done|done|]. intros Hsome.
    apply andb_false_iff in Epar as [Ei|Hm%Z.leb_gt]; [|done]. unfold isp in Ei.
    apply bool_decide_eq_false in Ei. by rewrite <- eq_None_not_Some in Ei. }
  assert (Hsegs' : Forall2 (parsed_as (ro_world s1)) (segments ++ [segment]) (specs ++ [spec])).
  { apply Forall2_app; [|by constructor]. eapply Forall2_impl; [exact Hsegs|]. intros. by eapply parsed_as_extends. }
  replace (if isp then _ else _) with (Z.of_nat (length (spec_names (specs ++ [spec]))))
    by (rewrite names_snoc; fold isp; destruct isp; lia).
  subst rest. destruct (Z.eqb_spec e (str_length text)) as [Ee|Ee].
  { split_and!; [done|done|]. split; [done|]. exists [spec]. split_and!; [by constructor|done|done|done]. }
  assert (Hrest : load_bytes m (str_ptr text + (e + 1)) (str_length text - (e + 1)) =
                  load_bytes (w_mem (ro_world s1)) (str_ptr text + (e + 1)) (str_length text - (e + 1))).
  { symmetry. apply (extends_load (ro_world s)); [done|]. destruct Hk as (_ & _ & Ho & _).
    eapply outside_free_sub; [exact Ho|lia|lia]. }
  rewrite Hrest.
  specialize (IH (e + 1) (segments ++ [segment]) (specs ++ [spec]) s1 (ext_wf _ _ Hext)
    (literals_kept_extends _ _ Hext Hlit) (kept_view_extends _ _ _ _ Hext Hk) Hp ltac:(lia) ltac:(lia) Hsegs' Hok').
  destruct (parse_segments_loop fuel REF text (e + 1) _ _ s1) as [[[segs' pc]|err] s2];
    destruct IH as (Hx & Hd & H); cbn [snd] in *; (split; [by eapply extends_trans|]); (split; [cbn [snd]; congruence|]).
  - destruct H as (Hc & new & Hf & Hok2 & Hsegs2 & ->). split; [congruence|]. exists (spec :: new).
    rewrite <- app_assoc in Hok2, Hsegs2 |- *. cbn [app] in *. split_and!; [by constructor|done|done|done].
  - destruct H as [(-> & Hset & Hno)|[Hxh Hc]]; [left|right; split; [done|congruence]].
    split_and!; [done|done|]. intros new Hf. apply Forall2_cons_inv_l in Hf as (spec' & new' & Hs' & Hf & ->).
    rewrite (segment_syntax_functional _ _ _ Hs' Hsyn). specialize (Hno new' Hf). by rewrite <- app_assoc in Hno.
Qed.

(** * The whole pattern *)

Definition pattern_outcome (pattern : list Z) (s : RouteSys)
    (r : result (list SlRouteSegment * Z) * RouteSys) : Prop :=
  extends (ro_world s) (ro_world (snd r)) /\ ro_diag (snd r) = ro_diag s /\
  match r with
  | (Ok (segments, param_count), s') =>
      ro_ctx s' = ro_ctx s /\
      exists specs, pattern_syntax pattern specs /\ Forall2 (parsed_as (ro_world s')) segments specs /\
        param_count = Z.of_nat (length (spec_names specs))
  | (Err e, s') =>
      (e = SL_STATUS_INVALID_ARGUMENT /\ diag_set s' /\ forall specs, ~ pattern_syntax pattern specs) \/
      (exhausted e /\ ro_ctx s' = ro_ctx s)
  end.

Lemma refuse_pattern pattern s message hint :
  arena_wf (w_arena (ro_world s)) -> message ∈ route_literals -> hint ∈ route_literals ->
  (forall specs, ~ pattern_syntax pattern specs) ->
  pattern_outcome pattern s (sl_route_invalid_pattern message hint s).
Proof.
  intros Hwf Hm Hh H. unfold sl_route_invalid_pattern. rewrite set_diag_eq.
  split_and!; [by apply extends_refl|done|]. left. split_and!; [done| |done].
  eexists _, message, hint. split_and!; [by left|done|done|reflexivity].
Qed.

Lemma pattern_syntax_length pattern specs :
  pattern_syntax pattern specs -> Z.of_nat (length specs) <= SL_ROUTE_MAX_SEGMENTS.
Proof. intros (rest & _ & _ & [[_ ->]|(_ & _ & H & _)]); [done|exact H]. Qed.

Lemma parse_pattern_segments_spec text pattern s :
  arena_wf (w_arena (ro_world s)) -> literals_kept (ro_world s) -> kept_view (ro_world s) text pattern ->
  0 < str_ptr text -> pattern <> [] ->
  pattern_outcome pattern s (sl_route_parse_pattern_segments REF text s).
Proof.
  intros Hwf Hlit Hk Hp Hne. unfold sl_route_parse_pattern_segments, mbind, st_bind at 1, gets.
  destruct pattern as [|b rest]; [done|]. pose proof (kept_length _ _ _ Hk) as Hl. cbn [length] in Hl.
  pose proof (kept_byte _ _ _ 0%nat b Hk eq_refl) as Hb. rewrite Z.add_0_r in Hb. rewrite Hb.
  destruct (Z.eqb_spec b slash) as [->|Hns]; cbn [negb].
  2:{ apply refuse_pattern; [done|known|known|]. by intros specs (rest' & [= -> _] & _). }
  replace (sl_route_contains_byte _ _ _) with (bool_decide (question ∈ slash :: rest)).
  2:{ unfold sl_route_contains_byte, sl_route_str_valid. replace (negb (str_ptr text =? 0)) with true by lia.
      rewrite orb_true_r. cbn [negb]. rewrite contains_byte_spec. by destruct Hk as (_ & _ & _ & <-). }
  case_bool_decide as Hq.
  { apply refuse_pattern; [done|known|known|]. by intros specs (rest' & _ & Hn & _). }
  destruct (Z.eqb_spec (str_length text) 1) as [E1|E1].
  { assert (rest = []) as -> by (apply length_zero_iff_nil; lia).
    split_and!; [by apply extends_refl|done|]. split; [done|]. exists []. split; [|split; [constructor|done]].
    exists []. split_and!; [done|done|by left]. }
  assert (Hrest : load_bytes (w_mem (ro_world s)) (str_ptr text + 1) (str_length text - 1) = rest).
  { destruct Hk as (_ & _ & _ & Hv). unfold str_val in Hv. rewrite load_bytes_cons in Hv by lia. by injection Hv. }
  pose proof (parse_loop_spec text (slash :: rest) (S (Z.to_nat (str_length text))) 1 [] [] s Hwf Hlit Hk Hp
    ltac:(lia) ltac:(lia) ltac:(constructor)) as H.
  assert (Hok0 : specs_ok []) by (split_and!; [done|done|constructor]). specialize (H Hok0). rewrite Hrest in H.
  assert (Hnil : rest <> []) by (intros ->; cbn in Hl; lia).
  change (Z.of_nat (length (spec_names []))) with 0 in H.
  destruct (parse_segments_loop _ _ _ _ _ _ s) as [[[segs pc]|e] s']; destruct H as (He & Hd & H);
    (split; [done|split; [done|]]).
  - destruct H as (Hc & new & Hf & Hok & Hsegs & ->). split; [done|]. exists new. split_and!; [|done|done].
    exists rest. split_and!; [done|done|by right].
  - destruct H as [(-> & Hset & Hno)|H]; [left|by right]. split_and!; [done|done|].
    intros specs (rest' & [= <-] & _ & [[? _]|(_ & Hf & Hok)]); [done|]. by apply (Hno specs Hf).
Qed.

(** What the finished pattern tells its reader. *)
Definition pattern_reads (w : World) (pat : SlRoutePattern) (pattern : list Z) (specs : list seg_spec) : Prop :=
  kept_view w (pat_source pat) pattern /\
  Forall2 (parsed_as w) (default [] (pat_segments pat)) specs /\
  (pat_segments pat = None <-> specs = []) /\
  pat_segment_count pat = Z.of_nat (length specs) /\
  pat_param_count pat = Z.of_nat (length (spec_names specs)).

Lemma finalize_pattern_spec text pattern parsed segments specs pc s :
  arena_wf (w_arena (ro_world s)) -> kept_view (ro_world s) text pattern ->
  Forall2 (parsed_as (ro_world s)) segments specs -> pc = Z.of_nat (length (spec_names specs)) ->
  Z.of_nat (length specs) <= SL_ROUTE_MAX_SEGMENTS ->
  parsed <> 0 -> outside_free (w_arena (ro_world s)) parsed (SL_ROUTE_MAX_SEGMENTS * route_segment_size) ->
  match sl_route_finalize_pattern REF text parsed segments pc s with
  | (Ok pat, s') => pattern_reads (ro_world s') pat pattern specs /\ keeps (ro_world s) (ro_world s')
  | (Err e, s') => exhausted e /\ extends (ro_world s) (ro_world s') /\ ro_ctx s' = ro_ctx s /\ ro_diag s' = ro_diag s
  end.
Proof.
  intros Hwf Hk Hsegs -> Hmax Hp Ho. unfold sl_route_finalize_pattern. unfold_st. rewrite in_world_eq.
  pose proof (copy_str_spec text pattern (ro_world s) Hwf Hk) as Hc.
  destruct (sl_route_copy_str REF text REF (ro_world s)) as [[src|e] w1]; cbn [fst snd].
  2:{ destruct Hc as [-> Hx]. split_and!; [done|by apply extends_refl|done|done]. }
  destruct Hc as [Hsrc He]. pose proof (Forall2_length _ _ _ Hsegs) as Hlen.
  assert (Hsegs1 : Forall2 (parsed_as w1) segments specs).
  { eapply Forall2_impl; [exact Hsegs|]. intros. by eapply parsed_as_extends. }
  destruct (Z.eqb_spec (Z.of_nat (length segments)) 0) as [E0|E0]; cbn [negb].
  { split; [|by apply extends_keeps]. assert (segments = []) as -> by (apply length_zero_iff_nil; lia).
    apply Forall2_nil_inv_l in Hsegs1 as ->. split_and!; [done|constructor|done|done|done]. }
  rewrite in_world_eq. cbn [ro_world set_ro_world].
  assert (Ho1 : outside_free (w_arena w1) parsed (Z.of_nat (length segments) * route_segment_size)).
  { eapply outside_free_sub; [apply (extends_outside _ _ _ _ He), Ho|lia|].
    unfold SL_ROUTE_MAX_SEGMENTS, route_segment_size in *. lia. }
  pose proof (array_copy_spec parsed (Z.of_nat (length segments)) route_segment_size route_segment_alignment w1
    (ext_wf _ _ He)) as Ha. unfold SL_ROUTE_MAX_SEGMENTS, route_segment_size, route_segment_alignment in *.
  specialize (Ha ltac:(size_lia) ltac:(size_lia) ltac:(size_lia) ltac:(lia) ltac:(lia) Hp Ho1).
  destruct (sl_arena_array_copy _ _ _ _ _ _ w1) as [[sl|e] w2] eqn:Ecopy; cbn [fst snd].
  - destruct Ha as (_ & _ & Hf & _). pose proof (fresh_keeps _ _ _ _ Hf) as Hkeep. split.
    + split_and!; [by eapply kept_view_keeps| |split; [done|]|cbn; lia|done].
      * cbn. eapply Forall2_impl; [exact Hsegs1|]. intros. by eapply parsed_as_keeps.
      * cbn. intros ->. cbn in Hlen. lia.
    + eapply keeps_trans; [by apply extends_keeps|done].
  - apply array_copy_exhausted in Ecopy as [-> Hx]; [|apply He|size_lia|size_lia|size_lia|lia|done|done].
    by split_and!.
Qed.

(** * Failure: rollback and diagnostic *)

Lemma diag_copy_spec v bytes w :
  arena_wf (w_arena w) -> kept_view w v bytes ->
  match sl_diag_copy_str REF v REF w with
  | (Ok out, w') => kept_view w' out bytes /\ keeps w w'
  | (Err c, w') => w' = w /\ exhausted c
  end.
Proof.
  intros Hwf (Hv & Hs & Ho & Hb). unfold sl_diag_copy_str. unfold_st. cbn [is_null orb].
  replace (sl_diag_str_is_valid v) with true by (unfold sl_diag_str_is_valid; destruct Hv; lia). cbn [negb].
  destruct (Z.eqb_spec (str_length v) 0) as [E|E].
  { split; [|by apply keeps_refl]. unfold str_val in Hb. rewrite E in Hb. subst bytes.
    split_and!; [split; cbn; lia|cbn; size_lia| |done]. unfold outside_free, disjoint_ranges. cbn. lia. }
  destruct Hv as [Hv0 [|Hv1]]; [lia|].
  pose proof (array_copy_spec (str_ptr v) (str_length v) 1 1 w Hwf Hs ltac:(size_lia) ltac:(size_lia)
    ltac:(lia) ltac:(lia) Hv1) as Ha. rewrite Z.mul_1_r in Ha. specialize (Ha Ho).
  destruct (sl_arena_array_copy _ _ _ _ _ _ w) as [[sl|e] w'] eqn:Ecopy.
  - destruct Ha as (_ & _ & Hf & Hload). split; [|by eapply fresh_keeps]. destruct Hf as [F1 F2 F3 F4 F5 F6].
    split_and!; [split; cbn; lia|done|done|]. unfold str_val in *. cbn. by rewrite Hload.
  - apply array_copy_exhausted in Ecopy; [done|done|done|size_lia|size_lia|lia|done|done].
Qed.

(** The diagnostic reported to the caller: an error of the parser with one hint,
    its texts in the arena. *)
Definition diag_reported (s : RouteSys) : Prop :=
  exists message hint hint_view,
    message ∈ route_literals /\ hint ∈ route_literals /\
    dg_severity (ro_diag s) = SL_DIAG_SEVERITY_ERROR /\
    (dg_code (ro_diag s) = SL_DIAG_INVALID_ROUTE_PATTERN \/ dg_code (ro_diag s) = SL_DIAG_DUPLICATE_ROUTE_PARAM) /\
    kept_view (ro_world s) (dg_message (ro_diag s)) (string_bytes message) /\
    dg_hints (ro_diag s) = [hint_view] /\ kept_view (ro_world s) hint_view (string_bytes hint).

Lemma route_literals_nonempty l : l ∈ route_literals -> string_size l <> 0.
Proof.
  intros Hin. assert (H : Forall (fun l => string_size l <> 0) route_literals)
    by (apply (bool_decide_unpack _); vm_compute; exact I).
  rewrite Forall_forall in H. by apply H.
Qed.

Lemma finish_diag_spec s :
  arena_wf (w_arena (ro_world s)) -> literals_kept (ro_world s) -> diag_set s ->
  match sl_route_finish_diag REF REF s with
  | (Ok tt, s') => keeps (ro_world s) (ro_world s') /\ diag_reported s'
  | (Err e, s') => keeps (ro_world s) (ro_world s') /\ exhausted e
  end.
Proof.
  intros Hwf Hlit (code & message & hint & Hcode & Hm & Hh & Hctx). unfold sl_route_finish_diag. unfold_st.
  rewrite Hctx. cbn [ctx_code ctx_message ctx_hint is_null orb].
  replace (code =? SL_DIAG_NONE) with false by (destruct Hcode as [-> | ->]; done).
  unfold literals_kept in Hlit. rewrite Forall_forall in Hlit.
  rewrite in_world_eq. cbn [ro_world set_ro_diag]. unfold sl_diag_builder_init. unfold_st.
  pose proof (diag_copy_spec _ _ (ro_world s) Hwf (Hlit message Hm)) as H1.
  destruct (sl_diag_copy_str REF (literal message) REF (ro_world s)) as [[mv|e] w1]; cbn [fst snd].
  2:{ destruct H1 as [-> Hx]. split; [by apply keeps_refl|done]. }
  destruct H1 as [Hmv Hk1].
  replace (sl_str_is_empty (literal hint)) with false.
  2:{ symmetry. apply Z.eqb_neq. by apply route_literals_nonempty. }
  cbn [negb]. rewrite in_world_eq. cbn [ro_world set_ro_world]. unfold sl_diag_builder_add_hint. unfold_st.
  cbn [is_null dg_hints length]. change (SL_DIAG_MAX_HINTS <=? Z.of_nat 0) with false. cbv beta iota.
  pose proof (diag_copy_spec _ _ w1 (proj1 Hk1) (kept_view_keeps _ _ _ _ Hk1 (Hlit hint Hh))) as H2.
  destruct (sl_diag_copy_str REF (literal hint) REF w1) as [[hv|e] w2]; cbn [fst snd].
  2:{ destruct H2 as [-> Hx]. by split. }
  destruct H2 as [Hhv Hk2]. split; [by eapply keeps_trans|].
  exists message, hint, hv. cbn. split_and!; [done|done|done|done|by eapply kept_view_keeps|done|done].
Qed.

(** Rolling back to the mark taken before the parse. *)
Lemma rollback_spec w0 w :
  arena_wf (w_arena w0) -> extends w0 w ->
  exists w', sl_arena_reset_to REF (sl_arena_mark REF w0) w = (Ok tt, w') /\ extends w0 w' /\
             ar_offset (w_arena w') = ar_offset (w_arena w0).
Proof.
  intros Hwf0 [Hwf Hb Hc Hg Ho Hm].
  destruct (sl_arena_reset_to REF (sl_arena_mark REF w0) w) as [[[]|e] w'] eqn:E.
  - apply sl_arena_reset_to_ok in E as (_ & Hle & Ha & Hs); [|done|cbn; unfold arena_wf in Hwf0; lia].
    cbn in Hle, Ha, Hs. exists w'. split; [done|]. rewrite Ha. split; [|done]. split; rewrite ?Ha; cbn; try done; [unfold arena_wf in *; cbn; lia|].
    eapply same_outside_trans; [exact Hm|]. eapply same_outside_weaken; [exact Hs|lia|].
    unfold arena_wf in Hwf. lia.
  - exfalso. revert E. unfold sl_arena_reset_to. unfold_st. cbn. rewrite Hg, Z.eqb_refl. cbn.
    destruct (Z.ltb_spec (ar_offset (w_arena w)) (ar_offset (w_arena w0))); [lia|].
    destruct (Z.ltb_spec (ar_capacity (w_arena w)) (ar_offset (w_arena w0))); [unfold arena_wf in Hwf; lia|]. done.
Qed.

Lemma parse_body_spec text pattern parsed s :
  arena_wf (w_arena (ro_world s)) -> literals_kept (ro_world s) -> kept_view (ro_world s) text pattern ->
  0 <= str_ptr text -> parsed <> 0 ->
  outside_free (w_arena (ro_world s)) parsed (SL_ROUTE_MAX_SEGMENTS * route_segment_size) ->
  match route_parse_body REF text parsed s with
  | (Ok pat, s') =>
      exists specs, pattern_syntax pattern specs /\ pattern_reads (ro_world s') pat pattern specs /\
                    keeps (ro_world s) (ro_world s')
  | (Err e, s') =>
      extends (ro_world s) (ro_world s') /\
      ((e = SL_STATUS_INVALID_ARGUMENT /\ diag_set s' /\ forall specs, ~ pattern_syntax pattern specs) \/
       (exhausted e /\ ro_ctx s' = ro_ctx s))
  end.
Proof.
  intros Hwf Hlit Hk Hp Hparsed Ho. unfold route_parse_body. pose proof (kept_length _ _ _ Hk) as Hl.
  destruct (Z.eqb_spec (str_length text) 0) as [E|E].
  { assert (pattern = []) as -> by (apply length_zero_iff_nil; lia).
    assert (Hno : forall specs, ~ pattern_syntax [] specs) by (by intros specs (rest & [=] & _)).
    destruct (refuse_pattern [] s "route pattern must not be empty"
      "route patterns must be absolute paths such as / or /users/{id}" Hwf ltac:(known) ltac:(known) Hno)
      as (He & _ & H). by split. }
  assert (Hpos : 0 < str_ptr text) by (destruct Hk as ([_ [|]] & _); lia).
  assert (Hne : pattern <> []) by (intros ->; cbn in Hl; lia).
  unfold_st. pose proof (parse_pattern_segments_spec text pattern s Hwf Hlit Hk Hpos Hne) as H.
  destruct (sl_route_parse_pattern_segments REF text s) as [[[segs pc]|e] s1]; destruct H as (He & Hd & H);
    cbn [snd] in He; [|by split].
  destruct H as (Hctx & specs & Hsyn & Hsegs & Hpc).
  pose proof (finalize_pattern_spec text pattern parsed segs specs pc s1 (ext_wf _ _ He)
    (kept_view_extends _ _ _ _ He Hk) Hsegs Hpc (pattern_syntax_length _ _ Hsyn) Hparsed
    (extends_outside _ _ _ _ He Ho)) as Hf.
  destruct (sl_route_finalize_pattern REF text parsed segs pc s1) as [[pat|e] s2].
  - destruct Hf as [Hr Hk2]. exists specs. split_and!; [done|done|]. eapply keeps_trans; [by apply extends_keeps|done].
  - destruct Hf as (Hx & He2 & Hc2 & _). split; [by eapply extends_trans|]. right. split; [done|congruence].
Qed.

Lemma pattern_parse_eq text parsed out_diag s :
  sl_route_str_valid text = true ->
  sl_route_pattern_parse REF text parsed REF out_diag s =
  let s0 := set_ro_ctx empty_ctx (if is_null out_diag then s else set_ro_diag zero_diag s) in
  on_error (route_parse_body REF text parsed) (route_failure REF out_diag (sl_arena_mark REF (ro_world s))) s0.
Proof. intros Hv. unfold sl_route_pattern_parse. unfold_st. rewrite Hv. by destruct out_diag. Qed.

(** The [failure] label: rollback, then the diagnostic if the caller wants it. *)
Lemma route_failure_spec {A} out_diag e w0 s :
  arena_wf (w_arena w0) -> literals_kept w0 -> extends w0 (ro_world s) ->
  diag_set s \/ ctx_code (ro_ctx s) = SL_DIAG_NONE ->
  exists e' s', @route_failure BC A REF out_diag (sl_arena_mark REF w0) e s = (Err e', s') /\
    keeps w0 (ro_world s') /\
    (out_diag = NULL -> e' = e /\ ar_offset (w_arena (ro_world s')) = ar_offset (w_arena w0)) /\
    (e' = e \/ exhausted e') /\
    (e' = SL_STATUS_INVALID_ARGUMENT -> diag_set s -> out_diag = REF -> diag_reported s').
Proof.
  intros Hwf Hlit He Hctx. unfold route_failure. unfold_st. rewrite in_world_eq.
  destruct (rollback_spec w0 (ro_world s) Hwf He) as (w' & -> & He' & Hoff). cbn [fst snd].
  set (s1 := set_ro_world w' s).
  assert (Hquiet : out_diag = NULL \/ ctx_code (ro_ctx s) = SL_DIAG_NONE -> sl_route_finish_diag REF out_diag s1 = (Ok tt, s1)).
  { intros H. unfold sl_route_finish_diag. unfold_st. change (ro_ctx s1) with (ro_ctx s).
    destruct H as [-> | ->]; cbn [is_null]; [done|]. by rewrite orb_true_r. }
  destruct out_diag.
  - rewrite Hquiet by (by left). exists e, s1. split_and!; [done|by apply extends_keeps|done|by left|done].
  - destruct Hctx as [Hset|Hnone].
    + assert (Hset1 : diag_set s1) by exact Hset.
      pose proof (finish_diag_spec s1 (ext_wf _ _ He') (literals_kept_extends _ _ He' Hlit) Hset1) as H.
      destruct (sl_route_finish_diag REF REF s1) as [[[]|e'] s2]; destruct H as [Hk H].
      * exists e, s2. split_and!; [done|eapply keeps_trans; [by apply extends_keeps|done]|done|by left|done].
      * exists e', s2. split_and!; [done|eapply keeps_trans; [by apply extends_keeps|done]|done|by right|].
        intros ->. by destruct H.
    + rewrite Hquiet by (by right). exists e, s1.
      split_and!; [done|by apply extends_keeps|done|by left|]. intros _ (code & m & h & Hc & _ & _ & Hcx) _.
      rewrite Hcx in Hnone. cbn in Hnone. by destruct Hc as [-> | ->].
Qed.

(** C11: parsing is exact.  The parser accepts exactly the patterns of the syntax: an
    absolute path without a query whose parts are texts without braces, "{name}" or
    "{name:type}" with a known type, at most 64 of them, with at most 32 parameters
    of distinct names.  An accepted pattern reads back, from storage the arena has
    given away, as the unique meaning of its text.  A refusal is "invalid argument"
    with a diagnostic if one was asked for; the only other failure is an exhausted
    arena.  Without a diagnostic a failed parse leaves the arena where it was, and no
    failure disturbs storage of the caller. *)
Theorem route_parse_exact text pattern parsed out_diag s :
  arena_wf (w_arena (ro_world s)) -> literals_kept (ro_world s) -> kept_view (ro_world s) text pattern ->
  0 <= str_ptr text -> parsed <> 0 ->
  outside_free (w_arena (ro_world s)) parsed (SL_ROUTE_MAX_SEGMENTS * route_segment_size) ->
  match sl_route_pattern_parse REF text parsed REF out_diag s with
  | (Ok pat, s') =>
      keeps (ro_world s) (ro_world s') /\
      exists specs, pattern_syntax pattern specs /\ pattern_reads (ro_world s') pat pattern specs
  | (Err e, s') =>
      keeps (ro_world s) (ro_world s') /\
      (out_diag = NULL -> ar_offset (w_arena (ro_world s')) = ar_offset (w_arena (ro_world s))) /\
      (exhausted e \/
       (e = SL_STATUS_INVALID_ARGUMENT /\ (forall specs, ~ pattern_syntax pattern specs) /\
        (out_diag = REF -> diag_reported s')))
  end.
Proof.
  intros Hwf Hlit Hk Hp Hparsed Ho. rewrite pattern_parse_eq.
  2:{ unfold sl_route_str_valid. destruct Hk as ([? ?] & _). lia. }
  cbv zeta. set (s0 := set_ro_ctx _ _).
  assert (Hw : ro_world s0 = ro_world s) by (subst s0; by destruct out_diag).
  unfold on_error. pose proof (parse_body_spec text pattern parsed s0) as H. rewrite Hw in H.
  specialize (H Hwf Hlit Hk Hp Hparsed Ho).
  destruct (route_parse_body REF text parsed s0) as [[pat|e] s1].
  { destruct H as (specs & Hsyn & Hr & Hkeep). split; [done|]. by exists specs. }
  destruct H as [He H].
  assert (Hctx : diag_set s1 \/ ctx_code (ro_ctx s1) = SL_DIAG_NONE).
  { destruct H as [(_ & Hset & _)|[_ Hc]]; [by left|right]. by rewrite Hc. }
  destruct (@route_failure_spec SlRoutePattern out_diag e (ro_world s) s1 Hwf Hlit He Hctx)
    as (e' & s' & -> & Hkeep & Hoff & He' & Hrep).
  split_and!; [done|intros Hn; by apply Hoff|].
  destruct He' as [->|Hx]; [|by left]. destruct H as [(-> & Hset & Hno)|[Hx _]]; [right|by left].
  split_and!; [done|done|]. by apply Hrep.
Qed.
End ParserLaws.
