(* ===== verification/RouteFlow.v ===== *)
(** Route patterns from text to match: what a caller that parses a pattern and
    matches paths with it observes. *)

From stdpp Require Import strings.
From S2P Require Import Prelude Memory Status Arena Str Simd StrArena Container Diag RouteMatch RouteParse.

Open Scope Z_scope.

(** What the meaning of a segment accepts. *)
Definition spec_accepts (spec : seg_spec) (part : list Z) : Prop :=
  part <> [] /\
  match spec with
  | Static text => part = text
  | Param _ kind => param_accepts kind part
  end.

(** The paths a pattern of the given meaning stands for. *)
Definition path_accepted (specs : list seg_spec) (path : list Z) : Prop :=
  exists rest, path = slash :: rest /\
    match specs with
    | [] => rest = []
    | _ => Forall2 spec_accepts specs (split_slash rest)
    end.

(** The name, value and kind of each parameter. *)
Fixpoint bindings (specs : list seg_spec) (parts : list (list Z)) : list (list Z * list Z * SlRouteParamKind) :=
  match specs, parts with
  | Static _ :: specs, _ :: parts => bindings specs parts
  | Param name kind :: specs, part :: parts => (name, part, kind) :: bindings specs parts
  | _, _ => []
  end.

Definition param_reads (m : mem) (p : SlRouteParam) (b : list Z * list Z * SlRouteParamKind) : Prop :=
  str_val m (rp_name p) = b.1.1 /\ str_val m (rp_value p) = b.1.2 /\ rp_kind p = b.2.

(** * A parsed pattern is a valid one *)

Lemma type_names_known type kind : (type, kind) ∈ type_names -> sl_route_param_kind_known kind = true.
Proof.
  intros Hin. assert (H : Forall (fun tk => sl_route_param_kind_known tk.2 = true) type_names)
    by (repeat constructor).
  rewrite Forall_forall in H. exact (H _ Hin).
Qed.

Lemma syntax_kind_known part name kind :
  segment_syntax part (Param name kind) -> sl_route_param_kind_known kind = true.
Proof. intros (_ & ann & _ & [[_ ->]|(type & _ & Ht)]); [done|by eapply type_names_known]. Qed.

Lemma validate_parsed w param_count parts : forall segments specs actual,
  Forall2 (parsed_as w) segments specs -> Forall2 segment_syntax parts specs ->
  actual + Z.of_nat (length (spec_names specs)) <= param_count ->
  actual + Z.of_nat (length (spec_names specs)) <= SL_ROUTE_MAX_PARAMS ->
  validate_segments (w_mem w) param_count actual segments = Ok (actual + Z.of_nat (length (spec_names specs))).
Proof.
  induction parts as [|part parts IH]; intros segments specs actual Hsegs Hsyn Hpc Hmax.
  { apply Forall2_nil_inv_l in Hsyn as ->. apply Forall2_nil_inv_r in Hsegs as ->. cbn. f_equal. lia. }
  apply Forall2_cons_inv_l in Hsyn as (spec & specs' & Hs & Hsyn & ->).
  apply Forall2_cons_inv_r in Hsegs as (segment & segments' & Hp & Hsegs & ->).
  cbn [validate_segments].
  destruct spec as [text|name kind].
  - destruct Hp as (Ek & _ & _ & Hk). rewrite Ek. cbn.
    destruct Hs as (_ & Hne & _). pose proof (kept_length _ _ _ Hk) as Hl.
    assert (str_length (seg_text segment) <> 0) by (rewrite Hl; destruct text; [done|cbn; lia]).
    destruct Hk as ([_ Hvv] & _). unfold sl_route_str_valid.
    replace (_ || _) with false by (destruct (Z.eqb_spec (str_length (seg_text segment)) 0),
      (Z.eqb_spec (str_ptr (seg_text segment)) 0); cbn; lia). by apply IH.
  - destruct Hp as (Ek & <- & _ & Hk). rewrite Ek.
    change (spec_names (Param name _ :: specs')) with (name :: spec_names specs') in *. cbn [length] in *.
    change (bool_decide (_ = SL_ROUTE_SEGMENT_STATIC)) with false.
    change (sl_route_segment_kind_known SL_ROUTE_SEGMENT_PARAM) with true. cbn [negb].
    rewrite (syntax_kind_known _ _ _ Hs). cbn [negb orb]. destruct Hs as (Hn & _).
    assert (Hp : str_ptr (seg_param_name segment) <> 0).
    { destruct Hk as ([_ [E|Hvv]] & _ & _ & Hb); [|done].
      exfalso. unfold str_val in Hb. rewrite E in Hb. subst name. by destruct Hn as (b & bs & [=] & _). }
    rewrite (proj2 (param_name_valid_spec w _ name Hk Hp) Hn). cbn [negb].
    destruct (Z.ltb_spec param_count (actual + 1)); [lia|].
    destruct (Z.ltb_spec SL_ROUTE_MAX_PARAMS (actual + 1)); [lia|]. cbn [orb].
    rewrite (IH segments' specs' (actual + 1)); [f_equal; lia|done|done|lia|lia].
Qed.

Lemma pattern_reads_segments w pat pattern specs :
  pattern_reads w pat pattern specs ->
  exists segments, pattern_segments pat = segments /\ Forall2 (parsed_as w) segments specs /\
    (segments <> [] -> pat_segments pat = Some segments).
Proof.
  intros (_ & Hsegs & Hnone & Hc & _). unfold pattern_segments. rewrite Hc.
  rewrite firstn_all2 by (rewrite (Forall2_length _ _ _ Hsegs); lia). eexists. split; [done|]. split; [done|].
  intros Hne. by destruct (pat_segments pat).
Qed.

Lemma parsed_pattern_valid w pat pattern specs :
  pattern_reads w pat pattern specs -> pattern_syntax pattern specs ->
  sl_route_pattern_validate_for_match (w_mem w) pat = Ok (Z.of_nat (length (spec_names specs))).
Proof.
  intros Hr Hsyn. pose proof (pattern_reads_segments _ _ _ _ Hr) as (segments & Eseg & Hsegs & Hsome).
  pose proof (pattern_syntax_length _ _ Hsyn) as Hmax.
  destruct Hr as (Hsrc & _ & _ & Hc & Hpc). destruct Hsyn as (rest & Epat & Hq & Hrest).
  unfold sl_route_pattern_validate_for_match. pose proof (kept_length _ _ _ Hsrc) as Hl.
  rewrite Epat in Hl. cbn [length] in Hl.
  assert (Hb : ld8 (w_mem w) (str_ptr (pat_source pat)) = slash).
  { pose proof (kept_byte _ _ _ 0%nat slash Hsrc) as H. rewrite Z.add_0_r in H. apply H. by rewrite Epat. }
  assert (Hv : sl_route_str_valid (pat_source pat) = true)
    by (unfold sl_route_str_valid; destruct Hsrc as ([_ ?] & _); lia).
  assert (Hnq : sl_route_contains_byte (w_mem w) (pat_source pat) question = false).
  { unfold sl_route_contains_byte. rewrite Hv. cbn [negb]. rewrite contains_byte_spec.
    apply bool_decide_eq_false_2. destruct Hsrc as (_ & _ & _ & Hval).
    unfold str_val, load_bytes in Hval. by rewrite Hval. }
  rewrite Hv, Hb, Hnq, (proj2 (Z.eqb_neq (str_length (pat_source pat)) 0)) by lia.
  cbn [negb orb]. rewrite Z.eqb_refl. cbn [negb orb]. rewrite Hc, Hpc.
  assert (Hpm : Z.of_nat (length (spec_names specs)) <= SL_ROUTE_MAX_PARAMS).
  { destruct Hrest as [[_ ->]|(_ & _ & _ & H & _)]; [done|exact H]. }
  destruct (Z.ltb_spec SL_ROUTE_MAX_SEGMENTS (Z.of_nat (length specs))); [lia|].
  destruct (Z.ltb_spec SL_ROUTE_MAX_PARAMS (Z.of_nat (length (spec_names specs)))); [lia|]. cbn [orb].
  destruct Hrest as [[-> ->]|(Hne & Hf & _)].
  - cbn. unfold is_root_source. rewrite Hl, Hb. done.
  - assert (Hspecs : specs <> []).
    { intros ->. apply Forall2_nil_inv_r in Hf. by destruct (split_slash_cons rest) as (p & ps & E); rewrite E in Hf. }
    destruct (Z.eqb_spec (Z.of_nat (length specs)) 0) as [E0|_]; [by destruct specs|].
    rewrite Hsome by (intros ->; by apply Forall2_nil_inv_l in Hsegs).
    pose proof (Forall2_length _ _ _ Hsegs) as Hsl. rewrite firstn_all2 by lia.
    by rewrite (validate_parsed w _ (split_slash rest) segments specs 0 Hsegs Hf).
Qed.

(** * Segments and their meanings accept the same parts *)

Lemma parsed_accepts w segment spec part :
  parsed_as w segment spec -> segment_accepts (w_mem w) segment part <-> spec_accepts spec part.
Proof.
  unfold segment_accepts, spec_accepts. destruct spec as [text|name kind]; cbn.
  - intros (-> & _ & _ & (_ & _ & _ & <-)). done.
  - intros (-> & -> & _). done.
Qed.

Lemma parsed_accepts_all w segments specs parts :
  Forall2 (parsed_as w) segments specs ->
  Forall2 (segment_accepts (w_mem w)) segments parts <-> Forall2 spec_accepts specs parts.
Proof.
  intros Hs. revert parts. induction Hs as [|segment spec segments specs Hp Hs IH]; intros parts.
  { split; intros H; apply Forall2_nil_inv_l in H as ->; constructor. }
  split; intros H.
  - apply Forall2_cons_inv_l in H as (part & parts' & Ha & H & ->). constructor; [by eapply parsed_accepts|by apply IH].
  - apply Forall2_cons_inv_l in H as (part & parts' & Ha & H & ->). constructor; [by eapply parsed_accepts|by apply IH].
Qed.

Lemma parsed_route_accepts w segments specs path :
  Forall2 (parsed_as w) segments specs -> route_accepts (w_mem w) segments path <-> path_accepted specs path.
Proof.
  intros Hs. unfold route_accepts, path_accepted. apply exist_proper. intros rest. f_equiv.
  pose proof (parsed_accepts_all w segments specs (split_slash rest) Hs) as H.
  by destruct Hs as [|segment spec segments specs Hp Hs].
Qed.

Lemma captured_reads w path segments specs views parts :
  Forall2 (parsed_as w) segments specs -> Forall2 (part_view (w_mem w) path) views parts ->
  Forall2 (param_reads (w_mem w)) (captured segments views) (bindings specs parts).
Proof.
  intros Hs. revert views parts. induction Hs as [|segment spec segments specs Hp Hs IH]; intros views parts Hv.
  { constructor. }
  destruct Hv as [|v part views parts Hv Hvs]; [by destruct spec; constructor|].
  cbn [captured bindings]. destruct spec as [text|name kind]; cbn in Hp; destruct Hp as (-> & Ek & _ & Hk).
  - by apply IH.
  - constructor; [|by apply IH]. destruct Hk as (_ & _ & _ & Hn), Hv as (Hv & _). by split_and!.
Qed.

(** C12: matching with a parsed pattern.  A pattern the parser produced passes the
    matcher's validation, and a path without a query matches it exactly when its
    parts between slashes are, one by one, the static texts of the pattern or
    non-empty values of the kinds its parameters declare.  A match binds the
    parameters in order: each capture reads as the declared name, the part of the
    path at its place, and the declared kind.  A path that does not match leaves
    memory and arena alone; the only failure is an exhausted arena. *)
Theorem route_match_parsed `{BC : BuildConfig} pat pattern specs path captures uninit w :
  arena_wf (w_arena w) -> pattern_reads w pat pattern specs -> pattern_syntax pattern specs ->
  0 < str_ptr path -> 1 <= str_length path -> ld8 (w_mem w) (str_ptr path) = slash ->
  question ∉ str_val (w_mem w) path ->
  length uninit = Z.to_nat SL_ROUTE_MAX_PARAMS -> captures <> 0 ->
  outside_free (w_arena w) captures (SL_ROUTE_MAX_PARAMS * route_param_size) ->
  match sl_route_pattern_match REF (Some pat) path REF captures uninit w with
  | (Ok mt, w') =>
      (mt_matched mt = true <-> path_accepted specs (str_val (w_mem w) path)) /\
      (mt_matched mt = false -> mt = no_match /\ w' = w) /\
      (mt_matched mt = true ->
       Forall2 (param_reads (w_mem w)) (default [] (snd <$> mt_params mt))
         (bindings specs (split_slash (tail (str_val (w_mem w) path)))))
  | (Err c, w') => w' = w /\ exhausted c
  end.
Proof.
  intros Hwf Hr Hsyn Hp Hl Hs Hq Hun Hcap Ho. pose proof (parsed_pattern_valid _ _ _ _ Hr Hsyn) as Hval.
  destruct (pattern_reads_segments _ _ _ _ Hr) as (segments & Eseg & Hsegs & Hsome).
  pose proof (pattern_syntax_length _ _ Hsyn) as Hmax. pose proof (Forall2_length _ _ _ Hsegs) as Hsl.
  destruct Hr as (_ & _ & _ & Hc & _).
  pose proof (pattern_match_exact pat path captures uninit (Z.of_nat (length (spec_names specs))) w Hwf) as H. rewrite Eseg in H.
  specialize (H ltac:(lia)).
  assert (Htexts : Forall (fun s => 0 <= str_length (seg_text s)) segments).
  { clear -Hsegs. induction Hsegs as [|segment [text|name kind] segments specs Hp _ IH]; constructor; try done.
    - destruct Hp as (_ & _ & _ & ([? _] & _)). done.
    - by destruct Hp as (_ & _ & -> & _). }
  specialize (H Htexts ltac:(intros Hn ->; cbn in Hsl; lia) Hval Hp Hl Hs Hq Hun Hcap Ho).
  destruct (sl_route_pattern_match _ _ _ _ _ _ w) as [[mt|c] w'].
  - destruct H as (Hm & Hno & Hyes). rewrite (parsed_route_accepts w segments specs _ Hsegs) in Hm.
    split_and!; [apply Hm|done|]. intros Hmt. destruct (Hyes Hmt) as (views & Hv & -> & _).
    destruct (decide (segments = [])) as [->|Hne]; [|by eapply captured_reads; eauto].
    apply Forall2_nil_inv_l in Hsegs as ->. by constructor.
  - destruct H as [-> H]. apply array_alloc_exhausted in H; [done|done|..|done].
    + unfold param_total. pose proof (length_filter (fun s => is_param s = true) segments).
      unfold SL_ROUTE_MAX_SEGMENTS in Hmax. size_lia.
    + unfold route_param_size. size_lia.
    + unfold route_param_alignment. size_lia.
    + unfold route_param_size. lia.
Qed.

Module Demo.
#[local] Existing Instance assert_build.
#[local] Instance scalar_build : SimdConfig := {| SL_STRING_SIMD := SCALAR; SL_BYTES_SIMD := SCALAR |}.

(** The literals one after the other from 65536, 128 bytes each; the pattern
    "/u/{id:int}" at 100, the path "/u/42" at 200, the arena at 4096 and the local
    arrays at 8192. *)
Fixpoint position (l : string) (ls : list string) : Z :=
  match ls with
  | [] => 0
  | l' :: ls => if decide (l = l') then 0 else 1 + position l ls
  end.

#[local] Instance image : ReadOnlyData := {| rodata l := 65536 + 128 * position l route_literals |}.

Definition users : list Z := string_bytes "/u/{id:int}".
Definition users_specs : list seg_spec := [Static (string_bytes "u"); Param (string_bytes "id") SL_ROUTE_PARAM_INT].

Definition image_mem : mem :=
  foldl (fun m l => store m (rodata l) (string_bytes l)) (fun _ => 0) route_literals.

Definition w0 : World :=
  {| w_mem := store (store image_mem 100 users) 200 (string_bytes "/u/42");
     w_arena := {| ar_base := 4096; ar_capacity := 1024; ar_offset := 0; ar_high_water := 0; ar_generation := 1 |} |}.
Definition s0 : RouteSys := {| ro_world := w0; ro_ctx := empty_ctx; ro_diag := zero_diag |}.
Definition text : SlStr := sl_str_from_parts 100 11.
Definition request : SlStr := sl_str_from_parts 200 5.

#[local] Instance kept_view_dec w v bytes : Decision (kept_view w v bytes).
Proof. unfold kept_view, str_valid, is_size, outside_free, disjoint_ranges. apply _. Defined.

Lemma demo_literals : literals_kept w0.
Proof. unfold literals_kept. apply (bool_decide_unpack _). vm_compute. exact I. Qed.

Lemma demo_arena_wf : arena_wf (w_arena w0).
Proof. unfold arena_wf. cbn. size_lia. Qed.

Lemma users_syntax : pattern_syntax users users_specs.
Proof.
  exists (tail users). split_and!; [done|apply (bool_decide_unpack _); vm_compute; exact I|]. right.
  split_and!; [done| |split_and!; [done|done|apply (bool_decide_unpack _); vm_compute; exact I]].
  constructor; [split_and!; [done|done|apply (bool_decide_unpack _); vm_compute; exact I..]|].
  constructor; [|constructor]. split.
  { exists 105, [100]. split_and!; [done|done|by repeat constructor]. }
  exists (58 :: string_bytes "int"). split; [done|]. right. exists (string_bytes "int"). split; [done|]. constructor.
Qed.

Lemma route_parse_exact_witness :
  exists pat, fst (sl_route_pattern_parse REF text 8192 REF REF s0) = Ok pat /\
    exists specs, pattern_syntax users specs.
Proof.
  pose proof (route_parse_exact text users 8192 REF s0 demo_arena_wf demo_literals) as H.
  specialize (H ltac:(apply (bool_decide_unpack _); vm_compute; exact I) ltac:(done) ltac:(done)
    ltac:(unfold outside_free, disjoint_ranges; cbn; lia)).
  assert (Hok : is_ok (fst (sl_route_pattern_parse REF text 8192 REF REF s0)) = true) by (vm_compute; reflexivity).
  destruct (sl_route_pattern_parse REF text 8192 REF REF s0) as [[pat|e] s'] eqn:E; [|done].
  destruct H as (_ & specs & Hs & _). exists pat. split; [done|]. by exists specs.
Defined.

(** The pattern the parser builds, with its texts in the arena. *)
Definition parsed : SlRoutePattern :=
  {| pat_source := sl_str_from_parts 100 11;
     pat_segments := Some
       [ {| seg_text := sl_str_from_parts 101 1; seg_param_name := sl_str_empty;
            seg_kind := SL_ROUTE_SEGMENT_STATIC; seg_param_kind := SL_ROUTE_PARAM_STRING |};
         {| seg_text := sl_str_empty; seg_param_name := sl_str_from_parts 104 2;
            seg_kind := SL_ROUTE_SEGMENT_PARAM; seg_param_kind := SL_ROUTE_PARAM_INT |} ];
     pat_segment_count := 2; pat_param_count := 1 |}.

Lemma parsed_reads : pattern_reads w0 parsed users users_specs.
Proof.
  split_and!; [apply (bool_decide_unpack _); vm_compute; exact I| |done|done|done].
  constructor; [split_and!; [done|done|done|apply (bool_decide_unpack _); vm_compute; exact I]|].
  constructor; [split_and!; [done|done|done|apply (bool_decide_unpack _); vm_compute; exact I]|constructor].
Qed.

Definition no_param : SlRouteParam :=
  {| rp_name := sl_str_empty; rp_value := sl_str_empty; rp_kind := SL_ROUTE_PARAM_STRING |}.

Lemma route_match_parsed_witness : path_accepted users_specs (str_val (w_mem w0) request).
Proof.
  pose proof (route_match_parsed parsed users users_specs request 8192 (replicate 32 no_param) w0
    demo_arena_wf parsed_reads users_syntax ltac:(done) ltac:(done) ltac:(vm_compute; reflexivity)) as H.
  specialize (H ltac:(apply (bool_decide_unpack _); vm_compute; exact I) ltac:(done) ltac:(done)
    ltac:(unfold outside_free, disjoint_ranges; cbn; lia)).
  assert (Hm : match fst (sl_route_pattern_match REF (Some parsed) request REF 8192 (replicate 32 no_param) w0) with
               | Ok mt => mt_matched mt | Err _ => false end = true) by (vm_compute; reflexivity).
  destruct (sl_route_pattern_match _ _ _ _ _ _ w0) as [[mt|e] w']; [|done]. by apply H.
Defined.
End Demo.
