(* ===== verification/Stream.v ===== *)
(** Streams: readable and writable streams over adapters (src/core/stream.c).

    An adapter is a table of functions over a world [K] that holds the adapter's
    own object, memory and whatever else it touches; the [vtable] and [user]
    pointers of a stream are fixed at initialisation and are arguments here.
    Cancellation tokens are shared objects: a stream holds an address (0 is NULL)
    and [tokens] is the current content of each. *)

From S2P Require Import Prelude Memory Status Str Bytes Container Queue Loop Async.

Definition SL_STREAM_DEFAULT_MAX_CHUNK_BYTES : Z := 65536.
Definition SL_STREAM_DEFAULT_MAX_BUFFERED_BYTES : Z := 131072.
Definition SL_STREAM_DEFAULT_MAX_CHUNKS : Z := 1024.

Inductive SlStreamState :=
| SL_STREAM_STATE_NONE
| SL_STREAM_STATE_OPEN
| SL_STREAM_STATE_ENDED
| SL_STREAM_STATE_CLOSED
| SL_STREAM_STATE_FAILED
| SL_STREAM_STATE_ABORTED
| SL_STREAM_STATE_CANCELLED.

Inductive SlStreamStatus :=
| SL_STREAM_STATUS_OK
| SL_STREAM_STATUS_EOF
| SL_STREAM_STATUS_WOULD_BLOCK
| SL_STREAM_STATUS_BACKPRESSURE
| SL_STREAM_STATUS_CAPACITY_EXCEEDED
| SL_STREAM_STATUS_CLOSED
| SL_STREAM_STATUS_FAILED
| SL_STREAM_STATUS_ABORTED
| SL_STREAM_STATUS_CANCELLED
| SL_STREAM_STATUS_DEADLINE_EXCEEDED
| SL_STREAM_STATUS_INVALID_ARGUMENT
| SL_STREAM_STATUS_INVALID_STATE
| SL_STREAM_STATUS_UNSUPPORTED.

#[export] Instance SlStreamState_eq_dec : EqDecision SlStreamState.
Proof. solve_decision. Defined.
#[export] Instance SlStreamStatus_eq_dec : EqDecision SlStreamStatus.
Proof. solve_decision. Defined.

Definition state_is (a b : SlStreamState) : bool := bool_decide (a = b).
Definition status_is (a b : SlStreamStatus) : bool := bool_decide (a = b).

Record SlStreamOptions := {
  so_max_chunk_bytes : Z;
  so_max_buffered_bytes : Z;
  so_max_chunks : Z;
  so_cancellation : Z;
}.

Record SlStreamError := { se_code : SlStreamStatus; se_status : SlStatusCode; se_message : SlStr }.

Record SlStreamBackpressureState := {
  bp_writable : bool;
  bp_buffered_bytes : Z;
  bp_available_bytes : Z;
  bp_high_water_mark : Z;
  bp_backpressure_hits : Z;
}.

Record SlStreamStats := {
  ss_bytes_read : Z;
  ss_bytes_written : Z;
  ss_chunks_read : Z;
  ss_chunks_written : Z;
  ss_backpressure_hits : Z;
  ss_drain_count : Z;
  ss_buffered_bytes : Z;
  ss_high_water_mark : Z;
  ss_state : SlStreamState;
  ss_last_status : SlStreamStatus;
}.

Record SlReadableStream := {
  rd_cancellation : Z;
  rd_state : SlStreamState;
  rd_stats : SlStreamStats;
  rd_error : SlStreamError;
  rd_max_chunk_bytes : Z;
}.

Record SlWritableStream := {
  wr_cancellation : Z;
  wr_state : SlStreamState;
  wr_stats : SlStreamStats;
  wr_error : SlStreamError;
  wr_max_chunk_bytes : Z;
  wr_max_buffered_bytes : Z;
}.

(** A chunk is its bytes. *)
Record SlStreamReadResult := { rr_status : SlStreamStatus; rr_chunk : SlBytes }.
Record SlStreamWriteResult := {
  wres_status : SlStreamStatus;
  wres_bytes_written : Z;
  wres_backpressure : SlStreamBackpressureState;
}.

Definition no_backpressure : SlStreamBackpressureState :=
  {| bp_writable := false; bp_buffered_bytes := 0; bp_available_bytes := 0; bp_high_water_mark := 0;
     bp_backpressure_hits := 0 |}.
Definition no_bytes : SlBytes := {| bytes_ptr := 0; bytes_length := 0 |}.
Definition no_read : SlStreamReadResult := {| rr_status := SL_STREAM_STATUS_OK; rr_chunk := no_bytes |}.
Definition no_write : SlStreamWriteResult :=
  {| wres_status := SL_STREAM_STATUS_OK; wres_bytes_written := 0; wres_backpressure := no_backpressure |}.
Definition no_stats : SlStreamStats :=
  {| ss_bytes_read := 0; ss_bytes_written := 0; ss_chunks_read := 0; ss_chunks_written := 0;
     ss_backpressure_hits := 0; ss_drain_count := 0; ss_buffered_bytes := 0; ss_high_water_mark := 0;
     ss_state := SL_STREAM_STATE_NONE; ss_last_status := SL_STREAM_STATUS_OK |}.

(** Adapters: [None] is a NULL function pointer.  A read hands over a status and a
    chunk, a write a status and the number of bytes taken; both may update the
    stream object they are given. *)
Record SlReadableStreamVTable (K : Type) := {
  rv_read : option (SlReadableStream -> K -> SlStreamStatus * SlBytes * SlReadableStream * K);
  rv_close : option (SlStr -> K -> SlStreamStatus * K);
  rv_fail : option (SlStr -> K -> SlStreamStatus * K);
  rv_abort : option (SlStr -> K -> SlStreamStatus * K);
}.

Record SlWritableStreamVTable (K : Type) := {
  wv_write : option (SlWritableStream -> SlBytes -> K -> SlStreamStatus * Z * SlWritableStream * K);
  wv_drain : option (SlWritableStream -> Z -> K -> SlStreamStatus * SlWritableStream * K);
  wv_backpressure : option (SlWritableStream -> K -> SlStreamBackpressureState);
  wv_close : option (SlStr -> K -> SlStreamStatus * K);
  wv_fail : option (SlStr -> K -> SlStreamStatus * K);
  wv_abort : option (SlStr -> K -> SlStreamStatus * K);
}.

Arguments rv_read {K} _.
Arguments rv_close {K} _.
Arguments rv_fail {K} _.
Arguments rv_abort {K} _.
Arguments wv_write {K} _.
Arguments wv_drain {K} _.
Arguments wv_backpressure {K} _.
Arguments wv_close {K} _.
Arguments wv_fail {K} _.
Arguments wv_abort {K} _.

(** * Field updates *)

Definition stats_set_status (state : SlStreamState) (status : SlStreamStatus) (s : SlStreamStats) : SlStreamStats :=
  {| ss_bytes_read := ss_bytes_read s; ss_bytes_written := ss_bytes_written s; ss_chunks_read := ss_chunks_read s;
     ss_chunks_written := ss_chunks_written s; ss_backpressure_hits := ss_backpressure_hits s;
     ss_drain_count := ss_drain_count s; ss_buffered_bytes := ss_buffered_bytes s;
     ss_high_water_mark := ss_high_water_mark s; ss_state := state; ss_last_status := status |}.

Definition stats_add_read (bytes : Z) (s : SlStreamStats) : SlStreamStats :=
  {| ss_bytes_read := wrap64 (ss_bytes_read s + bytes); ss_bytes_written := ss_bytes_written s;
     ss_chunks_read := wrap64 (ss_chunks_read s + 1); ss_chunks_written := ss_chunks_written s;
     ss_backpressure_hits := ss_backpressure_hits s; ss_drain_count := ss_drain_count s;
     ss_buffered_bytes := ss_buffered_bytes s; ss_high_water_mark := ss_high_water_mark s;
     ss_state := ss_state s; ss_last_status := ss_last_status s |}.

Definition stats_add_written (bytes : Z) (s : SlStreamStats) : SlStreamStats :=
  {| ss_bytes_read := ss_bytes_read s; ss_bytes_written := wrap64 (ss_bytes_written s + bytes);
     ss_chunks_read := ss_chunks_read s;
     ss_chunks_written := if bytes =? 0 then ss_chunks_written s else wrap64 (ss_chunks_written s + 1);
     ss_backpressure_hits := ss_backpressure_hits s; ss_drain_count := ss_drain_count s;
     ss_buffered_bytes := ss_buffered_bytes s; ss_high_water_mark := ss_high_water_mark s;
     ss_state := ss_state s; ss_last_status := ss_last_status s |}.

Definition stats_add_hit (s : SlStreamStats) : SlStreamStats :=
  {| ss_bytes_read := ss_bytes_read s; ss_bytes_written := ss_bytes_written s; ss_chunks_read := ss_chunks_read s;
     ss_chunks_written := ss_chunks_written s; ss_backpressure_hits := wrap64 (ss_backpressure_hits s + 1);
     ss_drain_count := ss_drain_count s; ss_buffered_bytes := ss_buffered_bytes s;
     ss_high_water_mark := ss_high_water_mark s; ss_state := ss_state s; ss_last_status := ss_last_status s |}.

Definition stats_add_drain (s : SlStreamStats) : SlStreamStats :=
  {| ss_bytes_read := ss_bytes_read s; ss_bytes_written := ss_bytes_written s; ss_chunks_read := ss_chunks_read s;
     ss_chunks_written := ss_chunks_written s; ss_backpressure_hits := ss_backpressure_hits s;
     ss_drain_count := wrap64 (ss_drain_count s + 1); ss_buffered_bytes := ss_buffered_bytes s;
     ss_high_water_mark := ss_high_water_mark s; ss_state := ss_state s; ss_last_status := ss_last_status s |}.

Definition stats_set_buffered (buffered high_water : Z) (s : SlStreamStats) : SlStreamStats :=
  {| ss_bytes_read := ss_bytes_read s; ss_bytes_written := ss_bytes_written s; ss_chunks_read := ss_chunks_read s;
     ss_chunks_written := ss_chunks_written s; ss_backpressure_hits := ss_backpressure_hits s;
     ss_drain_count := ss_drain_count s; ss_buffered_bytes := buffered; ss_high_water_mark := high_water;
     ss_state := ss_state s; ss_last_status := ss_last_status s |}.

Definition rd_set_state (state : SlStreamState) (s : SlReadableStream) : SlReadableStream :=
  {| rd_cancellation := rd_cancellation s; rd_state := state; rd_stats := rd_stats s; rd_error := rd_error s;
     rd_max_chunk_bytes := rd_max_chunk_bytes s |}.
Definition rd_set_stats (stats : SlStreamStats) (s : SlReadableStream) : SlReadableStream :=
  {| rd_cancellation := rd_cancellation s; rd_state := rd_state s; rd_stats := stats; rd_error := rd_error s;
     rd_max_chunk_bytes := rd_max_chunk_bytes s |}.
Definition rd_set_error (error : SlStreamError) (s : SlReadableStream) : SlReadableStream :=
  {| rd_cancellation := rd_cancellation s; rd_state := rd_state s; rd_stats := rd_stats s; rd_error := error;
     rd_max_chunk_bytes := rd_max_chunk_bytes s |}.

Definition wr_set_state (state : SlStreamState) (s : SlWritableStream) : SlWritableStream :=
  {| wr_cancellation := wr_cancellation s; wr_state := state; wr_stats := wr_stats s; wr_error := wr_error s;
     wr_max_chunk_bytes := wr_max_chunk_bytes s; wr_max_buffered_bytes := wr_max_buffered_bytes s |}.
Definition wr_set_stats (stats : SlStreamStats) (s : SlWritableStream) : SlWritableStream :=
  {| wr_cancellation := wr_cancellation s; wr_state := wr_state s; wr_stats := stats; wr_error := wr_error s;
     wr_max_chunk_bytes := wr_max_chunk_bytes s; wr_max_buffered_bytes := wr_max_buffered_bytes s |}.
Definition wr_set_error (error : SlStreamError) (s : SlWritableStream) : SlWritableStream :=
  {| wr_cancellation := wr_cancellation s; wr_state := wr_state s; wr_stats := wr_stats s; wr_error := error;
     wr_max_chunk_bytes := wr_max_chunk_bytes s; wr_max_buffered_bytes := wr_max_buffered_bytes s |}.

(** * Options and statuses *)

Definition sl_stream_bytes_valid (bytes : SlBytes) : bool :=
  (bytes_length bytes =? 0) || negb (bytes_ptr bytes =? 0).

Definition sl_stream_str_valid (text : SlStr) : bool := (str_length text =? 0) || negb (str_ptr text =? 0).

Definition sl_stream_default_options : SlStreamOptions :=
  {| so_max_chunk_bytes := SL_STREAM_DEFAULT_MAX_CHUNK_BYTES;
     so_max_buffered_bytes := SL_STREAM_DEFAULT_MAX_BUFFERED_BYTES;
     so_max_chunks := SL_STREAM_DEFAULT_MAX_CHUNKS; so_cancellation := 0 |}.

Definition sl_stream_normalize_options (options : option SlStreamOptions) : SlStreamOptions :=
  let n := default sl_stream_default_options options in
  {| so_max_chunk_bytes := if so_max_chunk_bytes n =? 0 then SL_STREAM_DEFAULT_MAX_CHUNK_BYTES
                           else so_max_chunk_bytes n;
     so_max_buffered_bytes := if so_max_buffered_bytes n =? 0 then SL_STREAM_DEFAULT_MAX_BUFFERED_BYTES
                              else so_max_buffered_bytes n;
     so_max_chunks := if so_max_chunks n =? 0 then SL_STREAM_DEFAULT_MAX_CHUNKS else so_max_chunks n;
     so_cancellation := so_cancellation n |}.

Definition token_ref (address : Z) : nullable := if address =? 0 then NULL else REF.

Definition sl_stream_status_from_cancellation (tokens : Z -> SlCancellationToken) (cancellation : Z)
    : SlStreamStatus :=
  let token := token_ref cancellation in
  if negb (sl_cancellation_token_is_cancelled token (tokens cancellation)) then SL_STREAM_STATUS_OK else
  match sl_cancellation_token_reason token (tokens cancellation) with
  | SL_CANCELLATION_REASON_DEADLINE_EXCEEDED => SL_STREAM_STATUS_DEADLINE_EXCEEDED
  | SL_CANCELLATION_REASON_BACKPRESSURE => SL_STREAM_STATUS_BACKPRESSURE
  | _ => SL_STREAM_STATUS_CANCELLED
  end.

Definition sl_readable_stream_set_status (status : SlStreamStatus) (stream : SlReadableStream) : SlReadableStream :=
  let state := match status with
               | SL_STREAM_STATUS_EOF => SL_STREAM_STATE_ENDED
               | SL_STREAM_STATUS_CANCELLED | SL_STREAM_STATUS_DEADLINE_EXCEEDED => SL_STREAM_STATE_CANCELLED
               | _ => rd_state stream
               end in
  rd_set_stats (stats_set_status state status (rd_stats stream)) (rd_set_state state stream).

Definition sl_writable_stream_set_status (status : SlStreamStatus) (stream : SlWritableStream) : SlWritableStream :=
  let state := match status with
               | SL_STREAM_STATUS_CANCELLED | SL_STREAM_STATUS_DEADLINE_EXCEEDED => SL_STREAM_STATE_CANCELLED
               | _ => wr_state stream
               end in
  wr_set_stats (stats_set_status state status (wr_stats stream)) (wr_set_state state stream).

Definition sl_stream_state_write_status (state : SlStreamState) : SlStreamStatus :=
  match state with
  | SL_STREAM_STATE_OPEN => SL_STREAM_STATUS_OK
  | SL_STREAM_STATE_ENDED | SL_STREAM_STATE_CLOSED => SL_STREAM_STATUS_CLOSED
  | SL_STREAM_STATE_FAILED => SL_STREAM_STATUS_FAILED
  | SL_STREAM_STATE_ABORTED => SL_STREAM_STATUS_ABORTED
  | SL_STREAM_STATE_CANCELLED => SL_STREAM_STATUS_CANCELLED
  | SL_STREAM_STATE_NONE => SL_STREAM_STATUS_INVALID_STATE
  end.

Definition sl_stream_state_read_status (state : SlStreamState) : SlStreamStatus :=
  match state with
  | SL_STREAM_STATE_OPEN => SL_STREAM_STATUS_OK
  | SL_STREAM_STATE_ENDED => SL_STREAM_STATUS_EOF
  | SL_STREAM_STATE_CLOSED => SL_STREAM_STATUS_CLOSED
  | SL_STREAM_STATE_FAILED => SL_STREAM_STATUS_FAILED
  | SL_STREAM_STATE_ABORTED => SL_STREAM_STATUS_ABORTED
  | SL_STREAM_STATE_CANCELLED => SL_STREAM_STATUS_CANCELLED
  | SL_STREAM_STATE_NONE => SL_STREAM_STATUS_INVALID_STATE
  end.

Definition sl_stream_empty_backpressure : SlStreamBackpressureState :=
  {| bp_writable := true; bp_buffered_bytes := 0; bp_available_bytes := 0; bp_high_water_mark := 0;
     bp_backpressure_hits := 0 |}.

Definition sl_stream_control_noop {K} (message : SlStr) (k : K) : SlStreamStatus * K := (SL_STREAM_STATUS_OK, k).

Definition sl_stream_status_to_status (status : SlStreamStatus) : SlStatusCode :=
  match status with
  | SL_STREAM_STATUS_OK | SL_STREAM_STATUS_EOF => SL_STATUS_OK
  | SL_STREAM_STATUS_BACKPRESSURE | SL_STREAM_STATUS_CAPACITY_EXCEEDED => SL_STATUS_CAPACITY_EXCEEDED
  | SL_STREAM_STATUS_CANCELLED => SL_STATUS_CANCELLED
  | SL_STREAM_STATUS_DEADLINE_EXCEEDED => SL_STATUS_DEADLINE_EXCEEDED
  | SL_STREAM_STATUS_INVALID_ARGUMENT => SL_STATUS_INVALID_ARGUMENT
  | SL_STREAM_STATUS_UNSUPPORTED => SL_STATUS_UNSUPPORTED
  | _ => SL_STATUS_INVALID_STATE
  end.

Definition no_error : SlStreamError :=
  {| se_code := SL_STREAM_STATUS_OK; se_status := SL_STATUS_OK; se_message := sl_str_empty |}.

Section Operations.
Context {K : Type} (tokens : Z -> SlCancellationToken).
Implicit Types (k : K).

(** * Readable streams *)

Definition sl_readable_stream_init (stream : nullable) (vtable : option (SlReadableStreamVTable K))
    (options : option SlStreamOptions) : result SlReadableStream :=
  error_if is_null stream || negb (bool_decide (is_Some (vtable ≫= rv_read))) with SL_STATUS_INVALID_ARGUMENT ;;
  let normalized := sl_stream_normalize_options options in
  Ok {| rd_cancellation := so_cancellation normalized; rd_state := SL_STREAM_STATE_OPEN;
        rd_stats := stats_set_status SL_STREAM_STATE_OPEN SL_STREAM_STATUS_OK no_stats;
        rd_error := no_error; rd_max_chunk_bytes := so_max_chunk_bytes normalized |}.

(** A read that ends before the adapter is called. *)
Definition read_refused (status : SlStreamStatus) (s : SlReadableStream) k
    : SlStreamStatus * SlStreamReadResult * SlReadableStream * K :=
  (status, {| rr_status := status; rr_chunk := no_bytes |}, sl_readable_stream_set_status status s, k).

Definition sl_readable_stream_read (vtable : option (SlReadableStreamVTable K)) (stream out : nullable)
    (s : SlReadableStream) k : SlStreamStatus * SlStreamReadResult * SlReadableStream * K :=
  match (if is_null stream || is_null out then None else vtable ≫= rv_read) with
  | None => (SL_STREAM_STATUS_INVALID_ARGUMENT, no_read, s, k)
  | Some read =>
      let status := sl_stream_state_read_status (rd_state s) in
      if negb (status_is status SL_STREAM_STATUS_OK) then read_refused status s k else
      let status := sl_stream_status_from_cancellation tokens (rd_cancellation s) in
      if negb (status_is status SL_STREAM_STATUS_OK) then read_refused status s k else
      let '(status, chunk, s, k) := read s k in
      let '(status, s) :=
        if status_is status SL_STREAM_STATUS_OK then
          if negb (sl_stream_bytes_valid chunk) || (rd_max_chunk_bytes s <? bytes_length chunk)
          then (SL_STREAM_STATUS_INVALID_STATE, s)
          else if negb (bytes_length chunk =? 0)
          then (status, rd_set_stats (stats_add_read (bytes_length chunk) (rd_stats s)) s)
          else (status, s)
        else (status, s) in
      (status, {| rr_status := status; rr_chunk := chunk |}, sl_readable_stream_set_status status s, k)
  end.

(** A control callback, skipped when the table has none. *)
Definition control (callback : option (SlStr -> K -> SlStreamStatus * K)) (message : SlStr) k : SlStreamStatus * K :=
  match callback with Some f => f message k | None => (SL_STREAM_STATUS_OK, k) end.

Definition sl_readable_stream_close (vtable : option (SlReadableStreamVTable K)) (stream : nullable)
    (message : SlStr) (s : SlReadableStream) k : SlStreamStatus * SlReadableStream * K :=
  if is_null stream || negb (sl_stream_str_valid message) then (SL_STREAM_STATUS_INVALID_ARGUMENT, s, k) else
  if state_is (rd_state s) SL_STREAM_STATE_CLOSED || state_is (rd_state s) SL_STREAM_STATE_ENDED
  then (SL_STREAM_STATUS_OK, s, k) else
  if negb (state_is (rd_state s) SL_STREAM_STATE_OPEN) then (SL_STREAM_STATUS_INVALID_STATE, s, k) else
  let '(status, k) := control (vtable ≫= rv_close) message k in
  let s := if status_is status SL_STREAM_STATUS_OK then rd_set_state SL_STREAM_STATE_CLOSED s else s in
  (status, sl_readable_stream_set_status status s, k).

Definition sl_readable_stream_fail (vtable : option (SlReadableStreamVTable K)) (stream : nullable)
    (code : SlStreamStatus) (message : SlStr) (s : SlReadableStream) k : SlStreamStatus * SlReadableStream * K :=
  if is_null stream || status_is code SL_STREAM_STATUS_OK || status_is code SL_STREAM_STATUS_EOF
     || negb (sl_stream_str_valid message)
  then (SL_STREAM_STATUS_INVALID_ARGUMENT, s, k) else
  if negb (state_is (rd_state s) SL_STREAM_STATE_OPEN) then (SL_STREAM_STATUS_INVALID_STATE, s, k) else
  let '(status, k) := control (vtable ≫= rv_fail) message k in
  if status_is status SL_STREAM_STATUS_OK then
    let error := {| se_code := code; se_status := sl_stream_status_to_status code; se_message := message |} in
    (code, sl_readable_stream_set_status code (rd_set_error error (rd_set_state SL_STREAM_STATE_FAILED s)), k)
  else (status, sl_readable_stream_set_status status s, k).

Definition sl_readable_stream_abort (vtable : option (SlReadableStreamVTable K)) (stream : nullable)
    (message : SlStr) (s : SlReadableStream) k : SlStreamStatus * SlReadableStream * K :=
  if is_null stream || negb (sl_stream_str_valid message) then (SL_STREAM_STATUS_INVALID_ARGUMENT, s, k) else
  if state_is (rd_state s) SL_STREAM_STATE_ABORTED then (SL_STREAM_STATUS_OK, s, k) else
  if negb (state_is (rd_state s) SL_STREAM_STATE_OPEN) then (SL_STREAM_STATUS_INVALID_STATE, s, k) else
  let '(status, k) := control (vtable ≫= rv_abort) message k in
  if status_is status SL_STREAM_STATUS_OK then
    (SL_STREAM_STATUS_ABORTED,
     sl_readable_stream_set_status SL_STREAM_STATUS_ABORTED (rd_set_state SL_STREAM_STATE_ABORTED s), k)
  else (status, sl_readable_stream_set_status status s, k).

Definition sl_readable_stream_stats (stream : nullable) (s : SlReadableStream) : SlStreamStats :=
  if is_null stream then no_stats else rd_stats s.

(** * Writable streams *)

Definition sl_writable_stream_init (stream : nullable) (vtable : option (SlWritableStreamVTable K))
    (options : option SlStreamOptions) : result SlWritableStream :=
  error_if is_null stream || negb (bool_decide (is_Some (vtable ≫= wv_write))) with SL_STATUS_INVALID_ARGUMENT ;;
  let normalized := sl_stream_normalize_options options in
  Ok {| wr_cancellation := so_cancellation normalized; wr_state := SL_STREAM_STATE_OPEN;
        wr_stats := stats_set_status SL_STREAM_STATE_OPEN SL_STREAM_STATUS_OK no_stats;
        wr_error := no_error; wr_max_chunk_bytes := so_max_chunk_bytes normalized;
        wr_max_buffered_bytes := so_max_buffered_bytes normalized |}.

Definition sl_writable_stream_backpressure (vtable : option (SlWritableStreamVTable K)) (stream : nullable)
    (s : SlWritableStream) k : SlStreamBackpressureState :=
  if is_null stream then no_backpressure else
  let state := match vtable ≫= wv_backpressure with
               | Some f => f s k
               | None => sl_stream_empty_backpressure
               end in
  {| bp_writable := bp_writable state; bp_buffered_bytes := bp_buffered_bytes state;
     bp_available_bytes := bp_available_bytes state; bp_high_water_mark := bp_high_water_mark state;
     bp_backpressure_hits := ss_backpressure_hits (wr_stats s) |}.

Definition write_refused (status : SlStreamStatus) (s : SlWritableStream) k
    : SlStreamStatus * SlStreamWriteResult * SlWritableStream * K :=
  (status, {| wres_status := status; wres_bytes_written := 0; wres_backpressure := no_backpressure |}, s, k).

(** The answers of an adapter that its contract forbids. *)
Definition write_answer_bad (status : SlStreamStatus) (bytes_written length : Z) : bool :=
  (length <? bytes_written)
  || (negb (status_is status SL_STREAM_STATUS_OK) && negb (status_is status SL_STREAM_STATUS_BACKPRESSURE)
      && negb (bytes_written =? 0))
  || (status_is status SL_STREAM_STATUS_OK && negb (length =? 0) && (bytes_written =? 0)).

Definition sl_writable_stream_write (vtable : option (SlWritableStreamVTable K)) (stream out : nullable)
    (chunk : SlBytes) (s : SlWritableStream) k : SlStreamStatus * SlStreamWriteResult * SlWritableStream * K :=
  match (if is_null stream || is_null out then None else vtable ≫= wv_write) with
  | None => (SL_STREAM_STATUS_INVALID_ARGUMENT, no_write, s, k)
  | Some write =>
      if negb (sl_stream_bytes_valid chunk) then write_refused SL_STREAM_STATUS_INVALID_ARGUMENT s k else
      if wr_max_chunk_bytes s <? bytes_length chunk
      then write_refused SL_STREAM_STATUS_CAPACITY_EXCEEDED s k else
      let status := sl_stream_state_write_status (wr_state s) in
      if negb (status_is status SL_STREAM_STATUS_OK)
      then write_refused status (sl_writable_stream_set_status status s) k else
      let status := sl_stream_status_from_cancellation tokens (wr_cancellation s) in
      if negb (status_is status SL_STREAM_STATUS_OK)
      then write_refused status (sl_writable_stream_set_status status s) k else
      let '(status, bytes_written, s, k) := write s chunk k in
      let bad := write_answer_bad status bytes_written (bytes_length chunk) in
      let status := if bad then SL_STREAM_STATUS_INVALID_STATE else status in
      let bytes_written := if bad then 0 else bytes_written in
      let s := if status_is status SL_STREAM_STATUS_OK || status_is status SL_STREAM_STATUS_BACKPRESSURE
               then wr_set_stats (stats_add_written bytes_written (wr_stats s)) s else s in
      let s := if status_is status SL_STREAM_STATUS_BACKPRESSURE
                  || status_is status SL_STREAM_STATUS_CAPACITY_EXCEEDED
               then wr_set_stats (stats_add_hit (wr_stats s)) s else s in
      let backpressure := sl_writable_stream_backpressure vtable stream s k in
      (status, {| wres_status := status; wres_bytes_written := bytes_written; wres_backpressure := backpressure |},
       sl_writable_stream_set_status status s, k)
  end.

Definition sl_writable_stream_drain (vtable : option (SlWritableStreamVTable K)) (stream : nullable) (bytes : Z)
    (s : SlWritableStream) k : SlStreamStatus * SlWritableStream * K :=
  if is_null stream then (SL_STREAM_STATUS_INVALID_ARGUMENT, s, k) else
  match vtable ≫= wv_drain with
  | None => (if bytes =? 0 then SL_STREAM_STATUS_OK else SL_STREAM_STATUS_UNSUPPORTED, s, k)
  | Some drain =>
      let '(status, s, k) := drain s bytes k in
      let s :=
        if status_is status SL_STREAM_STATUS_OK then
          let s := wr_set_stats (stats_add_drain (wr_stats s)) s in
          wr_set_stats (stats_set_buffered (bp_buffered_bytes (sl_writable_stream_backpressure vtable REF s k))
                          (ss_high_water_mark (wr_stats s)) (wr_stats s)) s
        else s in
      (status, sl_writable_stream_set_status status s, k)
  end.

Definition sl_writable_stream_close (vtable : option (SlWritableStreamVTable K)) (stream : nullable)
    (message : SlStr) (s : SlWritableStream) k : SlStreamStatus * SlWritableStream * K :=
  if is_null stream || negb (sl_stream_str_valid message) then (SL_STREAM_STATUS_INVALID_ARGUMENT, s, k) else
  if state_is (wr_state s) SL_STREAM_STATE_CLOSED then (SL_STREAM_STATUS_OK, s, k) else
  if negb (state_is (wr_state s) SL_STREAM_STATE_OPEN) then (SL_STREAM_STATUS_INVALID_STATE, s, k) else
  let '(status, k) := control (vtable ≫= wv_close) message k in
  let s := if status_is status SL_STREAM_STATUS_OK then wr_set_state SL_STREAM_STATE_CLOSED s else s in
  (status, sl_writable_stream_set_status status s, k).

Definition sl_writable_stream_fail (vtable : option (SlWritableStreamVTable K)) (stream : nullable)
    (code : SlStreamStatus) (message : SlStr) (s : SlWritableStream) k : SlStreamStatus * SlWritableStream * K :=
  if is_null stream || status_is code SL_STREAM_STATUS_OK || status_is code SL_STREAM_STATUS_EOF
     || negb (sl_stream_str_valid message)
  then (SL_STREAM_STATUS_INVALID_ARGUMENT, s, k) else
  if negb (state_is (wr_state s) SL_STREAM_STATE_OPEN) then (SL_STREAM_STATUS_INVALID_STATE, s, k) else
  let '(status, k) := control (vtable ≫= wv_fail) message k in
  if status_is status SL_STREAM_STATUS_OK then
    let error := {| se_code := code; se_status := sl_stream_status_to_status code; se_message := message |} in
    (code, sl_writable_stream_set_status code (wr_set_error error (wr_set_state SL_STREAM_STATE_FAILED s)), k)
  else (status, sl_writable_stream_set_status status s, k).

Definition sl_writable_stream_abort (vtable : option (SlWritableStreamVTable K)) (stream : nullable)
    (message : SlStr) (s : SlWritableStream) k : SlStreamStatus * SlWritableStream * K :=
  if is_null stream || negb (sl_stream_str_valid message) then (SL_STREAM_STATUS_INVALID_ARGUMENT, s, k) else
  if state_is (wr_state s) SL_STREAM_STATE_ABORTED then (SL_STREAM_STATUS_OK, s, k) else
  if negb (state_is (wr_state s) SL_STREAM_STATE_OPEN) then (SL_STREAM_STATUS_INVALID_STATE, s, k) else
  let '(status, k) := control (vtable ≫= wv_abort) message k in
  if status_is status SL_STREAM_STATUS_OK then
    (SL_STREAM_STATUS_ABORTED,
     sl_writable_stream_set_status SL_STREAM_STATUS_ABORTED (wr_set_state SL_STREAM_STATE_ABORTED s), k)
  else (status, sl_writable_stream_set_status status s, k).

Definition sl_writable_stream_stats (vtable : option (SlWritableStreamVTable K)) (stream : nullable)
    (s : SlWritableStream) k : SlStreamStats :=
  if is_null stream then no_stats else
  stats_set_buffered (bp_buffered_bytes (sl_writable_stream_backpressure vtable REF s k))
    (ss_high_water_mark (wr_stats s)) (wr_stats s).
End Operations.
