(* ===== verification/StreamPump.v ===== *)
(** The stream pump (src/core/stream.c): moving chunks from a readable to a
    writable stream, proved against what adapters promise. *)

From S2P Require Import Prelude Memory Status Str Bytes Container Queue Loop Async Stream.

Record SlStreamPump := {
  pm_readable : nullable;
  pm_writable : nullable;
  pm_cancellation : Z;
  pm_has_pending_chunk : bool;
  pm_pending_chunk : SlBytes;
  pm_last_status : SlStreamStatus;
  pm_bytes_transferred : Z;
  pm_chunks_transferred : Z;
}.

Record SlStreamPumpResult := {
  pr_status : SlStreamStatus;
  pr_bytes_transferred : Z;
  pr_chunks_transferred : Z;
  pr_backpressure : SlStreamBackpressureState;
}.

(** The pump with the streams it points to and the world of their adapters. *)
Record PumpSys (K : Type) := {
  ps_pump : SlStreamPump;
  ps_reader : SlReadableStream;
  ps_writer : SlWritableStream;
  ps_world : K;
}.

Arguments ps_pump {K} _.
Arguments ps_reader {K} _.
Arguments ps_writer {K} _.
Arguments ps_world {K} _.

Definition set_pump {K} (p : SlStreamPump) (s : PumpSys K) : PumpSys K :=
  {| ps_pump := p; ps_reader := ps_reader s; ps_writer := ps_writer s; ps_world := ps_world s |}.
Definition set_reader {K} (r : SlReadableStream) (k : K) (s : PumpSys K) : PumpSys K :=
  {| ps_pump := ps_pump s; ps_reader := r; ps_writer := ps_writer s; ps_world := k |}.
Definition set_writer {K} (w : SlWritableStream) (k : K) (s : PumpSys K) : PumpSys K :=
  {| ps_pump := ps_pump s; ps_reader := ps_reader s; ps_writer := w; ps_world := k |}.

Definition pump_set_status (status : SlStreamStatus) (p : SlStreamPump) : SlStreamPump :=
  {| pm_readable := pm_readable p; pm_writable := pm_writable p; pm_cancellation := pm_cancellation p;
     pm_has_pending_chunk := pm_has_pending_chunk p; pm_pending_chunk := pm_pending_chunk p;
     pm_last_status := status; pm_bytes_transferred := pm_bytes_transferred p;
     pm_chunks_transferred := pm_chunks_transferred p |}.
Definition pump_set_pending (chunk : option SlBytes) (p : SlStreamPump) : SlStreamPump :=
  {| pm_readable := pm_readable p; pm_writable := pm_writable p; pm_cancellation := pm_cancellation p;
     pm_has_pending_chunk := bool_decide (is_Some chunk); pm_pending_chunk := default no_bytes chunk;
     pm_last_status := pm_last_status p; pm_bytes_transferred := pm_bytes_transferred p;
     pm_chunks_transferred := pm_chunks_transferred p |}.
Definition pump_add_bytes (n : Z) (p : SlStreamPump) : SlStreamPump :=
  {| pm_readable := pm_readable p; pm_writable := pm_writable p; pm_cancellation := pm_cancellation p;
     pm_has_pending_chunk := pm_has_pending_chunk p; pm_pending_chunk := pm_pending_chunk p;
     pm_last_status := pm_last_status p; pm_bytes_transferred := wrap64 (pm_bytes_transferred p + n);
     pm_chunks_transferred := pm_chunks_transferred p |}.
Definition pump_add_chunk (p : SlStreamPump) : SlStreamPump :=
  {| pm_readable := pm_readable p; pm_writable := pm_writable p; pm_cancellation := pm_cancellation p;
     pm_has_pending_chunk := pm_has_pending_chunk p; pm_pending_chunk := pm_pending_chunk p;
     pm_last_status := pm_last_status p; pm_bytes_transferred := pm_bytes_transferred p;
     pm_chunks_transferred := wrap64 (pm_chunks_transferred p + 1) |}.

Definition sl_stream_pump_init (pump readable writable : nullable) (cancellation : Z) : result SlStreamPump :=
  error_if is_null pump || is_null readable || is_null writable with SL_STATUS_INVALID_ARGUMENT ;;
  Ok {| pm_readable := readable; pm_writable := writable; pm_cancellation := cancellation;
        pm_has_pending_chunk := false; pm_pending_chunk := no_bytes; pm_last_status := SL_STREAM_STATUS_OK;
        pm_bytes_transferred := 0; pm_chunks_transferred := 0 |}.

Section Pump.
Context {K : Type} (tokens : Z -> SlCancellationToken).
Context (rv : option (SlReadableStreamVTable K)) (wv : option (SlWritableStreamVTable K)).

Definition sl_stream_pump_snapshot (status : SlStreamStatus) (s : PumpSys K) : SlStreamPumpResult :=
  {| pr_status := status; pr_bytes_transferred := pm_bytes_transferred (ps_pump s);
     pr_chunks_transferred := pm_chunks_transferred (ps_pump s);
     pr_backpressure := sl_writable_stream_backpressure wv (pm_writable (ps_pump s)) (ps_writer s) (ps_world s) |}.

(** [pump->last_status = status; snapshot; return status;] *)
Definition pump_return (status : SlStreamStatus) (s : PumpSys K)
    : SlStreamStatus * option SlStreamPumpResult * PumpSys K :=
  let s := set_pump (pump_set_status status (ps_pump s)) s in
  (status, Some (sl_stream_pump_snapshot status s), s).

(** The second half of a step: write [chunk], which is the pending chunk. *)
Definition pump_write (chunk : SlBytes) (s : PumpSys K) : SlStreamStatus * option SlStreamPumpResult * PumpSys K :=
  let '(status, write, w, k) :=
    sl_writable_stream_write tokens wv (pm_writable (ps_pump s)) REF chunk (ps_writer s) (ps_world s) in
  let s := set_writer w k s in
  if negb (status_is status SL_STREAM_STATUS_OK) && negb (status_is status SL_STREAM_STATUS_BACKPRESSURE)
  then pump_return status s else
  let n := wres_bytes_written write in
  let s := set_pump (pump_add_bytes n (ps_pump s)) s in
  if n <? bytes_length chunk then
    pump_return status
      (set_pump (pump_set_pending (Some (sl_bytes_from_parts (bytes_ptr chunk + n) (bytes_length chunk - n)))
                   (ps_pump s)) s)
  else
  let s := set_pump (pump_set_pending None (ps_pump s)) s in
  let s := if negb (bytes_length chunk =? 0) then set_pump (pump_add_chunk (ps_pump s)) s else s in
  pump_return status s.

Definition sl_stream_pump_step (pump out : nullable) (s : PumpSys K)
    : SlStreamStatus * option SlStreamPumpResult * PumpSys K :=
  if is_null pump || is_null (pm_readable (ps_pump s)) || is_null (pm_writable (ps_pump s)) || is_null out
  then (SL_STREAM_STATUS_INVALID_ARGUMENT, None, s) else
  let status := sl_stream_status_from_cancellation tokens (pm_cancellation (ps_pump s)) in
  if negb (status_is status SL_STREAM_STATUS_OK) then pump_return status s else
  if pm_has_pending_chunk (ps_pump s) then pump_write (pm_pending_chunk (ps_pump s)) s else
  let '(status, read, r, k) :=
    sl_readable_stream_read tokens rv (pm_readable (ps_pump s)) REF (ps_reader s) (ps_world s) in
  let s := set_reader r k s in
  if negb (status_is status SL_STREAM_STATUS_OK) then pump_return status s else
  if bytes_length (rr_chunk read) =? 0 then pump_return SL_STREAM_STATUS_WOULD_BLOCK s else
  let chunk := rr_chunk read in
  pump_write chunk (set_pump (pump_set_pending (Some chunk) (ps_pump s)) s).

Fixpoint pump_run_loop (steps : nat) (s : PumpSys K) : SlStreamStatus * option SlStreamPumpResult * PumpSys K :=
  match steps with
  | O => (SL_STREAM_STATUS_OK, Some (sl_stream_pump_snapshot SL_STREAM_STATUS_OK s), s)
  | S steps =>
      let '(status, out, s) := sl_stream_pump_step REF REF s in
      if negb (status_is status SL_STREAM_STATUS_OK) then (status, out, s) else pump_run_loop steps s
  end.

Definition sl_stream_pump_run (pump : nullable) (max_steps : Z) (out : nullable) (s : PumpSys K)
    : SlStreamStatus * option SlStreamPumpResult * PumpSys K :=
  if is_null pump || is_null out || (max_steps =? 0) then (SL_STREAM_STATUS_INVALID_ARGUMENT, None, s) else
  pump_run_loop (Z.to_nat max_steps) s.
End Pump.

(** * What adapters promise *)

(** The world of a pair of adapters: the bytes the reader still has to deliver, the
    bytes the writer holds, and the views that stay readable. *)
Class StreamWorld (K : Type) := {
  sw_mem : K -> mem;
  sw_inv : K -> Prop;
  sw_left : K -> list Z;
  sw_taken : K -> list Z;
  sw_readable : K -> SlBytes -> Prop;
}.

Definition same_reader (r r' : SlReadableStream) : Prop :=
  rd_state r' = rd_state r /\ rd_cancellation r' = rd_cancellation r /\
  rd_max_chunk_bytes r' = rd_max_chunk_bytes r.
Definition same_writer (w w' : SlWritableStream) : Prop :=
  wr_state w' = wr_state w /\ wr_cancellation w' = wr_cancellation w /\
  wr_max_chunk_bytes w' = wr_max_chunk_bytes w /\ wr_max_buffered_bytes w' = wr_max_buffered_bytes w.

(** A callback that leaves the transfer alone. *)
Definition quiet `{StreamWorld K} (k k' : K) : Prop :=
  sw_inv k' /\ sw_left k' = sw_left k /\ sw_taken k' = sw_taken k /\
  forall b, sw_readable k b -> sw_readable k' b /\ bytes_val (sw_mem k') b = bytes_val (sw_mem k) b.

Definition quiet_control `{StreamWorld K} (f : option (SlStr -> K -> SlStreamStatus * K)) : Prop :=
  forall message k, sw_inv k -> quiet k (snd (control f message k)).

Class ReaderLaws (K : Type) `{StreamWorld K} (vt : SlReadableStreamVTable K) := {
  reader_read_law : forall read r k, rv_read vt = Some read -> sw_inv k -> 0 < rd_max_chunk_bytes r ->
    let '(status, chunk, r', k') := read r k in
    same_reader r r' /\ sw_inv k' /\ sw_taken k' = sw_taken k /\
    (status = SL_STREAM_STATUS_OK ->
     sl_stream_bytes_valid chunk = true /\ 0 <= bytes_length chunk <= rd_max_chunk_bytes r /\
     sw_readable k' chunk /\ sw_left k = bytes_val (sw_mem k') chunk ++ sw_left k') /\
    (status <> SL_STREAM_STATUS_OK -> sw_left k' = sw_left k);
  reader_close_law : quiet_control (rv_close vt);
  reader_fail_law : quiet_control (rv_fail vt);
  reader_abort_law : quiet_control (rv_abort vt);
}.

Class WriterLaws (K : Type) `{StreamWorld K} (vt : SlWritableStreamVTable K) := {
  writer_slice_law : forall k b p n, sw_readable k b -> bytes_ptr b <= p -> 0 <= n ->
    p + n <= bytes_ptr b + bytes_length b -> sw_readable k (sl_bytes_from_parts p n);
  writer_valid_law : forall k b, sw_readable k b -> bytes_valid b /\ 0 <= bytes_ptr b;
  writer_write_law : forall write w chunk k, wv_write vt = Some write -> sw_inv k -> sw_readable k chunk ->
    let '(status, n, w', k') := write w chunk k in
    same_writer w w' /\ sw_inv k' /\ sw_left k' = sw_left k /\ 0 <= n <= bytes_length chunk /\
    sw_taken k' = sw_taken k ++ take (Z.to_nat n) (bytes_val (sw_mem k) chunk) /\
    sw_readable k' chunk /\ bytes_val (sw_mem k') chunk = bytes_val (sw_mem k) chunk /\
    (status = SL_STREAM_STATUS_OK -> bytes_length chunk <> 0 -> n <> 0) /\
    (status <> SL_STREAM_STATUS_OK -> status <> SL_STREAM_STATUS_BACKPRESSURE -> n = 0);
  writer_drain_law : forall drain w n k, wv_drain vt = Some drain -> sw_inv k -> 0 <= n ->
    let '(status, w', k') := drain w n k in
    same_writer w w' /\ sw_inv k' /\ sw_left k' = sw_left k /\
    (forall b, sw_readable k b -> sw_readable k' b /\ bytes_val (sw_mem k') b = bytes_val (sw_mem k) b) /\
    (if status_is status SL_STREAM_STATUS_OK
     then n <= Z.of_nat (length (sw_taken k)) /\ sw_taken k' = drop (Z.to_nat n) (sw_taken k)
     else sw_taken k' = sw_taken k);
  writer_close_law : quiet_control (wv_close vt);
  writer_fail_law : quiet_control (wv_fail vt);
  writer_abort_law : quiet_control (wv_abort vt);
}.

(** * Conservation *)

Section Conservation.
Context `{HW : StreamWorld K} (rv : SlReadableStreamVTable K) (wv : SlWritableStreamVTable K).
Context {HR : ReaderLaws K rv} {HWr : WriterLaws K wv}.

Definition pending_bytes (s : PumpSys K) : list Z :=
  if pm_has_pending_chunk (ps_pump s) then bytes_val (sw_mem (ps_world s)) (pm_pending_chunk (ps_pump s)) else [].

(** The pump with the bytes its sink has already passed on. *)
Record Ledger := { lg_sys : PumpSys K; lg_drained : list Z }.

Definition delivered (g : Ledger) : list Z := lg_drained g ++ sw_taken (ps_world (lg_sys g)).

Definition lg_update (s : PumpSys K) (g : Ledger) : Ledger := {| lg_sys := s; lg_drained := lg_drained g |}.

(** What may happen around a pump, in any order: steps (under any state of the
    cancellation tokens), drains, and the control operations of both streams. *)
Inductive pump_op : Ledger -> Ledger -> Prop :=
| op_step tokens g :
    pump_op g (lg_update (snd (sl_stream_pump_step tokens (Some rv) (Some wv) REF REF (lg_sys g))) g)
| op_drain n g status w k :
    0 <= n ->
    sl_writable_stream_drain (Some wv) REF n (ps_writer (lg_sys g)) (ps_world (lg_sys g)) = (status, w, k) ->
    pump_op g {| lg_sys := set_writer w k (lg_sys g);
                 lg_drained := lg_drained g ++ (if status_is status SL_STREAM_STATUS_OK
                                                then take (Z.to_nat n) (sw_taken (ps_world (lg_sys g))) else []) |}
| op_reader_close message g status r k :
    sl_readable_stream_close (Some rv) REF message (ps_reader (lg_sys g)) (ps_world (lg_sys g)) = (status, r, k) ->
    pump_op g (lg_update (set_reader r k (lg_sys g)) g)
| op_reader_fail code message g status r k :
    sl_readable_stream_fail (Some rv) REF code message (ps_reader (lg_sys g)) (ps_world (lg_sys g)) = (status, r, k) ->
    pump_op g (lg_update (set_reader r k (lg_sys g)) g)
| op_reader_abort message g status r k :
    sl_readable_stream_abort (Some rv) REF message (ps_reader (lg_sys g)) (ps_world (lg_sys g)) = (status, r, k) ->
    pump_op g (lg_update (set_reader r k (lg_sys g)) g)
| op_writer_close message g status w k :
    sl_writable_stream_close (Some wv) REF message (ps_writer (lg_sys g)) (ps_world (lg_sys g)) = (status, w, k) ->
    pump_op g (lg_update (set_writer w k (lg_sys g)) g)
| op_writer_fail code message g status w k :
    sl_writable_stream_fail (Some wv) REF code message (ps_writer (lg_sys g)) (ps_world (lg_sys g)) = (status, w, k) ->
    pump_op g (lg_update (set_writer w k (lg_sys g)) g)
| op_writer_abort message g status w k :
    sl_writable_stream_abort (Some wv) REF message (ps_writer (lg_sys g)) (ps_world (lg_sys g)) = (status, w, k) ->
    pump_op g (lg_update (set_writer w k (lg_sys g)) g).

(** [all] is what the reader had to deliver at the start, [base] the number of
    bytes delivered before. *)
Record pump_inv (all : list Z) (base : Z) (g : Ledger) : Prop := {
  pi_world : sw_inv (ps_world (lg_sys g));
  pi_max : 0 < rd_max_chunk_bytes (ps_reader (lg_sys g));
  pi_pending : pm_has_pending_chunk (ps_pump (lg_sys g)) = true ->
               sw_readable (ps_world (lg_sys g)) (pm_pending_chunk (ps_pump (lg_sys g)));
  pi_bytes : delivered g ++ pending_bytes (lg_sys g) ++ sw_left (ps_world (lg_sys g)) = all;
  pi_count : pm_bytes_transferred (ps_pump (lg_sys g)) = wrap64 (Z.of_nat (length (delivered g)) - base);
}.

Lemma status_is_true a b : status_is a b = true <-> a = b.
Proof. apply bool_decide_eq_true. Qed.
Lemma status_is_false a b : status_is a b = false <-> a <> b.
Proof. apply bool_decide_eq_false. Qed.

Lemma readable_set_status_max status r :
  rd_max_chunk_bytes (sl_readable_stream_set_status status r) = rd_max_chunk_bytes r.
Proof. done. Qed.

(** A read through the stream, whatever the adapter answers. *)
Lemma stream_read_spec tokens r k :
  sw_inv k -> 0 < rd_max_chunk_bytes r ->
  let '(status, res, r', k') := sl_readable_stream_read tokens (Some rv) REF REF r k in
  sw_inv k' /\ sw_taken k' = sw_taken k /\ rd_max_chunk_bytes r' = rd_max_chunk_bytes r /\
  (status = SL_STREAM_STATUS_OK ->
   sw_readable k' (rr_chunk res) /\ 0 <= bytes_length (rr_chunk res) <= rd_max_chunk_bytes r /\
   sw_left k = bytes_val (sw_mem k') (rr_chunk res) ++ sw_left k') /\
  (status <> SL_STREAM_STATUS_OK -> sw_left k' = sw_left k).
Proof.
  intros Hi Hm. unfold sl_readable_stream_read. cbn [is_null orb mbind option_bind].
  destruct (rv_read rv) as [read|] eqn:Erd; [|by split_and!].
  destruct (status_is (sl_stream_state_read_status _) _) eqn:E1; cbn [negb].
  2:{ apply status_is_false in E1. unfold read_refused. by split_and!. }
  destruct (status_is (sl_stream_status_from_cancellation _ _) _) eqn:E2; cbn [negb].
  2:{ apply status_is_false in E2. unfold read_refused. by split_and!. }
  pose proof (reader_read_law read r k Erd Hi Hm) as H. destruct (read r k) as [[[status chunk] r'] k'].
  destruct H as (Hs & Hi' & Ht & Hok & Hno). destruct Hs as (_ & _ & Hmax).
  destruct (status_is status SL_STREAM_STATUS_OK) eqn:E3.
  - apply status_is_true in E3. subst status. destruct (Hok eq_refl) as (Hv & Hl & Hr & Hleft).
    rewrite Hv. cbn [negb orb]. destruct (Z.ltb_spec (rd_max_chunk_bytes r') (bytes_length chunk)); [lia|].
    destruct (negb (bytes_length chunk =? 0)); by split_and!.
  - apply status_is_false in E3. by split_and!; auto.
Qed.

(** A write through the stream. *)
Lemma stream_write_spec tokens w chunk k :
  sw_inv k -> sw_readable k chunk ->
  let '(status, res, w', k') := sl_writable_stream_write tokens (Some wv) REF REF chunk w k in
  let n := wres_bytes_written res in
  sw_inv k' /\ sw_left k' = sw_left k /\ 0 <= n <= bytes_length chunk /\
  sw_taken k' = sw_taken k ++ take (Z.to_nat n) (bytes_val (sw_mem k) chunk) /\
  sw_readable k' chunk /\ bytes_val (sw_mem k') chunk = bytes_val (sw_mem k) chunk /\
  (status <> SL_STREAM_STATUS_OK -> status <> SL_STREAM_STATUS_BACKPRESSURE -> n = 0).
Proof.
  intros Hi Hr. destruct (writer_valid_law k chunk Hr) as ([Hl0 Hv] & Hp).
  assert (Hrefuse : forall status w', let '(st, res, w'', k') := @write_refused K status w' k in
    let n := wres_bytes_written res in
    sw_inv k' /\ sw_left k' = sw_left k /\ 0 <= n <= bytes_length chunk /\
    sw_taken k' = sw_taken k ++ take (Z.to_nat n) (bytes_val (sw_mem k) chunk) /\
    sw_readable k' chunk /\ bytes_val (sw_mem k') chunk = bytes_val (sw_mem k) chunk /\
    (st <> SL_STREAM_STATUS_OK -> st <> SL_STREAM_STATUS_BACKPRESSURE -> n = 0)).
  { intros status w'. cbn. rewrite app_nil_r. split_and!; done || lia. }
  unfold sl_writable_stream_write. cbn [is_null orb mbind option_bind].
  destruct (wv_write wv) as [write|] eqn:Ewr.
  2:{ cbn. rewrite app_nil_r. split_and!; done || lia. }
  destruct (negb (sl_stream_bytes_valid chunk)); [apply (Hrefuse _ w)|].
  destruct (wr_max_chunk_bytes w <? bytes_length chunk); [apply (Hrefuse _ w)|].
  destruct (negb (status_is (sl_stream_state_write_status _) _)); [eapply Hrefuse|].
  destruct (negb (status_is (sl_stream_status_from_cancellation _ _) _)); [eapply Hrefuse|].
  pose proof (writer_write_law write w chunk k Ewr Hi Hr) as H. destruct (write w chunk k) as [[[status n] w'] k'].
  destruct H as (_ & Hi' & Hleft & Hn & Ht & Hr' & Hb & Hok & Hno).
  replace (write_answer_bad status n (bytes_length chunk)) with false.
  { cbn [wres_bytes_written]. split_and!; try done; lia. }
  symmetry. unfold write_answer_bad. destruct (Z.ltb_spec (bytes_length chunk) n); [lia|]. cbn [orb].
  destruct (status_is status SL_STREAM_STATUS_OK) eqn:E1; cbn [negb andb].
  - apply status_is_true in E1. destruct (Z.eqb_spec (bytes_length chunk) 0); [done|]. cbn [negb andb].
    apply Z.eqb_neq. by apply Hok.
  - apply status_is_false in E1. destruct (status_is status SL_STREAM_STATUS_BACKPRESSURE) eqn:E2; [done|].
    apply status_is_false in E2. rewrite (Hno E1 E2). done.
Qed.

(** Only the fields of the pump that the invariant mentions matter. *)
Lemma pump_inv_pump all base g p :
  pump_inv all base g ->
  pm_has_pending_chunk p = pm_has_pending_chunk (ps_pump (lg_sys g)) ->
  pm_pending_chunk p = pm_pending_chunk (ps_pump (lg_sys g)) ->
  pm_bytes_transferred p = pm_bytes_transferred (ps_pump (lg_sys g)) ->
  pump_inv all base (lg_update (set_pump p (lg_sys g)) g).
Proof.
  intros [H1 H2 H3 H4 H5] E1 E2 E3.
  split; cbn [lg_update lg_sys set_pump ps_pump ps_reader ps_writer ps_world]; try done.
  - by rewrite E1, E2.
  - unfold pending_bytes in *. cbn [set_pump ps_pump ps_world]. by rewrite E1, E2.
  - by rewrite E3.
Qed.

Lemma pump_return_inv all base g status :
  pump_inv all base g ->
  pump_inv all base (lg_update (snd (pump_return (Some wv) status (lg_sys g))) g).
Proof. intros H. by apply pump_inv_pump. Qed.

Lemma wrap64_add a b : wrap64 (wrap64 a + b) = wrap64 (a + b).
Proof. unfold wrap64. by rewrite Z.add_mod_idemp_l. Qed.

Lemma bytes_val_split m p len n :
  0 <= n <= len -> load_bytes m p len =
  take (Z.to_nat n) (load_bytes m p len) ++ bytes_val m (sl_bytes_from_parts (p + n) (len - n)).
Proof.
  intros Hn. unfold bytes_val. cbn [bytes_ptr bytes_length sl_bytes_from_parts].
  rewrite load_bytes_take by lia. rewrite <- load_bytes_app by lia. f_equal. lia.
Qed.

(** Writing the pending chunk keeps the account. *)
Lemma pump_write_inv all base tokens g :
  pump_inv all base g -> pm_has_pending_chunk (ps_pump (lg_sys g)) = true ->
  pm_writable (ps_pump (lg_sys g)) = REF ->
  pump_inv all base
    (lg_update (snd (pump_write tokens (Some wv) (pm_pending_chunk (ps_pump (lg_sys g))) (lg_sys g))) g).
Proof.
  intros Hinv Hp Hw. pose proof Hinv as [H1 H2 H3 H4 H5]. specialize (H3 Hp).
  unfold pump_write. rewrite Hw. set (chunk := pm_pending_chunk (ps_pump (lg_sys g))) in *.
  pose proof (stream_write_spec tokens (ps_writer (lg_sys g)) chunk (ps_world (lg_sys g)) H1 H3) as Hs.
  destruct (sl_writable_stream_write _ _ _ _ _ _ _) as [[[status res] w'] k'].
  cbv zeta in Hs. set (n := wres_bytes_written res) in *.
  destruct Hs as (S1 & S2 & S3 & S4 & S5 & S6 & S7).
  unfold pending_bytes in H4. rewrite Hp in H4. fold chunk in H4.
  destruct (negb (status_is status SL_STREAM_STATUS_OK) && negb (status_is status SL_STREAM_STATUS_BACKPRESSURE)) eqn:Eb.
  { apply andb_true_iff in Eb as [E1 E2]. apply negb_true_iff in E1, E2. apply status_is_false in E1, E2.
    rewrite (S7 E1 E2) in S4. cbn in S4. rewrite app_nil_r in S4.
    apply (pump_return_inv all base (lg_update (set_writer w' k' (lg_sys g)) g)).
    split; cbn [lg_update lg_sys set_writer ps_pump ps_reader ps_writer ps_world]; try done.
    - unfold pending_bytes, delivered in *. cbn [lg_drained lg_sys ps_pump ps_world set_writer lg_update].
      rewrite Hp, S4, S2. fold chunk. rewrite S6. done.
    - unfold delivered in *. cbn [lg_drained lg_sys ps_world set_writer lg_update]. by rewrite S4. }
  clear S7 Eb.
  assert (Hdel : lg_drained g ++ sw_taken k' = delivered g ++ take (Z.to_nat n) (bytes_val (sw_mem (ps_world (lg_sys g))) chunk)).
  { unfold delivered. by rewrite S4, app_assoc. }
  assert (Hsplit : bytes_val (sw_mem (ps_world (lg_sys g))) chunk =
    take (Z.to_nat n) (bytes_val (sw_mem (ps_world (lg_sys g))) chunk) ++
    bytes_val (sw_mem k') (sl_bytes_from_parts (bytes_ptr chunk + n) (bytes_length chunk - n))).
  { rewrite <- S6. apply bytes_val_split. lia. }
  assert (Hcount : wrap64 (pm_bytes_transferred (ps_pump (lg_sys g)) + n) =
                   wrap64 (Z.of_nat (length (lg_drained g ++ sw_taken k')) - base)).
  { rewrite H5, wrap64_add, Hdel, length_app, length_take. f_equal.
    replace (length (bytes_val (sw_mem (ps_world (lg_sys g))) chunk)) with (Z.to_nat (bytes_length chunk))
      by (unfold bytes_val, load_bytes; by rewrite length_load). lia. }
  destruct (Z.ltb_spec n (bytes_length chunk)) as [Hlt|Hge].
  - set (tail := sl_bytes_from_parts (bytes_ptr chunk + n) (bytes_length chunk - n)) in *.
    set (p := pump_set_pending (Some tail) (pump_add_bytes n (ps_pump (lg_sys g)))).
    apply (pump_return_inv all base (lg_update (set_pump p (set_writer w' k' (lg_sys g))) g)).
    split; cbn [lg_update lg_sys set_writer set_pump ps_pump ps_reader ps_writer ps_world]; try done.
    + intros _. apply (writer_slice_law k' chunk); [done|lia|lia|lia].
    + change (pending_bytes (set_pump p (set_writer w' k' (lg_sys g)))) with (bytes_val (sw_mem k') tail).
      unfold delivered. cbn [lg_drained lg_sys ps_world set_pump set_writer lg_update].
      rewrite S2, Hdel, <- app_assoc, (app_assoc (take _ _)), <- Hsplit. exact H4.
  - assert (n = bytes_length chunk) as En by lia.
    assert (Hall : take (Z.to_nat n) (bytes_val (sw_mem (ps_world (lg_sys g))) chunk) =
                   bytes_val (sw_mem (ps_world (lg_sys g))) chunk).
    { apply firstn_all2. unfold bytes_val, load_bytes. rewrite length_load. lia. }
    rewrite Hall in Hdel. set (p0 := pump_set_pending None (pump_add_bytes n (ps_pump (lg_sys g)))).
    assert (Hbase : pump_inv all base (lg_update (set_pump p0 (set_writer w' k' (lg_sys g))) g)).
    { split; cbn [lg_update lg_sys set_writer set_pump ps_pump ps_reader ps_writer ps_world]; try done.
      unfold pending_bytes, delivered. cbn [lg_drained lg_sys ps_pump ps_world set_pump set_writer lg_update p0].
      rewrite S2, Hdel, <- app_assoc. exact H4. }
    destruct (negb (bytes_length chunk =? 0)).
    + apply (pump_return_inv all base (lg_update (set_pump (pump_add_chunk p0) (set_writer w' k' (lg_sys g))) g)).
      exact (pump_inv_pump all base _ (pump_add_chunk p0) Hbase eq_refl eq_refl eq_refl).
    + exact (pump_return_inv all base (lg_update (set_pump p0 (set_writer w' k' (lg_sys g))) g) status Hbase).
Qed.

Lemma pump_step_inv all base tokens g :
  pump_inv all base g ->
  pump_inv all base (lg_update (snd (sl_stream_pump_step tokens (Some rv) (Some wv) REF REF (lg_sys g))) g).
Proof.
  intros Hinv. assert (Hsame : lg_update (lg_sys g) g = g) by (by destruct g).
  unfold sl_stream_pump_step. cbn [is_null orb].
  destruct (pm_readable (ps_pump (lg_sys g))) eqn:Er; cbn [is_null orb snd]; [by rewrite Hsame|].
  destruct (pm_writable (ps_pump (lg_sys g))) eqn:Ew; cbn [is_null orb snd]; [by rewrite Hsame|].
  destruct (negb (status_is (sl_stream_status_from_cancellation _ _) _)); [by apply pump_return_inv|].
  destruct (pm_has_pending_chunk (ps_pump (lg_sys g))) eqn:Ep; [by apply pump_write_inv|].
  pose proof Hinv as [H1 H2 H3 H4 H5].
  pose proof (stream_read_spec tokens (ps_reader (lg_sys g)) (ps_world (lg_sys g)) H1 H2) as Hs.
  destruct (sl_readable_stream_read _ _ _ _ _ _) as [[[status res] r'] k'].
  destruct Hs as (S1 & S2 & S3 & S4 & S5). unfold pending_bytes in H4. rewrite Ep in H4. cbn [app] in H4.
  assert (Hleft : sw_left k' = sw_left (ps_world (lg_sys g)) ->
                  pump_inv all base (lg_update (set_reader r' k' (lg_sys g)) g)).
  { intros El. split; cbn [lg_update lg_sys set_reader ps_pump ps_reader ps_writer ps_world]; try done.
    - lia.
    - congruence.
    - unfold pending_bytes, delivered in *. cbn [lg_drained lg_sys ps_pump ps_world set_reader lg_update].
      by rewrite Ep, El, S2.
    - unfold delivered in *. cbn [lg_drained lg_sys ps_world set_reader lg_update]. by rewrite S2. }
  destruct (status_is status SL_STREAM_STATUS_OK) eqn:E1; cbn [negb].
  2:{ apply status_is_false in E1. apply (pump_return_inv _ _ (lg_update (set_reader r' k' (lg_sys g)) g)). auto. }
  apply status_is_true in E1. destruct (S4 E1) as (Hr & Hl & El).
  destruct (Z.eqb_spec (bytes_length (rr_chunk res)) 0) as [E0|E0].
  { apply (pump_return_inv _ _ (lg_update (set_reader r' k' (lg_sys g)) g)). apply Hleft.
    rewrite El. unfold bytes_val. by rewrite E0. }
  set (p := pump_set_pending (Some (rr_chunk res)) (ps_pump (lg_sys g))).
  apply (pump_write_inv all base tokens (lg_update (set_pump p (set_reader r' k' (lg_sys g))) g)); [|done|done].
  split; cbn [lg_update lg_sys set_reader set_pump ps_pump ps_reader ps_writer ps_world]; try done.
  - lia.
  - change (pending_bytes (set_pump p (set_reader r' k' (lg_sys g)))) with (bytes_val (sw_mem k') (rr_chunk res)).
    unfold delivered in *. cbn [lg_drained lg_sys ps_world set_pump set_reader lg_update]. by rewrite S2, <- El.
  - unfold delivered in *. cbn [lg_drained lg_sys ps_world set_pump set_reader lg_update]. by rewrite S2.
Qed.

Lemma quiet_refl k : sw_inv k -> quiet k k.
Proof. intros Hi. unfold quiet. by split_and!. Qed.

Lemma quiet_inv all base g r w k' :
  pump_inv all base g -> quiet (ps_world (lg_sys g)) k' ->
  rd_max_chunk_bytes r = rd_max_chunk_bytes (ps_reader (lg_sys g)) ->
  pump_inv all base (lg_update {| ps_pump := ps_pump (lg_sys g); ps_reader := r; ps_writer := w; ps_world := k' |} g).
Proof.
  intros [H1 H2 H3 H4 H5] (Q1 & Q2 & Q3 & Q4) Hm.
  split; cbn [lg_update lg_sys ps_pump ps_reader ps_writer ps_world]; try done.
  - lia.
  - intros Hp. by apply Q4, H3.
  - unfold pending_bytes, delivered in *. cbn [lg_drained lg_sys ps_pump ps_world lg_update]. rewrite Q2, Q3.
    destruct (pm_has_pending_chunk (ps_pump (lg_sys g))); [|done]. destruct (Q4 _ (H3 eq_refl)) as [_ ->]. done.
  - unfold delivered in *. cbn [lg_drained lg_sys ps_world lg_update]. by rewrite Q3.
Qed.

Lemma control_spec (f : option (SlStr -> K -> SlStreamStatus * K)) message k :
  quiet_control f -> sw_inv k -> exists status k', control f message k = (status, k') /\ quiet k k'.
Proof. intros Hf Hi. specialize (Hf message k Hi). destruct (control f message k) as [status k']. by eexists _, _. Qed.

(** Every control operation keeps the reader's bound and leaves the transfer alone. *)
Lemma reader_controls_quiet r k message code :
  sw_inv k ->
  (forall status r' k', sl_readable_stream_close (Some rv) REF message r k = (status, r', k') ->
     quiet k k' /\ rd_max_chunk_bytes r' = rd_max_chunk_bytes r) /\
  (forall status r' k', sl_readable_stream_fail (Some rv) REF code message r k = (status, r', k') ->
     quiet k k' /\ rd_max_chunk_bytes r' = rd_max_chunk_bytes r) /\
  (forall status r' k', sl_readable_stream_abort (Some rv) REF message r k = (status, r', k') ->
     quiet k k' /\ rd_max_chunk_bytes r' = rd_max_chunk_bytes r).
Proof.
  intros Hi. pose proof (quiet_refl k Hi) as Hq.
  destruct (control_spec _ message k reader_close_law Hi) as (sc & kc & Ec & Hc).
  destruct (control_spec _ message k reader_fail_law Hi) as (sf & kf & Ef & Hf).
  destruct (control_spec _ message k reader_abort_law Hi) as (sa & ka & Ea & Ha).
  split_and!; intros status r' k' E; revert E;
    unfold sl_readable_stream_close, sl_readable_stream_fail, sl_readable_stream_abort;
    cbn [is_null orb mbind option_bind]; rewrite ?Ec, ?Ef, ?Ea;
    repeat (split_if; [by intros [= _ <- <-]|]); try split_if; by intros [= _ <- <-].
Qed.

Lemma writer_controls_quiet w k message code :
  sw_inv k ->
  (forall status w' k', sl_writable_stream_close (Some wv) REF message w k = (status, w', k') -> quiet k k') /\
  (forall status w' k', sl_writable_stream_fail (Some wv) REF code message w k = (status, w', k') -> quiet k k') /\
  (forall status w' k', sl_writable_stream_abort (Some wv) REF message w k = (status, w', k') -> quiet k k').
Proof.
  intros Hi. pose proof (quiet_refl k Hi) as Hq.
  destruct (control_spec _ message k writer_close_law Hi) as (sc & kc & Ec & Hc).
  destruct (control_spec _ message k writer_fail_law Hi) as (sf & kf & Ef & Hf).
  destruct (control_spec _ message k writer_abort_law Hi) as (sa & ka & Ea & Ha).
  split_and!; intros status w' k' E; revert E;
    unfold sl_writable_stream_close, sl_writable_stream_fail, sl_writable_stream_abort;
    cbn [is_null orb mbind option_bind]; rewrite ?Ec, ?Ef, ?Ea;
    repeat (split_if; [by intros [= _ <- <-]|]); try split_if; by intros [= _ <- <-].
Qed.

Lemma drain_inv all base g n status w k :
  pump_inv all base g -> 0 <= n ->
  sl_writable_stream_drain (Some wv) REF n (ps_writer (lg_sys g)) (ps_world (lg_sys g)) = (status, w, k) ->
  pump_inv all base {| lg_sys := set_writer w k (lg_sys g);
    lg_drained := lg_drained g ++ (if status_is status SL_STREAM_STATUS_OK
                                   then take (Z.to_nat n) (sw_taken (ps_world (lg_sys g))) else []) |}.
Proof.
  intros Hinv Hn. unfold sl_writable_stream_drain. cbn [is_null mbind option_bind].
  pose proof Hinv as [H1 H2 H3 H4 H5]. destruct (wv_drain wv) as [drain|] eqn:Ed.
  2:{ intros [= <- <- <-].
      replace (lg_drained g ++ _) with (lg_drained g).
      { apply (quiet_inv all base g); [done|by apply quiet_refl|done]. }
      destruct (Z.eqb_spec n 0) as [->|]; cbn; by rewrite app_nil_r. }
  pose proof (writer_drain_law drain (ps_writer (lg_sys g)) n (ps_world (lg_sys g)) Ed H1 Hn) as Hd.
  destruct (drain _ _ _) as [[st w'] k']. destruct Hd as (_ & D1 & D2 & D3 & D4). intros [= <- _ <-].
  assert (Hdel : (lg_drained g ++ (if status_is st SL_STREAM_STATUS_OK
            then take (Z.to_nat n) (sw_taken (ps_world (lg_sys g))) else [])) ++ sw_taken k' = delivered g).
  { unfold delivered. destruct (status_is st SL_STREAM_STATUS_OK).
    - destruct D4 as [_ ->]. by rewrite <- app_assoc, take_drop.
    - by rewrite D4, app_nil_r. }
  split; cbn [lg_sys set_writer ps_pump ps_reader ps_writer ps_world]; try done.
  - intros Hp. by apply D3, H3.
  - unfold delivered at 1. cbn [lg_drained lg_sys ps_world set_writer]. rewrite Hdel, D2. rewrite <- H4. f_equal.
    unfold pending_bytes. cbn [set_writer ps_pump ps_world]. f_equal.
    destruct (pm_has_pending_chunk (ps_pump (lg_sys g))); [|done]. by apply D3, H3.
  - unfold delivered at 1. cbn [lg_drained lg_sys ps_world set_writer]. by rewrite Hdel.
Qed.

Lemma pump_op_inv all base g g' : pump_inv all base g -> pump_op g g' -> pump_inv all base g'.
Proof.
  intros Hinv Hop. pose proof (pi_world _ _ _ Hinv) as Hi.
  destruct Hop as [tokens g|n g status w k Hn E|message g status r k E|code message g status r k E|message g status r k E
                  |message g status w k E|code message g status w k E|message g status w k E].
  - by apply pump_step_inv.
  - by eapply drain_inv.
  - apply (reader_controls_quiet _ _ _ SL_STREAM_STATUS_OK Hi) in E as [Hq Hm]. by apply quiet_inv.
  - apply (reader_controls_quiet _ _ _ code Hi) in E as [Hq Hm]. by apply quiet_inv.
  - apply (reader_controls_quiet _ _ _ SL_STREAM_STATUS_OK Hi) in E as [Hq Hm]. by apply quiet_inv.
  - apply (writer_controls_quiet _ _ _ SL_STREAM_STATUS_OK Hi) in E as Hq. by apply quiet_inv.
  - apply (writer_controls_quiet _ _ _ code Hi) in E as Hq. by apply quiet_inv.
  - apply (writer_controls_quiet _ _ _ SL_STREAM_STATUS_OK Hi) in E as Hq. by apply quiet_inv.
Qed.

(** C15: a pump loses, repeats and reorders nothing.  Over every interleaving of pump
    steps, drains, cancellations and control operations of both streams, including
    partial writes, back-pressure and failures, the bytes drained, the bytes in the
    sink, the chunk the pump still holds and what the reader has left are, in this
    order, exactly the bytes the reader had to deliver; the transfer counter is the
    number of bytes delivered modulo 2^64. *)
Theorem pump_conserves_bytes pump g g' cancellation :
  sl_stream_pump_init REF REF REF cancellation = Ok pump ->
  ps_pump (lg_sys g) = pump -> sw_inv (ps_world (lg_sys g)) -> 0 < rd_max_chunk_bytes (ps_reader (lg_sys g)) ->
  rtc pump_op g g' ->
  delivered g' ++ pending_bytes (lg_sys g') ++ sw_left (ps_world (lg_sys g')) =
    delivered g ++ sw_left (ps_world (lg_sys g)) /\
  pm_bytes_transferred (ps_pump (lg_sys g')) =
    wrap64 (Z.of_nat (length (delivered g')) - Z.of_nat (length (delivered g))).
Proof.
  intros Hp Hpump Hi Hm Hsteps. injection Hp as <-.
  assert (Hinv : pump_inv (delivered g ++ sw_left (ps_world (lg_sys g))) (Z.of_nat (length (delivered g))) g).
  { split; try done.
    - by rewrite Hpump.
    - unfold pending_bytes. by rewrite Hpump.
    - rewrite Hpump, Z.sub_diag. done. }
  assert (Hinv' : pump_inv (delivered g ++ sw_left (ps_world (lg_sys g))) (Z.of_nat (length (delivered g))) g').
  { clear Hpump. revert Hinv. generalize (delivered g ++ sw_left (ps_world (lg_sys g))) (Z.of_nat (length (delivered g))).
    intros all base. clear Hi Hm. induction Hsteps as [|g1 g2 g3 Hop _ IH]; [done|].
    intros Hinv. apply IH. by eapply pump_op_inv. }
  destruct Hinv' as [_ _ _ Hb Hc]. by split.
Qed.
End Conservation.
