(* ===== verification/StreamMemory.v ===== *)
(** The stream adapters over memory (src/core/stream.c): chunk lists as sources,
    a byte buffer or a chunk list as sinks, and that they keep what adapters
    promise. *)

From S2P Require Import Prelude Memory Status Arena Str Bytes Container Queue Loop Async Sink Builder Stream StreamPump.

(** The array of chunks of a reader is kept as a list, [chunk_count] is its length.
    The memory and the chunk-list readers are the same structure. *)
Record SlMemoryReadableStream := { mr_chunks : list SlBytes; mr_chunk_index : Z; mr_chunk_offset : Z }.

Record SlMemoryWritableStream := {
  mw_buffer : Z;
  mw_capacity : Z;
  mw_length : Z;
  mw_high_water_mark : Z;
}.

(** The first [count] chunks of the array are [cl_chunks]. *)
Record SlChunkListWritableStream := {
  cl_chunks : list SlBytes;
  cl_capacity : Z;
  cl_total_bytes : Z;
  cl_max_total_bytes : Z;
}.

Definition cl_count (a : SlChunkListWritableStream) : Z := Z.of_nat (length (cl_chunks a)).

(** Memory with one reader and one writer of each kind. *)
Record AdapterWorld := {
  aw_mem : mem;
  aw_reader : SlMemoryReadableStream;
  aw_memory : SlMemoryWritableStream;
  aw_list : SlChunkListWritableStream;
}.

Definition set_aw_reader (r : SlMemoryReadableStream) (k : AdapterWorld) : AdapterWorld :=
  {| aw_mem := aw_mem k; aw_reader := r; aw_memory := aw_memory k; aw_list := aw_list k |}.
Definition set_aw_memory (m : mem) (a : SlMemoryWritableStream) (k : AdapterWorld) : AdapterWorld :=
  {| aw_mem := m; aw_reader := aw_reader k; aw_memory := a; aw_list := aw_list k |}.
Definition set_aw_list (a : SlChunkListWritableStream) (k : AdapterWorld) : AdapterWorld :=
  {| aw_mem := aw_mem k; aw_reader := aw_reader k; aw_memory := aw_memory k; aw_list := a |}.

(** * Readers *)

(** The loop over the chunks from [index] on. *)
Fixpoint sl_chunk_read (rest : list SlBytes) (index offset max_chunk_bytes : Z) : SlStreamStatus * SlBytes * Z * Z :=
  match rest with
  | [] => (SL_STREAM_STATUS_EOF, no_bytes, index, offset)
  | source :: rest =>
      if negb (sl_stream_bytes_valid source) then (SL_STREAM_STATUS_INVALID_STATE, no_bytes, index, offset) else
      if bytes_length source <=? offset then sl_chunk_read rest (index + 1) 0 max_chunk_bytes else
      let remaining := bytes_length source - offset in
      let length := if max_chunk_bytes <? remaining then max_chunk_bytes else remaining in
      let chunk := sl_bytes_from_parts (bytes_ptr source + offset) length in
      let offset := offset + length in
      if bytes_length source <=? offset then (SL_STREAM_STATUS_OK, chunk, index + 1, 0)
      else (SL_STREAM_STATUS_OK, chunk, index, offset)
  end.

Definition sl_memory_readable_read (user : nullable) (stream : SlReadableStream) (k : AdapterWorld)
    : SlStreamStatus * SlBytes * SlReadableStream * AdapterWorld :=
  if is_null user then (SL_STREAM_STATUS_INVALID_ARGUMENT, no_bytes, stream, k) else
  let a := aw_reader k in
  let '(status, chunk, index, offset) :=
    sl_chunk_read (drop (Z.to_nat (mr_chunk_index a)) (mr_chunks a)) (mr_chunk_index a) (mr_chunk_offset a)
      (rd_max_chunk_bytes stream) in
  (status, chunk, stream,
   set_aw_reader {| mr_chunks := mr_chunks a; mr_chunk_index := index; mr_chunk_offset := offset |} k).

Definition sl_memory_readable_vtable (user : nullable) : SlReadableStreamVTable AdapterWorld :=
  {| rv_read := Some (sl_memory_readable_read user); rv_close := Some sl_stream_control_noop;
     rv_fail := Some sl_stream_control_noop; rv_abort := Some sl_stream_control_noop |}.

(** [chunks] is [None] for NULL; the adapter is written before the stream is
    initialised, which cannot fail then. *)
Definition sl_memory_readable_stream_init (adapter : nullable) (chunks : option (list SlBytes)) (chunk_count : Z)
    (options : option SlStreamOptions) (out_stream : nullable) : ST AdapterWorld SlReadableStream :=
  return_if is_null adapter || is_null out_stream
            || (negb (bool_decide (is_Some chunks)) && negb (chunk_count =? 0))
    with SL_STATUS_INVALID_ARGUMENT ;;
  modify (set_aw_reader {| mr_chunks := take (Z.to_nat chunk_count) (default [] chunks); mr_chunk_index := 0;
                           mr_chunk_offset := 0 |}) ;;
  lift (sl_readable_stream_init out_stream (Some (sl_memory_readable_vtable adapter)) options).

(** The chunk-list reader is the memory reader under another name. *)
Definition sl_chunk_list_readable_read : nullable -> SlReadableStream -> AdapterWorld -> SlStreamStatus * SlBytes * SlReadableStream * AdapterWorld :=
  sl_memory_readable_read.

Definition sl_chunk_list_readable_vtable (user : nullable) : SlReadableStreamVTable AdapterWorld :=
  {| rv_read := Some (sl_chunk_list_readable_read user); rv_close := Some sl_stream_control_noop;
     rv_fail := Some sl_stream_control_noop; rv_abort := Some sl_stream_control_noop |}.

Definition sl_chunk_list_readable_stream_init (adapter : nullable) (chunks : option (list SlBytes)) (chunk_count : Z)
    (options : option SlStreamOptions) (out_stream : nullable) : ST AdapterWorld SlReadableStream :=
  return_if is_null adapter || is_null out_stream
            || (negb (bool_decide (is_Some chunks)) && negb (chunk_count =? 0))
    with SL_STATUS_INVALID_ARGUMENT ;;
  modify (set_aw_reader {| mr_chunks := take (Z.to_nat chunk_count) (default [] chunks); mr_chunk_index := 0;
                           mr_chunk_offset := 0 |}) ;;
  lift (sl_readable_stream_init out_stream (Some (sl_chunk_list_readable_vtable adapter)) options).

(** * The memory writer *)

Definition no_arena : SlArena :=
  {| ar_base := 0; ar_capacity := 0; ar_offset := 0; ar_high_water := 0; ar_generation := 0 |}.
Definition builder_start (scratch : Z) (m : mem) : BuilderSys :=
  {| bs_world := {| w_mem := m; w_arena := no_arena |}; bs_builder := local_builder scratch |}.

Definition effective_capacity (stream : SlWritableStream) (a : SlMemoryWritableStream) : Z :=
  if mw_capacity a <? wr_max_buffered_bytes stream then mw_capacity a else wr_max_buffered_bytes stream.

Definition sl_memory_writable_backpressure (user : nullable) (stream : SlWritableStream) (k : AdapterWorld)
    : SlStreamBackpressureState :=
  if is_null user then no_backpressure else
  let a := aw_memory k in
  let available := if mw_length a <? effective_capacity stream a
                   then effective_capacity stream a - mw_length a else 0 in
  {| bp_writable := negb (available =? 0) && state_is (wr_state stream) SL_STREAM_STATE_OPEN;
     bp_buffered_bytes := mw_length a; bp_available_bytes := available;
     bp_high_water_mark := mw_high_water_mark a; bp_backpressure_hits := 0 |}.

Section MemoryWriter.
Context {BC : BuildConfig} (scratch : Z).

Definition sl_memory_writable_write (user : nullable) (stream : SlWritableStream) (chunk : SlBytes) (k : AdapterWorld)
    : SlStreamStatus * Z * SlWritableStream * AdapterWorld :=
  if is_null user then (SL_STREAM_STATUS_INVALID_ARGUMENT, 0, stream, k) else
  if bytes_length chunk =? 0 then (SL_STREAM_STATUS_OK, 0, stream, k) else
  let a := aw_memory k in
  let capacity := effective_capacity stream a in
  if capacity <? mw_length a then (SL_STREAM_STATUS_CAPACITY_EXCEEDED, 0, stream, k) else
  let available := capacity - mw_length a in
  if available =? 0 then (SL_STREAM_STATUS_BACKPRESSURE, 0, stream, k) else
  let write_length := if available <? bytes_length chunk then available else bytes_length chunk in
  let memory s := set_aw_memory (bs_mem s) a k in
  match sl_byte_builder_init_fixed REF (mw_buffer a) capacity (builder_start scratch (aw_mem k)) with
  | (Err _, s) => (SL_STREAM_STATUS_INVALID_STATE, 0, stream, memory s)
  | (Ok _, s) =>
      match sl_byte_builder_append_bytes REF (sl_bytes_from_parts (mw_buffer a) (mw_length a)) s with
      | (Err _, s) => (SL_STREAM_STATUS_INVALID_STATE, 0, stream, memory s)
      | (Ok _, s) =>
          match sl_byte_builder_append_bytes REF (sl_bytes_from_parts (bytes_ptr chunk) write_length) s with
          | (Err _, s) => (SL_STREAM_STATUS_CAPACITY_EXCEEDED, 0, stream, memory s)
          | (Ok _, s) =>
              let length := sl_byte_builder_length REF (bs_builder s) in
              let high := if mw_high_water_mark a <? length then length else mw_high_water_mark a in
              let a := {| mw_buffer := mw_buffer a; mw_capacity := mw_capacity a; mw_length := length;
                          mw_high_water_mark := high |} in
              let stats := wr_stats stream in
              let stream := wr_set_stats
                (stats_set_buffered length
                   (if ss_high_water_mark stats <? high then high else ss_high_water_mark stats) stats) stream in
              (if write_length =? bytes_length chunk then SL_STREAM_STATUS_OK else SL_STREAM_STATUS_BACKPRESSURE,
               write_length, stream, set_aw_memory (bs_mem s) a k)
          end
      end
  end.

Definition sl_memory_writable_drain (user : nullable) (stream : SlWritableStream) (bytes : Z) (k : AdapterWorld)
    : SlStreamStatus * SlWritableStream * AdapterWorld :=
  if is_null user then (SL_STREAM_STATUS_INVALID_ARGUMENT, stream, k) else
  let a := aw_memory k in
  if mw_length a <? bytes then (SL_STREAM_STATUS_INVALID_ARGUMENT, stream, k) else
  let finish m a :=
    (SL_STREAM_STATUS_OK,
     wr_set_stats (stats_set_buffered (mw_length a) (ss_high_water_mark (wr_stats stream)) (wr_stats stream)) stream,
     set_aw_memory m a k) in
  if negb (bytes =? 0) && negb (mw_length a =? 0) then
    match sl_byte_builder_init_fixed REF (mw_buffer a) (mw_capacity a) (builder_start scratch (aw_mem k)) with
    | (Err _, s) => (SL_STREAM_STATUS_INVALID_STATE, stream, set_aw_memory (bs_mem s) a k)
    | (Ok _, s) =>
        match sl_byte_builder_append_bytes REF
                (sl_bytes_from_parts (mw_buffer a + bytes) (mw_length a - bytes)) s with
        | (Err _, s) => (SL_STREAM_STATUS_INVALID_STATE, stream, set_aw_memory (bs_mem s) a k)
        | (Ok _, s) =>
            finish (bs_mem s) {| mw_buffer := mw_buffer a; mw_capacity := mw_capacity a;
                                 mw_length := sl_byte_builder_length REF (bs_builder s);
                                 mw_high_water_mark := mw_high_water_mark a |}
        end
    end
  else finish (aw_mem k) a.

Definition sl_memory_writable_vtable (user : nullable) : SlWritableStreamVTable AdapterWorld :=
  {| wv_write := Some (sl_memory_writable_write user); wv_drain := Some (sl_memory_writable_drain user);
     wv_backpressure := Some (sl_memory_writable_backpressure user); wv_close := Some sl_stream_control_noop;
     wv_fail := Some sl_stream_control_noop; wv_abort := Some sl_stream_control_noop |}.

Definition sl_memory_writable_stream_init (adapter : nullable) (buffer capacity : Z)
    (options : option SlStreamOptions) (out_stream : nullable) : ST AdapterWorld SlWritableStream :=
  return_if is_null adapter || is_null out_stream || ((buffer =? 0) && negb (capacity =? 0))
    with SL_STATUS_INVALID_ARGUMENT ;;
  modify (fun k => set_aw_memory (aw_mem k) {| mw_buffer := buffer; mw_capacity := capacity; mw_length := 0;
                                              mw_high_water_mark := 0 |} k) ;;
  on_error (lift (sl_writable_stream_init out_stream (Some (sl_memory_writable_vtable adapter)) options))
    (fun c => modify (fun k => set_aw_memory (aw_mem k) {| mw_buffer := 0; mw_capacity := 0; mw_length := 0;
                                                          mw_high_water_mark := 0 |} k) ;;
              fail c).

Definition sl_memory_writable_stream_view (adapter : nullable) (a : SlMemoryWritableStream) : SlBytes :=
  if is_null adapter || (mw_length a =? 0) then sl_bytes_empty
  else sl_bytes_from_parts (mw_buffer a) (mw_length a).

Definition sl_memory_writable_stream_reset (adapter : nullable) (a : SlMemoryWritableStream) : SlMemoryWritableStream :=
  if is_null adapter then a else
  {| mw_buffer := mw_buffer a; mw_capacity := mw_capacity a; mw_length := 0;
     mw_high_water_mark := mw_high_water_mark a |}.
End MemoryWriter.

(** * The chunk-list writer *)

Definition sl_chunk_list_writable_backpressure (user : nullable) (stream : SlWritableStream) (k : AdapterWorld)
    : SlStreamBackpressureState :=
  if is_null user then no_backpressure else
  let a := aw_list k in
  let available := if cl_total_bytes a <? cl_max_total_bytes a then cl_max_total_bytes a - cl_total_bytes a else 0 in
  {| bp_writable := (cl_count a <? cl_capacity a) && negb (available =? 0)
                    && state_is (wr_state stream) SL_STREAM_STATE_OPEN;
     bp_buffered_bytes := cl_total_bytes a; bp_available_bytes := available;
     bp_high_water_mark := cl_total_bytes a; bp_backpressure_hits := 0 |}.

Definition sl_chunk_list_writable_write (user : nullable) (stream : SlWritableStream) (chunk : SlBytes)
    (k : AdapterWorld) : SlStreamStatus * Z * SlWritableStream * AdapterWorld :=
  if is_null user then (SL_STREAM_STATUS_INVALID_ARGUMENT, 0, stream, k) else
  if bytes_length chunk =? 0 then (SL_STREAM_STATUS_OK, 0, stream, k) else
  let a := aw_list k in
  if cl_capacity a <=? cl_count a then (SL_STREAM_STATUS_BACKPRESSURE, 0, stream, k) else
  if cl_max_total_bytes a <? cl_total_bytes a then (SL_STREAM_STATUS_CAPACITY_EXCEEDED, 0, stream, k) else
  let available := cl_max_total_bytes a - cl_total_bytes a in
  if available =? 0 then (SL_STREAM_STATUS_BACKPRESSURE, 0, stream, k) else
  let write_length := if available <? bytes_length chunk then available else bytes_length chunk in
  let total := cl_total_bytes a + write_length in
  let a := {| cl_chunks := cl_chunks a ++ [sl_bytes_from_parts (bytes_ptr chunk) write_length];
              cl_capacity := cl_capacity a; cl_total_bytes := total; cl_max_total_bytes := cl_max_total_bytes a |} in
  let stats := wr_stats stream in
  let stream := wr_set_stats
    (stats_set_buffered total (if ss_high_water_mark stats <? total then total else ss_high_water_mark stats) stats)
    stream in
  (if write_length =? bytes_length chunk then SL_STREAM_STATUS_OK else SL_STREAM_STATUS_BACKPRESSURE,
   write_length, stream, set_aw_list a k).

Definition sl_chunk_list_writable_vtable (user : nullable) : SlWritableStreamVTable AdapterWorld :=
  {| wv_write := Some (sl_chunk_list_writable_write user); wv_drain := None;
     wv_backpressure := Some (sl_chunk_list_writable_backpressure user); wv_close := Some sl_stream_control_noop;
     wv_fail := Some sl_stream_control_noop; wv_abort := Some sl_stream_control_noop |}.

Definition sl_chunk_list_writable_stream_init (adapter : nullable) (chunks capacity : Z)
    (options : option SlStreamOptions) (out_stream : nullable) : ST AdapterWorld SlWritableStream :=
  return_if is_null adapter || is_null out_stream || ((chunks =? 0) && negb (capacity =? 0))
    with SL_STATUS_INVALID_ARGUMENT ;;
  let normalized := sl_stream_normalize_options options in
  return_if so_max_chunks normalized <? capacity with SL_STATUS_CAPACITY_EXCEEDED ;;
  modify (set_aw_list {| cl_chunks := []; cl_capacity := capacity; cl_total_bytes := 0;
                         cl_max_total_bytes := so_max_buffered_bytes normalized |}) ;;
  on_error (lift (sl_writable_stream_init out_stream (Some (sl_chunk_list_writable_vtable adapter)) (Some normalized)))
    (fun c => modify (set_aw_list {| cl_chunks := []; cl_capacity := 0; cl_total_bytes := 0;
                                     cl_max_total_bytes := 0 |}) ;;
              fail c).

Definition sl_chunk_list_writable_stream_as_readable (writable adapter : nullable) (options : option SlStreamOptions)
    (out_stream : nullable) : ST AdapterWorld SlReadableStream :=
  return_if is_null writable with SL_STATUS_INVALID_ARGUMENT ;;
  a ← gets aw_list ;
  sl_chunk_list_readable_stream_init adapter (Some (cl_chunks a)) (cl_count a) options out_stream.

(** * The laws of the memory adapters *)

Section Laws.
Context {BC : BuildConfig} (scratch : Z).

Definition SCRATCH_BYTES : Z := SL_BYTE_BUILDER_SMALL_CAPACITY.

(** A view the memory writer does not touch. *)
Definition apart (k : AdapterWorld) (b : SlBytes) : Prop :=
  bytes_valid b /\ bytes_wf b /\
  disjoint_ranges (bytes_ptr b) (bytes_length b) (mw_buffer (aw_memory k)) (mw_capacity (aw_memory k)) /\
  disjoint_ranges (bytes_ptr b) (bytes_length b) scratch SCRATCH_BYTES.

(** The bytes from [offset] of the first chunk on. *)
Definition chunk_bytes (m : mem) (rest : list SlBytes) (offset : Z) : list Z :=
  match rest with
  | [] => []
  | c :: rest => drop (Z.to_nat offset) (bytes_val m c) ++ mjoin (map (bytes_val m) rest)
  end.

Definition reader_left (k : AdapterWorld) : list Z :=
  chunk_bytes (aw_mem k) (drop (Z.to_nat (mr_chunk_index (aw_reader k))) (mr_chunks (aw_reader k)))
    (mr_chunk_offset (aw_reader k)).

Record memory_inv (k : AdapterWorld) : Prop := {
  mi_index : 0 <= mr_chunk_index (aw_reader k);
  mi_offset : 0 <= mr_chunk_offset (aw_reader k);
  mi_chunks : Forall (apart k) (mr_chunks (aw_reader k));
  mi_length : 0 <= mw_length (aw_memory k) <= mw_capacity (aw_memory k);
  mi_capacity : mw_capacity (aw_memory k) <= SIZE_MAX;
  mi_buffer : 0 <= mw_buffer (aw_memory k) /\ (0 < mw_capacity (aw_memory k) -> 0 < mw_buffer (aw_memory k)) /\
              mw_buffer (aw_memory k) + mw_capacity (aw_memory k) <= UINTPTR_MAX;
  mi_scratch : disjoint_ranges scratch SCRATCH_BYTES (mw_buffer (aw_memory k)) (mw_capacity (aw_memory k));
}.

Definition memory_taken (k : AdapterWorld) : list Z :=
  load_bytes (aw_mem k) (mw_buffer (aw_memory k)) (mw_length (aw_memory k)).

#[export] Instance memory_world : StreamWorld AdapterWorld := {
  sw_mem := aw_mem;
  sw_inv := memory_inv;
  sw_left := reader_left;
  sw_taken := memory_taken;
  sw_readable := apart;
}.

Lemma noop_quiet : quiet_control (Some (@sl_stream_control_noop AdapterWorld)).
Proof. intros message k Hi. cbn. unfold quiet. by split_and!. Qed.

Lemma apart_slice k b p n :
  apart k b -> bytes_ptr b <= p -> 0 <= n -> p + n <= bytes_ptr b + bytes_length b ->
  apart k (sl_bytes_from_parts p n).
Proof.
  intros ([Hl Hv] & (_ & Hp & He) & D1 & D2) Hlo Hn Hhi. unfold apart, bytes_valid, bytes_wf, disjoint_ranges in *.
  cbn [bytes_ptr bytes_length sl_bytes_from_parts]. split_and!; lia.
Qed.

Lemma mjoin_cons (x : list Z) xs : mjoin (x :: xs) = x ++ mjoin xs.
Proof. done. Qed.

(** Reading a chunk takes the next bytes. *)
Lemma sl_chunk_read_spec m k max rest : forall index offset,
  Forall (apart k) rest -> 0 <= index -> 0 <= offset -> 0 < max ->
  let '(status, chunk, index', offset') := sl_chunk_read rest index offset max in
  0 <= index' /\ 0 <= offset' /\ index <= index' /\
  match status with
  | SL_STREAM_STATUS_OK =>
      apart k chunk /\ 0 < bytes_length chunk <= max /\
      chunk_bytes m rest offset =
        bytes_val m chunk ++ chunk_bytes m (drop (Z.to_nat (index' - index)) rest) offset'
  | SL_STREAM_STATUS_EOF => chunk_bytes m rest offset = [] /\ drop (Z.to_nat (index' - index)) rest = []
  | _ => False
  end.
Proof.
  induction rest as [|c rest IH]; intros index offset Hf Hi Ho Hm; cbn [sl_chunk_read].
  { rewrite drop_nil. split_and!; done || lia. }
  apply Forall_cons in Hf as [Hc Hf]. pose proof Hc as ([Hl Hv] & (_ & Hp & He) & _).
  replace (sl_stream_bytes_valid c) with true by (unfold sl_stream_bytes_valid; lia). cbn [negb].
  destruct (Z.leb_spec (bytes_length c) offset) as [Hskip|Htake].
  { specialize (IH (index + 1) 0 Hf ltac:(lia) ltac:(lia) Hm).
    destruct (sl_chunk_read rest (index + 1) 0 max) as [[[status chunk] index'] offset'].
    destruct IH as (I1 & I2 & I3 & I4). split_and!; [lia..|].
    assert (Hskipped : chunk_bytes m (c :: rest) offset = chunk_bytes m rest 0).
    { cbn [chunk_bytes]. rewrite drop_ge by (unfold bytes_val, load_bytes; rewrite length_load; lia). cbn [app].
      destruct rest; [done|]. cbn [map chunk_bytes]. by rewrite mjoin_cons. }
    rewrite Hskipped. replace (Z.to_nat (index' - index)) with (S (Z.to_nat (index' - (index + 1)))) by lia.
    cbn [drop]. exact I4. }
  set (remaining := bytes_length c - offset).
  set (len := if max <? remaining then max else remaining).
  assert (Hlen : 0 < len <= max /\ len <= remaining) by (subst len remaining; destruct (Z.ltb_spec max (bytes_length c - offset)); lia).
  set (chunk := sl_bytes_from_parts (bytes_ptr c + offset) len).
  assert (Hap : apart k chunk) by (apply (apart_slice k c); [done|lia|lia|subst remaining; lia]).
  assert (Hsplit : drop (Z.to_nat offset) (bytes_val m c) =
                   bytes_val m chunk ++ drop (Z.to_nat (offset + len)) (bytes_val m c)).
  { unfold bytes_val. rewrite !load_bytes_drop by (subst remaining; lia). cbn [chunk bytes_ptr bytes_length sl_bytes_from_parts].
    rewrite Z.add_assoc, <- load_bytes_app by (subst remaining; lia). f_equal. lia. }
  destruct (Z.leb_spec (bytes_length c) (offset + len)) as [Hend|Hmore].
  - split_and!; [lia|lia|lia|done|cbn; lia|cbn; lia|]. replace (Z.to_nat (index + 1 - index)) with 1%nat by lia.
    cbn [drop]. cbn [chunk_bytes]. rewrite Hsplit, <- app_assoc. f_equal.
    rewrite drop_ge by (unfold bytes_val, load_bytes; rewrite length_load; lia). cbn [app].
    destruct rest; [done|]. cbn [map chunk_bytes drop]. by rewrite mjoin_cons.
  - split_and!; [lia|lia|lia|done|cbn; lia|cbn; lia|]. rewrite Z.sub_diag. cbn [Z.to_nat drop chunk_bytes].
    by rewrite Hsplit, <- app_assoc.
Qed.

(** The reader only moves its own position. *)
Lemma memory_read_spec user r k :
  memory_inv k -> 0 < rd_max_chunk_bytes r ->
  let '(status, chunk, r', k') := sl_memory_readable_read user r k in
  r' = r /\ k' = set_aw_reader (aw_reader k') k /\ memory_inv k' /\
  match status with
  | SL_STREAM_STATUS_OK =>
      apart k' chunk /\ 0 < bytes_length chunk <= rd_max_chunk_bytes r /\
      reader_left k = bytes_val (aw_mem k) chunk ++ reader_left k'
  | SL_STREAM_STATUS_EOF => reader_left k = [] /\ reader_left k' = [] /\ user = REF
  | SL_STREAM_STATUS_INVALID_ARGUMENT => k' = k /\ user = NULL
  | _ => False
  end.
Proof.
  intros [H1 H2 H3 H4 H5 H6 H7] Hm. unfold sl_memory_readable_read.
  destruct user; cbn [is_null]; [by destruct k|].
  set (rest := drop (Z.to_nat (mr_chunk_index (aw_reader k))) (mr_chunks (aw_reader k))).
  pose proof (sl_chunk_read_spec (aw_mem k) k (rd_max_chunk_bytes r) rest (mr_chunk_index (aw_reader k))
    (mr_chunk_offset (aw_reader k)) (Forall_drop _ _ _ H3) H1 H2 Hm) as Hr.
  destruct (sl_chunk_read rest _ _ _) as [[[status chunk] index'] offset']. destruct Hr as (R1 & R2 & R3 & R4).
  split_and!; [done|done|by split|].
  assert (Edrop : drop (Z.to_nat (index' - mr_chunk_index (aw_reader k))) rest =
                  drop (Z.to_nat index') (mr_chunks (aw_reader k))).
  { subst rest. rewrite drop_drop. f_equal. lia. }
  rewrite Edrop in R4. destruct status; try done.
  destruct R4 as [R4 E]. split_and!; [done| |done]. unfold reader_left. cbn. by rewrite E.
Qed.

#[export] Instance memory_reader_laws user : ReaderLaws AdapterWorld (sl_memory_readable_vtable user).
Proof.
  split; [|exact noop_quiet..]. intros read r k [= <-] Hi Hm.
  pose proof (memory_read_spec user r k Hi Hm) as H.
  destruct (sl_memory_readable_read user r k) as [[[status chunk] r'] k']. destruct H as (-> & Ek & Hi' & H).
  assert (Ht : memory_taken k' = memory_taken k) by (rewrite Ek; done).
  assert (Em : aw_mem k' = aw_mem k) by (rewrite Ek; done).
  split_and!; [by split_and!|done|done| |].
  - intros ->. destruct H as (Ha & Hl & E). split_and!; [|lia|lia|done|].
    + destruct Ha as ([? ?] & _). unfold sl_stream_bytes_valid. lia.
    + cbn [sw_left sw_mem memory_world]. by rewrite Em.
  - intros Hne. destruct status; try done.
    + destruct H as (E1 & E2 & _). cbn [sw_left memory_world]. congruence.
    + by destruct H as [-> _].
Qed.

(** A fixed builder over the sink's buffer. *)
Lemma fixed_builder m buffer capacity :
  0 < buffer -> 0 <= capacity <= SIZE_MAX -> buffer + capacity <= UINTPTR_MAX ->
  exists s, sl_byte_builder_init_fixed REF buffer capacity (builder_start scratch m) = (Ok tt, s) /\
    builder_wf s /\ sl_byte_builder_data (bs_builder s) = buffer /\ bb_capacity (bs_builder s) = capacity /\
    bb_length (bs_builder s) = 0 /\ bb_storage (bs_builder s) = SL_BUILDER_STORAGE_FIXED /\
    same_outside scratch (scratch + SCRATCH_BYTES) m (bs_mem s).
Proof.
  intros Hb Hc He. unfold sl_byte_builder_init_fixed, publish_builder. unfold_st.
  destruct (Z.eqb_spec buffer 0); [lia|]. cbn [is_null orb andb]. eexists. split; [done|].
  split; [split; try done; [cbn; lia|change (sl_byte_builder_data _) with buffer; cbn; lia]|]. split_and!; try done.
  unfold SCRATCH_BYTES. rewrite <- (Z2Nat.id SL_BYTE_BUILDER_SMALL_CAPACITY) by done. apply fill_same_outside.
Qed.

(** Appending to a fixed builder. *)
Lemma fixed_append bytes s :
  builder_wf s -> bb_storage (bs_builder s) = SL_BUILDER_STORAGE_FIXED -> bytes_valid bytes -> bytes_wf bytes ->
  bb_length (bs_builder s) + bytes_length bytes <= bb_capacity (bs_builder s) ->
  exists s', sl_byte_builder_append_bytes REF bytes s = (Ok tt, s') /\
    builder_wf s' /\ bb_storage (bs_builder s') = SL_BUILDER_STORAGE_FIXED /\
    sl_byte_builder_data (bs_builder s') = sl_byte_builder_data (bs_builder s) /\
    bb_capacity (bs_builder s') = bb_capacity (bs_builder s) /\
    bb_length (bs_builder s') = bb_length (bs_builder s) + bytes_length bytes /\
    contents s' = contents s ++ bytes_val (bs_mem s) bytes /\
    forall q n, disjoint_ranges q n (sl_byte_builder_data (bs_builder s)) (bb_capacity (bs_builder s)) ->
      load_bytes (bs_mem s') q n = load_bytes (bs_mem s) q n.
Proof.
  intros Hwf Hst Hv Hb Hfit.
  assert (Hset : forall q n, settled s q n) by (intros q n; unfold settled; rewrite Hst; done).
  destruct (append_bytes_fits bytes s Hwf Hv Hb (Hset _ _) Hfit) as (s' & E & [A1 A2 A3 [A4 _]] & D & C & L).
  exists s'. split_and!; [done|done|congruence|done|done|done|done|].
  intros q n Hd. apply A3. split; [apply Hset|done].
Qed.

(** Between two worlds only the sink's bytes and length change. *)
Record sink_moves (k k' : AdapterWorld) : Prop := {
  sm_reader : aw_reader k' = aw_reader k;
  sm_list : aw_list k' = aw_list k;
  sm_buffer : mw_buffer (aw_memory k') = mw_buffer (aw_memory k);
  sm_capacity : mw_capacity (aw_memory k') = mw_capacity (aw_memory k);
  sm_length : 0 <= mw_length (aw_memory k') <= mw_capacity (aw_memory k);
  sm_apart : forall b, apart k b -> bytes_val (aw_mem k') b = bytes_val (aw_mem k) b;
}.

Lemma sink_moves_refl k : memory_inv k -> sink_moves k k.
Proof. intros []. by split. Qed.

Lemma sink_moves_apart k k' b : sink_moves k k' -> apart k b -> apart k' b.
Proof. intros [] . unfold apart. congruence. Qed.

Lemma sink_moves_inv k k' : sink_moves k k' -> memory_inv k -> memory_inv k'.
Proof.
  intros Hs [H1 H2 H3 H4 H5 H6 H7]. pose proof Hs as [S1 S2 S3 S4 S5 S6].
  split; rewrite ?S1, ?S3, ?S4; try done. eapply Forall_impl; [exact H3|]. intros b. by apply sink_moves_apart.
Qed.

Lemma chunk_bytes_ext m m' rest offset :
  Forall (fun b => bytes_val m' b = bytes_val m b) rest -> chunk_bytes m' rest offset = chunk_bytes m rest offset.
Proof.
  intros Hf. destruct Hf as [|b rest Hb Hf]; [done|]. cbn [chunk_bytes]. rewrite Hb. f_equal. f_equal.
  induction Hf as [|c rest Hc Hf IH]; [done|]. cbn [map]. by rewrite Hc, IH.
Qed.

Lemma sink_moves_left k k' : sink_moves k k' -> memory_inv k -> reader_left k' = reader_left k.
Proof.
  intros [S1 _ _ _ _ S6] Hi. unfold reader_left. rewrite S1. apply chunk_bytes_ext, Forall_drop.
  eapply Forall_impl; [apply Hi|]. exact S6.
Qed.

Lemma contents_nil s : bb_length (bs_builder s) = 0 -> contents s = [].
Proof. unfold contents. by intros ->. Qed.

Lemma memory_write_spec user w chunk k :
  memory_inv k -> apart k chunk ->
  let '(status, n, w', k') := sl_memory_writable_write scratch user w chunk k in
  let room := effective_capacity w (aw_memory k) - mw_length (aw_memory k) in
  same_writer w w' /\ sink_moves k k' /\ 0 <= n <= bytes_length chunk /\
  memory_taken k' = memory_taken k ++ take (Z.to_nat n) (bytes_val (aw_mem k) chunk) /\
  mw_length (aw_memory k') = mw_length (aw_memory k) + n /\
  (status = SL_STREAM_STATUS_OK -> n = bytes_length chunk) /\
  (status <> SL_STREAM_STATUS_OK -> status <> SL_STREAM_STATUS_BACKPRESSURE -> n = 0) /\
  (user = REF -> 0 <= room ->
   n = Z.min (bytes_length chunk) room /\
   status = if n =? bytes_length chunk then SL_STREAM_STATUS_OK else SL_STREAM_STATUS_BACKPRESSURE).
Proof.
  intros Hi Hap. pose proof Hi as [H1 H2 H3 H4 H5 H6 H7]. pose proof Hap as ([Hl Hv] & (_ & Hp & He) & D1 & D2).
  pose proof (sink_moves_refl k Hi) as Hrefl.
  assert (Hsame : same_writer w w) by (by split_and!).
  unfold sl_memory_writable_write. destruct user; cbn [is_null].
  { cbn. rewrite app_nil_r. split_and!; done || lia. }
  destruct (Z.eqb_spec (bytes_length chunk) 0) as [E0|E0].
  { cbn [Z.to_nat take]. rewrite app_nil_r, E0. split_and!; try done; try lia.
    intros _ Hroom. split; [lia|]. by rewrite Z.eqb_refl. }
  set (a := aw_memory k) in *. set (cap := effective_capacity w a).
  assert (Hcap : cap <= mw_capacity a) by (subst cap; unfold effective_capacity; destruct (Z.ltb_spec (mw_capacity a) (wr_max_buffered_bytes w)); lia).
  destruct (Z.ltb_spec cap (mw_length a)) as [Hfull|Hroom0].
  { cbn [Z.to_nat take]. rewrite app_nil_r. split_and!; try done; fold a; lia. }
  destruct (Z.eqb_spec (cap - mw_length a) 0) as [Ez|Ez].
  { cbn [Z.to_nat take]. rewrite app_nil_r. split_and!; try done; fold a; try lia. intros _ _. split; [lia|].
    destruct (Z.eqb_spec 0 (bytes_length chunk)); [lia|done]. }
  set (n := if cap - mw_length a <? bytes_length chunk then cap - mw_length a else bytes_length chunk).
  assert (Hn : n = Z.min (bytes_length chunk) (cap - mw_length a))
    by (subst n; destruct (Z.ltb_spec (cap - mw_length a) (bytes_length chunk)); lia).
  destruct (fixed_builder (aw_mem k) (mw_buffer a) cap) as (s1 & E1 & W1 & DA1 & C1 & L1 & S1 & M1);
    [lia|size_lia|lia|]. rewrite E1.
  destruct (fixed_append (sl_bytes_from_parts (mw_buffer a) (mw_length a)) s1 W1 S1)
    as (s2 & E2 & W2 & S2 & DA2 & C2 & L2 & T2 & M2); [split; cbn; lia|split_and!; cbn; lia|rewrite L1, C1; cbn; lia|].
  rewrite E2. cbn [bytes_length bytes_ptr sl_bytes_from_parts] in L2, T2.
  destruct (fixed_append (sl_bytes_from_parts (bytes_ptr chunk) n) s2 W2 S2)
    as (s3 & E3 & W3 & S3 & DA3 & C3 & L3 & T3 & M3);
    [split; cbn; lia|split_and!; cbn; lia|rewrite L2, L1, C2, C1; cbn; lia|].
  rewrite E3. cbn [bytes_length bytes_ptr sl_bytes_from_parts] in L3, T3. rewrite L2, L1 in L3. cbn [sl_byte_builder_length is_null].
  rewrite DA2, DA1 in DA3. rewrite DA1, C1 in M2. rewrite DA2, C2, DA1, C1 in M3.
  assert (Hload1 : forall q len, disjoint_ranges q len scratch SCRATCH_BYTES ->
            load_bytes (bs_mem s1) q len = load_bytes (aw_mem k) q len).
  { intros q len Hd. eapply load_bytes_same; [exact M1|]. unfold disjoint_ranges in *. lia. }
  assert (Happ : forall b, apart k b -> bytes_val (bs_mem s3) b = bytes_val (aw_mem k) b).
  { intros b (_ & _ & Hd1 & Hd2). fold a in Hd1. unfold bytes_val.
    assert (disjoint_ranges (bytes_ptr b) (bytes_length b) (mw_buffer a) cap) by (unfold disjoint_ranges in *; lia).
    rewrite M3, M2, Hload1; done. }
  assert (Htaken : load_bytes (bs_mem s3) (mw_buffer a) (bb_length (bs_builder s3)) =
                   memory_taken k ++ take (Z.to_nat n) (bytes_val (aw_mem k) chunk)).
  { rewrite <- DA3. fold (contents s3). rewrite T3, T2, (contents_nil s1 L1). cbn [app]. f_equal.
    - unfold memory_taken, bytes_val. fold a. cbn [bytes_ptr bytes_length sl_bytes_from_parts]. apply Hload1. unfold disjoint_ranges in *. lia.
    - unfold bytes_val. cbn [bytes_ptr bytes_length sl_bytes_from_parts]. rewrite load_bytes_take by lia.
      rewrite M2; [apply Hload1|]; unfold disjoint_ranges in *; lia. }
  clearbody n. split; [by split_and!|]. split; [|split; [lia|split; [exact Htaken|]]].
  { split; try done. cbn [aw_memory set_aw_memory mw_length]. fold a. lia. }
  cbn [aw_memory set_aw_memory mw_length]. fold a. split; [lia|].
  destruct (Z.eqb_spec n (bytes_length chunk)); split; [by intros|split; [by intros|split; [lia|done]]|by intros [=]|].
  split; [by intros|split; [lia|done]].
Qed.

Lemma memory_drain_spec user w n k :
  memory_inv k -> 0 <= n ->
  let '(status, w', k') := sl_memory_writable_drain scratch user w n k in
  same_writer w w' /\ sink_moves k k' /\
  (if status_is status SL_STREAM_STATUS_OK
   then n <= Z.of_nat (length (memory_taken k)) /\ memory_taken k' = drop (Z.to_nat n) (memory_taken k)
   else memory_taken k' = memory_taken k) /\
  (user = REF -> n <= mw_length (aw_memory k) -> status = SL_STREAM_STATUS_OK).
Proof.
  intros Hi Hn. pose proof Hi as [H1 H2 H3 H4 H5 H6 H7]. pose proof (sink_moves_refl k Hi) as Hrefl.
  assert (Hsame : same_writer w w) by (by split_and!).
  unfold sl_memory_writable_drain. destruct user; cbn [is_null]; [by split_and!|].
  set (a := aw_memory k) in *.
  assert (Hlen : Z.of_nat (length (memory_taken k)) = mw_length a)
    by (unfold memory_taken, load_bytes; rewrite length_load; fold a; lia).
  destruct (Z.ltb_spec (mw_length a) n) as [Hbig|Hfit].
  { split; [done|split; [done|split; [done|fold a; lia]]]. }
  destruct (negb (n =? 0) && negb (mw_length a =? 0)) eqn:Ez.
  2:{ assert (n = 0) as -> by lia. split; [by split_and!|]. split; [|split; [|done]].
      - split; try done.
      - cbn [status_is]. split; [lia|done]. }
  destruct (fixed_builder (aw_mem k) (mw_buffer a) (mw_capacity a)) as (s1 & E1 & W1 & DA1 & C1 & L1 & S1 & M1);
    [lia|lia|lia|]. rewrite E1.
  destruct (fixed_append (sl_bytes_from_parts (mw_buffer a + n) (mw_length a - n)) s1 W1 S1)
    as (s2 & E2 & W2 & S2 & DA2 & C2 & L2 & T2 & M2); [split; cbn; lia|split_and!; cbn; lia|rewrite L1, C1; cbn; lia|].
  rewrite E2. cbn [bytes_length bytes_ptr sl_bytes_from_parts] in L2, T2. rewrite L1 in L2. rewrite DA1, C1 in M2.
  rewrite DA1 in DA2. cbn [sl_byte_builder_length is_null].
  assert (Hload1 : forall q len, disjoint_ranges q len scratch SCRATCH_BYTES ->
            load_bytes (bs_mem s1) q len = load_bytes (aw_mem k) q len).
  { intros q len Hd. eapply load_bytes_same; [exact M1|]. unfold disjoint_ranges in *. lia. }
  split; [by split_and!|]. split; [|split; [|done]].
  - split; try done; cbn [aw_memory set_aw_memory mw_length]; fold a; [lia|].
    intros b (_ & _ & Hd1 & Hd2). unfold bytes_val. cbn [aw_mem set_aw_memory]. by rewrite M2, Hload1.
  - cbn [status_is]. split; [lia|]. unfold memory_taken at 1. cbn [aw_mem aw_memory set_aw_memory mw_length mw_buffer].
    rewrite <- DA2. fold (contents s2). rewrite T2, (contents_nil s1 L1). cbn [app].
    unfold bytes_val, memory_taken. fold a. cbn [bytes_ptr bytes_length sl_bytes_from_parts].
    rewrite load_bytes_drop by lia. apply Hload1. unfold disjoint_ranges in *. lia.
Qed.

#[export] Instance memory_writer_laws user : WriterLaws AdapterWorld (sl_memory_writable_vtable scratch user).
Proof.
  split; [exact apart_slice| | | |exact noop_quiet..].
  - intros k b ([Hl Hv] & (_ & Hp & _) & _). by split.
  - intros write w chunk k [= <-] Hi Hr. pose proof (memory_write_spec user w chunk k Hi Hr) as H.
    destruct (sl_memory_writable_write scratch user w chunk k) as [[[status n] w'] k']. cbv zeta in H.
    destruct H as (S1 & S2 & S3 & S4 & S5 & S6 & S7 & _).
    split; [done|]. split; [by eapply sink_moves_inv|]. split; [by apply sink_moves_left|].
    split; [done|]. split; [done|]. split; [by eapply sink_moves_apart|]. split; [by apply S2|].
    split; [|done]. intros E. by rewrite (S6 E).
  - intros drain w n k [= <-] Hi Hn. pose proof (memory_drain_spec user w n k Hi Hn) as H.
    destruct (sl_memory_writable_drain scratch user w n k) as [[status w'] k']. destruct H as (S1 & S2 & S3 & _).
    split; [done|]. split; [by eapply sink_moves_inv|]. split; [by apply sink_moves_left|]. split; [|done].
    intros b Hb. split; [by eapply sink_moves_apart|by apply S2].
Qed.
End Laws.
