(* ===== verification/StreamFlow.v ===== *)
(** Streams to completion: a pump between the memory adapters, drained and run again,
    delivers everything and ends; a stream that has ended stays ended. *)

From S2P Require Import Prelude Memory Status Arena Str Bytes Container Queue Loop Async Sink Builder Stream StreamPump StreamMemory.

Section Completion.
Context {BC : BuildConfig} (scratch : Z) (tokens : Z -> SlCancellationToken).

Abbreviation rv := (sl_memory_readable_vtable REF).
Abbreviation wv := (sl_memory_writable_vtable scratch REF).

#[local] Hint Extern 0 (StreamWorld AdapterWorld) => exact (memory_world scratch) : typeclass_instances.

Definition not_cancelled (cancellation : Z) : Prop :=
  sl_stream_status_from_cancellation tokens cancellation = SL_STREAM_STATUS_OK.

Definition sink_capacity (s : PumpSys AdapterWorld) : Z := effective_capacity (ps_writer s) (aw_memory (ps_world s)).
Definition sink_length (s : PumpSys AdapterWorld) : Z := mw_length (aw_memory (ps_world s)).

(** Both streams are open, nothing is cancelled, every chunk is small enough for the
    writer and the sink is not overfull. *)
Record flowing (s : PumpSys AdapterWorld) : Prop := {
  fl_inv : memory_inv scratch (ps_world s);
  fl_readable : pm_readable (ps_pump s) = REF;
  fl_writable : pm_writable (ps_pump s) = REF;
  fl_reader : rd_state (ps_reader s) = SL_STREAM_STATE_OPEN;
  fl_writer : wr_state (ps_writer s) = SL_STREAM_STATE_OPEN;
  fl_reader_token : not_cancelled (rd_cancellation (ps_reader s));
  fl_writer_token : not_cancelled (wr_cancellation (ps_writer s));
  fl_pump_token : not_cancelled (pm_cancellation (ps_pump s));
  fl_max : 0 < rd_max_chunk_bytes (ps_reader s) <= wr_max_chunk_bytes (ps_writer s);
  fl_capacity : 0 <= sink_length s <= sink_capacity s /\ 0 < sink_capacity s;
  fl_pending : pm_has_pending_chunk (ps_pump s) = true ->
    apart scratch (ps_world s) (pm_pending_chunk (ps_pump s)) /\
    0 < bytes_length (pm_pending_chunk (ps_pump s)) <= wr_max_chunk_bytes (ps_writer s);
}.

(** A write to the open stream takes what the sink has room for. *)
Lemma stream_write_flows w chunk k :
  memory_inv scratch k -> apart scratch k chunk -> wr_state w = SL_STREAM_STATE_OPEN ->
  not_cancelled (wr_cancellation w) -> 0 < bytes_length chunk <= wr_max_chunk_bytes w ->
  let room := effective_capacity w (aw_memory k) - mw_length (aw_memory k) in
  0 <= room ->
  let '(status, res, w', k') := sl_writable_stream_write tokens (Some wv) REF REF chunk w k in
  same_writer w w' /\ sink_moves scratch k k' /\
  wres_bytes_written res = Z.min (bytes_length chunk) room /\
  mw_length (aw_memory k') = mw_length (aw_memory k) + wres_bytes_written res /\
  status = if wres_bytes_written res =? bytes_length chunk then SL_STREAM_STATUS_OK else SL_STREAM_STATUS_BACKPRESSURE.
Proof.
  intros Hi Hap Hs Ht Hl room Hroom. unfold sl_writable_stream_write. cbn [is_null orb mbind option_bind wv_write sl_memory_writable_vtable].
  pose proof Hap as ([_ Hv] & _).
  replace (sl_stream_bytes_valid chunk) with true by (unfold sl_stream_bytes_valid; lia). cbn [negb].
  destruct (Z.ltb_spec (wr_max_chunk_bytes w) (bytes_length chunk)); [lia|]. rewrite Hs, Ht. cbn [negb].
  change (status_is (sl_stream_state_write_status SL_STREAM_STATE_OPEN) SL_STREAM_STATUS_OK) with true. cbn [negb].
  change (status_is SL_STREAM_STATUS_OK SL_STREAM_STATUS_OK) with true. cbn [negb].
  pose proof (memory_write_spec scratch REF w chunk k Hi Hap) as Hw.
  destruct (sl_memory_writable_write scratch REF w chunk k) as [[[status n] w'] k']. cbv zeta in Hw.
  destruct Hw as (W1 & W2 & W3 & _ & W5 & _ & _ & W8). destruct (W8 eq_refl Hroom) as [En Est]. fold room in En.
  assert (Hgood : write_answer_bad status n (bytes_length chunk) = false).
  { rewrite Est. unfold write_answer_bad. destruct (Z.ltb_spec (bytes_length chunk) n); [lia|].
    destruct (Z.eqb_spec n (bytes_length chunk)); [|done].
    rewrite (proj2 (Z.eqb_neq n 0)) by lia. by rewrite andb_false_r. }
  rewrite Hgood. cbn [wres_bytes_written]. split; [|done].
  destruct W1 as (? & ? & ? & ?). rewrite Est. destruct (Z.eqb_spec n (bytes_length chunk)); by split_and!.
Qed.

(** A read of the open stream hands over the next chunk, or ends when there is none. *)
Lemma stream_read_flows r k :
  memory_inv scratch k -> rd_state r = SL_STREAM_STATE_OPEN -> not_cancelled (rd_cancellation r) ->
  0 < rd_max_chunk_bytes r ->
  let '(status, res, r', k') := sl_readable_stream_read tokens (Some rv) REF REF r k in
  k' = set_aw_reader (aw_reader k') k /\ memory_inv scratch k' /\
  ((status = SL_STREAM_STATUS_OK /\ same_reader r r' /\ apart scratch k' (rr_chunk res) /\
    0 < bytes_length (rr_chunk res) <= rd_max_chunk_bytes r) \/
   (status = SL_STREAM_STATUS_EOF /\ reader_left k' = [])).
Proof.
  intros Hi Hs Ht Hm. unfold sl_readable_stream_read. cbn [is_null orb mbind option_bind rv_read sl_memory_readable_vtable].
  rewrite Hs, Ht. change (status_is (sl_stream_state_read_status SL_STREAM_STATE_OPEN) SL_STREAM_STATUS_OK) with true.
  change (status_is SL_STREAM_STATUS_OK SL_STREAM_STATUS_OK) with true. cbn [negb].
  pose proof (memory_read_spec scratch REF r k Hi Hm) as Hr.
  destruct (sl_memory_readable_read REF r k) as [[[status chunk] r'] k']. destruct Hr as (-> & Ek & Hi' & Hst).
  destruct status; try done.
  - destruct Hst as (Ha & Hl & _). cbn [status_is]. pose proof Ha as ([_ Hv] & _).
    change (status_is SL_STREAM_STATUS_OK SL_STREAM_STATUS_OK) with true. cbn [negb].
    replace (sl_stream_bytes_valid chunk) with true by (unfold sl_stream_bytes_valid; lia). cbn [negb orb].
    destruct (Z.ltb_spec (rd_max_chunk_bytes r) (bytes_length chunk)); [lia|].
    destruct (Z.eqb_spec (bytes_length chunk) 0); [lia|]. cbn [negb rr_chunk].
    split; [done|split; [done|left]]. by split; [done|split; [done|split]].
  - destruct Hst as (_ & El & _). split; [done|split; [done|by right]].
  - by destruct Hst as [_ [=]].
Qed.

(** What a step of a flowing pump leaves. *)
Definition flowed (s : PumpSys AdapterWorld) (status : SlStreamStatus) (s' : PumpSys AdapterWorld) : Prop :=
  (status = SL_STREAM_STATUS_EOF /\ pm_has_pending_chunk (ps_pump s') = false /\ reader_left (ps_world s') = []) \/
  ((status = SL_STREAM_STATUS_OK \/ status = SL_STREAM_STATUS_BACKPRESSURE) /\ flowing s' /\
   sink_capacity s' = sink_capacity s /\ sink_length s <= sink_length s' /\
   (sink_length s < sink_capacity s -> sink_length s < sink_length s')).

Lemma pump_write_flows s :
  flowing s -> pm_has_pending_chunk (ps_pump s) = true ->
  let '(status, _, s') := pump_write tokens (Some wv) (pm_pending_chunk (ps_pump s)) s in flowed s status s'.
Proof.
  intros [F1 F2 F3 F4 F5 F6 F7 F8 F9 F10 F11] Hp. destruct (F11 Hp) as [Hap Hl]. unfold pump_write. rewrite F3.
  set (chunk := pm_pending_chunk (ps_pump s)) in *. unfold sink_length, sink_capacity in F10.
  pose proof (stream_write_flows (ps_writer s) chunk (ps_world s) F1 Hap F5 F7 Hl ltac:(lia)) as Hw.
  destruct (sl_writable_stream_write _ _ _ _ _ _ _) as [[[status res] w'] k'].
  destruct Hw as ((W1 & W2 & W3 & W4) & Wm & En & El & Est). set (n := wres_bytes_written res) in *.
  pose proof Wm as [_ _ _ M4 _ _].
  assert (Ecap : effective_capacity w' (aw_memory k') = effective_capacity (ps_writer s) (aw_memory (ps_world s)))
    by (unfold effective_capacity; by rewrite W4, M4).
  assert (Hdone : forall p, pm_readable p = REF -> pm_writable p = REF -> not_cancelled (pm_cancellation p) ->
    (pm_has_pending_chunk p = true -> apart scratch k' (pm_pending_chunk p) /\
       0 < bytes_length (pm_pending_chunk p) <= wr_max_chunk_bytes w') ->
    flowed s status {| ps_pump := p; ps_reader := ps_reader s; ps_writer := w'; ps_world := k' |}).
  { intros p P1 P2 P3 P4. right. unfold sink_capacity, sink_length. cbn [ps_writer ps_world]. rewrite Ecap.
    split; [rewrite Est; destruct (n =? bytes_length chunk); auto|]. split; [|lia].
    split; cbn [ps_pump ps_reader ps_writer ps_world]; try done; try congruence.
    - by eapply sink_moves_inv.
    - unfold sink_length, sink_capacity. cbn [ps_writer ps_world]. lia. }
  replace (negb (status_is status _) && negb (status_is status _)) with false
    by (rewrite Est; by destruct (n =? bytes_length chunk)).
  destruct (Z.ltb_spec n (bytes_length chunk)) as [Hlt|Hge].
  - apply Hdone; try done. intros _. cbn [pump_set_pending pump_set_status pm_pending_chunk default].
    split; [|cbn; lia]. eapply apart_slice; [by eapply sink_moves_apart|lia..].
  - destruct (negb (bytes_length chunk =? 0)); by apply Hdone.
Qed.

Lemma pump_step_flows s :
  flowing s ->
  let '(status, _, s') := sl_stream_pump_step tokens (Some rv) (Some wv) REF REF s in flowed s status s'.
Proof.
  intros F. pose proof F as [F1 F2 F3 F4 F5 F6 F7 F8 F9 F10 F11]. unfold sl_stream_pump_step. rewrite F2, F3, F8.
  cbn [is_null orb]. change (status_is SL_STREAM_STATUS_OK SL_STREAM_STATUS_OK) with true. cbn [negb].
  destruct (pm_has_pending_chunk (ps_pump s)) eqn:Ep; [by apply pump_write_flows|].
  pose proof (stream_read_flows (ps_reader s) (ps_world s) F1 F4 F6 ltac:(lia)) as Hr.
  destruct (sl_readable_stream_read _ _ _ _ _ _) as [[[status res] r'] k'].
  destruct Hr as (Ek & Hi & [(-> & (R1 & R2 & R3) & Ha & Hl)|(-> & El)]).
  2:{ left. by split_and!. }
  change (status_is SL_STREAM_STATUS_OK SL_STREAM_STATUS_OK) with true. cbn [negb].
  destruct (Z.eqb_spec (bytes_length (rr_chunk res)) 0); [lia|].
  set (s1 := set_pump (pump_set_pending (Some (rr_chunk res)) (ps_pump (set_reader r' k' s))) (set_reader r' k' s)).
  assert (F' : flowing s1).
  { subst s1. split; cbn [set_pump set_reader ps_pump ps_reader ps_writer ps_world]; rewrite ?R1, ?R2, ?R3; try done.
    - unfold sink_length, sink_capacity. cbn [ps_world ps_writer]. rewrite Ek. exact F10.
    - intros _. split; [done|]. cbn. lia. }
  pose proof (pump_write_flows s1 F' eq_refl) as Hw. change (pm_pending_chunk (ps_pump s1)) with (rr_chunk res) in Hw.
  destruct (pump_write tokens (Some wv) (rr_chunk res) s1) as [[status out] s']. unfold flowed in *.
  replace (sink_capacity s) with (sink_capacity s1) by (unfold sink_capacity; cbn; by rewrite Ek).
  replace (sink_length s) with (sink_length s1) by (unfold sink_length; cbn; by rewrite Ek). exact Hw.
Qed.

Lemma flowed_trans s s1 status s2 :
  sink_capacity s1 = sink_capacity s -> sink_length s <= sink_length s1 ->
  (sink_length s < sink_capacity s -> sink_length s < sink_length s1) ->
  flowed s1 status s2 -> flowed s status s2.
Proof. intros E1 E2 E3 [H|(H1 & H2 & H3 & H4 & H5)]; [by left|right]. split_and!; try done; lia. Qed.

(** A ledger whose pump flows and whose account is kept. *)
Definition flowing_account (all : list Z) (base : Z) (g : Ledger) : Prop :=
  flowing (lg_sys g) /\ pump_inv all base g.

Lemma pump_run_flows all base steps : forall g,
  flowing_account all base g ->
  let '(status, _, s') := pump_run_loop tokens (Some rv) (Some wv) (S steps) (lg_sys g) in
  flowed (lg_sys g) status s' /\ pump_inv all base (lg_update s' g).
Proof.
  induction steps as [|steps IH]; intros g [F A]; cbn [pump_run_loop].
  - pose proof (pump_step_flows (lg_sys g) F) as Hs. pose proof (pump_step_inv rv wv all base tokens g A) as Ha.
    destruct (sl_stream_pump_step _ _ _ _ _ _) as [[status out] s']. cbn [snd] in Ha.
    by destruct (negb (status_is status SL_STREAM_STATUS_OK)) eqn:E;
      [|apply negb_false_iff, status_is_true in E as ->].
  - pose proof (pump_step_flows (lg_sys g) F) as Hs. pose proof (pump_step_inv rv wv all base tokens g A) as Ha.
    destruct (sl_stream_pump_step _ _ _ _ _ _) as [[status out] s1]. cbn [snd] in Ha.
    destruct (negb (status_is status SL_STREAM_STATUS_OK)) eqn:E; [done|].
    apply negb_false_iff, status_is_true in E as ->.
    destruct Hs as [([=] & _)|(_ & F1 & E1 & E2 & E3)].
    specialize (IH (lg_update s1 g) (conj F1 Ha)). cbn [pump_run_loop lg_sys lg_update] in IH.
    destruct (sl_stream_pump_step tokens (Some rv) (Some wv) REF REF s1) as [[status2 out2] s2].
    destruct (negb (status_is status2 SL_STREAM_STATUS_OK)); [|destruct (pump_run_loop _ _ _ steps s2) as [[st o] s3]];
      (split; [by eapply flowed_trans; [..|apply IH]|apply IH]).
Qed.

(** Passing on everything the sink holds empties it. *)
Lemma drain_flows s :
  flowing s ->
  let '(status, w, k) := sl_writable_stream_drain (Some wv) REF (sink_length s) (ps_writer s) (ps_world s) in
  status = SL_STREAM_STATUS_OK /\ flowing (set_writer w k s) /\ sink_length (set_writer w k s) = 0.
Proof.
  intros [F1 F2 F3 F4 F5 F6 F7 F8 F9 F10 F11]. unfold sl_writable_stream_drain.
  cbn [is_null mbind option_bind wv_drain sl_memory_writable_vtable].
  pose proof (memory_drain_spec scratch REF (ps_writer s) (sink_length s) (ps_world s) F1 ltac:(lia)) as Hd.
  destruct (sl_memory_writable_drain _ _ _ _ _) as [[status w'] k'].
  destruct Hd as ((W1 & W2 & W3 & W4) & Hm & Ht & Hok). specialize (Hok eq_refl (Z.le_refl _)). subst status.
  change (status_is SL_STREAM_STATUS_OK SL_STREAM_STATUS_OK) with true in *. cbv iota in *. cbv zeta.
  pose proof Hm as [_ _ _ M4 M5 _]. destruct Ht as [_ Ht].
  assert (E0 : mw_length (aw_memory k') = 0).
  { apply (f_equal length) in Ht. revert Ht. unfold memory_taken, load_bytes. rewrite length_drop, !length_load.
    unfold sink_length. lia. }
  set (w'' := sl_writable_stream_set_status _ _).
  assert (Hw : same_writer (ps_writer s) w'') by (by split_and!). destruct Hw as (V1 & V2 & V3 & V4).
  assert (Ecap : sink_capacity (set_writer w'' k' s) = sink_capacity s)
    by (unfold sink_capacity, effective_capacity; cbn [set_writer ps_writer ps_world]; by rewrite V4, M4).
  assert (Elen : sink_length (set_writer w'' k' s) = 0) by done.
  split; [done|]. split; [|done].
  split; rewrite ?Ecap, ?Elen; cbn [set_writer ps_pump ps_reader ps_writer ps_world]; rewrite ?V1, ?V2, ?V3; try done.
  - by eapply sink_moves_inv.
  - lia.
  - intros Hp. destruct (F11 Hp). split; [by eapply sink_moves_apart|done].
Qed.

(** Pass on what the sink holds, run the pump, and again while it has more to do. *)
Fixpoint service (max_steps : Z) (rounds : nat) (g : Ledger) : SlStreamStatus * Ledger :=
  match rounds with
  | O => (SL_STREAM_STATUS_OK, g)
  | S rounds =>
      let s := lg_sys g in
      let '(_, w, k) := sl_writable_stream_drain (Some wv) REF (sink_length s) (ps_writer s) (ps_world s) in
      let drained := lg_drained g ++ memory_taken (ps_world s) in
      let '(status, _, s) := sl_stream_pump_run tokens (Some rv) (Some wv) REF max_steps REF (set_writer w k s) in
      let g := {| lg_sys := s; lg_drained := drained |} in
      if status_is status SL_STREAM_STATUS_OK || status_is status SL_STREAM_STATUS_BACKPRESSURE
      then service max_steps rounds g else (status, g)
  end.

Lemma service_completes all base max_steps rounds : forall g,
  0 < max_steps -> flowing_account all base g ->
  (length all - length (delivered g) < rounds)%nat ->
  let '(status, g') := service max_steps rounds g in
  status = SL_STREAM_STATUS_EOF /\ delivered g' = all.
Proof.
  induction rounds as [|rounds IH]; intros g Hm [F A] Hn; [lia|]. cbn [service].
  pose proof (drain_flows (lg_sys g) F) as Hd.
  destruct (sl_writable_stream_drain _ _ _ _ _) as [[st w] k] eqn:Ed. destruct Hd as (-> & F1 & E0).
  pose proof (drain_inv wv all base g (sink_length (lg_sys g)) _ w k A ltac:(destruct (fl_capacity _ F); lia) Ed) as A1.
  change (status_is SL_STREAM_STATUS_OK SL_STREAM_STATUS_OK) with true in A1. cbv iota in A1.
  assert (Hall : take (Z.to_nat (sink_length (lg_sys g))) (sw_taken (ps_world (lg_sys g))) =
                 memory_taken (ps_world (lg_sys g))).
  { apply firstn_all2. cbn [sw_taken memory_world]. unfold memory_taken, load_bytes. by rewrite length_load. }
  rewrite Hall in A1. set (g1 := {| lg_sys := set_writer w k (lg_sys g);
    lg_drained := lg_drained g ++ memory_taken (ps_world (lg_sys g)) |}) in A1.
  assert (Elen : length (delivered g1) = length (delivered g)).
  { unfold delivered. cbn [g1 lg_sys lg_drained set_writer ps_world sw_taken memory_world].
    rewrite !length_app. unfold memory_taken at 2, load_bytes. rewrite length_load.
    unfold sink_length in E0. cbn [set_writer ps_world] in E0. rewrite E0. cbn. lia. }
  unfold sl_stream_pump_run. cbn [is_null orb]. destruct (Z.eqb_spec max_steps 0); [lia|].
  replace (Z.to_nat max_steps) with (S (pred (Z.to_nat max_steps))) by lia.
  pose proof (pump_run_flows all base (pred (Z.to_nat max_steps)) g1 (conj F1 A1)) as Hr.
  change (lg_sys g1) with (set_writer w k (lg_sys g)) in Hr.
  destruct (pump_run_loop tokens (Some rv) (Some wv) _ _) as [[status out] s']. destruct Hr as [Hf A2].
  destruct Hf as [(-> & Ep & El)|(Hst & F2 & _ & _ & Hlt)].
  { cbn. split; [done|]. destruct A2 as [_ _ _ A2 _]. revert A2. unfold pending_bytes.
    cbn [lg_update lg_sys sw_left memory_world]. rewrite Ep, El. cbn [app]. by rewrite app_nil_r. }
  replace (status_is status _ || status_is status _) with true by (by destruct Hst as [-> | ->]).
  apply (IH (lg_update s' g1)); [done|done|].
  assert (Hgrow : (length (delivered g1) < length (delivered (lg_update s' g1)))%nat).
  { specialize (Hlt ltac:(destruct (fl_capacity _ F1); lia)). revert Hlt E0. unfold delivered, sink_length.
    cbn [g1 lg_update lg_sys lg_drained set_writer ps_world sw_taken memory_world].
    rewrite !length_app. unfold memory_taken, load_bytes. rewrite !length_load. lia. }
  assert (Hle : (length (delivered (lg_update s' g1)) <= length all)%nat).
  { destruct A2 as [_ _ _ A2 _]. rewrite <- A2, length_app. lia. }
  lia.
Qed.

(** C16: a pump between the memory adapters gets to the end when the writer takes every
    chunk the reader may give, that is, when the reader's largest chunk is no larger than
    the writer's ([fl_max]; a larger chunk would be refused with CAPACITY_EXCEEDED again
    and again).  From a freshly initialised pump over open, uncancelled streams with a
    sink of any non-zero capacity, serving the pump (drain the sink, run the pump for at
    most [max_steps] steps, and again while it answers OK or BACKPRESSURE) then ends with
    EOF after at most one round per byte, and has delivered every byte of the source in
    order. *)
Theorem memory_pump_completes g cancellation max_steps rounds :
  sl_stream_pump_init REF REF REF cancellation = Ok (ps_pump (lg_sys g)) ->
  flowing (lg_sys g) -> 0 < max_steps -> (length (reader_left (ps_world (lg_sys g))) < rounds)%nat ->
  exists g', service max_steps rounds g = (SL_STREAM_STATUS_EOF, g') /\
    delivered g' = delivered g ++ reader_left (ps_world (lg_sys g)).
Proof.
  intros Hp F Hm Hn. injection Hp as Hp.
  assert (A : pump_inv (delivered g ++ reader_left (ps_world (lg_sys g))) (Z.of_nat (length (delivered g))) g).
  { destruct F as [F1 _ _ _ _ _ _ _ F9 _ _]. split; unfold pending_bytes; rewrite <- ?Hp; try done.
    - lia.
    - cbn. by rewrite Z.sub_diag. }
  pose proof (service_completes _ _ max_steps rounds g Hm (conj F A)) as Hs.
  destruct (service max_steps rounds g) as [status g']. destruct Hs as [-> E].
  { rewrite length_app. lia. }
  by exists g'.
Qed.
End Completion.

(** * The end of a stream *)

Section Final.
Context {K : Type}.

Inductive reader_op :=
| RO_read
| RO_close (message : SlStr)
| RO_fail (code : SlStreamStatus) (message : SlStr)
| RO_abort (message : SlStr).

Inductive writer_op :=
| WO_write (chunk : SlBytes)
| WO_close (message : SlStr)
| WO_fail (code : SlStreamStatus) (message : SlStr)
| WO_abort (message : SlStr).

(** Every operation may see other contents of the cancellation tokens; the answer is
    the status and the number of bytes handed over. *)
Definition reader_do (vt : option (SlReadableStreamVTable K)) (op : (Z -> SlCancellationToken) * reader_op)
    (s : SlReadableStream) (k : K) : SlStreamStatus * Z * SlReadableStream * K :=
  match snd op with
  | RO_read => let '(status, res, s, k) := sl_readable_stream_read (fst op) vt REF REF s k in
               (status, bytes_length (rr_chunk res), s, k)
  | RO_close message => let '(status, s, k) := sl_readable_stream_close vt REF message s k in (status, 0, s, k)
  | RO_fail code message => let '(status, s, k) := sl_readable_stream_fail vt REF code message s k in (status, 0, s, k)
  | RO_abort message => let '(status, s, k) := sl_readable_stream_abort vt REF message s k in (status, 0, s, k)
  end.

Definition writer_do (vt : option (SlWritableStreamVTable K)) (op : (Z -> SlCancellationToken) * writer_op)
    (s : SlWritableStream) (k : K) : SlStreamStatus * Z * SlWritableStream * K :=
  match snd op with
  | WO_write chunk => let '(status, res, s, k) := sl_writable_stream_write (fst op) vt REF REF chunk s k in
                      (status, wres_bytes_written res, s, k)
  | WO_close message => let '(status, s, k) := sl_writable_stream_close vt REF message s k in (status, 0, s, k)
  | WO_fail code message => let '(status, s, k) := sl_writable_stream_fail vt REF code message s k in (status, 0, s, k)
  | WO_abort message => let '(status, s, k) := sl_writable_stream_abort vt REF message s k in (status, 0, s, k)
  end.

(** A sequence of operations and the bytes they moved in all. *)
Fixpoint do_all {S O} (f : O -> S -> K -> SlStreamStatus * Z * S * K) (ops : list O) (s : S) (k : K) : Z * S * K :=
  match ops with
  | [] => (0, s, k)
  | op :: ops =>
      let '(_, n, s, k) := f op s k in
      let '(rest, s, k) := do_all f ops s k in
      (n + rest, s, k)
  end.

Lemma do_all_fixed {S O} (f : O -> S -> K -> SlStreamStatus * Z * S * K) (same : S -> S -> Prop) ops :
  (forall s, same s s) -> (forall s1 s2 s3, same s1 s2 -> same s2 s3 -> same s1 s3) ->
  forall s k, (forall op s', same s s' -> let '(_, n, s'', k') := f op s' k in n = 0 /\ same s' s'' /\ k' = k) ->
  let '(n, s', k') := do_all f ops s k in n = 0 /\ same s s' /\ k' = k.
Proof.
  intros Hrefl Htrans. induction ops as [|op ops IH]; intros s k Hf; cbn [do_all]; [by split_and!|].
  pose proof (Hf op s (Hrefl s)) as H1. destruct (f op s k) as [[[st n] s1] k1]. destruct H1 as (-> & H1 & ->).
  specialize (IH s1 k). destruct (do_all f ops s1 k) as [[rest s2] k2].
  destruct IH as (-> & H2 & ->); [intros op' s' Hs; apply Hf; by eapply Htrans|]. split_and!; [done|by eapply Htrans|done].
Qed.

(** The fields of a reader or a writer that its end fixes. *)
Definition reader_ended (s s' : SlReadableStream) : Prop :=
  rd_state s' = rd_state s /\ rd_error s' = rd_error s /\
  ss_bytes_read (rd_stats s') = ss_bytes_read (rd_stats s) /\ ss_chunks_read (rd_stats s') = ss_chunks_read (rd_stats s).
Definition writer_ended (s s' : SlWritableStream) : Prop :=
  wr_state s' = wr_state s /\ wr_error s' = wr_error s /\
  ss_bytes_written (wr_stats s') = ss_bytes_written (wr_stats s) /\
  ss_chunks_written (wr_stats s') = ss_chunks_written (wr_stats s).

Lemma reader_do_ended vt op s k :
  rd_state s <> SL_STREAM_STATE_OPEN ->
  let '(_, n, s', k') := reader_do vt op s k in n = 0 /\ reader_ended s s' /\ k' = k.
Proof.
  intros Hs. unfold reader_do. destruct op as [tokens [|message|code message|message]]; cbn [fst snd].
  - unfold sl_readable_stream_read. destruct (if _ || _ then None else _); [|by split_and!].
    replace (negb (status_is (sl_stream_state_read_status (rd_state s)) SL_STREAM_STATUS_OK)) with true
      by (by destruct (rd_state s)).
    unfold read_refused. split; [done|]. split; [|done]. unfold reader_ended. cbn. by destruct (rd_state s).
  - unfold sl_readable_stream_close. repeat (split_if; [by split_and!|]). by destruct (rd_state s).
  - unfold sl_readable_stream_fail. repeat (split_if; [by split_and!|]). by destruct (rd_state s).
  - unfold sl_readable_stream_abort. repeat (split_if; [by split_and!|]). by destruct (rd_state s).
Qed.

Lemma writer_do_ended vt op s k :
  wr_state s <> SL_STREAM_STATE_OPEN ->
  let '(_, n, s', k') := writer_do vt op s k in n = 0 /\ writer_ended s s' /\ k' = k.
Proof.
  intros Hs. unfold writer_do. destruct op as [tokens [chunk|message|code message|message]]; cbn [fst snd].
  - unfold sl_writable_stream_write. destruct (if _ || _ then None else _); [|by split_and!].
    do 2 (split_if; [by split_and!|]).
    replace (negb (status_is (sl_stream_state_write_status (wr_state s)) SL_STREAM_STATUS_OK)) with true
      by (by destruct (wr_state s)).
    unfold write_refused. split; [done|]. split; [|done]. unfold writer_ended. cbn. by destruct (wr_state s).
  - unfold sl_writable_stream_close. repeat (split_if; [by split_and!|]). by destruct (wr_state s).
  - unfold sl_writable_stream_fail. repeat (split_if; [by split_and!|]). by destruct (wr_state s).
  - unfold sl_writable_stream_abort. repeat (split_if; [by split_and!|]). by destruct (wr_state s).
Qed.

(** A stream that has ended, been closed, failed, been aborted or cancelled stays
    so.  Whatever reads, writes, closes, failures and aborts follow, and whatever the
    cancellation tokens say, no byte moves, the adapter is not called, and the state,
    the error and the transfer counters of the stream keep their values. *)
Theorem stream_end_is_final rvt wvt r w k rops wops :
  rd_state r <> SL_STREAM_STATE_OPEN -> wr_state w <> SL_STREAM_STATE_OPEN ->
  (let '(n, r', k') := do_all (reader_do rvt) rops r k in n = 0 /\ reader_ended r r' /\ k' = k) /\
  (let '(n, w', k') := do_all (writer_do wvt) wops w k in n = 0 /\ writer_ended w w' /\ k' = k).
Proof.
  intros Hr Hw. split.
  - apply do_all_fixed; [by intros s; split_and!| |].
    + intros s1 s2 s3 (? & ? & ? & ?) (? & ? & ? & ?). split_and!; congruence.
    + intros op s' Hs. apply reader_do_ended. by destruct Hs as [-> _].
  - apply do_all_fixed; [by intros s; split_and!| |].
    + intros s1 s2 s3 (? & ? & ? & ?) (? & ? & ? & ?). split_and!; congruence.
    + intros op s' Hs. apply writer_do_ended. by destruct Hs as [-> _].
Qed.
End Final.

Module Demo.
(** Two chunks at 1000 and 2000, a sink of four bytes at 3000. *)
#[local] Existing Instance release_build.
Definition m0 : mem := store (store (fun _ => 0) 1000 [104; 101; 108; 108; 111]) 2000 [33; 10].
Definition source : list SlBytes :=
  [{| bytes_ptr := 1000; bytes_length := 5 |}; {| bytes_ptr := 2000; bytes_length := 2 |}].
Definition k0 : AdapterWorld :=
  {| aw_mem := m0; aw_reader := {| mr_chunks := source; mr_chunk_index := 0; mr_chunk_offset := 0 |};
     aw_memory := {| mw_buffer := 3000; mw_capacity := 4; mw_length := 0; mw_high_water_mark := 0 |};
     aw_list := {| cl_chunks := []; cl_capacity := 0; cl_total_bytes := 0; cl_max_total_bytes := 0 |} |}.
Definition tokens0 : Z -> SlCancellationToken :=
  fun _ => {| tok_cancelled := false; tok_reason := SL_CANCELLATION_REASON_NONE; tok_detail := sl_str_empty |}.
Definition options : SlStreamOptions :=
  {| so_max_chunk_bytes := 3; so_max_buffered_bytes := 0; so_max_chunks := 0; so_cancellation := 0 |}.

Definition get {A} (d : A) (r : result A) : A := match r with Ok a => a | Err _ => d end.
Definition reader0 : SlReadableStream :=
  get {| rd_cancellation := 0; rd_state := SL_STREAM_STATE_NONE; rd_stats := no_stats; rd_error := no_error;
         rd_max_chunk_bytes := 0 |}
    (sl_readable_stream_init REF (Some (sl_memory_readable_vtable REF)) (Some options)).
Definition writer0 : SlWritableStream :=
  get {| wr_cancellation := 0; wr_state := SL_STREAM_STATE_NONE; wr_stats := no_stats; wr_error := no_error;
         wr_max_chunk_bytes := 0; wr_max_buffered_bytes := 0 |}
    (sl_writable_stream_init REF (Some (sl_memory_writable_vtable 5000 REF)) (Some options)).
Definition pump0 : SlStreamPump :=
  {| pm_readable := REF; pm_writable := REF; pm_cancellation := 0; pm_has_pending_chunk := false;
     pm_pending_chunk := no_bytes; pm_last_status := SL_STREAM_STATUS_OK; pm_bytes_transferred := 0;
     pm_chunks_transferred := 0 |}.
Definition g0 : Ledger :=
  {| lg_sys := {| ps_pump := pump0; ps_reader := reader0; ps_writer := writer0; ps_world := k0 |}; lg_drained := [] |}.

Lemma k0_inv : memory_inv 5000 k0.
Proof.
  split; cbn; unfold disjoint_ranges, SCRATCH_BYTES; try size_lia.
  apply Forall_cons; split; [|apply Forall_singleton]; unfold apart, bytes_valid, bytes_wf, disjoint_ranges; cbn;
    split_and!; size_lia.
Qed.

Lemma memory_pump_completes_witness :
  exists g', service 5000 tokens0 2 8 g0 = (SL_STREAM_STATUS_EOF, g') /\
    @delivered _ (memory_world 5000) g' = [104; 101; 108; 108; 111; 33; 10].
Proof.
  destruct (memory_pump_completes 5000 tokens0 g0 0 2 8) as (g' & E & Hd).
  - reflexivity.
  - split; try done; try exact k0_inv; cbn; lia.
  - lia.
  - vm_compute. lia.
  - exists g'. split; [exact E|]. rewrite Hd. reflexivity.
Defined.

(** A writer that takes chunks of two bytes only, of a reader that gives three: the pump
    is refused, and refused again. *)
Definition narrow_writer : SlWritableStream :=
  {| wr_cancellation := 0; wr_state := SL_STREAM_STATE_OPEN; wr_stats := no_stats; wr_error := no_error;
     wr_max_chunk_bytes := 2; wr_max_buffered_bytes := 0 |}.
Definition g_narrow : Ledger :=
  {| lg_sys := {| ps_pump := pump0; ps_reader := reader0; ps_writer := narrow_writer; ps_world := k0 |}; lg_drained := [] |}.
Example oversized_chunk_stalls :
  let '(first, g1) := service 5000 tokens0 2 8 g_narrow in
  let '(second, g2) := service 5000 tokens0 2 8 g1 in
  first = SL_STREAM_STATUS_CAPACITY_EXCEEDED /\ second = SL_STREAM_STATUS_CAPACITY_EXCEEDED /\
  @delivered _ (memory_world 5000) g2 = [].
Proof. vm_compute. by split_and!. Qed.

Definition closed_reader : SlReadableStream :=
  snd (fst (sl_readable_stream_close (Some (sl_memory_readable_vtable REF)) REF sl_str_empty reader0 k0)).
Definition aborted_writer : SlWritableStream :=
  snd (fst (sl_writable_stream_abort (Some (sl_memory_writable_vtable 5000 REF)) REF sl_str_empty writer0 k0)).

Lemma stream_end_is_final_witness :
  (exists r', do_all (reader_do (Some (sl_memory_readable_vtable REF))) [(tokens0, RO_read); (tokens0, RO_abort sl_str_empty)]
                closed_reader k0 = (0, r', k0) /\ rd_state r' = SL_STREAM_STATE_CLOSED) /\
  (exists w', do_all (writer_do (Some (sl_memory_writable_vtable 5000 REF)))
                [(tokens0, WO_write {| bytes_ptr := 1000; bytes_length := 2 |}); (tokens0, WO_close sl_str_empty)]
                aborted_writer k0 = (0, w', k0) /\ wr_state w' = SL_STREAM_STATE_ABORTED).
Proof.
  destruct (stream_end_is_final (Some (sl_memory_readable_vtable REF)) (Some (sl_memory_writable_vtable 5000 REF))
    closed_reader aborted_writer k0 [(tokens0, RO_read); (tokens0, RO_abort sl_str_empty)]
    [(tokens0, WO_write {| bytes_ptr := 1000; bytes_length := 2 |}); (tokens0, WO_close sl_str_empty)]) as [Hr Hw].
  - vm_compute. discriminate.
  - vm_compute. discriminate.
  - destruct (do_all (reader_do _) _ _ _) as [[n r'] k']. destruct Hr as (-> & (Er & _) & ->).
    destruct (do_all (writer_do _) _ _ _) as [[n w'] k']. destruct Hw as (-> & (Ew & _) & ->).
    split; [exists r'|exists w']; (split; [reflexivity|]); [rewrite Er|rewrite Ew]; reflexivity.
Defined.

Definition step (g : Ledger) : Ledger :=
  @lg_update _ (snd (sl_stream_pump_step tokens0 (Some (sl_memory_readable_vtable REF))
    (Some (sl_memory_writable_vtable 5000 REF)) REF REF (lg_sys g))) g.

Lemma pump_conserves_bytes_witness :
  exists g', rtc (@pump_op _ (memory_world 5000) (sl_memory_readable_vtable REF) (sl_memory_writable_vtable 5000 REF)) g0 g' /\
    @delivered _ (memory_world 5000) g' ++ @pending_bytes _ (memory_world 5000) (lg_sys g') ++
      reader_left (ps_world (lg_sys g')) = [104; 101; 108; 108; 111; 33; 10].
Proof.
  assert (Hs : rtc (@pump_op _ (memory_world 5000) (sl_memory_readable_vtable REF) (sl_memory_writable_vtable 5000 REF))
                 g0 (step (step g0))).
  { exact (rtc_l _ _ (step g0) _ (op_step _ _ tokens0 g0)
             (rtc_l _ _ (step (step g0)) _ (op_step _ _ tokens0 (step g0)) (rtc_refl _ _))). }
  exists (step (step g0)).
  destruct (@pump_conserves_bytes _ (memory_world 5000) (sl_memory_readable_vtable REF)
    (sl_memory_writable_vtable 5000 REF) _ _ pump0 g0 (step (step g0)) 0 eq_refl eq_refl k0_inv eq_refl Hs) as [Hb _].
  split; [exact Hs|]. etransitivity; [exact Hb|]. reflexivity.
Defined.
End Demo.
