(* ===== verification/Capability.v ===== *)
(** Capabilities (src/core/capability.c, and the shape tests of src/core/plan.c it
    relies on): the registry built from a plan and the checks a provider call has to
    pass.

    The strings of a plan are views into memory; an array of the plan is [None] for
    NULL.  Only the fields of a plan that the registry uses are kept. *)

From stdpp Require Import strings.
From S2P Require Import Prelude Memory Status Arena Str Simd StrArena Container Sink Builder Diag RouteMatch RouteParse.

Open Scope Z_scope.

Inductive SlCapabilityAccess :=
| SL_CAPABILITY_ACCESS_UNKNOWN
| SL_CAPABILITY_ACCESS_READ
| SL_CAPABILITY_ACCESS_WRITE
| SL_CAPABILITY_ACCESS_READWRITE
| SL_CAPABILITY_ACCESS_CONNECT
| SL_CAPABILITY_ACCESS_LISTEN
| SL_CAPABILITY_ACCESS_CONNECT_LISTEN
| SL_CAPABILITY_ACCESS_APPEND
| SL_CAPABILITY_ACCESS_DELETE
| SL_CAPABILITY_ACCESS_LIST
| SL_CAPABILITY_ACCESS_METADATA
| SL_CAPABILITY_ACCESS_WATCH
| SL_CAPABILITY_ACCESS_LOCK.

#[export] Instance SlCapabilityAccess_eq_dec : EqDecision SlCapabilityAccess.
Proof. solve_decision. Defined.

(** A caller may pass a number outside the enumeration. *)
Inductive SlCapabilityOperation :=
| SL_CAPABILITY_OPERATION_READ
| SL_CAPABILITY_OPERATION_WRITE
| SL_CAPABILITY_OPERATION_CONNECT
| SL_CAPABILITY_OPERATION_LISTEN
| SL_CAPABILITY_OPERATION_READWRITE
| SL_CAPABILITY_OPERATION_APPEND
| SL_CAPABILITY_OPERATION_DELETE
| SL_CAPABILITY_OPERATION_LIST
| SL_CAPABILITY_OPERATION_METADATA
| SL_CAPABILITY_OPERATION_WATCH
| SL_CAPABILITY_OPERATION_LOCK
| OPERATION_OUTSIDE (value : Z).

Record SlPlanDataProvider := {
  dp_token : SlStr;
  dp_provider : SlStr;
  dp_capability : SlStr;
  dp_service : SlStr;
  dp_database : SlStr;
}.

Record SlPlanCapability := {
  cap_token : SlStr;
  cap_kind : SlStr;
  cap_access : SlStr;
  cap_provider : SlStr;
}.

Record SlPlan := {
  plan_data_providers : option (list SlPlanDataProvider);
  plan_data_provider_count : Z;
  plan_capabilities : option (list SlPlanCapability);
  plan_capability_count : Z;
}.

Record SlCapabilityRegistry := {
  cr_data_providers : option (list SlPlanDataProvider);
  cr_data_provider_count : Z;
  cr_capabilities : option (list SlPlanCapability);
  cr_capability_count : Z;
}.

Definition empty_registry : SlCapabilityRegistry :=
  {| cr_data_providers := None; cr_data_provider_count := 0; cr_capabilities := None; cr_capability_count := 0 |}.

(** The elements a counted loop over an array visits. *)
Definition visited {A} (items : option (list A)) (count : Z) : list A := take (Z.to_nat count) (default [] items).

(** [count > 0 && array == NULL] *)
Definition array_missing {A} (items : option (list A)) (count : Z) : bool :=
  (0 <? count) && negb (bool_decide (is_Some items)).

Record CheckSys := { cs_world : World; cs_diag : SlDiag }.

Definition set_cs_world (w : World) (s : CheckSys) : CheckSys := {| cs_world := w; cs_diag := cs_diag s |}.
Definition set_cs_diag (d : SlDiag) (s : CheckSys) : CheckSys := {| cs_world := cs_world s; cs_diag := d |}.
Definition with_world {A} (c : ST World A) : ST CheckSys A := zoom cs_world set_cs_world c.

Section Operations.
Context {BC : BuildConfig} {RO : ReadOnlyData} (scratch : Z).
Implicit Types (m : mem).

(** * Names the plan supports *)

Definition sl_plan_provider_supported m (provider : SlStr) : bool :=
  sl_str_equal m provider (literal "sqlite") || sl_str_equal m provider (literal "postgres")
  || sl_str_equal m provider (literal "sqlserver").

Definition sl_plan_capability_kind_supported m (kind : SlStr) : bool :=
  sl_str_equal m kind (literal "database") || sl_str_equal m kind (literal "filesystem")
  || sl_str_equal m kind (literal "network") || sl_str_equal m kind (literal "queue")
  || sl_str_equal m kind (literal "os") || sl_str_equal m kind (literal "env")
  || sl_str_equal m kind (literal "process") || sl_str_equal m kind (literal "signals")
  || sl_str_equal m kind (literal "time") || sl_str_equal m kind (literal "crypto")
  || sl_str_equal m kind (literal "codec") || sl_str_equal m kind (literal "workers")
  || sl_str_equal m kind (literal "ffi").

Definition sl_plan_capability_access_supported m (kind access : SlStr) : bool :=
  if sl_str_equal m kind (literal "database") then
    sl_str_equal m access (literal "read") || sl_str_equal m access (literal "write")
    || sl_str_equal m access (literal "readwrite") else
  if sl_str_equal m kind (literal "filesystem") then
    sl_str_equal m access (literal "read") || sl_str_equal m access (literal "write")
    || sl_str_equal m access (literal "readwrite") || sl_str_equal m access (literal "append")
    || sl_str_equal m access (literal "delete") || sl_str_equal m access (literal "list")
    || sl_str_equal m access (literal "metadata") || sl_str_equal m access (literal "watch")
    || sl_str_equal m access (literal "lock") else
  if sl_str_equal m kind (literal "network") then
    sl_str_equal m access (literal "connect") || sl_str_equal m access (literal "listen")
    || sl_str_equal m access (literal "connect-listen") else
  if sl_str_equal m kind (literal "queue") then
    sl_str_equal m access (literal "enqueue") || sl_str_equal m access (literal "process")
    || sl_str_equal m access (literal "readwrite") else
  if sl_str_equal m kind (literal "os") then sl_str_equal m access (literal "info") else
  if sl_str_equal m kind (literal "env") then
    sl_str_equal m access (literal "read") || sl_str_equal m access (literal "list") else
  if sl_str_equal m kind (literal "process") then
    sl_str_equal m access (literal "run") || sl_str_equal m access (literal "shell")
    || sl_str_equal m access (literal "signal") || sl_str_equal m access (literal "kill") else
  if sl_str_equal m kind (literal "signals") then sl_str_equal m access (literal "shutdown") else
  if sl_str_equal m kind (literal "time") || sl_str_equal m kind (literal "crypto")
     || sl_str_equal m kind (literal "codec") || sl_str_equal m kind (literal "workers")
     || sl_str_equal m kind (literal "ffi")
  then sl_str_equal m access (literal "use")
  else false.

(** The two nested loops over the tokens of an array. *)
Fixpoint duplicate_tokens m (tokens : list SlStr) : bool :=
  match tokens with
  | [] => false
  | token :: tokens => existsb (fun other => sl_str_equal m token other) tokens || duplicate_tokens m tokens
  end.

Definition sl_plan_has_duplicate_data_provider_tokens m (plan : option SlPlan) : bool :=
  match plan with
  | None => false
  | Some plan =>
      if negb (bool_decide (is_Some (plan_data_providers plan))) || (plan_data_provider_count plan <? 2) then false
      else duplicate_tokens m (map dp_token (visited (plan_data_providers plan) (plan_data_provider_count plan)))
  end.

Definition sl_plan_has_duplicate_capability_tokens m (plan : option SlPlan) : bool :=
  match plan with
  | None => false
  | Some plan =>
      if negb (bool_decide (is_Some (plan_capabilities plan))) || (plan_capability_count plan <? 2) then false
      else duplicate_tokens m (map cap_token (visited (plan_capabilities plan) (plan_capability_count plan)))
  end.

(** * Shapes *)

Definition sl_capability_kind_is m (capability : SlPlanCapability) (kind : string) : bool :=
  sl_str_equal m (cap_kind capability) (literal kind).

Definition sl_capability_access_from_plan m (access : SlStr) : SlCapabilityAccess :=
  if sl_str_equal m access (literal "read") then SL_CAPABILITY_ACCESS_READ else
  if sl_str_equal m access (literal "write") then SL_CAPABILITY_ACCESS_WRITE else
  if sl_str_equal m access (literal "readwrite") then SL_CAPABILITY_ACCESS_READWRITE else
  if sl_str_equal m access (literal "connect") then SL_CAPABILITY_ACCESS_CONNECT else
  if sl_str_equal m access (literal "listen") then SL_CAPABILITY_ACCESS_LISTEN else
  if sl_str_equal m access (literal "connect-listen") then SL_CAPABILITY_ACCESS_CONNECT_LISTEN else
  if sl_str_equal m access (literal "append") then SL_CAPABILITY_ACCESS_APPEND else
  if sl_str_equal m access (literal "delete") then SL_CAPABILITY_ACCESS_DELETE else
  if sl_str_equal m access (literal "list") then SL_CAPABILITY_ACCESS_LIST else
  if sl_str_equal m access (literal "metadata") then SL_CAPABILITY_ACCESS_METADATA else
  if sl_str_equal m access (literal "watch") then SL_CAPABILITY_ACCESS_WATCH else
  if sl_str_equal m access (literal "lock") then SL_CAPABILITY_ACCESS_LOCK else
  SL_CAPABILITY_ACCESS_UNKNOWN.

Definition token_byte (ch : Z) : bool :=
  ((97 <=? ch) && (ch <=? 122)) || ((65 <=? ch) && (ch <=? 90)) || ((48 <=? ch) && (ch <=? 57))
  || (ch =? 46) || (ch =? 95) || (ch =? 45).

Definition sl_capability_token_syntax_valid m (token : SlStr) : bool :=
  if sl_str_is_empty token then false
  else all_bytes_loop token_byte m (str_ptr token) (Z.to_nat (str_length token)).

Definition sl_capability_shape_valid m (capability : SlPlanCapability) : bool :=
  if negb (sl_capability_token_syntax_valid m (cap_token capability)) || sl_str_is_empty (cap_kind capability)
     || sl_str_is_empty (cap_access capability)
     || negb (sl_plan_capability_kind_supported m (cap_kind capability))
     || negb (sl_plan_capability_access_supported m (cap_kind capability) (cap_access capability))
  then false else
  if sl_capability_kind_is m capability "database" then negb (sl_str_is_empty (cap_provider capability))
  else sl_str_is_empty (cap_provider capability).

Definition sl_capability_provider_shape_valid m (provider : SlPlanDataProvider) : bool :=
  if negb (sl_capability_token_syntax_valid m (dp_token provider)) || sl_str_is_empty (dp_provider provider)
     || negb (sl_plan_provider_supported m (dp_provider provider))
  then false else
  if negb (sl_str_is_empty (dp_service provider)) && negb (sl_capability_token_syntax_valid m (dp_service provider))
  then false else
  if negb (sl_str_is_empty (dp_capability provider))
     && negb (sl_capability_token_syntax_valid m (dp_capability provider))
  then false else true.

(** * The registry *)

(** The loop that returns the first element with a token. *)
Definition with_token {A} (token_of : A -> SlStr) m (items : list A) (token : SlStr) : option A :=
  snd <$> list_find (fun item => sl_str_equal m (token_of item) token = true) items.

Definition sl_capability_find_provider m (registry : option SlCapabilityRegistry) (token : SlStr)
    : option SlPlanDataProvider :=
  r ← registry ;
  if sl_str_is_empty token || array_missing (cr_data_providers r) (cr_data_provider_count r) then None
  else with_token dp_token m (visited (cr_data_providers r) (cr_data_provider_count r)) token.

Definition sl_capability_plan_has_provider m (plan : option SlPlan) (token : SlStr) : bool :=
  match plan with
  | None => false
  | Some plan =>
      if sl_str_is_empty token || array_missing (plan_data_providers plan) (plan_data_provider_count plan) then false
      else bool_decide (is_Some (with_token dp_token m
             (visited (plan_data_providers plan) (plan_data_provider_count plan)) token))
  end.

Definition sl_capability_plan_has_capability m (plan : option SlPlan) (token : SlStr) : bool :=
  match plan with
  | None => false
  | Some plan =>
      if sl_str_is_empty token || array_missing (plan_capabilities plan) (plan_capability_count plan) then false
      else bool_decide (is_Some (with_token cap_token m
             (visited (plan_capabilities plan) (plan_capability_count plan)) token))
  end.

(** The body of the loop over the providers, and over the capabilities. *)
Definition provider_ok m (plan : SlPlan) (provider : SlPlanDataProvider) : bool :=
  sl_capability_provider_shape_valid m provider
  && negb (negb (sl_str_is_empty (dp_capability provider))
           && negb (sl_capability_plan_has_capability m (Some plan) (dp_capability provider))).
Definition capability_ok m (plan : SlPlan) (capability : SlPlanCapability) : bool :=
  sl_capability_shape_valid m capability
  && negb (sl_capability_kind_is m capability "database"
           && negb (sl_capability_plan_has_provider m (Some plan) (cap_provider capability))).

(** The answer is the status and what is left in [*out]. *)
Definition sl_capability_registry_init_from_plan m (plan : option SlPlan) (out : nullable)
    : SlStatusCode * option SlCapabilityRegistry :=
  if is_null out then (SL_STATUS_INVALID_ARGUMENT, None) else
  let refused := (SL_STATUS_INVALID_ARGUMENT, Some empty_registry) in
  match plan with
  | None => refused
  | Some p =>
      if array_missing (plan_data_providers p) (plan_data_provider_count p)
         || array_missing (plan_capabilities p) (plan_capability_count p) then refused else
      if sl_plan_has_duplicate_data_provider_tokens m plan then refused else
      if sl_plan_has_duplicate_capability_tokens m plan then refused else
      if negb (forallb (provider_ok m p) (visited (plan_data_providers p) (plan_data_provider_count p)))
      then refused else
      if negb (forallb (capability_ok m p) (visited (plan_capabilities p) (plan_capability_count p)))
      then refused else
      (SL_STATUS_OK, Some {| cr_data_providers := plan_data_providers p;
                             cr_data_provider_count := plan_data_provider_count p;
                             cr_capabilities := plan_capabilities p;
                             cr_capability_count := plan_capability_count p |})
  end.

Definition sl_capability_registry_find m (registry : option SlCapabilityRegistry) (token : SlStr) (out : nullable)
    : result SlPlanCapability :=
  error_if is_null out with SL_STATUS_INVALID_ARGUMENT ;;
  match registry with
  | None => Err SL_STATUS_INVALID_ARGUMENT
  | Some r =>
      error_if sl_str_is_empty token || array_missing (cr_capabilities r) (cr_capability_count r)
        with SL_STATUS_INVALID_ARGUMENT ;;
      match with_token cap_token m (visited (cr_capabilities r) (cr_capability_count r)) token with
      | Some capability => Ok capability
      | None => Err SL_STATUS_OUT_OF_RANGE
      end
  end.

(** * Checks *)

Definition sl_capability_operation_name (operation : SlCapabilityOperation) : SlStr :=
  match operation with
  | SL_CAPABILITY_OPERATION_READ => literal "read"
  | SL_CAPABILITY_OPERATION_WRITE => literal "write"
  | SL_CAPABILITY_OPERATION_CONNECT => literal "connect"
  | SL_CAPABILITY_OPERATION_LISTEN => literal "listen"
  | SL_CAPABILITY_OPERATION_READWRITE => literal "readwrite"
  | SL_CAPABILITY_OPERATION_APPEND => literal "append"
  | SL_CAPABILITY_OPERATION_DELETE => literal "delete"
  | SL_CAPABILITY_OPERATION_LIST => literal "list"
  | SL_CAPABILITY_OPERATION_METADATA => literal "metadata"
  | SL_CAPABILITY_OPERATION_WATCH => literal "watch"
  | SL_CAPABILITY_OPERATION_LOCK => literal "lock"
  | OPERATION_OUTSIDE _ => literal "unsupported"
  end.

Definition access_is (a b : SlCapabilityAccess) : bool := bool_decide (a = b).

Definition sl_capability_access_allows (actual : SlCapabilityAccess) (operation : SlCapabilityOperation) : bool :=
  match operation with
  | SL_CAPABILITY_OPERATION_READ =>
      access_is actual SL_CAPABILITY_ACCESS_READ || access_is actual SL_CAPABILITY_ACCESS_READWRITE
  | SL_CAPABILITY_OPERATION_WRITE =>
      access_is actual SL_CAPABILITY_ACCESS_WRITE || access_is actual SL_CAPABILITY_ACCESS_READWRITE
  | SL_CAPABILITY_OPERATION_READWRITE => access_is actual SL_CAPABILITY_ACCESS_READWRITE
  | SL_CAPABILITY_OPERATION_CONNECT =>
      access_is actual SL_CAPABILITY_ACCESS_CONNECT || access_is actual SL_CAPABILITY_ACCESS_CONNECT_LISTEN
  | SL_CAPABILITY_OPERATION_LISTEN =>
      access_is actual SL_CAPABILITY_ACCESS_LISTEN || access_is actual SL_CAPABILITY_ACCESS_CONNECT_LISTEN
  | SL_CAPABILITY_OPERATION_APPEND =>
      access_is actual SL_CAPABILITY_ACCESS_APPEND || access_is actual SL_CAPABILITY_ACCESS_WRITE
      || access_is actual SL_CAPABILITY_ACCESS_READWRITE
  | SL_CAPABILITY_OPERATION_DELETE =>
      access_is actual SL_CAPABILITY_ACCESS_DELETE || access_is actual SL_CAPABILITY_ACCESS_WRITE
      || access_is actual SL_CAPABILITY_ACCESS_READWRITE
  | SL_CAPABILITY_OPERATION_LIST =>
      access_is actual SL_CAPABILITY_ACCESS_LIST || access_is actual SL_CAPABILITY_ACCESS_READ
      || access_is actual SL_CAPABILITY_ACCESS_READWRITE
  | SL_CAPABILITY_OPERATION_METADATA =>
      access_is actual SL_CAPABILITY_ACCESS_METADATA || access_is actual SL_CAPABILITY_ACCESS_READ
      || access_is actual SL_CAPABILITY_ACCESS_READWRITE
  | SL_CAPABILITY_OPERATION_WATCH =>
      access_is actual SL_CAPABILITY_ACCESS_WATCH || access_is actual SL_CAPABILITY_ACCESS_READ
      || access_is actual SL_CAPABILITY_ACCESS_READWRITE
  | SL_CAPABILITY_OPERATION_LOCK =>
      access_is actual SL_CAPABILITY_ACCESS_LOCK || access_is actual SL_CAPABILITY_ACCESS_READWRITE
  | OPERATION_OUTSIDE _ => false
  end.

(** The hint is built by a local builder, whose inline storage is at [scratch]. *)
Definition hint_text (arena : nullable) (prefix value : SlStr) (hint_length : Z) : ST BuilderSys SlStr :=
  sl_string_builder_init_arena REF arena hint_length hint_length ;;
  sl_string_builder_append_str REF prefix ;;
  sl_string_builder_append_str REF value ;;
  gets (fun s => sl_string_builder_view REF (bs_builder s)).

Definition sl_capability_add_hint_pair (arena : nullable) (prefix value : SlStr) (builder : SlDiag)
    : ST World SlDiag :=
  return_if is_null arena || (str_ptr prefix =? 0) || ((0 <? str_length value) && (str_ptr value =? 0))
    with SL_STATUS_INVALID_ARGUMENT ;;
  hint_length ← lift (sl_checked_add_size (str_length prefix) (str_length value) REF) ;
  hint ← with_local_builder scratch (hint_text arena prefix value hint_length) ;
  lift (sl_diag_builder_add_hint_owned arena builder hint).

Definition hint_if (test : bool) (arena : nullable) (prefix : string) (value : SlStr) (builder : SlDiag)
    : ST World SlDiag :=
  if test then sl_capability_add_hint_pair arena (literal prefix) value builder else mret builder.

Definition sl_capability_denied {A} (arena out_diag : nullable) (token kind : SlStr)
    (operation : SlCapabilityOperation) (actual_access provider : SlStr) (message : string) : ST CheckSys A :=
  return_if is_null out_diag with SL_STATUS_INVALID_STATE ;;
  builder ← with_world (sl_diag_builder_init arena SL_DIAG_SEVERITY_ERROR SL_DIAG_PERMISSION_DENIED (literal message)) ;
  builder ← with_world (hint_if (negb (sl_str_is_empty token)) arena "token: " token builder) ;
  builder ← with_world (hint_if (negb (sl_str_is_empty kind) && (sl_str_is_empty provider || sl_str_is_empty actual_access))
                          arena "kind: " kind builder) ;
  builder ← with_world (sl_capability_add_hint_pair arena (literal "operation: ")
                          (sl_capability_operation_name operation) builder) ;
  builder ← with_world (hint_if (negb (sl_str_is_empty actual_access)) arena "actual access: " actual_access builder) ;
  builder ← with_world (hint_if (negb (sl_str_is_empty provider)) arena "provider: " provider builder) ;
  diag ← lift (sl_diag_builder_finish arena out_diag builder) ;
  modify (set_cs_diag diag) ;;
  fail SL_STATUS_INVALID_STATE.

Definition sl_capability_check_common (registry : option SlCapabilityRegistry) (diag_arena : nullable) (token : SlStr)
    (kind : string) (operation : SlCapabilityOperation) (out_diag : nullable) : ST CheckSys SlPlanCapability :=
  return_if is_null diag_arena with SL_STATUS_INVALID_ARGUMENT ;;
  (if is_null out_diag then mret tt else modify (set_cs_diag zero_diag)) ;;
  m ← gets (fun s => w_mem (cs_world s)) ;
  match sl_capability_registry_find m registry token REF with
  | Err SL_STATUS_OUT_OF_RANGE =>
      sl_capability_denied diag_arena out_diag token (literal kind) operation sl_str_empty sl_str_empty
        "capability access denied: missing capability"
  | Err c => fail c
  | Ok capability =>
      if negb (sl_capability_kind_is m capability kind) then
        sl_capability_denied diag_arena out_diag token (cap_kind capability) operation (cap_access capability)
          (cap_provider capability) "capability access denied: wrong capability kind"
      else if negb (sl_capability_access_allows (sl_capability_access_from_plan m (cap_access capability)) operation) then
        sl_capability_denied diag_arena out_diag token (cap_kind capability) operation (cap_access capability)
          (cap_provider capability) "capability access denied: insufficient access"
      else mret capability
  end.

Definition sl_capability_check_database (registry : option SlCapabilityRegistry) (diag_arena : nullable) (token : SlStr)
    (operation : SlCapabilityOperation) (provider : SlStr) (out_diag : nullable) : ST CheckSys unit :=
  capability ← sl_capability_check_common registry diag_arena token "database" operation out_diag ;
  m ← gets (fun s => w_mem (cs_world s)) ;
  if negb (sl_str_is_empty (cap_provider capability)) && negb (sl_str_equal m (cap_provider capability) provider)
  then sl_capability_denied diag_arena out_diag token (cap_kind capability) operation (cap_access capability) provider
         "capability access denied: provider mismatch"
  else mret tt.

Definition sl_capability_check_database_provider (registry : option SlCapabilityRegistry) (diag_arena : nullable)
    (token : SlStr) (operation : SlCapabilityOperation) (provider_kind : SlStr) (out_diag : nullable)
    : ST CheckSys unit :=
  capability ← sl_capability_check_common registry diag_arena token "database" operation out_diag ;
  m ← gets (fun s => w_mem (cs_world s)) ;
  let allowed := match sl_capability_find_provider m registry (cap_provider capability) with
                 | Some provider => sl_str_equal m (dp_provider provider) provider_kind
                 | None => false
                 end in
  if negb allowed
  then sl_capability_denied diag_arena out_diag token (cap_kind capability) operation (cap_access capability)
         provider_kind "capability access denied: provider mismatch"
  else mret tt.

Definition sl_capability_check_filesystem (registry : option SlCapabilityRegistry) (diag_arena : nullable) (token : SlStr)
    (operation : SlCapabilityOperation) (out_diag : nullable) : ST CheckSys unit :=
  _ ← sl_capability_check_common registry diag_arena token "filesystem" operation out_diag ;
  mret tt.

Definition sl_capability_check_network (registry : option SlCapabilityRegistry) (diag_arena : nullable) (token : SlStr)
    (operation : SlCapabilityOperation) (out_diag : nullable) : ST CheckSys unit :=
  _ ← sl_capability_check_common registry diag_arena token "network" operation out_diag ;
  mret tt.
End Operations.

(** * What a plan grants *)

(** Membership in a fixed list of literals, by evaluation. *)
Ltac known_literal := apply (bool_decide_unpack _); vm_compute; exact I.

Section Meaning.
Context {BC : BuildConfig} {RO : ReadOnlyData}.
Implicit Types (m : mem).

Definition text (s : string) : list Z := string_bytes s.

(** The literals of the component. *)
Definition capability_literals : list string :=
  [ "sqlite"; "postgres"; "sqlserver"; "database"; "filesystem"; "network"; "queue"; "os"; "env"; "process"; "signals";
    "time"; "crypto"; "codec"; "workers"; "ffi"; "read"; "write"; "readwrite"; "append"; "delete"; "list"; "metadata";
    "watch"; "lock"; "connect"; "listen"; "connect-listen"; "enqueue"; "info"; "run"; "shell"; "signal"; "kill";
    "shutdown"; "use"; "unsupported"; "token: "; "kind: "; "operation: "; "actual access: "; "provider: ";
    "capability access denied: missing capability"; "capability access denied: wrong capability kind";
    "capability access denied: insufficient access"; "capability access denied: provider mismatch" ]%string.

Definition literals_at m : Prop :=
  Forall (fun l => str_valid (literal l) /\ str_val m (literal l) = text l) capability_literals.

(** The accesses a plan may give for each kind of capability. *)
Definition kind_accesses : list (string * list string) :=
  [ ("database", ["read"; "write"; "readwrite"]);
    ("filesystem", ["read"; "write"; "readwrite"; "append"; "delete"; "list"; "metadata"; "watch"; "lock"]);
    ("network", ["connect"; "listen"; "connect-listen"]); ("queue", ["enqueue"; "process"; "readwrite"]);
    ("os", ["info"]); ("env", ["read"; "list"]); ("process", ["run"; "shell"; "signal"; "kill"]);
    ("signals", ["shutdown"]); ("time", ["use"]); ("crypto", ["use"]); ("codec", ["use"]); ("workers", ["use"]);
    ("ffi", ["use"]) ]%string.

Definition provider_kinds : list string := [ "sqlite"; "postgres"; "sqlserver" ]%string.

(** The accesses that allow an operation. *)
Definition granting (operation : SlCapabilityOperation) : list string :=
  match operation with
  | SL_CAPABILITY_OPERATION_READ => ["read"; "readwrite"]
  | SL_CAPABILITY_OPERATION_WRITE => ["write"; "readwrite"]
  | SL_CAPABILITY_OPERATION_READWRITE => ["readwrite"]
  | SL_CAPABILITY_OPERATION_CONNECT => ["connect"; "connect-listen"]
  | SL_CAPABILITY_OPERATION_LISTEN => ["listen"; "connect-listen"]
  | SL_CAPABILITY_OPERATION_APPEND => ["append"; "write"; "readwrite"]
  | SL_CAPABILITY_OPERATION_DELETE => ["delete"; "write"; "readwrite"]
  | SL_CAPABILITY_OPERATION_LIST => ["list"; "read"; "readwrite"]
  | SL_CAPABILITY_OPERATION_METADATA => ["metadata"; "read"; "readwrite"]
  | SL_CAPABILITY_OPERATION_WATCH => ["watch"; "read"; "readwrite"]
  | SL_CAPABILITY_OPERATION_LOCK => ["lock"; "readwrite"]
  | OPERATION_OUTSIDE _ => []
  end%string.

Definition is_token_byte (b : Z) : Prop :=
  97 <= b <= 122 \/ 65 <= b <= 90 \/ 48 <= b <= 57 \/ b = 46 \/ b = 95 \/ b = 45.
Definition is_token (bytes : list Z) : Prop := bytes <> [] /\ Forall is_token_byte bytes.

Definition one_of (bytes : list Z) (names : list string) : Prop := bytes ∈ map text names.

(** The views of a plan are legal. *)
Definition capability_views (c : SlPlanCapability) : Prop :=
  str_valid (cap_token c) /\ str_valid (cap_kind c) /\ str_valid (cap_access c) /\ str_valid (cap_provider c).
Definition provider_views (p : SlPlanDataProvider) : Prop :=
  str_valid (dp_token p) /\ str_valid (dp_provider p) /\ str_valid (dp_capability p) /\ str_valid (dp_service p).

Definition capabilities_of (plan : SlPlan) : list SlPlanCapability :=
  visited (plan_capabilities plan) (plan_capability_count plan).
Definition providers_of (plan : SlPlan) : list SlPlanDataProvider :=
  visited (plan_data_providers plan) (plan_data_provider_count plan).

Definition plan_views (plan : SlPlan) : Prop :=
  Forall capability_views (capabilities_of plan) /\ Forall provider_views (providers_of plan).

(** A plan the registry accepts. *)
Record plan_accepted m (plan : SlPlan) : Prop := {
  pa_arrays : (0 < plan_data_provider_count plan -> is_Some (plan_data_providers plan)) /\
              (0 < plan_capability_count plan -> is_Some (plan_capabilities plan));
  pa_capability_tokens : NoDup (map (fun c => str_val m (cap_token c)) (capabilities_of plan));
  pa_provider_tokens : NoDup (map (fun p => str_val m (dp_token p)) (providers_of plan));
  pa_providers : forall p, p ∈ providers_of plan ->
    is_token (str_val m (dp_token p)) /\ one_of (str_val m (dp_provider p)) provider_kinds /\
    (str_val m (dp_service p) = [] \/ is_token (str_val m (dp_service p))) /\
    (str_val m (dp_capability p) = [] \/
     is_token (str_val m (dp_capability p)) /\
     exists c, c ∈ capabilities_of plan /\ str_val m (cap_token c) = str_val m (dp_capability p));
  pa_capabilities : forall c, c ∈ capabilities_of plan ->
    is_token (str_val m (cap_token c)) /\
    (exists kind accesses, (kind, accesses) ∈ kind_accesses /\ str_val m (cap_kind c) = text kind /\
                           one_of (str_val m (cap_access c)) accesses) /\
    if bool_decide (str_val m (cap_kind c) = text "database")
    then exists p, p ∈ providers_of plan /\ str_val m (dp_token p) = str_val m (cap_provider c)
    else str_val m (cap_provider c) = [];
}.

(** The plan grants [operation] on [token]. *)
Definition granted m (plan : SlPlan) (kind : string) (token : list Z) (operation : SlCapabilityOperation)
    (c : SlPlanCapability) : Prop :=
  c ∈ capabilities_of plan /\ str_val m (cap_token c) = token /\ str_val m (cap_kind c) = text kind /\
  one_of (str_val m (cap_access c)) (granting operation).

(** ** Comparisons with literals *)

Lemma literal_equal m v l :
  literals_at m -> str_valid v -> l ∈ capability_literals ->
  sl_str_equal m v (literal l) = bool_decide (str_val m v = text l).
Proof.
  intros Hl Hv Hin. unfold literals_at in Hl. rewrite Forall_forall in Hl. destruct (Hl l Hin) as [Hlv <-].
  by apply sl_str_equal_spec.
Qed.

Lemma empty_view m v : str_valid v -> sl_str_is_empty v = bool_decide (str_val m v = []).
Proof.
  intros [Hl _]. unfold sl_str_is_empty, str_val, load_bytes. destruct (Z.eqb_spec (str_length v) 0) as [->|Hne]; [done|].
  symmetry. apply bool_decide_eq_false. intros E. apply (f_equal length) in E. rewrite length_load in E. cbn in E. lia.
Qed.

Lemma token_syntax m v : str_valid v -> sl_capability_token_syntax_valid m v = true <-> is_token (str_val m v).
Proof.
  intros Hv. unfold sl_capability_token_syntax_valid, is_token. rewrite (empty_view m v Hv).
  case_bool_decide as E; [naive_solver|].
  rewrite (all_bytes_spec token_byte is_token_byte).
  { unfold str_val, load_bytes in *. naive_solver. }
  intros b _. unfold token_byte, is_token_byte. lia.
Qed.


Lemma one_of_cons bytes name names : one_of bytes (name :: names) <-> bytes = text name \/ one_of bytes names.
Proof. unfold one_of. cbn [map]. apply elem_of_cons. Qed.
Lemma one_of_nil bytes : one_of bytes [] <-> False.
Proof. unfold one_of. apply elem_of_nil. Qed.

Ltac names :=
  rewrite ?one_of_cons, ?one_of_nil, ?orb_true_iff, ?bool_decide_eq_true; tauto.

(** The accesses of a kind, by the order of the tests. *)
Definition accesses_for (kind : list Z) : list string :=
  default [] (snd <$> (snd <$> list_find (fun row => kind = text (fst row)) kind_accesses)).

(** Evaluate the comparisons of two literals. *)
Ltac literal_tests :=
  repeat match goal with
  | |- context [bool_decide (text ?a = text ?b)] =>
      let v := eval vm_compute in (bool_decide (text a = text b)) in
      replace (bool_decide (text a = text b)) with v by (vm_compute; reflexivity)
  | |- context [accesses_for (text ?a)] =>
      let v := eval vm_compute in (accesses_for (text a)) in
      replace (accesses_for (text a)) with v by (vm_compute; reflexivity)
  end.

Lemma provider_supported m v :
  literals_at m -> str_valid v -> sl_plan_provider_supported m v = true <-> one_of (str_val m v) provider_kinds.
Proof.
  intros Hl Hv. unfold sl_plan_provider_supported, provider_kinds.
  rewrite !(literal_equal m v) by (done || known_literal). names.
Qed.

Lemma accesses_for_spec kind access :
  one_of access (accesses_for kind) <->
  exists k accesses, (k, accesses) ∈ kind_accesses /\ kind = text k /\ one_of access accesses.
Proof.
  assert (Hnd : NoDup (map (fun row => text (fst row)) kind_accesses))
    by (apply (bool_decide_unpack _); vm_compute; exact I).
  unfold accesses_for. destruct (list_find _ kind_accesses) as [[i [k accs]]|] eqn:E; cbn [fmap option_fmap option_map snd default].
  - apply list_find_Some in E as (Hi & Hk & _). cbn [fst] in Hk. split.
    + intros Ha. exists k, accs. split; [by eapply list_elem_of_lookup_2|done].
    + intros (k' & accs' & Hin & Hk' & Ha). apply list_elem_of_lookup in Hin as [j Hj].
      assert (i = j) as <-.
      { eapply (NoDup_lookup _ i j (text k)); [done|..]; rewrite list_lookup_fmap.
        - by rewrite Hi.
        - rewrite Hj. cbn [fmap option_fmap option_map fst]. by rewrite <- Hk', Hk. }
      by simplify_eq.
  - apply list_find_None in E. rewrite one_of_nil. split; [done|]. intros (k & accs & Hin & Hk & _).
    rewrite Forall_forall in E. exact (E _ Hin Hk).
Qed.

Lemma kind_access_supported m kind access :
  literals_at m -> str_valid kind -> str_valid access ->
  sl_plan_capability_kind_supported m kind && sl_plan_capability_access_supported m kind access = true <->
  one_of (str_val m access) (accesses_for (str_val m kind)).
Proof.
  intros Hl Hk Ha. unfold sl_plan_capability_kind_supported, sl_plan_capability_access_supported.
  rewrite !(literal_equal m kind), !(literal_equal m access) by (done || known_literal).
  generalize (str_val m kind) (str_val m access). clear. intros K A.
  destruct (decide (K ∈ map (fun row => text (fst row)) kind_accesses)) as [Hin|Hout].
  - apply list_elem_of_fmap in Hin as ((k & accs) & -> & Hin).
    unfold kind_accesses in Hin. repeat (apply elem_of_cons in Hin as [[= -> ->]|Hin]); [..|by apply elem_of_nil in Hin];
      cbn [fst]; literal_tests; cbn [orb andb]; names.
  - assert (Hno : forall row, row ∈ kind_accesses -> K <> text (fst row)).
    { intros row Hrow ->. apply Hout. by apply (list_elem_of_fmap_2 (fun row => text (fst row))). }
    assert (E : accesses_for K = []).
    { unfold accesses_for. destruct (list_find _ kind_accesses) as [[i row]|] eqn:E; [|done].
      apply list_find_Some in E as (Hi & Hk & _). apply list_elem_of_lookup_2 in Hi. by destruct (Hno _ Hi). }
    rewrite E, one_of_nil.
    assert (Hk' : forall k accs, (k, accs) ∈ kind_accesses -> bool_decide (K = text k) = false).
    { intros k accs Hrow. apply bool_decide_eq_false. exact (Hno _ Hrow). }
    unfold kind_accesses in Hk'.
    repeat match type of Hk' with
    | forall k accs, (k, accs) ∈ (?k0, ?a0) :: ?rest -> _ =>
        rewrite (Hk' k0 a0 (list_elem_of_here _ _));
        assert (Hk'' : forall k accs, (k, accs) ∈ rest -> bool_decide (K = text k) = false)
          by (intros k accs Hr; exact (Hk' k accs (list_elem_of_further _ _ _ Hr))); clear Hk'; rename Hk'' into Hk'
    end.
    done.
Qed.

#[export] Instance one_of_dec bytes names : Decision (one_of bytes names).
Proof. unfold one_of. apply _. Defined.

Definition access_names : list string :=
  [ "read"; "write"; "readwrite"; "connect"; "listen"; "connect-listen"; "append"; "delete"; "list"; "metadata";
    "watch"; "lock" ]%string.

Lemma granting_names operation : granting operation ⊆ access_names.
Proof. destruct operation; apply (bool_decide_unpack _); vm_compute; exact I. Qed.

Lemma access_allows m v operation :
  literals_at m -> str_valid v ->
  sl_capability_access_allows (sl_capability_access_from_plan m v) operation =
  bool_decide (one_of (str_val m v) (granting operation)).
Proof.
  intros Hl Hv. unfold sl_capability_access_from_plan.
  rewrite !(literal_equal m v) by (done || known_literal). generalize (str_val m v). clear. intros A.
  destruct (decide (A ∈ map text access_names)) as [Hin|Hout].
  - apply list_elem_of_fmap in Hin as (a & -> & Hin). unfold access_names in Hin.
    repeat (apply elem_of_cons in Hin as [-> |Hin]); [..|by apply elem_of_nil in Hin];
      destruct operation; vm_compute; reflexivity.
  - assert (Hno : forall a, a ∈ access_names -> bool_decide (A = text a) = false).
    { intros a Ha. apply bool_decide_eq_false. intros ->. apply Hout. by apply list_elem_of_fmap_2. }
    rewrite !Hno by (apply (bool_decide_unpack _); vm_compute; exact I).
    transitivity false; [by destruct operation|]. symmetry. apply bool_decide_eq_false. intros Hin. apply Hout.
    apply list_elem_of_fmap in Hin as (a & -> & Hin). apply list_elem_of_fmap_2. exact (granting_names operation a Hin).
Qed.

(** ** Lookups *)

Lemma with_token_spec {A} (token_of : A -> SlStr) m items token :
  Forall (fun x => str_valid (token_of x)) items -> str_valid token ->
  match with_token token_of m items token with
  | Some x => x ∈ items /\ str_val m (token_of x) = str_val m token
  | None => forall x, x ∈ items -> str_val m (token_of x) <> str_val m token
  end.
Proof.
  intros Hv Ht. unfold with_token. rewrite Forall_forall in Hv.
  destruct (list_find _ items) as [[i x]|] eqn:E; cbn [fmap option_fmap option_map snd].
  - apply list_find_Some in E as (Hi & He & _). apply list_elem_of_lookup_2 in Hi. split; [done|].
    rewrite sl_str_equal_spec in He by auto. by apply bool_decide_eq_true in He.
  - apply list_find_None in E. rewrite Forall_forall in E. intros x Hx He. apply (E x Hx).
    rewrite sl_str_equal_spec by auto. by apply bool_decide_eq_true.
Qed.

(** With distinct tokens there is one answer. *)
Lemma with_token_unique {A} (token_of : A -> SlStr) m items token x :
  Forall (fun x => str_valid (token_of x)) items -> str_valid token ->
  NoDup (map (fun x => str_val m (token_of x)) items) ->
  x ∈ items -> str_val m (token_of x) = str_val m token -> with_token token_of m items token = Some x.
Proof.
  intros Hv Ht Hnd Hx He. pose proof (with_token_spec token_of m items token Hv Ht) as H.
  destruct (with_token token_of m items token) as [y|]; [|by destruct (H x Hx)].
  destruct H as [Hy Hey]. f_equal. apply list_elem_of_lookup in Hx as [i Hi], Hy as [j Hj].
  assert (i = j) as <-; [|congruence].
  eapply (NoDup_lookup _ i j (str_val m token)); [done|..]; rewrite list_lookup_fmap; [rewrite Hi|rewrite Hj];
    cbn [fmap option_fmap option_map]; by f_equal.
Qed.

Lemma duplicate_tokens_spec m tokens :
  Forall str_valid tokens -> duplicate_tokens m tokens = false <-> NoDup (map (str_val m) tokens).
Proof.
  induction 1 as [|t tokens Ht Hv IH]; cbn [duplicate_tokens map]; [split; [constructor|done]|].
  rewrite NoDup_cons, <- IH, orb_false_iff.
  assert (Hex : existsb (fun other => sl_str_equal m t other) tokens = false <-> str_val m t ∉ map (str_val m) tokens).
  { rewrite <- not_true_iff_false, existsb_exists, list_elem_of_fmap. rewrite Forall_forall in Hv.
    apply not_iff_compat. split.
    - intros (o & Hin & He). apply list_elem_of_In in Hin. rewrite sl_str_equal_spec in He by auto.
      apply bool_decide_eq_true in He. by exists o.
    - intros (o & He & Hin). exists o. split; [by apply list_elem_of_In|]. rewrite sl_str_equal_spec by auto.
      by apply bool_decide_eq_true. }
  by rewrite Hex.
Qed.

(** ** Shapes *)

Lemma capability_shape m c :
  literals_at m -> capability_views c ->
  sl_capability_shape_valid m c = true <->
  is_token (str_val m (cap_token c)) /\
  one_of (str_val m (cap_access c)) (accesses_for (str_val m (cap_kind c))) /\
  (str_val m (cap_kind c) = text "database" <-> str_val m (cap_provider c) <> []).
Proof.
  intros Hl (V1 & V2 & V3 & V4). unfold sl_capability_shape_valid, sl_capability_kind_is.
  rewrite <- token_syntax, <- kind_access_supported by done.
  rewrite (literal_equal m (cap_kind c)) by (done || known_literal). rewrite !(empty_view m) by done.
  assert (Hk : str_val m (cap_kind c) = [] -> sl_plan_capability_kind_supported m (cap_kind c) = false).
  { intros E. unfold sl_plan_capability_kind_supported. rewrite !(literal_equal m (cap_kind c)) by (done || known_literal).
    by rewrite E. }
  assert (Ha : str_val m (cap_access c) = [] -> sl_plan_capability_access_supported m (cap_kind c) (cap_access c) = false).
  { intros E. unfold sl_plan_capability_access_supported.
    rewrite !(literal_equal m (cap_access c)) by (done || known_literal). rewrite E. literal_tests.
    repeat (match goal with |- (if ?b then _ else _) = false => destruct b end; [done|]). done. }
  destruct (sl_capability_token_syntax_valid m (cap_token c)); cbn [negb orb]; [|naive_solver].
  case_bool_decide as E1; cbn [orb]; [rewrite (Hk E1); naive_solver|].
  case_bool_decide as E2; cbn [orb]; [rewrite (Ha E2), andb_false_r; naive_solver|].
  destruct (sl_plan_capability_kind_supported m (cap_kind c)); cbn [negb orb andb]; [|naive_solver].
  destruct (sl_plan_capability_access_supported m (cap_kind c) (cap_access c)); cbn [negb]; [|naive_solver].
  case_bool_decide as E3; case_bool_decide as E4; cbn; naive_solver.
Qed.

Lemma provider_shape m p :
  literals_at m -> provider_views p ->
  sl_capability_provider_shape_valid m p = true <->
  is_token (str_val m (dp_token p)) /\ one_of (str_val m (dp_provider p)) provider_kinds /\
  (str_val m (dp_service p) = [] \/ is_token (str_val m (dp_service p))) /\
  (str_val m (dp_capability p) = [] \/ is_token (str_val m (dp_capability p))).
Proof.
  intros Hl (V1 & V2 & V3 & V4). unfold sl_capability_provider_shape_valid.
  rewrite <- !token_syntax, <- provider_supported by done. rewrite !(empty_view m) by done.
  assert (Hp : str_val m (dp_provider p) = [] -> sl_plan_provider_supported m (dp_provider p) = false).
  { intros E. unfold sl_plan_provider_supported. rewrite !(literal_equal m) by (done || known_literal). by rewrite E. }
  destruct (sl_capability_token_syntax_valid m (dp_token p)); cbn [negb orb]; [|naive_solver].
  case_bool_decide as E1; cbn [orb]; [rewrite (Hp E1); naive_solver|].
  destruct (sl_plan_provider_supported m (dp_provider p)); cbn [negb]; [|naive_solver].
  case_bool_decide as E2; case_bool_decide as E3; cbn [negb andb];
    destruct (sl_capability_token_syntax_valid m (dp_service p)), (sl_capability_token_syntax_valid m (dp_capability p));
    cbn; naive_solver.
Qed.

Lemma array_missing_spec {A} (items : option (list A)) count :
  array_missing items count = false <-> (0 < count -> is_Some items).
Proof.
  unfold array_missing. destruct (Z.ltb_spec 0 count); cbn [andb]; [|split; [lia|done]].
  case_bool_decide; cbn; naive_solver.
Qed.

Lemma has_token {A} (token_of : A -> SlStr) m items token :
  Forall (fun x => str_valid (token_of x)) items -> str_valid token ->
  bool_decide (is_Some (with_token token_of m items token)) = true <->
  exists x, x ∈ items /\ str_val m (token_of x) = str_val m token.
Proof.
  intros Hv Ht. rewrite bool_decide_eq_true. pose proof (with_token_spec token_of m items token Hv Ht) as H.
  destruct (with_token token_of m items token) as [x|].
  - split; [by exists x|by eexists].
  - split; [by intros []|]. intros (x & Hx & He). by destruct (H x Hx).
Qed.

Lemma is_token_nonempty bytes : is_token bytes -> bytes <> [].
Proof. by intros []. Qed.

(** The guards of the duplicate tests do not change their answer. *)
Lemma duplicate_guard {A} (token_of : A -> SlStr) m (items : option (list A)) count :
  Forall (fun x => str_valid (token_of x)) (visited items count) ->
  (if negb (bool_decide (is_Some items)) || (count <? 2) then false
   else duplicate_tokens m (map token_of (visited items count))) = false <->
  NoDup (map (fun x => str_val m (token_of x)) (visited items count)).
Proof.
  intros Hv.
  replace (map (fun x => str_val m (token_of x)) (visited items count))
    with (map (str_val m) (map token_of (visited items count))) by apply map_map.
  rewrite <- duplicate_tokens_spec by (by apply Forall_map).
  destruct items as [items|]; cbn [negb bool_decide orb].
  - change (bool_decide (is_Some (Some items))) with true. cbn [negb orb].
    destruct (Z.ltb_spec count 2); [|done]. split; [intros _|done].
    assert (Hlen : (length (visited (Some items) count) < 2)%nat).
    { unfold visited. rewrite length_take. lia. }
    by destruct (visited (Some items) count) as [|x [|y l]]; cbn in Hlen |- *; try lia.
  - change (bool_decide (is_Some None)) with false. unfold visited. cbn. by rewrite take_nil.
Qed.

Lemma forallb_elem {A} (f : A -> bool) items : forallb f items = true <-> forall x, x ∈ items -> f x = true.
Proof. rewrite forallb_forall. by setoid_rewrite list_elem_of_In. Qed.

Definition registry_of (plan : SlPlan) : SlCapabilityRegistry :=
  {| cr_data_providers := plan_data_providers plan; cr_data_provider_count := plan_data_provider_count plan;
     cr_capabilities := plan_capabilities plan; cr_capability_count := plan_capability_count plan |}.

Lemma provider_loop_test m plan p :
  literals_at m -> plan_views plan -> array_missing (plan_capabilities plan) (plan_capability_count plan) = false ->
  p ∈ providers_of plan ->
  provider_ok m plan p = true <->
  is_token (str_val m (dp_token p)) /\ one_of (str_val m (dp_provider p)) provider_kinds /\
  (str_val m (dp_service p) = [] \/ is_token (str_val m (dp_service p))) /\
  (str_val m (dp_capability p) = [] \/
   is_token (str_val m (dp_capability p)) /\
   exists c, c ∈ capabilities_of plan /\ str_val m (cap_token c) = str_val m (dp_capability p)).
Proof.
  intros Hl [Hcv Hpv] Harr Hp. rewrite Forall_forall in Hpv. pose proof (Hpv p Hp) as Hv.
  assert (Ht : Forall (fun c => str_valid (cap_token c)) (capabilities_of plan)).
  { eapply Forall_impl; [exact Hcv|]. by intros c []. }
  unfold provider_ok, sl_capability_plan_has_capability. rewrite Harr, andb_true_iff, provider_shape by done.
  destruct Hv as (V1 & V2 & V3 & V4). rewrite !(empty_view m (dp_capability p)) by done.
  pose proof (has_token cap_token m (capabilities_of plan) (dp_capability p) Ht V3) as Hh. unfold capabilities_of in *.
  destruct (bool_decide_reflect (str_val m (dp_capability p) = [])) as [E|E]; cbn [orb negb andb].
  - clear -E. intuition done.
  - rewrite negb_involutive, Hh. clear -E. tauto.
Qed.

Lemma capability_loop_test m plan c :
  literals_at m -> plan_views plan -> array_missing (plan_data_providers plan) (plan_data_provider_count plan) = false ->
  c ∈ capabilities_of plan ->
  capability_ok m plan c = true <->
  is_token (str_val m (cap_token c)) /\
  (exists kind accesses, (kind, accesses) ∈ kind_accesses /\ str_val m (cap_kind c) = text kind /\
                         one_of (str_val m (cap_access c)) accesses) /\
  if bool_decide (str_val m (cap_kind c) = text "database")
  then exists p, p ∈ providers_of plan /\ str_val m (dp_token p) = str_val m (cap_provider c) /\
                 str_val m (cap_provider c) <> []
  else str_val m (cap_provider c) = [].
Proof.
  intros Hl [Hcv Hpv] Harr Hc. rewrite Forall_forall in Hcv. pose proof (Hcv c Hc) as Hv.
  assert (Ht : Forall (fun p => str_valid (dp_token p)) (providers_of plan)).
  { eapply Forall_impl; [exact Hpv|]. by intros p []. }
  unfold capability_ok, sl_capability_plan_has_provider, sl_capability_kind_is.
  rewrite Harr, andb_true_iff, capability_shape, accesses_for_spec by done.
  destruct Hv as (V1 & V2 & V3 & V4). rewrite (literal_equal m (cap_kind c)) by (done || known_literal).
  rewrite !(empty_view m (cap_provider c)) by done.
  pose proof (has_token dp_token m (providers_of plan) (cap_provider c) Ht V4) as Hh. unfold providers_of in *.
  destruct (bool_decide_reflect (str_val m (cap_kind c) = text "database")) as [E|E]; cbn [andb negb].
  - destruct (bool_decide_reflect (str_val m (cap_provider c) = [])) as [E2|E2]; cbn [orb negb andb].
    + clear -E E2. split; [tauto|]. intros (_ & _ & p & _ & _ & Hne). tauto.
    + rewrite negb_involutive, Hh. clear -E E2. split.
      * intros ((H1 & H2 & _) & p & Hp & Ep). split_and!; [done|done|]. by exists p.
      * intros (H1 & H2 & p & Hp & Ep & _). split; [|by exists p]. split_and!; tauto.
  - clear -E. destruct (decide (str_val m (cap_provider c) = [])); tauto.
Qed.

Lemma registry_init_cases m plan :
  literals_at m -> plan_views plan ->
  (plan_accepted m plan /\
   sl_capability_registry_init_from_plan m (Some plan) REF = (SL_STATUS_OK, Some (registry_of plan))) \/
  (~ plan_accepted m plan /\
   sl_capability_registry_init_from_plan m (Some plan) REF = (SL_STATUS_INVALID_ARGUMENT, Some empty_registry)).
Proof.
  intros Hl Hv. pose proof Hv as [Hcv Hpv].
  assert (Hct : Forall (fun c => str_valid (cap_token c)) (capabilities_of plan)).
  { eapply Forall_impl; [exact Hcv|]. by intros c []. }
  assert (Hpt : Forall (fun p => str_valid (dp_token p)) (providers_of plan)).
  { eapply Forall_impl; [exact Hpv|]. by intros p []. }
  unfold sl_capability_registry_init_from_plan, sl_plan_has_duplicate_capability_tokens,
    sl_plan_has_duplicate_data_provider_tokens. cbn [is_null].
  destruct (array_missing (plan_data_providers plan) _) eqn:E1; cbn [orb].
  { right. split; [|done]. intros [[A1 _] _ _ _ _]. apply array_missing_spec in A1. congruence. }
  destruct (array_missing (plan_capabilities plan) _) eqn:E2.
  { right. split; [|done]. intros [[_ A2] _ _ _ _]. apply array_missing_spec in A2. congruence. }
  match goal with |- context [if ?b then false else duplicate_tokens m (map dp_token ?l)] =>
    destruct (if b then false else duplicate_tokens m (map dp_token l)) eqn:E3 end.
  { right. split; [|done]. intros [_ _ A3 _ _]. apply (duplicate_guard dp_token m _ _ Hpt) in A3. congruence. }
  match goal with |- context [if ?b then false else duplicate_tokens m (map cap_token ?l)] =>
    destruct (if b then false else duplicate_tokens m (map cap_token l)) eqn:E4 end.
  { right. split; [|done]. intros [_ A4 _ _ _]. apply (duplicate_guard cap_token m _ _ Hct) in A4. congruence. }
  apply (duplicate_guard dp_token m _ _ Hpt) in E3. apply (duplicate_guard cap_token m _ _ Hct) in E4.
  destruct (forallb (provider_ok m plan) _) eqn:E5; cbn [negb].
  2:{ right. split; [|done]. intros [_ _ _ A5 _]. apply not_true_iff_false in E5. apply E5, forallb_elem. intros p Hp.
      by apply provider_loop_test, A5. }
  destruct (forallb (capability_ok m plan) _) eqn:E6; cbn [negb].
  2:{ right. split; [|done]. intros [_ _ _ A5 A6]. apply not_true_iff_false in E6. apply E6, forallb_elem. intros c Hc.
      apply capability_loop_test; try done. destruct (A6 c Hc) as (H1 & H2 & H3). split_and!; [done|done|].
      case_bool_decide; [|done]. destruct H3 as (p & Hp & Ep). exists p. split_and!; [done|done|].
      rewrite <- Ep. by apply is_token_nonempty, A5. }
  left. split; [|done]. rewrite forallb_elem in E5. rewrite forallb_elem in E6.
  split; [by split; apply array_missing_spec|done|done| |].
  - intros p Hp. by apply provider_loop_test, E5.
  - intros c Hc. destruct (proj1 (capability_loop_test m plan c Hl Hv E1 Hc) (E6 c Hc)) as (H1 & H2 & H3).
    split_and!; [done|done|]. case_bool_decide; [|done]. destruct H3 as (p & Hp & Ep & _). by exists p.
Qed.

(** ** Checks *)

Context (scratch : Z).

Lemma bind_fails {S A B} (c : ST S A) (f : A -> ST S B) s :
  (forall a s', exists e s'', f a s' = (Err e, s'')) -> exists e s'', (c ≫= f) s = (Err e, s'').
Proof. intros Hf. unfold_st. destruct (c s) as [[a|e] s']; [apply Hf|by eexists _, _]. Qed.

(** A denial never lets the caller through. *)
Lemma denied_fails {A} arena out_diag token kind operation access provider message s :
  exists e s', @sl_capability_denied _ _ scratch A arena out_diag token kind operation access provider message s = (Err e, s').
Proof.
  unfold sl_capability_denied. destruct (is_null out_diag); [by eexists _, _|].
  do 7 (apply bind_fails; intros ? ?). apply bind_fails. intros ? ?. by eexists _, _.
Qed.

Lemma find_accepted m plan token :
  plan_accepted m plan -> plan_views plan -> str_valid token ->
  match sl_capability_registry_find m (Some (registry_of plan)) token REF with
  | Ok c => c ∈ capabilities_of plan /\ str_val m (cap_token c) = str_val m token
  | Err _ => forall c, c ∈ capabilities_of plan -> str_val m (cap_token c) <> str_val m token
  end.
Proof.
  intros [[_ A1] _ _ _ A5] [Hcv _] Ht. unfold sl_capability_registry_find. cbn [is_null registry_of cr_capabilities cr_capability_count].
  assert (Hct : Forall (fun c => str_valid (cap_token c)) (capabilities_of plan)).
  { eapply Forall_impl; [exact Hcv|]. by intros c []. }
  apply array_missing_spec in A1. rewrite A1, (empty_view m token Ht).
  case_bool_decide as E; cbn [orb].
  { intros c Hc. rewrite E. by apply is_token_nonempty, A5. }
  pose proof (with_token_spec cap_token m (capabilities_of plan) token Hct Ht) as Hw. unfold capabilities_of in *.
  by destruct (with_token cap_token m _ token).
Qed.

(** Distinct tokens: one capability for each. *)
Lemma same_token m plan c c' :
  plan_accepted m plan -> c ∈ capabilities_of plan -> c' ∈ capabilities_of plan ->
  str_val m (cap_token c) = str_val m (cap_token c') -> c = c'.
Proof.
  intros [_ A2 _ _ _] Hc Hc' E. apply list_elem_of_lookup in Hc as [i Hi], Hc' as [j Hj].
  assert (i = j) as <-; [|congruence].
  eapply (NoDup_lookup _ i j (str_val m (cap_token c))); [done|..]; rewrite list_lookup_fmap; [by rewrite Hi|rewrite Hj].
  cbn [fmap option_fmap option_map]. by rewrite E.
Qed.

(** Replace a denial by its error. *)
Ltac case_denied :=
  match goal with
  | |- context [@sl_capability_denied ?bc ?ro ?sc ?A ?a ?o ?t ?k ?op ?ac ?p ?msg ?s] =>
      let E := fresh in
      destruct (@denied_fails A a o t k op ac p msg s) as (? & ? & E); rewrite E; clear E
  end.

Lemma check_common_exact plan token kind operation out_diag s :
  let m := w_mem (cs_world s) in
  literals_at m -> plan_views plan -> plan_accepted m plan -> str_valid token -> kind ∈ capability_literals ->
  match sl_capability_check_common scratch (Some (registry_of plan)) REF token kind operation out_diag s with
  | (Ok c, s') => granted m plan kind (str_val m token) operation c /\ cs_world s' = cs_world s
  | (Err _, _) => forall c, ~ granted m plan kind (str_val m token) operation c
  end.
Proof.
  intros m Hl Hv Ha Ht Hk. pose proof (find_accepted m plan token Ha Hv Ht) as Hf.
  pose proof Hv as [Hcv _]. rewrite Forall_forall in Hcv.
  unfold sl_capability_check_common. cbn [is_null].
  destruct out_diag; unfold_st; cbn [is_null cs_world set_cs_diag]; fold m;
    (destruct (sl_capability_registry_find m _ token REF) as [c|e];
     [|destruct e; try (intros c (Hc & Et & _); exact (Hf c Hc Et)); case_denied; intros c (Hc & Et & _); exact (Hf c Hc Et)]);
    destruct Hf as [Hc Et]; destruct (Hcv c Hc) as (_ & V2 & V3 & _); unfold sl_capability_kind_is;
    rewrite (literal_equal m (cap_kind c)), access_allows by done;
    (case_bool_decide as Ek; cbn [negb];
     [|case_denied; intros c' (Hc' & Et' & Ek' & _); rewrite (same_token m plan c' c) in Ek' by (done || congruence); done]);
    (case_bool_decide as Eg; cbn [negb];
     [by split|case_denied; intros c' (Hc' & Et' & _ & Eg'); rewrite (same_token m plan c' c) in Eg' by (done || congruence); done]).
Qed.

(** C14: the registry accepts exactly the well-formed plans: distinct token names of
    legal syntax, provider kinds the runtime has, for each capability a kind with an
    access that kind may have, a provider for databases and for nothing else, and
    references that resolve.  An accepted plan is the registry; a refused one leaves
    an empty registry. *)
Theorem capability_registry_exact m plan :
  literals_at m -> plan_views plan ->
  (plan_accepted m plan /\
   sl_capability_registry_init_from_plan m (Some plan) REF = (SL_STATUS_OK, Some (registry_of plan))) \/
  (~ plan_accepted m plan /\
   sl_capability_registry_init_from_plan m (Some plan) REF = (SL_STATUS_INVALID_ARGUMENT, Some empty_registry)).
Proof. apply registry_init_cases. Qed.

Lemma check_plain_exact plan token kind operation out_diag s :
  let m := w_mem (cs_world s) in
  literals_at m -> plan_views plan -> plan_accepted m plan -> str_valid token -> kind ∈ capability_literals ->
  fst ((sl_capability_check_common scratch (Some (registry_of plan)) REF token kind operation out_diag ≫=
        fun _ => mret tt) s) = Ok tt <->
  exists c, granted m plan kind (str_val m token) operation c.
Proof.
  intros m Hl Hv Ha Ht Hk. pose proof (check_common_exact plan token kind operation out_diag s Hl Hv Ha Ht Hk) as H.
  unfold_st. destruct (sl_capability_check_common _ _ _ _ _ _ _ s) as [[c|e] s']; cbn [fst].
  - split; [|done]. intros _. exists c. apply H.
  - split; [done|]. intros [c Hc]. by destruct (H c).
Qed.

Lemma granted_unique m plan kind token operation c c' :
  plan_accepted m plan -> granted m plan kind token operation c -> granted m plan kind token operation c' -> c = c'.
Proof. intros Ha (Hc & E & _) (Hc' & E' & _). eapply same_token; [done..|congruence]. Qed.

(** Databases have a provider, and its token names one provider of the plan. *)
Lemma database_provider m plan token operation c provider :
  literals_at m -> plan_views plan -> plan_accepted m plan -> granted m plan "database" token operation c ->
  str_val m (cap_provider c) <> [] /\
  (sl_capability_find_provider m (Some (registry_of plan)) (cap_provider c) = Some provider <->
   provider ∈ providers_of plan /\ str_val m (dp_token provider) = str_val m (cap_provider c)).
Proof.
  intros Hl [Hcv Hpv] [[A1 _] _ A3 A4 A5] (Hc & _ & Ek & _). destruct (A5 c Hc) as (_ & _ & H).
  rewrite (bool_decide_eq_true_2 _ Ek) in H. destruct H as (p & Hp & Ep).
  assert (Hne : str_val m (cap_provider c) <> []) by (rewrite <- Ep; by apply is_token_nonempty, A4).
  split; [done|]. rewrite Forall_forall in Hcv. destruct (Hcv c Hc) as (_ & _ & _ & V4).
  assert (Hpt : Forall (fun p => str_valid (dp_token p)) (providers_of plan)).
  { eapply Forall_impl; [exact Hpv|]. by intros p' []. }
  unfold sl_capability_find_provider. cbn [mbind option_bind registry_of cr_data_providers cr_data_provider_count].
  apply array_missing_spec in A1. rewrite A1, (empty_view m _ V4), (bool_decide_eq_false_2 _ Hne). cbn [orb].
  fold (providers_of plan). split.
  - intros E. pose proof (with_token_spec dp_token m (providers_of plan) (cap_provider c) Hpt V4) as H. by rewrite E in H.
  - intros [Hp' Ep']. by apply with_token_unique.
Qed.

(** C13: a capability check lets an operation through exactly when the plan grants it.
    For a registry made from a plan, the file system and network checks succeed if and
    only if the plan has a capability of that kind and token whose access allows the
    operation; the database checks also need the named provider, or a provider of the
    given kind, behind the capability.  In every other case the check fails. *)
Theorem capability_checks_exact plan registry token provider operation out_diag s :
  let m := w_mem (cs_world s) in
  literals_at m -> plan_views plan -> str_valid token -> str_valid provider ->
  sl_capability_registry_init_from_plan m (Some plan) REF = (SL_STATUS_OK, Some registry) ->
  (fst (sl_capability_check_filesystem scratch (Some registry) REF token operation out_diag s) = Ok tt <->
   exists c, granted m plan "filesystem" (str_val m token) operation c) /\
  (fst (sl_capability_check_network scratch (Some registry) REF token operation out_diag s) = Ok tt <->
   exists c, granted m plan "network" (str_val m token) operation c) /\
  (fst (sl_capability_check_database scratch (Some registry) REF token operation provider out_diag s) = Ok tt <->
   exists c, granted m plan "database" (str_val m token) operation c /\
             str_val m (cap_provider c) = str_val m provider) /\
  (fst (sl_capability_check_database_provider scratch (Some registry) REF token operation provider out_diag s) = Ok tt <->
   exists c p, granted m plan "database" (str_val m token) operation c /\ p ∈ providers_of plan /\
               str_val m (dp_token p) = str_val m (cap_provider c) /\ str_val m (dp_provider p) = str_val m provider).
Proof.
  intros m Hl Hv Ht Hp Hinit.
  destruct (registry_init_cases m plan Hl Hv) as [[Ha E]|[_ E]]; rewrite E in Hinit; [|done]. injection Hinit as <-.
  split; [apply check_plain_exact; (done || known_literal)|].
  split; [apply check_plain_exact; (done || known_literal)|].
  pose proof (check_common_exact plan token "database" operation out_diag s Hl Hv Ha Ht ltac:(known_literal)) as Hc.
  pose proof Hv as [Hcv Hpv]. rewrite Forall_forall in Hcv. rewrite Forall_forall in Hpv.
  unfold sl_capability_check_database, sl_capability_check_database_provider. unfold_st.
  destruct (sl_capability_check_common _ _ _ _ _ _ _ s) as [[c|e] s']; cbn [fst].
  2:{ split; (split; [done|]); [intros (c & Hg & _)|intros (c & p & Hg & _)]; by destruct (Hc c). }
  destruct Hc as [Hg Ew]. rewrite Ew. fold m. pose proof Hg as (Hin & _). destruct (Hcv c Hin) as (_ & _ & _ & V4).
  assert (Hone : forall c', granted m plan "database" (str_val m token) operation c' -> c' = c).
  { intros c' Hg'. by eapply granted_unique. }
  assert (Hne : str_val m (cap_provider c) <> []).
  { by eapply (database_provider m plan _ operation c {| dp_token := token; dp_provider := token; dp_capability := token;
                 dp_service := token; dp_database := token |}). }
  split.
  - rewrite (empty_view m _ V4), (bool_decide_eq_false_2 _ Hne), sl_str_equal_spec by done. cbn [negb andb].
    case_bool_decide as Eq; cbn [negb fst].
    + split; [|done]. intros _. by exists c.
    + case_denied. split; [done|]. intros (c' & Hg' & E'). by rewrite (Hone c' Hg') in E'.
  - pose proof (fun p => proj2 (database_provider m plan _ operation c p Hl Hv Ha Hg)) as Hfind.
    assert (Hallowed : (match sl_capability_find_provider m (Some (registry_of plan)) (cap_provider c) with
                        | Some p => sl_str_equal m (dp_provider p) provider | None => false end) = true <->
      exists c p, granted m plan "database" (str_val m token) operation c /\ p ∈ providers_of plan /\
        str_val m (dp_token p) = str_val m (cap_provider c) /\ str_val m (dp_provider p) = str_val m provider).
    { split.
      - destruct (sl_capability_find_provider m _ _) as [p|] eqn:Ef; [|done].
        destruct (proj1 (Hfind p) eq_refl) as [Hin' Et]. destruct (Hpv p Hin') as (_ & V2 & _).
        rewrite sl_str_equal_spec by done. intros Eq%bool_decide_eq_true. by exists c, p.
      - intros (c' & p & Hg' & Hin' & Et & Eq). rewrite (Hone c' Hg') in Et.
        rewrite (proj2 (Hfind p) (conj Hin' Et)). destruct (Hpv p Hin') as (_ & V2 & _).
        rewrite sl_str_equal_spec by done. by apply bool_decide_eq_true. }
    rewrite <- Hallowed. destruct (match sl_capability_find_provider _ _ _ with Some _ => _ | None => _ end); cbn [negb].
    + done.
    + case_denied. done.
Qed.
End Meaning.
