(* ===== verification/CapabilityReport.v ===== *)
(** What a refused capability check reports: a permission diagnostic whose hints are
    exactly the request and the capability, in storage of the caller's arena. *)

From stdpp Require Import strings.
From S2P Require Import Prelude Memory Status Arena Str Bytes Simd StrArena Container Sink Builder Diag RouteMatch RouteParse Capability.

Open Scope Z_scope.

Section Report.
Context {BC : BuildConfig} {RO : ReadOnlyData} (scratch : Z).
Implicit Types (w : World).

Definition off_scratch (q n : Z) : Prop := disjoint_ranges q n scratch SL_BYTE_BUILDER_SMALL_CAPACITY.

(** The arena is sound and the local builder's storage is not part of its free space. *)
Definition ready w : Prop :=
  arena_wf (w_arena w) /\ outside_free (w_arena w) scratch SL_BYTE_BUILDER_SMALL_CAPACITY.

(** Everything but the local builder keeps its bytes. *)
Definition spares w w' : Prop :=
  ready w' /\
  forall q n, outside_free (w_arena w) q n -> off_scratch q n ->
    load_bytes (w_mem w') q n = load_bytes (w_mem w) q n /\ outside_free (w_arena w') q n.

Definition safe_view w (v : SlStr) (bytes : list Z) : Prop :=
  kept_view w v bytes /\ str_wf v /\ off_scratch (str_ptr v) (str_length v).

Lemma spares_refl w : ready w -> spares w w.
Proof. by split. Qed.

Lemma spares_trans w1 w2 w3 : spares w1 w2 -> spares w2 w3 -> spares w1 w3.
Proof.
  intros [_ H1] [Hr H2]. split; [done|]. intros q n Ho Hs. destruct (H1 q n Ho Hs) as [E1 Ho2].
  destruct (H2 q n Ho2 Hs) as [E2 Ho3]. by rewrite E2.
Qed.

Lemma safe_view_spares w w' v bytes : spares w w' -> safe_view w v bytes -> safe_view w' v bytes.
Proof.
  intros [_ H] ((Hv & Hs & Ho & Hb) & Hwf & Hd). destruct (H _ _ Ho Hd) as [E Ho']. split; [|done].
  split_and!; [done|done|done|]. rewrite <- Hb. exact E.
Qed.

Lemma safe_views_spares w w' views texts :
  spares w w' -> Forall2 (safe_view w) views texts -> Forall2 (safe_view w') views texts.
Proof. intros H Hf. eapply Forall2_impl; [exact Hf|]. intros v b. by apply safe_view_spares. Qed.

(** A block just allocated leaves the local builder and the caller's views alone. *)
Lemma fresh_spares p n w w' : ready w -> fresh_block p n w w' -> spares w w' /\ off_scratch p n.
Proof.
  intros [Hwf Hs] [F1 F2 F3 F4 F5 F6]. destruct (F6 _ _ Hs) as (D & _ & Ho). split; [|done].
  split; [by split|]. intros q k Hq _. by destruct (F6 q k Hq) as (_ & ? & ?).
Qed.

(** The builder of a hint: room for [n] bytes from the arena. *)
Lemma hint_builder n w :
  ready w -> 0 < n <= SIZE_MAX ->
  match sl_string_builder_init_arena REF REF n n {| bs_world := w; bs_builder := local_builder scratch |} with
  | (Ok _, s) =>
      builder_wf s /\ bb_storage (bs_builder s) = SL_BUILDER_STORAGE_ARENA /\ bb_length (bs_builder s) = 0 /\
      bb_capacity (bs_builder s) = n /\ 0 < sl_byte_builder_data (bs_builder s) /\
      off_scratch (sl_byte_builder_data (bs_builder s)) n /\
      outside_free (w_arena (bs_world s)) scratch SL_BYTE_BUILDER_SMALL_CAPACITY /\
      forall q k, outside_free (w_arena w) q k ->
        foreign s q k /\ (off_scratch q k -> load_bytes (bs_mem s) q k = load_bytes (w_mem w) q k)
  | (Err e, s) => bs_world s = w /\ exhausted e
  end.
Proof.
  intros Hr Hn. pose proof Hr as [Hwf Hs]. unfold sl_string_builder_init_arena, sl_byte_builder_init_arena, in_arena, zoom, publish_builder. unfold_st.
  cbn [is_null orb]. destruct (Z.ltb_spec n n); [lia|]. destruct (Z.eqb_spec n 0); [lia|]. cbn [negb bs_world].
  destruct (sl_arena_alloc REF n 1 REF w) as [[p|e] w1] eqn:E.
  2:{ apply alloc_exhausted in E as [-> He]; [|done|size_lia|lia|size_lia|done]. by split. }
  apply sl_arena_alloc_fresh in E as [_ F]; [|done|size_lia|size_lia].
  destruct (fresh_spares p n w w1 Hr F) as [[[_ Hs1] Hsp] Hoff]. destruct F as [F1 F2 F3 F4 F5 F6].
  split.
  { split; try done; [cbn; lia|change (sl_byte_builder_data _) with p; cbn; lia|intros _; exact F4]. }
  split_and!; try done. intros q k Hq. destruct (F6 q k Hq) as (Hd & El & Ho). split.
  - split; [by intros _|]. cbn. unfold disjoint_ranges in *. change (sl_byte_builder_data _) with p. lia.
  - intros Hoffq. destruct (Hsp q k Hq Hoffq) as [Hl _]. rewrite <- Hl.
    eapply load_bytes_same; [apply fill_same_outside|]. unfold off_scratch, disjoint_ranges in *. cbn in *. lia.
Qed.

(** One append of a caller's view to the hint. *)
Lemma hint_append v bytes s :
  builder_wf s -> bb_storage (bs_builder s) = SL_BUILDER_STORAGE_ARENA -> str_valid v -> str_wf v ->
  foreign s (str_ptr v) (str_length v) -> str_val (bs_mem s) v = bytes ->
  bb_length (bs_builder s) + str_length v <= bb_capacity (bs_builder s) ->
  exists s', sl_string_builder_append_str REF v s = (Ok tt, s') /\ builder_wf s' /\
    bb_storage (bs_builder s') = SL_BUILDER_STORAGE_ARENA /\
    sl_byte_builder_data (bs_builder s') = sl_byte_builder_data (bs_builder s) /\
    bb_capacity (bs_builder s') = bb_capacity (bs_builder s) /\
    bb_length (bs_builder s') = bb_length (bs_builder s) + str_length v /\
    contents s' = contents s ++ bytes /\
    forall q n, foreign s q n -> foreign s' q n /\ load_bytes (bs_mem s') q n = load_bytes (bs_mem s) q n.
Proof.
  intros Hwf Hst [Hl Hv] Hvw [Hset _] Hb Hfit. unfold sl_string_builder_append_str. cbn [is_null].
  destruct (append_bytes_fits (sl_bytes_from_parts (str_ptr v) (str_length v)) s Hwf) as (s' & E & [A1 A2 A3 [A4 _]] & D & C & L);
    [by split|by destruct Hvw as (? & ? & ?)|done|done|].
  exists s'. split_and!; [done|done|congruence|done|done|done| |done]. rewrite A2. f_equal. exact Hb.
Qed.

Lemma hint_pair_spec prefix value ptext vtext builder w :
  ready w -> safe_view w prefix ptext -> safe_view w value vtext -> 0 < str_length prefix ->
  (length (dg_hints builder) < 4)%nat ->
  match sl_capability_add_hint_pair scratch REF prefix value builder w with
  | (Ok d, w') => spares w w' /\ exists hint, safe_view w' hint (ptext ++ vtext) /\
      d = {| dg_severity := dg_severity builder; dg_code := dg_code builder; dg_message := dg_message builder;
             dg_hints := dg_hints builder ++ [hint] |}
  | (Err e, w') => spares w w' /\ exhausted e
  end.
Proof.
  intros Hr ((Vp & Sp & Op & Bp) & Wp & Dp) ((Vv & Sv & Ov & Bv) & Wv & Dv) Hpos Hlen.
  unfold sl_capability_add_hint_pair. unfold_st. cbn [is_null orb].
  destruct Vp as [Hp0 [|Hp1]]; [lia|]. destruct (Z.eqb_spec (str_ptr prefix) 0) as [|_]; [lia|]. cbn [orb].
  replace ((0 <? str_length value) && (str_ptr value =? 0)) with false by (destruct Vv; lia).
  rewrite checked_add_spec by done. unfold checked.
  destruct (Z.leb_spec (str_length prefix + str_length value) SIZE_MAX) as [Hsz|].
  2:{ split; [by apply spares_refl|by right]. }
  set (n := str_length prefix + str_length value). destruct Vv as [Hv0 Hv1].
  unfold with_local_builder, hint_text. unfold_st.
  pose proof (hint_builder n w Hr ltac:(subst n; lia)) as Hi.
  destruct (sl_string_builder_init_arena REF REF n n _) as [[[]|e] s1].
  2:{ destruct Hi as [-> He]. split; [by apply spares_refl|done]. }
  destruct Hi as (W1 & S1 & L1 & C1 & P1 & O1 & Sc1 & F1).
  destruct (F1 _ _ Op) as [Fp Lp]. destruct (F1 _ _ Ov) as [Fv Lv].
  destruct (hint_append prefix ptext s1 W1 S1) as (s2 & E2 & W2 & S2 & D2 & C2 & L2 & T2 & F2);
    [split; [lia|by right]|done|done|by rewrite <- Bp; apply Lp|rewrite L1, C1; subst n; lia|]. rewrite E2.
  destruct (F2 _ _ Fv) as [Fv2 Lv2].
  destruct (hint_append value vtext s2 W2 S2) as (s3 & E3 & W3 & S3 & D3 & C3 & L3 & T3 & F3);
    [by split|done|done|unfold str_val in *; rewrite Lv2, <- Bv; by apply Lv|rewrite L2, L1, C2, C1; subst n; lia|]. rewrite E3.
  assert (Elen : bb_length (bs_builder s3) = n) by (subst n; lia).
  unfold sl_string_builder_view, sl_byte_builder_view. cbn [is_null orb]. rewrite Elen.
  destruct (Z.eqb_spec n 0); [subst n; lia|]. rewrite D3, D2.
  destruct (Z.eqb_spec (sl_byte_builder_data (bs_builder s1)) 0); [lia|].
  cbn [sl_bytes_from_parts bytes_ptr bytes_length]. set (p := sl_byte_builder_data (bs_builder s1)) in *.
  assert (Hkeep : forall q k, outside_free (w_arena w) q k ->
    outside_free (w_arena (bs_world s3)) q k /\
    (off_scratch q k -> load_bytes (bs_mem s3) q k = load_bytes (w_mem w) q k)).
  { intros q k Hq. destruct (F1 q k Hq) as [G1 M1]. destruct (F2 q k G1) as [G2 M2]. destruct (F3 q k G2) as [G3 M3].
    split; [by apply G3|]. intros Ho. by rewrite M3, M2, M1. }
  pose proof (bw_arena _ W3 S3) as [_ Hwf3]. pose proof (bw_ptr _ W3) as (_ & _ & Hend). pose proof (bw_settled _ W3 S3) as Hown.
  rewrite D3, D2, C3, C2, C1 in Hend, Hown. fold p in Hend, Hown.
  assert (Hsp : spares w (bs_world s3)).
  { split; [split; [done|by apply Hkeep, Hr]|]. intros q k Hq Ho. destruct (Hkeep q k Hq) as [? M]. split; [by apply M|done]. }
  unfold sl_diag_builder_add_hint_owned. cbn [is_null orb].
  replace (sl_diag_str_is_valid _) with true by (unfold sl_diag_str_is_valid; cbn; lia). cbn [negb].
  destruct (Z.leb_spec SL_DIAG_MAX_HINTS (Z.of_nat (length (dg_hints builder)))); [unfold SL_DIAG_MAX_HINTS in *; lia|].
  split; [done|]. eexists. split; [|done]. split; [|split; [split_and!; cbn; lia|done]].
  split_and!; [split; cbn; lia|unfold is_size; cbn; lia|done|].
  unfold str_val. cbn [str_ptr str_length sl_str_from_parts]. 
  transitivity (contents s3); [unfold contents; by rewrite Elen, D3, D2|]. rewrite T3, T2.
  unfold contents. rewrite L1. done.
Qed.

(** The message is copied into a block of its own. *)
Lemma message_spec v bytes w :
  ready w -> safe_view w v bytes ->
  match sl_diag_copy_str REF v REF w with
  | (Ok out, w') => spares w w' /\ safe_view w' out bytes
  | (Err e, w') => spares w w' /\ exhausted e
  end.
Proof.
  intros Hr (Hk & Hwf & Hd). pose proof (diag_copy_spec v bytes w (proj1 Hr) Hk) as Hc. revert Hc.
  destruct Hk as (Hv & Hs & Ho & Hb). unfold sl_diag_copy_str. unfold_st. cbn [is_null orb].
  destruct (negb (sl_diag_str_is_valid v)).
  { intros [_ He]. split; [by apply spares_refl|done]. }
  destruct (Z.eqb_spec (str_length v) 0) as [E|E].
  { intros [Hk _]. split; [by apply spares_refl|]. split; [done|]. split; [split_and!; cbn; unfold UINTPTR_MAX; lia|].
    unfold off_scratch, disjoint_ranges. cbn. lia. }
  destruct Hv as [Hv0 [|Hv1]]; [lia|].
  pose proof (array_copy_spec (str_ptr v) (str_length v) 1 1 w (proj1 Hr) Hs ltac:(size_lia) ltac:(size_lia)
    ltac:(lia) ltac:(lia) Hv1) as Ha. rewrite Z.mul_1_r in Ha. specialize (Ha Ho).
  destruct (sl_arena_array_copy _ _ _ _ _ _ w) as [[sl|e] w'].
  - intros [Hk _]. destruct Ha as (_ & _ & Hf & _). destruct (fresh_spares _ _ _ _ Hr Hf) as [Hsp Hoff].
    split; [done|]. split; [done|]. split; [|done]. destruct Hf. split_and!; cbn; lia.
  - intros [-> He]. split; [by apply spares_refl|done].
Qed.

(** The literals of the component and the views of a request, safe to read. *)
Definition safe_literals w : Prop :=
  Forall (fun l => safe_view w (literal l) (text l) /\ 0 < str_length (literal l)) capability_literals.

Lemma safe_literals_spares w w' : spares w w' -> safe_literals w -> safe_literals w'.
Proof.
  intros H Hl. eapply Forall_impl; [exact Hl|]. intros l [Hv Hp]. split; [by eapply safe_view_spares|done].
Qed.

Lemma safe_literal w l : safe_literals w -> l ∈ capability_literals -> safe_view w (literal l) (text l) /\ 0 < str_length (literal l).
Proof. intros H Hin. unfold safe_literals in H. rewrite Forall_forall in H. auto. Qed.

Definition operation_text (operation : SlCapabilityOperation) : string :=
  match operation with
  | SL_CAPABILITY_OPERATION_READ => "read"
  | SL_CAPABILITY_OPERATION_WRITE => "write"
  | SL_CAPABILITY_OPERATION_CONNECT => "connect"
  | SL_CAPABILITY_OPERATION_LISTEN => "listen"
  | SL_CAPABILITY_OPERATION_READWRITE => "readwrite"
  | SL_CAPABILITY_OPERATION_APPEND => "append"
  | SL_CAPABILITY_OPERATION_DELETE => "delete"
  | SL_CAPABILITY_OPERATION_LIST => "list"
  | SL_CAPABILITY_OPERATION_METADATA => "metadata"
  | SL_CAPABILITY_OPERATION_WATCH => "watch"
  | SL_CAPABILITY_OPERATION_LOCK => "lock"
  | OPERATION_OUTSIDE _ => "unsupported"
  end.

Lemma operation_name_literal operation : sl_capability_operation_name operation = literal (operation_text operation).
Proof. by destruct operation. Qed.
Lemma operation_text_known operation : operation_text operation ∈ capability_literals.
Proof. destruct operation; apply (bool_decide_unpack _); vm_compute; exact I. Qed.

Definition hint_when (test : bool) (prefix : string) (value : list Z) : list (list Z) :=
  if test then [text prefix ++ value] else [].

(** The hints of a denial. *)
Definition denial_hints (token kind : list Z) (operation : SlCapabilityOperation) (access provider : list Z) : list (list Z) :=
  hint_when (negb (bool_decide (token = []))) "token: " token ++
  hint_when (negb (bool_decide (kind = [])) && (bool_decide (provider = []) || bool_decide (access = []))) "kind: " kind ++
  [text "operation: " ++ text (operation_text operation)] ++
  hint_when (negb (bool_decide (access = []))) "actual access: " access ++
  hint_when (negb (bool_decide (provider = []))) "provider: " provider.

Lemma denial_hints_bound token kind operation access provider :
  (length (denial_hints token kind operation access provider) <= 4)%nat.
Proof.
  unfold denial_hints, hint_when. rewrite !length_app. cbn [length].
  repeat case_bool_decide; cbn; lia.
Qed.

(** A diagnostic under construction, its message and hints in safe storage. *)
Record drafted w (message : string) (texts : list (list Z)) (d : SlDiag) : Prop := {
  df_severity : dg_severity d = SL_DIAG_SEVERITY_ERROR;
  df_code : dg_code d = SL_DIAG_PERMISSION_DENIED;
  df_message : safe_view w (dg_message d) (text message);
  df_hints : Forall2 (safe_view w) (dg_hints d) texts;
}.

Lemma drafted_spares w w' message texts d : spares w w' -> drafted w message texts d -> drafted w' message texts d.
Proof. intros Hs [H1 H2 H3 H4]. split; [done|done|by eapply safe_view_spares|by eapply safe_views_spares]. Qed.

Lemma draft_hint prefix value vtext message texts d w :
  ready w -> safe_literals w -> safe_view w value vtext -> prefix ∈ capability_literals ->
  drafted w message texts d -> (length texts < 4)%nat ->
  match sl_capability_add_hint_pair scratch REF (literal prefix) value d w with
  | (Ok d', w') => spares w w' /\ drafted w' message (texts ++ [text prefix ++ vtext]) d'
  | (Err e, w') => spares w w' /\ exhausted e
  end.
Proof.
  intros Hr Hl Hv Hin Hd Hn. destruct (safe_literal w prefix Hl Hin) as [Hp Hp0].
  pose proof (hint_pair_spec (literal prefix) value (text prefix) vtext d w Hr Hp Hv Hp0) as H.
  rewrite (Forall2_length _ _ _ (df_hints _ _ _ _ Hd)) in H. specialize (H Hn).
  destruct (sl_capability_add_hint_pair _ _ _ _ _ w) as [[d'|e] w']; [|done].
  destruct H as (Hs & hint & Hh & ->). split; [done|]. destruct (drafted_spares _ _ _ _ _ Hs Hd) as [H1 H2 H3 H4].
  split; [done|done|done|]. apply Forall2_app; [done|]. by constructor.
Qed.

Lemma draft_hint_if test prefix value vtext message texts d w :
  ready w -> safe_literals w -> safe_view w value vtext -> prefix ∈ capability_literals ->
  drafted w message texts d -> (length (texts ++ hint_when test prefix vtext) <= 4)%nat ->
  match hint_if scratch test REF prefix value d w with
  | (Ok d', w') => spares w w' /\ drafted w' message (texts ++ hint_when test prefix vtext) d'
  | (Err e, w') => spares w w' /\ exhausted e
  end.
Proof.
  intros Hr Hl Hv Hin Hd Hn. unfold hint_if, hint_when in *. destruct test.
  - apply draft_hint; try done. rewrite length_app in Hn. cbn in Hn. lia.
  - rewrite app_nil_r. unfold_st. split; [by apply spares_refl|done].
Qed.

Lemma safe_empty w v bytes : safe_view w v bytes -> sl_str_is_empty v = bool_decide (bytes = []).
Proof. intros ((Hv & _ & _ & <-) & _). by apply empty_view. Qed.

(** How a denial ends: reported in full, or the arena ran out. *)
Definition denial_outcome (s s' : CheckSys) (e : SlStatusCode) (message : string) (texts : list (list Z)) : Prop :=
  spares (cs_world s) (cs_world s') /\
  ((e = SL_STATUS_INVALID_STATE /\ drafted (cs_world s') message texts (cs_diag s')) \/
   (exhausted e /\ cs_diag s' = cs_diag s)).

(** One more step of a denial: the world moves on, or the denial ends here. *)
Lemma denial_step {A} (c : ST World SlDiag) (f : SlDiag -> ST CheckSys A) message texts texts' s s0 :
  spares (cs_world s0) (cs_world s) -> cs_diag s = cs_diag s0 ->
  match c (cs_world s) with
  | (Ok d', w') => spares (cs_world s) w' /\ drafted w' message texts d'
  | (Err e, w') => spares (cs_world s) w' /\ exhausted e
  end ->
  (forall d s1, spares (cs_world s0) (cs_world s1) -> cs_diag s1 = cs_diag s0 -> drafted (cs_world s1) message texts d ->
     exists e s', f d s1 = (Err e, s') /\ denial_outcome s0 s' e message texts') ->
  exists e s', (with_world c ≫= f) s = (Err e, s') /\ denial_outcome s0 s' e message texts'.
Proof.
  intros Hs Hd Hc Hf. unfold with_world, zoom. unfold_st. destruct (c (cs_world s)) as [[d|e] w'].
  - destruct Hc as [Hs' Hd']. apply Hf; [by eapply spares_trans|done|done].
  - destruct Hc as [Hs' He]. eexists _, _. split; [done|]. split; [by eapply spares_trans|]. by right.
Qed.

Lemma denied_spec {A} token kind access provider ttext ktext atext ptext operation message s :
  ready (cs_world s) -> safe_literals (cs_world s) -> message ∈ capability_literals ->
  safe_view (cs_world s) token ttext -> safe_view (cs_world s) kind ktext -> safe_view (cs_world s) access atext ->
  safe_view (cs_world s) provider ptext ->
  exists e s', @sl_capability_denied _ _ scratch A REF REF token kind operation access provider message s = (Err e, s') /\
    denial_outcome s s' e message (denial_hints ttext ktext operation atext ptext).
Proof.
  intros Hr Hl Hm Ht Hk Ha Hp. unfold sl_capability_denied. cbn [is_null].
  rewrite (safe_empty _ _ _ Ht), (safe_empty _ _ _ Hk), (safe_empty _ _ _ Ha), (safe_empty _ _ _ Hp), operation_name_literal.
  pose proof (denial_hints_bound ttext ktext operation atext ptext) as Hb. unfold denial_hints in *.
  rewrite !length_app in Hb. cbn [length] in Hb.
  eapply (denial_step _ _ message []); [by apply spares_refl|done| |].
  { destruct (safe_literal _ _ Hl Hm) as [Hmv _]. pose proof (message_spec _ _ _ Hr Hmv) as H.
    unfold sl_diag_builder_init. unfold_st. destruct (sl_diag_copy_str REF (literal message) REF (cs_world s)) as [[out|e] w']; [|done].
    destruct H as [Hs Hv]. split; [done|]. by split. }
  intros d1 s1 S1 E1 D1.
  eapply denial_step; [done|done| |].
  { apply draft_hint_if; try exact D1; [apply S1|by eapply safe_literals_spares|by eapply safe_view_spares|known_literal|].
    cbn [app]. lia. }
  cbn [app]. intros d2 s2 S2 E2 D2.
  eapply denial_step; [done|done| |].
  { apply draft_hint_if; try exact D2; [apply S2|by eapply safe_literals_spares|by eapply safe_view_spares|known_literal|].
    rewrite length_app. lia. }
  intros d3 s3 S3 E3 D3.
  eapply denial_step; [done|done| |].
  { apply draft_hint; try exact D3; [apply S3|by eapply safe_literals_spares| |known_literal|rewrite length_app; lia].
    apply (safe_literal _ _ (safe_literals_spares _ _ S3 Hl) (operation_text_known operation)). }
  intros d4 s4 S4 E4 D4.
  eapply denial_step; [done|done| |].
  { apply draft_hint_if; try exact D4; [apply S4|by eapply safe_literals_spares|by eapply safe_view_spares|known_literal|].
    rewrite !length_app. cbn [length]. lia. }
  intros d5 s5 S5 E5 D5.
  eapply denial_step; [done|done| |].
  { apply draft_hint_if; try exact D5; [apply S5|by eapply safe_literals_spares|by eapply safe_view_spares|known_literal|].
    rewrite !length_app. cbn [length]. lia. }
  intros d6 s6 S6 E6 D6. unfold_st. eexists _, _. split; [done|]. split; [done|]. left. split; [done|].
  by rewrite <- !app_assoc in D6.
Qed.

(** * The checks *)

Inductive check :=
| CK_filesystem
| CK_network
| CK_database (provider : SlStr)
| CK_provider (provider_kind : SlStr).

Definition run_check (registry : SlCapabilityRegistry) (c : check) (token : SlStr) (operation : SlCapabilityOperation)
    : ST CheckSys unit :=
  match c with
  | CK_filesystem => sl_capability_check_filesystem scratch (Some registry) REF token operation REF
  | CK_network => sl_capability_check_network scratch (Some registry) REF token operation REF
  | CK_database provider => sl_capability_check_database scratch (Some registry) REF token operation provider REF
  | CK_provider kind => sl_capability_check_database_provider scratch (Some registry) REF token operation kind REF
  end.

Definition check_kind (c : check) : string :=
  match c with CK_filesystem => "filesystem" | CK_network => "network" | _ => "database" end.

Definition requested_provider (c : check) : option SlStr :=
  match c with CK_database provider | CK_provider provider => Some provider | _ => None end.

Definition readable w (v : SlStr) : Prop := safe_view w v (str_val (w_mem w) v).

Definition plan_safe w (plan : SlPlan) : Prop :=
  Forall (fun c => readable w (cap_token c) /\ readable w (cap_kind c) /\ readable w (cap_access c) /\
                   readable w (cap_provider c)) (capabilities_of plan) /\
  Forall provider_views (providers_of plan).

Record request_safe w (plan : SlPlan) (c : check) (token : SlStr) : Prop := {
  rq_ready : ready w;
  rq_literals : safe_literals w;
  rq_plan : plan_safe w plan;
  rq_token : readable w token;
  rq_provider : forall provider, requested_provider c = Some provider -> readable w provider;
}.

(** Why a check refuses, and what its diagnostic names. *)
Inductive refusal (m : mem) (plan : SlPlan) (c : check) (token : SlStr) (operation : SlCapabilityOperation)
    : string -> list (list Z) -> Prop :=
| refuse_missing :
    (forall cap, cap ∈ capabilities_of plan -> str_val m (cap_token cap) <> str_val m token) ->
    refusal m plan c token operation "capability access denied: missing capability"
      (denial_hints (str_val m token) (text (check_kind c)) operation [] [])
| refuse_kind cap :
    cap ∈ capabilities_of plan -> str_val m (cap_token cap) = str_val m token ->
    str_val m (cap_kind cap) <> text (check_kind c) ->
    refusal m plan c token operation "capability access denied: wrong capability kind"
      (denial_hints (str_val m token) (str_val m (cap_kind cap)) operation (str_val m (cap_access cap))
         (str_val m (cap_provider cap)))
| refuse_access cap :
    cap ∈ capabilities_of plan -> str_val m (cap_token cap) = str_val m token ->
    str_val m (cap_kind cap) = text (check_kind c) -> ~ one_of (str_val m (cap_access cap)) (granting operation) ->
    refusal m plan c token operation "capability access denied: insufficient access"
      (denial_hints (str_val m token) (str_val m (cap_kind cap)) operation (str_val m (cap_access cap))
         (str_val m (cap_provider cap)))
| refuse_provider cap provider :
    granted m plan "database" (str_val m token) operation cap -> requested_provider c = Some provider ->
    refusal m plan c token operation "capability access denied: provider mismatch"
      (denial_hints (str_val m token) (str_val m (cap_kind cap)) operation (str_val m (cap_access cap))
         (str_val m provider)).

(** How a refused check ends. *)
Definition refused_check plan c token operation (s s' : CheckSys) (e : SlStatusCode) : Prop :=
  spares (cs_world s) (cs_world s') /\
  ((e = SL_STATUS_INVALID_ARGUMENT /\ str_val (w_mem (cs_world s)) token = [] /\ cs_diag s' = zero_diag) \/
   (exhausted e /\ cs_diag s' = zero_diag) \/
   (e = SL_STATUS_INVALID_STATE /\ exists message texts,
      refusal (w_mem (cs_world s)) plan c token operation message texts /\
      drafted (cs_world s') message texts (cs_diag s'))).

Lemma safe_literals_at w : safe_literals w -> literals_at (w_mem w).
Proof. intros H. eapply Forall_impl; [exact H|]. by intros l [((Hv & _ & _ & Hb) & _) _]. Qed.

Lemma plan_safe_views w plan : plan_safe w plan -> plan_views plan.
Proof.
  intros [Hc Hp]. split; [|done]. eapply Forall_impl; [exact Hc|].
  by intros c (((? & _) & _) & ((? & _) & _) & ((? & _) & _) & ((? & _) & _)).
Qed.

Lemma denial_refused {A} plan c token kind access provider ktext atext ptext operation message s :
  let w := cs_world s in
  ready w -> safe_literals w -> message ∈ capability_literals -> readable w token ->
  safe_view w kind ktext -> safe_view w access atext -> safe_view w provider ptext -> cs_diag s = zero_diag ->
  refusal (w_mem w) plan c token operation message (denial_hints (str_val (w_mem w) token) ktext operation atext ptext) ->
  exists e s', @sl_capability_denied _ _ scratch A REF REF token kind operation access provider message s = (Err e, s') /\
    refused_check plan c token operation s s' e.
Proof.
  intros w Hr Hl Hm Ht Hk Ha Hp Hz Href.
  destruct (denied_spec (A := A) token kind access provider _ _ _ _ operation message s Hr Hl Hm Ht Hk Ha Hp) as (e & s' & E & Hs & Ho).
  exists e, s'. split; [done|]. split; [done|]. right. destruct Ho as [[-> Hd]|[He Hd]].
  - right. split; [done|]. by eexists _, _.
  - left. split; [done|congruence].
Qed.

Lemma empty_safe w : ready w -> safe_view w sl_str_empty [].
Proof.
  intros _. split; [|split; [split_and!; cbn; unfold UINTPTR_MAX; lia|unfold off_scratch, disjoint_ranges; cbn; lia]].
  split_and!; [split; cbn; lia|cbn; size_lia|unfold outside_free, disjoint_ranges; cbn; lia|done].
Qed.

Lemma check_kind_known c : check_kind c ∈ capability_literals.
Proof. destruct c; known_literal. Qed.

(** The part all checks share, from the diagnostic already cleared. *)
Lemma common_refused plan c token operation s :
  let w := cs_world s in
  request_safe w plan c token -> plan_accepted (w_mem w) plan ->
  match sl_capability_check_common scratch (Some (registry_of plan)) REF token (check_kind c) operation REF s with
  | (Ok cap, s') => s' = set_cs_diag zero_diag s /\ granted (w_mem w) plan (check_kind c) (str_val (w_mem w) token) operation cap
  | (Err e, s') => refused_check plan c token operation s s' e
  end.
Proof.
  intros w [Hr Hl Hp Ht _] Hacc. set (m := w_mem w) in *. set (s1 := set_cs_diag zero_diag s).
  pose proof (safe_literals_at w Hl) as Hlit. pose proof (plan_safe_views w plan Hp) as Hviews.
  pose proof Ht as ((Vt & _) & _). pose proof (find_accepted m plan token Hacc Hviews Vt) as Hf.
  destruct Hp as [Hcaps _]. rewrite Forall_forall in Hcaps.
  unfold sl_capability_check_common. unfold_st. cbn [is_null]. fold s1. change (w_mem (cs_world s1)) with m.
  destruct (sl_capability_registry_find m (Some (registry_of plan)) token REF) as [cap|e] eqn:Ef.
  - destruct Hf as [Hc Et]. destruct (Hcaps cap Hc) as (_ & R2 & R3 & R4). unfold sl_capability_kind_is.
    rewrite (literal_equal m (cap_kind cap)), access_allows
      by (done || apply check_kind_known || apply R2 || apply R3).
    case_bool_decide as Ek; cbn [negb].
    2:{ destruct (denial_refused (A := SlPlanCapability) plan c token (cap_kind cap) (cap_access cap) (cap_provider cap) _ _ _ operation
          "capability access denied: wrong capability kind" s1 Hr Hl ltac:(known_literal) Ht R2 R3 R4 eq_refl)
          as (e & s' & -> & H); [by eapply refuse_kind|exact H]. }
    case_bool_decide as Eg; cbn [negb].
    2:{ destruct (denial_refused (A := SlPlanCapability) plan c token (cap_kind cap) (cap_access cap) (cap_provider cap) _ _ _ operation
          "capability access denied: insufficient access" s1 Hr Hl ltac:(known_literal) Ht R2 R3 R4 eq_refl)
          as (e & s' & -> & H); [by eapply refuse_access|exact H]. }
    split; [done|]. by split_and!.
  - assert (He : e = SL_STATUS_OUT_OF_RANGE \/ (e = SL_STATUS_INVALID_ARGUMENT /\ str_val m token = [])).
    { revert Ef. unfold sl_capability_registry_find. cbn [is_null registry_of cr_capabilities cr_capability_count].
      rewrite (empty_view m token Vt). destruct Hacc as [[_ A1] _ _ _ _]. apply array_missing_spec in A1. rewrite A1.
      case_bool_decide; cbn [orb]; [intros [=]; by right|].
      destruct (with_token _ _ _ _); [done|intros [=]; by left]. }
    destruct He as [-> |[-> Eempty]].
    + destruct (safe_literal w (check_kind c) Hl (check_kind_known c)) as [Hkv _].
      destruct (denial_refused (A := SlPlanCapability) plan c token (literal (check_kind c)) sl_str_empty sl_str_empty _ _ _ operation
          "capability access denied: missing capability" s1 Hr Hl ltac:(known_literal) Ht Hkv (empty_safe w Hr) (empty_safe w Hr) eq_refl)
          as (e & s' & -> & H); [by apply refuse_missing|exact H].
    + split; [by apply spares_refl|]. left. by split_and!.
Qed.

(** A refused check explains itself and touches nothing else.  For a registry made
    from a plan, a check that fails leaves every byte outside the arena's free space
    alone, and either the token was empty, or the diagnostic arena is exhausted (the
    diagnostic is then empty), or the caller has a PERMISSION_DENIED diagnostic, with
    the message of the reason that really applies and hints made of exactly the token,
    the operation, and the kind, access and provider involved.  The hints never
    overflow the four a diagnostic holds. *)
Theorem capability_denial_reported plan registry c token operation s s' e :
  request_safe (cs_world s) plan c token ->
  sl_capability_registry_init_from_plan (w_mem (cs_world s)) (Some plan) REF = (SL_STATUS_OK, Some registry) ->
  run_check registry c token operation s = (Err e, s') ->
  refused_check plan c token operation s s' e.
Proof.
  intros Hrq Hinit. pose proof Hrq as [Hr Hl Hp Ht Hreq].
  destruct (registry_init_cases (w_mem (cs_world s)) plan (safe_literals_at _ Hl) (plan_safe_views _ _ Hp))
    as [[Hacc E]|[_ E]]; rewrite E in Hinit; [|done]. injection Hinit as <-.
  pose proof (common_refused plan c token operation s Hrq Hacc) as Hc.
  destruct Hp as [Hcaps _]. rewrite Forall_forall in Hcaps.
  assert (Hmismatch : forall cap provider s1,
    s1 = set_cs_diag zero_diag s -> check_kind c = "database"%string -> requested_provider c = Some provider ->
    granted (w_mem (cs_world s)) plan "database" (str_val (w_mem (cs_world s)) token) operation cap ->
    exists e s', @sl_capability_denied _ _ scratch unit REF REF token (cap_kind cap) operation (cap_access cap) provider
                   "capability access denied: provider mismatch" s1 = (Err e, s') /\
      refused_check plan c token operation s s' e).
  { intros cap provider s1 -> Hk Hpr Hg. destruct (Hcaps cap (proj1 Hg)) as (_ & R2 & R3 & _).
    eapply (denial_refused (A := unit) plan c token (cap_kind cap) (cap_access cap) provider _ _ _ operation
      "capability access denied: provider mismatch" (set_cs_diag zero_diag s) Hr Hl ltac:(known_literal) Ht R2 R3 (Hreq provider Hpr) eq_refl).
    by eapply refuse_provider. }
  destruct c as [| |provider|provider]; cbn [run_check check_kind] in *;
    unfold sl_capability_check_filesystem, sl_capability_check_network, sl_capability_check_database,
      sl_capability_check_database_provider; unfold_st;
    destruct (sl_capability_check_common _ _ _ _ _ _ _ s) as [[cap|e'] s1]; try (intros [= <- <-]; exact Hc); try done.
  - destruct Hc as [-> Hg]. destruct (Hmismatch cap provider _ eq_refl eq_refl eq_refl Hg) as (e' & s2 & Ed & Hd).
    destruct (_ && _); [|done]. rewrite Ed. by intros [= <- <-].
  - destruct Hc as [-> Hg]. destruct (Hmismatch cap provider _ eq_refl eq_refl eq_refl Hg) as (e' & s2 & Ed & Hd).
    destruct (negb _); [|done]. rewrite Ed. by intros [= <- <-].
Qed.
End Report.

Module Demo.
(** The literals from 65536, 128 bytes each; the strings of a plan with a read-only
    directory "data" and a database "main" behind the provider "db"; the arena for
    diagnostics at 4096 and the local builder at 8192. *)
#[local] Existing Instance assert_build.

Fixpoint position (l : string) (ls : list string) : Z :=
  match ls with
  | [] => 0
  | l' :: ls => if decide (l = l') then 0 else 1 + position l ls
  end.

#[local] Instance image : ReadOnlyData := {| rodata l := 65536 + 128 * position l capability_literals |}.

Definition plan_strings : list (Z * string) :=
  [ (100, "data"); (120, "filesystem"); (140, "read"); (160, "main"); (180, "database"); (200, "readwrite"); (220, "db");
    (240, "sqlite") ]%string.

Definition m0 : mem :=
  foldl (fun m l => store m (rodata l) (string_bytes l))
    (foldl (fun m '(p, l) => store m p (string_bytes l)) (fun _ => 0) plan_strings) capability_literals.

Definition str (p n : Z) : SlStr := sl_str_from_parts p n.
Definition directory : SlPlanCapability :=
  {| cap_token := str 100 4; cap_kind := str 120 10; cap_access := str 140 4; cap_provider := sl_str_empty |}.
Definition database : SlPlanCapability :=
  {| cap_token := str 160 4; cap_kind := str 180 8; cap_access := str 200 9; cap_provider := str 220 2 |}.
Definition sqlite : SlPlanDataProvider :=
  {| dp_token := str 220 2; dp_provider := str 240 6; dp_capability := str 160 4; dp_service := sl_str_empty;
     dp_database := sl_str_empty |}.
Definition plan : SlPlan :=
  {| plan_data_providers := Some [sqlite]; plan_data_provider_count := 1;
     plan_capabilities := Some [directory; database]; plan_capability_count := 2 |}.

Definition w0 : World :=
  {| w_mem := m0;
     w_arena := {| ar_base := 4096; ar_capacity := 1024; ar_offset := 0; ar_high_water := 0; ar_generation := 1 |} |}.
Definition s0 : CheckSys := {| cs_world := w0; cs_diag := zero_diag |}.

#[local] Instance safe_view_dec w v bytes : Decision (safe_view 8192 w v bytes).
Proof.
  unfold safe_view, kept_view, str_wf, str_valid, is_size, off_scratch, outside_free, disjoint_ranges. apply _.
Defined.
#[local] Instance readable_dec w v : Decision (readable 8192 w v).
Proof. unfold readable. apply _. Defined.
#[local] Instance provider_views_dec p : Decision (provider_views p).
Proof. unfold provider_views, str_valid. apply _. Defined.
#[local] Instance capability_views_dec c : Decision (capability_views c).
Proof. unfold capability_views, str_valid. apply _. Defined.

Lemma demo_safe_literals : safe_literals 8192 w0.
Proof. unfold safe_literals. apply (bool_decide_unpack _). vm_compute. exact I. Qed.
Lemma demo_literals_at : literals_at m0.
Proof. exact (safe_literals_at 8192 w0 demo_safe_literals). Qed.
Lemma demo_views : plan_views plan.
Proof. split; apply (bool_decide_unpack _); vm_compute; exact I. Qed.
Lemma demo_plan_safe : plan_safe 8192 w0 plan.
Proof. split; apply (bool_decide_unpack _); vm_compute; exact I. Qed.
Lemma demo_request : request_safe 8192 w0 plan CK_filesystem (str 100 4).
Proof.
  split.
  - split; [unfold arena_wf; cbn; size_lia|unfold outside_free, disjoint_ranges; cbn; lia].
  - exact demo_safe_literals.
  - exact demo_plan_safe.
  - apply (bool_decide_unpack _); vm_compute; exact I.
  - done.
Qed.

Lemma capability_registry_exact_witness :
  sl_capability_registry_init_from_plan m0 (Some plan) REF = (SL_STATUS_OK, Some (registry_of plan)).
Proof.
  destruct (capability_registry_exact m0 plan demo_literals_at demo_views) as [[_ E]|[Hno E]]; [exact E|].
  exfalso. assert (H : sl_capability_registry_init_from_plan m0 (Some plan) REF = (SL_STATUS_OK, Some (registry_of plan)))
    by (vm_compute; reflexivity). rewrite H in E. discriminate E.
Defined.

Lemma capability_checks_exact_witness :
  fst (sl_capability_check_filesystem 8192 (Some (registry_of plan)) REF (str 100 4) SL_CAPABILITY_OPERATION_LIST REF s0) = Ok tt /\
  fst (sl_capability_check_network 8192 (Some (registry_of plan)) REF (str 100 4) SL_CAPABILITY_OPERATION_LIST REF s0) <> Ok tt.
Proof.
  destruct (capability_checks_exact 8192 plan (registry_of plan) (str 100 4) (str 240 6) SL_CAPABILITY_OPERATION_LIST REF s0
    demo_literals_at demo_views) as (Hfs & Hnet & _).
  - split; cbn; lia.
  - split; cbn; lia.
  - vm_compute. reflexivity.
  - split.
    + apply Hfs. exists directory. split; [apply list_elem_of_here|].
      split_and!; [vm_compute; reflexivity|vm_compute; reflexivity|apply (bool_decide_unpack _); vm_compute; exact I].
    + intros E. apply Hnet in E as (c & Hc & _ & Ek & _).
      assert (Hno : Forall (fun c => str_val (w_mem (cs_world s0)) (cap_kind c) <> text "network") (capabilities_of plan))
        by (apply (bool_decide_unpack _); vm_compute; exact I).
      rewrite Forall_forall in Hno. exact (Hno c Hc Ek).
Defined.

Lemma capability_denial_reported_witness :
  exists s', run_check 8192 (registry_of plan) CK_filesystem (str 100 4) SL_CAPABILITY_OPERATION_WRITE s0 =
    (Err SL_STATUS_INVALID_STATE, s') /\
    refused_check 8192 plan CK_filesystem (str 100 4) SL_CAPABILITY_OPERATION_WRITE s0 s' SL_STATUS_INVALID_STATE.
Proof.
  exists (snd (run_check 8192 (registry_of plan) CK_filesystem (str 100 4) SL_CAPABILITY_OPERATION_WRITE s0)).
  assert (E : fst (run_check 8192 (registry_of plan) CK_filesystem (str 100 4) SL_CAPABILITY_OPERATION_WRITE s0) =
              Err SL_STATUS_INVALID_STATE) by (vm_compute; reflexivity).
  assert (E' : run_check 8192 (registry_of plan) CK_filesystem (str 100 4) SL_CAPABILITY_OPERATION_WRITE s0 =
    (Err SL_STATUS_INVALID_STATE, snd (run_check 8192 (registry_of plan) CK_filesystem (str 100 4) SL_CAPABILITY_OPERATION_WRITE s0)))
    by (rewrite <- E; apply surjective_pairing).
  split; [exact E'|].
  apply (capability_denial_reported 8192 plan (registry_of plan) CK_filesystem (str 100 4) SL_CAPABILITY_OPERATION_WRITE s0 _ _
    demo_request); [vm_compute; reflexivity|exact E'].
Defined.
End Demo.
