(* ===== verification/Json.v ===== *)
(** JSON output (src/core/json_writer.c): string escaping through a sink of bytes and
    the writer over a fixed buffer.

    A sink is a function that takes a view, as the callback of the source does.  The
    short escape sequences are built in a local array at [local].  Profiling only
    counts and is left out. *)

From stdpp Require Import strings.
From Stdlib Require Import Strings.Ascii.
From S2P Require Import Prelude Memory Status Arena Str Bytes Container Sink Builder Diag WebSocket.

Open Scope Z_scope.

Definition JSON_QUOTE : string := String "034"%char EmptyString.
Definition JSON_ESCAPED_QUOTE : string := String "\"%char JSON_QUOTE.
Definition JSON_ESCAPED_BACKSLASH : string := "\\"%string.

(** * Lengths and tests *)

Fixpoint needs_escape_loop (m : mem) (ptr : Z) (n : nat) : bool :=
  match n with
  | O => false
  | S n =>
      let ch := ld8 m ptr in
      if (ch =? 34) || (ch =? 92) || (ch <? 32) then true else needs_escape_loop m (ptr + 1) n
  end.

Definition sl_json_writer_string_needs_escape (m : mem) (text : SlStr) : bool :=
  needs_escape_loop m (str_ptr text) (Z.to_nat (str_length text)).

Definition sl_json_writer_named_escape_allowed (ch : Z) : bool :=
  (ch =? 8) || (ch =? 12) || (ch =? 10) || (ch =? 13) || (ch =? 9).

Fixpoint escaped_length_loop (m : mem) (codepoint_controls : bool) (ptr length : Z) (n : nat) : result Z :=
  match n with
  | O => Ok length
  | S n =>
      let ch := ld8 m ptr in
      let additional :=
        if (ch =? 34) || (ch =? 92) || (sl_json_writer_named_escape_allowed ch && negb codepoint_controls) then 2
        else if ch <? 32 then 6 else 1 in
      length ← sl_checked_add_size length additional REF ;
      escaped_length_loop m codepoint_controls (ptr + 1) length n
  end.

Definition sl_json_writer_escaped_string_length_with_mode (m : mem) (text : SlStr) (codepoint_controls : bool)
    (out_length : nullable) : result Z :=
  error_if is_null out_length || ((str_ptr text =? 0) && negb (str_length text =? 0)) with SL_STATUS_INVALID_ARGUMENT ;;
  escaped_length_loop m codepoint_controls (str_ptr text) 2 (Z.to_nat (str_length text)).

Definition sl_json_writer_escaped_string_length (m : mem) (text : SlStr) (out_length : nullable) : result Z :=
  sl_json_writer_escaped_string_length_with_mode m text false out_length.

Definition sl_json_writer_escaped_string_codepoint_controls_length (m : mem) (text : SlStr) (out_length : nullable)
    : result Z :=
  sl_json_writer_escaped_string_length_with_mode m text true out_length.

Definition sl_json_writer_escape_letter (ch : Z) : Z :=
  if ch =? 8 then 98 else if ch =? 12 then 102 else if ch =? 10 then 110 else
  if ch =? 13 then 114 else if ch =? 9 then 116 else 0.

(** [hex[i]] *)
Definition hex_digit (i : Z) : Z := nth (Z.to_nat i) (string_bytes "0123456789abcdef") 0.

(** The world of a sink, with the local array of the writer. *)
Class SinkStore (K : Type) := {
  sink_store : Z -> list Z -> K -> K;
}.

Section Escape.
Context `{SO : SinkOps K} {SS : SinkStore K} {RO : ReadOnlyData} (local : Z).

Definition SlJsonWriterSink : Type := SlBytes -> ST K unit.

Definition sl_json_writer_sink_codepoint_escape (sink : option SlJsonWriterSink) (ch : Z) : ST K unit :=
  match sink with
  | None => fail SL_STATUS_INVALID_ARGUMENT
  | Some sink =>
      modify (sink_store local [92; 117; 48; 48; hex_digit (Z.land (Z.shiftr ch 4) 15); hex_digit (Z.land ch 15)]) ;;
      sink (sl_bytes_from_parts local 6)
  end.

Definition sl_json_writer_sink_cstr (sink : option SlJsonWriterSink) (text length : Z) : ST K unit :=
  match sink with
  | None => fail SL_STATUS_INVALID_ARGUMENT
  | Some sink =>
      return_if text =? 0 with SL_STATUS_INVALID_ARGUMENT ;;
      sink (sl_bytes_from_parts text length)
  end.

Definition sl_json_writer_sink_str (sink : option SlJsonWriterSink) (text : SlStr) : ST K unit :=
  match sink with
  | None => fail SL_STATUS_INVALID_ARGUMENT
  | Some sink =>
      return_if (str_ptr text =? 0) && negb (str_length text =? 0) with SL_STATUS_INVALID_ARGUMENT ;;
      sink (sl_bytes_from_parts (str_ptr text) (str_length text))
  end.

(** [if (run_start < index)] write the run of plain bytes before [index]. *)
Definition write_run (sink : SlJsonWriterSink) (text : SlStr) (run_start index : Z) : ST K unit :=
  if run_start <? index
  then sl_json_writer_sink_str (Some sink) (sl_str_from_parts (str_ptr text + run_start) (index - run_start))
  else mret tt.

(** The loop over the bytes, then the last run and the closing quote. *)
Fixpoint escape_loop (sink : SlJsonWriterSink) (text : SlStr) (codepoint_controls : bool) (index run_start : Z) (n : nat)
    : ST K unit :=
  match n with
  | O =>
      write_run sink text run_start (str_length text) ;;
      sl_json_writer_sink_cstr (Some sink) (rodata JSON_QUOTE) 1
  | S n =>
      ch ← gets (fun s => ld8 (sink_mem s) (str_ptr text + index)) ;
      if ch =? 34 then
        write_run sink text run_start index ;;
        sl_json_writer_sink_cstr (Some sink) (rodata JSON_ESCAPED_QUOTE) 2 ;;
        escape_loop sink text codepoint_controls (index + 1) (index + 1) n
      else if ch =? 92 then
        write_run sink text run_start index ;;
        sl_json_writer_sink_cstr (Some sink) (rodata JSON_ESCAPED_BACKSLASH) 2 ;;
        escape_loop sink text codepoint_controls (index + 1) (index + 1) n
      else if sl_json_writer_named_escape_allowed ch && negb codepoint_controls then
        modify (sink_store local [92; sl_json_writer_escape_letter ch]) ;;
        write_run sink text run_start index ;;
        sink (sl_bytes_from_parts local 2) ;;
        escape_loop sink text codepoint_controls (index + 1) (index + 1) n
      else if negb (sl_json_writer_named_escape_allowed ch) && (32 <=? ch) then
        escape_loop sink text codepoint_controls (index + 1) run_start n
      else
        write_run sink text run_start index ;;
        sl_json_writer_sink_codepoint_escape (Some sink) ch ;;
        escape_loop sink text codepoint_controls (index + 1) (index + 1) n
  end.

Definition sl_json_writer_sink_escaped_string_with_mode (text : SlStr) (codepoint_controls : bool)
    (sink : option SlJsonWriterSink) : ST K unit :=
  match sink with
  | None => fail SL_STATUS_INVALID_ARGUMENT
  | Some sink =>
      return_if (str_ptr text =? 0) && negb (str_length text =? 0) with SL_STATUS_INVALID_ARGUMENT ;;
      needs_escape ← gets (fun s => sl_json_writer_string_needs_escape (sink_mem s) text) ;
      sl_json_writer_sink_cstr (Some sink) (rodata JSON_QUOTE) 1 ;;
      if negb needs_escape then
        sl_json_writer_sink_str (Some sink) text ;;
        sl_json_writer_sink_cstr (Some sink) (rodata JSON_QUOTE) 1
      else escape_loop sink text codepoint_controls 0 0 (Z.to_nat (str_length text))
  end.

Definition sl_json_writer_write_escaped_string_to (text : SlStr) (sink : option SlJsonWriterSink) : ST K unit :=
  sl_json_writer_sink_escaped_string_with_mode text false sink.

Definition sl_json_writer_write_escaped_string_codepoint_controls_to (text : SlStr) (sink : option SlJsonWriterSink)
    : ST K unit :=
  sl_json_writer_sink_escaped_string_with_mode text true sink.
End Escape.

(** * What an escaped string is *)

Definition escape_byte (codepoint_controls : bool) (b : Z) : list Z :=
  if b =? 34 then [92; 34] else if b =? 92 then [92; 92] else
  if sl_json_writer_named_escape_allowed b && negb codepoint_controls then [92; sl_json_writer_escape_letter b] else
  if b <? 32 then [92; 117; 48; 48; hex_digit (b / 16); hex_digit (b mod 16)] else [b].

Definition escaped (codepoint_controls : bool) (text : list Z) : list Z :=
  mjoin (map (escape_byte codepoint_controls) text).

Definition quoted (codepoint_controls : bool) (text : list Z) : list Z :=
  34 :: escaped codepoint_controls text ++ [34].

(** ** Reading a JSON string literal (RFC 8259, section 7), code points up to U+FFFF *)

Definition hex_value (d : Z) : option Z :=
  if (48 <=? d) && (d <=? 57) then Some (d - 48) else
  if (97 <=? d) && (d <=? 102) then Some (d - 87) else
  if (65 <=? d) && (d <=? 70) then Some (d - 55) else None.

Definition simple_escape (e : Z) : option Z :=
  if e =? 34 then Some 34 else if e =? 92 then Some 92 else if e =? 47 then Some 47 else
  if e =? 98 then Some 8 else if e =? 102 then Some 12 else if e =? 110 then Some 10 else
  if e =? 114 then Some 13 else if e =? 116 then Some 9 else None.

(** The characters up to the closing quote, which ends the input. *)
Fixpoint json_chars (bs : list Z) : option (list Z) :=
  match bs with
  | [] => None
  | b :: rest =>
      if b =? 34 then (if bool_decide (rest = []) then Some [] else None) else
      if b =? 92 then
        match rest with
        | [] => None
        | e :: rest =>
            if e =? 117 then
              match rest with
              | d1 :: d2 :: d3 :: d4 :: rest =>
                  v1 ← hex_value d1; v2 ← hex_value d2; v3 ← hex_value d3; v4 ← hex_value d4;
                  let cp := ((v1 * 16 + v2) * 16 + v3) * 16 + v4 in
                  if (55296 <=? cp) && (cp <=? 57343) then None else app (utf8_encode cp) <$> json_chars rest
              | _ => None
              end
            else c ← simple_escape e; cons c <$> json_chars rest
        end
      else if b <? 32 then None else cons b <$> json_chars rest
  end.

Definition json_string (bs : list Z) : option (list Z) :=
  match bs with b :: rest => if b =? 34 then json_chars rest else None | [] => None end.

Lemma escape_byte_decode cp b rest :
  is_byte b -> json_chars (escape_byte cp b ++ rest) = cons b <$> json_chars rest.
Proof.
  intros Hb. unfold escape_byte. destruct (Z.eqb_spec b 34) as [->|N1]; [done|].
  destruct (Z.eqb_spec b 92) as [->|N2]; [done|].
  destruct (sl_json_writer_named_escape_allowed b && negb cp) eqn:En.
  { assert (Hn : b = 8 \/ b = 12 \/ b = 10 \/ b = 13 \/ b = 9)
      by (unfold sl_json_writer_named_escape_allowed in En; lia).
    by destruct Hn as [->|[->|[->|[->| ->]]]]. }
  destruct (Z.ltb_spec b 32) as [Hlow|Hhigh].
  - assert (Hcases : b ∈ seqZ 0 32) by (apply elem_of_seqZ; unfold is_byte in Hb; lia).
    clear -Hcases. cbn in Hcases. repeat (apply elem_of_cons in Hcases as [->|Hcases]; [done|]). by apply elem_of_nil in Hcases.
  - cbn [app json_chars]. destruct (Z.eqb_spec b 34); [lia|]. destruct (Z.eqb_spec b 92); [lia|].
    destruct (Z.ltb_spec b 32); [lia|]. done.
Qed.

Lemma escaped_cons cp b text : escaped cp (b :: text) = escape_byte cp b ++ escaped cp text.
Proof. done. Qed.

Lemma escaped_app cp t1 t2 : escaped cp (t1 ++ t2) = escaped cp t1 ++ escaped cp t2.
Proof. unfold escaped. by rewrite map_app, join_app. Qed.

Lemma quoted_decode cp text : Forall is_byte text -> json_string (quoted cp text) = Some text.
Proof.
  intros Ht. unfold json_string, quoted. rewrite Z.eqb_refl.
  induction Ht as [|b text Hb Ht IH]; [done|]. rewrite escaped_cons, <- app_assoc, escape_byte_decode by done. by rewrite IH.
Qed.

(** No control character and no bare quote inside. *)
Lemma escaped_clean cp text : Forall is_byte text -> Forall (fun b => 32 <= b < 256) (escaped cp text).
Proof.
  induction 1 as [|b text Hb Ht IH]; [constructor|]. rewrite escaped_cons, Forall_app. split; [|done]. clear -Hb.
  unfold escape_byte. destruct (Z.eqb_spec b 34); [by repeat constructor|]. destruct (Z.eqb_spec b 92); [by repeat constructor|].
  destruct (sl_json_writer_named_escape_allowed b && negb cp) eqn:En.
  { assert (Hn : b = 8 \/ b = 12 \/ b = 10 \/ b = 13 \/ b = 9)
      by (unfold sl_json_writer_named_escape_allowed in En; lia).
    destruct Hn as [->|[->|[->|[->| ->]]]]; by repeat constructor. }
  destruct (Z.ltb_spec b 32) as [Hlow|Hhigh]; [|constructor; [unfold is_byte in Hb; lia|constructor]].
  assert (Hcases : b ∈ seqZ 0 32) by (apply elem_of_seqZ; unfold is_byte in Hb; lia). clear -Hcases.
  cbn in Hcases. repeat (apply elem_of_cons in Hcases as [->|Hcases]; [by repeat constructor|]). by apply elem_of_nil in Hcases.
Qed.

(** ** The length computed beforehand *)

Lemma escape_byte_length cp b :
  Z.of_nat (length (escape_byte cp b)) =
  if (b =? 34) || (b =? 92) || (sl_json_writer_named_escape_allowed b && negb cp) then 2 else if b <? 32 then 6 else 1.
Proof.
  unfold escape_byte. destruct (b =? 34); [done|]. destruct (b =? 92); [done|]. cbn [orb].
  destruct (_ && _); [done|]. by destruct (b <? 32).
Qed.

Lemma escaped_length_loop_spec m cp n : forall ptr length0,
  0 <= length0 <= SIZE_MAX ->
  escaped_length_loop m cp ptr length0 n =
  (let total := length0 + Z.of_nat (length (escaped cp (load m ptr n))) in
   if total <=? SIZE_MAX then Ok total else Err SL_STATUS_OVERFLOW).
Proof.
  induction n as [|n IH]; intros ptr length0 Hl; cbn [escaped_length_loop load].
  - change (Z.of_nat (length (escaped cp []))) with 0. cbv zeta. rewrite Z.add_0_r.
    destruct (Z.leb_spec length0 SIZE_MAX); [done|lia].
  - rewrite <- escape_byte_length. rewrite escaped_cons, length_app.
    pose proof (escape_byte_length cp (ld8 m ptr)) as Hb.
    set (k := Z.of_nat (length (escape_byte cp (ld8 m ptr)))) in *.
    assert (Hk : 1 <= k <= 6) by (rewrite Hb; repeat split_if; lia).
    rewrite checked_add_spec by size_lia. unfold checked, mbind, result_bind.
    destruct (Z.leb_spec (length0 + k) SIZE_MAX).
    + rewrite IH by lia. cbv zeta. rewrite Nat2Z.inj_add. fold k. by rewrite Z.add_assoc.
    + cbv zeta. rewrite Nat2Z.inj_add. fold k. destruct (Z.leb_spec (length0 + (k + Z.of_nat (length (escaped cp (load m (ptr + 1) n))))) SIZE_MAX); [lia|done].
Qed.

(** * Escaping through a sink *)

(** What the writer needs of the world of its sink besides the laws of appending. *)
Class SinkStoreLaws (K : Type) `{SinkOps K} `{SinkRoom K} `{SinkStore K} := {
  sink_foreign_sub : forall (s : K) q n p k,
    sink_foreign s q n -> q <= p -> 0 <= k -> p + k <= q + n -> sink_foreign s p k;
  sink_store_law : forall (s : K) a vs,
    sink_inv s -> sink_foreign s a (Z.of_nat (length vs)) -> Forall is_byte vs ->
    sink_inv (sink_store a vs s) /\ sink_contents (sink_store a vs s) = sink_contents s /\
    load_bytes (sink_mem (sink_store a vs s)) a (Z.of_nat (length vs)) = vs /\
    forall q n, sink_foreign s q n -> sink_foreign (sink_store a vs s) q n /\
      (disjoint_ranges q n a (Z.of_nat (length vs)) -> load_bytes (sink_mem (sink_store a vs s)) q n = load_bytes (sink_mem s) q n);
  sink_store_room : forall (s : K) a vs, sink_room (sink_store a vs s) = sink_room s;
  sink_store_errors : forall (s : K) a vs e, sink_errors (sink_store a vs s) e -> sink_errors s e;
}.

Section Emission.
Context `{SO : SinkOps K} {SR : SinkRoom K} {SS : SinkStore K} {HL : SinkLaws K} {HR : SinkRoomLaws K} {HS : SinkStoreLaws K}.
Context {RO : ReadOnlyData} (local : Z).
Implicit Types (s : K).

Definition LOCAL_BYTES : Z := 6.

(** Like a step of the sink, except that the local array may change. *)
Record json_step (vs : list Z) s s' : Prop := {
  js_inv : sink_inv s';
  js_contents : sink_contents s' = sink_contents s ++ vs;
  js_foreign : forall q n, sink_foreign s q n -> sink_foreign s' q n /\
    (disjoint_ranges q n local LOCAL_BYTES -> load_bytes (sink_mem s') q n = load_bytes (sink_mem s) q n);
}.

Lemma json_step_refl s : sink_inv s -> json_step [] s s.
Proof. intros. split; [done|by rewrite app_nil_r|done]. Qed.

Lemma json_step_trans vs ws s1 s2 s3 : json_step vs s1 s2 -> json_step ws s2 s3 -> json_step (vs ++ ws) s1 s3.
Proof.
  intros [Hi Hc Hf] [Hi' Hc' Hf']. split; [done|by rewrite Hc', Hc, app_assoc|].
  intros q n Hq. destruct (Hf q n Hq) as [Hq' E]. destruct (Hf' q n Hq') as [Hq'' E'].
  split; [done|]. intros Hd. by rewrite E', E.
Qed.

Lemma json_step_of_sink vs s s' : sink_step vs s s' -> json_step vs s s'.
Proof. intros [Hi Hc Hf]. split; [done|done|]. intros q n Hq. by destruct (Hf q n Hq). Qed.

Definition json_emits (vs : list Z) (c : ST K unit) s : Prop :=
  match c s with
  | (Ok _, s') => json_step vs s s'
  | (Err _, s') => exists ws, ws `prefix_of` vs /\ json_step ws s s'
  end /\ sink_total vs c s.

Lemma json_sends_emits vs c s : sink_sends vs c s -> json_emits vs c s.
Proof.
  intros [He Ht]. split; [|done]. revert He. unfold sink_emits. destruct (c s) as [[]]; [apply json_step_of_sink|].
  intros (ws & Hp & Hs). exists ws. split; [done|]. by apply json_step_of_sink.
Qed.

Lemma json_emits_seq vs ws c k s :
  json_emits vs c s -> (forall s', json_step vs s s' -> json_emits ws (k tt) s') -> json_emits (vs ++ ws) (c ≫= k) s.
Proof.
  intros [Hc Ht] Hk. split.
  2:{ apply sink_total_seq; [done|]. intros s' E. rewrite E in Hc. by apply Hk. }
  clear Ht. revert Hc. unfold_st. destruct (c s) as [[[]|e] s1]; intros Hc.
  - destruct (Hk s1 Hc) as [H _]. revert H. destruct (k tt s1) as [[[]|e] s2]; [by eapply json_step_trans|].
    intros (w & Hp & Hs). exists (vs ++ w). split; [by apply prefix_app|]. by eapply json_step_trans.
  - destruct Hc as (w & Hp & Hs). exists w. split; [|done]. etransitivity; [done|by apply prefix_app_r].
Qed.

(** The literals the writer sends. *)
Definition json_literals : list string := [JSON_QUOTE; JSON_ESCAPED_QUOTE; JSON_ESCAPED_BACKSLASH].

Definition readable_off_local s (b : SlBytes) (vs : list Z) : Prop :=
  sink_readable s b /\ bytes_val (sink_mem s) b = vs /\ disjoint_ranges (bytes_ptr b) (bytes_length b) local LOCAL_BYTES.

Definition str_bytes (text : SlStr) : SlBytes := sl_bytes_from_parts (str_ptr text) (str_length text).

Record json_ready s (text : SlStr) (t : list Z) : Prop := {
  jr_inv : sink_inv s;
  jr_text : readable_off_local s (str_bytes text) t;
  jr_local : sink_foreign s local LOCAL_BYTES /\ 0 < local /\ local + LOCAL_BYTES <= UINTPTR_MAX;
  jr_literals : Forall (fun l => readable_off_local s (sl_bytes_from_parts (rodata l) (string_size l)) (string_bytes l)) json_literals;
}.

Lemma readable_step vs s s' b ws : json_step vs s s' -> readable_off_local s b ws -> readable_off_local s' b ws.
Proof.
  intros [_ _ Hf] ([Hv Hw Hq] & E & Hd). destruct (Hf _ _ Hq) as [Hq' Hl]. split; [by split|]. split; [|done].
  rewrite <- E. by apply Hl.
Qed.

Lemma json_ready_step vs s s' text t : json_step vs s s' -> json_ready s text t -> json_ready s' text t.
Proof.
  intros Hs [H1 H2 (H3 & H3') H4]. split; [apply Hs|by eapply readable_step| |].
  - split; [|done]. by apply Hs.
  - eapply Forall_impl; [exact H4|]. intros l Hl. by eapply readable_step.
Qed.

(** A sink that appends what it is given. *)
Context (sink_fn : SlJsonWriterSink) (Hsink : forall b s, sink_fn b s = sink_append_bytes b s).

Lemma sink_fn_sends s b : sink_inv s -> sink_readable s b -> sink_sends (bytes_val (sink_mem s) b) (sink_fn b) s.
Proof.
  intros Hi Hr. split.
  - unfold sink_emits. rewrite Hsink. by apply sink_emits_bytes.
  - unfold sink_total. rewrite Hsink. by apply sink_room_bytes_law.
Qed.

(** Sending a readable view. *)
Lemma send_emits s b vs : sink_inv s -> readable_off_local s b vs -> json_emits vs (sink_fn b) s.
Proof. intros Hi (Hr & <- & _). by apply json_sends_emits, sink_fn_sends. Qed.

Lemma send_literal s text t l :
  json_ready s text t -> l ∈ json_literals ->
  json_emits (string_bytes l) (sl_json_writer_sink_cstr (Some sink_fn) (rodata l) (string_size l)) s.
Proof.
  intros [Hi _ _ Hl] Hin. rewrite Forall_forall in Hl. pose proof (Hl l Hin) as Hr. unfold sl_json_writer_sink_cstr.
  destruct (Z.eqb_spec (rodata l) 0) as [E|]; [|by apply send_emits].
  destruct Hr as ([[_ Hv] _ _] & _ & _). cbn in Hv. exfalso. destruct Hv as [Hv|Hv]; [|lia].
  unfold json_literals in Hin. revert Hv. unfold string_size.
  repeat (apply elem_of_cons in Hin as [->|Hin]; [done|]). by apply elem_of_nil in Hin.
Qed.

(** Building a sequence in the local array and sending it. *)
Lemma store_local s text t vs :
  json_ready s text t -> (0 < length vs <= 6)%nat -> Forall is_byte vs ->
  json_step [] s (sink_store local vs s) /\
  sink_readable (sink_store local vs s) (sl_bytes_from_parts local (Z.of_nat (length vs))) /\
  bytes_val (sink_mem (sink_store local vs s)) (sl_bytes_from_parts local (Z.of_nat (length vs))) = vs.
Proof.
  intros [Hi _ (Hf & Hpos & Hend) _] Hn Hb. unfold LOCAL_BYTES in *.
  assert (Hfn : sink_foreign s local (Z.of_nat (length vs))) by (eapply sink_foreign_sub; [exact Hf|lia..]).
  destruct (sink_store_law s local vs Hi Hfn Hb) as (I1 & I2 & I3 & I4). split; [|split; [|done]].
  - split; [done|by rewrite app_nil_r|]. intros q n Hq. destruct (I4 q n Hq) as [Hq' Hl]. split; [done|]. intros Hd.
    apply Hl. unfold disjoint_ranges, LOCAL_BYTES in *. lia.
  - split; [split; cbn; lia|split_and!; cbn; lia|]. by apply I4.
Qed.

Lemma json_sends_seq vs ws c k s :
  sink_sends vs c s -> (forall s', sink_step vs s s' -> json_emits ws (k tt) s') -> json_emits (vs ++ ws) (c ≫= k) s.
Proof.
  intros [Hc Ht] Hk. unfold sink_emits in Hc. split.
  2:{ apply sink_total_seq; [done|]. intros s' E. rewrite E in Hc. by apply Hk. }
  clear Ht. revert Hc. unfold_st. destruct (c s) as [[[]|e] s1]; intros Hc.
  - destruct (Hk s1 Hc) as [H _]. apply json_step_of_sink in Hc. revert H.
    destruct (k tt s1) as [[[]|e] s2]; [by eapply json_step_trans|].
    intros (w & Hp & Hs). exists (vs ++ w). split; [by apply prefix_app|]. by eapply json_step_trans.
  - destruct Hc as (w & Hp & Hs). exists w. split; [|by apply json_step_of_sink].
    etransitivity; [done|by apply prefix_app_r].
Qed.

Lemma json_emits_modify vs a ws k s :
  json_step [] s (sink_store a ws s) -> json_emits vs (k tt) (sink_store a ws s) ->
  json_emits vs (modify (sink_store a ws) ≫= k) s.
Proof.
  intros Hs [Hk Ht]. split.
  - clear Ht. revert Hk. unfold_st. destruct (k tt (sink_store a ws s)) as [[[]|e] s'].
    + apply (json_step_trans [] vs); done.
    + intros (w & Hp & Hw). exists w. split; [done|]. by apply (json_step_trans [] w s (sink_store a ws s)).
  - unfold sink_total in *. rewrite sink_store_room in Ht. destruct Ht as [Ht He]. split; [by apply Ht|].
    clear Ht Hk Hs. revert He. unfold_st. destruct (k tt (sink_store a ws s)) as [[[]|e] s'].
    + intros He e H. eapply sink_store_errors. by apply He.
    + intros He. by eapply sink_store_errors.
Qed.

Definition slice (a b : Z) (t : list Z) : list Z := take (Z.to_nat (b - a)) (drop (Z.to_nat a) t).

Lemma ready_length s text t : json_ready s text t -> str_length text = Z.of_nat (length t) /\ 0 <= str_length text.
Proof.
  intros [_ ([[Hl _] _ _] & <- & _) _ _]. cbn in Hl. unfold bytes_val, load_bytes. rewrite length_load. cbn. lia.
Qed.

(** The run of plain bytes. *)
Lemma write_run_emits s text t run index :
  json_ready s text t -> 0 <= run <= index -> index <= str_length text ->
  sink_sends (slice run index t) (write_run sink_fn text run index) s.
Proof.
  intros Hr Hri Hi. pose proof Hr as [Hinv ([[Hl Hv] (_ & Hp & He) Hf] & Ht & _) _ _]. cbn in Hl, Hv, Hp, He, Hf.
  unfold write_run. destruct (Z.ltb_spec run index) as [Hlt|Hge].
  2:{ unfold slice. replace (Z.to_nat (index - run)) with 0%nat by lia. rewrite take_0.
      split; [by apply sink_emits_ret|]. split; [|by intros e]. intros _. exists s. split; [done|]. cbn [length]. lia. }
  unfold sl_json_writer_sink_str. cbn [str_ptr str_length sl_str_from_parts].
  destruct (Z.eqb_spec (str_ptr text + run) 0) as [E|]; [lia|]. cbn [andb].
  replace (slice run index t) with (bytes_val (sink_mem s) (sl_bytes_from_parts (str_ptr text + run) (index - run))).
  2:{ unfold slice. rewrite <- Ht. unfold bytes_val. cbn [bytes_ptr bytes_length str_bytes sl_bytes_from_parts].
      rewrite load_bytes_drop by lia. rewrite load_bytes_take by lia. done. }
  apply sink_fn_sends; [done|]. split; [split; cbn; lia|split_and!; cbn; lia|]. cbn.
  eapply sink_foreign_sub; [exact Hf|lia..].
Qed.

Lemma slice_snoc run index t b :
  0 <= run <= index -> t !! Z.to_nat index = Some b -> slice run (index + 1) t = slice run index t ++ [b].
Proof.
  intros Hr Hb. unfold slice. replace (Z.to_nat (index + 1 - run)) with (S (Z.to_nat (index - run))) by lia.
  apply take_S_r. rewrite lookup_drop. rewrite <- Hb. f_equal. lia.
Qed.

Lemma slice_nil a t : slice a a t = [].
Proof. unfold slice. by rewrite Z.sub_diag. Qed.

Lemma plain_byte cp b :
  (b =? 34) = false -> (b =? 92) = false -> sl_json_writer_named_escape_allowed b && negb cp = false ->
  negb (sl_json_writer_named_escape_allowed b) && (32 <=? b) = true -> escape_byte cp b = [b].
Proof.
  intros E1 E2 E3 E4. unfold escape_byte. rewrite E1, E2, E3. apply andb_true_iff in E4 as [_ E4].
  destruct (Z.ltb_spec b 32); [lia|done].
Qed.

Lemma hex_digit_byte i : is_byte (hex_digit i).
Proof.
  unfold hex_digit. assert (Hall : Forall is_byte (string_bytes "0123456789abcdef")).
  { apply (bool_decide_unpack _). vm_compute. exact I. }
  destruct (lookup_lt_is_Some (string_bytes "0123456789abcdef") (Z.to_nat i)) as [_ H].
  destruct (decide (Z.to_nat i < length (string_bytes "0123456789abcdef"))%nat) as [Hlt|Hge].
  - destruct (H Hlt) as [x Hx]. rewrite (nth_lookup_Some _ _ _ _ Hx). by eapply Forall_lookup_1.
  - rewrite nth_overflow by lia. unfold is_byte. lia.
Qed.

Lemma codepoint_digits b :
  is_byte b -> Z.land (Z.shiftr b 4) 15 = b / 16 /\ Z.land b 15 = b mod 16.
Proof.
  intros Hb. change 15 with (Z.ones 4). rewrite !Z.land_ones, Z.shiftr_div_pow2 by lia. change (2 ^ 4) with 16.
  split; [|done]. apply Z.mod_small. unfold is_byte in Hb. div_lia.
Qed.

(** Sending a sequence built in the local array, after the run before it. *)
Lemma local_sequence_emits s text t run index vs rest k :
  json_ready s text t -> 0 <= run <= index -> index <= str_length text -> (0 < length vs <= 6)%nat -> Forall is_byte vs ->
  (forall s', json_step (slice run index t ++ vs) s s' -> json_emits rest (k tt) s') ->
  json_emits (slice run index t ++ vs ++ rest)
    (modify (sink_store local vs) ≫= fun _ => write_run sink_fn text run index ≫= fun _ =>
     sink_fn (sl_bytes_from_parts local (Z.of_nat (length vs))) ≫= k) s.
Proof.
  intros Hr Hri Hi Hn Hb Hk. destruct (store_local s text t vs Hr Hn Hb) as (Hst & Hrd & Hval).
  apply json_emits_modify; [done|]. pose proof (json_ready_step _ _ _ _ _ Hst Hr) as Hr1.
  apply json_sends_seq; [by apply write_run_emits|]. intros s2 Hs2.
  destruct (sink_step_readable _ _ _ _ Hs2 Hrd) as [Hrd2 Hval2].
  apply json_sends_seq.
  { pose proof (sink_fn_sends s2 _ (ss_inv _ _ _ Hs2) Hrd2) as He. by rewrite Hval2, Hval in He. }
  intros s3 Hs3. apply Hk. apply (json_step_trans [] _ s (sink_store local vs s)); [done|].
  eapply json_step_trans; by apply json_step_of_sink.
Qed.

(** The same when the run goes first. *)
Lemma run_then_local_emits s text t run index vs rest k :
  json_ready s text t -> 0 <= run <= index -> index <= str_length text -> (0 < length vs <= 6)%nat -> Forall is_byte vs ->
  (forall s', json_step (slice run index t ++ vs) s s' -> json_emits rest (k tt) s') ->
  json_emits (slice run index t ++ vs ++ rest)
    (write_run sink_fn text run index ≫= fun _ =>
     (modify (sink_store local vs) ≫= fun _ => sink_fn (sl_bytes_from_parts local (Z.of_nat (length vs)))) ≫= k) s.
Proof.
  intros Hr Hri Hi Hn Hb Hk. apply json_sends_seq; [by apply write_run_emits|]. intros s1 Hs1.
  apply json_step_of_sink in Hs1. pose proof (json_ready_step _ _ _ _ _ Hs1 Hr) as Hr1.
  destruct (store_local s1 text t vs Hr1 Hn Hb) as (Hst & Hrd & Hval).
  apply json_emits_seq.
  { apply json_emits_modify; [done|]. pose proof (sink_fn_sends _ _ (js_inv _ _ _ Hst) Hrd) as He. rewrite Hval in He.
    by apply json_sends_emits. }
  intros s2 Hs2. apply Hk. by eapply json_step_trans.
Qed.

Lemma literal_then s text t run index l rest k :
  json_ready s text t -> 0 <= run <= index -> index <= str_length text -> l ∈ json_literals ->
  (forall s', json_step (slice run index t ++ string_bytes l) s s' -> json_emits rest (k tt) s') ->
  json_emits (slice run index t ++ string_bytes l ++ rest)
    (write_run sink_fn text run index ≫= fun _ =>
     sl_json_writer_sink_cstr (Some sink_fn) (rodata l) (string_size l) ≫= k) s.
Proof.
  intros Hr Hri Hi Hin Hk. apply json_sends_seq; [by apply write_run_emits|]. intros s1 Hs1.
  apply json_step_of_sink in Hs1. apply json_emits_seq; [eapply send_literal; [by eapply json_ready_step|done]|].
  intros s2 Hs2. apply Hk. by eapply json_step_trans.
Qed.

Lemma ready_byte s text t index :
  json_ready s text t -> 0 <= index < str_length text ->
  exists b, t !! Z.to_nat index = Some b /\ is_byte b /\ ld8 (sink_mem s) (str_ptr text + index) = b.
Proof.
  intros Hr Hi. pose proof (ready_length _ _ _ Hr) as [Hl _]. pose proof Hr as [_ (_ & Ht & _) _ _].
  destruct (lookup_lt_is_Some_2 t (Z.to_nat index)) as [b Hb]; [lia|]. exists b. split; [done|].
  rewrite <- Ht in Hb. pose proof (view_lookup _ _ _ _ Hb) as Hv. cbn in Hv. rewrite Z2Nat.id in Hv by lia. rewrite Hv.
  split; [|done]. rewrite <- Hv. apply ld8_range.
Qed.

Lemma escape_loop_emits text t cp n : forall index run s,
  json_ready s text t -> 0 <= run <= index -> index + Z.of_nat n = str_length text ->
  json_emits (slice run index t ++ escaped cp (drop (Z.to_nat index) t) ++ [34])
    (escape_loop local sink_fn text cp index run n) s.
Proof.
  induction n as [|n IH]; intros index run s Hr Hri Hn; pose proof (ready_length _ _ _ Hr) as [Hlen _]; cbn [escape_loop].
  { rewrite drop_ge by lia. replace index with (str_length text) by lia. cbn [escaped app map mjoin].
    apply json_sends_seq; [by apply write_run_emits; [done|lia|lia]|]. intros s1 Hs1. apply json_step_of_sink in Hs1.
    apply (send_literal s1 text t JSON_QUOTE); [by eapply json_ready_step|apply list_elem_of_here]. }
  destruct (ready_byte s text t index Hr ltac:(lia)) as (b & Hb & Hbyte & Hld).
  change (json_emits ?v (gets ?g ≫= ?f) s) with (json_emits v (f (g s)) s). cbv beta. rewrite Hld.
  rewrite (drop_S _ _ _ Hb), escaped_cons, <- !app_assoc.
  replace (S (Z.to_nat index)) with (Z.to_nat (index + 1)) by lia.
  assert (Hnext : forall vs s', json_step vs s s' ->
    json_emits (escaped cp (drop (Z.to_nat (index + 1)) t) ++ [34])
      (escape_loop local sink_fn text cp (index + 1) (index + 1) n) s').
  { intros vs s' Hs. pose proof (IH (index + 1) (index + 1) s' (json_ready_step _ _ _ _ _ Hs Hr) ltac:(lia) ltac:(lia)) as H.
    by rewrite slice_nil in H. }
  destruct (b =? 34) eqn:E1.
  { apply Z.eqb_eq in E1 as ->. apply (literal_then s text t run index JSON_ESCAPED_QUOTE); [done|lia|lia|by do 2 constructor|].
    intros s'. apply Hnext. }
  destruct (b =? 92) eqn:E2.
  { apply Z.eqb_eq in E2 as ->. apply (literal_then s text t run index JSON_ESCAPED_BACKSLASH);
      [done|lia|lia|by do 3 constructor|]. intros s'. apply Hnext. }
  destruct (sl_json_writer_named_escape_allowed b && negb cp) eqn:E3.
  { replace (escape_byte cp b) with [92; sl_json_writer_escape_letter b] by (unfold escape_byte; by rewrite E1, E2, E3).
    apply (local_sequence_emits s text t run index [92; sl_json_writer_escape_letter b]); [done|lia|lia|cbn; lia| |].
    - constructor; [unfold is_byte; lia|]. constructor; [|constructor]. unfold sl_json_writer_escape_letter, is_byte.
      repeat split_if; lia.
    - intros s'. apply Hnext. }
  destruct (negb (sl_json_writer_named_escape_allowed b) && (32 <=? b)) eqn:E4.
  { rewrite (plain_byte cp b) by done. rewrite app_assoc, <- slice_snoc by (done || lia). apply IH; [done|lia|lia]. }
  assert (Hlow : b < 32).
  { unfold sl_json_writer_named_escape_allowed in *. destruct (Z.leb_spec 32 b); lia. }
  destruct (codepoint_digits b Hbyte) as [D1 D2].
  replace (escape_byte cp b) with [92; 117; 48; 48; hex_digit (b / 16); hex_digit (b mod 16)].
  2:{ unfold escape_byte. rewrite E1, E2, E3. by rewrite (proj2 (Z.ltb_lt _ _) Hlow). }
  unfold sl_json_writer_sink_codepoint_escape. rewrite D1, D2.
  apply (run_then_local_emits s text t run index [92; 117; 48; 48; hex_digit (b / 16); hex_digit (b mod 16)]);
    [done|lia|lia|cbn; lia| |intros s'; apply Hnext].
  repeat (constructor; [first [apply hex_digit_byte|unfold is_byte; lia]|]). constructor.
Qed.

Lemma needs_escape_false m cp n : forall ptr,
  needs_escape_loop m ptr n = false -> escaped cp (load m ptr n) = load m ptr n.
Proof.
  induction n as [|n IH]; intros ptr Hn; [done|]. cbn [needs_escape_loop] in Hn. cbn [load]. rewrite escaped_cons.
  destruct (_ || _) eqn:E in Hn; [done|]. rewrite IH by done. unfold escape_byte.
  destruct (ld8 m ptr =? 34) eqn:E1; [done|]. destruct (ld8 m ptr =? 92) eqn:E2; [done|]. cbn [orb] in E. rewrite E.
  destruct (sl_json_writer_named_escape_allowed (ld8 m ptr)) eqn:E3; [|done].
  unfold sl_json_writer_named_escape_allowed in E3. lia.
Qed.

(** The writer emits exactly the quoted text, through both of its paths. *)
Lemma escaped_string_emits s text t cp :
  json_ready s text t ->
  json_emits (quoted cp t) (sl_json_writer_sink_escaped_string_with_mode local text cp (Some sink_fn)) s.
Proof.
  intros Hr. pose proof Hr as [_ ([[Hl Hv] (_ & Hp & He) Hf] & Ht & Hd) _ _]. cbn in Hl, Hv.
  unfold sl_json_writer_sink_escaped_string_with_mode.
  assert (Hnull : (str_ptr text =? 0) && negb (str_length text =? 0) = false)
    by (destruct (Z.eqb_spec (str_ptr text) 0); destruct (Z.eqb_spec (str_length text) 0); cbn; lia).
  rewrite Hnull. change (json_emits ?v (gets ?g ≫= ?f) s) with (json_emits v (f (g s)) s). cbv beta.
  change (quoted cp t) with (string_bytes JSON_QUOTE ++ (escaped cp t ++ [34])).
  apply json_emits_seq; [apply (send_literal s text t JSON_QUOTE); [done|apply list_elem_of_here]|].
  intros s1 Hs1. pose proof (json_ready_step _ _ _ _ _ Hs1 Hr) as Hr1.
  destruct (sl_json_writer_string_needs_escape (sink_mem s) text) eqn:En; cbn [negb].
  - pose proof (escape_loop_emits text t cp (Z.to_nat (str_length text)) 0 0 s1 Hr1 ltac:(lia) ltac:(lia)) as H.
    by rewrite slice_nil, drop_0 in H.
  - assert (Hsame : escaped cp t = t).
    { rewrite <- Ht. unfold bytes_val, load_bytes. cbn. by apply needs_escape_false. }
    rewrite Hsame. unfold sl_json_writer_sink_str. rewrite Hnull.
    apply json_emits_seq; [apply send_emits; apply Hr1|]. intros s2 Hs2.
    apply (send_literal s2 text t JSON_QUOTE); [by eapply json_ready_step|apply list_elem_of_here].
Qed.
End Emission.

(** * What the sink keeps, the writer keeps *)

Section Invariance.
Context `{SO : SinkOps K} {SS : SinkStore K} {RO : ReadOnlyData} (local : Z) (P : K -> Prop).

Context (sink : SlJsonWriterSink) (Hsink : forall b, stable P (sink b)).
Context (Hstore : forall vs s, P s -> P (sink_store local vs s)).

Lemma stable_store vs : stable P (modify (sink_store local vs)).
Proof. intros s. apply Hstore. Qed.

Ltac json_stable := repeat first [ apply Hsink | apply stable_store | stable_step | solve [auto] ].

Lemma stable_run text run index : stable P (write_run sink text run index).
Proof. unfold write_run, sl_json_writer_sink_str. json_stable. Qed.

Lemma stable_cstr p n : stable P (sl_json_writer_sink_cstr (Some sink) p n).
Proof. unfold sl_json_writer_sink_cstr. json_stable. Qed.

Lemma stable_escape_loop text cp n : forall index run, stable P (escape_loop local sink text cp index run n).
Proof.
  induction n as [|n IH]; intros index run; cbn [escape_loop]; unfold sl_json_writer_sink_codepoint_escape;
    json_stable; auto using stable_run, stable_cstr.
Qed.

Lemma stable_escaped_string text cp :
  stable P (sl_json_writer_sink_escaped_string_with_mode local text cp (Some sink)).
Proof.
  unfold sl_json_writer_sink_escaped_string_with_mode, sl_json_writer_sink_str.
  json_stable; auto using stable_cstr, stable_escape_loop.
Qed.
End Invariance.
