(* ===== verification/JsonWriter.v ===== *)
(** The users of the escaping routine of src/core/json_writer.c: string and byte
    builders, and [SlJsonWriter], a writer over a fixed buffer.

    [local] is the address of the escape sequences' local array and [scratch] that
    of the inline array of a local builder.  [sl_json_writer_write_f64] goes through
    the formatted output of the C library and is left out. *)

From stdpp Require Import strings.
From S2P Require Import Prelude Memory Status Arena Str Bytes Container Sink Builder Diag Json.

Open Scope Z_scope.

(** * Builders *)

#[export] Instance builder_sink_store : SinkStore BuilderSys := {
  sink_store a vs s := set_bs_mem (store (bs_mem s) a vs) s;
}.

(** [dst = *builder]: the inline array is copied along; [small] is that of [dst]. *)
Definition assign_builder (small : Z) (s : BuilderSys) : BuilderSys :=
  let b := bs_builder s in
  set_builder
    {| bb_data := bb_data b; bb_length := bb_length b; bb_capacity := bb_capacity b;
       bb_max_capacity := bb_max_capacity b; bb_grow_count := bb_grow_count b; bb_copied_bytes := bb_copied_bytes b;
       bb_appended_bytes := bb_appended_bytes b; bb_failed_reserve_count := bb_failed_reserve_count b;
       bb_arena := bb_arena b; bb_storage := bb_storage b; bb_small := small |}
    (set_bs_mem (copy_forward (bs_mem s) small (bb_small b) (Z.to_nat SL_BYTE_BUILDER_SMALL_CAPACITY)) s).

Section Builders.
Context {BC : BuildConfig} {RO : ReadOnlyData} (local scratch : Z).

Definition sl_json_writer_string_builder_sink (user : nullable) (bytes : SlBytes) : ST BuilderSys unit :=
  return_if is_null user with SL_STATUS_INVALID_ARGUMENT ;;
  sl_string_builder_append_str user (sl_str_from_parts (bytes_ptr bytes) (bytes_length bytes)).

Definition sl_json_writer_append_escaped_string_with_mode (builder : nullable) (text : SlStr) (codepoint_controls : bool)
    : ST BuilderSys unit :=
  return_if is_null builder with SL_STATUS_INVALID_ARGUMENT ;;
  sl_json_writer_sink_escaped_string_with_mode local text codepoint_controls
    (Some (sl_json_writer_string_builder_sink builder)).

Definition sl_json_writer_append_escaped_string (builder : nullable) (text : SlStr) : ST BuilderSys unit :=
  sl_json_writer_append_escaped_string_with_mode builder text false.

Definition sl_json_writer_append_escaped_string_profiled (builder : nullable) (text : SlStr) : ST BuilderSys unit :=
  sl_json_writer_append_escaped_string_with_mode builder text false.

Definition sl_json_writer_append_escaped_string_codepoint_controls (builder : nullable) (text : SlStr)
    : ST BuilderSys unit :=
  sl_json_writer_append_escaped_string_with_mode builder text true.

(** Works on a copy of the builder and publishes it on success. *)
Definition sl_json_writer_append_escaped_string_bytes (builder : nullable) (text : SlStr) : ST BuilderSys unit :=
  return_if is_null builder with SL_STATUS_INVALID_ARGUMENT ;;
  fun s =>
    let original := bs_builder s in
    match sl_json_writer_append_escaped_string REF text (assign_builder scratch s) with
    | (Ok _, s') => (Ok tt, assign_builder (bb_small original) s')
    | (Err c, s') => (Err c, set_builder original s')
    end.
End Builders.

(** * The fixed writer *)

Record SlJsonWriter := { jw_data : Z; jw_length : Z; jw_capacity : Z }.

Record JsonSys := { js_world : World; js_writer : SlJsonWriter }.

Definition js_mem (s : JsonSys) : mem := w_mem (js_world s).
Definition set_js_mem (m : mem) (s : JsonSys) : JsonSys :=
  {| js_world := set_mem m (js_world s); js_writer := js_writer s |}.
Definition set_jw_length (n : Z) (s : JsonSys) : JsonSys :=
  {| js_world := js_world s;
     js_writer := {| jw_data := jw_data (js_writer s); jw_length := n; jw_capacity := jw_capacity (js_writer s) |} |}.

Definition sl_json_writer_reserve (writer : nullable) (w : SlJsonWriter) (additional : Z) : result unit :=
  error_if is_null writer || ((jw_data w =? 0) && negb (jw_capacity w =? 0)) with SL_STATUS_INVALID_ARGUMENT ;;
  error_if (jw_capacity w <? additional) || (wrap64 (jw_capacity w - additional) <? jw_length w)
    with SL_STATUS_CAPACITY_EXCEEDED ;;
  Ok tt.

Definition sl_json_writer_init_fixed (writer : nullable) (buffer capacity : Z) : ST JsonSys unit :=
  return_if is_null writer || ((buffer =? 0) && negb (capacity =? 0)) with SL_STATUS_INVALID_ARGUMENT ;;
  modify (fun s => {| js_world := js_world s; js_writer := {| jw_data := buffer; jw_length := 0; jw_capacity := capacity |} |}).

Definition sl_json_writer_view (writer : nullable) (w : SlJsonWriter) : SlBytes :=
  if is_null writer then sl_bytes_empty else sl_bytes_from_parts (jw_data w) (jw_length w).

Definition sl_json_writer_write_bytes (writer : nullable) (bytes : SlBytes) : ST JsonSys unit :=
  return_if is_null writer || ((bytes_ptr bytes =? 0) && negb (bytes_length bytes =? 0)) with SL_STATUS_INVALID_ARGUMENT ;;
  w ← gets js_writer ;
  lift (sl_json_writer_reserve writer w (bytes_length bytes)) ;;
  (if negb (bytes_length bytes =? 0)
   then modify (fun s => set_js_mem
          (copy_forward (js_mem s) (jw_data w + jw_length w) (bytes_ptr bytes) (Z.to_nat (bytes_length bytes))) s)
   else mret tt) ;;
  modify (set_jw_length (wrap64 (jw_length w + bytes_length bytes))).

Definition sl_json_writer_write_str (writer : nullable) (text : SlStr) : ST JsonSys unit :=
  sl_json_writer_write_bytes writer (sl_bytes_from_parts (str_ptr text) (str_length text)).

Definition sl_json_writer_write_char (writer : nullable) (value : Z) : ST JsonSys unit :=
  w ← gets js_writer ;
  lift (sl_json_writer_reserve writer w 1) ;;
  modify (fun s => set_js_mem (st8 (js_mem s) (jw_data w + jw_length w) (wrap8 value)) s) ;;
  modify (set_jw_length (wrap64 (jw_length w + 1))).

Section Writer.
Context {BC : BuildConfig} {RO : ReadOnlyData} (local scratch : Z).

(** A call on the local string builder; the writer's memory is the builder's. *)
Definition with_string_builder {A} (c : ST BuilderSys A) : ST JsonSys (A * SlByteBuilder) := fun s =>
  let '(r, s') := c {| bs_world := js_world s; bs_builder := local_builder scratch |} in
  (v ← r ; Ok (v, bs_builder s'), {| js_world := bs_world s'; js_writer := js_writer s |}).

Definition sl_json_writer_write_string (writer : nullable) (text : SlStr) : ST JsonSys unit :=
  w ← gets js_writer ;
  return_if is_null writer || ((str_ptr text =? 0) && negb (str_length text =? 0)) || (jw_capacity w <? jw_length w)
            || ((jw_data w =? 0) && negb (jw_capacity w =? 0)) with SL_STATUS_INVALID_ARGUMENT ;;
  let remaining := if jw_length w <? jw_capacity w then jw_data w + jw_length w else 0 in
  built ← with_string_builder
    (sl_string_builder_init_fixed REF remaining (wrap64 (jw_capacity w - jw_length w)) ;;
     sl_json_writer_append_escaped_string_profiled local REF text) ;
  modify (set_jw_length (wrap64 (jw_length w + str_length (sl_string_builder_view REF (snd built))))).

(** [buffer] is the local array of digits. *)
Definition sl_json_writer_write_i64 (buffer : Z) (writer : nullable) (value : Z) : ST JsonSys unit :=
  formatted ← zoom js_mem set_js_mem (sl_string_format_i64 buffer SL_STRING_FORMAT_I64_CAPACITY value REF) ;
  sl_json_writer_write_str writer formatted.
End Writer.

(** * The builder as a sink with room *)

Section Instance_.
Context {BC : BuildConfig}.

#[export] Instance builder_sink_store_laws : SinkStoreLaws BuilderSys.
Proof.
  split.
  - intros s q n p k H1 H2 _ H3. by eapply foreign_sub.
  - intros s a vs Hwf [Hs Hd] Hb. cbn [sink_store sink_mem sink_contents sink_inv sink_foreign builder_sink_store builder_sink_ops].
    pose proof (store_same_outside (bs_mem s) a vs) as Hsame. pose proof (bw_bounds _ Hwf).
    split; [by destruct Hwf; split|]. split.
    + unfold contents. eapply load_bytes_same; [apply Hsame|]. unfold disjoint_ranges in *.
      change (sl_byte_builder_data (bs_builder (set_bs_mem (store (bs_mem s) a vs) s)))
        with (sl_byte_builder_data (bs_builder s)). cbn. lia.
    + split; [unfold load_bytes; rewrite Nat2Z.id; by apply load_store|]. intros q n Hq. split; [done|].
      intros Hdj. eapply load_bytes_same; [apply Hsame|]. unfold disjoint_ranges in *. lia.
  - done.
  - done.
Qed.
End Instance_.

(** * Escaping into a builder *)

Section Escaping.
Context {BC : BuildConfig} {RO : ReadOnlyData} (local : Z).

Lemma string_builder_sink_appends b s : sl_json_writer_string_builder_sink REF b s = sink_append_bytes b s.
Proof. by destruct b. Qed.

Lemma append_escaped_emits s text t cp :
  json_ready local s text t ->
  json_emits local (quoted cp t) (sl_json_writer_append_escaped_string_with_mode local REF text cp) s.
Proof. apply escaped_string_emits, string_builder_sink_appends. Qed.

Lemma append_escaped_stable st mx sm d c text cp :
  stable (geometry st mx sm d c) (sl_json_writer_append_escaped_string_with_mode local REF text cp).
Proof.
  apply stable_escaped_string; [|done]. intros b s Hs. rewrite string_builder_sink_appends. by apply stable_append_bytes.
Qed.

Lemma ready_bytes s text t : json_ready local s text t -> Forall is_byte t.
Proof. intros [_ (_ & <- & _) _ _]. apply load_is_byte. Qed.

Lemma quoted_clean cp t : Forall is_byte t -> Forall (fun b => 32 <= b < 256) (quoted cp t).
Proof.
  intros Ht. unfold quoted. constructor; [lia|]. apply Forall_app. split; [by apply escaped_clean|]. constructor; [lia|constructor].
Qed.

(** The length computed beforehand is the length of the output. *)
Lemma escaped_string_length_spec s text t cp :
  json_ready local s text t -> Z.of_nat (length (quoted cp t)) <= SIZE_MAX ->
  sl_json_writer_escaped_string_length_with_mode (sink_mem s) text cp REF = Ok (Z.of_nat (length (quoted cp t))).
Proof.
  intros [_ ([[Hl Hv] _ _] & Ht & _) _ _] Hmax. cbn in Hl, Hv. unfold sl_json_writer_escaped_string_length_with_mode.
  replace (is_null REF || (str_ptr text =? 0) && negb (str_length text =? 0)) with false
    by (cbn; destruct (Z.eqb_spec (str_ptr text) 0); destruct (Z.eqb_spec (str_length text) 0); cbn; lia).
  rewrite escaped_length_loop_spec by size_lia.
  replace (load (sink_mem s) (str_ptr text) (Z.to_nat (str_length text))) with t by (by rewrite <- Ht).
  cbv zeta. unfold quoted in *. cbn [length] in *. rewrite length_app in *. cbn [length] in *.
  destruct (Z.leb_spec (2 + Z.of_nat (length (escaped cp t))) SIZE_MAX); [f_equal; lia|lia].
Qed.

Lemma contents_length s : builder_wf s -> Z.of_nat (length (contents s)) = bb_length (bs_builder s).
Proof. intros Hwf. unfold contents. apply length_load_bytes. pose proof (bw_bounds _ Hwf). lia. Qed.

(** C17: Escaping is inverted by reading: on success the text appended to the
    builder is a JSON string literal (RFC 8259) that denotes exactly the given bytes,
    has no control character, and has the length computed beforehand by the length
    function; on failure the bytes appended are a prefix of that literal; and the call
    succeeds whenever the literal fits in the builder's capacity.  Both treatments of
    control characters (named escapes or code points) are covered, and the text and
    everything outside the builder and the local array keep their bytes. *)
Theorem json_escape_roundtrip s text t cp :
  json_ready local s text t ->
  let r := sl_json_writer_append_escaped_string_with_mode local REF text cp s in
  exists out, json_string out = Some t /\ Forall (fun b => 32 <= b < 256) out /\
    (forall q n, foreign s q n -> disjoint_ranges q n local LOCAL_BYTES ->
       load_bytes (bs_mem (snd r)) q n = load_bytes (bs_mem s) q n) /\
    (Z.of_nat (length out) <= bb_capacity (bs_builder s) - bb_length (bs_builder s) -> fst r = Ok tt) /\
    match r with
    | (Ok _, s') => builder_wf s' /\ contents s' = contents s ++ out /\
        sl_json_writer_escaped_string_length_with_mode (bs_mem s) text cp REF = Ok (Z.of_nat (length out))
    | (Err _, s') => builder_wf s' /\ exists ws, ws `prefix_of` out /\ contents s' = contents s ++ ws
    end.
Proof.
  intros Hr. cbv zeta. pose proof (ready_bytes _ _ _ Hr) as Hb. exists (quoted cp t).
  split; [by apply quoted_decode|]. split; [by apply quoted_clean|].
  destruct (append_escaped_emits s text t cp Hr) as [He [Hfit _]].
  split; [|split; [intros H; by destruct (Hfit H) as (s' & -> & _)|]].
  - intros q n Hq Hd. destruct (sl_json_writer_append_escaped_string_with_mode local REF text cp s) as [[[]|e] s'].
    + by apply He.
    + destruct He as (ws & _ & He). by apply He.
  - clear Hfit. destruct (sl_json_writer_append_escaped_string_with_mode local REF text cp s) as [[[]|e] s'].
    + destruct He as [Hwf Hc _]. split; [exact Hwf|]. split; [exact Hc|].
      apply (escaped_string_length_spec s text t cp Hr). pose proof (contents_length s' Hwf) as Hlen.
      pose proof (bw_bounds _ Hwf). cbn in Hc. rewrite Hc, length_app in Hlen. lia.
    + destruct He as (ws & Hp & [Hwf Hc _]). split; [exact Hwf|]. by exists ws.
Qed.
End Escaping.

(** * The fixed writer is a bounded list of bytes *)

Definition written (s : JsonSys) : list Z := load_bytes (js_mem s) (jw_data (js_writer s)) (jw_length (js_writer s)).

Record writer_wf (w : SlJsonWriter) : Prop := {
  jw_bounds : 0 <= jw_length w <= jw_capacity w;
  jw_ptr : 0 <= jw_data w /\ (0 < jw_capacity w -> 0 < jw_data w) /\ jw_data w + jw_capacity w <= UINTPTR_MAX;
}.

(** Writing [vs]: all of it or, when it does not fit, none of it.  [safe] are the
    ranges besides the buffer that the call does not use. *)
Definition writer_puts (safe : Z -> Z -> Prop) (vs : list Z) (c : ST JsonSys unit) (s : JsonSys) : Prop :=
  let '(r, s') := c s in
  let w := js_writer s in
  (if jw_length w + Z.of_nat (length vs) <=? jw_capacity w
   then r = Ok tt /\ written s' = written s ++ vs /\
        js_writer s' = {| jw_data := jw_data w; jw_length := jw_length w + Z.of_nat (length vs); jw_capacity := jw_capacity w |}
   else r = Err SL_STATUS_CAPACITY_EXCEEDED /\ written s' = written s /\ js_writer s' = w) /\
  forall q n, safe q n -> disjoint_ranges q n (jw_data w) (jw_capacity w) ->
    load_bytes (js_mem s') q n = load_bytes (js_mem s) q n.

Lemma writer_puts_wf safe vs c s : writer_wf (js_writer s) -> writer_puts safe vs c s -> writer_wf (js_writer (snd (c s))).
Proof.
  intros [Hb Hp]. unfold writer_puts. destruct (c s) as [r s']. intros [H _]. cbn.
  destruct (Z.leb_spec (jw_length (js_writer s) + Z.of_nat (length vs)) (jw_capacity (js_writer s)));
    destruct H as (_ & _ & ->); split; cbn; lia.
Qed.

Lemma reserve_exact w n :
  writer_wf w -> is_size n ->
  sl_json_writer_reserve REF w n =
  if jw_length w + n <=? jw_capacity w then Ok tt else Err SL_STATUS_CAPACITY_EXCEEDED.
Proof.
  intros [Hb (Hp0 & Hp & He)] Hn. unfold sl_json_writer_reserve.
  replace (is_null REF || (jw_data w =? 0) && negb (jw_capacity w =? 0)) with false
    by (cbn; destruct (Z.eqb_spec (jw_data w) 0); destruct (Z.eqb_spec (jw_capacity w) 0); cbn; lia).
  destruct (Z.ltb_spec (jw_capacity w) n); cbn [orb].
  - destruct (Z.leb_spec (jw_length w + n) (jw_capacity w)); [lia|done].
  - rewrite wrap64_small by size_lia.
    destruct (Z.ltb_spec (jw_capacity w - n) (jw_length w)); destruct (Z.leb_spec (jw_length w + n) (jw_capacity w)); try lia; done.
Qed.

(** Bytes stored right after the text written so far. *)
Lemma written_extend s m' n vs :
  writer_wf (js_writer s) -> 0 <= n -> jw_length (js_writer s) + n <= jw_capacity (js_writer s) ->
  let p := jw_data (js_writer s) + jw_length (js_writer s) in
  load_bytes m' p n = vs -> same_outside p (p + n) (js_mem s) m' ->
  written (set_jw_length (wrap64 (jw_length (js_writer s) + n)) (set_js_mem m' s)) = written s ++ vs /\
  forall q k, disjoint_ranges q k (jw_data (js_writer s)) (jw_capacity (js_writer s)) ->
    load_bytes m' q k = load_bytes (js_mem s) q k.
Proof.
  cbv zeta. intros [Hb (Hp0 & Hp & He)] Hn Hfit Hvs Hs. rewrite wrap64_small by size_lia. split.
  - change (written (set_jw_length ?l (set_js_mem m' s))) with (load_bytes m' (jw_data (js_writer s)) l).
    rewrite load_bytes_app by lia. unfold written. f_equal; [|done].
    eapply load_bytes_same; [exact Hs|]. unfold disjoint_ranges. lia.
  - intros q k Hd. eapply load_bytes_same; [exact Hs|]. unfold disjoint_ranges in *. lia.
Qed.

Definition anything (q n : Z) : Prop := True.

Lemma write_bytes_puts s bytes :
  writer_wf (js_writer s) -> bytes_valid bytes -> bytes_wf bytes ->
  disjoint_ranges (bytes_ptr bytes) (bytes_length bytes) (jw_data (js_writer s)) (jw_capacity (js_writer s)) ->
  writer_puts anything (bytes_val (js_mem s) bytes) (sl_json_writer_write_bytes REF bytes) s.
Proof.
  intros Hwf [_ Hv] (Hl & Hp & He) Hd. pose proof Hwf as [Hb (Hp0 & Hp1 & Hp2)].
  assert (Hlen : Z.of_nat (length (bytes_val (js_mem s) bytes)) = bytes_length bytes) by (apply length_load_bytes; lia).
  unfold writer_puts, sl_json_writer_write_bytes. unfold_st. rewrite Hlen.
  replace (is_null REF || (bytes_ptr bytes =? 0) && negb (bytes_length bytes =? 0)) with false
    by (cbn; destruct (Z.eqb_spec (bytes_ptr bytes) 0); destruct (Z.eqb_spec (bytes_length bytes) 0); cbn; lia).
  rewrite reserve_exact by (done || size_lia).
  destruct (Z.leb_spec (jw_length (js_writer s) + bytes_length bytes) (jw_capacity (js_writer s))) as [Hfit|Hno]; [|done].
  destruct (Z.eqb_spec (bytes_length bytes) 0) as [E0|]; cbn [negb].
  - split; [|done]. split; [done|].
    destruct (written_extend s (js_mem s) 0 [] Hwf) as [Hw _]; [lia|lia|done|done|].
    unfold bytes_val. rewrite E0. split; [by destruct s as [[] ?]|]. unfold set_jw_length. cbn [js_writer].
    by rewrite wrap64_small by size_lia.
  - destruct (copied_load_bytes (js_mem s)
      (copy_forward (js_mem s) (jw_data (js_writer s) + jw_length (js_writer s)) (bytes_ptr bytes) (Z.to_nat (bytes_length bytes)))
      (jw_data (js_writer s) + jw_length (js_writer s)) (bytes_ptr bytes) (bytes_length bytes)) as [Hcl Hcs]; [lia| |].
    { rewrite <- (Z2Nat.id (bytes_length bytes)) at 1 by lia. apply copy_forward_copied. unfold disjoint_ranges in Hd. lia. }
    destruct (written_extend s _ (bytes_length bytes) _ Hwf Hl Hfit Hcl Hcs) as [Hw Hf]. split; [|intros q k _; apply Hf].
    split; [done|]. split; [exact Hw|]. unfold set_jw_length, set_js_mem. cbn [js_writer]. by rewrite wrap64_small by size_lia.
Qed.

Lemma write_char_puts s value :
  writer_wf (js_writer s) -> writer_puts anything [wrap8 value] (sl_json_writer_write_char REF value) s.
Proof.
  intros Hwf. pose proof Hwf as [Hb (Hp0 & Hp1 & Hp2)]. unfold writer_puts, sl_json_writer_write_char. unfold_st.
  rewrite reserve_exact by (done || size_lia). change (Z.of_nat (length [wrap8 value])) with 1.
  destruct (Z.leb_spec (jw_length (js_writer s) + 1) (jw_capacity (js_writer s))) as [Hfit|Hno]; [|done].
  destruct (written_extend s (st8 (js_mem s) (jw_data (js_writer s) + jw_length (js_writer s)) (wrap8 value)) 1 [wrap8 value] Hwf)
    as [Hw Hf]; [lia|done| |apply st8_same_outside|].
  { rewrite load_bytes_cons by lia. rewrite ld8_st8_eq, load_bytes_nonpos by lia.
    by rewrite (wrap8_small (wrap8 value)) by apply wrap8_range. }
  split; [|intros q k _; apply Hf]. split; [done|]. split; [exact Hw|].
  unfold set_jw_length, set_js_mem. cbn [js_writer]. by rewrite wrap64_small by size_lia.
Qed.

Section WriterLemmas.
Context {BC : BuildConfig} {RO : ReadOnlyData} (local scratch : Z).

Lemma signed_digits_length value : - 2 ^ 63 <= value < 2 ^ 63 -> Z.of_nat (length (signed_digits value)) <= 20.
Proof.
  intros Hv. unfold signed_digits. destruct (Z.ltb_spec value 0); cbn [length]; rewrite length_rev; unfold format_digits.
  - pose proof (digits_loop_length 20 19 (- value)) as H1. change (Z.of_nat 19) with 19 in H1. lia.
  - pose proof (digits_loop_length 20 20 value) as H1. change (Z.of_nat 20) with 20 in H1. lia.
Qed.

Lemma write_i64_puts s buffer value :
  writer_wf (js_writer s) -> - 2 ^ 63 <= value < 2 ^ 63 ->
  0 < buffer -> buffer + SL_STRING_FORMAT_I64_CAPACITY <= UINTPTR_MAX ->
  disjoint_ranges buffer SL_STRING_FORMAT_I64_CAPACITY (jw_data (js_writer s)) (jw_capacity (js_writer s)) ->
  writer_puts (fun q n => disjoint_ranges q n buffer SL_STRING_FORMAT_I64_CAPACITY) (signed_digits value)
    (sl_json_writer_write_i64 buffer REF value) s.
Proof.
  intros Hwf Hv Hb He Hd. unfold SL_STRING_FORMAT_I64_CAPACITY in He, Hd |- *. pose proof (signed_digits_length value Hv) as Hl.
  destruct (format_i64_spec buffer value (js_mem s) Hb Hv) as (v & m' & E & [Hvw Hvs _ Hs]).
  unfold writer_puts, sl_json_writer_write_i64, zoom. unfold_st. rewrite E. unfold sl_json_writer_write_str.
  set (s1 := set_js_mem m' s). set (view := sl_bytes_from_parts (str_ptr v) (str_length v)).
  assert (Hval : bytes_val (js_mem s1) view = signed_digits value) by exact Hvs.
  pose proof (write_bytes_puts s1 view Hwf) as H. rewrite Hval in H. unfold writer_puts in H.
  assert (Hw1 : written s1 = written s).
  { unfold written. eapply load_bytes_same; [exact Hs|]. destruct Hwf as [Hbd _]. unfold disjoint_ranges in *. cbn. lia. }
  change (js_writer s1) with (js_writer s) in H. rewrite Hw1 in H. subst view. rewrite Hvw in H |- *.
  cbn [str_ptr str_length sl_str_from_parts] in H |- *.
  destruct (sl_json_writer_write_bytes REF _ s1) as [r s'].
  destruct H as [H1 H2]; [split; cbn; lia|unfold bytes_wf; cbn; lia|unfold disjoint_ranges in *; cbn; lia|].
  split; [exact H1|]. intros q n Hq Hq2. rewrite (H2 q n I Hq2). eapply load_bytes_same; [exact Hs|].
  unfold disjoint_ranges in *. lia.
Qed.

(** A range that is none of the storage a call to write a string uses. *)
Definition apart (s : JsonSys) (q n : Z) : Prop :=
  disjoint_ranges q n (jw_data (js_writer s)) (jw_capacity (js_writer s)) /\
  disjoint_ranges q n scratch SL_BYTE_BUILDER_SMALL_CAPACITY /\ disjoint_ranges q n local LOCAL_BYTES.

(** A view to be read, with its bytes. *)
Definition readable_apart (s : JsonSys) (b : SlBytes) (vs : list Z) : Prop :=
  bytes_valid b /\ bytes_wf b /\ bytes_val (js_mem s) b = vs /\ apart s (bytes_ptr b) (bytes_length b).

Record string_ready (s : JsonSys) (text : SlStr) (t : list Z) : Prop := {
  sr_writer : writer_wf (js_writer s);
  sr_text : readable_apart s (str_bytes text) t;
  sr_literals : Forall (fun l => readable_apart s (sl_bytes_from_parts (rodata l) (string_size l)) (string_bytes l)) json_literals;
  sr_local : 0 < local /\ local + LOCAL_BYTES <= UINTPTR_MAX /\
    disjoint_ranges local LOCAL_BYTES (jw_data (js_writer s)) (jw_capacity (js_writer s)) /\
    disjoint_ranges local LOCAL_BYTES scratch SL_BYTE_BUILDER_SMALL_CAPACITY;
  sr_scratch : disjoint_ranges (jw_data (js_writer s)) (jw_capacity (js_writer s)) scratch SL_BYTE_BUILDER_SMALL_CAPACITY;
}.

(** The local builder over the rest of the buffer. *)
Definition rest_of (w : SlJsonWriter) : Z := if jw_length w <? jw_capacity w then jw_data w + jw_length w else 0.

Definition over_rest (s : JsonSys) : BuilderSys :=
  fixed_over scratch (rest_of (js_writer s)) (jw_capacity (js_writer s) - jw_length (js_writer s)) (js_world s).

Lemma over_rest_spec s :
  writer_wf (js_writer s) ->
  let w := js_writer s in
  sl_string_builder_init_fixed REF (rest_of w) (jw_capacity w - jw_length w)
    {| bs_world := js_world s; bs_builder := local_builder scratch |} = (Ok tt, over_rest s) /\
  builder_wf (over_rest s) /\
  geometry SL_BUILDER_STORAGE_FIXED (jw_capacity w - jw_length w) scratch (rest_of w) (jw_capacity w - jw_length w) (over_rest s) /\
  bb_length (bs_builder (over_rest s)) = 0 /\
  (forall q n, disjoint_ranges q n (rest_of w) (jw_capacity w - jw_length w) -> foreign (over_rest s) q n) /\
  forall q n, disjoint_ranges q n scratch SL_BYTE_BUILDER_SMALL_CAPACITY ->
    load_bytes (bs_mem (over_rest s)) q n = load_bytes (js_mem s) q n.
Proof.
  intros [Hb (Hp0 & Hp1 & Hp2)]. cbv zeta.
  destruct (fixed_over_spec scratch (rest_of (js_writer s)) (jw_capacity (js_writer s) - jw_length (js_writer s)) (js_world s))
    as (H1 & H2 & (H3 & H4 & H5 & H6 & H7 & H8) & H9 & H10);
    [lia|unfold rest_of; destruct (Z.ltb_spec (jw_length (js_writer s)) (jw_capacity (js_writer s))); lia..|].
  unfold over_rest. split; [exact H1|]. split; [exact H2|]. split; [|split; [exact H7|split; [exact H9|exact H10]]].
  split; [exact H3|]. split; [exact H6|]. split; [exact H8|]. intros _. split; [exact H4|exact H5].
Qed.

(** What is apart from the buffer is apart from the rest of it. *)
Lemma rest_disjoint w q n :
  writer_wf w -> disjoint_ranges q n (jw_data w) (jw_capacity w) -> disjoint_ranges q n (rest_of w) (jw_capacity w - jw_length w).
Proof.
  intros [Hb _] Hd. unfold rest_of. destruct (Z.ltb_spec (jw_length w) (jw_capacity w)); unfold disjoint_ranges in *; lia.
Qed.

Lemma over_rest_readable s b vs :
  writer_wf (js_writer s) -> readable_apart s b vs -> readable_off_local local (over_rest s) b vs.
Proof.
  intros Hwf (Hv & Hw & Hval & Hd1 & Hd2 & Hd3). destruct (over_rest_spec s Hwf) as (_ & _ & _ & _ & Hf & Hk).
  split; [split; [done|done|by apply Hf, rest_disjoint]|]. split; [|done]. rewrite <- Hval. by apply Hk.
Qed.

Lemma over_rest_ready s text t : string_ready s text t -> json_ready local (over_rest s) text t.
Proof.
  intros [Hwf Ht Hl (L1 & L2 & L3 & L4) _]. destruct (over_rest_spec s Hwf) as (_ & Hbw & _ & _ & Hf & _). split.
  - exact Hbw.
  - by apply over_rest_readable.
  - split; [by apply Hf, rest_disjoint|done].
  - eapply Forall_impl; [exact Hl|]. intros l. by apply over_rest_readable.
Qed.

(** The escaped text, written by the local builder into the rest of the buffer. *)
Lemma rest_append s text t :
  string_ready s text t ->
  let w := js_writer s in
  let '(r, s2) := sl_json_writer_append_escaped_string_profiled local REF text (over_rest s) in
  let n := Z.of_nat (length (quoted false t)) in
  (forall q k, disjoint_ranges q k (jw_data w + jw_length w) (jw_capacity w - jw_length w) ->
     disjoint_ranges q k scratch SL_BYTE_BUILDER_SMALL_CAPACITY -> disjoint_ranges q k local LOCAL_BYTES ->
     load_bytes (bs_mem s2) q k = load_bytes (js_mem s) q k) /\
  if jw_length w + n <=? jw_capacity w
  then r = Ok tt /\ load_bytes (bs_mem s2) (jw_data w + jw_length w) n = quoted false t /\
       str_length (sl_string_builder_view REF (bs_builder s2)) = n
  else r = Err SL_STATUS_CAPACITY_EXCEEDED.
Proof.
  intros Hr. cbv zeta. pose proof (sr_writer _ _ _ Hr) as Hwf. pose proof Hwf as [Hb (Hp0 & Hp1 & Hp2)].
  destruct (over_rest_spec s Hwf) as (_ & _ & Hg1 & Hl1 & Hfor & Hkeep).
  pose proof (append_escaped_stable local _ _ _ _ _ text false _ Hg1) as Hg2.
  destruct (append_escaped_emits local (over_rest s) text t false (over_rest_ready _ _ _ Hr)) as [He [Hfit Herr]].
  unfold sl_json_writer_append_escaped_string_profiled.
  destruct (sl_json_writer_append_escaped_string_with_mode local REF text false (over_rest s)) as [r s2].
  cbn [snd] in Hg2. destruct Hg1 as (Hs1 & _ & _ & Hg1). destruct Hg1 as [Ed1 Ec1]; [done|].
  destruct Hg2 as (_ & _ & _ & Hg2). destruct Hg2 as [Ed2 Ec2]; [done|]. cbn [sink_room builder_sink_room] in Hfit.
  assert (Hstep : exists ws, json_step local ws (over_rest s) s2)
    by (destruct r; [by eexists|destruct He as (ws & _ & He); by exists ws]).
  split.
  { destruct Hstep as [ws Hstep]. intros q k D1 D2 D3.
    rewrite <- (Hkeep q k D2). apply Hstep; [apply Hfor|done]. unfold rest_of.
    destruct (Z.ltb_spec (jw_length (js_writer s)) (jw_capacity (js_writer s))); unfold disjoint_ranges in *; lia. }
  assert (Hnil : contents (over_rest s) = []) by (unfold contents; by rewrite Hl1).
  assert (Hq : (2 <= length (quoted false t))%nat) by (unfold quoted; cbn [length]; rewrite length_app; cbn [length]; lia).
  destruct (Z.leb_spec (jw_length (js_writer s) + Z.of_nat (length (quoted false t))) (jw_capacity (js_writer s))) as [Hle|Hgt].
  - destruct Hfit as (s' & [= -> ->] & _); [lia|]. destruct He as [Hwf2 Hc _]. cbn in Hwf2, Hc. rewrite Hnil in Hc.
    pose proof (contents_length s' Hwf2) as Hlen. rewrite Hc in Hlen. cbn [app] in Hlen. unfold contents in Hc.
    unfold rest_of in Ed2. rewrite (proj2 (Z.ltb_lt (jw_length (js_writer s)) (jw_capacity (js_writer s)))) in Ed2 by lia.
    rewrite Ed2, <- Hlen in Hc. split; [done|]. split; [exact Hc|]. unfold sl_string_builder_view, sl_byte_builder_view. cbn [is_null orb].
    destruct (Z.eqb_spec (bb_length (bs_builder s')) 0); [lia|]. rewrite Ed2.
    destruct (Z.eqb_spec (jw_data (js_writer s) + jw_length (js_writer s)) 0); [lia|]. by rewrite Hlen.
  - destruct r as [[]|e]; [|f_equal; apply Herr; by left].
    destruct He as [Hwf2 Hc _]. cbn in Hwf2, Hc. pose proof (contents_length s2 Hwf2) as Hlen.
    pose proof (bw_bounds _ Hwf2). rewrite Hc, Hnil in Hlen. cbn [app] in Hlen. lia.
Qed.

Lemma write_string_puts s text t :
  string_ready s text t ->
  writer_puts (fun q n => disjoint_ranges q n scratch SL_BYTE_BUILDER_SMALL_CAPACITY /\ disjoint_ranges q n local LOCAL_BYTES)
    (quoted false t) (sl_json_writer_write_string local scratch REF text) s.
Proof.
  intros Hr. pose proof (rest_append s text t Hr) as H. cbv zeta in H. pose proof Hr as [Hwf Ht _ (_ & _ & L3 & _) Hsc].
  pose proof Hwf as [Hb (Hp0 & Hp1 & Hp2)]. destruct Ht as ([Hl Hv] & _). cbn in Hl, Hv.
  unfold writer_puts, sl_json_writer_write_string. unfold_st. unfold with_string_builder. unfold_st.
  destruct (over_rest_spec s Hwf) as (Einit & _). unfold rest_of in Einit.
  match goal with |- context [if ?g then _ else _] => replace g with false end.
  2:{ cbn [is_null orb]. destruct (Z.eqb_spec (str_ptr text) 0); destruct (Z.eqb_spec (str_length text) 0);
        destruct (Z.ltb_spec (jw_capacity (js_writer s)) (jw_length (js_writer s)));
        destruct (Z.eqb_spec (jw_data (js_writer s)) 0); destruct (Z.eqb_spec (jw_capacity (js_writer s)) 0); cbn; lia. }
  rewrite (wrap64_small (jw_capacity (js_writer s) - jw_length (js_writer s))) by size_lia. rewrite Einit.
  destruct (sl_json_writer_append_escaped_string_profiled local REF text (over_rest s)) as [r s2].
  destruct H as [Hk H].
  assert (Hold : load_bytes (bs_mem s2) (jw_data (js_writer s)) (jw_length (js_writer s)) = written s).
  { apply Hk; unfold disjoint_ranges in *; lia. }
  assert (Hsafe : forall q n, disjoint_ranges q n scratch SL_BYTE_BUILDER_SMALL_CAPACITY /\ disjoint_ranges q n local LOCAL_BYTES ->
    disjoint_ranges q n (jw_data (js_writer s)) (jw_capacity (js_writer s)) -> load_bytes (bs_mem s2) q n = load_bytes (js_mem s) q n).
  { intros q n [D1 D2] D3. apply Hk; [unfold disjoint_ranges in *; lia|done|done]. }
  destruct (Z.leb_spec (jw_length (js_writer s) + Z.of_nat (length (quoted false t))) (jw_capacity (js_writer s))) as [Hle|Hgt].
  - destruct H as (-> & Hq & Hview). cbn [snd]. rewrite Hview. split; [|exact Hsafe]. split; [done|].
    unfold set_jw_length. cbn [js_writer js_world]. rewrite wrap64_small by size_lia. split; [|done].
    unfold written at 1. cbn [js_writer js_world jw_data jw_length]. change (js_mem _) with (bs_mem s2) at 1.
    rewrite load_bytes_app by lia. by rewrite Hold, Hq.
  - subst r. split; [|exact Hsafe]. done.
Qed.
End WriterLemmas.

(** * Appending to a byte builder through a copy *)

Section Copy.
Context {BC : BuildConfig} {RO : ReadOnlyData} (local scratch : Z).

Lemma load_bytes_prefix m m' a b n k :
  n <= k -> load_bytes m a k = load_bytes m' b k -> load_bytes m a n = load_bytes m' b n.
Proof.
  intros Hn H. destruct (Z.leb_spec n 0); [by rewrite !load_bytes_nonpos|].
  by rewrite <- (load_bytes_take m a n k), <- (load_bytes_take m' b n k), H by lia.
Qed.

(** The copy [assign_builder] makes: same contents, elsewhere. *)
Lemma assign_builder_mem small s :
  disjoint_ranges small SL_BYTE_BUILDER_SMALL_CAPACITY (bb_small (bs_builder s)) SL_BYTE_BUILDER_SMALL_CAPACITY ->
  load_bytes (bs_mem (assign_builder small s)) small SL_BYTE_BUILDER_SMALL_CAPACITY
    = load_bytes (bs_mem s) (bb_small (bs_builder s)) SL_BYTE_BUILDER_SMALL_CAPACITY /\
  same_outside small (small + SL_BYTE_BUILDER_SMALL_CAPACITY) (bs_mem s) (bs_mem (assign_builder small s)).
Proof.
  intros Hd. apply copied_load_bytes; [done|]. unfold SL_BYTE_BUILDER_SMALL_CAPACITY in *.
  apply (copy_forward_copied (bs_mem s) small (bb_small (bs_builder s)) (Z.to_nat 64)). unfold disjoint_ranges in Hd. lia.
Qed.

Lemma assign_builder_contents small s :
  0 <= bb_length (bs_builder s) ->
  (bb_storage (bs_builder s) = SL_BUILDER_STORAGE_SMALL -> bb_length (bs_builder s) <= SL_BYTE_BUILDER_SMALL_CAPACITY) ->
  (bb_storage (bs_builder s) <> SL_BUILDER_STORAGE_SMALL ->
   disjoint_ranges small SL_BYTE_BUILDER_SMALL_CAPACITY (bb_data (bs_builder s)) (bb_length (bs_builder s))) ->
  disjoint_ranges small SL_BYTE_BUILDER_SMALL_CAPACITY (bb_small (bs_builder s)) SL_BYTE_BUILDER_SMALL_CAPACITY ->
  contents (assign_builder small s) = contents s.
Proof.
  intros Hl Hsm Hd Hds. destruct (assign_builder_mem small s Hds) as [Hc Hs]. unfold contents.
  change (bb_length (bs_builder (assign_builder small s))) with (bb_length (bs_builder s)).
  unfold sl_byte_builder_data. change (bb_storage (bs_builder (assign_builder small s))) with (bb_storage (bs_builder s)).
  change (bb_small (bs_builder (assign_builder small s))) with small.
  change (bb_data (bs_builder (assign_builder small s))) with (bb_data (bs_builder s)).
  destruct (decide (bb_storage (bs_builder s) = SL_BUILDER_STORAGE_SMALL)) as [E|E].
  - eapply load_bytes_prefix; [exact (Hsm E)|exact Hc].
  - specialize (Hd E). eapply load_bytes_same; [exact Hs|]. unfold disjoint_ranges in *. lia.
Qed.

(** A failed append leaves the contents of the original. *)
Lemma original_contents s s1 s2 ws :
  same_outside scratch (scratch + SL_BYTE_BUILDER_SMALL_CAPACITY) (bs_mem s) (bs_mem s1) ->
  bb_storage (bs_builder s1) = bb_storage (bs_builder s) -> bb_data (bs_builder s1) = bb_data (bs_builder s) ->
  builder_wf s -> builder_wf s2 -> contents s1 = contents s -> json_step local ws s1 s2 ->
  (bb_storage (bs_builder s) = SL_BUILDER_STORAGE_SMALL -> bb_max_capacity (bs_builder s) <= SL_BYTE_BUILDER_SMALL_CAPACITY) ->
  disjoint_ranges scratch SL_BYTE_BUILDER_SMALL_CAPACITY (bb_small (bs_builder s)) SL_BYTE_BUILDER_SMALL_CAPACITY ->
  foreign s1 (bb_small (bs_builder s)) SL_BYTE_BUILDER_SMALL_CAPACITY ->
  disjoint_ranges (bb_small (bs_builder s)) SL_BYTE_BUILDER_SMALL_CAPACITY local LOCAL_BYTES ->
  sl_byte_builder_data (bs_builder s2) = sl_byte_builder_data (bs_builder s1) ->
  contents (set_builder (bs_builder s) s2) = contents s.
Proof.
  intros Hs1 Est Eda Hwf Hwf2 Hc1 [_ Hc2 Hf2] Hsm Hds Hfs Hdl Ed2. pose proof (bw_bounds _ Hwf) as Hb.
  change (contents (set_builder (bs_builder s) s2))
    with (load_bytes (bs_mem s2) (sl_byte_builder_data (bs_builder s)) (bb_length (bs_builder s))).
  destruct (decide (bb_storage (bs_builder s) = SL_BUILDER_STORAGE_SMALL)) as [E|E].
  - destruct (Hf2 _ _ Hfs) as [_ Hk]. specialize (Hk Hdl). cbn [sink_mem builder_sink_ops] in Hk. rewrite (load_bytes_same _ _ _ _ _ _ Hs1) in Hk by (unfold disjoint_ranges in *; lia).
    unfold contents, sl_byte_builder_data. rewrite decide_True by done.
    specialize (Hsm E). eapply load_bytes_prefix; [|exact Hk]. lia.
  - cbn [sink_contents builder_sink_ops] in Hc2. rewrite Hc1 in Hc2.
    pose proof (contents_length s Hwf) as L1. pose proof (contents_length s2 Hwf2) as L2. rewrite Hc2, length_app in L2.
    rewrite <- (take_app_length (contents s) ws), <- Hc2. replace (length (contents s)) with (Z.to_nat (bb_length (bs_builder s))) by lia.
    unfold contents. rewrite load_bytes_take by lia. rewrite Ed2. unfold sl_byte_builder_data.
    rewrite Est, Eda. by rewrite !decide_False by done.
Qed.

(** Appending through a copy is all or nothing: the builder either holds the whole
    literal after its contents, or is the object it was, with the same contents when
    its storage is its own. *)
Theorem json_append_bytes_atomic s text t :
  let s1 := assign_builder scratch s in
  json_ready local s1 text t -> builder_wf s ->
  (bb_storage (bs_builder s) = SL_BUILDER_STORAGE_SMALL -> bb_max_capacity (bs_builder s) <= SL_BYTE_BUILDER_SMALL_CAPACITY) ->
  foreign s scratch SL_BYTE_BUILDER_SMALL_CAPACITY ->
  disjoint_ranges scratch SL_BYTE_BUILDER_SMALL_CAPACITY (bb_small (bs_builder s)) SL_BYTE_BUILDER_SMALL_CAPACITY ->
  foreign s1 (bb_small (bs_builder s)) SL_BYTE_BUILDER_SMALL_CAPACITY ->
  disjoint_ranges (bb_small (bs_builder s)) SL_BYTE_BUILDER_SMALL_CAPACITY local LOCAL_BYTES ->
  match sl_json_writer_append_escaped_string_bytes local scratch REF text s with
  | (Ok _, s') => contents s' = contents s ++ quoted false t /\ bb_small (bs_builder s') = bb_small (bs_builder s)
  | (Err _, s') => bs_builder s' = bs_builder s /\
      (bb_storage (bs_builder s) <> SL_BUILDER_STORAGE_ARENA -> contents s' = contents s)
  end.
Proof.
  cbv zeta. intros Hr Hwf Hsm Hsc Hds Hfs Hdl. pose proof (bw_bounds _ Hwf) as Hb. pose proof Hsc as [_ Hscd].
  assert (Hc1 : contents (assign_builder scratch s) = contents s).
  { apply assign_builder_contents; [lia|intros E; specialize (Hsm E); lia| |done]. intros E.
    unfold sl_byte_builder_data in Hscd. destruct (decide _) in Hscd; [done|]. unfold disjoint_ranges in *. lia. }
  destruct (append_escaped_emits local _ text t false Hr) as [He _].
  pose proof (append_escaped_stable local (bb_storage (bs_builder s)) (bb_max_capacity (bs_builder s)) scratch
    (sl_byte_builder_data (bs_builder (assign_builder scratch s))) (bb_capacity (bs_builder s)) text false
    (assign_builder scratch s) ltac:(done)) as (Hst2 & Hmx2 & Hsm2 & Hg2).
  unfold sl_json_writer_append_escaped_string_bytes, sl_json_writer_append_escaped_string. cbn [is_null].
  destruct (sl_json_writer_append_escaped_string_with_mode local REF text false (assign_builder scratch s)) as [[[]|e] s2].
  all: cbn [snd] in *.
  - destruct He as [Hwf2 Hc2 Hf2]. cbn in Hwf2, Hc2. split; [|done]. pose proof (bw_bounds _ Hwf2) as Hb2.
    rewrite <- Hc1, <- Hc2. destruct (Hf2 _ _ Hfs) as [[_ Hfs2] _].
    apply assign_builder_contents; [lia|rewrite Hst2; intros E; specialize (Hsm E); lia| |].
    + intros E. unfold sl_byte_builder_data in Hfs2. destruct (decide _) in Hfs2; [done|]. unfold disjoint_ranges in *. lia.
    + rewrite Hsm2. unfold disjoint_ranges in *. lia.
  - destruct He as (ws & _ & He). split; [done|]. intros Hna. destruct (Hg2 Hna) as [Ed2 _].
    apply (original_contents s (assign_builder scratch s) s2 ws); [apply (assign_builder_mem scratch s Hds)|done|done|done|apply He|done..].
Qed.
End Copy.

Section Claims.
Context {BC : BuildConfig} {RO : ReadOnlyData} (local scratch : Z).

(** C18: The fixed writer is a bounded list of bytes: writing bytes, a character, a
    64-bit integer or a string succeeds exactly when the output fits in the buffer,
    and then the text written grows by exactly that output (a decimal numeral that
    reads back as the integer, a JSON literal that denotes the string); otherwise the
    call is refused with CAPACITY_EXCEEDED and neither the length nor the text written
    so far changes.  No byte outside the buffer and the local arrays changes. *)
Theorem json_writer_bounded s bytes value buffer number text t :
  writer_wf (js_writer s) ->
  (bytes_valid bytes -> bytes_wf bytes ->
   disjoint_ranges (bytes_ptr bytes) (bytes_length bytes) (jw_data (js_writer s)) (jw_capacity (js_writer s)) ->
   writer_puts anything (bytes_val (js_mem s) bytes) (sl_json_writer_write_bytes REF bytes) s) /\
  writer_puts anything [wrap8 value] (sl_json_writer_write_char REF value) s /\
  (- 2 ^ 63 <= number < 2 ^ 63 -> 0 < buffer -> buffer + SL_STRING_FORMAT_I64_CAPACITY <= UINTPTR_MAX ->
   disjoint_ranges buffer SL_STRING_FORMAT_I64_CAPACITY (jw_data (js_writer s)) (jw_capacity (js_writer s)) ->
   exists out, parse_signed out = number /\
     writer_puts (fun q n => disjoint_ranges q n buffer SL_STRING_FORMAT_I64_CAPACITY) out
       (sl_json_writer_write_i64 buffer REF number) s) /\
  (string_ready local scratch s text t ->
   exists out, json_string out = Some t /\
     writer_puts (fun q n => disjoint_ranges q n scratch SL_BYTE_BUILDER_SMALL_CAPACITY /\ disjoint_ranges q n local LOCAL_BYTES)
       out (sl_json_writer_write_string local scratch REF text) s).
Proof.
  intros Hwf. split; [intros; by apply write_bytes_puts|]. split; [by apply write_char_puts|]. split.
  - intros Hn Hb He Hd. exists (signed_digits number). split; [by apply parse_signed_digits|by apply write_i64_puts].
  - intros Hr. exists (quoted false t). split; [|by apply write_string_puts].
    apply quoted_decode. destruct Hr as [_ (_ & _ & <- & _) _ _ _]. apply load_is_byte.
Qed.
End Claims.

Module Demo.
#[local] Existing Instance assert_build.

Definition literal_address (l : string) : Z :=
  if bool_decide (l = JSON_QUOTE) then 100 else if bool_decide (l = JSON_ESCAPED_QUOTE) then 110 else 120.

Definition demo_rodata : ReadOnlyData := {| rodata := literal_address |}.
#[local] Existing Instance demo_rodata.

(** A letter, a quote and a newline at 500, the literals at 100, 110 and 120. *)
Definition m0 : mem :=
  store (store (store (store (fun _ => 0) 500 [97; 34; 10]) 100 (string_bytes JSON_QUOTE))
    110 (string_bytes JSON_ESCAPED_QUOTE)) 120 (string_bytes JSON_ESCAPED_BACKSLASH).
Definition w0 : World :=
  {| w_mem := m0; w_arena := {| ar_base := 8192; ar_capacity := 64; ar_offset := 0; ar_high_water := 0; ar_generation := 1 |} |}.
Definition text : SlStr := sl_str_from_parts 500 3.
Definition b0 : SlByteBuilder :=
  {| bb_data := 1000; bb_length := 0; bb_capacity := 32; bb_max_capacity := 32; bb_grow_count := 0; bb_copied_bytes := 0;
     bb_appended_bytes := 0; bb_failed_reserve_count := 0; bb_arena := NULL; bb_storage := SL_BUILDER_STORAGE_FIXED; bb_small := 2000 |}.
Definition s0 : BuilderSys := {| bs_world := w0; bs_builder := b0 |}.
Definition js0 : JsonSys := {| js_world := w0; js_writer := {| jw_data := 1000; jw_length := 0; jw_capacity := 6 |} |}.

Lemma s0_foreign q n : disjoint_ranges q n 1000 32 -> foreign s0 q n.
Proof. intros Hd. split; [done|]. exact Hd. Qed.

Lemma s0_literal l a n :
  rodata l = a -> string_size l = n -> 100 <= a <= 120 -> 1 <= n <= 2 -> load_bytes m0 a n = string_bytes l ->
  readable_off_local 3000 s0 (sl_bytes_from_parts (rodata l) (string_size l)) (string_bytes l).
Proof.
  intros -> -> Ha Hn Hl. split; [split; [split; cbn; lia|unfold bytes_wf; cbn; size_lia|]|].
  - apply s0_foreign. cbn. unfold disjoint_ranges. lia.
  - split; [exact Hl|]. cbn. unfold disjoint_ranges, LOCAL_BYTES. lia.
Qed.

Lemma s0_ready : json_ready 3000 s0 text [97; 34; 10].
Proof.
  split.
  - split; [cbn; size_lia|done|change (sl_byte_builder_data (bs_builder s0)) with 1000; cbn; size_lia|done|done].
  - split; [split; [split; cbn; lia|unfold bytes_wf; cbn; size_lia|apply s0_foreign; cbn; unfold disjoint_ranges; lia]|].
    split; [vm_compute; reflexivity|cbn; unfold disjoint_ranges, LOCAL_BYTES; lia].
  - split; [apply s0_foreign; unfold disjoint_ranges, LOCAL_BYTES; lia|unfold LOCAL_BYTES; size_lia].
  - unfold json_literals. repeat apply Forall_cons_2; [| | |by apply Forall_nil].
    + apply (s0_literal JSON_QUOTE 100 1); [vm_compute; reflexivity|reflexivity|lia|lia|vm_compute; reflexivity].
    + apply (s0_literal JSON_ESCAPED_QUOTE 110 2); [vm_compute; reflexivity|reflexivity|lia|lia|vm_compute; reflexivity].
    + apply (s0_literal JSON_ESCAPED_BACKSLASH 120 2); [vm_compute; reflexivity|reflexivity|lia|lia|vm_compute; reflexivity].
Qed.

Lemma json_escape_roundtrip_witness :
  exists out, json_string out = Some [97; 34; 10] /\
    contents (snd (sl_json_writer_append_escaped_string_with_mode 3000 REF text false s0)) = contents s0 ++ out.
Proof.
  destruct (json_escape_roundtrip 3000 s0 text [97; 34; 10] false s0_ready) as (out & Hs & _ & _ & _ & H).
  exists out. split; [exact Hs|].
  destruct (sl_json_writer_append_escaped_string_with_mode 3000 REF text false s0) as [[[]|e] s'] eqn:E.
  - exact (proj1 (proj2 H)).
  - assert (Hok : is_ok (fst (sl_json_writer_append_escaped_string_with_mode 3000 REF text false s0)) = true)
      by (vm_compute; reflexivity). rewrite E in Hok. discriminate Hok.
Defined.

(** Seven bytes do not fit in six, five do. *)
Lemma json_writer_bounded_witness :
  fst (sl_json_writer_write_i64 4000 REF (-1234) js0) = Ok tt /\
  written (snd (sl_json_writer_write_char REF 65 js0)) = [65].
Proof.
  destruct (json_writer_bounded 3000 2000 js0 (sl_bytes_from_parts 500 3) 65 4000 (-1234) text [97; 34; 10])
    as (_ & Hc & Hi & _).
  - split; cbn; size_lia.
  - split.
    + destruct Hi as (out & Hp & Hw);
        [lia|lia|unfold SL_STRING_FORMAT_I64_CAPACITY; size_lia|unfold SL_STRING_FORMAT_I64_CAPACITY, disjoint_ranges; cbn; lia|].
      vm_compute; reflexivity.
    + unfold writer_puts in Hc. destruct (sl_json_writer_write_char REF 65 js0) as [r s'].
      destruct Hc as [(_ & Hc & _) _]. exact Hc.
Defined.
End Demo.
