(* ===== verification/Intern.v ===== *)
(** String interning (src/core/intern.c): a bounded table of distinct strings over
    the hash index, with arena-owned copies.

    The hash (XXH64, a third-party function) is a parameter: any function of the
    bytes.  The entries are a typed array; the inline bytes of their strings, which
    views point to, are in memory at their place in the array. *)

From S2P Require Import Prelude Memory Status Arena Str Simd StrArena Container HashIndex.

Open Scope Z_scope.

Class Xxh64 := { xxh64 : list Z -> Z }.

Record SlSymbol := { sym_index : Z; sym_generation : Z }.

Record SlInternedString := { is_symbol : SlSymbol; is_text : SlStr; is_hash : Z }.

Record SlInternEntry := { ie_text : SlOwnedStr; ie_hash : Z }.

(** [it_entries] is the address of the array, [it_cells] its contents. *)
Record SlInternTable := {
  it_arena : nullable;
  it_entries : Z;
  it_cells : list SlInternEntry;
  it_index : SlArenaHashIndex;
  it_capacity : Z;
  it_count : Z;
  it_generation : Z;
  it_initialized : bool;
}.

Record InternSys := { in_world : World; in_table : SlInternTable }.

Definition in_mem (s : InternSys) : mem := w_mem (in_world s).
Definition in_arena (s : InternSys) : SlArena := w_arena (in_world s).
Definition set_in_world (w : World) (s : InternSys) : InternSys := {| in_world := w; in_table := in_table s |}.
Definition set_in_table (t : SlInternTable) (s : InternSys) : InternSys := {| in_world := in_world s; in_table := t |}.

(** [sizeof(SlInternEntry)], and where the inline bytes are in an entry. *)
Definition INTERN_ENTRY_SIZE : Z := 48.
Definition INTERN_SSO_OFFSET : Z := 24.

Definition entry_sso (entries index : Z) : Z := entries + INTERN_ENTRY_SIZE * index + INTERN_SSO_OFFSET.

Definition zero_entry (entries index : Z) : SlInternEntry :=
  {| ie_text := {| owned_ptr := 0; owned_length := 0; owned_is_sso := false; owned_arena_generation := 0;
                   owned_sso := entry_sso entries index |};
     ie_hash := 0 |}.

Definition sl_symbol_invalid : SlSymbol := {| sym_index := 0; sym_generation := 0 |}.

Definition sl_symbol_is_valid (symbol : SlSymbol) : bool :=
  negb (sym_index symbol =? 0) && negb (sym_generation symbol =? 0).

Definition sl_symbol_equal (left right : SlSymbol) : bool :=
  (sym_index left =? sym_index right) && (sym_generation left =? sym_generation right).

Definition sl_intern_table_validate (table : nullable) (t : SlInternTable) : result unit :=
  error_if is_null table || negb (it_initialized t) || (it_entries t =? 0)
           || bool_decide (hx_buckets (it_index t) = None) || bool_decide (hx_next_indices (it_index t) = None)
           || (hx_bucket_count (it_index t) =? 0) with SL_STATUS_INVALID_STATE ;;
  Ok tt.

Definition entry_at (t : SlInternTable) (i : Z) : SlInternEntry :=
  nth (Z.to_nat i) (it_cells t) (zero_entry (it_entries t) i).

Definition sl_interned_from_entry (t : SlInternTable) (index : Z) : SlInternedString :=
  let entry := entry_at t (index - 1) in
  {| is_symbol := {| sym_index := index; sym_generation := it_generation t |};
     is_text := sl_owned_str_as_view_ref (Some (ie_text entry)); is_hash := ie_hash entry |}.

(** The callback of the hash index. *)
Definition sl_intern_table_entry_matches (m : mem) (t : SlInternTable) (text : SlStr) (hash entry_index : Z) : bool :=
  if (entry_index =? 0) || (it_count t <? entry_index) then false else
  let entry := entry_at t (entry_index - 1) in
  (ie_hash entry =? hash) && sl_str_equal m (sl_owned_str_as_view_ref (Some (ie_text entry))) text.

Definition sl_intern_table_count (table : nullable) (t : SlInternTable) : Z :=
  if is_null table || negb (it_initialized t) then 0 else it_count t.

Definition sl_intern_table_capacity (table : nullable) (t : SlInternTable) : Z :=
  if is_null table || negb (it_initialized t) then 0 else it_capacity t.

(** The generation after [g], skipping 0. *)
Definition next_intern_generation (g : Z) : Z :=
  let next_generation := wrap32 (g + 1) in if next_generation =? 0 then 1 else next_generation.

Section Operations.
Context {BC : BuildConfig} {SC : SimdConfig} {XX : Xxh64} (scratch : Z).

Definition sl_str_hash (m : mem) (str : SlStr) (out_hash : nullable) : result Z :=
  error_if is_null out_hash || negb (sl_str_has_valid_storage str) with SL_STATUS_INVALID_ARGUMENT ;;
  Ok (xxh64 (str_val m str)).

Definition sl_intern_table_init (table arena : nullable) (capacity bucket_count : Z) : ST InternSys unit :=
  return_if is_null table || is_null arena || (capacity =? 0) || (bucket_count =? 0) with SL_STATUS_INVALID_ARGUMENT ;;
  t ← gets in_table ;
  return_if it_initialized t with SL_STATUS_INVALID_STATE ;;
  let next_generation := if negb (it_generation t =? 0) then next_intern_generation (it_generation t) else 1 in
  entries ← zoom in_world set_in_world (sl_arena_array_alloc arena capacity INTERN_ENTRY_SIZE 8 REF) ;
  index ← (fun s =>
    let '(r, (w, h)) := sl_arena_hash_index_init REF arena capacity bucket_count (in_world s, hx_zero) in
    (_ ← r ; Ok h, set_in_world w s)) ;
  modify (set_in_table
    {| it_arena := arena; it_entries := slice_ptr entries;
       it_cells := map (zero_entry (slice_ptr entries)) (seqZ 0 capacity);
       it_index := index; it_capacity := capacity; it_count := 0; it_generation := next_generation;
       it_initialized := true |}).

Definition sl_intern_table_dispose (table : nullable) (t : SlInternTable) : SlInternTable :=
  if is_null table then t else
  {| it_arena := NULL; it_entries := 0; it_cells := []; it_index := hx_zero; it_capacity := 0; it_count := 0;
     it_generation := next_intern_generation (it_generation t); it_initialized := false |}.

(** The state is [*out_hash], written once the hash is known. *)
Definition sl_intern_table_find_hashed (table : nullable) (s : InternSys) (text : SlStr) (out : nullable)
    : ST Z SlInternedString :=
  let t := in_table s in
  return_if is_null out with SL_STATUS_INVALID_ARGUMENT ;;
  lift (sl_intern_table_validate table t) ;;
  hash ← lift (sl_str_hash (in_mem s) text REF) ;
  modify (fun _ => hash) ;;
  entry_index ← lift (sl_arena_hash_index_find REF (it_index t) hash
    (Some (sl_intern_table_entry_matches (in_mem s) t text hash)) REF) ;
  mret (sl_interned_from_entry t entry_index).

Definition sl_intern_table_find (table : nullable) (s : InternSys) (text : SlStr) (out : nullable)
    : result SlInternedString :=
  fst (sl_intern_table_find_hashed table s text out 0).

(** [dst = src] for owned strings: the inline bytes are copied along. *)
Definition assign_owned (dst_sso : Z) (src : SlOwnedStr) : ST World SlOwnedStr :=
  modify (fun w => set_mem (copy_forward (w_mem w) dst_sso (owned_sso src) (Z.to_nat SL_OWNED_STR_SSO_CAPACITY)) w) ;;
  mret {| owned_ptr := owned_ptr src; owned_length := owned_length src; owned_is_sso := owned_is_sso src;
          owned_arena_generation := owned_arena_generation src; owned_sso := dst_sso |}.

Definition set_cell (i : Z) (e : SlInternEntry) (t : SlInternTable) : SlInternTable :=
  {| it_arena := it_arena t; it_entries := it_entries t; it_cells := <[Z.to_nat i := e]> (it_cells t);
     it_index := it_index t; it_capacity := it_capacity t; it_count := it_count t; it_generation := it_generation t;
     it_initialized := it_initialized t |}.

Definition set_index (h : SlArenaHashIndex) (count : Z) (t : SlInternTable) : SlInternTable :=
  {| it_arena := it_arena t; it_entries := it_entries t; it_cells := it_cells t;
     it_index := h; it_capacity := it_capacity t; it_count := count; it_generation := it_generation t;
     it_initialized := it_initialized t |}.

(** [scratch] is the address of the inline buffer of the local [copied]. *)
Definition sl_intern_table_add (text : SlStr) (hash : Z) : ST InternSys SlInternedString :=
  t ← gets in_table ;
  return_if it_capacity t <=? it_count t with SL_STATUS_CAPACITY_EXCEEDED ;;
  copied ← zoom in_world set_in_world (sl_str_copy_to_arena (it_arena t) text REF scratch) ;
  let entry_index := wrap64 (it_count t + 1) in
  stored ← zoom in_world set_in_world (assign_owned (entry_sso (it_entries t) (entry_index - 1)) copied) ;
  modify (fun s => set_in_table (set_cell (entry_index - 1) {| ie_text := stored; ie_hash := hash |} (in_table s)) s) ;;
  zoom (fun s => it_index (in_table s)) (fun h s => set_in_table (set_index h (it_count (in_table s)) (in_table s)) s)
    (sl_arena_hash_index_insert REF hash entry_index) ;;
  modify (fun s => set_in_table (set_index (it_index (in_table s)) (wrap64 (it_count (in_table s) + 1)) (in_table s)) s) ;;
  gets (fun s => sl_interned_from_entry (in_table s) entry_index).

Definition sl_intern_table_intern (table : nullable) (text : SlStr) (out : nullable) : ST InternSys SlInternedString :=
  return_if is_null out with SL_STATUS_INVALID_ARGUMENT ;;
  fun s =>
    match sl_intern_table_find_hashed table s text REF 0 with
    | (Ok existing, _) => (Ok existing, s)
    | (Err SL_STATUS_OUT_OF_RANGE, hash) => sl_intern_table_add text hash s
    | (Err c, _) => (Err c, s)
    end.

Definition sl_intern_table_get (table : nullable) (t : SlInternTable) (symbol : SlSymbol) (out : nullable)
    : result SlInternedString :=
  error_if is_null out with SL_STATUS_INVALID_ARGUMENT ;;
  sl_intern_table_validate table t ≫= fun _ =>
  error_if negb (sl_symbol_is_valid symbol) || (it_count t <? sym_index symbol) with SL_STATUS_INVALID_ARGUMENT ;;
  error_if negb (sym_generation symbol =? it_generation t) with SL_STATUS_STALE_RESOURCE ;;
  Ok (sl_interned_from_entry t (sym_index symbol)).
End Operations.

(** * Lemmas: copying into an entry *)

Section Storing.
Context {BC : BuildConfig} {SC : SimdConfig} (scratch d : Z).

Definition store_text (arena : nullable) (src : SlStr) : ST World SlOwnedStr :=
  copied ← sl_str_copy_to_arena arena src REF scratch ; assign_owned d copied.

(** What storing a copy gives: the bytes, inline at [d] or in a block nobody else has. *)
Record stored_post (bytes : list Z) (e : SlOwnedStr) (w w' : World) : Prop := {
  sp_val : str_val (w_mem w') (sl_owned_str_as_view_ref (Some e)) = bytes;
  sp_valid : str_valid (sl_owned_str_as_view_ref (Some e));
  sp_wf : arena_wf (w_arena w');
  sp_place : owned_sso e = d /\
    (owned_is_sso e = true /\ owned_length e <= SL_OWNED_STR_SSO_MAX_LENGTH \/
     owned_is_sso e = false /\
     forall q n, outside_free (w_arena w) q n -> disjoint_ranges (owned_ptr e) (owned_length e) q n);
  sp_free : outside_free (w_arena w') (str_ptr (sl_owned_str_as_view_ref (Some e))) (owned_length e);
  sp_others : forall q n, outside_free (w_arena w) q n -> outside_free (w_arena w') q n /\
    (disjoint_ranges q n scratch 16 -> disjoint_ranges q n d 16 -> load_bytes (w_mem w') q n = load_bytes (w_mem w) q n);
}.

Lemma assign_owned_mem m :
  disjoint_ranges scratch 16 d 16 ->
  load_bytes (copy_forward m d scratch (Z.to_nat SL_OWNED_STR_SSO_CAPACITY)) d 16 = load_bytes m scratch 16 /\
  same_outside d (d + 16) m (copy_forward m d scratch (Z.to_nat SL_OWNED_STR_SSO_CAPACITY)).
Proof.
  intros Hd. apply copied_load_bytes; [done|]. apply (copy_forward_copied m d scratch (Z.to_nat 16)).
  unfold disjoint_ranges in Hd. lia.
Qed.

(** A write to the local buffer followed by the assignment. *)
Lemma local_then_assign m vs m2 :
  disjoint_ranges scratch 16 d 16 -> length vs = 16%nat -> Forall is_byte vs ->
  m2 = copy_forward (store m scratch vs) d scratch (Z.to_nat SL_OWNED_STR_SSO_CAPACITY) ->
  load_bytes m2 d 16 = vs /\
  forall q n, disjoint_ranges q n scratch 16 -> disjoint_ranges q n d 16 -> load_bytes m2 q n = load_bytes m q n.
Proof.
  intros Hd Hl Hb ->. destruct (assign_owned_mem (store m scratch vs) Hd) as [H1 H2].
  pose proof (store_same_outside m scratch vs) as Hs. rewrite Hl in Hs. split.
  - rewrite H1. unfold load_bytes. change (Z.to_nat 16) with 16%nat. rewrite <- Hl. by apply load_store.
  - intros q n D1 D2. rewrite (load_bytes_same _ _ _ _ q n H2) by (unfold disjoint_ranges in *; lia).
    eapply load_bytes_same; [exact Hs|]. unfold disjoint_ranges in *. lia.
Qed.

(** The three ways a copy is stored. *)
Lemma stored_inline bytes w m2 :
  disjoint_ranges scratch 16 d 16 -> arena_wf (w_arena w) -> 0 < d -> outside_free (w_arena w) d 16 ->
  Forall is_byte bytes -> (0 < length bytes <= 15)%nat ->
  m2 = copy_forward (store (w_mem w) scratch (ol_sso (sl_owned_str_sso_result bytes false))) d scratch
         (Z.to_nat SL_OWNED_STR_SSO_CAPACITY) ->
  stored_post bytes {| owned_ptr := scratch; owned_length := Z.of_nat (length bytes); owned_is_sso := true;
                       owned_arena_generation := 0; owned_sso := d |} w (set_mem m2 w).
Proof.
  intros Hd Hwf Hd0 Hfree Hb Hl Hm. rewrite sso_result_bytes in Hm by lia.
  destruct (local_then_assign (w_mem w) (bytes ++ replicate (16 - length bytes) 0) m2 Hd) as [H1 H2];
    [rewrite length_app, length_replicate; lia| |done|].
  { apply Forall_app. split; [done|]. apply Forall_replicate. unfold is_byte. lia. }
  clear Hm. split.
  - change (load_bytes m2 d (Z.of_nat (length bytes)) = bytes).
    rewrite <- (load_bytes_take m2 d (Z.of_nat (length bytes)) 16), H1 by lia. rewrite Nat2Z.id. apply take_app_length.
  - split; cbn; lia.
  - done.
  - split; [done|]. left. split; [done|]. cbn. unfold SL_OWNED_STR_SSO_MAX_LENGTH, SL_OWNED_STR_SSO_CAPACITY. lia.
  - cbn. eapply outside_free_sub; [exact Hfree|lia|lia].
  - intros q n Hq. split; [done|]. apply H2.
Qed.

Lemma stored_elsewhere bytes p w w1 m2 gen :
  disjoint_ranges scratch 16 d 16 -> outside_free (w_arena w) scratch 16 -> outside_free (w_arena w) d 16 ->
  fresh_block p (Z.of_nat (length bytes)) w w1 -> load_bytes (w_mem w1) p (Z.of_nat (length bytes)) = bytes ->
  m2 = copy_forward (store (w_mem w1) scratch (replicate 16 0)) d scratch (Z.to_nat SL_OWNED_STR_SSO_CAPACITY) ->
  stored_post bytes {| owned_ptr := p; owned_length := Z.of_nat (length bytes); owned_is_sso := false;
                       owned_arena_generation := gen; owned_sso := d |} w (set_mem m2 w1).
Proof.
  intros Hd Hs Hfree [F1 F2 F3 F4 F5 F6] Hval Hm.
  destruct (local_then_assign (w_mem w1) (replicate 16 0) m2 Hd) as [_ H2]; [done| |done|].
  { apply Forall_replicate. unfold is_byte. lia. }
  clear Hm. split.
  - change (load_bytes m2 p (Z.of_nat (length bytes)) = bytes). rewrite H2; [done| |].
    + by apply F6.
    + by apply F6.
  - split; cbn; lia.
  - done.
  - split; [done|]. right. split; [done|]. intros q n Hq. by apply F6.
  - exact F4.
  - intros q n Hq. destruct (F6 q n Hq) as (_ & Hl & Ho). split; [done|]. intros D1 D2. rewrite <- Hl. by apply H2.
Qed.

Lemma stored_empty w m2 :
  disjoint_ranges scratch 16 d 16 -> arena_wf (w_arena w) ->
  m2 = copy_forward (store (w_mem w) scratch (replicate 16 0)) d scratch (Z.to_nat SL_OWNED_STR_SSO_CAPACITY) ->
  stored_post [] {| owned_ptr := 0; owned_length := 0; owned_is_sso := false;
                    owned_arena_generation := 0; owned_sso := d |} w (set_mem m2 w).
Proof.
  intros Hd Hwf Hm. destruct (local_then_assign (w_mem w) (replicate 16 0) m2 Hd) as [_ H2]; [done| |done|].
  { apply Forall_replicate. unfold is_byte. lia. }
  clear Hm. split; [done|split; cbn; lia|done| | |].
  - split; [done|]. right. split; [done|]. intros q n _. unfold disjoint_ranges. cbn. lia.
  - unfold outside_free, disjoint_ranges. cbn. lia.
  - intros q n Hq. split; [done|]. apply H2.
Qed.

Lemma store_text_spec src w :
  arena_wf (w_arena w) -> str_valid src -> is_size (str_length src) ->
  outside_free (w_arena w) (str_ptr src) (str_length src) ->
  outside_free (w_arena w) scratch 16 -> outside_free (w_arena w) d 16 -> disjoint_ranges scratch 16 d 16 -> 0 < d ->
  match store_text REF src w with
  | (Ok e, w') => stored_post (str_val (w_mem w) src) e w w'
  | (Err _, w') => w' = w
  end.
Proof.
  intros Hwf Hv Hs Ho Hsc Hfree Hd Hd0. unfold store_text, assign_owned, sl_str_copy_to_arena, copy_in_world.
  unfold sl_owned_str_publish, write_owned. unfold_st. rewrite str_valid_storage by done. cbn [is_null orb negb].
  assert (Hlen : Z.of_nat (length (str_val (w_mem w) src)) = str_length src) by (apply length_load_bytes; size_lia).
  destruct (Z.eqb_spec (str_length src) 0) as [E0|E0].
  { unfold str_val. rewrite E0. exact (stored_empty w _ Hd Hwf eq_refl). }
  destruct (Z.leb_spec (str_length src) SL_OWNED_STR_SSO_MAX_LENGTH) as [Hsso|Hbig].
  { unfold SL_OWNED_STR_SSO_MAX_LENGTH, SL_OWNED_STR_SSO_CAPACITY in Hsso.
    assert (Hn : (0 < length (str_val (w_mem w) src) <= 15)%nat) by size_lia.
    exact (stored_inline _ w _ Hd Hwf Hd0 Hfree (load_is_byte _ _ _) Hn eq_refl). }
  destruct (sl_arena_alloc REF (str_length src) SL_STR_WORD_ALIGNMENT REF w) as [[p|c] w1] eqn:E;
    [|by apply sl_arena_alloc_err in E].
  apply sl_arena_alloc_fresh in E as [_ HF]; [|done|done|unfold SL_STR_WORD_ALIGNMENT; size_lia].
  pose proof HF as [F1 F2 F3 F4 F5 F6]. destruct (F6 _ _ Ho) as (Hdj & Hl & _).
  destruct (copied_load_bytes (w_mem w1) (sl_internal_copy (w_mem w1) p (str_ptr src) (str_length src)) p (str_ptr src) (str_length src))
    as [C1 C2]; [size_lia|apply sl_internal_copy_copied; [size_lia|by left]|].
  set (m1 := sl_internal_copy (w_mem w1) p (str_ptr src) (str_length src)) in *. clearbody m1.
  assert (HF1 : fresh_block p (Z.of_nat (length (str_val (w_mem w) src))) w (set_mem m1 w1)).
  { rewrite Hlen. split; [done..| |]; cbn.
    - by eapply same_outside_trans.
    - intros q n Hq. destruct (F6 q n Hq) as (D1 & D2 & D3). split; [done|]. split; [|done]. rewrite <- D2.
      eapply load_bytes_same; [exact C2|]. unfold disjoint_ranges in *. lia. }
  assert (Hval : load_bytes m1 p (Z.of_nat (length (str_val (w_mem w) src))) = str_val (w_mem w) src)
    by (rewrite Hlen, C1; exact Hl).
  pose proof (stored_elsewhere _ p w (set_mem m1 w1) _ (ar_generation (w_arena w1)) Hd Hsc Hfree HF1 Hval eq_refl) as H.
  rewrite Hlen in H. exact H.
Qed.
End Storing.

(** * The table as a list of distinct strings *)

Section Table.
Context {BC : BuildConfig} {SC : SimdConfig} {XX : Xxh64} (scratch : Z).

Definition entry_view (e : SlInternEntry) : SlStr := sl_owned_str_as_view_ref (Some (ie_text e)).

(** Entry [i] of the array at [entries] holds a copy of [bytes]. *)
Record entry_ok (w : World) (entries capacity : Z) (i : nat) (e : SlInternEntry) (bytes : list Z) : Prop := {
  eo_val : str_val (w_mem w) (entry_view e) = bytes;
  eo_valid : str_valid (entry_view e);
  eo_hash : ie_hash e = xxh64 bytes;
  eo_place : owned_sso (ie_text e) = entry_sso entries (Z.of_nat i) /\
    (owned_is_sso (ie_text e) = true /\ owned_length (ie_text e) <= SL_OWNED_STR_SSO_MAX_LENGTH \/
     owned_is_sso (ie_text e) = false /\
     disjoint_ranges (owned_ptr (ie_text e)) (owned_length (ie_text e)) entries (INTERN_ENTRY_SIZE * capacity));
  eo_free : outside_free (w_arena w) (str_ptr (entry_view e)) (str_length (entry_view e));
  eo_apart : disjoint_ranges (str_ptr (entry_view e)) (str_length (entry_view e)) scratch 16;
}.

(** The chains of the index link exactly the entries in use, each under its hash. *)
Record index_links (h : SlArenaHashIndex) (capacity : Z) (strings chains : list (list Z)) : Prop := {
  il_wf : exists buckets next, index_wf h buckets next chains;
  il_capacity : hx_capacity h = capacity;
  il_used : forall x, x ∈ concat chains -> 1 <= x <= Z.of_nat (length strings);
  il_linked : forall i bytes, strings !! i = Some bytes ->
    exists es, chains !! bucket_of h (xxh64 bytes) = Some es /\ Z.of_nat i + 1 ∈ es;
}.

Record intern_wf (s : InternSys) (strings : list (list Z)) : Prop := {
  tw_table : it_initialized (in_table s) = true /\ it_arena (in_table s) = REF /\ 0 < it_entries (in_table s) /\
             1 <= it_generation (in_table s) <= UINT32_MAX;
  tw_arena : arena_wf (in_arena s);
  tw_block : outside_free (in_arena s) (it_entries (in_table s)) (INTERN_ENTRY_SIZE * it_capacity (in_table s)) /\
             disjoint_ranges (it_entries (in_table s)) (INTERN_ENTRY_SIZE * it_capacity (in_table s)) scratch 16;
  tw_scratch : outside_free (in_arena s) scratch 16;
  tw_size : Z.of_nat (length (it_cells (in_table s))) = it_capacity (in_table s) /\ is_size (it_capacity (in_table s)) /\
            it_count (in_table s) = Z.of_nat (length strings) /\ it_count (in_table s) <= it_capacity (in_table s);
  tw_index : exists chains, index_links (it_index (in_table s)) (it_capacity (in_table s)) strings chains;
  tw_entries : forall i bytes, strings !! i = Some bytes ->
    exists e, it_cells (in_table s) !! i = Some e /\
      entry_ok (in_world s) (it_entries (in_table s)) (it_capacity (in_table s)) i e bytes;
  tw_nodup : NoDup strings;
}.

(** A text a caller may pass. *)
Record text_ready (s : InternSys) (text : SlStr) (bytes : list Z) : Prop := {
  tr_val : str_val (in_mem s) text = bytes;
  tr_valid : str_valid text;
  tr_size : is_size (str_length text);
  tr_free : outside_free (in_arena s) (str_ptr text) (str_length text);
  tr_apart : disjoint_ranges (str_ptr text) (str_length text) scratch 16;
}.

Lemma validate_intern_ok s strings : intern_wf s strings -> sl_intern_table_validate REF (in_table s) = Ok tt.
Proof.
  intros [(Hi & _ & He & _) _ _ _ _ [chains Hx] _ _]. destruct Hx as [(buckets & next & Hw) _ _ _].
  unfold sl_intern_table_validate. rewrite Hi, (iw_buckets _ _ _ _ Hw), (iw_next _ _ _ _ Hw).
  destruct (iw_bucket_count _ _ _ _ Hw). destruct (Z.eqb_spec (it_entries (in_table s)) 0); [lia|].
  destruct (Z.eqb_spec (hx_bucket_count (it_index (in_table s))) 0); [lia|]. cbn [is_null negb orb].
  by rewrite !bool_decide_eq_false_2.
Qed.

Lemma entry_at_lookup t i e : it_cells t !! i = Some e -> entry_at t (Z.of_nat i) = e.
Proof. intros H. unfold entry_at. rewrite Nat2Z.id. by apply nth_lookup_Some. Qed.

Lemma matches_spec s strings text bytes i b :
  intern_wf s strings -> text_ready s text bytes -> strings !! i = Some b ->
  sl_intern_table_entry_matches (in_mem s) (in_table s) text (xxh64 bytes) (Z.of_nat i + 1) = bool_decide (b = bytes).
Proof.
  intros Hwf Ht Hb. destruct (tw_entries _ _ Hwf i b Hb) as (e & He & [Hv Hva Hh _ _ _]).
  destruct (tw_size _ _ Hwf) as (_ & _ & Hc & _). apply lookup_lt_Some in Hb as Hlt.
  unfold sl_intern_table_entry_matches. destruct (Z.eqb_spec (Z.of_nat i + 1) 0); [lia|].
  destruct (Z.ltb_spec (it_count (in_table s)) (Z.of_nat i + 1)); [lia|]. cbn [orb].
  replace (Z.of_nat i + 1 - 1) with (Z.of_nat i) by lia. rewrite (entry_at_lookup _ _ _ He).
  fold (entry_view e). rewrite sl_str_equal_spec by (done || apply Ht). fold (in_mem s) in Hv.
  change (w_mem (in_world s)) with (in_mem s) in Hv. rewrite Hv, (tr_val _ _ _ Ht), Hh.
  destruct (bool_decide_reflect (b = bytes)) as [->|]; [by rewrite Z.eqb_refl|by rewrite andb_false_r].
Qed.

Lemma find_hashed_spec s strings text bytes h0 :
  intern_wf s strings -> text_ready s text bytes ->
  sl_intern_table_find_hashed REF s text REF h0 =
  (match list_find (eq bytes) strings with
   | Some (i, _) => Ok (sl_interned_from_entry (in_table s) (Z.of_nat i + 1))
   | None => Err SL_STATUS_OUT_OF_RANGE
   end, xxh64 bytes).
Proof.
  intros Hwf Ht. unfold sl_intern_table_find_hashed, sl_str_hash. unfold_st. cbn [is_null].
  rewrite (validate_intern_ok s strings Hwf). rewrite str_valid_storage by apply Ht. cbn [negb orb].
  rewrite (tr_val _ _ _ Ht). pose proof (tw_index _ _ Hwf) as (chains & [(buckets & next & Hw) Hcap Hused Hlink]).
  destruct (find_spec _ _ _ _ (xxh64 bytes) Hw (sl_intern_table_entry_matches (in_mem s) (in_table s) text (xxh64 bytes)))
    as (es & Hes & ->).
  assert (Hin : forall x, x ∈ es -> exists i b, strings !! i = Some b /\ x = Z.of_nat i + 1).
  { intros x Hx. assert (Hcc : x ∈ concat chains).
    { apply concat_split in Hes as (l1 & l2 & ->). rewrite !elem_of_app. auto. }
    specialize (Hused x Hcc). destruct (lookup_lt_is_Some_2 strings (Z.to_nat (x - 1))) as [b Hb]; [lia|].
    exists (Z.to_nat (x - 1)), b. split; [done|lia]. }
  destruct (list_find (fun x => _ = true) es) as [[k x]|] eqn:Ef.
  - apply list_find_Some in Ef as (Hk & Hm & _). destruct (Hin x) as (i & b & Hb & ->); [by eapply list_elem_of_lookup_2|].
    rewrite (matches_spec s strings text bytes i b Hwf Ht Hb) in Hm. apply bool_decide_eq_true in Hm as ->.
    replace (list_find (eq bytes) strings) with (Some (i, bytes)); [done|]. symmetry. apply list_find_Some.
    split; [done|]. split; [done|]. intros j y Hj Hlt ->. pose proof (NoDup_lookup _ _ _ _ (tw_nodup _ _ Hwf) Hj Hb). lia.
  - apply list_find_None in Ef. replace (list_find (eq bytes) strings) with (@None (nat * list Z)); [done|].
    symmetry. apply list_find_None. rewrite Forall_forall. intros b Hb <-. apply list_elem_of_lookup in Hb as [i Hb].
    destruct (Hlink i bytes Hb) as (es' & Hes' & Hi). rewrite Hes in Hes'. injection Hes' as <-.
    rewrite Forall_forall in Ef. apply (Ef _ Hi). rewrite (matches_spec s strings text bytes i bytes Hwf Ht Hb).
    by apply bool_decide_eq_true.
Qed.

(** Storing a copy fails only for a text longer than fifteen bytes, for lack of arena. *)
Definition unstorable (a : SlArena) (length : Z) (c : SlStatusCode) : Prop :=
  SL_OWNED_STR_SSO_MAX_LENGTH < length /\ no_room a length SL_STR_WORD_ALIGNMENT /\ starved c.

Lemma store_text_err d src w c w' :
  arena_wf (w_arena w) -> is_size (str_length src) -> str_valid src -> store_text scratch d REF src w = (Err c, w') ->
  unstorable (w_arena w) (str_length src) c.
Proof.
  intros Hwf Hs Hv. unfold store_text, assign_owned, sl_str_copy_to_arena, sl_owned_str_publish, write_owned. unfold_st.
  rewrite str_valid_storage by done. cbn [is_null orb negb]. destruct (Z.eqb_spec (str_length src) 0); [done|].
  destruct (Z.leb_spec (str_length src) SL_OWNED_STR_SSO_MAX_LENGTH); [done|].
  destruct (sl_arena_alloc REF (str_length src) SL_STR_WORD_ALIGNMENT REF w) as [[p|c0] w1] eqn:E; [unfold copy_in_world; unfold_st; done|].
  intros [= <- _]. apply sl_arena_alloc_starved in E as (_ & H1 & H2); [|done|done|unfold SL_STR_WORD_ALIGNMENT; size_lia|done|done].
  by split_and!.
Qed.

(** The inline buffer of an entry is inside the array. *)
Lemma entry_sso_inside entries capacity i :
  0 <= i < capacity ->
  entries <= entry_sso entries i /\ entry_sso entries i + 16 <= entries + INTERN_ENTRY_SIZE * capacity.
Proof. intros. unfold entry_sso, INTERN_ENTRY_SIZE, INTERN_SSO_OFFSET. lia. Qed.

Lemma entry_ok_step w w' entries capacity i k e bytes new e' :
  stored_post scratch (entry_sso entries (Z.of_nat k)) new e' w w' ->
  (i < k)%nat -> Z.of_nat k < capacity ->
  entry_ok w entries capacity i e bytes -> entry_ok w' entries capacity i e bytes.
Proof.
  intros [_ _ _ _ _ Ho] Hik Hk [Hv Hva Hh [Hs Hp] Hf Ha]. destruct (Ho _ _ Hf) as [Hf' Hl]. split; try done.
  rewrite <- Hv. apply Hl; [done|].
  pose proof (entry_sso_inside entries capacity (Z.of_nat k) ltac:(lia)). revert Hp. unfold entry_view, sl_owned_str_as_view_ref.
  destruct (owned_is_sso (ie_text e)); cbn [str_ptr str_length sl_str_from_parts].
  - intros [[_ Hp]|[? _]]; [|done]. rewrite Hs. unfold disjoint_ranges, entry_sso, INTERN_ENTRY_SIZE, INTERN_SSO_OFFSET,
      SL_OWNED_STR_SSO_MAX_LENGTH, SL_OWNED_STR_SSO_CAPACITY in *. lia.
  - intros [[? _]|[_ Hp]]; [done|]. unfold disjoint_ranges in *. lia.
Qed.

Lemma entry_ok_new w w' entries capacity k new e' :
  stored_post scratch (entry_sso entries (Z.of_nat k)) new e' w w' -> Z.of_nat k < capacity ->
  outside_free (w_arena w) entries (INTERN_ENTRY_SIZE * capacity) -> outside_free (w_arena w) scratch 16 ->
  disjoint_ranges entries (INTERN_ENTRY_SIZE * capacity) scratch 16 ->
  entry_ok w' entries capacity k {| ie_text := e'; ie_hash := xxh64 new |} new.
Proof.
  intros [Hv Hva _ [Hs Hp] Hf _] Hk Hb Hsc Hd. split; [exact Hv|exact Hva|done| |exact Hf|].
  - split; [exact Hs|]. destruct Hp as [Hp|[Hp Hq]]; [by left|]. right. split; [exact Hp|]. by apply Hq.
  - pose proof (entry_sso_inside entries capacity (Z.of_nat k) ltac:(lia)). revert Hp.
    unfold entry_view, sl_owned_str_as_view_ref. cbn [ie_text].
    destruct (owned_is_sso e'); cbn [str_ptr str_length sl_str_from_parts].
    + intros [[_ Hp]|[? _]]; [|done]. rewrite Hs. unfold disjoint_ranges, SL_OWNED_STR_SSO_MAX_LENGTH, SL_OWNED_STR_SSO_CAPACITY in *. lia.
    + intros [[? _]|[_ Hp]]; [done|]. by apply Hp.
Qed.

(** Linking one more entry. *)
Lemma index_links_insert h capacity strings chains bytes :
  index_links h capacity strings chains -> Z.of_nat (length strings) < capacity ->
  exists h' chains', sl_arena_hash_index_insert REF (xxh64 bytes) (Z.of_nat (length strings) + 1) h = (Ok tt, h') /\
    index_links h' capacity (strings ++ [bytes]) chains'.
Proof.
  intros [(buckets & next & Hw) Hcap Hused Hlink] Hlt.
  pose proof (insert_spec h buckets next chains (xxh64 bytes) Hw (Z.of_nat (length strings) + 1) ltac:(lia)) as Hi.
  rewrite bool_decide_eq_false_2 in Hi by (intros Hx; specialize (Hused _ Hx); lia).
  destruct Hi as (h' & b' & n' & es & Hes & E & Hw' & Hbc). exists h', (<[bucket_of h (xxh64 bytes) := (Z.of_nat (length strings) + 1) :: es]> chains).
  split; [done|]. assert (Hbo : forall x, bucket_of h' x = bucket_of h x) by (intros; unfold bucket_of; by rewrite Hbc).
  split.
  - by exists b', n'.
  - destruct (iw_capacity _ _ _ _ Hw'). rewrite <- Hcap. revert E. unfold sl_arena_hash_index_insert. unfold_st. unfold id.
    rewrite (iw_buckets _ _ _ _ Hw), (iw_next _ _ _ _ Hw). repeat (split_if; [done|]). by intros [= <-].
  - intros x. rewrite <- (concat_insert chains (bucket_of h (xxh64 bytes)) es) by done.
    rewrite length_app. cbn [length]. intros [->|Hx]%elem_of_cons; [lia|]. specialize (Hused x Hx). lia.
  - intros i b Hb. rewrite Hbo. apply lookup_lt_Some in Hes as Hblt.
    destruct (decide (bucket_of h (xxh64 b) = bucket_of h (xxh64 bytes))) as [Eb|Nb].
    + rewrite Eb, list_lookup_insert_eq by done. eexists. split; [done|].
      apply lookup_app_Some in Hb as [Hb|[Hge Hb]].
      * destruct (Hlink i b Hb) as (es' & Hes' & Hin). rewrite Eb, Hes in Hes'. injection Hes' as <-. by apply list_elem_of_further.
      * destruct (i - length strings)%nat eqn:Ek; [|done]. replace i with (length strings) by lia. apply list_elem_of_here.
    + rewrite list_lookup_insert_ne by done. apply lookup_app_Some in Hb as [Hb|[Hge Hb]]; [by apply Hlink|].
      destruct (i - length strings)%nat; [|done]. cbn in Hb. injection Hb as ->. done.
Qed.

(** What a caller keeps across a call: its own storage and the symbols it has. *)
Record intern_step (s s' : InternSys) : Prop := {
  st_table : it_entries (in_table s') = it_entries (in_table s) /\ it_capacity (in_table s') = it_capacity (in_table s) /\
             it_generation (in_table s') = it_generation (in_table s);
  st_count : it_count (in_table s) <= it_count (in_table s');
  st_cells : forall i, Z.of_nat i < it_count (in_table s) -> it_cells (in_table s') !! i = it_cells (in_table s) !! i;
  st_others : forall q n, outside_free (in_arena s) q n -> outside_free (in_arena s') q n /\
    (disjoint_ranges q n scratch 16 ->
     disjoint_ranges q n (it_entries (in_table s)) (INTERN_ENTRY_SIZE * it_capacity (in_table s)) ->
     load_bytes (in_mem s') q n = load_bytes (in_mem s) q n);
}.

Lemma add_spec s strings text bytes :
  intern_wf s strings -> text_ready s text bytes -> bytes ∉ strings ->
  match sl_intern_table_add scratch text (xxh64 bytes) s with
  | (Ok out, s') =>
      Z.of_nat (length strings) < it_capacity (in_table s) /\ intern_wf s' (strings ++ [bytes]) /\ intern_step s s' /\
      out = sl_interned_from_entry (in_table s') (Z.of_nat (length strings) + 1)
  | (Err c, s') => s' = s /\
      (Z.of_nat (length strings) = it_capacity (in_table s) /\ c = SL_STATUS_CAPACITY_EXCEEDED \/
       Z.of_nat (length strings) < it_capacity (in_table s) /\ unstorable (in_arena s) (Z.of_nat (length bytes)) c)
  end.
Proof.
  intros Hwf Ht Hnew. pose proof Hwf as [(Hi & Har & He & Hg) Hawf [Hbl Hbd] Hsc (Hcl & Hcs & Hcn & Hcc) [chains Hx] Hen Hnd].
  unfold sl_intern_table_add. unfold_st. destruct (Z.leb_spec (it_capacity (in_table s)) (it_count (in_table s))) as [Hfull|Hroom].
  { split; [done|]. left. split; [lia|done]. }
  rewrite Har. rewrite (wrap64_small (it_count (in_table s) + 1)) by size_lia.
  replace (it_count (in_table s) + 1 - 1) with (Z.of_nat (length strings)) by lia. rewrite Hcn.
  set (d := entry_sso (it_entries (in_table s)) (Z.of_nat (length strings))).
  pose proof (entry_sso_inside (it_entries (in_table s)) (it_capacity (in_table s)) (Z.of_nat (length strings)) ltac:(lia)) as Hd.
  fold d in Hd. assert (Hlen : Z.of_nat (length bytes) = str_length text).
  { rewrite <- (tr_val _ _ _ Ht). apply length_load_bytes. apply Ht. }
  assert (Hst : match store_text scratch d REF text (in_world s) with
    | (Ok e, w') => stored_post scratch d bytes e (in_world s) w' | (Err _, w') => w' = in_world s end).
  { rewrite <- (tr_val _ _ _ Ht). apply store_text_spec; [exact Hawf|apply Ht|apply Ht|apply Ht|exact Hsc| | |lia].
    - eapply outside_free_sub; [exact Hbl|lia|lia].
    - unfold disjoint_ranges in *. lia. }
  pose proof (store_text_err d text (in_world s)) as Herr. revert Hst Herr. unfold store_text, zoom. unfold_st.
  destruct (sl_str_copy_to_arena REF text REF scratch (in_world s)) as [[o|c] w1]; cbn [in_world in_table set_in_world].
  2:{ intros -> Herr. split; [by destruct s|]. right. split; [lia|]. rewrite Hlen. by eapply Herr; [exact Hawf|apply Ht|apply Ht|]. }
  destruct (assign_owned d o w1) as [[e|c] w2] eqn:Ea; [|by unfold assign_owned in Ea; unfold_st].
  intros Hst _. cbn [in_world in_table set_in_world set_in_table set_cell it_index].
  destruct (index_links_insert _ _ _ _ bytes Hx ltac:(lia)) as (h' & chains' & -> & Hx').
  cbn [in_world in_table set_in_table set_index set_cell it_index it_count it_cells it_entries it_capacity it_generation it_initialized it_arena].
  rewrite Hcn, wrap64_small by size_lia. split; [lia|]. pose proof Hst as [Hv1 Hv2 Hawf2 Hpl Hfr Ho].
  assert (Hlt : (length strings < length (it_cells (in_table s)))%nat) by lia.
  split; [|split; [|done]].
  - split; cbn [in_world in_table in_arena in_mem set_in_table set_index set_cell it_index it_count it_cells it_entries it_capacity it_generation it_initialized it_arena].
    + done.
    + done.
    + split; [by apply Ho|done].
    + by apply Ho.
    + rewrite length_insert, length_app. cbn [length]. split; [done|]. split; [done|]. lia.
    + by exists chains'.
    + intros i b Hb. apply lookup_app_Some in Hb as [Hb|[Hge Hb]].
      * apply lookup_lt_Some in Hb as Hil. destruct (Hen i b Hb) as (e1 & He1 & Hok). exists e1.
        rewrite list_lookup_insert_ne by lia. split; [done|]. eapply entry_ok_step; [exact Hst|done|lia|done].
      * destruct (i - length strings)%nat eqn:Ek; [|done]. cbn in Hb. injection Hb as <-. replace i with (length strings) by lia.
        eexists. rewrite Nat2Z.id, list_lookup_insert_eq by done. split; [done|].
        eapply entry_ok_new; [exact Hst|lia|done|done|done].
    + apply NoDup_app. split; [done|]. split; [intros x Hxs ->%list_elem_of_singleton; done|apply NoDup_singleton].
  - split; cbn [in_world in_table in_arena in_mem set_in_table set_index set_cell it_index it_count it_cells it_entries it_capacity it_generation].
    + done.
    + lia.
    + intros i Hil. apply list_lookup_insert_ne. lia.
    + intros q n Hq. destruct (Ho q n Hq) as [Hq' Hl]. split; [done|]. intros D1 D2. apply Hl; [done|].
      unfold disjoint_ranges in *. lia.
Qed.

Lemma intern_step_refl s : intern_step s s.
Proof. by split. Qed.

Lemma intern_step_trans s1 s2 s3 : intern_step s1 s2 -> intern_step s2 s3 -> intern_step s1 s3.
Proof.
  intros [(E1 & E2 & E3) Hn Hc Ho] [(E1' & E2' & E3') Hn' Hc' Ho']. split.
  - by rewrite E1', E2', E3'.
  - lia.
  - intros i Hi. rewrite Hc' by lia. by apply Hc.
  - intros q n Hq. destruct (Ho q n Hq) as [Hq1 Hl]. destruct (Ho' q n Hq1) as [Hq2 Hl']. split; [done|].
    intros D1 D2. rewrite Hl', Hl by (rewrite ?E1, ?E2; done). done.
Qed.

(** The entry of a string does not change. *)
Lemma interned_stable s s' i :
  intern_step s s' -> Z.of_nat i < it_count (in_table s) -> Z.of_nat i < Z.of_nat (length (it_cells (in_table s))) ->
  sl_interned_from_entry (in_table s') (Z.of_nat i + 1) = sl_interned_from_entry (in_table s) (Z.of_nat i + 1).
Proof.
  intros [(E1 & _ & E3) _ Hc _] Hi Hlt. unfold sl_interned_from_entry. replace (Z.of_nat i + 1 - 1) with (Z.of_nat i) by lia.
  destruct (lookup_lt_is_Some_2 (it_cells (in_table s)) i) as [e He]; [lia|].
  rewrite (entry_at_lookup _ _ _ He), (entry_at_lookup _ i e), E3; [done|]. by rewrite Hc.
Qed.

(** Why a text is refused: it is new, and the table or the arena has no room for it. *)
Definition new_text (a : SlArena) (bytes : list Z) (strings : list (list Z)) (capacity : Z) (c : SlStatusCode) : Prop :=
  (bytes ∉ strings) /\
  (Z.of_nat (length strings) = capacity /\ c = SL_STATUS_CAPACITY_EXCEEDED \/
   Z.of_nat (length strings) < capacity /\ unstorable a (Z.of_nat (length bytes)) c).

(** Find or append. *)
Lemma intern_spec s strings text bytes :
  intern_wf s strings -> text_ready s text bytes ->
  match sl_intern_table_intern scratch REF text REF s with
  | (Ok out, s') => exists strings' i,
      intern_wf s' strings' /\ intern_step s s' /\ strings' !! i = Some bytes /\
      out = sl_interned_from_entry (in_table s') (Z.of_nat i + 1) /\
      (s' = s /\ strings' = strings \/ (bytes ∉ strings) /\ strings' = strings ++ [bytes])
  | (Err c, s') => s' = s /\ new_text (in_arena s) bytes strings (it_capacity (in_table s)) c
  end.
Proof.
  intros Hwf Ht. unfold sl_intern_table_intern. cbn [is_null]. rewrite (find_hashed_spec s strings text bytes 0 Hwf Ht).
  destruct (list_find (eq bytes) strings) as [[i b]|] eqn:Ef.
  - apply list_find_Some in Ef as (Hi & <- & _). exists strings, i. split; [done|]. split; [apply intern_step_refl|].
    split; [done|]. split; [done|]. by left.
  - assert (Hnew : bytes ∉ strings).
    { intros Hin. apply list_find_None in Ef. rewrite Forall_forall in Ef. by apply (Ef bytes). }
    pose proof (add_spec s strings text bytes Hwf Ht Hnew) as Ha.
    destruct (sl_intern_table_add scratch text (xxh64 bytes) s) as [[out|c] s'].
    + destruct Ha as (Hlt & Hwf' & Hst & ->). exists (strings ++ [bytes]), (length strings).
      split; [done|]. split; [done|]. split; [by rewrite list_lookup_middle|]. split; [done|]. by right.
    + destruct Ha as (-> & Ha). done.
Qed.

(** An entry in use resolves through its symbol, and its text reads as the string. *)
Lemma interned_get_spec s strings i bytes :
  intern_wf s strings -> strings !! i = Some bytes ->
  let out := sl_interned_from_entry (in_table s) (Z.of_nat i + 1) in
  sl_intern_table_get REF (in_table s) (is_symbol out) REF = Ok out /\
  is_symbol out = {| sym_index := Z.of_nat i + 1; sym_generation := it_generation (in_table s) |} /\
  str_val (in_mem s) (is_text out) = bytes /\ is_hash out = xxh64 bytes.
Proof.
  intros Hwf Hi. cbv zeta. destruct (tw_entries _ _ Hwf i bytes Hi) as (e & He & [Hv Hva Hh _ _ _]).
  destruct (tw_size _ _ Hwf) as (_ & _ & Hc & _). apply lookup_lt_Some in Hi as Hlt.
  destruct (tw_table _ _ Hwf) as (_ & _ & _ & Hg). split.
  - unfold sl_intern_table_get. rewrite (validate_intern_ok s strings Hwf). unfold_st. cbn [is_null is_symbol sl_interned_from_entry].
    unfold sl_symbol_is_valid. cbn [sym_index sym_generation]. destruct (Z.eqb_spec (Z.of_nat i + 1) 0); [lia|].
    destruct (Z.eqb_spec (it_generation (in_table s)) 0); [lia|].
    destruct (Z.ltb_spec (it_count (in_table s)) (Z.of_nat i + 1)); [lia|]. by rewrite Z.eqb_refl.
  - split; [done|]. cbn [is_text is_hash sl_interned_from_entry]. replace (Z.of_nat i + 1 - 1) with (Z.of_nat i) by lia.
    by rewrite (entry_at_lookup _ _ _ He).
Qed.

(** ** Sequences of calls *)

Definition intern_call (s s' : InternSys) : Prop :=
  exists text bytes, text_ready s text bytes /\ s' = snd (sl_intern_table_intern scratch REF text REF s).

Lemma intern_calls s s' strings :
  intern_wf s strings -> rtc intern_call s s' -> exists more, intern_wf s' (strings ++ more) /\ intern_step s s'.
Proof.
  intros Hwf Hr. revert strings Hwf. induction Hr as [s|s s1 s2 (text & bytes & Ht & ->) _ IH]; intros strings Hwf.
  { exists []. rewrite app_nil_r. split; [done|apply intern_step_refl]. }
  pose proof (intern_spec s strings text bytes Hwf Ht) as H.
  destruct (sl_intern_table_intern scratch REF text REF s) as [[out|c] s1]; cbn [snd] in *.
  - destruct H as (strings' & i & Hwf1 & Hst & _ & _ & H). destruct (IH strings' Hwf1) as (more & Hwf2 & Hst2).
    assert (Hpre : exists k, strings' = strings ++ k).
    { destruct H as [[_ ->]|[_ ->]]; [exists []; by rewrite app_nil_r|by eexists]. }
    destruct Hpre as [k ->]. exists (k ++ more). rewrite app_assoc. split; [done|]. by eapply intern_step_trans.
  - destruct H as [-> _]. by apply IH.
Qed.

(** ** A new table is empty *)

Lemma hash_index_init_spec capacity bucket_count w :
  arena_wf (w_arena w) -> is_size capacity -> is_size bucket_count -> 0 < capacity -> 0 < bucket_count ->
  match sl_arena_hash_index_init REF REF capacity bucket_count (w, hx_zero) with
  | (Ok _, (w', h)) => index_links h capacity [] (replicate (Z.to_nat bucket_count) []) /\ arena_wf (w_arena w') /\
      forall q n, outside_free (w_arena w) q n -> outside_free (w_arena w') q n
  | (Err _, _) => True
  end.
Proof.
  intros Hwf Hc Hb Hc0 Hb0. unfold sl_arena_hash_index_init, zoom. unfold_st. cbn [is_null orb fst snd].
  destruct (Z.eqb_spec capacity 0); [lia|]. destruct (Z.eqb_spec bucket_count 0); [lia|]. cbn [orb fst snd].
  pose proof (array_alloc_spec bucket_count 8 8 w Hwf Hb ltac:(size_lia) ltac:(size_lia) Hb0 ltac:(lia)) as H1.
  destruct (sl_arena_array_alloc REF bucket_count 8 8 REF w) as [[sl1|c] w1]; [|exact I]. cbn [fst snd].
  destruct H1 as (_ & _ & _ & [_ _ Hwf1 _ _ F1] & _).
  pose proof (array_alloc_spec capacity 8 8 w1 Hwf1 Hc ltac:(size_lia) ltac:(size_lia) Hc0 ltac:(lia)) as H2.
  destruct (sl_arena_array_alloc REF capacity 8 8 REF w1) as [[sl2|c] w2]; [|exact I].
  destruct H2 as (_ & _ & _ & [_ _ Hwf2 _ _ F2] & _). split; [|split; [done|]].
  - split; [|done| |].
    + exists (replicate (Z.to_nat bucket_count) 0), (replicate (Z.to_nat capacity) 0). split;
        cbn [hx_buckets hx_next_indices hx_bucket_count hx_capacity hx_count]; [done..| | | | |].
      * rewrite length_replicate. lia.
      * rewrite length_replicate. split; [done|lia].
      * apply Forall2_replicate. done.
      * induction (Z.to_nat bucket_count); [constructor|done].
      * by induction (Z.to_nat bucket_count).
    + intros x. cbn [length]. intros Hx. exfalso. revert Hx. induction (Z.to_nat bucket_count); [apply not_elem_of_nil|done].
    + intros i b Hb'. done.
  - intros q k Hq. apply F2, F1, Hq.
Qed.

Lemma next_intern_generation_range g : is_u32 g -> 1 <= next_intern_generation g <= UINT32_MAX.
Proof.
  intros Hg. unfold next_intern_generation. pose proof (wrap32_range (g + 1)) as Hr.
  destruct (Z.eqb_spec (wrap32 (g + 1)) 0); size_lia.
Qed.

Lemma init_spec s capacity bucket_count :
  arena_wf (in_arena s) -> is_size capacity -> is_size bucket_count -> is_u32 (it_generation (in_table s)) ->
  outside_free (in_arena s) scratch 16 ->
  match sl_intern_table_init REF REF capacity bucket_count s with
  | (Ok _, s') => intern_wf s' [] /\ it_capacity (in_table s') = capacity
  | (Err _, s') => in_table s' = in_table s
  end.
Proof.
  intros Hwf Hc Hb Hg Hsc. unfold sl_intern_table_init, zoom. unfold_st. cbn [is_null orb].
  destruct (Z.eqb_spec capacity 0); [done|]. destruct (Z.eqb_spec bucket_count 0); [done|]. cbn [orb].
  destruct (it_initialized (in_table s)); [done|].
  pose proof (array_alloc_spec capacity INTERN_ENTRY_SIZE 8 (in_world s) Hwf Hc ltac:(unfold INTERN_ENTRY_SIZE; size_lia)
    ltac:(size_lia) ltac:(size_lia) ltac:(unfold INTERN_ENTRY_SIZE; lia)) as H1.
  destruct (sl_arena_array_alloc REF capacity INTERN_ENTRY_SIZE 8 REF (in_world s)) as [[sl|c] w1]; [|done].
  destruct H1 as (_ & _ & Hmul & [Hp He Hwf1 Hown _ F1] & _). cbn [in_world in_table set_in_world].
  pose proof (hash_index_init_spec capacity bucket_count w1 Hwf1 Hc Hb ltac:(size_lia) ltac:(size_lia)) as H2.
  destruct (sl_arena_hash_index_init REF REF capacity bucket_count (w1, hx_zero)) as [[[]|c] [w2 h]]; [|done].
  destruct H2 as (Hx & Hwf2 & F2). cbn [in_world in_table set_in_world set_in_table it_capacity]. split; [|done].
  destruct (F1 _ _ Hsc) as (Hd & _ & Hsc1).
  split; cbn [in_world in_table in_arena set_in_table it_index it_count it_cells it_entries it_capacity it_generation it_initialized it_arena].
  - split; [done|]. split; [done|]. split; [done|]. destruct (negb (it_generation (in_table s) =? 0)); [by apply next_intern_generation_range|size_lia].
  - done.
  - rewrite (Z.mul_comm INTERN_ENTRY_SIZE). split; [by apply F2|]. done.
  - by apply F2.
  - rewrite length_map, length_seqZ. cbn [length]. size_lia.
  - by eexists.
  - intros i b Hi. done.
  - constructor.
Qed.
End Table.

(** * Symbols of an earlier generation *)

Section Stale.
Context {BC : BuildConfig} {SC : SimdConfig} {XX : Xxh64} (scratch : Z).

Lemma intern_keeps_generation table text out s :
  it_generation (in_table (snd (sl_intern_table_intern scratch table text out s))) = it_generation (in_table s).
Proof.
  unfold sl_intern_table_intern. destruct (is_null out); [done|]. unfold_st.
  destruct (sl_intern_table_find_hashed table s text REF 0) as [[o|c] h]; [done|]. destruct c; try done.
  unfold sl_intern_table_add, zoom. unfold_st. destruct (_ <=? _); [done|].
  destruct (sl_str_copy_to_arena _ _ _ _ _) as [[o|c] w1]; [|done]. cbn [in_world in_table set_in_world].
  destruct (assign_owned _ _ _) as [[e|c] w2]; [|done]. cbn [in_world in_table set_in_world set_in_table set_cell it_index].
  destruct (sl_arena_hash_index_insert _ _ _ _) as [[[]|c] h']; done.
Qed.

Lemma calls_keep_generation s s' :
  rtc (intern_call scratch) s s' -> it_generation (in_table s') = it_generation (in_table s).
Proof.
  induction 1 as [s|s s1 s2 (text & bytes & Ht & ->) _ IH]; [done|]. by rewrite IH, intern_keeps_generation.
Qed.

Lemma init_generation table arena capacity bucket_count s s' :
  sl_intern_table_init table arena capacity bucket_count s = (Ok tt, s') ->
  it_generation (in_table s) <> 0 -> it_generation (in_table s') = next_intern_generation (it_generation (in_table s)).
Proof.
  unfold sl_intern_table_init, zoom. unfold_st. intros H Hg. revert H. destruct (_ || _); [done|].
  destruct (it_initialized _); [done|]. destruct (sl_arena_array_alloc _ _ _ _ _ _) as [[sl|c] w1]; [|done].
  cbn [in_world in_table set_in_world]. destruct (sl_arena_hash_index_init _ _ _ _ _) as [[[]|c] [w2 h]]; [|done].
  intros [= <-]. cbn [in_table set_in_table set_in_world it_generation]. by destruct (Z.eqb_spec (it_generation (in_table s)) 0).
Qed.

Lemma next_generation_twice g :
  1 <= g <= UINT32_MAX -> next_intern_generation (next_intern_generation g) <> g.
Proof.
  intros Hg. unfold next_intern_generation, wrap32, UINT32_MAX in *. change (2 ^ 32) with 4294967296 in *.
  destruct (Z.eqb_spec ((g + 1) mod 4294967296) 0) as [E|E].
  - change ((1 + 1) mod 4294967296 =? 0) with false. change ((1 + 1) mod 4294967296) with 2. cbv iota. div_lia.
  - destruct (Z.eqb_spec (((g + 1) mod 4294967296 + 1) mod 4294967296) 0) as [E'|E']; div_lia.
Qed.

Lemma get_stale t symbol out :
  sym_generation symbol <> it_generation t -> is_ok (sl_intern_table_get REF t symbol out) = false.
Proof.
  intros Hne. unfold sl_intern_table_get. destruct (is_null out); [done|]. unfold_st.
  destruct (sl_intern_table_validate REF t) as [[]|c]; [|done]. destruct (_ || _); [done|].
  by destruct (Z.eqb_spec (sym_generation symbol) (it_generation t)).
Qed.
End Stale.

Section Claims.
Context {BC : BuildConfig} {SC : SimdConfig} {XX : Xxh64} (scratch : Z).

(** C19: Interning refines "find or append" on a list of distinct strings, whatever
    the hash function: a text already in the table gives the entry it has and changes
    nothing; a new text is appended, and its entry reads back as the text; the only
    refusals are of new texts, when the table is full, or when the text is too long for
    the inline buffer and what is left of the arena cannot hold it, and they change
    nothing.  A lookup without
    insertion finds exactly the texts of the list, and every operation keeps the
    invariant that the index links each entry once under its hash. *)
Theorem intern_refines_list s strings text bytes :
  intern_wf scratch s strings -> text_ready scratch s text bytes ->
  let '(r, s') := sl_intern_table_intern scratch REF text REF s in
  (is_ok (sl_intern_table_find REF s text REF) = true <-> bytes ∈ strings) /\
  match r with
  | Ok out => exists strings', intern_wf scratch s' strings' /\
      (bytes ∈ strings -> s' = s /\ strings' = strings /\ sl_intern_table_find REF s text REF = Ok out) /\
      (bytes ∉ strings -> strings' = strings ++ [bytes] /\ sym_index (is_symbol out) = it_count (in_table s) + 1) /\
      str_val (in_mem s') (is_text out) = bytes /\
      sl_intern_table_get REF (in_table s') (is_symbol out) REF = Ok out
  | Err c => s' = s /\ new_text (in_arena s) bytes strings (it_capacity (in_table s)) c
  end.
Proof.
  intros Hwf Ht. pose proof (intern_spec scratch s strings text bytes Hwf Ht) as H.
  assert (Hfind : sl_intern_table_find REF s text REF = match list_find (eq bytes) strings with
    | Some (i, _) => Ok (sl_interned_from_entry (in_table s) (Z.of_nat i + 1)) | None => Err SL_STATUS_OUT_OF_RANGE end).
  { unfold sl_intern_table_find. by rewrite (find_hashed_spec scratch s strings text bytes 0 Hwf Ht). }
  assert (Hmem : is_ok (sl_intern_table_find REF s text REF) = true <-> bytes ∈ strings).
  { rewrite Hfind. destruct (list_find (eq bytes) strings) as [[i b]|] eqn:Ef.
    - apply list_find_Some in Ef as (Hi & <- & _). split; [intros _; by eapply list_elem_of_lookup_2|done].
    - apply list_find_None in Ef. rewrite Forall_forall in Ef. split; [done|]. intros Hin. by destruct (Ef _ Hin). }
  destruct (sl_intern_table_intern scratch REF text REF s) as [[out|c] s']; [|by split].
  destruct H as (strings' & i & Hwf' & _ & Hi & -> & Hc). split; [done|]. exists strings'. split; [done|].
  destruct (interned_get_spec scratch s' strings' i bytes Hwf' Hi) as (Hget & Hsym & Hval & _). split; [|split; [|done]].
  - intros Hin. destruct Hc as [[-> ->]|[Hn _]]; [|done]. split; [done|]. split; [done|]. rewrite Hfind.
    replace (list_find (eq bytes) strings) with (Some (i, bytes)); [done|]. symmetry. apply list_find_Some.
    split; [done|]. split; [done|]. intros j y Hj Hlt ->. pose proof (NoDup_lookup _ _ _ _ (tw_nodup _ _ _ Hwf) Hj Hi). lia.
  - intros Hn. destruct Hc as [[-> ->]|[_ ->]]; [by apply list_elem_of_lookup_2 in Hi|]. split; [done|].
    rewrite Hsym. cbn [sym_index]. destruct (tw_size _ _ _ Hwf) as (_ & _ & -> & _).
    apply lookup_app_Some in Hi as [Hi|[Hge Hi]]; [by apply list_elem_of_lookup_2 in Hi|].
    destruct (i - length strings)%nat eqn:Ek; [|done]. lia.
Qed.

(** Symbols are canonical and stable: of two interned texts, however many
    calls lie between them, the symbols are equal exactly when the texts are; the
    symbol and the view of the first text keep resolving to it, byte for byte; and
    once the table is disposed and initialised again, no later state resolves the old
    symbol. *)
Theorem interned_symbols_canonical s strings text1 bytes1 out1 s1 s2 text2 bytes2 out2 s3 :
  intern_wf scratch s strings ->
  text_ready scratch s text1 bytes1 -> sl_intern_table_intern scratch REF text1 REF s = (Ok out1, s1) ->
  rtc (intern_call scratch) s1 s2 ->
  text_ready scratch s2 text2 bytes2 -> sl_intern_table_intern scratch REF text2 REF s2 = (Ok out2, s3) ->
  (sl_symbol_equal (is_symbol out1) (is_symbol out2) = true <-> bytes1 = bytes2) /\
  sl_intern_table_get REF (in_table s3) (is_symbol out1) REF = Ok out1 /\
  str_val (in_mem s3) (is_text out1) = bytes1 /\
  forall capacity bucket_count s4 s5,
    sl_intern_table_init REF REF capacity bucket_count (set_in_table (sl_intern_table_dispose REF (in_table s3)) s3) = (Ok tt, s4) ->
    rtc (intern_call scratch) s4 s5 -> is_ok (sl_intern_table_get REF (in_table s5) (is_symbol out1) REF) = false.
Proof.
  intros Hwf Ht1 E1 Hcalls Ht2 E2. pose proof (intern_spec scratch s strings text1 bytes1 Hwf Ht1) as H1. rewrite E1 in H1.
  destruct H1 as (str1 & i & Hwf1 & _ & Hi & -> & _).
  destruct (intern_calls scratch s1 s2 str1 Hwf1 Hcalls) as (more & Hwf2 & Hst2).
  pose proof (intern_spec scratch s2 (str1 ++ more) text2 bytes2 Hwf2 Ht2) as H2. rewrite E2 in H2.
  destruct H2 as (str3 & j & Hwf3 & Hst3 & Hj & -> & Hgrow).
  assert (Hi3 : str3 !! i = Some bytes1).
  { apply (lookup_app_l_Some _ more) in Hi. destruct Hgrow as [[_ ->]|[_ ->]]; [done|by apply lookup_app_l_Some]. }
  destruct (tw_size _ _ _ Hwf1) as (Hcl & _ & Hcn & Hcc). apply lookup_lt_Some in Hi as Hlt.
  pose proof (interned_stable scratch s1 s3 i (intern_step_trans _ _ _ _ Hst2 Hst3) ltac:(lia) ltac:(lia)) as Hsame.
  rewrite <- Hsame. destruct (interned_get_spec scratch s3 str3 i bytes1 Hwf3 Hi3) as (Hget & Hs1 & Hval & _).
  destruct (interned_get_spec scratch s3 str3 j bytes2 Hwf3 Hj) as (_ & Hs2 & _).
  split; [|split; [done|split; [done|]]].
  - rewrite Hs1, Hs2. unfold sl_symbol_equal. cbn [sym_index sym_generation]. rewrite Z.eqb_refl, andb_true_r. split.
    + intros E%Z.eqb_eq. assert (i = j) as -> by lia. congruence.
    + intros ->. apply Z.eqb_eq. pose proof (NoDup_lookup _ _ _ _ (tw_nodup _ _ _ Hwf3) Hi3 Hj). lia.
  - intros capacity bucket_count s4 s5 Hinit Hcalls5. apply get_stale. rewrite (calls_keep_generation scratch _ _ Hcalls5).
    destruct (tw_table _ _ _ Hwf3) as (_ & _ & _ & Hg). rewrite Hs1. cbn [sym_generation].
    pose proof (next_intern_generation_range (it_generation (in_table s3)) ltac:(size_lia)) as Hr.
    rewrite (init_generation _ _ _ _ _ _ Hinit) by (cbn; lia). apply not_eq_sym. by apply next_generation_twice.
Qed.
End Claims.

Module Demo.
#[local] Existing Instance assert_build.
Definition simd0 : SimdConfig := {| SL_STRING_SIMD := SCALAR; SL_BYTES_SIMD := SCALAR |}.
#[local] Existing Instance simd0.

(** A hash with many collisions. *)
Definition sum_hash : Xxh64 := {| xxh64 bytes := fold_right Z.add 0 bytes |}.
#[local] Existing Instance sum_hash.

(** Two texts with the same hash at 100 and 200. *)
Definition w0 : World :=
  {| w_mem := store (store (fun _ => 0) 100 [97; 98]) 200 [98; 97];
     w_arena := {| ar_base := 4096; ar_capacity := 1024; ar_offset := 0; ar_high_water := 0; ar_generation := 1 |} |}.
Definition empty_table : SlInternTable := sl_intern_table_dispose REF
  {| it_arena := NULL; it_entries := 0; it_cells := []; it_index := hx_zero; it_capacity := 0; it_count := 0;
     it_generation := 0; it_initialized := false |}.
Definition s0 : InternSys := {| in_world := w0; in_table := empty_table |}.
Definition s1 : InternSys := snd (sl_intern_table_init REF REF 2 2 s0).
Definition ab : SlStr := sl_str_from_parts 100 2.
Definition ba : SlStr := sl_str_from_parts 200 2.

Lemma intern_s1_wf : intern_wf 300 s1 [].
Proof.
  pose proof (init_spec 300 s0 2 2) as H. unfold s1.
  assert (Hok : is_ok (fst (sl_intern_table_init REF REF 2 2 s0)) = true) by (vm_compute; reflexivity).
  destruct (sl_intern_table_init REF REF 2 2 s0) as [[[]|c] s']; [|discriminate Hok].
  apply H; [unfold arena_wf; cbn; size_lia|size_lia|size_lia|vm_compute; split; discriminate|].
  unfold outside_free, disjoint_ranges. cbn. lia.
Qed.

Lemma s1_arena : exists n, in_arena s1 =
  {| ar_base := 4096; ar_capacity := 1024; ar_offset := n; ar_high_water := n; ar_generation := 1 |}.
Proof. eexists. vm_compute. reflexivity. Qed.

Lemma s1_text p bytes :
  100 <= p <= 200 -> str_val (in_mem s1) (sl_str_from_parts p 2) = bytes -> text_ready 300 s1 (sl_str_from_parts p 2) bytes.
Proof.
  intros Hp Hv. destruct s1_arena as [n Hn]. split; [exact Hv|split; cbn; lia|cbn; size_lia| |].
  - rewrite Hn. unfold outside_free, disjoint_ranges. cbn.
    assert (0 <= n) by (pose proof (tw_arena _ _ _ intern_s1_wf) as Hw; rewrite Hn in Hw; unfold arena_wf in Hw; cbn in Hw; lia). lia.
  - unfold disjoint_ranges. cbn. lia.
Qed.

Lemma intern_refines_list_witness :
  exists out, fst (sl_intern_table_intern 300 REF ab REF s1) = Ok out /\ sym_index (is_symbol out) = 1 /\
    str_val (in_mem (snd (sl_intern_table_intern 300 REF ab REF s1))) (is_text out) = [97; 98].
Proof.
  pose proof (intern_refines_list 300 s1 [] ab [97; 98] intern_s1_wf (s1_text 100 [97; 98] ltac:(lia) ltac:(vm_compute; reflexivity))) as H.
  assert (Hok : is_ok (fst (sl_intern_table_intern 300 REF ab REF s1)) = true) by (vm_compute; reflexivity).
  destruct (sl_intern_table_intern 300 REF ab REF s1) as [[out|c] s']; [|discriminate Hok]. exists out. split; [reflexivity|].
  destruct H as (_ & strings' & _ & _ & Hn & Hv & _). destruct Hn as [_ Hn]; [apply not_elem_of_nil|]. split; [|exact Hv].
  rewrite Hn. vm_compute. reflexivity.
Defined.

(** Interning a text again gives the symbol it has. *)
Lemma interned_symbols_canonical_witness :
  match sl_intern_table_intern 300 REF ab REF s1 with
  | (Ok out, s') => sl_intern_table_get REF (in_table s') (is_symbol out) REF = Ok out
  | _ => False
  end.
Proof.
  pose proof (s1_text 100 [97; 98] ltac:(lia) ltac:(vm_compute; reflexivity)) as Ht.
  pose proof (intern_spec 300 s1 [] ab [97; 98] intern_s1_wf Ht) as Hs.
  assert (Hok : is_ok (fst (sl_intern_table_intern 300 REF ab REF s1)) = true) by (vm_compute; reflexivity).
  destruct (sl_intern_table_intern 300 REF ab REF s1) as [[out|c] s'] eqn:E; [|discriminate Hok].
  destruct Hs as (strings & i & Hwf & Hst & Hi & Hout & _).
  assert (Ht' : text_ready 300 s' ab [97; 98]).
  { destruct Ht as [T1 T2 T3 T4 T5]. destruct (st_others _ _ _ Hst _ _ T4) as [O1 O2]. split; [|exact T2|exact T3|exact O1|exact T5].
    rewrite <- T1. apply O2; [exact T5|]. assert (4096 <= it_entries (in_table s1)) by (vm_compute; discriminate).
    unfold disjoint_ranges. cbn [str_ptr str_length ab sl_str_from_parts]. lia. }
  pose proof (intern_spec 300 s' strings ab [97; 98] Hwf Ht') as Hs2.
  destruct (sl_intern_table_intern 300 REF ab REF s') as [[out2|c] s''] eqn:E2.
  - destruct (interned_symbols_canonical 300 s1 [] ab [97; 98] out s' s' ab [97; 98] out2 s'' intern_s1_wf Ht E (rtc_refl _ _) Ht' E2)
      as (_ & Hget & _). destruct Hs2 as (strings2 & j & _ & _ & _ & _ & [[Heq _]|[Hn _]]).
    + rewrite Heq in Hget. exact Hget.
    + exfalso. apply Hn. exact (list_elem_of_lookup_2 _ _ _ Hi).
  - exfalso. destruct Hs2 as [_ [Hn _]]. apply Hn. exact (list_elem_of_lookup_2 _ _ _ Hi).
Defined.
End Demo.
