(* ===== verification/HttpResponse.v ===== *)
(** The HTTP/1.1 response writer (src/core/http_response.c).

    The descriptor's arrays of headers and chunks are lists, with the pointer's
    NULL-ness kept beside them.  A literal [char*] is its text.  Profiling and the
    breadcrumbs recorded on stream failures do not influence the output and are left
    out; the adapter that reads a stream response is in Http2Response. *)

From stdpp Require Import strings.
From Stdlib Require Import Strings.Ascii.
From S2P Require Import Prelude Memory Status Arena Str Bytes Simd Container Sink Builder Diag.

Open Scope Z_scope.

Inductive SlHttpResponseKind :=
| SL_HTTP_RESPONSE_TEXT
| SL_HTTP_RESPONSE_JSON
| SL_HTTP_RESPONSE_EMPTY
| SL_HTTP_RESPONSE_PROBLEM
| SL_HTTP_RESPONSE_STREAM
| SL_HTTP_RESPONSE_BYTES.

#[export] Instance SlHttpResponseKind_eq_dec : EqDecision SlHttpResponseKind.
Proof. solve_decision. Defined.

(** The policy is an enumeration of the caller: any value may arrive. *)
Definition SL_HTTP_RESPONSE_CONNECTION_CLOSE : Z := 0.
Definition SL_HTTP_RESPONSE_CONNECTION_KEEP_ALIVE : Z := 1.

Record SlHttpResponseWriteOptions := { wo_connection : Z; wo_suppress_body : bool }.

Record SlHttpHeader := { hh_name : SlStr; hh_value : SlStr }.

Record SlHttpResponse := {
  rp_status : Z;
  rp_kind : SlHttpResponseKind;
  rp_content_type : SlStr;
  rp_headers_ptr : nullable;
  rp_headers : list SlHttpHeader;
  rp_body : SlBytes;
  rp_stream_ptr : nullable;
  rp_stream_chunks : list SlBytes;
}.

Definition make_response (status : Z) (kind : SlHttpResponseKind) (content_type : SlStr) (body : SlBytes) : SlHttpResponse :=
  {| rp_status := status; rp_kind := kind; rp_content_type := content_type; rp_headers_ptr := NULL; rp_headers := [];
     rp_body := body; rp_stream_ptr := NULL; rp_stream_chunks := [] |}.

Definition CRLF : string := String "013" (String "010" EmptyString).

Definition sl_http_response_reason (status : Z) : option string :=
  if status =? 200 then Some "OK"%string else
  if status =? 201 then Some "Created"%string else
  if status =? 202 then Some "Accepted"%string else
  if status =? 204 then Some "No Content"%string else
  if status =? 304 then Some "Not Modified"%string else
  if status =? 400 then Some "Bad Request"%string else
  if status =? 401 then Some "Unauthorized"%string else
  if status =? 403 then Some "Forbidden"%string else
  if status =? 404 then Some "Not Found"%string else
  if status =? 405 then Some "Method Not Allowed"%string else
  if status =? 408 then Some "Request Timeout"%string else
  if status =? 413 then Some "Payload Too Large"%string else
  if status =? 415 then Some "Unsupported Media Type"%string else
  if status =? 417 then Some "Expectation Failed"%string else
  if status =? 500 then Some "Internal Server Error"%string else
  if status =? 503 then Some "Service Unavailable"%string else
  if status =? 501 then Some "Not Implemented"%string else None.

Definition sl_http_response_status_has_no_body (status : Z) : bool := (status =? 204) || (status =? 304).

(** The loop of the measurement, with the running total. *)
Fixpoint measure_loop (no_body : bool) (chunks : list SlBytes) (total : Z) : result Z :=
  match chunks with
  | [] => Ok total
  | chunk :: chunks =>
      error_if negb (bytes_length chunk =? 0) && (bytes_ptr chunk =? 0) with SL_STATUS_INVALID_ARGUMENT ;;
      error_if negb (bytes_length chunk =? 0) && no_body with SL_STATUS_INVALID_ARGUMENT ;;
      total ← sl_checked_add_size total (bytes_length chunk) REF ;
      measure_loop no_body chunks total
  end.

Definition sl_http_response_stream_validate_and_measure (response : SlHttpResponse) : result Z :=
  error_if negb (bool_decide (rp_kind response = SL_HTTP_RESPONSE_STREAM)) with SL_STATUS_INVALID_ARGUMENT ;;
  error_if is_null (rp_stream_ptr response) && negb (bool_decide (rp_stream_chunks response = []))
    with SL_STATUS_INVALID_ARGUMENT ;;
  measure_loop (sl_http_response_status_has_no_body (rp_status response)) (rp_stream_chunks response) 0.

(** [for] each byte: stop at the first that is not [ok]. *)
Fixpoint each_byte (ok : Z -> bool) (m : mem) (ptr : Z) (n : nat) : bool :=
  match n with
  | O => true
  | S n => if negb (ok (ld8 m ptr)) then false else each_byte ok m (ptr + 1) n
  end.

Definition content_type_byte (ch : Z) : bool := negb ((ch <? 32) || (ch =? 127)).

Definition sl_http_response_content_type_valid (m : mem) (content_type : SlStr) : bool :=
  if (str_ptr content_type =? 0) && negb (str_length content_type =? 0) then false else
  each_byte content_type_byte m (str_ptr content_type) (Z.to_nat (str_length content_type)).

Definition sl_http_response_header_name_char_valid (ch : Z) : bool :=
  ((65 <=? ch) && (ch <=? 90)) || ((97 <=? ch) && (ch <=? 122)) || ((48 <=? ch) && (ch <=? 57)) ||
  (ch =? 33) || (ch =? 35) || (ch =? 36) || (ch =? 37) || (ch =? 38) || (ch =? 39) ||
  (ch =? 42) || (ch =? 43) || (ch =? 45) || (ch =? 46) || (ch =? 94) || (ch =? 95) ||
  (ch =? 96) || (ch =? 124) || (ch =? 126).

Definition sl_http_response_header_name_valid (m : mem) (name : SlStr) : bool :=
  if (str_ptr name =? 0) || (str_length name =? 0) then false else
  each_byte sl_http_response_header_name_char_valid m (str_ptr name) (Z.to_nat (str_length name)).

Definition header_value_byte (ch : Z) : bool := negb (((ch <? 32) && negb (ch =? 9)) || (ch =? 127)).

Definition sl_http_response_header_value_valid (m : mem) (value : SlStr) : bool :=
  if (str_ptr value =? 0) && negb (str_length value =? 0) then false else
  each_byte header_value_byte m (str_ptr value) (Z.to_nat (str_length value)).

Definition sl_http_response_connection_policy_valid (policy : Z) : bool :=
  (policy =? SL_HTTP_RESPONSE_CONNECTION_CLOSE) || (policy =? SL_HTTP_RESPONSE_CONNECTION_KEEP_ALIVE).

Section Validation.
Context {SC : SimdConfig} {RO : ReadOnlyData}.

Definition sl_http_response_header_managed (m : mem) (name : SlStr) : bool :=
  sl_str_equal_ci_ascii m name (literal "Connection") ||
  sl_str_equal_ci_ascii m name (literal "Keep-Alive") ||
  sl_str_equal_ci_ascii m name (literal "Content-Type") ||
  sl_str_equal_ci_ascii m name (literal "Transfer-Encoding") ||
  sl_str_equal_ci_ascii m name (literal "Content-Length").

Definition response_header_ok (m : mem) (header : SlHttpHeader) : bool :=
  negb (negb (sl_http_response_header_name_valid m (hh_name header)) ||
        sl_http_response_header_managed m (hh_name header) ||
        negb (sl_http_response_header_value_valid m (hh_value header))).

Definition sl_http_response_headers_valid (m : mem) (response : SlHttpResponse) : bool :=
  if negb (bool_decide (rp_headers response = [])) && is_null (rp_headers_ptr response) then false else
  forallb (response_header_ok m) (rp_headers response).

(** The constructors of descriptors. *)
Definition sl_http_response_body_from_str (text : SlStr) : SlBytes := sl_bytes_from_parts (str_ptr text) (str_length text).

Definition sl_http_response_text (status : Z) (body : SlStr) : SlHttpResponse :=
  make_response status SL_HTTP_RESPONSE_TEXT (literal "text/plain; charset=utf-8") (sl_http_response_body_from_str body).

Definition sl_http_response_json (status : Z) (body : SlBytes) : SlHttpResponse :=
  make_response status SL_HTTP_RESPONSE_JSON (literal "application/json; charset=utf-8") body.

Definition sl_http_response_bytes (status : Z) (content_type : SlStr) (body : SlBytes) : SlHttpResponse :=
  make_response status SL_HTTP_RESPONSE_BYTES content_type body.

Definition sl_http_response_empty (status : Z) : SlHttpResponse :=
  make_response status SL_HTTP_RESPONSE_EMPTY sl_str_empty sl_bytes_empty.

Definition sl_http_response_problem (status : Z) (body : SlBytes) : SlHttpResponse :=
  make_response status SL_HTTP_RESPONSE_PROBLEM (literal "application/problem+json; charset=utf-8") body.

(** [chunks] is [None] for NULL. *)
Definition sl_http_response_stream (status : Z) (content_type : SlStr) (chunks : option (list SlBytes)) (chunk_count : Z)
    : SlHttpResponse :=
  {| rp_status := status; rp_kind := SL_HTTP_RESPONSE_STREAM; rp_content_type := content_type; rp_headers_ptr := NULL;
     rp_headers := []; rp_body := sl_bytes_empty;
     rp_stream_ptr := if chunk_count =? 0 then NULL else match chunks with None => NULL | Some _ => REF end;
     rp_stream_chunks := match chunks with None => [] | Some cs => take (Z.to_nat chunk_count) cs end |}.
End Validation.

(** * Appending *)

Section Append.
Context `{SO : SinkOps K} {RO : ReadOnlyData}.

Definition sl_http_response_append_cstr (text : option string) : ST K unit :=
  match text with
  | None => fail SL_STATUS_INVALID_ARGUMENT
  | Some text => sink_append_bytes (sl_bytes_from_parts (rodata text) (string_size text))
  end.

Definition sl_http_response_append_str (text : SlStr) : ST K unit :=
  sink_append_bytes (sl_bytes_from_parts (str_ptr text) (str_length text)).

(** The digits come out of the local array last first. *)
Fixpoint append_digits (digits : list Z) : ST K unit :=
  match digits with
  | [] => mret tt
  | digit :: digits => sink_append_byte digit ;; append_digits digits
  end.

(** The array has 32 places. *)
Definition sl_http_response_append_size (value : Z) : ST K unit := append_digits (rev (digits_loop 32 value)).

Definition sl_http_response_append_status_line (status_code : Z) (reason : option string) (connection_policy : Z)
    : ST K unit :=
  sl_http_response_append_cstr (Some "HTTP/1.1 "%string) ;;
  sl_http_response_append_size status_code ;;
  sl_http_response_append_cstr (Some " "%string) ;;
  sl_http_response_append_cstr reason ;;
  sl_http_response_append_cstr (Some (CRLF +:+ "Connection: ")) ;;
  sl_http_response_append_cstr
    (Some (if connection_policy =? SL_HTTP_RESPONSE_CONNECTION_KEEP_ALIVE then "keep-alive"%string else "close"%string)) ;;
  sl_http_response_append_cstr (Some CRLF).

Definition sl_http_response_append_content_type (content_type : SlStr) : ST K unit :=
  sl_http_response_append_cstr (Some "Content-Type: "%string) ;;
  sl_http_response_append_str content_type ;;
  sl_http_response_append_cstr (Some CRLF).

Fixpoint sl_http_response_append_custom_headers (headers : list SlHttpHeader) : ST K unit :=
  match headers with
  | [] => mret tt
  | header :: headers =>
      sl_http_response_append_str (hh_name header) ;;
      sl_http_response_append_cstr (Some ": "%string) ;;
      sl_http_response_append_str (hh_value header) ;;
      sl_http_response_append_cstr (Some CRLF) ;;
      sl_http_response_append_custom_headers headers
  end.

Definition sl_http_response_append_content_length (body_length : Z) : ST K unit :=
  sl_http_response_append_cstr (Some "Content-Length: "%string) ;;
  sl_http_response_append_size body_length ;;
  sl_http_response_append_cstr (Some CRLF).

Fixpoint sl_http_response_append_stream_body (chunks : list SlBytes) : ST K unit :=
  match chunks with
  | [] => mret tt
  | chunk :: chunks =>
      (if bytes_length chunk =? 0 then mret tt else sink_append_bytes chunk) ;;
      sl_http_response_append_stream_body chunks
  end.

Definition sl_http_response_append_head (response : SlHttpResponse) (reason : option string) (connection_policy : Z)
    (has_content_type : bool) (body_length : Z) : ST K unit :=
  sl_http_response_append_status_line (rp_status response) reason connection_policy ;;
  (if has_content_type then sl_http_response_append_content_type (rp_content_type response) else mret tt) ;;
  sl_http_response_append_custom_headers (rp_headers response) ;;
  (if negb (sl_http_response_status_has_no_body (rp_status response))
   then sl_http_response_append_content_length body_length else mret tt) ;;
  sl_http_response_append_cstr (Some CRLF).
End Append.

Section Write.
Context {BC : BuildConfig} {SC : SimdConfig} {RO : ReadOnlyData} (scratch : Z).

Definition is_stream (response : SlHttpResponse) : bool := bool_decide (rp_kind response = SL_HTTP_RESPONSE_STREAM).

(** The checks before anything is written; the answer is the reason phrase, the
    length of a stream body, the policy and whether the body is suppressed. *)
Definition check_response (m : mem) (response : SlHttpResponse) (options : option SlHttpResponseWriteOptions)
    : result (string * Z * Z * bool) :=
  match sl_http_response_reason (rp_status response) with
  | None => Err SL_STATUS_UNSUPPORTED
  | Some reason =>
      error_if negb (sl_http_response_content_type_valid m (rp_content_type response)) with SL_STATUS_INVALID_ARGUMENT ;;
      error_if negb (sl_http_response_headers_valid m response) with SL_STATUS_INVALID_ARGUMENT ;;
      error_if match options with
               | Some o => negb (sl_http_response_connection_policy_valid (wo_connection o)) | None => false
               end with SL_STATUS_INVALID_ARGUMENT ;;
      let '(connection_policy, suppress_body) :=
        match options with
        | Some o => (wo_connection o, wo_suppress_body o)
        | None => (SL_HTTP_RESPONSE_CONNECTION_CLOSE, false)
        end in
      stream_body_length ← (if is_stream response then sl_http_response_stream_validate_and_measure response else Ok 0) ;
      Ok (reason, stream_body_length, connection_policy, suppress_body)
  end.

(** The head, then the body, into the builder over the buffer. *)
Definition write_response (response : SlHttpResponse) (reason : string) (stream_body_length connection_policy : Z)
    (suppress_body : bool) (buffer capacity : Z) : ST BuilderSys SlBytes :=
  let no_body_status := sl_http_response_status_has_no_body (rp_status response) in
  let body := if no_body_status then sl_bytes_empty else rp_body response in
  let wire_body := if suppress_body || is_stream response then sl_bytes_empty else body in
  let has_content_type := negb (str_length (rp_content_type response) =? 0) && negb no_body_status in
  sl_byte_builder_init_fixed REF buffer capacity ;;
  sl_http_response_append_head response (Some reason) connection_policy has_content_type
    (if is_stream response then stream_body_length else bytes_length body) ;;
  (if is_stream response && negb suppress_body && negb no_body_status
   then sl_http_response_append_stream_body (rp_stream_chunks response)
   else sl_byte_builder_append_bytes REF wire_body) ;;
  gets (fun s => sl_byte_builder_view REF (bs_builder s)).

(** On an error after the first test [*out_bytes] is empty. *)
Definition sl_http_response_write_with_options (response : option SlHttpResponse) (options : option SlHttpResponseWriteOptions)
    (buffer capacity : Z) (out_bytes : nullable) : ST World SlBytes :=
  match response with
  | None => fail SL_STATUS_INVALID_ARGUMENT
  | Some response =>
      return_if (buffer =? 0) || is_null out_bytes || (capacity =? 0) with SL_STATUS_INVALID_ARGUMENT ;;
      m ← gets w_mem ;
      checked ← lift (check_response m response options) ;
      let '(reason, stream_body_length, connection_policy, suppress_body) := checked in
      with_local_builder scratch
        (write_response response reason stream_body_length connection_policy suppress_body buffer capacity)
  end.

Definition sl_http_response_write (response : option SlHttpResponse) (buffer capacity : Z) (out_bytes : nullable)
    : ST World SlBytes :=
  sl_http_response_write_with_options response None buffer capacity out_bytes.
End Write.

(** 403 is among the supported statuses, though the comment in http_response.h does not
    list it. *)
Example forbidden_is_supported : sl_http_response_reason 403 = Some "Forbidden"%string.
Proof. reflexivity. Qed.
