(* ===== verification/HttpWire.v ===== *)
(** What the response writer of HttpResponse.v puts on the wire, and how a client
    reads it. *)

From stdpp Require Import strings.
From Stdlib Require Import Strings.Ascii.
From S2P Require Import Prelude Memory Status Arena Str Bytes Simd Container Sink Builder Diag HttpResponse.

Open Scope Z_scope.

(** * The bytes of a response *)

(** A header field by its bytes. *)
Definition field : Type := list Z * list Z.

Definition field_bytes (f : field) : list Z := fst f ++ string_bytes ": " ++ snd f ++ string_bytes CRLF.

Definition decimal (n : Z) : list Z := rev (digits_loop 32 n).

Definition policy_bytes (connection_policy : Z) : list Z :=
  string_bytes (if (connection_policy =? SL_HTTP_RESPONSE_CONNECTION_KEEP_ALIVE)%Z then "keep-alive"%string else "close"%string).

Definition status_text (status : Z) (reason : string) : list Z :=
  string_bytes "HTTP/1.1 " ++ decimal status ++ string_bytes " " ++ string_bytes reason.

(** The fields of a response: the managed ones around the caller's. *)
Definition response_fields (status connection_policy : Z) (content_type : list Z) (headers : list field) (body_length : Z)
    : list field :=
  (string_bytes "Connection", policy_bytes connection_policy) ::
  (if negb (bool_decide (content_type = [])) && negb (sl_http_response_status_has_no_body status)
   then [(string_bytes "Content-Type", content_type)] else []) ++
  headers ++
  (if sl_http_response_status_has_no_body status then [] else [(string_bytes "Content-Length", decimal body_length)]).

Definition response_bytes (line : list Z) (fields : list field) (body : list Z) : list Z :=
  line ++ string_bytes CRLF ++ mjoin (map field_bytes fields) ++ string_bytes CRLF ++ body.

(** Every literal the writer sends. *)
Definition reasons : list string :=
  ["OK"; "Created"; "Accepted"; "No Content"; "Not Modified"; "Bad Request"; "Unauthorized"; "Forbidden"; "Not Found";
   "Method Not Allowed"; "Request Timeout"; "Payload Too Large"; "Unsupported Media Type"; "Expectation Failed";
   "Internal Server Error"; "Service Unavailable"; "Not Implemented"]%string.

Definition response_literals : list string :=
  ["HTTP/1.1 "; " "; CRLF +:+ "Connection: "; "keep-alive"; "close"; CRLF; "Content-Type: "; ": "; "Content-Length: "]%string ++ reasons.

Lemma reason_listed status reason : sl_http_response_reason status = Some reason -> reason ∈ reasons.
Proof.
  unfold sl_http_response_reason. repeat (split_if; [intros [= <-]; unfold reasons; set_solver|]). done.
Qed.

Lemma digits_bytes n fuel : 0 <= n -> Forall is_byte (digits_loop fuel n).
Proof.
  revert n. induction fuel as [|fuel IH]; intros n Hn; cbn [digits_loop]; [constructor|].
  constructor; [unfold is_byte; pose proof (Z.mod_pos_bound n 10); lia|]. split_if; [apply IH; apply Z.div_pos; lia|constructor].
Qed.

Lemma decimal_bytes n : 0 <= n -> Forall is_byte (decimal n).
Proof. intros. by apply Forall_rev, digits_bytes. Qed.

(** * Emission *)

Section Emission.
Context `{SO : SinkOps K} {SR : SinkRoom K} {HL : SinkLaws K} {HR : SinkRoomLaws K} {RO : ReadOnlyData}.

(** The views the writer still reads, with their bytes. *)
Context (views : SlBytes -> list Z -> Prop).

Definition all_hold (s : K) : Prop :=
  sink_inv s /\ forall b vs, views b vs -> sink_readable s b /\ bytes_val (sink_mem s) b = vs.

Lemma all_hold_step vs s s' : sink_step vs s s' -> all_hold s -> all_hold s'.
Proof.
  intros Hs [Hi Hv]. split; [apply Hs|]. intros b ws Hb0. destruct (Hv b ws Hb0) as [Hr Hb].
  destruct (sink_step_readable _ _ _ _ Hs Hr) as [Hr' Hb']. split; [done|]. by rewrite Hb'.
Qed.

(** From any state in which the views are readable, [c] sends [vs]. *)
Definition emits (vs : list Z) (c : ST K unit) : Prop := forall s, all_hold s -> sink_sends vs c s.

Lemma emits_ret : emits [] (mret tt).
Proof. intros s [Hi _]. by apply sink_sends_ret. Qed.

Lemma emits_seq vs ws c (k : unit -> ST K unit) : emits vs c -> emits ws (k tt) -> emits (vs ++ ws) (c ≫= k).
Proof.
  intros Hc Hk s Hs. apply sink_sends_seq; [by apply Hc|]. intros s' Hst. apply Hk. by eapply all_hold_step.
Qed.

Lemma emits_view b vs : views b vs -> emits vs (sink_append_bytes b).
Proof.
  intros Hin s [Hi Hv]. destruct (Hv _ _ Hin) as [Hr Hb]. rewrite <- Hb. by apply sink_sends_bytes.
Qed.

Lemma emits_digits ds : Forall is_byte ds -> emits ds (append_digits ds).
Proof.
  induction 1 as [|d ds Hd _ IH]; [apply emits_ret|]. cbn [append_digits]. apply (emits_seq [d] ds); [|done].
  intros s [Hi _]. by apply sink_sends_byte.
Qed.

Context (Hlit : forall l, l ∈ response_literals -> views (sl_bytes_from_parts (rodata l) (string_size l)) (string_bytes l)).

Lemma emits_literal l : l ∈ response_literals -> emits (string_bytes l) (sl_http_response_append_cstr (Some l)).
Proof. intros Hl. by apply emits_view, Hlit. Qed.

Lemma emits_size n : 0 <= n -> emits (decimal n) (sl_http_response_append_size n).
Proof. intros. by apply emits_digits, decimal_bytes. Qed.

Ltac lit := apply emits_literal; unfold response_literals; set_solver.

Lemma emits_status_line status reason policy :
  0 <= status -> reason ∈ reasons ->
  emits (status_text status reason ++ string_bytes CRLF ++ field_bytes (string_bytes "Connection", policy_bytes policy))
    (sl_http_response_append_status_line status (Some reason) policy).
Proof.
  intros Hst Hr. unfold status_text, field_bytes, policy_bytes. cbn [fst snd]. rewrite <- !app_assoc.
  apply emits_seq; [lit|]. apply emits_seq; [by apply emits_size|]. apply emits_seq; [lit|].
  apply emits_seq; [apply emits_literal; unfold response_literals; set_solver|].
  rewrite (app_assoc (string_bytes "Connection")), (app_assoc (string_bytes CRLF)).
  change (string_bytes CRLF ++ string_bytes "Connection" ++ string_bytes ": ") with (string_bytes (CRLF +:+ "Connection: ")).
  apply emits_seq; [lit|]. apply emits_seq; [|lit]. destruct (policy =? _); lit.
Qed.

(** A caller's header is a field whose two views are readable. *)
Definition header_views (h : SlHttpHeader) (f : field) : Prop :=
  views (sl_bytes_from_parts (str_ptr (hh_name h)) (str_length (hh_name h))) (fst f) /\
  views (sl_bytes_from_parts (str_ptr (hh_value h)) (str_length (hh_value h))) (snd f).

Lemma emits_headers headers fields :
  Forall2 header_views headers fields ->
  emits (mjoin (map field_bytes fields)) (sl_http_response_append_custom_headers headers).
Proof.
  induction 1 as [|h f headers fields [Hn Hv] _ IH]; [apply emits_ret|].
  cbn [sl_http_response_append_custom_headers map mjoin list_join]. unfold field_bytes at 1. rewrite <- !app_assoc.
  apply emits_seq; [by apply emits_view|]. apply emits_seq; [lit|]. apply emits_seq; [by apply emits_view|].
  apply emits_seq; [lit|done].
Qed.

Lemma emits_content_type ct t :
  views (sl_bytes_from_parts (str_ptr ct) (str_length ct)) t ->
  emits (field_bytes (string_bytes "Content-Type", t)) (sl_http_response_append_content_type ct).
Proof.
  intros Ht. unfold field_bytes. cbn [fst snd]. rewrite app_assoc.
  change (string_bytes "Content-Type" ++ string_bytes ": ") with (string_bytes "Content-Type: ").
  apply emits_seq; [lit|]. apply emits_seq; [by apply emits_view|lit].
Qed.

Lemma emits_content_length n :
  0 <= n -> emits (field_bytes (string_bytes "Content-Length", decimal n)) (sl_http_response_append_content_length n).
Proof.
  intros Hn. unfold field_bytes. cbn [fst snd]. rewrite app_assoc.
  change (string_bytes "Content-Length" ++ string_bytes ": ") with (string_bytes "Content-Length: ").
  apply emits_seq; [lit|]. apply emits_seq; [by apply emits_size|lit].
Qed.

Lemma emits_chunks chunks bodies :
  Forall2 (fun c b => views c b /\ Z.of_nat (length b) = bytes_length c) chunks bodies ->
  emits (mjoin bodies) (sl_http_response_append_stream_body chunks).
Proof.
  induction 1 as [|c b chunks bodies [Hc Hl] _ IH]; [apply emits_ret|]. cbn [sl_http_response_append_stream_body mjoin list_join].
  apply emits_seq; [|done]. destruct (Z.eqb_spec (bytes_length c) 0) as [E|]; [|by apply emits_view].
  destruct b; [apply emits_ret|cbn [length] in Hl; lia].
Qed.

(** The head of a response. *)
Lemma emits_head response reason policy ct headers body_length :
  0 <= rp_status response -> 0 <= body_length -> reason ∈ reasons ->
  views (sl_bytes_from_parts (str_ptr (rp_content_type response)) (str_length (rp_content_type response))) ct ->
  str_length (rp_content_type response) = Z.of_nat (length ct) ->
  Forall2 header_views (rp_headers response) headers ->
  emits (status_text (rp_status response) reason ++ string_bytes CRLF ++
         mjoin (map field_bytes (response_fields (rp_status response) policy ct headers body_length)) ++ string_bytes CRLF)
    (sl_http_response_append_head response (Some reason) policy
       (negb (str_length (rp_content_type response) =? 0) && negb (sl_http_response_status_has_no_body (rp_status response))) body_length).
Proof.
  intros Hs Hb Hr Hct Hl Hh. unfold response_fields, sl_http_response_append_head. cbn [map mjoin list_join].
  replace (negb (str_length (rp_content_type response) =? 0)) with (negb (bool_decide (ct = []))).
  2:{ rewrite Hl. destruct ct as [|b ct]; [done|]. cbn [length]. by destruct (Z.eqb_spec (Z.of_nat (S (length ct))) 0); [lia|]. }
  rewrite map_app, map_app, !join_app, <- !app_assoc. rewrite (app_assoc (string_bytes CRLF)), (app_assoc (status_text _ _)).
  apply emits_seq; [by apply emits_status_line|]. apply emits_seq.
  { destruct (_ && _); [|apply emits_ret]. cbn [map mjoin list_join]. rewrite app_nil_r. by apply emits_content_type. }
  apply emits_seq; [by apply emits_headers|]. apply emits_seq; [|apply emits_literal; unfold response_literals; set_solver].
  destruct (sl_http_response_status_has_no_body _); cbn [negb]; [apply emits_ret|]. cbn [map mjoin list_join]. rewrite app_nil_r.
  by apply emits_content_length.
Qed.
End Emission.

(** * The checks, on bytes *)

Definition managed_names : list string :=
  ["Connection"; "Keep-Alive"; "Content-Type"; "Transfer-Encoding"; "Content-Length"]%string.

Definition lower (bs : list Z) : list Z := map ascii_lower bs.

Definition managed (name : list Z) : bool :=
  existsb (fun l => bool_decide (lower name = lower (string_bytes l))) managed_names.

(** A field a caller may add: a token that is not managed, and a value without
    control characters other than the tabulator. *)
Definition field_ok (f : field) : bool :=
  negb (bool_decide (fst f = [])) && forallb sl_http_response_header_name_char_valid (fst f) &&
  negb (managed (fst f)) && forallb header_value_byte (snd f).

Definition options_of (options : option SlHttpResponseWriteOptions) : Z * bool :=
  match options with
  | Some o => (wo_connection o, wo_suppress_body o)
  | None => (SL_HTTP_RESPONSE_CONNECTION_CLOSE, false)
  end.

(** The length of a stream body; a status without body takes only empty chunks. *)
Definition stream_length (no_body : bool) (chunks : list (list Z)) : result Z :=
  let total := Z.of_nat (length (mjoin chunks)) in
  if no_body then (if total =? 0 then Ok 0 else Err SL_STATUS_INVALID_ARGUMENT)
  else if total <=? SIZE_MAX then Ok total else Err SL_STATUS_OVERFLOW.

Lemma each_byte_spec ok m ptr n : each_byte ok m ptr n = forallb ok (load m ptr n).
Proof.
  revert ptr. induction n as [|n IH]; intros ptr; [done|]. cbn [each_byte load forallb]. rewrite IH.
  by destruct (ok (ld8 m ptr)).
Qed.

Section Checks.
Context {SC : SimdConfig} {RO : ReadOnlyData} (scratch buffer capacity : Z).

(** A view of the caller: outside the buffer and the local builder. *)
Definition caller_view (w : World) (b : SlBytes) (vs : list Z) : Prop :=
  bytes_valid b /\ bytes_wf b /\ bytes_val (w_mem w) b = vs /\
  disjoint_ranges (bytes_ptr b) (bytes_length b) buffer capacity /\
  disjoint_ranges (bytes_ptr b) (bytes_length b) scratch SL_BYTE_BUILDER_SMALL_CAPACITY.

Definition view_of (s : SlStr) : SlBytes := sl_bytes_from_parts (str_ptr s) (str_length s).

(** The descriptor and what its views hold. *)
Record described (w : World) (response : SlHttpResponse) (ct : list Z) (headers : list field) (body : list Z)
    (chunks : list (list Z)) : Prop := {
  ds_status : 0 <= rp_status response;
  ds_literals : forall l, l ∈ response_literals ++ managed_names -> caller_view w (view_of (literal l)) (string_bytes l);
  ds_content_type : caller_view w (view_of (rp_content_type response)) ct;
  ds_headers : Forall2 (header_views (caller_view w)) (rp_headers response) headers;
  ds_body : caller_view w (rp_body response) body;
  ds_chunks : Forall2 (caller_view w) (rp_stream_chunks response) chunks;
  ds_arrays : (rp_headers response <> [] -> rp_headers_ptr response = REF) /\
              (rp_stream_chunks response <> [] -> rp_stream_ptr response = REF);
  ds_buffer : 0 < buffer /\ 0 < capacity /\ buffer + capacity <= UINTPTR_MAX;
  ds_scratch : 0 <= scratch /\ scratch + SL_BYTE_BUILDER_SMALL_CAPACITY <= UINTPTR_MAX /\
               disjoint_ranges scratch SL_BYTE_BUILDER_SMALL_CAPACITY buffer capacity;
}.

Lemma caller_view_length w b vs : caller_view w b vs -> Z.of_nat (length vs) = bytes_length b.
Proof. intros (_ & Hw & <- & _). apply length_load_bytes. apply Hw. Qed.

Lemma caller_view_null w b vs :
  caller_view w b vs -> (bytes_ptr b =? 0) && negb (bytes_length b =? 0) = false.
Proof.
  intros ([Hl Hv] & _). destruct (Z.eqb_spec (bytes_ptr b) 0); [|done]. destruct (Z.eqb_spec (bytes_length b) 0); [done|lia].
Qed.

Lemma content_type_valid_spec w ct t :
  caller_view w (view_of ct) t -> sl_http_response_content_type_valid (w_mem w) ct = forallb content_type_byte t.
Proof.
  intros Hv. unfold sl_http_response_content_type_valid. pose proof (caller_view_null _ _ _ Hv) as Hn. cbn in Hn. rewrite Hn.
  rewrite each_byte_spec. f_equal. apply Hv.
Qed.

Lemma header_value_valid_spec w v t :
  caller_view w (view_of v) t -> sl_http_response_header_value_valid (w_mem w) v = forallb header_value_byte t.
Proof.
  intros Hv. unfold sl_http_response_header_value_valid. pose proof (caller_view_null _ _ _ Hv) as Hn. cbn in Hn. rewrite Hn.
  rewrite each_byte_spec. f_equal. apply Hv.
Qed.

Lemma header_name_valid_spec w v t :
  caller_view w (view_of v) t ->
  sl_http_response_header_name_valid (w_mem w) v =
  negb (bool_decide (t = [])) && forallb sl_http_response_header_name_char_valid t.
Proof.
  intros Hv. unfold sl_http_response_header_name_valid. pose proof (caller_view_length _ _ _ Hv) as Hl.
  destruct Hv as ([H0 Hp] & _ & Hval & _). cbn in H0, Hp, Hl. rewrite each_byte_spec.
  change (load (w_mem w) (str_ptr v) (Z.to_nat (str_length v))) with (bytes_val (w_mem w) (view_of v)). rewrite Hval.
  destruct t as [|b t].
  - replace (str_length v =? 0) with true by (cbn [length] in Hl; lia). by rewrite orb_true_r.
  - cbn [length] in Hl. replace ((str_ptr v =? 0) || (str_length v =? 0)) with false by lia. done.
Qed.

Lemma name_equal_spec w response ct headers body chunks v t l :
  described w response ct headers body chunks -> caller_view w (view_of v) t -> l ∈ managed_names ->
  sl_str_equal_ci_ascii (w_mem w) v (literal l) = bool_decide (lower t = lower (string_bytes l)).
Proof.
  intros Hd Hv Hl. destruct (ds_literals _ _ _ _ _ _ Hd l) as ([L0 Lv] & _ & Lval & _); [apply elem_of_app; by right|].
  destruct Hv as ([V0 Vv] & (_ & Vp & Ve) & Vval & _ & Vd). destruct (ds_scratch _ _ _ _ _ _ Hd) as (S0 & S1 & _).
  cbn in L0, Lv, V0, Vv, Vp, Ve, Vd. rewrite sl_str_equal_ci_ascii_scalar_eq.
  2:{ unfold simd_length. unfold disjoint_ranges, SL_BYTE_BUILDER_SMALL_CAPACITY in *. size_lia. }
  rewrite sl_str_equal_ci_scalar_spec; [|split; cbn; lia|split; cbn; lia].
  change (str_val (w_mem w) v) with (bytes_val (w_mem w) (view_of v)).
  change (str_val (w_mem w) (literal l)) with (bytes_val (w_mem w) (view_of (literal l))). by rewrite Vval, Lval.
Qed.

Lemma response_header_ok_spec w response ct headers body chunks h f :
  described w response ct headers body chunks -> header_views (caller_view w) h f -> response_header_ok (w_mem w) h = field_ok f.
Proof.
  intros Hd [Hn Hv]. unfold response_header_ok, field_ok, managed, sl_http_response_header_managed.
  rewrite (header_name_valid_spec w (hh_name h) (fst f) Hn), (header_value_valid_spec w (hh_value h) (snd f) Hv).
  rewrite !(name_equal_spec w response ct headers body chunks (hh_name h) (fst f)) by (done || (unfold managed_names; set_solver)).
  unfold managed_names. cbn [existsb].
  destruct (forallb sl_http_response_header_name_char_valid (fst f)), (forallb header_value_byte (snd f));
    by repeat case_bool_decide.
Qed.

Lemma headers_valid_spec w response ct headers body chunks :
  described w response ct headers body chunks ->
  sl_http_response_headers_valid (w_mem w) response = forallb field_ok headers.
Proof.
  intros Hd. unfold sl_http_response_headers_valid. destruct (ds_arrays _ _ _ _ _ _ Hd) as [Ha _].
  replace (negb (bool_decide (rp_headers response = [])) && is_null (rp_headers_ptr response)) with false.
  2:{ destruct (bool_decide_reflect (rp_headers response = [])) as [|N]; [done|]. rewrite (Ha N). done. }
  assert (Hall : forall hs fs, Forall2 (header_views (caller_view w)) hs fs -> forallb (response_header_ok (w_mem w)) hs = forallb field_ok fs).
  { induction 1 as [|h f hs fs Hhf _ IH]; [done|]. cbn [forallb].
    by rewrite IH, (response_header_ok_spec w response ct headers body chunks h f). }
  apply Hall, Hd.
Qed.

Lemma measure_spec w no_body cs bs : forall total,
  Forall2 (caller_view w) cs bs -> 0 <= total <= SIZE_MAX ->
  measure_loop no_body cs total =
  let n := Z.of_nat (length (mjoin bs)) in
  if no_body then (if n =? 0 then Ok total else Err SL_STATUS_INVALID_ARGUMENT)
  else if total + n <=? SIZE_MAX then Ok (total + n) else Err SL_STATUS_OVERFLOW.
Proof.
  intros total Hv. revert total. induction Hv as [|c b cs bs Hc _ IH]; intros total Ht; cbn [measure_loop]; cbv zeta.
  { change (Z.of_nat (length (mjoin []))) with 0. rewrite Z.eqb_refl, Z.add_0_r. destruct no_body; [done|].
    destruct (Z.leb_spec total SIZE_MAX); [done|lia]. }
  change (mjoin (b :: bs)) with (b ++ mjoin bs).
  pose proof (caller_view_length _ _ _ Hc) as Hl. pose proof (caller_view_null _ _ _ Hc) as Hn. rewrite andb_comm, Hn.
  assert (Hsz : is_size (bytes_length c)) by (destruct Hc as (_ & (? & ? & ?) & _); size_lia).
  rewrite length_app, Nat2Z.inj_add. rewrite checked_add_spec by (done || size_lia). unfold checked, mbind, result_bind.
  destruct (Z.eqb_spec (bytes_length c) 0) as [E|E]; cbn [negb andb].
  - destruct (Z.leb_spec (total + bytes_length c) SIZE_MAX); [|lia]. rewrite IH by lia. cbv zeta.
    replace (Z.of_nat (length b) + Z.of_nat (length (mjoin bs))) with (Z.of_nat (length (mjoin bs))) by lia.
    replace (total + bytes_length c) with total by lia. done.
  - destruct no_body; cbn [andb].
    + destruct (Z.eqb_spec (Z.of_nat (length b) + Z.of_nat (length (mjoin bs))) 0); [lia|done].
    + destruct (Z.leb_spec (total + bytes_length c) SIZE_MAX).
      * rewrite IH by size_lia. cbv zeta. by rewrite Hl, Z.add_assoc.
      * destruct (Z.leb_spec (total + (Z.of_nat (length b) + Z.of_nat (length (mjoin bs)))) SIZE_MAX); [lia|done].
Qed.

Definition policy_ok (options : option SlHttpResponseWriteOptions) : bool :=
  sl_http_response_connection_policy_valid (fst (options_of options)).

(** The outcome of the checks. *)
Definition checked_response (response : SlHttpResponse) (ct : list Z) (headers : list field) (chunks : list (list Z))
    (options : option SlHttpResponseWriteOptions) : result (string * Z) :=
  match sl_http_response_reason (rp_status response) with
  | None => Err SL_STATUS_UNSUPPORTED
  | Some reason =>
      if forallb content_type_byte ct && forallb field_ok headers && policy_ok options then
        n ← (if is_stream response
             then stream_length (sl_http_response_status_has_no_body (rp_status response)) chunks else Ok 0) ;
        Ok (reason, n)
      else Err SL_STATUS_INVALID_ARGUMENT
  end.

Lemma check_response_spec w response ct headers body chunks options :
  described w response ct headers body chunks ->
  check_response (w_mem w) response options =
  ('(reason, n) ← checked_response response ct headers chunks options ;
   Ok (reason, n, fst (options_of options), snd (options_of options))).
Proof.
  intros Hd. unfold check_response, checked_response. destruct (sl_http_response_reason (rp_status response)) as [reason|]; [|done].
  rewrite (content_type_valid_spec w _ ct) by apply Hd. rewrite (headers_valid_spec w response ct headers body chunks) by done.
  assert (Hp : match options with
    | Some o => negb (sl_http_response_connection_policy_valid (wo_connection o)) | None => false end = negb (policy_ok options))
    by (by destruct options).
  rewrite Hp. destruct (forallb content_type_byte ct); [|done]. destruct (forallb field_ok headers); [|done].
  destruct (policy_ok options); [|done]. cbn [negb andb].
  replace (if is_stream response then sl_http_response_stream_validate_and_measure response else Ok 0)
    with (if is_stream response
          then stream_length (sl_http_response_status_has_no_body (rp_status response)) chunks else Ok 0).
  { destruct options, (if is_stream response then _ else _); done. }
  destruct (is_stream response) eqn:Es; [|done]. unfold sl_http_response_stream_validate_and_measure.
  fold (is_stream response). rewrite Es. cbn [negb]. destruct (ds_arrays _ _ _ _ _ _ Hd) as [_ Ha].
  replace (is_null (rp_stream_ptr response) && negb (bool_decide (rp_stream_chunks response = []))) with false.
  2:{ destruct (bool_decide_reflect (rp_stream_chunks response = [])) as [|N]; [by rewrite andb_false_r|]. rewrite (Ha N). done. }
  rewrite (measure_spec w _ _ chunks) by (apply Hd || size_lia). unfold stream_length. cbv zeta. rewrite Z.add_0_l. done.
Qed.

(** The body a client is promised, and what is sent of it. *)
Definition full_body (response : SlHttpResponse) (body : list Z) (chunks : list (list Z)) : list Z :=
  if sl_http_response_status_has_no_body (rp_status response) then [] else
  if is_stream response then mjoin chunks else body.

Definition wire_bytes (response : SlHttpResponse) (reason : string) (options : option SlHttpResponseWriteOptions)
    (ct : list Z) (headers : list field) (body : list Z) (chunks : list (list Z)) : list Z :=
  let full := full_body response body chunks in
  response_bytes (status_text (rp_status response) reason)
    (response_fields (rp_status response) (fst (options_of options)) ct headers (Z.of_nat (length full)))
    (if snd (options_of options) then [] else full).
End Checks.

Section Whole.
Context {BC : BuildConfig} {SC : SimdConfig} {RO : ReadOnlyData} (scratch buffer capacity : Z).

Definition cview : World -> SlBytes -> list Z -> Prop := caller_view scratch buffer capacity.

Lemma no_bytes_view w : cview w sl_bytes_empty [].
Proof.
  split; [split; cbn; lia|]. split; [unfold bytes_wf; cbn; size_lia|]. split; [done|]. unfold disjoint_ranges. cbn. lia.
Qed.

(** The head and the body, as [write_response] appends them. *)
Definition append_all (response : SlHttpResponse) (reason : string) (n policy : Z) (suppress : bool) : ST BuilderSys unit :=
  let no_body := sl_http_response_status_has_no_body (rp_status response) in
  let body := if no_body then sl_bytes_empty else rp_body response in
  sl_http_response_append_head response (Some reason) policy
    (negb (str_length (rp_content_type response) =? 0) && negb no_body) (if is_stream response then n else bytes_length body) ;;
  (if is_stream response && negb suppress && negb no_body
   then sl_http_response_append_stream_body (rp_stream_chunks response)
   else sl_byte_builder_append_bytes REF (if suppress || is_stream response then sl_bytes_empty else body)).

Lemma append_all_emits w response ct headers body chunks options reason n :
  described scratch buffer capacity w response ct headers body chunks ->
  checked_response response ct headers chunks options = Ok (reason, n) ->
  emits (cview w) (wire_bytes response reason options ct headers body chunks)
    (append_all response reason n (fst (options_of options)) (snd (options_of options))).
Proof.
  intros Hd Hc. unfold checked_response in Hc.
  destruct (sl_http_response_reason (rp_status response)) as [r|] eqn:Er; [|done]. destruct (_ && _); [|done].
  apply reason_listed in Er.
  pose proof (caller_view_length _ _ _ _ _ _ (ds_content_type _ _ _ _ _ _ _ _ _ Hd)) as Hct. cbn in Hct.
  pose proof (caller_view_length _ _ _ _ _ _ (ds_body _ _ _ _ _ _ _ _ _ Hd)) as Hbl.
  assert (Hlits : forall l, l ∈ response_literals -> cview w (sl_bytes_from_parts (rodata l) (string_size l)) (string_bytes l)).
  { intros l Hl. apply (ds_literals _ _ _ _ _ _ _ _ _ Hd). apply elem_of_app. by left. }
  unfold wire_bytes, response_bytes, append_all, full_body.
  set (no_body := sl_http_response_status_has_no_body (rp_status response)) in *.
  assert (Hn : (if is_stream response then n else bytes_length (if no_body then sl_bytes_empty else rp_body response))
    = Z.of_nat (length (if no_body then [] else if is_stream response then mjoin chunks else body)) /\ r = reason).
  { unfold mbind, result_bind, stream_length in Hc. destruct (is_stream response), no_body; cbv zeta in Hc; repeat split_if; simplify_eq;
      split; try done; cbn [bytes_length sl_bytes_empty length]; lia. }
  destruct Hn as [-> ->]. rewrite !app_assoc. apply emits_seq.
  - rewrite <- !app_assoc. apply emits_head; [exact Hlits|apply Hd|lia|done|apply Hd|lia|apply Hd].
  - assert (Hempty : emits (cview w) [] (sl_byte_builder_append_bytes REF sl_bytes_empty)) 
      by exact (emits_view (K := BuilderSys) (cview w) sl_bytes_empty [] (no_bytes_view w)).
    destruct (snd (options_of options)); cbn [negb andb orb]; [by rewrite andb_false_r|]. rewrite andb_true_r.
    destruct no_body; cbn [negb]; [rewrite andb_false_r; by destruct (is_stream response)|]. rewrite andb_true_r.
    destruct (is_stream response);
      [|exact (emits_view (K := BuilderSys) (cview w) _ _ (ds_body _ _ _ _ _ _ _ _ _ Hd))].
    apply emits_chunks. eapply Forall2_impl; [apply Hd|]. intros c b Hcb. split; [exact Hcb|by eapply caller_view_length].
Qed.

(** ** The builder stays over the buffer *)

Section Stay.
Context (P : BuilderSys -> Prop).
Context (Hbytes : forall b, stable P (sl_byte_builder_append_bytes REF b)) (Hbyte : forall b, stable P (sl_byte_builder_append_byte REF b)).

Ltac stay := repeat first [ apply Hbytes | apply Hbyte | stable_step | solve [auto] ].

Lemma stable_digits ds : stable P (append_digits ds).
Proof. induction ds as [|d ds IH]; cbn [append_digits]; stay. Qed.

Lemma stable_literal l : stable P (sl_http_response_append_cstr l).
Proof. destruct l; cbn [sl_http_response_append_cstr]; stay. Qed.

Lemma stable_headers hs : stable P (sl_http_response_append_custom_headers hs).
Proof. induction hs as [|h hs IH]; cbn [sl_http_response_append_custom_headers]; stay; apply stable_literal. Qed.

Lemma stable_chunks cs : stable P (sl_http_response_append_stream_body cs).
Proof. induction cs as [|c cs IH]; cbn [sl_http_response_append_stream_body]; stay. Qed.

Lemma stable_append_all response reason n policy suppress : stable P (append_all response reason n policy suppress).
Proof.
  unfold append_all, sl_http_response_append_head, sl_http_response_append_status_line, sl_http_response_append_content_type,
    sl_http_response_append_content_length, sl_http_response_append_size.
  repeat first [ apply Hbytes | apply stable_literal | apply stable_digits | apply stable_headers | apply stable_chunks | stable_step ].
Qed.
End Stay.

(** ** The outcome of a call *)

Lemma write_outcome w response ct headers body chunks options reason n :
  described scratch buffer capacity w response ct headers body chunks ->
  checked_response response ct headers chunks options = Ok (reason, n) ->
  let out := wire_bytes response reason options ct headers body chunks in
  let '(r, w') := with_local_builder scratch
    (write_response response reason n (fst (options_of options)) (snd (options_of options)) buffer capacity) w in
  (forall q k, disjoint_ranges q k buffer capacity -> disjoint_ranges q k scratch SL_BYTE_BUILDER_SMALL_CAPACITY ->
     load_bytes (w_mem w') q k = load_bytes (w_mem w) q k) /\
  if Z.of_nat (length out) <=? capacity
  then r = Ok (sl_bytes_from_parts buffer (Z.of_nat (length out))) /\ load_bytes (w_mem w') buffer (Z.of_nat (length out)) = out
  else r = Err SL_STATUS_CAPACITY_EXCEEDED.
Proof.
  intros Hd Hc. cbv zeta. destruct (ds_buffer _ _ _ _ _ _ _ _ _ Hd) as (Hb0 & Hc0 & He).
  destruct (fixed_over_spec scratch buffer capacity w) as (Hinit & Hwf & (Gs & Gd & Gc & Gm & Gl & _) & Hfor & Hkeep); [lia..|].
  set (s0 := fixed_over scratch buffer capacity w) in *.
  assert (Hhold : all_hold (cview w) s0).
  { split; [exact Hwf|]. intros b vs (V1 & V2 & V3 & V4 & V5). split; [split; [done|done|by apply Hfor]|].
    rewrite <- V3. by apply Hkeep. }
  destruct (append_all_emits w response ct headers body chunks options reason n Hd Hc s0 Hhold) as [Hemit [Hfit Herr]].
  set (out := wire_bytes response reason options ct headers body chunks) in *.
  assert (Hpos : (0 < length out)%nat).
  { unfold out, wire_bytes, response_bytes, status_text. rewrite !length_app. change (length (string_bytes "HTTP/1.1 ")) with 9%nat. lia. }
  clearbody out. pose proof (stable_append_all (geometry SL_BUILDER_STORAGE_FIXED capacity (bb_small (bs_builder s0)) buffer capacity)
    (stable_append_bytes _ _ _ _ _) (stable_append_byte _ _ _ _ _) response reason n (fst (options_of options)) (snd (options_of options)) s0)
    as Hgeo. destruct Hgeo as (_ & _ & _ & Hgeo); [by unfold geometry; rewrite Gs, Gm|]. destruct Hgeo as [Ed Ec]; [done|].
  unfold with_local_builder, write_response. unfold sink_emits in Hemit. revert Hemit Hfit Herr Ed Ec.
  unfold append_all. cbv zeta. unfold_st. rewrite Hinit.
  destruct (sl_http_response_append_head _ _ _ _ _ s0) as [[[]|e] s1]; cbn [snd].
  2:{ intros (ws & _ & [W1 W2 W3]) Hfit Herr Ed Ec. split.
      - intros q k D1 D2. cbn. rewrite <- (Hkeep q k D2). by apply W3, Hfor.
      - destruct (Z.leb_spec (Z.of_nat (length out)) capacity) as [Hle|Hgt].
        + destruct Hfit as (s' & ? & _); [cbn [sink_room builder_sink_room]; rewrite Gc, Gl; lia|done].
        + f_equal. apply Herr. by left. }
  match goal with |- context [match ?c s1 with _ => _ end] => destruct (c s1) as [[[]|e] s2] end; cbn [snd bs_world].
  2:{ intros (ws & _ & [W1 W2 W3]) Hfit Herr Ed Ec. split.
      - intros q k D1 D2. cbn. rewrite <- (Hkeep q k D2). by apply W3, Hfor.
      - destruct (Z.leb_spec (Z.of_nat (length out)) capacity) as [Hle|Hgt].
        + destruct Hfit as (s' & ? & _); [cbn [sink_room builder_sink_room]; rewrite Gc, Gl; lia|done].
        + f_equal. apply Herr. by left. }
  intros [W1 W2 W3] _ _ Ed Ec. cbn [sink_contents sink_inv builder_sink_ops] in W1, W2. split.
  { intros q k D1 D2. rewrite <- (Hkeep q k D2). by apply W3, Hfor. }
  assert (Hnil : contents s0 = []) by (unfold contents; by rewrite Gl). rewrite Hnil in W2. cbn [app] in W2.
  assert (Hlen : Z.of_nat (length out) = bb_length (bs_builder s2)).
  { rewrite <- W2. unfold contents. apply length_load_bytes. pose proof (bw_bounds _ W1). lia. }
  pose proof (bw_bounds _ W1) as Hbd. destruct (Z.leb_spec (Z.of_nat (length out)) capacity); [|lia].
  unfold contents in W2. rewrite Ed, <- Hlen in W2. split; [|exact W2].
  unfold sl_byte_builder_view. cbn [is_null orb]. rewrite <- Hlen, Ed.
  destruct (Z.eqb_spec (Z.of_nat (length out)) 0); [lia|]. destruct (Z.eqb_spec buffer 0); [lia|done].
Qed.

Lemma write_spec w response ct headers body chunks options :
  described scratch buffer capacity w response ct headers body chunks ->
  let '(r, w') := sl_http_response_write_with_options scratch (Some response) options buffer capacity REF w in
  (forall q k, disjoint_ranges q k buffer capacity -> disjoint_ranges q k scratch SL_BYTE_BUILDER_SMALL_CAPACITY ->
     load_bytes (w_mem w') q k = load_bytes (w_mem w) q k) /\
  match checked_response response ct headers chunks options with
  | Err c => r = Err c
  | Ok (reason, _) =>
      let out := wire_bytes response reason options ct headers body chunks in
      if Z.of_nat (length out) <=? capacity
      then r = Ok (sl_bytes_from_parts buffer (Z.of_nat (length out))) /\ load_bytes (w_mem w') buffer (Z.of_nat (length out)) = out
      else r = Err SL_STATUS_CAPACITY_EXCEEDED
  end.
Proof.
  intros Hd. destruct (ds_buffer _ _ _ _ _ _ _ _ _ Hd) as (Hb0 & Hc0 & _). unfold sl_http_response_write_with_options. unfold_st.
  destruct (Z.eqb_spec buffer 0); [lia|]. destruct (Z.eqb_spec capacity 0); [lia|]. cbn [is_null orb].
  rewrite (check_response_spec scratch buffer capacity w response ct headers body chunks options Hd). unfold mbind, result_bind.
  destruct (checked_response response ct headers chunks options) as [[reason len]|c] eqn:Ec; [|done]. by apply write_outcome.
Qed.
End Whole.
