(* ===== verification/HttpRead.v ===== *)
(** Reading a response back: what a client sees of what HttpResponse.v wrote. *)

From stdpp Require Import strings.
From Stdlib Require Import Strings.Ascii.
From S2P Require Import Prelude Memory Status Arena Str Bytes Simd Container Sink Builder Diag HttpResponse HttpWire.

Open Scope Z_scope.

(** * A client (RFC 9112): lines end in CR LF, a field is a name, a colon and a value
      whose surrounding white space does not count, an empty line ends the head *)

Fixpoint read_line (bs : list Z) : option (list Z * list Z) :=
  match bs with
  | [] => None
  | b :: rest =>
      if b =? 13 then
        match rest with c :: rest => if c =? 10 then Some ([], rest) else None | [] => None end
      else if b =? 10 then None
      else '(line, rest) ← read_line rest; Some (b :: line, rest)
  end.

Fixpoint read_name (line : list Z) : option (list Z * list Z) :=
  match line with
  | [] => None
  | b :: rest => if b =? 58 then Some ([], rest) else '(name, rest) ← read_name rest; Some (b :: name, rest)
  end.

Fixpoint skip_space (bs : list Z) : list Z :=
  match bs with
  | b :: rest => if (b =? 32) || (b =? 9) then skip_space rest else bs
  | [] => []
  end.

Definition trim (bs : list Z) : list Z := rev (skip_space (rev (skip_space bs))).

Definition read_field (line : list Z) : option field :=
  '(name, value) ← read_name line; Some (name, trim value).

Fixpoint read_fields (fuel : nat) (bs : list Z) : option (list field * list Z) :=
  match fuel with
  | O => None
  | S fuel =>
      '(line, rest) ← read_line bs;
      if bool_decide (line = []) then Some ([], rest) else
      f ← read_field line; '(fields, body) ← read_fields fuel rest; Some (f :: fields, body)
  end.

(** The first line, the fields and what follows the head. *)
Definition read_response (bs : list Z) : option (list Z * list field * list Z) :=
  '(line, rest) ← read_line bs; '(fields, body) ← read_fields (S (length rest)) rest; Some (line, fields, body).

(** The fields of a name, whatever its case. *)
Definition named (l : string) (fields : list field) : list field :=
  filter (fun f => lower (fst f) = lower (string_bytes l)) fields.

Definition trimmed (f : field) : field := (fst f, trim (snd f)).

(** * Reading inverts writing *)

Definition in_line (b : Z) : Prop := b <> 13 /\ b <> 10.

Definition clean_field (f : field) : Prop := Forall (fun b => in_line b /\ b <> 58) (fst f) /\ Forall in_line (snd f).

Lemma read_line_clean line rest : Forall in_line line -> read_line (line ++ string_bytes CRLF ++ rest) = Some (line, rest).
Proof.
  induction 1 as [|b line [H1 H2] _ IH]; [done|]. cbn [app read_line]. destruct (Z.eqb_spec b 13); [done|].
  destruct (Z.eqb_spec b 10); [done|]. by rewrite IH.
Qed.

Lemma read_name_clean name value :
  Forall (fun b => in_line b /\ b <> 58) name -> read_name (name ++ 58 :: value) = Some (name, value).
Proof.
  induction 1 as [|b name [_ Hb] _ IH]; [done|]. cbn [app read_name]. destruct (Z.eqb_spec b 58); [done|]. by rewrite IH.
Qed.

Lemma read_fields_clean fields : forall fuel body,
  Forall clean_field fields -> (length fields < fuel)%nat ->
  read_fields fuel (mjoin (map field_bytes fields) ++ string_bytes CRLF ++ body) = Some (map trimmed fields, body).
Proof.
  induction fields as [|f fields IH]; intros fuel body Hf Hl; (destruct fuel as [|fuel]; [lia|]); cbn [read_fields].
  - change (mjoin (map field_bytes []) ++ ?x) with ([] ++ x). by rewrite read_line_clean.
  - apply Forall_cons in Hf as [[Hn Hv] Hf]. change (mjoin (map field_bytes (f :: fields))) with (field_bytes f ++ mjoin (map field_bytes fields)).
    unfold field_bytes at 1. replace ((fst f ++ string_bytes ": " ++ snd f ++ string_bytes CRLF) ++ mjoin (map field_bytes fields))
      with ((fst f ++ 58 :: 32 :: snd f) ++ string_bytes CRLF ++ mjoin (map field_bytes fields))
      by (change (string_bytes ": ") with [58; 32]; by rewrite <- !app_assoc).
    rewrite <- !app_assoc. rewrite app_assoc. rewrite read_line_clean.
    2:{ apply Forall_app. split; [eapply Forall_impl; [exact Hn|]; by intros b [? _]|].
        constructor; [split; lia|]. constructor; [split; lia|done]. }
    cbn [mbind option_bind]. rewrite bool_decide_eq_false_2 by (by destruct (fst f)).
    unfold read_field. rewrite read_name_clean by done. cbn [mbind option_bind].
    rewrite IH by (done || (cbn [length] in Hl; lia)). done.
Qed.

Lemma read_response_clean line fields body :
  Forall in_line line -> Forall clean_field fields ->
  read_response (response_bytes line fields body) = Some (line, map trimmed fields, body).
Proof.
  intros Hl Hf. unfold read_response, response_bytes. rewrite read_line_clean by done. cbn [mbind option_bind].
  rewrite read_fields_clean; [done|done|]. rewrite length_app.
  assert (length fields <= length (mjoin (map field_bytes fields)))%nat; [|lia].
  clear. induction fields as [|f fields IH]; [cbn; lia|].
  change (mjoin (map field_bytes (f :: fields))) with (field_bytes f ++ mjoin (map field_bytes fields)).
  unfold field_bytes at 1. rewrite !length_app. change (length (string_bytes ": ")) with 2%nat. cbn [length]. lia.
Qed.

(** ** Everything the writer accepts is clean *)

Lemma name_char_clean b : sl_http_response_header_name_char_valid b = true -> in_line b /\ b <> 58.
Proof. unfold sl_http_response_header_name_char_valid, in_line. lia. Qed.

Lemma forallb_Forall {A} (p : A -> bool) (P : A -> Prop) xs : (forall x, p x = true -> P x) -> forallb p xs = true -> Forall P xs.
Proof. intros H. rewrite forallb_forall, Forall_forall. intros Hx x Hin. apply H, Hx. by apply list_elem_of_In. Qed.

Lemma value_clean vs : forallb header_value_byte vs = true -> Forall in_line vs.
Proof. apply forallb_Forall. unfold header_value_byte, in_line. intros b. lia. Qed.

Lemma content_type_clean vs : forallb content_type_byte vs = true -> Forall in_line vs.
Proof. apply forallb_Forall. unfold content_type_byte, in_line. intros b. lia. Qed.

Lemma field_ok_clean f : field_ok f = true -> clean_field f.
Proof.
  unfold field_ok. intros [[[_ Hn]%andb_prop _]%andb_prop Hv]%andb_prop.
  split; [by eapply forallb_Forall; [apply name_char_clean|]|by apply value_clean].
Qed.

Lemma digits_are_digits n fuel : 0 <= n -> Forall is_digit (digits_loop fuel n).
Proof.
  revert n. induction fuel as [|fuel IH]; intros n Hn; cbn [digits_loop]; [constructor|].
  constructor; [unfold is_digit; pose proof (Z.mod_pos_bound n 10); lia|]. split_if; [apply IH; apply Z.div_pos; lia|constructor].
Qed.

Lemma decimal_digits n : 0 <= n -> Forall is_digit (decimal n).
Proof. intros. by apply Forall_rev, digits_are_digits. Qed.

Lemma decimal_clean n : 0 <= n -> Forall in_line (decimal n).
Proof. intros Hn. eapply Forall_impl; [by apply decimal_digits|]. unfold is_digit, in_line. intros b. lia. Qed.

Lemma literal_clean l :
  forallb (fun b => negb (b =? 13) && negb (b =? 10)) (string_bytes l) = true -> Forall in_line (string_bytes l).
Proof. apply forallb_Forall. unfold in_line. intros b. lia. Qed.

Lemma status_text_clean status reason : 0 <= status -> reason ∈ reasons -> Forall in_line (status_text status reason).
Proof.
  intros Hs Hr. unfold status_text. rewrite !Forall_app. split; [by apply literal_clean|].
  split; [by apply decimal_clean|]. split; [by apply literal_clean|]. apply literal_clean.
  unfold reasons in Hr. repeat (apply elem_of_cons in Hr as [->|Hr]; [done|]). by apply elem_of_nil in Hr.
Qed.

Lemma managed_field_clean l v :
  forallb sl_http_response_header_name_char_valid (string_bytes l) = true -> Forall in_line v -> clean_field (string_bytes l, v).
Proof. intros Hn Hv. split; [|exact Hv]. eapply forallb_Forall; [apply name_char_clean|exact Hn]. Qed.

Lemma response_fields_clean status policy ct headers n :
  0 <= n -> forallb content_type_byte ct = true -> forallb field_ok headers = true ->
  Forall clean_field (response_fields status policy ct headers n).
Proof.
  intros Hn Hct Hh. unfold response_fields. constructor; [|rewrite !Forall_app; split; [|split]].
  - apply managed_field_clean; [done|]. unfold policy_bytes. destruct (policy =? _); by apply literal_clean.
  - destruct (_ && _); [|constructor]. constructor; [|constructor]. apply managed_field_clean; [done|by apply content_type_clean].
  - eapply forallb_Forall; [apply field_ok_clean|done].
  - destruct (sl_http_response_status_has_no_body status); [constructor|]. constructor; [|constructor].
    apply managed_field_clean; [done|by apply decimal_clean].
Qed.

(** ** The managed fields are the writer's own *)

Lemma lower_named l (f : field) : managed (fst f) = false -> l ∈ managed_names -> lower (fst f) <> lower (string_bytes l).
Proof.
  intros Hm Hl E. unfold managed in Hm. apply not_true_iff_false in Hm. apply Hm. apply existsb_exists. exists l.
  split; [by apply list_elem_of_In|by apply bool_decide_eq_true].
Qed.

Lemma named_headers l headers : forallb field_ok headers = true -> l ∈ managed_names -> named l headers = [].
Proof.
  intros Hh Hl. unfold named. induction headers as [|f headers IH]; [done|]. cbn [forallb] in Hh.
  apply andb_prop in Hh as [Hf Hh]. rewrite filter_cons_False; [by apply IH|]. apply lower_named; [|done].
  unfold field_ok in Hf. by destruct (managed (fst f)); [rewrite andb_false_r in Hf|].
Qed.

Lemma named_app l fs gs : named l (fs ++ gs) = named l fs ++ named l gs.
Proof. apply filter_app. Qed.

Definition same_name (k l : string) : bool := bool_decide (lower (string_bytes k) = lower (string_bytes l)).

Lemma named_single l k v : named l [(string_bytes k, v)] = if same_name k l then [(string_bytes k, v)] else [].
Proof.
  unfold named, same_name. destruct (bool_decide_reflect (lower (string_bytes k) = lower (string_bytes l))).
  - by rewrite filter_cons_True.
  - by rewrite filter_cons_False.
Qed.

Lemma named_response status policy ct headers n :
  forallb field_ok headers = true ->
  let fields := response_fields status policy ct headers n in
  named "Connection" fields = [(string_bytes "Connection", policy_bytes policy)] /\
  named "Transfer-Encoding" fields = [] /\
  named "Content-Length" fields =
    (if sl_http_response_status_has_no_body status then [] else [(string_bytes "Content-Length", decimal n)]).
Proof.
  intros Hh. cbv zeta.
  set (cts := if negb (bool_decide (ct = [])) && negb (sl_http_response_status_has_no_body status)
              then [(string_bytes "Content-Type", ct)] else [] : list field).
  set (cls := if sl_http_response_status_has_no_body status then [] else [(string_bytes "Content-Length", decimal n)] : list field).
  assert (Hall : forall l, l ∈ managed_names -> named l (response_fields status policy ct headers n) =
    named l [(string_bytes "Connection", policy_bytes policy)] ++ named l cts ++ named l cls).
  { intros l Hl. change (response_fields status policy ct headers n)
      with ([(string_bytes "Connection", policy_bytes policy)] ++ cts ++ headers ++ cls).
    by rewrite !named_app, (named_headers l headers Hh Hl). }
  rewrite !Hall by (unfold managed_names; repeat (apply list_elem_of_here || apply list_elem_of_further)).
  subst cts cls. destruct (_ && _), (sl_http_response_status_has_no_body status); rewrite !named_single;
    repeat match goal with |- context [same_name ?k ?l] =>
      let b := eval vm_compute in (same_name k l) in change (same_name k l) with b end; done.
Qed.

Lemma decimal_value n : 0 <= n <= SIZE_MAX -> parse_decimal (decimal n) = n.
Proof.
  intros Hn. unfold decimal. rewrite parse_decimal_rev. apply (digits_loop_spec 32 n); [|lia].
  change (Z.of_nat 32) with 32. size_lia.
Qed.

Section Claims.
Context {BC : BuildConfig} {SC : SimdConfig} {RO : ReadOnlyData} (scratch buffer capacity : Z).

Lemma checked_facts w response ct headers body chunks options reason n :
  described scratch buffer capacity w response ct headers body chunks ->
  checked_response response ct headers chunks options = Ok (reason, n) ->
  sl_http_response_reason (rp_status response) = Some reason /\ forallb content_type_byte ct = true /\
  forallb field_ok headers = true /\ Z.of_nat (length (full_body response body chunks)) <= SIZE_MAX.
Proof.
  intros Hd. unfold checked_response. destruct (sl_http_response_reason (rp_status response)) as [r|]; [|done].
  destruct (forallb content_type_byte ct); [|done]. destruct (forallb field_ok headers); [|done]. cbn [andb].
  destruct (policy_ok options); [|done]. unfold mbind, result_bind, full_body, stream_length. cbv zeta.
  pose proof (caller_view_length _ _ _ _ _ _ (ds_body _ _ _ _ _ _ _ _ _ Hd)) as Hb.
  destruct (ds_body _ _ _ _ _ _ _ _ _ Hd) as (_ & (B1 & B2 & B3) & _).
  destruct (is_stream response), (sl_http_response_status_has_no_body (rp_status response)); repeat split_if; intros H; simplify_eq;
    (split; [done|]); (split; [done|]); (split; [done|]); cbn [length]; size_lia.
Qed.

(** The response writer answers exactly by the descriptor and the room: an
    unknown status is UNSUPPORTED; a Content-Type with control characters, a header
    that is not a token, is managed by the runtime (in any case), or has a value with
    control characters other than the tabulator, an unknown connection policy, or
    stream bytes on a status without body are INVALID_ARGUMENT; a stream longer than
    a size is OVERFLOW; otherwise the response is written at the start of the buffer
    if it fits, as the status line, the fields in order and the body, and is
    CAPACITY_EXCEEDED if it does not.  Nothing outside the buffer and the local
    builder changes. *)
Theorem http_response_outcome w response ct headers body chunks options :
  described scratch buffer capacity w response ct headers body chunks ->
  let '(r, w') := sl_http_response_write_with_options scratch (Some response) options buffer capacity REF w in
  (forall q k, disjoint_ranges q k buffer capacity -> disjoint_ranges q k scratch SL_BYTE_BUILDER_SMALL_CAPACITY ->
     load_bytes (w_mem w') q k = load_bytes (w_mem w) q k) /\
  match checked_response response ct headers chunks options with
  | Err c => r = Err c
  | Ok (reason, _) =>
      let out := wire_bytes response reason options ct headers body chunks in
      if Z.of_nat (length out) <=? capacity
      then r = Ok (sl_bytes_from_parts buffer (Z.of_nat (length out))) /\ load_bytes (w_mem w') buffer (Z.of_nat (length out)) = out
      else r = Err SL_STATUS_CAPACITY_EXCEEDED
  end.
Proof. apply write_spec. Qed.

(** C20: No response can be split or smuggled: whatever bytes the caller puts in
    headers, Content-Type and body, a client that reads what was written finds the
    status line of the given status, exactly the runtime's and the caller's fields in
    order, and exactly the promised body after the head.  There is one Connection
    field, no Transfer-Encoding, and one Content-Length, whose value is the length of
    the body (none, and no body, for 204 and 304); a response written without its body
    keeps that value. *)
Theorem http_response_reads_back w response ct headers body chunks options out w' :
  described scratch buffer capacity w response ct headers body chunks ->
  sl_http_response_write_with_options scratch (Some response) options buffer capacity REF w = (Ok out, w') ->
  let full := full_body response body chunks in
  let no_body := sl_http_response_status_has_no_body (rp_status response) in
  exists reason fields,
    sl_http_response_reason (rp_status response) = Some reason /\
    read_response (bytes_val (w_mem w') out) =
      Some (status_text (rp_status response) reason, map trimmed fields, if snd (options_of options) then [] else full) /\
    fields = response_fields (rp_status response) (fst (options_of options)) ct headers (Z.of_nat (length full)) /\
    named "Connection" fields = [(string_bytes "Connection", policy_bytes (fst (options_of options)))] /\
    named "Transfer-Encoding" fields = [] /\
    named "Content-Length" fields = (if no_body then [] else [(string_bytes "Content-Length", decimal (Z.of_nat (length full)))]) /\
    parse_decimal (decimal (Z.of_nat (length full))) = Z.of_nat (length full) /\
    (no_body = true -> full = []).
Proof.
  intros Hd E. cbv zeta. pose proof (write_spec scratch buffer capacity w response ct headers body chunks options Hd) as H.
  rewrite E in H. destruct H as [_ H].
  destruct (checked_response response ct headers chunks options) as [[reason n]|c] eqn:Ec; [|done].
  destruct (checked_facts w response ct headers body chunks options reason n Hd Ec) as (Hr & Hct & Hh & Hsz).
  set (full := full_body response body chunks) in *.
  exists reason, (response_fields (rp_status response) (fst (options_of options)) ct headers (Z.of_nat (length full))).
  destruct (named_response (rp_status response) (fst (options_of options)) ct headers (Z.of_nat (length full)) Hh) as (N1 & N2 & N3).
  split; [done|]. split; [|split; [done|split; [done|split; [done|split; [done|]]]]].
  - cbv zeta in H. destruct (Z.leb_spec (Z.of_nat (length (wire_bytes response reason options ct headers body chunks))) capacity); [|done].
    destruct H as [Hout H]. assert (Hinj : forall a b : SlBytes, Ok a = Ok b -> a = b) by congruence. apply Hinj in Hout as ->.
    change (bytes_val (w_mem w') (sl_bytes_from_parts buffer ?n)) with (load_bytes (w_mem w') buffer n). rewrite H.
    apply read_response_clean; [apply status_text_clean; [apply Hd|by eapply reason_listed]|].
    apply response_fields_clean; [lia|done|done].
  - split; [apply decimal_value; lia|]. intros Hn. unfold full, full_body. by rewrite Hn.
Qed.
End Claims.

Module Demo.
#[local] Existing Instance assert_build.
Definition scalar : SimdConfig := {| SL_STRING_SIMD := SCALAR; SL_BYTES_SIMD := SCALAR |}.
#[local] Existing Instance scalar.

(** Literals in slots of 64 bytes from 10000 on. *)
Definition texts : list string := response_literals ++ managed_names.

Definition slot (l : string) : Z := 10000 + 64 * Z.of_nat (default 0%nat (fst <$> list_find (eq l) texts)).

Definition demo_rodata : ReadOnlyData := {| rodata := slot |}.
#[local] Existing Instance demo_rodata.

(** A content type at 500, a header at 520 and 540, a body at 560. *)
Definition m0 : mem :=
  store (store (store (store (fold_right (fun l m => store m (slot l) (string_bytes l)) (fun _ => 0) texts)
    500 (string_bytes "text/plain")) 520 (string_bytes "X-Id")) 540 (string_bytes "a b")) 560 (string_bytes "hi").

Definition w0 : World :=
  {| w_mem := m0; w_arena := {| ar_base := 8192; ar_capacity := 64; ar_offset := 0; ar_high_water := 0; ar_generation := 1 |} |}.

Definition reply : SlHttpResponse :=
  {| rp_status := 200; rp_kind := SL_HTTP_RESPONSE_TEXT; rp_content_type := sl_str_from_parts 500 10; rp_headers_ptr := REF;
     rp_headers := [{| hh_name := sl_str_from_parts 520 4; hh_value := sl_str_from_parts 540 3 |}];
     rp_body := sl_bytes_from_parts 560 2; rp_stream_ptr := NULL; rp_stream_chunks := [] |}.

(** The conditions on a view, as a test. *)
Definition view_test (b : SlBytes) (vs : list Z) : bool :=
  (0 <=? bytes_length b) && (0 <? bytes_ptr b) && (bytes_ptr b + bytes_length b <=? UINTPTR_MAX) &&
  bool_decide (bytes_val m0 b = vs) &&
  ((bytes_ptr b + bytes_length b <=? 2000) || (2000 + 256 <=? bytes_ptr b)) &&
  ((bytes_ptr b + bytes_length b <=? 3000) || (3000 + 64 <=? bytes_ptr b)).

Lemma view_test_ok b vs : view_test b vs = true -> caller_view 3000 2000 256 w0 b vs.
Proof.
  unfold view_test. rewrite !andb_true_iff, !orb_true_iff. intros (((((H1 & H2) & H3) & H4) & H5) & H6).
  apply bool_decide_eq_true in H4. split; [split; lia|]. split; [unfold bytes_wf; lia|]. split; [exact H4|].
  unfold disjoint_ranges, SL_BYTE_BUILDER_SMALL_CAPACITY. lia.
Qed.

Lemma reply_described :
  described 3000 2000 256 w0 reply (string_bytes "text/plain") [(string_bytes "X-Id", string_bytes "a b")] (string_bytes "hi") [].
Proof.
  split.
  - cbn. lia.
  - intros l Hl. apply view_test_ok. change (l ∈ texts) in Hl. revert l Hl. apply Forall_forall.
    apply (forallb_Forall (fun l => view_test (view_of (literal l)) (string_bytes l)) _ texts); [done|]. vm_compute. reflexivity.
  - apply view_test_ok. vm_compute. reflexivity.
  - constructor; [|constructor]. split; apply view_test_ok; vm_compute; reflexivity.
  - apply view_test_ok. vm_compute. reflexivity.
  - constructor.
  - done.
  - size_lia.
  - unfold SL_BYTE_BUILDER_SMALL_CAPACITY, disjoint_ranges. size_lia.
Qed.

Lemma http_response_outcome_witness :
  fst (sl_http_response_write_with_options 3000 (Some reply) None 2000 256 REF w0)
  = Ok (sl_bytes_from_parts 2000 (Z.of_nat (length (wire_bytes reply "OK" None (string_bytes "text/plain")
      [(string_bytes "X-Id", string_bytes "a b")] (string_bytes "hi") [])))).
Proof.
  pose proof (http_response_outcome 3000 2000 256 w0 reply (string_bytes "text/plain")
    [(string_bytes "X-Id", string_bytes "a b")] (string_bytes "hi") [] None reply_described) as H.
  destruct (sl_http_response_write_with_options 3000 (Some reply) None 2000 256 REF w0) as [r w'].
  destruct H as [_ H].
  assert (Hc : checked_response reply (string_bytes "text/plain") [(string_bytes "X-Id", string_bytes "a b")] [] None = Ok ("OK"%string, 0))
    by (vm_compute; reflexivity).
  rewrite Hc in H. cbv zeta in H.
  assert (Hl : (Z.of_nat (length (wire_bytes reply "OK" None (string_bytes "text/plain")
      [(string_bytes "X-Id", string_bytes "a b")] (string_bytes "hi") [])) <=? 256) = true) by (vm_compute; reflexivity).
  rewrite Hl in H. exact (proj1 H).
Defined.

Lemma http_response_reads_back_witness :
  exists out w' fields, sl_http_response_write_with_options 3000 (Some reply) None 2000 256 REF w0 = (Ok out, w') /\
    read_response (bytes_val (w_mem w') out) = Some (status_text 200 "OK", map trimmed fields, string_bytes "hi") /\
    named "Content-Length" fields = [(string_bytes "Content-Length", decimal 2)].
Proof.
  assert (Hok : is_ok (fst (sl_http_response_write_with_options 3000 (Some reply) None 2000 256 REF w0)) = true)
    by (vm_compute; reflexivity).
  destruct (sl_http_response_write_with_options 3000 (Some reply) None 2000 256 REF w0) as [[out|c] w'] eqn:E; [|discriminate Hok].
  destruct (http_response_reads_back 3000 2000 256 w0 reply (string_bytes "text/plain")
    [(string_bytes "X-Id", string_bytes "a b")] (string_bytes "hi") [] None out w' reply_described E)
    as (reason & fields & Hr & Hread & _ & _ & _ & Hcl & _).
  exists out, w', fields. split; [reflexivity|]. split; [|exact Hcl].
  assert (reason = "OK"%string) as -> by (vm_compute in Hr; congruence). exact Hread.
Defined.
End Demo.
