(* ===== verification/HttpBackend.v ===== *)
(** The HTTP backend (src/core/http_backend.c): admission of connections and requests,
    the request lifecycle, shutdown.

    Backends, connections and requests are objects that point to each other: many
    requests share a connection, many connections a backend, and an operation on a
    request writes through both pointers.  The state is therefore a store with a map
    from addresses for each kind of object; address 0 is NULL, storage never written
    reads as zero.  The diagnostic behind [out_diag] is part of the state.  Reading a
    request body is in the file HttpBody. *)

From stdpp Require Import strings gmap.
From S2P Require Import Prelude Memory Status Arena Str Bytes Async Diag HttpResponse.

Open Scope Z_scope.

(** * Data (include/sloppy/http.h, include/sloppy/http_backend.h) *)

Definition SL_HTTP_DEFAULT_MAX_HEADERS : Z := 32.
Definition SL_HTTP_DEFAULT_MAX_REQUEST_LINE_LENGTH : Z := 4096.
Definition SL_HTTP_DEFAULT_MAX_TARGET_LENGTH : Z := 2048.
Definition SL_HTTP_DEFAULT_MAX_HEADER_NAME_LENGTH : Z := 256.
Definition SL_HTTP_DEFAULT_MAX_HEADER_VALUE_LENGTH : Z := 8192.
Definition SL_HTTP_DEFAULT_MAX_TOTAL_HEADER_BYTES : Z := 16384.
Definition SL_HTTP_DEFAULT_MAX_BODY_LENGTH : Z := 65536.
Definition SL_HTTP_BACKEND_DEFAULT_MAX_CONNECTIONS : Z := 128.
Definition SL_HTTP_BACKEND_DEFAULT_MAX_ACTIVE_REQUESTS : Z := 128.
Definition SL_HTTP_CONNECTION_FLAG_MULTIPLEXING : Z := 1.
Definition UINT64_MAX : Z := 2 ^ 64 - 1.

Inductive SlHttpMethod :=
| SL_HTTP_METHOD_UNKNOWN
| SL_HTTP_METHOD_GET
| SL_HTTP_METHOD_POST
| SL_HTTP_METHOD_PUT
| SL_HTTP_METHOD_DELETE
| SL_HTTP_METHOD_PATCH
| SL_HTTP_METHOD_OPTIONS
| SL_HTTP_METHOD_HEAD.

#[export] Instance SlHttpMethod_eq_dec : EqDecision SlHttpMethod.
Proof. solve_decision. Defined.

(** The array of headers is at [hd_headers_ptr]; its elements are the list. *)
Record SlHttpRequestHead := {
  hd_method : SlHttpMethod;
  hd_version_major : Z;
  hd_version_minor : Z;
  hd_path : SlStr;
  hd_raw_target : SlStr;
  hd_headers_ptr : Z;
  hd_headers : list SlHttpHeader;
  hd_body : SlBytes;
}.

Record SlHttpParseOptions := {
  po_max_headers : Z;
  po_max_request_line_length : Z;
  po_max_target_length : Z;
  po_max_header_name_length : Z;
  po_max_header_value_length : Z;
  po_max_total_header_bytes : Z;
  po_max_body_length : Z;
}.

Inductive SlHttpBackendState :=
| SL_HTTP_BACKEND_STATE_UNINITIALIZED
| SL_HTTP_BACKEND_STATE_INITIALIZED
| SL_HTTP_BACKEND_STATE_STARTED
| SL_HTTP_BACKEND_STATE_STOPPING
| SL_HTTP_BACKEND_STATE_STOPPED
| SL_HTTP_BACKEND_STATE_DISPOSED
| SL_HTTP_BACKEND_STATE_ERROR.

Inductive SlHttpListenerState :=
| SL_HTTP_LISTENER_STATE_UNBOUND
| SL_HTTP_LISTENER_STATE_BOUND
| SL_HTTP_LISTENER_STATE_LISTENING
| SL_HTTP_LISTENER_STATE_STOPPING
| SL_HTTP_LISTENER_STATE_STOPPED
| SL_HTTP_LISTENER_STATE_ERROR.

Inductive SlHttpConnectionState :=
| SL_HTTP_CONNECTION_STATE_NONE
| SL_HTTP_CONNECTION_STATE_ACCEPTED
| SL_HTTP_CONNECTION_STATE_OPEN
| SL_HTTP_CONNECTION_STATE_READING_REQUEST
| SL_HTTP_CONNECTION_STATE_DISPATCHING
| SL_HTTP_CONNECTION_STATE_WRITING_RESPONSE
| SL_HTTP_CONNECTION_STATE_CLOSING
| SL_HTTP_CONNECTION_STATE_CLOSED
| SL_HTTP_CONNECTION_STATE_ERROR.

Inductive SlHttpRequestState :=
| SL_HTTP_REQUEST_STATE_NONE
| SL_HTTP_REQUEST_STATE_CREATED
| SL_HTTP_REQUEST_STATE_READING
| SL_HTTP_REQUEST_STATE_DISPATCHING
| SL_HTTP_REQUEST_STATE_WRITING_RESPONSE
| SL_HTTP_REQUEST_STATE_COMPLETED
| SL_HTTP_REQUEST_STATE_CANCELLED
| SL_HTTP_REQUEST_STATE_TIMED_OUT
| SL_HTTP_REQUEST_STATE_FAILED
| SL_HTTP_REQUEST_STATE_CLOSED.

#[export] Instance SlHttpBackendState_eq_dec : EqDecision SlHttpBackendState.
Proof. solve_decision. Defined.
#[export] Instance SlHttpConnectionState_eq_dec : EqDecision SlHttpConnectionState.
Proof. solve_decision. Defined.
#[export] Instance SlHttpRequestState_eq_dec : EqDecision SlHttpRequestState.
Proof. solve_decision. Defined.

Record SlHttpBackendOptions := {
  bo_max_connections : Z;
  bo_max_active_requests : Z;
  bo_parse : SlHttpParseOptions;
  bo_read_timeout_ms : Z;
  bo_header_timeout_ms : Z;
  bo_request_timeout_ms : Z;
  bo_keep_alive_enabled : bool;
}.

Record SlHttpListener := { ln_state : SlHttpListenerState; ln_platform : Z }.

Record SlHttpBackend := {
  be_options : SlHttpBackendOptions;
  be_state : SlHttpBackendState;
  be_listener : SlHttpListener;
  be_active_connections : Z;
  be_active_requests : Z;
  be_next_connection_id : Z;
  be_next_request_id : Z;
}.

Record SlHttpConnection := {
  cn_backend : Z;
  cn_state : SlHttpConnectionState;
  cn_id : Z;
  cn_scheme : SlStr;
  cn_request_count : Z;
  cn_private_flags : Z;
  cn_slot_admitted : bool;
}.

Record SlHttpRequestLifecycle := {
  rq_connection : Z;
  rq_arena : Z;
  rq_id : Z;
  rq_scheme : SlStr;
  rq_state : SlHttpRequestState;
  rq_head : SlHttpRequestHead;
  rq_cancellation : SlCancellationToken;
  rq_admitted : bool;
}.

(** Zeroed objects. *)
Definition zero_head : SlHttpRequestHead :=
  {| hd_method := SL_HTTP_METHOD_UNKNOWN; hd_version_major := 0; hd_version_minor := 0; hd_path := sl_str_empty;
     hd_raw_target := sl_str_empty; hd_headers_ptr := 0; hd_headers := []; hd_body := sl_bytes_empty |}.
Definition zero_parse : SlHttpParseOptions := Build_SlHttpParseOptions 0 0 0 0 0 0 0.
Definition zero_options : SlHttpBackendOptions := Build_SlHttpBackendOptions 0 0 zero_parse 0 0 0 false.
Definition zero_backend : SlHttpBackend :=
  Build_SlHttpBackend zero_options SL_HTTP_BACKEND_STATE_UNINITIALIZED
    (Build_SlHttpListener SL_HTTP_LISTENER_STATE_UNBOUND 0) 0 0 0 0.
Definition zero_connection : SlHttpConnection :=
  Build_SlHttpConnection 0 SL_HTTP_CONNECTION_STATE_NONE 0 sl_str_empty 0 0 false.
Definition zero_token : SlCancellationToken :=
  {| tok_cancelled := false; tok_reason := SL_CANCELLATION_REASON_NONE; tok_detail := sl_str_empty |}.
Definition zero_request : SlHttpRequestLifecycle :=
  Build_SlHttpRequestLifecycle 0 0 0 sl_str_empty SL_HTTP_REQUEST_STATE_NONE zero_head zero_token false.

#[export] Instance backend_inhabited : Inhabited SlHttpBackend := populate zero_backend.
#[export] Instance connection_inhabited : Inhabited SlHttpConnection := populate zero_connection.
#[export] Instance request_inhabited : Inhabited SlHttpRequestLifecycle := populate zero_request.

(** Assignments to single fields. *)
Definition be_set_state state listener b :=
  {| be_options := be_options b; be_state := state; be_listener := listener;
     be_active_connections := be_active_connections b; be_active_requests := be_active_requests b;
     be_next_connection_id := be_next_connection_id b; be_next_request_id := be_next_request_id b |}.
Definition be_set_connections active next b :=
  {| be_options := be_options b; be_state := be_state b; be_listener := be_listener b;
     be_active_connections := active; be_active_requests := be_active_requests b;
     be_next_connection_id := next; be_next_request_id := be_next_request_id b |}.
Definition be_set_requests active next b :=
  {| be_options := be_options b; be_state := be_state b; be_listener := be_listener b;
     be_active_connections := be_active_connections b; be_active_requests := active;
     be_next_connection_id := be_next_connection_id b; be_next_request_id := next |}.
Definition cn_set_state state c :=
  {| cn_backend := cn_backend c; cn_state := state; cn_id := cn_id c; cn_scheme := cn_scheme c;
     cn_request_count := cn_request_count c; cn_private_flags := cn_private_flags c;
     cn_slot_admitted := cn_slot_admitted c |}.
Definition cn_set_slot admitted c :=
  {| cn_backend := cn_backend c; cn_state := cn_state c; cn_id := cn_id c; cn_scheme := cn_scheme c;
     cn_request_count := cn_request_count c; cn_private_flags := cn_private_flags c;
     cn_slot_admitted := admitted |}.
Definition cn_set_count count c :=
  {| cn_backend := cn_backend c; cn_state := cn_state c; cn_id := cn_id c; cn_scheme := cn_scheme c;
     cn_request_count := count; cn_private_flags := cn_private_flags c;
     cn_slot_admitted := cn_slot_admitted c |}.
Definition cn_set_flags flags c :=
  {| cn_backend := cn_backend c; cn_state := cn_state c; cn_id := cn_id c; cn_scheme := cn_scheme c;
     cn_request_count := cn_request_count c; cn_private_flags := flags;
     cn_slot_admitted := cn_slot_admitted c |}.
Definition rq_set_state state r :=
  {| rq_connection := rq_connection r; rq_arena := rq_arena r; rq_id := rq_id r; rq_scheme := rq_scheme r;
     rq_state := state; rq_head := rq_head r; rq_cancellation := rq_cancellation r; rq_admitted := rq_admitted r |}.
Definition rq_set_head head r :=
  {| rq_connection := rq_connection r; rq_arena := rq_arena r; rq_id := rq_id r; rq_scheme := rq_scheme r;
     rq_state := rq_state r; rq_head := head; rq_cancellation := rq_cancellation r; rq_admitted := rq_admitted r |}.
Definition rq_set_token token r :=
  {| rq_connection := rq_connection r; rq_arena := rq_arena r; rq_id := rq_id r; rq_scheme := rq_scheme r;
     rq_state := rq_state r; rq_head := rq_head r; rq_cancellation := token; rq_admitted := rq_admitted r |}.
Definition rq_set_admitted admitted r :=
  {| rq_connection := rq_connection r; rq_arena := rq_arena r; rq_id := rq_id r; rq_scheme := rq_scheme r;
     rq_state := rq_state r; rq_head := rq_head r; rq_cancellation := rq_cancellation r; rq_admitted := admitted |}.

(** * The store *)

Record HttpSys := {
  hs_backends : gmap Z SlHttpBackend;
  hs_connections : gmap Z SlHttpConnection;
  hs_requests : gmap Z SlHttpRequestLifecycle;
  hs_diag : SlDiag;
}.

Definition backend_at (s : HttpSys) (p : Z) : SlHttpBackend := hs_backends s !!! p.
Definition connection_at (s : HttpSys) (p : Z) : SlHttpConnection := hs_connections s !!! p.
Definition request_at (s : HttpSys) (p : Z) : SlHttpRequestLifecycle := hs_requests s !!! p.

Definition put_backend (p : Z) (b : SlHttpBackend) (s : HttpSys) : HttpSys :=
  {| hs_backends := <[p := b]> (hs_backends s); hs_connections := hs_connections s;
     hs_requests := hs_requests s; hs_diag := hs_diag s |}.
Definition put_connection (p : Z) (c : SlHttpConnection) (s : HttpSys) : HttpSys :=
  {| hs_backends := hs_backends s; hs_connections := <[p := c]> (hs_connections s);
     hs_requests := hs_requests s; hs_diag := hs_diag s |}.
Definition put_request (p : Z) (r : SlHttpRequestLifecycle) (s : HttpSys) : HttpSys :=
  {| hs_backends := hs_backends s; hs_connections := hs_connections s;
     hs_requests := <[p := r]> (hs_requests s); hs_diag := hs_diag s |}.
Definition put_diag (d : SlDiag) (s : HttpSys) : HttpSys :=
  {| hs_backends := hs_backends s; hs_connections := hs_connections s;
     hs_requests := hs_requests s; hs_diag := d |}.

(** [p->field = v], the assignment being [f]. *)
Definition upd_backend p (f : SlHttpBackend -> SlHttpBackend) s := put_backend p (f (backend_at s p)) s.
Definition upd_connection p (f : SlHttpConnection -> SlHttpConnection) s := put_connection p (f (connection_at s p)) s.
Definition upd_request p (f : SlHttpRequestLifecycle -> SlHttpRequestLifecycle) s := put_request p (f (request_at s p)) s.

(** A function that writes the diagnostic and gives the status to return. *)
Definition Refusal : Type := HttpSys -> SlStatusCode * HttpSys.

Definition refuse {A} (d : Refusal) : ST HttpSys A := fun s => let '(c, s) := d s in (Err c, s).

Definition clear_diag (out_diag : nullable) : ST HttpSys unit :=
  modify (fun s => if is_null out_diag then s else put_diag zero_diag s).

Notation "'refuse_if' b 'with' d ';;' k" :=
  (if b then refuse d else k)
    (at level 100, b at level 99, d at level 99, k at level 200, right associativity) : sloppy_scope.

(** * Diagnostics *)

Definition SL_DIAG_OVERFLOW : Z := 3.
Definition SL_DIAG_INVALID_HTTP_REQUEST : Z := 17.
Definition SL_DIAG_ENGINE_CANCELLED : Z := 37.
Definition SL_DIAG_APP_LIFECYCLE : Z := 39.
Definition SL_DIAG_HTTP_BODY_LIMIT : Z := 40.
Definition SL_DIAG_HTTP_UNSUPPORTED_MEDIA_TYPE : Z := 41.
Definition SL_DIAG_HTTP_CONNECTION_CLOSED : Z := 46.
Definition SL_DIAG_HTTP_REQUEST_TIMEOUT : Z := 47.
Definition SL_DIAG_HTTP_OVERLOAD : Z := 48.
Definition SL_DIAG_HTTP_KEEP_ALIVE_UNSUPPORTED : Z := 49.
Definition SL_DIAG_HTTP_SHUTDOWN : Z := 50.

Definition sl_http_backend_str_valid (str : SlStr) : bool := (str_length str =? 0) || negb (str_ptr str =? 0).

Section Diagnostics.
Context {RO : ReadOnlyData}.

Definition sl_http_backend_literal (text : string) : SlStr := literal text.

Definition sl_http_backend_diag (out_diag : nullable) (code : Z) (message hint : SlStr) (status_code : SlStatusCode)
    : Refusal := fun s =>
  if is_null out_diag then (status_code, s) else
  (status_code,
   put_diag {| dg_severity := SL_DIAG_SEVERITY_ERROR; dg_code := code; dg_message := message;
               dg_hints := if negb (sl_str_is_empty hint) then [hint] else [] |} s).

Definition sl_http_backend_invalid_state (out_diag : nullable) : Refusal :=
  sl_http_backend_diag out_diag SL_DIAG_APP_LIFECYCLE
    (sl_http_backend_literal "HTTP backend lifecycle state is invalid")
    (sl_http_backend_literal "call HTTP backend init/start/stop/dispose in order")
    SL_STATUS_INVALID_STATE.

Definition sl_http_backend_overload (out_diag : nullable) : Refusal :=
  sl_http_backend_diag out_diag SL_DIAG_HTTP_OVERLOAD
    (sl_http_backend_literal "HTTP backend admission limit was reached")
    (sl_http_backend_literal "the backend rejects overload instead of queuing without bounds")
    SL_STATUS_CAPACITY_EXCEEDED.

Definition sl_http_backend_overflow (out_diag : nullable) : Refusal :=
  sl_http_backend_diag out_diag SL_DIAG_OVERFLOW
    (sl_http_backend_literal "HTTP backend identifier space was exhausted")
    (sl_http_backend_literal "restart the backend before native request or connection IDs wrap")
    SL_STATUS_OVERFLOW.

Definition sl_http_backend_connection_closed (out_diag : nullable) : Refusal :=
  sl_http_backend_diag out_diag SL_DIAG_HTTP_CONNECTION_CLOSED
    (sl_http_backend_literal "HTTP connection is closed")
    (sl_http_backend_literal "do not begin new request work on a closed connection")
    SL_STATUS_INVALID_STATE.

Definition sl_http_backend_keep_alive_unsupported (out_diag : nullable) : Refusal :=
  sl_http_backend_diag out_diag SL_DIAG_HTTP_KEEP_ALIVE_UNSUPPORTED
    (sl_http_backend_literal "HTTP keep-alive is not enabled")
    (sl_http_backend_literal "the current dev runtime closes each HTTP/1.1 connection")
    SL_STATUS_UNSUPPORTED.

Definition sl_http_backend_timeout_diag (out_diag : nullable) : Refusal :=
  sl_http_backend_diag out_diag SL_DIAG_HTTP_REQUEST_TIMEOUT
    (sl_http_backend_literal "HTTP request deadline was exceeded")
    (sl_http_backend_literal "request cleanup still runs after timeout")
    SL_STATUS_DEADLINE_EXCEEDED.

Definition sl_http_backend_shutdown_diag (out_diag : nullable) (status_code : SlStatusCode) : Refusal :=
  sl_http_backend_diag out_diag SL_DIAG_HTTP_SHUTDOWN
    (sl_http_backend_literal "HTTP backend shutdown is in progress")
    (sl_http_backend_literal "new request work is rejected and active work must drain or cancel")
    status_code.

Definition sl_http_backend_cancelled_diag (out_diag : nullable) : Refusal :=
  sl_http_backend_diag out_diag SL_DIAG_ENGINE_CANCELLED
    (sl_http_backend_literal "HTTP request was cancelled")
    (sl_http_backend_literal "request cleanup still runs after cancellation")
    SL_STATUS_CANCELLED.

Definition sl_http_backend_body_limit_diag (out_diag : nullable) : Refusal :=
  sl_http_backend_diag out_diag SL_DIAG_HTTP_BODY_LIMIT
    (sl_http_backend_literal "HTTP request body is too large")
    (sl_http_backend_literal "request bodies are copied only up to the configured limit")
    SL_STATUS_CAPACITY_EXCEEDED.

Definition sl_http_backend_unsupported_media_diag (out_diag : nullable) : Refusal :=
  sl_http_backend_diag out_diag SL_DIAG_HTTP_UNSUPPORTED_MEDIA_TYPE
    (sl_http_backend_literal "HTTP request body content type is not supported")
    (sl_http_backend_literal "use application/json, text/plain, application/octet-stream, application/x-www-form-urlencoded, or multipart/form-data for bounded request bodies")
    SL_STATUS_UNSUPPORTED.

Definition sl_http_backend_invalid_body_diag (out_diag : nullable) : Refusal :=
  sl_http_backend_diag out_diag SL_DIAG_INVALID_HTTP_REQUEST
    (sl_http_backend_literal "HTTP request body length is invalid")
    (sl_http_backend_literal "the body reader must receive exactly the declared Content-Length")
    SL_STATUS_INVALID_ARGUMENT.
End Diagnostics.

(** * Options and predicates *)

Definition or_default (value default : Z) : Z := if value =? 0 then default else value.

Definition default_parse : SlHttpParseOptions :=
  {| po_max_headers := SL_HTTP_DEFAULT_MAX_HEADERS;
     po_max_request_line_length := SL_HTTP_DEFAULT_MAX_REQUEST_LINE_LENGTH;
     po_max_target_length := SL_HTTP_DEFAULT_MAX_TARGET_LENGTH;
     po_max_header_name_length := SL_HTTP_DEFAULT_MAX_HEADER_NAME_LENGTH;
     po_max_header_value_length := SL_HTTP_DEFAULT_MAX_HEADER_VALUE_LENGTH;
     po_max_total_header_bytes := SL_HTTP_DEFAULT_MAX_TOTAL_HEADER_BYTES;
     po_max_body_length := SL_HTTP_DEFAULT_MAX_BODY_LENGTH |}.

(** A zero limit means the default, except for [max_headers]. *)
Definition effective_parse (p : SlHttpParseOptions) : SlHttpParseOptions :=
  {| po_max_headers := po_max_headers p;
     po_max_request_line_length := or_default (po_max_request_line_length p) SL_HTTP_DEFAULT_MAX_REQUEST_LINE_LENGTH;
     po_max_target_length := or_default (po_max_target_length p) SL_HTTP_DEFAULT_MAX_TARGET_LENGTH;
     po_max_header_name_length := or_default (po_max_header_name_length p) SL_HTTP_DEFAULT_MAX_HEADER_NAME_LENGTH;
     po_max_header_value_length := or_default (po_max_header_value_length p) SL_HTTP_DEFAULT_MAX_HEADER_VALUE_LENGTH;
     po_max_total_header_bytes := or_default (po_max_total_header_bytes p) SL_HTTP_DEFAULT_MAX_TOTAL_HEADER_BYTES;
     po_max_body_length := or_default (po_max_body_length p) SL_HTTP_DEFAULT_MAX_BODY_LENGTH |}.

Definition sl_http_backend_options_init (options : option SlHttpBackendOptions) : SlHttpBackendOptions :=
  match options with
  | None =>
      {| bo_max_connections := SL_HTTP_BACKEND_DEFAULT_MAX_CONNECTIONS;
         bo_max_active_requests := SL_HTTP_BACKEND_DEFAULT_MAX_ACTIVE_REQUESTS;
         bo_parse := default_parse; bo_read_timeout_ms := 0; bo_header_timeout_ms := 0;
         bo_request_timeout_ms := 0; bo_keep_alive_enabled := false |}
  | Some o =>
      {| bo_max_connections := or_default (bo_max_connections o) SL_HTTP_BACKEND_DEFAULT_MAX_CONNECTIONS;
         bo_max_active_requests := or_default (bo_max_active_requests o) SL_HTTP_BACKEND_DEFAULT_MAX_ACTIVE_REQUESTS;
         bo_parse := effective_parse (bo_parse o);
         bo_read_timeout_ms := bo_read_timeout_ms o; bo_header_timeout_ms := bo_header_timeout_ms o;
         bo_request_timeout_ms := bo_request_timeout_ms o; bo_keep_alive_enabled := bo_keep_alive_enabled o |}
  end.

Definition be_is (state : SlHttpBackendState) (b : SlHttpBackend) : bool := bool_decide (be_state b = state).
Definition cn_is (state : SlHttpConnectionState) (c : SlHttpConnection) : bool := bool_decide (cn_state c = state).
Definition rq_is (state : SlHttpRequestState) (r : SlHttpRequestLifecycle) : bool := bool_decide (rq_state r = state).

Definition sl_http_connection_is_multiplexing (connection : Z) (s : HttpSys) : bool :=
  negb (connection =? 0) &&
  negb (Z.land (cn_private_flags (connection_at s connection)) SL_HTTP_CONNECTION_FLAG_MULTIPLEXING =? 0).

Definition sl_http_connection_set_multiplexing (connection : Z) (enabled : bool) (s : HttpSys) : HttpSys :=
  if connection =? 0 then s else
  let flags := cn_private_flags (connection_at s connection) in
  upd_connection connection
    (cn_set_flags (if enabled then Z.lor flags SL_HTTP_CONNECTION_FLAG_MULTIPLEXING
                   else Z.land flags (Z.lxor UINTPTR_MAX SL_HTTP_CONNECTION_FLAG_MULTIPLEXING))) s.

Definition sl_http_connection_can_begin_request (connection : Z) (s : HttpSys) : bool :=
  let c := connection_at s connection in
  if (connection =? 0) || (cn_backend c =? 0) || negb (cn_slot_admitted c) ||
     negb (be_is SL_HTTP_BACKEND_STATE_STARTED (backend_at s (cn_backend c)))
  then false
  else if cn_is SL_HTTP_CONNECTION_STATE_ACCEPTED c || cn_is SL_HTTP_CONNECTION_STATE_OPEN c then true
  else sl_http_connection_is_multiplexing connection s &&
       (cn_is SL_HTTP_CONNECTION_STATE_READING_REQUEST c || cn_is SL_HTTP_CONNECTION_STATE_DISPATCHING c ||
        cn_is SL_HTTP_CONNECTION_STATE_WRITING_RESPONSE c).

Definition sl_http_request_terminal (state : SlHttpRequestState) : bool :=
  bool_decide (state = SL_HTTP_REQUEST_STATE_COMPLETED) || bool_decide (state = SL_HTTP_REQUEST_STATE_CANCELLED) ||
  bool_decide (state = SL_HTTP_REQUEST_STATE_TIMED_OUT) || bool_decide (state = SL_HTTP_REQUEST_STATE_FAILED) ||
  bool_decide (state = SL_HTTP_REQUEST_STATE_CLOSED).

(** * Shared steps *)

Definition sl_http_backend_maybe_finish_stop (backend : Z) (s : HttpSys) : HttpSys :=
  let b := backend_at s backend in
  if negb (backend =? 0) && be_is SL_HTTP_BACKEND_STATE_STOPPING b &&
     (be_active_connections b =? 0) && (be_active_requests b =? 0)
  then upd_backend backend
         (be_set_state SL_HTTP_BACKEND_STATE_STOPPED
            {| ln_state := SL_HTTP_LISTENER_STATE_STOPPED; ln_platform := ln_platform (be_listener b) |}) s
  else s.

Definition sl_http_request_release_admission (request : Z) (s : HttpSys) : HttpSys :=
  let r := request_at s request in
  if (request =? 0) || negb (rq_admitted r) || (rq_connection r =? 0) then s else
  let backend := cn_backend (connection_at s (rq_connection r)) in
  let b := backend_at s backend in
  let s := if negb (backend =? 0) && (0 <? be_active_requests b)
           then upd_backend backend (be_set_requests (be_active_requests b - 1) (be_next_request_id b)) s
           else s in
  let s := upd_request request (rq_set_admitted false) s in
  sl_http_backend_maybe_finish_stop backend s.

Definition sl_http_request_terminal_cancel (request : Z) (state : SlHttpRequestState) (s : HttpSys) : HttpSys :=
  if request =? 0 then s else
  let s := upd_request request (rq_set_state state) s in
  let connection := rq_connection (request_at s request) in
  let s := if negb (connection =? 0)
           then upd_connection connection (cn_set_state SL_HTTP_CONNECTION_STATE_CLOSING) s else s in
  sl_http_request_release_admission request s.

Definition sl_http_request_set_connection_after_stream_terminal (request : Z) (fallback : SlHttpConnectionState)
    (s : HttpSys) : HttpSys :=
  let connection := if request =? 0 then 0 else rq_connection (request_at s request) in
  let backend := if connection =? 0 then 0 else cn_backend (connection_at s connection) in
  if connection =? 0 then s else
  if sl_http_connection_is_multiplexing connection s && negb (backend =? 0) &&
     be_is SL_HTTP_BACKEND_STATE_STARTED (backend_at s backend)
  then upd_connection connection (cn_set_state SL_HTTP_CONNECTION_STATE_OPEN) s
  else upd_connection connection (cn_set_state fallback) s.

(** The slot of a connection goes back to its backend. *)
Definition release_slot (connection : Z) (state : SlHttpConnectionState) (s : HttpSys) : HttpSys :=
  let backend := cn_backend (connection_at s connection) in
  let s := upd_connection connection (cn_set_state state) s in
  let b := backend_at s backend in
  let s := if negb (backend =? 0) && cn_slot_admitted (connection_at s connection) && (0 <? be_active_connections b)
           then upd_backend backend (be_set_connections (be_active_connections b - 1) (be_next_connection_id b)) s
           else s in
  let s := upd_connection connection (cn_set_slot false) s in
  sl_http_backend_maybe_finish_stop backend s.

(** [request->cancellation] seen by the token operations. *)
Definition on_token {A} (request : Z) (c : ST SlCancellationToken A) : ST HttpSys A :=
  zoom (fun s => rq_cancellation (request_at s request)) (fun t => upd_request request (rq_set_token t)) c.

(** * Operations *)

Section Operations.
Context {RO : ReadOnlyData}.

Definition sl_http_backend_init (backend : Z) (options : option SlHttpBackendOptions) (out_diag : nullable)
    : ST HttpSys unit :=
  clear_diag out_diag ;;
  return_if backend =? 0 with SL_STATUS_INVALID_ARGUMENT ;;
  modify (put_backend backend
    {| be_options := sl_http_backend_options_init options; be_state := SL_HTTP_BACKEND_STATE_INITIALIZED;
       be_listener := {| ln_state := SL_HTTP_LISTENER_STATE_UNBOUND; ln_platform := 0 |};
       be_active_connections := 0; be_active_requests := 0; be_next_connection_id := 1; be_next_request_id := 1 |}).

Definition sl_http_backend_start (backend platform : Z) (out_diag : nullable) : ST HttpSys unit :=
  clear_diag out_diag ;;
  return_if backend =? 0 with SL_STATUS_INVALID_ARGUMENT ;;
  b ← gets (fun s => backend_at s backend) ;
  refuse_if negb (be_is SL_HTTP_BACKEND_STATE_INITIALIZED b) && negb (be_is SL_HTTP_BACKEND_STATE_STOPPED b)
    with sl_http_backend_invalid_state out_diag ;;
  modify (upd_backend backend
    (be_set_state SL_HTTP_BACKEND_STATE_STARTED
       {| ln_state := SL_HTTP_LISTENER_STATE_LISTENING; ln_platform := platform |})).

Definition sl_http_backend_stop (backend : Z) (out_diag : nullable) : ST HttpSys unit :=
  clear_diag out_diag ;;
  return_if backend =? 0 with SL_STATUS_INVALID_ARGUMENT ;;
  b ← gets (fun s => backend_at s backend) ;
  refuse_if negb (be_is SL_HTTP_BACKEND_STATE_STARTED b) && negb (be_is SL_HTTP_BACKEND_STATE_STOPPING b)
    with sl_http_backend_invalid_state out_diag ;;
  modify (upd_backend backend
    (be_set_state SL_HTTP_BACKEND_STATE_STOPPING
       {| ln_state := SL_HTTP_LISTENER_STATE_STOPPING; ln_platform := ln_platform (be_listener b) |})) ;;
  modify (sl_http_backend_maybe_finish_stop backend).

Definition sl_http_backend_dispose (backend : Z) (out_diag : nullable) : ST HttpSys unit :=
  clear_diag out_diag ;;
  return_if backend =? 0 with SL_STATUS_INVALID_ARGUMENT ;;
  b ← gets (fun s => backend_at s backend) ;
  refuse_if negb (be_active_connections b =? 0) || negb (be_active_requests b =? 0) ||
            be_is SL_HTTP_BACKEND_STATE_STARTED b || be_is SL_HTTP_BACKEND_STATE_STOPPING b
    with sl_http_backend_invalid_state out_diag ;;
  modify (upd_backend backend
    (be_set_state SL_HTTP_BACKEND_STATE_DISPOSED {| ln_state := SL_HTTP_LISTENER_STATE_STOPPED; ln_platform := 0 |})).

Definition sl_http_backend_accept_connection (backend out_connection : Z) (out_diag : nullable) : ST HttpSys unit :=
  clear_diag out_diag ;;
  return_if out_connection =? 0 with SL_STATUS_INVALID_ARGUMENT ;;
  modify (put_connection out_connection zero_connection) ;;
  return_if backend =? 0 with SL_STATUS_INVALID_ARGUMENT ;;
  b ← gets (fun s => backend_at s backend) ;
  refuse_if negb (be_is SL_HTTP_BACKEND_STATE_STARTED b) with sl_http_backend_invalid_state out_diag ;;
  refuse_if bo_max_connections (be_options b) <=? be_active_connections b with sl_http_backend_overload out_diag ;;
  refuse_if be_next_connection_id b =? UINT64_MAX with sl_http_backend_overflow out_diag ;;
  modify (put_connection out_connection
    {| cn_backend := backend; cn_state := SL_HTTP_CONNECTION_STATE_ACCEPTED; cn_id := be_next_connection_id b;
       cn_scheme := literal "http"; cn_request_count := 0; cn_private_flags := 0; cn_slot_admitted := true |}) ;;
  modify (upd_backend backend
    (be_set_connections (wrap64 (be_active_connections b + 1)) (wrap64 (be_next_connection_id b + 1)))).

Definition sl_http_connection_close (connection : Z) (out_diag : nullable) : ST HttpSys unit :=
  clear_diag out_diag ;;
  return_if connection =? 0 with SL_STATUS_INVALID_ARGUMENT ;;
  c ← gets (fun s => connection_at s connection) ;
  if cn_is SL_HTTP_CONNECTION_STATE_CLOSED c then mret tt else
  modify (release_slot connection SL_HTTP_CONNECTION_STATE_CLOSED).

Definition sl_http_connection_fail (connection : Z) (out_diag : nullable) : ST HttpSys unit :=
  return_if connection =? 0 with SL_STATUS_INVALID_ARGUMENT ;;
  clear_diag out_diag ;;
  modify (release_slot connection SL_HTTP_CONNECTION_STATE_ERROR).

Definition sl_http_request_begin (connection arena out_request : Z) (out_diag : nullable) : ST HttpSys unit :=
  clear_diag out_diag ;;
  return_if out_request =? 0 with SL_STATUS_INVALID_ARGUMENT ;;
  modify (put_request out_request zero_request) ;;
  c ← gets (fun s => connection_at s connection) ;
  return_if (arena =? 0) || (connection =? 0) || (cn_backend c =? 0) with SL_STATUS_INVALID_ARGUMENT ;;
  b ← gets (fun s => backend_at s (cn_backend c)) ;
  multiplexing ← gets (sl_http_connection_is_multiplexing connection) ;
  refuse_if cn_is SL_HTTP_CONNECTION_STATE_CLOSING c && negb multiplexing && negb (bo_keep_alive_enabled (be_options b))
    with sl_http_backend_keep_alive_unsupported out_diag ;;
  refuse_if be_is SL_HTTP_BACKEND_STATE_STOPPING b with sl_http_backend_shutdown_diag out_diag SL_STATUS_CANCELLED ;;
  can_begin ← gets (sl_http_connection_can_begin_request connection) ;
  refuse_if negb can_begin with sl_http_backend_connection_closed out_diag ;;
  refuse_if bo_max_active_requests (be_options b) <=? be_active_requests b with sl_http_backend_overload out_diag ;;
  refuse_if be_next_request_id b =? UINT64_MAX with sl_http_backend_overflow out_diag ;;
  modify (upd_backend (cn_backend c)
    (be_set_requests (wrap64 (be_active_requests b + 1)) (wrap64 (be_next_request_id b + 1)))) ;;
  modify (upd_connection connection (cn_set_count (wrap64 (cn_request_count c + 1)))) ;;
  modify (upd_connection connection (cn_set_state SL_HTTP_CONNECTION_STATE_READING_REQUEST)) ;;
  modify (put_request out_request
    {| rq_connection := connection; rq_arena := arena; rq_id := be_next_request_id b;
       rq_scheme := if sl_str_is_empty (cn_scheme c) then literal "http" else cn_scheme c;
       rq_state := SL_HTTP_REQUEST_STATE_CREATED; rq_head := zero_head;
       rq_cancellation := sl_cancellation_token_init REF zero_token; rq_admitted := true |}).

(** What [sl_http_parse_request_head] does to the head and the diagnostic, with the
    status it returns. *)
Definition HeadParser : Type :=
  SlBytes -> option SlHttpParseOptions -> SlHttpRequestHead -> SlDiag -> SlStatusCode * SlHttpRequestHead * SlDiag.

Definition sl_http_request_parse_head (parser : HeadParser) (request : Z) (bytes : SlBytes) (out_diag : nullable)
    : ST HttpSys unit :=
  clear_diag out_diag ;;
  r ← gets (fun s => request_at s request) ;
  return_if (request =? 0) || (rq_connection r =? 0) || (rq_arena r =? 0) ||
            (bytes_ptr bytes =? 0) && negb (bytes_length bytes =? 0) with SL_STATUS_INVALID_ARGUMENT ;;
  refuse_if negb (rq_is SL_HTTP_REQUEST_STATE_CREATED r) with sl_http_backend_invalid_state out_diag ;;
  backend ← gets (fun s => cn_backend (connection_at s (rq_connection r))) ;
  modify (upd_connection (rq_connection r) (cn_set_state SL_HTTP_CONNECTION_STATE_READING_REQUEST)) ;;
  options ← gets (fun s => if backend =? 0 then None else Some (bo_parse (be_options (backend_at s backend)))) ;
  diag ← gets hs_diag ;
  let '(status, head, diag) := parser bytes options (rq_head r) diag in
  modify (fun s => if is_null out_diag then s else put_diag diag s) ;;
  modify (upd_request request (rq_set_head head)) ;;
  if negb (sl_status_is_ok status) then
    modify (upd_request request (rq_set_state SL_HTTP_REQUEST_STATE_FAILED)) ;;
    modify (upd_connection (rq_connection r) (cn_set_state SL_HTTP_CONNECTION_STATE_ERROR)) ;;
    fail status
  else modify (upd_request request (rq_set_state SL_HTTP_REQUEST_STATE_READING)).

Definition sl_http_request_begin_dispatch (request : Z) (out_diag : nullable) : ST HttpSys unit :=
  clear_diag out_diag ;;
  r ← gets (fun s => request_at s request) ;
  return_if (request =? 0) || (rq_connection r =? 0) with SL_STATUS_INVALID_ARGUMENT ;;
  refuse_if negb (rq_is SL_HTTP_REQUEST_STATE_READING r) with sl_http_backend_invalid_state out_diag ;;
  let token := rq_cancellation r in
  if sl_cancellation_token_is_cancelled REF token then
    let reason := sl_cancellation_token_reason REF token in
    if bool_decide (reason = SL_CANCELLATION_REASON_DEADLINE_EXCEEDED) then
      modify (sl_http_request_terminal_cancel request SL_HTTP_REQUEST_STATE_TIMED_OUT) ;;
      refuse (sl_http_backend_timeout_diag out_diag)
    else if bool_decide (reason = SL_CANCELLATION_REASON_SHUTDOWN) then
      modify (sl_http_request_terminal_cancel request SL_HTTP_REQUEST_STATE_CANCELLED) ;;
      refuse (sl_http_backend_shutdown_diag out_diag SL_STATUS_CANCELLED)
    else
      modify (sl_http_request_terminal_cancel request SL_HTTP_REQUEST_STATE_CANCELLED) ;;
      refuse (sl_http_backend_cancelled_diag out_diag)
  else
  backend ← gets (fun s => cn_backend (connection_at s (rq_connection r))) ;
  b ← gets (fun s => backend_at s backend) ;
  if negb (backend =? 0) && be_is SL_HTTP_BACKEND_STATE_STOPPING b then
    modify (sl_http_request_terminal_cancel request SL_HTTP_REQUEST_STATE_CANCELLED) ;;
    refuse (sl_http_backend_shutdown_diag out_diag SL_STATUS_CANCELLED)
  else
  modify (upd_request request (rq_set_state SL_HTTP_REQUEST_STATE_DISPATCHING)) ;;
  modify (upd_connection (rq_connection r) (cn_set_state SL_HTTP_CONNECTION_STATE_DISPATCHING)).

Definition sl_http_request_begin_write (request : Z) (out_diag : nullable) : ST HttpSys unit :=
  clear_diag out_diag ;;
  r ← gets (fun s => request_at s request) ;
  return_if (request =? 0) || (rq_connection r =? 0) with SL_STATUS_INVALID_ARGUMENT ;;
  refuse_if negb (rq_is SL_HTTP_REQUEST_STATE_DISPATCHING r) with sl_http_backend_invalid_state out_diag ;;
  modify (upd_request request (rq_set_state SL_HTTP_REQUEST_STATE_WRITING_RESPONSE)) ;;
  modify (upd_connection (rq_connection r) (cn_set_state SL_HTTP_CONNECTION_STATE_WRITING_RESPONSE)).

Definition sl_http_request_complete (request : Z) (out_diag : nullable) : ST HttpSys unit :=
  clear_diag out_diag ;;
  r ← gets (fun s => request_at s request) ;
  return_if (request =? 0) || (rq_connection r =? 0) with SL_STATUS_INVALID_ARGUMENT ;;
  refuse_if negb (rq_is SL_HTTP_REQUEST_STATE_WRITING_RESPONSE r) with sl_http_backend_invalid_state out_diag ;;
  modify (upd_request request (rq_set_state SL_HTTP_REQUEST_STATE_COMPLETED)) ;;
  backend ← gets (fun s => cn_backend (connection_at s (rq_connection r))) ;
  keep_alive ← gets (fun s => bo_keep_alive_enabled (be_options (backend_at s backend))) ;
  modify (sl_http_request_set_connection_after_stream_terminal request
            (if negb (backend =? 0) && keep_alive then SL_HTTP_CONNECTION_STATE_OPEN
             else SL_HTTP_CONNECTION_STATE_CLOSING)) ;;
  modify (sl_http_request_release_admission request).

Definition sl_http_request_fail (request : Z) (out_diag : nullable) : ST HttpSys unit :=
  clear_diag out_diag ;;
  r ← gets (fun s => request_at s request) ;
  return_if (request =? 0) || (rq_connection r =? 0) with SL_STATUS_INVALID_ARGUMENT ;;
  modify (upd_request request (rq_set_state SL_HTTP_REQUEST_STATE_FAILED)) ;;
  modify (sl_http_request_set_connection_after_stream_terminal request SL_HTTP_CONNECTION_STATE_ERROR) ;;
  modify (sl_http_request_release_admission request).

(** [sl_cancellation_token_cancel], an already cancelled token being no error here. *)
Definition cancel_token (request : Z) (reason : SlCancellationReason) (detail : SlStr) : ST HttpSys unit :=
  on_error (on_token request (sl_cancellation_token_cancel REF reason detail))
    (fun status => if bool_decide (status = SL_STATUS_INVALID_STATE) then mret tt else fail status).

Definition sl_http_request_cancel (request : Z) (reason : SlCancellationReason) (detail : SlStr) (out_diag : nullable)
    : ST HttpSys unit :=
  clear_diag out_diag ;;
  return_if (request =? 0) || bool_decide (reason = SL_CANCELLATION_REASON_NONE) ||
            negb (sl_http_backend_str_valid detail) with SL_STATUS_INVALID_ARGUMENT ;;
  r ← gets (fun s => request_at s request) ;
  refuse_if sl_http_request_terminal (rq_state r) with sl_http_backend_invalid_state out_diag ;;
  cancel_token request reason detail ;;
  if bool_decide (reason = SL_CANCELLATION_REASON_DEADLINE_EXCEEDED) then
    modify (sl_http_request_terminal_cancel request SL_HTTP_REQUEST_STATE_TIMED_OUT) ;;
    refuse (sl_http_backend_timeout_diag out_diag)
  else if bool_decide (reason = SL_CANCELLATION_REASON_SHUTDOWN) then
    modify (sl_http_request_terminal_cancel request SL_HTTP_REQUEST_STATE_CANCELLED) ;;
    refuse (sl_http_backend_shutdown_diag out_diag SL_STATUS_CANCELLED)
  else
    modify (sl_http_request_terminal_cancel request SL_HTTP_REQUEST_STATE_CANCELLED) ;;
    refuse (sl_http_backend_cancelled_diag out_diag).

Definition sl_http_request_shutdown (request : Z) (out_diag : nullable) : ST HttpSys unit :=
  sl_http_request_cancel request SL_CANCELLATION_REASON_SHUTDOWN (literal "HTTP backend shutdown") out_diag.

Definition sl_http_request_timeout (request : Z) (detail : SlStr) (out_diag : nullable) : ST HttpSys unit :=
  return_if (request =? 0) || negb (sl_http_backend_str_valid detail) with SL_STATUS_INVALID_ARGUMENT ;;
  r ← gets (fun s => request_at s request) ;
  refuse_if sl_http_request_terminal (rq_state r) with sl_http_backend_invalid_state out_diag ;;
  cancel_token request SL_CANCELLATION_REASON_DEADLINE_EXCEEDED detail ;;
  modify (sl_http_request_terminal_cancel request SL_HTTP_REQUEST_STATE_TIMED_OUT) ;;
  refuse (sl_http_backend_timeout_diag out_diag).

Definition sl_http_request_close (request : Z) (out_diag : nullable) : ST HttpSys unit :=
  clear_diag out_diag ;;
  return_if request =? 0 with SL_STATUS_INVALID_ARGUMENT ;;
  modify (sl_http_request_release_admission request) ;;
  modify (upd_request request (rq_set_state SL_HTTP_REQUEST_STATE_CLOSED)) ;;
  modify (upd_request request (rq_set_head zero_head)).

Definition sl_http_backend_state (backend : Z) (s : HttpSys) : SlHttpBackendState :=
  if backend =? 0 then SL_HTTP_BACKEND_STATE_UNINITIALIZED else be_state (backend_at s backend).
Definition sl_http_connection_state (connection : Z) (s : HttpSys) : SlHttpConnectionState :=
  if connection =? 0 then SL_HTTP_CONNECTION_STATE_NONE else cn_state (connection_at s connection).
Definition sl_http_request_state (request : Z) (s : HttpSys) : SlHttpRequestState :=
  if request =? 0 then SL_HTTP_REQUEST_STATE_NONE else rq_state (request_at s request).
End Operations.

(** * Admission accounting *)

Lemma backend_at_put p b s q : backend_at (put_backend p b s) q = if decide (q = p) then b else backend_at s q.
Proof.
  unfold backend_at, put_backend. cbn. case_decide as E; [subst; apply lookup_total_insert_eq|].
  by apply lookup_total_insert_ne.
Qed.

Lemma connection_at_put p c s q :
  connection_at (put_connection p c s) q = if decide (q = p) then c else connection_at s q.
Proof.
  unfold connection_at, put_connection. cbn. case_decide as E; [subst; apply lookup_total_insert_eq|].
  by apply lookup_total_insert_ne.
Qed.

Lemma request_at_put p r s q : request_at (put_request p r s) q = if decide (q = p) then r else request_at s q.
Proof.
  unfold request_at, put_request. cbn. case_decide as E; [subst; apply lookup_total_insert_eq|].
  by apply lookup_total_insert_ne.
Qed.

(** The three maps are independent. *)
Lemma backend_at_put_connection p c s q : backend_at (put_connection p c s) q = backend_at s q.
Proof. done. Qed.
Lemma backend_at_put_request p r s q : backend_at (put_request p r s) q = backend_at s q.
Proof. done. Qed.
Lemma connection_at_put_backend p b s q : connection_at (put_backend p b s) q = connection_at s q.
Proof. done. Qed.
Lemma connection_at_put_request p r s q : connection_at (put_request p r s) q = connection_at s q.
Proof. done. Qed.
Lemma request_at_put_backend p b s q : request_at (put_backend p b s) q = request_at s q.
Proof. done. Qed.
Lemma request_at_put_connection p c s q : request_at (put_connection p c s) q = request_at s q.
Proof. done. Qed.
Lemma backend_at_put_diag d s q : backend_at (put_diag d s) q = backend_at s q.
Proof. done. Qed.
Lemma connection_at_put_diag d s q : connection_at (put_diag d s) q = connection_at s q.
Proof. done. Qed.
Lemma request_at_put_diag d s q : request_at (put_diag d s) q = request_at s q.
Proof. done. Qed.

Create Rewrite HintDb http_store.
#[export] Hint Rewrite backend_at_put connection_at_put request_at_put backend_at_put_connection backend_at_put_request
  connection_at_put_backend connection_at_put_request request_at_put_backend request_at_put_connection
  backend_at_put_diag connection_at_put_diag request_at_put_diag : http_store.

Ltac store := unfold upd_backend, upd_connection, upd_request in *; autorewrite with http_store in *.

(** The connections that hold a slot of a backend, and the requests admitted to it. *)
Definition conns_of (s : HttpSys) (b : Z) : gset Z :=
  filter (fun c => cn_slot_admitted (connection_at s c) = true /\ cn_backend (connection_at s c) = b)
    (dom (hs_connections s)).

Definition reqs_of (s : HttpSys) (b : Z) : gset Z :=
  filter (fun r => rq_admitted (request_at s r) = true /\
                   cn_backend (connection_at s (rq_connection (request_at s r))) = b)
    (dom (hs_requests s)).

Lemma elem_of_conns s b c :
  c ∈ conns_of s b <-> cn_slot_admitted (connection_at s c) = true /\ cn_backend (connection_at s c) = b.
Proof.
  unfold conns_of. rewrite elem_of_filter. split; [naive_solver|]. intros [E1 E2]. split; [done|].
  destruct (hs_connections s !! c) as [o|] eqn:E; [by eapply elem_of_dom_2|].
  unfold connection_at in E1. by rewrite (lookup_total_alt _ c), E in E1.
Qed.

Lemma elem_of_reqs s b r :
  r ∈ reqs_of s b <->
  rq_admitted (request_at s r) = true /\ cn_backend (connection_at s (rq_connection (request_at s r))) = b.
Proof.
  unfold reqs_of. rewrite elem_of_filter. split; [naive_solver|]. intros [E1 E2]. split; [done|].
  destruct (hs_requests s !! r) as [o|] eqn:E; [by eapply elem_of_dom_2|].
  unfold request_at in E1. by rewrite (lookup_total_alt _ r), E in E1.
Qed.

(** States in which a request may hold an admission slot: [FAILED] after a head that did
    not parse, until the request is failed or closed. *)
Definition holds_slot (state : SlHttpRequestState) : bool :=
  match state with
  | SL_HTTP_REQUEST_STATE_CREATED | SL_HTTP_REQUEST_STATE_READING | SL_HTTP_REQUEST_STATE_DISPATCHING
  | SL_HTTP_REQUEST_STATE_WRITING_RESPONSE | SL_HTTP_REQUEST_STATE_FAILED => true
  | _ => false
  end.

Definition accepts_work (state : SlHttpBackendState) : bool :=
  match state with
  | SL_HTTP_BACKEND_STATE_STARTED | SL_HTTP_BACKEND_STATE_STOPPING => true
  | _ => false
  end.

(** The counters of a backend are the numbers of its connections and requests, within
    their limits; ids are handed out once; only a started or stopping backend has any. *)
Record backend_ok (s : HttpSys) (b : Z) : Prop := {
  bk_connections : be_active_connections (backend_at s b) = Z.of_nat (size (conns_of s b));
  bk_requests : be_active_requests (backend_at s b) = Z.of_nat (size (reqs_of s b));
  bk_connection_limit : be_active_connections (backend_at s b) <= bo_max_connections (be_options (backend_at s b)) <= SIZE_MAX;
  bk_request_limit : be_active_requests (backend_at s b) <= bo_max_active_requests (be_options (backend_at s b)) <= SIZE_MAX;
  bk_next_connection : 0 <= be_next_connection_id (backend_at s b) <= UINT64_MAX;
  bk_next_request : 0 <= be_next_request_id (backend_at s b) <= UINT64_MAX;
  bk_request_ids : forall r, r ∈ reqs_of s b -> rq_id (request_at s r) < be_next_request_id (backend_at s b);
  bk_request_ids_unique : forall r r', r ∈ reqs_of s b -> r' ∈ reqs_of s b ->
    rq_id (request_at s r) = rq_id (request_at s r') -> r = r';
  bk_idle : accepts_work (be_state (backend_at s b)) = false -> conns_of s b = ∅ /\ reqs_of s b = ∅;
}.

(** Inside an operation the request [x] may have been given its final state before its
    slot is released; [x = 0] is no exception. *)
Record admission_ok (x : Z) (s : HttpSys) : Prop := {
  ad_backend : forall b, backend_ok s b;
  ad_connection : forall c, cn_slot_admitted (connection_at s c) = true ->
    c <> 0 /\ cn_backend (connection_at s c) <> 0 /\ cn_state (connection_at s c) <> SL_HTTP_CONNECTION_STATE_CLOSED;
  ad_request : forall r, rq_admitted (request_at s r) = true ->
    r <> 0 /\ rq_connection (request_at s r) <> 0 /\
    cn_backend (connection_at s (rq_connection (request_at s r))) <> 0 /\
    (r = x \/ holds_slot (rq_state (request_at s r)) = true);
}.

(** A stopping backend still has something to wait for. *)
Definition waiting (s : HttpSys) (b : Z) : Prop :=
  be_state (backend_at s b) = SL_HTTP_BACKEND_STATE_STOPPING ->
  be_active_connections (backend_at s b) <> 0 \/ be_active_requests (backend_at s b) <> 0.

Definition inv_except (x : Z) (s : HttpSys) : Prop := admission_ok x s /\ forall b, waiting s b.
Definition http_inv (s : HttpSys) : Prop := inv_except 0 s.

(** Steps that leave every counter, slot and identifier alone. *)
Record quiet (x : Z) (s s' : HttpSys) : Prop := {
  q_backend : forall b, backend_at s' b = backend_at s b;
  q_connection : forall c, cn_backend (connection_at s' c) = cn_backend (connection_at s c) /\
    cn_slot_admitted (connection_at s' c) = cn_slot_admitted (connection_at s c) /\
    (cn_slot_admitted (connection_at s c) = true ->
     cn_state (connection_at s c) <> SL_HTTP_CONNECTION_STATE_CLOSED ->
     cn_state (connection_at s' c) <> SL_HTTP_CONNECTION_STATE_CLOSED);
  q_request : forall r, rq_connection (request_at s' r) = rq_connection (request_at s r) /\
    rq_admitted (request_at s' r) = rq_admitted (request_at s r) /\ rq_id (request_at s' r) = rq_id (request_at s r) /\
    (rq_admitted (request_at s r) = true -> r = x \/
     (holds_slot (rq_state (request_at s r)) = true -> holds_slot (rq_state (request_at s' r)) = true));
}.

Section Quiet.
Context (x : Z).

Lemma quiet_conns s s' b : quiet x s s' -> conns_of s' b = conns_of s b.
Proof. intros [_ H _]. apply set_eq. intros c. rewrite !elem_of_conns. by destruct (H c) as (-> & -> & _). Qed.

Lemma quiet_reqs s s' b : quiet x s s' -> reqs_of s' b = reqs_of s b.
Proof.
  intros [_ Hc H]. apply set_eq. intros r. rewrite !elem_of_reqs. destruct (H r) as (-> & -> & _).
  by destruct (Hc (rq_connection (request_at s r))) as (-> & _).
Qed.

Lemma quiet_admission s s' : quiet x s s' -> admission_ok x s -> admission_ok x s'.
Proof.
  intros Q [Hb Hc Hr]. split.
  - intros b. destruct (Hb b) as [? ? ? ? ? ? Hids Huniq ?].
    split; rewrite ?(q_backend _ _ _ Q), ?(quiet_conns _ _ _ Q), ?(quiet_reqs _ _ _ Q); try done.
    + intros r Hin. destruct (q_request _ _ _ Q r) as (_ & _ & -> & _). by apply Hids.
    + intros r r' Hin Hin'. destruct (q_request _ _ _ Q r) as (_ & _ & -> & _).
      destruct (q_request _ _ _ Q r') as (_ & _ & -> & _). by apply Huniq.
  - intros c. destruct (q_connection _ _ _ Q c) as (-> & -> & Hcl). intros Ha. destruct (Hc c Ha) as (? & ? & ?). auto.
  - intros r. destruct (q_request _ _ _ Q r) as (-> & -> & _ & Hst). intros Ha.
    destruct (Hr r Ha) as (? & ? & ? & Hh). destruct (q_connection _ _ _ Q (rq_connection (request_at s r))) as (-> & _).
    split; [done|]. split; [done|]. split; [done|]. destruct Hh; [by left|]. destruct (Hst Ha); [by left|]. right; auto.
Qed.

Lemma quiet_keeps s s' : quiet x s s' -> inv_except x s -> inv_except x s'.
Proof.
  intros Q [Ha Hw]. split; [by eapply quiet_admission|].
  intros b. unfold waiting. rewrite (q_backend _ _ _ Q). apply Hw.
Qed.

Lemma inv_weaken s : http_inv s -> inv_except x s.
Proof.
  intros [[Hb Hc Hr] Hw]. split; [|done]. split; [done|done|]. intros r Ha.
  destruct (Hr r Ha) as (? & ? & ? & [|]); [done|]. auto.
Qed.

#[export] Instance quiet_preorder : PreOrder (quiet x).
Proof.
  split.
  - intros s. split; [done|done|]. intros r. auto.
  - intros s1 s2 s3 [B1 C1 R1] [B2 C2 R2]. split.
    + intros b. by rewrite B2, B1.
    + intros c. destruct (C1 c) as (<- & <- & E), (C2 c) as (-> & -> & F). auto.
    + intros r. destruct (R1 r) as (E1 & E2 & E3 & E4), (R2 r) as (F1 & F2 & F3 & F4).
      rewrite F1, F2, F3. split; [done|]. split; [done|]. split; [done|]. intros Ha.
      destruct (E4 Ha) as [|E]; [by left|]. destruct F4 as [|F]; [congruence|by left|]. auto.
Qed.

Lemma quiet_put_diag d s : quiet x s (put_diag d s).
Proof. split; [done|done|]. intros r. auto. Qed.

Lemma quiet_upd_connection p f s :
  (forall c, cn_backend (f c) = cn_backend c) -> (forall c, cn_slot_admitted (f c) = cn_slot_admitted c) ->
  (forall c, cn_state (f c) <> SL_HTTP_CONNECTION_STATE_CLOSED \/ cn_state (f c) = cn_state c) ->
  quiet x s (upd_connection p f s).
Proof.
  intros E1 E2 E3. split.
  - done.
  - intros c. store. case_decide as E; [subst|auto]. rewrite E1, E2. split; [done|]. split; [done|]. intros _.
    by destruct (E3 (connection_at s p)) as [| ->].
  - intros r. store. auto.
Qed.

Lemma quiet_upd_request p f s :
  let r := request_at s p in
  rq_connection (f r) = rq_connection r -> rq_admitted (f r) = rq_admitted r -> rq_id (f r) = rq_id r ->
  (rq_admitted r = true -> p = x \/ holds_slot (rq_state (f r)) = true \/ rq_state (f r) = rq_state r) ->
  quiet x s (upd_request p f s).
Proof.
  intros r E1 E2 E3 E4. split.
  - done.
  - done.
  - intros q. store. case_decide as E; [subst q|auto]. fold r.
    split; [done|]. split; [done|]. split; [done|]. intros Ha.
    destruct (E4 Ha) as [|[?|E]]; [by left|by right|]. right. by rewrite E.
Qed.

Lemma quiet_clear_diag d s : quiet x s (snd (clear_diag d s)).
Proof. unfold clear_diag. unfold_st. cbn. destruct (is_null d); [done|]. apply quiet_put_diag. Qed.

Lemma quiet_refusal `{ReadOnlyData} d code msg hint st s : quiet x s (snd (sl_http_backend_diag d code msg hint st s)).
Proof. unfold sl_http_backend_diag. destruct (is_null d); cbn; [done|]. apply quiet_put_diag. Qed.

Lemma quiet_after_terminal r f s :
  f <> SL_HTTP_CONNECTION_STATE_CLOSED -> quiet x s (sl_http_request_set_connection_after_stream_terminal r f s).
Proof.
  intros Hf. unfold sl_http_request_set_connection_after_stream_terminal. destruct (_ =? 0); [done|].
  destruct (_ && _); apply quiet_upd_connection; auto.
Qed.
End Quiet.

(** ** Steps that change the counters *)

Section Counters.
Context (x : Z).

Lemma size_zero (S : gset Z) : Z.of_nat (size S) = 0 <-> S = ∅.
Proof. split; [intros; apply leibniz_equiv, size_empty_iff; lia|intros ->; by rewrite size_empty]. Qed.

Lemma size_take_out (S : gset Z) k : k ∈ S -> Z.of_nat (size S) = Z.of_nat (size (S ∖ {[k]})) + 1.
Proof.
  intros H. rewrite (union_difference_singleton_L k S) at 1 by done.
  rewrite size_union, size_singleton by set_solver. lia.
Qed.

Lemma admission_put_backend p b s :
  admission_ok x s -> backend_ok (put_backend p b s) p -> admission_ok x (put_backend p b s).
Proof.
  intros [Hb Hc Hr] Hp. split; [|exact Hc|exact Hr]. intros q. destruct (decide (q = p)) as [->|E]; [done|].
  destruct (Hb q). split; rewrite ?backend_at_put; destruct (decide (q = p)); done.
Qed.

Lemma backend_ok_set_state p state l s :
  backend_ok s p -> (accepts_work state = false -> conns_of s p = ∅ /\ reqs_of s p = ∅) ->
  backend_ok (upd_backend p (be_set_state state l) s) p.
Proof.
  intros [] Hi. unfold upd_backend. split; rewrite ?backend_at_put; destruct (decide (p = p)); done.
Qed.

Lemma finish_stop_inv p s :
  p <> 0 -> admission_ok x s -> (forall b, b <> p -> waiting s b) -> inv_except x (sl_http_backend_maybe_finish_stop p s).
Proof.
  intros Hp Ha Hw. unfold sl_http_backend_maybe_finish_stop. pose proof (ad_backend _ _ Ha p) as Hb.
  destruct (Z.eqb_spec p 0) as [|_]; [done|]. cbn [negb andb]. unfold be_is.
  destruct (bool_decide_reflect (be_state (backend_at s p) = SL_HTTP_BACKEND_STATE_STOPPING)) as [E|E].
  2:{ split; [done|]. intros b. destruct (decide (b = p)) as [->|]; [by intro|auto]. }
  destruct (Z.eqb_spec (be_active_connections (backend_at s p)) 0) as [Ec|Ec].
  2:{ split; [done|]. intros b. destruct (decide (b = p)) as [->|]; [by intro; left|auto]. }
  destruct (Z.eqb_spec (be_active_requests (backend_at s p)) 0) as [Er|Er].
  2:{ split; [done|]. intros b. destruct (decide (b = p)) as [->|]; [by intro; right|auto]. }
  cbn [andb]. split.
  - apply admission_put_backend; [done|]. apply backend_ok_set_state; [done|]. intros _.
    rewrite <- !size_zero, <- (bk_connections _ _ Hb), <- (bk_requests _ _ Hb). done.
  - intros b. unfold waiting. store. case_decide; [done|]. by apply Hw.
Qed.

(** Replacing a request that leaves the sets of all others alone. *)
Lemma reqs_of_put_request p r s b :
  reqs_of (put_request p r s) b =
    if decide (rq_admitted r = true /\ cn_backend (connection_at s (rq_connection r)) = b)
    then reqs_of s b ∪ {[p]} else reqs_of s b ∖ {[p]}.
Proof.
  apply set_eq. intros q. rewrite elem_of_reqs, request_at_put, connection_at_put_request.
  destruct (decide (q = p)) as [->|E]; case_decide as D; rewrite ?elem_of_union, ?elem_of_difference, ?elem_of_singleton, ?elem_of_reqs; tauto.
Qed.

Lemma conns_of_put_connection p c s b :
  conns_of (put_connection p c s) b =
    if decide (cn_slot_admitted c = true /\ cn_backend c = b) then conns_of s b ∪ {[p]} else conns_of s b ∖ {[p]}.
Proof.
  apply set_eq. intros q. rewrite elem_of_conns, connection_at_put.
  destruct (decide (q = p)) as [->|E]; case_decide as D; rewrite ?elem_of_union, ?elem_of_difference, ?elem_of_singleton, ?elem_of_conns; tauto.
Qed.

Lemma reqs_of_put_connection p c s b :
  (forall r, rq_admitted (request_at s r) = true -> rq_connection (request_at s r) = p ->
             cn_backend c = cn_backend (connection_at s p)) ->
  reqs_of (put_connection p c s) b = reqs_of s b.
Proof.
  intros H. apply set_eq. intros q. rewrite !elem_of_reqs, connection_at_put, request_at_put_connection.
  case_decide as D; [|done]. rewrite D. split; intros [Ha Eb]; split; try done; [by rewrite <- (H q)|by rewrite (H q)].
Qed.

End Counters.

(** Giving back the slot of an admitted request. *)
Lemma release_admitted r s :
  inv_except r s -> rq_admitted (request_at s r) = true ->
  let p := cn_backend (connection_at s (rq_connection (request_at s r))) in
  let b := backend_at s p in
  let s' := upd_request r (rq_set_admitted false)
              (upd_backend p (be_set_requests (be_active_requests b - 1) (be_next_request_id b)) s) in
  0 < be_active_requests b /\ p <> 0 /\ admission_ok 0 s' /\ (forall q, q <> p -> waiting s' q).
Proof.
  intros [[Hb Hc Hr] Hw] Ha p b s'. destruct (Hr r Ha) as (Hr0 & Hcn & Hp & _). fold p in Hp.
  assert (Hin : r ∈ reqs_of s p) by (by apply elem_of_reqs).
  pose proof (size_take_out _ _ Hin) as Hsz. pose proof (bk_requests _ _ (Hb p)) as Hcount. fold b in Hcount.
  assert (Hreqs : forall q, reqs_of s' q = reqs_of s q ∖ {[r]}).
  { intros q. unfold s'. unfold upd_request. rewrite reqs_of_put_request, decide_False; [done|]. cbn. naive_solver. }
  assert (Hconns : forall q, conns_of s' q = conns_of s q) by done.
  assert (Hid : forall q, rq_id (request_at s' q) = rq_id (request_at s q)).
  { intros q. unfold s'. store. case_decide; [by subst|done]. }
  split; [lia|]. split; [done|]. split.
  - split.
    + intros q. destruct (Hb q) as [C R CL RL NC NR IDS UNI IDLE].
      split; rewrite ?Hreqs, ?Hconns; unfold s'; store.
      * case_decide; [subst|]; done.
      * case_decide as E; [subst q; cbn; lia|]. rewrite R. f_equal. f_equal.
        assert (r ∉ reqs_of s q); [|set_solver]. rewrite elem_of_reqs. fold p. intuition congruence.
      * case_decide; [subst|]; done.
      * case_decide; [subst; cbn|done]. unfold b in *. lia.
      * case_decide; [subst|]; done.
      * case_decide; [subst|]; done.
      * intros k Hk. fold s'. rewrite Hid. replace (be_next_request_id _) with (be_next_request_id (backend_at s q)).
        { apply IDS. set_solver. }
        case_decide; [by subst|done].
      * intros k k' Hk Hk'. fold s'. rewrite !Hid. apply UNI; set_solver.
      * intros E. destruct IDLE as [-> ->]; [|set_solver].
        by case_decide; subst.
    + exact Hc.
    + intros q. unfold s'. store. destruct (decide (q = r)) as [->|E]; [done|]. intros Haq.
      destruct (Hr q Haq) as (? & ? & ? & [|]); [done|]. auto.
  - intros q Hq. unfold waiting, s'. store. rewrite decide_False by done. apply Hw.
Qed.

Lemma release_inv r s : inv_except r s -> http_inv (sl_http_request_release_admission r s).
Proof.
  intros Hi. pose proof Hi as [[Hb Hc Hr] Hw]. unfold sl_http_request_release_admission.
  destruct (rq_admitted (request_at s r)) eqn:Ha; cbn [negb].
  - destruct (Hr r Ha) as (Hr0 & Hcn & Hp & _). destruct (release_admitted r s Hi Ha) as (Hpos & _ & Hok & Hwait).
    destruct (Z.eqb_spec r 0), (Z.eqb_spec (rq_connection (request_at s r)) 0),
      (Z.eqb_spec (cn_backend (connection_at s (rq_connection (request_at s r)))) 0); try done. cbn [orb negb andb].
    destruct (Z.ltb_spec 0 (be_active_requests (backend_at s (cn_backend (connection_at s (rq_connection (request_at s r)))))));
      [|lia]. by apply finish_stop_inv.
  - rewrite orb_true_r. cbn [orb]. split; [|done]. split; [done|done|]. intros q Hq.
    destruct (Hr q Hq) as (? & ? & ? & [->|]); [congruence|]. auto.
Qed.

Lemma request_at_finish_stop p s q : request_at (sl_http_backend_maybe_finish_stop p s) q = request_at s q.
Proof. unfold sl_http_backend_maybe_finish_stop. by destruct (_ && _). Qed.

Lemma release_request r s q :
  request_at (sl_http_request_release_admission r s) q =
    if decide (q = r /\ r <> 0 /\ rq_admitted (request_at s r) = true /\ rq_connection (request_at s r) <> 0)
    then rq_set_admitted false (request_at s r) else request_at s q.
Proof.
  unfold sl_http_request_release_admission.
  destruct (Z.eqb_spec r 0), (rq_admitted (request_at s r)) eqn:Ha, (Z.eqb_spec (rq_connection (request_at s r)) 0);
    cbn [orb negb]; try (rewrite decide_False by (intros (? & ? & ? & ?); congruence); done).
  rewrite request_at_finish_stop. destruct (_ && _); store; case_decide as E; subst; first [rewrite decide_True by tauto | rewrite decide_False by tauto]; done.
Qed.

Lemma released r s : inv_except r s -> rq_admitted (request_at (sl_http_request_release_admission r s) r) = false.
Proof.
  intros [Ha _]. rewrite release_request. case_decide as D; [done|].
  destruct (rq_admitted (request_at s r)) eqn:E; [|done].
  destruct D. destruct (ad_request _ _ Ha r E) as (? & ? & _). done.
Qed.

Lemma release_keeps_request r s q :
  rq_state (request_at (sl_http_request_release_admission r s) q) = rq_state (request_at s q) /\
  rq_head (request_at (sl_http_request_release_admission r s) q) = rq_head (request_at s q).
Proof. rewrite release_request. case_decide as D; [|done]. by destruct D as [-> _]. Qed.

Lemma finish_stop_null s : sl_http_backend_maybe_finish_stop 0 s = s.
Proof. done. Qed.

(** Giving back the slot of a connection that holds one. *)
Lemma release_slot_admitted c f s :
  http_inv s -> cn_slot_admitted (connection_at s c) = true ->
  (forall o, cn_slot_admitted (f o) = false) -> (forall o, cn_backend (f o) = cn_backend o) ->
  let p := cn_backend (connection_at s c) in
  let b := backend_at s p in
  let s' := if negb (p =? 0) && true && (0 <? be_active_connections b)
            then upd_backend p (be_set_connections (be_active_connections b - 1) (be_next_connection_id b)) s else s in
  http_inv (sl_http_backend_maybe_finish_stop p (upd_connection c f s')).
Proof.
  intros [[Hb Hc Hr] Hw] Ha F1 F2 p b. destruct (Hc c Ha) as (Hc0 & Hp & _). fold p in Hp.
  assert (Hin : c ∈ conns_of s p) by (by apply elem_of_conns).
  pose proof (size_take_out _ _ Hin) as Hsz. pose proof (bk_connections _ _ (Hb p)) as Hcount. fold b in Hcount.
  destruct (Z.eqb_spec p 0); [done|]. destruct (Z.ltb_spec 0 (be_active_connections b)); [|lia]. cbn [negb andb].
  set (s' := upd_connection c _ _).
  assert (Hconns : forall q, conns_of s' q = conns_of s q ∖ {[c]}).
  { intros q. unfold s', upd_connection. rewrite conns_of_put_connection, decide_False; [done|]. rewrite F1. naive_solver. }
  assert (Hreqs : forall q, reqs_of s' q = reqs_of s q).
  { intros q. unfold s', upd_connection. rewrite reqs_of_put_connection; [done|]. intros. by rewrite F2. }
  apply finish_stop_inv; [done| |].
  - split.
    + intros q. destruct (Hb q) as [C R CL RL NC NR IDS UNI IDLE].
      split; rewrite ?Hreqs, ?Hconns; unfold s'; store; try (case_decide; subst; done).
      * case_decide as E; [subst q; cbn; lia|]. rewrite C. f_equal. f_equal.
        assert (c ∉ conns_of s q); [|set_solver]. rewrite elem_of_conns. fold p. intuition congruence.
      * case_decide; [subst; cbn|done]. unfold b in *. lia.
      * intros r r'. store. apply UNI.
      * intros E. destruct IDLE as [-> ->]; [|set_solver]. by case_decide; subst.
    + intros q. unfold s'. store. case_decide; [by rewrite F1|]. apply Hc.
    + intros r. unfold s'. store. intros E. destruct (Hr r E) as (? & ? & ? & ?).
      case_decide as D; [rewrite F2, <- D|]; auto.
  - intros q Hq. unfold waiting, s'. store. rewrite decide_False by done. apply Hw.
Qed.

(** The state is overwritten together with the slot. *)
Lemma release_slot_once c state s :
  let p := cn_backend (connection_at s c) in
  let b := backend_at s p in
  release_slot c state s =
    sl_http_backend_maybe_finish_stop p
      (upd_connection c (fun o => cn_set_slot false (cn_set_state state o))
         (if negb (p =? 0) && cn_slot_admitted (connection_at s c) && (0 <? be_active_connections b)
          then upd_backend p (be_set_connections (be_active_connections b - 1) (be_next_connection_id b)) s else s)).
Proof.
  intros p b. unfold release_slot. fold p. unfold upd_connection, upd_backend.
  rewrite !connection_at_put, decide_True, backend_at_put_connection by done. cbn [cn_slot_admitted cn_set_state]. fold b.
  f_equal. destruct (_ && _); unfold put_connection, put_backend; cbn; f_equal.
  all: unfold connection_at; cbn; by rewrite lookup_total_insert_eq, insert_insert_eq.
Qed.

(** Giving back the slot of a connection. *)
Lemma release_slot_inv c state s : http_inv s -> http_inv (release_slot c state s).
Proof.
  intros Hi. rewrite release_slot_once. cbv zeta. set (p := cn_backend (connection_at s c)).
  destruct (cn_slot_admitted (connection_at s c)) eqn:Ha.
  - by apply (release_slot_admitted c (fun o => cn_set_slot false (cn_set_state state o)) s Hi Ha).
  - rewrite andb_false_r. cbn [andb].
    set (s1 := upd_connection c _ s).
    assert (Q : quiet 0 s s1).
    { split; [done| |intros r; unfold s1; store; auto]. intros q. unfold s1. store. case_decide; [subst|auto].
      rewrite Ha. cbn. split; [done|]. split; [done|]. congruence. }
    apply (quiet_keeps _ _ _ Q) in Hi. destruct (Z.eqb_spec p 0) as [->|Hp]; [by rewrite finish_stop_null|].
    destruct Hi as [Hok Hw]. apply finish_stop_inv; auto.
Qed.

(** Storage handed over as an out-parameter is not in use. *)
Definition free_connection (s : HttpSys) (c : Z) : Prop :=
  cn_slot_admitted (connection_at s c) = false /\
  forall r, rq_admitted (request_at s r) = true -> rq_connection (request_at s r) <> c.
Definition free_request (s : HttpSys) (r : Z) : Prop := rq_admitted (request_at s r) = false.
Definition free_backend (s : HttpSys) (b : Z) : Prop := conns_of s b = ∅ /\ reqs_of s b = ∅.

Lemma put_zero_connection_inv c s : http_inv s -> free_connection s c -> http_inv (put_connection c zero_connection s).
Proof.
  intros [[Hb Hc Hr] Hw] [Hf Hu]. split; [|exact Hw].
  assert (Hreqs : forall q, reqs_of (put_connection c zero_connection s) q = reqs_of s q).
  { intros q. apply reqs_of_put_connection. intros r Ha E. by destruct (Hu r Ha). }
  assert (Hconns : forall q, conns_of (put_connection c zero_connection s) q = conns_of s q).
  { intros q. rewrite conns_of_put_connection, decide_False by naive_solver.
    assert (c ∉ conns_of s q); [|set_solver]. rewrite elem_of_conns. intuition congruence. }
  split.
  - intros q. destruct (Hb q). by split; rewrite ?Hreqs, ?Hconns.
  - intros q. store. case_decide; [done|apply Hc].
  - intros r. store. intros Ha. rewrite decide_False by auto. by apply Hr.
Qed.

Lemma put_zero_request_inv r s : http_inv s -> free_request s r -> http_inv (put_request r zero_request s).
Proof.
  intros [[Hb Hc Hr] Hw] Hf. split; [|exact Hw].
  assert (Hreqs : forall q, reqs_of (put_request r zero_request s) q = reqs_of s q).
  { intros q. rewrite reqs_of_put_request, decide_False by naive_solver.
    assert (r ∉ reqs_of s q); [|set_solver]. rewrite elem_of_reqs. unfold free_request in Hf. intuition congruence. }
  assert (Hne : forall q k, k ∈ reqs_of s q -> k <> r).
  { intros q k Hk ->. apply elem_of_reqs in Hk as [Hk _]. unfold free_request in Hf. congruence. }
  split.
  - intros q. destruct (Hb q) as [? ? ? ? ? ? IDS UNI ?]. split; rewrite ?Hreqs; try done.
    + intros k Hk. store. rewrite decide_False by eauto. by apply IDS.
    + intros k k' Hk Hk'. store. rewrite !decide_False by eauto. by apply UNI.
  - exact Hc.
  - intros q. store. case_decide; [done|apply Hr].
Qed.

(** A free connection takes a slot. *)
Lemma take_slot_inv p c o s :
  http_inv s -> free_connection s c -> p <> 0 -> c <> 0 -> cn_slot_admitted o = true -> cn_backend o = p ->
  cn_state o <> SL_HTTP_CONNECTION_STATE_CLOSED ->
  be_state (backend_at s p) = SL_HTTP_BACKEND_STATE_STARTED ->
  be_active_connections (backend_at s p) < bo_max_connections (be_options (backend_at s p)) ->
  be_next_connection_id (backend_at s p) <> UINT64_MAX ->
  let b := backend_at s p in
  http_inv (upd_backend p (be_set_connections (wrap64 (be_active_connections b + 1)) (wrap64 (be_next_connection_id b + 1)))
              (put_connection c o s)).
Proof.
  intros [[Hb Hc Hr] Hw] [Hf Hu] Hp Hc0 Ho <- Hcl Hst Hlim Hid b. set (p := cn_backend o) in *.
  pose proof (Hb p) as [C0 R0 CL0 RL0 NC0 NR0 _ _ _].
  assert (Ea : wrap64 (be_active_connections b + 1) = be_active_connections b + 1).
  { apply wrap64_small. unfold b. size_lia. }
  assert (En : wrap64 (be_next_connection_id b + 1) = be_next_connection_id b + 1).
  { apply wrap64_small. unfold b. unfold UINT64_MAX in *. size_lia. }
  rewrite Ea, En. set (s' := upd_backend _ _ _).
  assert (Hconns : forall q, conns_of s' q = if decide (q = p) then conns_of s q ∪ {[c]} else conns_of s q).
  { intros q. change (conns_of s' q) with (conns_of (put_connection c o s) q). rewrite conns_of_put_connection.
    case_decide as D; case_decide; try tauto; [naive_solver|naive_solver|].
    assert (c ∉ conns_of s q); [|set_solver]. rewrite elem_of_conns. intuition congruence. }
  assert (Hreqs : forall q, reqs_of s' q = reqs_of s q).
  { intros q. change (reqs_of s' q) with (reqs_of (put_connection c o s) q).
    apply reqs_of_put_connection. intros r Ha E. by destruct (Hu r Ha). }
  assert (Hnew : c ∉ conns_of s p) by (rewrite elem_of_conns; intuition congruence).
  split.
  - split.
    + intros q. destruct (Hb q) as [C R CL RL NC NR IDS UNI IDLE].
      split; rewrite ?Hreqs, ?Hconns; unfold s'; store; try (case_decide; subst; done).
      * case_decide; [subst q|done]. cbn. rewrite size_union, size_singleton by set_solver. unfold b. lia.
      * case_decide; [subst; cbn|done]. unfold b. lia.
      * case_decide; [subst; cbn|done]. unfold b, UINT64_MAX in *. lia.
      * intros r r'. store. apply UNI.
      * case_decide; [subst q; cbn; unfold b; by rewrite Hst|done].
    + intros q. unfold s'. store. case_decide; [by subst|apply Hc].
    + intros r. unfold s'. store. intros Ha. rewrite decide_False by auto. by apply Hr.
  - intros q. unfold waiting, s'. store. case_decide; [cbn; unfold b; congruence|apply Hw].
Qed.

(** A free request is admitted. *)
Lemma take_admission_inv p r o s :
  http_inv s -> free_request s r -> r <> 0 -> rq_admitted o = true -> rq_connection o <> 0 ->
  cn_backend (connection_at s (rq_connection o)) = p -> p <> 0 -> holds_slot (rq_state o) = true ->
  rq_id o = be_next_request_id (backend_at s p) ->
  be_state (backend_at s p) = SL_HTTP_BACKEND_STATE_STARTED ->
  be_active_requests (backend_at s p) < bo_max_active_requests (be_options (backend_at s p)) ->
  be_next_request_id (backend_at s p) <> UINT64_MAX ->
  let b := backend_at s p in
  http_inv (put_request r o
    (upd_backend p (be_set_requests (wrap64 (be_active_requests b + 1)) (wrap64 (be_next_request_id b + 1))) s)).
Proof.
  intros [[Hb Hc Hr] Hw] Hf Hr0 Ho Hcn Ep Hp Hh Hoid Hst Hlim Hid b.
  pose proof (Hb p) as [C0 R0 CL0 RL0 NC0 NR0 IDS0 _ _].
  assert (Ea : wrap64 (be_active_requests b + 1) = be_active_requests b + 1).
  { apply wrap64_small. unfold b. size_lia. }
  assert (En : wrap64 (be_next_request_id b + 1) = be_next_request_id b + 1).
  { apply wrap64_small. unfold b. unfold UINT64_MAX in *. size_lia. }
  rewrite Ea, En. set (s' := put_request _ _ _).
  assert (Hnew : forall q, r ∉ reqs_of s q) by (intros q; rewrite elem_of_reqs; unfold free_request in Hf; intuition congruence).
  assert (Hreqs : forall q, reqs_of s' q = if decide (q = p) then reqs_of s q ∪ {[r]} else reqs_of s q).
  { intros q. unfold s'. rewrite reqs_of_put_request. store. specialize (Hnew q).
    case_decide as D; case_decide; try tauto; [naive_solver|naive_solver|]. change (reqs_of s q ∖ {[r]} = reqs_of s q). set_solver. }
  assert (Hconns : forall q, conns_of s' q = conns_of s q) by done.
  split.
  - split.
    + intros q. destruct (Hb q) as [C R CL RL NC NR IDS UNI IDLE]. specialize (Hnew q).
      split; rewrite ?Hreqs, ?Hconns; unfold s'; store; try (case_decide; subst; done).
      * case_decide; [subst q|done]. cbn. rewrite size_union, size_singleton by set_solver. unfold b. lia.
      * case_decide; [subst q; cbn|done]. unfold b. lia.
      * case_decide; [subst q; cbn|done]. unfold b, UINT64_MAX in *. lia.
      * intros k Hk. store. case_decide as D; [subst q|rewrite decide_False by set_solver; by apply IDS]. cbn.
        case_decide; [unfold b; lia|]. unfold b. specialize (IDS k ltac:(set_solver)). lia.
      * intros k k' Hk Hk'. store. case_decide as D; [subst q|rewrite !decide_False by set_solver; by apply UNI].
        destruct (decide (k = r)) as [->|], (decide (k' = r)) as [->|]; try done.
        -- specialize (IDS k' ltac:(set_solver)). lia.
        -- specialize (IDS k ltac:(set_solver)). lia.
        -- apply UNI; set_solver.
      * case_decide; [subst q; cbn; unfold b; by rewrite Hst|done].
    + exact Hc.
    + intros q. unfold s'. store. case_decide; [|apply Hr]. intros _. subst q. rewrite Ep. auto.
  - intros q. unfold waiting, s'. store. case_decide; [cbn; unfold b; congruence|apply Hw].
Qed.

(** ** Every operation keeps the accounts *)

Lemma refuse_keeps `{ReadOnlyData} x d code msg hint st s :
  inv_except x s -> inv_except x (snd (refuse (A := unit) (sl_http_backend_diag d code msg hint st) s)).
Proof.
  intros Hi. unfold refuse. pose proof (quiet_refusal x d code msg hint st s) as Q.
  destruct (sl_http_backend_diag d code msg hint st s) as [c s']. exact (quiet_keeps _ _ _ Q Hi).
Qed.

Lemma cleared_inv d s : http_inv s -> http_inv (if is_null d then s else put_diag zero_diag s).
Proof. exact (quiet_keeps _ _ _ (quiet_clear_diag 0 d s)). Qed.

(** Runs an operation to its next test or its end; refusals only write the diagnostic. *)
Ltac walk_step :=
  match goal with
  | |- context [if is_null ?d then ?s else put_diag zero_diag ?s] =>
      let s' := fresh "s" in
      pose proof (cleared_inv d s ltac:(assumption)) as ?;
      set (s' := if is_null d then s else put_diag zero_diag s) in *; clearbody s'
  | |- inv_except _ (snd (refuse _ _)) => apply refuse_keeps; try assumption
  | |- inv_except _ (snd ((if ?b then _ else _) _)) => destruct b eqn:?; cbn beta iota
  end.
Ltac walk :=
  unfold_st; unfold clear_diag in *; unfold_st; unfold http_inv in *; cbn beta iota;
  repeat walk_step; cbn [snd]; try assumption.

Lemma set_state_inv p state l s :
  http_inv s -> (accepts_work state = false -> free_backend s p) -> state <> SL_HTTP_BACKEND_STATE_STOPPING ->
  http_inv (upd_backend p (be_set_state state l) s).
Proof.
  intros [Ha Hw] Hf Hs. split.
  - apply admission_put_backend; [done|]. apply backend_ok_set_state; [apply Ha|done].
  - intros q. unfold waiting. store. case_decide; [done|apply Hw].
Qed.

Lemma idle_free s p :
  http_inv s -> be_active_connections (backend_at s p) = 0 -> be_active_requests (backend_at s p) = 0 -> free_backend s p.
Proof.
  intros [Ha _] Ec Er. unfold free_backend.
  by rewrite <- !size_zero, <- (bk_connections _ _ (ad_backend _ _ Ha p)), <- (bk_requests _ _ (ad_backend _ _ Ha p)).
Qed.

(** A request gets a final state and gives its slot back. *)
Lemma terminal_cancel_inv r state s : http_inv s -> http_inv (sl_http_request_terminal_cancel r state s).
Proof.
  intros Hi. unfold sl_http_request_terminal_cancel. destruct (r =? 0); [done|]. apply release_inv.
  apply (quiet_keeps r (upd_request r (rq_set_state state) s)).
  { destruct (negb _); [apply quiet_upd_connection; auto|done]. }
  eapply quiet_keeps; [|by apply inv_weaken]. apply quiet_upd_request; try done. auto.
Qed.

Lemma final_state_inv r state fallback s :
  http_inv s -> fallback <> SL_HTTP_CONNECTION_STATE_CLOSED ->
  http_inv (sl_http_request_release_admission r
    (sl_http_request_set_connection_after_stream_terminal r fallback (upd_request r (rq_set_state state) s))).
Proof.
  intros Hi Hf. apply release_inv. eapply quiet_keeps; [by apply quiet_after_terminal|].
  eapply quiet_keeps; [|by apply inv_weaken]. apply quiet_upd_request; try done. auto.
Qed.

Section Keeps.
Context {RO : ReadOnlyData}.

Lemma init_inv p o d s :
  http_inv s -> free_backend s p ->
  is_size (bo_max_connections (sl_http_backend_options_init o)) ->
  is_size (bo_max_active_requests (sl_http_backend_options_init o)) ->
  http_inv (snd (sl_http_backend_init p o d s)).
Proof.
  intros Hi Hf Hm1 Hm2. unfold sl_http_backend_init.
  assert (Hf' : free_backend (if is_null d then s else put_diag zero_diag s) p) by (by destruct (is_null d)).
  walk. destruct Hf' as [Hc Hr]. set (b := Build_SlHttpBackend _ _ _ _ _ _ _).
  assert (E : backend_at (put_backend p b s0) p = b) by (store; by rewrite decide_True).
  assert (Hc' : conns_of (put_backend p b s0) p = ∅) by exact Hc.
  assert (Hr' : reqs_of (put_backend p b s0) p = ∅) by exact Hr.
  split.
  - apply admission_put_backend; [apply H|].
    split; rewrite ?E, ?Hc', ?Hr', ?size_empty; cbn [b be_active_connections be_active_requests be_options be_next_connection_id
      be_next_request_id be_state]; try done; try set_solver; unfold UINT64_MAX; size_lia.
  - intros q. unfold waiting. rewrite backend_at_put. destruct (decide (q = p)); [done|apply H].
Qed.

Lemma start_inv p platform d s : http_inv s -> http_inv (snd (sl_http_backend_start p platform d s)).
Proof. intros Hi. unfold sl_http_backend_start. walk. by apply set_state_inv. Qed.

Lemma stop_inv p d s : http_inv s -> http_inv (snd (sl_http_backend_stop p d s)).
Proof.
  intros Hi. unfold sl_http_backend_stop. walk. destruct (Z.eqb_spec p 0); [done|]. destruct H as [Ha Hw].
  apply finish_stop_inv; [done| |].
  - apply admission_put_backend; [done|]. by apply backend_ok_set_state; [apply Ha|].
  - intros q Hq. unfold waiting. store. rewrite decide_False by done. apply Hw.
Qed.

Lemma dispose_inv p d s : http_inv s -> http_inv (snd (sl_http_backend_dispose p d s)).
Proof.
  intros Hi. unfold sl_http_backend_dispose. walk. apply set_state_inv; [done| |done]. intros _.
  destruct (Z.eqb_spec (be_active_connections (backend_at s0 p)) 0), (Z.eqb_spec (be_active_requests (backend_at s0 p)) 0);
    try done. by apply idle_free.
Qed.

Lemma accept_inv p c d s :
  http_inv s -> free_connection s c -> http_inv (snd (sl_http_backend_accept_connection p c d s)).
Proof.
  intros Hi Hf. unfold sl_http_backend_accept_connection.
  assert (Hf' : free_connection (if is_null d then s else put_diag zero_diag s) c) by (by destruct (is_null d)).
  walk; pose proof (put_zero_connection_inv _ _ H Hf') as H'; try done.
  set (s1 := put_connection c zero_connection s0) in *.
  assert (Hf1 : free_connection s1 c).
  { unfold s1. split; [rewrite connection_at_put; by rewrite decide_True|apply Hf']. }
  unfold be_is in *. rewrite !negb_false_iff, bool_decide_eq_true in *.
  destruct (Z.eqb_spec c 0), (Z.eqb_spec p 0), (Z.leb_spec (bo_max_connections (be_options (backend_at s1 p))) (be_active_connections (backend_at s1 p))),
    (Z.eqb_spec (be_next_connection_id (backend_at s1 p)) UINT64_MAX); try done.
  by apply take_slot_inv.
Qed.

Lemma connection_close_inv c d s : http_inv s -> http_inv (snd (sl_http_connection_close c d s)).
Proof.
  intros Hi. unfold sl_http_connection_close. walk. by apply release_slot_inv.
Qed.

Lemma connection_fail_inv c d s : http_inv s -> http_inv (snd (sl_http_connection_fail c d s)).
Proof.
  intros Hi. unfold sl_http_connection_fail. walk. by apply release_slot_inv.
Qed.

Lemma begin_inv c a r d s : http_inv s -> free_request s r -> http_inv (snd (sl_http_request_begin c a r d s)).
Proof.
  intros Hi Hf. unfold sl_http_request_begin.
  assert (Hf' : free_request (if is_null d then s else put_diag zero_diag s) r) by (by destruct (is_null d)).
  walk; pose proof (put_zero_request_inv _ _ H Hf') as H'; try done.
  set (s1 := put_request r zero_request s0) in *.
  assert (Hf1 : free_request s1 r) by (unfold free_request, s1; rewrite request_at_put; by rewrite decide_True).
  set (p := cn_backend (connection_at s1 c)) in *.
  unfold sl_http_connection_can_begin_request, be_is in *. fold p in Heqb3.
  rewrite !negb_false_iff in *. clearbody s1.
  destruct (Z.eqb_spec r 0), (Z.eqb_spec c 0), (Z.eqb_spec p 0), (Z.leb_spec (bo_max_active_requests (be_options (backend_at s1 p))) (be_active_requests (backend_at s1 p))),
    (Z.eqb_spec (be_next_request_id (backend_at s1 p)) UINT64_MAX); try done.
  destruct (bool_decide_reflect (be_state (backend_at s1 p) = SL_HTTP_BACKEND_STATE_STARTED)) as [Hst|];
    [|by rewrite !orb_true_r in Heqb3].
  set (s2 := upd_connection c (cn_set_state SL_HTTP_CONNECTION_STATE_READING_REQUEST)
               (upd_connection c (cn_set_count (wrap64 (cn_request_count (connection_at s1 c) + 1))) s1)).
  assert (Q : quiet 0 s1 s2) by (etrans; apply quiet_upd_connection; auto).
  set (o := Build_SlHttpRequestLifecycle _ _ _ _ _ _ _ _).
  refine (take_admission_inv p r o s2 (quiet_keeps _ _ _ Q H') _ n _ n0 _ n1 _ _ Hst H0 n2); try done.
  by destruct (q_connection _ _ _ Q c).
Qed.

Lemma parse_head_inv parser r bytes d s : http_inv s -> http_inv (snd (sl_http_request_parse_head parser r bytes d s)).
Proof.
  intros Hi. unfold sl_http_request_parse_head. walk.
  destruct (parser _ _ _ _) as [[status head] diag]. cbn beta iota.
  set (s1 := upd_connection _ _ s0).
  assert (Q1 : quiet 0 s0 s1) by (apply quiet_upd_connection; auto).
  set (s2 := if is_null d then s1 else put_diag diag s1).
  assert (Q2 : quiet 0 s1 s2) by (unfold s2; destruct (is_null d); [done|apply quiet_put_diag]).
  set (s3 := upd_request r (rq_set_head head) s2).
  assert (Q3 : quiet 0 s2 s3) by (apply quiet_upd_request; auto).
  assert (Q : quiet 0 s0 s3) by (by repeat (etrans; [eassumption|])).
  clearbody s3. walk; cbn [snd]; (eapply quiet_keeps; [|exact H]); (etrans; [exact Q|]).
  - etrans; [|apply quiet_upd_connection; auto]. apply quiet_upd_request; auto.
  - apply quiet_upd_request; auto.
Qed.

Lemma begin_dispatch_inv r d s : http_inv s -> http_inv (snd (sl_http_request_begin_dispatch r d s)).
Proof.
  intros Hi. unfold sl_http_request_begin_dispatch. cbv zeta. walk; try by apply terminal_cancel_inv.
  eapply quiet_keeps; [|exact H]. etrans; [|apply quiet_upd_connection; auto]. apply quiet_upd_request; auto.
Qed.

Lemma begin_write_inv r d s : http_inv s -> http_inv (snd (sl_http_request_begin_write r d s)).
Proof.
  intros Hi. unfold sl_http_request_begin_write. walk.
  eapply quiet_keeps; [|exact H]. etrans; [|apply quiet_upd_connection; auto]. apply quiet_upd_request; auto.
Qed.

Lemma complete_inv r d s : http_inv s -> http_inv (snd (sl_http_request_complete r d s)).
Proof. intros Hi. unfold sl_http_request_complete. walk. apply final_state_inv; [done|by destruct (_ && _)]. Qed.

Lemma fail_inv r d s : http_inv s -> http_inv (snd (sl_http_request_fail r d s)).
Proof. intros Hi. unfold sl_http_request_fail. walk. by apply final_state_inv. Qed.

Lemma cancel_token_inv r reason detail s : http_inv s -> http_inv (snd (cancel_token r reason detail s)).
Proof.
  intros Hi. unfold cancel_token, on_error, on_token, zoom.
  destruct (sl_cancellation_token_cancel _ _ _ _) as [[[]|e] t].
  all: assert (Hi' : http_inv (upd_request r (rq_set_token t) s))
         by (eapply quiet_keeps; [|exact Hi]; apply quiet_upd_request; auto).
  - done.
  - by destruct (bool_decide _).
Qed.

(** After the token is cancelled, the request ends. *)
Lemma cancelled_inv r reason detail (k : ST HttpSys unit) s :
  http_inv s -> (forall s, http_inv s -> http_inv (snd (k s))) -> http_inv (snd ((cancel_token r reason detail ;; k) s)).
Proof.
  intros Hi Hk. pose proof (cancel_token_inv r reason detail s Hi) as H. unfold_st.
  destruct (cancel_token r reason detail s) as [[[]|e] s']; cbn in *; auto.
Qed.

Lemma cancel_inv r reason detail d s : http_inv s -> http_inv (snd (sl_http_request_cancel r reason detail d s)).
Proof.
  intros Hi. unfold sl_http_request_cancel. walk. apply cancelled_inv; [done|]. clear. intros s Hi.
  walk; by apply terminal_cancel_inv.
Qed.

Lemma timeout_inv r detail d s : http_inv s -> http_inv (snd (sl_http_request_timeout r detail d s)).
Proof.
  intros Hi. unfold sl_http_request_timeout. walk. apply cancelled_inv; [done|]. clear. intros s Hi.
  walk; by apply terminal_cancel_inv.
Qed.

Lemma request_close_inv r d s : http_inv s -> http_inv (snd (sl_http_request_close r d s)).
Proof.
  intros Hi. unfold sl_http_request_close. walk.
  pose proof (release_inv r s0 (inv_weaken r s0 H)) as Hi'. set (s1 := sl_http_request_release_admission r s0) in *.
  assert (Ha : rq_admitted (request_at s1 r) = false) by (by apply released, inv_weaken).
  clearbody s1. eapply quiet_keeps; [|exact Hi']. etrans; [|apply quiet_upd_request; auto].
  apply quiet_upd_request; auto. congruence.
Qed.

Lemma set_multiplexing_inv c enabled s : http_inv s -> http_inv (sl_http_connection_set_multiplexing c enabled s).
Proof.
  intros Hi. unfold sl_http_connection_set_multiplexing. destruct (c =? 0); [done|].
  eapply quiet_keeps; [|exact Hi]. apply quiet_upd_connection; auto.
Qed.
End Keeps.
