(* ===== verification/HttpAdmission.v ===== *)
(** Executions of the HTTP backend (src/core/http_backend.c): sequences of calls on
    shared backends, connections and requests.

    [http_call] lists the entry points; [http_step] is one call in any state in which
    its out-parameters are storage that is not in use.  The theorems are about every
    reachable store, whatever the interleaving of connections and requests. *)

From stdpp Require Import strings gmap.
From S2P Require Import Prelude Memory Status Arena Str Bytes Async Diag HttpResponse HttpBackend.

Open Scope Z_scope.

(** * Calls *)

Inductive http_call :=
| CallBackendInit (backend : Z) (options : option SlHttpBackendOptions)
| CallBackendStart (backend platform : Z)
| CallBackendStop (backend : Z)
| CallBackendDispose (backend : Z)
| CallAccept (backend out_connection : Z)
| CallConnectionClose (connection : Z)
| CallConnectionFail (connection : Z)
| CallSetMultiplexing (connection : Z) (enabled : bool)
| CallRequestBegin (connection arena out_request : Z)
| CallParseHead (request : Z) (bytes : SlBytes)
| CallBeginDispatch (request : Z)
| CallBeginWrite (request : Z)
| CallComplete (request : Z)
| CallFail (request : Z)
| CallCancel (request : Z) (reason : SlCancellationReason) (detail : SlStr)
| CallShutdown (request : Z)
| CallTimeout (request : Z) (detail : SlStr)
| CallRequestClose (request : Z).

Section Calls.
Context {RO : ReadOnlyData} (parser : HeadParser).

Definition run_call (d : nullable) (c : http_call) : ST HttpSys unit :=
  match c with
  | CallBackendInit b o => sl_http_backend_init b o d
  | CallBackendStart b p => sl_http_backend_start b p d
  | CallBackendStop b => sl_http_backend_stop b d
  | CallBackendDispose b => sl_http_backend_dispose b d
  | CallAccept b c => sl_http_backend_accept_connection b c d
  | CallConnectionClose c => sl_http_connection_close c d
  | CallConnectionFail c => sl_http_connection_fail c d
  | CallSetMultiplexing c e => modify (sl_http_connection_set_multiplexing c e)
  | CallRequestBegin c a r => sl_http_request_begin c a r d
  | CallParseHead r bytes => sl_http_request_parse_head parser r bytes d
  | CallBeginDispatch r => sl_http_request_begin_dispatch r d
  | CallBeginWrite r => sl_http_request_begin_write r d
  | CallComplete r => sl_http_request_complete r d
  | CallFail r => sl_http_request_fail r d
  | CallCancel r reason detail => sl_http_request_cancel r reason detail d
  | CallShutdown r => sl_http_request_shutdown r d
  | CallTimeout r detail => sl_http_request_timeout r detail d
  | CallRequestClose r => sl_http_request_close r d
  end.

(** The callers' side of the contract: objects are not re-initialised while something
    still points to them, and sizes are sizes. *)
Definition callable (s : HttpSys) (c : http_call) : Prop :=
  match c with
  | CallBackendInit b o =>
      free_backend s b /\ is_size (bo_max_connections (sl_http_backend_options_init o)) /\
      is_size (bo_max_active_requests (sl_http_backend_options_init o))
  | CallAccept _ c => free_connection s c
  | CallRequestBegin _ _ r => free_request s r
  | _ => True
  end.

Definition http_step (s s' : HttpSys) : Prop := exists d c, callable s c /\ s' = snd (run_call d c s).

Definition empty_store : HttpSys := {| hs_backends := ∅; hs_connections := ∅; hs_requests := ∅; hs_diag := zero_diag |}.

Lemma empty_store_inv : http_inv empty_store.
Proof.
  assert (Ec : forall b, conns_of empty_store b = ∅) by (intros; apply set_eq; intros; rewrite elem_of_conns; set_solver).
  assert (Er : forall b, reqs_of empty_store b = ∅) by (intros; apply set_eq; intros; rewrite elem_of_reqs; set_solver).
  split; [|done]. split; [|done|done]. intros b. split; rewrite ?Ec, ?Er; try done; set_solver.
Qed.

Lemma run_call_inv d c s : callable s c -> http_inv s -> http_inv (snd (run_call d c s)).
Proof.
  intros Hok Hi. destruct c; cbn [run_call callable] in *.
  - destruct Hok as (? & ? & ?). by apply init_inv.
  - by apply start_inv.
  - by apply stop_inv.
  - by apply dispose_inv.
  - by apply accept_inv.
  - by apply connection_close_inv.
  - by apply connection_fail_inv.
  - by apply set_multiplexing_inv.
  - by apply begin_inv.
  - by apply parse_head_inv.
  - by apply begin_dispatch_inv.
  - by apply begin_write_inv.
  - by apply complete_inv.
  - by apply fail_inv.
  - by apply cancel_inv.
  - by apply cancel_inv.
  - by apply timeout_inv.
  - by apply request_close_inv.
Qed.

Lemma steps_inv s s' : http_inv s -> rtc http_step s s' -> http_inv s'.
Proof. intros Hi. induction 1 as [|s1 s2 s3 (d & c & Hok & ->) _ IH]; [done|]. by apply IH, run_call_inv. Qed.

Lemma reachable_inv s : rtc http_step empty_store s -> http_inv s.
Proof. apply steps_inv, empty_store_inv. Qed.

(** * Draining *)

(** What closing does to the backend [b]: nothing is added, and a shutdown is not undone. *)
Record drains (b : Z) (s s' : HttpSys) : Prop := {
  dr_state : be_state (backend_at s b) = SL_HTTP_BACKEND_STATE_STOPPING \/ be_state (backend_at s b) = SL_HTTP_BACKEND_STATE_STOPPED ->
    be_state (backend_at s' b) = SL_HTTP_BACKEND_STATE_STOPPING \/ be_state (backend_at s' b) = SL_HTTP_BACKEND_STATE_STOPPED;
  dr_conns : conns_of s' b ⊆ conns_of s b;
  dr_reqs : reqs_of s' b ⊆ reqs_of s b;
}.

#[local] Instance drains_preorder b : PreOrder (drains b).
Proof.
  split; [by split|]. intros s1 s2 s3 [A1 B1 C1] [A2 B2 C2]. split; [auto|by etrans|by etrans].
Qed.

Lemma drains_put_diag b d s : drains b s (put_diag d s).
Proof. by split. Qed.

Lemma drains_upd_backend b p f s :
  (forall o, be_state (f o) = be_state o \/ be_state (f o) = SL_HTTP_BACKEND_STATE_STOPPED) ->
  drains b s (upd_backend p f s).
Proof.
  intros F. split; [|done|done]. store. case_decide; [subst|done]. destruct (F (backend_at s p)) as [->|E]; [done|].
  by right.
Qed.

Lemma drains_upd_connection b p f s :
  (forall o, cn_backend (f o) = cn_backend o) -> (forall o, cn_slot_admitted (f o) = true -> cn_slot_admitted o = true) ->
  drains b s (upd_connection p f s).
Proof.
  intros F1 F2. split; [done| |].
  - intros c. rewrite !elem_of_conns. store. case_decide; [subst|done]. rewrite F1. naive_solver.
  - intros r. rewrite !elem_of_reqs. store. case_decide as D; [rewrite F1, <- D|]; done.
Qed.

Lemma drains_upd_request b p f s :
  (forall o, rq_connection (f o) = rq_connection o) -> (forall o, rq_admitted (f o) = true -> rq_admitted o = true) ->
  drains b s (upd_request p f s).
Proof.
  intros F1 F2. split; [done|done|].
  intros r. rewrite !elem_of_reqs. store. case_decide as D; [subst; rewrite F1; naive_solver|done].
Qed.

Lemma drains_finish_stop b p s : drains b s (sl_http_backend_maybe_finish_stop p s).
Proof.
  unfold sl_http_backend_maybe_finish_stop. destruct (_ && _); [|done]. apply drains_upd_backend. auto.
Qed.

Lemma drains_clear_diag b d s : drains b s (if is_null d then s else put_diag zero_diag s).
Proof. destruct (is_null d); [done|apply drains_put_diag]. Qed.

Lemma drains_release_slot b c state s : drains b s (release_slot c state s).
Proof.
  rewrite release_slot_once. cbv zeta. etrans; [|apply drains_finish_stop].
  etrans; [|by apply drains_upd_connection]. destruct (_ && _); [|done]. apply drains_upd_backend. auto.
Qed.

Lemma drains_release_admission b r s : drains b s (sl_http_request_release_admission r s).
Proof.
  unfold sl_http_request_release_admission. destruct (_ || _); [done|]. etrans; [|apply drains_finish_stop].
  etrans; [|by apply drains_upd_request]. destruct (_ && _); [|done]. apply drains_upd_backend. auto.
Qed.

(** Calls that close something of the backend. *)
Definition closing (c : http_call) : bool :=
  match c with CallConnectionClose _ | CallConnectionFail _ | CallRequestClose _ => true | _ => false end.

Definition closes_connection (k : Z) (c : http_call) : Prop := c = CallConnectionClose k \/ c = CallConnectionFail k.

Lemma closing_drains b d c s : closing c = true -> drains b s (snd (run_call d c s)).
Proof.
  destruct c; try done; intros _; cbn [run_call].
  - unfold sl_http_connection_close, clear_diag. unfold_st. destruct (_ =? 0); [apply drains_clear_diag|].
    destruct (cn_is _ _); cbn [snd]; [apply drains_clear_diag|]. etrans; [apply drains_clear_diag|apply drains_release_slot].
  - unfold sl_http_connection_fail, clear_diag. unfold_st. destruct (_ =? 0); [done|]. cbn [snd].
    etrans; [apply drains_clear_diag|apply drains_release_slot].
  - unfold sl_http_request_close, clear_diag. unfold_st. destruct (_ =? 0); [apply drains_clear_diag|]. cbn [snd].
    etrans; [apply drains_clear_diag|]. etrans; [apply drains_release_admission|].
    etrans; by apply drains_upd_request.
Qed.

Lemma release_slot_gone b c state s : c ∉ conns_of (release_slot c state s) b.
Proof.
  rewrite release_slot_once. cbv zeta. set (s2 := upd_connection c _ _).
  destruct (drains_finish_stop b (cn_backend (connection_at s c)) s2) as [_ Hsub _].
  intros Hin%Hsub%elem_of_conns. unfold s2 in Hin. store. rewrite decide_True in Hin by done. by destruct Hin.
Qed.

Lemma closed_connection_gone b d k c s : http_inv s -> closes_connection k c -> k ∉ conns_of (snd (run_call d c s)) b.
Proof.
  intros Hi Hc. pose proof (cleared_inv d s Hi) as Hi'.
  assert (Hnull : forall s, http_inv s -> 0 ∉ conns_of s b).
  { intros s1 [Ha _] [E _]%elem_of_conns. by destruct (ad_connection _ _ Ha _ E). }
  destruct Hc as [-> | ->]; cbn [run_call].
  - unfold sl_http_connection_close, clear_diag. unfold_st. set (s1 := if is_null d then s else _) in *. clearbody s1.
    destruct (Z.eqb_spec k 0) as [->|]; [by apply Hnull|]. unfold cn_is.
    destruct (bool_decide_reflect (cn_state (connection_at s1 k) = SL_HTTP_CONNECTION_STATE_CLOSED)) as [E|E]; cbn [snd];
      [|apply release_slot_gone].
    intros [Ea _]%elem_of_conns. destruct (ad_connection _ _ (proj1 Hi') _ Ea) as (_ & _ & F). done.
  - unfold sl_http_connection_fail, clear_diag. unfold_st.
    destruct (Z.eqb_spec k 0) as [->|]; [by apply Hnull|]. apply release_slot_gone.
Qed.

Lemma closed_request_gone b d r s : http_inv s -> r ∉ reqs_of (snd (run_call d (CallRequestClose r) s)) b.
Proof.
  intros Hi. pose proof (cleared_inv d s Hi) as Hi'. cbn [run_call]. unfold sl_http_request_close, clear_diag. unfold_st.
  set (s1 := if is_null d then s else _) in *. clearbody s1. destruct (Z.eqb_spec r 0) as [->|Hr]; cbn [snd].
  - intros [E _]%elem_of_reqs. by destruct (ad_request _ _ (proj1 Hi') _ E).
  - intros [E _]%elem_of_reqs. revert E. store. rewrite !decide_True, release_request by done. cbn.
    case_decide as D; [done|]. intros E. destruct D. by destruct (ad_request _ _ (proj1 Hi') _ E) as (_ & ? & _).
Qed.

(** A sequence of calls. *)
Fixpoint run_calls (d : nullable) (cs : list http_call) (s : HttpSys) : HttpSys :=
  match cs with
  | [] => s
  | c :: cs => run_calls d cs (snd (run_call d c s))
  end.

Lemma closing_callable s c : closing c = true -> callable s c.
Proof. by destruct c. Qed.

Lemma run_closing b d cs s :
  Forall (fun c => closing c = true) cs -> http_inv s ->
  http_inv (run_calls d cs s) /\ drains b s (run_calls d cs s) /\
  (forall k, Exists (closes_connection k) cs -> k ∉ conns_of (run_calls d cs s) b) /\
  (forall r, CallRequestClose r ∈ cs -> r ∉ reqs_of (run_calls d cs s) b).
Proof.
  intros Hc. revert s. induction Hc as [|c cs Hc _ IH]; intros s Hi; cbn [run_calls].
  - split; [done|]. split; [done|]. split; [intros k E; inversion E|intros r E; inversion E].
  - destruct (IH _ (run_call_inv d c s (closing_callable s c Hc) Hi)) as (Hi' & Hd & Hk & Hr).
    split; [done|]. split; [etrans; [by apply closing_drains|done]|]. split.
    + intros k [E|E]%Exists_cons; [|by apply Hk]. intros Hin%(dr_conns _ _ _ Hd).
      by apply (closed_connection_gone b d k c s).
    + intros r [<-|E]%elem_of_cons; [|by apply Hr]. intros Hin%(dr_reqs _ _ _ Hd).
      by apply (closed_request_gone b d r s).
Qed.

(** * The lifecycle of a request *)

(** The moves of a request's state.  A request may be failed or closed at any time. *)
Definition moves (a b : SlHttpRequestState) : bool :=
  bool_decide (a = b) ||
  match a, b with
  | _, SL_HTTP_REQUEST_STATE_FAILED | _, SL_HTTP_REQUEST_STATE_CLOSED => true
  | SL_HTTP_REQUEST_STATE_CREATED, SL_HTTP_REQUEST_STATE_READING
  | SL_HTTP_REQUEST_STATE_READING, SL_HTTP_REQUEST_STATE_DISPATCHING
  | SL_HTTP_REQUEST_STATE_DISPATCHING, SL_HTTP_REQUEST_STATE_WRITING_RESPONSE
  | SL_HTTP_REQUEST_STATE_WRITING_RESPONSE, SL_HTTP_REQUEST_STATE_COMPLETED => true
  | a, SL_HTTP_REQUEST_STATE_CANCELLED | a, SL_HTTP_REQUEST_STATE_TIMED_OUT => negb (sl_http_request_terminal a)
  | _, _ => false
  end.

(** The request a call works on. *)
Definition target (c : http_call) : option Z :=
  match c with
  | CallRequestBegin _ _ r | CallParseHead r _ | CallBeginDispatch r | CallBeginWrite r | CallComplete r | CallFail r
  | CallCancel r _ _ | CallShutdown r | CallTimeout r _ | CallRequestClose r => Some r
  | _ => None
  end.

(** [s'] differs from [s] at most in the request [r], whose state satisfies [P]. *)
Definition sets (r : Z) (P : SlHttpRequestState -> Prop) (s s' : HttpSys) : Prop :=
  (forall q, q <> r -> request_at s' q = request_at s q) /\ P (rq_state (request_at s' r)).

Lemma sets_weaken r (P Q : SlHttpRequestState -> Prop) s s' : (forall st, P st -> Q st) -> sets r P s s' -> sets r Q s s'.
Proof. intros H [? ?]. split; auto. Qed.

Lemma sets_same r (P : SlHttpRequestState -> Prop) s s1 s' :
  (forall q, request_at s1 q = request_at s q) -> sets r P s1 s' -> sets r P s s'.
Proof. intros H [E ?]. split; [|done]. intros q Hq. by rewrite E, H. Qed.

Lemma sets_after r P s s1 s' : (forall q, request_at s' q = request_at s1 q) -> sets r P s s1 -> sets r P s s'.
Proof. intros H [E ?]. split; [|by rewrite H]. intros q Hq. by rewrite H, E. Qed.

Lemma sets_upd r (P : SlHttpRequestState -> Prop) f s : P (rq_state (f (request_at s r))) -> sets r P s (upd_request r f s).
Proof. intros H. split; store; [|by rewrite decide_True]. intros q Hq. store. by rewrite decide_False. Qed.

Lemma sets_then r (P Q : SlHttpRequestState -> Prop) f s s1 :
  sets r Q s s1 -> P (rq_state (f (request_at s1 r))) -> sets r P s (upd_request r f s1).
Proof.
  intros [E _] H. split; store; [|by rewrite decide_True]. intros q Hq. store. rewrite decide_False by done. by apply E.
Qed.

Lemma sets_upd_connection r P c f s s1 : sets r P s s1 -> sets r P s (upd_connection c f s1).
Proof. by apply sets_after. Qed.

Lemma sets_release r P s s1 : sets r P s s1 -> sets r P s (sl_http_request_release_admission r s1).
Proof.
  intros [E H]. split.
  - intros q Hq. rewrite release_request, decide_False by tauto. by apply E.
  - rewrite release_request. by case_decide.
Qed.

Lemma request_at_after_terminal r f s q :
  request_at (sl_http_request_set_connection_after_stream_terminal r f s) q = request_at s q.
Proof.
  unfold sl_http_request_set_connection_after_stream_terminal. destruct (_ =? 0); [done|]. by destruct (_ && _).
Qed.

Lemma sets_terminal_cancel r (P : SlHttpRequestState -> Prop) st s :
  r <> 0 -> P st -> sets r P s (sl_http_request_terminal_cancel r st s).
Proof.
  intros Hr H. unfold sl_http_request_terminal_cancel. destruct (Z.eqb_spec r 0); [done|]. apply sets_release.
  eapply sets_after; [|by apply (sets_upd r P (rq_set_state st) s)]. by destruct (negb _).
Qed.

Lemma sets_final r (P : SlHttpRequestState -> Prop) st f s :
  P st -> sets r P s (sl_http_request_release_admission r
    (sl_http_request_set_connection_after_stream_terminal r f (upd_request r (rq_set_state st) s))).
Proof.
  intros H. apply sets_release. eapply sets_after; [intros; apply request_at_after_terminal|]. by apply sets_upd.
Qed.

Lemma sets_refuse {A} r P s s1 d code msg hint st :
  sets r P s s1 -> sets r P s (snd (refuse (A := A) (sl_http_backend_diag d code msg hint st) s1)).
Proof. apply sets_after. intros q. unfold refuse, sl_http_backend_diag. by destruct (is_null d). Qed.

Lemma request_at_clear d s q : request_at (if is_null d then s else put_diag zero_diag s) q = request_at s q.
Proof. by destruct (is_null d). Qed.
End Calls.

(** Runs an operation on one request, up to the tests that decide its new state. *)
Ltac track_step :=
  match goal with
  | |- sets _ _ ?s (snd (refuse _ _)) => apply sets_refuse
  | |- sets _ _ _ (snd ((if ?b then _ else _) _)) => destruct b eqn:?; cbn beta iota
  end.
Ltac track :=
  unfold_st; unfold clear_diag; unfold_st; cbn beta iota;
  repeat match goal with
  | |- sets _ _ ?s ?g =>
      match g with context [if is_null ?d then s else put_diag zero_diag s] =>
        let E := fresh "E" in let s' := fresh "s" in
        pose proof (request_at_clear d s) as E;
        set (s' := if is_null d then s else put_diag zero_diag s) in *; clearbody s';
        apply (sets_same _ _ _ s'); [exact E|]; rewrite <- ?E; clear E
      end
  end; repeat track_step; cbn [snd].

Section Lifecycle.
Context {RO : ReadOnlyData} (parser : HeadParser).

Definition may_move (r : Z) (s s' : HttpSys) : Prop :=
  sets r (fun st => moves (rq_state (request_at s r)) st = true) s s'.

Lemma moves_refl st : moves st st = true.
Proof. unfold moves. by rewrite bool_decide_eq_true_2. Qed.

Lemma may_move_refl r s : may_move r s s.
Proof. split; [done|apply moves_refl]. Qed.

Lemma moves_from (r : SlHttpRequestLifecycle) st st' :
  negb (rq_is st r) = false -> moves st st' = true -> moves (rq_state r) st' = true.
Proof. unfold rq_is. by destruct (bool_decide_reflect (rq_state r = st)) as [->|]. Qed.

Lemma moves_end st st' :
  sl_http_request_terminal st = false ->
  st' = SL_HTTP_REQUEST_STATE_CANCELLED \/ st' = SL_HTTP_REQUEST_STATE_TIMED_OUT -> moves st st' = true.
Proof. by destruct st, st'; intros ? [|]. Qed.

Lemma moves_fail st : moves st SL_HTTP_REQUEST_STATE_FAILED = true.
Proof. by destruct st. Qed.

Lemma moves_close st : moves st SL_HTTP_REQUEST_STATE_CLOSED = true.
Proof. by destruct st. Qed.

Lemma not_null p q : (p =? 0) || q = false -> p <> 0.
Proof. by destruct (Z.eqb_spec p 0). Qed.

Lemma parse_head_moves d r bytes s : may_move r s (snd (sl_http_request_parse_head parser r bytes d s)).
Proof.
  unfold sl_http_request_parse_head, may_move. track; try apply may_move_refl.
  destruct (parser _ _ _ _) as [[status head] diag]. cbn beta iota.
  set (s1 := if is_null d then _ else put_diag diag _).
  assert (H : sets r (fun _ => True) s0 (upd_request r (rq_set_head head) s1)).
  { apply (sets_then r _ (fun _ => True)); [|done]. split; [|exact I]. intros q _. unfold s1. by destruct (is_null d). }
  destruct (negb (sl_status_is_ok _)); cbn [snd].
  - apply sets_upd_connection. eapply sets_then; [exact H|]. apply moves_fail.
  - eapply sets_then; [exact H|]. by eapply moves_from.
Qed.

Lemma begin_dispatch_moves d r s : may_move r s (snd (sl_http_request_begin_dispatch r d s)).
Proof.
  unfold sl_http_request_begin_dispatch, may_move. cbv zeta. track; try apply may_move_refl.
  1-4: apply sets_terminal_cancel; [by repeat (eapply not_null; rewrite <- ?orb_assoc)|]; eapply moves_from; done.
  apply sets_upd_connection, sets_upd. by eapply moves_from.
Qed.

Lemma begin_write_moves d r s : may_move r s (snd (sl_http_request_begin_write r d s)).
Proof.
  unfold sl_http_request_begin_write, may_move. track; try apply may_move_refl.
  apply sets_upd_connection, sets_upd. by eapply moves_from.
Qed.

Lemma complete_moves d r s : may_move r s (snd (sl_http_request_complete r d s)).
Proof.
  unfold sl_http_request_complete, may_move. track; try apply may_move_refl. apply sets_final. by eapply moves_from.
Qed.

Lemma fail_moves d r s : may_move r s (snd (sl_http_request_fail r d s)).
Proof.
  unfold sl_http_request_fail, may_move. track; try apply may_move_refl. apply sets_final. apply moves_fail.
Qed.

Lemma request_close_moves d r s : may_move r s (snd (sl_http_request_close r d s)).
Proof.
  unfold sl_http_request_close, may_move. track; try apply may_move_refl.
  set (s1 := upd_request r (rq_set_state _) _).
  assert (H : may_move r s0 s1) by (eapply sets_then; [apply sets_release, may_move_refl|]; apply moves_close).
  eapply sets_then; [exact H|]. exact (proj2 H).
Qed.

Lemma cancelled_moves r reason detail (k : ST HttpSys unit) (P : SlHttpRequestState -> Prop) s :
  P (rq_state (request_at s r)) -> (forall s', sets r P s' (snd (k s'))) ->
  sets r P s (snd ((cancel_token r reason detail ;; k) s)).
Proof.
  intros HP Hk. unfold cancel_token, on_error, on_token, zoom. unfold_st.
  destruct (sl_cancellation_token_cancel _ _ _ _) as [[[]|e] t].
  all: set (s1 := upd_request r (rq_set_token t) s).
  all: assert (H1 : forall q, q <> r -> request_at s1 q = request_at s q)
         by (intros q Hq; unfold s1; store; by rewrite decide_False).
  all: assert (H2 : P (rq_state (request_at s1 r))) by (unfold s1; store; by rewrite decide_True).
  all: assert (H3 : sets r P s (snd (k s1)))
         by (destruct (Hk s1) as [E ?]; split; [intros q Hq; by rewrite E, H1|done]).
  - done.
  - destruct (bool_decide _); [done|]. by split.
Qed.

Lemma cancel_moves d r reason detail s : may_move r s (snd (sl_http_request_cancel r reason detail d s)).
Proof.
  unfold sl_http_request_cancel, may_move. track; try apply may_move_refl. apply cancelled_moves; [apply moves_refl|].
  assert (r <> 0) by (apply orb_false_iff in Heqb as [[? _]%orb_false_iff _]; by destruct (Z.eqb_spec r 0)).
  intros s'. unfold_st. repeat track_step; apply sets_terminal_cancel; try done; apply moves_end; auto.
Qed.

Lemma timeout_moves d r detail s : may_move r s (snd (sl_http_request_timeout r detail d s)).
Proof.
  unfold sl_http_request_timeout, may_move. track; try apply may_move_refl. apply cancelled_moves; [apply moves_refl|].
  intros s'. unfold_st. repeat track_step. apply sets_terminal_cancel; [by eapply not_null|]. apply moves_end; auto.
Qed.

Lemma call_moves d c r s : target c = Some r -> (forall k a, c <> CallRequestBegin k a r) -> may_move r s (snd (run_call parser d c s)).
Proof.
  intros Ht Hb. destruct c; try done; injection Ht as ->; cbn [run_call].
  - by destruct (Hb connection arena).
  - apply parse_head_moves.
  - apply begin_dispatch_moves.
  - apply begin_write_moves.
  - apply complete_moves.
  - apply fail_moves.
  - apply cancel_moves.
  - apply cancel_moves.
  - apply timeout_moves.
  - apply request_close_moves.
Qed.

Lemma request_at_finish p s r : request_at (sl_http_backend_maybe_finish_stop p s) r = request_at s r.
Proof. unfold sl_http_backend_maybe_finish_stop. by destruct (_ && _). Qed.

Lemma request_at_release_slot c state s r : request_at (release_slot c state s) r = request_at s r.
Proof. rewrite release_slot_once. cbv zeta. rewrite request_at_finish. by destruct (_ && _). Qed.

Lemma begin_sets d c a r s : sets r (fun _ => True) s (snd (sl_http_request_begin c a r d s)).
Proof.
  unfold sl_http_request_begin. track; try (split; [done|exact I]).
  all: split; [|exact I]; intros q Hq; store; rewrite ?decide_False by done; done.
Qed.

Lemma other_requests d c r s : target c <> Some r -> request_at (snd (run_call parser d c s)) r = request_at s r.
Proof.
  intros Ht. destruct (target c) as [r'|] eqn:E.
  - destruct c; try done; injection E as ->; cbn [run_call].
    all: assert (r <> r') by congruence.
    + by apply begin_sets.
    + by apply parse_head_moves.
    + by apply begin_dispatch_moves.
    + by apply begin_write_moves.
    + by apply complete_moves.
    + by apply fail_moves.
    + by apply cancel_moves.
    + by apply cancel_moves.
    + by apply timeout_moves.
    + by apply request_close_moves.
  - destruct c; try done; cbn [run_call].
    all: unfold sl_http_backend_init, sl_http_backend_start, sl_http_backend_stop, sl_http_backend_dispose,
      sl_http_backend_accept_connection, sl_http_connection_close, sl_http_connection_fail, sl_http_connection_set_multiplexing,
      clear_diag, refuse, sl_http_backend_invalid_state, sl_http_backend_overload, sl_http_backend_overflow, sl_http_backend_diag;
      unfold_st; destruct (is_null d); repeat split_if; cbn [snd]; rewrite ?request_at_release_slot, ?request_at_finish; done.
Qed.

(** A request is created by [begin] alone, and only when [begin] succeeds. *)
Lemma begin_creates d c a r s :
  r <> 0 ->
  let '(res, s') := sl_http_request_begin c a r d s in
  rq_state (request_at s' r) = (if is_ok res then SL_HTTP_REQUEST_STATE_CREATED else SL_HTTP_REQUEST_STATE_NONE) /\
  rq_admitted (request_at s' r) = is_ok res.
Proof.
  intros Hr. unfold sl_http_request_begin, clear_diag, refuse, sl_http_backend_keep_alive_unsupported, sl_http_backend_shutdown_diag,
    sl_http_backend_connection_closed, sl_http_backend_overload, sl_http_backend_overflow, sl_http_backend_diag.
  unfold_st. destruct (Z.eqb_spec r 0); [done|].
  set (s0 := if is_null d then s else put_diag zero_diag s). clearbody s0.
  repeat (split_if; cbn [is_ok]); store; rewrite ?decide_True by done; done.
Qed.
End Lifecycle.

(** * Theorems *)

Section Theorems.
Context {RO : ReadOnlyData} (parser : HeadParser).

(** C21: in every reachable state the admission counters of every backend are exact: they
    count the connections that hold a slot and the requests that are admitted, never exceed
    the configured limits, and no two admitted requests share an id; a backend that is
    neither started nor stopping has no connection and no request, and a stopping one still
    has something to wait for. *)
Theorem admission_accounts_exact s b :
  rtc (http_step parser) empty_store s ->
  let o := backend_at s b in
  be_active_connections o = Z.of_nat (size (conns_of s b)) /\
  be_active_requests o = Z.of_nat (size (reqs_of s b)) /\
  be_active_connections o <= bo_max_connections (be_options o) /\
  be_active_requests o <= bo_max_active_requests (be_options o) /\
  (forall r r', r ∈ reqs_of s b -> r' ∈ reqs_of s b -> rq_id (request_at s r) = rq_id (request_at s r') -> r = r') /\
  (accepts_work (be_state o) = false -> conns_of s b = ∅ /\ reqs_of s b = ∅) /\
  (be_state o = SL_HTTP_BACKEND_STATE_STOPPING -> conns_of s b <> ∅ \/ reqs_of s b <> ∅).
Proof.
  intros Hs. destruct (reachable_inv parser s Hs) as [Ha Hw]. destruct (ad_backend _ _ Ha b) as [C R CL RL _ _ _ U I].
  split; [done|]. split; [done|]. split; [apply CL|]. split; [apply RL|]. split; [done|]. split; [done|].
  intros E. rewrite <- !size_zero, <- C, <- R. by apply Hw.
Qed.

(** C22: shutdown completes.  Once a backend is stopping, closing its connections and its
    requests - in any order, whatever else is closed along with them - leaves it stopped,
    with nothing admitted. *)
Theorem http_drain_completes s b d cs :
  rtc (http_step parser) empty_store s ->
  be_state (backend_at s b) = SL_HTTP_BACKEND_STATE_STOPPING ->
  Forall (fun c => closing c = true) cs ->
  (forall k, k ∈ conns_of s b -> Exists (closes_connection k) cs) ->
  (forall r, r ∈ reqs_of s b -> CallRequestClose r ∈ cs) ->
  let s' := run_calls parser d cs s in
  be_state (backend_at s' b) = SL_HTTP_BACKEND_STATE_STOPPED /\
  be_active_connections (backend_at s' b) = 0 /\ be_active_requests (backend_at s' b) = 0.
Proof.
  intros Hs Hst Hc Hk Hr s'.
  pose proof (run_closing parser b d cs s Hc (reachable_inv parser s Hs)) as H. fold s' in H.
  destruct H as (Hi & [Dst Dc Dr] & Gk & Gr).
  assert (Ec : conns_of s' b = ∅) by (apply elem_of_equiv_empty_L; intros k Hin; apply (Gk k); auto).
  assert (Er : reqs_of s' b = ∅) by (apply elem_of_equiv_empty_L; intros r Hin; apply (Gr r); auto).
  destruct Hi as [Ha Hw]. destruct (ad_backend _ _ Ha b) as [C R _ _ _ _ _ _ _].
  rewrite Ec, size_empty in C. rewrite Er, size_empty in R.
  split; [|done]. destruct Dst as [E|E]; [by left| |done]. destruct (Hw b E) as [F|F]; by rewrite ?C, ?R in F.
Qed.

(** Calls on one request leave every other request alone, and move its state only
    along the lifecycle: created by a successful [begin] and nothing else, then reading,
    dispatching, writing, completed, one step at a time and in that order; it may be
    cancelled or timed out only before it has ended, failed or closed at any time. *)
Theorem request_lifecycle_order d c r s :
  let '(res, s') := run_call parser d c s in
  (target c <> Some r -> request_at s' r = request_at s r) /\
  (target c = Some r -> (forall k a, c <> CallRequestBegin k a r) ->
   moves (rq_state (request_at s r)) (rq_state (request_at s' r)) = true) /\
  (forall k a, c = CallRequestBegin k a r -> r <> 0 ->
   rq_state (request_at s' r) = (if is_ok res then SL_HTTP_REQUEST_STATE_CREATED else SL_HTTP_REQUEST_STATE_NONE) /\
   rq_admitted (request_at s' r) = is_ok res).
Proof.
  destruct (run_call parser d c s) as [res s'] eqn:E. split; [|split].
  - intros Ht. pose proof (other_requests parser d c r s Ht) as H. by rewrite E in H.
  - intros Ht Hb. destruct (call_moves parser d c r s Ht Hb) as [_ H]. by rewrite E in H.
  - intros k a -> Hr. pose proof (begin_creates d k a r s Hr) as H. cbn [run_call] in E. by rewrite E in H.
Qed.
End Theorems.

(** A run of calls, each callable where it is made. *)
Lemma next_step {RO : ReadOnlyData} parser c cs s :
  callable s c -> rtc (http_step parser) (snd (run_call parser REF c s)) (run_calls parser REF cs (snd (run_call parser REF c s))) ->
  rtc (http_step parser) s (run_calls parser REF (c :: cs) s).
Proof. intros Hc H. eapply rtc_l; [|exact H]. by exists REF, c. Qed.

Module Demo.
#[local] Instance rodata0 : ReadOnlyData := {| rodata := fun _ => 4096 |}.
Definition parser0 : HeadParser := fun _ _ head diag => (SL_STATUS_OK, head, diag).

(** One backend, one connection, two multiplexed requests, then a stop. *)
Definition opening : list http_call :=
  [CallBackendInit 1 None; CallBackendStart 1 0; CallAccept 1 10; CallSetMultiplexing 10 true;
   CallRequestBegin 10 7 100; CallRequestBegin 10 8 101; CallBackendStop 1].
Definition stopping : HttpSys := run_calls parser0 REF opening empty_store.
Definition closings : list http_call := [CallRequestClose 101; CallConnectionFail 10; CallRequestClose 100].

Lemma stopping_reachable : rtc (http_step parser0) empty_store stopping.
Proof.
  unfold stopping, opening.
  apply next_step; [split; [split; vm_compute; reflexivity|by split]|].
  apply next_step; [exact I|].
  apply next_step.
  { split; [vm_compute; reflexivity|]. intros r. unfold request_at.
    replace (hs_requests _) with (∅ : gmap Z SlHttpRequestLifecycle) by (vm_compute; reflexivity).
    by rewrite lookup_total_empty. }
  apply next_step; [exact I|].
  apply next_step; [vm_compute; reflexivity|].
  apply next_step; [vm_compute; reflexivity|].
  apply next_step; [exact I|]. cbn [run_calls]. reflexivity.
Qed.

Lemma admission_accounts_exact_witness :
  be_active_requests (backend_at stopping 1) = Z.of_nat (size (reqs_of stopping 1)) /\
  be_active_requests (backend_at stopping 1) = 2.
Proof. split; [exact (proj1 (proj2 (admission_accounts_exact parser0 stopping 1 stopping_reachable)))|vm_compute; reflexivity]. Defined.

Lemma http_drain_completes_witness :
  be_state (backend_at (run_calls parser0 NULL closings stopping) 1) = SL_HTTP_BACKEND_STATE_STOPPED.
Proof.
  apply (http_drain_completes parser0 stopping 1 NULL closings); [apply stopping_reachable|reflexivity|by repeat constructor| |].
  - intros k. replace (conns_of stopping 1) with ({[10]} : gset Z) by (vm_compute; reflexivity).
    rewrite elem_of_singleton. intros ->. right. left. by right.
  - intros r. replace (reqs_of stopping 1) with ({[100; 101]} : gset Z) by (vm_compute; reflexivity).
    rewrite elem_of_union, !elem_of_singleton. unfold closings. set_solver.
Defined.
End Demo.
