(* ===== verification/HttpBody.v ===== *)
(** Reading a request body (src/core/http_backend.c, the body reader).

    A reader belongs to one request of the store of HttpBackend and copies chunks
    into a builder over the request's arena.  Its state is the store, the world with
    that arena, and the reader object, whose embedded builder is [bs_builder]. *)

From stdpp Require Import strings gmap.
From Stdlib Require Import Strings.Ascii.
From S2P Require Import Prelude Memory Status Arena Str Bytes Simd Async Sink Builder Diag HttpResponse HttpBackend HttpAdmission.

Open Scope Z_scope.

Inductive SlHttpRequestBodyKind :=
| SL_HTTP_REQUEST_BODY_NONE
| SL_HTTP_REQUEST_BODY_JSON
| SL_HTTP_REQUEST_BODY_TEXT
| SL_HTTP_REQUEST_BODY_BYTES
| SL_HTTP_REQUEST_BODY_FORM
| SL_HTTP_REQUEST_BODY_MULTIPART.

Inductive SlHttpBodyReaderState :=
| SL_HTTP_BODY_READER_STATE_NONE
| SL_HTTP_BODY_READER_STATE_READY
| SL_HTTP_BODY_READER_STATE_READING
| SL_HTTP_BODY_READER_STATE_COMPLETED
| SL_HTTP_BODY_READER_STATE_CANCELLED
| SL_HTTP_BODY_READER_STATE_TIMED_OUT
| SL_HTTP_BODY_READER_STATE_FAILED
| SL_HTTP_BODY_READER_STATE_CLOSED.

#[export] Instance SlHttpBodyReaderState_eq_dec : EqDecision SlHttpBodyReaderState.
Proof. solve_decision. Defined.

(** The builder of the reader is kept beside it, with the memory it works on. *)
Record SlHttpBodyReader := {
  br_request : Z;
  br_arena : Z;
  br_mark : SlArenaMark;
  br_state : SlHttpBodyReaderState;
  br_body_kind : SlHttpRequestBodyKind;
  br_max_body_bytes : Z;
  br_expected_body_bytes : Z;
}.

Definition zero_reader : SlHttpBodyReader :=
  Build_SlHttpBodyReader 0 0 {| mark_offset := 0; mark_generation := 0 |} SL_HTTP_BODY_READER_STATE_NONE
    SL_HTTP_REQUEST_BODY_NONE 0 0.

Definition br_set_state state r :=
  {| br_request := br_request r; br_arena := br_arena r; br_mark := br_mark r; br_state := state;
     br_body_kind := br_body_kind r; br_max_body_bytes := br_max_body_bytes r;
     br_expected_body_bytes := br_expected_body_bytes r |}.
Definition br_set_kind kind r :=
  {| br_request := br_request r; br_arena := br_arena r; br_mark := br_mark r; br_state := br_state r;
     br_body_kind := kind; br_max_body_bytes := br_max_body_bytes r;
     br_expected_body_bytes := br_expected_body_bytes r |}.

Record BodySys := { bd_http : HttpSys; bd_build : BuilderSys; bd_reader : SlHttpBodyReader }.

Definition set_http (h : HttpSys) (s : BodySys) : BodySys :=
  {| bd_http := h; bd_build := bd_build s; bd_reader := bd_reader s |}.
Definition set_build (b : BuilderSys) (s : BodySys) : BodySys :=
  {| bd_http := bd_http s; bd_build := b; bd_reader := bd_reader s |}.
Definition set_reader (r : SlHttpBodyReader) (s : BodySys) : BodySys :=
  {| bd_http := bd_http s; bd_build := bd_build s; bd_reader := r |}.

Definition in_http {A} (c : ST HttpSys A) : ST BodySys A := zoom bd_http set_http c.
Definition in_build {A} (c : ST BuilderSys A) : ST BodySys A := zoom bd_build set_build c.
Definition in_world {A} (c : ST World A) : ST BodySys A := in_build (in_arena c).

(** NULL-ness of a stored pointer. *)
Definition ref_of (p : Z) : nullable := if p =? 0 then NULL else REF.

(** * Media types *)

Definition is_ows (ch : Z) : bool := (ch =? 32) || (ch =? 9).

(** [while (begin < end && is_ows(ptr[begin])) begin++]: the number of rounds. *)
Fixpoint skip_front (m : mem) (ptr : Z) (n : nat) : nat :=
  match n with
  | O => O
  | S n => if is_ows (ld8 m ptr) then S (skip_front m (ptr + 1) n) else O
  end.

(** [while (end > begin && is_ows(ptr[end - 1])) end--]: the length that is left. *)
Fixpoint skip_back (m : mem) (ptr : Z) (n : nat) : nat :=
  match n with
  | O => O
  | S n => if is_ows (ld8 m (ptr + Z.of_nat n)) then skip_back m ptr n else S n
  end.

Definition sl_http_backend_trim_ascii_space (m : mem) (value : SlStr) : SlStr :=
  if str_ptr value =? 0 then sl_str_empty else
  let len := Z.to_nat (str_length value) in
  let begin := skip_front m (str_ptr value) len in
  let left := skip_back m (str_ptr value + Z.of_nat begin) (len - begin) in
  sl_str_from_parts (str_ptr value + Z.of_nat begin) (Z.of_nat left).

Fixpoint until_semicolon (m : mem) (ptr : Z) (n : nat) : nat :=
  match n with
  | O => O
  | S n => if negb (ld8 m ptr =? 59) then S (until_semicolon m (ptr + 1) n) else O
  end.

Definition sl_http_backend_media_type (m : mem) (content_type : SlStr) : SlStr :=
  if str_ptr content_type =? 0 then sl_str_empty else
  let index := until_semicolon m (str_ptr content_type) (Z.to_nat (str_length content_type)) in
  sl_http_backend_trim_ascii_space m (sl_str_from_parts (str_ptr content_type) (Z.of_nat index)).

Section MediaType.
Context {SC : SimdConfig} {RO : ReadOnlyData}.

Definition sl_http_backend_media_type_json (m : mem) (media_type : SlStr) : bool :=
  let application_prefix := literal "application/" in
  let json_suffix := literal "+json" in
  sl_str_equal_ci_ascii m media_type (literal "application/json") ||
  ((str_length application_prefix + str_length json_suffix <? str_length media_type) &&
   sl_str_starts_with_ci_ascii m media_type application_prefix &&
   sl_str_ends_with_ci_ascii m media_type json_suffix).

(** [*out_kind] starts as [NONE] in the only caller. *)
Definition sl_http_body_reader_classify (m : mem) (content_type : SlStr) (content_length : Z) (out_kind out_diag : nullable)
    : ST HttpSys SlHttpRequestBodyKind :=
  return_if is_null out_kind || negb (sl_http_backend_str_valid content_type) with SL_STATUS_INVALID_ARGUMENT ;;
  if sl_str_is_empty (sl_http_backend_trim_ascii_space m content_type) then
    if content_length =? 0 then mret SL_HTTP_REQUEST_BODY_NONE
    else refuse (sl_http_backend_unsupported_media_diag out_diag)
  else
  let media_type := sl_http_backend_media_type m content_type in
  if (content_length =? 0) &&
     negb (sl_str_equal_ci_ascii m media_type (literal "application/x-www-form-urlencoded")) &&
     negb (sl_str_equal_ci_ascii m media_type (literal "multipart/form-data"))
  then mret SL_HTTP_REQUEST_BODY_NONE
  else if sl_http_backend_media_type_json m media_type then mret SL_HTTP_REQUEST_BODY_JSON
  else if sl_str_equal_ci_ascii m media_type (literal "text/plain") then mret SL_HTTP_REQUEST_BODY_TEXT
  else if sl_str_equal_ci_ascii m media_type (literal "application/octet-stream") then mret SL_HTTP_REQUEST_BODY_BYTES
  else if sl_str_equal_ci_ascii m media_type (literal "application/x-www-form-urlencoded") then mret SL_HTTP_REQUEST_BODY_FORM
  else if sl_str_equal_ci_ascii m media_type (literal "multipart/form-data") then mret SL_HTTP_REQUEST_BODY_MULTIPART
  else refuse (sl_http_backend_unsupported_media_diag out_diag).
End MediaType.

(** * The reader *)

Section Reader.
Context {BC : BuildConfig} {SC : SimdConfig} {RO : ReadOnlyData}.

Definition br_is (state : SlHttpBodyReaderState) (r : SlHttpBodyReader) : bool := bool_decide (br_state r = state).

Definition sl_http_body_reader_usable (reader : nullable) (r : SlHttpBodyReader) : bool :=
  negb (is_null reader) && negb (br_request r =? 0) && negb (br_arena r =? 0) &&
  (br_is SL_HTTP_BODY_READER_STATE_READY r || br_is SL_HTTP_BODY_READER_STATE_READING r).

Definition set_body (body : SlBytes) (h : SlHttpRequestHead) : SlHttpRequestHead :=
  {| hd_method := hd_method h; hd_version_major := hd_version_major h; hd_version_minor := hd_version_minor h;
     hd_path := hd_path h; hd_raw_target := hd_raw_target h; hd_headers_ptr := hd_headers_ptr h;
     hd_headers := hd_headers h; hd_body := body |}.

Definition put_body (request : Z) (body : SlBytes) (h : HttpSys) : HttpSys :=
  upd_request request (fun r => rq_set_head (set_body body (rq_head r)) r) h.

(** The request ends as the reader does. *)
Definition end_request (request : Z) (state : SlHttpBodyReaderState) (h : HttpSys) : HttpSys :=
  let h := put_body request sl_bytes_empty h in
  match state with
  | SL_HTTP_BODY_READER_STATE_CANCELLED => sl_http_request_terminal_cancel request SL_HTTP_REQUEST_STATE_CANCELLED h
  | SL_HTTP_BODY_READER_STATE_TIMED_OUT => sl_http_request_terminal_cancel request SL_HTTP_REQUEST_STATE_TIMED_OUT h
  | _ =>
      let h := upd_request request (rq_set_state SL_HTTP_REQUEST_STATE_FAILED) h in
      let h := sl_http_request_set_connection_after_stream_terminal request SL_HTTP_CONNECTION_STATE_CLOSING h in
      sl_http_request_release_admission request h
  end.

Definition sl_http_body_reader_fail (reader : nullable) (state : SlHttpBodyReaderState) (diag_status : SlStatusCode)
    : ST BodySys unit :=
  return_if is_null reader with SL_STATUS_INVALID_ARGUMENT ;;
  r ← gets bd_reader ;
  in_world (sl_arena_reset_to (ref_of (br_arena r)) (br_mark r)) ;;
  modify (fun s => set_reader (br_set_state state (bd_reader s)) s) ;;
  (if negb (br_request r =? 0) then modify (fun s => set_http (end_request (br_request r) state (bd_http s)) s)
   else mret tt) ;;
  fail diag_status.

(** [return sl_http_body_reader_fail(reader, state, diag(...))]: the diagnostic first. *)
Definition fail_with (state : SlHttpBodyReaderState) (d : Refusal) : ST BodySys unit := fun s =>
  let '(status, h) := d (bd_http s) in sl_http_body_reader_fail REF state status (set_http h s).

Definition sl_http_body_reader_check_terminal (reader out_diag : nullable) : ST BodySys unit :=
  r ← gets bd_reader ;
  return_if is_null reader || (br_request r =? 0) with SL_STATUS_INVALID_ARGUMENT ;;
  h ← gets bd_http ;
  let request := request_at h (br_request r) in
  let backend := cn_backend (connection_at h (rq_connection request)) in
  if negb (rq_connection request =? 0) && negb (backend =? 0) &&
     be_is SL_HTTP_BACKEND_STATE_STOPPING (backend_at h backend)
  then
    modify (fun s => set_http (snd (on_token (br_request r)
      (sl_cancellation_token_cancel REF SL_CANCELLATION_REASON_SHUTDOWN (literal "HTTP backend shutdown")) (bd_http s))) s) ;;
    fail_with SL_HTTP_BODY_READER_STATE_CANCELLED (sl_http_backend_shutdown_diag out_diag SL_STATUS_CANCELLED)
  else
  let token := rq_cancellation request in
  if negb (sl_cancellation_token_is_cancelled REF token) then mret tt else
  let reason := sl_cancellation_token_reason REF token in
  if bool_decide (reason = SL_CANCELLATION_REASON_DEADLINE_EXCEEDED)
  then fail_with SL_HTTP_BODY_READER_STATE_TIMED_OUT (sl_http_backend_timeout_diag out_diag)
  else if bool_decide (reason = SL_CANCELLATION_REASON_SHUTDOWN)
  then fail_with SL_HTTP_BODY_READER_STATE_CANCELLED (sl_http_backend_shutdown_diag out_diag SL_STATUS_CANCELLED)
  else fail_with SL_HTTP_BODY_READER_STATE_CANCELLED (sl_http_backend_cancelled_diag out_diag).

(** [*out_reader = {0}] clears the builder inside, its inline array included. *)
Definition clear_reader (s : BodySys) : BodySys :=
  let b := bd_build s in
  let small := bb_small (bs_builder b) in
  {| bd_http := bd_http s;
     bd_build := {| bs_world := set_mem (fill (bs_mem b) small (Z.to_nat SL_BYTE_BUILDER_SMALL_CAPACITY) 0) (bs_world b);
                    bs_builder := local_builder small |};
     bd_reader := zero_reader |}.

(** The limit on a body: the backend's, or the default. *)
Definition body_limit (backend : Z) (h : HttpSys) : Z :=
  if negb (backend =? 0)
  then or_default (po_max_body_length (bo_parse (be_options (backend_at h backend)))) SL_HTTP_DEFAULT_MAX_BODY_LENGTH
  else SL_HTTP_DEFAULT_MAX_BODY_LENGTH.

Definition sl_http_request_body_reader_begin (request : Z) (content_type : SlStr) (content_length : Z)
    (out_reader out_diag : nullable) : ST BodySys unit :=
  in_http (clear_diag out_diag) ;;
  return_if is_null out_reader with SL_STATUS_INVALID_ARGUMENT ;;
  modify clear_reader ;;
  r ← gets (fun s => request_at (bd_http s) request) ;
  return_if (request =? 0) || (rq_arena r =? 0) || (rq_connection r =? 0) ||
            negb (sl_http_backend_str_valid content_type) with SL_STATUS_INVALID_ARGUMENT ;;
  (if negb (rq_is SL_HTTP_REQUEST_STATE_READING r) then in_http (refuse (sl_http_backend_invalid_state out_diag)) else mret tt) ;;
  h ← gets bd_http ;
  let backend := cn_backend (connection_at h (rq_connection r)) in
  let max_body_bytes := body_limit backend h in
  w ← gets (fun s => bs_world (bd_build s)) ;
  modify (set_reader
    {| br_request := request; br_arena := rq_arena r; br_mark := sl_arena_mark (ref_of (rq_arena r)) w;
       br_state := SL_HTTP_BODY_READER_STATE_READY; br_body_kind := SL_HTTP_REQUEST_BODY_NONE;
       br_max_body_bytes := max_body_bytes; br_expected_body_bytes := content_length |}) ;;
  sl_http_body_reader_check_terminal out_reader out_diag ;;
  if max_body_bytes <? content_length
  then fail_with SL_HTTP_BODY_READER_STATE_FAILED (sl_http_backend_body_limit_diag out_diag) else
  body_kind ← on_error
    (in_http (sl_http_body_reader_classify (w_mem w) content_type content_length REF out_diag))
    (fun status => (sl_http_body_reader_fail out_reader SL_HTTP_BODY_READER_STATE_FAILED status) ;; mret SL_HTTP_REQUEST_BODY_NONE) ;
  on_error (in_build (sl_byte_builder_init_arena REF (ref_of (rq_arena r)) content_length max_body_bytes))
    (fun status => sl_http_body_reader_fail out_reader SL_HTTP_BODY_READER_STATE_FAILED status) ;;
  modify (fun s => set_reader (br_set_kind body_kind (bd_reader s)) s).

Definition sl_http_request_body_reader_append (reader : nullable) (chunk : SlBytes) (out_diag : nullable) : ST BodySys unit :=
  in_http (clear_diag out_diag) ;;
  r ← gets bd_reader ;
  return_if negb (sl_http_body_reader_usable reader r) || (bytes_ptr chunk =? 0) && negb (bytes_length chunk =? 0)
    with SL_STATUS_INVALID_ARGUMENT ;;
  sl_http_body_reader_check_terminal reader out_diag ;;
  built ← gets (fun s => bytes_length (sl_byte_builder_view REF (bs_builder (bd_build s)))) ;
  match sl_checked_add_size built (bytes_length chunk) REF with
  | Err status => sl_http_body_reader_fail reader SL_HTTP_BODY_READER_STATE_FAILED status
  | Ok next_length =>
      if br_max_body_bytes r <? next_length
      then fail_with SL_HTTP_BODY_READER_STATE_FAILED (sl_http_backend_body_limit_diag out_diag)
      else if br_expected_body_bytes r <? next_length
      then fail_with SL_HTTP_BODY_READER_STATE_FAILED (sl_http_backend_invalid_body_diag out_diag)
      else
      on_error (in_build (sl_byte_builder_append_bytes REF chunk))
        (fun status => sl_http_body_reader_fail reader SL_HTTP_BODY_READER_STATE_FAILED status) ;;
      modify (fun s => set_reader (br_set_state SL_HTTP_BODY_READER_STATE_READING (bd_reader s)) s)
  end.

Definition sl_http_request_body_reader_finish (reader out_diag : nullable) : ST BodySys unit :=
  in_http (clear_diag out_diag) ;;
  r ← gets bd_reader ;
  return_if negb (sl_http_body_reader_usable reader r) with SL_STATUS_INVALID_ARGUMENT ;;
  sl_http_body_reader_check_terminal reader out_diag ;;
  body ← gets (fun s => sl_byte_builder_view REF (bs_builder (bd_build s))) ;
  if negb (bytes_length body =? br_expected_body_bytes r)
  then fail_with SL_HTTP_BODY_READER_STATE_FAILED (sl_http_backend_invalid_body_diag out_diag) else
  modify (fun s => set_http (put_body (br_request r) body (bd_http s)) s) ;;
  modify (fun s => set_reader (br_set_state SL_HTTP_BODY_READER_STATE_COMPLETED (bd_reader s)) s).

Definition sl_http_request_body_reader_close (reader out_diag : nullable) : ST BodySys unit :=
  in_http (clear_diag out_diag) ;;
  return_if is_null reader with SL_STATUS_INVALID_ARGUMENT ;;
  r ← gets bd_reader ;
  if br_is SL_HTTP_BODY_READER_STATE_CLOSED r then mret tt else
  (if negb (br_is SL_HTTP_BODY_READER_STATE_COMPLETED r) && negb (br_is SL_HTTP_BODY_READER_STATE_CANCELLED r) &&
      negb (br_is SL_HTTP_BODY_READER_STATE_TIMED_OUT r) && negb (br_is SL_HTTP_BODY_READER_STATE_FAILED r) &&
      negb (br_arena r =? 0)
   then in_world (sl_arena_reset_to (ref_of (br_arena r)) (br_mark r)) else mret tt) ;;
  modify (fun s => set_reader (br_set_state SL_HTTP_BODY_READER_STATE_CLOSED (bd_reader s)) s).
End Reader.

(** * How a reader ends *)

(** Something stops the request from being read further. *)
Definition disturbed (h : HttpSys) (r : Z) : bool :=
  let request := request_at h r in
  let backend := cn_backend (connection_at h (rq_connection request)) in
  negb (rq_connection request =? 0) && negb (backend =? 0) && be_is SL_HTTP_BACKEND_STATE_STOPPING (backend_at h backend)
  || tok_cancelled (rq_cancellation request).

Definition fatal (st : SlHttpBodyReaderState) : Prop :=
  st = SL_HTTP_BODY_READER_STATE_FAILED \/ st = SL_HTTP_BODY_READER_STATE_CANCELLED \/ st = SL_HTTP_BODY_READER_STATE_TIMED_OUT.

(** The mark of the reader can still be returned to. *)
Definition mark_live (s : BodySys) : Prop :=
  let a := w_arena (bs_world (bd_build s)) in
  let mark := br_mark (bd_reader s) in
  arena_wf a /\ mark_generation mark = ar_generation a /\ 0 <= mark_offset mark <= ar_offset a.

(** A reader that failed has given everything back: the arena is at its mark, the request
    has no body, has ended and holds no admission slot. *)
Record ended (r : Z) (s s' : BodySys) : Prop := {
  en_reader : fatal (br_state (bd_reader s'));
  en_arena : ar_offset (w_arena (bs_world (bd_build s'))) = mark_offset (br_mark (bd_reader s));
  en_body : hd_body (rq_head (request_at (bd_http s') r)) = sl_bytes_empty;
  en_state : sl_http_request_terminal (rq_state (request_at (bd_http s') r)) = true;
  en_released : rq_admitted (request_at (bd_http s') r) = false;
  en_inv : http_inv (bd_http s');
}.

Section Ending.
Context {BC : BuildConfig} {SC : SimdConfig} {RO : ReadOnlyData}.

Lemma put_body_quiet x r body h : quiet x h (put_body r body h).
Proof. apply quiet_upd_request; auto. Qed.

Lemma end_request_spec r st h :
  http_inv h -> r <> 0 -> fatal st ->
  let h' := end_request r st h in
  http_inv h' /\ rq_admitted (request_at h' r) = false /\ hd_body (rq_head (request_at h' r)) = sl_bytes_empty /\
  sl_http_request_terminal (rq_state (request_at h' r)) = true.
Proof.
  intros Hi Hr Hst. unfold end_request. set (h1 := put_body r sl_bytes_empty h).
  assert (Hi1 : http_inv h1) by (eapply quiet_keeps; [apply put_body_quiet|done]).
  assert (Hb : hd_body (rq_head (request_at h1 r)) = sl_bytes_empty).
  { unfold h1, put_body. store. by rewrite decide_True. }
  clearbody h1.
  assert (Hq : forall state, inv_except r (upd_request r (rq_set_state state) h1)).
  { intros state. eapply quiet_keeps; [|by apply inv_weaken]. apply quiet_upd_request; auto. }
  assert (Hat : forall state, rq_state (request_at (upd_request r (rq_set_state state) h1) r) = state /\
                hd_body (rq_head (request_at (upd_request r (rq_set_state state) h1) r)) = sl_bytes_empty).
  { intros state. store. by rewrite decide_True. }
  assert (Hcancel : forall state, sl_http_request_terminal state = true ->
    let h' := sl_http_request_terminal_cancel r state h1 in
    http_inv h' /\ rq_admitted (request_at h' r) = false /\ hd_body (rq_head (request_at h' r)) = sl_bytes_empty /\
    sl_http_request_terminal (rq_state (request_at h' r)) = true).
  { intros state Ht h'. split; [by apply terminal_cancel_inv|]. unfold h', sl_http_request_terminal_cancel.
    destruct (Z.eqb_spec r 0); [done|]. set (h2 := if negb _ then _ else _).
    assert (Q : quiet r (upd_request r (rq_set_state state) h1) h2).
    { unfold h2. destruct (negb _); [apply quiet_upd_connection; auto|done]. }
    destruct (release_keeps_request r h2 r) as [-> ->].
    split; [apply released, (quiet_keeps _ _ _ Q), Hq|].
    assert (E : request_at h2 r = request_at (upd_request r (rq_set_state state) h1) r) by (unfold h2; by destruct (negb _)).
    rewrite E. destruct (Hat state) as [-> ->]. done. }
  destruct Hst as [->|[->| ->]]; [|by apply Hcancel|by apply Hcancel].
  set (h2 := sl_http_request_set_connection_after_stream_terminal _ _ _).
  assert (Q : quiet r (upd_request r (rq_set_state SL_HTTP_REQUEST_STATE_FAILED) h1) h2) by (by apply quiet_after_terminal).
  assert (Hi2 : inv_except r h2) by (by eapply quiet_keeps).
  destruct (release_keeps_request r h2 r) as [-> ->].
  split; [by apply release_inv|]. split; [by apply released|].
  assert (E : request_at h2 r = request_at (upd_request r (rq_set_state SL_HTTP_REQUEST_STATE_FAILED) h1) r).
  { unfold h2, sl_http_request_set_connection_after_stream_terminal. destruct (_ =? 0); [done|]. by destruct (_ && _). }
  rewrite E. destruct (Hat SL_HTTP_REQUEST_STATE_FAILED) as [-> ->]. done.
Qed.

Lemma reader_fail_spec r st c s :
  br_request (bd_reader s) = r -> r <> 0 -> br_arena (bd_reader s) <> 0 -> mark_live s -> http_inv (bd_http s) -> fatal st ->
  exists s', sl_http_body_reader_fail REF st c s = (Err c, s') /\ ended r s s'.
Proof.
  intros <- Hr Ha (Hwf & Hg & Hm) Hi Hst. unfold sl_http_body_reader_fail, in_world, in_build, in_arena, zoom. unfold_st.
  cbn [is_null]. unfold ref_of. destruct (Z.eqb_spec (br_arena (bd_reader s)) 0); [done|].
  destruct (sl_arena_reset_to _ _ _) as [[[]|e] w'] eqn:E.
  - apply sl_arena_reset_to_ok in E as (_ & _ & Ea & _); [|done|lia].
    destruct (Z.eqb_spec (br_request (bd_reader s)) 0); [done|]. cbn [negb].
    eexists. split; [reflexivity|].
    destruct (end_request_spec (br_request (bd_reader s)) st (bd_http s) Hi Hr Hst) as (? & ? & ? & ?).
    split; cbn; try done. by rewrite Ea.
  - exfalso. revert E. unfold sl_arena_reset_to. unfold_st. cbn [is_null]. rewrite Hg, Z.eqb_refl. cbn [negb].
    unfold arena_wf in Hwf.
    destruct (Z.ltb_spec (ar_offset (w_arena (bs_world (bd_build s)))) (mark_offset (br_mark (bd_reader s)))); [lia|].
    destruct (Z.ltb_spec (ar_capacity (w_arena (bs_world (bd_build s)))) (mark_offset (br_mark (bd_reader s)))); [lia|].
    done.
Qed.

(** The reader's own part of what [reader_fail_spec] asks for. *)
Record open_reader (r : Z) (s : BodySys) : Prop := {
  or_request : br_request (bd_reader s) = r /\ r <> 0;
  or_arena : br_arena (bd_reader s) <> 0;
  or_mark : mark_live s;
  or_inv : http_inv (bd_http s);
}.

Lemma open_reader_fail r st c s :
  open_reader r s -> fatal st -> exists s', sl_http_body_reader_fail REF st c s = (Err c, s') /\ ended r s s'.
Proof. intros [[E Hr] Ha Hm Hi] Hst. by apply reader_fail_spec. Qed.

Lemma open_reader_http r h s : open_reader r s -> http_inv h -> open_reader r (set_http h s).
Proof. intros [? ? ? ?] Hi. by split. Qed.

Lemma fail_with_spec r st d code msg hint c s :
  open_reader r s -> fatal st ->
  exists s', fail_with st (sl_http_backend_diag d code msg hint c) s = (Err c, s') /\ ended r s s'.
Proof.
  intros Ho Hst. unfold fail_with. pose proof (quiet_refusal 0 d code msg hint c (bd_http s)) as Q.
  assert (Ec : fst (sl_http_backend_diag d code msg hint c (bd_http s)) = c)
    by (unfold sl_http_backend_diag; by destruct (is_null d)).
  destruct (sl_http_backend_diag d code msg hint c (bd_http s)) as [c' h]. cbn in Ec. subst c'.
  destruct (open_reader_fail r st c (set_http h s)) as (s' & E & [? ? ? ? ? ?]); [|done|].
  - apply open_reader_http; [done|]. exact (quiet_keeps _ _ _ Q (or_inv _ _ Ho)).
  - exists s'. split; [done|]. by split.
Qed.

Lemma check_terminal_spec r d s :
  open_reader r s ->
  if disturbed (bd_http s) r
  then exists c s', sl_http_body_reader_check_terminal REF d s = (Err c, s') /\ ended r s s'
  else sl_http_body_reader_check_terminal REF d s = (Ok tt, s).
Proof.
  intros Ho. pose proof (or_request _ _ Ho) as [E Hr]. unfold sl_http_body_reader_check_terminal, disturbed. unfold_st.
  rewrite E. cbn [is_null orb]. destruct (Z.eqb_spec r 0); [done|].
  set (request := request_at (bd_http s) r).
  set (stop := negb (rq_connection request =? 0) && _ && _). destruct stop; cbn [orb].
  - set (s1 := set_http _ s). assert (Ho1 : open_reader r s1).
    { apply open_reader_http; [done|]. unfold on_token, zoom. destruct (sl_cancellation_token_cancel _ _ _ _) as [o t]. cbn [snd].
      eapply quiet_keeps; [|apply Ho]. apply quiet_upd_request; auto. }
    destruct (fail_with_spec r SL_HTTP_BODY_READER_STATE_CANCELLED d SL_DIAG_HTTP_SHUTDOWN
      (sl_http_backend_literal "HTTP backend shutdown is in progress")
      (sl_http_backend_literal "new request work is rejected and active work must drain or cancel") SL_STATUS_CANCELLED s1)
      as (s' & E' & [? ? ? ? ? ?]); [done|unfold fatal; auto|].
    eexists _, s'. split; [exact E'|]. by split.
  - unfold sl_cancellation_token_is_cancelled. cbn [is_null negb andb].
    destruct (tok_cancelled (rq_cancellation request)) eqn:Et; cbn [negb]; [|done].
    repeat split_if; (eexists; eapply fail_with_spec; [done|unfold fatal; auto]).
Qed.
End Ending.

(** * Reading *)

(** A reader in the middle of a body: [built] is what has arrived. *)
Record reading (r : Z) (built : list Z) (s : BodySys) : Prop := {
  rg_open : open_reader r s;
  rg_state : br_state (bd_reader s) = SL_HTTP_BODY_READER_STATE_READY \/ br_state (bd_reader s) = SL_HTTP_BODY_READER_STATE_READING;
  rg_wf : builder_wf (bd_build s);
  rg_storage : bb_storage (bs_builder (bd_build s)) = SL_BUILDER_STORAGE_ARENA;
  rg_capacity : bb_capacity (bs_builder (bd_build s)) = br_expected_body_bytes (bd_reader s);
  rg_limit : br_expected_body_bytes (bd_reader s) <= br_max_body_bytes (bd_reader s);
  rg_built : contents (bd_build s) = built;
}.

(** A chunk the caller may pass: valid, and in memory of its own. *)
Definition chunk_ok (s : BodySys) (chunk : SlBytes) : Prop :=
  bytes_valid chunk /\ bytes_wf chunk /\ foreign (bd_build s) (bytes_ptr chunk) (bytes_length chunk).

Definition chunk_val (s : BodySys) (chunk : SlBytes) : list Z := bytes_val (bs_mem (bd_build s)) chunk.

Section Reading.
Context {BC : BuildConfig} {SC : SimdConfig} {RO : ReadOnlyData}.

(** An append that fits does not touch the arena. *)
Lemma append_fits_arena bytes s s' :
  builder_wf s -> bytes_valid bytes -> bytes_wf bytes ->
  bb_length (bs_builder s) + bytes_length bytes <= bb_capacity (bs_builder s) ->
  sl_byte_builder_append_bytes REF bytes s = (Ok tt, s') -> w_arena (bs_world s') = w_arena (bs_world s).
Proof.
  intros Hwf [_ Hv] (Hl & _) Hfit. pose proof (bw_bounds _ Hwf) as Hb.
  unfold sl_byte_builder_append_bytes, sl_byte_builder_validate_span. unfold_st. rewrite initialized by done. cbn [negb].
  destruct (Z.eqb_spec (bytes_length bytes) 0); cbn [negb andb]; [by intros [= <-]|].
  destruct (Z.eqb_spec (bytes_ptr bytes) 0); [lia|]. cbn [negb andb].
  destruct (reserve_outcome (bytes_length bytes) s) as [Hr _]; [done|size_lia|size_lia|].
  rewrite (Hr Hfit). by intros [= <-].
Qed.

Lemma view_length b : builder_wf b -> bytes_length (sl_byte_builder_view REF (bs_builder b)) = bb_length (bs_builder b).
Proof.
  intros Hwf. pose proof (bw_bounds _ Hwf). pose proof (bw_ptr _ Hwf) as (? & ? & ?). unfold sl_byte_builder_view. cbn [is_null orb].
  destruct (Z.eqb_spec (bb_length (bs_builder b)) 0) as [->|]; [done|].
  destruct (Z.eqb_spec (sl_byte_builder_data (bs_builder b)) 0); [lia|done].
Qed.

Lemma view_contents b : builder_wf b -> bytes_val (bs_mem b) (sl_byte_builder_view REF (bs_builder b)) = contents b.
Proof.
  intros Hwf. pose proof (bw_bounds _ Hwf). pose proof (bw_ptr _ Hwf) as (? & ? & ?).
  unfold contents, sl_byte_builder_view. cbn [is_null orb].
  destruct (Z.eqb_spec (bb_length (bs_builder b)) 0) as [->|]; [done|].
  destruct (Z.eqb_spec (sl_byte_builder_data (bs_builder b)) 0); [lia|done].
Qed.

Lemma reading_length r built s : reading r built s -> Z.of_nat (length built) = bb_length (bs_builder (bd_build s)).
Proof.
  intros H. rewrite <- (rg_built _ _ _ H). unfold contents. apply length_load_bytes.
  pose proof (bw_bounds _ (rg_wf _ _ _ H)). lia.
Qed.

Lemma reading_clear r built d s :
  reading r built s -> exists h, in_http (clear_diag d) s = (Ok tt, set_http h s) /\ reading r built (set_http h s) /\
    disturbed h r = disturbed (bd_http s) r /\ (forall q, request_at h q = request_at (bd_http s) q).
Proof.
  intros H. unfold in_http, zoom, clear_diag. unfold_st. eexists. split; [reflexivity|].
  destruct H as [Ho ? ? ? ? ? ?]. split.
  - split; try done. apply open_reader_http; [done|]. apply cleared_inv, Ho.
  - by destruct (is_null d).
Qed.

Lemma reading_usable r built s : reading r built s -> sl_http_body_reader_usable REF (bd_reader s) = true.
Proof.
  intros [[[E Hr] Ha _ _] Hst _ _ _ _ _]. unfold sl_http_body_reader_usable, br_is. rewrite E. cbn [is_null negb andb].
  destruct (Z.eqb_spec r 0), (Z.eqb_spec (br_arena (bd_reader s)) 0); try done. by destruct Hst as [-> | ->].
Qed.

(** What an accepted chunk leaves alone. *)
Record undisturbed_by (r : Z) (s s' : BodySys) : Prop := {
  ub_foreign : forall q n, foreign (bd_build s) q n ->
    foreign (bd_build s') q n /\ load_bytes (bs_mem (bd_build s')) q n = load_bytes (bs_mem (bd_build s)) q n;
  ub_expected : br_expected_body_bytes (bd_reader s') = br_expected_body_bytes (bd_reader s);
  ub_disturbed : disturbed (bd_http s') r = disturbed (bd_http s) r;
  ub_mark : br_mark (bd_reader s') = br_mark (bd_reader s);
  ub_kind : br_body_kind (bd_reader s') = br_body_kind (bd_reader s);
  ub_request : forall q, request_at (bd_http s') q = request_at (bd_http s) q;
}.

#[local] Instance undisturbed_by_preorder r : PreOrder (undisturbed_by r).
Proof.
  split; [by split|]. intros s1 s2 s3 [F1 E1 D1 M1 K1 R1] [F2 E2 D2 M2 K2 R2].
  split; [|congruence..|intros q; by rewrite R2]. intros q n H. destruct (F1 q n H) as [H1 L1], (F2 q n H1) as [H2 L2]. split; [done|congruence].
Qed.

Definition fits (r : Z) (built : list Z) (len : Z) (s : BodySys) : bool :=
  negb (disturbed (bd_http s) r) && (Z.of_nat (length built) + len <=? br_expected_body_bytes (bd_reader s)).

Lemma ended_http r h s s' : ended r (set_http h s) s' -> ended r s s'.
Proof. intros []. by split. Qed.

(** Outcome of a chunk: taken or refused. *)
Definition chunk_outcome (r : Z) (built : list Z) (chunk : SlBytes) (s : BodySys) (res : result unit * BodySys) : Prop :=
  match res with
  | (Ok _, s') => fits r built (bytes_length chunk) s = true /\ reading r (built ++ chunk_val s chunk) s' /\ undisturbed_by r s s'
  | (Err _, s') => fits r built (bytes_length chunk) s = false /\ ended r s s'
  end.

Lemma fail_outcome r built chunk c s :
  open_reader r s -> fits r built (bytes_length chunk) s = false ->
  chunk_outcome r built chunk s (sl_http_body_reader_fail REF SL_HTTP_BODY_READER_STATE_FAILED c s).
Proof. intros Ho Hf. by destruct (open_reader_fail r _ c s Ho ltac:(by left)) as (s' & -> & He). Qed.

Lemma fail_with_outcome r built chunk d code msg hint c s :
  open_reader r s -> fits r built (bytes_length chunk) s = false ->
  chunk_outcome r built chunk s (fail_with SL_HTTP_BODY_READER_STATE_FAILED (sl_http_backend_diag d code msg hint c) s).
Proof. intros Ho Hf. by destruct (fail_with_spec r _ d code msg hint c s Ho ltac:(by left)) as (s' & -> & He). Qed.

(** A chunk that fits is copied behind the others. *)
Lemma take_chunk r built chunk handler s :
  reading r built s -> chunk_ok s chunk -> disturbed (bd_http s) r = false ->
  bb_length (bs_builder (bd_build s)) + bytes_length chunk <= br_expected_body_bytes (bd_reader s) ->
  chunk_outcome r built chunk s
    ((on_error (in_build (sl_byte_builder_append_bytes REF chunk)) handler ;;
      modify (fun s => set_reader (br_set_state SL_HTTP_BODY_READER_STATE_READING (bd_reader s)) s)) s).
Proof.
  intros Hrd (Hv & Hbw & Hst & Hdj) Hd Hfit. pose proof (reading_length _ _ _ Hrd) as Hlen.
  destruct Hrd as [[Hq Ha [Hm1 Hm2] Hi] Hs Hwf Hsto Hcap Hlim Hb].
  destruct (append_bytes_fits chunk (bd_build s)) as (b' & E & Happ & _ & Hc' & _); try done; [lia|].
  pose proof (append_fits_arena chunk (bd_build s) b' Hwf Hv Hbw ltac:(lia) E) as Har.
  unfold on_error, in_build, zoom. unfold_st. rewrite E. split; [unfold fits; rewrite Hd; cbn; lia|]. split.
  - split; cbn; try done.
    + split; cbn; try done. unfold mark_live in *. cbn. by rewrite Har.
    + by right.
    + apply Happ.
    + by rewrite (proj1 (ad_storage _ _ _ Happ)).
    + by rewrite Hc'.
    + rewrite (ad_contents _ _ _ Happ), Hb. done.
  - split; cbn; try done. apply Happ.
Qed.

Lemma append_spec r built chunk d s :
  reading r built s -> chunk_ok s chunk -> chunk_outcome r built chunk s (sl_http_request_body_reader_append REF chunk d s).
Proof.
  intros Hrd0 Hck. destruct (reading_clear r built d s Hrd0) as (h & Ec & Hrd & Ed & Eq).
  enough (chunk_outcome r built chunk (set_http h s) (sl_http_request_body_reader_append REF chunk d s)) as H.
  { unfold chunk_outcome, fits in *. cbn [bd_http set_http] in H. rewrite Ed in H.
    destruct (sl_http_request_body_reader_append REF chunk d s) as [[] s'].
    - destruct H as (? & ? & [? ? ? ? ? R]). cbn in *. split; [done|]. split; [done|]. split; try done; [congruence|].
      intros q. by rewrite R, Eq.
    - destruct H as [? ?]. split; [done|]. by eapply ended_http. }
  unfold sl_http_request_body_reader_append. unfold mbind at 1, st_bind at 1. rewrite Ec.
  assert (Hck1 : chunk_ok (set_http h s) chunk) by exact Hck. clear Hck Ec Hrd0 Ed Eq.
  set (s1 := set_http h s) in *. clearbody s1. unfold_st. rewrite (reading_usable _ _ _ Hrd). cbn [negb orb].
  pose proof Hck1 as ([Hl Hv] & (Hl' & Hp0 & Hp1) & _).
  destruct ((bytes_ptr chunk =? 0) && negb (bytes_length chunk =? 0)) eqn:Ep.
  { destruct (Z.eqb_spec (bytes_ptr chunk) 0), (Z.eqb_spec (bytes_length chunk) 0); try done; lia. }
  pose proof (rg_open _ _ _ Hrd) as Ho. pose proof (check_terminal_spec r d s1 Ho) as Hct.
  destruct (disturbed (bd_http s1) r) eqn:Edist.
  { destruct Hct as (c & s' & -> & He). split; [|done]. unfold fits. by rewrite Edist. }
  rewrite Hct, view_length by apply Hrd. pose proof (bw_bounds _ (rg_wf _ _ _ Hrd)) as Hb.
  pose proof (rg_capacity _ _ _ Hrd) as Hcap. pose proof (rg_limit _ _ _ Hrd) as Hlim.
  assert (Hover : br_expected_body_bytes (bd_reader s1) < bb_length (bs_builder (bd_build s1)) + bytes_length chunk ->
                  fits r built (bytes_length chunk) s1 = false).
  { unfold fits. rewrite (reading_length _ _ _ Hrd). lia. }
  rewrite checked_add_spec by size_lia. unfold checked.
  destruct (Z.leb_spec (bb_length (bs_builder (bd_build s1)) + bytes_length chunk) SIZE_MAX); [|apply fail_outcome; auto with lia].
  destruct (Z.ltb_spec (br_max_body_bytes (bd_reader s1)) (bb_length (bs_builder (bd_build s1)) + bytes_length chunk));
    [apply fail_with_outcome; auto with lia|].
  destruct (Z.ltb_spec (br_expected_body_bytes (bd_reader s1)) (bb_length (bs_builder (bd_build s1)) + bytes_length chunk));
    [apply fail_with_outcome; auto|].
  by apply take_chunk.
Qed.

(** Outcome of the end of a body: it becomes the body of the request, or the reader fails. *)
Definition finish_outcome (r : Z) (built : list Z) (s : BodySys) (res : result unit * BodySys) : Prop :=
  match res with
  | (Ok _, s') =>
      disturbed (bd_http s) r = false /\ Z.of_nat (length built) = br_expected_body_bytes (bd_reader s) /\
      bytes_val (bs_mem (bd_build s')) (hd_body (rq_head (request_at (bd_http s') r))) = built /\
      br_state (bd_reader s') = SL_HTTP_BODY_READER_STATE_COMPLETED /\ http_inv (bd_http s') /\
      bd_build s' = bd_build s /\ (exists body, request_at (bd_http s') r = request_at (put_body r body (bd_http s)) r)
  | (Err _, s') =>
      (disturbed (bd_http s) r = true \/ Z.of_nat (length built) <> br_expected_body_bytes (bd_reader s)) /\ ended r s s'
  end.

Lemma finish_spec r built d s :
  reading r built s -> finish_outcome r built s (sl_http_request_body_reader_finish REF d s).
Proof.
  intros Hrd0. destruct (reading_clear r built d s Hrd0) as (h & Ec & Hrd & Ed & Eq).
  enough (finish_outcome r built (set_http h s) (sl_http_request_body_reader_finish REF d s)) as H.
  { unfold finish_outcome, put_body, upd_request in *. cbn [bd_http set_http] in H. rewrite Ed in H.
    destruct (sl_http_request_body_reader_finish REF d s) as [[] s'].
    { destruct H as (? & ? & ? & ? & ? & ? & body & Hb). rewrite request_at_put, Eq in Hb.
      repeat (split; [done|]). exists body. by rewrite request_at_put. }
    destruct H as [? ?]. split; [done|]. by eapply ended_http. }
  unfold sl_http_request_body_reader_finish. unfold mbind at 1, st_bind at 1. rewrite Ec. clear Ec Hrd0 Ed Eq.
  set (s1 := set_http h s) in *. clearbody s1.
  unfold_st. rewrite (reading_usable _ _ _ Hrd). cbn [negb].
  pose proof (rg_open _ _ _ Hrd) as Ho. pose proof (check_terminal_spec r d s1 Ho) as Hct.
  destruct (disturbed (bd_http s1) r) eqn:Edist.
  { destruct Hct as (c & s' & -> & He). by split; [left|]. }
  rewrite Hct, view_length by apply Hrd. pose proof (reading_length _ _ _ Hrd) as Hlen.
  destruct (Z.eqb_spec (bb_length (bs_builder (bd_build s1))) (br_expected_body_bytes (bd_reader s1))); cbn [negb].
  - split; [done|]. split; [congruence|]. rewrite (proj1 (or_request _ _ Ho)). unfold set_http, set_reader, put_body, upd_request. cbn [bd_http bd_build bd_reader].
    split; [|split; [done|split; [|split; [done|by eexists]]]].
    + rewrite request_at_put, decide_True by done. cbn [hd_body rq_head rq_set_head set_body]. rewrite view_contents by apply Hrd. apply Hrd.
    + eapply quiet_keeps; [apply put_body_quiet|apply Ho].
  - destruct (fail_with_spec r SL_HTTP_BODY_READER_STATE_FAILED d SL_DIAG_INVALID_HTTP_REQUEST
      (sl_http_backend_literal "HTTP request body length is invalid")
      (sl_http_backend_literal "the body reader must receive exactly the declared Content-Length")
      SL_STATUS_INVALID_ARGUMENT s1 Ho ltac:(by left)) as (s' & E & He).
    unfold sl_http_backend_invalid_body_diag. rewrite E. split; [right; congruence|done].
Qed.

(** What [begin] is given when it succeeds. *)
Record may_begin (r : Z) (content_type : SlStr) (content_length : Z) (kind : SlHttpRequestBodyKind) (s : BodySys) : Prop := {
  mb_request : r <> 0 /\ rq_arena (request_at (bd_http s) r) <> 0 /\ rq_connection (request_at (bd_http s) r) <> 0;
  mb_type : sl_http_backend_str_valid content_type = true;
  mb_state : rq_state (request_at (bd_http s) r) = SL_HTTP_REQUEST_STATE_READING;
  mb_inv : http_inv (bd_http s);
  mb_calm : disturbed (bd_http s) r = false;
  mb_limit : 0 <= content_length <=
    body_limit (cn_backend (connection_at (bd_http s) (rq_connection (request_at (bd_http s) r)))) (bd_http s);
  mb_kind : forall d h, sl_http_body_reader_classify (bs_mem (bd_build (clear_reader s))) content_type content_length REF d h = (Ok kind, h);
  mb_arena : arena_wf (w_arena (bs_world (bd_build s)));
  mb_room : 0 < content_length -> ar_base (w_arena (bs_world (bd_build s))) <> 0 /\
    ar_offset (w_arena (bs_world (bd_build s))) + content_length <= ar_capacity (w_arena (bs_world (bd_build s)));
  mb_limit_size : body_limit (cn_backend (connection_at (bd_http s) (rq_connection (request_at (bd_http s) r)))) (bd_http s) <= SIZE_MAX;
}.

(** Memory the body reader leaves alone from its first call on. *)
Definition caller_chunk (s : BodySys) (q n : Z) : Prop :=
  outside_free (w_arena (bs_world (bd_build s))) q n /\
  disjoint_ranges q n (bb_small (bs_builder (bd_build s))) SL_BYTE_BUILDER_SMALL_CAPACITY.

(** An arena builder with room for [n] bytes. *)
Lemma init_arena_ok n mx small w :
  arena_wf (w_arena w) -> 0 <= n <= mx -> mx <= SIZE_MAX ->
  (0 < n -> ar_base (w_arena w) <> 0 /\ ar_offset (w_arena w) + n <= ar_capacity (w_arena w)) ->
  exists b, sl_byte_builder_init_arena REF REF n mx {| bs_world := w; bs_builder := local_builder small |} = (Ok tt, b) /\
    builder_wf b /\ bb_storage (bs_builder b) = SL_BUILDER_STORAGE_ARENA /\ bb_capacity (bs_builder b) = n /\
    contents b = [] /\ arena_wf (w_arena (bs_world b)) /\
    ar_generation (w_arena (bs_world b)) = ar_generation (w_arena w) /\
    ar_offset (w_arena w) <= ar_offset (w_arena (bs_world b)) /\
    (forall q k, outside_free (w_arena w) q k -> disjoint_ranges q k small SL_BYTE_BUILDER_SMALL_CAPACITY ->
       foreign b q k /\ load_bytes (bs_mem b) q k = load_bytes (w_mem w) q k).
Proof.
  intros Hwf Hn Hmx Hroom. unfold sl_byte_builder_init_arena, in_arena, zoom, publish_builder. unfold_st.
  cbn [is_null orb]. destruct (Z.ltb_spec mx n); [lia|].
  assert (Hfill : forall m q k, disjoint_ranges q k small SL_BYTE_BUILDER_SMALL_CAPACITY ->
    load_bytes (fill m small (Z.to_nat SL_BYTE_BUILDER_SMALL_CAPACITY) 0) q k = load_bytes m q k).
  { intros m q k Hq. eapply load_bytes_same; [apply fill_same_outside|]. unfold disjoint_ranges, SL_BYTE_BUILDER_SMALL_CAPACITY in *. lia. }
  destruct (Z.eqb_spec n 0) as [->|Hn0]; cbn [negb].
  - eexists. split; [reflexivity|]. split.
    { split; try done; unfold settled, outside_free, disjoint_ranges; cbn; lia. }
    split; [done|]. split; [done|]. split; [done|]. split; [done|]. split; [done|]. split; [cbn; lia|].
    intros q k Hq Hs. split; [split; [by intros _|unfold disjoint_ranges; cbn; lia]|]. by apply Hfill.
  - pose proof (sl_arena_alloc_cases n 1 w Hwf ltac:(size_lia) ltac:(size_lia)) as Hc. cbn [bs_world].
    destruct (sl_arena_alloc REF n 1 REF w) as [[p|e] w1] eqn:E.
    2:{ exfalso. destruct Hc as [_ Hc]. destruct (Hroom ltac:(lia)) as [? ?].
        assert (Hpow : sl_arena_is_power_of_two 1 = true) by done. rewrite Hpow in Hc.
        pose proof (arena_padding_bound (w_arena w) 1 ltac:(lia)). destruct Hc as [?|[?|[?|?]]]; [done|done|done|lia]. }
    destruct Hc as (_ & _ & Hpost). apply sl_arena_alloc_fresh in E as [_ [F1 F2 F3 F4 F5 F6]]; [|done|size_lia|size_lia].
    eexists. split; [reflexivity|]. split.
    { split; try done; [cbn; lia|change (sl_byte_builder_data _) with p; cbn; lia|intros _; exact F4]. }
    split; [done|]. split; [done|]. split; [done|]. split; [exact F3|].
    split; [cbn; by rewrite (ap_arena _ _ _ _ _ Hpost)|]. split.
    { cbn. pose proof (ap_end _ _ _ _ _ Hpost). pose proof (ap_first _ _ _ _ _ Hpost).
      pose proof (arena_padding_bound (w_arena w) 1 ltac:(lia)). lia. }
    intros q k Hq Hs. destruct (F6 q k Hq) as (Hd & El & Ho). split.
    + split; [by intros _|]. cbn. unfold disjoint_ranges in *. change (sl_byte_builder_data _) with p. lia.
    + rewrite <- El. by apply Hfill.
Qed.

Lemma may_begin_clear r ct len kind d s :
  may_begin r ct len kind s ->
  may_begin r ct len kind (set_http (if is_null d then bd_http s else put_diag zero_diag (bd_http s)) s).
Proof.
  intros [A B C Hi D E F G K L]. pose proof (cleared_inv d (bd_http s) Hi). destruct (is_null d); by split.
Qed.

Lemma begin_ok r ct len kind d s :
  may_begin r ct len kind s ->
  exists s', sl_http_request_body_reader_begin r ct len REF d s = (Ok tt, s') /\ reading r [] s' /\
    br_expected_body_bytes (bd_reader s') = len /\ br_body_kind (bd_reader s') = kind /\
    disturbed (bd_http s') r = false /\ (forall q, request_at (bd_http s') q = request_at (bd_http s) q) /\
    (forall q k, caller_chunk s q k ->
       foreign (bd_build s') q k /\ load_bytes (bs_mem (bd_build s')) q k = load_bytes (bs_mem (bd_build s)) q k).
Proof.
  intros Hmb0. pose proof (may_begin_clear r ct len kind d s Hmb0) as Hmb.
  unfold sl_http_request_body_reader_begin, in_http, zoom, clear_diag. unfold_st. cbn [is_null].
  set (h := if is_null d then bd_http s else _) in *.
  assert (Hat : forall q, request_at h q = request_at (bd_http s) q) by (intros q; unfold h; by destruct (is_null d)). clearbody h.
  destruct Hmb as [(Hr & Ha & Hc) Ht Hst Hi Hd Hl Hk Hw Hroom Hsz]. cbn [bd_http set_http] in *. clear Hmb0.
  change (bd_http (clear_reader (set_http h s))) with h.
  destruct (Z.eqb_spec r 0), (Z.eqb_spec (rq_arena (request_at h r)) 0), (Z.eqb_spec (rq_connection (request_at h r)) 0); try done.
  rewrite Ht. unfold rq_is. rewrite bool_decide_eq_true_2 by done. cbn [orb negb].
  set (s1 := clear_reader (set_http h s)) in *. change (bd_http s1) with h.
  set (mx := body_limit _ h) in *. unfold ref_of. destruct (Z.eqb_spec (rq_arena (request_at h r)) 0); [done|].
  set (s2 := set_reader _ s1).
  assert (Ho : open_reader r s2).
  { split; [done|done| |exact Hi]. unfold mark_live. split; [exact Hw|]. cbn. unfold arena_wf in Hw. cbn in Hw. lia. }
  pose proof (check_terminal_spec r d s2 Ho) as Hct. change (bd_http s2) with h in Hct. rewrite Hd in Hct. rewrite Hct.
  destruct (Z.ltb_spec mx len); [lia|]. unfold on_error. change (w_mem (bs_world (bd_build s1))) with (bs_mem (bd_build s1)).
  rewrite Hk. unfold in_build, zoom. cbn [bd_build set_http s2 set_reader s1 clear_reader].
  set (w1 := set_mem _ _).
  destruct (init_arena_ok len mx (bb_small (bs_builder (bd_build s))) w1 Hw Hl Hsz Hroom)
    as (b & Eb & Hbw & Hbs & Hbc & Hbe & Haw & Hg & Hoff & Hfor).
  rewrite Eb. eexists. split; [reflexivity|]. split; [|split; [done|split; [done|split; [done|split; [exact Hat|]]]]].
  - split; cbn; try done; [|by left]. split; cbn; try done. split; [done|]. cbn. split; [done|].
    unfold arena_wf in Hw. cbn in *. lia.
  - intros q k [Hq Hs]. destruct (Hfor q k Hq Hs) as [? El]. split; [done|]. cbn [bd_build set_reader set_build]. rewrite El.
    unfold w1. cbn. eapply load_bytes_same; [apply fill_same_outside|]. unfold disjoint_ranges, SL_BYTE_BUILDER_SMALL_CAPACITY in *. lia.
Qed.

(** Chunks handed over one after the other. *)
Fixpoint append_all (d : nullable) (chunks : list SlBytes) : ST BodySys unit :=
  match chunks with
  | [] => mret tt
  | chunk :: chunks => sl_http_request_body_reader_append REF chunk d ;; append_all d chunks
  end.

(** A body of known length read from beginning to end. *)
Definition read_body (r : Z) (content_type : SlStr) (content_length : Z) (chunks : list SlBytes) (d : nullable) : ST BodySys unit :=
  sl_http_request_body_reader_begin r content_type content_length REF d ;;
  append_all d chunks ;;
  sl_http_request_body_reader_finish REF d.

Definition total_length (chunks : list SlBytes) : Z := fold_right (fun c n => bytes_length c + n) 0 chunks.

Definition concat_val (m : mem) (chunks : list SlBytes) : list Z := mjoin (map (bytes_val m) chunks).

Lemma total_nonneg s chunks : Forall (chunk_ok s) chunks -> 0 <= total_length chunks.
Proof. induction 1 as [|c cs ([? _] & _) _ IH]; cbn [total_length fold_right]; [lia|]. unfold total_length in IH. lia. Qed.

Lemma length_concat_val m s chunks : Forall (chunk_ok s) chunks -> Z.of_nat (length (concat_val m chunks)) = total_length chunks.
Proof.
  induction 1 as [|c cs ([? _] & _) _ IH]; [done|].
  change (concat_val m (c :: cs)) with (bytes_val m c ++ concat_val m cs). cbn [total_length fold_right].
  fold (total_length cs). unfold bytes_val. rewrite length_app, Nat2Z.inj_add, length_load_bytes by done. lia.
Qed.

Lemma append_all_ok r d chunks built s :
  reading r built s -> Forall (chunk_ok s) chunks -> disturbed (bd_http s) r = false ->
  Z.of_nat (length built) + total_length chunks <= br_expected_body_bytes (bd_reader s) ->
  exists s', append_all d chunks s = (Ok tt, s') /\
    reading r (built ++ concat_val (bs_mem (bd_build s)) chunks) s' /\ undisturbed_by r s s'.
Proof.
  revert built s. induction chunks as [|c cs IH]; intros built s Hrd Hcs Hd Hlen; cbn [append_all].
  { eexists. split; [reflexivity|]. unfold concat_val. cbn. by rewrite app_nil_r. }
  apply Forall_cons in Hcs as [Hc Hcs]. pose proof (append_spec r built c d s Hrd Hc) as Ha. unfold chunk_outcome, fits in Ha.
  pose proof (total_nonneg s cs Hcs) as Hnn. cbn [total_length fold_right] in Hlen. fold (total_length cs) in Hlen.
  unfold mbind, st_bind. destruct (sl_http_request_body_reader_append REF c d s) as [[[]|e] s1].
  2:{ destruct Ha as [Hf _]. rewrite Hd in Hf. cbn in Hf. lia. }
  destruct Ha as (_ & Hrd1 & Hu). pose proof Hu as [Hfor Hexp Hdis _ _ _].
  assert (Hlc : Z.of_nat (length (chunk_val s c)) = bytes_length c).
  { unfold chunk_val, bytes_val. apply length_load_bytes. destruct Hc as ([? _] & _). done. }
  destruct (IH (built ++ chunk_val s c) s1 Hrd1) as (s' & E & Hrd' & Hu').
  - eapply Forall_impl; [exact Hcs|]. intros c' (? & ? & Hf'). split; [done|]. split; [done|]. by apply Hfor.
  - congruence.
  - rewrite length_app, Hexp. lia.
  - exists s'. split; [exact E|]. split; [|by etrans]. rewrite <- app_assoc in Hrd'.
    replace (concat_val (bs_mem (bd_build s)) (c :: cs)) with (chunk_val s c ++ concat_val (bs_mem (bd_build s1)) cs); [done|].
    unfold concat_val. cbn. unfold chunk_val. f_equal. f_equal. apply map_ext_Forall.
    eapply Forall_impl; [exact Hcs|]. intros c' (_ & _ & Hf'). by apply Hfor.
Qed.

(** C23: a chunk of a request body is accepted exactly when nothing has cancelled the
    request or begun to stop its backend and the body stays within its declared length; it
    is then the next part of the body.  In every other case the reader fails and gives
    everything back: the arena is at the mark taken when the body was begun, the request
    has ended without a body, and it has released its admission slot, the accounts of the
    backend being exact again. *)
Theorem body_chunk_exact r built chunk d s :
  reading r built s -> chunk_ok s chunk ->
  match sl_http_request_body_reader_append REF chunk d s with
  | (Ok _, s') => fits r built (bytes_length chunk) s = true /\ reading r (built ++ chunk_val s chunk) s'
  | (Err _, s') => fits r built (bytes_length chunk) s = false /\ ended r s s'
  end.
Proof.
  intros Hrd Hc. pose proof (append_spec r built chunk d s Hrd Hc) as H. unfold chunk_outcome in H.
  by destruct (sl_http_request_body_reader_append REF chunk d s) as [[] s']; [destruct H as (? & ? & _)|].
Qed.

(** A body whose chunks add up to its declared length, within the limit and with room
    in the arena, is always read to the end, and the body of the request is the
    concatenation of the chunks. *)
Theorem body_read_complete r content_type kind chunks d s :
  may_begin r content_type (total_length chunks) kind s ->
  Forall (fun c => bytes_valid c /\ bytes_wf c /\ caller_chunk s (bytes_ptr c) (bytes_length c)) chunks ->
  exists s', read_body r content_type (total_length chunks) chunks d s = (Ok tt, s') /\
    bytes_val (bs_mem (bd_build s')) (hd_body (rq_head (request_at (bd_http s') r))) = concat_val (bs_mem (bd_build s)) chunks /\
    br_state (bd_reader s') = SL_HTTP_BODY_READER_STATE_COMPLETED /\ http_inv (bd_http s').
Proof.
  intros Hmb Hcs. destruct (begin_ok r content_type (total_length chunks) kind d s Hmb) as (s1 & E1 & Hrd & Hexp & _ & Hd & _ & Hfor).
  assert (Hck : Forall (chunk_ok s1) chunks).
  { eapply Forall_impl; [exact Hcs|]. intros c (? & ? & Hcc). split; [done|]. split; [done|]. by apply Hfor. }
  assert (Eval : concat_val (bs_mem (bd_build s1)) chunks = concat_val (bs_mem (bd_build s)) chunks).
  { unfold concat_val. f_equal. apply map_ext_Forall. eapply Forall_impl; [exact Hcs|]. intros c (_ & _ & Hcc). by apply Hfor. }
  destruct (append_all_ok r d chunks [] s1 Hrd Hck Hd) as (s2 & E2 & Hrd2 & Hu); [cbn; lia|].
  pose proof (finish_spec r _ d s2 Hrd2) as Hf. unfold read_body. unfold_st. rewrite E1, E2.
  destruct (sl_http_request_body_reader_finish REF d s2) as [[[]|e] s3]; cbn [app] in *; unfold finish_outcome in Hf.
  - exists s3. split; [done|]. rewrite <- Eval. tauto.
  - exfalso. destruct Hf as [[Hf|Hf] _].
    + rewrite (ub_disturbed _ _ _ Hu), Hd in Hf. done.
    + apply Hf. rewrite (ub_expected _ _ _ Hu), Hexp. by eapply length_concat_val.
Qed.
End Reading.

Module Demo.
#[local] Instance build0 : BuildConfig := assert_build.
#[local] Instance simd0 : SimdConfig := {| SL_STRING_SIMD := SCALAR; SL_BYTES_SIMD := SCALAR |}.
#[local] Existing Instance HttpAdmission.Demo.rodata0.

(** A request whose head has been parsed. *)
Definition calls : list http_call :=
  [CallBackendInit 1 None; CallBackendStart 1 0; CallAccept 1 10; CallRequestBegin 10 7 100; CallParseHead 100 sl_bytes_empty].
Definition http0 : HttpSys := run_calls HttpAdmission.Demo.parser0 REF calls empty_store.

Lemma http0_reachable : rtc (http_step HttpAdmission.Demo.parser0) empty_store http0.
Proof.
  unfold http0, calls.
  apply next_step; [split; [split; vm_compute; reflexivity|by split]|].
  apply next_step; [exact I|].
  apply next_step.
  { split; [vm_compute; reflexivity|]. intros r. unfold request_at.
    replace (hs_requests _) with (∅ : gmap Z SlHttpRequestLifecycle) by (vm_compute; reflexivity).
    by rewrite lookup_total_empty. }
  apply next_step; [vm_compute; reflexivity|].
  apply next_step; [exact I|]. cbn [run_calls]. reflexivity.
Qed.

(** The media type at the address of the literal, a chunk of three bytes, an arena. *)
Definition body0 : BodySys :=
  {| bd_http := http0;
     bd_build := {| bs_world := {| w_mem := store (store (fun _ => 0) 4096 (string_bytes "text/plain")) 5000 [97; 98; 99];
                                   w_arena := {| ar_base := 8192; ar_capacity := 64; ar_offset := 0; ar_high_water := 0; ar_generation := 1 |} |};
                    bs_builder := local_builder 7000 |};
     bd_reader := zero_reader |}.
Definition type0 : SlStr := sl_str_from_parts 4096 10.
Definition chunks0 : list SlBytes := [sl_bytes_from_parts 5000 2; sl_bytes_from_parts 5002 1].

Lemma body0_begins : may_begin 100 type0 (total_length chunks0) SL_HTTP_REQUEST_BODY_TEXT body0.
Proof.
  split; try (vm_compute; reflexivity).
  - split; [done|]. split; vm_compute; discriminate.
  - apply (reachable_inv HttpAdmission.Demo.parser0), http0_reachable.
  - split; vm_compute; discriminate.
  - unfold arena_wf. cbn. unfold UINTPTR_MAX, UINT32_MAX. lia.
  - intros _. split; vm_compute; discriminate.
  - vm_compute. discriminate.
Qed.

Lemma chunks0_ok :
  Forall (fun c => bytes_valid c /\ bytes_wf c /\ caller_chunk body0 (bytes_ptr c) (bytes_length c)) chunks0.
Proof.
  unfold caller_chunk, outside_free, disjoint_ranges, SL_BYTE_BUILDER_SMALL_CAPACITY, bytes_valid, bytes_wf, UINTPTR_MAX.
  repeat constructor; cbn; lia.
Qed.

Lemma body_read_complete_witness :
  exists s', read_body 100 type0 3 chunks0 REF body0 = (Ok tt, s') /\
    bytes_val (bs_mem (bd_build s')) (hd_body (rq_head (request_at (bd_http s') 100))) = [97; 98; 99].
Proof.
  destruct (body_read_complete 100 type0 SL_HTTP_REQUEST_BODY_TEXT chunks0 REF body0 body0_begins chunks0_ok) as (s' & E & V & _).
  exists s'. split; [exact E|]. rewrite V. reflexivity.
Defined.

(** After the first two bytes of a body of three. *)
Lemma body_chunk_exact_witness :
  exists s, reading 100 [] s /\
    match sl_http_request_body_reader_append REF (sl_bytes_from_parts 5000 2) REF s with
    | (Ok _, s') => reading 100 [97; 98] s'
    | (Err _, _) => False
    end.
Proof.
  destruct (begin_ok 100 type0 3 SL_HTTP_REQUEST_BODY_TEXT REF body0 body0_begins) as (s & E & Hrd & Hexp & _ & Hd & _ & Hfor).
  exists s. split; [exact Hrd|].
  assert (Hcc : caller_chunk body0 5000 2).
  { unfold caller_chunk, outside_free, disjoint_ranges, SL_BYTE_BUILDER_SMALL_CAPACITY. cbn. lia. }
  assert (Hck : chunk_ok s (sl_bytes_from_parts 5000 2)).
  { split; [split; cbn; lia|]. split; [unfold bytes_wf, UINTPTR_MAX; cbn; lia|]. by apply Hfor. }
  pose proof (body_chunk_exact 100 [] (sl_bytes_from_parts 5000 2) REF s Hrd Hck) as H.
  destruct (sl_http_request_body_reader_append REF (sl_bytes_from_parts 5000 2) REF s) as [[] s'].
  - destruct H as [_ H]. revert H. unfold chunk_val, bytes_val. cbn [bytes_ptr bytes_length sl_bytes_from_parts app].
    destruct (Hfor 5000 2 Hcc) as [_ El]. by rewrite El.
  - destruct H as [Hf _]. unfold fits in Hf. rewrite Hd, Hexp in Hf. discriminate Hf.
Defined.
End Demo.
