(* ===== verification/HttpBodyStream.v ===== *)
(** A request body as a stream (src/core/http_backend.c, [sl_http_request_body_readable_init]):
    the memory adapter of the streams over the body the reader has stored. *)

From stdpp Require Import strings gmap.
From Stdlib Require Import Strings.Ascii.
From S2P Require Import Prelude Memory Status Arena Str Bytes Async Sink Builder Diag Stream StreamMemory HttpResponse HttpBackend HttpBody.

Open Scope Z_scope.

(** A stream over a body that has been read, cancelled with the request unless the caller
    gives a token of its own; [token] is the address of the request's. *)
Definition sl_http_request_body_readable_init (adapter : nullable) (request token : Z)
    (options : option SlStreamOptions) (out_stream : nullable) (h : HttpSys)
    : ST AdapterWorld SlReadableStream :=
  let body := hd_body (rq_head (request_at h request)) in
  return_if is_null adapter || (request =? 0) || is_null out_stream ||
            (bytes_ptr body =? 0) && negb (bytes_length body =? 0) with SL_STATUS_INVALID_ARGUMENT ;;
  let stream_options := default sl_stream_default_options options in
  let stream_options :=
    if so_cancellation stream_options =? 0
    then {| so_max_chunk_bytes := so_max_chunk_bytes stream_options;
            so_max_buffered_bytes := so_max_buffered_bytes stream_options;
            so_max_chunks := so_max_chunks stream_options;
            so_cancellation := token |}
    else stream_options in
  let chunks := if bytes_length body =? 0 then None else Some [body] in
  sl_memory_readable_stream_init adapter chunks (if bytes_length body =? 0 then 0 else 1)
    (Some stream_options) out_stream.

(** The stream is open, has the bytes of the body before it, and is cancelled by the
    caller's token or else by the request's. *)
Lemma body_stream_starts request token options h k :
  let body := hd_body (rq_head (request_at h request)) in
  request <> 0 -> bytes_valid body ->
  exists stream k', sl_http_request_body_readable_init REF request token options REF h k = (Ok stream, k') /\
    reader_left k' = bytes_val (aw_mem k) body /\ rd_state stream = SL_STREAM_STATE_OPEN /\
    rd_cancellation stream = (let c := so_cancellation (default sl_stream_default_options options) in if c =? 0 then token else c).
Proof.
  intros body Hr [Hl Hv]. unfold sl_http_request_body_readable_init. fold body. cbn [is_null orb].
  destruct (Z.eqb_spec request 0); [done|]. cbn [orb]. unfold sl_memory_readable_stream_init. unfold_st.
  destruct (Z.eqb_spec (bytes_length body) 0) as [E|E].
  - rewrite andb_false_r. eexists _, _. split; [reflexivity|]. split; [unfold reader_left, bytes_val; by rewrite E|].
    split; [done|]. cbn. by destruct (so_cancellation _ =? 0).
  - destruct (Z.eqb_spec (bytes_ptr body) 0); [lia|]. eexists _, _. split; [reflexivity|]. split.
    + change (drop 0 (bytes_val (aw_mem k) body) ++ [] = bytes_val (aw_mem k) body). by rewrite app_nil_r.
    + split; [done|]. cbn. by destruct (so_cancellation _ =? 0).
Qed.
