(* ===== verification/HttpMedia.v ===== *)
(** Which bodies a request may have: the classification of media types
    (src/core/http_backend.c), by the bytes of the Content-Type. *)

From stdpp Require Import strings gmap.
From Stdlib Require Import Strings.Ascii.
From S2P Require Import Prelude Memory Status Arena Str Bytes Simd Diag HttpResponse HttpBackend HttpAdmission HttpBody.

Open Scope Z_scope.

(** * Specification *)

Fixpoint drop_ows (l : list Z) : list Z :=
  match l with
  | [] => []
  | c :: l' => if is_ows c then drop_ows l' else l
  end.

Definition trim (l : list Z) : list Z := rev (drop_ows (rev (drop_ows l))).

Fixpoint before_semicolon (l : list Z) : list Z :=
  match l with
  | [] => []
  | c :: l => if c =? 59 then [] else c :: before_semicolon l
  end.

(** The media type of a Content-Type, without its parameters, in lower case. *)
Definition media_of (content_type : list Z) : list Z := map ascii_lower (trim (before_semicolon content_type)).

Definition is_text (l : list Z) (s : string) : bool := bool_decide (l = string_bytes s).

(** [application/json], or [application/.....+json] with something in between. *)
Definition is_json (media : list Z) : bool :=
  is_text media "application/json" ||
  ((17 <? Z.of_nat (length media)) && is_text (take 12 media) "application/" &&
   is_text (drop (length media - 5) media) "+json").

Definition media_kind (media : list Z) : option SlHttpRequestBodyKind :=
  if is_json media then Some SL_HTTP_REQUEST_BODY_JSON
  else if is_text media "text/plain" then Some SL_HTTP_REQUEST_BODY_TEXT
  else if is_text media "application/octet-stream" then Some SL_HTTP_REQUEST_BODY_BYTES
  else if is_text media "application/x-www-form-urlencoded" then Some SL_HTTP_REQUEST_BODY_FORM
  else if is_text media "multipart/form-data" then Some SL_HTTP_REQUEST_BODY_MULTIPART
  else None.

Definition is_form (media : list Z) : bool :=
  is_text media "application/x-www-form-urlencoded" || is_text media "multipart/form-data".

(** The kind of a body, or nothing when its type is not supported. *)
Definition body_kind (content_type : list Z) (content_length : Z) : option SlHttpRequestBodyKind :=
  if bool_decide (trim content_type = []) then if content_length =? 0 then Some SL_HTTP_REQUEST_BODY_NONE else None
  else if (content_length =? 0) && negb (is_form (media_of content_type)) then Some SL_HTTP_REQUEST_BODY_NONE
  else media_kind (media_of content_type).

(** * The loops *)

Lemma skip_front_spec m p n :
  (skip_front m p n <= n)%nat /\ load m (p + Z.of_nat (skip_front m p n)) (n - skip_front m p n) = drop_ows (load m p n).
Proof.
  revert p. induction n as [|n IH]; intros p; [done|]. cbn [skip_front load drop_ows]. destruct (is_ows (ld8 m p)).
  - destruct (IH (p + 1)) as [? E]. split; [lia|]. rewrite <- E. f_equal; lia.
  - split; [lia|]. by rewrite Z.add_0_r.
Qed.

Lemma skip_back_spec m p n :
  (skip_back m p n <= n)%nat /\ load m p (skip_back m p n) = rev (drop_ows (rev (load m p n))).
Proof.
  induction n as [|n [IH1 IH2]]; [done|]. cbn [skip_back].
  replace (load m p (S n)) with (load m p n ++ [ld8 m (p + Z.of_nat n)]) by (replace (S n) with (n + 1)%nat by lia; by rewrite load_app).
  rewrite rev_app_distr. cbn [rev app drop_ows]. destruct (is_ows (ld8 m (p + Z.of_nat n))).
  - split; [lia|done].
  - split; [lia|]. cbn [rev]. rewrite rev_involutive. replace (S n) with (n + 1)%nat by lia. by rewrite load_app.
Qed.

Lemma until_semicolon_spec m p n :
  (until_semicolon m p n <= n)%nat /\ load m p (until_semicolon m p n) = before_semicolon (load m p n).
Proof.
  revert p. induction n as [|n IH]; intros p; [done|]. cbn [until_semicolon load before_semicolon].
  destruct (ld8 m p =? 59); cbn [negb]; [split; [lia|done]|]. destruct (IH (p + 1)) as [? E]. split; [lia|]. cbn [load]. by rewrite E.
Qed.

(** A view a caller may pass, short enough for the vector routines. *)
Record text_view (v : SlStr) : Prop := {
  tv_valid : str_valid v;
  tv_ptr : 0 <= str_ptr v;
  tv_short : simd_length (str_length v);
}.

Lemma trim_spec m v :
  text_view v ->
  text_view (sl_http_backend_trim_ascii_space m v) /\ str_val m (sl_http_backend_trim_ascii_space m v) = trim (str_val m v).
Proof.
  intros [[Hl Hv] Hp Hs]. unfold sl_http_backend_trim_ascii_space.
  destruct (Z.eqb_spec (str_ptr v) 0) as [E|E].
  { assert (E0 : str_length v = 0) by lia. split; [split; [split; cbn; lia|cbn; lia|unfold simd_length; cbn; size_lia]|].
    unfold str_val. by rewrite E0. }
  cbv zeta. set (len := Z.to_nat (str_length v)).
  destruct (skip_front_spec m (str_ptr v) len) as [Hb Eb]. set (begin := skip_front m (str_ptr v) len) in *.
  destruct (skip_back_spec m (str_ptr v + Z.of_nat begin) (len - begin)) as [Hk Ek].
  split.
  - unfold simd_length in *. split; [split; cbn; lia|cbn; lia|unfold simd_length; cbn; lia].
  - unfold str_val, load_bytes. cbn [str_ptr str_length sl_str_from_parts]. rewrite Nat2Z.id, Ek, Eb. done.
Qed.

Lemma media_type_spec m v :
  text_view v ->
  text_view (sl_http_backend_media_type m v) /\
  str_val m (sl_http_backend_media_type m v) = trim (before_semicolon (str_val m v)).
Proof.
  intros [[Hl Hv] Hp Hs]. unfold sl_http_backend_media_type.
  destruct (Z.eqb_spec (str_ptr v) 0) as [E|E].
  { assert (E0 : str_length v = 0) by lia. split; [split; [split; cbn; lia|cbn; lia|unfold simd_length; cbn; size_lia]|].
    unfold str_val. by rewrite E0. }
  cbv zeta. destruct (until_semicolon_spec m (str_ptr v) (Z.to_nat (str_length v))) as [Hu Eu].
  destruct (trim_spec m (sl_str_from_parts (str_ptr v) (Z.of_nat (until_semicolon m (str_ptr v) (Z.to_nat (str_length v)))))) as [Ht Et].
  { unfold simd_length in *. split; [split; cbn; lia|cbn; lia|unfold simd_length; cbn; lia]. }
  split; [exact Ht|]. rewrite Et. unfold str_val at 1, load_bytes. cbn [str_ptr str_length sl_str_from_parts].
  by rewrite Nat2Z.id, Eu.
Qed.

(** * Comparison with literals *)

(** The literals the classification compares with. *)
Definition media_literals : list string :=
  ["application/"; "+json"; "application/json"; "text/plain"; "application/octet-stream";
   "application/x-www-form-urlencoded"; "multipart/form-data"]%string.

(** Membership of a concrete literal. *)
Ltac listed := match goal with |- ?P => refine (bool_decide_unpack P _); vm_compute; exact I end.

Section Classify.
Context {SC : SimdConfig} {RO : ReadOnlyData}.

(** The literals are in memory. *)
Definition literals_in (m : mem) (ls : list string) : Prop :=
  forall l, l ∈ ls -> 0 < rodata l /\ str_val m (literal l) = string_bytes l.

Lemma lower_literal l : l ∈ media_literals -> map ascii_lower (string_bytes l) = string_bytes l.
Proof.
  unfold media_literals. intros H. repeat (apply elem_of_cons in H as [->|H]; [reflexivity|]). by apply not_elem_of_nil in H.
Qed.

(** Comparison with a literal in lower case, whatever the case of the view. *)
Lemma equal_ci_literal m ls v l :
  literals_in m ls -> l ∈ ls -> map ascii_lower (string_bytes l) = string_bytes l -> text_view v ->
  sl_str_equal_ci_ascii m v (literal l) = is_text (map ascii_lower (str_val m v)) l.
Proof.
  intros Hlit Hl Hlow [Hv Hp Hs]. destruct (Hlit l Hl) as [Hr El]. rewrite sl_str_equal_ci_ascii_scalar_eq by done.
  rewrite sl_str_equal_ci_scalar_spec; [|done|split; cbn; unfold string_size; lia].
  by rewrite El, Hlow.
Qed.

Lemma media_equal m v l :
  literals_in m media_literals -> l ∈ media_literals -> text_view v ->
  sl_str_equal_ci_ascii m v (literal l) = is_text (map ascii_lower (str_val m v)) l.
Proof. intros Hlit Hl Hv. apply (equal_ci_literal m media_literals); auto using lower_literal. Qed.

Lemma starts_with_literal m v l :
  literals_in m media_literals -> l ∈ media_literals -> text_view v ->
  string_size l <= str_length v -> 0 < string_size l ->
  sl_str_starts_with_ci_ascii m v (literal l) = is_text (take (Z.to_nat (string_size l)) (map ascii_lower (str_val m v))) l.
Proof.
  intros Hlit Hl Hv Hlen Hpos. pose proof Hv as [[H0 Hv'] Hp Hs]. destruct (Hlit l Hl) as [Hr _].
  unfold sl_str_starts_with_ci_ascii, literal at 1 2 3 4. cbn [str_length str_ptr sl_str_from_parts].
  destruct (Z.eqb_spec (string_size l) 0); [lia|]. destruct (Z.ltb_spec (str_length v) (string_size l)); [lia|].
  destruct (Z.eqb_spec (str_ptr v) 0); [lia|]. destruct (Z.eqb_spec (rodata l) 0); [lia|]. cbn [orb].
  rewrite media_equal; [|done|done|].
  - unfold str_val. cbn [str_ptr str_length sl_str_from_parts literal]. rewrite firstn_map, load_bytes_take by lia. done.
  - unfold simd_length in *. split; [split; cbn; lia|cbn; lia|unfold simd_length; cbn; lia].
Qed.

Lemma ends_with_literal m v l :
  literals_in m media_literals -> l ∈ media_literals -> text_view v ->
  string_size l <= str_length v -> 0 < string_size l ->
  sl_str_ends_with_ci_ascii m v (literal l) =
    is_text (drop (Z.to_nat (str_length v - string_size l)) (map ascii_lower (str_val m v))) l.
Proof.
  intros Hlit Hl Hv Hlen Hpos. pose proof Hv as [[H0 Hv'] Hp Hs]. destruct (Hlit l Hl) as [Hr _].
  unfold sl_str_ends_with_ci_ascii, literal at 1 2 3 4 5. cbn [str_length str_ptr sl_str_from_parts].
  destruct (Z.eqb_spec (string_size l) 0); [lia|]. destruct (Z.ltb_spec (str_length v) (string_size l)); [lia|].
  destruct (Z.eqb_spec (str_ptr v) 0); [lia|]. destruct (Z.eqb_spec (rodata l) 0); [lia|]. cbn [orb].
  rewrite media_equal; [|done|done|].
  - unfold str_val. cbn [str_ptr str_length sl_str_from_parts literal]. rewrite skipn_map, load_bytes_drop by lia.
    do 3 f_equal. lia.
  - unfold simd_length in *. split; [split; cbn; lia|cbn; lia|unfold simd_length; cbn; lia].
Qed.

Lemma media_json m v :
  literals_in m media_literals -> text_view v ->
  sl_http_backend_media_type_json m v = is_json (map ascii_lower (str_val m v)).
Proof.
  intros Hlit Hv. unfold sl_http_backend_media_type_json, is_json. cbv zeta.
  rewrite media_equal by (done || listed). f_equal.
  change (str_length (literal "application/") + str_length (literal "+json")) with 17.
  pose proof (length_str_val m v (proj1 (tv_valid _ Hv))) as Hlen. rewrite length_map, Hlen.
  destruct (Z.ltb_spec 17 (str_length v)); [|done]. cbn [andb].
  rewrite starts_with_literal, ends_with_literal; try done; try listed.
  2-3: change (string_size "+json") with 5; change (string_size "application/") with 12; lia.
  change (string_size "+json") with 5. change (Z.to_nat (string_size "application/")) with 12%nat.
  do 3 f_equal. lia.
Qed.

Lemma view_empty m v : text_view v -> sl_str_is_empty v = bool_decide (str_val m v = []).
Proof.
  intros [[Hl _] _ _]. unfold sl_str_is_empty. pose proof (length_str_val m v Hl) as E.
  destruct (bool_decide_reflect (str_val m v = [])) as [F|F].
  - rewrite F in E. cbn in E. by rewrite <- E.
  - destruct (Z.eqb_spec (str_length v) 0) as [E0|]; [|done]. rewrite E0 in E. by destruct (str_val m v).
Qed.

Lemma classify_spec m content_type content_length d h :
  literals_in m media_literals -> text_view content_type ->
  sl_http_body_reader_classify m content_type content_length REF d h =
    match body_kind (str_val m content_type) content_length with
    | Some kind => (Ok kind, h)
    | None => refuse (sl_http_backend_unsupported_media_diag d) h
    end.
Proof.
  intros Hlit Hv. destruct (trim_spec m _ Hv) as [Ht Et]. destruct (media_type_spec m _ Hv) as [Hm Em].
  unfold sl_http_body_reader_classify, body_kind, media_kind, is_form, media_of. cbn [is_null orb].
  replace (sl_http_backend_str_valid content_type) with true by (symmetry; exact (str_valid_storage _ (tv_valid _ Hv))).
  cbn [negb]. rewrite (view_empty m) by done. rewrite Et, <- Em, !media_equal, media_json by (done || listed).
  destruct (bool_decide _); [by destruct (_ =? 0)|]. rewrite negb_orb, andb_assoc.
  repeat (split_if; [done|]). done.
Qed.

(** The kind of a request body is decided by the media type of its Content-Type -
    parameters, surrounding blanks and letter case ignored - and by whether it is empty:
    JSON for [application/json] and for [application/...+json], text, octets, forms and
    multipart forms for their types, none for an empty body of any other type; every other
    combination is refused as unsupported. *)
Theorem body_kind_exact m content_type content_length d h :
  literals_in m media_literals -> text_view content_type ->
  sl_http_body_reader_classify m content_type content_length REF d h =
    match body_kind (str_val m content_type) content_length with
    | Some kind => (Ok kind, h)
    | None => refuse (sl_http_backend_unsupported_media_diag d) h
    end.
Proof. apply classify_spec. Qed.
End Classify.

Module Demo.
#[local] Instance simd0 : SimdConfig := {| SL_STRING_SIMD := SSE2; SL_BYTES_SIMD := SCALAR |}.
(** Literals a hundred bytes apart. *)
Definition address (l : string) : Z :=
  match list_find (fun x => x = l) media_literals with Some (i, _) => 4096 + 100 * Z.of_nat i | None => 0 end.
#[local] Instance rodata0 : ReadOnlyData := {| rodata := address |}.
Definition given : string := " Application/vnd.api+JSON ; charset=utf-8".
Definition m0 : mem :=
  store (fold_left (fun m l => store m (address l) (string_bytes l)) media_literals (fun _ => 0)) 9000 (string_bytes given).
Definition type0 : SlStr := sl_str_from_parts 9000 (string_size given).

Lemma literals0 : literals_in m0 media_literals.
Proof.
  intros l H. unfold media_literals in H.
  repeat (apply elem_of_cons in H as [->|H]; [split; vm_compute; reflexivity|]). by apply not_elem_of_nil in H.
Qed.

Lemma body_kind_exact_witness :
  sl_http_body_reader_classify m0 type0 2 REF NULL HttpAdmission.empty_store = (Ok SL_HTTP_REQUEST_BODY_JSON, HttpAdmission.empty_store).
Proof.
  rewrite (body_kind_exact m0 type0 2 NULL HttpAdmission.empty_store literals0).
  - vm_compute. reflexivity.
  - split; [split; [|right]; vm_compute; discriminate|vm_compute; discriminate|split; vm_compute; discriminate].
Defined.
End Demo.
