(* ===== verification/Http2Map.v ===== *)
(** HTTP/2 header lists as requests (src/core/http2_mapping.c, the request half, and the
    method names of src/core/http.c).

    The state is that of HttpBody: the store of backends, connections and requests, the
    world with the request's arena, and the body reader, a local variable of the mapping.
    Header arrays are lists, with the pointer kept beside them. *)

From stdpp Require Import strings gmap.
From Stdlib Require Import Strings.Ascii.
From S2P Require Import Prelude Memory Status Arena Str Bytes Simd StrArena Async Sink Builder Diag HttpResponse HttpBackend HttpBody.

Open Scope Z_scope.

Record SlHttp2HeaderField := { h2_name : SlStr; h2_value : SlStr; h2_sensitive : bool }.
Record SlHttp2HeaderList := { hl_ptr : nullable; hl_fields : list SlHttp2HeaderField }.

Definition hl_count (l : SlHttp2HeaderList) : Z := Z.of_nat (length (hl_fields l)).

Definition SL_HTTP_HEADER_SIZE : Z := 32.
Definition SL_HTTP_HEADER_ALIGNMENT : Z := 8.

(** * Validation of names and values *)

Definition sl_http2_mapping_valid_str (str : SlStr) : bool := (str_length str =? 0) || negb (str_ptr str =? 0).
Definition sl_http2_mapping_valid_bytes (bytes : SlBytes) : bool := (bytes_length bytes =? 0) || negb (bytes_ptr bytes =? 0).

Definition sl_http2_header_value_valid (m : mem) (value : SlStr) : bool :=
  if negb (sl_http2_mapping_valid_str value) then false else
  each_byte header_value_byte m (str_ptr value) (Z.to_nat (str_length value)).

Definition sl_http2_header_name_char_valid (ch : Z) : bool :=
  ((97 <=? ch) && (ch <=? 122)) || ((48 <=? ch) && (ch <=? 57)) ||
  (ch =? 33) || (ch =? 35) || (ch =? 36) || (ch =? 37) || (ch =? 38) || (ch =? 39) ||
  (ch =? 42) || (ch =? 43) || (ch =? 45) || (ch =? 46) || (ch =? 94) || (ch =? 95) ||
  (ch =? 96) || (ch =? 124) || (ch =? 126).

Definition sl_http2_header_name_valid (m : mem) (name : SlStr) : bool :=
  if (str_ptr name =? 0) || (str_length name =? 0) then false else
  each_byte sl_http2_header_name_char_valid m (str_ptr name) (Z.to_nat (str_length name)).

(** The loop over the digits, [result] so far. *)
Fixpoint parse_decimal_loop (m : mem) (ptr : Z) (n : nat) (result : Z) : option Z :=
  match n with
  | O => Some result
  | S n =>
      let ch := ld8 m ptr in
      if (ch <? 48) || (57 <? ch) then None else
      let digit := ch - 48 in
      if (SIZE_MAX - digit) / 10 <? result then None else
      parse_decimal_loop m (ptr + 1) n (result * 10 + digit)
  end.

Definition sl_http2_parse_decimal_size (m : mem) (value : SlStr) (out : nullable) : option Z :=
  if is_null out || (str_ptr value =? 0) || (str_length value =? 0) then None else
  parse_decimal_loop m (str_ptr value) (Z.to_nat (str_length value)) 0.

(** The bytes before the first question mark: their number. *)
Fixpoint until_query (m : mem) (ptr : Z) (n : nat) : nat :=
  match n with
  | O => O
  | S n => if ld8 m ptr =? 63 then O else S (until_query m (ptr + 1) n)
  end.

Definition sl_http2_path_from_target (m : mem) (target : SlStr) : SlStr :=
  let n := Z.to_nat (str_length target) in
  let index := until_query m (str_ptr target) n in
  if (index <? n)%nat then sl_str_from_parts (str_ptr target) (Z.of_nat index) else target.

Definition sl_http2_effective_parse_options (connection : Z) (h : HttpSys) : SlHttpParseOptions :=
  let backend := cn_backend (connection_at h connection) in
  if negb (connection =? 0) && negb (backend =? 0)
  then effective_parse (bo_parse (be_options (backend_at h backend)))
  else default_parse.

Section Request.
Context {BC : BuildConfig} {SC : SimdConfig} {RO : ReadOnlyData}.

Definition sl_http_method_from_str (m : mem) (method : SlStr) (out_method : nullable) : result SlHttpMethod :=
  error_if is_null out_method with SL_STATUS_INVALID_ARGUMENT ;;
  let len := str_length method in
  if (len =? 3) && sl_str_equal m method (literal "GET") then Ok SL_HTTP_METHOD_GET
  else if (len =? 3) && sl_str_equal m method (literal "PUT") then Ok SL_HTTP_METHOD_PUT
  else if (len =? 4) && sl_str_equal m method (literal "POST") then Ok SL_HTTP_METHOD_POST
  else if (len =? 4) && sl_str_equal m method (literal "HEAD") then Ok SL_HTTP_METHOD_HEAD
  else if (len =? 5) && sl_str_equal m method (literal "PATCH") then Ok SL_HTTP_METHOD_PATCH
  else if (len =? 6) && sl_str_equal m method (literal "DELETE") then Ok SL_HTTP_METHOD_DELETE
  else if (len =? 7) && sl_str_equal m method (literal "OPTIONS") then Ok SL_HTTP_METHOD_OPTIONS
  else Err SL_STATUS_UNSUPPORTED.

Definition sl_http_method_supported (method : SlHttpMethod) : bool :=
  match method with
  | SL_HTTP_METHOD_GET | SL_HTTP_METHOD_POST | SL_HTTP_METHOD_PUT | SL_HTTP_METHOD_PATCH | SL_HTTP_METHOD_DELETE => true
  | _ => false
  end.

Definition sl_http2_request_header_forbidden (m : mem) (name value : SlStr) : bool :=
  sl_str_equal_ci_ascii m name (literal "connection") ||
  sl_str_equal_ci_ascii m name (literal "keep-alive") ||
  sl_str_equal_ci_ascii m name (literal "proxy-connection") ||
  sl_str_equal_ci_ascii m name (literal "transfer-encoding") ||
  sl_str_equal_ci_ascii m name (literal "upgrade") ||
  (sl_str_equal_ci_ascii m name (literal "te") && negb (sl_str_equal_ci_ascii m value (literal "trailers"))).

(** * The scan of the header list *)

(** The local variables of the loop. *)
Record scan := {
  sc_method : SlStr;
  sc_scheme : SlStr;
  sc_target : SlStr;
  sc_authority : SlStr;
  sc_host : SlStr;
  sc_content_type : SlStr;
  sc_has_content_type : bool;
  sc_has_content_length : bool;
  sc_declared : Z;
  sc_regular_seen : bool;
  sc_regular_count : Z;
  sc_total : Z;
}.

Definition scan_start : scan :=
  Build_scan sl_str_empty sl_str_empty sl_str_empty sl_str_empty sl_str_empty sl_str_empty false false 0 false 0 0.

Definition sc_add_total (n : Z) (s : scan) : scan :=
  {| sc_method := sc_method s; sc_scheme := sc_scheme s; sc_target := sc_target s; sc_authority := sc_authority s;
     sc_host := sc_host s; sc_content_type := sc_content_type s; sc_has_content_type := sc_has_content_type s;
     sc_has_content_length := sc_has_content_length s; sc_declared := sc_declared s;
     sc_regular_seen := sc_regular_seen s; sc_regular_count := sc_regular_count s; sc_total := wrap64 (sc_total s + n) |}.

(** The four pseudo-headers. *)
Inductive pseudo := PMethod | PScheme | PPath | PAuthority.

#[export] Instance pseudo_eq_dec : EqDecision pseudo.
Proof. solve_decision. Defined.

Definition sc_pseudo (p : pseudo) (s : scan) : SlStr :=
  match p with PMethod => sc_method s | PScheme => sc_scheme s | PPath => sc_target s | PAuthority => sc_authority s end.

Definition sc_set_pseudo (p : pseudo) (v : SlStr) (s : scan) : scan :=
  {| sc_method := match p with PMethod => v | _ => sc_method s end;
     sc_scheme := match p with PScheme => v | _ => sc_scheme s end;
     sc_target := match p with PPath => v | _ => sc_target s end;
     sc_authority := match p with PAuthority => v | _ => sc_authority s end;
     sc_host := sc_host s; sc_content_type := sc_content_type s; sc_has_content_type := sc_has_content_type s;
     sc_has_content_length := sc_has_content_length s; sc_declared := sc_declared s;
     sc_regular_seen := sc_regular_seen s; sc_regular_count := sc_regular_count s; sc_total := sc_total s |}.

Definition pseudo_name (p : pseudo) : string :=
  match p with PMethod => ":method" | PScheme => ":scheme" | PPath => ":path" | PAuthority => ":authority" end.

(** [if (sl_str_equal(name, ":method")) ... else if ...]. *)
Definition which_pseudo (m : mem) (name : SlStr) : option pseudo :=
  if sl_str_equal m name (literal (pseudo_name PMethod)) then Some PMethod
  else if sl_str_equal m name (literal (pseudo_name PScheme)) then Some PScheme
  else if sl_str_equal m name (literal (pseudo_name PPath)) then Some PPath
  else if sl_str_equal m name (literal (pseudo_name PAuthority)) then Some PAuthority
  else None.

Definition scan_pseudo (p : pseudo) (value : SlStr) (s : scan) : result scan :=
  error_if sc_regular_seen s with SL_STATUS_INVALID_ARGUMENT ;;
  error_if negb (sl_str_is_empty (sc_pseudo p s)) with SL_STATUS_INVALID_ARGUMENT ;;
  Ok (sc_set_pseudo p value s).

Definition scan_regular (m : mem) (name value : SlStr) (s : scan) : result scan :=
  error_if negb (str_length name =? 0) && (ld8 m (str_ptr name) =? 58) with SL_STATUS_INVALID_ARGUMENT ;;
  error_if negb (sl_http2_header_name_valid m name) || negb (sl_http2_header_value_valid m value) ||
           sl_http2_request_header_forbidden m name value with SL_STATUS_INVALID_ARGUMENT ;;
  let is_type := sl_str_equal_ci_ascii m name (literal "content-type") in
  let is_length := sl_str_equal_ci_ascii m name (literal "content-length") in
  let is_host := sl_str_equal_ci_ascii m name (literal "host") in
  declared ← (if is_length then
                if sc_has_content_length s then Err SL_STATUS_INVALID_ARGUMENT else
                match sl_http2_parse_decimal_size m value REF with
                | Some n => Ok n
                | None => Err SL_STATUS_INVALID_ARGUMENT
                end
              else Ok (sc_declared s)) ;
  error_if is_host && negb (sl_str_is_empty (sc_host s)) with SL_STATUS_INVALID_ARGUMENT ;;
  Ok {| sc_method := sc_method s; sc_scheme := sc_scheme s; sc_target := sc_target s; sc_authority := sc_authority s;
        sc_host := if is_host then value else sc_host s;
        sc_content_type := if is_type then value else sc_content_type s;
        sc_has_content_type := is_type || sc_has_content_type s;
        sc_has_content_length := is_length || sc_has_content_length s;
        sc_declared := declared;
        sc_regular_seen := true; sc_regular_count := wrap64 (sc_regular_count s + 1); sc_total := sc_total s |}.

(** One round of the loop. *)
Definition scan_field (m : mem) (limits : SlHttpParseOptions) (header : SlHttp2HeaderField) (s : scan) : result scan :=
  let name := h2_name header in
  let value := h2_value header in
  error_if negb (sl_http2_mapping_valid_str name) || negb (sl_http2_mapping_valid_str value) ||
           (po_max_header_name_length limits <? str_length name) || (po_max_header_value_length limits <? str_length value) ||
           (SIZE_MAX - str_length value <? str_length name) ||
           (SIZE_MAX - wrap64 (str_length name + str_length value) <? sc_total s) with SL_STATUS_INVALID_ARGUMENT ;;
  let s := sc_add_total (str_length name + str_length value) s in
  error_if po_max_total_header_bytes limits <? sc_total s with SL_STATUS_CAPACITY_EXCEEDED ;;
  match which_pseudo m name with
  | Some p => scan_pseudo p value s
  | None => scan_regular m name value s
  end.

Fixpoint scan_fields (m : mem) (limits : SlHttpParseOptions) (headers : list SlHttp2HeaderField) (s : scan) : result scan :=
  match headers with
  | [] => Ok s
  | header :: headers => s ← scan_field m limits header s ; scan_fields m limits headers s
  end.

(** The tests after the loop; [false] for a request that is refused. *)
Definition scan_acceptable (m : mem) (limits : SlHttpParseOptions) (connection_scheme : SlStr) (body_length : Z) (s : scan) : bool :=
  negb ((str_ptr (sc_method s) =? 0) || (str_length (sc_method s) =? 0) ||
        (str_ptr (sc_scheme s) =? 0) || (str_length (sc_scheme s) =? 0) ||
        (str_ptr (sc_target s) =? 0) || (str_length (sc_target s) =? 0) || negb (ld8 m (str_ptr (sc_target s)) =? 47) ||
        (po_max_target_length limits <? str_length (sc_target s)) ||
        (negb (sl_str_equal m (sc_scheme s) (literal "http")) && negb (sl_str_equal m (sc_scheme s) (literal "https"))) ||
        (negb (str_ptr connection_scheme =? 0) && negb (str_length connection_scheme =? 0) &&
         negb (sl_str_equal m (sc_scheme s) connection_scheme)) ||
        sl_str_equal_ci_ascii m (sc_method s) (literal "CONNECT") ||
        (sl_str_is_empty (sc_authority s) && sl_str_is_empty (sc_host s)) ||
        (negb (sl_str_is_empty (sc_authority s)) && negb (sl_str_is_empty (sc_host s)) &&
         negb (sl_str_equal m (sc_host s) (sc_authority s))) ||
        (sc_has_content_length s && negb (sc_declared s =? body_length))).

(** * Building the request *)

Definition sl_http2_copy_header (arena : nullable) (name value : SlStr) (out : nullable) : ST World SlHttpHeader :=
  return_if is_null arena || is_null out with SL_STATUS_INVALID_ARGUMENT ;;
  copied_name ← sl_str_copy_view_to_arena arena name REF ;
  copied_value ← sl_str_copy_view_to_arena arena value REF ;
  mret {| hh_name := copied_name; hh_value := copied_value |}.

(** The fields that become request headers: no pseudo-header, and no [host], which comes
    from the effective authority. *)
Definition copies_field (m : mem) (effective_authority : SlStr) (header : SlHttp2HeaderField) : bool :=
  let name := h2_name header in
  if negb (str_length name =? 0) && (ld8 m (str_ptr name) =? 58) then false
  else if negb (sl_str_is_empty effective_authority) && sl_str_equal_ci_ascii m name (literal "host") then false
  else true.

(** The copying loop; [copied] are the headers stored so far. *)
Fixpoint copy_fields (effective_authority : SlStr) (headers : list SlHttp2HeaderField) (copied : list SlHttpHeader)
    : ST World (list SlHttpHeader) :=
  match headers with
  | [] => mret copied
  | header :: headers =>
      m ← gets w_mem ;
      if copies_field m effective_authority header then
        h ← sl_http2_copy_header REF (h2_name header) (h2_value header) REF ;
        copy_fields effective_authority headers (copied ++ [h])
      else copy_fields effective_authority headers copied
  end.

(** Assignments to fields of the head. *)
Definition hd_set_method method h :=
  {| hd_method := method; hd_version_major := hd_version_major h; hd_version_minor := hd_version_minor h;
     hd_path := hd_path h; hd_raw_target := hd_raw_target h; hd_headers_ptr := hd_headers_ptr h;
     hd_headers := hd_headers h; hd_body := hd_body h |}.
Definition hd_set_target target h :=
  {| hd_method := hd_method h; hd_version_major := hd_version_major h; hd_version_minor := hd_version_minor h;
     hd_path := hd_path h; hd_raw_target := target; hd_headers_ptr := hd_headers_ptr h;
     hd_headers := hd_headers h; hd_body := hd_body h |}.
Definition hd_set_path path h :=
  {| hd_method := hd_method h; hd_version_major := hd_version_major h; hd_version_minor := hd_version_minor h;
     hd_path := path; hd_raw_target := hd_raw_target h; hd_headers_ptr := hd_headers_ptr h;
     hd_headers := hd_headers h; hd_body := hd_body h |}.
(** HTTP/2, with the headers at [ptr]. *)
Definition hd_set_headers ptr headers h :=
  {| hd_method := hd_method h; hd_version_major := 2; hd_version_minor := 0; hd_path := hd_path h;
     hd_raw_target := hd_raw_target h; hd_headers_ptr := ptr; hd_headers := headers; hd_body := hd_body h |}.

(** The header array: storage for all of them, [host] first, then the regular fields. *)
Definition copy_headers (limits : SlHttpParseOptions) (effective_authority : SlStr) (regular_count : Z)
    (headers : list SlHttp2HeaderField) : ST World (Z * list SlHttpHeader) :=
  let count := if negb (sl_str_is_empty effective_authority) then wrap64 (regular_count + 1) else regular_count in
  return_if po_max_headers limits <? count with SL_STATUS_CAPACITY_EXCEEDED ;;
  storage ← (if negb (count =? 0)
             then bytes ← lift (sl_checked_array_size count SL_HTTP_HEADER_SIZE REF) ;
                  sl_arena_alloc REF bytes SL_HTTP_HEADER_ALIGNMENT REF
             else mret 0) ;
  first ← (if negb (sl_str_is_empty effective_authority)
           then h ← sl_http2_copy_header REF (literal "host") effective_authority REF ; mret [h]
           else mret []) ;
  copied ← copy_fields effective_authority headers first ;
  mret (storage, copied).

(** [sl_http_request_fail(out_request, out_diag); return status]. *)
Definition fail_request {A} (request : Z) (out_diag : nullable) (status : SlStatusCode) : ST BodySys A := fun s =>
  (Err status, set_http (snd (sl_http_request_fail request out_diag (bd_http s))) s).

(** A copy into the arena; the request fails with it. *)
Definition or_fail {A} (request : Z) (out_diag : nullable) (c : ST World A) : ST BodySys A :=
  on_error (in_world c) (fail_request request out_diag).

Definition set_head (request : Z) (f : SlHttpRequestHead -> SlHttpRequestHead) : ST BodySys unit :=
  modify (fun s => set_http (upd_request request (fun r => rq_set_head (f (rq_head r)) r) (bd_http s)) s).

(** The second half of [sl_http2_request_from_headers]: the request has begun and the list
    has been scanned. *)
Definition build_request (connection out_request : Z) (limits : SlHttpParseOptions) (headers : list SlHttp2HeaderField)
    (sc : scan) (body : SlBytes) (out_diag : nullable) : ST BodySys unit :=
  let effective_authority := if sl_str_is_empty (sc_authority sc) then sc_host sc else sc_authority sc in
  m ← gets (fun s => bs_mem (bd_build s)) ;
  match sl_http_method_from_str m (sc_method sc) REF with
  | Err status => fail_request out_request out_diag status
  | Ok method =>
      set_head out_request (hd_set_method method) ;;
      copied ← or_fail out_request out_diag (copy_headers limits effective_authority (sc_regular_count sc) headers) ;
      raw_target ← or_fail out_request out_diag (sl_str_copy_view_to_arena REF (sc_target sc) REF) ;
      set_head out_request (hd_set_target raw_target) ;;
      m ← gets (fun s => bs_mem (bd_build s)) ;
      path ← or_fail out_request out_diag
        (sl_str_copy_view_to_arena REF (sl_http2_path_from_target m (sc_target sc)) REF) ;
      set_head out_request (hd_set_path path) ;;
      set_head out_request (hd_set_headers (fst copied) (snd copied)) ;;
      modify (fun s => set_http (upd_request out_request (rq_set_state SL_HTTP_REQUEST_STATE_READING) (bd_http s)) s) ;;
      modify (fun s => set_http (upd_connection connection (cn_set_state SL_HTTP_CONNECTION_STATE_READING_REQUEST) (bd_http s)) s) ;;
      on_error
        (sl_http_request_body_reader_begin out_request
           (if sc_has_content_type sc then sc_content_type sc else literal "application/octet-stream")
           (bytes_length body) REF out_diag ;;
         sl_http_request_body_reader_append REF body out_diag ;;
         sl_http_request_body_reader_finish REF out_diag)
        (fail_request out_request out_diag)
  end.

Definition sl_http2_request_from_headers (arena connection : Z) (headers : option SlHttp2HeaderList) (body : SlBytes)
    (out_request : Z) (out_diag : nullable) : ST BodySys unit :=
  match headers with
  | None => fail SL_STATUS_INVALID_ARGUMENT
  | Some headers =>
      return_if (arena =? 0) || (connection =? 0) || (out_request =? 0) ||
                negb (hl_count headers =? 0) && is_null (hl_ptr headers) ||
                negb (sl_http2_mapping_valid_bytes body) with SL_STATUS_INVALID_ARGUMENT ;;
      limits ← gets (fun s => sl_http2_effective_parse_options connection (bd_http s)) ;
      return_if (wrap64 (po_max_headers limits + 4) <? hl_count headers) || (po_max_body_length limits <? bytes_length body)
        with SL_STATUS_CAPACITY_EXCEEDED ;;
      m ← gets (fun s => bs_mem (bd_build s)) ;
      sc ← lift (scan_fields m limits (hl_fields headers) scan_start) ;
      scheme ← gets (fun s => cn_scheme (connection_at (bd_http s) connection)) ;
      return_if negb (scan_acceptable m limits scheme (bytes_length body) sc) with SL_STATUS_INVALID_ARGUMENT ;;
      in_http (sl_http_request_begin connection arena out_request out_diag) ;;
      build_request connection out_request limits (hl_fields headers) sc body out_diag
  end.
End Request.
