(* ===== verification/Http2Request.v ===== *)
(** Which HTTP/2 header lists are requests (src/core/http2_mapping.c): the scan of the
    header list against the rules of RFC 9113, and what becomes of an accepted list. *)

From stdpp Require Import strings gmap.
From Stdlib Require Import Strings.Ascii.
From S2P Require Import Prelude Memory Status Arena Str Bytes Simd StrArena Async Sink Builder Diag HttpResponse HttpWire HttpBackend HttpAdmission HttpBody HttpMedia Http2Map.

Open Scope Z_scope.

(** * Specification *)

(** A header field by its bytes. *)
Definition h2_field : Type := list Z * list Z.

Definition field_size (f : h2_field) : Z := Z.of_nat (length (fst f)) + Z.of_nat (length (snd f)).
Definition fields_size (fs : list h2_field) : Z := fold_right (fun f n => field_size f + n) 0 fs.

Definition pseudo_of (name : list Z) : option pseudo :=
  if is_text name (pseudo_name PMethod) then Some PMethod
  else if is_text name (pseudo_name PScheme) then Some PScheme
  else if is_text name (pseudo_name PPath) then Some PPath
  else if is_text name (pseudo_name PAuthority) then Some PAuthority
  else None.

Definition is_pseudo (f : h2_field) : bool := bool_decide (is_Some (pseudo_of (fst f))).

(** The values of the fields with a given name, in order. *)
Definition named (n : string) (fs : list h2_field) : list (list Z) :=
  map snd (List.filter (fun f => is_text (fst f) n) fs).

(** The value that counts. *)
Definition final (vs : list (list Z)) : list Z := default [] (last vs).

(** At most one value that is not empty, and it is the last. *)
Definition once (vs : list (list Z)) : Prop := Forall (fun v => v = []) (removelast vs).

(** Fields that belong to the connection and not to the request (RFC 9113, 8.2.2). *)
Definition connection_specific (f : h2_field) : bool :=
  is_text (fst f) "connection" || is_text (fst f) "keep-alive" || is_text (fst f) "proxy-connection" ||
  is_text (fst f) "transfer-encoding" || is_text (fst f) "upgrade" ||
  (is_text (fst f) "te" && negb (is_text (map ascii_lower (snd f)) "trailers")).

Definition regular_ok (f : h2_field) : bool :=
  negb (bool_decide (fst f = [])) && forallb sl_http2_header_name_char_valid (fst f) &&
  forallb header_value_byte (snd f) && negb (connection_specific f).

Definition decimal_ok (v : list Z) : bool :=
  negb (bool_decide (v = [])) && forallb (fun c => (48 <=? c) && (c <=? 57)) v && (parse_decimal v <=? SIZE_MAX).

(** A header list that the scan lets pass. *)
Record legal (limits : SlHttpParseOptions) (fs : list h2_field) : Prop := {
  lg_sizes : Forall (fun f => Z.of_nat (length (fst f)) <= po_max_header_name_length limits /\
                              Z.of_nat (length (snd f)) <= po_max_header_value_length limits) fs;
  lg_total : fields_size fs <= po_max_total_header_bytes limits;
  lg_order : exists ps rs, fs = ps ++ rs /\ Forall (fun f => is_pseudo f = true) ps /\ Forall (fun f => regular_ok f = true) rs;
  lg_pseudo : forall p, once (named (pseudo_name p) fs);
  lg_host : once (named "host" fs);
  lg_length : (length (named "content-length" fs) <= 1)%nat /\ Forall (fun v => decimal_ok v = true) (named "content-length" fs);
}.

(** The value of a pseudo-header, and the effective host. *)
Definition pseudo_value (p : pseudo) (fs : list h2_field) : list Z := final (named (pseudo_name p) fs).

(** A header list with what a request needs: a method other than CONNECT, a scheme that is
    the connection's, a path within its limit, one host, and the length of the body. *)
Definition acceptable (limits : SlHttpParseOptions) (connection_scheme : list Z) (body_length : Z) (fs : list h2_field) : bool :=
  let authority := pseudo_value PAuthority fs in
  let host := final (named "host" fs) in
  negb (bool_decide (pseudo_value PMethod fs = [])) &&
  negb (is_text (map ascii_lower (pseudo_value PMethod fs)) "connect") &&
  (is_text (pseudo_value PScheme fs) "http" || is_text (pseudo_value PScheme fs) "https") &&
  (bool_decide (connection_scheme = []) || bool_decide (pseudo_value PScheme fs = connection_scheme)) &&
  bool_decide (head (pseudo_value PPath fs) = Some 47) &&
  (Z.of_nat (length (pseudo_value PPath fs)) <=? po_max_target_length limits) &&
  negb (bool_decide (authority = []) && bool_decide (host = [])) &&
  (bool_decide (authority = []) || bool_decide (host = []) || bool_decide (host = authority)) &&
  (bool_decide (named "content-length" fs = []) || (parse_decimal (final (named "content-length" fs)) =? body_length)).

(** The rules of RFC 9113, 8.2 and 8.3, for the header list of a request, with the limits of
    the connection: pseudo-headers first, each at most once, all values free of control
    characters, regular fields with lower-case names and none of the connection's, one
    host, one length. *)
Record well_formed (limits : SlHttpParseOptions) (connection_scheme : list Z) (body_length : Z) (fs : list h2_field) : Prop := {
  wf_sizes : Forall (fun f => Z.of_nat (length (fst f)) <= po_max_header_name_length limits /\
                              Z.of_nat (length (snd f)) <= po_max_header_value_length limits) fs;
  wf_total : fields_size fs <= po_max_total_header_bytes limits;
  wf_order : exists ps rs, fs = ps ++ rs /\ Forall (fun f => is_pseudo f = true) ps /\ Forall (fun f => regular_ok f = true) rs;
  wf_values : Forall (fun f => forallb header_value_byte (snd f) = true) fs;
  wf_pseudo : forall p, (length (named (pseudo_name p) fs) <= 1)%nat;
  wf_host : (length (named "host" fs) <= 1)%nat;
  wf_length : (length (named "content-length" fs) <= 1)%nat /\ Forall (fun v => decimal_ok v = true) (named "content-length" fs);
  wf_request : acceptable limits connection_scheme body_length fs = true;
}.

(** Two ways past the scan: a pseudo-header or host that is given again after values that
    are all empty, for an empty one is taken as not given; and the values of
    pseudo-headers, which are not looked at. *)
Definition repeated_after_empty (fs : list h2_field) : Prop :=
  exists n, (n = "host"%string \/ exists p, n = pseudo_name p) /\ (1 < length (named n fs))%nat /\ once (named n fs).
Definition unchecked_value (fs : list h2_field) : Prop :=
  Exists (fun f => is_pseudo f = true /\ forallb header_value_byte (snd f) = false) fs.

Lemma legal_well_formed limits scheme len fs :
  legal limits fs -> acceptable limits scheme len fs = true -> ~ repeated_after_empty fs -> ~ unchecked_value fs ->
  well_formed limits scheme len fs.
Proof.
  intros [L1 L2 L3 L4 L5 L6] Ha Hr Hu. split; try done.
  - destruct L3 as (ps & rs & -> & Hp & Hg). apply Forall_app. split.
    + apply List.Forall_forall. intros f Hf. rewrite List.Forall_forall in Hp. destruct (forallb header_value_byte (snd f)) eqn:E; [done|].
      destruct Hu. apply List.Exists_exists. exists f. split; [by apply in_or_app; left|]. split; [by apply Hp|done].
    + eapply Forall_impl; [exact Hg|]. unfold regular_ok. intros f Hf. rewrite !andb_true_iff in Hf. apply Hf.
  - intros p. destruct (le_lt_dec (length (named (pseudo_name p) fs)) 1) as [|Hlt]; [done|]. destruct Hr. exists (pseudo_name p). eauto.
  - destruct (le_lt_dec (length (named "host" fs)) 1) as [|Hlt]; [done|]. destruct Hr. exists "host"%string. eauto.
Qed.

(** Equations between boolean combinations of tests, a test at a time. *)
Ltac bool_step a :=
  destruct a; cbn [orb andb negb]; rewrite ?orb_true_r, ?andb_false_r, ?orb_false_r, ?andb_true_r; try reflexivity.
Ltac bool_cases :=
  repeat match goal with
  | |- context [?a =? ?b] => bool_step (a =? b)
  | |- context [?a <? ?b] => bool_step (a <? b)
  | |- context [is_text ?a ?b] => bool_step (is_text a b)
  | |- context [bool_decide ?a] => bool_step (bool_decide a)
  end.

(** * Lists *)

Lemma named_snoc n fs f : named n (fs ++ [f]) = named n fs ++ (if is_text (fst f) n then [snd f] else []).
Proof. unfold named. rewrite List.filter_app, map_app. cbn. by destruct (is_text (fst f) n). Qed.

Lemma fields_size_snoc fs f : fields_size (fs ++ [f]) = fields_size fs + field_size f.
Proof. unfold fields_size. induction fs as [|g fs IH]; cbn in *; lia. Qed.

Lemma final_snoc vs v : final (vs ++ [v]) = v.
Proof. unfold final. by rewrite last_snoc. Qed.

Lemma once_snoc vs v : once (vs ++ [v]) <-> once vs /\ final vs = [].
Proof.
  unfold once, final. rewrite removelast_last. split.
  - intros H. split.
    + destruct vs as [|w vs] using rev_ind; [constructor|]. rewrite removelast_last. by apply Forall_app in H as [? _].
    + destruct vs as [|w vs] using rev_ind; [done|]. rewrite last_snoc. apply Forall_app in H as [_ H]. by inversion H.
  - intros [H E]. destruct vs as [|w vs] using rev_ind; [constructor|]. rewrite removelast_last in H. rewrite last_snoc in E.
    cbn in E. subst. apply Forall_app. split; [done|]. by constructor.
Qed.

Lemma is_text_eq l s : is_text l s = true <-> l = string_bytes s.
Proof. unfold is_text. apply bool_decide_eq_true. Qed.

Lemma pseudo_of_name p : pseudo_of (string_bytes (pseudo_name p)) = Some p.
Proof. by destruct p. Qed.

Lemma pseudo_of_some name p : pseudo_of name = Some p <-> name = string_bytes (pseudo_name p).
Proof.
  split; [|intros ->; apply pseudo_of_name]. unfold pseudo_of.
  repeat (split_if; [intros [= <-]; by apply is_text_eq|]). done.
Qed.

Lemma regular_not_pseudo f : regular_ok f = true -> is_pseudo f = false.
Proof.
  unfold regular_ok, is_pseudo. intros H. apply bool_decide_eq_false. intros [p Hp].
  apply pseudo_of_some in Hp. rewrite !andb_true_iff in H. destruct H as [[[_ H] _] _]. rewrite Hp in H. by destruct p.
Qed.

Lemma order_snoc fs f :
  (exists ps rs, fs ++ [f] = ps ++ rs /\ Forall (fun f => is_pseudo f = true) ps /\ Forall (fun f => regular_ok f = true) rs) <->
  if is_pseudo f then Forall (fun f => is_pseudo f = true) fs
  else regular_ok f = true /\
    exists ps rs, fs = ps ++ rs /\ Forall (fun f => is_pseudo f = true) ps /\ Forall (fun f => regular_ok f = true) rs.
Proof.
  split.
  - intros (ps & rs & E & Hp & Hr). destruct rs as [|r rs _] using rev_ind.
    + rewrite app_nil_r in E. subst ps. apply Forall_app in Hp as [H1 H2]. apply Forall_cons in H2 as [H2 _]. by rewrite H2.
    + rewrite app_assoc in E. apply app_inj_tail in E as [E ->]. apply Forall_app in Hr as [H1 H2].
      apply Forall_cons in H2 as [H2 _]. rewrite (regular_not_pseudo _ H2). split; [done|]. by exists ps, rs.
  - destruct (is_pseudo f) eqn:Ef.
    + intros H. exists (fs ++ [f]), []. rewrite app_nil_r. split; [done|]. split; [|constructor].
      apply Forall_app. split; [done|]. by constructor.
    + intros (H & ps & rs & -> & Hp & Hr). exists ps, (rs ++ [f]). split; [by rewrite app_assoc|]. split; [done|].
      apply Forall_app. split; [done|]. by constructor.
Qed.

Lemma fields_size_nonneg fs : 0 <= fields_size fs.
Proof. unfold fields_size, field_size. induction fs as [|f fs IH]; cbn; lia. Qed.

Lemma is_pseudo_of f : is_pseudo f = match pseudo_of (fst f) with Some _ => true | None => false end.
Proof. unfold is_pseudo. destruct (pseudo_of (fst f)); [by apply bool_decide_eq_true|]. apply bool_decide_eq_false. by intros []. Qed.

Lemma text_once l s t : is_text l s = true -> is_text l t = bool_decide (string_bytes s = string_bytes t).
Proof. intros E%is_text_eq. by rewrite E. Qed.

Lemma named_pseudo_snoc p fs f :
  named (pseudo_name p) (fs ++ [f]) =
    named (pseudo_name p) fs ++ (if bool_decide (pseudo_of (fst f) = Some p) then [snd f] else []).
Proof.
  rewrite named_snoc. f_equal.
  destruct (bool_decide_reflect (pseudo_of (fst f) = Some p)) as [E|E]; rewrite pseudo_of_some in E.
  - apply is_text_eq in E. by rewrite E.
  - destruct (is_text (fst f) (pseudo_name p)) eqn:F; [|done]. by apply is_text_eq in F.
Qed.

Lemma once_app_nil vs (b : bool) v : once (vs ++ (if b then [v] else [])) <-> once vs /\ (b = true -> final vs = []).
Proof. destruct b; [rewrite once_snoc; naive_solver|]. rewrite app_nil_r. naive_solver. Qed.

(** One more field. *)
Lemma legal_snoc limits fs f :
  legal limits (fs ++ [f]) <->
  legal limits fs /\
  (Z.of_nat (length (fst f)) <= po_max_header_name_length limits /\ Z.of_nat (length (snd f)) <= po_max_header_value_length limits) /\
  fields_size fs + field_size f <= po_max_total_header_bytes limits /\
  match pseudo_of (fst f) with
  | Some p => Forall (fun f => is_pseudo f = true) fs /\ final (named (pseudo_name p) fs) = []
  | None => regular_ok f = true /\ (is_text (fst f) "host" = true -> final (named "host" fs) = []) /\
            (is_text (fst f) "content-length" = true -> named "content-length" fs = [] /\ decimal_ok (snd f) = true)
  end.
Proof.
  assert (Hsz : forall P, Forall P (fs ++ [f]) <-> Forall P fs /\ P f).
  { intros P. rewrite Forall_app, Forall_cons. split; [tauto|]. intros [? ?]. by repeat split. }
  assert (Hcl : ((length (named "content-length" (fs ++ [f])) <= 1)%nat /\ Forall (fun v => decimal_ok v = true) (named "content-length" (fs ++ [f]))) <->
    ((length (named "content-length" fs) <= 1)%nat /\ Forall (fun v => decimal_ok v = true) (named "content-length" fs)) /\
    (is_text (fst f) "content-length" = true -> named "content-length" fs = [] /\ decimal_ok (snd f) = true)).
  { rewrite named_snoc. destruct (is_text (fst f) "content-length"); [|rewrite app_nil_r; naive_solver].
    rewrite length_app, Forall_app, Forall_cons. cbn [length].
    destruct (named "content-length" fs); cbn [length]; [naive_solver lia|]. split; [lia|naive_solver lia]. }
  pose proof (order_snoc fs f) as Ho. rewrite is_pseudo_of in Ho.
  assert (Hn : forall s, pseudo_of (string_bytes s) = None -> is_text (fst f) s = true -> pseudo_of (fst f) = None).
  { intros s Hs E%is_text_eq. by rewrite E. }
  assert (Hone : forall p, once (named (pseudo_name p) (fs ++ [f])) <->
            once (named (pseudo_name p) fs) /\ (pseudo_of (fst f) = Some p -> final (named (pseudo_name p) fs) = [])).
  { intros p. by rewrite named_pseudo_snoc, once_app_nil, bool_decide_eq_true. }
  assert (Hh : once (named "host" (fs ++ [f])) <-> once (named "host" fs) /\ (is_text (fst f) "host" = true -> final (named "host" fs) = [])).
  { by rewrite named_snoc, once_app_nil. }
  split.
  - intros [A B C D E F]. apply Hsz in A as [A1 A2]. rewrite fields_size_snoc in B. apply Hcl in F as [F1 F2]. apply Hh in E as [E1 E2].
    apply Ho in C. pose proof (fields_size_nonneg [f]) as Hnn. cbn in Hnn.
    assert (Hlg : legal limits fs).
    { split; try done; [lia| |intros p; by apply Hone]. destruct (pseudo_of (fst f)); [|by destruct C].
      exists fs, []. by rewrite app_nil_r. }
    split; [done|]. split; [done|]. split; [done|]. destruct (pseudo_of (fst f)) as [p|] eqn:Ep; [|naive_solver].
    split; [done|]. by apply Hone.
  - intros ([A B C D E F] & G & H & K). split; try (rewrite ?fields_size_snoc; done).
    + by apply Hsz.
    + apply Ho. destruct (pseudo_of (fst f)); [by destruct K|]. by destruct K.
    + intros p. apply Hone. split; [done|]. intros Ep. rewrite Ep in K. by destruct K.
    + apply Hh. split; [done|]. intros Et. rewrite (Hn "host" eq_refl Et) in K. naive_solver.
    + apply Hcl. split; [done|]. intros Et. rewrite (Hn "content-length" eq_refl Et) in K. naive_solver.
Qed.

Lemma legal_prefix limits fs gs : legal limits (fs ++ gs) -> legal limits fs.
Proof.
  induction gs as [|g gs IH] using rev_ind; [by rewrite app_nil_r|]. rewrite app_assoc. intros H. apply IH. apply legal_snoc in H. tauto.
Qed.

(** * The scan *)

Definition request_literals : list string :=
  [":method"; ":scheme"; ":path"; ":authority"; "connection"; "keep-alive"; "proxy-connection"; "transfer-encoding";
   "upgrade"; "te"; "trailers"; "content-type"; "content-length"; "host"; "http"; "https"; "CONNECT";
   "GET"; "PUT"; "POST"; "HEAD"; "PATCH"; "DELETE"; "OPTIONS"]%string.

Definition field_view (h : SlHttp2HeaderField) : Prop := text_view (h2_name h) /\ text_view (h2_value h).
Definition field_bytes (m : mem) (h : SlHttp2HeaderField) : h2_field := (str_val m (h2_name h), str_val m (h2_value h)).

Lemma lower_name l : forallb sl_http2_header_name_char_valid l = true -> map ascii_lower l = l.
Proof.
  induction l as [|c l IH]; [done|]. cbn [forallb map]. rewrite andb_true_iff. intros [Hc Hl]. f_equal; [|auto].
  unfold ascii_lower. destruct (Z.leb_spec 65 c), (Z.leb_spec c 90); cbn [andb]; try done.
  unfold sl_http2_header_name_char_valid in Hc. lia.
Qed.

Lemma parse_decimal_loop_spec m p n r :
  0 <= r <= SIZE_MAX ->
  parse_decimal_loop m p n r =
    let v := fold_left (fun acc d => acc * 10 + (d - 48)) (load m p n) r in
    if forallb (fun c => (48 <=? c) && (c <=? 57)) (load m p n) && (v <=? SIZE_MAX) then Some v else None.
Proof.
  revert p r. induction n as [|n IH]; intros p r Hr; cbn [parse_decimal_loop load fold_left forallb].
  { destruct (Z.leb_spec r SIZE_MAX); [done|lia]. }
  set (c := ld8 m p). destruct (Z.ltb_spec c 48), (Z.ltb_spec 57 c), (Z.leb_spec 48 c), (Z.leb_spec c 57); try lia; cbn [orb andb]; try done.
  assert (Hq : (SIZE_MAX - (c - 48)) / 10 < r <-> SIZE_MAX < r * 10 + (c - 48)).
  { pose proof (Z.div_mod (SIZE_MAX - (c - 48)) 10 ltac:(lia)). pose proof (Z.mod_pos_bound (SIZE_MAX - (c - 48)) 10 ltac:(lia)). lia. }
  destruct (Z.ltb_spec ((SIZE_MAX - (c - 48)) / 10) r) as [E|E].
  - apply Hq in E. cbv zeta. destruct (forallb _ _) eqn:Hf; [|done]. cbn [andb].
    destruct (Z.leb_spec (fold_left (fun acc d => acc * 10 + (d - 48)) (load m (p + 1) n) (r * 10 + (c - 48))) SIZE_MAX) as [F|F]; [|done].
    assert (forall l a, forallb (fun c => (48 <=? c) && (c <=? 57)) l = true -> 0 <= a -> a <= fold_left (fun acc d => acc * 10 + (d - 48)) l a) as Hmono.
    { induction l as [|d l IHl]; intros a Hd Ha; cbn [fold_left forallb] in *; [lia|].
      apply andb_true_iff in Hd as [Hd Hd']. specialize (IHl (a * 10 + (d - 48)) Hd'). lia. }
    specialize (Hmono _ (r * 10 + (c - 48)) Hf). lia.
  - apply IH. lia.
Qed.

Section Scan.
Context {SC : SimdConfig} {RO : ReadOnlyData} (m : mem) (limits : SlHttpParseOptions).
Hypothesis Hlit : literals_in m request_literals.

Lemma text_exact v l : l ∈ request_literals -> text_view v -> sl_str_equal m v (literal l) = is_text (str_val m v) l.
Proof.
  intros Hl [Hv _ _]. destruct (Hlit l Hl) as [Hr El]. rewrite sl_str_equal_spec; [|done|split; cbn; unfold string_size; lia].
  by rewrite El.
Qed.

Lemma which_pseudo_spec v : text_view v -> which_pseudo m v = pseudo_of (str_val m v).
Proof. intros Hv. unfold which_pseudo, pseudo_of. rewrite !text_exact by (done || listed). done. Qed.

Lemma name_valid_spec v :
  text_view v ->
  sl_http2_header_name_valid m v = negb (bool_decide (str_val m v = [])) && forallb sl_http2_header_name_char_valid (str_val m v).
Proof.
  intros Hv. unfold sl_http2_header_name_valid. pose proof (view_empty m v Hv) as He. unfold sl_str_is_empty in He.
  destruct Hv as [[Hl Hp] _ _]. rewrite He, each_byte_spec. unfold str_val, load_bytes in *.
  destruct (bool_decide_reflect (load m (str_ptr v) (Z.to_nat (str_length v)) = [])) as [E|E]; [by rewrite orb_true_r|].
  rewrite orb_false_r. destruct (Z.eqb_spec (str_ptr v) 0) as [E0|E0]; [|done]. destruct Hp; [|lia]. by destruct (Z.eqb_spec (str_length v) 0).
Qed.

Lemma mapping_valid_view v : text_view v -> sl_http2_mapping_valid_str v = true.
Proof. intros [[Hl Hp] _ _]. unfold sl_http2_mapping_valid_str. destruct (Z.eqb_spec (str_length v) 0), (Z.eqb_spec (str_ptr v) 0); cbn; lia. Qed.

Lemma value_valid_spec v : text_view v -> sl_http2_header_value_valid m v = forallb header_value_byte (str_val m v).
Proof. intros Hv. unfold sl_http2_header_value_valid. rewrite (mapping_valid_view v Hv), each_byte_spec. done. Qed.

Lemma text_ci v l :
  l ∈ request_literals -> map ascii_lower (string_bytes l) = string_bytes l -> text_view v ->
  sl_str_equal_ci_ascii m v (literal l) = is_text (map ascii_lower (str_val m v)) l.
Proof. intros Hl Hlow Hv. by apply (equal_ci_literal m request_literals). Qed.

Lemma forbidden_spec name value :
  text_view name -> text_view value -> forallb sl_http2_header_name_char_valid (str_val m name) = true ->
  sl_http2_request_header_forbidden m name value = connection_specific (str_val m name, str_val m value).
Proof.
  intros Hn Hv Hok. unfold sl_http2_request_header_forbidden, connection_specific. cbn [fst snd].
  rewrite !text_ci by (done || listed). by rewrite (lower_name _ Hok).
Qed.

Lemma regular_ok_spec h :
  field_view h ->
  negb (sl_http2_header_name_valid m (h2_name h)) || negb (sl_http2_header_value_valid m (h2_value h)) ||
  sl_http2_request_header_forbidden m (h2_name h) (h2_value h) = negb (regular_ok (field_bytes m h)).
Proof.
  intros [Hn Hv]. rewrite name_valid_spec, value_valid_spec by done. unfold regular_ok, field_bytes. cbn [fst snd].
  destruct (forallb sl_http2_header_name_char_valid (str_val m (h2_name h))) eqn:Ef.
  - rewrite forbidden_spec by done. by destruct (bool_decide _), (forallb header_value_byte _), (connection_specific _).
  - by rewrite !andb_false_r.
Qed.

Lemma decimal_spec v :
  text_view v ->
  sl_http2_parse_decimal_size m v REF = if decimal_ok (str_val m v) then Some (parse_decimal (str_val m v)) else None.
Proof.
  intros Hv. unfold sl_http2_parse_decimal_size, decimal_ok. pose proof (view_empty m v Hv) as He. unfold sl_str_is_empty in He.
  rewrite parse_decimal_loop_spec by (unfold SIZE_MAX; lia). destruct Hv as [[Hl Hp] _ _]. cbn [is_null orb].
  rewrite He. fold (load_bytes m (str_ptr v) (str_length v)). fold (str_val m v). cbv zeta.
  destruct (bool_decide_reflect (str_val m v = [])) as [E|E]; [by rewrite orb_true_r|].
  rewrite orb_false_r. cbn [negb andb]. destruct (Z.eqb_spec (str_ptr v) 0) as [E0|E0]; [|done].
  destruct Hp; [|lia]. by destruct (Z.eqb_spec (str_length v) 0).
Qed.

(** What the local variables hold after the fields [fs]. *)
Record scan_inv (fs : list h2_field) (sc : scan) : Prop := {
  si_legal : legal limits fs;
  si_total : sc_total sc = fields_size fs;
  si_seen : sc_regular_seen sc = negb (forallb is_pseudo fs);
  si_count : sc_regular_count sc = Z.of_nat (length (List.filter (fun f => negb (is_pseudo f)) fs));
  si_pseudo : forall p, text_view (sc_pseudo p sc) /\ str_val m (sc_pseudo p sc) = final (named (pseudo_name p) fs);
  si_host : text_view (sc_host sc) /\ str_val m (sc_host sc) = final (named "host" fs);
  si_type : text_view (sc_content_type sc) /\ str_val m (sc_content_type sc) = final (named "content-type" fs) /\
            sc_has_content_type sc = negb (bool_decide (named "content-type" fs = []));
  si_length : sc_declared sc = parse_decimal (final (named "content-length" fs)) /\
              sc_has_content_length sc = negb (bool_decide (named "content-length" fs = []));
}.

Lemma empty_text : text_view sl_str_empty.
Proof. split; [split; cbn; lia|cbn; lia|unfold simd_length; cbn; size_lia]. Qed.

Lemma scan_start_inv : 0 <= po_max_total_header_bytes limits -> scan_inv [] scan_start.
Proof.
  intros H. split; try done.
  - split; [by constructor|done| |by constructor|by constructor|split; [cbn; lia|by constructor]].
    exists [], []. by repeat split; try constructor.
  - intros p. split; [by destruct p; exact empty_text|by destruct p].
  - split; [exact empty_text|done].
  - split; [exact empty_text|done].
Qed.

Lemma forallb_pseudo fs : forallb is_pseudo fs = true <-> Forall (fun f => is_pseudo f = true) fs.
Proof. rewrite forallb_forall, List.Forall_forall. done. Qed.

(** The value of a field the list may already have. *)
Lemma final_named_snoc n fs f :
  final (named n (fs ++ [f])) = if is_text (fst f) n then snd f else final (named n fs).
Proof. rewrite named_snoc. destruct (is_text (fst f) n); [apply final_snoc|by rewrite app_nil_r]. Qed.

Lemma has_named_snoc n fs f :
  negb (bool_decide (named n (fs ++ [f]) = [])) = is_text (fst f) n || negb (bool_decide (named n fs = [])).
Proof.
  rewrite named_snoc. destruct (is_text (fst f) n); [|by rewrite app_nil_r]. cbn [orb].
  rewrite bool_decide_eq_false_2; [done|]. by destruct (named n fs).
Qed.

Lemma pseudo_not_text (f : h2_field) p n : pseudo_of (fst f) = Some p -> pseudo_of (string_bytes n) = None -> is_text (fst f) n = false.
Proof. intros Hp Hn. destruct (is_text (fst f) n) eqn:E; [|done]. apply is_text_eq in E. congruence. Qed.

Lemma regular_name (f : h2_field) : regular_ok f = true -> forallb sl_http2_header_name_char_valid (fst f) = true.
Proof. unfold regular_ok. rewrite !andb_true_iff. tauto. Qed.

Lemma colon_not_regular h : field_view h -> str_length (h2_name h) <> 0 -> ld8 m (str_ptr (h2_name h)) = 58 -> regular_ok (field_bytes m h) = false.
Proof.
  intros [[[Hl _] _ _] _] Hne Hc. unfold regular_ok, field_bytes, str_val, load_bytes. cbn [fst].
  destruct (Z.to_nat (str_length (h2_name h))) eqn:E; [lia|]. cbn [load forallb]. rewrite Hc. by rewrite andb_false_r.
Qed.

(** The list with one more field is within the limits. *)
Record room (fs : list h2_field) (h : SlHttp2HeaderField) : Prop := {
  rm_name : Z.of_nat (length (fst (field_bytes m h))) <= po_max_header_name_length limits;
  rm_value : Z.of_nat (length (snd (field_bytes m h))) <= po_max_header_value_length limits;
  rm_total : fields_size fs + field_size (field_bytes m h) <= po_max_total_header_bytes limits;
  rm_size : fields_size fs + field_size (field_bytes m h) <= SIZE_MAX;
  rm_count : Z.of_nat (length fs) < SIZE_MAX;
}.

Lemma field_size_view h : field_view h -> field_size (field_bytes m h) = str_length (h2_name h) + str_length (h2_value h).
Proof. intros [[[Hn _] _ _] [[Hv _] _ _]]. unfold field_size, field_bytes. cbn [fst snd]. by rewrite !length_str_val. Qed.

Lemma total_snoc fs sc h :
  field_view h -> room fs h -> scan_inv fs sc ->
  wrap64 (sc_total sc + (str_length (h2_name h) + str_length (h2_value h))) = fields_size (fs ++ [field_bytes m h]).
Proof.
  intros Hv Hr Hi. rewrite <- field_size_view, fields_size_snoc, (si_total _ _ Hi) by done. apply wrap64_small.
  pose proof (fields_size_nonneg fs). pose proof (fields_size_nonneg [field_bytes m h]) as H1. cbn in H1. pose proof (rm_size _ _ Hr).
  unfold is_size. lia.
Qed.

Lemma scan_pseudo_step fs sc h p :
  field_view h -> pseudo_of (fst (field_bytes m h)) = Some p -> scan_inv fs sc -> room fs h ->
  match scan_pseudo p (h2_value h) (sc_add_total (str_length (h2_name h) + str_length (h2_value h)) sc) with
  | Ok sc' => scan_inv (fs ++ [field_bytes m h]) sc'
  | Err _ => ~ legal limits (fs ++ [field_bytes m h])
  end.
Proof.
  intros Hv Hp Hi Hr. unfold scan_pseudo. cbn [sc_regular_seen sc_add_total].
  destruct (si_pseudo _ _ Hi p) as [Tp Ep].
  replace (sc_pseudo p (sc_add_total _ sc)) with (sc_pseudo p sc) by by destruct p.
  rewrite (si_seen _ _ Hi). destruct (forallb is_pseudo fs) eqn:Ef; cbn [negb].
  2: { intros H. apply legal_snoc in H. rewrite Hp in H. destruct H as (_ & _ & _ & H & _). apply forallb_pseudo in H. congruence. }
  rewrite (view_empty m) by done. rewrite Ep. destruct (bool_decide_reflect (final (named (pseudo_name p) fs) = [])) as [E|E]; cbn [negb].
  2: { intros H. apply legal_snoc in H. rewrite Hp in H. tauto. }
  assert (Hps : is_pseudo (field_bytes m h) = true) by (rewrite is_pseudo_of; by rewrite Hp).
  split.
  - apply legal_snoc. rewrite Hp. apply forallb_pseudo in Ef. destruct Hi, Hr. tauto.
  - cbn [sc_total sc_set_pseudo sc_add_total]. by apply total_snoc.
  - cbn [sc_regular_seen sc_set_pseudo sc_add_total]. rewrite (si_seen _ _ Hi), forallb_app. cbn. by rewrite Hps, Ef.
  - cbn [sc_regular_count sc_set_pseudo sc_add_total]. rewrite (si_count _ _ Hi), List.filter_app. cbn. by rewrite Hps, app_nil_r.
  - intros q. rewrite named_pseudo_snoc, Hp. destruct (decide (q = p)) as [->|Hqp].
    + rewrite bool_decide_eq_true_2 by done. rewrite final_snoc. split; destruct p; (done || apply Hv).
    + rewrite bool_decide_eq_false_2 by congruence. rewrite app_nil_r.
      replace (sc_pseudo q (sc_set_pseudo p _ _)) with (sc_pseudo q sc); [apply Hi|]. by destruct p, q.
  - rewrite final_named_snoc, (pseudo_not_text _ p) by done. apply Hi.
  - rewrite final_named_snoc, has_named_snoc, (pseudo_not_text _ p) by done. apply Hi.
  - rewrite final_named_snoc, has_named_snoc, (pseudo_not_text _ p) by done. apply Hi.
Qed.

Lemma ci_name h l :
  l ∈ request_literals -> map ascii_lower (string_bytes l) = string_bytes l -> field_view h -> regular_ok (field_bytes m h) = true ->
  sl_str_equal_ci_ascii m (h2_name h) (literal l) = is_text (fst (field_bytes m h)) l.
Proof. intros Hl Hlow [Hn _] Hr. rewrite text_ci by done. apply regular_name in Hr. cbn [field_bytes fst] in *. by rewrite (lower_name _ Hr). Qed.

Lemma scan_regular_step fs sc h :
  field_view h -> pseudo_of (fst (field_bytes m h)) = None -> scan_inv fs sc -> room fs h ->
  match scan_regular m (h2_name h) (h2_value h) (sc_add_total (str_length (h2_name h) + str_length (h2_value h)) sc) with
  | Ok sc' => scan_inv (fs ++ [field_bytes m h]) sc'
  | Err _ => ~ legal limits (fs ++ [field_bytes m h])
  end.
Proof.
  intros Hv Hp Hi Hr. unfold scan_regular. cbv zeta.
  destruct (negb (str_length (h2_name h) =? 0) && (ld8 m (str_ptr (h2_name h)) =? 58)) eqn:Ec.
  { intros H. apply legal_snoc in H. rewrite Hp in H. destruct H as (_ & _ & _ & H & _).
    apply andb_true_iff in Ec as [Ec1%negb_true_iff%Z.eqb_neq Ec2%Z.eqb_eq]. rewrite (colon_not_regular h Hv Ec1 Ec2) in H. done. }
  rewrite regular_ok_spec by done. destruct (regular_ok (field_bytes m h)) eqn:Er; cbn [negb].
  2: { intros H. apply legal_snoc in H. rewrite Hp, Er in H. by destruct H as (_ & _ & _ & H & _). }
  rewrite !ci_name by (done || listed). destruct Hv as [Hn Hval] eqn:Ev.
  cbn [sc_has_content_length sc_declared sc_host sc_add_total].
  destruct (si_length _ _ Hi) as [Ed Eh]. rewrite decimal_spec, Eh by done. change (str_val m (h2_value h)) with (snd (field_bytes m h)).
  set (f := field_bytes m h) in *.
  set (is_length := is_text (fst f) "content-length") in *. set (is_host := is_text (fst f) "host") in *.
  destruct (is_length && (negb (bool_decide (named "content-length" fs = [])) || negb (decimal_ok (snd f)))) eqn:El.
  { assert (~ legal limits (fs ++ [f])).
    { intros H. apply legal_snoc in H. rewrite Hp in H. destruct H as (_ & _ & _ & _ & _ & H).
      apply andb_true_iff in El as [El1 El2]. destruct (H El1) as [H1 H2]. rewrite H1, H2 in El2. done. }
    apply andb_true_iff in El as [-> El2]. destruct (bool_decide (named "content-length" fs = [])); [|done]. cbn [negb].
    destruct (decimal_ok (snd f)); [done|]. done. }
  assert (Hdec : (if is_length then if negb (bool_decide (named "content-length" fs = [])) then Err SL_STATUS_INVALID_ARGUMENT
            else match (if decimal_ok (snd f) then Some (parse_decimal (snd f)) else None) with
                 | Some n => Ok n | None => Err SL_STATUS_INVALID_ARGUMENT end else Ok (sc_declared sc)) =
          Ok (parse_decimal (final (named "content-length" (fs ++ [f]))))).
  { rewrite final_named_snoc. fold is_length. destruct is_length; [|by rewrite Ed]. cbn [andb] in El. apply orb_false_iff in El as [-> El].
    apply negb_false_iff in El. by rewrite El. }
  rewrite Hdec. unfold mbind, result_bind. destruct (si_host _ _ Hi) as [Th Eho]. rewrite (view_empty m), Eho by done.
  destruct (is_host && negb (bool_decide (final (named "host" fs) = []))) eqn:Eh2.
  { intros H. apply legal_snoc in H. rewrite Hp in H. destruct H as (_ & _ & _ & _ & H & _).
    apply andb_true_iff in Eh2 as [E1 E2]. rewrite (H E1) in E2. done. }
  assert (Hps : is_pseudo f = false) by (rewrite is_pseudo_of; by rewrite Hp).
  split.
  - apply legal_snoc. rewrite Hp. split; [apply Hi|]. split; [split; apply Hr|]. split; [apply Hr|]. split; [done|]. split.
    + intros E1. fold is_host in E1. rewrite E1 in Eh2. by apply negb_false_iff, bool_decide_eq_true in Eh2.
    + intros E1. fold is_length in E1. rewrite E1 in El. cbn [andb] in El.
      apply orb_false_iff in El as [El1%negb_false_iff%bool_decide_eq_true El2%negb_false_iff]. done.
  - cbn [sc_total sc_add_total]. by apply total_snoc.
  - cbn [sc_regular_seen]. rewrite forallb_app. cbn. by rewrite Hps, andb_false_r.
  - cbn [sc_regular_count sc_add_total]. rewrite (si_count _ _ Hi), List.filter_app, length_app. cbn [List.filter]. rewrite Hps.
    cbn [negb length]. pose proof (rm_count _ _ Hr). pose proof (List.filter_length_le (fun f => negb (is_pseudo f)) fs).
    rewrite wrap64_small by (unfold is_size; lia). lia.
  - intros q. rewrite named_pseudo_snoc, Hp. rewrite (bool_decide_eq_false_2 (None = Some q)) by done. rewrite app_nil_r.
    pose proof (si_pseudo _ _ Hi q). by destruct q.
  - cbn [sc_host sc_add_total]. rewrite final_named_snoc. fold is_host. by destruct is_host.
  - cbn [sc_content_type sc_has_content_type sc_add_total]. rewrite final_named_snoc, has_named_snoc.
    destruct (si_type _ _ Hi) as (T1 & T2 & T3). rewrite T3. by destruct (is_text (fst f) "content-type").
  - cbn [sc_declared sc_has_content_length sc_add_total]. rewrite has_named_snoc. done.
Qed.

Lemma room_spec fs sc h :
  field_view h -> scan_inv fs sc -> Z.of_nat (length fs) < SIZE_MAX ->
  is_size (po_max_total_header_bytes limits) ->
  match (error_if negb (sl_http2_mapping_valid_str (h2_name h)) || negb (sl_http2_mapping_valid_str (h2_value h)) ||
           (po_max_header_name_length limits <? str_length (h2_name h)) || (po_max_header_value_length limits <? str_length (h2_value h)) ||
           (SIZE_MAX - str_length (h2_value h) <? str_length (h2_name h)) ||
           (SIZE_MAX - wrap64 (str_length (h2_name h) + str_length (h2_value h)) <? sc_total sc) with SL_STATUS_INVALID_ARGUMENT ;;
         error_if po_max_total_header_bytes limits <? sc_total (sc_add_total (str_length (h2_name h) + str_length (h2_value h)) sc)
           with SL_STATUS_CAPACITY_EXCEEDED ;; Ok tt)
  with Ok _ => room fs h | Err _ => ~ legal limits (fs ++ [field_bytes m h]) end.
Proof.
  intros Hv Hi Hc Hm. destruct Hv as [Hn Hval] eqn:Ev. rewrite !mapping_valid_view by done. cbn [negb orb].
  pose proof (field_size_view h Hv) as Hfs. pose proof Hn as [[? _] _ _]. pose proof Hval as [[? _] _ _].
  assert (Hl1 : Z.of_nat (length (fst (field_bytes m h))) = str_length (h2_name h)) by by apply length_str_val.
  assert (Hl2 : Z.of_nat (length (snd (field_bytes m h))) = str_length (h2_value h)) by by apply length_str_val.
  assert (Hlegal : legal limits (fs ++ [field_bytes m h]) -> str_length (h2_name h) <= po_max_header_name_length limits /\
            str_length (h2_value h) <= po_max_header_value_length limits /\
            fields_size fs + (str_length (h2_name h) + str_length (h2_value h)) <= po_max_total_header_bytes limits).
  { intros Hleg. apply legal_snoc in Hleg. lia. }
  pose proof (fields_size_nonneg fs). cbn [sc_total sc_add_total]. rewrite (si_total _ _ Hi).
  destruct (Z.ltb_spec (po_max_header_name_length limits) (str_length (h2_name h))); [cbn [orb]; intros ?%Hlegal; lia|].
  destruct (Z.ltb_spec (po_max_header_value_length limits) (str_length (h2_value h))); [cbn [orb]; intros ?%Hlegal; lia|].
  cbn [orb]. unfold is_size in Hm.
  destruct (Z.ltb_spec (SIZE_MAX - str_length (h2_value h)) (str_length (h2_name h))); [cbn [orb]; intros ?%Hlegal; lia|].
  cbn [orb]. rewrite (wrap64_small (str_length (h2_name h) + _)) by (unfold is_size; lia).
  destruct (Z.ltb_spec (SIZE_MAX - (str_length (h2_name h) + str_length (h2_value h))) (fields_size fs)); [intros ?%Hlegal; lia|].
  rewrite wrap64_small by (unfold is_size; lia).
  destruct (Z.ltb_spec (po_max_total_header_bytes limits) (fields_size fs + (str_length (h2_name h) + str_length (h2_value h)))); [intros ?%Hlegal; lia|].
  split; lia.
Qed.

Lemma scan_field_step fs sc h :
  field_view h -> scan_inv fs sc -> Z.of_nat (length fs) < SIZE_MAX -> is_size (po_max_total_header_bytes limits) ->
  match scan_field m limits h sc with
  | Ok sc' => scan_inv (fs ++ [field_bytes m h]) sc'
  | Err _ => ~ legal limits (fs ++ [field_bytes m h])
  end.
Proof.
  intros Hv Hi Hc Hm. pose proof (room_spec fs sc h Hv Hi Hc Hm) as Hr. unfold scan_field. cbv zeta.
  split_if; [done|]. split_if; [done|].
  rewrite which_pseudo_spec by apply Hv. destruct (pseudo_of (str_val m (h2_name h))) eqn:Ep.
  - by apply scan_pseudo_step.
  - by apply scan_regular_step.
Qed.

Lemma scan_fields_spec hs fs sc :
  Forall field_view hs -> scan_inv fs sc -> Z.of_nat (length fs) + Z.of_nat (length hs) <= SIZE_MAX ->
  is_size (po_max_total_header_bytes limits) ->
  match scan_fields m limits hs sc with
  | Ok sc' => scan_inv (fs ++ map (field_bytes m) hs) sc'
  | Err _ => ~ legal limits (fs ++ map (field_bytes m) hs)
  end.
Proof.
  intros Hv Hi Hc Hm. revert fs sc Hi Hc. induction Hv as [|h hs Hh Hhs IH]; intros fs sc Hi Hc; cbn [scan_fields map].
  { by rewrite app_nil_r. }
  cbn [length] in Hc. pose proof (scan_field_step fs sc h Hh Hi ltac:(lia) Hm) as Hs. unfold mbind, result_bind.
  destruct (scan_field m limits h sc) as [sc'|e].
  - specialize (IH _ _ Hs). rewrite <- app_assoc in IH. apply IH. rewrite length_app. cbn [length]. lia.
  - intros H. apply Hs. apply (legal_prefix _ _ (map (field_bytes m) hs)). by rewrite <- app_assoc.
Qed.

(** A view is absent, by pointer or length, when it has no bytes. *)
Lemma absent_spec v : text_view v -> (str_ptr v =? 0) || (str_length v =? 0) = bool_decide (str_val m v = []).
Proof.
  intros Hv. rewrite <- (view_empty m v Hv). unfold sl_str_is_empty. destruct Hv as [[Hl Hp] _ _].
  destruct (Z.eqb_spec (str_ptr v) 0), (Z.eqb_spec (str_length v) 0); cbn; lia.
Qed.

Lemma head_val v : text_view v -> bool_decide (head (str_val m v) = Some 47) =
  negb (bool_decide (str_val m v = [])) && (ld8 m (str_ptr v) =? 47).
Proof.
  intros [[Hl _] _ _]. unfold str_val, load_bytes. destruct (Z.to_nat (str_length v)); [done|]. cbn [load head].
  rewrite (bool_decide_eq_false_2 (_ :: _ = [])) by done. cbn [negb andb].
  destruct (Z.eqb_spec (ld8 m (str_ptr v)) 47) as [->|E]; [done|]. apply bool_decide_eq_false. congruence.
Qed.

Lemma connect_spec v : text_view v -> sl_str_equal_ci_ascii m v (literal "CONNECT") = is_text (map ascii_lower (str_val m v)) "connect".
Proof.
  intros [Hv Hp Hs]. destruct (Hlit "CONNECT" ltac:(listed)) as [Hr El]. rewrite sl_str_equal_ci_ascii_scalar_eq by done.
  rewrite sl_str_equal_ci_scalar_spec; [|done|split; cbn; unfold string_size; lia]. by rewrite El.
Qed.

Lemma acceptable_spec scheme len fs sc :
  scan_inv fs sc -> text_view scheme ->
  scan_acceptable m limits scheme len sc = acceptable limits (str_val m scheme) len fs.
Proof.
  intros Hi Hs. destruct (si_pseudo _ _ Hi PMethod) as [Tm Em], (si_pseudo _ _ Hi PScheme) as [Ts Es],
    (si_pseudo _ _ Hi PPath) as [Tp Ep], (si_pseudo _ _ Hi PAuthority) as [Ta Ea], (si_host _ _ Hi) as [Th Eh], (si_length _ _ Hi) as [Ed El].
  cbn [sc_pseudo] in *. unfold acceptable, pseudo_value. cbv zeta. rewrite <- Em, <- Es, <- Ep, <- Ea, <- Eh, <- Ed.
  unfold scan_acceptable. rewrite El, connect_spec, !text_exact by (done || listed).
  rewrite (view_empty m (sc_authority sc)), (view_empty m (sc_host sc)) by done.
  rewrite !sl_str_equal_spec by first [apply Ts|apply Hs|apply Th|apply Ta].
  rewrite head_val by done. rewrite length_str_val by apply Tp.
  pose proof (absent_spec _ Tm) as A1. pose proof (absent_spec _ Ts) as A2. pose proof (absent_spec _ Tp) as A3.
  pose proof (absent_spec _ Hs) as A4.
  rewrite <- A1, <- A3, <- A4. clear A1 A3 A4.
  assert (A5 : is_text (str_val m (sc_scheme sc)) "http" || is_text (str_val m (sc_scheme sc)) "https" = true ->
               (str_ptr (sc_scheme sc) =? 0) || (str_length (sc_scheme sc) =? 0) = false).
  { rewrite A2, orb_true_iff, !is_text_eq. by intros [-> | ->]. }
  destruct (is_text (str_val m (sc_scheme sc)) "http" || is_text (str_val m (sc_scheme sc)) "https") eqn:Eht.
  - apply orb_false_iff in A5 as [-> ->]; [|done]. rewrite <- negb_orb, Eht. cbn [negb].
    rewrite Z.leb_antisym. clear. bool_cases.
  - rewrite <- negb_orb, Eht. cbn [negb]. by rewrite !orb_true_r, !andb_false_r.
Qed.

(** The methods a request may have. *)
Definition method_of (l : list Z) : option SlHttpMethod :=
  if is_text l "GET" then Some SL_HTTP_METHOD_GET
  else if is_text l "PUT" then Some SL_HTTP_METHOD_PUT
  else if is_text l "POST" then Some SL_HTTP_METHOD_POST
  else if is_text l "HEAD" then Some SL_HTTP_METHOD_HEAD
  else if is_text l "PATCH" then Some SL_HTTP_METHOD_PATCH
  else if is_text l "DELETE" then Some SL_HTTP_METHOD_DELETE
  else if is_text l "OPTIONS" then Some SL_HTTP_METHOD_OPTIONS
  else None.

Lemma sized_text v l n :
  text_view v -> string_size l = n -> (str_length v =? n) && is_text (str_val m v) l = is_text (str_val m v) l.
Proof.
  intros [[Hv _] _ _] <-. destruct (is_text (str_val m v) l) eqn:E; [|by rewrite andb_false_r]. apply is_text_eq in E.
  pose proof (length_str_val m v Hv) as Hl. rewrite E in Hl. unfold string_size, string_bytes in *. rewrite length_map in Hl.
  destruct (Z.eqb_spec (str_length v) (Z.of_nat (String.length l))) as [|Hn]; [done|]. exfalso. apply Hn. rewrite <- Hl.
  f_equal. clear. induction l as [|a l IH]; [done|]. cbn. by rewrite IH.
Qed.

Lemma method_spec v :
  text_view v ->
  sl_http_method_from_str m v REF = match method_of (str_val m v) with Some method => Ok method | None => Err SL_STATUS_UNSUPPORTED end.
Proof.
  intros Hv. unfold sl_http_method_from_str, method_of. cbn [is_null].
  rewrite !text_exact by (done || listed). rewrite !sized_text by done. by repeat (split_if; [done|]).
Qed.

(** The views of the scan are those of the list. *)
Definition scan_views (P : SlStr -> Prop) (sc : scan) : Prop :=
  (forall p, P (sc_pseudo p sc)) /\ P (sc_host sc) /\ P (sc_content_type sc).

Lemma scan_field_views P h sc sc' : P (h2_value h) -> scan_views P sc -> scan_field m limits h sc = Ok sc' -> scan_views P sc'.
Proof.
  intros Hh (H1 & H2 & H3). unfold scan_field. cbv zeta. do 2 (split_if; [done|]). destruct (which_pseudo m (h2_name h)) as [p|].
  - unfold scan_pseudo. do 2 (split_if; [done|]). intros [= <-]. split; [|done].
    intros q. pose proof (H1 q). by destruct p, q.
  - unfold scan_regular. do 2 (split_if; [done|]). unfold mbind, result_bind. cbv zeta.
    destruct (if sl_str_equal_ci_ascii m (h2_name h) (literal "content-length") then _ else _) as [n|]; [|done].
    split_if; [done|]. intros [= <-]. split; [intros q; pose proof (H1 q); by destruct q|]. cbn.
    by destruct (sl_str_equal_ci_ascii m (h2_name h) (literal "host")), (sl_str_equal_ci_ascii m (h2_name h) (literal "content-type")).
Qed.

Lemma scan_fields_views P hs sc sc' :
  Forall (fun h => P (h2_value h)) hs -> scan_views P sc -> scan_fields m limits hs sc = Ok sc' -> scan_views P sc'.
Proof.
  intros Hh. revert sc. induction Hh as [|h hs Hh _ IH]; intros sc Hs; cbn [scan_fields]; [by intros [= <-]|].
  unfold mbind, result_bind. destruct (scan_field m limits h sc) as [sc1|] eqn:E; [|done]. apply IH. by eapply scan_field_views.
Qed.
End Scan.

(** * Refusal *)

Section Refuse.
Context {BC : BuildConfig} {SC : SimdConfig} {RO : ReadOnlyData}.

(** Arguments a caller may pass. *)
Record request_args (arena c r : Z) (headers : SlHttp2HeaderList) (body : SlBytes) (s : BodySys) : Prop := {
  ra_pointers : arena <> 0 /\ c <> 0 /\ r <> 0;
  ra_array : hl_ptr headers = REF /\ is_size (hl_count headers);
  ra_fields : Forall field_view (hl_fields headers);
  ra_body : bytes_valid body;
  ra_scheme : text_view (cn_scheme (connection_at (bd_http s) c));
  ra_literals : literals_in (bs_mem (bd_build s)) request_literals;
  ra_limits : is_size (po_max_total_header_bytes (sl_http2_effective_parse_options c (bd_http s)));
}.

(** The header list by its bytes. *)
Definition list_bytes (headers : SlHttp2HeaderList) (s : BodySys) : list h2_field :=
  map (field_bytes (bs_mem (bd_build s))) (hl_fields headers).

(** A list that begins a request. *)
Record admissible (c : Z) (headers : SlHttp2HeaderList) (body : SlBytes) (s : BodySys) : Prop := {
  ad_count : hl_count headers <= wrap64 (po_max_headers (sl_http2_effective_parse_options c (bd_http s)) + 4);
  ad_body : bytes_length body <= po_max_body_length (sl_http2_effective_parse_options c (bd_http s));
  ad_legal : legal (sl_http2_effective_parse_options c (bd_http s)) (list_bytes headers s);
  ad_acceptable : acceptable (sl_http2_effective_parse_options c (bd_http s))
    (str_val (bs_mem (bd_build s)) (cn_scheme (connection_at (bd_http s) c))) (bytes_length body) (list_bytes headers s) = true;
}.

(** The scan of a whole list. *)
Lemma scan_exact arena c r headers body s :
  request_args arena c r headers body s ->
  let limits := sl_http2_effective_parse_options c (bd_http s) in
  let m := bs_mem (bd_build s) in
  match scan_fields m limits (hl_fields headers) scan_start with
  | Ok sc => scan_inv m limits (list_bytes headers s) sc
  | Err _ => ~ legal limits (list_bytes headers s)
  end.
Proof.
  intros Ha limits m. destruct (ra_array _ _ _ _ _ _ Ha) as [_ [_ Hn]]. pose proof (ra_limits _ _ _ _ _ _ Ha) as Hl.
  apply (scan_fields_spec m limits (ra_literals _ _ _ _ _ _ Ha) (hl_fields headers) [] scan_start).
  - apply Ha.
  - apply scan_start_inv. apply Hl.
  - exact Hn.
  - exact Hl.
Qed.

End Refuse.

Module Demo.
#[export] Instance build0 : BuildConfig := assert_build.
#[export] Instance simd0 : SimdConfig := {| SL_STRING_SIMD := SCALAR; SL_BYTES_SIMD := SCALAR |}.

(** Literals a hundred bytes apart, the strings of the header list after them. *)
Definition strings0 : list string := request_literals ++ media_literals.
Definition address (l : string) : Z :=
  match list_find (fun x => x = l) strings0 with Some (i, _) => 4096 + 100 * Z.of_nat i | None => 0 end.
#[export] Instance rodata0 : ReadOnlyData := {| rodata := address |}.

Definition values0 : list (Z * string) :=
  [(9000, "/a?b=1"); (9010, "localhost"); (9020, "x-id"); (9030, "7"); (9040, "text/plain"); (9050, "close")]%string.
Definition mem0 : mem :=
  fold_left (fun m '(p, l) => store m p l) ((9060, [47; 10; 97]) :: map (prod_map id string_bytes) values0)
    (fold_left (fun m l => store m (address l) (string_bytes l)) strings0 (fun _ => 0)).

Definition at_ (p : Z) (l : string) : SlStr := sl_str_from_parts p (string_size l).
Definition field0 (name value : SlStr) : SlHttp2HeaderField := {| h2_name := name; h2_value := value; h2_sensitive := false |}.

Definition good : list SlHttp2HeaderField :=
  [field0 (literal ":method") (literal "GET"); field0 (literal ":scheme") (literal "http");
   field0 (literal ":path") (at_ 9000 "/a?b=1"); field0 (literal ":authority") (at_ 9010 "localhost");
   field0 (at_ 9020 "x-id") (at_ 9030 "7"); field0 (literal "content-type") (literal "text/plain")].
Definition bad : list SlHttp2HeaderField := good ++ [field0 (literal "connection") (at_ 9050 "close")].
Definition list0 (fields : list SlHttp2HeaderField) : SlHttp2HeaderList := {| hl_ptr := REF; hl_fields := fields |}.
Definition body0 : SlBytes := sl_bytes_from_parts 9030 1.

(** A backend with one open connection. *)
Definition http0 : HttpSys :=
  run_calls HttpAdmission.Demo.parser0 REF [CallBackendInit 1 None; CallBackendStart 1 0; CallAccept 1 10] empty_store.

Lemma open0_reachable : rtc (http_step HttpAdmission.Demo.parser0) empty_store http0.
Proof.
  unfold http0. apply next_step; [split; [split; vm_compute; reflexivity|by split]|].
  apply next_step; [exact I|].
  apply next_step.
  { split; [vm_compute; reflexivity|]. intros r. unfold request_at.
    replace (hs_requests _) with (∅ : gmap Z SlHttpRequestLifecycle) by (vm_compute; reflexivity).
    by rewrite lookup_total_empty. }
  cbn [run_calls]. reflexivity.
Qed.

Definition state0 : BodySys :=
  {| bd_http := http0;
     bd_build := {| bs_world := {| w_mem := mem0;
                                   w_arena := {| ar_base := 16384; ar_capacity := 1024; ar_offset := 0; ar_high_water := 0; ar_generation := 1 |} |};
                    bs_builder := local_builder 12000 |};
     bd_reader := zero_reader |}.

Lemma strings0_in ls :
  forallb (fun l => (0 <? rodata l) && bool_decide (str_val mem0 (literal l) = string_bytes l)) ls = true -> literals_in mem0 ls.
Proof.
  rewrite forallb_forall. intros H l Hl. apply list_elem_of_In in Hl. specialize (H l Hl). apply andb_true_iff in H as [H1 H2%bool_decide_eq_true].
  split; [lia|done].
Qed.

Lemma view0 v : 0 < str_ptr v -> 0 <= str_length v <= 100 -> text_view v.
Proof. intros. split; [split; lia|lia|]. unfold simd_length. size_lia. Qed.

Definition in_place (v : SlStr) : bool := (0 <? str_ptr v) && (0 <=? str_length v) && (str_length v <=? 100).

Lemma fields0 fields : forallb (fun h => in_place (h2_name h) && in_place (h2_value h)) fields = true -> Forall field_view fields.
Proof.
  rewrite forallb_forall, List.Forall_forall. unfold in_place. intros H h Hin. specialize (H h Hin). split; apply view0; lia.
Qed.

Lemma args0 fields : fields = good \/ fields = bad -> request_args 7 10 100 (list0 fields) body0 state0.
Proof.
  intros Hf. split.
  - done.
  - split; [done|]. destruct Hf as [-> | ->]; split; vm_compute; discriminate.
  - apply fields0. by destruct Hf as [-> | ->]; vm_compute.
  - split; cbn; lia.
  - apply view0; vm_compute; try split; done.
  - apply strings0_in. by vm_compute.
  - split; vm_compute; discriminate.
Qed.


(** What is overlooked: two methods, the first empty, and a path with a line feed. *)
Definition overlooked : list SlHttp2HeaderField :=
  [field0 (literal ":method") sl_str_empty; field0 (literal ":method") (literal "GET"); field0 (literal ":scheme") (literal "http");
   field0 (literal ":path") (sl_str_from_parts 9060 3); field0 (literal ":authority") (at_ 9010 "localhost")].
Example overlooked_accepted :
  map snd (List.filter is_pseudo (list_bytes (list0 overlooked) state0)) =
    [[]; string_bytes "GET"; string_bytes "http"; [47; 10; 97]; string_bytes "localhost"] /\
  is_ok (fst (sl_http2_request_from_headers 7 10 (Some (list0 overlooked)) sl_bytes_empty 100 REF state0)) = true.
Proof. vm_compute. by split. Qed.
End Demo.
