(* ===== verification/Http2Build.v ===== *)
(** What becomes of an HTTP/2 header list that is a request (src/core/http2_mapping.c):
    the head it builds in the request's arena, and its body. *)

From stdpp Require Import strings gmap.
From Stdlib Require Import Strings.Ascii.
From S2P Require Import Prelude Memory Status Arena Str Bytes Simd StrArena Async Sink Builder Diag HttpResponse HttpWire HttpBackend HttpAdmission HttpBody HttpMedia Http2Map Http2Request.

Open Scope Z_scope.

(** * Copies into the arena *)

(** At most [k] bytes of the arena are used, and everything outside its free part stays. *)
Record kept (k : Z) (w w' : World) : Prop := {
  kp_wf : arena_wf (w_arena w');
  kp_same : ar_base (w_arena w') = ar_base (w_arena w) /\ ar_capacity (w_arena w') = ar_capacity (w_arena w) /\
            ar_generation (w_arena w') = ar_generation (w_arena w);
  kp_offset : ar_offset (w_arena w) <= ar_offset (w_arena w') <= ar_offset (w_arena w) + k;
  kp_mem : forall q n, outside_free (w_arena w) q n ->
    outside_free (w_arena w') q n /\ load_bytes (w_mem w') q n = load_bytes (w_mem w) q n;
}.

Lemma kept_refl w : arena_wf (w_arena w) -> kept 0 w w.
Proof. intros H. split; auto; lia. Qed.

Lemma kept_trans k1 k2 w1 w2 w3 : kept k1 w1 w2 -> kept k2 w2 w3 -> kept (k1 + k2) w1 w3.
Proof.
  intros [A1 (B1 & B2 & B3) C1 D1] [A2 (E1 & E2 & E3) C2 D2]. split; [done|split_and!; congruence|lia|].
  intros q n H. destruct (D1 q n H) as [H1 L1]. destruct (D2 q n H1) as [H2 L2]. split; [done|congruence].
Qed.

(** Bytes a copy may be made of. *)
Record source (w : World) (v : SlStr) (l : list Z) : Prop := {
  so_view : text_view v;
  so_outside : outside_free (w_arena w) (str_ptr v) (str_length v);
  so_val : str_val (w_mem w) v = l;
}.

Lemma source_length w v l : source w v l -> Z.of_nat (length l) = str_length v.
Proof. intros [[[H _] _ _] _ <-]. by apply length_str_val. Qed.

Lemma source_kept k w w' v l : kept k w w' -> source w v l -> source w' v l.
Proof. intros [_ _ _ H] [A B <-]. destruct (H _ _ B) as [B' L]. by split. Qed.

(** A view of a copy in the arena. *)
Record copied (w : World) (v : SlStr) (l : list Z) : Prop := {
  cp_val : str_val (w_mem w) v = l;
  cp_outside : outside_free (w_arena w) (str_ptr v) (str_length v);
  cp_place : str_length v = 0 \/ (ar_base (w_arena w) <= str_ptr v /\ str_ptr v + str_length v <= ar_base (w_arena w) + ar_capacity (w_arena w));
}.

Lemma copied_kept k w w' v l : kept k w w' -> copied w v l -> copied w' v l.
Proof. intros [_ (B1 & B2 & _) _ H] [<- B C]. destruct (H _ _ B) as [B' L]. split; [done|done|]. by rewrite B1, B2. Qed.

Section Copies.
Context {BC : BuildConfig} {SC : SimdConfig} {RO : ReadOnlyData}.

Lemma alloc_kept size w :
  arena_wf (w_arena w) -> ar_base (w_arena w) <> 0 -> 0 < size -> is_size size ->
  ar_offset (w_arena w) + (7 + size) <= ar_capacity (w_arena w) ->
  exists p w', sl_arena_alloc REF size 8 REF w = (Ok p, w') /\ alloc_post size 8 p w w' /\ kept (7 + size) w w'.
Proof.
  intros Hwf Hb Hs Hz Hr. pose proof (sl_arena_alloc_cases size 8 w Hwf Hz ltac:(size_lia)) as Hc.
  pose proof (arena_padding_bound (w_arena w) 8 ltac:(lia)) as Hpad.
  destruct (sl_arena_alloc REF size 8 REF w) as [[p|e] w'] eqn:E.
  2: { exfalso. destruct Hc as [_ Hc]. assert (sl_arena_is_power_of_two 8 = true) as Hp by done. rewrite Hp in Hc.
       destruct Hc as [?|[?|[?|?]]]; [lia|done|done|lia]. }
  destruct Hc as (_ & _ & Hpost). exists p, w'. split; [done|]. split; [done|].
  pose proof E as E'. apply sl_arena_alloc_fresh in E as [_ [F1 F2 F3 F4 F5 F6]]; [|done|done|size_lia].
  destruct Hpost as [G1 G2 G3 G4 G5 G6 G7].
  split; [done|by rewrite G5|rewrite G2 in G4; lia|]. intros q n H. by destruct (F6 q n H) as (_ & ? & ?).
Qed.

Lemma copy_ok v l w :
  arena_wf (w_arena w) -> ar_base (w_arena w) <> 0 -> source w v l ->
  ar_offset (w_arena w) + (7 + Z.of_nat (length l)) <= ar_capacity (w_arena w) ->
  exists out w', sl_str_copy_view_to_arena REF v REF w = (Ok out, w') /\ kept (7 + Z.of_nat (length l)) w w' /\ copied w' out l.
Proof.
  intros Hwf Hb Hso Hr. pose proof (source_length _ _ _ Hso) as Hl. rewrite Hl in *. destruct Hso as [[Hv Hp Hsh] Ho <-].
  unfold sl_str_copy_view_to_arena, copy_in_world. unfold_st. cbn [is_null orb]. rewrite str_valid_storage by done. cbn [negb].
  destruct (Z.eqb_spec (str_length v) 0) as [E0|E0].
  { eexists _, w. split; [reflexivity|]. pose proof (kept_refl w Hwf) as [K1 K2 K3 K4]. split; [split; [done|done|lia|done]|].
    split; [by unfold str_val; rewrite E0| |by left]. unfold outside_free, disjoint_ranges. cbn. lia. }
  destruct Hv as [Hv0 _]. destruct (alloc_kept (str_length v) w) as (p & w1 & E & Hpost & Hk); [done|done|lia|unfold simd_length in Hsh; size_lia|done|].
  change SL_STR_WORD_ALIGNMENT with 8. rewrite E. eexists _, _. split; [reflexivity|].
  destruct (alloc_copy (str_length v) (str_ptr v) p w w1 Hwf Hv0 Hpost Ho) as [H1 H2].
  destruct (alloc_post_block (str_length v) 8 p w w1 Hwf ltac:(lia) Hv0 Hpost) as (H3 & H4 & H5).
  destruct Hk as [K1 (K2 & K3 & K5) K4 K6]. split.
  - split; [done|done|done|]. intros q n Hq. destruct (K6 q n Hq) as [Q1 Q2]. split; [done|].
    cbn [w_mem set_mem]. eapply load_bytes_same; [exact H2|].
    destruct (alloc_post_outside (str_length v) 8 p w w1 q n Hwf ltac:(lia) Hv0 Hpost Hq) as (Hd & _). unfold disjoint_ranges in *. lia.
  - split; [exact H1| |right; cbn; unfold arena_wf in Hwf; lia]. cbn. destruct Hpost as [? Hf ? He Ha ? ?]. unfold outside_free, disjoint_ranges.
    rewrite Ha in He |- *; cbn in *. lia.
Qed.

(** A header in the arena. *)
Definition header_copied (w : World) (f : h2_field) (h : SlHttpHeader) : Prop :=
  copied w (hh_name h) (fst f) /\ copied w (hh_value h) (snd f).

Definition header_room (f : h2_field) : Z := 14 + field_size f.

Lemma header_copied_kept k w w' f h : kept k w w' -> header_copied w f h -> header_copied w' f h.
Proof. intros Hk [? ?]. split; by eapply copied_kept. Qed.

Lemma copy_header_ok name value f w :
  arena_wf (w_arena w) -> ar_base (w_arena w) <> 0 -> source w name (fst f) -> source w value (snd f) ->
  ar_offset (w_arena w) + header_room f <= ar_capacity (w_arena w) ->
  exists h w', sl_http2_copy_header REF name value REF w = (Ok h, w') /\ kept (header_room f) w w' /\ header_copied w' f h.
Proof.
  intros Hwf Hb Hn Hv Hr. unfold header_room, field_size in *. unfold sl_http2_copy_header. cbn [is_null orb]. unfold mbind, st_bind.
  destruct (copy_ok name (fst f) w) as (out1 & w1 & -> & K1 & C1); [done|done|done|lia|].
  pose proof K1 as [A1 (A2 & A3 & A4) A5 A6].
  destruct (copy_ok value (snd f) w1) as (out2 & w2 & -> & K2 & C2); [done|congruence|by eapply source_kept|rewrite A3; lia|].
  eexists _, _. split; [reflexivity|]. split; [|split; [by eapply copied_kept|done]].
  replace (14 + _) with ((7 + Z.of_nat (length (fst f))) + (7 + Z.of_nat (length (snd f)))) by lia. by eapply kept_trans.
Qed.

(** Sums over a list of fields. *)
Definition headers_room (fs : list h2_field) : Z := fold_right (fun f n => header_room f + n) 0 fs.

Lemma headers_room_nonneg fs : 0 <= headers_room fs.
Proof. unfold headers_room, header_room, field_size. induction fs; cbn; lia. Qed.

(** The fields that become headers beside the host. *)
Definition travels (f : h2_field) : bool := negb (is_pseudo f) && negb (is_text (fst f) "host").
Definition request_fields (fs : list h2_field) : list h2_field := List.filter travels fs.

(** A field that is well-formed where it stands. *)
Definition field_ok (f : h2_field) : Prop := is_pseudo f = true \/ regular_ok f = true.

Definition field_source (w : World) (h : SlHttp2HeaderField) (f : h2_field) : Prop :=
  source w (h2_name h) (fst f) /\ source w (h2_value h) (snd f).

Lemma copies_field_spec m authority h :
  literals_in m request_literals -> field_view h -> sl_str_is_empty authority = false -> field_ok (field_bytes m h) ->
  copies_field m authority h = travels (field_bytes m h).
Proof.
  intros Hlit Hv Ha Hok. unfold copies_field, travels. rewrite Ha. cbn [negb andb].
  pose proof (tv_valid _ (proj1 Hv)) as [Hl _].
  destruct Hok as [Hp|Hr].
  - rewrite Hp. cbn [negb andb].
    assert (Hc : negb (str_length (h2_name h) =? 0) && (ld8 m (str_ptr (h2_name h)) =? 58) = true); [|by rewrite Hc].
    rewrite is_pseudo_of in Hp. destruct (pseudo_of _) as [p|] eqn:E; [|done]. apply pseudo_of_some in E. cbn [field_bytes fst] in E.
    unfold str_val, load_bytes in E. destruct (Z.to_nat (str_length (h2_name h))) as [|k] eqn:Ek; [by destruct p|].
    cbn [load] in E. destruct (Z.eqb_spec (str_length (h2_name h)) 0); [lia|]. cbn [negb andb].
    apply (f_equal head) in E. cbn [head] in E. assert (E58 : head (string_bytes (pseudo_name p)) = Some 58) by by destruct p.
    rewrite E58 in E. injection E as ->. done.
  - rewrite (regular_not_pseudo _ Hr). cbn [negb andb].
    destruct (negb (str_length (h2_name h) =? 0) && (ld8 m (str_ptr (h2_name h)) =? 58)) eqn:Ec.
    + apply andb_true_iff in Ec as [Ec1%negb_true_iff%Z.eqb_neq Ec2%Z.eqb_eq]. by rewrite (colon_not_regular m h Hv Ec1 Ec2) in Hr.
    + rewrite (ci_name m Hlit) by (done || listed). by destruct (is_text _ _).
Qed.

Lemma literals_kept k w w' ls :
  kept k w w' -> (forall l, l ∈ ls -> outside_free (w_arena w) (rodata l) (string_size l)) ->
  literals_in (w_mem w) ls -> literals_in (w_mem w') ls.
Proof.
  intros [_ _ _ H] Ho Hlit l Hl. destruct (Hlit l Hl) as [H1 H2]. split; [done|]. rewrite <- H2. by apply H, Ho.
Qed.

Lemma field_source_kept k w w' h f : kept k w w' -> field_source w h f -> field_source w' h f.
Proof. intros Hk [? ?]. split; by eapply source_kept. Qed.

(** The copying loop. *)
Lemma copy_fields_ok authority hs fs first w :
  arena_wf (w_arena w) -> ar_base (w_arena w) <> 0 -> sl_str_is_empty authority = false ->
  literals_in (w_mem w) request_literals ->
  (forall l, l ∈ request_literals -> outside_free (w_arena w) (rodata l) (string_size l)) ->
  Forall2 (field_source w) hs fs -> Forall field_ok fs ->
  ar_offset (w_arena w) + headers_room (request_fields fs) <= ar_capacity (w_arena w) ->
  exists out w', copy_fields authority hs first w = (Ok (first ++ out), w') /\
    kept (headers_room (request_fields fs)) w w' /\ Forall2 (header_copied w') (request_fields fs) out.
Proof.
  intros Hwf Hb Ha Hlit Hlo Hf Hok. revert first w Hwf Hb Hlit Hlo Hf Hok.
  revert hs. induction fs as [|f fs IH]; intros hs first w Hwf Hb Hlit Hlo Hf Hok Hr.
  { inversion Hf; subst. exists [], w. split; [by rewrite app_nil_r|]. split; [by apply kept_refl|constructor]. }
  inversion Hf as [|h ? hs' ? Hh Hhs]; subst. apply Forall_cons in Hok as [Hok1 Hok]. cbn [copy_fields].
  assert (Ef : field_bytes (w_mem w) h = f).
  { destruct Hh as [[_ _ E1] [_ _ E2]]. unfold field_bytes. rewrite E1, E2. by destruct f. }
  unfold mbind, st_bind, gets. rewrite copies_field_spec by first [done|split; apply Hh|by rewrite Ef]. rewrite Ef.
  unfold request_fields in *. cbn [List.filter] in *. destruct (travels f) eqn:Et; [|by apply IH].
  cbn [headers_room fold_right] in *. fold (headers_room (List.filter travels fs)) in *.
  pose proof (headers_room_nonneg (List.filter travels fs)) as Hnn.
  destruct (copy_header_ok (h2_name h) (h2_value h) f w) as (hd & w1 & -> & K1 & C1); [done|done|apply Hh|apply Hh|lia|].
  pose proof K1 as [A1 (A2 & A3 & A4) A5 A6].
  destruct (IH hs' (first ++ [hd]) w1) as (out & w2 & E & K2 & C2).
  - done.
  - congruence.
  - by eapply literals_kept.
  - intros l Hl. by apply A6, Hlo.
  - eapply Forall2_impl; [exact Hhs|]. intros ? ? ?. by eapply field_source_kept.
  - done.
  - rewrite A3. lia.
  - exists (hd :: out), w2. rewrite E, <- app_assoc. split; [done|]. split; [by eapply kept_trans|].
    constructor; [by eapply header_copied_kept|done].
Qed.

Definition regular_count (fs : list h2_field) : Z := Z.of_nat (length (List.filter (fun f => negb (is_pseudo f)) fs)).

Definition host_field (authority : list Z) : h2_field := (string_bytes "host", authority).

(** Arena space for the header array and the copies of the headers. *)
Definition array_room (authority : list Z) (fs : list h2_field) : Z :=
  (7 + 32 * (regular_count fs + 1)) + (header_room (host_field authority) + headers_room (request_fields fs)).

Lemma literal_source w l :
  l ∈ request_literals -> literals_in (w_mem w) request_literals -> outside_free (w_arena w) (rodata l) (string_size l) ->
  source w (literal l) (string_bytes l).
Proof.
  intros Hl Hlit Ho. destruct (Hlit l Hl) as [H1 H2]. split; [|done|done].
  assert (0 <= string_size l <= 100).
  { unfold request_literals in Hl. repeat (apply elem_of_cons in Hl as [->|Hl]; [split; vm_compute; discriminate|]). by apply not_elem_of_nil in Hl. }
  split; [split; cbn; lia|cbn; lia|]. unfold simd_length. cbn. size_lia.
Qed.

(** The array holds every header that is stored in it. *)
Lemma request_fields_count fs : Z.of_nat (length (request_fields fs)) <= regular_count fs.
Proof.
  unfold request_fields, regular_count, travels. induction fs as [|f fs IH]; [done|]. cbn [List.filter].
  destruct (negb (is_pseudo f)); cbn [andb]; [|done]. destruct (negb (is_text (fst f) "host")); cbn [length]; lia.
Qed.

Lemma copy_headers_ok limits authority al hs fs w :
  arena_wf (w_arena w) -> ar_base (w_arena w) <> 0 -> source w authority al -> al <> [] ->
  literals_in (w_mem w) request_literals ->
  (forall l, l ∈ request_literals -> outside_free (w_arena w) (rodata l) (string_size l)) ->
  Forall2 (field_source w) hs fs -> Forall field_ok fs ->
  regular_count fs + 1 <= po_max_headers limits ->
  ar_offset (w_arena w) + array_room al fs <= ar_capacity (w_arena w) ->
  exists storage out w', copy_headers limits authority (regular_count fs) hs w = (Ok (storage, out), w') /\
    kept (array_room al fs) w w' /\ Forall2 (header_copied w') (host_field al :: request_fields fs) out /\
    Z.of_nat (length out) <= regular_count fs + 1.
Proof.
  intros Hwf Hb Ha Hne Hlit Hlo Hf Hok Hmax Hr.
  assert (Hae : sl_str_is_empty authority = false).
  { rewrite (view_empty (w_mem w)) by apply Ha. rewrite (so_val _ _ _ Ha). by apply bool_decide_eq_false. }
  assert (Hc0 : 0 <= regular_count fs) by (unfold regular_count; lia).
  unfold array_room in *. pose proof (headers_room_nonneg (request_fields fs)) as Hn1.
  assert (Hn2 : 0 <= header_room (host_field al)) by (unfold header_room, field_size; lia).
  pose proof (headers_room_nonneg fs) as _. assert (Hcap : ar_capacity (w_arena w) <= UINTPTR_MAX) by (unfold arena_wf in Hwf; lia).
  assert (Hoff : 0 <= ar_offset (w_arena w)) by (unfold arena_wf in Hwf; lia).
  assert (Hcs : is_size (regular_count fs + 1)) by (unfold is_size; change SIZE_MAX with UINTPTR_MAX; lia).
  unfold copy_headers. rewrite Hae. cbn [negb]. rewrite wrap64_small by done. unfold mbind, st_bind.
  destruct (Z.ltb_spec (po_max_headers limits) (regular_count fs + 1)); [lia|].
  destruct (Z.eqb_spec (regular_count fs + 1) 0); [lia|]. cbn [negb].
  unfold lift, sl_checked_array_size, SL_HTTP_HEADER_SIZE, SL_HTTP_HEADER_ALIGNMENT. rewrite checked_mul_spec by (done || size_lia). unfold checked.
  destruct (Z.leb_spec ((regular_count fs + 1) * 32) SIZE_MAX) as [Hsz|Hsz]; [|change SIZE_MAX with UINTPTR_MAX in Hsz; lia].
  destruct (alloc_kept ((regular_count fs + 1) * 32) w) as (p & w1 & -> & _ & K1); [done|done|lia|split; lia|lia|].
  pose proof K1 as [A1 (A2 & A3 & A4) A5 A6].
  assert (Hlit1 : literals_in (w_mem w1) request_literals) by by eapply literals_kept.
  destruct (copy_header_ok (literal "host") authority (host_field al) w1) as (h & w2 & -> & K2 & C2).
  - done.
  - congruence.
  - apply (literal_source w1 "host"); [listed|done|]. apply A6, Hlo. listed.
  - by eapply source_kept.
  - rewrite A3. lia.
  - pose proof (kept_trans _ _ _ _ _ K1 K2) as K12. pose proof K12 as [B1 (B2 & B3 & B4) B5 B6]. unfold mret, st_ret. cbn beta iota.
    destruct (copy_fields_ok authority hs fs [h] w2) as (out & w3 & -> & K3 & C3).
    + done.
    + congruence.
    + done.
    + by eapply literals_kept.
    + intros l Hl. by apply B6, Hlo.
    + eapply Forall2_impl; [exact Hf|]. intros ? ? ?. by eapply field_source_kept.
    + done.
    + rewrite B3. lia.
    + exists p, (h :: out), w3. split; [done|]. pose proof (kept_trans _ _ _ _ _ K12 K3) as K. split.
      { destruct K as [? ? ? ?]. split; [done|done|lia|done]. }
      split; [constructor; [eapply header_copied_kept; [exact K3|exact C2]|exact C3]|].
      apply Forall2_length in C3. pose proof (request_fields_count fs). cbn [length]. lia.
Qed.
End Copies.

(** * The path of a target *)

Fixpoint before_query (l : list Z) : list Z :=
  match l with
  | [] => []
  | c :: l => if c =? 63 then [] else c :: before_query l
  end.

Lemma until_query_spec m p n : (until_query m p n <= n)%nat /\ load m p (until_query m p n) = before_query (load m p n).
Proof.
  revert p. induction n as [|n IH]; intros p; [done|]. cbn [until_query load before_query].
  destruct (ld8 m p =? 63); [split; [lia|done]|]. destruct (IH (p + 1)) as [? E]. split; [lia|]. cbn [load]. by rewrite E.
Qed.

Lemma path_source w v l : source w v l -> source w (sl_http2_path_from_target (w_mem w) v) (before_query l).
Proof.
  intros [[[Hl Hv] Hp Hs] Ho <-]. unfold sl_http2_path_from_target. cbv zeta.
  destruct (until_query_spec (w_mem w) (str_ptr v) (Z.to_nat (str_length v))) as [Hu Eu].
  set (k := until_query (w_mem w) (str_ptr v) (Z.to_nat (str_length v))) in *. unfold simd_length in *.
  destruct (Nat.ltb_spec k (Z.to_nat (str_length v))).
  - split; [split; [split; cbn; lia|cbn; lia|unfold simd_length; cbn; lia]| |].
    + cbn. unfold outside_free, disjoint_ranges in *. lia.
    + unfold str_val, load_bytes in *. cbn [str_ptr str_length sl_str_from_parts]. by rewrite Nat2Z.id, Eu.
  - assert (k = Z.to_nat (str_length v)) as Ek by lia. split; [by split|done|]. unfold str_val, load_bytes in *. by rewrite <- Eu, Ek.
Qed.

Lemma before_query_length l : (length (before_query l) <= length l)%nat.
Proof. induction l as [|c l IH]; [done|]. cbn. destruct (c =? 63); cbn; lia. Qed.

(** * The request *)

Section Build.
Context {BC : BuildConfig} {SC : SimdConfig} {RO : ReadOnlyData}.

(** What a request is when it has begun. *)
Record begun (c a r : Z) (h h1 : HttpSys) : Prop := {
  bg_pointers : a <> 0 /\ c <> 0 /\ r <> 0 /\ cn_backend (connection_at h c) <> 0;
  bg_backend : cn_backend (connection_at h1 c) = cn_backend (connection_at h c);
  bg_started : be_state (backend_at h1 (cn_backend (connection_at h c))) = SL_HTTP_BACKEND_STATE_STARTED;
  bg_options : be_options (backend_at h1 (cn_backend (connection_at h c))) = be_options (backend_at h (cn_backend (connection_at h c)));
  bg_request : rq_connection (request_at h1 r) = c /\ rq_arena (request_at h1 r) = a /\ rq_head (request_at h1 r) = zero_head /\
    rq_admitted (request_at h1 r) = true /\ tok_cancelled (rq_cancellation (request_at h1 r)) = false;
}.

Lemma can_begin_started c h :
  sl_http_connection_can_begin_request c h = true -> be_state (backend_at h (cn_backend (connection_at h c))) = SL_HTTP_BACKEND_STATE_STARTED.
Proof.
  unfold sl_http_connection_can_begin_request, be_is. destruct (bool_decide_reflect (be_state (backend_at h (cn_backend (connection_at h c))) = SL_HTTP_BACKEND_STATE_STARTED)); [done|].
  by rewrite orb_true_r.
Qed.

Lemma begin_result c a r d h h1 : sl_http_request_begin c a r d h = (Ok tt, h1) -> begun c a r h h1.
Proof.
  unfold sl_http_request_begin, clear_diag, refuse. unfold_st.
  set (h0 := if is_null d then h else put_diag zero_diag h).
  assert (E0 : (forall q, connection_at h0 q = connection_at h q) /\ (forall q, backend_at h0 q = backend_at h q)) by (unfold h0; by destruct (is_null d)).
  destruct E0 as [Ec Eb]. clearbody h0.
  assert (Hrefuse : forall (x : SlStatusCode * HttpSys) (y : HttpSys), (let '(c0, s) := x in (Err c0, s)) <> ((Ok tt, y) : result unit * HttpSys)).
  { by intros [? ?] ?. }
  split_if; cbn beta; [discriminate|]. split_if; cbn beta; [discriminate|].
  split_if; [cbn beta; intros []%Hrefuse|]. split_if; [cbn beta; intros []%Hrefuse|]. cbn beta.
  split_if; [cbn beta; intros []%Hrefuse|]. do 2 (split_if; [cbn beta; intros []%Hrefuse|]).
  intros [= <-]. rewrite !orb_false_iff in *. destruct Heqb0 as [[H1%Z.eqb_neq H2%Z.eqb_neq] H3%Z.eqb_neq]. apply Z.eqb_neq in Heqb.
  apply negb_false_iff, can_begin_started in Heqb3. store. rewrite ?Ec, ?Eb in *.
  split; store; rewrite ?Ec, ?Eb; try done; rewrite !decide_True by done; try done.
Qed.

(** A body given in one piece. *)
Definition read_whole (r : Z) (content_type : SlStr) (body : SlBytes) (d : nullable) : ST BodySys unit :=
  sl_http_request_body_reader_begin r content_type (bytes_length body) REF d ;;
  sl_http_request_body_reader_append REF body d ;;
  sl_http_request_body_reader_finish REF d.

Lemma read_whole_ok r ct kind body d s :
  may_begin r ct (bytes_length body) kind s ->
  bytes_valid body -> bytes_wf body -> caller_chunk s (bytes_ptr body) (bytes_length body) ->
  exists s', read_whole r ct body d s = (Ok tt, s') /\ http_inv (bd_http s') /\
    bytes_val (bs_mem (bd_build s')) (hd_body (rq_head (request_at (bd_http s') r))) = bytes_val (bs_mem (bd_build s)) body /\
    (exists b, request_at (bd_http s') r = request_at (put_body r b (bd_http s)) r) /\
    (forall q k, caller_chunk s q k -> load_bytes (bs_mem (bd_build s')) q k = load_bytes (bs_mem (bd_build s)) q k).
Proof.
  intros Hmb Hv Hw Hcc. destruct (begin_ok r ct (bytes_length body) kind d s Hmb) as (s1 & E1 & Hrd & Hexp & _ & Hd & Hat & Hfor).
  destruct (Hfor _ _ Hcc) as [Hf Hl].
  pose proof (append_spec r [] body d s1 Hrd ltac:(by split)) as Ha. unfold chunk_outcome, fits in Ha. rewrite Hd, Hexp in Ha. cbn [negb andb length] in Ha.
  unfold read_whole. unfold_st. rewrite E1.
  destruct (sl_http_request_body_reader_append REF body d s1) as [[[]|e] s2].
  2: { exfalso. destruct Ha as [Ha _]. apply Z.leb_gt in Ha. cbn in Ha. lia. }
  destruct Ha as (_ & Hrd2 & [U1 U2 U3 _ _ U6]). pose proof (finish_spec r _ d s2 Hrd2) as Hf2. unfold finish_outcome in Hf2.
  assert (Hlen : Z.of_nat (length (chunk_val s1 body)) = bytes_length body) by (apply length_load_bytes; apply Hv).
  destruct (sl_http_request_body_reader_finish REF d s2) as [[[]|e] s3].
  2: { exfalso. destruct Hf2 as [[Hf2|Hf2] _]; [congruence|]. apply Hf2. cbn [app]. lia. }
  destruct Hf2 as (_ & _ & V & _ & Hi & Eb & b & Hb). exists s3. split; [done|]. split; [done|]. split; [|split].
  - rewrite V. cbn [app]. exact Hl.
  - exists b. rewrite Hb. unfold put_body, upd_request. by rewrite !request_at_put, U6, Hat.
  - intros q k Hq. destruct (Hfor q k Hq) as [F1 L1]. rewrite Eb. by rewrite (proj2 (U1 q k F1)).
Qed.

Definition with_world (w : World) (s : BodySys) : BodySys := set_build (set_world w (bd_build s)) s.

Lemma or_fail_ok {A} r d (c : ST World A) a w s :
  c (bs_world (bd_build s)) = (Ok a, w) -> or_fail r d c s = (Ok a, with_world w s).
Proof. intros E. unfold or_fail, on_error, in_world, in_build, in_arena, zoom. by rewrite E. Qed.

(** The host a request is for, and the type of its body. *)
Definition effective_host (fs : list h2_field) : list Z :=
  if bool_decide (pseudo_value PAuthority fs = []) then final (named "host" fs) else pseudo_value PAuthority fs.

Definition body_type (fs : list h2_field) : list Z :=
  if bool_decide (named "content-type" fs = []) then string_bytes "application/octet-stream" else final (named "content-type" fs).

(** Arena space for a request. *)
Definition request_room (fs : list h2_field) (body_length : Z) : Z :=
  array_room (effective_host fs) fs + (7 + Z.of_nat (length (pseudo_value PPath fs))) +
  (7 + Z.of_nat (length (before_query (pseudo_value PPath fs)))) + body_length.

(** The caller's memory: apart from the free part of the arena and the reader. *)
Definition theirs (s : BodySys) (v : SlStr) : Prop := caller_chunk s (str_ptr v) (str_length v).

Record buildable (c r : Z) (headers : SlHttp2HeaderList) (body : SlBytes) (method : SlHttpMethod)
    (kind : SlHttpRequestBodyKind) (s : BodySys) : Prop := {
  bu_inv : http_inv (bd_http s) /\ free_request (bd_http s) r;
  bu_arena : arena_wf (w_arena (bs_world (bd_build s))) /\ ar_base (w_arena (bs_world (bd_build s))) <> 0;
  bu_small : disjoint_ranges (ar_base (w_arena (bs_world (bd_build s)))) (ar_capacity (w_arena (bs_world (bd_build s))))
               (bb_small (bs_builder (bd_build s))) SL_BYTE_BUILDER_SMALL_CAPACITY;
  bu_fields : Forall (fun h => theirs s (h2_name h) /\ theirs s (h2_value h)) (hl_fields headers);
  bu_body : bytes_wf body /\ caller_chunk s (bytes_ptr body) (bytes_length body);
  bu_media : literals_in (bs_mem (bd_build s)) media_literals;
  bu_literals : forall l, l ∈ request_literals ++ media_literals -> theirs s (literal l);
  bu_method : method_of (pseudo_value PMethod (list_bytes headers s)) = Some method;
  bu_kind : body_kind (body_type (list_bytes headers s)) (bytes_length body) = Some kind;
  bu_count : regular_count (list_bytes headers s) + 1 <= po_max_headers (sl_http2_effective_parse_options c (bd_http s));
  bu_limit : po_max_body_length (sl_http2_effective_parse_options c (bd_http s)) <= SIZE_MAX;
  bu_room : ar_offset (w_arena (bs_world (bd_build s))) + request_room (list_bytes headers s) (bytes_length body) <=
            ar_capacity (w_arena (bs_world (bd_build s)));
}.

(** The request as built, by its bytes. *)
Record built_from (c r : Z) (fs : list h2_field) (body : list Z) (method : SlHttpMethod) (s : BodySys) : Prop := {
  bf_state : rq_state (request_at (bd_http s) r) = SL_HTTP_REQUEST_STATE_READING;
  bf_admitted : rq_admitted (request_at (bd_http s) r) = true /\ rq_connection (request_at (bd_http s) r) = c;
  bf_method : hd_method (rq_head (request_at (bd_http s) r)) = method;
  bf_version : hd_version_major (rq_head (request_at (bd_http s) r)) = 2 /\ hd_version_minor (rq_head (request_at (bd_http s) r)) = 0;
  bf_target : str_val (bs_mem (bd_build s)) (hd_raw_target (rq_head (request_at (bd_http s) r))) = pseudo_value PPath fs;
  bf_path : str_val (bs_mem (bd_build s)) (hd_path (rq_head (request_at (bd_http s) r))) = before_query (pseudo_value PPath fs);
  bf_headers : map (fun h => (str_val (bs_mem (bd_build s)) (hh_name h), str_val (bs_mem (bd_build s)) (hh_value h)))
                 (hd_headers (rq_head (request_at (bd_http s) r))) = host_field (effective_host fs) :: request_fields fs;
  bf_array : Z.of_nat (length (hd_headers (rq_head (request_at (bd_http s) r)))) <= regular_count fs + 1;
  bf_body : bytes_val (bs_mem (bd_build s)) (hd_body (rq_head (request_at (bd_http s) r))) = body;
  bf_inv : http_inv (bd_http s);
}.

(** What the second half starts from. *)
Record ready_to_build (c r : Z) (limits : SlHttpParseOptions) (hs : list SlHttp2HeaderField) (fs : list h2_field) (sc : scan)
    (s : BodySys) : Prop := {
  rb_scan : scan_inv (bs_mem (bd_build s)) limits fs sc;
  rb_views : scan_views (theirs s) sc;
  rb_fields : Forall2 (field_source (bs_world (bd_build s))) hs fs;
  rb_host : effective_host fs <> [];
  rb_literals : literals_in (bs_mem (bd_build s)) request_literals;
}.

Definition effective_view (sc : scan) : SlStr := if sl_str_is_empty (sc_authority sc) then sc_host sc else sc_authority sc.

Lemma effective_view_source c r limits hs fs sc s :
  ready_to_build c r limits hs fs sc s -> source (bs_world (bd_build s)) (effective_view sc) (effective_host fs).
Proof.
  intros [Hs (Hp & Hh & _) _ _ _]. destruct (si_pseudo _ _ _ _ Hs PAuthority) as [T1 E1], (si_host _ _ _ _ Hs) as [T2 E2]. cbn [sc_pseudo] in *.
  unfold effective_view, effective_host, pseudo_value. rewrite <- E1. rewrite (view_empty (bs_mem (bd_build s))) by done.
  specialize (Hp PAuthority). destruct (bool_decide _); split; try done; [apply Hh|apply Hp].
Qed.

Lemma legal_fields_ok limits fs : legal limits fs -> Forall field_ok fs.
Proof.
  intros H. destruct (lg_order _ _ H) as (ps & rs & -> & Hp & Hr). apply Forall_app. split.
  - eapply Forall_impl; [exact Hp|]. by left.
  - eapply Forall_impl; [exact Hr|]. by right.
Qed.

(** Copies of all parts of the head. *)
Lemma copies_ok c r limits hs fs sc len s :
  ready_to_build c r limits hs fs sc s ->
  (forall l, l ∈ request_literals -> theirs s (literal l)) ->
  arena_wf (w_arena (bs_world (bd_build s))) -> ar_base (w_arena (bs_world (bd_build s))) <> 0 ->
  regular_count fs + 1 <= po_max_headers limits -> 0 <= len ->
  ar_offset (w_arena (bs_world (bd_build s))) + request_room fs len <= ar_capacity (w_arena (bs_world (bd_build s))) ->
  exists storage out w1 target w2 path w3,
    copy_headers limits (effective_view sc) (sc_regular_count sc) hs (bs_world (bd_build s)) = (Ok (storage, out), w1) /\
    sl_str_copy_view_to_arena REF (sc_target sc) REF w1 = (Ok target, w2) /\
    sl_str_copy_view_to_arena REF (sl_http2_path_from_target (w_mem w2) (sc_target sc)) REF w2 = (Ok path, w3) /\
    kept (request_room fs len - len) (bs_world (bd_build s)) w3 /\
    Forall2 (header_copied w3) (host_field (effective_host fs) :: request_fields fs) out /\
    Z.of_nat (length out) <= regular_count fs + 1 /\
    copied w3 target (pseudo_value PPath fs) /\ copied w3 path (before_query (pseudo_value PPath fs)).
Proof.
  intros Hr Hlo Hwf Hb Hmax Hlen Hroom. unfold request_room in Hroom. set (w := bs_world (bd_build s)) in *.
  pose proof (rb_scan _ _ _ _ _ _ _ Hr) as Hsc. rewrite (si_count _ _ _ _ Hsc). fold (regular_count fs).
  destruct (copy_headers_ok limits (effective_view sc) (effective_host fs) hs fs w) as (storage & out & w1 & E1 & K1 & C1 & L1).
  1-2: done.
  1: by eapply effective_view_source.
  1-2: apply Hr.
  1: intros l Hl; by apply Hlo.
  1: apply Hr.
  1: eapply legal_fields_ok, Hsc.
  1: done.
  1: lia.
  pose proof K1 as [A1 (A2 & A3 & A4) A5 A6].
  assert (S0 : source w (sc_target sc) (pseudo_value PPath fs)).
  { destruct (si_pseudo _ _ _ _ Hsc PPath) as [T E]. split; [exact T|apply (proj1 (rb_views _ _ _ _ _ _ _ Hr) PPath)|exact E]. }
  destruct (copy_ok (sc_target sc) (pseudo_value PPath fs) w1) as (target & w2 & E2 & K2 & C2);
    [done|congruence|by eapply source_kept|rewrite A3; lia|].
  pose proof (kept_trans _ _ _ _ _ K1 K2) as K12. pose proof K12 as [B1 (B2 & B3 & B4) B5 B6].
  destruct (copy_ok (sl_http2_path_from_target (w_mem w2) (sc_target sc)) (before_query (pseudo_value PPath fs)) w2)
    as (path & w3 & E3 & K3 & C3); [done|congruence|apply path_source; by eapply source_kept|rewrite B3; lia|].
  pose proof (kept_trans _ _ _ _ _ K12 K3) as [D1 D2 D3 D4].
  exists storage, out, w1, target, w2, path, w3. split; [done|]. split; [done|]. split; [done|]. split.
  { split; [done|done|unfold request_room; lia|done]. }
  split; [eapply Forall2_impl; [exact C1|]; intros f hd H; eapply header_copied_kept; [exact K3|]; eapply header_copied_kept; [exact K2|exact H]|].
  split; [done|]. split; [by eapply copied_kept|done].
Qed.

(** The store after the assignments to the head and the states. *)
Definition assigned (c r : Z) (method : SlHttpMethod) (target path : SlStr) (storage : Z) (out : list SlHttpHeader) (h : HttpSys) : HttpSys :=
  let head f := upd_request r (fun q => rq_set_head (f (rq_head q)) q) in
  upd_connection c (cn_set_state SL_HTTP_CONNECTION_STATE_READING_REQUEST)
    (upd_request r (rq_set_state SL_HTTP_REQUEST_STATE_READING)
      (head (hd_set_headers storage out) (head (hd_set_path path) (head (hd_set_target target) (head (hd_set_method method) h))))).

Lemma assigned_inv c r method target path storage out h : http_inv h -> http_inv (assigned c r method target path storage out h).
Proof.
  intros Hi. unfold assigned. cbv zeta.
  assert (Hh : forall f h, http_inv h -> http_inv (upd_request r (fun q => rq_set_head (f (rq_head q)) q) h)).
  { intros f h' H. eapply quiet_keeps; [|exact H]. apply quiet_upd_request; auto. }
  eapply quiet_keeps; [apply quiet_upd_connection; auto; intros; by left|].
  eapply quiet_keeps; [apply quiet_upd_request; auto|]. do 4 apply Hh. exact Hi.
Qed.

Lemma assigned_request c r method target path storage out h :
  request_at (assigned c r method target path storage out h) r =
    rq_set_state SL_HTTP_REQUEST_STATE_READING
      (rq_set_head (hd_set_headers storage out (hd_set_path path (hd_set_target target (hd_set_method method (rq_head (request_at h r))))))
        (request_at h r)).
Proof. unfold assigned. cbv zeta. store. by rewrite !decide_True by done. Qed.

Lemma assigned_calm c a r method target path storage out h h1 :
  begun c a r h h1 -> disturbed (assigned c r method target path storage out h1) r = false.
Proof.
  intros [(Ha & Hc & Hr & Hb) Hbk Hst _ (E1 & _ & _ & _ & E5)]. unfold disturbed. rewrite assigned_request. cbn [rq_connection rq_cancellation rq_set_state rq_set_head].
  rewrite E1, E5. unfold assigned. cbv zeta. store. rewrite decide_True by done. cbn [cn_backend cn_set_state]. rewrite Hbk.
  unfold be_is. rewrite Hst. by rewrite andb_false_r.
Qed.

Lemma assigned_limit c a r method target path storage out h h1 :
  begun c a r h h1 ->
  body_limit (cn_backend (connection_at (assigned c r method target path storage out h1) c)) (assigned c r method target path storage out h1) =
    po_max_body_length (sl_http2_effective_parse_options c h).
Proof.
  intros [(Ha & Hc & Hr & Hb) Hbk Hst Ho _]. unfold body_limit, sl_http2_effective_parse_options, assigned. cbv zeta. store.
  rewrite !decide_True by done. cbn [cn_backend cn_set_state]. rewrite Hbk.
  destruct (Z.eqb_spec (cn_backend (connection_at h c)) 0); [done|]. destruct (Z.eqb_spec c 0); [done|]. cbn [negb andb].
  by rewrite Ho.
Qed.

(** The reader may begin on the request as assigned, whatever has been copied. *)
Lemma clear_reader_mem s q n :
  disjoint_ranges q n (bb_small (bs_builder (bd_build s))) SL_BYTE_BUILDER_SMALL_CAPACITY ->
  load_bytes (bs_mem (bd_build (clear_reader s))) q n = load_bytes (bs_mem (bd_build s)) q n.
Proof.
  intros H. unfold clear_reader. cbn [bd_build]. eapply load_bytes_same; [apply fill_same_outside|].
  unfold disjoint_ranges, SL_BYTE_BUILDER_SMALL_CAPACITY in *. lia.
Qed.

Lemma kind_given s ct kind len :
  literals_in (bs_mem (bd_build s)) media_literals ->
  (forall l, l ∈ media_literals -> theirs s (literal l)) -> text_view ct -> theirs s ct ->
  body_kind (str_val (bs_mem (bd_build s)) ct) len = Some kind ->
  forall d h, sl_http_body_reader_classify (bs_mem (bd_build (clear_reader s))) ct len REF d h = (Ok kind, h).
Proof.
  intros Hlit Hl Hv [_ Ht] Hk d h. rewrite classify_spec; [|intros l Hin; destruct (Hlit l Hin) as [H1 H2]; split; [done|]|done].
  - unfold str_val in *. by rewrite clear_reader_mem, Hk.
  - rewrite <- H2. unfold str_val. destruct (Hl l Hin) as [_ H]. by apply clear_reader_mem.
Qed.

(** The type given to the reader. *)
Definition type_view (sc : scan) : SlStr := if sc_has_content_type sc then sc_content_type sc else literal "application/octet-stream".

Lemma type_view_spec c r limits hs fs sc s :
  ready_to_build c r limits hs fs sc s -> literals_in (bs_mem (bd_build s)) media_literals ->
  (forall l, l ∈ media_literals -> theirs s (literal l)) ->
  source (bs_world (bd_build s)) (type_view sc) (body_type fs) /\ theirs s (type_view sc).
Proof.
  intros Hr Hlit Hl. destruct (si_type _ _ _ _ (rb_scan _ _ _ _ _ _ _ Hr)) as (T & E & Eh). destruct (rb_views _ _ _ _ _ _ _ Hr) as (_ & _ & Hv).
  unfold type_view, body_type. rewrite Eh. destruct (bool_decide _); cbn [negb].
  - assert (Hin : "application/octet-stream"%string ∈ media_literals) by listed. destruct (Hlit _ Hin) as [H1 H2]. pose proof (Hl _ Hin) as Ht.
    split; [|done]. split; [|apply Ht|exact H2]. split; [split; [|right]; cbn; [vm_compute; discriminate|lia]|cbn; lia|].
    split; vm_compute; discriminate.
  - split; [|done]. split; [done|apply Hv|done].
Qed.

(** The caller's memory while copies are made. *)
Lemma theirs_kept k w s h q n :
  kept k (bs_world (bd_build s)) w -> caller_chunk s q n ->
  caller_chunk (set_http h (with_world w s)) q n /\ load_bytes (w_mem w) q n = load_bytes (bs_mem (bd_build s)) q n.
Proof. intros [_ _ _ H] [H1 H2]. destruct (H _ _ H1) as [H3 H4]. split; [by split|done]. Qed.

Lemma copied_theirs w s h v l :
  ar_base (w_arena w) = ar_base (w_arena (bs_world (bd_build s))) -> ar_capacity (w_arena w) = ar_capacity (w_arena (bs_world (bd_build s))) ->
  disjoint_ranges (ar_base (w_arena (bs_world (bd_build s)))) (ar_capacity (w_arena (bs_world (bd_build s))))
    (bb_small (bs_builder (bd_build s))) SL_BYTE_BUILDER_SMALL_CAPACITY ->
  copied w v l -> theirs (set_http h (with_world w s)) v.
Proof.
  intros Eb Ec Hd [_ Ho Hp]. split; [exact Ho|]. rewrite Eb, Ec in Hp. cbn. unfold disjoint_ranges in *. lia.
Qed.

Lemma literals_theirs k w s h ls :
  kept k (bs_world (bd_build s)) w -> (forall l, l ∈ ls -> theirs s (literal l)) -> literals_in (bs_mem (bd_build s)) ls ->
  literals_in (w_mem w) ls /\ (forall l, l ∈ ls -> theirs (set_http h (with_world w s)) (literal l)).
Proof.
  intros Hk Ht Hl. split.
  - intros l Hin. destruct (Hl l Hin) as [H1 H2]. split; [done|]. rewrite <- H2. apply (theirs_kept k w s h _ _ Hk), (Ht l Hin).
  - intros l Hin. apply (theirs_kept k w s h _ _ Hk), (Ht l Hin).
Qed.

Lemma headers_val m w fs out :
  Forall2 (header_copied w) fs out ->
  (forall v l, copied w v l -> str_val m v = str_val (w_mem w) v) ->
  map (fun h => (str_val m (hh_name h), str_val m (hh_value h))) out = fs.
Proof.
  intros H E. induction H as [|f h fs out [H1 H2] _ IH]; [done|]. cbn [map]. rewrite IH. f_equal.
  rewrite (E _ _ H1), (E _ _ H2), (cp_val _ _ _ H1), (cp_val _ _ _ H2). by destruct f.
Qed.

Lemma build_ok c a r hs fs sc body method kind d h s :
  begun c a r h (bd_http s) -> http_inv (bd_http s) ->
  let limits := sl_http2_effective_parse_options c h in
  ready_to_build c r limits hs fs sc s ->
  arena_wf (w_arena (bs_world (bd_build s))) -> ar_base (w_arena (bs_world (bd_build s))) <> 0 ->
  disjoint_ranges (ar_base (w_arena (bs_world (bd_build s)))) (ar_capacity (w_arena (bs_world (bd_build s))))
    (bb_small (bs_builder (bd_build s))) SL_BYTE_BUILDER_SMALL_CAPACITY ->
  literals_in (bs_mem (bd_build s)) media_literals ->
  (forall l, l ∈ request_literals ++ media_literals -> theirs s (literal l)) ->
  regular_count fs + 1 <= po_max_headers limits -> bytes_length body <= po_max_body_length limits <= SIZE_MAX ->
  ar_offset (w_arena (bs_world (bd_build s))) + request_room fs (bytes_length body) <= ar_capacity (w_arena (bs_world (bd_build s))) ->
  method_of (pseudo_value PMethod fs) = Some method -> body_kind (body_type fs) (bytes_length body) = Some kind ->
  bytes_valid body -> bytes_wf body -> caller_chunk s (bytes_ptr body) (bytes_length body) ->
  exists s', build_request c r limits hs sc body d s = (Ok tt, s') /\
    built_from c r fs (bytes_val (bs_mem (bd_build s)) body) method s'.
Proof.
  intros Hbg Hi limits Hrb Hwf Hb Hsm Hmed Hth Hcnt Hlim Hroom Hme Hki Hbv Hbw Hbc.
  pose proof (rb_scan _ _ _ _ _ _ _ Hrb) as Hsc. destruct (si_pseudo _ _ _ _ Hsc PMethod) as [Tm Em].
  assert (Hth1 : forall l, l ∈ request_literals -> theirs s (literal l)) by (intros l Hl; apply Hth, elem_of_app; by left).
  assert (Hth2 : forall l, l ∈ media_literals -> theirs s (literal l)) by (intros l Hl; apply Hth, elem_of_app; by right).
  destruct (copies_ok c r limits hs fs sc (bytes_length body) s) as (storage & out & w1 & target & w2 & path & w3 & E1 & E2 & E3 & K & CH & CL & CT & CP);
    try done; [apply Hbv|].
  unfold build_request. unfold mbind, st_bind, gets. cbn [sc_pseudo] in *.
  rewrite (method_spec _ (rb_literals _ _ _ _ _ _ _ Hrb)), Em by done. fold (pseudo_value PMethod fs). rewrite Hme.
  unfold set_head, modify. fold (effective_view sc). erewrite or_fail_ok by exact E1. erewrite or_fail_ok by exact E2.
  erewrite or_fail_ok by exact E3. cbn [fst snd].
  match goal with |- context [on_error _ _ ?x] => change x with (set_http (assigned c r method target path storage out (bd_http s)) (with_world w3 s)) end.
  set (h5 := assigned c r method target path storage out (bd_http s)). set (s5 := set_http h5 (with_world w3 s)).
  pose proof K as [K1 (K2 & K3 & K4) K5 K6]. pose proof (assigned_request c r method target path storage out (bd_http s)) as Er. fold h5 in Er.
  destruct (literals_theirs _ w3 s h5 media_literals K Hth2 Hmed) as [Hmed5 Hth5].
  destruct (type_view_spec _ _ _ _ _ _ _ Hrb Hmed Hth2) as [Tsrc Tth]. apply (source_kept _ _ w3 _ _ K) in Tsrc.
  pose proof Hbg as [(B1 & B2 & B3 & B4) _ _ _ (R1 & R2 & R3 & R4 & R5)].
  assert (Hmb : may_begin r (type_view sc) (bytes_length body) kind s5).
  { pose proof (assigned_limit c a r method target path storage out h (bd_http s) Hbg) as El. fold h5 limits in El.
    assert (Ec : rq_connection (request_at h5 r) = c) by by rewrite Er. assert (Ea : rq_arena (request_at h5 r) = a) by by rewrite Er.
    split; cbn [bd_http bd_build s5 set_http with_world set_build]; rewrite ?Ec, ?Ea.
    - done.
    - apply str_valid_storage, Tsrc.
    - by rewrite Er.
    - by apply assigned_inv.
    - by apply (assigned_calm c a r method target path storage out h).
    - rewrite El. split; [apply Hbv|apply Hlim].
    - apply (kind_given s5); [done|done|apply Tsrc|by apply (theirs_kept _ w3 s h5 _ _ K)|].
      change (bs_mem (bd_build s5)) with (w_mem w3). by rewrite (so_val _ _ _ Tsrc).
    - exact K1.
    - intros _. unfold request_room in *. cbn. rewrite K2, K3. split; [done|]. lia.
    - rewrite El. apply Hlim. }
  destruct (theirs_kept _ w3 s h5 _ _ K Hbc) as [Hbc5 Hbl].
  destruct (read_whole_ok r (type_view sc) kind body d s5 Hmb Hbv Hbw Hbc5) as (s' & Ew & Hi' & V & (b & Eb) & Hm).
  unfold read_whole in Ew. unfold mbind, st_bind in Ew. unfold on_error. fold (type_view sc). rewrite Ew.
  exists s'. split; [done|].
  assert (Hval : forall v l, copied w3 v l -> str_val (bs_mem (bd_build s')) v = str_val (w_mem w3) v).
  { intros v l Hc. apply Hm. by eapply copied_theirs. }
  assert (Eq : request_at (bd_http s') r = rq_set_head (set_body b (rq_head (request_at h5 r))) (request_at h5 r)).
  { rewrite Eb. cbn [bd_http s5 set_http]. unfold put_body, upd_request. by rewrite request_at_put, decide_True by done. }
  split; rewrite ?Eq, ?Er; cbn [rq_state rq_set_state rq_set_head rq_admitted rq_connection rq_head hd_method hd_version_major
    hd_version_minor hd_raw_target hd_path hd_headers set_body hd_set_headers hd_set_path hd_set_target hd_set_method]; try done.
  - by rewrite (Hval _ _ CT), (cp_val _ _ _ CT).
  - by rewrite (Hval _ _ CP), (cp_val _ _ _ CP).
  - by eapply headers_val.
  - rewrite Eq, Er in V. etransitivity; [exact V|]. exact Hbl.
Qed.

Lemma acceptable_host limits scheme len fs : acceptable limits scheme len fs = true -> effective_host fs <> [].
Proof.
  unfold acceptable, effective_host. rewrite !andb_true_iff. intros (((_ & H) & _) & _) E. revert H E.
  destruct (bool_decide_reflect (pseudo_value PAuthority fs = [])) as [E1|E1]; cbn [andb]; [|done].
  intros H E. rewrite bool_decide_eq_true_2 in H by done. done.
Qed.

(** C38: a well-formed HTTP/2 header list whose method and body type are known becomes a
    request whenever the backend admits it and the arena has room.  The request is being
    read, holds its admission slot and carries, copied into its arena, exactly what the
    list says: the method, the target and the path before its query, the host followed by
    the regular fields in their order - the pseudo-headers and [host] itself left out, and
    never more headers than the array has room for - and the body. *)
Theorem http2_request_built arena c r headers body method kind d s h1 :
  request_args arena c r headers body s -> admissible c headers body s -> buildable c r headers body method kind s ->
  sl_http_request_begin c arena r d (bd_http s) = (Ok tt, h1) ->
  exists s', sl_http2_request_from_headers arena c (Some headers) body r d s = (Ok tt, s') /\
    built_from c r (list_bytes headers s) (bytes_val (bs_mem (bd_build s)) body) method s'.
Proof.
  intros Ha Had [[Hi Hfr] [Hwf Hb] Hsm Hfs [Hbw Hbc] Hmed Hth Hme Hki Hcnt Hlim Hroom] Hbegin.
  pose proof (scan_exact arena c r headers body s Ha) as Hs. cbv zeta in Hs.
  destruct (ra_pointers _ _ _ _ _ _ Ha) as (A1 & A2 & A3). destruct (ra_array _ _ _ _ _ _ Ha) as [A4 _].
  unfold sl_http2_request_from_headers. unfold mbind, st_bind, gets, lift.
  destruct (Z.eqb_spec arena 0), (Z.eqb_spec c 0), (Z.eqb_spec r 0); try done. rewrite A4. cbn [is_null].
  replace (sl_http2_mapping_valid_bytes body) with true
    by (destruct (ra_body _ _ _ _ _ _ Ha) as [? ?]; unfold sl_http2_mapping_valid_bytes;
        destruct (Z.eqb_spec (bytes_length body) 0), (Z.eqb_spec (bytes_ptr body) 0); cbn; lia).
  rewrite andb_false_r. cbn [negb orb].
  set (limits := sl_http2_effective_parse_options c (bd_http s)) in *. destruct Had as [D1 D2 D3 D4]. fold limits in D1, D2, D3, D4.
  destruct (Z.ltb_spec (wrap64 (po_max_headers limits + 4)) (hl_count headers)); [lia|].
  destruct (Z.ltb_spec (po_max_body_length limits) (bytes_length body)); [lia|]. cbn [orb].
  destruct (scan_fields _ limits _ _) as [sc|e] eqn:Esc; [|done].
  rewrite (acceptable_spec _ _ (ra_literals _ _ _ _ _ _ Ha) _ _ (list_bytes headers s)) by (done || apply Ha). rewrite D4. cbn [negb].
  unfold in_http, zoom. rewrite Hbegin.
  pose proof (begin_result _ _ _ _ _ _ Hbegin) as Hbg.
  assert (Hi1 : http_inv h1) by (pose proof (begin_inv c arena r d _ Hi Hfr) as Hbi; by rewrite Hbegin in Hbi).
  apply (build_ok c arena r (hl_fields headers) (list_bytes headers s) sc body method kind d (bd_http s) (set_http h1 s)); try done.
  - split; cbn; try done.
    + eapply scan_fields_views; [|split_and!|exact Esc].
      * eapply Forall_impl; [exact Hfs|]. intros hd Hhd. apply Hhd.
      * intros p. destruct p; split; cbn; unfold outside_free, disjoint_ranges; cbn; lia.
      * split; cbn; unfold outside_free, disjoint_ranges; cbn; lia.
      * split; cbn; unfold outside_free, disjoint_ranges; cbn; lia.
    + unfold list_bytes. pose proof (ra_fields _ _ _ _ _ _ Ha) as Hv. clear - Hv Hfs. induction (hl_fields headers) as [|hd hs IH]; [constructor|].
      apply Forall_cons in Hv as [[V1 V2] Hv]. apply Forall_cons in Hfs as [[[T1 _] [T2 _]] Hfs]. constructor; [|by apply IH]. by split; split.
    + by eapply acceptable_host.
    + apply Ha.
  - apply Ha.
Qed.
End Build.

Module Demo.
Import Http2Request.Demo.

(** Ranges apart from the arena and the reader's inline array. *)
Definition elsewhere (v : SlStr) : bool := (str_ptr v + str_length v <=? 12000).

Lemma theirs0 q n : q + n <= 12000 -> caller_chunk state0 q n.
Proof. intros H. split; unfold outside_free, disjoint_ranges; cbn; lia. Qed.

Lemma begins0 : sl_http_request_begin 10 7 100 REF (bd_http state0) = (Ok tt, snd (sl_http_request_begin 10 7 100 REF (bd_http state0))).
Proof. vm_compute. reflexivity. Qed.

Lemma admissible0 : admissible 10 (list0 good) body0 state0.
Proof.
  split.
  - vm_compute. discriminate.
  - vm_compute. discriminate.
  - pose proof (scan_exact 7 10 100 (list0 good) body0 state0 (args0 good ltac:(by left))) as H. cbv zeta in H.
    destruct (scan_fields _ _ _ _) as [sc|e] eqn:E; [apply H|]. exfalso. revert E. vm_compute. discriminate.
  - vm_compute. reflexivity.
Qed.

Lemma buildable0 : buildable 10 100 (list0 good) body0 SL_HTTP_METHOD_GET SL_HTTP_REQUEST_BODY_TEXT state0.
Proof.
  split.
  - split; [apply (reachable_inv HttpAdmission.Demo.parser0), open0_reachable|vm_compute; reflexivity].
  - split; [|done]. unfold arena_wf. cbn. unfold UINTPTR_MAX, UINT32_MAX. lia.
  - unfold disjoint_ranges, SL_BYTE_BUILDER_SMALL_CAPACITY. cbn. lia.
  - assert (H : forallb (fun h => elsewhere (h2_name h) && elsewhere (h2_value h)) good = true) by (vm_compute; reflexivity).
    rewrite forallb_forall in H. apply List.Forall_forall. intros h Hin. specialize (H h Hin). unfold elsewhere in H.
    split; apply theirs0; lia.
  - split; [unfold bytes_wf, UINTPTR_MAX; cbn; lia|apply theirs0; cbn; lia].
  - apply strings0_in. by vm_compute.
  - assert (H : forallb (fun l => elsewhere (literal l)) strings0 = true) by (vm_compute; reflexivity).
    rewrite forallb_forall in H. intros l Hl. apply list_elem_of_In in Hl. specialize (H l Hl). unfold elsewhere in H. apply theirs0. lia.
  - vm_compute. reflexivity.
  - vm_compute. reflexivity.
  - vm_compute. discriminate.
  - vm_compute. discriminate.
  - vm_compute. discriminate.
Qed.

Lemma http2_request_built_witness :
  exists s', sl_http2_request_from_headers 7 10 (Some (list0 good)) body0 100 REF state0 = (Ok tt, s') /\
    map (fun h => (str_val (bs_mem (bd_build s')) (hh_name h), str_val (bs_mem (bd_build s')) (hh_value h)))
      (hd_headers (rq_head (request_at (bd_http s') 100))) =
      map (fun '(n, v) => (string_bytes n, string_bytes v))
        [("host", "localhost"); ("x-id", "7"); ("content-type", "text/plain")]%string /\
    str_val (bs_mem (bd_build s')) (hd_path (rq_head (request_at (bd_http s') 100))) = string_bytes "/a".
Proof.
  destruct (http2_request_built 7 10 100 (list0 good) body0 SL_HTTP_METHOD_GET SL_HTTP_REQUEST_BODY_TEXT REF state0 _
    (args0 good ltac:(by left)) admissible0 buildable0 begins0) as (s' & E & F).
  exists s'. split; [exact E|]. split.
  - rewrite (bf_headers _ _ _ _ _ _ F). vm_compute. reflexivity.
  - rewrite (bf_path _ _ _ _ _ _ F). vm_compute. reflexivity.
Defined.
End Demo.
