(* ===== verification/HttpParse.v ===== *)
(** Parsing of complete HTTP/1 requests (src/core/http.c).

    llhttp, a third-party parser, is a parameter: on an input it makes a sequence of
    callbacks with spans of the input and ends with an error code; a callback that fails
    stops it.  The callbacks, which assemble target, headers and body in builders over the
    request's arena under the caller's limits, and everything around them are modelled.
    The state of a parse is the world and the context, a local variable of the parser
    whose four builders have their inline arrays at the addresses [locals]. *)

From stdpp Require Import strings gmap.
From Stdlib Require Import Strings.Ascii.
From S2P Require Import Prelude Memory Status Arena Str Bytes Simd StrArena Container Sink Builder Diag HttpResponse HttpBackend HttpBody Http2Map.

Open Scope Z_scope.

(** * llhttp *)

Inductive llhttp_errno := HPE_OK | HPE_USER | HPE_PAUSED_UPGRADE | HPE_INVALID.

#[export] Instance llhttp_errno_eq_dec : EqDecision llhttp_errno.
Proof. solve_decision. Defined.

Inductive llhttp_method :=
| HTTP_GET | HTTP_POST | HTTP_PUT | HTTP_DELETE | HTTP_PATCH | HTTP_OPTIONS | HTTP_HEAD | HTTP_OTHER.

(** Callbacks; spans are offsets into the input and lengths. *)
Inductive llhttp_event :=
| OnUrl (at_ length : Z)
| OnHeaderField (at_ length : Z)
| OnHeaderValue (at_ length : Z)
| OnHeadersComplete
| OnBody (at_ length : Z)
| OnMessageComplete.

(** What the parser does on an input, as long as its callbacks succeed. *)
Class Llhttp := {
  llhttp_execute : list Z -> list llhttp_event * llhttp_errno;
  llhttp_finish : list Z -> list llhttp_event * llhttp_errno;
  llhttp_get_method : list Z -> llhttp_method;
  llhttp_get_http_major : list Z -> Z;
  llhttp_get_http_minor : list Z -> Z;
}.

(** * The context *)

Definition SL_DIAG_HTTP_HEADER_LIMIT : Z := 18.
Definition SL_DIAG_HTTP_TARGET_LIMIT : Z := 42.
Definition SL_DIAG_HTTP_HEADER_NAME_LIMIT : Z := 43.
Definition SL_DIAG_HTTP_HEADER_VALUE_LIMIT : Z := 44.
Definition SL_DIAG_HTTP_HEADER_BYTES_LIMIT : Z := 45.
Definition SL_DIAG_HTTP_REQUEST_LINE_LIMIT : Z := 197.

(** The four texts that are put together from spans. *)
Inductive part := PartTarget | PartName | PartValue | PartBody.

#[export] Instance part_eq_dec : EqDecision part.
Proof. solve_decision. Defined.

(** [diag_code], [diag_message] and [diag_hint]. *)
Record parse_diag := { pd_code : Z; pd_message : SlStr; pd_hint : SlStr }.

(** [cx_builder] are the four builders, [cx_view] the views [raw_target],
    [current_header_name], [current_header_value] and [body]. *)
Record SlHttpParseContext := {
  cx_headers_ptr : Z;
  cx_limits : SlHttpParseOptions;
  cx_headers : list SlHttpHeader;
  cx_total_header_bytes : Z;
  cx_builder : part -> SlByteBuilder;
  cx_view : part -> SlBytes;
  cx_saw_header_value : bool;
  cx_headers_complete : bool;
  cx_request_complete : bool;
  cx_callback_status : SlStatusCode;
  cx_diag : parse_diag;
}.

Definition cx_header_count (c : SlHttpParseContext) : Z := Z.of_nat (length (cx_headers c)).
Definition cx_length (p : part) (c : SlHttpParseContext) : Z := bytes_length (cx_view c p).
Definition cx_str (p : part) (c : SlHttpParseContext) : SlStr :=
  sl_str_from_parts (bytes_ptr (cx_view c p)) (bytes_length (cx_view c p)).

Definition set_part {A} (p : part) (a : A) (f : part -> A) : part -> A := fun q => if decide (q = p) then a else f q.

(** Assignments. *)
Definition cx_set_headers_ptr ptr c :=
  {| cx_headers_ptr := ptr; cx_limits := cx_limits c; cx_headers := cx_headers c;
     cx_total_header_bytes := cx_total_header_bytes c; cx_builder := cx_builder c; cx_view := cx_view c;
     cx_saw_header_value := cx_saw_header_value c; cx_headers_complete := cx_headers_complete c;
     cx_request_complete := cx_request_complete c; cx_callback_status := cx_callback_status c;
     cx_diag := cx_diag c |}.
Definition cx_set_builder p b c :=
  {| cx_headers_ptr := cx_headers_ptr c; cx_limits := cx_limits c; cx_headers := cx_headers c;
     cx_total_header_bytes := cx_total_header_bytes c; cx_builder := set_part p b (cx_builder c);
     cx_view := cx_view c; cx_saw_header_value := cx_saw_header_value c;
     cx_headers_complete := cx_headers_complete c; cx_request_complete := cx_request_complete c;
     cx_callback_status := cx_callback_status c; cx_diag := cx_diag c |}.
Definition cx_set_view p v c :=
  {| cx_headers_ptr := cx_headers_ptr c; cx_limits := cx_limits c; cx_headers := cx_headers c;
     cx_total_header_bytes := cx_total_header_bytes c; cx_builder := cx_builder c;
     cx_view := set_part p v (cx_view c); cx_saw_header_value := cx_saw_header_value c;
     cx_headers_complete := cx_headers_complete c; cx_request_complete := cx_request_complete c;
     cx_callback_status := cx_callback_status c; cx_diag := cx_diag c |}.
Definition cx_set_saw b c :=
  {| cx_headers_ptr := cx_headers_ptr c; cx_limits := cx_limits c; cx_headers := cx_headers c;
     cx_total_header_bytes := cx_total_header_bytes c; cx_builder := cx_builder c; cx_view := cx_view c;
     cx_saw_header_value := b; cx_headers_complete := cx_headers_complete c;
     cx_request_complete := cx_request_complete c; cx_callback_status := cx_callback_status c;
     cx_diag := cx_diag c |}.
Definition cx_set_total n c :=
  {| cx_headers_ptr := cx_headers_ptr c; cx_limits := cx_limits c; cx_headers := cx_headers c;
     cx_total_header_bytes := n; cx_builder := cx_builder c; cx_view := cx_view c;
     cx_saw_header_value := cx_saw_header_value c; cx_headers_complete := cx_headers_complete c;
     cx_request_complete := cx_request_complete c; cx_callback_status := cx_callback_status c;
     cx_diag := cx_diag c |}.
Definition cx_set_headers hs c :=
  {| cx_headers_ptr := cx_headers_ptr c; cx_limits := cx_limits c; cx_headers := hs;
     cx_total_header_bytes := cx_total_header_bytes c; cx_builder := cx_builder c; cx_view := cx_view c;
     cx_saw_header_value := cx_saw_header_value c; cx_headers_complete := cx_headers_complete c;
     cx_request_complete := cx_request_complete c; cx_callback_status := cx_callback_status c;
     cx_diag := cx_diag c |}.
Definition cx_set_headers_complete b c :=
  {| cx_headers_ptr := cx_headers_ptr c; cx_limits := cx_limits c; cx_headers := cx_headers c;
     cx_total_header_bytes := cx_total_header_bytes c; cx_builder := cx_builder c; cx_view := cx_view c;
     cx_saw_header_value := cx_saw_header_value c; cx_headers_complete := b;
     cx_request_complete := cx_request_complete c; cx_callback_status := cx_callback_status c;
     cx_diag := cx_diag c |}.
Definition cx_set_request_complete b c :=
  {| cx_headers_ptr := cx_headers_ptr c; cx_limits := cx_limits c; cx_headers := cx_headers c;
     cx_total_header_bytes := cx_total_header_bytes c; cx_builder := cx_builder c; cx_view := cx_view c;
     cx_saw_header_value := cx_saw_header_value c; cx_headers_complete := cx_headers_complete c;
     cx_request_complete := b; cx_callback_status := cx_callback_status c; cx_diag := cx_diag c |}.
Definition cx_set_callback_status s c :=
  {| cx_headers_ptr := cx_headers_ptr c; cx_limits := cx_limits c; cx_headers := cx_headers c;
     cx_total_header_bytes := cx_total_header_bytes c; cx_builder := cx_builder c; cx_view := cx_view c;
     cx_saw_header_value := cx_saw_header_value c; cx_headers_complete := cx_headers_complete c;
     cx_request_complete := cx_request_complete c; cx_callback_status := s; cx_diag := cx_diag c |}.
Definition cx_set_diag d c :=
  {| cx_headers_ptr := cx_headers_ptr c; cx_limits := cx_limits c; cx_headers := cx_headers c;
     cx_total_header_bytes := cx_total_header_bytes c; cx_builder := cx_builder c; cx_view := cx_view c;
     cx_saw_header_value := cx_saw_header_value c; cx_headers_complete := cx_headers_complete c;
     cx_request_complete := cx_request_complete c; cx_callback_status := cx_callback_status c; cx_diag := d |}.

(** The state of a parse. *)
Record ParseSys := { px_world : World; px_ctx : SlHttpParseContext }.

Definition set_px_world (w : World) (s : ParseSys) : ParseSys := {| px_world := w; px_ctx := px_ctx s |}.
Definition upd_ctx (f : SlHttpParseContext -> SlHttpParseContext) (s : ParseSys) : ParseSys :=
  {| px_world := px_world s; px_ctx := f (px_ctx s) |}.

Definition in_px_world {A} (c : ST World A) : ST ParseSys A := zoom px_world set_px_world c.

(** An operation on one of the builders. *)
Definition part_sys (p : part) (s : ParseSys) : BuilderSys := {| bs_world := px_world s; bs_builder := cx_builder (px_ctx s) p |}.
Definition set_part_sys (p : part) (b : BuilderSys) (s : ParseSys) : ParseSys :=
  {| px_world := bs_world b; px_ctx := cx_set_builder p (bs_builder b) (px_ctx s) |}.
Definition in_part {A} (p : part) (c : ST BuilderSys A) : ST ParseSys A := zoom (part_sys p) (set_part_sys p) c.

Section Parse.
Context {BC : BuildConfig} {SC : SimdConfig} {RO : ReadOnlyData} {LL : Llhttp}.

Definition sl_http_status_code_for_diag (code : Z) : SlStatusCode :=
  if (code =? SL_DIAG_HTTP_HEADER_LIMIT) || (code =? SL_DIAG_HTTP_TARGET_LIMIT) || (code =? SL_DIAG_HTTP_HEADER_NAME_LIMIT) ||
     (code =? SL_DIAG_HTTP_HEADER_VALUE_LIMIT) || (code =? SL_DIAG_HTTP_HEADER_BYTES_LIMIT) ||
     (code =? SL_DIAG_HTTP_REQUEST_LINE_LIMIT) || (code =? SL_DIAG_HTTP_BODY_LIMIT)
  then SL_STATUS_CAPACITY_EXCEEDED
  else SL_STATUS_INVALID_ARGUMENT.

Definition sl_http_str_valid (str : SlStr) : bool := (str_length str =? 0) || negb (str_ptr str =? 0).

Definition sl_http_trim_ows (m : mem) (value : SlStr) : SlStr :=
  if (str_ptr value =? 0) && negb (str_length value =? 0) then sl_str_empty else
  let len := Z.to_nat (str_length value) in
  let start := skip_front m (str_ptr value) len in
  let left := skip_back m (str_ptr value + Z.of_nat start) (len - start) in
  sl_str_from_parts (if str_ptr value =? 0 then 0 else str_ptr value + Z.of_nat start) (Z.of_nat left).

Definition sl_http_header_name_equal (m : mem) (name expected : SlStr) : bool := sl_str_equal_ci_ascii m name expected.

(** [return sl_http_set_error(ctx, code, message, hint)]. *)
Definition sl_http_set_error {A} (code : Z) (message hint : string) : ST ParseSys A :=
  modify (upd_ctx (cx_set_diag {| pd_code := code; pd_message := literal message; pd_hint := literal hint |})) ;;
  fail (sl_http_status_code_for_diag code).

Definition sl_http_copy_str_view (arena : nullable) (src : SlStr) (out : nullable) : ST World SlStr :=
  return_if is_null arena || is_null out || negb (sl_http_str_valid src) with SL_STATUS_INVALID_ARGUMENT ;;
  sl_str_copy_view_to_arena arena src out.

Definition sl_http_init_parse_builders : ST ParseSys unit :=
  limits ← gets (fun s => cx_limits (px_ctx s)) ;
  in_part PartTarget (sl_string_builder_init_arena REF REF 0 (po_max_target_length limits)) ;;
  in_part PartName (sl_string_builder_init_arena REF REF 0 (po_max_header_name_length limits)) ;;
  in_part PartValue (sl_string_builder_init_arena REF REF 0 (po_max_header_value_length limits)) ;;
  in_part PartBody (sl_byte_builder_init_arena REF REF 0 (po_max_body_length limits)).

(** * Callbacks *)

Definition view_of (p : part) (s : ParseSys) : SlBytes := sl_byte_builder_view REF (cx_builder (px_ctx s) p).

Definition sl_http_append_body (chunk : SlBytes) : ST ParseSys unit :=
  return_if (bytes_ptr chunk =? 0) && negb (bytes_length chunk =? 0) with SL_STATUS_INVALID_ARGUMENT ;;
  c ← gets px_ctx ;
  next_length ← lift (sl_checked_add_size (cx_length PartBody c) (bytes_length chunk) REF) ;
  if po_max_body_length (cx_limits c) <? next_length
  then sl_http_set_error SL_DIAG_HTTP_BODY_LIMIT "HTTP request body is too large"
         "the dev HTTP runtime rejects bodies above the configured limit" else
  if bytes_length chunk =? 0 then mret tt else
  in_part PartBody (sl_byte_builder_append_bytes REF chunk) ;;
  modify (fun s => upd_ctx (cx_set_view PartBody (view_of PartBody s)) s).

Definition sl_http_count_header_bytes (length : Z) : ST ParseSys unit :=
  c ← gets px_ctx ;
  next_length ← lift (sl_checked_add_size (cx_total_header_bytes c) length REF) ;
  if po_max_total_header_bytes (cx_limits c) <? next_length
  then sl_http_set_error SL_DIAG_HTTP_HEADER_BYTES_LIMIT "HTTP request headers are too large"
         "the HTTP backend bounds total header bytes before dispatch"
  else modify (upd_ctx (cx_set_total next_length)).

Definition sl_http_check_header_name_length (length : Z) : ST ParseSys unit :=
  c ← gets px_ctx ;
  next_length ← lift (sl_checked_add_size (cx_length PartName c) length REF) ;
  if po_max_header_name_length (cx_limits c) <? next_length
  then sl_http_set_error SL_DIAG_HTTP_HEADER_NAME_LIMIT "HTTP header name is too long"
         "the HTTP backend bounds header names before dispatch"
  else mret tt.

Definition sl_http_check_header_value_length (length : Z) : ST ParseSys unit :=
  c ← gets px_ctx ;
  next_length ← lift (sl_checked_add_size (cx_length PartValue c) length REF) ;
  if po_max_header_value_length (cx_limits c) <? next_length
  then sl_http_set_error SL_DIAG_HTTP_HEADER_VALUE_LIMIT "HTTP header value is too long"
         "the HTTP backend bounds header values before dispatch"
  else mret tt.

Definition sl_http_finish_current_header : ST ParseSys unit :=
  c ← gets px_ctx ;
  if (cx_length PartName c =? 0) && (cx_length PartValue c =? 0) then mret tt else
  if (cx_length PartName c =? 0) || negb (cx_saw_header_value c)
  then sl_http_set_error SL_DIAG_INVALID_HTTP_REQUEST "malformed HTTP header"
         "headers must have a field name and value separated by colon" else
  if po_max_headers (cx_limits c) <=? cx_header_count c
  then sl_http_set_error SL_DIAG_HTTP_HEADER_LIMIT "HTTP request has too many headers"
         "increase max_headers only when the caller can bound memory use" else
  name ← in_px_world (sl_http_copy_str_view REF (cx_str PartName c) REF) ;
  value ← in_px_world (sl_http_copy_str_view REF (cx_str PartValue c) REF) ;
  modify (upd_ctx (cx_set_headers (cx_headers c ++ [{| hh_name := name; hh_value := value |}]))) ;;
  modify (upd_ctx (cx_set_view PartName sl_bytes_empty)) ;;
  modify (upd_ctx (cx_set_view PartValue sl_bytes_empty)) ;;
  in_part PartName (sl_string_builder_reset REF) ;;
  in_part PartValue (sl_string_builder_reset REF) ;;
  modify (upd_ctx (cx_set_saw false)).

Definition sl_http_record_callback_status (status : SlStatusCode) (c : SlHttpParseContext) : SlHttpParseContext :=
  if sl_status_is_ok (cx_callback_status c) then cx_set_callback_status status c else c.

(** A callback that fails has its status recorded and stops the parser with [HPE_USER]. *)
Definition callback (c : ST ParseSys unit) : ST ParseSys unit :=
  on_error c (fun status => modify (upd_ctx (sl_http_record_callback_status status)) ;; fail status).

(** [append; view = builder_view]. *)
Definition append_span (p : part) (at_ length : Z) : ST ParseSys unit :=
  in_part p (sl_string_builder_append_str REF (sl_str_from_parts at_ length)) ;;
  modify (fun s => upd_ctx (cx_set_view p (view_of p s)) s).

Definition sl_http_on_url (at_ length : Z) : ST ParseSys unit :=
  c ← gets px_ctx ;
  callback (
    next_length ← lift (sl_checked_add_size (cx_length PartTarget c) length REF) ;
    if po_max_target_length (cx_limits c) <? next_length
    then sl_http_set_error SL_DIAG_HTTP_TARGET_LIMIT "HTTP request target is too long"
           "the HTTP backend bounds request targets before dispatch"
    else append_span PartTarget at_ length).

Definition sl_http_on_header_field (at_ length : Z) : ST ParseSys unit :=
  c ← gets px_ctx ;
  (if cx_saw_header_value c then callback sl_http_finish_current_header else mret tt) ;;
  callback (
    sl_http_count_header_bytes length ;;
    sl_http_check_header_name_length length ;;
    append_span PartName at_ length).

Definition sl_http_on_header_value (at_ length : Z) : ST ParseSys unit :=
  modify (upd_ctx (cx_set_saw true)) ;;
  callback (
    sl_http_count_header_bytes length ;;
    sl_http_check_header_value_length length ;;
    append_span PartValue at_ length).

Definition sl_http_on_headers_complete : ST ParseSys unit :=
  callback sl_http_finish_current_header ;;
  modify (upd_ctx (cx_set_headers_complete true)).

Definition sl_http_on_body (at_ length : Z) : ST ParseSys unit :=
  callback (sl_http_append_body (sl_bytes_from_parts at_ length)).

Definition sl_http_on_message_complete : ST ParseSys unit :=
  modify (upd_ctx (cx_set_request_complete true)).

(** The settings: which callback is which event's; [base] is the address of the input. *)
Definition sl_http_settings_prepare (base : Z) (e : llhttp_event) : ST ParseSys unit :=
  match e with
  | OnUrl at_ length => sl_http_on_url (base + at_) length
  | OnHeaderField at_ length => sl_http_on_header_field (base + at_) length
  | OnHeaderValue at_ length => sl_http_on_header_value (base + at_) length
  | OnHeadersComplete => sl_http_on_headers_complete
  | OnBody at_ length => sl_http_on_body (base + at_) length
  | OnMessageComplete => sl_http_on_message_complete
  end.

(** llhttp makes its callbacks in order and stops at one that fails. *)
Fixpoint run_events (base : Z) (events : list llhttp_event) : ST ParseSys unit :=
  match events with
  | [] => mret tt
  | e :: events => sl_http_settings_prepare base e ;; run_events base events
  end.

(** [llhttp_execute] and [llhttp_finish]: the error code, [HPE_USER] after a callback
    that failed. *)
Definition run_llhttp (run : list Z -> list llhttp_event * llhttp_errno) (bytes : SlBytes) : ST ParseSys llhttp_errno := fun s =>
  let '(events, errno) := run (bytes_val (w_mem (px_world s)) bytes) in
  match run_events (bytes_ptr bytes) events s with
  | (Ok _, s') => (Ok errno, s')
  | (Err _, s') => (Ok HPE_USER, s')
  end.

(** * Around the parser *)

Definition sl_http_method_from_llhttp (method : llhttp_method) : SlHttpMethod :=
  match method with
  | HTTP_GET => SL_HTTP_METHOD_GET
  | HTTP_POST => SL_HTTP_METHOD_POST
  | HTTP_PUT => SL_HTTP_METHOD_PUT
  | HTTP_DELETE => SL_HTTP_METHOD_DELETE
  | HTTP_PATCH => SL_HTTP_METHOD_PATCH
  | HTTP_OPTIONS => SL_HTTP_METHOD_OPTIONS
  | HTTP_HEAD => SL_HTTP_METHOD_HEAD
  | HTTP_OTHER => SL_HTTP_METHOD_UNKNOWN
  end.

Definition sl_http_extract_path (m : mem) (raw_target : SlStr) : SlStr :=
  let n := Z.to_nat (str_length raw_target) in
  let index := until_query m (str_ptr raw_target) n in
  if (index <? n)%nat then sl_str_from_parts (str_ptr raw_target) (Z.of_nat index) else raw_target.

Definition sl_http_build_diag (arena : nullable) (d : parse_diag) (out_diag : nullable) : ST World (option SlDiag) :=
  if is_null out_diag || (pd_code d =? SL_DIAG_NONE) then mret None else
  builder ← sl_diag_builder_init arena SL_DIAG_SEVERITY_ERROR (pd_code d) (pd_message d) ;
  builder ← (if negb (sl_str_is_empty (pd_hint d)) then sl_diag_builder_add_hint arena builder (pd_hint d) else mret builder) ;
  diag ← lift (sl_diag_builder_finish arena out_diag builder) ;
  mret (Some diag).

Definition sl_http_prepare_headers (arena : nullable) (max_headers : Z) (out_headers : nullable) : ST World Z :=
  return_if is_null arena || is_null out_headers with SL_STATUS_INVALID_ARGUMENT ;;
  if max_headers =? 0 then mret 0 else
  header_slice ← sl_arena_array_alloc arena max_headers SL_HTTP_HEADER_SIZE SL_HTTP_HEADER_ALIGNMENT REF ;
  mret (slice_ptr header_slice).

(** The length of the first line: the bytes before the first CR LF. *)
Fixpoint line_length (m : mem) (ptr : Z) (n : nat) : nat :=
  match n with
  | O => O
  | S n => if (ld8 m ptr =? 13) && (1 <=? Z.of_nat n) && (ld8 m (ptr + 1) =? 10) then O else S (line_length m (ptr + 1) n)
  end.

Definition sl_http_check_request_line_length (bytes : SlBytes) : ST ParseSys unit :=
  return_if (bytes_ptr bytes =? 0) && negb (bytes_length bytes =? 0) with SL_STATUS_INVALID_ARGUMENT ;;
  s ← gets (fun s => s) ;
  if po_max_request_line_length (cx_limits (px_ctx s)) <?
     Z.of_nat (line_length (w_mem (px_world s)) (bytes_ptr bytes) (Z.to_nat (bytes_length bytes)))
  then sl_http_set_error SL_DIAG_HTTP_REQUEST_LINE_LIMIT "HTTP request line is too long"
         "the HTTP backend bounds method, target, and version line bytes"
  else mret tt.

(** The offset behind the first CR LF CR LF, from [index] on; 0 when there is none. *)
Fixpoint header_end_loop (m : mem) (ptr index : Z) (n : nat) : Z :=
  match n with
  | O => 0
  | S n =>
      if (3 <=? Z.of_nat n) && (ld8 m ptr =? 13) && (ld8 m (ptr + 1) =? 10) && (ld8 m (ptr + 2) =? 13) && (ld8 m (ptr + 3) =? 10)
      then index + 4
      else header_end_loop m (ptr + 1) (index + 1) n
  end.

Definition sl_http_find_header_end (m : mem) (bytes : SlBytes) : Z :=
  if bytes_ptr bytes =? 0 then 0 else header_end_loop m (bytes_ptr bytes) 0 (Z.to_nat (bytes_length bytes)).

(** A zeroed context with the limits of the options. *)
Definition sl_http_parse_context_init (locals : part -> Z) (options : option SlHttpParseOptions) : SlHttpParseContext :=
  {| cx_headers_ptr := 0;
     cx_limits := match options with Some o => effective_parse o | None => default_parse end;
     cx_headers := []; cx_total_header_bytes := 0; cx_builder := fun p => local_builder (locals p);
     cx_view := fun _ => sl_bytes_empty; cx_saw_header_value := false; cx_headers_complete := false;
     cx_request_complete := false; cx_callback_status := SL_STATUS_OK;
     cx_diag := {| pd_code := SL_DIAG_NONE; pd_message := sl_str_empty; pd_hint := sl_str_empty |} |}.

Definition sl_http_parse_with_llhttp (bytes : SlBytes) : ST ParseSys unit :=
  sl_http_check_request_line_length bytes ;;
  parse_error ← run_llhttp llhttp_execute bytes ;
  s ← gets (fun s => s) ;
  let c := px_ctx s in
  if bool_decide (parse_error = HPE_PAUSED_UPGRADE) && cx_headers_complete c &&
     (sl_http_find_header_end (w_mem (px_world s)) bytes =? bytes_length bytes)
  then modify (upd_ctx (cx_set_request_complete true)) else
  if negb (bool_decide (parse_error = HPE_OK)) then
    if negb (pd_code (cx_diag c) =? SL_DIAG_NONE) then fail (sl_http_status_code_for_diag (pd_code (cx_diag c))) else
    if negb (sl_status_is_ok (cx_callback_status c)) then fail (cx_callback_status c) else
    sl_http_set_error SL_DIAG_INVALID_HTTP_REQUEST "malformed HTTP request"
      "provide a complete HTTP/1 request head ending with CRLF CRLF"
  else
  parse_error ← run_llhttp llhttp_finish bytes ;
  c ← gets px_ctx ;
  if negb (bool_decide (parse_error = HPE_OK)) || negb (cx_headers_complete c) || negb (cx_request_complete c)
  then sl_http_set_error SL_DIAG_INVALID_HTTP_REQUEST "incomplete HTTP request"
         "the request head must be complete before parsing"
  else mret tt.

(** * Validation *)

(** The counters of the loop over the headers. *)
Record framing := { fr_host_count : Z; fr_host_value : SlStr; fr_length_count : Z; fr_encoding_count : Z }.

Definition no_framing : framing := {| fr_host_count := 0; fr_host_value := sl_str_empty; fr_length_count := 0; fr_encoding_count := 0 |}.

Definition count_framing (m : mem) (header : SlHttpHeader) (f : framing) : framing :=
  if sl_http_header_name_equal m (hh_name header) (literal "Host") then
    {| fr_host_count := wrap64 (fr_host_count f + 1); fr_host_value := hh_value header;
       fr_length_count := fr_length_count f; fr_encoding_count := fr_encoding_count f |}
  else if sl_http_header_name_equal m (hh_name header) (literal "Content-Length") then
    {| fr_host_count := fr_host_count f; fr_host_value := fr_host_value f;
       fr_length_count := wrap64 (fr_length_count f + 1); fr_encoding_count := fr_encoding_count f |}
  else if sl_http_header_name_equal m (hh_name header) (literal "Transfer-Encoding") then
    {| fr_host_count := fr_host_count f; fr_host_value := fr_host_value f;
       fr_length_count := fr_length_count f; fr_encoding_count := wrap64 (fr_encoding_count f + 1) |}
  else f.

Definition sl_http_validate_singleton_headers (http_major http_minor : Z) : ST ParseSys unit :=
  s ← gets (fun s => s) ;
  let c := px_ctx s in
  let m := w_mem (px_world s) in
  return_if negb (cx_header_count c =? 0) && (cx_headers_ptr c =? 0) with SL_STATUS_INVALID_ARGUMENT ;;
  let f := fold_left (fun f header => count_framing m header f) (cx_headers c) no_framing in
  let no_host := sl_str_is_empty (sl_http_trim_ows m (fr_host_value f)) in
  if (http_major =? 1) && (http_minor =? 1) && (negb (fr_host_count f =? 1) || no_host)
  then sl_http_set_error SL_DIAG_INVALID_HTTP_REQUEST "HTTP/1.1 request Host header is invalid"
         "HTTP/1.1 requests must include exactly one non-empty Host header" else
  if negb ((http_major =? 1) && (http_minor =? 1)) && ((1 <? fr_host_count f) || (fr_host_count f =? 1) && no_host)
  then sl_http_set_error SL_DIAG_INVALID_HTTP_REQUEST "HTTP Host header is invalid"
         "requests may include at most one non-empty Host header" else
  if 1 <? fr_length_count f
  then sl_http_set_error SL_DIAG_INVALID_HTTP_REQUEST "HTTP Content-Length header is duplicated"
         "Content-Length is a singleton framing header" else
  if 1 <? fr_encoding_count f
  then sl_http_set_error SL_DIAG_INVALID_HTTP_REQUEST "HTTP Transfer-Encoding header is duplicated"
         "Transfer-Encoding is a singleton framing header in Sloppy's HTTP/1.1 alpha" else
  if negb (fr_length_count f =? 0) && negb (fr_encoding_count f =? 0)
  then sl_http_set_error SL_DIAG_INVALID_HTTP_REQUEST "HTTP Content-Length conflicts with Transfer-Encoding"
         "send either Content-Length or Transfer-Encoding: chunked, not both"
  else mret tt.

Definition sl_http_validate_parsed_request (method : llhttp_method) (http_major http_minor : Z) : ST ParseSys SlHttpMethod :=
  s ← gets (fun s => s) ;
  let c := px_ctx s in
  if negb (http_major =? 1) || (1 <? http_minor)
  then sl_http_set_error SL_DIAG_INVALID_HTTP_REQUEST "unsupported or missing HTTP version"
         "request heads must use HTTP/1.0 or HTTP/1.1" else
  if cx_length PartTarget c =? 0
  then sl_http_set_error SL_DIAG_INVALID_HTTP_REQUEST "HTTP request target must not be empty"
         "request targets must be absolute paths such as / or /users" else
  if negb (ld8 (w_mem (px_world s)) (bytes_ptr (cx_view c PartTarget)) =? 47)
  then sl_http_set_error SL_DIAG_INVALID_HTTP_REQUEST "HTTP request target must be an absolute path"
         "origin-form request targets must start with /" else
  sl_http_validate_singleton_headers http_major http_minor ;;
  let method := sl_http_method_from_llhttp method in
  if bool_decide (method = SL_HTTP_METHOD_UNKNOWN)
  then sl_http_set_error SL_DIAG_INVALID_HTTP_REQUEST "unsupported HTTP method"
         "supported HTTP methods are GET, POST, PUT, DELETE, PATCH, OPTIONS, and HEAD"
  else mret method.

(** * The entry point *)

(** The world, and the caller's request head and diagnostic. *)
Record HeadSys := { hx_world : World; hx_head : SlHttpRequestHead; hx_diag : SlDiag }.

(** The steps that may fail, up to the head they end with. *)
Definition parse_steps (bytes : SlBytes) : ST ParseSys SlHttpRequestHead :=
  limits ← gets (fun s => cx_limits (px_ctx s)) ;
  headers ← in_px_world (sl_http_prepare_headers REF (po_max_headers limits) REF) ;
  modify (upd_ctx (cx_set_headers_ptr headers)) ;;
  sl_http_init_parse_builders ;;
  sl_http_parse_with_llhttp bytes ;;
  input ← gets (fun s => bytes_val (w_mem (px_world s)) bytes) ;
  method ← sl_http_validate_parsed_request (llhttp_get_method input) (llhttp_get_http_major input) (llhttp_get_http_minor input) ;
  s ← gets (fun s => s) ;
  let c := px_ctx s in
  mret {| hd_method := method; hd_version_major := llhttp_get_http_major input; hd_version_minor := llhttp_get_http_minor input;
          hd_path := sl_http_extract_path (w_mem (px_world s)) (cx_str PartTarget c); hd_raw_target := cx_str PartTarget c;
          hd_headers_ptr := cx_headers_ptr c; hd_headers := cx_headers c; hd_body := cx_view c PartBody |}.

(** [failure:] - back to the mark, then the diagnostic. *)
Definition parse_failure (mark : SlArenaMark) (c : SlHttpParseContext) (status : SlStatusCode) (out_diag : nullable)
    (diag : SlDiag) (w : World) : result unit * HeadSys :=
  match sl_arena_reset_to REF mark w with
  | (Err e, w) => (Err e, {| hx_world := w; hx_head := zero_head; hx_diag := diag |})
  | (Ok _, w) =>
      if pd_code (cx_diag c) =? SL_DIAG_NONE then (Err status, {| hx_world := w; hx_head := zero_head; hx_diag := diag |}) else
      match sl_http_build_diag REF (cx_diag c) out_diag w with
      | (Err e, w) => (Err e, {| hx_world := w; hx_head := zero_head; hx_diag := if is_null out_diag then diag else zero_diag |})
      | (Ok d, w) => (Err status, {| hx_world := w; hx_head := zero_head; hx_diag := default diag d |})
      end
  end.

Definition sl_http_parse_request_head (locals : part -> Z) (arena : nullable) (bytes : SlBytes) (options : option SlHttpParseOptions)
    (out_request out_diag : nullable) : ST HeadSys unit := fun s =>
  let diag := if is_null out_diag then hx_diag s else zero_diag in
  if is_null out_request then (Err SL_STATUS_INVALID_ARGUMENT, {| hx_world := hx_world s; hx_head := hx_head s; hx_diag := diag |}) else
  if is_null arena || (bytes_ptr bytes =? 0) && negb (bytes_length bytes =? 0)
  then (Err SL_STATUS_INVALID_ARGUMENT, {| hx_world := hx_world s; hx_head := zero_head; hx_diag := diag |}) else
  let w := hx_world s in
  let mark := sl_arena_mark arena w in
  match parse_steps bytes {| px_world := w; px_ctx := sl_http_parse_context_init locals options |} with
  | (Ok head, s') => (Ok tt, {| hx_world := px_world s'; hx_head := head; hx_diag := diag |})
  | (Err status, s') => parse_failure mark (px_ctx s') status out_diag diag (px_world s')
  end.
End Parse.
