(* ===== verification/HttpAssemble.v ===== *)
(** The parser's callbacks assemble the texts of a request (src/core/http.c).

    A reference over lists says what target, headers and body a sequence of llhttp
    callbacks stands for under the caller's limits; the callbacks, with their builders in a
    shared arena, are shown to compute it. *)

From stdpp Require Import strings gmap.
From Stdlib Require Import Strings.Ascii.
From S2P Require Import Prelude Memory Status Arena Str Bytes Simd StrArena Container Sink Builder Diag HttpResponse HttpBackend HttpBody HttpMedia Http2Map HttpParse.

Open Scope Z_scope.

(** * Reference *)

Record assembled := {
  as_text : part -> list Z;
  as_headers : list (list Z * list Z);
  as_total : Z;
  as_saw : bool;
  as_headers_complete : bool;
  as_complete : bool;
}.

Definition nothing_yet : assembled :=
  {| as_text := fun _ => []; as_headers := []; as_total := 0; as_saw := false; as_headers_complete := false; as_complete := false |}.

(** The bytes of a span. *)
Definition span (input : list Z) (at_ len : Z) : list Z := take (Z.to_nat len) (drop (Z.to_nat at_) input).

(** The limit on each text. *)
Definition part_limit (limits : SlHttpParseOptions) (p : part) : Z :=
  match p with
  | PartTarget => po_max_target_length limits
  | PartName => po_max_header_name_length limits
  | PartValue => po_max_header_value_length limits
  | PartBody => po_max_body_length limits
  end.

Definition text_length (p : part) (a : assembled) : Z := Z.of_nat (length (as_text a p)).

Definition grow_text (limits : SlHttpParseOptions) (p : part) (bytes : list Z) (a : assembled) : option assembled :=
  if part_limit limits p <? text_length p a + Z.of_nat (length bytes) then None else
  Some {| as_text := set_part p (as_text a p ++ bytes) (as_text a); as_headers := as_headers a; as_total := as_total a;
          as_saw := as_saw a; as_headers_complete := as_headers_complete a; as_complete := as_complete a |}.

Definition count_bytes (limits : SlHttpParseOptions) (len : Z) (a : assembled) : option assembled :=
  if po_max_total_header_bytes limits <? as_total a + len then None else
  Some {| as_text := as_text a; as_headers := as_headers a; as_total := as_total a + len; as_saw := as_saw a;
          as_headers_complete := as_headers_complete a; as_complete := as_complete a |}.

Definition as_set_saw (b : bool) (a : assembled) : assembled :=
  {| as_text := as_text a; as_headers := as_headers a; as_total := as_total a; as_saw := b;
     as_headers_complete := as_headers_complete a; as_complete := as_complete a |}.

(** A header ends: it must have a name and must have had a value, if only an empty one. *)
Definition finish_header (limits : SlHttpParseOptions) (a : assembled) : option assembled :=
  if (text_length PartName a =? 0) && (text_length PartValue a =? 0) then Some a else
  if (text_length PartName a =? 0) || negb (as_saw a) then None else
  if po_max_headers limits <=? Z.of_nat (length (as_headers a)) then None else
  Some {| as_text := set_part PartValue [] (set_part PartName [] (as_text a));
          as_headers := as_headers a ++ [(as_text a PartName, as_text a PartValue)]; as_total := as_total a; as_saw := false;
          as_headers_complete := as_headers_complete a; as_complete := as_complete a |}.

Definition as_set_headers_complete (a : assembled) : assembled :=
  {| as_text := as_text a; as_headers := as_headers a; as_total := as_total a; as_saw := as_saw a;
     as_headers_complete := true; as_complete := as_complete a |}.
Definition as_set_complete (a : assembled) : assembled :=
  {| as_text := as_text a; as_headers := as_headers a; as_total := as_total a; as_saw := as_saw a;
     as_headers_complete := as_headers_complete a; as_complete := true |}.

Definition assemble_event (limits : SlHttpParseOptions) (input : list Z) (e : llhttp_event) (a : assembled) : option assembled :=
  match e with
  | OnUrl at_ len => grow_text limits PartTarget (span input at_ len) a
  | OnHeaderField at_ len =>
      a ← (if as_saw a then finish_header limits a else Some a) ;
      a ← count_bytes limits len a ;
      grow_text limits PartName (span input at_ len) a
  | OnHeaderValue at_ len =>
      a ← count_bytes limits len (as_set_saw true a) ;
      grow_text limits PartValue (span input at_ len) a
  | OnHeadersComplete => as_set_headers_complete <$> finish_header limits a
  | OnBody at_ len => grow_text limits PartBody (span input at_ len) a
  | OnMessageComplete => Some (as_set_complete a)
  end.

Fixpoint assemble (limits : SlHttpParseOptions) (input : list Z) (events : list llhttp_event) (a : assembled) : option assembled :=
  match events with
  | [] => Some a
  | e :: events => a ← assemble_event limits input e a ; assemble limits input events a
  end.

(** Spans lie inside the input. *)
Definition span_in (input : list Z) (e : llhttp_event) : Prop :=
  match e with
  | OnUrl at_ len | OnHeaderField at_ len | OnHeaderValue at_ len | OnBody at_ len =>
      0 <= at_ /\ 0 <= len /\ at_ + len <= Z.of_nat (length input)
  | _ => True
  end.

(** * An arena without room *)

(** The arena has only been allocated from. *)
Record forward (w w' : World) : Prop := {
  fw_wf : arena_wf (w_arena w');
  fw_same : ar_base (w_arena w') = ar_base (w_arena w) /\ ar_capacity (w_arena w') = ar_capacity (w_arena w) /\
            ar_generation (w_arena w') = ar_generation (w_arena w);
  fw_offset : ar_offset (w_arena w) <= ar_offset (w_arena w');
}.

Lemma forward_refl w : arena_wf (w_arena w) -> forward w w.
Proof. intros H. by split. Qed.

Lemma forward_trans w1 w2 w3 : forward w1 w2 -> forward w2 w3 -> forward w1 w3.
Proof. intros [A1 (B1 & B2 & B3) C1] [A2 (D1 & D2 & D3) C2]. split; [done|split_and!; congruence|lia]. Qed.

Lemma forward_mem w w' m : forward w w' -> forward w (set_mem m w').
Proof. intros [A B C]. by split. Qed.

Section Starved.
Context {BC : BuildConfig}.

Lemma alloc_outcome size al w :
  arena_wf (w_arena w) -> is_size size -> is_size al -> size <> 0 -> sl_arena_is_power_of_two al = true ->
  match sl_arena_alloc REF size al REF w with
  | (Ok p, w') => forward w w'
  | (Err c, w') => w' = w /\ starved c
  end.
Proof.
  intros Hwf Hsz Hal Hnz Hp. pose proof (sl_arena_alloc_cases size al w Hwf Hsz Hal) as Hc.
  destruct (sl_arena_alloc REF size al REF w) as [[p|c] w'] eqn:E.
  - destruct Hc as (_ & _ & Hpost). assert (0 <= size) by size_lia.
    pose proof (alloc_post_wf size al p w w' Hwf ltac:(lia) Hp Hal Hpost) as Hwf'. destruct Hpost as [? Hf ? He Ha ? ?].
    apply is_power_of_two_inv in Hp as (k & ? & ->); [|done].
    pose proof (arena_padding_bound (w_arena w) (2 ^ k) ltac:(apply Z.pow_pos_nonneg; lia)).
    split; [done|by rewrite Ha|lia].
  - by apply sl_arena_alloc_starved in E as (-> & ? & _).
Qed.

(** Growing within the maximum fails only for lack of arena. *)
Lemma append_outcome bytes s :
  builder_wf s -> bb_storage (bs_builder s) = SL_BUILDER_STORAGE_ARENA -> bytes_valid bytes -> bytes_wf bytes ->
  settled s (bytes_ptr bytes) (bytes_length bytes) ->
  bb_length (bs_builder s) + bytes_length bytes <= bb_max_capacity (bs_builder s) ->
  match sl_byte_builder_append_bytes REF bytes s with
  | (Ok _, s') => appended (bytes_val (bs_mem s) bytes) s s' /\ forward (bs_world s) (bs_world s')
  | (Err c, s') => bs_world s' = bs_world s /\ starved c
  end.
Proof.
  intros Hwf Hst Hv Hbw Hset Hmax. pose proof (append_bytes_spec bytes s Hwf Hv Hbw Hset) as Ha. revert Ha.
  destruct (bw_arena _ Hwf Hst) as [Har Haw]. pose proof (bw_bounds _ Hwf) as Hb. destruct Hbw as (Hl & _). destruct Hv as [_ Hv].
  unfold sl_byte_builder_append_bytes, sl_byte_builder_validate_span. unfold_st. rewrite initialized by done. cbn [negb].
  destruct (Z.eqb_spec (bytes_length bytes) 0) as [E0|E0]; cbn [negb andb].
  { intros Ha. split; [done|by apply forward_refl]. }
  destruct (Z.eqb_spec (bytes_ptr bytes) 0); [lia|]. cbn [andb].
  assert (Hr : match sl_byte_builder_reserve REF (bytes_length bytes) s with
               | (Ok _, s') => forward (bs_world s) (bs_world s')
               | (Err c, s') => bs_world s' = bs_world s /\ starved c
               end).
  { unfold sl_byte_builder_reserve. unfold_st. rewrite initialized by done. cbn [negb].
    rewrite checked_add_spec by size_lia. unfold checked.
    destruct (Z.leb_spec (bb_length (bs_builder s) + bytes_length bytes) SIZE_MAX); [|lia].
    destruct (Z.leb_spec (bb_length (bs_builder s) + bytes_length bytes) (bb_capacity (bs_builder s))); [by apply forward_refl|].
    unfold sl_byte_builder_grow, in_arena, zoom. unfold_st. rewrite Hst, Har, !bool_decide_eq_false_2 by done. cbn [orb].
    pose proof (sl_byte_builder_next_capacity_spec (bs_builder s) (bb_length (bs_builder s) + bytes_length bytes) ltac:(lia) ltac:(lia)) as Hn.
    destruct (Z.ltb_spec (bb_max_capacity (bs_builder s)) (bb_length (bs_builder s) + bytes_length bytes)); [lia|].
    destruct Hn as (n' & -> & Hn').
    pose proof (alloc_outcome n' 1 (bs_world s) Haw ltac:(size_lia) ltac:(size_lia) ltac:(lia) eq_refl) as Hal.
    destruct (sl_arena_alloc REF n' 1 REF (bs_world s)) as [[p|c] w1].
    - destruct (bb_length (bs_builder s) =? 0); cbn; [exact Hal|apply forward_mem; exact Hal].
    - destruct Hal as [-> Hal]. cbn. done. }
  destruct (sl_byte_builder_reserve REF (bytes_length bytes) s) as [[[]|c] s1].
  - intros Ha. split; [done|]. cbn. by apply forward_mem.
  - done.
Qed.

(** A copy lies in what was free. *)
Record fresh_copy (v out : SlStr) (w w' : World) : Prop := {
  fc_forward : forward w w';
  fc_others : forall q n, outside_free (w_arena w) q n ->
    outside_free (w_arena w') q n /\ load_bytes (w_mem w') q n = load_bytes (w_mem w) q n /\
    disjoint_ranges (str_ptr out) (str_length out) q n;
  fc_outside : outside_free (w_arena w') (str_ptr out) (str_length out);
  fc_val : str_val (w_mem w') out = str_val (w_mem w) v;
  fc_view : text_view out;
}.

Lemma copy_view_outcome v w :
  arena_wf (w_arena w) -> text_view v -> outside_free (w_arena w) (str_ptr v) (str_length v) ->
  match sl_str_copy_view_to_arena REF v REF w with
  | (Ok out, w') => fresh_copy v out w w'
  | (Err c, w') => w' = w /\ starved c
  end.
Proof.
  intros Hwf [[Hl Hv] Hp Hs] Ho. unfold sl_str_copy_view_to_arena, copy_in_world. unfold_st. rewrite str_valid_storage by done. cbn [is_null orb negb].
  destruct (Z.eqb_spec (str_length v) 0) as [E0|E0].
  { split; [by apply forward_refl| | | |].
    - intros q n Hq. split; [done|]. split; [done|]. unfold disjoint_ranges. cbn. lia.
    - unfold outside_free, disjoint_ranges. cbn. lia.
    - unfold str_val. by rewrite E0.
    - split; [split; cbn; lia|cbn; lia|split; vm_compute; discriminate]. }
  unfold simd_length in Hs. assert (Hz : is_size (str_length v)) by size_lia.
  pose proof (alloc_outcome (str_length v) 8 w Hwf Hz ltac:(size_lia) E0 eq_refl) as Hal. change SL_STR_WORD_ALIGNMENT with 8.
  destruct (sl_arena_alloc REF (str_length v) 8 REF w) as [[p|c] w1] eqn:E; [|exact Hal].
  pose proof E as E'. apply sl_arena_alloc_ok in E' as (_ & _ & Hpost); [|done|done|size_lia].
  apply sl_arena_alloc_fresh in E as [_ [F1 F2 F3 F4 F5 F6]]; [|done|done|size_lia].
  destruct (alloc_copy (str_length v) (str_ptr v) p w w1 Hwf ltac:(lia) Hpost Ho) as [H1 H2].
  split; cbn.
  - by apply forward_mem.
  - intros q n Hq. destruct (F6 q n Hq) as (Hd & Hld & Hoo). split; [done|]. split; [|done].
    eapply load_bytes_same; [exact H2|]. unfold disjoint_ranges in *. lia.
  - done.
  - exact H1.
  - split; [split; cbn; lia|cbn; lia|unfold simd_length; cbn; lia].
Qed.
End Starved.

(** * The texts under construction *)

Definition data_of (p : part) (s : ParseSys) : Z := sl_byte_builder_data (cx_builder (px_ctx s) p).
Definition capacity_of (p : part) (s : ParseSys) : Z := bb_capacity (cx_builder (px_ctx s) p).

(** Memory that no builder uses or will use. *)
Definition safe (s : ParseSys) (q n : Z) : Prop := forall p, foreign (part_sys p s) q n.

(** The builders work side by side. *)
Record texts (limits : SlHttpParseOptions) (text : part -> list Z) (s : ParseSys) : Prop := {
  tx_wf : forall p, builder_wf (part_sys p s);
  tx_storage : forall p, bb_storage (cx_builder (px_ctx s) p) = SL_BUILDER_STORAGE_ARENA /\
                         bb_max_capacity (cx_builder (px_ctx s) p) = part_limit limits p;
  tx_apart : forall p q, p <> q -> foreign (part_sys p s) (data_of q s) (capacity_of q s);
  tx_text : forall p, contents (part_sys p s) = text p;
}.

(** What a step leaves alone. *)
Definition keeps (s s' : ParseSys) : Prop :=
  forall q n, safe s q n -> safe s' q n /\ load_bytes (w_mem (px_world s')) q n = load_bytes (w_mem (px_world s)) q n.

Lemma texts_keep_refl s : keeps s s.
Proof. by intros q n H. Qed.

Lemma texts_keep_trans s1 s2 s3 : keeps s1 s2 -> keeps s2 s3 -> keeps s1 s3.
Proof. intros H1 H2 q n H. destruct (H1 q n H) as [Ha La]. destruct (H2 q n Ha) as [Hb Lb]. split; [done|congruence]. Qed.

(** An operation on one builder. *)
Record touched (p : part) (s : ParseSys) (b : BuilderSys) : Prop := {
  tc_wf : builder_wf b;
  tc_storage : bb_storage (bs_builder b) = SL_BUILDER_STORAGE_ARENA /\
               bb_max_capacity (bs_builder b) = bb_max_capacity (cx_builder (px_ctx s) p);
  tc_foreign : forall q n, foreign (part_sys p s) q n ->
    foreign b q n /\ load_bytes (bs_mem b) q n = load_bytes (w_mem (px_world s)) q n;
}.

Lemma part_sys_set p b s q :
  part_sys q (set_part_sys p b s) = if decide (q = p) then b else {| bs_world := bs_world b; bs_builder := cx_builder (px_ctx s) q |}.
Proof. unfold part_sys, set_part_sys. cbn. unfold set_part. case_decide; [by destruct b|done]. Qed.

Lemma touch_texts limits text p b s :
  texts limits text s -> touched p s b ->
  texts limits (set_part p (contents b) text) (set_part_sys p b s) /\ keeps s (set_part_sys p b s).
Proof.
  intros [Hwf Hst Hap Htx] [Tw [Ts Tm] Tf].
  assert (Hblock : forall q, q <> p -> foreign b (data_of q s) (capacity_of q s) /\
            load_bytes (bs_mem b) (data_of q s) (capacity_of q s) = load_bytes (w_mem (px_world s)) (data_of q s) (capacity_of q s)).
  { intros q Hq. by apply Tf, Hap. }
  destruct (bw_arena _ Tw Ts) as [_ Haw].
  assert (Hbld : forall q, cx_builder (px_ctx (set_part_sys p b s)) q = if decide (q = p) then bs_builder b else cx_builder (px_ctx s) q).
  { intros q. done. }
  split; [split|].
  - intros q. rewrite part_sys_set. case_decide as E; [done|]. destruct (Hblock q E) as [[Hse _] _]. destruct (Hwf q) as [B1 B2 B3 B4 B5].
    split; try done.
    + intros Hs. split; [by apply B4|done].
    + intros _. by apply Hse.
  - intros q. rewrite Hbld. case_decide as E; [subst; by rewrite Tm, (proj2 (Hst p))|apply Hst].
  - intros q1 q2 Hne. unfold data_of, capacity_of. rewrite part_sys_set, !Hbld.
    destruct (decide (q1 = p)) as [->|E1], (decide (q2 = p)) as [->|E2]; try done.
    + by apply Hblock.
    + destruct (Hblock q1 E1) as [[_ Hd] _]. split; [intros _; by apply (bw_settled _ Tw)|].
      unfold disjoint_ranges, data_of, capacity_of in *. cbn. lia.
    + destruct (Hblock q2 E2) as [[Hse _] _]. split; [intros _; by apply Hse|]. by apply (Hap q1 q2).
  - intros q. rewrite part_sys_set. unfold set_part. case_decide as E; [done|]. rewrite <- Htx.
    destruct (Hblock q E) as [_ Hl]. unfold contents, bs_mem. cbn. pose proof (bw_bounds _ (Hwf q)) as Hb. cbn in Hb.
    destruct (Tf (data_of q s) (bb_length (cx_builder (px_ctx s) q))) as [_ Hl']; [|exact Hl'].
    eapply foreign_sub; [by apply Hap|done|unfold capacity_of; lia].
  - intros q n Hq. destruct (Tf q n (Hq p)) as [Hf Hl]. split; [|exact Hl]. intros q'. rewrite part_sys_set. case_decide as E; [done|].
    split; [intros _; by apply Hf|]. apply (Hq q').
Qed.

(** A copy elsewhere in the arena. *)
Lemma world_texts limits text w s :
  texts limits text s -> arena_wf (w_arena w) ->
  (forall q n, outside_free (w_arena (px_world s)) q n ->
     outside_free (w_arena w) q n /\ load_bytes (w_mem w) q n = load_bytes (w_mem (px_world s)) q n) ->
  texts limits text (set_px_world w s) /\ keeps s (set_px_world w s).
Proof.
  intros [Hwf Hst Hap Htx] Haw Hm. split; [split|].
  - intros p. destruct (Hwf p) as [B1 B2 B3 B4 B5]. split; try done.
    + intros Hs. split; [by apply B4|done].
    + intros Hs. apply Hm. by apply B5.
  - exact Hst.
  - intros p q Hne. destruct (Hap p q Hne) as [H1 H2]. split; [intros Hs; apply Hm; by apply H1|done].
  - intros p. rewrite <- Htx. unfold contents, bs_mem. cbn. pose proof (bw_bounds _ (Hwf p)) as Hb. cbn in Hb.
    apply Hm. eapply outside_free_sub; [apply (bw_settled _ (Hwf p)), Hst|done|]. cbn. lia.
  - intros q n Hq. destruct (Hm q n) as [H1 H2]; [apply (Hq PartBody), Hst|]. split; [|done].
    intros p. destruct (Hq p) as [H3 H4]. split; [by intros _|done].
Qed.

Lemma fresh_safe limits text v out w s :
  texts limits text s -> fresh_copy v out (px_world s) w -> safe (set_px_world w s) (str_ptr out) (str_length out).
Proof.
  intros Ht [_ Fo Fs _ _] p. split; [by intros _|]. cbn.
  destruct (Fo (data_of p s) (capacity_of p s)) as (_ & _ & Hd); [apply (bw_settled _ (tx_wf _ _ _ Ht p)), (tx_storage _ _ _ Ht p)|].
  exact Hd.
Qed.

(** * The invariant *)

(** The limits are sizes, those of header texts short enough for the vector routines. *)
Definition limits_ok (limits : SlHttpParseOptions) : Prop :=
  is_size (po_max_total_header_bytes limits) /\ is_size (po_max_headers limits) /\
  forall p, 0 <= part_limit limits p <= SIZE_MAX - 32.

Definition header_in (s : ParseSys) (f : list Z * list Z) (h : SlHttpHeader) : Prop :=
  (str_val (w_mem (px_world s)) (hh_name h) = fst f /\ str_val (w_mem (px_world s)) (hh_value h) = snd f) /\
  (safe s (str_ptr (hh_name h)) (str_length (hh_name h)) /\ safe s (str_ptr (hh_value h)) (str_length (hh_value h))) /\
  text_view (hh_name h) /\ text_view (hh_value h).

Lemma header_keeps s s' f h : keeps s s' -> header_in s f h -> header_in s' f h.
Proof.
  intros Hk ([E1 E2] & [S1 S2] & T). destruct (Hk _ _ S1) as [S1' L1], (Hk _ _ S2) as [S2' L2].
  split; [|done]. unfold str_val in *. by rewrite L1, L2.
Qed.

Lemma headers_keep s s' fs hs : keeps s s' -> Forall2 (header_in s) fs hs -> Forall2 (header_in s') fs hs.
Proof. intros Hk H. eapply Forall2_impl; [exact H|]. intros f h. by apply header_keeps. Qed.

Record px_inv (bytes : SlBytes) (input : list Z) (limits : SlHttpParseOptions) (a : assembled) (s : ParseSys) : Prop := {
  pi_texts : texts limits (as_text a) s;
  pi_view : forall p, cx_view (px_ctx s) p = sl_byte_builder_view REF (cx_builder (px_ctx s) p);
  pi_headers : Forall2 (header_in s) (as_headers a) (cx_headers (px_ctx s));
  pi_input : safe s (bytes_ptr bytes) (bytes_length bytes) /\ bytes_val (w_mem (px_world s)) bytes = input;
  pi_limits : cx_limits (px_ctx s) = limits;
  pi_total : cx_total_header_bytes (px_ctx s) = as_total a /\ 0 <= as_total a <= po_max_total_header_bytes limits;
  pi_flags : cx_saw_header_value (px_ctx s) = as_saw a /\ cx_headers_complete (px_ctx s) = as_headers_complete a /\
             cx_request_complete (px_ctx s) = as_complete a;
  pi_calm : cx_callback_status (px_ctx s) = SL_STATUS_OK /\ pd_code (cx_diag (px_ctx s)) = SL_DIAG_NONE;
  pi_array : 0 < po_max_headers limits -> 0 < cx_headers_ptr (px_ctx s);
}.

Section Inner.
Context {BC : BuildConfig} {RO : ReadOnlyData} (bytes : SlBytes) (input : list Z) (limits : SlHttpParseOptions).
Hypothesis Hlim : limits_ok limits.
Hypothesis Hbytes : bytes_valid bytes /\ bytes_wf bytes.
Implicit Types (s : ParseSys) (a : assembled).

#[local] Abbreviation inv := (px_inv bytes input limits).

(** The outcome of a step inside a callback, against the reference. *)
Definition stepped s (r : option assembled) (res : result unit * ParseSys) : Prop :=
  forward (px_world s) (px_world (snd res)) /\
  match res with
  | (Ok _, s') => exists a, r = Some a /\ inv a s' /\ keeps s s'
  | (Err c, s') =>
      cx_callback_status (px_ctx s') = SL_STATUS_OK /\ c <> SL_STATUS_OK /\
      (r = None /\ pd_code (cx_diag (px_ctx s')) <> SL_DIAG_NONE \/
       (r = None \/ starved c) /\ pd_code (cx_diag (px_ctx s')) = SL_DIAG_NONE)
  end.

Lemma inv_arena a s : inv a s -> arena_wf (w_arena (px_world s)).
Proof. intros H. apply (bw_arena _ (tx_wf _ _ _ (pi_texts _ _ _ _ _ H) PartBody)), (tx_storage _ _ _ (pi_texts _ _ _ _ _ H)). Qed.

Lemma stepped_bind s r1 (f : assembled -> option assembled) (c1 c2 : ST ParseSys unit) :
  stepped s r1 (c1 s) -> (forall a1 s1, r1 = Some a1 -> inv a1 s1 -> stepped s1 (f a1) (c2 s1)) ->
  stepped s (r1 ≫= f) ((c1 ;; c2) s).
Proof.
  intros [Hf H1] H2. unfold mbind at 2, st_bind. destruct (c1 s) as [[[]|c] s1]; cbn [snd] in *.
  - destruct H1 as (a1 & -> & Hi & Hk). destruct (H2 a1 s1 eq_refl Hi) as [Hf2 H3]. split; [by eapply forward_trans|].
    destruct (c2 s1) as [[[]|c] s2]; [|exact H3]. destruct H3 as (a2 & E & Hi2 & Hk2).
    exists a2. split; [exact E|]. split; [done|]. by eapply texts_keep_trans.
  - split; [done|]. destruct H1 as (E1 & E2 & [[-> E3]|[[->|E3] E4]]); [by repeat split; auto|by repeat split; auto|].
    split; [done|]. split; [done|]. right. split; [by right|done].
Qed.

Lemma code_for_diag code : sl_http_status_code_for_diag code <> SL_STATUS_OK.
Proof. unfold sl_http_status_code_for_diag. by split_if. Qed.

Lemma set_error_stepped {A} a s code message hint :
  inv a s -> code <> SL_DIAG_NONE ->
  exists s', sl_http_set_error (A := A) code message hint s = (Err (sl_http_status_code_for_diag code), s') /\
    px_world s' = px_world s /\ cx_callback_status (px_ctx s') = SL_STATUS_OK /\ pd_code (cx_diag (px_ctx s')) <> SL_DIAG_NONE.
Proof. intros Hi Hc. eexists. split; [reflexivity|]. split; [done|]. split; [apply Hi|done]. Qed.

(** A refusal. *)
Lemma refused_stepped a s r code message hint :
  inv a s -> code <> SL_DIAG_NONE -> r = None -> stepped s r (sl_http_set_error code message hint s).
Proof.
  intros Hi Hc Hr. destruct (set_error_stepped (A := unit) a s code message hint Hi Hc) as (s' & -> & Ew & E1 & E2).
  split; cbn [snd]; [rewrite Ew; exact (forward_refl _ (inv_arena a s Hi))|].
  split; [done|]. split; [apply code_for_diag|]. by left.
Qed.

Lemma overflow_stepped a s r : inv a s -> r = None -> stepped s r (Err SL_STATUS_OVERFLOW, s).
Proof.
  intros Hi Hr. split; cbn [snd]; [exact (forward_refl _ (inv_arena a s Hi))|]. split; [apply Hi|]. split; [done|]. right. split; [by left|apply Hi].
Qed.

Lemma length_of p a s : inv a s -> cx_length p (px_ctx s) = text_length p a /\ 0 <= text_length p a <= part_limit limits p.
Proof.
  intros Hi. unfold cx_length, text_length. rewrite (pi_view _ _ _ _ _ Hi p). pose proof (tx_wf _ _ _ (pi_texts _ _ _ _ _ Hi) p) as Hw.
  pose proof (view_length _ Hw) as Hv. cbn in Hv. rewrite Hv, <- (tx_text _ _ _ (pi_texts _ _ _ _ _ Hi) p).
  pose proof (bw_bounds _ Hw) as Hb. cbn in Hb. rewrite (proj2 (tx_storage _ _ _ (pi_texts _ _ _ _ _ Hi) p)) in Hb.
  unfold contents. rewrite length_load_bytes by (cbn; lia). cbn. lia.
Qed.

(** Changes to the context that touch no builder. *)
Lemma ctx_keeps f s : (forall p, cx_builder (f (px_ctx s)) p = cx_builder (px_ctx s) p) -> keeps s (upd_ctx f s).
Proof.
  intros Hf q n H. split; [|done]. intros p. specialize (H p). unfold part_sys in *. cbn. by rewrite Hf.
Qed.

Lemma ctx_texts f text s :
  (forall p, cx_builder (f (px_ctx s)) p = cx_builder (px_ctx s) p) -> texts limits text s -> texts limits text (upd_ctx f s).
Proof.
  intros Hf [A B C D]. assert (E : forall p, part_sys p (upd_ctx f s) = part_sys p s) by (intros p; unfold part_sys; cbn; by rewrite Hf).
  split.
  - intros p. by rewrite E.
  - intros p. cbn. by rewrite Hf.
  - intros p q Hne. rewrite E. unfold data_of, capacity_of. cbn. rewrite Hf. by apply C.
  - intros p. by rewrite E.
Qed.

Lemma texts_ext text text' s : (forall p, text p = text' p) -> texts limits text s -> texts limits text' s.
Proof. intros E [A B C D]. split; try done. intros p. by rewrite <- E. Qed.

Lemma input_keeps s s' :
  keeps s s' -> safe s (bytes_ptr bytes) (bytes_length bytes) /\ bytes_val (w_mem (px_world s)) bytes = input ->
  safe s' (bytes_ptr bytes) (bytes_length bytes) /\ bytes_val (w_mem (px_world s')) bytes = input.
Proof. intros Hk [H1 <-]. destruct (Hk _ _ H1) as [H2 H3]. split; [done|exact H3]. Qed.

Lemma count_stepped a s len :
  inv a s -> is_size len -> stepped s (count_bytes limits len a) (sl_http_count_header_bytes len s).
Proof.
  intros Hi Hl. pose proof Hi as [Ht Hv Hh Hin Hls [Htot Htb] Hfl Hc Hary]. unfold sl_http_count_header_bytes, count_bytes. unfold_st.
  destruct Hlim as [HL _]. unfold is_size in *. rewrite Htot, checked_add_spec by (unfold is_size; lia). unfold checked.
  destruct (Z.leb_spec (as_total a + len) SIZE_MAX).
  2: { destruct (Z.ltb_spec (po_max_total_header_bytes limits) (as_total a + len)); [|lia]. by eapply overflow_stepped. }
  rewrite Hls. destruct (Z.ltb_spec (po_max_total_header_bytes limits) (as_total a + len)); [by eapply refused_stepped|].
  split; [exact (forward_refl _ (inv_arena a s Hi))|]. eexists. split; [reflexivity|]. split; [|by apply ctx_keeps].
  split; try done; [by apply ctx_texts|]. cbn. lia.
Qed.

(** Checking a length that is found to be within its limit changes nothing. *)
Lemma check_stepped p a s len code message hint :
  inv a s -> is_size len -> code <> SL_DIAG_NONE ->
  stepped s (if part_limit limits p <? text_length p a + len then None else Some a)
    ((next_length ← lift (sl_checked_add_size (cx_length p (px_ctx s)) len REF) ;
      if part_limit limits p <? next_length then sl_http_set_error code message hint else mret tt) s).
Proof.
  intros Hi Hl Hc. destruct (length_of p a s Hi) as [-> Hb]. destruct Hlim as (_ & _ & HL). specialize (HL p). unfold is_size in Hl.
  unfold mbind, st_bind, lift. rewrite checked_add_spec by (unfold is_size; lia). unfold checked.
  destruct (Z.leb_spec (text_length p a + len) SIZE_MAX).
  2: { destruct (Z.ltb_spec (part_limit limits p) (text_length p a + len)); [|lia]. by eapply overflow_stepped. }
  destruct (Z.ltb_spec (part_limit limits p) (text_length p a + len)); [by eapply refused_stepped|].
  split; [exact (forward_refl _ (inv_arena a s Hi))|]. exists a. split; [done|]. split; [done|apply texts_keep_refl].
Qed.

Lemma span_load at_ len m :
  bytes_val m bytes = input -> 0 <= at_ -> 0 <= len -> at_ + len <= Z.of_nat (length input) ->
  at_ + len <= bytes_length bytes /\ load_bytes m (bytes_ptr bytes + at_) len = span input at_ len /\ Z.of_nat (length (span input at_ len)) = len.
Proof.
  intros <- H1 H2 H3. destruct Hbytes as [[Hl _] _]. unfold bytes_val in *. rewrite length_load_bytes in H3 by done. split; [done|].
  unfold span. rewrite load_bytes_drop, load_bytes_take by lia. split; [done|]. rewrite length_load_bytes by lia. lia.
Qed.

(** Bytes of the input behind a text. *)
Lemma extend_text p a s at_ len :
  inv a s -> 0 <= at_ -> 0 <= len -> at_ + len <= Z.of_nat (length input) -> text_length p a + len <= part_limit limits p ->
  stepped s (grow_text limits p (span input at_ len) a)
    ((in_part p (sl_byte_builder_append_bytes REF (sl_bytes_from_parts (bytes_ptr bytes + at_) len)) ;;
      modify (fun s => upd_ctx (cx_set_view p (view_of p s)) s)) s).
Proof.
  intros Hi Ha Hl Hin Hroom. pose proof Hi as [Ht Hv Hh [Hsafe Hval] Hls Htot Hfl Hc Hary]. destruct (span_load at_ len _ Hval Ha Hl Hin) as (Hfit & Hload & Hlen).
  pose proof (tx_wf _ _ _ Ht p) as Hwf. destruct (tx_storage _ _ _ Ht p) as [Hst Hmax]. destruct Hbytes as [[Hbl Hbv] (_ & Hp0 & Hp1)].
  set (chunk := sl_bytes_from_parts (bytes_ptr bytes + at_) len).
  assert (Hchunk : bytes_valid chunk /\ bytes_wf chunk) by (unfold bytes_valid, bytes_wf; cbn; lia).
  assert (Hset : settled (part_sys p s) (bytes_ptr chunk) (bytes_length chunk)).
  { intros Hs. eapply outside_free_sub; [apply (Hsafe p), Hs| |]; cbn; lia. }
  destruct (length_of p a s Hi) as [Hlp _].
  assert (Hbl2 : bb_length (bs_builder (part_sys p s)) = text_length p a).
  { rewrite <- Hlp. unfold cx_length. rewrite Hv. symmetry. apply (view_length _ Hwf). }
  pose proof (append_outcome chunk (part_sys p s) Hwf Hst (proj1 Hchunk) (proj2 Hchunk) Hset) as Hap.
  cbn [bs_builder part_sys] in Hap, Hbl2. rewrite Hbl2, Hmax in Hap. specialize (Hap Hroom).
  unfold in_part, zoom. unfold_st. destruct (sl_byte_builder_append_bytes REF chunk (part_sys p s)) as [[[]|c] b].
  - destruct Hap as [Happ Hfw]. split; [exact Hfw|]. unfold grow_text. rewrite Hlen.
    destruct (Z.ltb_spec (part_limit limits p) (text_length p a + len)); [lia|]. eexists. split; [reflexivity|].
    assert (Htc : touched p s b).
    { destruct Happ as [A1 A2 A3 [A4 A5]]. split; [done|by rewrite A4, A5|exact A3]. }
    destruct (touch_texts limits _ p b s Ht Htc) as [Ht' Hk]. split; [|exact Hk].
    split; cbn; try done.
    + apply ctx_texts; [done|]. eapply texts_ext; [|exact Ht']. intros q. unfold set_part. case_decide; [subst|done].
      rewrite (ad_contents _ _ _ Happ), (tx_text _ _ _ Ht p). f_equal. exact Hload.
    + intros q. unfold set_part. destruct (decide (q = p)) as [->|E]; [|apply Hv]. unfold view_of, set_part_sys. cbn. unfold set_part. by rewrite decide_True.
    + by eapply headers_keep.
    + by eapply (input_keeps s).
  - destruct Hap as [Hw Hs]. split; [cbn; rewrite Hw; exact (forward_refl _ (inv_arena a s Hi))|].
    split; [apply Hi|]. split; [destruct Hs as [-> | ->]; done|]. right. split; [by right|apply Hi].
Qed.

Lemma reset_touched p s : builder_wf (part_sys p s) -> bb_storage (cx_builder (px_ctx s) p) = SL_BUILDER_STORAGE_ARENA ->
  touched p s (set_builder (with_length 0 (bb_appended_bytes (cx_builder (px_ctx s) p)) (cx_builder (px_ctx s) p)) (part_sys p s)).
Proof.
  intros [B1 B2 B3 B4 B5] Hs. split; [|done|done]. split; try done. cbn in *. lia.
Qed.

Lemma reset_texts text p s :
  texts limits text s ->
  let s' := snd (in_part p (sl_string_builder_reset REF) s) in
  texts limits (set_part p [] text) s' /\ keeps s s' /\ px_world s' = px_world s.
Proof.
  intros Ht. destruct (touch_texts limits text p _ s Ht (reset_touched p s (tx_wf _ _ _ Ht p) (proj1 (tx_storage _ _ _ Ht p)))) as [H1 H2].
  split; [exact H1|]. by split.
Qed.

(** A text as the view that is copied. *)
Lemma part_view p a s :
  inv a s ->
  text_view (cx_str p (px_ctx s)) /\ str_val (w_mem (px_world s)) (cx_str p (px_ctx s)) = as_text a p /\
  outside_free (w_arena (px_world s)) (str_ptr (cx_str p (px_ctx s))) (str_length (cx_str p (px_ctx s))).
Proof.
  intros Hi. pose proof (pi_texts _ _ _ _ _ Hi) as Ht. pose proof (tx_wf _ _ _ Ht p) as Hwf. destruct (length_of p a s Hi) as [Hl Hb].
  destruct Hlim as (_ & _ & HL). specialize (HL p). unfold cx_length in Hl.
  pose proof (view_contents _ Hwf) as Hv. cbn in Hv. pose proof (view_length _ Hwf) as Hvl. cbn in Hvl.
  rewrite (tx_text _ _ _ Ht p) in Hv. unfold cx_str. rewrite (pi_view _ _ _ _ _ Hi p) in *.
  pose proof (bw_ptr _ Hwf) as (P1 & P2 & P3). pose proof (bw_bounds _ Hwf) as Hbb. cbn in P1, P2, P3, Hbb.
  assert (Hptr : 0 <= bytes_ptr (sl_byte_builder_view REF (cx_builder (px_ctx s) p)) /\
                 (bytes_length (sl_byte_builder_view REF (cx_builder (px_ctx s) p)) = 0 \/
                  bytes_ptr (sl_byte_builder_view REF (cx_builder (px_ctx s) p)) = sl_byte_builder_data (cx_builder (px_ctx s) p) /\
                  0 < sl_byte_builder_data (cx_builder (px_ctx s) p))).
  { unfold sl_byte_builder_view. cbn [is_null orb]. destruct (Z.eqb_spec (bb_length (cx_builder (px_ctx s) p)) 0); [cbn; lia|].
    destruct (Z.eqb_spec (sl_byte_builder_data (cx_builder (px_ctx s) p)) 0); [cbn; lia|]. cbn. lia. }
  destruct Hptr as [Hp0 Hp1]. split; [|split].
  - split; [split; cbn; lia|cbn; lia|unfold simd_length; cbn; lia].
  - exact Hv.
  - cbn. destruct Hp1 as [E|[E E']]; [unfold outside_free, disjoint_ranges; lia|].
    eapply outside_free_sub; [apply (bw_settled _ Hwf), (tx_storage _ _ _ Ht p)| |]; cbn; lia.
Qed.

Lemma copy_part p a w s :
  inv a s -> forward (px_world s) w ->
  (forall q n, outside_free (w_arena (px_world s)) q n ->
     outside_free (w_arena w) q n /\ load_bytes (w_mem w) q n = load_bytes (w_mem (px_world s)) q n) ->
  match sl_http_copy_str_view REF (cx_str p (px_ctx s)) REF w with
  | (Ok out, w') => fresh_copy (cx_str p (px_ctx s)) out w w' /\ str_val (w_mem w') out = as_text a p
  | (Err c, w') => w' = w /\ starved c
  end.
Proof.
  intros Hi Hfw Hm. destruct (part_view p a s Hi) as (Tv & Ev & Ov). destruct (Hm _ _ Ov) as [Ov' Lv].
  unfold sl_http_copy_str_view. replace (sl_http_str_valid (cx_str p (px_ctx s))) with true by (symmetry; exact (str_valid_storage _ (tv_valid _ Tv))).
  cbn [is_null orb negb]. pose proof (copy_view_outcome (cx_str p (px_ctx s)) w (fw_wf _ _ Hfw) Tv Ov') as Hc.
  destruct (sl_str_copy_view_to_arena _ _ _ w) as [[out|c] w']; [|done]. split; [done|].
  rewrite (fc_val _ _ _ _ Hc). unfold str_val in *. by rewrite Lv.
Qed.

Lemma header_of_copies s1 s2 name value f :
  keeps s1 s2 -> safe s1 (str_ptr name) (str_length name) -> str_val (w_mem (px_world s1)) name = fst f -> text_view name ->
  safe s2 (str_ptr value) (str_length value) -> str_val (w_mem (px_world s2)) value = snd f -> text_view value ->
  header_in s2 f {| hh_name := name; hh_value := value |}.
Proof.
  intros Hk S1 E1 T1 S2 E2 T2. destruct (Hk _ _ S1) as [S1' L1]. split; [|done]. cbn. unfold str_val in *. by rewrite L1.
Qed.

(** The copies of a finished header. *)
Lemma copies_stepped a s :
  inv a s ->
  match (name ← in_px_world (sl_http_copy_str_view REF (cx_str PartName (px_ctx s)) REF) ;
         value ← in_px_world (sl_http_copy_str_view REF (cx_str PartValue (px_ctx s)) REF) ;
         mret {| hh_name := name; hh_value := value |}) s with
  | (Ok h, s') =>
      exists w, s' = set_px_world w s /\ forward (px_world s) w /\ texts limits (as_text a) s' /\ keeps s s' /\
        header_in s' (as_text a PartName, as_text a PartValue) h
  | (Err c, s') => (exists w, s' = set_px_world w s /\ forward (px_world s) w) /\ starved c
  end.
Proof.
  intros Hi. pose proof (inv_arena _ _ Hi) as Haw. unfold in_px_world, zoom. unfold_st.
  pose proof (copy_part PartName a (px_world s) s Hi (forward_refl _ Haw) ltac:(done)) as H1.
  destruct (sl_http_copy_str_view REF (cx_str PartName (px_ctx s)) REF (px_world s)) as [[name|c] w1].
  2: { destruct H1 as [-> Hs]. split; [|done]. eexists. split; [reflexivity|by apply forward_refl]. }
  destruct H1 as [[F1 F2 F3 F4 F5] V1].
  destruct (world_texts limits _ w1 s (pi_texts _ _ _ _ _ Hi) (fw_wf _ _ F1)) as [Ht1 Hk1].
  { intros q n Hq. destruct (F2 q n Hq) as (? & ? & ?). done. }
  pose proof (copy_part PartValue a w1 s Hi F1) as H2. cbn [px_world set_px_world].
  assert (Hm1 : forall q n, outside_free (w_arena (px_world s)) q n ->
     outside_free (w_arena w1) q n /\ load_bytes (w_mem w1) q n = load_bytes (w_mem (px_world s)) q n).
  { intros q n Hq. destruct (F2 q n Hq) as (? & ? & ?). done. }
  specialize (H2 Hm1).
  destruct (sl_http_copy_str_view REF (cx_str PartValue (px_ctx s)) REF w1) as [[value|c] w2].
  2: { destruct H2 as [-> Hs]. split; [|done]. exists w1. by split. }
  destruct H2 as [Hc2 V2]. pose proof Hc2 as [G1 G2 G3 G4 G5].
  destruct (world_texts limits _ w2 (set_px_world w1 s) Ht1 (fw_wf _ _ G1)) as [Ht2 Hk2].
  { intros q n Hq. destruct (G2 q n Hq) as (? & ? & ?). done. }
  exists w2. split; [done|]. split; [by eapply forward_trans|]. split; [exact Ht2|]. split; [by eapply texts_keep_trans|].
  apply (header_of_copies (set_px_world w1 s) (set_px_world w2 (set_px_world w1 s))); try done.
  - eapply fresh_safe; [apply Hi|]. by split.
  - by eapply fresh_safe.
Qed.

Lemma finish_stepped a s : inv a s -> stepped s (finish_header limits a) (sl_http_finish_current_header s).
Proof.
  intros Hi. pose proof Hi as [Ht Hv Hh Hin Hls Htot (Hsaw & Hhc & Hrc) Hc Hary].
  destruct (length_of PartName a s Hi) as [Ln _], (length_of PartValue a s Hi) as [Lv _].
  pose proof (forward_refl _ (inv_arena a s Hi)) as Hrefl.
  unfold sl_http_finish_current_header, finish_header. unfold mbind at 1, st_bind at 1, gets at 1. rewrite Ln, Lv, Hsaw, Hls.
  destruct ((text_length PartName a =? 0) && (text_length PartValue a =? 0)).
  { split; [done|]. exists a. split; [done|]. split; [done|apply texts_keep_refl]. }
  destruct ((text_length PartName a =? 0) || negb (as_saw a)); [by eapply refused_stepped|].
  unfold cx_header_count. rewrite <- (Forall2_length _ _ _ Hh).
  destruct (po_max_headers limits <=? Z.of_nat (length (as_headers a))); [by eapply refused_stepped|].
  pose proof (copies_stepped a s Hi) as Hcp. revert Hcp. unfold mbind, st_bind, mret, st_ret.
  destruct (in_px_world (sl_http_copy_str_view REF (cx_str PartName (px_ctx s)) REF) s) as [[name|c] s1].
  2: { intros [(w & -> & Hw) Hs]. split; [exact Hw|]. split; [apply Hi|]. split; [destruct Hs as [-> | ->]; done|]. right. split; [by right|apply Hi]. }
  destruct (in_px_world (sl_http_copy_str_view REF (cx_str PartValue (px_ctx s)) REF) s1) as [[value|c] s2].
  2: { intros [(w & -> & Hw) Hs]. split; [exact Hw|]. split; [apply Hi|]. split; [destruct Hs as [-> | ->]; done|]. right. split; [by right|apply Hi]. }
  intros (w & -> & Hfw & Ht2 & Hk2 & Hhd). unfold modify.
  set (s3 := upd_ctx (cx_set_view PartValue sl_bytes_empty) (upd_ctx (cx_set_view PartName sl_bytes_empty)
       (upd_ctx (cx_set_headers (cx_headers (px_ctx s) ++ [{| hh_name := name; hh_value := value |}])) (set_px_world w s)))).
  assert (Ht3 : texts limits (as_text a) s3) by (repeat (apply ctx_texts; [done|]); exact Ht2).
  assert (Hk23 : keeps (set_px_world w s) s3) by (intros q n H; split; [exact H|reflexivity]).
  pose proof (texts_keep_trans _ _ _ Hk2 Hk23) as Hk3.
  destruct (reset_texts _ PartName s3 Ht3) as (Ht4 & Hk4 & Hw4).
  change (in_part PartName (sl_string_builder_reset REF) s3) with (Ok tt, snd (in_part PartName (sl_string_builder_reset REF) s3)).
  set (s4 := snd (in_part PartName (sl_string_builder_reset REF) s3)) in *. cbv beta iota.
  destruct (reset_texts _ PartValue s4 Ht4) as (Ht5 & Hk5 & Hw5).
  change (in_part PartValue (sl_string_builder_reset REF) s4) with (Ok tt, snd (in_part PartValue (sl_string_builder_reset REF) s4)).
  set (s5 := snd (in_part PartValue (sl_string_builder_reset REF) s4)) in *. cbv beta iota.
  assert (Hk : keeps s (upd_ctx (cx_set_saw false) s5)).
  { eapply texts_keep_trans; [exact Hk3|]. eapply texts_keep_trans; [exact Hk4|]. eapply texts_keep_trans; [exact Hk5|]. by apply ctx_keeps. }
  split; [cbn [snd px_world upd_ctx]; by rewrite Hw5, Hw4|]. eexists. split; [reflexivity|]. split; [|exact Hk].
  split; try done.
  - apply ctx_texts; [done|]. exact Ht5.
  - intros p. cbn. unfold set_part. destruct p; cbn; try apply Hv; done.
  - cbn [as_headers]. change (cx_headers (px_ctx (upd_ctx (cx_set_saw false) s5))) with (cx_headers (px_ctx s) ++ [{| hh_name := name; hh_value := value |}]).
    apply Forall2_app; [by eapply headers_keep|]. constructor; [|constructor].
    eapply (header_keeps (set_px_world w s)); [|exact Hhd].
    eapply texts_keep_trans; [exact Hk23|eapply texts_keep_trans; [exact Hk4|eapply texts_keep_trans; [exact Hk5|by apply ctx_keeps]]].
  - by eapply (input_keeps s).
Qed.

(** * Callbacks *)

(** A parse that a callback has stopped. *)
Definition stopped (r : option assembled) (s : ParseSys) : Prop :=
  (r = None /\ pd_code (cx_diag (px_ctx s)) <> SL_DIAG_NONE) \/
  (pd_code (cx_diag (px_ctx s)) = SL_DIAG_NONE /\ cx_callback_status (px_ctx s) <> SL_STATUS_OK /\
   (r = None \/ starved (cx_callback_status (px_ctx s)))).

Definition called s (r : option assembled) (res : result unit * ParseSys) : Prop :=
  forward (px_world s) (px_world (snd res)) /\
  match res with
  | (Ok _, s') => exists a, r = Some a /\ inv a s' /\ keeps s s'
  | (Err _, s') => stopped r s'
  end.

Lemma callback_called s r c : stepped s r (c s) -> called s r (callback c s).
Proof.
  intros [Hf H]. unfold callback, on_error, called. unfold_st. destruct (c s) as [[[]|e] s'] eqn:E; [by split|]. cbn [snd] in *.
  split; [done|]. destruct H as (E1 & E2 & H). unfold stopped, sl_http_record_callback_status. cbn. rewrite E1. cbn.
  destruct H as [[-> H]|[H1 H2]]; [by left|]. right. split; [done|]. split; [done|]. done.
Qed.

Lemma called_bind s r1 (f : assembled -> option assembled) (c1 c2 : ST ParseSys unit) :
  called s r1 (c1 s) -> (forall a1 s1, r1 = Some a1 -> inv a1 s1 -> called s1 (f a1) (c2 s1)) ->
  called s (r1 ≫= f) ((c1 ;; c2) s).
Proof.
  intros [Hf H1] H2. unfold mbind at 2, st_bind. destruct (c1 s) as [[[]|c] s1]; cbn [snd] in *.
  - destruct H1 as (a1 & -> & Hi & Hk). destruct (H2 a1 s1 eq_refl Hi) as [Hf2 H3]. split; [by eapply forward_trans|].
    destruct (c2 s1) as [[[]|c] s2]; [|exact H3]. destruct H3 as (a2 & E & Hi2 & Hk2).
    exists a2. split; [exact E|]. split; [done|]. by eapply texts_keep_trans.
  - split; [done|]. destruct H1 as [[-> H1]|(H1 & H3 & [->|H4])]; [by left|right|right]; repeat split; auto.
Qed.

Lemma span_size at_ len : 0 <= at_ -> 0 <= len -> at_ + len <= Z.of_nat (length input) -> bytes_length bytes = Z.of_nat (length input) -> is_size len.
Proof. intros. destruct Hbytes as [_ (? & ? & ?)]. unfold is_size. change SIZE_MAX with UINTPTR_MAX. lia. Qed.

Lemma input_length a s : inv a s -> bytes_length bytes = Z.of_nat (length input).
Proof. intros Hi. destruct (pi_input _ _ _ _ _ Hi) as [_ <-]. destruct Hbytes as [[Hl _] _]. unfold bytes_val. by rewrite length_load_bytes. Qed.

(** A length check followed by the append. *)
Lemma grow_stepped p a s at_ len code message hint k :
  inv a s -> 0 <= at_ -> 0 <= len -> at_ + len <= Z.of_nat (length input) -> code <> SL_DIAG_NONE ->
  (text_length p a + len <= part_limit limits p -> stepped s (grow_text limits p (span input at_ len) a) (k s)) ->
  stepped s (grow_text limits p (span input at_ len) a)
    ((next_length ← lift (sl_checked_add_size (cx_length p (px_ctx s)) len REF) ;
      if part_limit limits p <? next_length then sl_http_set_error code message hint else k) s).
Proof.
  intros Hi Ha Hl Hin Hc Hk. pose proof (span_size at_ len Ha Hl Hin (input_length _ _ Hi)) as Hsz. unfold is_size in Hsz.
  destruct (length_of p a s Hi) as [-> Hb]. destruct Hlim as (_ & _ & HL). specialize (HL p).
  destruct (span_load at_ len _ (proj2 (pi_input _ _ _ _ _ Hi)) Ha Hl Hin) as (_ & _ & Hlen).
  assert (Hnone : part_limit limits p < text_length p a + len -> grow_text limits p (span input at_ len) a = None).
  { intros H. unfold grow_text. rewrite Hlen. destruct (Z.ltb_spec (part_limit limits p) (text_length p a + len)); [done|lia]. }
  unfold mbind, st_bind, lift. rewrite checked_add_spec by (unfold is_size; lia). unfold checked.
  destruct (Z.leb_spec (text_length p a + len) SIZE_MAX); [|eapply overflow_stepped; [done|apply Hnone; lia]].
  destruct (Z.ltb_spec (part_limit limits p) (text_length p a + len)); [|by apply Hk]. by eapply refused_stepped; auto.
Qed.

(** A count of header bytes, a length check, an append. *)
Lemma header_text_stepped p a s at_ len code message hint (check : Z -> ST ParseSys unit) :
  inv a s -> 0 <= at_ -> 0 <= len -> at_ + len <= Z.of_nat (length input) -> code <> SL_DIAG_NONE ->
  (forall s', cx_limits (px_ctx s') = limits -> check len s' =
     (next_length ← lift (sl_checked_add_size (cx_length p (px_ctx s')) len REF) ;
      if part_limit limits p <? next_length then sl_http_set_error code message hint else mret tt) s') ->
  stepped s (a ← count_bytes limits len a ; grow_text limits p (span input at_ len) a)
    ((sl_http_count_header_bytes len ;; check len ;; append_span p (bytes_ptr bytes + at_) len) s).
Proof.
  intros Hi Ha Hl Hin Hc Hcheck. pose proof (span_size at_ len Ha Hl Hin (input_length _ _ Hi)) as Hsz.
  apply (stepped_bind s (count_bytes limits len a)); [by apply count_stepped|]. intros a1 s1 _ Hi1.
  destruct (span_load at_ len _ (proj2 (pi_input _ _ _ _ _ Hi1)) Ha Hl Hin) as (_ & _ & Hlen).
  replace (grow_text limits p (span input at_ len) a1)
    with ((if part_limit limits p <? text_length p a1 + len then None else Some a1) ≫= grow_text limits p (span input at_ len)).
  2: { unfold grow_text. rewrite Hlen. by destruct (part_limit limits p <? text_length p a1 + len) eqn:E; cbn; rewrite ?Hlen, ?E. }
  apply stepped_bind.
  - rewrite Hcheck by apply Hi1. by apply check_stepped.
  - intros a2 s2 E Hi2. destruct (Z.ltb_spec (part_limit limits p) (text_length p a1 + len)); [done|]. injection E as ->.
    by apply (extend_text p a2 s2).
Qed.

Lemma event_called a s e :
  inv a s -> span_in input e -> called s (assemble_event limits input e a) (sl_http_settings_prepare (bytes_ptr bytes) e s).
Proof.
  intros Hi Hsp. destruct e as [at_ len|at_ len|at_ len| |at_ len|]; cbn [assemble_event sl_http_settings_prepare span_in] in *.
  - destruct Hsp as (H1 & H2 & H3). unfold sl_http_on_url. unfold mbind at 1, st_bind at 1, gets at 1.
    apply callback_called. rewrite (pi_limits _ _ _ _ _ Hi).
    apply (grow_stepped PartTarget a s at_ len); try done. intros Hroom. by apply (extend_text PartTarget a s).
  - destruct Hsp as (H1 & H2 & H3). unfold sl_http_on_header_field. unfold mbind at 3, st_bind at 1, gets at 1.
    rewrite (proj1 (pi_flags _ _ _ _ _ Hi)).
    apply (called_bind s (if as_saw a then finish_header limits a else Some a)).
    + destruct (as_saw a); [by apply callback_called, finish_stepped|]. split; [exact (forward_refl _ (inv_arena a s Hi))|].
      exists a. split; [done|]. split; [done|apply texts_keep_refl].
    + intros a1 s1 _ Hi1. apply callback_called. eapply (header_text_stepped PartName a1 s1 at_ len SL_DIAG_HTTP_HEADER_NAME_LIMIT); [done..|].
      intros s' Es'. unfold sl_http_check_header_name_length. unfold_st. by rewrite Es'.
  - destruct Hsp as (H1 & H2 & H3). unfold sl_http_on_header_value. unfold mbind at 2, st_bind at 1, modify at 1.
    assert (Hi1 : inv (as_set_saw true a) (upd_ctx (cx_set_saw true) s)).
    { destruct Hi as [A B C D E F (G1 & G2 & G3) K K']. split; try done. by apply ctx_texts. }
    assert (Hca : called (upd_ctx (cx_set_saw true) s) (a ← count_bytes limits len (as_set_saw true a) ; grow_text limits PartValue (span input at_ len) a)
      (callback (sl_http_count_header_bytes len ;; sl_http_check_header_value_length len ;; append_span PartValue (bytes_ptr bytes + at_) len)
         (upd_ctx (cx_set_saw true) s))).
    { apply callback_called. eapply (header_text_stepped PartValue _ _ at_ len SL_DIAG_HTTP_HEADER_VALUE_LIMIT); [done..|].
      intros s' Es'. unfold sl_http_check_header_value_length. unfold_st. by rewrite Es'. }
    exact Hca.
  - unfold sl_http_on_headers_complete.
    replace (as_set_headers_complete <$> finish_header limits a) with (finish_header limits a ≫= (fun a => Some (as_set_headers_complete a)))
      by (by destruct (finish_header limits a)).
    apply called_bind; [by apply callback_called, finish_stepped|]. intros a1 s1 _ Hi1. split; [exact (forward_refl _ (inv_arena a1 s1 Hi1))|].
    eexists. split; [reflexivity|]. split; [|by apply ctx_keeps].
    destruct Hi1 as [A B C D E F (G1 & G2 & G3) K K']. split; try done. by apply ctx_texts.
  - destruct Hsp as (H1 & H2 & H3). unfold sl_http_on_body. apply callback_called. unfold sl_http_append_body. cbn [bytes_ptr bytes_length sl_bytes_from_parts].
    destruct ((bytes_ptr bytes + at_ =? 0) && negb (len =? 0)) eqn:Ez.
    { exfalso. pose proof (input_length _ _ Hi). destruct Hbytes as [[? ?] (? & ? & ?)].
      destruct (Z.eqb_spec (bytes_ptr bytes + at_) 0), (Z.eqb_spec len 0); try done. lia. }
    unfold mbind at 1, st_bind at 1, gets at 1. rewrite (pi_limits _ _ _ _ _ Hi).
    apply (grow_stepped PartBody a s at_ len); try done. intros Hroom.
    destruct (Z.eqb_spec len 0) as [E0|E0]; [|by apply (extend_text PartBody a s)].
    split; [exact (forward_refl _ (inv_arena a s Hi))|]. subst len. unfold grow_text. change (span input at_ 0) with (@nil Z).
    change (Z.of_nat (length (@nil Z))) with 0. destruct (Z.ltb_spec (part_limit limits PartBody) (text_length PartBody a + 0)); [lia|]. eexists. split; [reflexivity|]. split; [|apply texts_keep_refl].
    destruct Hi as [A B C D E F G K K']. split; try done. eapply texts_ext; [|exact A]. intros q. cbn. unfold set_part.
    case_decide; [subst; by rewrite app_nil_r|done].
  - split; [exact (forward_refl _ (inv_arena a s Hi))|]. eexists. split; [reflexivity|]. split; [|by apply ctx_keeps].
    destruct Hi as [A B C D E F (G1 & G2 & G3) K K']. split; try done. by apply ctx_texts.
Qed.

Lemma events_called es a s :
  inv a s -> Forall (span_in input) es -> called s (assemble limits input es a) (run_events (bytes_ptr bytes) es s).
Proof.
  intros Hi Hes. revert a s Hi. induction Hes as [|e es He Hes IH]; intros a s Hi; cbn [assemble run_events].
  { split; [exact (forward_refl _ (inv_arena a s Hi))|]. exists a. split; [done|]. split; [done|apply texts_keep_refl]. }
  apply called_bind; [by apply event_called|]. intros a1 s1 _ Hi1. by apply IH.
Qed.
End Inner.
