(* ===== verification/HttpHead.v ===== *)
(** Parsing a complete HTTP/1 request (src/core/http.c), against a reference.

    [http_request] says over lists which request an input stands for, given the callbacks
    llhttp makes on it: the assembly of HttpAssemble.v, then the version, the target, the
    Host header and the framing headers.  The parser answers with that request, laid out in
    the arena, or refuses and gives the arena back. *)

From stdpp Require Import strings gmap.
From Stdlib Require Import Strings.Ascii.
From S2P Require Import Prelude Memory Status Arena Str Bytes Simd StrArena Container Sink Builder Diag HttpResponse HttpBackend HttpBody HttpMedia Http2Map Http2Request Http2Build HttpParse HttpAssemble.

Open Scope Z_scope.

(** * Reference *)

Record http_request := {
  hr_method : SlHttpMethod;
  hr_major : Z;
  hr_minor : Z;
  hr_target : list Z;
  hr_headers : list (list Z * list Z);
  hr_body : list Z;
}.

(** The bytes before the first CR LF. *)
Fixpoint first_line (input : list Z) : list Z :=
  match input with
  | [] => []
  | c :: rest => if (c =? 13) && bool_decide (head rest = Some 10) then [] else c :: first_line rest
  end.

(** The offset behind the first blank line. *)
Fixpoint head_end (index : Z) (input : list Z) : Z :=
  match input with
  | [] => 0
  | _ :: rest => if bool_decide (take 4 input = [13; 10; 13; 10]) then index + 4 else head_end (index + 1) rest
  end.

(** The values of the headers of a name, whatever its case. *)
Definition named (name : string) (h : list Z * list Z) : Prop := is_text (map ascii_lower (fst h)) name = true.
#[export] Instance named_dec name h : Decision (named name h) := decide (_ = true).
Definition values (name : string) (hs : list (list Z * list Z)) : list (list Z) := map snd (filter (named name) hs).

(** At most one Host header, never empty, and one at least in HTTP/1.1. *)
Definition host_ok (minor : Z) (hs : list (list Z * list Z)) : bool :=
  match values "host" hs with
  | [] => negb (minor =? 1)
  | [value] => negb (bool_decide (trim value = []))
  | _ => false
  end.

(** One header that frames the body at most. *)
Definition framing_ok (hs : list (list Z * list Z)) : bool :=
  (length (values "content-length" hs) + length (values "transfer-encoding" hs) <=? 1)%nat.

Section Reference.
Context {LL : Llhttp}.

(** The request line is bounded; an upgrade ends with the head; anything else must be
    complete when the input ends. *)
Definition received (limits : SlHttpParseOptions) (input : list Z) : option assembled :=
  if po_max_request_line_length limits <? Z.of_nat (length (first_line input)) then None else
  a ← assemble limits input (fst (llhttp_execute input)) nothing_yet ;
  let errno := snd (llhttp_execute input) in
  if bool_decide (errno = HPE_PAUSED_UPGRADE) && as_headers_complete a && (head_end 0 input =? Z.of_nat (length input))
  then Some (as_set_complete a)
  else if negb (bool_decide (errno = HPE_OK)) then None else
  a ← assemble limits input (fst (llhttp_finish input)) a ;
  if bool_decide (snd (llhttp_finish input) = HPE_OK) && as_headers_complete a && as_complete a then Some a else None.

Definition accepts (input : list Z) (a : assembled) : bool :=
  (llhttp_get_http_major input =? 1) && (llhttp_get_http_minor input <=? 1) &&
  bool_decide (head (as_text a PartTarget) = Some 47) &&
  host_ok (llhttp_get_http_minor input) (as_headers a) && framing_ok (as_headers a) &&
  negb (bool_decide (sl_http_method_from_llhttp (llhttp_get_method input) = SL_HTTP_METHOD_UNKNOWN)).

Definition read_request (limits : SlHttpParseOptions) (input : list Z) : option http_request :=
  a ← received limits input ;
  if accepts input a
  then Some {| hr_method := sl_http_method_from_llhttp (llhttp_get_method input);
               hr_major := llhttp_get_http_major input; hr_minor := llhttp_get_http_minor input;
               hr_target := as_text a PartTarget; hr_headers := as_headers a; hr_body := as_text a PartBody |}
  else None.
End Reference.

(** What llhttp documents of its callbacks: their spans lie in the input, and
    [llhttp_finish] calls [on_message_complete] alone. *)
Class LlhttpLaws {LL : Llhttp} := {
  execute_spans : forall input, Forall (span_in input) (fst (llhttp_execute input));
  finish_completes : forall input, Forall (eq OnMessageComplete) (fst (llhttp_finish input));
}.

(** * Scanning the input *)

Lemma line_length_spec m p n : line_length m p n = length (first_line (load m p n)).
Proof.
  revert p. induction n as [|n IH]; intros p; [done|]. cbn [line_length load first_line]. rewrite IH.
  replace (bool_decide (head (load m (p + 1) n) = Some 10)) with ((1 <=? Z.of_nat n) && (ld8 m (p + 1) =? 10)).
  - rewrite andb_assoc. by destruct ((ld8 m p =? 13) && (1 <=? Z.of_nat n) && (ld8 m (p + 1) =? 10)).
  - destruct n as [|n]; [done|]. destruct (Z.leb_spec 1 (Z.of_nat (S n))); [|lia]. cbn [load head andb].
    destruct (Z.eqb_spec (ld8 m (p + 1)) 10) as [->|E]; [done|]. symmetry. apply bool_decide_eq_false. congruence.
Qed.

Lemma four_bytes m p n :
  (3 <=? Z.of_nat n) && (ld8 m p =? 13) && (ld8 m (p + 1) =? 10) && (ld8 m (p + 2) =? 13) && (ld8 m (p + 3) =? 10) =
  bool_decide (take 4 (load m p (S n)) = [13; 10; 13; 10]).
Proof.
  destruct (Z.leb_spec 3 (Z.of_nat n)).
  - destruct n as [|[|[|n]]]; [lia..|]. cbn [load take andb].
    replace (p + 1 + 1 + 1) with (p + 3) by lia. replace (p + 1 + 1) with (p + 2) by lia.
    destruct (Z.eqb_spec (ld8 m p) 13) as [->|]; [|symmetry; apply bool_decide_eq_false; congruence].
    destruct (Z.eqb_spec (ld8 m (p + 1)) 10) as [->|]; [|symmetry; apply bool_decide_eq_false; congruence].
    destruct (Z.eqb_spec (ld8 m (p + 2)) 13) as [->|]; [|symmetry; apply bool_decide_eq_false; congruence].
    destruct (Z.eqb_spec (ld8 m (p + 3)) 10) as [->|]; [done|symmetry; apply bool_decide_eq_false; congruence].
  - symmetry. apply bool_decide_eq_false. intros E. apply (f_equal length) in E. revert E. rewrite length_take, length_load. cbn [length]. lia.
Qed.

Lemma header_end_spec m p n index : header_end_loop m p index n = head_end index (load m p n).
Proof.
  revert p index. induction n as [|n IH]; intros p index; [done|]. cbn [header_end_loop]. rewrite four_bytes, IH. done.
Qed.

Lemma find_header_end_spec m bytes :
  bytes_valid bytes -> sl_http_find_header_end m bytes = head_end 0 (bytes_val m bytes).
Proof.
  intros [Hl Hv]. unfold sl_http_find_header_end. destruct (Z.eqb_spec (bytes_ptr bytes) 0) as [E|E].
  - unfold bytes_val. replace (bytes_length bytes) with 0 by lia. done.
  - apply header_end_spec.
Qed.

(** * Running llhttp *)

Lemma completing_events `{BuildConfig, ReadOnlyData} base es s : Forall (eq OnMessageComplete) es -> exists s', run_events base es s = (Ok tt, s').
Proof.
  intros Hes. revert s. induction Hes as [|e es <- Hes IH]; intros s; [by eexists|]. apply IH.
Qed.

Lemma completing_spans input es : Forall (eq OnMessageComplete) es -> Forall (span_in input) es.
Proof. intros H. eapply Forall_impl; [exact H|]. by intros e <-. Qed.

Section Running.
Context {BC : BuildConfig} {SC : SimdConfig} {RO : ReadOnlyData} {LL : Llhttp} {LW : LlhttpLaws}.
Context (bytes : SlBytes) (input : list Z) (limits : SlHttpParseOptions).
Hypothesis Hlim : limits_ok limits.
Hypothesis Hbytes : bytes_valid bytes /\ bytes_wf bytes.
Implicit Types (s : ParseSys) (a : assembled).

#[local] Abbreviation inv := (px_inv bytes input limits).

(** The outcome of a stage: what the reference says, or a refusal of what it refuses, or
    an arena without room. *)
Definition outcome {A} s (r : option assembled) (res : result A * ParseSys) : Prop :=
  forward (px_world s) (px_world (snd res)) /\
  match res with
  | (Ok _, s') => exists a, r = Some a /\ inv a s' /\ keeps s s'
  | (Err c, s') => r = None \/ starved c /\ pd_code (cx_diag (px_ctx s')) = SL_DIAG_NONE
  end.

Lemma refused_outcome {A} a s r code message hint : inv a s -> r = None -> outcome s r (sl_http_set_error (A := A) code message hint s).
Proof. intros Hi Hr. split; [exact (forward_refl _ (inv_arena _ _ _ _ _ Hi))|]. by left. Qed.

Lemma run_spec run a s :
  inv a s -> Forall (span_in input) (fst (run input)) ->
  let r := assemble limits input (fst (run input)) a in
  exists errno s', run_llhttp run bytes s = (Ok errno, s') /\ forward (px_world s) (px_world s') /\
    ((exists a', r = Some a' /\ errno = snd (run input) /\ inv a' s' /\ keeps s s') \/ errno = HPE_USER /\ stopped r s').
Proof.
  intros Hi Hsp r. unfold run_llhttp. rewrite (proj2 (pi_input _ _ _ _ _ Hi)). destruct (run input) as [es errno]. cbn [fst snd] in *.
  destruct (events_called bytes input limits Hlim Hbytes es a s Hi Hsp) as [Hf Hc].
  destruct (run_events (bytes_ptr bytes) es s) as [[[]|c] s']; cbn [snd] in *.
  - destruct Hc as (a' & E & Hi' & Hk). exists errno, s'. split; [done|]. split; [done|]. left. by exists a'.
  - exists HPE_USER, s'. split; [done|]. split; [done|]. by right.
Qed.

Lemma llhttp_finish_spec a s :
  inv a s ->
  exists a' s', run_llhttp llhttp_finish bytes s = (Ok (snd (llhttp_finish input)), s') /\ forward (px_world s) (px_world s') /\
    assemble limits input (fst (llhttp_finish input)) a = Some a' /\ inv a' s' /\ keeps s s'.
Proof.
  intros Hi. destruct (run_spec llhttp_finish a s Hi (completing_spans _ _ (finish_completes input))) as (e & s' & E & Hf & H).
  destruct H as [(a' & H1 & -> & H2 & H3)|[-> H]]; [by exists a', s'|]. exfalso. revert E.
  unfold run_llhttp. rewrite (proj2 (pi_input _ _ _ _ _ Hi)). destruct (llhttp_finish input) as [es errno] eqn:Ef.
  pose proof (finish_completes input) as Hc. rewrite Ef in Hc. cbn [fst] in Hc, H.
  destruct (completing_events (bytes_ptr bytes) es s Hc) as [s'' E'].
  pose proof (events_called bytes input limits Hlim Hbytes es a s Hi (completing_spans _ _ Hc)) as [_ Hev]. rewrite E' in *.
  intros [= _ <-]. destruct Hev as (a' & E1 & Hi' & _). rewrite E1 in H.
  destruct (pi_calm _ _ _ _ _ Hi') as [C1 C2]. destruct H as [[? _]|(_ & ? & _)]; congruence.
Qed.

Lemma line_spec a s :
  inv a s ->
  sl_http_check_request_line_length bytes s =
    if po_max_request_line_length limits <? Z.of_nat (length (first_line input))
    then sl_http_set_error SL_DIAG_HTTP_REQUEST_LINE_LIMIT "HTTP request line is too long"
           "the HTTP backend bounds method, target, and version line bytes" s
    else (Ok tt, s).
Proof.
  intros Hi. unfold sl_http_check_request_line_length. unfold_st. destruct Hbytes as [[Hl Hv] _].
  replace ((bytes_ptr bytes =? 0) && negb (bytes_length bytes =? 0)) with false
    by (destruct (Z.eqb_spec (bytes_ptr bytes) 0), (Z.eqb_spec (bytes_length bytes) 0); [done|lia|done|done]).
  rewrite line_length_spec, (pi_limits _ _ _ _ _ Hi). change (load ?m ?p (Z.to_nat ?n)) with (load_bytes m p n).
  change (load_bytes ?m (bytes_ptr bytes) (bytes_length bytes)) with (bytes_val m bytes). rewrite (proj2 (pi_input _ _ _ _ _ Hi)).
  by destruct (po_max_request_line_length limits <? Z.of_nat (length (first_line input))).
Qed.

(** The stages up to a complete message. *)
Lemma with_llhttp_spec s : inv nothing_yet s -> outcome s (received limits input) (sl_http_parse_with_llhttp bytes s).
Proof.
  intros Hi. unfold sl_http_parse_with_llhttp, mbind, st_bind. rewrite (line_spec _ s Hi). unfold received.
  destruct (po_max_request_line_length limits <? Z.of_nat (length (first_line input))); [by eapply refused_outcome|].
  destruct (run_spec llhttp_execute nothing_yet s Hi (execute_spans input)) as (errno & s1 & -> & Hf1 & H).
  unfold gets.
  destruct H as [(a & -> & -> & Hi1 & Hk1)|[-> Hst]].
  2: { rewrite (bool_decide_eq_false_2 (HPE_USER = HPE_PAUSED_UPGRADE)), (bool_decide_eq_false_2 (HPE_USER = HPE_OK)) by done.
       cbn [andb negb]. split; [by destruct (pd_code (cx_diag (px_ctx s1)) =? SL_DIAG_NONE), (sl_status_is_ok (cx_callback_status (px_ctx s1)))|].
       destruct Hst as [[-> Hd]|(Hd & Hc & Hr)].
       - destruct (Z.eqb_spec (pd_code (cx_diag (px_ctx s1))) SL_DIAG_NONE); [done|]. by left.
       - destruct (Z.eqb_spec (pd_code (cx_diag (px_ctx s1))) SL_DIAG_NONE); [|done]. cbn [negb].
         destruct (sl_status_is_ok (cx_callback_status (px_ctx s1))) eqn:Eo; [by destruct (cx_callback_status (px_ctx s1))|]. cbn.
         destruct Hr as [->|Hr]; [by left|]. by right. }
  cbn [mbind option_bind]. rewrite find_header_end_spec by apply Hbytes.
  rewrite (proj2 (pi_input _ _ _ _ _ Hi1)), (input_length bytes input limits Hbytes _ _ Hi1), (proj1 (proj2 (pi_flags _ _ _ _ _ Hi1))).
  destruct (bool_decide (snd (llhttp_execute input) = HPE_PAUSED_UPGRADE) && as_headers_complete a && (head_end 0 input =? Z.of_nat (length input))).
  { destruct (event_called bytes input limits Hlim Hbytes a s1 OnMessageComplete Hi1 I) as [Hf2 (a2 & E2 & Hi2 & Hk2)]. injection E2 as <-.
    split; [by eapply forward_trans|]. eexists. split; [reflexivity|]. split; [exact Hi2|by eapply texts_keep_trans]. }
  destruct (bool_decide (snd (llhttp_execute input) = HPE_OK)); cbn [negb].
  2: { destruct (pi_calm _ _ _ _ _ Hi1) as [C1 C2]. rewrite C1, C2. cbn. split; [exact Hf1|by left]. }
  destruct (llhttp_finish_spec a s1 Hi1) as (a2 & s2 & -> & Hf2 & -> & Hi2 & Hk2). cbn [mbind option_bind].
  destruct (pi_flags _ _ _ _ _ Hi2) as (_ & -> & ->).
  pose proof (forward_trans _ _ _ Hf1 Hf2) as Hf. pose proof (texts_keep_trans _ _ _ Hk1 Hk2) as Hk.
  destruct (bool_decide (snd (llhttp_finish input) = HPE_OK)), (as_headers_complete a2), (as_complete a2); cbn [andb orb negb];
    try (split; [exact Hf|by left]). split; [exact Hf|]. by exists a2.
Qed.
End Running.

(** * Starting *)

(** A builder over the arena that holds nothing. *)
Definition empty_builder (max_capacity small : Z) : SlByteBuilder :=
  {| bb_data := 0; bb_length := 0; bb_capacity := 0; bb_max_capacity := max_capacity; bb_grow_count := 0; bb_copied_bytes := 0;
     bb_appended_bytes := 0; bb_failed_reserve_count := 0; bb_arena := REF; bb_storage := SL_BUILDER_STORAGE_ARENA; bb_small := small |}.

Definition zeroed (small : Z) (w : World) : World := set_mem (fill (w_mem w) small (Z.to_nat SL_BYTE_BUILDER_SMALL_CAPACITY) 0) w.

Section Starting.
Context {BC : BuildConfig} {SC : SimdConfig} {RO : ReadOnlyData}.
Context (bytes : SlBytes) (input : list Z) (locals : part -> Z) (options : option SlHttpParseOptions).

Definition context : SlHttpParseContext := sl_http_parse_context_init locals options.

(** Memory apart from the arena's free part and from the inline arrays. *)
Definition theirs (w : World) (q n : Z) : Prop :=
  outside_free (w_arena w) q n /\ forall p, disjoint_ranges q n (locals p) SL_BYTE_BUILDER_SMALL_CAPACITY.

Lemma init_part p mx s :
  0 <= mx -> bb_small (cx_builder (px_ctx s) p) = locals p ->
  in_part p (sl_byte_builder_init_arena REF REF 0 mx) s =
    (Ok tt, set_part_sys p {| bs_world := zeroed (locals p) (px_world s); bs_builder := empty_builder mx (locals p) |} s).
Proof.
  intros Hm <-. unfold in_part, zoom, sl_byte_builder_init_arena. unfold_st. cbn [is_null orb]. destruct (Z.ltb_spec mx 0); [lia|]. done.
Qed.

Lemma init_builders h w :
  limits_ok (cx_limits context) ->
  exists s, sl_http_init_parse_builders {| px_world := w; px_ctx := cx_set_headers_ptr h context |} = (Ok tt, s) /\
    px_world s = zeroed (locals PartBody) (zeroed (locals PartValue) (zeroed (locals PartName) (zeroed (locals PartTarget) w))) /\
    (forall p, cx_builder (px_ctx s) p = empty_builder (part_limit (cx_limits context) p) (locals p)) /\
    (forall p, cx_view (px_ctx s) p = sl_bytes_empty) /\
    (cx_headers_ptr (px_ctx s), cx_limits (px_ctx s), cx_headers (px_ctx s), cx_total_header_bytes (px_ctx s)) = (h, cx_limits context, [], 0) /\
    (cx_saw_header_value (px_ctx s), cx_headers_complete (px_ctx s), cx_request_complete (px_ctx s)) = (false, false, false) /\
    (cx_callback_status (px_ctx s), pd_code (cx_diag (px_ctx s))) = (SL_STATUS_OK, SL_DIAG_NONE).
Proof.
  intros (_ & _ & HL). unfold sl_http_init_parse_builders, mbind, st_bind, gets.
  change (sl_string_builder_init_arena REF REF) with (sl_byte_builder_init_arena REF REF).
  rewrite (init_part PartTarget) by (done || apply (HL PartTarget)). rewrite (init_part PartName) by (done || apply (HL PartName)).
  rewrite (init_part PartValue) by (done || apply (HL PartValue)). rewrite (init_part PartBody) by (done || apply (HL PartBody)).
  eexists. split; [reflexivity|]. split; [done|]. split; [by intros []|]. by split.
Qed.

Lemma zeroed_load p w q n : theirs w q n -> load_bytes (w_mem (zeroed (locals p) w)) q n = load_bytes (w_mem w) q n.
Proof.
  intros [_ H]. specialize (H p). eapply load_bytes_same; [apply fill_same_outside|].
  unfold disjoint_ranges, SL_BYTE_BUILDER_SMALL_CAPACITY in *. lia.
Qed.

Lemma zeroed_theirs p w q n : theirs w q n -> theirs (zeroed (locals p) w) q n.
Proof. done. Qed.

(** The builders of a parse that starts. *)
Lemma started h w :
  arena_wf (w_arena w) -> limits_ok (cx_limits context) -> (0 < po_max_headers (cx_limits context) -> 0 < h) ->
  theirs w (bytes_ptr bytes) (bytes_length bytes) -> bytes_val (w_mem w) bytes = input ->
  exists s, sl_http_init_parse_builders {| px_world := w; px_ctx := cx_set_headers_ptr h context |} = (Ok tt, s) /\
    forward w (px_world s) /\ px_inv bytes input (cx_limits context) nothing_yet s /\
    forall q n, theirs w q n -> safe s q n /\ load_bytes (w_mem (px_world s)) q n = load_bytes (w_mem w) q n.
Proof.
  intros Hw HL Hh Hb Hv. destruct (init_builders h w HL) as (s & E & Ew & Eb & Ev & Ec & Ef & Ed). exists s. split; [exact E|].
  injection Ec as Eh El Ehs Et. injection Ef as F1 F2 F3. injection Ed as D1 D2.
  assert (Hp : forall p, part_sys p s = {| bs_world := px_world s; bs_builder := empty_builder (part_limit (cx_limits context) p) (locals p) |}).
  { intros p. unfold part_sys. by rewrite Eb. }
  assert (Hfr : forall q n, theirs w q n -> safe s q n /\ load_bytes (w_mem (px_world s)) q n = load_bytes (w_mem w) q n).
  { intros q n Hq. split.
    - intros p. rewrite Hp. split; [intros _; cbn [bs_world]; rewrite Ew; apply Hq|unfold disjoint_ranges; cbn; lia].
    - rewrite Ew. by rewrite !zeroed_load by (repeat apply zeroed_theirs; exact Hq). }
  split; [split; rewrite Ew; done|]. split; [|exact Hfr]. destruct (Hfr _ _ Hb) as [Hs Hlo].
  split.
  - split.
    + intros p. rewrite Hp. destruct HL as (_ & _ & HL). specialize (HL p).
      split; try done.
      * cbn [bs_builder empty_builder bb_length bb_capacity bb_max_capacity]. lia.
      * intros _. cbn [bs_world]. by rewrite Ew.
      * intros _. unfold outside_free, disjoint_ranges. cbn. lia.
    + intros p. by rewrite Eb.
    + intros p q _. unfold data_of, capacity_of, foreign, settled, outside_free, disjoint_ranges. rewrite Hp, Eb. cbn. lia.
    + intros p. by rewrite Hp.
  - intros p. by rewrite Ev, Eb.
  - rewrite Ehs. constructor.
  - split; [exact Hs|]. unfold bytes_val in *. by rewrite Hlo.
  - done.
  - rewrite Et. destruct HL as [[HL _] _]. split; [done|]. by split.
  - done.
  - done.
  - by rewrite Eh.
Qed.

(** The array of headers. *)
Lemma prepare_headers_outcome n w :
  arena_wf (w_arena w) -> is_size n ->
  match sl_http_prepare_headers REF n REF w with
  | (Ok h, w') => forward w w' /\ (0 < n -> 0 < h) /\
      forall q k, outside_free (w_arena w) q k -> outside_free (w_arena w') q k /\ load_bytes (w_mem w') q k = load_bytes (w_mem w) q k
  | (Err c, w') => w' = w /\ starved c
  end.
Proof.
  intros Hw Hn. unfold sl_http_prepare_headers. unfold_st. cbn [is_null orb].
  destruct (Z.eqb_spec n 0) as [->|E]; [split; [by apply forward_refl|]; split; [lia|done]|].
  assert (0 < n) by size_lia.
  pose proof (array_alloc_spec n SL_HTTP_HEADER_SIZE SL_HTTP_HEADER_ALIGNMENT w Hw Hn ltac:(by split) ltac:(by split) ltac:(lia) ltac:(done)) as Ha.
  revert Ha. unfold sl_arena_array_alloc, sl_container_storage_size. unfold_st. destruct (Z.eqb_spec n 0); [lia|].
  cbn [is_null orb Z.eqb SL_HTTP_HEADER_SIZE]. unfold sl_checked_array_size. rewrite checked_mul_spec by (done || by split). unfold checked. change SL_HTTP_HEADER_SIZE with 32.
  destruct (Z.leb_spec (n * 32) SIZE_MAX); [|intros _; split; [done|by right]].
  pose proof (alloc_outcome (n * 32) 8 w Hw ltac:(size_lia) ltac:(size_lia) ltac:(lia) eq_refl) as Ho.
  change SL_HTTP_HEADER_ALIGNMENT with 8. destruct (sl_arena_alloc REF (n * 32) 8 REF w) as [[p|c] w1]; [|done].
  intros (_ & _ & _ & HF & _). split; [by apply forward_mem|]. destruct HF as [F1 F2 F3 F4 F5 F6]. split; [done|].
  intros q k Hq. destruct (F6 q k Hq) as (_ & ? & ?). done.
Qed.
End Starting.

(** * Validation *)

(** The literals header names are compared with. *)
Definition framing_literals : list string := ["Host"; "Content-Length"; "Transfer-Encoding"]%string.

Lemma values_cons name f fs :
  values name (f :: fs) = if is_text (map ascii_lower (fst f)) name then snd f :: values name fs else values name fs.
Proof.
  unfold values. rewrite filter_cons. destruct (decide (named name f)) as [E|E]; unfold named in E.
  - by rewrite E.
  - apply not_true_is_false in E. by rewrite E.
Qed.

Lemma values_length name fs : (length (values name fs) <= length fs)%nat.
Proof. unfold values. rewrite length_map. apply length_filter. Qed.

Lemma one_name l n1 n2 : is_text l n1 = true -> string_bytes n1 <> string_bytes n2 -> is_text l n2 = false.
Proof. unfold is_text. rewrite bool_decide_eq_true. intros -> H. by apply bool_decide_eq_false. Qed.

Section Validation.
Context {BC : BuildConfig} {SC : SimdConfig} {RO : ReadOnlyData}.

Lemma name_spec m v l low :
  literals_in m framing_literals -> l ∈ framing_literals -> map ascii_lower (string_bytes l) = string_bytes low -> text_view v ->
  sl_http_header_name_equal m v (literal l) = is_text (map ascii_lower (str_val m v)) low.
Proof.
  intros Hlit Hl Hlow [Hv Hp Hs]. destruct (Hlit l Hl) as [Hr El]. unfold sl_http_header_name_equal. rewrite sl_str_equal_ci_ascii_scalar_eq by done.
  rewrite sl_str_equal_ci_scalar_spec; [|done|split; cbn; unfold string_size; lia]. by rewrite El, Hlow.
Qed.

Lemma trim_ows_spec m v : text_view v -> text_view (sl_http_trim_ows m v) /\ str_val m (sl_http_trim_ows m v) = trim (str_val m v).
Proof.
  intros Hv. pose proof (trim_spec m v Hv) as Ht. revert Ht. destruct Hv as [[Hl Hv] Hp Hs].
  unfold sl_http_trim_ows, sl_http_backend_trim_ascii_space. destruct (Z.eqb_spec (str_ptr v) 0) as [E|E]; [|done].
  intros Ht. replace (str_length v) with 0 in * by lia. exact Ht.
Qed.

(** What the loop over the headers has found. *)
Record found (m : mem) (fs : list (list Z * list Z)) (f g : framing) : Prop := {
  fd_host : fr_host_count g = fr_host_count f + Z.of_nat (length (values "host" fs));
  fd_length : fr_length_count g = fr_length_count f + Z.of_nat (length (values "content-length" fs));
  fd_encoding : fr_encoding_count g = fr_encoding_count f + Z.of_nat (length (values "transfer-encoding" fs));
  fd_value : text_view (fr_host_value g) /\ str_val m (fr_host_value g) = List.last (values "host" fs) (str_val m (fr_host_value f));
}.

Definition counted (n : Z) (f : framing) : Prop :=
  0 <= fr_host_count f <= n /\ 0 <= fr_length_count f <= n /\ 0 <= fr_encoding_count f <= n.

Lemma count_found s f h g n :
  literals_in (w_mem (px_world s)) framing_literals -> header_in s f h -> text_view (fr_host_value g) -> counted n g -> n < SIZE_MAX ->
  found (w_mem (px_world s)) [f] g (count_framing (w_mem (px_world s)) h g) /\ counted (n + 1) (count_framing (w_mem (px_world s)) h g).
Proof.
  intros Hlit ([En Ev] & _ & Tn & Tv) Hg Hc Hn. unfold count_framing.
  rewrite (name_spec _ _ "Host" "host"), (name_spec _ _ "Content-Length" "content-length"), (name_spec _ _ "Transfer-Encoding" "transfer-encoding")
    by (done || listed || reflexivity).
  rewrite En. unfold counted in *.
  assert (Hw : forall z, 0 <= z <= n -> wrap64 (z + 1) = z + 1) by (intros z Hz; apply wrap64_small; size_lia).
  destruct (is_text (map ascii_lower (fst f)) "host") eqn:E1;
    [|destruct (is_text (map ascii_lower (fst f)) "content-length") eqn:E2;
      [|destruct (is_text (map ascii_lower (fst f)) "transfer-encoding") eqn:E3]].
  - pose proof (one_name _ _ "content-length" E1 ltac:(done)) as E2. pose proof (one_name _ _ "transfer-encoding" E1 ltac:(done)) as E3.
    cbn [fr_host_count fr_length_count fr_encoding_count]. rewrite Hw by lia. split; [|lia].
    split; rewrite !values_cons, ?E1, ?E2, ?E3; cbn; lia || done.
  - pose proof (one_name _ _ "transfer-encoding" E2 ltac:(done)) as E3.
    cbn [fr_host_count fr_length_count fr_encoding_count]. rewrite Hw by lia. split; [|lia].
    split; rewrite !values_cons, ?E1, ?E2, ?E3; cbn; lia || done.
  - cbn [fr_host_count fr_length_count fr_encoding_count]. rewrite Hw by lia. split; [|lia].
    split; rewrite !values_cons, ?E1, ?E2, ?E3; cbn; lia || done.
  - split; [|lia]. split; rewrite !values_cons, ?E1, ?E2, ?E3; cbn; lia || done.
Qed.

Lemma values_app name fs gs : values name (fs ++ gs) = values name fs ++ values name gs.
Proof. unfold values. by rewrite filter_app, map_app. Qed.

Lemma last_app (l1 l2 : list (list Z)) d : List.last (l1 ++ l2) d = List.last l2 (List.last l1 d).
Proof.
  induction l2 as [|x l2 IH] using rev_ind; [by rewrite app_nil_r|]. by rewrite app_assoc, !last_last.
Qed.

Lemma found_trans m fs gs f g h : found m fs f g -> found m gs g h -> found m (fs ++ gs) f h.
Proof.
  intros [A1 A2 A3 [A4 A5]] [B1 B2 B3 [B4 B5]]. split; rewrite ?values_app, ?length_app; [lia..|].
  split; [done|]. by rewrite B5, A5, last_app.
Qed.

Lemma framing_spec s fs hs g n :
  literals_in (w_mem (px_world s)) framing_literals -> Forall2 (header_in s) fs hs -> text_view (fr_host_value g) ->
  counted n g -> n + Z.of_nat (length hs) <= SIZE_MAX ->
  found (w_mem (px_world s)) fs g (fold_left (fun f header => count_framing (w_mem (px_world s)) header f) hs g).
Proof.
  intros Hlit H. revert g n. induction H as [|f h fs hs Hh H IH]; intros g n Hg Hc Hn; cbn [fold_left].
  { split; cbn; try lia. done. }
  cbn [length] in Hn. destruct (count_found s f h g n Hlit Hh Hg Hc ltac:(lia)) as [H1 H2].
  apply (found_trans _ [f] fs _ _ _ H1). apply (IH _ (n + 1)); [apply H1|done|lia].
Qed.

Context {LL : Llhttp} (bytes : SlBytes) (input : list Z) (limits : SlHttpParseOptions).
Hypothesis Hlim : limits_ok limits.

Lemma singleton_spec a s minor :
  px_inv bytes input limits a s -> literals_in (w_mem (px_world s)) framing_literals ->
  Z.of_nat (length (as_headers a)) <= po_max_headers limits ->
  match sl_http_validate_singleton_headers 1 minor s with
  | (Ok _, s') => host_ok minor (as_headers a) && framing_ok (as_headers a) = true /\ s' = s
  | (Err _, s') => host_ok minor (as_headers a) && framing_ok (as_headers a) = false /\ px_world s' = px_world s
  end.
Proof.
  intros Hi Hlit Hn. pose proof (pi_headers _ _ _ _ _ Hi) as Hh. pose proof (Forall2_length _ _ _ Hh) as Hlen.
  destruct Hlim as (_ & [_ HL] & _). unfold sl_http_validate_singleton_headers. unfold_st.
  replace (negb (cx_header_count (px_ctx s) =? 0) && (cx_headers_ptr (px_ctx s) =? 0)) with false.
  2: { pose proof (pi_array _ _ _ _ _ Hi) as Ha. unfold cx_header_count. destruct (Z.eqb_spec (Z.of_nat (length (cx_headers (px_ctx s)))) 0); [done|].
       destruct (Z.eqb_spec (cx_headers_ptr (px_ctx s)) 0); [|done]. lia. }
  destruct (framing_spec s _ _ no_framing 0 Hlit Hh) as [F1 F2 F3 [F4 F5]].
  { split; [split; cbn; lia|cbn; lia|split; vm_compute; discriminate]. }
  { unfold counted, no_framing. cbn. lia. }
  { lia. }
  set (g := fold_left _ (cx_headers (px_ctx s)) no_framing) in *.
  destruct (trim_ows_spec (w_mem (px_world s)) _ F4) as [T1 T2]. rewrite (view_empty (w_mem (px_world s)) _ T1), T2, F5.
  change (1 =? 1) with true. cbn [andb]. unfold host_ok, framing_ok. rewrite F1, F2, F3. unfold no_framing. cbn [fr_host_count fr_length_count fr_encoding_count].
  generalize (length (values "content-length" (as_headers a))), (length (values "transfer-encoding" (as_headers a))). intros cl te.
  match goal with |- context [if 1 <? 0 + Z.of_nat cl then ?e else ?k] => set (tail := if 1 <? 0 + Z.of_nat cl then e else k) end.
  assert (Htail : match tail s with
                  | (Ok _, s') => (cl + te <=? 1)%nat = true /\ s' = s
                  | (Err _, s') => (cl + te <=? 1)%nat = false /\ px_world s' = px_world s
                  end).
  { unfold tail. destruct (Nat.leb_spec (cl + te) 1), (Z.ltb_spec 1 (0 + Z.of_nat cl)), (Z.ltb_spec 1 (0 + Z.of_nat te)),
      (Z.eqb_spec (0 + Z.of_nat cl) 0), (Z.eqb_spec (0 + Z.of_nat te) 0); cbn [negb andb]; lia || done. }
  clearbody tail. destruct (values "host" (as_headers a)) as [|v1 [|v2 vs]]; cbn [length List.last].
  - destruct (minor =? 1); [done|exact Htail].
  - rewrite orb_false_l. destruct (minor =? 1), (bool_decide (trim v1 = [])); try done; exact Htail.
  - replace (0 + Z.of_nat (S (S (length vs))) =? 1) with false by (symmetry; apply Z.eqb_neq; lia).
    destruct (Z.ltb_spec 1 (0 + Z.of_nat (S (S (length vs))))); [|lia]. by destruct (minor =? 1).
Qed.

Lemma target_head a s :
  px_inv bytes input limits a s ->
  (cx_length PartTarget (px_ctx s) =? 0) = bool_decide (as_text a PartTarget = []) /\
  bool_decide (head (as_text a PartTarget) = Some 47) =
    negb (bool_decide (as_text a PartTarget = [])) && (ld8 (w_mem (px_world s)) (bytes_ptr (cx_view (px_ctx s) PartTarget)) =? 47).
Proof.
  intros Hi. destruct (part_view bytes input limits Hlim PartTarget a s Hi) as (Tv & <- & _). split.
  - exact (view_empty (w_mem (px_world s)) _ Tv).
  - by apply head_val.
Qed.

Lemma validate_spec a s method major minor :
  px_inv bytes input limits a s -> literals_in (w_mem (px_world s)) framing_literals ->
  Z.of_nat (length (as_headers a)) <= po_max_headers limits ->
  let ok := (major =? 1) && (minor <=? 1) && bool_decide (head (as_text a PartTarget) = Some 47) &&
            host_ok minor (as_headers a) && framing_ok (as_headers a) &&
            negb (bool_decide (sl_http_method_from_llhttp method = SL_HTTP_METHOD_UNKNOWN)) in
  match sl_http_validate_parsed_request method major minor s with
  | (Ok got, s') => ok = true /\ s' = s /\ got = sl_http_method_from_llhttp method
  | (Err _, s') => ok = false /\ px_world s' = px_world s
  end.
Proof.
  intros Hi Hlit Hn ok. destruct (target_head a s Hi) as [E1 E2]. unfold sl_http_validate_parsed_request, mbind, st_bind, gets.
  rewrite E1. unfold ok. rewrite E2. destruct (Z.eqb_spec major 1) as [->|]; [|done]. cbn [negb orb andb].
  rewrite Z.leb_antisym. destruct (1 <? minor); [done|]. cbn [negb andb]. destruct (bool_decide (as_text a PartTarget = [])); [done|].
  destruct (ld8 (w_mem (px_world s)) (bytes_ptr (cx_view (px_ctx s) PartTarget)) =? 47); [|done]. cbn [negb andb].
  pose proof (singleton_spec a s minor Hi Hlit Hn) as Hs. destruct (sl_http_validate_singleton_headers 1 minor s) as [[[]|c] s'].
  - destruct Hs as [-> ->]. by destruct (bool_decide (sl_http_method_from_llhttp method = SL_HTTP_METHOD_UNKNOWN)).
  - destruct Hs as [-> ->]. done.
Qed.

(** The path of a target. *)
Lemma extract_path_spec m v : str_valid v -> str_val m (sl_http_extract_path m v) = before_query (str_val m v).
Proof.
  intros [Hl _]. unfold sl_http_extract_path. cbv zeta. destruct (until_query_spec m (str_ptr v) (Z.to_nat (str_length v))) as [Hu Eu].
  set (k := until_query m (str_ptr v) (Z.to_nat (str_length v))) in *. unfold str_val, load_bytes.
  destruct (Nat.ltb_spec k (Z.to_nat (str_length v))); cbn [str_ptr str_length sl_str_from_parts].
  - by rewrite Nat2Z.id.
  - rewrite <- Eu. by replace k with (Z.to_nat (str_length v)) by lia.
Qed.
End Validation.

(** * Limits *)

Definition header_size (h : list Z * list Z) : Z := Z.of_nat (length (fst h)) + Z.of_nat (length (snd h)).
Definition headers_size (hs : list (list Z * list Z)) : Z := fold_right (fun h n => header_size h + n) 0 hs.

Record header_fits (limits : SlHttpParseOptions) (h : list Z * list Z) : Prop := {
  hf_name : 0 < Z.of_nat (length (fst h)) <= po_max_header_name_length limits;
  hf_value : Z.of_nat (length (snd h)) <= po_max_header_value_length limits;
}.

(** What has been assembled is within the limits, and every byte of it is counted. *)
Record within (limits : SlHttpParseOptions) (a : assembled) : Prop := {
  wi_text : forall p, text_length p a <= part_limit limits p;
  wi_count : Z.of_nat (length (as_headers a)) <= po_max_headers limits;
  wi_headers : Forall (header_fits limits) (as_headers a);
  wi_total : as_total a = headers_size (as_headers a) + text_length PartName a + text_length PartValue a /\
             as_total a <= po_max_total_header_bytes limits;
}.

Lemma headers_size_app hs gs : headers_size (hs ++ gs) = headers_size hs + headers_size gs.
Proof. induction hs as [|h hs IH]; cbn; [done|]. unfold headers_size in *. lia. Qed.

Section Within.
Context (limits : SlHttpParseOptions) (input : list Z).
Hypothesis Hlim : limits_ok limits.

Lemma grow_within p bs a a' n :
  (forall q, text_length q a <= part_limit limits q) -> grow_text limits p bs a = Some a' ->
  Z.of_nat (length (as_headers a)) <= po_max_headers limits -> Forall (header_fits limits) (as_headers a) ->
  n = Z.of_nat (length bs) ->
  as_total a = headers_size (as_headers a) + text_length PartName a + text_length PartValue a +
    (match p with PartName | PartValue => n | _ => 0 end) -> as_total a <= po_max_total_header_bytes limits ->
  within limits a'.
Proof.
  intros Ht Hg Hc Hh -> Htot Hm. unfold grow_text in Hg. destruct (Z.ltb_spec (part_limit limits p) (text_length p a + Z.of_nat (length bs))); [done|].
  injection Hg as <-.
  assert (Hl : forall q, text_length q {| as_text := set_part p (as_text a p ++ bs) (as_text a); as_headers := as_headers a; as_total := as_total a;
      as_saw := as_saw a; as_headers_complete := as_headers_complete a; as_complete := as_complete a |} =
      text_length q a + if decide (q = p) then Z.of_nat (length bs) else 0).
  { intros q. unfold text_length, set_part. cbn. case_decide; [subst; rewrite length_app; lia|lia]. }
  split; try done.
  - intros q. rewrite Hl. specialize (Ht q). case_decide; [by subst|lia].
  - rewrite !Hl. cbn [as_total as_headers]. split; [|done]. destruct p; repeat case_decide; done || lia.
Qed.

Lemma finish_within a a' : within limits a -> finish_header limits a = Some a' -> within limits a' /\ as_total a' = as_total a.
Proof.
  intros Hw. unfold finish_header. destruct (_ && _); [intros [= <-]; done|].
  destruct (Z.eqb_spec (text_length PartName a) 0) as [E|E]; [done|]. destruct (negb (as_saw a)); [done|]. cbn [orb].
  destruct (Z.leb_spec (po_max_headers limits) (Z.of_nat (length (as_headers a)))); [done|]. intros [= <-]. split; [|done].
  destruct Hw as [W1 W2 W3 [W4 W5]]. destruct Hlim as (_ & _ & HL).
  split.
  - intros p. specialize (HL p). specialize (W1 p). unfold text_length, set_part in *. cbn. repeat case_decide; cbn; lia.
  - cbn. rewrite length_app. cbn. lia.
  - cbn. apply Forall_app. split; [done|]. constructor; [|done]. pose proof (W1 PartName). pose proof (W1 PartValue). unfold text_length in *. cbn in *.
    split; cbn; lia.
  - cbn [as_headers as_total]. rewrite headers_size_app. split; [|done]. unfold text_length, headers_size, header_size, set_part in *. cbn in *. repeat case_decide; done || (cbn [length]; lia).
Qed.

Lemma count_within len a a' : count_bytes limits len a = Some a' ->
  as_total a' = as_total a + len /\ as_total a' <= po_max_total_header_bytes limits /\ as_text a' = as_text a /\ as_headers a' = as_headers a.
Proof.
  unfold count_bytes. destruct (Z.ltb_spec (po_max_total_header_bytes limits) (as_total a + len)); [done|]. by intros [= <-].
Qed.

Lemma event_within e a a' :
  within limits a -> span_in input e -> assemble_event limits input e a = Some a' -> within limits a'.
Proof.
  intros Hw Hsp. pose proof Hw as [W1 W2 W3 [W4 W5]].
  assert (Hs : forall at_ len, 0 <= at_ /\ 0 <= len /\ at_ + len <= Z.of_nat (length input) -> Z.of_nat (length (span input at_ len)) = len).
  { intros at_ len ?. unfold span. rewrite length_take, length_drop. lia. }
  destruct e as [at_ len|at_ len|at_ len| |at_ len|]; cbn [assemble_event span_in] in *; specialize (Hs) || idtac.
  - intros H. apply (grow_within PartTarget _ _ _ len W1 H); try done; [by rewrite Hs|lia].
  - intros H. apply bind_Some in H as (a1 & E1 & H). apply bind_Some in H as (a2 & E2 & H).
    assert (H1 : within limits a1) by (destruct (as_saw a); [by eapply finish_within|congruence]).
    destruct H1 as [V1 V2 V3 [V4 V5]]. apply count_within in E2 as (C1 & C2 & C3 & C4).
    apply (grow_within PartName _ _ _ len) in H; [exact H|unfold text_length; rewrite C3; exact V1|by rewrite C4..| | |done].
    + by rewrite Hs.
    + rewrite C1, C4, V4. unfold text_length. rewrite C3. lia.
  - intros H. apply bind_Some in H as (a2 & E2 & H). apply count_within in E2 as (C1 & C2 & C3 & C4). cbn in C1, C3, C4.
    apply (grow_within PartValue _ _ _ len) in H; [exact H|unfold text_length; rewrite C3; exact W1|by rewrite C4..| | |done].
    + by rewrite Hs.
    + rewrite C1, C4, W4. unfold text_length. rewrite C3. lia.
  - intros H. apply fmap_Some in H as (a1 & E1 & ->). apply finish_within in E1 as [[V1 V2 V3 V4] _]; [|done]. by split.
  - intros H. apply (grow_within PartBody _ _ _ len W1 H); try done; [by rewrite Hs|lia].
  - intros [= <-]. by split.
Qed.

Lemma assemble_within es a a' : within limits a -> Forall (span_in input) es -> assemble limits input es a = Some a' -> within limits a'.
Proof.
  intros Hw Hes. revert a Hw. induction Hes as [|e es He Hes IH]; intros a Hw; cbn [assemble]; [by intros [= <-]|].
  intros H. apply bind_Some in H as (a1 & E1 & H). eapply IH; [|exact H]. by eapply event_within.
Qed.

Lemma nothing_within : within limits nothing_yet.
Proof.
  destruct Hlim as (H1 & H2 & H3). unfold is_size in *. split; [|cbn; lia|done|split; [done|cbn [as_total nothing_yet]; lia]]. intros p. specialize (H3 p). change (text_length p nothing_yet) with 0. lia.
Qed.

Lemma received_within {LL : Llhttp} {LW : LlhttpLaws} a : received limits input = Some a -> within limits a.
Proof.
  unfold received. destruct (_ <? _); [done|]. intros H. apply bind_Some in H as (a1 & E1 & H).
  apply assemble_within in E1; [|apply nothing_within|apply execute_spans]. revert H.
  destruct (_ && _); [intros [= <-]; destruct E1; by split|]. destruct (negb _); [done|].
  intros H. apply bind_Some in H as (a2 & E2 & H). apply assemble_within in E2; [|done|apply completing_spans, finish_completes].
  revert H. destruct (_ && _); [|done]. by intros [= <-].
Qed.
End Within.
