(* ===== verification/HttpEntry.v ===== *)
(** The entry point of the HTTP/1 parser (src/core/http.c): what it answers, and that what
    it answers is well formed. *)

From stdpp Require Import strings gmap.
From Stdlib Require Import Strings.Ascii.
From S2P Require Import Prelude Memory Status Arena Str Bytes Simd StrArena Container Sink Builder Diag HttpResponse HttpBackend HttpBody HttpMedia Http2Map Http2Request Http2Build HttpParse HttpAssemble HttpHead.

Open Scope Z_scope.

(** The bytes a request head stands for. *)
Definition header_text (m : mem) (h : SlHttpHeader) : list Z * list Z := (str_val m (hh_name h), str_val m (hh_value h)).

Definition head_request (m : mem) (head : SlHttpRequestHead) : http_request :=
  {| hr_method := hd_method head; hr_major := hd_version_major head; hr_minor := hd_version_minor head;
     hr_target := str_val m (hd_raw_target head); hr_headers := map (header_text m) (hd_headers head);
     hr_body := bytes_val m (hd_body head) |}.

(** A request within the limits, with one Host header in HTTP/1.1, at most one header that
    frames its body, and a target that is a path. *)
Record well_formed (limits : SlHttpParseOptions) (r : http_request) : Prop := {
  wf_version : hr_major r = 1 /\ hr_minor r <= 1;
  wf_method : hr_method r <> SL_HTTP_METHOD_UNKNOWN;
  wf_target : head (hr_target r) = Some 47 /\ Z.of_nat (length (hr_target r)) <= po_max_target_length limits;
  wf_count : Z.of_nat (length (hr_headers r)) <= po_max_headers limits;
  wf_headers : Forall (header_fits limits) (hr_headers r);
  wf_bytes : headers_size (hr_headers r) <= po_max_total_header_bytes limits;
  wf_body : Z.of_nat (length (hr_body r)) <= po_max_body_length limits;
  wf_host : (exists value, values "host" (hr_headers r) = [value] /\ trim value <> []) \/
            values "host" (hr_headers r) = [] /\ hr_minor r <> 1;
  wf_framing : (length (values "content-length" (hr_headers r)) + length (values "transfer-encoding" (hr_headers r)) <= 1)%nat;
}.

Definition limits_of (options : option SlHttpParseOptions) : SlHttpParseOptions :=
  match options with Some o => effective_parse o | None => default_parse end.

Section Entry.
Context {BC : BuildConfig} {SC : SimdConfig} {RO : ReadOnlyData} {LL : Llhttp}.

(** What a caller of the parser provides. *)
Record parse_ready (locals : part -> Z) (bytes : SlBytes) (options : option SlHttpParseOptions) (w : World) : Prop := {
  rd_arena : arena_wf (w_arena w);
  rd_limits : limits_ok (limits_of options);
  rd_bytes : bytes_valid bytes /\ bytes_wf bytes;
  rd_input : theirs locals w (bytes_ptr bytes) (bytes_length bytes);
  rd_literals : literals_in (w_mem w) framing_literals;
  rd_rodata : forall l, l ∈ framing_literals -> theirs locals w (rodata l) (string_size l);
}.

Lemma accepted_well_formed {LW : LlhttpLaws} limits input r : limits_ok limits -> read_request limits input = Some r -> well_formed limits r.
Proof.
  intros Hl H. apply bind_Some in H as (a & Ea & H). pose proof (received_within limits input Hl a Ea) as [W1 W2 W3 [W4 W5]].
  revert H. destruct (accepts input a) eqn:E; [|done]. intros [= <-]. unfold accepts in E. rewrite !andb_true_iff in E.
  destruct E as (((((E1 & E2) & E3) & E4) & E5) & E6). apply bool_decide_eq_true in E3. apply negb_true_iff, bool_decide_eq_false in E6.
  pose proof (W1 PartTarget). pose proof (W1 PartBody). pose proof (W1 PartName). pose proof (W1 PartValue).
  split; cbn [hr_method hr_major hr_minor hr_target hr_headers hr_body]; try done.
  - lia.
  - unfold text_length in *. lia.
  - unfold host_ok in E4. destruct (values "host" (as_headers a)) as [|v [|v' vs]]; [right|left|done].
    + split; [done|lia].
    + exists v. split; [done|]. by apply negb_true_iff, bool_decide_eq_false in E4.
  - unfold framing_ok in E5. by apply Nat.leb_le in E5.
Qed.

Lemma headers_text s fs hs : Forall2 (header_in s) fs hs -> map (header_text (w_mem (px_world s))) hs = fs.
Proof. induction 1 as [|f h fs hs ([E1 E2] & _) H IH]; [done|]. cbn. unfold header_text at 1. rewrite E1, E2, IH. by destruct f. Qed.

Lemma literals_persist s w ls :
  literals_in (w_mem w) ls -> (forall l, l ∈ ls -> load_bytes (w_mem (px_world s)) (rodata l) (string_size l) = load_bytes (w_mem w) (rodata l) (string_size l)) ->
  literals_in (w_mem (px_world s)) ls.
Proof. intros Hl Hk l Hin. destruct (Hl l Hin) as [H1 H2]. split; [done|]. rewrite <- H2. unfold str_val. by apply Hk. Qed.

(** The steps of the entry point. *)
Lemma parse_steps_spec {LW : LlhttpLaws} locals bytes options w :
  parse_ready locals bytes options w ->
  let input := bytes_val (w_mem w) bytes in
  match parse_steps bytes {| px_world := w; px_ctx := sl_http_parse_context_init locals options |} with
  | (Ok head, s') =>
      read_request (limits_of options) input = Some (head_request (w_mem (px_world s')) head) /\
      str_val (w_mem (px_world s')) (hd_path head) = before_query (str_val (w_mem (px_world s')) (hd_raw_target head)) /\
      forward w (px_world s') /\
      forall q n, theirs locals w q n -> load_bytes (w_mem (px_world s')) q n = load_bytes (w_mem w) q n
  | (Err c, s') =>
      forward w (px_world s') /\
      (read_request (limits_of options) input = None \/ starved c /\ pd_code (cx_diag (px_ctx s')) = SL_DIAG_NONE)
  end.
Proof.
  intros [Ha HL Hb Hin Hlit Hro] input. change (limits_of options) with (cx_limits (context locals options)) in *.
  unfold parse_steps, in_px_world, zoom, mbind, st_bind, gets, modify. cbn [px_world px_ctx].
  pose proof (prepare_headers_outcome (po_max_headers (cx_limits (context locals options))) w Ha (proj1 (proj2 HL))) as Hp.
  change (sl_http_parse_context_init locals options) with (context locals options).
  destruct (sl_http_prepare_headers REF (po_max_headers (cx_limits (context locals options))) REF w) as [[h|c] w1].
  2: { destruct Hp as [-> Hs]. split; [by apply forward_refl|]. right. by split. }
  destruct Hp as (Hf1 & Hh & Hk1). unfold set_px_world, upd_ctx. cbn [px_world px_ctx].
  assert (Hth : forall q n, theirs locals w q n -> theirs locals w1 q n) by (intros q n [H1 H2]; split; [by apply Hk1|done]).
  assert (Hv1 : bytes_val (w_mem w1) bytes = input) by (apply Hk1, Hin).
  destruct (started bytes input locals options h w1 (fw_wf _ _ Hf1) HL Hh (Hth _ _ Hin) Hv1) as (s2 & -> & Hf2 & Hi2 & Hk2).
  pose proof (with_llhttp_spec bytes input (cx_limits (context locals options)) HL Hb s2 Hi2) as [Hf3 H3].
  pose proof (forward_trans _ _ _ Hf1 (forward_trans _ _ _ Hf2 Hf3)) as Hf.
  destruct (sl_http_parse_with_llhttp bytes s2) as [[[]|c] s3]; cbn [snd] in *.
  2: { split; [done|]. unfold read_request. destruct H3 as [-> |H3]; [by left|by right]. }
  destruct H3 as (a & Er & Hi3 & Hk3).
  assert (Hk : forall q n, theirs locals w q n -> load_bytes (w_mem (px_world s3)) q n = load_bytes (w_mem w) q n).
  { intros q n Hq. destruct (Hk2 q n (Hth _ _ Hq)) as [Hs2 L2]. destruct (Hk3 q n Hs2) as [_ L3]. destruct (Hk1 q n (proj1 Hq)) as [_ L1]. congruence. }
  assert (Hl3 : literals_in (w_mem (px_world s3)) framing_literals).
  { eapply literals_persist; [exact Hlit|]. intros l Hl. by apply Hk, Hro. }
  rewrite (proj2 (pi_input _ _ _ _ _ Hi3)). pose proof (received_within _ _ HL a Er) as Hw.
  pose proof (validate_spec bytes input _ HL a s3 (llhttp_get_method input) (llhttp_get_http_major input) (llhttp_get_http_minor input) Hi3 Hl3 (wi_count _ _ Hw)) as Hval.
  unfold read_request. rewrite Er. cbn [mbind option_bind]. unfold accepts. cbv zeta in Hval.
  destruct (sl_http_validate_parsed_request _ _ _ s3) as [[method|c] s4].
  2: { destruct Hval as [-> Ew]. rewrite Ew. split; [exact Hf|]. by left. }
  destruct Hval as (-> & -> & ->). destruct (part_view bytes input _ HL PartTarget a s3 Hi3) as (Tv & Et & _).
  destruct (part_view bytes input _ HL PartBody a s3 Hi3) as (_ & Eb & _). cbn [hd_path hd_raw_target].
  split; [|split; [by apply extract_path_spec, Tv|by split]].
  unfold head_request. cbn [hd_method hd_version_major hd_version_minor hd_raw_target hd_headers hd_body]. rewrite Et.
  rewrite (headers_text _ _ _ (pi_headers _ _ _ _ _ Hi3)). f_equal. f_equal. symmetry. exact Eb.
Qed.

(** The way out of a failure: the arena is back where it was, unless a diagnostic is left in it. *)
Lemma failure_spec w c status out_diag diag w1 :
  forward w w1 ->
  match parse_failure (sl_arena_mark REF w) c status out_diag diag w1 with
  | (Ok _, _) => False
  | (Err e, s) =>
      hx_head s = zero_head /\ (pd_code (cx_diag c) = SL_DIAG_NONE -> e = status) /\
      (out_diag = NULL \/ pd_code (cx_diag c) = SL_DIAG_NONE ->
       ar_offset (w_arena (hx_world s)) = ar_offset (w_arena w) /\ ar_generation (w_arena (hx_world s)) = ar_generation (w_arena w))
  end.
Proof.
  intros [Hw (_ & _ & Hg) Ho]. unfold parse_failure.
  destruct (sl_arena_reset_to REF (sl_arena_mark REF w) w1) as [[[]|e] w2] eqn:E; unfold sl_arena_reset_to in E; revert E; unfold_st; cbn [is_null sl_arena_mark mark_offset mark_generation];
    rewrite <- Hg, Z.eqb_refl; cbn [negb]; unfold arena_wf in Hw;
    (destruct (Z.ltb_spec (ar_offset (w_arena w1)) (ar_offset (w_arena w))); [lia|]);
    (destruct (Z.ltb_spec (ar_capacity (w_arena w1)) (ar_offset (w_arena w))); [lia|]); [|done].
  intros [= <-]. destruct (Z.eqb_spec (pd_code (cx_diag c)) SL_DIAG_NONE) as [Ed|Ed]; [by rewrite Hg|].
  destruct out_diag.
  - split; [done|]. split; [done|]. by rewrite Hg.
  - match goal with |- context [sl_http_build_diag REF _ REF ?w2] => destruct (sl_http_build_diag REF (cx_diag c) REF w2) as [[d|e] w3] end;
      (split; [done|]; split; [done|]; by intros [?|?]).
Qed.

(** C24: the parser refines the reference.  With the arena, the input and the read-only data
    apart, a call that succeeds answers with the request [read_request] reads off llhttp's
    callbacks: method, version, target, headers and body, byte for byte, with the path the
    target up to its query; no memory of the caller changes.  A call that fails
    leaves a zeroed head, and fails only on input the reference refuses or because the
    arena has no room; without a diagnostic to build the arena is back where it was. *)
Theorem http_parse_refines {LW : LlhttpLaws} locals bytes options out_diag s :
  parse_ready locals bytes options (hx_world s) ->
  let input := bytes_val (w_mem (hx_world s)) bytes in
  match sl_http_parse_request_head locals REF bytes options REF out_diag s with
  | (Ok _, s') =>
      read_request (limits_of options) input = Some (head_request (w_mem (hx_world s')) (hx_head s')) /\
      str_val (w_mem (hx_world s')) (hd_path (hx_head s')) = before_query (str_val (w_mem (hx_world s')) (hd_raw_target (hx_head s'))) /\
      forall q n, theirs locals (hx_world s) q n -> load_bytes (w_mem (hx_world s')) q n = load_bytes (w_mem (hx_world s)) q n
  | (Err c, s') =>
      hx_head s' = zero_head /\
      (read_request (limits_of options) input = None \/ starved c) /\
      (out_diag = NULL \/ read_request (limits_of options) input <> None ->
       ar_offset (w_arena (hx_world s')) = ar_offset (w_arena (hx_world s)))
  end.
Proof.
  intros Hr input. pose proof (parse_steps_spec locals bytes options (hx_world s) Hr) as Hp. unfold sl_http_parse_request_head. cbn [is_null orb].
  replace ((bytes_ptr bytes =? 0) && negb (bytes_length bytes =? 0)) with false.
  2: { destruct (rd_bytes _ _ _ _ Hr) as [[Hl Hv] _]. destruct (Z.eqb_spec (bytes_ptr bytes) 0), (Z.eqb_spec (bytes_length bytes) 0); [done|lia|done|done]. }
  destruct (parse_steps bytes _) as [[head|c] s1].
  - destruct Hp as (H1 & H2 & _ & H3). done.
  - destruct Hp as [Hf Hc].
    pose proof (failure_spec (hx_world s) (px_ctx s1) c out_diag (if is_null out_diag then hx_diag s else zero_diag) (px_world s1) Hf) as Hx.
    destruct (parse_failure _ _ _ _ _ _) as [[[]|e] s2]; [done|]. destruct Hx as (E1 & E2 & E3). split; [done|].
    destruct Hc as [Hc|[Hc Hd]].
    + split; [by left|]. intros [->|?]; [by apply E3; left|done].
    + split; [right; by rewrite E2|]. intros _. apply E3. by right.
Qed.

(** C25: whatever llhttp accepts, a request head the parser hands out is well formed: version
    1.0 or 1.1, a supported method, a target that starts with a slash, headers with names,
    header count, names, values, total header bytes, target and body within the effective
    limits, exactly one non-blank Host header in HTTP/1.1 (at most one in 1.0), and never two
    headers that frame the body. *)
Theorem parsed_head_well_formed {LW : LlhttpLaws} locals bytes options out_diag s :
  parse_ready locals bytes options (hx_world s) ->
  match sl_http_parse_request_head locals REF bytes options REF out_diag s with
  | (Ok _, s') => well_formed (limits_of options) (head_request (w_mem (hx_world s')) (hx_head s'))
  | (Err _, s') => hx_head s' = zero_head
  end.
Proof.
  intros Hr. pose proof (parse_steps_spec locals bytes options (hx_world s) Hr) as Hp. unfold sl_http_parse_request_head. cbn [is_null orb].
  split_if; [done|]. destruct (parse_steps bytes _) as [[head|c] s1].
  - destruct Hp as (H1 & _). eapply accepted_well_formed; [apply Hr|exact H1].
  - destruct Hp as [Hf _].
    pose proof (failure_spec (hx_world s) (px_ctx s1) c out_diag (if is_null out_diag then hx_diag s else zero_diag) (px_world s1) Hf) as Hx.
    destruct (parse_failure _ _ _ _ _ _) as [[[]|e] s2]; [done|]. by destruct Hx.
Qed.
End Entry.

Module Demo.
#[export] Instance build0 : BuildConfig := assert_build.
#[export] Instance simd0 : SimdConfig := {| SL_STRING_SIMD := SCALAR; SL_BYTES_SIMD := SCALAR |}.

Definition crlf : list Z := [13; 10].
Definition input0 : list Z :=
  string_bytes "POST /a?b=1 HTTP/1.1" ++ crlf ++ string_bytes "Host: x" ++ crlf ++ string_bytes "Content-Length: 2" ++ crlf ++ crlf ++ string_bytes "hi".

(** A parser that knows one request and is given the first header name in two pieces. *)
Definition events0 : list llhttp_event :=
  [OnUrl 5 6; OnHeaderField 22 2; OnHeaderField 24 2; OnHeaderValue 28 1; OnHeaderField 31 14; OnHeaderValue 47 1; OnHeadersComplete;
   OnBody 52 2; OnMessageComplete].
#[export] Instance llhttp0 : Llhttp := {|
  llhttp_execute input := if bool_decide (input = input0) then (events0, HPE_OK) else ([], HPE_INVALID);
  llhttp_finish _ := ([], HPE_OK);
  llhttp_get_method _ := HTTP_POST;
  llhttp_get_http_major _ := 1;
  llhttp_get_http_minor _ := 1;
|}.

#[export] Instance laws0 : LlhttpLaws.
Proof.
  split.
  - intros input. cbn [llhttp_execute llhttp0]. case_bool_decide as E; [subst input|constructor].
    repeat (constructor; [first [exact I|split; [|split]; vm_compute; discriminate]|]). constructor.
  - constructor.
Qed.

Definition address (l : string) : Z :=
  match list_find (fun x => x = l) framing_literals with Some (i, _) => 4096 + 100 * Z.of_nat i | None => 8192 end.
#[export] Instance rodata0 : ReadOnlyData := {| rodata := address |}.

Definition bytes0 : SlBytes := sl_bytes_from_parts 9000 (Z.of_nat (length input0)).
Definition locals0 (p : part) : Z :=
  match p with PartTarget => 12000 | PartName => 12100 | PartValue => 12200 | PartBody => 12300 end.
Definition options0 (max_headers : Z) : option SlHttpParseOptions :=
  Some {| po_max_headers := max_headers; po_max_request_line_length := 0; po_max_target_length := 0; po_max_header_name_length := 0;
          po_max_header_value_length := 0; po_max_total_header_bytes := 0; po_max_body_length := 0 |}.
Definition state0 : HeadSys :=
  {| hx_world := {| w_mem := fold_left (fun m l => store m (address l) (string_bytes l)) framing_literals (store (fun _ => 0) 9000 input0);
                    w_arena := {| ar_base := 16384; ar_capacity := 1024; ar_offset := 0; ar_high_water := 0; ar_generation := 1 |} |};
     hx_head := zero_head; hx_diag := zero_diag |}.

Lemma parse_theirs0 q n : q + n <= 12000 -> theirs locals0 (hx_world state0) q n.
Proof. intros H. split; [|intros []]; unfold outside_free, disjoint_ranges; cbn; lia. Qed.

Lemma ready0 n : 0 <= n <= 100 -> parse_ready locals0 bytes0 (options0 n) (hx_world state0).
Proof.
  intros Hn. split.
  - unfold arena_wf. cbn. unfold UINTPTR_MAX, UINT32_MAX. lia.
  - split; [split; vm_compute; discriminate|]. split; [unfold is_size, SIZE_MAX; cbn; lia|]. intros []; split; vm_compute; discriminate.
  - split; [unfold bytes_valid; cbn; lia|unfold bytes_wf; vm_compute; repeat split; discriminate].
  - apply parse_theirs0. vm_compute. discriminate.
  - assert (H : forallb (fun l => (0 <? rodata l) && bool_decide (str_val (w_mem (hx_world state0)) (literal l) = string_bytes l)) framing_literals = true)
      by (vm_compute; reflexivity).
    rewrite forallb_forall in H. intros l Hl. apply list_elem_of_In in Hl. specialize (H l Hl). apply andb_true_iff in H as [H1 H2%bool_decide_eq_true].
    split; [lia|done].
  - assert (H : forallb (fun l => rodata l + string_size l <=? 12000) framing_literals = true) by (vm_compute; reflexivity).
    rewrite forallb_forall in H. intros l Hl. apply list_elem_of_In in Hl. specialize (H l Hl). apply parse_theirs0. lia.
Qed.

Definition request0 : http_request :=
  {| hr_method := SL_HTTP_METHOD_POST; hr_major := 1; hr_minor := 1; hr_target := string_bytes "/a?b=1";
     hr_headers := [(string_bytes "Host", string_bytes "x"); (string_bytes "Content-Length", string_bytes "2")]; hr_body := string_bytes "hi" |}.

Lemma read0 : read_request (limits_of (options0 4)) (bytes_val (w_mem (hx_world state0)) bytes0) = Some request0.
Proof. vm_compute. reflexivity. Qed.

Lemma parses0 : fst (sl_http_parse_request_head locals0 REF bytes0 (options0 4) REF REF state0) = Ok tt.
Proof. vm_compute. reflexivity. Qed.

Lemma http_parse_refines_witness :
  let s' := snd (sl_http_parse_request_head locals0 REF bytes0 (options0 4) REF REF state0) in
  head_request (w_mem (hx_world s')) (hx_head s') = request0 /\
  str_val (w_mem (hx_world s')) (hd_path (hx_head s')) = before_query (str_val (w_mem (hx_world s')) (hd_raw_target (hx_head s'))).
Proof.
  pose proof (http_parse_refines locals0 bytes0 (options0 4) REF state0 (ready0 4 ltac:(lia))) as H.
  pose proof parses0 as E. destruct (sl_http_parse_request_head locals0 REF bytes0 (options0 4) REF REF state0) as [r s'].
  cbn [fst] in E. subst r. cbv zeta iota beta in H |- *. destruct H as (H1 & H2 & _). cbn [snd]. split; [|exact H2].
  pose proof read0 as E0. congruence.
Defined.

Lemma parsed_head_well_formed_witness :
  let s' := snd (sl_http_parse_request_head locals0 REF bytes0 (options0 4) REF REF state0) in
  well_formed (limits_of (options0 4)) (head_request (w_mem (hx_world s')) (hx_head s')).
Proof.
  pose proof (parsed_head_well_formed locals0 bytes0 (options0 4) REF state0 (ready0 4 ltac:(lia))) as H.
  pose proof parses0 as E. destruct (sl_http_parse_request_head locals0 REF bytes0 (options0 4) REF REF state0) as [r s'].
  cbn [fst] in E. subst r. exact H.
Defined.
End Demo.
