(* ===== verification/AsyncLoop.v ===== *)
(** The asynchronous backend's completion loop (src/core/async_backend.c) and its libuv
    variant (src/platform/libuv/async_backend_libuv.c).

    A completion carries callbacks as pointers; [AsyncCallbacks] is what calling them does.
    The ring queue of completions is the bounded deque it refines (Container.v).  Sections
    under the backend's mutex are single steps; libuv itself is a parameter: whether a wake-up
    is sent, what its run does, and which thread calls. *)

From stdpp Require Import list.
From S2P Require Import Prelude Status Container.

Open Scope Z_scope.

Inductive SlAsyncBackendKind := SL_ASYNC_BACKEND_NONE | SL_ASYNC_BACKEND_LIBUV | SL_ASYNC_BACKEND_TEST.

#[export] Instance SlAsyncBackendKind_eq_dec : EqDecision SlAsyncBackendKind.
Proof. solve_decision. Defined.

Inductive SlAsyncCompletionKind :=
| SL_ASYNC_COMPLETION_NONE
| SL_ASYNC_COMPLETION_TEST
| SL_ASYNC_COMPLETION_NATIVE
| SL_ASYNC_COMPLETION_V8_CONTINUATION.

#[export] Instance SlAsyncCompletionKind_eq_dec : EqDecision SlAsyncCompletionKind.
Proof. solve_decision. Defined.

Inductive SlAsyncOperationKind :=
| SL_ASYNC_OPERATION_INTERNAL_COMPLETION
| SL_ASYNC_OPERATION_NONBLOCKING_IO
| SL_ASYNC_OPERATION_BLOCKING_OFFLOAD
| SL_ASYNC_OPERATION_TIMER
| SL_ASYNC_OPERATION_PROVIDER.

#[export] Instance SlAsyncOperationKind_eq_dec : EqDecision SlAsyncOperationKind.
Proof. solve_decision. Defined.

Record SlAsyncScopeRef := { sr_scope : Z; sr_retain : Z; sr_release : Z; sr_user : Z }.

#[export] Instance SlAsyncScopeRef_eq_dec : EqDecision SlAsyncScopeRef.
Proof. solve_decision. Defined.

Definition no_scope : SlAsyncScopeRef := {| sr_scope := 0; sr_retain := 0; sr_release := 0; sr_user := 0 |}.

Record SlAsyncCompletion := {
  ac_kind : SlAsyncCompletionKind;
  ac_operation_kind : SlAsyncOperationKind;
  ac_status : SlStatusCode;
  ac_diag : Z;
  ac_payload : Z;
  ac_operation : Z;
  ac_terminal_check : Z;
  ac_terminal_check_user : Z;
  ac_scope : SlAsyncScopeRef;
  ac_dispatch : Z;
  ac_dispatch_user : Z;
  ac_late : Z;
  ac_late_user : Z;
  ac_cleanup : Z;
  ac_cleanup_user : Z;
}.

#[export] Instance SlAsyncCompletion_eq_dec : EqDecision SlAsyncCompletion.
Proof. solve_decision. Defined.

(** [al_closing] and [al_callback_count] are the libuv backend's. *)
Record SlAsyncLoop := {
  al_kind : SlAsyncBackendKind;
  al_queue : list SlAsyncCompletion;
  al_capacity : Z;
  al_disposed : bool;
  al_draining : bool;
  al_closing : bool;
  al_callback_count : Z;
}.

Definition al_set_queue q l :=
  {| al_kind := al_kind l; al_queue := q; al_capacity := al_capacity l; al_disposed := al_disposed l;
     al_draining := al_draining l; al_closing := al_closing l; al_callback_count := al_callback_count l |}.
Definition al_set_draining d l :=
  {| al_kind := al_kind l; al_queue := al_queue l; al_capacity := al_capacity l; al_disposed := al_disposed l;
     al_draining := d; al_closing := al_closing l; al_callback_count := al_callback_count l |}.
Definition al_set_disposed closing l :=
  {| al_kind := al_kind l; al_queue := al_queue l; al_capacity := al_capacity l; al_disposed := true;
     al_draining := al_draining l; al_closing := closing; al_callback_count := al_callback_count l |}.

(** The loop and the rest of the program. *)
Record AsyncSys (E : Type) := { av_loop : SlAsyncLoop; av_env : E }.
Arguments av_loop {E} _.
Arguments av_env {E} _.
Arguments Build_AsyncSys {E} _ _.

Definition set_av_loop {E} (l : SlAsyncLoop) (s : AsyncSys E) : AsyncSys E := Build_AsyncSys l (av_env s).
Definition upd_loop {E} (f : SlAsyncLoop -> SlAsyncLoop) (s : AsyncSys E) : AsyncSys E := set_av_loop (f (av_loop s)) s.

(** What callbacks and libuv do. *)
Class AsyncCallbacks (E : Type) := {
  call_retain : SlAsyncScopeRef -> AsyncSys E -> SlStatusCode * AsyncSys E;
  call_release : SlAsyncScopeRef -> AsyncSys E -> AsyncSys E;
  call_terminal_check : SlAsyncCompletion -> AsyncSys E -> bool;
  call_late : SlAsyncCompletion -> AsyncSys E -> AsyncSys E;
  call_dispatch : SlAsyncCompletion -> AsyncSys E -> SlStatusCode * AsyncSys E;
  call_cleanup : SlAsyncCompletion -> AsyncSys E -> AsyncSys E;
  uv_async_send : AsyncSys E -> Z;
  uv_run : AsyncSys E -> AsyncSys E;
  uv_thread_is_owner : AsyncSys E -> bool;
}.

Definition UV_ENOMEM : Z := -12.
Definition UV_EINVAL : Z := -22.
Definition UV_EBUSY : Z := -16.

Definition sl_libuv_status_from_error (error : Z) : SlStatusCode :=
  if error =? 0 then SL_STATUS_OK
  else if error =? UV_ENOMEM then SL_STATUS_OUT_OF_MEMORY
  else if error =? UV_EINVAL then SL_STATUS_INVALID_ARGUMENT
  else if error =? UV_EBUSY then SL_STATUS_INVALID_STATE
  else SL_STATUS_INTERNAL.

Section Loop.
Context {E : Type} {CB : AsyncCallbacks E}.
Abbreviation Sys := (AsyncSys E).

Definition sl_async_completion_valid (completion : SlAsyncCompletion) : bool :=
  negb (bool_decide (ac_kind completion = SL_ASYNC_COMPLETION_NONE)) && negb (ac_dispatch completion =? 0).

Definition sl_async_completion_retain_scope (completion : SlAsyncCompletion) (s : Sys) : SlStatusCode * Sys :=
  if (sr_scope (ac_scope completion) =? 0) || (sr_retain (ac_scope completion) =? 0) then (SL_STATUS_OK, s)
  else call_retain (ac_scope completion) s.

Definition sl_async_loop_release_completion_scope (completion : SlAsyncCompletion) (s : Sys) : Sys :=
  if negb (sr_scope (ac_scope completion) =? 0) && negb (sr_release (ac_scope completion) =? 0)
  then call_release (ac_scope completion) s else s.

(** [sl_ring_queue_push] of the loop's queue. *)
Definition queue_is_full (l : SlAsyncLoop) : bool := al_capacity l <=? Z.of_nat (length (al_queue l)).

Definition sl_async_loop_enqueue_owned (completion : SlAsyncCompletion) : ST Sys unit := fun s =>
  if negb (sl_async_completion_valid completion) then (Err SL_STATUS_INVALID_ARGUMENT, s) else
  if al_disposed (av_loop s) then (Err SL_STATUS_INVALID_STATE, s) else
  if queue_is_full (av_loop s) then (Err SL_STATUS_CAPACITY_EXCEEDED, s) else
  let '(retain_status, s) := sl_async_completion_retain_scope completion s in
  if negb (sl_status_is_ok retain_status) then (Err retain_status, s) else
  if queue_is_full (av_loop s)
  then (Err SL_STATUS_CAPACITY_EXCEEDED, sl_async_loop_release_completion_scope completion s)
  else (Ok tt, upd_loop (fun l => al_set_queue (al_queue l ++ [completion]) l) s).

Definition sl_async_loop_unenqueue_last_owned (s : Sys) : option SlAsyncCompletion * Sys :=
  match rev (al_queue (av_loop s)) with
  | [] => (None, s)
  | completion :: rest => (Some completion, upd_loop (al_set_queue (rev rest)) s)
  end.

Definition sl_async_loop_pop (s : Sys) : option SlAsyncCompletion * Sys :=
  match al_queue (av_loop s) with
  | [] => (None, s)
  | completion :: rest => (Some completion, upd_loop (al_set_queue rest) s)
  end.

Definition sl_async_loop_finish_completion (completion : SlAsyncCompletion) (s : Sys) : Sys :=
  let s := if negb (ac_cleanup completion =? 0) then call_cleanup completion s else s in
  sl_async_loop_release_completion_scope completion s.

Definition sl_async_completion_is_terminal (completion : SlAsyncCompletion) (s : Sys) : bool :=
  negb (ac_terminal_check completion =? 0) && call_terminal_check completion s.

Definition sl_async_loop_dispatch_completion (completion : SlAsyncCompletion) (s : Sys) : SlStatusCode * Sys :=
  if ac_dispatch completion =? 0 then (SL_STATUS_INVALID_ARGUMENT, s) else
  if sl_async_completion_is_terminal completion s then
    let s := if negb (ac_late completion =? 0) then call_late completion s else s in
    (SL_STATUS_OK, sl_async_loop_finish_completion completion s)
  else
    let '(status, s) := call_dispatch completion s in
    (status, sl_async_loop_finish_completion completion s).

(** The [while] that discards what is queued; [None] when [fuel] is not enough. *)
Fixpoint sl_async_loop_discard_pending_unlocked (fuel : nat) (s : Sys) : option Sys :=
  match sl_async_loop_pop s with
  | (None, s) => Some s
  | (Some completion, s) =>
      match fuel with
      | O => None
      | S fuel => sl_async_loop_discard_pending_unlocked fuel (sl_async_loop_finish_completion completion s)
      end
  end.

(** * The test backend *)

(** The status and [*out_ran]. *)
Definition sl_async_loop_test_run_once (s : Sys) : SlStatusCode * Z * Sys :=
  if al_disposed (av_loop s) then (SL_STATUS_INVALID_STATE, 0, s) else
  match sl_async_loop_pop s with
  | (None, s) => (SL_STATUS_OK, 0, s)
  | (Some completion, s) => let '(status, s) := sl_async_loop_dispatch_completion completion s in (status, 1, s)
  end.

Fixpoint test_drain_loop (fuel : nat) (max_count ran : Z) (s : Sys) : option (SlStatusCode * Z * Sys) :=
  if bool_decide (al_queue (av_loop s) = []) || negb ((max_count =? 0) || (ran <? max_count)) then Some (SL_STATUS_OK, ran, s) else
  match fuel with
  | O => None
  | S fuel =>
      let '(status, step_ran, s) := sl_async_loop_test_run_once s in
      if negb (sl_status_is_ok status) || (step_ran =? 0) then Some (status, ran + step_ran, s)
      else test_drain_loop fuel max_count (ran + step_ran) s
  end.

Definition sl_async_loop_test_drain (fuel : nat) (max_count : Z) (s : Sys) : option (SlStatusCode * Z * Sys) :=
  if al_disposed (av_loop s) then Some (SL_STATUS_INVALID_STATE, 0, s) else
  if al_draining (av_loop s) then Some (SL_STATUS_INVALID_STATE, 0, s) else
  '(status, ran, s) ← test_drain_loop fuel max_count 0 (upd_loop (al_set_draining true) s) ;
  Some (status, ran, upd_loop (al_set_draining false) s).

(** * The libuv backend *)

Definition sl_async_loop_libuv_post (completion : SlAsyncCompletion) : ST Sys unit := fun s =>
  if al_disposed (av_loop s) then (Err SL_STATUS_INVALID_STATE, s) else
  if al_closing (av_loop s) then (Err SL_STATUS_INVALID_STATE, s) else
  match sl_async_loop_enqueue_owned completion s with
  | (Err c, s) => (Err c, s)
  | (Ok _, s) =>
      let uv_status := uv_async_send s in
      if uv_status =? 0 then (Ok tt, s) else
      let '(rolled_back, s) := sl_async_loop_unenqueue_last_owned s in
      (Err (sl_libuv_status_from_error uv_status),
       match rolled_back with Some c => sl_async_loop_release_completion_scope c s | None => s end)
  end.

Definition sl_async_loop_libuv_run_once (s : Sys) : SlStatusCode * Z * Sys :=
  if al_disposed (av_loop s) || al_closing (av_loop s) then (SL_STATUS_INVALID_STATE, 0, s) else
  if negb (uv_thread_is_owner s) then (SL_STATUS_INVALID_STATE, 0, s) else
  let callback_count_before := al_callback_count (av_loop s) in
  let s := uv_run s in
  match sl_async_loop_pop s with
  | (None, s) => (SL_STATUS_OK, if al_callback_count (av_loop s) =? callback_count_before then 0 else 1, s)
  | (Some completion, s) => let '(status, s) := sl_async_loop_dispatch_completion completion s in (status, 1, s)
  end.

Fixpoint libuv_drain_loop (fuel : nat) (max_count ran : Z) (s : Sys) : option (SlStatusCode * Z * Sys) :=
  if negb ((max_count =? 0) || (ran <? max_count)) then Some (SL_STATUS_OK, ran, s) else
  match fuel with
  | O => None
  | S fuel =>
      let '(status, step_ran, s) := sl_async_loop_libuv_run_once s in
      if negb (sl_status_is_ok status) || (step_ran =? 0) then Some (status, ran + step_ran, s)
      else libuv_drain_loop fuel max_count (ran + step_ran) s
  end.

Definition sl_async_loop_libuv_drain (fuel : nat) (max_count : Z) (s : Sys) : option (SlStatusCode * Z * Sys) :=
  if al_draining (av_loop s) then Some (SL_STATUS_INVALID_STATE, 0, s) else
  '(status, ran, s) ← libuv_drain_loop fuel max_count 0 (upd_loop (al_set_draining true) s) ;
  Some (status, ran, upd_loop (al_set_draining false) s).

(** Up to the closing of libuv's handles. *)
Definition sl_async_loop_libuv_dispose (fuel : nat) (s : Sys) : option Sys :=
  if al_disposed (av_loop s) then Some s else
  sl_async_loop_discard_pending_unlocked fuel (upd_loop (al_set_disposed true) s).

(** * Either backend *)

Definition is_libuv (s : Sys) : bool := bool_decide (al_kind (av_loop s) = SL_ASYNC_BACKEND_LIBUV).

Definition sl_async_loop_post (loop : nullable) (completion : SlAsyncCompletion) : ST Sys unit := fun s =>
  if is_null loop then (Err SL_STATUS_INVALID_ARGUMENT, s) else
  if is_libuv s then sl_async_loop_libuv_post completion s else sl_async_loop_enqueue_owned completion s.

Definition sl_async_loop_run_once (loop : nullable) (s : Sys) : SlStatusCode * Z * Sys :=
  if is_null loop then (SL_STATUS_INVALID_ARGUMENT, 0, s) else
  if is_libuv s then sl_async_loop_libuv_run_once s else sl_async_loop_test_run_once s.

Definition sl_async_loop_drain (fuel : nat) (loop : nullable) (max_count : Z) (s : Sys) : option (SlStatusCode * Z * Sys) :=
  if is_null loop then Some (SL_STATUS_INVALID_ARGUMENT, 0, s) else
  if is_libuv s then sl_async_loop_libuv_drain fuel max_count s else sl_async_loop_test_drain fuel max_count s.

Definition sl_async_loop_dispose (fuel : nat) (loop : nullable) (s : Sys) : option Sys :=
  if is_null loop || al_disposed (av_loop s) then Some s else
  if is_libuv s then sl_async_loop_libuv_dispose fuel s else
  sl_async_loop_discard_pending_unlocked fuel (upd_loop (al_set_disposed (al_closing (av_loop s))) s).

Definition sl_async_loop_backend_kind (loop : nullable) (l : SlAsyncLoop) : SlAsyncBackendKind :=
  if is_null loop then SL_ASYNC_BACKEND_NONE else al_kind l.
Definition sl_async_loop_pending_count (loop : nullable) (l : SlAsyncLoop) : Z :=
  if is_null loop then 0 else Z.of_nat (length (al_queue l)).
Definition sl_async_loop_capacity (loop : nullable) (l : SlAsyncLoop) : Z := if is_null loop then 0 else al_capacity l.
Definition sl_async_loop_is_owner_thread (loop : nullable) (s : Sys) : bool :=
  negb (is_null loop) && (if is_libuv s then uv_thread_is_owner s else negb (al_disposed (av_loop s))).
Definition sl_async_loop_is_disposed (loop : nullable) (l : SlAsyncLoop) : bool := negb (is_null loop) && al_disposed l.
End Loop.
