(* ===== verification/Provider.v ===== *)
(** The provider executor (src/core/provider_executor.c): operations, slots and settlement.

    Operations are known by their address; the slots hold addresses, 0 for a free slot.
    Callbacks of the host (cleanups, dispatch, scope references) act outside the executor:
    calling one is an entry of the log, and what it answers is a function of the log.
    Strings of an operation are copied into the caller's arena; [OperationLayout] says where
    an operation keeps the inline bytes of its owned strings.  What runs on which thread, and
    the order in which the locked sections interleave, is in ProviderRun.v. *)

From stdpp Require Import strings gmap list.
From Stdlib Require Import Strings.Ascii.
From S2P Require Import Prelude Memory Status Arena Str Bytes Simd StrArena Container Sink Builder Diag Queue Loop Async Capability HttpBackend AsyncLoop.

Open Scope Z_scope.

Inductive SlProviderExecutionMode :=
| SL_PROVIDER_EXECUTION_SERIALIZED_BLOCKING
| SL_PROVIDER_EXECUTION_BLOCKING_POOL
| SL_PROVIDER_EXECUTION_TRUE_ASYNC
| SL_PROVIDER_EXECUTION_UNAVAILABLE
| MODE_OUTSIDE (value : Z).

#[export] Instance SlProviderExecutionMode_eq_dec : EqDecision SlProviderExecutionMode.
Proof. solve_decision. Defined.

Inductive SlProviderOperationState :=
| SL_PROVIDER_OPERATION_EMPTY
| SL_PROVIDER_OPERATION_QUEUED
| SL_PROVIDER_OPERATION_ACTIVE
| SL_PROVIDER_OPERATION_TERMINAL.

#[export] Instance SlProviderOperationState_eq_dec : EqDecision SlProviderOperationState.
Proof. solve_decision. Defined.

Inductive SlProviderOperationKind :=
| SL_PROVIDER_OPERATION_KIND_UNKNOWN
| SL_PROVIDER_OPERATION_KIND_OPEN
| SL_PROVIDER_OPERATION_KIND_EXEC
| SL_PROVIDER_OPERATION_KIND_QUERY
| SL_PROVIDER_OPERATION_KIND_QUERY_ONE
| SL_PROVIDER_OPERATION_KIND_CLOSE
| SL_PROVIDER_OPERATION_KIND_INTERNAL
| KIND_OUTSIDE (value : Z).

#[export] Instance SlProviderOperationKind_eq_dec : EqDecision SlProviderOperationKind.
Proof. solve_decision. Defined.

Record SlProviderCapabilityRequirement := { cr_token : SlStr; cr_operation : SlCapabilityOperation }.

(** Pointers are addresses, 0 for NULL. *)
Record SlProviderOperationDescriptor := {
  de_request_or_app_scope : Z;
  de_cancellation : Z;
  de_deadline : Z;
  de_completion_dispatch : Z;
  de_completion_dispatch_user : Z;
  de_run : Z;
  de_run_user : Z;
  de_cleanup : Z;
  de_cleanup_user : Z;
  de_admission_diag : nullable;
  de_provider_instance_id : SlStr;
  de_provider_kind : SlStr;
  de_operation_name : SlStr;
  de_input : SlBytes;
  de_diagnostic_context : SlStr;
  de_capability : SlProviderCapabilityRequirement;
  de_scope : SlAsyncScopeRef;
  de_operation_kind : SlProviderOperationKind;
  de_execution_mode : SlProviderExecutionMode;
}.

(** What an operation is given once, when it is submitted. *)
Record operation_facts := {
  of_operation_kind : SlProviderOperationKind;
  of_execution_mode : SlProviderExecutionMode;
  of_request_or_app_scope : Z;
  of_scope : SlAsyncScopeRef;
  of_cancellation : Z;
  of_deadline : Z;
  of_provider_instance_id : SlOwnedStr;
  of_provider_kind : SlOwnedStr;
  of_operation_name : SlOwnedStr;
  of_capability_token : SlOwnedStr;
  of_capability : SlProviderCapabilityRequirement;
  of_diagnostic_context : SlOwnedStr;
  of_input : SlBytes;
  of_run : Z;
  of_run_user : Z;
  of_completion_dispatch : Z;
  of_completion_dispatch_user : Z;
  of_cleanup : Z;
  of_cleanup_user : Z;
  of_sequence : Z;
}.

Record SlProviderOperation := {
  op_facts : operation_facts;
  op_state : SlProviderOperationState;
  op_terminal_status : SlStatusCode;
  op_terminal_reason : SlCancellationReason;
  op_diag : SlDiag;
  op_cleanup_ran : bool;
  op_worker_claimed : bool;
  op_terminal_completion_drained : bool;
  op_counted_in_flight : bool;
}.

Definition op_sequence (o : SlProviderOperation) : Z := of_sequence (op_facts o).

(** Assignments. *)
Definition op_set_state st o :=
  {| op_facts := op_facts o; op_state := st; op_terminal_status := op_terminal_status o; op_terminal_reason := op_terminal_reason o;
     op_diag := op_diag o; op_cleanup_ran := op_cleanup_ran o; op_worker_claimed := op_worker_claimed o;
     op_terminal_completion_drained := op_terminal_completion_drained o; op_counted_in_flight := op_counted_in_flight o |}.
Definition op_set_terminal status reason diag o :=
  {| op_facts := op_facts o; op_state := op_state o; op_terminal_status := status; op_terminal_reason := reason;
     op_diag := diag; op_cleanup_ran := op_cleanup_ran o; op_worker_claimed := op_worker_claimed o;
     op_terminal_completion_drained := op_terminal_completion_drained o; op_counted_in_flight := op_counted_in_flight o |}.
Definition op_set_cleanup_ran b o :=
  {| op_facts := op_facts o; op_state := op_state o; op_terminal_status := op_terminal_status o; op_terminal_reason := op_terminal_reason o;
     op_diag := op_diag o; op_cleanup_ran := b; op_worker_claimed := op_worker_claimed o;
     op_terminal_completion_drained := op_terminal_completion_drained o; op_counted_in_flight := op_counted_in_flight o |}.
Definition op_set_claimed b o :=
  {| op_facts := op_facts o; op_state := op_state o; op_terminal_status := op_terminal_status o; op_terminal_reason := op_terminal_reason o;
     op_diag := op_diag o; op_cleanup_ran := op_cleanup_ran o; op_worker_claimed := b;
     op_terminal_completion_drained := op_terminal_completion_drained o; op_counted_in_flight := op_counted_in_flight o |}.
Definition op_set_drained b o :=
  {| op_facts := op_facts o; op_state := op_state o; op_terminal_status := op_terminal_status o; op_terminal_reason := op_terminal_reason o;
     op_diag := op_diag o; op_cleanup_ran := op_cleanup_ran o; op_worker_claimed := op_worker_claimed o;
     op_terminal_completion_drained := b; op_counted_in_flight := op_counted_in_flight o |}.
Definition op_set_counted b o :=
  {| op_facts := op_facts o; op_state := op_state o; op_terminal_status := op_terminal_status o; op_terminal_reason := op_terminal_reason o;
     op_diag := op_diag o; op_cleanup_ran := op_cleanup_ran o; op_worker_claimed := op_worker_claimed o;
     op_terminal_completion_drained := op_terminal_completion_drained o; op_counted_in_flight := b |}.

Definition no_owned : SlOwnedStr :=
  {| owned_ptr := 0; owned_length := 0; owned_is_sso := false; owned_arena_generation := 0; owned_sso := 0 |}.

Definition zero_facts : operation_facts :=
  {| of_operation_kind := SL_PROVIDER_OPERATION_KIND_UNKNOWN; of_execution_mode := SL_PROVIDER_EXECUTION_SERIALIZED_BLOCKING;
     of_request_or_app_scope := 0; of_scope := no_scope; of_cancellation := 0; of_deadline := 0; of_provider_instance_id := no_owned;
     of_provider_kind := no_owned; of_operation_name := no_owned; of_capability_token := no_owned;
     of_capability := {| cr_token := sl_str_empty; cr_operation := SL_CAPABILITY_OPERATION_READ |}; of_diagnostic_context := no_owned;
     of_input := sl_bytes_empty; of_run := 0; of_run_user := 0; of_completion_dispatch := 0; of_completion_dispatch_user := 0;
     of_cleanup := 0; of_cleanup_user := 0; of_sequence := 0 |}.
Definition zero_operation : SlProviderOperation :=
  {| op_facts := zero_facts; op_state := SL_PROVIDER_OPERATION_EMPTY; op_terminal_status := SL_STATUS_OK;
     op_terminal_reason := SL_CANCELLATION_REASON_NONE; op_diag := zero_diag; op_cleanup_ran := false; op_worker_claimed := false;
     op_terminal_completion_drained := false; op_counted_in_flight := false |}.

#[export] Instance operation_inhabited : Inhabited SlProviderOperation := populate zero_operation.

(** The executor's counters. *)
Inductive counter :=
| submitted_count | completed_count | invalid_operation_count | operation_failure_count | cancelled_count | timed_out_count
| overflow_count | shutdown_rejected_count | capability_denied_count | worker_started_count | worker_stopped_count
| worker_failure_count | completion_post_failure_count | late_completion_count.

#[export] Instance counter_eq_dec : EqDecision counter.
Proof. solve_decision. Defined.

Record SlProviderInstanceExecutor := {
  ex_mode : SlProviderExecutionMode;
  ex_slots : list Z;
  ex_count : Z;
  ex_in_flight : Z;
  ex_max_in_flight : Z;
  ex_worker_count : Z;
  ex_next_sequence : Z;
  ex_counters : counter -> Z;
  ex_shutting_down : bool;
  ex_worker_stop_requested : bool;
  ex_worker_running : bool;
  ex_instance_id : SlOwnedStr;
  ex_provider_kind : SlOwnedStr;
  ex_provider_token : SlOwnedStr;
}.

(** [capacity] is the number of slots. *)
Definition ex_capacity (e : SlProviderInstanceExecutor) : Z := Z.of_nat (length (ex_slots e)).

Definition ex_set_slots slots e :=
  {| ex_mode := ex_mode e; ex_slots := slots; ex_count := ex_count e; ex_in_flight := ex_in_flight e; ex_max_in_flight := ex_max_in_flight e;
     ex_worker_count := ex_worker_count e; ex_next_sequence := ex_next_sequence e; ex_counters := ex_counters e;
     ex_shutting_down := ex_shutting_down e; ex_worker_stop_requested := ex_worker_stop_requested e; ex_worker_running := ex_worker_running e;
     ex_instance_id := ex_instance_id e; ex_provider_kind := ex_provider_kind e; ex_provider_token := ex_provider_token e |}.
Definition ex_set_accounts count in_flight e :=
  {| ex_mode := ex_mode e; ex_slots := ex_slots e; ex_count := count; ex_in_flight := in_flight; ex_max_in_flight := ex_max_in_flight e;
     ex_worker_count := ex_worker_count e; ex_next_sequence := ex_next_sequence e; ex_counters := ex_counters e;
     ex_shutting_down := ex_shutting_down e; ex_worker_stop_requested := ex_worker_stop_requested e; ex_worker_running := ex_worker_running e;
     ex_instance_id := ex_instance_id e; ex_provider_kind := ex_provider_kind e; ex_provider_token := ex_provider_token e |}.
Definition ex_set_next_sequence n e :=
  {| ex_mode := ex_mode e; ex_slots := ex_slots e; ex_count := ex_count e; ex_in_flight := ex_in_flight e; ex_max_in_flight := ex_max_in_flight e;
     ex_worker_count := ex_worker_count e; ex_next_sequence := n; ex_counters := ex_counters e;
     ex_shutting_down := ex_shutting_down e; ex_worker_stop_requested := ex_worker_stop_requested e; ex_worker_running := ex_worker_running e;
     ex_instance_id := ex_instance_id e; ex_provider_kind := ex_provider_kind e; ex_provider_token := ex_provider_token e |}.
Definition ex_bump c e :=
  {| ex_mode := ex_mode e; ex_slots := ex_slots e; ex_count := ex_count e; ex_in_flight := ex_in_flight e; ex_max_in_flight := ex_max_in_flight e;
     ex_worker_count := ex_worker_count e; ex_next_sequence := ex_next_sequence e;
     ex_counters := fun k => if decide (k = c) then wrap64 (ex_counters e k + 1) else ex_counters e k;
     ex_shutting_down := ex_shutting_down e; ex_worker_stop_requested := ex_worker_stop_requested e; ex_worker_running := ex_worker_running e;
     ex_instance_id := ex_instance_id e; ex_provider_kind := ex_provider_kind e; ex_provider_token := ex_provider_token e |}.
Definition ex_set_flags down stop running e :=
  {| ex_mode := ex_mode e; ex_slots := ex_slots e; ex_count := ex_count e; ex_in_flight := ex_in_flight e; ex_max_in_flight := ex_max_in_flight e;
     ex_worker_count := ex_worker_count e; ex_next_sequence := ex_next_sequence e; ex_counters := ex_counters e;
     ex_shutting_down := down; ex_worker_stop_requested := stop; ex_worker_running := running;
     ex_instance_id := ex_instance_id e; ex_provider_kind := ex_provider_kind e; ex_provider_token := ex_provider_token e |}.

(** What happens outside the executor. *)
Inductive provider_event :=
| EvCleanup (operation : Z)
| EvRun (operation : Z)
| EvDispatch (operation : Z)
| EvRetain (scope : SlAsyncScopeRef)
| EvRelease (scope : SlAsyncScopeRef).

#[export] Instance provider_event_eq_dec : EqDecision provider_event.
Proof. solve_decision. Defined.

(** The executor, its operations, the cancellation tokens, the caller's arena and diagnostic. *)
Record ProviderSys := {
  pv_ops : gmap Z SlProviderOperation;
  pv_exec : SlProviderInstanceExecutor;
  pv_tokens : Z -> SlCancellationToken;
  pv_world : World;
  pv_diag : SlDiag;
  pv_log : list provider_event;
}.

Definition set_pv_ops ops s :=
  {| pv_ops := ops; pv_exec := pv_exec s; pv_tokens := pv_tokens s; pv_world := pv_world s; pv_diag := pv_diag s; pv_log := pv_log s |}.
Definition upd_exec f s :=
  {| pv_ops := pv_ops s; pv_exec := f (pv_exec s); pv_tokens := pv_tokens s; pv_world := pv_world s; pv_diag := pv_diag s; pv_log := pv_log s |}.
Definition set_pv_token p t s :=
  {| pv_ops := pv_ops s; pv_exec := pv_exec s; pv_tokens := fun q => if q =? p then t else pv_tokens s q; pv_world := pv_world s;
     pv_diag := pv_diag s; pv_log := pv_log s |}.
Definition set_pv_world w s :=
  {| pv_ops := pv_ops s; pv_exec := pv_exec s; pv_tokens := pv_tokens s; pv_world := w; pv_diag := pv_diag s; pv_log := pv_log s |}.
Definition set_pv_diag d s :=
  {| pv_ops := pv_ops s; pv_exec := pv_exec s; pv_tokens := pv_tokens s; pv_world := pv_world s; pv_diag := d; pv_log := pv_log s |}.
Definition note e s :=
  {| pv_ops := pv_ops s; pv_exec := pv_exec s; pv_tokens := pv_tokens s; pv_world := pv_world s; pv_diag := pv_diag s; pv_log := pv_log s ++ [e] |}.

Definition op_at (s : ProviderSys) (p : Z) : SlProviderOperation := pv_ops s !!! p.
Definition upd_op (p : Z) (f : SlProviderOperation -> SlProviderOperation) (s : ProviderSys) : ProviderSys :=
  set_pv_ops (<[p := f (op_at s p)]> (pv_ops s)) s.
Definition bump (c : counter) (s : ProviderSys) : ProviderSys := upd_exec (ex_bump c) s.

Definition sl_provider_str_valid (value : SlStr) : bool := (str_length value =? 0) || negb (str_ptr value =? 0).

(** * Modes and kinds *)

Definition sl_provider_execution_mode_is_supported (mode : SlProviderExecutionMode) : bool :=
  match mode with MODE_OUTSIDE _ => false | _ => true end.

Definition sl_provider_execution_mode_requires_offload_worker (mode : SlProviderExecutionMode) : bool :=
  match mode with SL_PROVIDER_EXECUTION_SERIALIZED_BLOCKING | SL_PROVIDER_EXECUTION_BLOCKING_POOL => true | _ => false end.

Definition sl_provider_operation_kind_is_supported (kind : SlProviderOperationKind) : bool :=
  match kind with SL_PROVIDER_OPERATION_KIND_UNKNOWN | KIND_OUTSIDE _ => false | _ => true end.

(** * Slots *)

Fixpoint find_slot (p : Z) (slots : list Z) : option nat :=
  match slots with
  | [] => None
  | q :: slots => if q =? p then Some O else S <$> find_slot p slots
  end.

Definition sl_provider_executor_find_free_slot (e : SlProviderInstanceExecutor) : option nat := find_slot 0 (ex_slots e).
Definition sl_provider_executor_find_operation_slot (e : SlProviderInstanceExecutor) (p : Z) : option nat := find_slot p (ex_slots e).

Definition sl_provider_sequence_before (candidate current : Z) : bool :=
  negb (candidate =? current) && (SIZE_MAX / 2 <? wrap64 (candidate - current)).

(** The loops that look for the first of some operations. *)
Definition best_of (s : ProviderSys) (wanted : SlProviderOperation -> bool) : option Z :=
  fold_left (fun best p =>
    if negb (p =? 0) && wanted (op_at s p) &&
       match best with None => true | Some b => sl_provider_sequence_before (op_sequence (op_at s p)) (op_sequence (op_at s b)) end
    then Some p else best) (ex_slots (pv_exec s)) None.

Definition is_state (st : SlProviderOperationState) (o : SlProviderOperation) : bool := bool_decide (op_state o = st).

Definition sl_provider_executor_next_queued (s : ProviderSys) : option Z := best_of s (is_state SL_PROVIDER_OPERATION_QUEUED).

Definition sl_provider_executor_next_runnable_locked (s : ProviderSys) : option Z :=
  best_of s (fun o => is_state SL_PROVIDER_OPERATION_ACTIVE o && negb (of_run (op_facts o) =? 0) && negb (op_worker_claimed o)).

(** The [while]: every round activates one of the operations in the slots. *)
Fixpoint activate_loop (rounds : nat) (s : ProviderSys) : ProviderSys :=
  match rounds with
  | O => s
  | S rounds =>
      if ex_in_flight (pv_exec s) <? ex_max_in_flight (pv_exec s) then
        match sl_provider_executor_next_queued s with
        | None => s
        | Some next =>
            let s := upd_op next (fun o => op_set_counted true (op_set_state SL_PROVIDER_OPERATION_ACTIVE o)) s in
            activate_loop rounds (upd_exec (fun e => ex_set_accounts (ex_count e) (ex_in_flight e + 1) e) s)
        end
      else s
  end.

Definition sl_provider_executor_activate_next (s : ProviderSys) : ProviderSys :=
  activate_loop (S (length (ex_slots (pv_exec s)))) s.

(** * Settlement *)

Definition sl_provider_operation_run_cleanup_once (p : Z) (s : ProviderSys) : ProviderSys :=
  if op_cleanup_ran (op_at s p) then s else
  let s := upd_op p (op_set_cleanup_ran true) s in
  if of_cleanup (op_facts (op_at s p)) =? 0 then s else note (EvCleanup p) s.

Definition free_slot (p : Z) (e : SlProviderInstanceExecutor) : SlProviderInstanceExecutor :=
  match sl_provider_executor_find_operation_slot e p with
  | Some i => ex_set_slots (<[i := 0]> (ex_slots e)) e
  | None => e
  end.

Definition sl_provider_executor_finish_terminal_locked (p : Z) (s : ProviderSys) : ProviderSys :=
  if op_worker_claimed (op_at s p) then upd_op p (op_set_drained true) s else
  let s := sl_provider_operation_run_cleanup_once p s in
  let s := upd_exec (free_slot p) s in
  let s := upd_exec (fun e => if negb (ex_count e =? 0) then ex_set_accounts (ex_count e - 1) (ex_in_flight e) e else e) s in
  let s := if op_counted_in_flight (op_at s p) && negb (ex_in_flight (pv_exec s) =? 0)
           then upd_op p (op_set_counted false) (upd_exec (fun e => ex_set_accounts (ex_count e) (ex_in_flight e - 1) e) s)
           else s in
  sl_provider_executor_activate_next (bump completed_count s).

(** [sl_provider_completion_cleanup], the cleanup of a posted completion. *)
Definition sl_provider_completion_cleanup (p : Z) (s : ProviderSys) : ProviderSys :=
  if p =? 0 then s else sl_provider_executor_finish_terminal_locked p s.

(** The address of [sl_provider_completion_cleanup]. *)
Definition PROVIDER_COMPLETION_CLEANUP : Z := 1.

(** What the host answers, given everything that happened before. *)
Class ProviderHost := {
  host_retain : SlAsyncScopeRef -> list provider_event -> SlStatusCode;
  host_dispatch : SlAsyncCompletion -> list provider_event -> SlStatusCode;
  host_async_send : list provider_event -> Z;
  host_is_owner : list provider_event -> bool;
}.

Definition on_env {E} (f : E -> E) (s : AsyncSys E) : AsyncSys E := Build_AsyncSys (av_loop s) (f (av_env s)).

#[export] Instance provider_callbacks `{ProviderHost} : AsyncCallbacks ProviderSys := {|
  call_retain scope s := (host_retain scope (pv_log (av_env s)), on_env (note (EvRetain scope)) s);
  call_release scope s := on_env (note (EvRelease scope)) s;
  call_terminal_check _ _ := false;
  call_late _ s := s;
  call_dispatch c s := (host_dispatch c (pv_log (av_env s)), on_env (note (EvDispatch (ac_operation c))) s);
  call_cleanup c s := if ac_cleanup c =? PROVIDER_COMPLETION_CLEANUP then on_env (sl_provider_completion_cleanup (ac_cleanup_user c)) s else s;
  uv_async_send s := host_async_send (pv_log (av_env s));
  uv_run s := s;
  uv_thread_is_owner s := host_is_owner (pv_log (av_env s));
|}.

(** * The end of an operation *)

Definition SL_DIAG_INTERNAL_ERROR : Z := 7.
Definition SL_DIAG_ENGINE_PROMISE_PENDING : Z := 36.
Definition SL_DIAG_ENGINE_BACKPRESSURE : Z := 38.
Definition SL_DIAG_PROVIDER_UNAVAILABLE : Z := 229.

Definition sl_cancellation_diag_code (reason : SlCancellationReason) : Z :=
  match reason with
  | SL_CANCELLATION_REASON_DEADLINE_EXCEEDED => SL_DIAG_ENGINE_PROMISE_PENDING
  | SL_CANCELLATION_REASON_BACKPRESSURE => SL_DIAG_ENGINE_BACKPRESSURE
  | SL_CANCELLATION_REASON_SHUTDOWN => SL_DIAG_APP_LIFECYCLE
  | SL_CANCELLATION_REASON_CANCELLED => SL_DIAG_ENGINE_CANCELLED
  | SL_CANCELLATION_REASON_NONE => SL_DIAG_NONE
  end.

Definition sl_provider_diag (code : Z) (message : SlStr) : SlDiag :=
  {| dg_severity := SL_DIAG_SEVERITY_ERROR; dg_code := code; dg_message := message; dg_hints := [] |}.

Definition token_ref (p : Z) : nullable := if p =? 0 then NULL else REF.

Section Settle.
Context {RO : ReadOnlyData} {PH : ProviderHost}.
Abbreviation Sys := (AsyncSys ProviderSys).

Definition sl_cancellation_reason_name (reason : SlCancellationReason) : SlStr :=
  match reason with
  | SL_CANCELLATION_REASON_CANCELLED => literal "cancelled"
  | SL_CANCELLATION_REASON_DEADLINE_EXCEEDED => literal "deadline_exceeded"
  | SL_CANCELLATION_REASON_BACKPRESSURE => literal "backpressure"
  | SL_CANCELLATION_REASON_SHUTDOWN => literal "shutdown"
  | SL_CANCELLATION_REASON_NONE => literal "none"
  end.

Definition the_completion (p : Z) (status : SlStatusCode) (o : SlProviderOperation) : SlAsyncCompletion :=
  {| ac_kind := SL_ASYNC_COMPLETION_NATIVE; ac_operation_kind := SL_ASYNC_OPERATION_PROVIDER; ac_status := status; ac_diag := p;
     ac_payload := p; ac_operation := p; ac_terminal_check := 0; ac_terminal_check_user := 0; ac_scope := of_scope (op_facts o);
     ac_dispatch := of_completion_dispatch (op_facts o); ac_dispatch_user := of_completion_dispatch_user (op_facts o);
     ac_late := 0; ac_late_user := 0; ac_cleanup := PROVIDER_COMPLETION_CLEANUP; ac_cleanup_user := p |}.

Definition count_end (count_cancelled count_timed_out : bool) (s : ProviderSys) : ProviderSys :=
  let s := if count_cancelled then bump cancelled_count s else s in
  if count_timed_out then bump timed_out_count s else s.

(** The branch taken when the completion cannot be posted. *)
Definition post_failed (p : Z) (post_status : SlStatusCode) (count_cancelled count_timed_out : bool) (s : ProviderSys) : ProviderSys :=
  let code := if bool_decide (post_status = SL_STATUS_CAPACITY_EXCEEDED) then SL_DIAG_ENGINE_BACKPRESSURE else SL_DIAG_INTERNAL_ERROR in
  let s := upd_op p (fun o => op_set_state SL_PROVIDER_OPERATION_TERMINAL
                       (op_set_terminal post_status SL_CANCELLATION_REASON_NONE
                          (sl_provider_diag code (literal "provider completion post failed")) o)) s in
  let s := if op_worker_claimed (op_at s p) then upd_op p (op_set_drained true) s
           else sl_provider_executor_finish_terminal_locked p s in
  bump completion_post_failure_count (count_end count_cancelled count_timed_out s).

(** The section under the lock; the completion is posted in it. *)
Definition sl_provider_operation_post_terminal (p : Z) (status : SlStatusCode) (reason : SlCancellationReason) (diag_code : Z)
    (message : SlStr) (count_cancelled count_timed_out : bool) : ST Sys unit := fun s =>
  if (p =? 0) || negb (sl_provider_str_valid message) then (Err SL_STATUS_INVALID_ARGUMENT, s) else
  let o := op_at (av_env s) p in
  if bool_decide (op_state o = SL_PROVIDER_OPERATION_TERMINAL) then (Err SL_STATUS_INVALID_STATE, s) else
  let t := of_cancellation (op_facts o) in
  let token := pv_tokens (av_env s) t in
  let cancelled := negb (t =? 0) && sl_cancellation_token_is_cancelled REF token && sl_status_is_ok status in
  let reason := if cancelled then sl_cancellation_token_reason REF token else reason in
  let status := if cancelled then sl_cancellation_status_code reason else status in
  let diag_code := if cancelled then sl_cancellation_diag_code reason else diag_code in
  let message := if cancelled then sl_cancellation_reason_name reason else message in
  let s := on_env (upd_op p (op_set_terminal status reason (sl_provider_diag diag_code message))) s in
  let s := if negb (sl_status_is_ok status) && bool_decide (reason = SL_CANCELLATION_REASON_NONE)
           then on_env (bump operation_failure_count) s else s in
  match sl_async_loop_post REF (the_completion p status (op_at (av_env s) p)) s with
  | (Err post_status, s) => (Err post_status, on_env (post_failed p post_status count_cancelled count_timed_out) s)
  | (Ok _, s) => (Ok tt, on_env (fun s => count_end count_cancelled count_timed_out (upd_op p (op_set_state SL_PROVIDER_OPERATION_TERMINAL) s)) s)
  end.

Definition sl_provider_operation_complete (p : Z) (status : SlStatusCode) (diag_code : Z) (message : SlStr) : ST Sys unit :=
  return_if p =? 0 with SL_STATUS_INVALID_ARGUMENT ;;
  sl_provider_operation_post_terminal p status SL_CANCELLATION_REASON_NONE diag_code message false false.

(** Cancelling the operation's token, unless it has none or is cancelled already. *)
Definition cancel_operation_token (p : Z) (reason : SlCancellationReason) (detail : SlStr) (s : ProviderSys) : SlStatusCode * ProviderSys :=
  let t := of_cancellation (op_facts (op_at s p)) in
  if (t =? 0) || sl_cancellation_token_is_cancelled REF (pv_tokens s t) then (SL_STATUS_OK, s) else
  let '(r, token) := sl_cancellation_token_cancel REF reason detail (pv_tokens s t) in
  (match r with Ok _ => SL_STATUS_OK | Err c => c end, set_pv_token t token s).

Definition settle_cancelled (p : Z) (reason : SlCancellationReason) (status : SlStatusCode) (detail : SlStr)
    (count_cancelled count_timed_out : bool) : ST Sys unit := fun s =>
  let '(cancel_status, env) := cancel_operation_token p reason detail (av_env s) in
  let s := Build_AsyncSys (av_loop s) env in
  match sl_provider_operation_post_terminal p status reason (sl_cancellation_diag_code reason) detail count_cancelled count_timed_out s with
  | (Err c, s) => (Err c, s)
  | (Ok _, s) => (if sl_status_is_ok cancel_status then Ok tt else Err cancel_status, s)
  end.

Definition sl_provider_operation_cancel (p : Z) (detail : SlStr) : ST Sys unit :=
  return_if (p =? 0) || negb (sl_provider_str_valid detail) with SL_STATUS_INVALID_ARGUMENT ;;
  settle_cancelled p SL_CANCELLATION_REASON_CANCELLED SL_STATUS_CANCELLED detail true false.

Definition sl_provider_operation_timeout (p : Z) (detail : SlStr) : ST Sys unit :=
  return_if (p =? 0) || negb (sl_provider_str_valid detail) with SL_STATUS_INVALID_ARGUMENT ;;
  settle_cancelled p SL_CANCELLATION_REASON_DEADLINE_EXCEEDED SL_STATUS_DEADLINE_EXCEEDED detail false true.

(** * Shutdown *)

Definition begin_shutdown (s : ProviderSys) : ProviderSys :=
  upd_exec (fun e => ex_set_flags true (ex_worker_stop_requested e) (ex_worker_running e) e) s.

(** One round of the loop over the slots. *)
Definition shutdown_slot (p : Z) (s : Sys) : SlStatusCode * Sys :=
  if p =? 0 then (SL_STATUS_OK, s) else
  let s := if bool_decide (op_state (op_at (av_env s) p) = SL_PROVIDER_OPERATION_ACTIVE)
           then on_env (fun s => snd (cancel_operation_token p SL_CANCELLATION_REASON_SHUTDOWN (literal "provider executor shutdown") s)) s else s in
  let '(r, s) := sl_provider_operation_post_terminal p SL_STATUS_CANCELLED SL_CANCELLATION_REASON_SHUTDOWN
                   (sl_cancellation_diag_code SL_CANCELLATION_REASON_SHUTDOWN) (literal "provider executor shutdown") true false s in
  (match r with Ok _ => SL_STATUS_OK | Err c => c end, s).

Fixpoint shutdown_loop (index n : nat) (first_failure : SlStatusCode) (s : Sys) : SlStatusCode * Sys :=
  match n with
  | O => (first_failure, s)
  | S n =>
      let '(status, s) := shutdown_slot (nth index (ex_slots (pv_exec (av_env s))) 0) s in
      shutdown_loop (S index) n
        (if negb (bool_decide (status = SL_STATUS_INVALID_STATE)) && sl_status_is_ok first_failure then status else first_failure) s
  end.

(** [policy] is whether it is the one policy there is. *)
Definition sl_provider_executor_shutdown (executor : nullable) (policy : bool) (s : Sys) : SlStatusCode * Sys :=
  if is_null executor || negb policy then (SL_STATUS_INVALID_ARGUMENT, s) else
  shutdown_loop O (length (ex_slots (pv_exec (av_env s)))) SL_STATUS_OK (on_env begin_shutdown s).

Definition sl_provider_operation_discard (p : Z) (reason : SlCancellationReason) (s : ProviderSys) : ProviderSys :=
  sl_provider_operation_run_cleanup_once p
    (upd_op p (fun o => op_set_state SL_PROVIDER_OPERATION_TERMINAL
                 (op_set_terminal (sl_cancellation_status_code reason) reason (op_diag o) o)) s).

(** Before the workers are joined, and after. *)
Definition dispose_begin (s : ProviderSys) : ProviderSys :=
  upd_exec (fun e => ex_set_flags true true (ex_worker_running e) e) s.

Definition dispose_slot (s : ProviderSys) (i : nat) : ProviderSys :=
  let p := nth i (ex_slots (pv_exec s)) 0 in
  if p =? 0 then s else
  upd_exec (fun e => ex_set_slots (<[i := 0]> (ex_slots e)) e) (sl_provider_operation_discard p SL_CANCELLATION_REASON_SHUTDOWN s).

Definition dispose_end (s : ProviderSys) : ProviderSys :=
  upd_exec (fun e => ex_set_accounts 0 0 e) (fold_left dispose_slot (seq 0 (length (ex_slots (pv_exec s)))) s).

Definition sl_provider_executor_dispose (executor : nullable) (s : ProviderSys) : ProviderSys :=
  if is_null executor then s else dispose_end (dispose_begin s).
End Settle.

(** * Configuration *)

Record SlProviderExecutorConfig := {
  cf_instance_id : SlStr;
  cf_provider_kind : SlStr;
  cf_provider_token : SlStr;
  cf_mode : SlProviderExecutionMode;
  cf_queue_capacity : Z;
  cf_worker_count : Z;
  cf_max_in_flight : Z;
  cf_capability_check : nullable;
}.

Definition sl_provider_executor_default_max_in_flight (mode : SlProviderExecutionMode) (configured_max worker_count : Z) : Z :=
  if negb (configured_max =? 0) then configured_max else
  if bool_decide (mode = SL_PROVIDER_EXECUTION_SERIALIZED_BLOCKING) then 1 else
  if bool_decide (mode = SL_PROVIDER_EXECUTION_BLOCKING_POOL) && negb (worker_count =? 0) then worker_count else 1.

Definition sl_provider_executor_effective_worker_count (config : SlProviderExecutorConfig) : Z :=
  match cf_mode config with
  | SL_PROVIDER_EXECUTION_SERIALIZED_BLOCKING => 1
  | SL_PROVIDER_EXECUTION_BLOCKING_POOL => cf_worker_count config
  | _ => 0
  end.

Definition sl_provider_executor_config_valid (config : SlProviderExecutorConfig) : bool :=
  sl_provider_execution_mode_is_supported (cf_mode config) && negb (str_length (cf_instance_id config) =? 0) &&
  negb (str_length (cf_provider_kind config) =? 0) && sl_provider_str_valid (cf_instance_id config) &&
  sl_provider_str_valid (cf_provider_kind config) && negb (is_null (cf_capability_check config)) &&
  sl_provider_str_valid (cf_provider_token config) &&
  negb (bool_decide (cf_mode config = SL_PROVIDER_EXECUTION_BLOCKING_POOL) &&
        ((cf_worker_count config =? 0) ||
         negb (cf_max_in_flight config =? 0) && (cf_worker_count config <? cf_max_in_flight config))) &&
  negb (bool_decide (cf_mode config = SL_PROVIDER_EXECUTION_SERIALIZED_BLOCKING) && (1 <? cf_max_in_flight config)).

(** * Submission *)

(** The compiler's layout of an operation: its size, and where in it the inline bytes of its
    owned strings are. *)
Inductive owned_field := FieldInstance | FieldKind | FieldName | FieldToken | FieldContext.

Class OperationLayout := { operation_size : Z; operation_alignment : Z; field_sso : owned_field -> Z }.

Definition in_pv_world {A} (c : ST World A) : ST ProviderSys A := zoom pv_world set_pv_world c.
Definition on_provider {A} (c : ST ProviderSys A) : ST (AsyncSys ProviderSys) A :=
  zoom av_env (fun e s => Build_AsyncSys (av_loop s) e) c.

(** A descriptor, field by field. *)
Definition sl_provider_operation_descriptor_init (provider_instance_id provider_kind : SlStr) (operation_kind : SlProviderOperationKind)
    (operation_name : SlStr) (execution_mode : SlProviderExecutionMode) (completion_dispatch completion_dispatch_user : Z) : SlProviderOperationDescriptor :=
  {| de_request_or_app_scope := 0; de_cancellation := 0; de_deadline := 0; de_completion_dispatch := completion_dispatch;
     de_completion_dispatch_user := completion_dispatch_user; de_run := 0; de_run_user := 0; de_cleanup := 0; de_cleanup_user := 0;
     de_admission_diag := NULL; de_provider_instance_id := provider_instance_id; de_provider_kind := provider_kind;
     de_operation_name := operation_name; de_input := sl_bytes_empty; de_diagnostic_context := sl_str_empty;
     de_capability := {| cr_token := sl_str_empty; cr_operation := OPERATION_OUTSIDE 0 |}; de_scope := no_scope;
     de_operation_kind := operation_kind; de_execution_mode := execution_mode |}.

Definition sl_provider_operation_descriptor_attach_run (run user : Z) (d : SlProviderOperationDescriptor) : SlProviderOperationDescriptor :=
  {| de_request_or_app_scope := de_request_or_app_scope d; de_cancellation := de_cancellation d; de_deadline := de_deadline d;
     de_completion_dispatch := de_completion_dispatch d; de_completion_dispatch_user := de_completion_dispatch_user d; de_run := run;
     de_run_user := user; de_cleanup := de_cleanup d; de_cleanup_user := de_cleanup_user d; de_admission_diag := de_admission_diag d;
     de_provider_instance_id := de_provider_instance_id d; de_provider_kind := de_provider_kind d; de_operation_name := de_operation_name d;
     de_input := de_input d; de_diagnostic_context := de_diagnostic_context d; de_capability := de_capability d; de_scope := de_scope d;
     de_operation_kind := de_operation_kind d; de_execution_mode := de_execution_mode d |}.

Definition sl_provider_operation_descriptor_attach_cleanup (cleanup user : Z) (d : SlProviderOperationDescriptor) : SlProviderOperationDescriptor :=
  {| de_request_or_app_scope := de_request_or_app_scope d; de_cancellation := de_cancellation d; de_deadline := de_deadline d;
     de_completion_dispatch := de_completion_dispatch d; de_completion_dispatch_user := de_completion_dispatch_user d; de_run := de_run d;
     de_run_user := de_run_user d; de_cleanup := cleanup; de_cleanup_user := user; de_admission_diag := de_admission_diag d;
     de_provider_instance_id := de_provider_instance_id d; de_provider_kind := de_provider_kind d; de_operation_name := de_operation_name d;
     de_input := de_input d; de_diagnostic_context := de_diagnostic_context d; de_capability := de_capability d; de_scope := de_scope d;
     de_operation_kind := de_operation_kind d; de_execution_mode := de_execution_mode d |}.

Definition sl_provider_operation_descriptor_attach_capability (token : SlStr) (operation : SlCapabilityOperation)
    (d : SlProviderOperationDescriptor) : result SlProviderOperationDescriptor :=
  error_if negb (sl_provider_str_valid token) || match operation with OPERATION_OUTSIDE _ => true | _ => false end
    with SL_STATUS_INVALID_ARGUMENT ;;
  Ok {| de_request_or_app_scope := de_request_or_app_scope d; de_cancellation := de_cancellation d; de_deadline := de_deadline d;
        de_completion_dispatch := de_completion_dispatch d; de_completion_dispatch_user := de_completion_dispatch_user d; de_run := de_run d;
        de_run_user := de_run_user d; de_cleanup := de_cleanup d; de_cleanup_user := de_cleanup_user d; de_admission_diag := de_admission_diag d;
        de_provider_instance_id := de_provider_instance_id d; de_provider_kind := de_provider_kind d; de_operation_name := de_operation_name d;
        de_input := de_input d; de_diagnostic_context := de_diagnostic_context d;
        de_capability := {| cr_token := token; cr_operation := operation |}; de_scope := de_scope d;
        de_operation_kind := de_operation_kind d; de_execution_mode := de_execution_mode d |}.

Definition sl_provider_operation_descriptor_set_input (input : SlBytes) (d : SlProviderOperationDescriptor) : result SlProviderOperationDescriptor :=
  error_if negb (bytes_length input =? 0) && (bytes_ptr input =? 0) with SL_STATUS_INVALID_ARGUMENT ;;
  Ok {| de_request_or_app_scope := de_request_or_app_scope d; de_cancellation := de_cancellation d; de_deadline := de_deadline d;
        de_completion_dispatch := de_completion_dispatch d; de_completion_dispatch_user := de_completion_dispatch_user d;
        de_run := de_run d; de_run_user := de_run_user d; de_cleanup := de_cleanup d; de_cleanup_user := de_cleanup_user d;
        de_admission_diag := de_admission_diag d; de_provider_instance_id := de_provider_instance_id d;
        de_provider_kind := de_provider_kind d; de_operation_name := de_operation_name d; de_input := input;
        de_diagnostic_context := de_diagnostic_context d; de_capability := de_capability d; de_scope := de_scope d;
        de_operation_kind := de_operation_kind d; de_execution_mode := de_execution_mode d |}.

Definition sl_provider_operation_descriptor_attach_cancellation (cancellation deadline : Z) (d : SlProviderOperationDescriptor) : SlProviderOperationDescriptor :=
  {| de_request_or_app_scope := de_request_or_app_scope d; de_cancellation := cancellation; de_deadline := deadline;
     de_completion_dispatch := de_completion_dispatch d; de_completion_dispatch_user := de_completion_dispatch_user d;
     de_run := de_run d; de_run_user := de_run_user d; de_cleanup := de_cleanup d; de_cleanup_user := de_cleanup_user d;
     de_admission_diag := de_admission_diag d; de_provider_instance_id := de_provider_instance_id d;
     de_provider_kind := de_provider_kind d; de_operation_name := de_operation_name d; de_input := de_input d;
     de_diagnostic_context := de_diagnostic_context d; de_capability := de_capability d; de_scope := de_scope d;
     de_operation_kind := de_operation_kind d; de_execution_mode := de_execution_mode d |}.

Definition sl_provider_operation_descriptor_attach_scope (request_or_app_scope : Z) (scope : SlAsyncScopeRef) (d : SlProviderOperationDescriptor) : result SlProviderOperationDescriptor :=
  error_if (sr_scope scope =? 0) && (negb (sr_retain scope =? 0) || negb (sr_release scope =? 0)) with SL_STATUS_INVALID_ARGUMENT ;;
  Ok {| de_request_or_app_scope := request_or_app_scope; de_cancellation := de_cancellation d; de_deadline := de_deadline d;
        de_completion_dispatch := de_completion_dispatch d; de_completion_dispatch_user := de_completion_dispatch_user d;
        de_run := de_run d; de_run_user := de_run_user d; de_cleanup := de_cleanup d; de_cleanup_user := de_cleanup_user d;
        de_admission_diag := de_admission_diag d; de_provider_instance_id := de_provider_instance_id d;
        de_provider_kind := de_provider_kind d; de_operation_name := de_operation_name d; de_input := de_input d;
        de_diagnostic_context := de_diagnostic_context d; de_capability := de_capability d; de_scope := scope;
        de_operation_kind := de_operation_kind d; de_execution_mode := de_execution_mode d |}.

Definition sl_provider_operation_descriptor_attach_admission_diag (out_diag : nullable) (d : SlProviderOperationDescriptor) : SlProviderOperationDescriptor :=
  {| de_request_or_app_scope := de_request_or_app_scope d; de_cancellation := de_cancellation d; de_deadline := de_deadline d;
     de_completion_dispatch := de_completion_dispatch d; de_completion_dispatch_user := de_completion_dispatch_user d;
     de_run := de_run d; de_run_user := de_run_user d; de_cleanup := de_cleanup d; de_cleanup_user := de_cleanup_user d;
     de_admission_diag := out_diag; de_provider_instance_id := de_provider_instance_id d; de_provider_kind := de_provider_kind d;
     de_operation_name := de_operation_name d; de_input := de_input d; de_diagnostic_context := de_diagnostic_context d;
     de_capability := de_capability d; de_scope := de_scope d; de_operation_kind := de_operation_kind d;
     de_execution_mode := de_execution_mode d |}.

Definition sl_provider_operation_descriptor_set_diagnostic_context (diagnostic_context : SlStr) (d : SlProviderOperationDescriptor) : result SlProviderOperationDescriptor :=
  error_if negb (sl_provider_str_valid diagnostic_context) with SL_STATUS_INVALID_ARGUMENT ;;
  Ok {| de_request_or_app_scope := de_request_or_app_scope d; de_cancellation := de_cancellation d; de_deadline := de_deadline d;
        de_completion_dispatch := de_completion_dispatch d; de_completion_dispatch_user := de_completion_dispatch_user d;
        de_run := de_run d; de_run_user := de_run_user d; de_cleanup := de_cleanup d; de_cleanup_user := de_cleanup_user d;
        de_admission_diag := de_admission_diag d; de_provider_instance_id := de_provider_instance_id d;
        de_provider_kind := de_provider_kind d; de_operation_name := de_operation_name d; de_input := de_input d;
        de_diagnostic_context := diagnostic_context; de_capability := de_capability d; de_scope := de_scope d;
        de_operation_kind := de_operation_kind d; de_execution_mode := de_execution_mode d |}.

Definition sl_provider_descriptor_valid (d : SlProviderOperationDescriptor) : bool :=
  negb (de_completion_dispatch d =? 0) && sl_provider_execution_mode_is_supported (de_execution_mode d) &&
  sl_provider_operation_kind_is_supported (de_operation_kind d) && negb (str_length (de_provider_instance_id d) =? 0) &&
  negb (str_length (de_provider_kind d) =? 0) && negb (str_length (de_operation_name d) =? 0) &&
  sl_provider_str_valid (de_provider_instance_id d) && sl_provider_str_valid (de_provider_kind d) &&
  sl_provider_str_valid (de_operation_name d) && sl_provider_str_valid (cr_token (de_capability d)) &&
  sl_provider_str_valid (de_diagnostic_context d) && ((bytes_length (de_input d) =? 0) || negb (bytes_ptr (de_input d) =? 0)).

Definition safe_char (c : Z) : bool :=
  (97 <=? c) && (c <=? 122) || (65 <=? c) && (c <=? 90) || (48 <=? c) && (c <=? 57) || (c =? 46) || (c =? 95) || (c =? 45) || (c =? 58).

Definition sl_provider_hint_value_safe (m : mem) (value : SlStr) : bool :=
  sl_provider_str_valid value && negb (128 <? str_length value) && forallb safe_char (str_val m value).

Section Submit.
Context {BC : BuildConfig} {SC : SimdConfig} {RO : ReadOnlyData} {PH : ProviderHost} {OL : OperationLayout} (scratch : Z).
(** [executor->capability_check]. *)
Context (capability_check : SlStr -> SlCapabilityOperation -> SlStr -> SlStr -> nullable -> ST CheckSys unit).

Definition sl_provider_safe_hint_value (m : mem) (value : SlStr) : SlStr :=
  if sl_provider_hint_value_safe m value then value else literal "<redacted>".

Definition sl_provider_add_hint_pair (prefix : string) (value : SlStr) (builder : SlDiag) : ST World SlDiag :=
  return_if (str_ptr (literal prefix) =? 0) || ((0 <? str_length value) && (str_ptr value =? 0)) with SL_STATUS_INVALID_ARGUMENT ;;
  hint_length ← lift (sl_checked_add_size (str_length (literal prefix)) (str_length value) REF) ;
  hint ← with_local_builder scratch (hint_text REF (literal prefix) value hint_length) ;
  lift (sl_diag_builder_add_hint_owned REF builder hint).

Definition safe_hint (prefix : string) (value : SlStr) (builder : SlDiag) : ST World SlDiag :=
  m ← gets w_mem ;
  sl_provider_add_hint_pair prefix (sl_provider_safe_hint_value m value) builder.
Definition safe_hint_if (test : bool) (prefix : string) (value : SlStr) (builder : SlDiag) : ST World SlDiag :=
  if test then safe_hint prefix value builder else mret builder.

Definition sl_provider_build_denied_diag (d : SlProviderOperationDescriptor) (provider_token reason : SlStr) : ST ProviderSys unit :=
  if is_null (de_admission_diag d) then mret tt else
  modify (set_pv_diag zero_diag) ;;
  builder ← in_pv_world (sl_diag_builder_init REF SL_DIAG_SEVERITY_ERROR SL_DIAG_PERMISSION_DENIED reason) ;
  builder ← in_pv_world (safe_hint_if (negb (sl_str_is_empty (cr_token (de_capability d)))) "token: " (cr_token (de_capability d)) builder) ;
  builder ← in_pv_world (safe_hint "operation: " (de_operation_name d) builder) ;
  builder ← in_pv_world (safe_hint "provider instance: " (de_provider_instance_id d) builder) ;
  builder ← in_pv_world (safe_hint "provider kind: " (de_provider_kind d) builder) ;
  builder ← in_pv_world (safe_hint_if (negb (sl_str_is_empty provider_token)) "provider: " provider_token builder) ;
  modify (set_pv_diag builder).

Definition sl_provider_build_admission_diag (d : SlProviderOperationDescriptor) (code : Z) (reason : SlStr) : ST ProviderSys unit :=
  if is_null (de_admission_diag d) then mret tt else
  modify (set_pv_diag zero_diag) ;;
  builder ← in_pv_world (sl_diag_builder_init REF SL_DIAG_SEVERITY_ERROR code reason) ;
  builder ← in_pv_world (safe_hint "operation: " (de_operation_name d) builder) ;
  builder ← in_pv_world (safe_hint "provider instance: " (de_provider_instance_id d) builder) ;
  builder ← in_pv_world (safe_hint "provider kind: " (de_provider_kind d) builder) ;
  builder ← in_pv_world (safe_hint_if (negb (sl_str_is_empty (de_diagnostic_context d))) "context: " (de_diagnostic_context d) builder) ;
  modify (set_pv_diag builder).

(** The diagnostic's own failure is ignored. *)
Definition sl_provider_executor_reject_with_diag {A} (d : SlProviderOperationDescriptor) (code : Z) (message : string)
    (status : SlStatusCode) : ST ProviderSys A := fun s =>
  let '(_, s) := sl_provider_build_admission_diag d code (literal message) s in (Err status, s).

Definition sl_provider_executor_validate_submission (kind : SlAsyncBackendKind) (d : SlProviderOperationDescriptor) : ST ProviderSys unit :=
  s ← gets (fun s => s) ;
  let e := pv_exec s in
  if negb (sl_provider_descriptor_valid d) then modify (bump invalid_operation_count) ;; fail SL_STATUS_INVALID_ARGUMENT else
  if negb (bool_decide (de_execution_mode d = ex_mode e)) then
    modify (bump invalid_operation_count) ;;
    sl_provider_executor_reject_with_diag d SL_DIAG_INVALID_ARGUMENT "provider operation rejected: invalid execution mode" SL_STATUS_INVALID_ARGUMENT else
  if negb (sl_str_equal (w_mem (pv_world s)) (de_provider_instance_id d) (sl_owned_str_as_view_ref (Some (ex_instance_id e)))) ||
     negb (sl_str_equal (w_mem (pv_world s)) (de_provider_kind d) (sl_owned_str_as_view_ref (Some (ex_provider_kind e)))) then
    modify (bump invalid_operation_count) ;;
    sl_provider_executor_reject_with_diag d SL_DIAG_INVALID_ARGUMENT "provider operation rejected: invalid provider binding" SL_STATUS_INVALID_ARGUMENT else
  let provider_token := sl_owned_str_as_view_ref (Some (ex_provider_token e)) in
  if ex_shutting_down e then
    modify (bump shutdown_rejected_count) ;;
    sl_provider_executor_reject_with_diag d SL_DIAG_APP_LIFECYCLE "provider operation rejected: executor shutdown" SL_STATUS_CANCELLED else
  let token := pv_tokens s (de_cancellation d) in
  if negb (de_cancellation d =? 0) && sl_cancellation_token_is_cancelled REF token
  then fail (sl_cancellation_status_code (sl_cancellation_token_reason REF token)) else
  if sl_str_is_empty (cr_token (de_capability d)) then
    sl_provider_build_denied_diag d provider_token (literal "capability access denied: missing capability") ;;
    modify (bump capability_denied_count) ;; fail SL_STATUS_INVALID_STATE else
  on_error
    (zoom (fun s => {| cs_world := pv_world s; cs_diag := pv_diag s |}) (fun c s => set_pv_diag (cs_diag c) (set_pv_world (cs_world c) s))
       (capability_check (cr_token (de_capability d)) (cr_operation (de_capability d)) provider_token (de_provider_kind d) (de_admission_diag d)))
    (fun status => modify (bump capability_denied_count) ;; fail status) ;;
  if bool_decide (ex_mode e = SL_PROVIDER_EXECUTION_UNAVAILABLE) then
    modify (bump invalid_operation_count) ;;
    sl_provider_executor_reject_with_diag d SL_DIAG_PROVIDER_UNAVAILABLE "provider operation rejected: execution mode unavailable" SL_STATUS_UNSUPPORTED else
  if negb (de_run d =? 0) && negb (sl_provider_execution_mode_requires_offload_worker (de_execution_mode d)) then
    modify (bump invalid_operation_count) ;;
    sl_provider_executor_reject_with_diag d SL_DIAG_INVALID_ARGUMENT "provider operation rejected: invalid worker mode" SL_STATUS_UNSUPPORTED else
  if negb (de_run d =? 0) && negb (bool_decide (kind = SL_ASYNC_BACKEND_LIBUV)) then
    modify (bump invalid_operation_count) ;;
    sl_provider_executor_reject_with_diag d SL_DIAG_INVALID_ARGUMENT "provider operation rejected: non-thread-safe completion backend" SL_STATUS_UNSUPPORTED else
  mret tt.

Definition sl_provider_executor_reserve_slot (d : SlProviderOperationDescriptor) : ST ProviderSys nat :=
  e ← gets pv_exec ;
  if ex_capacity e <=? ex_count e then
    modify (bump overflow_count) ;;
    sl_provider_executor_reject_with_diag d SL_DIAG_ENGINE_BACKPRESSURE "provider operation rejected: executor queue full" SL_STATUS_CAPACITY_EXCEEDED else
  match sl_provider_executor_find_free_slot e with
  | Some slot => mret slot
  | None => fail SL_STATUS_CAPACITY_EXCEEDED
  end.

Definition sl_provider_copy_str (input : SlStr) (out_sso : Z) : ST World SlOwnedStr :=
  if str_length input =? 0 then write_owned out_sso owned_zero else sl_str_copy_to_arena REF input REF out_sso.

(** The operation at [p] with its strings and input in the arena. *)
Definition sl_provider_operation_copy_descriptor (p sequence : Z) (d : SlProviderOperationDescriptor) : ST World operation_facts :=
  instance ← sl_provider_copy_str (de_provider_instance_id d) (p + field_sso FieldInstance) ;
  kind ← sl_provider_copy_str (de_provider_kind d) (p + field_sso FieldKind) ;
  name ← sl_provider_copy_str (de_operation_name d) (p + field_sso FieldName) ;
  token ← sl_provider_copy_str (cr_token (de_capability d)) (p + field_sso FieldToken) ;
  context ← sl_provider_copy_str (de_diagnostic_context d) (p + field_sso FieldContext) ;
  input ← sl_bytes_copy_to_arena REF (de_input d) REF ;
  mret {| of_operation_kind := de_operation_kind d; of_execution_mode := de_execution_mode d; of_request_or_app_scope := de_request_or_app_scope d;
          of_scope := de_scope d; of_cancellation := de_cancellation d; of_deadline := de_deadline d; of_provider_instance_id := instance;
          of_provider_kind := kind; of_operation_name := name; of_capability_token := token;
          of_capability := {| cr_token := sl_owned_str_as_view_ref (Some token); cr_operation := cr_operation (de_capability d) |};
          of_diagnostic_context := context; of_input := input; of_run := de_run d; of_run_user := de_run_user d;
          of_completion_dispatch := de_completion_dispatch d; of_completion_dispatch_user := de_completion_dispatch_user d;
          of_cleanup := de_cleanup d; of_cleanup_user := de_cleanup_user d; of_sequence := sequence |}.

(** A queued operation. *)
Definition sl_provider_operation_init_from_descriptor (facts : operation_facts) : SlProviderOperation :=
  {| op_facts := facts; op_state := SL_PROVIDER_OPERATION_QUEUED; op_terminal_status := SL_STATUS_OK;
     op_terminal_reason := SL_CANCELLATION_REASON_NONE; op_diag := zero_diag; op_cleanup_ran := false; op_worker_claimed := false;
     op_terminal_completion_drained := false; op_counted_in_flight := false |}.

Definition sl_provider_executor_activate_submitted (s : ProviderSys) : ProviderSys := sl_provider_executor_activate_next s.

(** The last locked section. *)
Definition admit_operation (slot : nat) (p : Z) (o : SlProviderOperation) (s : ProviderSys) : ProviderSys :=
  let s := set_pv_ops (<[p := o]> (pv_ops s)) s in
  let s := upd_exec (fun e => ex_set_accounts (ex_count e + 1) (ex_in_flight e) (ex_set_slots (<[slot := p]> (ex_slots e)) e)) s in
  sl_provider_executor_activate_submitted (bump submitted_count s).

(** The operation's address. *)
Definition sl_provider_executor_submit (arena : nullable) (d : SlProviderOperationDescriptor) (out : nullable) : ST (AsyncSys ProviderSys) Z :=
  return_if is_null arena || is_null out with SL_STATUS_INVALID_ARGUMENT ;;
  kind ← gets (fun s => sl_async_loop_backend_kind REF (av_loop s)) ;
  on_provider (
    sl_provider_executor_validate_submission kind d ;;
    slot ← sl_provider_executor_reserve_slot d ;
    mark ← gets (fun s => sl_arena_mark REF (pv_world s)) ;
    p ← in_pv_world (sl_arena_alloc REF operation_size operation_alignment REF) ;
    sequence ← gets (fun s => ex_next_sequence (pv_exec s)) ;
    modify (upd_exec (fun e => ex_set_next_sequence (wrap64 (ex_next_sequence e + 1)) e)) ;;
    facts ← on_error (in_pv_world (sl_provider_operation_copy_descriptor p sequence d))
              (fun status => modify (fun s => set_pv_world (snd (sl_arena_reset_to REF mark (pv_world s))) s) ;; fail status) ;
    shutting_down ← gets (fun s => ex_shutting_down (pv_exec s)) ;
    if (shutting_down : bool) then
      modify (bump shutdown_rejected_count) ;;
      modify (fun s => set_pv_world (snd (sl_arena_reset_to REF mark (pv_world s))) s) ;; fail SL_STATUS_CANCELLED
    else
      modify (admit_operation slot p (sl_provider_operation_init_from_descriptor facts)) ;;
      mret p).
End Submit.

(** * Initialisation *)

(** Whether the platform creates the mutex, the condition and the [i]-th thread. *)
Class PlatformThreads := {
  mutex_create : ST World unit;
  cond_create : ST World unit;
  thread_start : nat -> ST World unit;
}.

Section Init.
Context {BC : BuildConfig} {SC : SimdConfig} {PT : PlatformThreads}.

(** The loop that starts the workers, and how many it started. *)
Fixpoint start_threads (index n : nat) : ST World unit :=
  match n with
  | O => mret tt
  | S n => thread_start index ;; start_threads (S index) n
  end.

(** On failure the workers that were started are stopped and joined; the executor is then
    zeroed by its caller. *)
Definition sl_provider_executor_start_workers (worker_count : Z) : ST World unit :=
  if worker_count =? 0 then mret tt else
  mutex_create ;;
  cond_create ;;
  sl_arena_array_alloc REF worker_count 8 8 REF ;;
  start_threads O (Z.to_nat worker_count).

(** [ids] are the addresses of the inline bytes of the executor's three owned strings. *)
Definition sl_provider_executor_init (executor arena completion_loop : nullable) (config : SlProviderExecutorConfig) (slots : nullable)
    (ids : Z * Z * Z) : ST World SlProviderInstanceExecutor :=
  return_if is_null executor || is_null arena || is_null completion_loop || negb (sl_provider_executor_config_valid config) ||
            (is_null slots && negb (cf_queue_capacity config =? 0)) with SL_STATUS_INVALID_ARGUMENT ;;
  instance ← sl_provider_copy_str (cf_instance_id config) (fst (fst ids)) ;
  kind ← sl_provider_copy_str (cf_provider_kind config) (snd (fst ids)) ;
  token ← sl_provider_copy_str (if sl_str_is_empty (cf_provider_token config) then cf_instance_id config else cf_provider_token config) (snd ids) ;
  sl_provider_executor_start_workers (sl_provider_executor_effective_worker_count config) ;;
  mret {| ex_mode := cf_mode config; ex_slots := replicate (Z.to_nat (cf_queue_capacity config)) 0; ex_count := 0; ex_in_flight := 0;
          ex_max_in_flight := sl_provider_executor_default_max_in_flight (cf_mode config) (cf_max_in_flight config) (cf_worker_count config);
          ex_worker_count := cf_worker_count config; ex_next_sequence := 0;
          ex_counters := fun c => if decide (c = worker_started_count) then sl_provider_executor_effective_worker_count config else 0;
          ex_shutting_down := false; ex_worker_stop_requested := false; ex_worker_running := false; ex_instance_id := instance;
          ex_provider_kind := kind; ex_provider_token := token |}.
End Init.

(** * Queries and names *)

Definition sl_provider_operation_state (p : Z) (s : ProviderSys) : SlProviderOperationState :=
  if p =? 0 then SL_PROVIDER_OPERATION_EMPTY else op_state (op_at s p).
Definition sl_provider_operation_input (p : Z) (s : ProviderSys) : SlBytes :=
  if p =? 0 then sl_bytes_empty else of_input (op_facts (op_at s p)).
Definition sl_provider_executor_pending_count (executor : nullable) (s : ProviderSys) : Z :=
  if is_null executor then 0 else ex_count (pv_exec s).
Definition sl_provider_executor_in_flight_count (executor : nullable) (s : ProviderSys) : Z :=
  if is_null executor then 0 else ex_in_flight (pv_exec s).
Definition sl_provider_executor_is_shutting_down (executor : nullable) (s : ProviderSys) : bool :=
  negb (is_null executor) && ex_shutting_down (pv_exec s).

Section Names.
Context {RO : ReadOnlyData}.

Definition sl_provider_execution_mode_name (mode : SlProviderExecutionMode) : SlStr :=
  match mode with
  | SL_PROVIDER_EXECUTION_SERIALIZED_BLOCKING => literal "SERIALIZED_BLOCKING"
  | SL_PROVIDER_EXECUTION_BLOCKING_POOL => literal "BLOCKING_POOL"
  | SL_PROVIDER_EXECUTION_TRUE_ASYNC => literal "TRUE_ASYNC"
  | SL_PROVIDER_EXECUTION_UNAVAILABLE => literal "UNAVAILABLE"
  | MODE_OUTSIDE _ => literal "UNKNOWN"
  end.

Definition is_one_of (m : mem) (text : SlStr) (names : list string) : bool := existsb (fun n => sl_str_equal m text (literal n)) names.

Definition sl_provider_execution_mode_parse (m : mem) (text : SlStr) (out : nullable) : result SlProviderExecutionMode :=
  error_if is_null out || negb (sl_provider_str_valid text) with SL_STATUS_INVALID_ARGUMENT ;;
  if is_one_of m text ["SERIALIZED_BLOCKING"; "SerializedBlocking"; "serialized-blocking"]%string then Ok SL_PROVIDER_EXECUTION_SERIALIZED_BLOCKING else
  if is_one_of m text ["BLOCKING_POOL"; "BlockingPool"; "blocking-pool"]%string then Ok SL_PROVIDER_EXECUTION_BLOCKING_POOL else
  if is_one_of m text ["TRUE_ASYNC"; "TrueAsync"; "true-async"]%string then Ok SL_PROVIDER_EXECUTION_TRUE_ASYNC else
  if is_one_of m text ["UNAVAILABLE"; "Unavailable"; "unavailable"]%string then Ok SL_PROVIDER_EXECUTION_UNAVAILABLE else
  Err SL_STATUS_INVALID_ARGUMENT.

Definition sl_provider_operation_kind_name (kind : SlProviderOperationKind) : SlStr :=
  match kind with
  | SL_PROVIDER_OPERATION_KIND_OPEN => literal "open"
  | SL_PROVIDER_OPERATION_KIND_EXEC => literal "exec"
  | SL_PROVIDER_OPERATION_KIND_QUERY => literal "query"
  | SL_PROVIDER_OPERATION_KIND_QUERY_ONE => literal "queryOne"
  | SL_PROVIDER_OPERATION_KIND_CLOSE => literal "close"
  | SL_PROVIDER_OPERATION_KIND_INTERNAL => literal "internal"
  | _ => literal "unknown"
  end.
End Names.
