(* ===== verification/ProviderRun.v ===== *)
(** The threads of a provider executor (src/core/provider_executor.c).

    A step is a section some thread runs under the executor's lock, or a call of the owner
    thread.  Calls of the owner are serialized, as the header asks; worker threads
    interleave with them and with each other.  The owner takes completions off the loop,
    dispatches them (or, when the loop is disposed of, discards them) and runs their
    cleanups; calls made by a dispatched callback are further steps before that cleanup.
    A submission is one step: workers neither take a slot nor touch what it reserves. *)

From stdpp Require Import strings gmap list relations.
From S2P Require Import Prelude Memory Status Arena Str Bytes Simd StrArena Container Sink Builder Diag Queue Loop Async Capability HttpBackend AsyncLoop Provider.

Open Scope Z_scope.

(** * Workers *)

(** What [run] answered. *)
Record run_result := { rr_status : SlStatusCode; rr_diag : Z; rr_message : SlStr }.

(** Where [sl_provider_worker_main] is: at its start, looking for work, in [run], with [run] returned, with
    the claim given up, with the completion made, or out of its loop. *)
Inductive worker_pc :=
| WStarting
| WLooking
| WRunning (operation : Z)
| WReturned (operation : Z) (result : run_result)
| WUnclaimed (operation : Z) (result : run_result)
| WCompleted (run_status complete_status : SlStatusCode)
| WStopped.

Section Workers.
Context {RO : ReadOnlyData} {PH : ProviderHost}.

Definition worker_start (s : ProviderSys) : ProviderSys :=
  upd_exec (fun e => ex_set_flags (ex_shutting_down e) (ex_worker_stop_requested e) true e) s.

(** Waiting for work, under the lock. *)
Definition worker_look (s : ProviderSys) : worker_pc * ProviderSys :=
  if ex_worker_stop_requested (pv_exec s) then
    (WStopped, bump worker_stopped_count (upd_exec (fun e => ex_set_flags (ex_shutting_down e) (ex_worker_stop_requested e) false e) s))
  else
    match sl_provider_executor_next_runnable_locked s with
    | None => (WLooking, s)
    | Some p => (WRunning p, note (EvRun p) (upd_op p (op_set_claimed true) s))
    end.

(** The defaults for what [run] left unset. *)
Definition settle_result (r : run_result) : run_result :=
  {| rr_status := rr_status r;
     rr_diag := if negb (sl_status_is_ok (rr_status r)) && (rr_diag r =? SL_DIAG_NONE) then SL_DIAG_INTERNAL_ERROR else rr_diag r;
     rr_message := if sl_provider_str_valid (rr_message r) then rr_message r else literal "provider worker failed" |}.

(** The first section after [run]. *)
Definition worker_unclaim (p : Z) (s : ProviderSys) : ProviderSys :=
  let s := upd_op p (op_set_claimed false) s in
  if bool_decide (op_state (op_at s p) = SL_PROVIDER_OPERATION_TERMINAL) && op_terminal_completion_drained (op_at s p)
  then sl_provider_executor_finish_terminal_locked p s else s.

(** [sl_provider_operation_complete], as the worker calls it. *)
Definition worker_complete (p : Z) (r : run_result) (s : AsyncSys ProviderSys) : SlStatusCode * AsyncSys ProviderSys :=
  match sl_provider_operation_complete p (rr_status r) (rr_diag r) (rr_message r) s with
  | (Ok _, s) => (SL_STATUS_OK, s)
  | (Err c, s) => (c, s)
  end.

(** The last section of a round. *)
Definition worker_account (run_status complete_status : SlStatusCode) (s : ProviderSys) : ProviderSys :=
  let s := if bool_decide (complete_status = SL_STATUS_INVALID_STATE) then bump late_completion_count s else s in
  if sl_status_is_ok run_status then s else bump worker_failure_count s.
End Workers.

(** * The system *)

(** [rn_owner] is the completion the owner thread is dispatching. *)
Record RunSys := { rn_sys : AsyncSys ProviderSys; rn_workers : list worker_pc; rn_owner : option SlAsyncCompletion }.

Definition rn_env (r : RunSys) : ProviderSys := av_env (rn_sys r).
Definition with_env (f : ProviderSys -> ProviderSys) (r : RunSys) : RunSys :=
  {| rn_sys := on_env f (rn_sys r); rn_workers := rn_workers r; rn_owner := rn_owner r |}.
Definition with_sys (s : AsyncSys ProviderSys) (r : RunSys) : RunSys := {| rn_sys := s; rn_workers := rn_workers r; rn_owner := rn_owner r |}.
Definition with_worker (i : nat) (w : worker_pc) (r : RunSys) : RunSys :=
  {| rn_sys := rn_sys r; rn_workers := <[i := w]> (rn_workers r); rn_owner := rn_owner r |}.
Definition with_owner (o : option SlAsyncCompletion) (r : RunSys) : RunSys := {| rn_sys := rn_sys r; rn_workers := rn_workers r; rn_owner := o |}.

Section Steps.
Context {BC : BuildConfig} {SC : SimdConfig} {RO : ReadOnlyData} {PH : ProviderHost} {OL : OperationLayout} (scratch : Z).
Context (capability_check : SlStr -> SlCapabilityOperation -> SlStr -> SlStr -> nullable -> ST CheckSys unit).

Inductive run_step : RunSys -> RunSys -> Prop :=
(* a worker *)
| step_start r i : rn_workers r !! i = Some WStarting -> run_step r (with_worker i WLooking (with_env worker_start r))
| step_look r i pc s' :
    rn_workers r !! i = Some WLooking -> worker_look (rn_env r) = (pc, s') ->
    run_step r (with_worker i pc (with_env (fun _ => s') r))
| step_return r i p result :
    rn_workers r !! i = Some (WRunning p) -> run_step r (with_worker i (WReturned p (settle_result result)) r)
| step_unclaim r i p result :
    rn_workers r !! i = Some (WReturned p result) -> run_step r (with_worker i (WUnclaimed p result) (with_env (worker_unclaim p) r))
| step_complete r i p result c s' :
    rn_workers r !! i = Some (WUnclaimed p result) -> worker_complete p result (rn_sys r) = (c, s') ->
    run_step r (with_worker i (WCompleted (rr_status result) c) (with_sys s' r))
| step_account r i rs cs :
    rn_workers r !! i = Some (WCompleted rs cs) -> run_step r (with_worker i WLooking (with_env (worker_account rs cs) r))
(* calls of the owner; an operation's address is new, and only addresses of operations are passed *)
| step_submit r d p s' :
    sl_provider_executor_submit scratch capability_check REF d REF (rn_sys r) = (Ok p, s') -> p <> 0 -> pv_ops (rn_env r) !! p = None ->
    run_step r (with_sys s' r)
| step_submit_refused r arena d out c s' :
    sl_provider_executor_submit scratch capability_check arena d out (rn_sys r) = (Err c, s') -> run_step r (with_sys s' r)
| step_settle r p status code message :
    is_Some (pv_ops (rn_env r) !! p) ->
    run_step r (with_sys (snd (sl_provider_operation_complete p status code message (rn_sys r))) r)
| step_cancel r p detail :
    is_Some (pv_ops (rn_env r) !! p) -> run_step r (with_sys (snd (sl_provider_operation_cancel p detail (rn_sys r))) r)
| step_timeout r p detail :
    is_Some (pv_ops (rn_env r) !! p) -> run_step r (with_sys (snd (sl_provider_operation_timeout p detail (rn_sys r))) r)
(* their parts, when a worker runs between them *)
| step_cancel_token r p reason detail : run_step r (with_env (fun s => snd (cancel_operation_token p reason detail s)) r)
| step_post r p status reason code message count_cancelled count_timed_out :
    is_Some (pv_ops (rn_env r) !! p) ->
    run_step r (with_sys (snd (sl_provider_operation_post_terminal p status reason code message count_cancelled count_timed_out (rn_sys r))) r)
| step_begin_shutdown r : run_step r (with_env begin_shutdown r)
| step_shutdown_slot r i p :
    ex_slots (pv_exec (rn_env r)) !! i = Some p -> run_step r (with_sys (snd (shutdown_slot p (rn_sys r))) r)
| step_begin_dispose r : run_step r (with_env dispose_begin r)
| step_end_dispose r :
    ex_shutting_down (pv_exec (rn_env r)) = true -> Forall (eq WStopped) (rn_workers r) -> run_step r (with_env dispose_end r)
(* the loop *)
| step_dispatch r c s' :
    rn_owner r = None -> sl_async_loop_pop (rn_sys r) = (Some c, s') ->
    run_step r (with_owner (Some c) (with_sys (snd (call_dispatch c s')) r))
| step_discard r c s' :
    rn_owner r = None -> sl_async_loop_pop (rn_sys r) = (Some c, s') -> run_step r (with_owner (Some c) (with_sys s' r))
| step_finish r c :
    rn_owner r = Some c -> run_step r (with_owner None (with_sys (sl_async_loop_finish_completion c (rn_sys r)) r)).

(** An executor as [sl_provider_executor_init] leaves it, with its workers started. *)
Record initial (workers : nat) (r : RunSys) : Prop := {
  in_ops : pv_ops (rn_env r) = ∅;
  in_slots : Forall (eq 0) (ex_slots (pv_exec (rn_env r)));
  in_counts : ex_count (pv_exec (rn_env r)) = 0 /\ ex_in_flight (pv_exec (rn_env r)) = 0 /\ 0 <= ex_max_in_flight (pv_exec (rn_env r));
  in_log : pv_log (rn_env r) = [];
  in_queue : al_queue (av_loop (rn_sys r)) = [];
  in_workers : rn_workers r = replicate workers WStarting;
  in_owner : rn_owner r = None;
}.
End Steps.

(** * Counting *)

Fixpoint sum_of {A} (f : A -> Z) (l : list A) : Z :=
  match l with [] => 0 | x :: l => f x + sum_of f l end.

Section Sums.
Context {A : Type}.
Implicit Types (f g : A -> Z) (l : list A).

Lemma sum_app f l1 l2 : sum_of f (l1 ++ l2) = sum_of f l1 + sum_of f l2.
Proof. induction l1 as [|x l1 IH]; cbn [sum_of app]; lia. Qed.

Lemma sum_insert f l i x y : l !! i = Some x -> sum_of f (<[i := y]> l) = sum_of f l - f x + f y.
Proof.
  revert i. induction l as [|z l IH]; intros [|i] H; [done|done| |]; cbn in *; [injection H as ->; lia|]. rewrite IH by done. lia.
Qed.

Lemma sum_ext f g l : (forall x, x ∈ l -> f x = g x) -> sum_of f l = sum_of g l.
Proof.
  induction l as [|x l IH]; [done|]. intros H. cbn [sum_of]. rewrite (H x) by constructor. rewrite IH; [done|]. intros y Hy. apply H. by constructor.
Qed.

Lemma sum_zero f l : (forall x, x ∈ l -> f x = 0) -> sum_of f l = 0.
Proof. intros H. rewrite (sum_ext f (fun _ => 0)) by done. induction l; [done|]. cbn. apply IHl. intros x Hx. apply H. by constructor. Qed.

Lemma sum_nonneg f l : (forall x, 0 <= f x) -> 0 <= sum_of f l.
Proof. intros H. induction l as [|x l IH]; cbn [sum_of]; [lia|]. specialize (H x). lia. Qed.

Lemma sum_le f g l : (forall x, x ∈ l -> f x <= g x) -> sum_of f l <= sum_of g l.
Proof.
  induction l as [|x l IH]; intros H; cbn [sum_of]; [lia|]. pose proof (H x ltac:(constructor)).
  assert (sum_of f l <= sum_of g l); [|lia]. apply IH. intros y Hy. apply H. by constructor.
Qed.

Lemma sum_at_least f l i x : (forall y, 0 <= f y) -> l !! i = Some x -> f x <= sum_of f l.
Proof.
  intros H. revert i. induction l as [|y l IH]; intros [|i] Hi; [done|done| |]; cbn in *.
  - injection Hi as ->. pose proof (sum_nonneg f l H). lia.
  - specialize (IH _ Hi). specialize (H y). lia.
Qed.
End Sums.

(** The operations in the slots are distinct. *)
Definition distinct (slots : list Z) : Prop := forall i j p, p <> 0 -> slots !! i = Some p -> slots !! j = Some p -> i = j.

Lemma sum_change f g slots i p :
  distinct slots -> p <> 0 -> slots !! i = Some p -> (forall q, q <> p -> f q = g q) -> sum_of g slots = sum_of f slots - f p + g p.
Proof.
  intros Hd Hp Hi Hfg.
  assert (E : sum_of g (<[i := 0]> slots) = sum_of f (<[i := 0]> slots)).
  { apply sum_ext. intros q Hq. apply list_elem_of_lookup in Hq as [j Hj]. destruct (decide (j = i)) as [->|Hji].
    - rewrite list_lookup_insert_eq in Hj by (by eapply lookup_lt_Some). injection Hj as <-. symmetry. apply Hfg. done.
    - rewrite list_lookup_insert_ne in Hj by done. symmetry. apply Hfg. intros ->. apply Hji. by eapply Hd. }
  rewrite (sum_insert f slots i p 0 Hi), (sum_insert g slots i p 0 Hi) in E. assert (f 0 = g 0) by (apply Hfg; done). lia.
Qed.

Lemma find_slot_spec p slots :
  match find_slot p slots with Some i => slots !! i = Some p | None => p ∉ slots end.
Proof.
  induction slots as [|q slots IH]; cbn; [apply not_elem_of_nil|]. destruct (Z.eqb_spec q p) as [->|E]; [done|].
  destruct (find_slot p slots); cbn; [done|]. rewrite not_elem_of_cons. by split.
Qed.

Lemma distinct_free slots i : distinct slots -> distinct (<[i := 0]> slots).
Proof.
  intros Hd j k p Hp Hj Hk. apply list_lookup_insert_Some in Hj as [(-> & <- & _)|[? Hj]]; [done|].
  apply list_lookup_insert_Some in Hk as [(-> & <- & _)|[? Hk]]; [done|]. by eapply Hd.
Qed.

Lemma distinct_take slots i p : distinct slots -> p ∉ slots -> distinct (<[i := p]> slots).
Proof.
  intros Hd Hp j k q Hq Hj Hk. apply list_lookup_insert_Some in Hj as [(-> & <- & _)|[? Hj]], Hk as [(<- & ? & _)|[? Hk]]; try done.
  - exfalso. apply Hp. apply list_elem_of_lookup. by exists k.
  - subst. exfalso. apply Hp. apply list_elem_of_lookup. by exists j.
  - by eapply Hd.
Qed.

(** Which operations are left in the slots when one leaves. *)
Lemma freed_elem slots i p q : distinct slots -> p <> 0 -> slots !! i = Some p -> q <> 0 -> q ∈ <[i := 0]> slots <-> q ∈ slots /\ q <> p.
Proof.
  intros Hd Hp Hi Hq. rewrite !list_elem_of_lookup. split.
  - intros [j Hj]. apply list_lookup_insert_Some in Hj as [(-> & <- & _)|[Hne Hj]]; [done|]. split; [by exists j|]. intros ->. apply Hne. by eapply Hd.
  - intros [[j Hj] Hne]. exists j. rewrite list_lookup_insert_ne; [done|]. intros ->. congruence.
Qed.

Lemma taken_elem (slots : list Z) (i : nat) p q : slots !! i = Some 0 -> q <> 0 -> q ∈ <[i := p]> slots <-> q ∈ slots \/ q = p.
Proof.
  intros Hi Hq. rewrite !list_elem_of_lookup. split.
  - intros [j Hj]. apply list_lookup_insert_Some in Hj as [(-> & <- & _)|[Hne Hj]]; [by right|]. left. by exists j.
  - intros [[j Hj]| ->].
    + exists j. rewrite list_lookup_insert_ne; [done|]. intros ->. congruence.
    + exists i. apply list_lookup_insert_eq. by eapply lookup_lt_Some.
Qed.

(** How often an event happened, and its place in the counts of others. *)
Definition times (e : provider_event) (s : ProviderSys) : Z := sum_of (fun e' => if decide (e = e') then 1 else 0) (pv_log s).

Lemma times_note e e' s : times e (note e' s) = times e s + if decide (e = e') then 1 else 0.
Proof. unfold times, note. cbn [pv_log]. rewrite sum_app. cbn [sum_of]. lia. Qed.

Lemma times_nonneg e s : 0 <= times e s.
Proof. apply sum_nonneg. intros x. case_decide; lia. Qed.
