(* ===== verification/ProviderInv.v ===== *)
(** The accounts of a provider executor stay exact under every interleaving of its threads
    (src/core/provider_executor.c). *)

From stdpp Require Import strings gmap list relations.
From S2P Require Import Prelude Memory Status Arena Str Bytes Simd StrArena Container Sink Builder Diag Queue Loop Async Capability HttpBackend AsyncLoop Provider ProviderRun.

Open Scope Z_scope.

(** * The invariant *)

(** The worker that has claimed an operation. *)
Definition works_on (p : Z) (w : worker_pc) : Z :=
  match w with WRunning q | WReturned q _ => if q =? p then 1 else 0 | _ => 0 end.
Definition working (ws : list worker_pc) (p : Z) : Z := sum_of (works_on p) ws.

(** The workers that know an operation. *)
Definition knows (p : Z) (w : worker_pc) : Z :=
  match w with WRunning q | WReturned q _ | WUnclaimed q _ => if q =? p then 1 else 0 | _ => 0 end.
Definition knowing (ws : list worker_pc) (p : Z) : Z := sum_of (knows p) ws.

(** The completions of an operation. *)
Definition is_for (p : Z) (c : SlAsyncCompletion) : Z := if ac_operation c =? p then 1 else 0.
Definition pending (cs : list SlAsyncCompletion) (p : Z) : Z := sum_of (is_for p) cs.

Definition occupied (p : Z) : Z := if p =? 0 then 0 else 1.
Definition flying (s : ProviderSys) (p : Z) : Z := if negb (p =? 0) && op_counted_in_flight (op_at s p) then 1 else 0.

(** Nothing is in the slots and nothing will be. *)
Definition closed (s : ProviderSys) : bool := forallb (fun p => p =? 0) (ex_slots (pv_exec s)) && ex_shutting_down (pv_exec s).

(** An operation, whether it has a slot, how many workers have claimed it and how many of
    its completions are in the loop. *)
Definition op_fine (o : SlProviderOperation) (slotted : bool) (claims completions : Z) (over : bool) : Prop :=
  claims = (if op_worker_claimed o then 1 else 0) /\
  if slotted then
    op_cleanup_ran o = false /\
    match op_state o with
    | SL_PROVIDER_OPERATION_EMPTY => False
    | SL_PROVIDER_OPERATION_QUEUED =>
        op_counted_in_flight o = false /\ op_worker_claimed o = false /\ op_terminal_completion_drained o = false /\ completions = 0
    | SL_PROVIDER_OPERATION_ACTIVE => op_counted_in_flight o = true /\ op_terminal_completion_drained o = false /\ completions = 0
    | SL_PROVIDER_OPERATION_TERMINAL =>
        completions = 1 /\ op_terminal_completion_drained o = false \/
        completions = 0 /\ op_terminal_completion_drained o = true /\ op_worker_claimed o = true
    end
  else
    op_state o = SL_PROVIDER_OPERATION_TERMINAL /\ op_cleanup_ran o = true /\ op_worker_claimed o = false /\
    (completions = 0 \/ completions = 1 /\ over = true).

Definition in_loop (owner : option SlAsyncCompletion) (queue : list SlAsyncCompletion) : list SlAsyncCompletion :=
  match owner with Some c => c :: queue | None => queue end.

Definition ours (c : SlAsyncCompletion) : Prop :=
  ac_cleanup c = PROVIDER_COMPLETION_CLEANUP /\ ac_cleanup_user c = ac_operation c /\ ac_operation c <> 0.

Definition slotted (s : ProviderSys) (p : Z) : bool := bool_decide (p ∈ ex_slots (pv_exec s)).

(** [but] is an operation in the middle of its release. *)
Record pinv (but : Z) (ws : list worker_pc) (owner : option SlAsyncCompletion) (queue : list SlAsyncCompletion) (s : ProviderSys) : Prop := {
  iv_distinct : distinct (ex_slots (pv_exec s));
  iv_known : forall p, p ∈ ex_slots (pv_exec s) -> p <> 0 -> is_Some (pv_ops s !! p);
  iv_null : pv_ops s !! 0 = None;
  iv_count : ex_count (pv_exec s) = sum_of occupied (ex_slots (pv_exec s));
  iv_flight : ex_in_flight (pv_exec s) = sum_of (flying s) (ex_slots (pv_exec s)) /\ ex_in_flight (pv_exec s) <= ex_max_in_flight (pv_exec s);
  iv_ops : forall p o, p <> but -> pv_ops s !! p = Some o -> op_fine o (slotted s p) (working ws p) (pending (in_loop owner queue) p) (closed s);
  iv_none : forall p, pv_ops s !! p = None -> knowing ws p = 0 /\ pending (in_loop owner queue) p = 0 /\
    times (EvCleanup p) s = 0 /\ times (EvDispatch p) s = 0;
  iv_clean : forall p o, pv_ops s !! p = Some o ->
    times (EvCleanup p) s = if op_cleanup_ran o && negb (of_cleanup (op_facts o) =? 0) then 1 else 0;
  iv_dispatch : forall p o, pv_ops s !! p = Some o ->
    times (EvDispatch p) s + pending queue p <= 1 /\ (op_state o <> SL_PROVIDER_OPERATION_TERMINAL -> times (EvDispatch p) s = 0);
  iv_ours : Forall ours (in_loop owner queue);
}.

(** * Steps that touch nothing the invariant speaks of *)

Record quiet (s s' : ProviderSys) : Prop := {
  qu_ops : pv_ops s' = pv_ops s;
  qu_slots : ex_slots (pv_exec s') = ex_slots (pv_exec s);
  qu_counts : ex_count (pv_exec s') = ex_count (pv_exec s) /\ ex_in_flight (pv_exec s') = ex_in_flight (pv_exec s) /\
              ex_max_in_flight (pv_exec s') = ex_max_in_flight (pv_exec s);
  qu_down : ex_shutting_down (pv_exec s) = true -> ex_shutting_down (pv_exec s') = true;
  qu_times : forall p, times (EvCleanup p) s' = times (EvCleanup p) s /\ times (EvDispatch p) s' = times (EvDispatch p) s /\
             times (EvRun p) s' = times (EvRun p) s;
}.

Lemma provider_quiet_refl s : quiet s s.
Proof. by split. Qed.

Lemma provider_quiet_trans s1 s2 s3 : quiet s1 s2 -> quiet s2 s3 -> quiet s1 s3.
Proof.
  intros [A1 A2 (A3 & A4 & A5) A6 A7] [B1 B2 (B3 & B4 & B5) B6 B7]. split; [congruence|congruence|split_and!; congruence|auto|].
  intros p. destruct (A7 p) as (? & ? & ?), (B7 p) as (? & ? & ?). split_and!; congruence.
Qed.

Lemma closed_mono s s' : ex_slots (pv_exec s') = ex_slots (pv_exec s) -> (ex_shutting_down (pv_exec s) = true -> ex_shutting_down (pv_exec s') = true) ->
  closed s = true -> closed s' = true.
Proof. unfold closed. intros -> H [H1 H2]%andb_true_iff. by rewrite H1, H. Qed.

Lemma op_fine_mono o b w n over over' : (over = true -> over' = true) -> op_fine o b w n over -> op_fine o b w n over'.
Proof.
  intros H [H1 H2]. split; [done|]. destruct b; [done|]. destruct H2 as (A & B & C & [D|[D D']]); split_and!; auto.
Qed.

Lemma provider_quiet_inv but ws owner queue s s' : quiet s s' -> pinv but ws owner queue s -> pinv but ws owner queue s'.
Proof.
  intros [Q1 Q2 (Q3 & Q4 & Q5) Q6 Q7] [I1 I2 I3 I4 [I5 I6] I7 I8 I9 I10 I11].
  assert (Hf : forall p, flying s' p = flying s p) by (intros p; unfold flying, op_at; by rewrite Q1).
  split; rewrite ?Q1, ?Q2, ?Q3, ?Q4, ?Q5; try done.
  - split; [|done]. rewrite I5. apply sum_ext. intros p _. symmetry. apply Hf.
  - intros p o Hp Ho. unfold slotted. rewrite Q2. eapply op_fine_mono; [|apply (I7 p o Hp Ho)]. by apply closed_mono.
  - intros p Hp. destruct (Q7 p) as (-> & -> & _). by apply I8.
  - intros p o Ho. destruct (Q7 p) as (-> & _). by apply I9.
  - intros p o Ho. destruct (Q7 p) as (_ & -> & _). by apply I10.
Qed.

Lemma bump_quiet c s : quiet s (bump c s).
Proof. by split. Qed.

Lemma note_quiet e s :
  match e with EvRetain _ | EvRelease _ => True | _ => False end -> quiet s (note e s).
Proof. intros He. split; try done. intros p. rewrite !times_note. destruct e; try done; split_and!; (case_decide; [done|lia]). Qed.

Lemma token_quiet p t s : quiet s (set_pv_token p t s).
Proof. by split. Qed.

Create HintDb provider.
#[export] Hint Resolve provider_quiet_refl bump_quiet token_quiet : provider.

(** * One operation changes *)

Lemma op_at_some s p o : pv_ops s !! p = Some o -> op_at s p = o.
Proof. intros H. unfold op_at. by apply lookup_total_correct. Qed.

Lemma upd_lookup s p f q :
  pv_ops (upd_op p f s) !! q = if decide (q = p) then Some (f (op_at s p)) else pv_ops s !! q.
Proof. cbn. case_decide; [subst; apply lookup_insert_eq|by apply lookup_insert_ne]. Qed.

Lemma op_at_upd s p f q : op_at (upd_op p f s) q = if decide (q = p) then f (op_at s p) else op_at s q.
Proof. unfold op_at at 1. rewrite lookup_total_alt, upd_lookup. case_decide; [done|]. unfold op_at. by rewrite lookup_total_alt. Qed.

Lemma flying_upd s p f q : flying (upd_op p f s) q =
  if decide (q = p) then if negb (q =? 0) && op_counted_in_flight (f (op_at s p)) then 1 else 0 else flying s q.
Proof. unfold flying. rewrite op_at_upd. by case_decide. Qed.

(** What the invariant does not read of an operation. *)
Definition alike (o o' : SlProviderOperation) : Prop :=
  op_state o' = op_state o /\ op_cleanup_ran o' = op_cleanup_ran o /\ op_worker_claimed o' = op_worker_claimed o /\
  op_terminal_completion_drained o' = op_terminal_completion_drained o /\ op_counted_in_flight o' = op_counted_in_flight o /\
  op_facts o' = op_facts o.

Lemma alike_inv but ws owner queue s p f :
  is_Some (pv_ops s !! p) -> alike (op_at s p) (f (op_at s p)) -> pinv but ws owner queue s -> pinv but ws owner queue (upd_op p f s).
Proof.
  intros [o Ho] Ha [I1 I2 I3 I4 [I5 I6] I7 I8 I9 I10 I11]. rewrite (op_at_some _ _ _ Ho) in Ha. destruct Ha as (A1 & A2 & A3 & A4 & A5 & A6).
  assert (Hl : forall q, pv_ops (upd_op p f s) !! q = if decide (q = p) then Some (f o) else pv_ops s !! q).
  { intros q. rewrite upd_lookup, (op_at_some _ _ _ Ho). done. }
  split; try done.
  - intros q Hq Hq0. rewrite Hl. case_decide; [by eexists|by apply I2].
  - rewrite Hl. case_decide; [congruence|done].
  - split; [|done]. change (ex_in_flight (pv_exec (upd_op p f s))) with (ex_in_flight (pv_exec s)). rewrite I5. apply sum_ext. intros q _. rewrite flying_upd.
    case_decide; [|done]. subst q. unfold flying. by rewrite (op_at_some _ _ _ Ho), A5.
  - intros q o'. rewrite Hl. intros Hq. case_decide; [|by apply I7]. subst q. intros [= <-]. specialize (I7 p o Hq Ho).
    unfold op_fine in *. rewrite A1, A2, A3, A4, A5. exact I7.
  - intros q. rewrite Hl. case_decide; [done|]. apply I8.
  - intros q o'. rewrite Hl. case_decide; [|by apply I9]. subst q. intros [= <-]. rewrite A2, A6. by apply I9.
  - intros q o'. rewrite Hl. case_decide; [|by apply I10]. subst q. intros [= <-]. rewrite A1. by apply I10.
Qed.

(** One operation, its claims and its completions change. *)
Lemma change_inv but but' p o o' ws ws' owner owner' queue queue' s s' :
  pinv but ws owner queue s -> pv_ops s !! p = Some o ->
  pv_ops s' = <[p := o']> (pv_ops s) -> ex_slots (pv_exec s') = ex_slots (pv_exec s) -> ex_count (pv_exec s') = ex_count (pv_exec s) ->
  ex_max_in_flight (pv_exec s') = ex_max_in_flight (pv_exec s) -> ex_shutting_down (pv_exec s') = ex_shutting_down (pv_exec s) ->
  ex_in_flight (pv_exec s') = ex_in_flight (pv_exec s) +
    (if slotted s p then (if op_counted_in_flight o' then 1 else 0) - (if op_counted_in_flight o then 1 else 0) else 0) ->
  ex_in_flight (pv_exec s') <= ex_max_in_flight (pv_exec s) ->
  (forall q, q <> p -> times (EvCleanup q) s' = times (EvCleanup q) s /\ times (EvDispatch q) s' = times (EvDispatch q) s) ->
  (forall q, q <> p -> working ws' q = working ws q /\ knowing ws' q = knowing ws q /\ pending (in_loop owner' queue') q = pending (in_loop owner queue) q /\
                       pending queue' q = pending queue q) ->
  (forall q, q <> 0 -> q <> p -> q <> but' -> q <> but) ->
  (p <> but' -> op_fine o' (slotted s p) (working ws' p) (pending (in_loop owner' queue') p) (closed s)) ->
  times (EvCleanup p) s' = (if op_cleanup_ran o' && negb (of_cleanup (op_facts o') =? 0) then 1 else 0) ->
  times (EvDispatch p) s' + pending queue' p <= 1 /\ (op_state o' <> SL_PROVIDER_OPERATION_TERMINAL -> times (EvDispatch p) s' = 0) ->
  Forall ours (in_loop owner' queue') ->
  pinv but' ws' owner' queue' s'.
Proof.
  intros [I1 I2 I3 I4 [I5 I6] I7 I8 I9 I10 I11] Ho Eo Es Ec Em Ed Ef Hf Ht Hw Hb Hp Hc Hd Hours.
  assert (Hp0 : p <> 0) by congruence.
  assert (Hcl : closed s' = closed s) by (unfold closed; by rewrite Es, Ed).
  assert (Hsl : forall q, slotted s' q = slotted s q) by (intros q; unfold slotted; by rewrite Es).
  split; rewrite ?Es, ?Ec, ?Em, ?Eo; try done.
  - intros q Hq Hq0. destruct (decide (q = p)) as [->|E]; [rewrite lookup_insert_eq; by eexists|]. rewrite lookup_insert_ne by done. by apply I2.
  - rewrite lookup_insert_ne by done. exact I3.
  - split; [|lia]. rewrite Ef, I5. unfold slotted. case_bool_decide as Hin.
    + apply list_elem_of_lookup in Hin as [i Hi]. rewrite (sum_change (flying s) (flying s') _ i p I1 Hp0 Hi).
      * unfold flying, op_at. rewrite Eo, lookup_total_insert_eq, (lookup_total_correct _ _ _ Ho).
        destruct (Z.eqb_spec p 0); [done|]. cbn [negb andb]. lia.
      * intros q Hq. unfold flying, op_at. by rewrite Eo, lookup_total_insert_ne.
    + rewrite Z.add_0_r. apply sum_ext. intros q Hq. assert (q <> p) by (intros ->; done). unfold flying, op_at. by rewrite Eo, lookup_total_insert_ne.
  - intros q oq Hqb. rewrite Hcl, Hsl. destruct (decide (q = p)) as [->|E].
    + rewrite lookup_insert_eq. intros [= <-]. by apply Hp.
    + rewrite lookup_insert_ne by done. intros Hq. destruct (Hw q E) as (-> & _ & -> & _). apply I7; [apply Hb; [congruence|done..]|done].
  - intros q. destruct (decide (q = p)) as [->|E]; [by rewrite lookup_insert_eq|]. rewrite lookup_insert_ne by done.
    intros Hq. destruct (Hw q E) as (_ & -> & -> & _), (Ht q E) as [-> ->]. by apply I8.
  - intros q oq. destruct (decide (q = p)) as [->|E]; [rewrite lookup_insert_eq; by intros [= <-]|]. rewrite lookup_insert_ne by done.
    destruct (Ht q E) as [-> _]. apply I9.
  - intros q oq. destruct (decide (q = p)) as [->|E]; [rewrite lookup_insert_eq; by intros [= <-]|]. rewrite lookup_insert_ne by done.
    destruct (Ht q E) as [_ ->], (Hw q E) as (_ & _ & _ & ->). apply I10.
Qed.

(** * Looking for an operation *)

Lemma best_of_spec s wanted p : best_of s wanted = Some p -> p ∈ ex_slots (pv_exec s) /\ p <> 0 /\ wanted (op_at s p) = true.
Proof.
  unfold best_of. generalize (ex_slots (pv_exec s)) as slots. intros slots.
  assert (H : forall best, (forall q, best = Some q -> q <> 0 /\ wanted (op_at s q) = true) ->
    fold_left (fun best p => if negb (p =? 0) && wanted (op_at s p) &&
       match best with None => true | Some b => sl_provider_sequence_before (op_sequence (op_at s p)) (op_sequence (op_at s b)) end
       then Some p else best) slots best = Some p -> (p ∈ slots \/ best = Some p) /\ p <> 0 /\ wanted (op_at s p) = true).
  { induction slots as [|q slots IH]; intros best Hb; cbn [fold_left].
    - intros E. split; [by right|]. by apply Hb.
    - intros E. destruct (negb (q =? 0) && wanted (op_at s q) && _) eqn:Eq.
      + apply IH in E.
        * destruct E as [[E|E] E2]; (split; [|done]); left; [by constructor|injection E as ->; constructor].
        * intros q' [= <-]. apply andb_true_iff in Eq as [[E1 E2]%andb_true_iff _]. split; [|done]. by destruct (Z.eqb_spec q 0).
      + apply IH in E; [|done]. destruct E as [[E|E] E2]; (split; [|done]); [left; by constructor|by right]. }
  intros E. apply H in E; [|done]. destruct E as [[E|E] E2]; [by split|done].
Qed.

Lemma best_of_none s wanted : best_of s wanted = None -> forall p, p ∈ ex_slots (pv_exec s) -> p <> 0 -> wanted (op_at s p) = false.
Proof.
  unfold best_of. generalize (ex_slots (pv_exec s)) as slots. intros slots.
  assert (Hs : forall slots best b, best = Some b -> exists b', fold_left (fun best p => if negb (p =? 0) && wanted (op_at s p) &&
       match best with None => true | Some b => sl_provider_sequence_before (op_sequence (op_at s p)) (op_sequence (op_at s b)) end
       then Some p else best) slots best = Some b').
  { clear slots. induction slots as [|q slots IH]; intros best b ->; cbn [fold_left]; [by eexists|].
    destruct (negb (q =? 0) && wanted (op_at s q) && _); by eapply IH. }
  induction slots as [|q slots IH]; cbn [fold_left]; [intros _ p Hp; by apply not_elem_of_nil in Hp|].
  intros E p Hp Hp0. rewrite andb_true_r in E. destruct (negb (q =? 0) && wanted (op_at s q)) eqn:Eq.
  { destruct (Hs slots (Some q) q eq_refl) as [b' Hb']. congruence. }
  apply elem_of_cons in Hp as [->|Hp]; [|by apply IH]. apply andb_false_iff in Eq as [Eq|Eq]; [|done]. by destruct (Z.eqb_spec q 0).
Qed.

(** * Activation *)

Lemma activate_inv ws owner queue n s : pinv 0 ws owner queue s -> pinv 0 ws owner queue (activate_loop n s).
Proof.
  revert s. induction n as [|n IH]; intros s Hi; cbn [activate_loop]; [done|].
  destruct (Z.ltb_spec (ex_in_flight (pv_exec s)) (ex_max_in_flight (pv_exec s))) as [Hlt|]; [|done].
  destruct (sl_provider_executor_next_queued s) as [p|] eqn:E; [|done]. apply IH.
  apply best_of_spec in E as (Hin & Hp0 & Hq). apply bool_decide_eq_true in Hq.
  destruct (iv_known _ _ _ _ _ Hi p Hin Hp0) as [o Ho]. rewrite (op_at_some _ _ _ Ho) in Hq.
  pose proof (iv_dispatch _ _ _ _ _ Hi p o Ho) as [D1 D2]. pose proof (iv_clean _ _ _ _ _ Hi p o Ho) as Hcl.
  assert (Hsl : slotted s p = true) by by apply bool_decide_eq_true.
  pose proof (iv_ops _ _ _ _ _ Hi p o Hp0 Ho) as [F1 F2]. rewrite Hsl in F2. rewrite Hq in F2. destruct F2 as (G1 & G2 & G3 & G4 & G5).
  eapply (change_inv 0 0 p o _ ws ws owner owner queue queue s); [exact Hi|exact Ho|cbn; by rewrite (op_at_some _ _ _ Ho)|done..| | | | | | | | |].
  - rewrite Hsl, G2. cbn. done.
  - cbn. lia.
  - done.
  - done.
  - done.
  - intros _. rewrite Hsl. split; [exact F1|]. cbn. done.
  - exact Hcl.
  - split; [exact D1|]. intros _. apply D2. congruence.
  - apply Hi.
Qed.

(** * Release *)

Lemma provider_release_inv p i o o' ws owner queue s s' :
  pinv p ws owner queue s -> pv_ops s !! p = Some o -> ex_slots (pv_exec s) !! i = Some p ->
  pv_ops s' = <[p := o']> (pv_ops s) -> ex_slots (pv_exec s') = <[i := 0]> (ex_slots (pv_exec s)) ->
  ex_count (pv_exec s') = ex_count (pv_exec s) - 1 ->
  ex_in_flight (pv_exec s') = ex_in_flight (pv_exec s) - (if op_counted_in_flight o then 1 else 0) ->
  ex_max_in_flight (pv_exec s') = ex_max_in_flight (pv_exec s) -> ex_shutting_down (pv_exec s') = ex_shutting_down (pv_exec s) ->
  (forall q, q <> p -> times (EvCleanup q) s' = times (EvCleanup q) s) -> (forall q, times (EvDispatch q) s' = times (EvDispatch q) s) ->
  times (EvCleanup p) s' = (if negb (of_cleanup (op_facts o') =? 0) then 1 else 0) ->
  op_state o' = SL_PROVIDER_OPERATION_TERMINAL /\ op_cleanup_ran o' = true /\ op_worker_claimed o' = false ->
  op_state o = SL_PROVIDER_OPERATION_TERMINAL -> working ws p = 0 -> pending (in_loop owner queue) p = 0 ->
  pinv 0 ws owner queue s'.
Proof.
  intros [I1 I2 I3 I4 [I5 I6] I7 I8 I9 I10 I11] Ho Hi Eo Es Ec Ef Em Ed Ht Htd Htp (O1 & O2 & O3) Hst Hw Hpd.
  assert (Hp0 : p <> 0) by congruence.
  assert (Hel : forall q, q <> 0 -> q ∈ <[i := 0]> (ex_slots (pv_exec s)) <-> q ∈ ex_slots (pv_exec s) /\ q <> p) by (intros q Hq; by apply freed_elem).
  assert (Hfl : forall q, q <> p -> flying s' q = flying s q) by (intros q Hq; unfold flying, op_at; by rewrite Eo, lookup_total_insert_ne).
  split; rewrite ?Es, ?Em, ?Eo; try done.
  - by apply distinct_free.
  - intros q Hq Hq0. apply Hel in Hq as [Hq Hqp]; [|done]. rewrite lookup_insert_ne by done. by apply I2.
  - rewrite lookup_insert_ne by done. exact I3.
  - rewrite Ec, (sum_insert _ _ i p 0 Hi), I4. unfold occupied at 3 4. destruct (Z.eqb_spec p 0); [done|]. cbn. lia.
  - assert (Hfp : flying s p = if op_counted_in_flight o then 1 else 0).
    { unfold flying. rewrite (op_at_some _ _ _ Ho). by destruct (Z.eqb_spec p 0). }
    split; [|rewrite Ef; destruct (op_counted_in_flight o); lia].
    rewrite Ef, I5, <- Hfp. transitivity (sum_of (flying s) (<[i := 0]> (ex_slots (pv_exec s)))).
    + rewrite (sum_insert _ _ i p 0 Hi). change (flying s 0) with 0. lia.
    + apply sum_ext. intros q Hq. symmetry. destruct (decide (q = 0)) as [->|Hq0]; [done|]. apply Hfl. by apply Hel in Hq as [_ ?].
  - assert (Hcl : closed s = true -> closed s' = true).
    { unfold closed. rewrite Es, Ed. intros [H1 H2]%andb_true_iff. exfalso. rewrite forallb_forall in H1.
      specialize (H1 p). rewrite <- list_elem_of_In in H1. specialize (H1 ltac:(apply list_elem_of_lookup; by exists i)). lia. }
    intros q oq Hq0. destruct (decide (q = p)) as [->|E].
    + rewrite lookup_insert_eq. intros [= <-]. split; [by rewrite O3|]. unfold slotted. rewrite bool_decide_eq_false_2; [|rewrite Es, Hel by done; tauto].
      split_and!; auto.
    + rewrite lookup_insert_ne by done. intros Hq. replace (slotted s' q) with (slotted s q).
      * eapply op_fine_mono; [exact Hcl|]. by apply I7.
      * unfold slotted. apply bool_decide_ext. rewrite Es, Hel by done. tauto.
  - intros q. destruct (decide (q = p)) as [->|E]; [by rewrite lookup_insert_eq|]. rewrite lookup_insert_ne by done. rewrite Ht, Htd by done. apply I8.
  - intros q oq. destruct (decide (q = p)) as [->|E]; [rewrite lookup_insert_eq; intros [= <-]; by rewrite O2|]. rewrite lookup_insert_ne by done.
    rewrite Ht by done. apply I9.
  - intros q oq. rewrite Htd. destruct (decide (q = p)) as [->|E].
    + rewrite lookup_insert_eq. intros [= <-]. split; [by eapply I10|]. rewrite O1. done.
    + rewrite lookup_insert_ne by done. apply I10.
Qed.

Lemma flying_pos s p i : ex_slots (pv_exec s) !! i = Some p -> p <> 0 -> op_counted_in_flight (op_at s p) = true -> 0 < sum_of (flying s) (ex_slots (pv_exec s)).
Proof.
  intros Hi Hp Hc. pose proof (sum_at_least (flying s) _ i p ltac:(intros y; unfold flying; destruct (_ && _); lia) Hi) as H.
  unfold flying at 1 in H. rewrite Hc in H. destruct (Z.eqb_spec p 0); [done|]. cbn in H. lia.
Qed.

Lemma occupied_pos p i slots : slots !! i = Some p -> p <> 0 -> 0 < sum_of occupied slots.
Proof.
  intros Hi Hp. pose proof (sum_at_least occupied _ i p ltac:(intros y; unfold occupied; destruct (_ =? _); lia) Hi) as H.
  unfold occupied at 1 in H. destruct (Z.eqb_spec p 0); [done|]. lia.
Qed.

(** The end of an operation that has a slot and no worker. *)
Lemma finish_slotted_inv p o ws owner queue s :
  pinv p ws owner queue s -> pv_ops s !! p = Some o -> slotted s p = true -> op_state o = SL_PROVIDER_OPERATION_TERMINAL ->
  op_worker_claimed o = false -> op_cleanup_ran o = false -> working ws p = 0 -> pending (in_loop owner queue) p = 0 ->
  pinv 0 ws owner queue (sl_provider_executor_finish_terminal_locked p s).
Proof.
  intros Hi Ho Hsl Hst Hcl Hran Hw Hpd. assert (Hp0 : p <> 0) by (pose proof (iv_null _ _ _ _ _ Hi); congruence).
  apply bool_decide_eq_true in Hsl. pose proof (find_slot_spec p (ex_slots (pv_exec s))) as Hfs.
  pose proof (iv_clean _ _ _ _ _ Hi p o Ho) as Hc. rewrite Hran in Hc. cbn in Hc.
  unfold sl_provider_executor_finish_terminal_locked. rewrite (op_at_some _ _ _ Ho), Hcl.
  unfold sl_provider_executor_activate_next. apply activate_inv. unfold sl_provider_operation_run_cleanup_once. rewrite (op_at_some _ _ _ Ho), Hran.
  rewrite op_at_upd, decide_True by done. rewrite (op_at_some _ _ _ Ho). cbn [op_facts op_set_cleanup_ran].
  set (s1 := if of_cleanup (op_facts o) =? 0 then upd_op p (op_set_cleanup_ran true) s else note (EvCleanup p) (upd_op p (op_set_cleanup_ran true) s)).
  assert (E1 : pv_ops s1 = <[p := op_set_cleanup_ran true o]> (pv_ops s) /\ pv_exec s1 = pv_exec s /\
               (forall q, q <> p -> times (EvCleanup q) s1 = times (EvCleanup q) s) /\ (forall q, times (EvDispatch q) s1 = times (EvDispatch q) s) /\
               times (EvCleanup p) s1 = if negb (of_cleanup (op_facts o) =? 0) then 1 else 0).
  { unfold s1. destruct (of_cleanup (op_facts o) =? 0); cbn [negb].
    - cbn. rewrite (op_at_some _ _ _ Ho). by split_and!.
    - cbn [note pv_ops upd_op set_pv_ops pv_exec]. rewrite (op_at_some _ _ _ Ho). split_and!; try done.
      + intros q Hq. rewrite times_note. case_decide; [congruence|]. change (times (EvCleanup q) (upd_op p (op_set_cleanup_ran true) s)) with (times (EvCleanup q) s). lia.
      + intros q. rewrite times_note. case_decide; [congruence|]. change (times (EvDispatch q) (upd_op p (op_set_cleanup_ran true) s)) with (times (EvDispatch q) s). lia.
      + rewrite times_note. case_decide; [|done]. change (times (EvCleanup p) (upd_op p (op_set_cleanup_ran true) s)) with (times (EvCleanup p) s). lia. }
  destruct E1 as (E1 & E2 & E3 & E4 & E5). clearbody s1.
  destruct (find_slot p (ex_slots (pv_exec s))) as [i|] eqn:Efs; [|done].
  pose proof (occupied_pos p i _ Hfs Hp0) as Hocc. rewrite <- (iv_count _ _ _ _ _ Hi) in Hocc.
  match goal with |- context [bump completed_count (if op_counted_in_flight (op_at ?x p) && _ then _ else _)] => set (s3 := x) end.
  assert (X1 : pv_exec s3 = ex_set_accounts (ex_count (pv_exec s) - 1) (ex_in_flight (pv_exec s))
                              (ex_set_slots (<[i := 0]> (ex_slots (pv_exec s))) (pv_exec s))).
  { unfold s3. cbn [pv_exec upd_exec]. rewrite E2. unfold free_slot, sl_provider_executor_find_operation_slot. rewrite Efs. cbn [ex_count ex_set_slots].
    destruct (Z.eqb_spec (ex_count (pv_exec s)) 0); [lia|]. done. }
  assert (X2 : pv_ops s3 = <[p := op_set_cleanup_ran true o]> (pv_ops s)) by exact E1.
  assert (X3 : op_at s3 p = op_set_cleanup_ran true o) by (unfold op_at; by rewrite X2, lookup_total_insert_eq).
  change (forall q, q <> p -> times (EvCleanup q) s3 = times (EvCleanup q) s) in E3.
  change (forall q, times (EvDispatch q) s3 = times (EvDispatch q) s) in E4.
  change (times (EvCleanup p) s3 = if negb (of_cleanup (op_facts o) =? 0) then 1 else 0) in E5. clearbody s3. rewrite X3, X1. cbn [op_counted_in_flight op_set_cleanup_ran ex_in_flight ex_set_accounts].
  destruct (op_counted_in_flight o) eqn:Ecf; cbn [andb].
  - pose proof (flying_pos s p i Hfs Hp0 ltac:(by rewrite (op_at_some _ _ _ Ho))) as Hfp. rewrite <- (proj1 (iv_flight _ _ _ _ _ Hi)) in Hfp.
    destruct (Z.eqb_spec (ex_in_flight (pv_exec s)) 0); [lia|]. cbn [negb].
    eapply (provider_release_inv p i o (op_set_counted false (op_set_cleanup_ran true o)) _ _ _ s); try done; cbn [bump upd_exec upd_op set_pv_ops pv_exec pv_ops]; rewrite ?X1; try done.
    + unfold op_at. cbn [pv_ops upd_exec]. rewrite X2, lookup_total_insert_eq, insert_insert_eq. done.
    + cbn. rewrite Ecf. done.
  - eapply (provider_release_inv p i o (op_set_cleanup_ran true o) _ _ _ s); try done; cbn [bump upd_exec pv_exec pv_ops]; rewrite ?X1; try done.
    cbn. rewrite Ecf. lia.
Qed.

Lemma pending_cons c cs p : pending (c :: cs) p = is_for p c + pending cs p.
Proof. done. Qed.

Lemma pending_nonneg cs p : 0 <= pending cs p.
Proof. apply sum_nonneg. intros c. unfold is_for. destruct (_ =? _); lia. Qed.

Lemma is_for_ne p c : ac_operation c <> p -> is_for p c = 0.
Proof. unfold is_for. by destruct (Z.eqb_spec (ac_operation c) p). Qed.

Lemma is_for_eq c : is_for (ac_operation c) c = 1.
Proof. unfold is_for. by rewrite Z.eqb_refl. Qed.

(** The owner is done with a completion; its operation is still to be looked after. *)
Lemma popped_inv c ws queue s : pinv 0 ws (Some c) queue s -> pinv (ac_operation c) ws None queue s.
Proof.
  intros [I1 I2 I3 I4 I5 I7 I8 I9 I10 I11]. split; try done.
  - intros p o Hp Ho. assert (Hp0 : p <> 0) by congruence. specialize (I7 p o Hp0 Ho). cbn [in_loop] in *. rewrite pending_cons, is_for_ne in I7 by congruence. exact I7.
  - intros p Hp. destruct (I8 p Hp) as (H1 & H2 & H3). split; [done|]. split; [|done]. cbn [in_loop] in *. rewrite pending_cons in H2.
    pose proof (pending_nonneg queue p). assert (0 <= is_for p c) by (unfold is_for; destruct (_ =? _); lia). lia.
  - cbn [in_loop] in *. by apply Forall_cons in I11 as [_ ?].
Qed.

Lemma heal_inv p ws owner queue s :
  pinv p ws owner queue s ->
  (forall o, pv_ops s !! p = Some o -> op_fine o (slotted s p) (working ws p) (pending (in_loop owner queue) p) (closed s)) -> pinv 0 ws owner queue s.
Proof.
  intros [I1 I2 I3 I4 I5 I7 I8 I9 I10 I11] Hp. split; try done. intros q o Hq Ho. destruct (decide (q = p)) as [->|E]; [by apply Hp|by apply I7].
Qed.

Lemma wound_inv p ws owner queue s : pinv 0 ws owner queue s -> pinv p ws owner queue s.
Proof. intros [I1 I2 I3 I4 I5 I7 I8 I9 I10 I11]. split; try done. intros q o Hq Ho. apply I7; [congruence|done]. Qed.

Lemma closed_slots s : closed s = true -> forall p, p ∈ ex_slots (pv_exec s) -> p = 0.
Proof. intros [H _]%andb_true_iff p Hp. rewrite forallb_forall in H. apply list_elem_of_In in Hp. specialize (H p Hp). lia. Qed.

(** Nothing but a counter changes when an operation of a closed executor ends again. *)
Lemma finish_closed p o s but ws owner queue :
  pinv but ws owner queue s -> closed s = true -> pv_ops s !! p = Some o -> op_worker_claimed o = false -> op_cleanup_ran o = true -> p <> 0 ->
  sl_provider_executor_finish_terminal_locked p s = bump completed_count s.
Proof.
  intros Hi Hcl Ho Hw Hr Hp0. pose proof (closed_slots s Hcl) as Hz.
  assert (Hc : ex_count (pv_exec s) = 0).
  { rewrite (iv_count _ _ _ _ _ Hi). apply sum_zero. intros q Hq. by rewrite (Hz q Hq). }
  assert (Hf : ex_in_flight (pv_exec s) = 0).
  { rewrite (proj1 (iv_flight _ _ _ _ _ Hi)). apply sum_zero. intros q Hq. by rewrite (Hz q Hq). }
  unfold sl_provider_executor_finish_terminal_locked, sl_provider_operation_run_cleanup_once. rewrite (op_at_some _ _ _ Ho), Hw, Hr.
  assert (E1 : upd_exec (free_slot p) s = s).
  { destruct s as [a e b c d f]. unfold upd_exec. cbn [pv_exec pv_ops pv_tokens pv_world pv_diag pv_log]. f_equal. unfold free_slot, sl_provider_executor_find_operation_slot.
    pose proof (find_slot_spec p (ex_slots e)) as H. destruct (find_slot p (ex_slots e)) as [i|]; [|done].
    exfalso. apply Hp0, Hz. apply list_elem_of_lookup. by exists i. }
  rewrite E1.
  assert (E2 : upd_exec (fun e => if negb (ex_count e =? 0) then ex_set_accounts (ex_count e - 1) (ex_in_flight e) e else e) s = s).
  { destruct s as [a e b c d f]. unfold upd_exec. cbn in *. rewrite Hc. done. }
  rewrite E2, Hf, andb_false_r. unfold sl_provider_executor_activate_next. cbn [activate_loop].
  destruct (_ <? _); [|done]. destruct (sl_provider_executor_next_queued (bump completed_count s)) as [q|] eqn:Eq; [|done].
  apply best_of_spec in Eq as (Hq & Hq0 & _). exfalso. by apply Hq0, Hz.
Qed.

Lemma completion_cleanup_inv c ws queue s :
  pinv 0 ws (Some c) queue s -> pinv 0 ws None queue (sl_provider_completion_cleanup (ac_operation c) s).
Proof.
  intros Hi. pose proof (popped_inv _ _ _ _ Hi) as Hp. pose proof (iv_ours _ _ _ _ _ Hi) as Hours. cbn [in_loop] in Hours.
  apply Forall_cons in Hours as [(_ & _ & Hp0) Hours]. set (p := ac_operation c) in *.
  destruct (pv_ops s !! p) as [o|] eqn:Ho.
  2: { exfalso. destruct (iv_none _ _ _ _ _ Hi p Ho) as (_ & H & _). cbn [in_loop] in H. rewrite pending_cons in H. unfold p in H at 1. rewrite is_for_eq in H.
       pose proof (pending_nonneg queue p). lia. }
  pose proof (iv_ops _ _ _ _ _ Hi p o Hp0 Ho) as [F1 F2]. cbn [in_loop] in F2. rewrite pending_cons in F2. assert (Hfor : is_for p c = 1) by apply is_for_eq. rewrite !Hfor in F2.
  pose proof (pending_nonneg queue p) as Hq. unfold sl_provider_completion_cleanup. destruct (Z.eqb_spec p 0); [done|].
  destruct (slotted s p) eqn:Hsl.
  - destruct F2 as [Hran F2]. assert (Hst : op_state o = SL_PROVIDER_OPERATION_TERMINAL /\ pending queue p = 0).
    { destruct (op_state o); [done|lia|lia|]. split; [done|lia]. }
    destruct Hst as [Hst Hpd]. destruct (op_worker_claimed o) eqn:Hcl.
    + unfold sl_provider_executor_finish_terminal_locked. rewrite (op_at_some _ _ _ Ho), Hcl.
      eapply (change_inv p 0 p o (op_set_drained true o) ws ws None None queue queue s); try done.
      * cbn. by rewrite (op_at_some _ _ _ Ho).
      * rewrite Hsl. cbn. lia.
      * apply Hi.
      * intros _. rewrite Hsl. split; [cbn; by rewrite Hcl|]. cbn. rewrite Hst. split; [done|]. right. by split_and!.
      * exact (iv_clean _ _ _ _ _ Hi p o Ho).
      * exact (iv_dispatch _ _ _ _ _ Hi p o Ho).
    + by eapply (finish_slotted_inv p o).
  - destruct F2 as (Hst & Hran & Hcl & Hover).
    assert (Hcs : closed s = true /\ pending queue p = 0) by (destruct Hover as [?|[? ?]]; [lia|split; [done|lia]]).
    destruct Hcs as [Hcs Hpd]. rewrite (finish_closed p o s p ws None queue) by done.
    apply (provider_quiet_inv _ _ _ _ s); [apply bump_quiet|]. eapply (heal_inv p); [exact Hp|]. intros o' Ho'. rewrite Ho in Ho'. injection Ho' as <-.
    rewrite Hsl. split; [done|]. split_and!; auto.
Qed.

(** * Posting *)

Lemma pending_app cs1 cs2 p : pending (cs1 ++ cs2) p = pending cs1 p + pending cs2 p.
Proof. apply sum_app. Qed.

Lemma in_loop_app owner queue c : in_loop owner (queue ++ [c]) = in_loop owner queue ++ [c].
Proof. by destruct owner. Qed.

Lemma pending_queue_le owner queue p : pending queue p <= pending (in_loop owner queue) p.
Proof. destruct owner as [c|]; cbn [in_loop]; [|lia]. rewrite pending_cons. unfold is_for. destruct (_ =? _); lia. Qed.

Definition rn_queue (s : AsyncSys ProviderSys) : list SlAsyncCompletion := al_queue (av_loop s).

Section Post.
Context {RO : ReadOnlyData} {PH : ProviderHost}.

Definition posts (c : SlAsyncCompletion) (s : AsyncSys ProviderSys) (o : result unit * AsyncSys ProviderSys) : Prop :=
  rn_queue (snd o) = rn_queue s ++ match fst o with Ok _ => [c] | Err _ => [] end /\ quiet (av_env s) (av_env (snd o)).

Lemma release_scope_quiet c s :
  rn_queue (sl_async_loop_release_completion_scope c s) = rn_queue s /\ quiet (av_env s) (av_env (sl_async_loop_release_completion_scope c s)).
Proof. unfold sl_async_loop_release_completion_scope. destruct (_ && _); (split; [done|]); [by apply note_quiet|apply provider_quiet_refl]. Qed.

Lemma retain_scope_quiet c s :
  rn_queue (snd (sl_async_completion_retain_scope c s)) = rn_queue s /\ quiet (av_env s) (av_env (snd (sl_async_completion_retain_scope c s))).
Proof. unfold sl_async_completion_retain_scope. destruct (_ || _); (split; [done|]); [apply provider_quiet_refl|by apply note_quiet]. Qed.

Lemma posts_refused c s x : posts c s (Err x, s).
Proof. split; [by rewrite app_nil_r|apply provider_quiet_refl]. Qed.
#[local] Hint Resolve posts_refused : provider.

Lemma enqueue_posts c s : posts c s (sl_async_loop_enqueue_owned c s).
Proof.
  unfold sl_async_loop_enqueue_owned. do 3 (case_match; [auto with provider|]).
  pose proof (retain_scope_quiet c s) as [Hq Hs]. destruct (sl_async_completion_retain_scope c s) as [st s1]. cbn [snd] in *.
  case_match; [by split; [rewrite app_nil_r|]|]. case_match.
  - pose proof (release_scope_quiet c s1) as [Hq1 Hs1]. split; cbn [fst snd]; [rewrite app_nil_r; congruence|by eapply provider_quiet_trans].
  - split; [|done]. cbn. by rewrite <- Hq.
Qed.

Lemma post_posts c s : posts c s (sl_async_loop_post REF c s).
Proof.
  unfold sl_async_loop_post. cbn [is_null]. destruct (is_libuv s); [|apply enqueue_posts].
  unfold sl_async_loop_libuv_post. do 2 (case_match; [auto with provider|]).
  pose proof (enqueue_posts c s) as [Hq Hs]. destruct (sl_async_loop_enqueue_owned c s) as [[u|x] s1]; cbn [fst snd] in *; [|by split].
  case_match; [by split|]. unfold sl_async_loop_unenqueue_last_owned. fold (rn_queue s1). rewrite Hq, rev_app_distr. cbn [rev app].
  match goal with |- context [sl_async_loop_release_completion_scope c ?x] => pose proof (release_scope_quiet c x) as [Hq2 Hs2] end.
  split; cbn [fst snd]; [|by eapply provider_quiet_trans]. rewrite Hq2, app_nil_r. cbn. apply rev_involutive.
Qed.

Lemma count_end_quiet a b s : quiet s (count_end a b s).
Proof. by destruct a, b. Qed.

(** An operation that is not at its end. *)
Lemma live_slotted ws owner queue s p o :
  pinv 0 ws owner queue s -> pv_ops s !! p = Some o -> op_state o <> SL_PROVIDER_OPERATION_TERMINAL ->
  slotted s p = true /\ op_cleanup_ran o = false /\ op_terminal_completion_drained o = false /\ pending (in_loop owner queue) p = 0 /\
  working ws p = (if op_worker_claimed o then 1 else 0) /\ times (EvDispatch p) s = 0 /\ pending queue p = 0.
Proof.
  intros Hi Ho Hst. assert (Hp0 : p <> 0) by (pose proof (iv_null _ _ _ _ _ Hi); congruence).
  destruct (iv_ops _ _ _ _ _ Hi p o Hp0 Ho) as [F1 F2]. destruct (iv_dispatch _ _ _ _ _ Hi p o Ho) as [D1 D2].
  pose proof (pending_queue_le owner queue p). pose proof (pending_nonneg queue p).
  destruct (slotted s p) eqn:Hsl; [|tauto]. destruct F2 as [F2 F3]. specialize (D2 Hst).
  assert (pending (in_loop owner queue) p = 0 /\ op_terminal_completion_drained o = false) as [Hz Hd] by (by destruct (op_state o); intuition).
  split_and!; try done. lia.
Qed.

(** The end of a live operation, posted or not. *)
Lemma posted_inv ws owner queue s p o c :
  pinv 0 ws owner queue s -> pv_ops s !! p = Some o -> op_state o <> SL_PROVIDER_OPERATION_TERMINAL -> ours c -> ac_operation c = p ->
  pinv 0 ws owner (queue ++ [c]) (upd_op p (op_set_state SL_PROVIDER_OPERATION_TERMINAL) s).
Proof.
  intros Hi Ho Hst Hc Hcp. destruct (live_slotted _ _ _ _ _ _ Hi Ho Hst) as (Hsl & Hran & Hdr & Hpd & Hw & Hdi & Hq).
  assert (Hone : is_for p c = 1) by (subst p; apply is_for_eq).
  eapply (change_inv 0 0 p o (op_set_state SL_PROVIDER_OPERATION_TERMINAL o) ws ws owner owner queue (queue ++ [c]) s); try done.
  - cbn. by rewrite (op_at_some _ _ _ Ho).
  - rewrite Hsl. cbn. lia.
  - apply Hi.
  - intros q Hqp. rewrite in_loop_app, !pending_app, pending_cons, is_for_ne by congruence. cbn. split_and!; lia.
  - intros _. rewrite Hsl. split; [exact Hw|]. cbn. split; [done|]. left. rewrite in_loop_app, pending_app, pending_cons, Hone, Hpd. done.
  - exact (iv_clean _ _ _ _ _ Hi p o Ho).
  - rewrite pending_app, pending_cons, Hone, Hq. change (times (EvDispatch p) s + (0 + (1 + 0)) <= 1 /\ (SL_PROVIDER_OPERATION_TERMINAL <> SL_PROVIDER_OPERATION_TERMINAL -> times (EvDispatch p) s = 0)).
    split; [lia|done].
  - rewrite in_loop_app. apply Forall_app. split; [apply Hi|by constructor].
Qed.
Lemma post_failed_inv ws owner queue s p o status a b :
  pinv 0 ws owner queue s -> pv_ops s !! p = Some o -> op_state o <> SL_PROVIDER_OPERATION_TERMINAL ->
  pinv 0 ws owner queue (post_failed p status a b s).
Proof.
  intros Hi Ho Hst. destruct (live_slotted _ _ _ _ _ _ Hi Ho Hst) as (Hsl & Hran & Hdr & Hpd & Hw & Hdi & Hq).
  assert (Hp0 : p <> 0) by (pose proof (iv_null _ _ _ _ _ Hi); congruence).
  unfold post_failed. eapply provider_quiet_inv; [eapply provider_quiet_trans; [apply count_end_quiet|apply bump_quiet]|].
  match goal with |- context [upd_op p ?f s] => set (g := f) end.
  assert (Hg : op_at (upd_op p g s) p = g o) by (rewrite op_at_upd, decide_True, (op_at_some _ _ _ Ho) by done; done).
  rewrite Hg. change (op_worker_claimed (g o)) with (op_worker_claimed o).
  assert (Hs : forall but o', op_state o' = SL_PROVIDER_OPERATION_TERMINAL -> op_cleanup_ran o' = op_cleanup_ran o -> op_facts o' = op_facts o ->
    op_counted_in_flight o' = op_counted_in_flight o -> (p <> but -> op_fine o' true (working ws p) 0 (closed s)) ->
    forall s', pv_ops s' = <[p := o']> (pv_ops s) -> pv_exec s' = pv_exec s -> pv_log s' = pv_log s -> pinv but ws owner queue s').
  { intros but o' S1 S2 S3 S4 S5 s' E1 E2 E3. eapply (change_inv 0 but p o o' ws ws owner owner queue queue s); try done; rewrite ?E2; try done.
    - rewrite Hsl, S4. lia.
    - apply Hi.
    - intros q _. unfold times. by rewrite E3.
    - intros Hb. rewrite Hsl, Hpd. by apply S5.
    - unfold times. rewrite E3, S2, S3. exact (iv_clean _ _ _ _ _ Hi p o Ho).
    - unfold times. rewrite E3. fold (times (EvDispatch p) s). split; [lia|done].
    - apply Hi. }
  destruct (op_worker_claimed o) eqn:Hcl.
  - apply (Hs 0 (op_set_drained true (g o))); try done.
    + intros _. split; [cbn; by rewrite Hcl|]. cbn. split; [done|]. right. by split_and!.
    + cbn [pv_ops upd_op set_pv_ops]. rewrite Hg, (op_at_some _ _ _ Ho). apply insert_insert_eq.
  - apply (finish_slotted_inv p (g o)); try done.
    + apply (Hs p (g o)); try done. cbn. by rewrite (op_at_some _ _ _ Ho).
    + rewrite upd_lookup, decide_True, (op_at_some _ _ _ Ho) by done. done.
Qed.

Lemma the_completion_ours p status o : p <> 0 -> ours (the_completion p status o).
Proof. intros H. by split_and!. Qed.

Lemma post_terminal_inv p status reason code message a b ws owner s :
  pinv 0 ws owner (rn_queue s) (av_env s) -> is_Some (pv_ops (av_env s) !! p) ->
  let s' := snd (sl_provider_operation_post_terminal p status reason code message a b s) in pinv 0 ws owner (rn_queue s') (av_env s').
Proof.
  intros Hi [o Ho]. unfold sl_provider_operation_post_terminal. rewrite (op_at_some _ _ _ Ho).
  destruct (Z.eqb_spec p 0) as [|Hp0]; [done|]. cbn [orb]. case_match; [done|]. case_bool_decide as Hst; [done|].
  cbv zeta. match goal with |- context [op_set_terminal ?a ?b ?d] => set (g := op_set_terminal a b d) end.
  match goal with |- context [sl_async_loop_post REF (the_completion p _ (op_at (av_env ?x) p)) _] => set (s1 := x) end.
  assert (Hi1 : pinv 0 ws owner (rn_queue s1) (av_env s1) /\ pv_ops (av_env s1) !! p = Some (g o)).
  { assert (Hu : pinv 0 ws owner (rn_queue s) (upd_op p g (av_env s))) by (apply alike_inv; [by eexists|done|done]).
    unfold s1. split.
    - case_match; [|exact Hu]. eapply provider_quiet_inv; [apply bump_quiet|exact Hu].
    - assert (Hl : pv_ops (upd_op p g (av_env s)) !! p = Some (g o)) by (rewrite upd_lookup, decide_True, (op_at_some _ _ _ Ho) by done; done).
      case_match; exact Hl. }
  clearbody s1. destruct Hi1 as [Hi1 Ho1]. match goal with |- context [sl_async_loop_post REF ?x s1] => set (c := x) end.
  assert (Hc : ours c) by by apply the_completion_ours.
  pose proof (post_posts c s1) as [Hq Hs]. destruct (sl_async_loop_post REF c s1) as [[u|x] s2]; cbn [fst snd] in *.
  - change (rn_queue (on_env ?f s2)) with (rn_queue s2). cbn [av_env on_env]. rewrite Hq. eapply provider_quiet_inv; [apply count_end_quiet|].
    apply (posted_inv _ _ _ _ p (g o)); [by eapply provider_quiet_inv|by rewrite (qu_ops _ _ Hs)|done..].
  - change (rn_queue (on_env ?f s2)) with (rn_queue s2). cbn [av_env on_env]. rewrite Hq, app_nil_r.
    apply (post_failed_inv _ _ _ _ _ (g o)); [by eapply provider_quiet_inv|by rewrite (qu_ops _ _ Hs)|done].
Qed.

Lemma cancel_operation_token_quiet p reason detail s : quiet s (snd (cancel_operation_token p reason detail s)).
Proof. unfold cancel_operation_token. case_match; [apply provider_quiet_refl|]. case_match. apply token_quiet. Qed.

Lemma settle_cancelled_inv p reason status detail a b ws owner s :
  pinv 0 ws owner (rn_queue s) (av_env s) -> is_Some (pv_ops (av_env s) !! p) ->
  let s' := snd (settle_cancelled p reason status detail a b s) in pinv 0 ws owner (rn_queue s') (av_env s').
Proof.
  intros Hi Ho. unfold settle_cancelled. pose proof (cancel_operation_token_quiet p reason detail (av_env s)) as Hs.
  destruct (cancel_operation_token p reason detail (av_env s)) as [st e]. cbn [snd] in Hs. cbv zeta.
  pose proof (post_terminal_inv p status reason (sl_cancellation_diag_code reason) detail a b ws owner (Build_AsyncSys (av_loop s) e)) as H.
  cbv zeta in H. destruct (sl_provider_operation_post_terminal _ _ _ _ _ _ _ _) as [[u|x] s1]; cbn [snd] in *; apply H;
    try exact (provider_quiet_inv _ _ _ _ _ _ Hs Hi); cbn [av_env]; by rewrite (qu_ops _ _ Hs).
Qed.
End Post.

(** * Workers *)

Section WorkerSteps.
Context {RO : ReadOnlyData} {PH : ProviderHost}.

Lemma working_set ws i w w' p : ws !! i = Some w -> working (<[i := w']> ws) p = working ws p - works_on p w + works_on p w'.
Proof. apply sum_insert. Qed.

Lemma knowing_set ws i w w' p : ws !! i = Some w -> knowing (<[i := w']> ws) p = knowing ws p - knows p w + knows p w'.
Proof. apply sum_insert. Qed.

(** The invariant reads no more of the workers than what they work on and what they know. *)
Lemma workers_inv but ws ws' owner queue s :
  (forall p, working ws' p = working ws p) -> (forall p, knowing ws p = 0 -> knowing ws' p = 0) ->
  pinv but ws owner queue s -> pinv but ws' owner queue s.
Proof.
  intros Hw Hk [I1 I2 I3 I4 I5 I7 I8 I9 I10 I11]. split; try done.
  - intros p o Hp Ho. rewrite Hw. by apply I7.
  - intros p Hp. destruct (I8 p Hp) as (H1 & H2). split; [by apply Hk|done].
Qed.

Lemma works_on_nonneg p w : 0 <= works_on p w.
Proof. destruct w; cbn; try lia; case_match; lia. Qed.

Lemma knows_nonneg p w : 0 <= knows p w.
Proof. destruct w; cbn; try lia; case_match; lia. Qed.

(** A worker only knows operations there are. *)
Lemma known_op but ws owner queue s i w p :
  pinv but ws owner queue s -> ws !! i = Some w -> knows p w = 1 -> is_Some (pv_ops s !! p).
Proof.
  intros Hi Hw Hk. destruct (pv_ops s !! p) eqn:E; [by eexists|]. exfalso. destruct (iv_none _ _ _ _ _ Hi p E) as (H & _).
  pose proof (sum_at_least (knows p) _ _ _ (knows_nonneg p) Hw) as Hle. unfold knowing in H. lia.
Qed.

(** Other operations do not see a worker turn to [p]. *)
Lemma others_same ws i w w' p q : ws !! i = Some w -> q <> p ->
  (match w with WLooking => True | WReturned p' _ => p' = p | _ => False end) ->
  (match w' with WRunning p' | WUnclaimed p' _ => p' = p | _ => False end) ->
  working (<[i := w']> ws) q = working ws q /\ knowing (<[i := w']> ws) q = knowing ws q.
Proof.
  intros Hw Hq H1 H2. rewrite (working_set _ _ _ _ _ Hw), (knowing_set _ _ _ _ _ Hw).
  destruct w, w'; try done; subst; cbn; destruct (Z.eqb_spec p q); lia.
Qed.

Lemma look_inv ws i owner queue s :
  pinv 0 ws owner queue s -> ws !! i = Some WLooking -> pinv 0 (<[i := fst (worker_look s)]> ws) owner queue (snd (worker_look s)).
Proof.
  intros Hi Hw. unfold worker_look. destruct (ex_worker_stop_requested _).
  { eapply (workers_inv _ ws); [| |eapply provider_quiet_inv; [|exact Hi]; done].
    - intros p. rewrite (working_set _ _ _ _ _ Hw). cbn. lia.
    - intros p. rewrite (knowing_set _ _ _ _ _ Hw). cbn. lia. }
  destruct (sl_provider_executor_next_runnable_locked s) as [p|] eqn:E; cbn [fst snd]; [|by rewrite list_insert_id].
  apply best_of_spec in E as (Hin & Hp0 & Hr). destruct (iv_known _ _ _ _ _ Hi p Hin Hp0) as [o Ho]. rewrite (op_at_some _ _ _ Ho) in Hr.
  apply andb_true_iff in Hr as [[Hst%bool_decide_eq_true _]%andb_true_iff Hcl%negb_true_iff].
  assert (Hst' : op_state o <> SL_PROVIDER_OPERATION_TERMINAL) by congruence.
  destruct (live_slotted _ _ _ _ _ _ Hi Ho Hst') as (Hsl & Hran & Hdr & Hpd & Hwk & Hdi & Hq). rewrite Hcl in Hwk.
  assert (Ht : forall e, (forall q, e <> EvRun q) -> times e (note (EvRun p) (upd_op p (op_set_claimed true) s)) = times e s).
  { intros e He. rewrite times_note, decide_False by apply He. change (times e (upd_op p (op_set_claimed true) s)) with (times e s). lia. }
  pose proof (iv_ops _ _ _ _ _ Hi p o Hp0 Ho) as [_ F2]. rewrite Hsl, Hst in F2. destruct F2 as (_ & F2 & _).
  eapply (change_inv 0 0 p o (op_set_claimed true o) ws _ owner owner queue queue s); try done.
  - cbn. by rewrite (op_at_some _ _ _ Ho).
  - rewrite Hsl. cbn. lia.
  - apply Hi.
  - intros q _. by rewrite !Ht.
  - intros q Hqp. destruct (others_same ws i WLooking (WRunning p) p q Hw Hqp I eq_refl) as [-> ->]. done.
  - intros _. rewrite Hsl, (working_set _ _ _ _ _ Hw), Hwk. split; [cbn; by rewrite Z.eqb_refl|]. cbn. by rewrite Hst.
  - rewrite Ht by done. exact (iv_clean _ _ _ _ _ Hi p o Ho).
  - rewrite Ht by done. split; [lia|]. intros _. exact Hdi.
  - apply Hi.
Qed.

Lemma unclaim_inv ws i p r owner queue s :
  pinv 0 ws owner queue s -> ws !! i = Some (WReturned p r) -> pinv 0 (<[i := WUnclaimed p r]> ws) owner queue (worker_unclaim p s).
Proof.
  intros Hi Hw. destruct (known_op _ _ _ _ _ i _ p Hi Hw) as [o Ho]; [cbn; by rewrite Z.eqb_refl|].
  assert (Hp0 : p <> 0) by (pose proof (iv_null _ _ _ _ _ Hi); congruence).
  destruct (iv_ops _ _ _ _ _ Hi p o Hp0 Ho) as [F1 F2].
  assert (Hone : 1 <= working ws p).
  { pose proof (sum_at_least (works_on p) ws i _ (works_on_nonneg p) Hw) as H. cbn in H. rewrite Z.eqb_refl in H. exact H. }
  destruct (op_worker_claimed o) eqn:Hcl; [|lia]. destruct (slotted s p) eqn:Hsl; [|destruct F2 as (_ & _ & ? & _); congruence]. destruct F2 as [Hran F2].
  assert (Hs : forall but, (p <> but -> op_fine (op_set_claimed false o) true 0 (pending (in_loop owner queue) p) (closed s)) ->
    pinv but (<[i := WUnclaimed p r]> ws) owner queue (upd_op p (op_set_claimed false) s)).
  { intros but Hf. eapply (change_inv 0 but p o (op_set_claimed false o) ws _ owner owner queue queue s); try done.
    - cbn. by rewrite (op_at_some _ _ _ Ho).
    - rewrite Hsl. cbn. lia.
    - apply Hi.
    - intros q Hqp. destruct (others_same ws i (WReturned p r) (WUnclaimed p r) p q Hw Hqp eq_refl eq_refl) as [-> ->]. done.
    - intros Hb. rewrite Hsl, (working_set _ _ _ _ _ Hw), F1. cbn. rewrite Z.eqb_refl. by apply Hf.
    - exact (iv_clean _ _ _ _ _ Hi p o Ho).
    - exact (iv_dispatch _ _ _ _ _ Hi p o Ho).
    - apply Hi. }
  unfold worker_unclaim. rewrite op_at_upd, decide_True, (op_at_some _ _ _ Ho) by done. cbn [op_state op_terminal_completion_drained op_set_claimed].
  case_bool_decide as Hst; cbn [andb].
  2: { apply Hs. intros _. split; [done|]. cbn. split; [done|]. destruct (op_state o); [done| |done|done]. destruct F2 as (_ & ? & _). congruence. }
  rewrite Hst in F2. destruct F2 as [[F2 Hd]|(F2 & Hd & _)]; rewrite Hd.
  - apply Hs. intros _. split; [done|]. cbn. rewrite Hst. split; [done|]. by left.
  - apply (finish_slotted_inv p (op_set_claimed false o)); try done.
    + by apply Hs.
    + rewrite upd_lookup, decide_True, (op_at_some _ _ _ Ho) by done. done.
    + rewrite (working_set _ _ _ _ _ Hw), F1. cbn. by rewrite Z.eqb_refl.
Qed.

Lemma account_quiet a b s : quiet s (worker_account a b s).
Proof. unfold worker_account. repeat case_match; try apply provider_quiet_refl; by split. Qed.
End WorkerSteps.
