(* ===== verification/ProviderAccounts.v ===== *)
(** What holds of a provider executor in every state it can reach
    (src/core/provider_executor.c). *)

From stdpp Require Import strings gmap list relations.
From S2P Require Import Prelude Memory Status Arena Str Bytes Simd StrArena Container Sink Builder Diag Queue Loop Async Capability HttpBackend AsyncLoop Provider ProviderRun ProviderInv.

Open Scope Z_scope.

(** * Disposal *)

Section Dispose.
Context {RO : ReadOnlyData} {PH : ProviderHost}.

Definition discarded (o : SlProviderOperation) : SlProviderOperation :=
  op_set_cleanup_ran true (op_set_state SL_PROVIDER_OPERATION_TERMINAL
    (op_set_terminal (sl_cancellation_status_code SL_CANCELLATION_REASON_SHUTDOWN) SL_CANCELLATION_REASON_SHUTDOWN (op_diag o) o)).

(** The state when the first [k] slots have been looked at. *)
Record disposing (s s' : ProviderSys) (k : nat) : Prop := {
  dp_slots : ex_slots (pv_exec s') = replicate k 0 ++ drop k (ex_slots (pv_exec s));
  dp_kept : ex_max_in_flight (pv_exec s') = ex_max_in_flight (pv_exec s) /\ ex_shutting_down (pv_exec s') = ex_shutting_down (pv_exec s);
  dp_gone : forall p o, p ∈ take k (ex_slots (pv_exec s)) -> p <> 0 -> pv_ops s !! p = Some o ->
    pv_ops s' !! p = Some (discarded o) /\ times (EvCleanup p) s' = times (EvCleanup p) s + if of_cleanup (op_facts o) =? 0 then 0 else 1;
  dp_other : forall p, p ∉ take k (ex_slots (pv_exec s)) \/ p = 0 -> pv_ops s' !! p = pv_ops s !! p /\ times (EvCleanup p) s' = times (EvCleanup p) s;
  dp_dispatch : forall p, times (EvDispatch p) s' = times (EvDispatch p) s;
}.

Lemma discard_spec p o s : pv_ops s !! p = Some o -> op_cleanup_ran o = false ->
  let s' := sl_provider_operation_discard p SL_CANCELLATION_REASON_SHUTDOWN s in
  pv_ops s' = <[p := discarded o]> (pv_ops s) /\ pv_exec s' = pv_exec s /\
  forall e, times e s' = times e s + if decide (e = EvCleanup p) then (if of_cleanup (op_facts o) =? 0 then 0 else 1) else 0.
Proof.
  intros Ho Hran. unfold sl_provider_operation_discard, sl_provider_operation_run_cleanup_once.
  rewrite !op_at_upd, !decide_True by done. rewrite (op_at_some _ _ _ Ho). cbn [op_cleanup_ran op_set_state op_set_terminal op_facts op_set_cleanup_ran]. rewrite Hran.
  match goal with |- context [upd_op p (op_set_cleanup_ran true) ?x] => set (s1 := x) end.
  assert (E : pv_ops (upd_op p (op_set_cleanup_ran true) s1) = <[p := discarded o]> (pv_ops s)).
  { unfold s1. cbn [pv_ops upd_op set_pv_ops]. rewrite op_at_upd, decide_True, (op_at_some _ _ _ Ho) by done. apply insert_insert_eq. }
  destruct (of_cleanup (op_facts o) =? 0).
  - split_and!; [exact E|done|]. intros e. case_decide; symmetry; apply Z.add_0_r.
  - split_and!; [exact E|done|]. intros e. rewrite times_note. done.
Qed.

Lemma disposing_step s s' k :
  distinct (ex_slots (pv_exec s)) -> (k < length (ex_slots (pv_exec s)))%nat ->
  (forall p, p ∈ ex_slots (pv_exec s) -> p <> 0 -> exists o, pv_ops s !! p = Some o /\ op_cleanup_ran o = false) ->
  disposing s s' k -> disposing s (dispose_slot s' k) (S k).
Proof.
  intros Hd Hk Hops [D1 [D2 D3] D4 D5 D6].
  destruct (lookup_lt_is_Some_2 _ _ Hk) as [p Hp]. pose proof (take_S_r _ _ _ Hp) as Ht. pose proof (drop_S _ _ _ Hp) as Hdr.
  assert (Hn : nth k (ex_slots (pv_exec s')) 0 = p).
  { rewrite D1, Hdr, app_nth2; rewrite length_replicate; [|lia]. by rewrite Nat.sub_diag. }
  unfold dispose_slot. rewrite Hn. destruct (Z.eqb_spec p 0) as [->|Hp0].
  { split; [|done|..|done].
    - rewrite D1, Hdr, replicate_S_end, <- app_assoc. done.
    - intros q o Hq Hq0. rewrite Ht, elem_of_app, list_elem_of_singleton in Hq. destruct Hq as [Hq|]; [|done]. by apply D4.
    - intros q Hq. apply D5. rewrite Ht, elem_of_app, list_elem_of_singleton in Hq. destruct (decide (q = 0)); [by right|]. left. tauto. }
  assert (Hin : p ∈ ex_slots (pv_exec s)) by (apply list_elem_of_lookup; by exists k).
  assert (Hnot : p ∉ take k (ex_slots (pv_exec s))).
  { intros (j & Hj)%list_elem_of_lookup. apply lookup_take_Some in Hj as [Hj Hlt]. pose proof (Hd j k p Hp0 Hj Hp). lia. }
  destruct (Hops p Hin Hp0) as (o & Ho & Hran). destruct (D5 p (or_introl Hnot)) as [Ho' Hc'].
  destruct (discard_spec p o s') as (E1 & E2 & E3); [congruence|done|].
  set (s2 := sl_provider_operation_discard p SL_CANCELLATION_REASON_SHUTDOWN s') in *. clearbody s2.
  change (forall e, times e (upd_exec (fun e => ex_set_slots (<[k := 0]> (ex_slots e)) e) s2) =
    times e s' + if decide (e = EvCleanup p) then (if of_cleanup (op_facts o) =? 0 then 0 else 1) else 0) in E3.
  split; cbn [pv_exec upd_exec pv_ops ex_slots ex_set_slots ex_max_in_flight ex_shutting_down]; rewrite ?E1, ?E2.
  - rewrite D1, Hdr, replicate_S_end, <- app_assoc. rewrite insert_app_r_alt by (rewrite length_replicate; lia).
    rewrite length_replicate, Nat.sub_diag. done.
  - done.
  - intros q oq Hq Hq0 Hoq. rewrite E3. destruct (decide (q = p)) as [->|Hqp].
    + rewrite lookup_insert_eq, decide_True, Hc' by done. assert (oq = o) as -> by congruence. done.
    + rewrite lookup_insert_ne, decide_False, Z.add_0_r by congruence. rewrite Ht, elem_of_app, list_elem_of_singleton in Hq. destruct Hq as [Hq|]; [|done]. by apply D4.
  - intros q Hq. rewrite E3. rewrite Ht, elem_of_app, list_elem_of_singleton in Hq.
    assert (Hqp : q <> p) by (intros ->; tauto). rewrite lookup_insert_ne, decide_False, Z.add_0_r by congruence. apply D5. tauto.
  - intros q. rewrite E3, decide_False, Z.add_0_r by done. apply D6.
Qed.
Lemma disposing_all s :
  distinct (ex_slots (pv_exec s)) -> (forall p, p ∈ ex_slots (pv_exec s) -> p <> 0 -> exists o, pv_ops s !! p = Some o /\ op_cleanup_ran o = false) ->
  disposing s (fold_left dispose_slot (seq 0 (length (ex_slots (pv_exec s)))) s) (length (ex_slots (pv_exec s))).
Proof.
  intros Hd Hops.
  assert (H : forall k, (k <= length (ex_slots (pv_exec s)))%nat -> disposing s (fold_left dispose_slot (seq 0 k) s) k); [|by apply H].
  induction k as [|k IH]; intros Hk.
  - split; try done. intros p o Hp. rewrite take_0 in Hp. by apply not_elem_of_nil in Hp.
  - rewrite seq_S, fold_left_app. apply disposing_step; [done|lia|done|]. apply IH. lia.
Qed.

Lemma stopped_idle ws p : Forall (eq WStopped) ws -> working ws p = 0.
Proof. intros H. apply sum_zero. intros w Hw. rewrite Forall_forall in H. by rewrite <- (H w Hw). Qed.

Lemma slotted_fine ws owner queue s p :
  pinv 0 ws owner queue s -> p ∈ ex_slots (pv_exec s) -> p <> 0 ->
  exists o, pv_ops s !! p = Some o /\ op_cleanup_ran o = false /\ op_fine o true (working ws p) (pending (in_loop owner queue) p) (closed s).
Proof.
  intros Hi Hp Hp0. destruct (iv_known _ _ _ _ _ Hi p Hp Hp0) as [o Ho]. pose proof (iv_ops _ _ _ _ _ Hi p o Hp0 Ho) as Hf.
  assert (Hsl : slotted s p = true) by by apply bool_decide_eq_true. rewrite Hsl in Hf. exists o. destruct Hf as [F1 [F2 F3]]. by split_and!.
Qed.

Lemma op_fine_pending o w n over : op_fine o true w n over -> (n = 0 \/ n = 1) /\ w = if op_worker_claimed o then 1 else 0.
Proof. intros [H1 [H2 H3]]. split; [|done]. destruct (op_state o); intuition. Qed.

Lemma provider_dispose_inv ws owner queue s :
  pinv 0 ws owner queue s -> ex_shutting_down (pv_exec s) = true -> Forall (eq WStopped) ws -> pinv 0 ws owner queue (dispose_end s).
Proof.
  intros Hi Hdown Hws. pose proof (disposing_all s (iv_distinct _ _ _ _ _ Hi)) as D.
  assert (Hfine : forall p, p ∈ ex_slots (pv_exec s) -> p <> 0 -> exists o, pv_ops s !! p = Some o /\ op_cleanup_ran o = false).
  { intros p Hp Hp0. destruct (slotted_fine _ _ _ _ p Hi Hp Hp0) as (o & ? & ? & _). by exists o. }
  specialize (D Hfine). unfold dispose_end. set (s1 := fold_left _ _ s) in *. clearbody s1. destruct D as [D1 [D2 D3] D4 D5 D6].
  rewrite drop_all, app_nil_r in D1. rewrite take_ge in D4, D5 by done. set (s2 := upd_exec _ s1).
  change (forall p, p ∉ ex_slots (pv_exec s) \/ p = 0 -> pv_ops s2 !! p = pv_ops s !! p /\ times (EvCleanup p) s2 = times (EvCleanup p) s) in D5.
  change (forall p o, p ∈ ex_slots (pv_exec s) -> p <> 0 -> pv_ops s !! p = Some o ->
    pv_ops s2 !! p = Some (discarded o) /\ times (EvCleanup p) s2 = times (EvCleanup p) s + if of_cleanup (op_facts o) =? 0 then 0 else 1) in D4.
  change (forall p, times (EvDispatch p) s2 = times (EvDispatch p) s) in D6.
  assert (Hz : forall p, p ∈ ex_slots (pv_exec s2) -> p = 0) by (intros p; cbn; rewrite D1; apply elem_of_replicate_inv).
  assert (Hcl : closed s2 = true).
  { apply andb_true_iff. split; [|cbn; congruence]. apply forallb_forall. intros p Hp%list_elem_of_In. apply Z.eqb_eq. exact (Hz p Hp). }
  assert (Hsl : forall p, p <> 0 -> slotted s2 p = false) by (intros p Hp; apply bool_decide_eq_false; intros H; exact (Hp (Hz p H))).
  assert (Hcase : forall p, (exists o, p <> 0 /\ p ∈ ex_slots (pv_exec s) /\ pv_ops s !! p = Some o) \/ (p ∉ ex_slots (pv_exec s) \/ p = 0)).
  { intros p. destruct (decide (p ∈ ex_slots (pv_exec s))) as [Hp|]; [|by right; left]. destruct (decide (p = 0)); [by right; right|].
    destruct (Hfine p Hp n) as (o & ? & _). left. by exists o. }
  split.
  - intros i j p Hp Hpi. exfalso. apply Hp, Hz. apply list_elem_of_lookup. by exists i.
  - intros p Hp Hp0. by apply Hz in Hp.
  - destruct (D5 0) as [-> _]; [by right|apply Hi].
  - cbn. symmetry. apply sum_zero. intros p Hp. rewrite (Hz p); [done|exact Hp].
  - cbn. split; [symmetry; apply sum_zero; intros p Hp; rewrite (Hz p); [done|exact Hp]|]. rewrite D2.
    destruct (iv_flight _ _ _ _ _ Hi) as [Hf Hm]. pose proof (sum_nonneg (flying s) (ex_slots (pv_exec s)) ltac:(intros x; unfold flying; case_match; lia)). lia.
  - intros p o Hp0. rewrite Hcl, Hsl by done. destruct (Hcase p) as [(o' & _ & Hin & Ho')|Hno].
    + destruct (D4 p o' Hin Hp0 Ho') as [-> _]. intros [= <-]. destruct (slotted_fine _ _ _ _ p Hi Hin Hp0) as (o2 & Ho2 & _ & [Hn Hw]%op_fine_pending).
      assert (o2 = o') as -> by congruence. rewrite stopped_idle in Hw by done. rewrite stopped_idle by done.
      destruct (op_worker_claimed o') eqn:E; [lia|]. split; cbn; rewrite E; [done|]. split_and!; try done. destruct Hn; auto.
    + destruct (D5 p Hno) as [-> _]. intros Ho. assert (slotted s p = false) as Hs by (apply bool_decide_eq_false; tauto).
      pose proof (iv_ops _ _ _ _ _ Hi p o Hp0 Ho) as Hf. rewrite Hs in Hf. eapply op_fine_mono; [|exact Hf]. done.
  - intros p. rewrite D6. destruct (Hcase p) as [(o' & Hp0 & Hin & Ho')|Hno].
    + by destruct (D4 p o' Hin Hp0 Ho') as [-> _].
    + destruct (D5 p Hno) as [-> ->]. apply Hi.
  - intros p o. destruct (Hcase p) as [(o' & Hp0 & Hin & Ho')|Hno].
    + destruct (D4 p o' Hin Hp0 Ho') as [-> ->]. intros [= <-]. rewrite (iv_clean _ _ _ _ _ Hi p o' Ho').
      destruct (Hfine p Hin Hp0) as (o2 & Ho2 & Hr). assert (o2 = o') as -> by congruence. rewrite Hr. cbn. by destruct (_ =? 0).
    + destruct (D5 p Hno) as [-> ->]. apply Hi.
  - intros p o. rewrite D6. destruct (Hcase p) as [(o' & Hp0 & Hin & Ho')|Hno].
    + destruct (D4 p o' Hin Hp0 Ho') as [-> _]. intros [= <-]. split; [apply (iv_dispatch _ _ _ _ _ Hi p o' Ho')|done].
    + destruct (D5 p Hno) as [-> _]. apply Hi.
  - apply Hi.
Qed.
End Dispose.

(** * Submission *)

(** Computations that leave the accounts alone. *)
Definition calm {A} (c : ST ProviderSys A) : Prop := forall s, quiet s (snd (c s)).

Section Calm.
Lemma calm_ret {A} (a : A) : calm (mret a).
Proof. intros s. apply provider_quiet_refl. Qed.
Lemma calm_fail {A} code : calm (fail (A := A) code).
Proof. intros s. apply provider_quiet_refl. Qed.
Lemma calm_gets {A} (f : ProviderSys -> A) : calm (gets f).
Proof. intros s. apply provider_quiet_refl. Qed.
Lemma calm_bump c : calm (modify (bump c)).
Proof. intros s. apply bump_quiet. Qed.
Lemma calm_diag d : calm (modify (set_pv_diag d)).
Proof. by intros s. Qed.
Lemma calm_bind {A B} (c : ST ProviderSys A) (k : A -> ST ProviderSys B) : calm c -> (forall a, calm (k a)) -> calm (c ≫= k).
Proof.
  intros Hc Hk s. specialize (Hc s). unfold mbind, st_bind. destruct (c s) as [[a|e] s1]; cbn [snd] in *; [|done].
  eapply provider_quiet_trans; [exact Hc|apply Hk].
Qed.
Lemma calm_world {A} (c : ST World A) : calm (in_pv_world c).
Proof. intros s. unfold in_pv_world, zoom. destruct (c (pv_world s)) as [r w]. by split. Qed.
Lemma calm_if {A} (b : bool) (c1 c2 : ST ProviderSys A) : calm c1 -> calm c2 -> calm (if b then c1 else c2).
Proof. by destruct b. Qed.
Lemma calm_on_error {A} (c : ST ProviderSys A) h : calm c -> (forall e, calm (h e)) -> calm (on_error c h).
Proof.
  intros Hc Hh s. specialize (Hc s). unfold on_error. destruct (c s) as [[a|e] s1]; cbn [snd] in *; [done|]. eapply provider_quiet_trans; [exact Hc|apply Hh].
Qed.
End Calm.
#[export] Hint Resolve calm_ret calm_fail calm_gets calm_bump calm_diag calm_bind calm_world calm_if calm_on_error : provider.

Section SubmitSteps.
Context {BC : BuildConfig} {SC : SimdConfig} {RO : ReadOnlyData} {PH : ProviderHost} {OL : OperationLayout} (scratch : Z).
Context (capability_check : SlStr -> SlCapabilityOperation -> SlStr -> SlStr -> nullable -> ST CheckSys unit).

Ltac calm_tac := repeat first [ apply calm_if | apply calm_bind | apply calm_on_error | match goal with |- forall _, calm _ => intros ? end | solve [auto 2 with provider] ].

Lemma denied_diag_calm d t r : calm (sl_provider_build_denied_diag scratch d t r).
Proof. unfold sl_provider_build_denied_diag. calm_tac. Qed.

Lemma admission_diag_calm d c r : calm (sl_provider_build_admission_diag scratch d c r).
Proof. unfold sl_provider_build_admission_diag. calm_tac. Qed.

Lemma reject_calm {A} d c m st : calm (sl_provider_executor_reject_with_diag scratch (A := A) d c m st).
Proof.
  intros s. unfold sl_provider_executor_reject_with_diag. pose proof (admission_diag_calm d c (literal m) s) as H.
  by destruct (sl_provider_build_admission_diag _ _ _ _ _) as [r s1].
Qed.
Hint Resolve denied_diag_calm reject_calm : provider.

Lemma validate_calm kind d : calm (sl_provider_executor_validate_submission scratch capability_check kind d).
Proof.
  unfold sl_provider_executor_validate_submission. apply calm_bind; [auto with provider|]. intros s. calm_tac.
  intros s1. unfold zoom. match goal with |- context [capability_check ?a ?b ?c ?d ?e ?f] => destruct (capability_check a b c d e f) as [r w] end. by split.
Qed.

Lemma reserve_calm d : calm (sl_provider_executor_reserve_slot scratch d).
Proof. unfold sl_provider_executor_reserve_slot. apply calm_bind; [auto with provider|]. intros e. apply calm_if; [calm_tac|]. destruct (sl_provider_executor_find_free_slot e); auto with provider. Qed.

(** Refused and nothing of the accounts changed, or admitted to a free slot. *)
Definition admits (s : ProviderSys) (o : result Z * ProviderSys) : Prop :=
  match o with
  | (Err _, s') => quiet s s'
  | (Ok p, s') => exists slot facts s1, quiet s s1 /\ ex_shutting_down (pv_exec s1) = false /\ ex_slots (pv_exec s1) !! slot = Some 0 /\
      s' = admit_operation slot p (sl_provider_operation_init_from_descriptor facts) s1
  end.

Lemma admits_bind {A} (c : ST ProviderSys A) (k : A -> ST ProviderSys Z) s :
  calm c -> (forall a s1, c s = (Ok a, s1) -> quiet s s1 -> admits s1 (k a s1)) -> admits s ((c ≫= k) s).
Proof.
  intros Hc Hk. specialize (Hc s). unfold mbind, st_bind. destruct (c s) as [[a|e] s1]; cbn [snd] in *; [|done].
  specialize (Hk a s1 eq_refl Hc). destruct (k a s1) as [[p|e] s2]; cbn [admits] in *; [|by eapply provider_quiet_trans].
  destruct Hk as (slot & facts & s3 & H1 & H2). exists slot, facts, s3. split; [by eapply provider_quiet_trans|done].
Qed.

Lemma reserve_free d slot s s' : sl_provider_executor_reserve_slot scratch d s = (Ok slot, s') -> ex_slots (pv_exec s) !! slot = Some 0.
Proof.
  unfold sl_provider_executor_reserve_slot. unfold mbind, st_bind, gets. destruct (_ <=? _).
  { unfold sl_provider_executor_reject_with_diag, modify. by destruct (sl_provider_build_admission_diag _ _ _ _ _). }
  unfold sl_provider_executor_find_free_slot. pose proof (find_slot_spec 0 (ex_slots (pv_exec s))) as H.
  destruct (find_slot 0 (ex_slots (pv_exec s))); [|done]. by intros [= <- _].
Qed.

Lemma submit_admits arena d out s :
  let o := sl_provider_executor_submit scratch capability_check arena d out s in
  av_loop (snd o) = av_loop s /\ admits (av_env s) (fst o, av_env (snd o)).
Proof.
  intros o. assert (Ho : o = sl_provider_executor_submit scratch capability_check arena d out s) by done. clearbody o. revert Ho.
  unfold sl_provider_executor_submit. destruct (_ || _); [intros ->; split; [done|apply provider_quiet_refl]|]. unfold mbind at 1, st_bind at 1, gets at 1, on_provider, zoom.
  match goal with |- context [let '(r, s2) := ?c (av_env s) in _] => set (body := c) end.
  assert (H : admits (av_env s) (body (av_env s))); [|by intros ->; destruct (body (av_env s))]. unfold body. clear.
  apply admits_bind; [apply validate_calm|]. intros _ s1 _ _. apply admits_bind; [apply reserve_calm|]. intros slot s2 Hslot%reserve_free Q2.
  rewrite <- (qu_slots _ _ Q2) in Hslot.
  apply admits_bind; [auto with provider|]. intros mark s3 _ Q3. rewrite <- (qu_slots _ _ Q3) in Hslot.
  apply admits_bind; [auto with provider|]. intros p s4 _ Q4. rewrite <- (qu_slots _ _ Q4) in Hslot.
  apply admits_bind; [auto with provider|]. intros sequence s5 _ Q5. rewrite <- (qu_slots _ _ Q5) in Hslot.
  apply admits_bind; [by intros x|]. intros _ s6 _ Q6. rewrite <- (qu_slots _ _ Q6) in Hslot.
  apply admits_bind; [apply calm_on_error; [auto with provider|]; intros e; apply calm_bind; [by intros x|auto with provider]|].
  intros facts s7 _ Q7. rewrite <- (qu_slots _ _ Q7) in Hslot. unfold mbind at 1, st_bind at 1, gets at 1.
  destruct (ex_shutting_down (pv_exec s7)) eqn:Hd; cbn.
  - by split.
  - exists slot, facts, s7. split_and!; [apply provider_quiet_refl|done..].
Qed.

(** A new operation in a free slot. *)
Lemma admit_inv ws owner queue s slot p facts :
  pinv 0 ws owner queue s -> p <> 0 -> pv_ops s !! p = None -> ex_shutting_down (pv_exec s) = false -> ex_slots (pv_exec s) !! slot = Some 0 ->
  pinv 0 ws owner queue (admit_operation slot p (sl_provider_operation_init_from_descriptor facts) s).
Proof.
  intros Hi Hp0 Hnew Hdown Hslot. unfold admit_operation, sl_provider_executor_activate_submitted, sl_provider_executor_activate_next.
  apply activate_inv. eapply provider_quiet_inv; [apply bump_quiet|]. set (o := sl_provider_operation_init_from_descriptor facts).
  destruct Hi as [I1 I2 I3 I4 [I5 I6] I7 I8 I9 I10 I11]. destruct (I8 p Hnew) as (N1 & N2 & N3 & N4).
  assert (Hnot : p ∉ ex_slots (pv_exec s)) by (intros Hin; destruct (I2 p Hin Hp0); congruence).
  set (s' := upd_exec _ _).
  assert (Es : ex_slots (pv_exec s') = <[slot := p]> (ex_slots (pv_exec s))) by done.
  assert (Eo : pv_ops s' = <[p := o]> (pv_ops s)) by done.
  assert (Ht : forall e, times e s' = times e s) by done.
  assert (Hel : forall q, q <> 0 -> q ∈ <[slot := p]> (ex_slots (pv_exec s)) <-> q ∈ ex_slots (pv_exec s) \/ q = p) by (intros q; by apply taken_elem).
  assert (Hfl : forall q, q <> p -> flying s' q = flying s q) by (intros q Hq; unfold flying, op_at; by rewrite Eo, lookup_total_insert_ne).
  assert (Hncl : closed s = false) by (unfold closed; rewrite Hdown; apply andb_false_r).
  assert (Hwk : working ws p = 0).
  { pose proof (sum_nonneg (works_on p) ws (works_on_nonneg p)).
    assert (working ws p <= knowing ws p); [|unfold working in *; lia]. clear. unfold working, knowing. induction ws as [|w ws IH]; [done|].
    cbn [sum_of]. assert (works_on p w <= knows p w); [|lia]. destruct w; cbn; try lia. destruct (_ =? _); lia. }
  split; rewrite ?Es, ?Eo; try done.
  - by apply distinct_take.
  - intros q Hq Hq0. apply Hel in Hq as [Hq| ->]; [|rewrite lookup_insert_eq; by eexists|done].
    destruct (decide (q = p)) as [->|]; [rewrite lookup_insert_eq; by eexists|]. rewrite lookup_insert_ne by done. by apply I2.
  - rewrite lookup_insert_ne by done. exact I3.
  - rewrite (sum_insert _ _ slot 0 p Hslot), <- I4. unfold occupied. destruct (Z.eqb_spec p 0); [done|]. cbn. lia.
  - split; [|exact I6]. transitivity (sum_of (flying s) (ex_slots (pv_exec s))); [exact I5|].
    rewrite (sum_ext (flying s') (fun q => if decide (q = p) then 0 else flying s q)).
    + rewrite (sum_insert _ _ slot 0 p Hslot), decide_False, decide_True by congruence. change (flying s 0) with 0. rewrite Z.add_0_r, Z.sub_0_r.
      apply sum_ext. intros q Hq. case_decide; [|done]. subst. done.
    + intros q _. case_decide; [|by apply Hfl]. subst q. unfold flying, op_at. rewrite Eo, lookup_total_insert_eq. cbn. by rewrite andb_false_r.
  - intros q oq Hq0. destruct (decide (q = p)) as [->|Hqp].
    + rewrite lookup_insert_eq. intros [= <-]. assert (slotted s' p = true) as -> by (apply bool_decide_eq_true; rewrite Es; apply Hel; auto).
      rewrite Hwk, N2. by split.
    + rewrite lookup_insert_ne by done. intros Hoq. replace (slotted s' q) with (slotted s q).
      * eapply op_fine_mono; [|by apply I7]. rewrite Hncl. done.
      * apply bool_decide_ext. rewrite Es, Hel by done. tauto.
  - intros q. destruct (decide (q = p)) as [->|Hqp]; [by rewrite lookup_insert_eq|]. rewrite lookup_insert_ne by done. rewrite !Ht. apply I8.
  - intros q oq. rewrite Ht. destruct (decide (q = p)) as [->|Hqp]; [rewrite lookup_insert_eq; intros [= <-]; done|]. rewrite lookup_insert_ne by done. apply I9.
  - intros q oq. rewrite Ht. destruct (decide (q = p)) as [->|Hqp]; [|rewrite lookup_insert_ne by done; apply I10].
    rewrite lookup_insert_eq. intros [= <-]. rewrite N4. split; [|done]. pose proof (pending_queue_le owner queue p). lia.
Qed.
End SubmitSteps.

(** * Every step keeps the invariant *)

Section Reach.
Context {BC : BuildConfig} {SC : SimdConfig} {RO : ReadOnlyData} {PH : ProviderHost} {OL : OperationLayout} (scratch : Z).
Context (capability_check : SlStr -> SlCapabilityOperation -> SlStr -> SlStr -> nullable -> ST CheckSys unit).
Abbreviation step := (run_step scratch capability_check).

Definition rinv (r : RunSys) : Prop := pinv 0 (rn_workers r) (rn_owner r) (rn_queue (rn_sys r)) (rn_env r).

Lemma initial_inv n r : initial n r -> rinv r.
Proof.
  intros [H1 H2 (H3 & H4 & H5) H6 H7 H8 H9]. unfold rinv. rewrite H8, H9. unfold rn_queue. rewrite H7.
  assert (Hz : forall p, p ∈ ex_slots (pv_exec (rn_env r)) -> p = 0) by (intros p Hp; rewrite Forall_forall in H2; by rewrite <- (H2 p Hp)).
  assert (Ht : forall e, times e (rn_env r) = 0) by (intros e; unfold times; by rewrite H6).
  assert (Hk : forall p, knowing (replicate n WStarting) p = 0).
  { intros p. apply sum_zero. intros w Hw. apply elem_of_replicate_inv in Hw. by subst. }
  split.
  - intros i j p Hp Hi. exfalso. apply Hp, Hz, list_elem_of_lookup. by exists i.
  - intros p Hp Hp0. by apply Hz in Hp.
  - by rewrite H1.
  - rewrite H3. symmetry. apply sum_zero. intros p Hp. by rewrite (Hz p Hp).
  - rewrite H4. split; [|done]. symmetry. apply sum_zero. intros p Hp. by rewrite (Hz p Hp).
  - intros p o _. by rewrite H1.
  - intros p _. by rewrite Hk, !Ht.
  - intros p o. by rewrite H1.
  - intros p o. by rewrite H1.
  - constructor.
Qed.

(** The owner takes a completion off the loop, and may dispatch it. *)
Lemma taken_inv ws c queue s s' :
  pinv 0 ws None (c :: queue) s -> s' = s \/ s' = note (EvDispatch (ac_operation c)) s -> pinv 0 ws (Some c) queue s'.
Proof.
  intros Hi Hs. set (p := ac_operation c). pose proof (iv_ours _ _ _ _ _ Hi) as Ho. cbn [in_loop] in Ho. apply Forall_cons in Ho as [(_ & _ & Hp0) _]. fold p in Hp0.
  assert (Hone : is_for p c = 1) by apply is_for_eq. pose proof (pending_nonneg queue p) as Hnn.
  assert (Ht : forall e, times e s <= times e s' /\ times e s' <= times e s + (if decide (e = EvDispatch p) then 1 else 0)).
  { intros e. destruct Hs as [->| ->]; [case_decide; lia|]. rewrite times_note. fold p. case_decide; lia. }
  assert (Hc : forall q, times (EvCleanup q) s' = times (EvCleanup q) s) by (intros q; destruct (Ht (EvCleanup q)) as [? H]; rewrite decide_False in H by done; lia).
  assert (Hd : forall q, q <> p -> times (EvDispatch q) s' = times (EvDispatch q) s).
  { intros q Hq. destruct (Ht (EvDispatch q)) as [? H]. rewrite decide_False in H by congruence. lia. }
  destruct (pv_ops s !! p) as [o|] eqn:Ho.
  2: { exfalso. destruct (iv_none _ _ _ _ _ Hi p Ho) as (_ & H & _). cbn [in_loop] in H. rewrite pending_cons in H. lia. }
  assert (Hq : forall q, q <> p -> pending (c :: queue) q = pending queue q) by (intros q Hq; rewrite pending_cons, is_for_ne by (fold p; congruence); lia).
  destruct (Ht (EvDispatch p)) as [_ Hdp]. rewrite decide_True in Hdp by done. destruct (iv_dispatch _ _ _ _ _ Hi p o Ho) as [D1 D2]. rewrite pending_cons in D1.
  assert (E : pv_ops s' = pv_ops s /\ pv_exec s' = pv_exec s) by (by destruct Hs as [->| ->]). destruct E as [E1 E2].
  eapply (change_inv 0 0 p o o ws ws None (Some c) (c :: queue) queue s); try done; rewrite ?E1, ?E2; try done.
  - by rewrite insert_id.
  - case_match; lia.
  - apply Hi.
  - intros q Hqp. by rewrite Hc, Hd.
  - intros q Hqp. split_and!; try done. by rewrite Hq.
  - intros _. exact (iv_ops _ _ _ _ _ Hi p o Hp0 Ho).
  - rewrite Hc. exact (iv_clean _ _ _ _ _ Hi p o Ho).
  - split; [lia|]. intros Hst. exfalso. destruct (live_slotted _ _ _ _ _ _ Hi Ho Hst) as (_ & _ & _ & Hz & _). cbn [in_loop] in Hz. rewrite pending_cons in Hz. lia.
  - exact (iv_ours _ _ _ _ _ Hi).
Qed.

Lemma shutdown_slot_inv p ws owner s :
  pinv 0 ws owner (rn_queue s) (av_env s) -> p ∈ ex_slots (pv_exec (av_env s)) ->
  pinv 0 ws owner (rn_queue (snd (shutdown_slot p s))) (av_env (snd (shutdown_slot p s))).
Proof.
  intros Hi Hin. unfold shutdown_slot. destruct (Z.eqb_spec p 0) as [|Hp0]; [done|]. pose proof (iv_known _ _ _ _ _ Hi p Hin Hp0) as Ho.
  set (s1 := if bool_decide _ then _ else s).
  assert (H1 : pinv 0 ws owner (rn_queue s1) (av_env s1) /\ is_Some (pv_ops (av_env s1) !! p)).
  { unfold s1. case_bool_decide; [|done]. pose proof (cancel_operation_token_quiet p SL_CANCELLATION_REASON_SHUTDOWN (literal "provider executor shutdown") (av_env s)) as Q.
    split; [exact (provider_quiet_inv _ _ _ _ _ _ Q Hi)|]. cbn [av_env on_env]. by rewrite (qu_ops _ _ Q). }
  clearbody s1. destruct H1 as [H1 H2].
  pose proof (post_terminal_inv p SL_STATUS_CANCELLED SL_CANCELLATION_REASON_SHUTDOWN (sl_cancellation_diag_code SL_CANCELLATION_REASON_SHUTDOWN)
    (literal "provider executor shutdown") true false ws owner s1 H1 H2) as H. cbv zeta in H.
  by destruct (sl_provider_operation_post_terminal _ _ _ _ _ _ _ s1).
Qed.

Lemma provider_complete_inv p status code message ws owner s :
  pinv 0 ws owner (rn_queue s) (av_env s) -> is_Some (pv_ops (av_env s) !! p) ->
  let s' := snd (sl_provider_operation_complete p status code message s) in pinv 0 ws owner (rn_queue s') (av_env s').
Proof. intros Hi Ho. unfold sl_provider_operation_complete. case_match; [done|]. by apply post_terminal_inv. Qed.

Lemma finish_inv c ws s :
  pinv 0 ws (Some c) (rn_queue s) (av_env s) ->
  pinv 0 ws None (rn_queue (sl_async_loop_finish_completion c s)) (av_env (sl_async_loop_finish_completion c s)).
Proof.
  intros Hi. pose proof (iv_ours _ _ _ _ _ Hi) as Ho. cbn [in_loop] in Ho. apply Forall_cons in Ho as [(H1 & H2 & H3) _].
  unfold sl_async_loop_finish_completion. rewrite H1. cbn [negb Z.eqb PROVIDER_COMPLETION_CLEANUP]. cbn [call_cleanup provider_callbacks]. rewrite H1, H2, Z.eqb_refl.
  match goal with |- context [sl_async_loop_release_completion_scope c ?x] => pose proof (release_scope_quiet c x) as [-> Q] end.
  eapply provider_quiet_inv; [exact Q|]. by apply completion_cleanup_inv.
Qed.

Lemma worker_done_inv ws i w w' owner queue s :
  pinv 0 ws owner queue s -> ws !! i = Some w -> (forall p, works_on p w' = works_on p w) -> (forall p, knows p w' <= knows p w) -> pinv 0 (<[i := w']> ws) owner queue s.
Proof.
  intros Hi Hw H1 H2. eapply workers_inv; [| |exact Hi].
  - intros p. rewrite (working_set _ _ _ _ _ Hw), H1. lia.
  - intros p Hp. pose proof (sum_nonneg (knows p) (<[i := w']> ws) (knows_nonneg p)) as Hn. fold (knowing (<[i := w']> ws) p) in Hn.
    rewrite (knowing_set _ _ _ _ _ Hw) in *. specialize (H2 p). lia.
Qed.

Lemma step_inv r r' : step r r' -> rinv r -> rinv r'.
Proof.
  unfold rinv. destruct 1 as [r i Hw|r i pc s' Hw E|r i p result Hw|r i p result Hw|r i p result c s' Hw E|r i rs cs Hw|r d p s' E Hp0 Hnew|r arena d out c s' E
    |r p status code message Hp|r p detail Hp|r p detail Hp|r p reason detail|r p status reason code message a b Hp|r|r i p Hslot|r|r Hdown Hws|r c s' Ho E|r c s' Ho E|r c Ho]; intros Hi;
    cbn [with_worker with_env with_sys with_owner rn_sys rn_workers rn_owner rn_env].
  - eapply worker_done_inv; [|exact Hw|done|done]. eapply provider_quiet_inv; [|exact Hi]. by split.
  - pose proof (look_inv _ _ _ _ _ Hi Hw) as H. rewrite E in H. exact H.
  - by eapply worker_done_inv.
  - exact (unclaim_inv _ _ _ _ _ _ _ Hi Hw).
  - destruct (known_op _ _ _ _ _ _ _ p Hi Hw) as [o Hop]; [cbn; by rewrite Z.eqb_refl|].
    pose proof (provider_complete_inv p (rr_status result) (rr_diag result) (rr_message result) _ _ _ Hi (mk_is_Some _ _ Hop)) as H. cbv zeta in H.
    unfold worker_complete in E. destruct (sl_provider_operation_complete _ _ _ _ _) as [[u|x] s1]; injection E as <- <-;
      (eapply worker_done_inv; [exact H|exact Hw|done|intros q; apply knows_nonneg]).
  - eapply worker_done_inv; [|exact Hw|done|done]. exact (provider_quiet_inv _ _ _ _ _ _ (account_quiet rs cs _) Hi).
  - pose proof (submit_admits scratch capability_check REF d REF (rn_sys r)) as [Hl H]. rewrite E in Hl, H. cbn [fst snd admits] in Hl, H.
    destruct H as (slot & facts & s1 & Q & Hd & Hslot & Hs'). unfold rn_queue. rewrite Hl. change (rn_env (with_sys s' r)) with (av_env s'). rewrite Hs'. apply admit_inv; try done.
    + exact (provider_quiet_inv _ _ _ _ _ _ Q Hi).
    + by rewrite (qu_ops _ _ Q).
  - pose proof (submit_admits scratch capability_check arena d out (rn_sys r)) as [Hl H]. rewrite E in Hl, H. cbn [fst snd admits] in Hl, H.
    unfold rn_queue. rewrite Hl. exact (provider_quiet_inv _ _ _ _ _ _ H Hi).
  - by apply provider_complete_inv.
  - unfold sl_provider_operation_cancel. case_match; [done|]. exact (settle_cancelled_inv p _ _ detail _ _ _ _ (rn_sys r) Hi Hp).
  - unfold sl_provider_operation_timeout. case_match; [done|]. exact (settle_cancelled_inv p _ _ detail _ _ _ _ (rn_sys r) Hi Hp).
  - exact (provider_quiet_inv _ _ _ _ _ _ (cancel_operation_token_quiet p reason detail _) Hi).
  - exact (post_terminal_inv p status reason code message a b _ _ (rn_sys r) Hi Hp).
  - eapply provider_quiet_inv; [|exact Hi]. by split.
  - apply shutdown_slot_inv; [done|]. apply list_elem_of_lookup. by exists i.
  - eapply provider_quiet_inv; [|exact Hi]. by split.
  - by apply provider_dispose_inv.
  - unfold sl_async_loop_pop in E. fold (rn_queue (rn_sys r)) in E. destruct (rn_queue (rn_sys r)) as [|c' q] eqn:Eq; [done|]. injection E as -> <-.
    rewrite Ho in Hi. eapply taken_inv; [exact Hi|]. by right.
  - unfold sl_async_loop_pop in E. fold (rn_queue (rn_sys r)) in E. destruct (rn_queue (rn_sys r)) as [|c' q] eqn:Eq; [done|]. injection E as -> <-.
    rewrite Ho in Hi. eapply taken_inv; [exact Hi|]. by left.
  - rewrite Ho in Hi. by apply finish_inv.
Qed.

Lemma provider_reachable_inv n r0 r : initial n r0 -> rtc step r0 r -> rinv r.
Proof. intros H0 Hr. assert (H : rinv r0) by by eapply initial_inv. clear H0. induction Hr as [|r1 r2 r3 H12 _ IH]; [done|]. apply IH. by eapply step_inv. Qed.

(** * The accounts *)

Lemma sum_filter (b : Z -> bool) l : sum_of (fun p => if b p then 1 else 0) l = Z.of_nat (length (List.filter b l)).
Proof. induction l as [|p l IH]; [done|]. cbn [sum_of List.filter]. rewrite IH. destruct (b p); cbn [length]; lia. Qed.

Definition is_taken (p : Z) : bool := negb (p =? 0).
Definition is_in_flight (s : ProviderSys) (p : Z) : bool := is_taken p && op_counted_in_flight (op_at s p).
Definition is_active (s : ProviderSys) (p : Z) : bool := is_taken p && is_state SL_PROVIDER_OPERATION_ACTIVE (op_at s p).

Definition number_of (b : Z -> bool) (slots : list Z) : Z := Z.of_nat (length (List.filter b slots)).

(** C32: Whatever its owner and its workers do and in whichever order the sections under the
    lock interleave, the executor's accounts are exact: [count] is the number of slots taken,
    [in_flight] the number of operations counted in flight, which every active operation is,
    and it never exceeds [max_in_flight]; no operation has two slots. *)
Theorem provider_accounts_exact workers r0 r :
  initial workers r0 -> rtc step r0 r ->
  let s := rn_env r in
  let slots := ex_slots (pv_exec s) in
  ex_count (pv_exec s) = number_of is_taken slots /\
  ex_in_flight (pv_exec s) = number_of (is_in_flight s) slots /\
  number_of (is_active s) slots <= ex_in_flight (pv_exec s) <= ex_max_in_flight (pv_exec s) /\
  (forall i j p, p <> 0 -> slots !! i = Some p -> slots !! j = Some p -> i = j).
Proof.
  intros H0 Hr s slots. pose proof (provider_reachable_inv _ _ _ H0 Hr) as Hi. unfold rinv in Hi. fold s in Hi.
  destruct (iv_flight _ _ _ _ _ Hi) as [Hf Hm]. fold slots in Hf. unfold number_of.
  assert (E : ex_in_flight (pv_exec s) = Z.of_nat (length (List.filter (is_in_flight s) slots))) by (rewrite Hf; apply sum_filter).
  split_and!; [|exact E| |exact Hm|apply Hi].
  - rewrite (iv_count _ _ _ _ _ Hi), <- sum_filter. apply sum_ext. intros p _. unfold occupied, is_taken. by destruct (p =? 0).
  - rewrite E, <- !sum_filter. apply sum_le. intros p Hp. unfold is_active, is_in_flight. destruct (is_taken p) eqn:Ep; [|done].
    apply negb_true_iff, Z.eqb_neq in Ep. destruct (slotted_fine _ _ _ _ p Hi Hp Ep) as (o & Ho & _ & _ & _ & F). rewrite (op_at_some _ _ _ Ho).
    unfold is_state. case_bool_decide as Ha; cbn [andb]; [|by destruct (op_counted_in_flight o)]. rewrite Ha in F. destruct F as [-> _]. done.
Qed.

(** C33: Every operation ends once: its completion is dispatched at most once; its cleanup runs
    exactly once, when its slot is released, and never before; a released operation is
    terminal; and an operation some worker is running keeps its slot, so that its cleanup
    cannot run under the worker. *)
Theorem provider_settles_once workers r0 r p o :
  initial workers r0 -> rtc step r0 r -> pv_ops (rn_env r) !! p = Some o ->
  let s := rn_env r in
  times (EvDispatch p) s <= 1 /\
  (p ∈ ex_slots (pv_exec s) -> times (EvCleanup p) s = 0) /\
  (p ∉ ex_slots (pv_exec s) -> op_state o = SL_PROVIDER_OPERATION_TERMINAL /\
     times (EvCleanup p) s = if of_cleanup (op_facts o) =? 0 then 0 else 1) /\
  (forall i, rn_workers r !! i = Some (WRunning p) -> p ∈ ex_slots (pv_exec s)).
Proof.
  intros H0 Hr Ho s. pose proof (provider_reachable_inv _ _ _ H0 Hr) as Hi. unfold rinv in Hi. fold s in Hi, Ho.
  assert (Hp0 : p <> 0) by (pose proof (iv_null _ _ _ _ _ Hi); congruence).
  destruct (iv_ops _ _ _ _ _ Hi p o Hp0 Ho) as [F1 F2]. pose proof (iv_clean _ _ _ _ _ Hi p o Ho) as Hc. destruct (iv_dispatch _ _ _ _ _ Hi p o Ho) as [D1 D2].
  pose proof (pending_nonneg (rn_queue (rn_sys r)) p). split_and!; [lia|..].
  - intros Hin. assert (Hsl : slotted s p = true) by by apply bool_decide_eq_true. rewrite Hsl in F2. destruct F2 as [F2 _]. by rewrite Hc, F2.
  - intros Hin. assert (Hsl : slotted s p = false) by by apply bool_decide_eq_false. rewrite Hsl in F2. destruct F2 as (F2 & F3 & _).
    rewrite Hc, F3. split; [done|]. by destruct (_ =? 0).
  - intros i Hw. destruct (slotted s p) eqn:Hsl; [by apply bool_decide_eq_true in Hsl|]. exfalso. destruct F2 as (_ & _ & F2 & _). rewrite F2 in F1.
    pose proof (sum_at_least (works_on p) _ _ _ (works_on_nonneg p) Hw) as Hle. cbn in Hle. rewrite Z.eqb_refl in Hle. unfold working in F1. lia.
Qed.
End Reach.

Module Demo.
#[export] Instance build0 : BuildConfig := release_build.
#[export] Instance simd0 : SimdConfig := {| SL_STRING_SIMD := SCALAR; SL_BYTES_SIMD := SCALAR |}.
#[export] Instance rodata0 : ReadOnlyData := {| rodata := fun _ => 4096 |}.
#[export] Instance layout0 : OperationLayout := {|
  operation_size := 512; operation_alignment := 8;
  field_sso f := match f with FieldInstance => 100 | FieldKind => 140 | FieldName => 180 | FieldToken => 220 | FieldContext => 260 end |}.
#[export] Instance host0 : ProviderHost := {|
  host_retain _ _ := SL_STATUS_OK; host_dispatch _ _ := SL_STATUS_OK; host_async_send _ := 0; host_is_owner _ := true |}.

(** Every capability is granted. *)
Definition check0 (token : SlStr) (operation : SlCapabilityOperation) (provider kind : SlStr) (diag : nullable) : ST CheckSys unit := mret tt.

Definition owned_at (p n : Z) : SlOwnedStr :=
  {| owned_ptr := p; owned_length := n; owned_is_sso := false; owned_arena_generation := 1; owned_sso := 0 |}.

(** An executor with two slots. *)
Definition executor0 (mode : SlProviderExecutionMode) (max_in_flight workers : Z) : SlProviderInstanceExecutor :=
  {| ex_mode := mode; ex_slots := [0; 0]; ex_count := 0; ex_in_flight := 0; ex_max_in_flight := max_in_flight; ex_worker_count := workers;
     ex_next_sequence := 0; ex_counters := fun _ => 0; ex_shutting_down := false; ex_worker_stop_requested := false; ex_worker_running := false;
     ex_instance_id := owned_at 9000 2; ex_provider_kind := owned_at 9010 6; ex_provider_token := owned_at 9000 2 |}.

Definition env0 (mode : SlProviderExecutionMode) (max_in_flight workers : Z) : ProviderSys :=
  {| pv_ops := ∅; pv_exec := executor0 mode max_in_flight workers;
     pv_tokens := fun _ => {| tok_cancelled := false; tok_reason := SL_CANCELLATION_REASON_NONE; tok_detail := sl_str_empty |};
     pv_world := {| w_mem := store (store (store (fun _ => 0) 9000 (string_bytes "db")) 9010 (string_bytes "sqlite")) 9020 (string_bytes "read");
                    w_arena := {| ar_base := 16384; ar_capacity := 4096; ar_offset := 0; ar_high_water := 0; ar_generation := 1 |} |};
     pv_diag := zero_diag; pv_log := [] |}.

Definition loop0 : SlAsyncLoop :=
  {| al_kind := SL_ASYNC_BACKEND_LIBUV; al_queue := []; al_capacity := 4; al_disposed := false; al_draining := false; al_closing := false; al_callback_count := 0 |}.

Definition start0 (mode : SlProviderExecutionMode) (max_in_flight : Z) (workers : nat) : RunSys :=
  {| rn_sys := Build_AsyncSys loop0 (env0 mode max_in_flight (Z.of_nat workers)); rn_workers := replicate workers WStarting; rn_owner := None |}.

Definition read0 (mode : SlProviderExecutionMode) : SlProviderOperationDescriptor :=
  {| de_request_or_app_scope := 0; de_cancellation := 0; de_deadline := 0; de_completion_dispatch := 77; de_completion_dispatch_user := 0;
     de_run := 78; de_run_user := 0; de_cleanup := 79; de_cleanup_user := 0; de_admission_diag := NULL;
     de_provider_instance_id := sl_str_from_parts 9000 2; de_provider_kind := sl_str_from_parts 9010 6;
     de_operation_name := sl_str_from_parts 9020 4; de_input := sl_bytes_empty; de_diagnostic_context := sl_str_empty;
     de_capability := {| cr_token := sl_str_from_parts 9000 2; cr_operation := SL_CAPABILITY_OPERATION_READ |}; de_scope := no_scope;
     de_operation_kind := SL_PROVIDER_OPERATION_KIND_QUERY; de_execution_mode := mode |}.

Abbreviation step0 := (run_step 30000 check0).
Definition submitted0 (mode : SlProviderExecutionMode) (r : RunSys) : RunSys :=
  with_sys (snd (sl_provider_executor_submit 30000 check0 REF (read0 mode) REF (rn_sys r))) r.

(** The address of the first operation. *)
Definition op0 : Z := 16384.

Lemma initial0 mode m n : 0 <= m -> initial n (start0 mode m n).
Proof. intros Hm. split; cbn; try done. repeat constructor. Defined.

Lemma submits0 mode r :
  fst (sl_provider_executor_submit 30000 check0 REF (read0 mode) REF (rn_sys r)) = Ok op0 -> pv_ops (rn_env r) = ∅ -> step0 r (submitted0 mode r).
Proof.
  intros Hs Ho. unfold submitted0. apply (step_submit _ _ r (read0 mode) op0); [|done|by rewrite Ho].
  rewrite (surjective_pairing (sl_provider_executor_submit 30000 check0 REF (read0 mode) REF (rn_sys r))), Hs. done.
Defined.

(** One operation of a pool that may have two in flight. *)
Definition pool0 : RunSys := start0 SL_PROVIDER_EXECUTION_BLOCKING_POOL 2 2.
Definition pool1 : RunSys := submitted0 SL_PROVIDER_EXECUTION_BLOCKING_POOL pool0.

Lemma pool_submits : step0 pool0 pool1.
Proof. apply submits0; vm_compute; reflexivity. Defined.

Definition pool2 : RunSys := with_sys (snd (sl_provider_operation_complete op0 SL_STATUS_OK SL_DIAG_NONE (literal "done") (rn_sys pool1))) pool1.
Definition pool3 : RunSys :=
  match sl_async_loop_pop (rn_sys pool2) with (Some c, s) => with_owner (Some c) (with_sys (snd (call_dispatch c s)) pool2) | _ => pool2 end.
Definition pool4 : RunSys :=
  match rn_owner pool3 with Some c => with_owner None (with_sys (sl_async_loop_finish_completion c (rn_sys pool3)) pool3) | None => pool3 end.

Lemma pool_completes : step0 pool1 pool2.
Proof. apply step_settle. vm_compute. by eexists. Defined.

Lemma pool_dispatches : step0 pool2 pool3.
Proof.
  assert (H : exists c s, sl_async_loop_pop (rn_sys pool2) = (Some c, s)) by (vm_compute; by eexists _, _).
  destruct H as (c & s & E). unfold pool3. rewrite E. by eapply step_dispatch.
Defined.

Lemma pool_finishes : step0 pool3 pool4.
Proof.
  assert (H : exists c, rn_owner pool3 = Some c) by (vm_compute; by eexists). destruct H as (c & E). unfold pool4. rewrite E. by eapply step_finish.
Defined.

Lemma pool_reaches_end : rtc step0 pool0 pool4.
Proof. do 4 (eapply rtc_l; [first [exact pool_submits|exact pool_completes|exact pool_dispatches|exact pool_finishes]|]). apply rtc_refl. Defined.

Lemma provider_accounts_exact_witness :
  initial 2 pool0 /\ rtc step0 pool0 pool1 /\ ex_count (pv_exec (rn_env pool1)) = 1 /\ number_of (is_active (rn_env pool1)) (ex_slots (pv_exec (rn_env pool1))) = 1 /\
  ex_in_flight (pv_exec (rn_env pool1)) = number_of (is_in_flight (rn_env pool1)) (ex_slots (pv_exec (rn_env pool1))).
Proof.
  split; [by apply initial0|]. split; [apply rtc_once, pool_submits|]. split; [by vm_compute|]. split; [by vm_compute|].
  apply (provider_accounts_exact 30000 check0 2 pool0 pool1); [by apply initial0|apply rtc_once, pool_submits].
Defined.

(** Run to its end, the operation has left and its cleanup has run. *)
Lemma provider_settles_once_witness :
  rtc step0 pool0 pool4 /\ times (EvDispatch op0) (rn_env pool4) = 1 /\
  exists o, pv_ops (rn_env pool4) !! op0 = Some o /\ op_state o = SL_PROVIDER_OPERATION_TERMINAL /\
            times (EvCleanup op0) (rn_env pool4) = if of_cleanup (op_facts o) =? 0 then 0 else 1.
Proof.
  split; [exact pool_reaches_end|]. split; [by vm_compute|]. destruct (pv_ops (rn_env pool4) !! op0) as [o|] eqn:Ho; [|vm_compute in Ho; discriminate Ho].
  exists o. split; [done|]. apply (provider_settles_once 30000 check0 2 pool0 pool4 op0 o); [by apply initial0|exact pool_reaches_end|exact Ho|].
  apply (bool_decide_unpack (op0 ∉ ex_slots (pv_exec (rn_env pool4)))). by vm_compute.
Defined.
End Demo.
