(* ===== verification/ProviderRuns.v ===== *)
(** How often a provider executor's operations run, and that none waits while there is room
    (src/core/provider_executor.c). *)

From stdpp Require Import strings gmap list relations.
From S2P Require Import Prelude Memory Status Arena Str Bytes Simd StrArena Container Sink Builder Diag Queue Loop Async Capability HttpBackend AsyncLoop Provider ProviderRun ProviderInv ProviderAccounts.

Open Scope Z_scope.

(** * Progress *)

(** Operations go forward, and nothing is claimed or run. *)
Record forward (s s' : ProviderSys) : Prop := {
  fw_ops : forall p o, pv_ops s !! p = Some o -> exists o', pv_ops s' !! p = Some o' /\ op_worker_claimed o' = op_worker_claimed o /\
    (op_state o <> SL_PROVIDER_OPERATION_QUEUED -> op_state o' <> SL_PROVIDER_OPERATION_QUEUED) /\
    (op_state o = SL_PROVIDER_OPERATION_TERMINAL -> op_state o' = SL_PROVIDER_OPERATION_TERMINAL);
  fw_run : forall p, times (EvRun p) s' = times (EvRun p) s;
}.

(** When there is room, no operation is queued. *)
Definition busy (s : ProviderSys) : Prop :=
  ex_in_flight (pv_exec s) < ex_max_in_flight (pv_exec s) ->
  forall p, p ∈ ex_slots (pv_exec s) -> p <> 0 -> op_state (op_at s p) <> SL_PROVIDER_OPERATION_QUEUED.

Definition advance (s s' : ProviderSys) : Prop := forward s s' /\ (busy s -> busy s').

#[export] Instance forward_preorder : PreOrder forward.
Proof.
  split.
  - intros s. split; [|done]. intros p o Ho. by exists o.
  - intros s1 s2 s3 [A1 A2] [B1 B2]. split; [|intros p; by rewrite B2].
    intros p o Ho. destruct (A1 p o Ho) as (o1 & Ho1 & C1 & C2 & C3). destruct (B1 p o1 Ho1) as (o2 & Ho2 & D1 & D2 & D3).
    exists o2. split_and!; [done|congruence|auto|auto].
Qed.

#[export] Instance advance_preorder : PreOrder advance.
Proof. split; [by split|]. intros s1 s2 s3 [A1 A2] [B1 B2]. split; [by etrans|auto]. Qed.

Lemma quiet_advance s s' : quiet s s' -> advance s s'.
Proof.
  intros [Q1 Q2 (Q3 & Q4 & Q5) Q6 Q7]. split.
  - split; [|intros p; by destruct (Q7 p) as (_ & _ & ->)]. intros p o Ho. exists o. by rewrite Q1.
  - unfold busy, op_at. by rewrite Q1, Q2, Q4, Q5.
Qed.

(** A change that neither claims an operation nor takes it back. *)
Definition onward (f : SlProviderOperation -> SlProviderOperation) : Prop :=
  forall o, op_worker_claimed (f o) = op_worker_claimed o /\
    (op_state o <> SL_PROVIDER_OPERATION_QUEUED -> op_state (f o) <> SL_PROVIDER_OPERATION_QUEUED) /\
    (op_state o = SL_PROVIDER_OPERATION_TERMINAL -> op_state (f o) = SL_PROVIDER_OPERATION_TERMINAL).

Lemma upd_forward p f s : onward f -> forward s (upd_op p f s).
Proof.
  intros Hf. split; [|done]. intros q o Ho. rewrite upd_lookup. case_decide as E; [|by exists o].
  subst q. rewrite (op_at_some _ _ _ Ho). exists (f o). destruct (Hf o) as (H1 & H2 & H3). by split_and!.
Qed.

Lemma upd_busy p f s : (forall o, op_state o <> SL_PROVIDER_OPERATION_QUEUED -> op_state (f o) <> SL_PROVIDER_OPERATION_QUEUED) -> busy s -> busy (upd_op p f s).
Proof. intros Hf Hb Hlt q Hq Hq0. rewrite op_at_upd. case_decide as E; [subst q; apply Hf|]; by apply Hb. Qed.

Lemma upd_advance p f s : onward f -> advance s (upd_op p f s).
Proof. intros Hf. split; [by apply upd_forward|]. apply upd_busy. intros o. apply Hf. Qed.

Lemma exec_forward f s : forward s (upd_exec f s).
Proof. split; [|done]. intros p o Ho. by exists o. Qed.

Lemma onward_terminal g : (forall o, op_worker_claimed (g o) = op_worker_claimed o) -> onward (fun o => op_set_state SL_PROVIDER_OPERATION_TERMINAL (g o)).
Proof. intros Hg o. cbn. by split_and!. Qed.

Lemma onward_same f : (forall o, op_worker_claimed (f o) = op_worker_claimed o /\ op_state (f o) = op_state o) -> onward f.
Proof. intros Hf o. destruct (Hf o) as [-> ->]. done. Qed.

(** * Activation *)

Definition waiting (s : ProviderSys) (p : Z) : Z := if negb (p =? 0) && is_state SL_PROVIDER_OPERATION_QUEUED (op_at s p) then 1 else 0.

Lemma sum_lt {A} (f g : A -> Z) l x : (forall y, f y <= g y) -> x ∈ l -> f x < g x -> sum_of f l < sum_of g l.
Proof.
  intros H Hx Hlt. apply list_elem_of_lookup in Hx as [i Hi]. revert i Hi. induction l as [|y l IH]; intros [|i] Hi; [done|done| |]; cbn in *.
  - injection Hi as ->. pose proof (sum_le f g l (fun y _ => H y)). lia.
  - specialize (IH _ Hi). specialize (H y). lia.
Qed.

(** Enough rounds, and either there is no more room or nothing waits. *)
Lemma activate_busy n s : sum_of (waiting s) (ex_slots (pv_exec s)) < Z.of_nat n -> busy (activate_loop n s).
Proof.
  revert s. induction n as [|n IH]; intros s Hn.
  { pose proof (sum_nonneg (waiting s) (ex_slots (pv_exec s)) ltac:(intros x; unfold waiting; case_match; lia)). lia. }
  cbn [activate_loop]. destruct (Z.ltb_spec (ex_in_flight (pv_exec s)) (ex_max_in_flight (pv_exec s))) as [Hlt|Hge]; [|intros ?; lia].
  destruct (sl_provider_executor_next_queued s) as [p|] eqn:E.
  - apply IH. apply best_of_spec in E as (Hin & Hp0 & Hq). cbn [pv_exec upd_exec upd_op set_pv_ops ex_slots ex_set_accounts].
    match goal with |- sum_of (waiting ?x) _ < _ => set (s' := x) end.
    assert (Hs' : forall q, op_at s' q = if decide (q = p) then op_set_counted true (op_set_state SL_PROVIDER_OPERATION_ACTIVE (op_at s p)) else op_at s q)
      by (intros q; exact (op_at_upd s p _ q)).
    assert (sum_of (waiting s') (ex_slots (pv_exec s)) < sum_of (waiting s) (ex_slots (pv_exec s))); [|lia].
    apply (sum_lt _ _ _ p); [|done|].
    + intros q. unfold waiting. rewrite Hs'. case_decide; [|lia]. subst q. cbn. rewrite andb_false_r. case_match; lia.
    + unfold waiting. rewrite Hs', decide_True by done. unfold is_state in *. rewrite Hq. cbn. destruct (Z.eqb_spec p 0); done.
  - intros _ p Hp Hp0 Hq. pose proof (best_of_none _ _ E p Hp Hp0) as H. unfold is_state in H. by rewrite bool_decide_eq_false in H.
Qed.

Lemma activate_next_busy s : busy (sl_provider_executor_activate_next s).
Proof.
  apply activate_busy. assert (H : forall l, sum_of (waiting s) l <= Z.of_nat (length l)); [|specialize (H (ex_slots (pv_exec s))); lia].
  induction l as [|p l IH]; cbn [sum_of length]; [lia|]. assert (waiting s p <= 1) by (unfold waiting; case_match; lia). lia.
Qed.

Lemma activate_forward n s : forward s (activate_loop n s).
Proof.
  revert s. induction n as [|n IH]; intros s; cbn [activate_loop]; [reflexivity|]. destruct (_ <? _); [|reflexivity].
  destruct (sl_provider_executor_next_queued s) as [p|] eqn:E; [|reflexivity]. apply best_of_spec in E as (_ & _ & Hq). apply bool_decide_eq_true in Hq.
  etrans; [|apply IH]. split; [|done]. intros q o Ho. cbn [pv_ops upd_exec]. rewrite upd_lookup. case_decide as Ep; [|by exists o].
  subst q. rewrite (op_at_some _ _ _ Ho) in *. eexists. split; [done|]. cbn. split_and!; [done|done|congruence].
Qed.

Lemma activate_next_advance s s' : forward s s' -> advance s (sl_provider_executor_activate_next s').
Proof. intros H. split; [etrans; [exact H|apply activate_forward]|]. intros _. apply activate_next_busy. Qed.

(** * The operations advance *)

Lemma note_advance e s : (forall p, e <> EvRun p) -> advance s (note e s).
Proof.
  intros He. split; [|done]. split; [intros p o Ho; by exists o|]. intros p. rewrite times_note, decide_False by (intros E; by apply (He p)). lia.
Qed.

Lemma cleanup_advance p s : advance s (sl_provider_operation_run_cleanup_once p s).
Proof.
  unfold sl_provider_operation_run_cleanup_once. case_match; [reflexivity|]. etrans; [apply (upd_advance p (op_set_cleanup_ran true)); by apply onward_same|].
  case_match; [reflexivity|]. by apply note_advance.
Qed.

Lemma finish_advance p s : advance s (sl_provider_executor_finish_terminal_locked p s).
Proof.
  unfold sl_provider_executor_finish_terminal_locked. case_match; [apply upd_advance; by apply onward_same|].
  apply activate_next_advance. etrans; [apply cleanup_advance|]. etrans; [|apply exec_forward]. etrans; [apply exec_forward|]. etrans; [apply exec_forward|].
  case_match; [|reflexivity]. etrans; [apply exec_forward|]. apply upd_forward. by apply onward_same.
Qed.

Section Advance.
Context {RO : ReadOnlyData} {PH : ProviderHost}.

Lemma post_failed_advance p status a b s : advance s (post_failed p status a b s).
Proof.
  unfold post_failed. cbv zeta. etrans; [|apply quiet_advance; eapply provider_quiet_trans; [apply count_end_quiet|apply bump_quiet]].
  match goal with |- context [upd_op p ?f s] => etrans; [apply (upd_advance p f); by apply onward_terminal|] end.
  destruct (op_worker_claimed _); [apply upd_advance; by apply onward_same|apply finish_advance].
Qed.

Lemma post_failed_terminal p status a b s : op_state (op_at (post_failed p status a b s) p) = SL_PROVIDER_OPERATION_TERMINAL.
Proof.
  unfold post_failed. cbv zeta. set (s1 := upd_op p _ s). set (s2 := if op_worker_claimed _ then _ else _).
  assert (H1 : exists o, pv_ops s1 !! p = Some o /\ op_state o = SL_PROVIDER_OPERATION_TERMINAL).
  { unfold s1. rewrite upd_lookup, decide_True by done. by eexists. }
  assert (H2 : forward s1 s2) by (unfold s2; destruct (op_worker_claimed _); [apply upd_forward; by apply onward_same|apply finish_advance]).
  assert (H3 : forward s2 (bump completion_post_failure_count (count_end a b s2))).
  { apply quiet_advance. eapply provider_quiet_trans; [apply count_end_quiet|apply bump_quiet]. }
  destruct H1 as (o & Ho & Hst). destruct (fw_ops _ _ (transitivity H2 H3) p o Ho) as (o' & Ho' & _ & _ & Ht).
  rewrite (op_at_some _ _ _ Ho'). by apply Ht.
Qed.

Lemma post_terminal_advance p status reason code message a b s :
  advance (av_env s) (av_env (snd (sl_provider_operation_post_terminal p status reason code message a b s))).
Proof.
  unfold sl_provider_operation_post_terminal. case_match; [reflexivity|]. case_bool_decide; [reflexivity|]. cbv zeta.
  match goal with |- context [sl_async_loop_post REF _ ?x] => set (s1 := x) end.
  match goal with |- context [sl_async_loop_post REF ?c s1] => set (completion := c) end.
  assert (H1 : advance (av_env s) (av_env s1)).
  { unfold s1. match goal with |- advance _ (av_env (if ?c then _ else _)) => destruct c end; cbn [av_env on_env]; [etrans; [|apply quiet_advance, bump_quiet]|]; apply upd_advance; by apply onward_same. }
  pose proof (post_posts completion s1) as [_ Q]. etrans; [exact H1|]. etrans; [apply quiet_advance, Q|].
  destruct (sl_async_loop_post REF completion s1) as [[u|x] s2]; cbn [snd av_env on_env]; [|apply post_failed_advance].
  etrans; [apply (upd_advance p (op_set_state SL_PROVIDER_OPERATION_TERMINAL)); by apply (onward_terminal (fun o => o))|]. apply quiet_advance, count_end_quiet.
Qed.

(** An operation that is told to end has ended. *)
Lemma post_terminal_ends p status reason code message a b s :
  p <> 0 -> sl_provider_str_valid message = true ->
  op_state (op_at (av_env (snd (sl_provider_operation_post_terminal p status reason code message a b s))) p) = SL_PROVIDER_OPERATION_TERMINAL.
Proof.
  intros Hp Hm. unfold sl_provider_operation_post_terminal. rewrite Hm. destruct (Z.eqb_spec p 0); [done|]. cbn [negb orb]. case_bool_decide; [done|]. cbv zeta.
  match goal with |- context [sl_async_loop_post REF _ ?x] => set (s1 := x) end.
  match goal with |- context [sl_async_loop_post REF ?c s1] => set (completion := c) end.
  destruct (sl_async_loop_post REF completion s1) as [[u|x] s2]; cbn [snd av_env on_env]; [|apply post_failed_terminal].
  unfold op_at. rewrite (qu_ops _ _ (count_end_quiet a b _)). fold (op_at (upd_op p (op_set_state SL_PROVIDER_OPERATION_TERMINAL) (av_env s2)) p).
  by rewrite op_at_upd, decide_True.
Qed.

Lemma settle_cancelled_advance p reason status detail a b s :
  advance (av_env s) (av_env (snd (settle_cancelled p reason status detail a b s))).
Proof.
  unfold settle_cancelled. pose proof (cancel_operation_token_quiet p reason detail (av_env s)) as Hs.
  destruct (cancel_operation_token p reason detail (av_env s)) as [st e]. cbn [snd] in Hs. cbv zeta. etrans; [apply quiet_advance, Hs|].
  pose proof (post_terminal_advance p status reason (sl_cancellation_diag_code reason) detail a b (Build_AsyncSys (av_loop s) e)) as H.
  destruct (sl_provider_operation_post_terminal _ _ _ _ _ _ _ _) as [[u|x] s1]; exact H.
Qed.

Lemma complete_advance p status code message s : advance (av_env s) (av_env (snd (sl_provider_operation_complete p status code message s))).
Proof. unfold sl_provider_operation_complete. case_match; [reflexivity|]. apply post_terminal_advance. Qed.

Lemma shutdown_slot_advance p s : advance (av_env s) (av_env (snd (shutdown_slot p s))).
Proof.
  unfold shutdown_slot. case_match; [reflexivity|]. set (s1 := if bool_decide _ then _ else s).
  assert (H1 : advance (av_env s) (av_env s1)) by (unfold s1; case_match; [apply quiet_advance, cancel_operation_token_quiet|reflexivity]). etrans; [exact H1|].
  match goal with |- context [sl_provider_operation_post_terminal ?a ?b ?c ?d ?e ?f ?g s1] => pose proof (post_terminal_advance a b c d e f g s1) as Hs;
    destruct (sl_provider_operation_post_terminal a b c d e f g s1) end. exact Hs.
Qed.

Lemma dispose_forward s : forward s (dispose_end s).
Proof.
  unfold dispose_end. etrans; [|apply exec_forward]. generalize (seq 0 (length (ex_slots (pv_exec s)))) as l. intros l. revert s.
  induction l as [|i l IH]; intros s; cbn [fold_left]; [reflexivity|]. etrans; [|apply IH]. unfold dispose_slot. case_match; [reflexivity|].
  etrans; [|apply exec_forward]. unfold sl_provider_operation_discard. etrans; [|apply cleanup_advance]. apply upd_forward. by apply onward_terminal.
Qed.

Lemma finish_completion_advance c s : advance (av_env s) (av_env (sl_async_loop_finish_completion c s)).
Proof.
  unfold sl_async_loop_finish_completion. etrans; [|apply quiet_advance, release_scope_quiet]. case_match; [|reflexivity].
  cbn [call_cleanup provider_callbacks]. case_match; [|reflexivity]. cbn [av_env on_env]. unfold sl_provider_completion_cleanup. case_match; [reflexivity|apply finish_advance].
Qed.
End Advance.

(** * The steps, seen by the workers *)

Section Runs.
Context {BC : BuildConfig} {SC : SimdConfig} {RO : ReadOnlyData} {PH : ProviderHost} {OL : OperationLayout} (scratch : Z).
Context (capability_check : SlStr -> SlCapabilityOperation -> SlStr -> SlStr -> nullable -> ST CheckSys unit).
Abbreviation step := (run_step scratch capability_check).

Definition moves (r r' : RunSys) (w w' : worker_pc) : Prop :=
  match w with
  | WStarting | WCompleted _ _ => w' = WLooking /\ advance (rn_env r) (rn_env r')
  | WLooking => worker_look (rn_env r) = (w', rn_env r')
  | WRunning p => (exists result, w' = WReturned p (settle_result result)) /\ rn_env r' = rn_env r
  | WReturned p result => w' = WUnclaimed p result /\ rn_env r' = worker_unclaim p (rn_env r)
  | WUnclaimed p result => (exists c, w' = WCompleted (rr_status result) c) /\
      rn_env r' = av_env (snd (sl_provider_operation_complete p (rr_status result) (rr_diag result) (rr_message result) (rn_sys r)))
  | WStopped => False
  end.

Lemma admit_advance slot p o s : pv_ops s !! p = None -> advance s (admit_operation slot p o s).
Proof.
  intros Hnew. unfold admit_operation, sl_provider_executor_activate_submitted. apply activate_next_advance.
  split; [|done]. intros q oq Hq. exists oq. cbn. rewrite lookup_insert_ne by congruence. done.
Qed.

Lemma dispose_busy ws owner queue s : pinv 0 ws owner queue s -> busy (dispose_end s).
Proof.
  intros Hi _ p Hp Hp0. exfalso. apply Hp0. pose proof (disposing_all s (iv_distinct _ _ _ _ _ Hi)) as D.
  destruct D as [D _ _ _ _]; [intros q Hq Hq0; destruct (slotted_fine _ _ _ _ q Hi Hq Hq0) as (o & ? & ? & _); by exists o|].
  unfold dispose_end in Hp. cbn [pv_exec upd_exec ex_slots ex_set_accounts] in Hp. rewrite D, drop_all, app_nil_r in Hp. by apply elem_of_replicate_inv in Hp.
Qed.

Lemma step_cases r r' : rinv r -> step r r' ->
  rn_workers r' = rn_workers r /\ advance (rn_env r) (rn_env r') \/
  exists i w w', rn_workers r !! i = Some w /\ rn_workers r' = <[i := w']> (rn_workers r) /\ moves r r' w w'.
Proof.
  intros Hi. destruct 1 as [r i Hw|r i pc s' Hw E|r i p result Hw|r i p result Hw|r i p result c s' Hw E|r i rs cs Hw|r d p s' E Hp0 Hnew|r arena d out c s' E
    |r p status code message Hp|r p detail Hp|r p detail Hp|r p reason detail|r p status reason code message a b Hp|r|r i p Hslot|r|r Hdown Hws|r c s' Ho E|r c s' Ho E|r c Ho].
  1-6: right; eexists i, _, _; (split; [exact Hw|]); (split; [reflexivity|]).
  7-20: left; (split; [reflexivity|]).
  - split; [done|]. by apply quiet_advance.
  - exact E.
  - split; [by eexists|done].
  - done.
  - unfold worker_complete in E. cbn [moves]. destruct (sl_provider_operation_complete _ _ _ _ _) as [[u|x] s1]; injection E as <- <-; (split; [by eexists|done]).
  - split; [done|]. apply quiet_advance, account_quiet.
  - pose proof (submit_admits scratch capability_check REF d REF (rn_sys r)) as [_ H]. rewrite E in H. cbn [fst snd admits] in H.
    destruct H as (slot & facts & s1 & Q & Hd & Hslot & Hs'). change (rn_env (with_sys s' r)) with (av_env s'). rewrite Hs'.
    etrans; [apply quiet_advance, Q|]. apply admit_advance. by rewrite (qu_ops _ _ Q).
  - pose proof (submit_admits scratch capability_check arena d out (rn_sys r)) as [_ H]. rewrite E in H. by apply quiet_advance.
  - apply complete_advance.
  - cbn. unfold sl_provider_operation_cancel. case_match; [reflexivity|]. apply settle_cancelled_advance.
  - cbn. unfold sl_provider_operation_timeout. case_match; [reflexivity|]. apply settle_cancelled_advance.
  - apply quiet_advance, cancel_operation_token_quiet.
  - apply post_terminal_advance.
  - by apply quiet_advance.
  - apply shutdown_slot_advance.
  - by apply quiet_advance.
  - split; [apply dispose_forward|]. intros _. by eapply dispose_busy.
  - unfold sl_async_loop_pop in E. destruct (al_queue _) as [|c' q]; [done|]. injection E as -> <-. by apply note_advance.
  - unfold sl_async_loop_pop in E. destruct (al_queue _) as [|c' q]; [done|]. injection E as -> <-. reflexivity.
  - apply finish_completion_advance.
Qed.

(** * No operation waits while there is room *)

Lemma look_busy s : busy s -> busy (snd (worker_look s)).
Proof.
  intros Hb. unfold worker_look. destruct (ex_worker_stop_requested _); [exact Hb|]. destruct (sl_provider_executor_next_runnable_locked s) as [p|]; [|exact Hb].
  exact (upd_busy p (op_set_claimed true) s (fun o H => H) Hb).
Qed.

Lemma unclaim_busy p s : busy s -> busy (worker_unclaim p s).
Proof.
  intros Hb. pose proof (upd_busy p (op_set_claimed false) s (fun o H => H) Hb) as H. unfold worker_unclaim. case_match; [|exact H]. by apply finish_advance.
Qed.

Lemma step_busy r r' : rinv r -> step r r' -> busy (rn_env r) -> busy (rn_env r').
Proof.
  intros Hi Hs Hb. destruct (step_cases r r' Hi Hs) as [[_ [_ H]]|(i & w & w' & _ & _ & H)]; [by apply H|].
  destruct w; cbn [moves] in H.
  - by apply H.
  - pose proof (look_busy _ Hb) as Hl. by rewrite H in Hl.
  - by destruct H as [_ ->].
  - destruct H as [_ ->]. by apply unclaim_busy.
  - destruct H as [_ ->]. by apply complete_advance.
  - by apply H.
  - done.
Qed.

(** C34: The executor never idles: whenever fewer operations are in flight than it allows,
    none of those it has admitted is still queued, whichever way earlier ones ended. *)
Theorem provider_never_idles workers r0 r :
  initial workers r0 -> rtc step r0 r -> ex_in_flight (pv_exec (rn_env r)) < ex_max_in_flight (pv_exec (rn_env r)) ->
  forall p, p ∈ ex_slots (pv_exec (rn_env r)) -> p <> 0 -> sl_provider_operation_state p (rn_env r) <> SL_PROVIDER_OPERATION_QUEUED.
Proof.
  intros H0 Hr Hlt p Hp Hp0. unfold sl_provider_operation_state. destruct (Z.eqb_spec p 0); [done|].
  assert (Hb : rinv r0 /\ busy (rn_env r0)).
  { split; [by eapply initial_inv|]. intros _ q Hq Hq0. exfalso. apply Hq0. pose proof (in_slots _ _ H0) as Hz. rewrite Forall_forall in Hz. by rewrite <- (Hz q Hq). }
  assert (Hbr : busy (rn_env r)); [|by apply Hbr]. clear - Hb Hr. induction Hr as [|r1 r2 r3 H12 _ IH]; [tauto|].
  apply IH. destruct Hb as [Hi Hb]. split; [by eapply step_inv|by eapply step_busy].
Qed.

(** * With one worker, an operation runs once *)

Definition message_good (w : worker_pc) : Prop :=
  match w with WReturned _ result | WUnclaimed _ result => sl_provider_str_valid (rr_message result) = true | _ => True end.

(** An operation that has run is not to be run again. *)
Definition spent (s : ProviderSys) (w : worker_pc) (p : Z) : Prop :=
  times (EvRun p) s <= 1 /\ (times (EvRun p) s <> 0 -> exists o, pv_ops s !! p = Some o /\ op_state o <> SL_PROVIDER_OPERATION_QUEUED /\
    (op_worker_claimed o = true \/ op_state o = SL_PROVIDER_OPERATION_TERMINAL \/ exists result, w = WUnclaimed p result)).

Lemma forward_spent s s' w w' p : forward s s' -> spent s w p ->
  ((exists result, w = WUnclaimed p result) -> (exists result, w' = WUnclaimed p result) \/ op_state (op_at s' p) = SL_PROVIDER_OPERATION_TERMINAL) -> spent s' w' p.
Proof.
  intros [F1 F2] [S1 S2] Hw. unfold spent. rewrite F2. split; [done|]. intros Hn. destruct (S2 Hn) as (o & Ho & Hq & Hc).
  destruct (F1 p o Ho) as (o' & Ho' & A & B & C). exists o'. split; [done|]. split; [auto|]. rewrite A. destruct Hc as [Hc|[Hc|Hc]]; [by left|right; left; auto|].
  destruct (Hw Hc) as [?|Ht]; right; [by right|]. rewrite (op_at_some _ _ _ Ho') in Ht. by left.
Qed.

Lemma look_spent s w' s' p : worker_look s = (w', s') -> spent s WLooking p -> spent s' w' p.
Proof.
  unfold worker_look. intros E Hs. destruct (ex_worker_stop_requested _).
  { injection E as <- <-. eapply forward_spent; [|exact Hs|by intros [? ?]]. apply quiet_advance. by split. }
  destruct (sl_provider_executor_next_runnable_locked s) as [q|] eqn:Er; injection E as <- <-; [|exact Hs].
  apply best_of_spec in Er as (_ & _ & Hr). apply andb_true_iff in Hr as [[Hst%bool_decide_eq_true _]%andb_true_iff Hcl%negb_true_iff].
  destruct Hs as [S1 S2]. unfold spent. rewrite times_note. change (times (EvRun p) (upd_op q (op_set_claimed true) s)) with (times (EvRun p) s).
  cbn [note pv_ops]. rewrite upd_lookup. destruct (decide (p = q)) as [->|Hne].
  - rewrite decide_True by done. assert (Hz : times (EvRun q) s = 0).
    { destruct (decide (times (EvRun q) s = 0)) as [|Hn]; [done|]. destruct (S2 Hn) as (o & Ho & _ & Hc). rewrite (op_at_some _ _ _ Ho) in *.
      destruct Hc as [?|[?|[? ?]]]; congruence. }
    rewrite Hz. split; [lia|]. intros _. eexists. split; [done|]. cbn. split; [congruence|by left].
  - rewrite decide_False by congruence. rewrite Z.add_0_r. split; [done|]. intros Hn. destruct (S2 Hn) as (o & Ho & Hq & Hc). exists o. split_and!; [done..|].
    destruct Hc as [?|[?|[? ?]]]; [by left|by right; left|done].
Qed.

Lemma unclaim_spent s q result p : spent s (WReturned q result) p -> spent (worker_unclaim q s) (WUnclaimed q result) p.
Proof.
  intros [S1 S2]. unfold worker_unclaim. set (s1 := upd_op q (op_set_claimed false) s).
  assert (H1 : spent s1 (WUnclaimed q result) p).
  { split; [exact S1|]. intros Hn. destruct (S2 Hn) as (o & Ho & Hq & Hc). unfold s1. rewrite upd_lookup. case_decide as E.
    - subst q. rewrite (op_at_some _ _ _ Ho). eexists. split; [done|]. split; [exact Hq|]. right. right. by exists result.
    - exists o. split_and!; [done..|]. destruct Hc as [?|[?|[? ?]]]; [by left|by right; left|done]. }
  case_match; [|exact H1]. eapply forward_spent; [apply finish_advance|exact H1|by left].
Qed.

(** The one worker and what it has run. *)
Definition once (r : RunSys) : Prop := exists w, rn_workers r = [w] /\ message_good w /\ forall p, spent (rn_env r) w p.

Lemma settle_result_good result : 0 < rodata "provider worker failed" -> sl_provider_str_valid (rr_message (settle_result result)) = true.
Proof.
  intros Hl. unfold settle_result. cbn [rr_message]. destruct (sl_provider_str_valid (rr_message result)) eqn:E; [exact E|].
  unfold sl_provider_str_valid. apply orb_true_iff. right. apply negb_true_iff, Z.eqb_neq. change (rodata "provider worker failed" <> 0). lia.
Qed.

Lemma step_once r r' : 0 < rodata "provider worker failed" -> rinv r -> step r r' -> once r -> once r'.
Proof.
  intros Hl Hi Hs (w & Hw & Hm & Hsp). destruct (step_cases r r' Hi Hs) as [[Hw' [Hf _]]|(i & w1 & w' & Hi1 & Hw' & H)].
  { exists w. rewrite Hw'. split_and!; [done..|]. intros p. eapply forward_spent; [exact Hf|apply Hsp|by left]. }
  rewrite Hw in Hi1, Hw'. destruct i as [|i]; [|done]. injection Hi1 as <-. cbn in Hw'. exists w'. split; [done|].
  assert (Hfw : forward (rn_env r) (rn_env r') -> (forall p result, w <> WUnclaimed p result) -> forall p, spent (rn_env r') w' p).
  { intros Hf Hn p. eapply forward_spent; [exact Hf|apply Hsp|]. intros [result E]. by apply Hn in E. }
  destruct w as [| |p|p result|p result|rs cs|]; cbn [moves] in H.
  - destruct H as [-> [Hf _]]. split; [done|]. by apply Hfw.
  - split; [|intros q; by eapply look_spent]. unfold worker_look in H. case_match; [injection H as <- _; done|]. case_match; injection H as <- _; done.
  - destruct H as [[result ->] E]. split; [by apply settle_result_good|]. apply Hfw; [by rewrite E|done].
  - destruct H as [-> ->]. split; [exact Hm|]. intros q. by apply unclaim_spent.
  - destruct H as [[c ->] E]. split; [done|]. intros q. rewrite E.
    assert (Hp0 : p <> 0).
    { destruct (known_op _ _ _ _ _ 0%nat (WUnclaimed p result) p Hi) as [o Ho]; [by rewrite Hw|cbn; by rewrite Z.eqb_refl|].
      pose proof (iv_null _ _ _ _ _ Hi). congruence. }
    eapply forward_spent; [apply complete_advance|apply Hsp|]. intros [result' Eq]. injection Eq as <- <-. right.
    unfold sl_provider_operation_complete. destruct (Z.eqb_spec p 0); [done|]. by apply post_terminal_ends.
  - destruct H as [-> [Hf _]]. split; [done|]. by apply Hfw.
  - done.
Qed.

(** C35: A serialized executor runs every operation at most once, however the calls of its owner
    (completions, cancellations, timeouts, shutdown and disposal) interleave with its worker. *)
Theorem provider_serialized_runs_once config r0 r p :
  0 < rodata "provider worker failed" -> cf_mode config = SL_PROVIDER_EXECUTION_SERIALIZED_BLOCKING ->
  initial (Z.to_nat (sl_provider_executor_effective_worker_count config)) r0 -> rtc step r0 r -> times (EvRun p) (rn_env r) <= 1.
Proof.
  intros Hl Hm H0 Hr. unfold sl_provider_executor_effective_worker_count in H0. rewrite Hm in H0.
  assert (Hj : rinv r0 /\ once r0).
  { split; [by eapply initial_inv|]. exists WStarting. split; [by rewrite (in_workers _ _ H0)|]. split; [done|]. intros q.
    unfold spent, times. rewrite (in_log _ _ H0). done. }
  assert (once r) as (w & _ & _ & Hsp); [|apply Hsp]. clear - Hl Hj Hr. induction Hr as [|r1 r2 r3 H12 _ IH]; [tauto|].
  apply IH. destruct Hj as [Hi Hj]. split; [by eapply step_inv|by eapply step_once].
Qed.

(** * With two workers, an operation may run twice *)

Lemma reclaimed_same p o s : pv_ops s !! p = Some o -> op_worker_claimed o = false ->
  pv_ops (upd_op p (op_set_claimed false) (note (EvRun p) (upd_op p (op_set_claimed true) s))) = pv_ops s.
Proof.
  intros Ho Hc. cbn [pv_ops upd_op set_pv_ops note]. unfold op_at. cbn [pv_ops note upd_op set_pv_ops].
  rewrite lookup_total_insert_eq, insert_insert_eq, (op_at_some _ _ _ Ho). apply insert_id. rewrite Ho.
  destruct o; cbn in *. by rewrite Hc.
Qed.

(** C36: In a pool the same does not hold.  A worker gives up its claim before it completes the
    operation, which is then active and unclaimed: when two workers are looking for work,
    the second can run the operation the first has just run. *)
Theorem provider_pool_runs_twice workers r0 r i j p :
  initial workers r0 -> rtc step r0 r -> i <> j -> rn_workers r !! i = Some WLooking -> rn_workers r !! j = Some WLooking ->
  ex_worker_stop_requested (pv_exec (rn_env r)) = false -> sl_provider_executor_next_runnable_locked (rn_env r) = Some p ->
  exists r', rtc step r r' /\ times (EvRun p) (rn_env r') = times (EvRun p) (rn_env r) + 2.
Proof.
  intros H0 Hreach Hij Hi Hj Hstop Hnext. pose proof (provider_reachable_inv _ _ _ _ _ H0 Hreach) as Hinv. pose proof (best_of_spec _ _ _ Hnext) as (Hin & Hp0 & Hr).
  destruct (iv_known _ _ _ _ _ Hinv p Hin Hp0) as [o Ho]. rewrite (op_at_some _ _ _ Ho) in Hr.
  apply andb_true_iff in Hr as [[Hst%bool_decide_eq_true _]%andb_true_iff Hcl%negb_true_iff].
  set (s := rn_env r) in *. set (s1 := note (EvRun p) (upd_op p (op_set_claimed true) s)). set (s2 := upd_op p (op_set_claimed false) s1).
  assert (E2 : pv_ops s2 = pv_ops s) by (by eapply reclaimed_same).
  assert (L1 : worker_look s = (WRunning p, s1)) by (unfold worker_look; by rewrite Hstop, Hnext).
  assert (U : worker_unclaim p s1 = s2).
  { unfold worker_unclaim. fold s2. replace (op_at s2 p) with o by (unfold op_at; rewrite E2; by rewrite (lookup_total_correct _ _ _ Ho)). by rewrite Hst. }
  assert (N2 : sl_provider_executor_next_runnable_locked s2 = Some p).
  { rewrite <- Hnext. unfold sl_provider_executor_next_runnable_locked, best_of, op_at. by rewrite E2. }
  assert (L2 : worker_look s2 = (WRunning p, note (EvRun p) (upd_op p (op_set_claimed true) s2))).
  { unfold worker_look. change (ex_worker_stop_requested (pv_exec s2)) with (ex_worker_stop_requested (pv_exec s)). by rewrite Hstop, N2. }
  set (answer := {| rr_status := SL_STATUS_OK; rr_diag := SL_DIAG_NONE; rr_message := sl_str_empty |}).
  set (s3 := note (EvRun p) (upd_op p (op_set_claimed true) s2)) in L2.
  set (r1 := with_worker i (WRunning p) (with_env (fun _ => s1) r)). set (r2 := with_worker i (WReturned p (settle_result answer)) r1).
  set (r3 := with_worker i (WUnclaimed p (settle_result answer)) (with_env (worker_unclaim p) r2)).
  assert (Hlen : (i < length (rn_workers r))%nat) by by eapply lookup_lt_Some.
  exists (with_worker j (WRunning p) (with_env (fun _ => s3) r3)). split.
  - apply (rtc_l _ _ r1); [by eapply (step_look _ _ r i)|]. apply (rtc_l _ _ r2); [apply (step_return _ _ r1 i p answer); by apply list_lookup_insert_eq|].
    apply (rtc_l _ _ r3); [apply (step_unclaim _ _ r2 i p (settle_result answer)); cbn; apply list_lookup_insert_eq; by rewrite length_insert|].
    apply rtc_once. apply (step_look _ _ r3 j).
    + cbn. rewrite !list_lookup_insert_ne by done. exact Hj.
    + change (rn_env r3) with (worker_unclaim p s1). rewrite U. exact L2.
  - change (times (EvRun p) s3 = times (EvRun p) s + 2). unfold s3. rewrite times_note, decide_True by done.
    change (times (EvRun p) (upd_op p (op_set_claimed true) s2)) with (times (EvRun p) s1). unfold s1. rewrite times_note, decide_True by done.
    change (times (EvRun p) (upd_op p (op_set_claimed true) s)) with (times (EvRun p) s). lia.
Qed.
End Runs.

Module RunsDemo.
Import ProviderAccounts.Demo.

(** The pool's two workers start and look for work. *)
Definition ready0 : RunSys := with_worker 1 WLooking (with_env worker_start (with_worker 0 WLooking (with_env worker_start pool1))).

Lemma pool_ready : rtc step0 pool0 ready0.
Proof.
  eapply rtc_l; [exact pool_submits|]. eapply rtc_l; [apply (step_start _ _ pool1 0); vm_compute; reflexivity|].
  eapply rtc_l; [eapply (step_start _ _ _ 1); vm_compute; reflexivity|]. apply rtc_refl.
Defined.

Lemma provider_pool_runs_twice_witness :
  initial 2 pool0 /\ exists r, rtc step0 pool0 r /\ times (EvRun op0) (rn_env r) = 2.
Proof.
  split; [by apply initial0|]. destruct (provider_pool_runs_twice 30000 check0 2 pool0 ready0 0 1 op0) as (r & Hr & Ht);
    [by apply initial0|exact pool_ready|done|vm_compute; reflexivity..|].
  exists r. split; [by etrans; [exact pool_ready|]|]. rewrite Ht. by vm_compute.
Defined.

Lemma provider_never_idles_witness :
  ex_in_flight (pv_exec (rn_env pool1)) = 1 /\ sl_provider_operation_state op0 (rn_env pool1) <> SL_PROVIDER_OPERATION_QUEUED.
Proof.
  split; [by vm_compute|]. apply (provider_never_idles 30000 check0 2 pool0 pool1); [by apply initial0|apply rtc_once, pool_submits|by vm_compute| |done].
  apply (bool_decide_unpack (op0 ∈ ex_slots (pv_exec (rn_env pool1)))). by vm_compute.
Defined.

(** A serialized executor whose worker runs the one operation. *)
Definition config0 : SlProviderExecutorConfig :=
  {| cf_instance_id := sl_str_from_parts 9000 2; cf_provider_kind := sl_str_from_parts 9010 6; cf_provider_token := sl_str_empty;
     cf_mode := SL_PROVIDER_EXECUTION_SERIALIZED_BLOCKING; cf_queue_capacity := 2; cf_worker_count := 0; cf_max_in_flight := 0; cf_capability_check := REF |}.
Definition single0 : RunSys := start0 SL_PROVIDER_EXECUTION_SERIALIZED_BLOCKING 1 1.
Definition single1 : RunSys := submitted0 SL_PROVIDER_EXECUTION_SERIALIZED_BLOCKING single0.
Definition single2 : RunSys := with_worker 0 WLooking (with_env worker_start single1).
Definition single3 : RunSys :=
  with_worker 0 (fst (worker_look (rn_env single2))) (with_env (fun _ => snd (worker_look (rn_env single2))) single2).

Lemma single_submits : step0 single0 single1.
Proof. apply (submits0 SL_PROVIDER_EXECUTION_SERIALIZED_BLOCKING single0); vm_compute; reflexivity. Defined.

Lemma single_runs : rtc step0 single0 single3.
Proof.
  apply (rtc_l _ _ single1); [exact single_submits|]. apply (rtc_l _ _ single2); [apply (step_start _ _ single1 0); vm_compute; reflexivity|].
  apply rtc_once. apply (step_look _ _ single2 0); [vm_compute; reflexivity|]. apply surjective_pairing.
Defined.

Lemma provider_serialized_runs_once_witness :
  rtc step0 single0 single3 /\ rn_workers single3 = [WRunning op0] /\ times (EvRun op0) (rn_env single3) <= 1.
Proof.
  split; [exact single_runs|]. split; [by vm_compute|].
  apply (provider_serialized_runs_once 30000 check0 config0 single0); [done|done|by apply initial0|exact single_runs].
Defined.
End RunsDemo.
