(* ===== verification/HttpQuery.v ===== *)
(** Query strings of request targets (src/core/http_context.c).

    Names and values are decoded into the request's arena; the array of parameters is a
    list, with the pointer kept beside it. *)

From stdpp Require Import strings list.
From S2P Require Import Prelude Memory Status Arena Str Bytes Simd StrArena Container Sink Builder Diag RouteMatch RouteParse.

Open Scope Z_scope.

Record SlHttpQueryParam := { qp_name : SlStr; qp_value : SlStr }.

(** [params] and [param_count]. *)
Record SlHttpQuery := { hq_params_ptr : Z; hq_params : list SlHttpQueryParam }.

Definition hq_param_count (q : SlHttpQuery) : Z := Z.of_nat (length (hq_params q)).
Definition zero_query : SlHttpQuery := {| hq_params_ptr := 0; hq_params := [] |}.

Definition SL_HTTP_DEFAULT_MAX_QUERY_PARAMS : Z := 64.
(** [sizeof(SlHttpQueryParam)] and its alignment. *)
Definition SL_HTTP_QUERY_PARAM_SIZE : Z := 32.
Definition SL_HTTP_QUERY_PARAM_ALIGNMENT : Z := 8.

Definition ampersand : Z := 38.
Definition equals_sign : Z := 61.
Definition question_mark : Z := 63.
Definition percent : Z := 37.
Definition plus_sign : Z := 43.

Definition sl_http_query_hex_value (ch : Z) : Z :=
  if (48 <=? ch) && (ch <=? 57) then ch - 48
  else if (65 <=? ch) && (ch <=? 70) then ch - 65 + 10
  else if (97 <=? ch) && (ch <=? 102) then ch - 97 + 10
  else -1.

Definition write_byte (p v : Z) : ST World unit := modify (fun w => set_mem (st8 (w_mem w) p v) w).

Section Query.
Context {BC : BuildConfig}.

(** The [while]; it takes one round for every byte written. *)
Fixpoint decode_loop (fuel : nat) (encoded : SlStr) (dst src_index dst_index : Z) : ST World Z :=
  match fuel with
  | O => mret dst_index
  | S fuel =>
      if negb (src_index <? str_length encoded) then mret dst_index else
      m ← gets w_mem ;
      let ch := ld8 m (str_ptr encoded + src_index) in
      if ch =? plus_sign then
        write_byte (dst + dst_index) 32 ;;
        decode_loop fuel encoded dst (src_index + 1) (dst_index + 1)
      else if ch =? percent then
        return_if str_length encoded <=? src_index + 2 with SL_STATUS_INVALID_ARGUMENT ;;
        let high := sl_http_query_hex_value (ld8 m (str_ptr encoded + (src_index + 1))) in
        let low := sl_http_query_hex_value (ld8 m (str_ptr encoded + (src_index + 2))) in
        return_if (high <? 0) || (low <? 0) with SL_STATUS_INVALID_ARGUMENT ;;
        write_byte (dst + dst_index) (Z.lor (Z.shiftl high 4) low) ;;
        decode_loop fuel encoded dst (src_index + 3) (dst_index + 1)
      else
        write_byte (dst + dst_index) ch ;;
        decode_loop fuel encoded dst (src_index + 1) (dst_index + 1)
  end.

Definition sl_http_query_decode (arena : nullable) (encoded : SlStr) (out : nullable) : ST World SlStr :=
  return_if is_null arena || is_null out || ((str_ptr encoded =? 0) && negb (str_length encoded =? 0)) with SL_STATUS_INVALID_ARGUMENT ;;
  if str_length encoded =? 0 then mret sl_str_empty else
  storage ← sl_arena_array_alloc arena (str_length encoded) 1 1 REF ;
  dst_index ← decode_loop (S (Z.to_nat (str_length encoded))) encoded (slice_ptr storage) 0 0 ;
  mret (sl_str_from_parts (slice_ptr storage) dst_index).

Definition sl_http_query_slice (text : SlStr) (start end_ : Z) : SlStr := sl_str_from_parts (str_ptr text + start) (end_ - start).

Definition sl_http_query_pair_count (m : mem) (query : SlStr) : Z :=
  (if str_length query =? 0 then 0 else 1) + Z.of_nat (length (List.filter (fun b => b =? ampersand) (str_val m query))).

(** The index of the first parameter of that name. *)
Fixpoint sl_http_query_find_param (m : mem) (params : list SlHttpQueryParam) (name : SlStr) : option nat :=
  match params with
  | [] => None
  | p :: params => if sl_str_equal m (qp_name p) name then Some O else S <$> sl_http_query_find_param m params name
  end.

(** The loops that look for a byte: where it is, or [end_]. *)
Fixpoint find_byte (m : mem) (text : SlStr) (b : Z) (cursor : Z) (n : nat) : Z :=
  match n with
  | O => cursor
  | S n => if ld8 m (str_ptr text + cursor) =? b then cursor else find_byte m text b (cursor + 1) n
  end.

Definition sl_http_query_parse_pair (arena : nullable) (query : SlStr) (pair_start pair_end : Z) (params : list SlHttpQueryParam)
    : ST World (list SlHttpQueryParam) :=
  return_if is_null arena || (pair_end <? pair_start) || (str_length query <? pair_end) with SL_STATUS_INVALID_ARGUMENT ;;
  m ← gets w_mem ;
  let equals := find_byte m query equals_sign pair_start (Z.to_nat (pair_end - pair_start)) in
  let encoded_name := sl_http_query_slice query pair_start equals in
  let encoded_value := if equals <? pair_end then sl_http_query_slice query (equals + 1) pair_end else sl_str_empty in
  name ← sl_http_query_decode arena encoded_name REF ;
  value ← sl_http_query_decode arena encoded_value REF ;
  m ← gets w_mem ;
  mret match sl_http_query_find_param m params name with
       | Some i => alter (fun p => {| qp_name := qp_name p; qp_value := value |}) i params
       | None => params ++ [{| qp_name := name; qp_value := value |}]
       end.

Definition sl_http_query_alloc_params (arena : nullable) (capacity : Z) (out_params : nullable) : ST World Z :=
  return_if is_null arena || is_null out_params with SL_STATUS_INVALID_ARGUMENT ;;
  slice ← sl_arena_array_alloc arena capacity SL_HTTP_QUERY_PARAM_SIZE SL_HTTP_QUERY_PARAM_ALIGNMENT REF ;
  mret (slice_ptr slice).

(** The [while] over the pairs, one round for each. *)
Fixpoint parse_pairs (fuel : nat) (arena : nullable) (query : SlStr) (cursor : Z) (params : list SlHttpQueryParam)
    : ST World (list SlHttpQueryParam) :=
  match fuel with
  | O => mret params
  | S fuel =>
      if negb (cursor <=? str_length query) then mret params else
      m ← gets w_mem ;
      let pair_end := find_byte m query ampersand cursor (Z.to_nat (str_length query - cursor)) in
      params ← sl_http_query_parse_pair arena query cursor pair_end params ;
      if pair_end =? str_length query then mret params else parse_pairs fuel arena query (pair_end + 1) params
  end.

Definition sl_http_query_parse (arena : nullable) (raw_target : SlStr) (out_query : nullable) : ST World SlHttpQuery :=
  return_if is_null arena || is_null out_query || ((str_ptr raw_target =? 0) && negb (str_length raw_target =? 0))
    with SL_STATUS_INVALID_ARGUMENT ;;
  m ← gets w_mem ;
  let mark_at := find_byte m raw_target question_mark 0 (Z.to_nat (str_length raw_target)) in
  let query_start := if mark_at <? str_length raw_target then mark_at + 1 else str_length raw_target in
  if str_length raw_target <=? query_start then mret zero_query else
  mark ← gets (sl_arena_mark arena) ;
  let query := sl_http_query_slice raw_target query_start (str_length raw_target) in
  let capacity := sl_http_query_pair_count m query in
  if capacity =? 0 then mret zero_query else
  return_if SL_HTTP_DEFAULT_MAX_QUERY_PARAMS <? capacity with SL_STATUS_CAPACITY_EXCEEDED ;;
  ptr ← sl_http_query_alloc_params arena capacity REF ;
  params ← on_error (parse_pairs (S (Z.to_nat (str_length query))) arena query 0 [])
             (fun status => modify (fun w => snd (sl_arena_reset_to arena mark w)) ;; fail status) ;
  mret {| hq_params_ptr := ptr; hq_params := params |}.
End Query.

(** * What a query string means *)

(** Percent-decoding, with a plus for a blank; [None] for a malformed escape. *)
Fixpoint url_decode (l : list Z) : option (list Z) :=
  match l with
  | [] => Some []
  | c :: t =>
      if c =? plus_sign then cons 32 <$> url_decode t
      else if c =? percent then
        match t with
        | h :: l :: t =>
            let high := sl_http_query_hex_value h in
            let low := sl_http_query_hex_value l in
            if (high <? 0) || (low <? 0) then None else cons (16 * high + low) <$> url_decode t
        | _ => None
        end
      else cons c <$> url_decode t
  end.

(** The parts between the occurrences of a byte. *)
Fixpoint split_at (b : Z) (l : list Z) : list (list Z) :=
  match l with
  | [] => [[]]
  | c :: l => if c =? b then [] :: split_at b l else
              match split_at b l with [] => [[c]] | p :: ps => (c :: p) :: ps end
  end.

(** What is before and after the first occurrence of a byte. *)
Fixpoint break_at (b : Z) (l : list Z) : list Z * list Z :=
  match l with
  | [] => ([], [])
  | c :: l => if c =? b then ([], l) else let '(x, y) := break_at b l in (c :: x, y)
  end.

(** A later pair of the same name replaces the value. *)
Definition bind_param (params : list (list Z * list Z)) (name value : list Z) : list (list Z * list Z) :=
  if bool_decide (name ∈ params.*1) then (fun p => if bool_decide (p.1 = name) then (name, value) else p) <$> params
  else params ++ [(name, value)].

Definition read_pair (params : list (list Z * list Z)) (text : list Z) : option (list (list Z * list Z)) :=
  let '(name, value) := break_at equals_sign text in
  name ← url_decode name ; value ← url_decode value ; Some (bind_param params name value).

Fixpoint read_pairs (params : list (list Z * list Z)) (texts : list (list Z)) : option (list (list Z * list Z)) :=
  match texts with
  | [] => Some params
  | text :: texts => params ← read_pair params text ; read_pairs params texts
  end.

(** The query of a target: what follows its first question mark. *)
Definition query_text (target : list Z) : list Z := (break_at question_mark target).2.

(** * Decoding *)

Lemma hex_value_range c : sl_http_query_hex_value c < 0 \/ 0 <= sl_http_query_hex_value c < 16.
Proof. unfold sl_http_query_hex_value. repeat split_if; lia. Qed.

Lemma hex_pair h l : 0 <= h < 16 -> 0 <= l < 16 -> wrap8 (Z.lor (Z.shiftl h 4) l) = 16 * h + l.
Proof. intros Hh Hl. rewrite Z.lor_comm, lor_shiftl_add by lia. rewrite wrap8_small; [lia|]. unfold is_byte. lia. Qed.

(** What one round leaves for the rest. *)
Record wrote (dst len di v : Z) (w w' : World) : Prop := {
  wr_arena : w_arena w' = w_arena w;
  wr_mem : same_outside dst (dst + len) (w_mem w) (w_mem w');
  wr_load : load_bytes (w_mem w') dst (di + 1) = load_bytes (w_mem w) dst di ++ [v];
}.

Lemma write_byte_wrote dst len di x w :
  0 <= di < len -> wrote dst len di (wrap8 x) w (set_mem (st8 (w_mem w) (dst + di) x) w).
Proof.
  intros Hd. split; [done|eapply same_outside_weaken; [apply st8_same_outside|lia|lia]|].
  cbn [w_mem set_mem]. rewrite load_bytes_app by lia. f_equal.
  - eapply load_bytes_same; [apply st8_same_outside|]. unfold disjoint_ranges. lia.
  - rewrite load_bytes_cons by lia. rewrite ld8_st8_eq. done.
Qed.

Section Decode.
Context {BC : BuildConfig}.

Definition decoded (dst len di : Z) (rest : list Z) (w : World) (o : result Z * World) : Prop :=
  w_arena (snd o) = w_arena w /\ same_outside dst (dst + len) (w_mem w) (w_mem (snd o)) /\
  match fst o with
  | Ok n => exists l, url_decode rest = Some l /\ n = di + Z.of_nat (length l) /\ n <= len /\
      load_bytes (w_mem (snd o)) dst n = load_bytes (w_mem w) dst di ++ l
  | Err c => c = SL_STATUS_INVALID_ARGUMENT /\ url_decode rest = None
  end.

(** A byte is written, and the rest decoded after it. *)
Lemma decoded_step dst len di v rest rest' w w' o :
  wrote dst len di v w w' -> url_decode rest = cons v <$> url_decode rest' -> decoded dst len (di + 1) rest' w' o -> decoded dst len di rest w o.
Proof.
  intros [W1 W2 W3] Hr (D1 & D2 & D3). split; [congruence|]. split; [by eapply same_outside_trans|]. rewrite Hr. destruct (fst o) as [n|c].
  - destruct D3 as (l & -> & E & Hn & Hl). exists (v :: l). split; [done|]. cbn [length]. split; [lia|]. split; [done|].
    rewrite Hl, W3, <- app_assoc. done.
  - destruct D3 as [D3 ->]. done.
Qed.

Lemma decode_loop_spec fuel encoded dst src di w :
  0 <= src <= str_length encoded -> 0 <= di <= src -> str_length encoded - src < Z.of_nat fuel ->
  disjoint_ranges dst (str_length encoded) (str_ptr encoded) (str_length encoded) ->
  decoded dst (str_length encoded) di (load_bytes (w_mem w) (str_ptr encoded + src) (str_length encoded - src)) w
    (decode_loop fuel encoded dst src di w).
Proof.
  revert src di w. induction fuel as [|fuel IH]; intros src di w Hs Hd Hf Hdis; [lia|]. cbn [decode_loop].
  destruct (Z.ltb_spec src (str_length encoded)) as [Hlt|Hge]; cbn [negb].
  2: { split; [done|]. split; [apply same_outside_refl|]. exists []. rewrite load_bytes_nonpos by lia. split_and!; [done|cbn; lia|lia|by rewrite app_nil_r]. }
  assert (Hsame : forall w1 v k, wrote dst (str_length encoded) di v w w1 -> 0 < k -> src + k <= str_length encoded ->
    load_bytes (w_mem w1) (str_ptr encoded + (src + k)) (str_length encoded - (src + k)) =
    load_bytes (w_mem w) (str_ptr encoded + src + k) (str_length encoded - src - k)).
  { intros w1 v k [_ Hm _] Hk Hle. replace (str_ptr encoded + (src + k)) with (str_ptr encoded + src + k) by lia.
    replace (str_length encoded - (src + k)) with (str_length encoded - src - k) by lia.
    eapply load_bytes_same; [exact Hm|]. unfold disjoint_ranges in *. lia. }
  rewrite (load_bytes_cons _ (str_ptr encoded + src)) by lia. unfold mbind at 1, st_bind at 1, gets at 1. cbv zeta.
  set (ch := ld8 (w_mem w) (str_ptr encoded + src)). assert (Hch : is_byte ch) by apply ld8_range.
  destruct (ch =? plus_sign) eqn:Ep.
  { pose proof (write_byte_wrote dst (str_length encoded) di 32 w ltac:(lia)) as Hw. change (wrap8 32) with 32 in Hw.
    eapply decoded_step; [exact Hw|cbn [url_decode]; by rewrite Ep|]. rewrite <- (Hsame _ _ 1 Hw) by lia. apply IH; [lia|lia|lia|done]. }
  destruct (ch =? percent) eqn:Eq.
  2: { pose proof (write_byte_wrote dst (str_length encoded) di ch w ltac:(lia)) as Hw. rewrite (wrap8_small ch Hch) in Hw.
       eapply decoded_step; [exact Hw|cbn [url_decode]; by rewrite Ep, Eq|]. rewrite <- (Hsame _ _ 1 Hw) by lia. apply IH; [lia|lia|lia|done]. }
  destruct (Z.leb_spec (str_length encoded) (src + 2)) as [Hshort|Hlong].
  { split; [done|]. split; [apply same_outside_refl|]. split; [done|]. cbn [url_decode]. rewrite Ep, Eq.
    destruct (decide (str_length encoded - src - 1 <= 0)); [by rewrite load_bytes_nonpos by lia|]. rewrite load_bytes_cons by lia. by rewrite load_bytes_nonpos by lia. }
  rewrite (load_bytes_cons _ (str_ptr encoded + src + 1)) by lia. rewrite (load_bytes_cons _ (str_ptr encoded + src + 1 + 1)) by lia.
  replace (str_ptr encoded + (src + 1)) with (str_ptr encoded + src + 1) by lia. replace (str_ptr encoded + (src + 2)) with (str_ptr encoded + src + 1 + 1) by lia.
  set (h := ld8 (w_mem w) (str_ptr encoded + src + 1)). set (l := ld8 (w_mem w) (str_ptr encoded + src + 1 + 1)).
  destruct ((sl_http_query_hex_value h <? 0) || (sl_http_query_hex_value l <? 0)) eqn:Eh.
  { split; [done|]. split; [apply same_outside_refl|]. split; [done|]. cbn [url_decode]. by rewrite Ep, Eq, Eh. }
  apply orb_false_iff in Eh as Eh'. destruct Eh' as [Hh%Z.ltb_ge Hl%Z.ltb_ge].
  destruct (hex_value_range h) as [?|Hh']; [lia|]. destruct (hex_value_range l) as [?|Hl']; [lia|].
  pose proof (write_byte_wrote dst (str_length encoded) di (Z.lor (Z.shiftl (sl_http_query_hex_value h) 4) (sl_http_query_hex_value l)) w ltac:(lia)) as Hw.
  rewrite hex_pair in Hw by done. eapply decoded_step; [exact Hw|cbn [url_decode]; by rewrite Ep, Eq, Eh|].
  replace (str_ptr encoded + src + 1 + 1 + 1) with (str_ptr encoded + src + 3) by lia.
  replace (str_length encoded - src - 1 - 1 - 1) with (str_length encoded - src - 3) by lia.
  rewrite <- (Hsame _ _ 3 Hw) by lia. apply IH; [lia|lia|lia|done].
Qed.

(** A new array, and where it is. *)
Lemma array_alloc_block count es al w :
  arena_wf (w_arena w) -> is_size count -> is_size es -> is_size al -> 0 < count -> 0 < es -> sl_arena_is_power_of_two al = true ->
  match sl_arena_array_alloc REF count es al REF w with
  | (Ok sl, w') => extends w w' /\ fresh_block (slice_ptr sl) (count * es) w w' /\
      ar_base (w_arena w) + ar_offset (w_arena w) <= slice_ptr sl /\ slice_ptr sl + count * es <= ar_base (w_arena w) + ar_capacity (w_arena w)
  | (Err c, w') => w' = w /\ exhausted c
  end.
Proof.
  intros Hwf Hc He Ha Hc0 He0 Hp. pose proof (array_alloc_spec count es al w Hwf Hc He Ha Hc0 He0) as Hs.
  destruct (sl_arena_array_alloc REF count es al REF w) as [[sl|c] w'] eqn:E; [|exact (array_alloc_exhausted count es al c w w' Hwf Hc He Ha He0 Hp E)].
  destruct Hs as (_ & _ & Hle & Hf & _).
  assert (Hal : 0 < al) by (apply is_power_of_two_inv in Hp as (k & ? & ->); [apply Z.pow_pos_nonneg; lia|done]).
  assert (Hsz : is_size (count * es)) by (unfold is_size in *; nia).
  assert (Hx : exists w1, alloc_post (count * es) al (slice_ptr sl) w w1 /\ w_arena w' = w_arena w1 /\
                 same_outside (slice_ptr sl) (slice_ptr sl + count * es) (w_mem w1) (w_mem w')).
  { revert E. unfold sl_arena_array_alloc, sl_container_storage_size. unfold_st. destruct (Z.eqb_spec es 0); [lia|]. destruct (Z.eqb_spec count 0); [lia|].
    cbn [is_null orb]. unfold sl_checked_array_size. rewrite checked_mul_spec by done. unfold checked. destruct (Z.leb_spec (count * es) SIZE_MAX); [|done].
    destruct (sl_arena_alloc REF (count * es) al REF w) as [[p|x] w1] eqn:E1; [|done]. intros [= <- <-]. exists w1. cbn [slice_ptr].
    apply sl_arena_alloc_ok in E1 as (Hz & _ & Hpost); [|done..]. split; [exact Hpost|]. split; [done|]. apply container_zero_spec. size_lia. }
  destruct Hx as (w1 & Hpost & Ea & Hm2). destruct (alloc_post_block (count * es) al _ w w1 Hwf Hal ltac:(size_lia) Hpost) as (H1 & H2 & H3).
  split; [|by split_and!]. pose proof (arena_padding_bound (w_arena w) al Hal) as Hpad. destruct Hpost as [? Hfi ? He1 Ha1 Hm ?].
  split; rewrite ?Ea; [rewrite <- Ea; apply Hf|by rewrite Ha1..|size_lia|].
  eapply same_outside_trans; [eapply same_outside_weaken; [exact Hm|lia|lia]|]. eapply same_outside_weaken; [exact Hm2|lia|lia].
Qed.

Lemma kept_empty w : kept_view w sl_str_empty [].
Proof. split_and!; [split; [done|by left]|done| |done]. unfold outside_free, disjoint_ranges. cbn. lia. Qed.

Lemma query_decode_spec encoded bytes w :
  arena_wf (w_arena w) -> kept_view w encoded bytes ->
  match sl_http_query_decode REF encoded REF w with
  | (Ok v, w') => extends w w' /\ exists l, url_decode bytes = Some l /\ kept_view w' v l
  | (Err c, w') => extends w w' /\ (exhausted c \/ c = SL_STATUS_INVALID_ARGUMENT /\ url_decode bytes = None)
  end.
Proof.
  intros Hwf Hk. pose proof Hk as ([Hl Hv] & Hs & Ho & Hb). unfold sl_http_query_decode. cbn [is_null orb].
  destruct (Z.eqb_spec (str_length encoded) 0) as [E0|E0].
  { rewrite andb_false_r. split; [by apply extends_refl|]. exists []. split; [|apply kept_empty]. rewrite <- Hb. unfold str_val. by rewrite E0. }
  destruct (Z.eqb_spec (str_ptr encoded) 0) as [|Hp0]; [lia|]. cbn [andb negb].
  pose proof (array_alloc_block (str_length encoded) 1 1 w Hwf Hs ltac:(size_lia) ltac:(size_lia) ltac:(lia) ltac:(lia) eq_refl) as Ha.
  unfold mbind at 1, st_bind at 1. destruct (sl_arena_array_alloc REF (str_length encoded) 1 1 REF w) as [[sl|c] w1].
  2: { destruct Ha as [-> Ha]. split; [by apply extends_refl|by left]. }
  rewrite Z.mul_1_r in Ha. destruct Ha as (He & [F1 F2 F3 F4 F5 F6] & Hlo & Hhi). destruct (F6 _ _ Ho) as (Hd & Hload & _).
  pose proof (decode_loop_spec (S (Z.to_nat (str_length encoded))) encoded (slice_ptr sl) 0 0 w1 ltac:(lia) ltac:(lia) ltac:(lia) Hd) as (D1 & D2 & D3).
  rewrite Z.add_0_r, Z.sub_0_r in D3. rewrite Hload in D3. fold (str_val (w_mem w) encoded) in D3. rewrite Hb in D3.
  assert (Hext : extends w (snd (decode_loop (S (Z.to_nat (str_length encoded))) encoded (slice_ptr sl) 0 0 w1))).
  { destruct He as [X1 X2 X3 X4 X5 X6]. split; rewrite ?D1; try done. eapply same_outside_trans; [exact X6|].
    eapply same_outside_weaken; [exact D2|lia|lia]. }
  unfold mbind at 1, st_bind at 1. destruct (decode_loop _ _ _ _ _ w1) as [[n|c] w2]; cbn [fst snd] in *.
  - destruct D3 as (l & Hd' & Hn & Hle & Hl2). split; [done|]. exists l. split; [done|].
    split_and!; [split; [cbn; lia|right; cbn; lia]|cbn; size_lia| |exact Hl2].
    cbn [str_ptr str_length sl_str_from_parts]. rewrite D1. eapply outside_free_sub; [exact F4|lia|lia].
  - destruct D3 as [-> D3]. split; [done|by right].
Qed.
End Decode.

(** * Looking for a byte *)

Lemma find_byte_spec m text b n cursor :
  let e := find_byte m text b cursor n in
  let before := load m (str_ptr text + cursor) (Z.to_nat (e - cursor)) in
  let after := load m (str_ptr text + (e + 1)) (n - 1 - Z.to_nat (e - cursor)) in
  cursor <= e <= cursor + Z.of_nat n /\
  break_at b (load m (str_ptr text + cursor) n) = (before, after) /\
  split_at b (load m (str_ptr text + cursor) n) = before :: if e =? cursor + Z.of_nat n then [] else split_at b after.
Proof.
  revert cursor. induction n as [|n IH]; intros cursor; cbn [find_byte].
  { cbv zeta. rewrite Z.sub_diag. destruct (Z.eqb_spec cursor (cursor + Z.of_nat 0)); [|lia]. split_and!; [lia|lia|done|done]. }
  cbn [load break_at split_at]. destruct (ld8 m (str_ptr text + cursor) =? b) eqn:E; cbv zeta.
  - rewrite Z.sub_diag. destruct (Z.eqb_spec cursor (cursor + Z.of_nat (S n))); [lia|]. change (Z.to_nat 0) with O. cbn [load].
    replace (S n - 1 - 0)%nat with n by lia. replace (str_ptr text + (cursor + 1)) with (str_ptr text + cursor + 1) by lia. split_and!; [lia|lia|done|done].
  - specialize (IH (cursor + 1)). cbv zeta in IH. replace (str_ptr text + (cursor + 1)) with (str_ptr text + cursor + 1) in IH by lia.
    set (e := find_byte m text b (cursor + 1) n) in *. destruct IH as (He & -> & ->).
    replace (cursor + 1 + Z.of_nat n) with (cursor + Z.of_nat (S n)) in * by lia.
    replace (Z.to_nat (e - cursor)) with (S (Z.to_nat (e - (cursor + 1)))) by lia. cbn [load].
    replace (S n - 1 - S (Z.to_nat (e - (cursor + 1))))%nat with (n - 1 - Z.to_nat (e - (cursor + 1)))%nat by lia. split_and!; [lia|lia|done|done].
Qed.

(** The same on the bytes of a view up to [stop]. *)
Lemma find_byte_view m text b cursor stop :
  0 <= cursor <= stop ->
  let e := find_byte m text b cursor (Z.to_nat (stop - cursor)) in
  let before := load_bytes m (str_ptr text + cursor) (e - cursor) in
  let after := load_bytes m (str_ptr text + (e + 1)) (stop - (e + 1)) in
  cursor <= e <= stop /\ break_at b (load_bytes m (str_ptr text + cursor) (stop - cursor)) = (before, after) /\
  split_at b (load_bytes m (str_ptr text + cursor) (stop - cursor)) = before :: if e =? stop then [] else split_at b after.
Proof.
  intros Hc. pose proof (find_byte_spec m text b (Z.to_nat (stop - cursor)) cursor) as H. cbv zeta in *.
  set (e := find_byte m text b cursor (Z.to_nat (stop - cursor))) in *. rewrite Z2Nat.id in H by lia. replace (cursor + (stop - cursor)) with stop in H by lia.
  unfold load_bytes. replace (Z.to_nat (stop - cursor) - 1 - Z.to_nat (e - cursor))%nat with (Z.to_nat (stop - (e + 1))) in H by lia. exact H.
Qed.

(** A slice of a kept view. *)
Lemma kept_query_slice w query bytes start end_ :
  kept_view w query bytes -> 0 < str_ptr query -> 0 <= start <= end_ -> end_ <= str_length query ->
  kept_view w (sl_http_query_slice query start end_) (load_bytes (w_mem w) (str_ptr query + start) (end_ - start)).
Proof.
  intros ([Hl Hv] & Hs & Ho & Hb) Hp H1 H2. split_and!; cbn [str_ptr str_length sl_http_query_slice sl_str_from_parts].
  - split; cbn; [lia|right; lia].
  - size_lia.
  - eapply outside_free_sub; [exact Ho|lia|lia].
  - done.
Qed.

(** * Parameters *)

Definition param_is (w : World) (p : SlHttpQueryParam) (q : list Z * list Z) : Prop :=
  kept_view w (qp_name p) q.1 /\ kept_view w (qp_value p) q.2.

Lemma param_is_extends w w' params ps : extends w w' -> Forall2 (param_is w) params ps -> Forall2 (param_is w') params ps.
Proof. intros He H. eapply Forall2_impl; [exact H|]. intros p q [H1 H2]. split; by eapply kept_view_extends. Qed.

Lemma find_param_spec w params ps name n :
  Forall2 (param_is w) params ps -> kept_view w name n ->
  match sl_http_query_find_param (w_mem w) params name with
  | Some i => exists v, ps !! i = Some (n, v)
  | None => n ∉ ps.*1
  end.
Proof.
  intros H Hn. induction H as [|p [n1 v1] params ps [H1 H2] _ IH]; cbn [sl_http_query_find_param]; [by apply not_elem_of_nil|]. cbn in H1, H2.
  destruct H1 as (V1 & _ & _ & E1). destruct Hn as (V2 & S2 & O2 & E2). rewrite sl_str_equal_spec by done. rewrite E1, E2.
  case_bool_decide as En; [exists v1; by rewrite En|].
  destruct (sl_http_query_find_param _ _ _) as [i|]; [exact IH|]. cbn. apply not_elem_of_cons. by split.
Qed.

Lemma alter_at {A} (f : A -> A) (l : list A) (i : nat) x : l !! i = Some x -> alter f i l = <[i := f x]> l.
Proof. revert i. induction l as [|y l IH]; intros [|i] H; [done|done| |]; cbn in *; [by injection H as ->|f_equal; by apply IH]. Qed.

Lemma replace_bound ps i n v v' :
  NoDup ps.*1 -> ps !! i = Some (n, v) ->
  (fun p : list Z * list Z => if bool_decide (p.1 = n) then (n, v') else p) <$> ps = <[i := (n, v')]> ps.
Proof.
  revert i. induction ps as [|[n1 v1] ps IH]; intros i Hnd Hi; [done|]. apply NoDup_cons in Hnd as [Hnot Hnd]. cbn in Hnot. destruct i as [|i]; cbn in *.
  - injection Hi as -> ->. rewrite bool_decide_eq_true_2 by done. f_equal. clear IH Hnd. induction ps as [|[n2 v2] ps IH]; [done|].
    apply not_elem_of_cons in Hnot as [H1 H2]. cbn in *. rewrite bool_decide_eq_false_2 by congruence. f_equal. by apply IH.
  - assert (n1 <> n). { intros ->. apply Hnot. apply list_elem_of_fmap. exists (n, v). split; [done|]. by eapply list_elem_of_lookup_2. }
    rewrite bool_decide_eq_false_2 by done. f_equal. by apply IH.
Qed.

Lemma bind_param_nodup ps n v : NoDup ps.*1 -> NoDup (bind_param ps n v).*1.
Proof.
  intros H. unfold bind_param. case_bool_decide as E.
  - assert (Hm : ((fun p : list Z * list Z => if bool_decide (p.1 = n) then (n, v) else p) <$> ps).*1 = ps.*1); [|by rewrite Hm].
    rewrite <- list_fmap_compose. apply list_fmap_ext. intros i [n1 v1] _. cbn. by case_bool_decide.
  - rewrite fmap_app. apply NoDup_app. split_and!; [done| |apply NoDup_singleton]. intros x Hx. cbn. rewrite list_elem_of_singleton. by intros ->.
Qed.

Section Pairs.
Context {BC : BuildConfig}.

Lemma parse_pair_spec w query bytes start end_ params ps :
  arena_wf (w_arena w) -> kept_view w query bytes -> 0 < str_ptr query -> 0 <= start <= end_ -> end_ <= str_length query ->
  Forall2 (param_is w) params ps -> NoDup ps.*1 ->
  let text := load_bytes (w_mem w) (str_ptr query + start) (end_ - start) in
  match sl_http_query_parse_pair REF query start end_ params w with
  | (Ok params', w') => extends w w' /\ exists ps', read_pair ps text = Some ps' /\ Forall2 (param_is w') params' ps' /\ NoDup ps'.*1
  | (Err c, w') => extends w w' /\ (exhausted c \/ c = SL_STATUS_INVALID_ARGUMENT /\ read_pair ps text = None)
  end.
Proof.
  intros Hwf Hk Hp Hse Hel Hps Hnd text. unfold sl_http_query_parse_pair. cbn [is_null orb].
  destruct (Z.ltb_spec end_ start); [lia|]. destruct (Z.ltb_spec (str_length query) end_); [lia|]. cbn [orb].
  unfold mbind at 1, st_bind at 1, gets at 1. pose proof (find_byte_view (w_mem w) query equals_sign start end_ Hse) as Hf. cbv zeta in Hf |- *.
  set (e := find_byte (w_mem w) query equals_sign start (Z.to_nat (end_ - start))) in *. destruct Hf as (He & Hbr & _). fold text in Hbr.
  unfold read_pair. rewrite Hbr.
  pose proof (kept_query_slice w query bytes start e Hk Hp ltac:(lia) ltac:(lia)) as Kn.
  set (val := if e <? end_ then sl_http_query_slice query (e + 1) end_ else sl_str_empty).
  assert (Kv : kept_view w val (load_bytes (w_mem w) (str_ptr query + (e + 1)) (end_ - (e + 1)))).
  { unfold val. destruct (Z.ltb_spec e end_); [apply (kept_query_slice w query bytes); [done|done|lia|lia]|]. rewrite load_bytes_nonpos by lia. apply kept_empty. }
  clearbody val. unfold mbind at 1, st_bind at 1. pose proof (query_decode_spec _ _ w Hwf Kn) as Hn.
  destruct (sl_http_query_decode REF (sl_http_query_slice query start e) REF w) as [[name|c] w1].
  2: { destruct Hn as [Hx [Hn|[Hc Hn]]]; (split; [done|]); [by left|]. right. split; [done|]. by rewrite Hn. }
  destruct Hn as (X1 & n & -> & Kname). cbn [mbind option_bind]. unfold mbind at 1, st_bind at 1.
  pose proof (query_decode_spec _ _ w1 (ext_wf _ _ X1) (kept_view_extends _ _ _ _ X1 Kv)) as Hv.
  destruct (sl_http_query_decode REF val REF w1) as [[value|c] w2].
  2: { destruct Hv as [X2 Hv]. split; [by eapply extends_trans|]. destruct Hv as [Hv|[Hc Hv]]; [by left|]. right. split; [done|]. by rewrite Hv. }
  destruct Hv as (X2 & v & -> & Kvalue). cbn [mbind option_bind]. unfold mbind, st_bind, gets, mret, st_ret.
  pose proof (kept_view_extends _ _ _ _ X2 Kname) as Kname2. pose proof (extends_trans _ _ _ X1 X2) as X. split; [exact X|].
  exists (bind_param ps n v). split; [done|]. split; [|by apply bind_param_nodup].
  pose proof (param_is_extends _ _ _ _ X Hps) as Hps2. pose proof (find_param_spec w2 params ps name n Hps2 Kname2) as Hfp. unfold bind_param.
  destruct (sl_http_query_find_param (w_mem w2) params name) as [i|].
  - destruct Hfp as [v0 Hi]. rewrite bool_decide_eq_true_2 by (apply list_elem_of_fmap; exists (n, v0); split; [done|by eapply list_elem_of_lookup_2]).
    rewrite (replace_bound ps i n v0 v Hnd Hi). destruct (Forall2_lookup_r _ _ _ _ _ Hps2 Hi) as (p & Hpi & [Kp1 Kp2]).
    rewrite (alter_at _ _ _ _ Hpi). apply Forall2_insert; [done|]. by split.
  - rewrite bool_decide_eq_false_2 by done. apply Forall2_app; [done|]. constructor; [by split|constructor].
Qed.

Lemma parse_pairs_spec fuel w query bytes cursor params ps :
  arena_wf (w_arena w) -> kept_view w query bytes -> 0 < str_ptr query -> 0 <= cursor <= str_length query -> str_length query - cursor < Z.of_nat fuel ->
  Forall2 (param_is w) params ps -> NoDup ps.*1 ->
  let texts := split_at ampersand (load_bytes (w_mem w) (str_ptr query + cursor) (str_length query - cursor)) in
  match parse_pairs fuel REF query cursor params w with
  | (Ok params', w') => extends w w' /\ exists ps', read_pairs ps texts = Some ps' /\ Forall2 (param_is w') params' ps' /\ NoDup ps'.*1
  | (Err c, w') => extends w w' /\ (exhausted c \/ c = SL_STATUS_INVALID_ARGUMENT /\ read_pairs ps texts = None)
  end.
Proof.
  revert w cursor params ps. induction fuel as [|fuel IH]; intros w cursor params ps Hwf Hk Hp Hc Hf Hps Hnd texts; [lia|]. cbn [parse_pairs].
  destruct (Z.leb_spec cursor (str_length query)); [|lia]. cbn [negb]. unfold mbind at 1, st_bind at 1, gets at 1.
  pose proof (find_byte_view (w_mem w) query ampersand cursor (str_length query) Hc) as Hb. cbv zeta in Hb |- *.
  set (e := find_byte (w_mem w) query ampersand cursor (Z.to_nat (str_length query - cursor))) in *. destruct Hb as (He & _ & Hsplit). fold texts in Hsplit. rewrite Hsplit.
  pose proof (parse_pair_spec w query bytes cursor e params ps Hwf Hk Hp ltac:(lia) ltac:(lia) Hps Hnd) as H1. cbv zeta in H1. cbn [read_pairs].
  unfold mbind at 1, st_bind at 1. destruct (sl_http_query_parse_pair REF query cursor e params w) as [[params1|c] w1].
  2: { destruct H1 as [X [H1|[Hc1 H1]]]; (split; [done|]); [by left|]. right. split; [done|]. by rewrite H1. }
  destruct H1 as (X & ps1 & -> & Hps1 & Hnd1). cbn [mbind option_bind]. destruct (Z.eqb_spec e (str_length query)) as [|Hne].
  { split; [done|]. by exists ps1. }
  assert (Hload : load_bytes (w_mem w) (str_ptr query + (e + 1)) (str_length query - (e + 1)) = load_bytes (w_mem w1) (str_ptr query + (e + 1)) (str_length query - (e + 1))).
  { symmetry. apply extends_load; [done|]. destruct Hk as (_ & _ & Ho & _). eapply outside_free_sub; [exact Ho|lia|lia]. }
  rewrite Hload. pose proof (IH w1 (e + 1) params1 ps1 (ext_wf _ _ X) (kept_view_extends _ _ _ _ X Hk) Hp ltac:(lia) ltac:(lia) Hps1 Hnd1) as H2. cbv zeta in H2.
  destruct (parse_pairs fuel REF query (e + 1) params1 w1) as [[params2|c] w2].
  - destruct H2 as (X2 & H2). split; [by eapply extends_trans|done].
  - destruct H2 as (X2 & H2). split; [by eapply extends_trans|done].
Qed.

(** Going back to a mark gives back what was allocated since. *)
Lemma reset_back w w2 : arena_wf (w_arena w) -> extends w w2 ->
  let w' := snd (sl_arena_reset_to REF (sl_arena_mark REF w) w2) in extends w w' /\ ar_offset (w_arena w') = ar_offset (w_arena w).
Proof.
  intros Hwf [X1 X2 X3 X4 X5 X6] w'. pose proof Hwf as Hwf0. unfold arena_wf in Hwf0, X1.
  destruct (sl_arena_reset_to REF (sl_arena_mark REF w) w2) as [r w3] eqn:E. subst w'. cbn [snd].
  assert (Hr : r = Ok tt).
  { revert E. unfold sl_arena_reset_to, sl_arena_mark. unfold_st. cbn [is_null mark_generation mark_offset].
    destruct (Z.eqb_spec (ar_generation (w_arena w)) (ar_generation (w_arena w2))); [|congruence]. cbn [negb].
    destruct (Z.ltb_spec (ar_offset (w_arena w2)) (ar_offset (w_arena w))); [lia|]. destruct (Z.ltb_spec (ar_capacity (w_arena w2)) (ar_offset (w_arena w))); [lia|].
    cbn [orb]. by intros [= <- _]. }
  subst r. apply sl_arena_reset_to_ok in E as (_ & _ & Ea & Em); [|exact X1|cbn; lia]. cbn [mark_offset sl_arena_mark is_null] in *. split; [|by rewrite Ea].
  split; rewrite ?Ea; cbn [ar_base ar_capacity ar_generation ar_offset with_offset]; try done; [unfold arena_wf; cbn; lia|].
  eapply same_outside_trans; [exact X6|]. eapply same_outside_weaken; [exact Em|lia|lia].
Qed.

Lemma split_at_length b l : Z.of_nat (length (split_at b l)) = 1 + Z.of_nat (length (List.filter (fun c => c =? b) l)).
Proof.
  induction l as [|c l IH]; [done|]. cbn [split_at List.filter]. destruct (c =? b); [cbn [length]; lia|].
  destruct (split_at b l) as [|p ps]; cbn [length] in *; lia.
Qed.

(** C31: A query string is read as it is meant: everything after the first question mark is
    split at ampersands, each part at its first equals sign, names and values are
    percent-decoded, and of several parts with one name the last value counts, at the place
    of the first.  Malformed escapes and more than 64 parts are refused; a refusal gives the
    arena back, and nothing the caller holds is touched. *)
Theorem http_query_exact raw_target target w :
  arena_wf (w_arena w) -> kept_view w raw_target target -> 0 < str_ptr raw_target ->
  let text := query_text target in
  let parts := split_at ampersand text in
  match sl_http_query_parse REF raw_target REF w with
  | (Ok q, w') => extends w w' /\ exists params, Forall2 (param_is w') (hq_params q) params /\ NoDup params.*1 /\
      if bool_decide (text = []) then params = [] else Z.of_nat (length parts) <= SL_HTTP_DEFAULT_MAX_QUERY_PARAMS /\ read_pairs [] parts = Some params
  | (Err c, w') => extends w w' /\ ar_offset (w_arena w') = ar_offset (w_arena w) /\ text <> [] /\
      (exhausted c \/ c = SL_STATUS_CAPACITY_EXCEEDED /\ SL_HTTP_DEFAULT_MAX_QUERY_PARAMS < Z.of_nat (length parts) \/
       c = SL_STATUS_INVALID_ARGUMENT /\ read_pairs [] parts = None)
  end.
Proof.
  intros Hwf Hk Hp text parts. pose proof Hk as ([Hl _] & Hs & Ho & Hb). unfold sl_http_query_parse. cbn [is_null orb].
  destruct (Z.eqb_spec (str_ptr raw_target) 0); [lia|]. cbn [andb]. unfold mbind at 1, st_bind at 1, gets at 1.
  pose proof (find_byte_view (w_mem w) raw_target question_mark 0 (str_length raw_target) ltac:(lia)) as Hf. cbv zeta in Hf |- *. rewrite Z.sub_0_r, Z.add_0_r in Hf.
  fold (str_val (w_mem w) raw_target) in Hf. rewrite Hb in Hf.
  set (e := find_byte (w_mem w) raw_target question_mark 0 (Z.to_nat (str_length raw_target))) in *. destruct Hf as (He & Hbr & _).
  assert (Ht : text = load_bytes (w_mem w) (str_ptr raw_target + (e + 1)) (str_length raw_target - (e + 1))) by (unfold text, query_text; by rewrite Hbr).
  set (qs := if e <? str_length raw_target then e + 1 else str_length raw_target).
  assert (Hempty : str_length raw_target <= qs -> text = []) by (intros Hq; rewrite Ht; apply load_bytes_nonpos; unfold qs in Hq; destruct (Z.ltb_spec e (str_length raw_target)); lia).
  destruct (Z.leb_spec (str_length raw_target) qs) as [Hq|Hq].
  { split; [by apply extends_refl|]. exists []. rewrite bool_decide_eq_true_2 by auto. split_and!; [constructor|constructor|done]. }
  assert (Hqs : qs = e + 1) by (unfold qs in *; destruct (Z.ltb_spec e (str_length raw_target)); lia). clearbody qs. subst qs.
  set (query := sl_http_query_slice raw_target (e + 1) (str_length raw_target)).
  pose proof (kept_query_slice w raw_target target (e + 1) (str_length raw_target) Hk Hp ltac:(lia) ltac:(lia)) as Kq. fold query in Kq. rewrite <- Ht in Kq.
  assert (Hlen : str_length query = str_length raw_target - (e + 1)) by done. assert (Hqp : 0 < str_ptr query) by (cbn; lia).
  assert (Hne : text <> []). { intros E. pose proof (length_load_bytes (w_mem w) (str_ptr raw_target + (e + 1)) (str_length raw_target - (e + 1)) ltac:(lia)) as H. rewrite <- Ht, E in H. cbn in H. lia. }
  rewrite bool_decide_eq_false_2 by done. unfold mbind at 1, st_bind at 1, gets at 1.
  assert (Hcount : sl_http_query_pair_count (w_mem w) query = Z.of_nat (length parts)).
  { unfold sl_http_query_pair_count, parts. rewrite split_at_length. destruct Kq as (_ & _ & _ & ->). destruct (Z.eqb_spec (str_length query) 0); [lia|]. done. }
  rewrite Hcount. assert (Hpos : 0 < Z.of_nat (length parts)) by (unfold parts; rewrite split_at_length; lia).
  destruct (Z.eqb_spec (Z.of_nat (length parts)) 0); [lia|].
  destruct (Z.ltb_spec SL_HTTP_DEFAULT_MAX_QUERY_PARAMS (Z.of_nat (length parts))) as [Hcap|Hcap].
  { split; [by apply extends_refl|]. split_and!; [done|done|]. right. by left. }
  unfold sl_http_query_alloc_params. cbn [is_null orb]. unfold SL_HTTP_DEFAULT_MAX_QUERY_PARAMS in Hcap.
  pose proof (array_alloc_block (Z.of_nat (length parts)) SL_HTTP_QUERY_PARAM_SIZE SL_HTTP_QUERY_PARAM_ALIGNMENT w Hwf ltac:(size_lia) ltac:(by split) ltac:(by split) Hpos eq_refl eq_refl) as Ha.
  unfold mbind, st_bind, mret, st_ret, on_error, modify, fail.
  destruct (sl_arena_array_alloc REF (Z.of_nat (length parts)) SL_HTTP_QUERY_PARAM_SIZE SL_HTTP_QUERY_PARAM_ALIGNMENT REF w) as [[sl|c] w1].
  2: { destruct Ha as [-> Ha]. split; [by apply extends_refl|]. split_and!; [done|done|by left]. }
  destruct Ha as (X & _).
  pose proof (parse_pairs_spec (S (Z.to_nat (str_length query))) w1 query text 0 [] [] (ext_wf _ _ X) (kept_view_extends _ _ _ _ X Kq) Hqp ltac:(lia) ltac:(lia) ltac:(constructor) ltac:(constructor)) as H2.
  cbv zeta in H2. rewrite Z.add_0_r, Z.sub_0_r in H2. fold (str_val (w_mem w1) query) in H2.
  destruct (kept_view_extends _ _ _ _ X Kq) as (_ & _ & _ & Eq). rewrite Eq in H2. fold parts in H2.
  destruct (parse_pairs (S (Z.to_nat (str_length query))) REF query 0 [] w1) as [[params|c] w2].
  - destruct H2 as (X2 & ps & Hr & Hps & Hnd). split; [by eapply extends_trans|]. exists ps. by split_and!.
  - destruct H2 as (X2 & H2). destruct (reset_back w w2 Hwf (extends_trans _ _ _ X X2)) as [R1 R2]. split; [exact R1|]. split; [exact R2|]. split; [done|].
    destruct H2 as [H2|H2]; [by left|right; by right].
Qed.
End Pairs.

Module Demo.
#[export] Instance build0 : BuildConfig := assert_build.

Definition target0 : list Z := string_bytes "/a?x=1&y=%41+b&x=2".
Definition world0 : World :=
  {| w_mem := store (fun _ => 0) 9000 target0;
     w_arena := {| ar_base := 16384; ar_capacity := 1024; ar_offset := 0; ar_high_water := 0; ar_generation := 1 |} |}.
Definition raw0 : SlStr := sl_str_from_parts 9000 (Z.of_nat (length target0)).

(** The second [x] replaces the value of the first. *)
Lemma http_query_exact_witness :
  read_pairs [] (split_at ampersand (query_text target0)) = Some [(string_bytes "x", string_bytes "2"); (string_bytes "y", string_bytes "A b")] /\
  let '(r, w') := sl_http_query_parse REF raw0 REF world0 in
  exists q, r = Ok q /\ Forall2 (param_is w') (hq_params q) [(string_bytes "x", string_bytes "2"); (string_bytes "y", string_bytes "A b")].
Proof.
  split; [by vm_compute|]. assert (Hw : arena_wf (w_arena world0)) by (by split_and!).
  assert (Hk : kept_view world0 raw0 target0) by (split_and!; [split; [done|by right]|done|unfold outside_free, disjoint_ranges; cbn; lia|by vm_compute]).
  pose proof (http_query_exact raw0 target0 world0 Hw Hk eq_refl) as H. cbv zeta in H.
  destruct (sl_http_query_parse REF raw0 REF world0) as [r w'] eqn:E.
  assert (Hr : is_Some (match r with Ok q => Some q | Err _ => None end)).
  { pose proof (f_equal fst E) as E1. vm_compute in E1. subst r. by eexists. }
  destruct r as [q|c]; [|by destruct Hr]. exists q. split; [done|]. destruct H as (_ & params & Hp & _ & Hr2).
  rewrite bool_decide_eq_false_2 in Hr2 by (intros Ht; vm_compute in Ht; discriminate Ht). destruct Hr2 as [_ Hr2].
  assert (Hps : Some params = Some [(string_bytes "x", string_bytes "2"); (string_bytes "y", string_bytes "A b")]) by (rewrite <- Hr2; by vm_compute).
  by injection Hps as ->.
Defined.
End Demo.
