(* ===== verification/Frame.v ===== *)
(** Frames: memory a function may write besides the free part of the arena.

    A [frame] stands for the local arrays of a function, or for a result object of its
    caller; [FRAME_BYTES] is room for the largest of them.  What the caller holds lies
    outside both, and [grown] says that it stays. *)

From S2P Require Import Prelude Memory Status Arena Str Bytes Simd StrArena Sink Builder HttpMedia HttpAssemble.

Open Scope Z_scope.

Definition FRAME_BYTES : Z := 104.

(** A step on memory alone. *)
Definition in_memory {A} (c : ST mem A) : ST World A := zoom w_mem set_mem c.

Lemma written (f : mem -> mem) w : in_memory (modify f) w = (Ok tt, set_mem (f (w_mem w)) w).
Proof. done. Qed.

Section Frame.
Context {BC : BuildConfig} (frame : Z).

(** What a step may use: the free part of the arena, and the frame. *)
Record grown (w w' : World) : Prop := {
  gr_forward : forward w w';
  gr_others : forall q n, outside_free (w_arena w) q n -> disjoint_ranges q n frame FRAME_BYTES ->
    outside_free (w_arena w') q n /\ load_bytes (w_mem w') q n = load_bytes (w_mem w) q n;
}.

Lemma grown_refl w : arena_wf (w_arena w) -> grown w w.
Proof. intros H. split; [by apply forward_refl|done]. Qed.

Lemma grown_trans w1 w2 w3 : grown w1 w2 -> grown w2 w3 -> grown w1 w3.
Proof.
  intros [F1 O1] [F2 O2]. split; [by eapply forward_trans|]. intros q n Hq Hd. destruct (O1 q n Hq Hd) as [H1 E1].
  destruct (O2 q n H1 Hd) as [H2 E2]. split; [done|congruence].
Qed.

(** Bytes of the caller. *)
Definition held (w : World) (b : SlBytes) (vs : list Z) : Prop :=
  bytes_valid b /\ bytes_wf b /\ outside_free (w_arena w) (bytes_ptr b) (bytes_length b) /\
  disjoint_ranges (bytes_ptr b) (bytes_length b) frame FRAME_BYTES /\ bytes_val (w_mem w) b = vs.

Lemma held_grown w w' b vs : grown w w' -> held w b vs -> held w' b vs.
Proof.
  intros [_ O] (Hv & Hw & Ho & Hd & <-). destruct (O _ _ Ho Hd) as [H1 H2]. split_and!; [done..|exact H2].
Qed.

Lemma held_length w b vs : held w b vs -> Z.of_nat (length vs) = bytes_length b.
Proof. intros (_ & Hw & _ & _ & <-). apply length_load_bytes. apply Hw. Qed.

(** Texts of the caller. *)
Definition text_at (w : World) (v : SlStr) (l : list Z) : Prop :=
  text_view v /\ outside_free (w_arena w) (str_ptr v) (str_length v) /\
  disjoint_ranges (str_ptr v) (str_length v) frame FRAME_BYTES /\ str_val (w_mem w) v = l.

Lemma text_at_grown w w' v l : grown w w' -> text_at w v l -> text_at w' v l.
Proof. intros [_ O] (Hv & Ho & Hd & <-). destruct (O _ _ Ho Hd) as [H1 H2]. split_and!; [done..|exact H2]. Qed.

Definition frame_ok (w : World) : Prop :=
  0 < frame /\ frame + FRAME_BYTES <= UINTPTR_MAX /\ outside_free (w_arena w) frame FRAME_BYTES.

Lemma held_empty w : held w sl_bytes_empty [].
Proof.
  split_and!; [split; [done|by left]| | | |done]; unfold bytes_wf, outside_free, disjoint_ranges, sl_bytes_empty; cbn; [|lia|lia].
  split; [lia|]. split; [lia|]. unfold UINTPTR_MAX. lia.
Qed.

Lemma frame_grown w w' : forward w w' -> frame_ok w -> frame_ok w'.
Proof.
  intros [_ (H1 & H2 & _) H3] (F1 & F2 & F3). split_and!; [done..|]. by apply (outside_free_forward (w_arena w)).
Qed.

Lemma no_text w : text_at w sl_str_empty [].
Proof.
  split_and!; [split; [split; cbn; lia|cbn; lia|split; vm_compute; discriminate]| | |done]; unfold outside_free, disjoint_ranges; cbn; lia.
Qed.

(** Writing to the frame, or to a block that was free. *)
Lemma frame_write w m p n :
  arena_wf (w_arena w) -> frame <= p -> p + n <= frame + FRAME_BYTES -> same_outside p (p + n) (w_mem w) m -> grown w (set_mem m w).
Proof.
  intros Hwf H1 H2 Hm. split; [by split|]. intros q k Hq Hd. split; [done|]. eapply load_bytes_same; [exact Hm|]. unfold disjoint_ranges in *. lia.
Qed.

Lemma block_write w0 w m p n lo hi :
  grown w0 w -> (forall q k, outside_free (w_arena w0) q k -> disjoint_ranges p n q k) -> p <= lo -> hi <= p + n ->
  same_outside lo hi (w_mem w) m -> grown w0 (set_mem m w).
Proof.
  intros [F O] Hf H1 H2 Hm. split; [by apply forward_mem|]. intros q k Hq Hd. destruct (O q k Hq Hd) as [H3 H4]. split; [done|]. cbn. rewrite <- H4.
  eapply load_bytes_same; [exact Hm|]. specialize (Hf q k Hq). unfold disjoint_ranges in *. lia.
Qed.

Lemma fresh_block_grown p n w w' : fresh_block p n w w' -> forward w w' -> grown w w'.
Proof. intros [_ _ _ _ _ F6] Hf. split; [done|]. intros q k Hq _. by destruct (F6 q k Hq) as (_ & ? & ?). Qed.

Lemma alloc_block n w :
  arena_wf (w_arena w) -> is_size n -> 0 < n ->
  match sl_arena_alloc REF n 1 REF w with
  | (Ok p, w') => fresh_block p n w w' /\ forward w w'
  | (Err c, w') => w' = w /\ starved c
  end.
Proof.
  intros Hwf Hn Hp. pose proof (alloc_outcome n 1 w Hwf Hn ltac:(size_lia) ltac:(lia) eq_refl) as Ha.
  destruct (sl_arena_alloc REF n 1 REF w) as [[p|c] w'] eqn:E; [|done]. split; [|done]. by apply sl_arena_alloc_fresh in E as [_ ?]; [|done|size_lia|size_lia].
Qed.

(** A copy of a text into part of a block. *)
Lemma copy_into m p src n :
  disjoint_ranges p (Z.of_nat n) src (Z.of_nat n) ->
  load (copy_forward m p src n) p n = load m src n /\ same_outside p (p + Z.of_nat n) m (copy_forward m p src n).
Proof.
  intros Hd. apply copied_load. destruct n as [|n]; [by apply copied_nothing|]. apply copy_forward_copied. unfold disjoint_ranges in Hd. lia.
Qed.
End Frame.
