(* ===== verification/Http2Response.v ===== *)
(** Responses as HTTP/2 header lists (src/core/http2_mapping.c, the response half, and the
    stream adapter of src/core/http_response.c).

    The arrays of headers and fields are lists, with the pointers kept beside them.  The
    local variables whose address is taken, the builder's inline array and the two digit
    buffers, are a [frame] of memory. *)

From stdpp Require Import strings.
From S2P Require Import Prelude Memory Status Arena Str Bytes Simd StrArena Container Queue Loop Async Sink Builder Diag HttpResponse Stream StreamPump StreamMemory HttpWire HttpBackend HttpBody HttpMedia HttpParse HttpAssemble Http2Map Http2Request Frame.

Open Scope Z_scope.

(** * Reading a stream response *)

(** [chunks] and [chunk_count] are a list. *)
Record SlHttpResponseStreamReadable := { hr_chunks : list SlBytes; hr_chunk_index : Z; hr_chunk_offset : Z }.

(** The loop over the chunks is that of the memory reader. *)
Definition sl_http_response_stream_read (user : nullable) (stream : SlReadableStream) (adapter : SlHttpResponseStreamReadable)
    : SlStreamStatus * SlBytes * SlReadableStream * SlHttpResponseStreamReadable :=
  if is_null user then (SL_STREAM_STATUS_INVALID_ARGUMENT, no_bytes, stream, adapter) else
  let '(status, chunk, index, offset) :=
    sl_chunk_read (drop (Z.to_nat (hr_chunk_index adapter)) (hr_chunks adapter)) (hr_chunk_index adapter)
      (hr_chunk_offset adapter) (rd_max_chunk_bytes stream) in
  (status, chunk, stream, {| hr_chunks := hr_chunks adapter; hr_chunk_index := index; hr_chunk_offset := offset |}).

Definition sl_http_response_stream_readable_vtable (user : nullable) : SlReadableStreamVTable SlHttpResponseStreamReadable :=
  {| rv_read := Some (sl_http_response_stream_read user); rv_close := None; rv_fail := None; rv_abort := None |}.

Definition sl_http_response_stream_readable_init (adapter : nullable) (response : option SlHttpResponse)
    (options : option SlStreamOptions) (out_stream : nullable) : ST SlHttpResponseStreamReadable SlReadableStream :=
  match response with
  | None => fail SL_STATUS_INVALID_ARGUMENT
  | Some response =>
      return_if is_null adapter || is_null out_stream with SL_STATUS_INVALID_ARGUMENT ;;
      return_if negb (is_stream response) with SL_STATUS_WRONG_RESOURCE_KIND ;;
      lift (sl_http_response_stream_validate_and_measure response) ;;
      modify (fun _ => {| hr_chunks := rp_stream_chunks response; hr_chunk_index := 0; hr_chunk_offset := 0 |}) ;;
      lift (sl_readable_stream_init out_stream (Some (sl_http_response_stream_readable_vtable adapter)) options)
  end.

(** * The mapping *)

Definition sl_http2_mapping_status_supported (status : Z) : bool :=
  existsb (Z.eqb status) [200; 201; 202; 204; 304; 400; 404; 405; 408; 413; 415; 417; 500; 501].

Definition sl_http2_mapping_status_has_no_body (status : Z) : bool := (status =? 204) || (status =? 304).

(** 401, 403 and 503 can be answered over HTTP/1.1 only. *)
Example unauthorized_fails_over_http2 :
  map (fun status => (sl_http_response_reason status, sl_http2_mapping_status_supported status)) [401; 403; 503] =
  [(Some "Unauthorized"%string, false); (Some "Forbidden"%string, false); (Some "Service Unavailable"%string, false)].
Proof. reflexivity. Qed.

(** [sizeof(SlHttp2HeaderField)] and its alignment. *)
Definition SL_HTTP2_HEADER_FIELD_SIZE : Z := 40.
Definition SL_HTTP2_HEADER_FIELD_ALIGNMENT : Z := 8.

(** The frame: the builder's inline array, [status_digits] and [length_digits]. *)
Definition STATUS_DIGITS : Z := 64.
Definition LENGTH_DIGITS : Z := 72.

Section Response.
Context {BC : BuildConfig} {SC : SimdConfig} {RO : ReadOnlyData} (tokens : Z -> SlCancellationToken) (frame : Z).

Definition sl_http2_response_header_managed (m : mem) (name : SlStr) : bool :=
  sl_str_equal_ci_ascii m name (literal "connection") ||
  sl_str_equal_ci_ascii m name (literal "keep-alive") ||
  sl_str_equal_ci_ascii m name (literal "content-type") ||
  sl_str_equal_ci_ascii m name (literal "transfer-encoding") ||
  sl_str_equal_ci_ascii m name (literal "content-length") ||
  sl_str_equal_ci_ascii m name (literal "upgrade") ||
  sl_str_equal_ci_ascii m name (literal "proxy-connection").

Definition sl_http2_copy_h2_header (arena : nullable) (name value : SlStr) (out : nullable) : ST World SlHttp2HeaderField :=
  return_if is_null arena || is_null out with SL_STATUS_INVALID_ARGUMENT ;;
  copied_name ← sl_str_copy_view_to_arena arena name REF ;
  copied_value ← sl_str_copy_view_to_arena arena value REF ;
  mret {| h2_name := copied_name; h2_value := copied_value; h2_sensitive := false |}.

(** The [for (;;)]: every read but the last takes at least one byte. *)
Fixpoint collect_stream (fuel : nat) (readable : SlReadableStream) (adapter : SlHttpResponseStreamReadable) : ST BuilderSys unit :=
  match fuel with
  | O => mret tt
  | S fuel =>
      let '(stream_status, read, readable, adapter) :=
        sl_readable_stream_read tokens (Some (sl_http_response_stream_readable_vtable REF)) REF REF readable adapter in
      if status_is stream_status SL_STREAM_STATUS_EOF then mret tt else
      return_if negb (status_is stream_status SL_STREAM_STATUS_OK) with sl_stream_status_to_status stream_status ;;
      sl_byte_builder_append_bytes REF (rr_chunk read) ;;
      collect_stream fuel readable adapter
  end.

Definition stream_rounds (chunks : list SlBytes) : nat := S (Z.to_nat (fold_right (fun c n => bytes_length c + n) 0 chunks)).

Definition response_stream_options (response : SlHttpResponse) (max_body_bytes : Z) : SlStreamOptions :=
  {| so_max_chunk_bytes := if max_body_bytes =? 0 then SL_STREAM_DEFAULT_MAX_CHUNK_BYTES else max_body_bytes;
     so_max_buffered_bytes := max_body_bytes;
     so_max_chunks := if Z.of_nat (length (rp_stream_chunks response)) =? 0 then 1 else Z.of_nat (length (rp_stream_chunks response));
     so_cancellation := so_cancellation sl_stream_default_options |}.

Definition no_adapter : SlHttpResponseStreamReadable := {| hr_chunks := []; hr_chunk_index := 0; hr_chunk_offset := 0 |}.

Definition sl_http2_response_body (arena : nullable) (response : option SlHttpResponse) (suppress_body : bool)
    (max_body_bytes : Z) (out_body : nullable) : ST World SlBytes :=
  match response with
  | None => fail SL_STATUS_INVALID_ARGUMENT
  | Some response =>
      return_if is_null arena || is_null out_body with SL_STATUS_INVALID_ARGUMENT ;;
      if suppress_body || sl_http2_mapping_status_has_no_body (rp_status response) then mret sl_bytes_empty else
      if negb (is_stream response) then
        return_if negb (sl_http2_mapping_valid_bytes (rp_body response)) || (max_body_bytes <? bytes_length (rp_body response))
          with SL_STATUS_CAPACITY_EXCEEDED ;;
        mret (rp_body response)
      else
        with_local_builder frame
          (sl_byte_builder_init_arena REF arena 256 max_body_bytes ;;
           match sl_http_response_stream_readable_init REF (Some response) (Some (response_stream_options response max_body_bytes)) REF no_adapter with
           | (Err c, _) => fail c
           | (Ok readable, adapter) => collect_stream (stream_rounds (rp_stream_chunks response)) readable adapter
           end ;;
           gets (fun s => sl_byte_builder_view REF (bs_builder s)))
  end.

(** The loop over the caller's headers; [fields] are those stored so far. *)
Fixpoint copy_response_headers (arena : nullable) (headers : list SlHttpHeader) (fields : list SlHttp2HeaderField)
    : ST World (list SlHttp2HeaderField) :=
  match headers with
  | [] => mret fields
  | header :: headers =>
      m ← gets w_mem ;
      return_if negb (sl_http2_header_name_valid m (hh_name header)) || negb (sl_http2_header_value_valid m (hh_value header)) ||
                sl_http2_response_header_managed m (hh_name header) with SL_STATUS_INVALID_ARGUMENT ;;
      field ← sl_http2_copy_h2_header arena (hh_name header) (hh_value header) REF ;
      copy_response_headers arena headers (fields ++ [field])
  end.

(** The storage of the fields. *)
Definition alloc_fields (arena : nullable) (response : SlHttpResponse) (no_body_status : bool) : ST World Z :=
  capacity ← lift (sl_checked_add3_size (Z.of_nat (length (rp_headers response))) 1
                     (if str_length (rp_content_type response) =? 0 then 0 else 1) REF) ;
  capacity ← lift (sl_checked_add_size capacity (if no_body_status then 0 else 1) REF) ;
  field_bytes ← lift (sl_checked_array_size capacity SL_HTTP2_HEADER_FIELD_SIZE REF) ;
  sl_arena_alloc arena field_bytes SL_HTTP2_HEADER_FIELD_ALIGNMENT REF.

Definition sl_http2_response_to_headers (arena : nullable) (response : option SlHttpResponse) (suppress_body : bool)
    (max_body_bytes : Z) (out_headers out_body : nullable) : ST World (Z * list SlHttp2HeaderField * SlBytes) :=
  match response with
  | None => fail SL_STATUS_INVALID_ARGUMENT
  | Some response =>
      m ← gets w_mem ;
      return_if is_null arena || is_null out_headers || is_null out_body ||
                negb (bool_decide (rp_headers response = [])) && is_null (rp_headers_ptr response) ||
                negb (sl_http2_mapping_status_supported (rp_status response)) ||
                negb (sl_http2_header_value_valid m (rp_content_type response)) with SL_STATUS_INVALID_ARGUMENT ;;
      let no_body_status := sl_http2_mapping_status_has_no_body (rp_status response) in
      body ← sl_http2_response_body arena (Some response) suppress_body max_body_bytes REF ;
      storage ← alloc_fields arena response no_body_status ;
      status_value ← in_memory (sl_string_format_u64 (frame + STATUS_DIGITS) 8 (rp_status response) REF) ;
      status_field ← sl_http2_copy_h2_header arena (literal ":status") status_value REF ;
      type_fields ← (if negb no_body_status && negb (str_length (rp_content_type response) =? 0)
                     then field ← sl_http2_copy_h2_header arena (literal "content-type") (rp_content_type response) REF ; mret [field]
                     else mret []) ;
      fields ← copy_response_headers arena (rp_headers response) (status_field :: type_fields) ;
      fields ← (if negb no_body_status then
                  length_value ← in_memory (sl_string_format_size (frame + LENGTH_DIGITS) 32
                    (if suppress_body then bytes_length (rp_body response) else bytes_length body) REF) ;
                  field ← sl_http2_copy_h2_header arena (literal "content-length") length_value REF ;
                  mret (fields ++ [field])
                else mret fields) ;
      mret (storage, fields, body)
  end.
End Response.

(** * The body *)

Section Body.
Context {BC : BuildConfig} {SC : SimdConfig} {RO : ReadOnlyData} (tokens : Z -> SlCancellationToken) (frame : Z).

Local Abbreviation grown := (Frame.grown frame).
Local Abbreviation held := (Frame.held frame).
Local Abbreviation text_at := (Frame.text_at frame).
Local Abbreviation frame_ok := (Frame.frame_ok frame).
Local Abbreviation grown_trans := (Frame.grown_trans frame).
Local Abbreviation text_at_grown := (Frame.text_at_grown frame).
Local Abbreviation held_grown := (Frame.held_grown frame).
Local Abbreviation held_length := (Frame.held_length frame).
Local Abbreviation held_empty := (Frame.held_empty frame).
Local Abbreviation frame_grown := (Frame.frame_grown frame).

(** The builder of the body: an arena block that grows up to [mx]. *)
Record collecting (w0 : World) (mx : Z) (vs : list Z) (s : BuilderSys) : Prop := {
  cg_wf : builder_wf s;
  cg_storage : bb_storage (bs_builder s) = SL_BUILDER_STORAGE_ARENA;
  cg_max : bb_max_capacity (bs_builder s) = mx;
  cg_contents : contents s = vs;
  cg_forward : forward w0 (bs_world s);
  cg_foreign : forall q n, outside_free (w_arena w0) q n -> foreign s q n;
  cg_others : forall q n, outside_free (w_arena w0) q n -> disjoint_ranges q n frame SL_BYTE_BUILDER_SMALL_CAPACITY ->
    load_bytes (bs_mem s) q n = load_bytes (w_mem w0) q n;
}.

Lemma collecting_grown w0 mx vs s : collecting w0 mx vs s -> grown w0 (bs_world s).
Proof.
  intros [H1 H2 H3 H4 H5 H6 H7]. split; [done|]. intros q n Hq Hd. split; [by apply (H6 q n Hq)|]. apply H7; [done|].
  unfold disjoint_ranges, FRAME_BYTES, SL_BYTE_BUILDER_SMALL_CAPACITY in *; lia.
Qed.

Lemma init_outcome mx w :
  arena_wf (w_arena w) -> is_size mx ->
  match sl_byte_builder_init_arena REF REF 256 mx {| bs_world := w; bs_builder := local_builder frame |} with
  | (Ok _, s) => 256 <= mx /\ collecting w mx [] s
  | (Err c, s) => bs_world s = w /\ (c = SL_STATUS_INVALID_ARGUMENT /\ mx < 256 \/ starved c)
  end.
Proof.
  intros Hwf Hmx. destruct (Z.ltb_spec mx 256) as [Hlt|Hge].
  { unfold sl_byte_builder_init_arena. cbn [is_null orb]. destruct (Z.ltb_spec mx 256); [|lia]. split; [done|by left]. }
  pose proof (alloc_outcome 256 1 w Hwf ltac:(size_lia) ltac:(size_lia) ltac:(done) eq_refl) as Ha.
  destruct (sl_arena_alloc REF 256 1 REF w) as [[p|c] w1] eqn:E.
  2: { unfold sl_byte_builder_init_arena, in_arena, zoom. unfold_st. cbn [is_null orb]. destruct (Z.ltb_spec mx 256); [lia|].
       cbn. rewrite E. destruct Ha as [-> Ha]. split; [done|by right]. }
  pose proof E as E1. apply sl_arena_alloc_ok in E1 as (_ & _ & Hpost); [|done|size_lia|size_lia].
  assert (Hroom : ar_base (w_arena w) <> 0 /\ ar_offset (w_arena w) + 256 <= ar_capacity (w_arena w)).
  { pose proof (arena_padding_bound (w_arena w) 1 ltac:(lia)). pose proof Hwf as Hw. unfold arena_wf in Hw. destruct Hpost. lia. }
  destruct (init_arena_ok 256 mx frame w Hwf ltac:(lia) ltac:(size_lia) ltac:(done)) as (b & Eb & B1 & B2 & B3 & B4 & _ & _ & _ & B5).
  rewrite Eb. split; [lia|].
  pose proof E as E2. apply sl_arena_alloc_fresh in E2 as [_ [_ _ _ _ _ F6]]; [|done|size_lia|size_lia].
  assert (Hx : bb_max_capacity (bs_builder b) = mx /\ forward w (bs_world b) /\ forall q n, outside_free (w_arena w) q n -> foreign b q n).
  { revert Eb. unfold sl_byte_builder_init_arena, in_arena, zoom, publish_builder. unfold_st. cbn [is_null orb].
    destruct (Z.ltb_spec mx 256); [lia|]. cbn. rewrite E. intros [= <-]. split; [done|]. split; [by apply forward_mem|].
    intros q n Hq. destruct (F6 q n Hq) as (Hd & _ & Ho). split; [by intros _|]. change (disjoint_ranges q n p 256). unfold disjoint_ranges in *. lia. }
  split; [done|done|apply Hx|done|apply Hx|apply Hx|]. intros q n Hq Hd. by apply B5.
Qed.

(** The memory reader over the same world: its writer's buffer is the free part. *)
Definition free_world (w : World) : AdapterWorld :=
  {| aw_mem := w_mem w; aw_reader := {| mr_chunks := []; mr_chunk_index := 0; mr_chunk_offset := 0 |};
     aw_memory := {| mw_buffer := ar_base (w_arena w) + ar_offset (w_arena w); mw_capacity := ar_capacity (w_arena w) - ar_offset (w_arena w);
                     mw_length := 0; mw_high_water_mark := 0 |};
     aw_list := {| cl_chunks := []; cl_capacity := 0; cl_total_bytes := 0; cl_max_total_bytes := 0 |} |}.

Lemma held_apart w b vs : held w b vs -> apart frame (free_world w) b.
Proof.
  intros (Hv & Hw & Ho & Hd & _). split_and!; [done|done|exact Ho|].
  unfold disjoint_ranges, FRAME_BYTES, SCRATCH_BYTES, SL_BYTE_BUILDER_SMALL_CAPACITY in *. lia.
Qed.

Definition unread (m : mem) (a : SlHttpResponseStreamReadable) : list Z :=
  chunk_bytes m (drop (Z.to_nat (hr_chunk_index a)) (hr_chunks a)) (hr_chunk_offset a).

Record readable_at (w0 : World) (r : SlReadableStream) (a : SlHttpResponseStreamReadable) : Prop := {
  ra_state : rd_state r = SL_STREAM_STATE_OPEN;
  ra_token : rd_cancellation r = 0;
  ra_max : 0 < rd_max_chunk_bytes r;
  ra_place : 0 <= hr_chunk_index a /\ 0 <= hr_chunk_offset a;
  ra_chunks : Forall (apart frame (free_world w0)) (hr_chunks a);
}.

Lemma response_read w0 r a :
  readable_at w0 r a ->
  let '(status, read, r', a') := sl_readable_stream_read tokens (Some (sl_http_response_stream_readable_vtable REF)) REF REF r a in
  status = SL_STREAM_STATUS_EOF /\ unread (w_mem w0) a = [] \/
  status = SL_STREAM_STATUS_OK /\ readable_at w0 r' a' /\ apart frame (free_world w0) (rr_chunk read) /\ 0 < bytes_length (rr_chunk read) /\
  unread (w_mem w0) a = bytes_val (w_mem w0) (rr_chunk read) ++ unread (w_mem w0) a'.
Proof.
  intros [Hs Ht Hm [Hi Ho] Hc]. unfold sl_readable_stream_read, sl_http_response_stream_read. cbn [is_null orb rv_read sl_http_response_stream_readable_vtable mbind option_bind].
  rewrite Hs, Ht. cbn [sl_stream_state_read_status]. change (sl_stream_status_from_cancellation tokens 0) with SL_STREAM_STATUS_OK.
  change (status_is SL_STREAM_STATUS_OK SL_STREAM_STATUS_OK) with true. cbn [negb]. unfold sl_http_response_stream_read. cbn [is_null].
  set (rest := drop (Z.to_nat (hr_chunk_index a)) (hr_chunks a)).
  pose proof (sl_chunk_read_spec frame (w_mem w0) (free_world w0) (rd_max_chunk_bytes r) rest (hr_chunk_index a) (hr_chunk_offset a)
    (Forall_drop _ _ _ Hc) Hi Ho Hm) as Hr.
  destruct (sl_chunk_read rest _ _ _) as [[[status chunk] index'] offset']. destruct Hr as (R1 & R2 & R3 & R4).
  assert (Edrop : drop (Z.to_nat (index' - hr_chunk_index a)) rest = drop (Z.to_nat index') (hr_chunks a)) by (subst rest; rewrite drop_drop; f_equal; lia).
  rewrite Edrop in R4. destruct status; try done.
  - destruct R4 as (Ha & Hl & E). assert (Hv : sl_stream_bytes_valid chunk = true) by (destruct Ha as ([? ?] & _); unfold sl_stream_bytes_valid; lia).
    change (status_is SL_STREAM_STATUS_OK SL_STREAM_STATUS_OK) with true. rewrite Hv. cbn [negb orb]. destruct (Z.ltb_spec (rd_max_chunk_bytes r) (bytes_length chunk)); [lia|].
    destruct (Z.eqb_spec (bytes_length chunk) 0); [lia|]. cbn [negb]. right. split; [done|]. split; [by split|]. split; [done|]. split; [cbn; lia|exact E].
  - left. split; [done|]. apply R4.
Qed.
Lemma built_length s : builder_wf s -> Z.of_nat (length (contents s)) = bb_length (bs_builder s).
Proof. intros Hwf. apply length_load_bytes. pose proof (bw_bounds _ Hwf). lia. Qed.

(** An append that is too long for the maximum. *)
Lemma append_refused bytes s :
  builder_wf s -> bb_storage (bs_builder s) = SL_BUILDER_STORAGE_ARENA -> bytes_valid bytes -> bytes_wf bytes ->
  settled s (bytes_ptr bytes) (bytes_length bytes) -> bb_max_capacity (bs_builder s) < bb_length (bs_builder s) + bytes_length bytes ->
  exists c s', sl_byte_builder_append_bytes REF bytes s = (Err c, s') /\ bs_world s' = bs_world s /\ (c = SL_STATUS_CAPACITY_EXCEEDED \/ starved c).
Proof.
  intros Hwf Hst Hv Hw Hs Hmax. pose proof (append_bytes_spec bytes s Hwf Hv Hw Hs) as Ha. pose proof (bw_bounds _ Hwf) as Hb.
  destruct (sl_byte_builder_append_bytes REF bytes s) as [[[]|c] s'] eqn:E.
  { exfalso. destruct Ha as [A1 A2 _ [_ A4]]. pose proof (built_length s' A1) as L1. pose proof (built_length s Hwf) as L0.
    rewrite A2, length_app in L1. pose proof (bw_bounds _ A1) as B. unfold bytes_val in L1. rewrite Nat2Z.inj_add, length_load_bytes in L1 by apply Hv. lia. }
  exists c, s'. split; [done|]. split; [apply Ha|]. revert E. unfold sl_byte_builder_append_bytes, sl_byte_builder_validate_span. unfold_st.
  rewrite initialized by done. cbn [negb]. destruct Hv as [Hl Hv]. destruct (Z.eqb_spec (bytes_length bytes) 0); [lia|]. cbn [negb].
  destruct (Z.eqb_spec (bytes_ptr bytes) 0); [lia|]. cbn [andb]. assert (Hn : is_size (bytes_length bytes)) by (destruct Hw as (? & ? & ?); size_lia).
  destruct (decide (bb_length (bs_builder s) + bytes_length bytes <= SIZE_MAX)) as [Hsum|Hsum].
  - destruct (reserve_outcome (bytes_length bytes) s Hwf Hn ltac:(size_lia)) as [_ Hr]. specialize (Hr Hmax).
    destruct (sl_byte_builder_reserve REF (bytes_length bytes) s) as [[[]|e] s1]; [done|]. injection Hr as ->. intros [= <- _]. by left.
  - unfold sl_byte_builder_reserve. unfold_st. rewrite initialized by done. cbn [negb]. rewrite checked_add_spec by (done || size_lia). unfold checked.
    destruct (Z.leb_spec (bb_length (bs_builder s) + bytes_length bytes) SIZE_MAX); [lia|]. intros [= <- _]. right. by right.
Qed.

(** One append to what is being collected. *)
Lemma collect_append w0 mx vs s b :
  collecting w0 mx vs s -> apart frame (free_world w0) b ->
  let all := vs ++ bytes_val (w_mem w0) b in
  match sl_byte_builder_append_bytes REF b s with
  | (Ok _, s') => collecting w0 mx all s'
  | (Err c, s') => grown w0 (bs_world s') /\ (c = SL_STATUS_CAPACITY_EXCEEDED /\ mx < Z.of_nat (length all) \/ starved c)
  end.
Proof.
  intros Hc (Hv & Hw & Ho & Hd) all. pose proof (built_length _ (cg_wf _ _ _ _ Hc)) as Hlen. rewrite (cg_contents _ _ _ _ Hc) in Hlen.
  pose proof (cg_foreign _ _ _ _ Hc _ _ Ho) as Hfo. pose proof (cg_others _ _ _ _ Hc _ _ Ho Hd) as Hload.
  assert (Hcl : Z.of_nat (length (bytes_val (w_mem w0) b)) = bytes_length b) by (apply length_load_bytes, Hv).
  destruct (Z.le_gt_cases (bb_length (bs_builder s) + bytes_length b) mx) as [Hfit|Hbig].
  - pose proof (append_outcome b s (cg_wf _ _ _ _ Hc) (cg_storage _ _ _ _ Hc) Hv Hw (proj1 Hfo) ltac:(rewrite (cg_max _ _ _ _ Hc); lia)) as Ha.
    destruct (sl_byte_builder_append_bytes REF b s) as [[[]|c] s1].
    2: { destruct Ha as [-> Ha]. split; [by eapply collecting_grown|by right]. }
    destruct Ha as [[A1 A2 A3 [A4 A5]] Hfw]. destruct Hc as [C1 C2 C3 C4 C5 C6 C7]. split; [done|congruence|congruence| |by eapply forward_trans| |].
    + unfold all. rewrite A2, C4. f_equal. exact Hload.
    + intros q n Hq. by apply A3, C6.
    + intros q n Hq Hdq. destruct (A3 q n (C6 q n Hq)) as [_ ->]. by apply C7.
  - destruct (append_refused b s (cg_wf _ _ _ _ Hc) (cg_storage _ _ _ _ Hc) Hv Hw (proj1 Hfo) ltac:(rewrite (cg_max _ _ _ _ Hc); lia)) as (c & s1 & -> & -> & Hcode).
    split; [by eapply collecting_grown|]. destruct Hcode as [->|Hcode]; [left|by right]. split; [done|]. unfold all. rewrite length_app. lia.
Qed.

Lemma collected_fits w0 mx vs s : collecting w0 mx vs s -> Z.of_nat (length vs) <= mx.
Proof.
  intros Hc. pose proof (built_length _ (cg_wf _ _ _ _ Hc)) as Hlen. rewrite (cg_contents _ _ _ _ Hc) in Hlen.
  pose proof (bw_bounds _ (cg_wf _ _ _ _ Hc)) as Hb. rewrite (cg_max _ _ _ _ Hc) in Hb. lia.
Qed.

Lemma collect_outcome w0 mx fuel r a vs s :
  readable_at w0 r a -> collecting w0 mx vs s -> (length (unread (w_mem w0) a) < fuel)%nat ->
  let all := vs ++ unread (w_mem w0) a in
  match collect_stream tokens fuel r a s with
  | (Ok _, s') => Z.of_nat (length all) <= mx /\ collecting w0 mx all s'
  | (Err c, s') => grown w0 (bs_world s') /\ (c = SL_STATUS_CAPACITY_EXCEEDED /\ mx < Z.of_nat (length all) \/ starved c)
  end.
Proof.
  revert r a vs s. induction fuel as [|fuel IH]; intros r a vs s Hr Hc Hf all; [lia|]. cbn [collect_stream].
  pose proof (response_read w0 r a Hr) as Hread. destruct (sl_readable_stream_read _ _ _ _ r a) as [[[status read] r'] a'].
  destruct Hread as [[-> He]|(-> & Hr' & Hap & Hpos & He)].
  { subst all. rewrite He, app_nil_r. change (status_is SL_STREAM_STATUS_EOF SL_STREAM_STATUS_EOF) with true. split; [by eapply collected_fits|done]. }
  change (status_is SL_STREAM_STATUS_OK SL_STREAM_STATUS_EOF) with false. change (status_is SL_STREAM_STATUS_OK SL_STREAM_STATUS_OK) with true. cbn [negb].
  pose proof (collect_append w0 mx vs s _ Hc Hap) as Ha. cbv zeta in Ha. unfold mbind at 1, st_bind at 1.
  assert (Hcl : Z.of_nat (length (bytes_val (w_mem w0) (rr_chunk read))) = bytes_length (rr_chunk read)) by (apply length_load_bytes, Hap).
  rewrite He, length_app in Hf. subst all. rewrite He. destruct (sl_byte_builder_append_bytes REF (rr_chunk read) s) as [[[]|c] s1].
  - specialize (IH r' a' _ s1 Hr' Ha ltac:(lia)). cbv zeta in IH. rewrite <- app_assoc in IH. exact IH.
  - destruct Ha as [Hg [[-> Hlt]|Hst]]; (split; [done|]); [left|by right]. split; [done|]. rewrite !length_app in *. lia.
Qed.
(** * The descriptor *)

Definition h2_response_literals : list string :=
  [":status"; "content-type"; "content-length"; "connection"; "keep-alive"; "transfer-encoding"; "upgrade"; "proxy-connection"]%string.

(** A response and what its views hold. *)
Record response_is (w : World) (response : SlHttpResponse) (ct : list Z) (headers : list field) (body : list Z)
    (chunks : list (list Z)) : Prop := {
  ri_wf : arena_wf (w_arena w);
  ri_frame : frame_ok w;
  ri_status : 0 <= rp_status response < 2 ^ 16;
  ri_literals : forall l, l ∈ h2_response_literals -> 0 < rodata l /\ text_at w (literal l) (string_bytes l);
  ri_content_type : text_at w (rp_content_type response) ct;
  ri_headers : Forall2 (fun h f => text_at w (hh_name h) (fst f) /\ text_at w (hh_value h) (snd f)) (rp_headers response) headers;
  ri_count : is_size (Z.of_nat (length headers));
  ri_body : held w (rp_body response) body;
  ri_chunks : Forall2 (held w) (rp_stream_chunks response) chunks;
  ri_arrays : (rp_headers response <> [] -> rp_headers_ptr response = REF) /\
              (rp_stream_chunks response <> [] -> rp_stream_ptr response = REF);
}.

Definition has_no_body (response : SlHttpResponse) : bool := sl_http2_mapping_status_has_no_body (rp_status response).

Definition whole_body (response : SlHttpResponse) (body : list Z) (chunks : list (list Z)) : list Z :=
  if is_stream response then mjoin chunks else body.

(** The body goes out. *)
Definition sends (response : SlHttpResponse) (suppress : bool) : bool := negb (suppress || has_no_body response).

Definition sent_body (response : SlHttpResponse) (suppress : bool) (body : list Z) (chunks : list (list Z)) : list Z :=
  if sends response suppress then whole_body response body chunks else [].

(** A stream needs the builder's first block. *)
Definition block_fits (response : SlHttpResponse) (suppress : bool) (mx : Z) : bool :=
  negb (sends response suppress && is_stream response && (mx <? 256)).

Lemma chunks_unread w cs bs : Forall2 (held w) cs bs -> chunk_bytes (w_mem w) cs 0 = mjoin bs.
Proof.
  intros H. assert (E : map (bytes_val (w_mem w)) cs = bs) by (induction H as [|c b cs bs (_ & _ & _ & _ & Hc) _ IH]; [done|]; cbn; by rewrite Hc, IH).
  rewrite <- E. by destruct cs.
Qed.

Lemma chunks_total w cs bs : Forall2 (held w) cs bs -> fold_right (fun c n => bytes_length c + n) 0 cs = Z.of_nat (length (mjoin bs)).
Proof.
  induction 1 as [|c b cs bs Hc _ IH]; [done|]. cbn [fold_right]. rewrite IH. change (mjoin (b :: bs)) with (b ++ mjoin bs).
  rewrite length_app, <- (held_length _ _ _ Hc). lia.
Qed.

Lemma held_caller w b vs : held w b vs -> caller_view frame 0 0 w b vs.
Proof.
  intros (Hv & Hw & Ho & Hd & E). split_and!; [done..| |]; unfold disjoint_ranges, FRAME_BYTES, SL_BYTE_BUILDER_SMALL_CAPACITY in *; lia.
Qed.

(** What has been collected, as the view the builder gives. *)
Lemma collected_held w mx vs s :
  collecting w mx vs s -> frame_ok w -> held (bs_world s) (sl_byte_builder_view REF (bs_builder s)) vs.
Proof.
  intros Hc (_ & _ & Hf). pose proof (cg_wf _ _ _ _ Hc) as Hw. pose proof (view_contents _ Hw) as Hvc. rewrite (cg_contents _ _ _ _ Hc) in Hvc.
  pose proof (bw_bounds _ Hw) as Hbb. pose proof (bw_ptr _ Hw) as (P1 & P2 & P3). pose proof (bw_settled _ Hw (cg_storage _ _ _ _ Hc)) as Hset.
  destruct (cg_foreign _ _ _ _ Hc frame FRAME_BYTES Hf) as [_ Hdf].
  revert Hvc. unfold sl_byte_builder_view. cbn [is_null orb]. destruct (Z.eqb_spec (bb_length (bs_builder s)) 0) as [E0|E0].
  { intros Hvc. rewrite <- Hvc. apply held_empty. }
  destruct (Z.eqb_spec (sl_byte_builder_data (bs_builder s)) 0); [lia|]. intros Hvc. split_and!; [split; cbn; lia| | | |exact Hvc]; cbn.
  - unfold bytes_wf. cbn. lia.
  - eapply outside_free_sub; [exact Hset|lia|lia].
  - unfold disjoint_ranges in *. lia.
Qed.

(** The stream of a response, opened. *)
Lemma stream_opened w response ct headers body chunks mx :
  response_is w response ct headers body chunks -> is_stream response = true -> has_no_body response = false -> 256 <= mx ->
  match sl_http_response_stream_readable_init REF (Some response) (Some (response_stream_options response mx)) REF no_adapter with
  | (Ok r, a) => readable_at w r a /\ unread (w_mem w) a = mjoin chunks
  | (Err c, _) => starved c
  end.
Proof.
  intros Hr Hst Hnb Hmx. unfold sl_http_response_stream_readable_init, sl_http_response_stream_validate_and_measure. unfold_st. cbn [is_null orb].
  unfold is_stream in *. rewrite Hst. cbn [negb]. destruct (ri_arrays _ _ _ _ _ _ Hr) as [_ Harr].
  assert (Hp : is_null (rp_stream_ptr response) && negb (bool_decide (rp_stream_chunks response = [])) = false).
  { destruct (bool_decide_reflect (rp_stream_chunks response = [])) as [|Hne]; [by rewrite andb_false_r|]. by rewrite (Harr Hne). }
  rewrite Hp. change (sl_http_response_status_has_no_body (rp_status response)) with (has_no_body response). rewrite Hnb.
  assert (Hcv : Forall2 (caller_view frame 0 0 w) (rp_stream_chunks response) chunks) by (eapply Forall2_impl; [apply Hr|apply held_caller]).
  pose proof (measure_spec frame 0 0 w false _ _ 0 Hcv ltac:(size_lia)) as Hm. cbv zeta in Hm. rewrite Hm.
  destruct (_ <=? SIZE_MAX); [|by right]. cbn. assert (Hz : (mx =? 0) = false) by lia. split.
  - split; cbn; rewrite ?Hz; [done|done|lia|lia|].
    apply Forall_forall. intros c Hc. apply list_elem_of_lookup in Hc as [i Hi]. destruct (Forall2_lookup_l _ _ _ _ _ (ri_chunks _ _ _ _ _ _ Hr) Hi) as (b & _ & Hb).
    by eapply held_apart.
  - unfold unread. cbn. rewrite drop_0. apply chunks_unread, Hr.
Qed.

Lemma response_body_outcome w response ct headers body chunks suppress mx :
  response_is w response ct headers body chunks -> is_size mx ->
  let sent := sent_body response suppress body chunks in
  match sl_http2_response_body tokens frame REF (Some response) suppress mx REF w with
  | (Ok b, w') => grown w w' /\ held w' b sent /\ block_fits response suppress mx = true /\ Z.of_nat (length sent) <= mx
  | (Err c, w') => grown w w' /\
      (c = SL_STATUS_INVALID_ARGUMENT /\ block_fits response suppress mx = false \/
       c = SL_STATUS_CAPACITY_EXCEEDED /\ mx < Z.of_nat (length sent) \/ starved c)
  end.
Proof.
  intros Hr Hmx sent. pose proof (ri_wf _ _ _ _ _ _ Hr) as Hwf. unfold sl_http2_response_body. cbn [is_null orb].
  fold (has_no_body response). unfold sent, sent_body, block_fits, sends.
  destruct (suppress || has_no_body response) eqn:Es; cbn [negb andb].
  { split; [by apply grown_refl|]. split; [apply held_empty|]. split; [done|]. cbn. size_lia. }
  unfold whole_body. destruct (is_stream response) eqn:Est; cbn [negb andb].
  2: { pose proof (ri_body _ _ _ _ _ _ Hr) as Hb. rewrite (held_length _ _ _ Hb).
       assert (Hv : sl_http2_mapping_valid_bytes (rp_body response) = true) by (destruct Hb as ([? ?] & _); unfold sl_http2_mapping_valid_bytes; lia).
       rewrite Hv. cbn [negb orb]. destruct (Z.ltb_spec mx (bytes_length (rp_body response))).
       - split; [by apply grown_refl|]. right. by left.
       - split; [by apply grown_refl|]. split; [done|]. split; [done|lia]. }
  apply orb_false_iff in Es as [-> Hnb]. unfold with_local_builder. pose proof (init_outcome mx w Hwf Hmx) as Hi. unfold mbind, st_bind.
  destruct (sl_byte_builder_init_arena REF REF 256 mx _) as [[[]|c] s].
  2: { destruct Hi as [-> Hi]. split; [by apply grown_refl|]. destruct Hi as [[-> Hlt]|Hst]; [left|by right; right]. split; [done|]. destruct (Z.ltb_spec mx 256); [done|lia]. }
  destruct Hi as [Hge Hc]. assert (Hfit : negb (mx <? 256) = true) by (destruct (Z.ltb_spec mx 256); [lia|done]).
  pose proof (stream_opened w response ct headers body chunks mx Hr Est Hnb Hge) as Ho.
  destruct (sl_http_response_stream_readable_init REF _ _ REF no_adapter) as [[r|c] a].
  2: { split; [by eapply collecting_grown|by right; right]. }
  destruct Ho as [Hra Hun]. pose proof (collect_outcome w mx (stream_rounds (rp_stream_chunks response)) r a [] s Hra Hc) as Hcol.
  rewrite Hun in Hcol. specialize (Hcol ltac:(unfold stream_rounds; rewrite (chunks_total w _ _ (ri_chunks _ _ _ _ _ _ Hr)); lia)). cbv zeta in Hcol. cbn [app] in Hcol.
  destruct (collect_stream tokens _ r a s) as [[[]|c] s1].
  2: { destruct Hcol as [Hg Hcol]. split; [exact Hg|]. by right. }
  destruct Hcol as [Hle Hc1]. unfold gets. cbn [bs_world]. split; [by eapply collecting_grown|]. split; [|by split].
  eapply collected_held; [exact Hc1|apply Hr].
Qed.
(** * The fields *)

(** Everything but the free part stays. *)
Definition steady (w w' : World) : Prop :=
  forward w w' /\ forall q n, outside_free (w_arena w) q n ->
    outside_free (w_arena w') q n /\ load_bytes (w_mem w') q n = load_bytes (w_mem w) q n.

Lemma steady_refl w : arena_wf (w_arena w) -> steady w w.
Proof. intros H. split; [by apply forward_refl|done]. Qed.

Lemma steady_trans w1 w2 w3 : steady w1 w2 -> steady w2 w3 -> steady w1 w3.
Proof.
  intros [F1 O1] [F2 O2]. split; [by eapply forward_trans|]. intros q n Hq. destruct (O1 q n Hq) as [H1 E1], (O2 q n ltac:(by apply O1)) as [H2 E2].
  split; [done|congruence].
Qed.

Lemma steady_grown w w' : steady w w' -> grown w w'.
Proof. intros [F O]. split; [done|]. intros q n Hq _. by apply O. Qed.

(** A text a copy may be made of; it may lie in the frame. *)
Definition readable (w : World) (v : SlStr) (l : list Z) : Prop :=
  text_view v /\ outside_free (w_arena w) (str_ptr v) (str_length v) /\ str_val (w_mem w) v = l.

Lemma readable_steady w w' v l : steady w w' -> readable w v l -> readable w' v l.
Proof. intros [_ O] (Hv & Ho & <-). destruct (O _ _ Ho) as [H1 H2]. split_and!; [done..|exact H2]. Qed.

Lemma text_readable w v l : text_at w v l -> readable w v l.
Proof. intros (Hv & Ho & _ & E). by split_and!. Qed.

Definition field_at (w : World) (h : SlHttp2HeaderField) (f : field) : Prop :=
  text_at w (h2_name h) (fst f) /\ text_at w (h2_value h) (snd f) /\ h2_sensitive h = false.

Lemma field_grown w w' h f : grown w w' -> field_at w h f -> field_at w' h f.
Proof. intros Hg (H1 & H2 & H3). split_and!; [by eapply text_at_grown..|done]. Qed.

Lemma fields_grown w w' hs fs : grown w w' -> Forall2 (field_at w) hs fs -> Forall2 (field_at w') hs fs.
Proof. intros Hg H. eapply Forall2_impl; [exact H|]. intros h f. by apply field_grown. Qed.

Lemma fresh_text w v out w' : fresh_copy v out w w' -> frame_ok w -> text_at w' out (str_val (w_mem w) v) /\ steady w w'.
Proof.
  intros [F1 F2 F3 F4 F5] (_ & _ & Hf). split; [|split; [done|]; intros q n Hq; by destruct (F2 q n Hq) as (? & ? & _)].
  destruct (F2 _ _ Hf) as (_ & _ & Hd). by split_and!.
Qed.

Lemma copy_h2_outcome name value f w :
  arena_wf (w_arena w) -> frame_ok w -> readable w name (fst f) -> readable w value (snd f) ->
  match sl_http2_copy_h2_header REF name value REF w with
  | (Ok h, w') => steady w w' /\ field_at w' h f
  | (Err c, w') => steady w w' /\ starved c
  end.
Proof.
  intros Hwf Hfr Hn Hv. unfold sl_http2_copy_h2_header. cbn [is_null orb]. unfold mbind, st_bind.
  pose proof Hn as (Hn1 & Hn2 & Hn3). pose proof (copy_view_outcome name w Hwf Hn1 Hn2) as H1.
  destruct (sl_str_copy_view_to_arena REF name REF w) as [[out1|c] w1].
  2: { destruct H1 as [-> H1]. split; [by apply steady_refl|done]. }
  destruct (fresh_text _ _ _ _ H1 Hfr) as [T1 S1]. rewrite Hn3 in T1. pose proof (fw_wf _ _ (proj1 S1)) as Hwf1.
  pose proof (readable_steady _ _ _ _ S1 Hv) as (Hv1 & Hv2 & Hv3). pose proof (copy_view_outcome value w1 Hwf1 Hv1 Hv2) as H2.
  destruct (sl_str_copy_view_to_arena REF value REF w1) as [[out2|c] w2].
  2: { destruct H2 as [-> H2]. done. }
  destruct (fresh_text _ _ _ _ H2 (frame_grown _ _ (proj1 S1) Hfr)) as [T2 S2]. rewrite Hv3 in T2.
  split; [by eapply steady_trans|]. split_and!; [|done|done]. eapply text_at_grown; [by apply steady_grown|done].
Qed.

(** What the caller may add. *)
Definition managed_name (name : list Z) : bool :=
  existsb (is_text name) ["connection"; "keep-alive"; "content-type"; "transfer-encoding"; "content-length"; "upgrade"; "proxy-connection"]%string.

Definition custom_ok (f : field) : bool :=
  negb (bool_decide (fst f = [])) && forallb sl_http2_header_name_char_valid (fst f) && forallb header_value_byte (snd f) && negb (managed_name (fst f)).

(** The world the fields are made in. *)
Record ready (w : World) : Prop := {
  rd_wf : arena_wf (w_arena w);
  rd_frame : frame_ok w;
  rd_literals : forall l, l ∈ h2_response_literals -> 0 < rodata l /\ text_at w (literal l) (string_bytes l);
}.

Lemma ready_grown w w' : grown w w' -> ready w -> ready w'.
Proof.
  intros Hg [H1 H2 H3]. split; [apply Hg|by eapply frame_grown; [apply Hg|]|]. intros l Hl. destruct (H3 l Hl) as [? ?]. split; [done|by eapply text_at_grown].
Qed.

Lemma managed_spec w v l :
  ready w -> text_at w v l -> forallb sl_http2_header_name_char_valid l = true ->
  sl_http2_response_header_managed (w_mem w) v = managed_name l.
Proof.
  intros Hr (Hv & _ & _ & E) Hok. assert (Hlit : literals_in (w_mem w) h2_response_literals).
  { intros x Hx. destruct (rd_literals _ Hr x Hx) as [? (_ & _ & _ & ?)]. done. }
  unfold sl_http2_response_header_managed, managed_name. cbn [existsb].
  rewrite !(equal_ci_literal (w_mem w) h2_response_literals) by (done || listed). rewrite E, (lower_name _ Hok).
  rewrite !orb_assoc, orb_false_r. done.
Qed.
Lemma custom_ok_spec w h f :
  ready w -> text_at w (hh_name h) (fst f) -> text_at w (hh_value h) (snd f) ->
  negb (sl_http2_header_name_valid (w_mem w) (hh_name h)) || negb (sl_http2_header_value_valid (w_mem w) (hh_value h)) ||
  sl_http2_response_header_managed (w_mem w) (hh_name h) = negb (custom_ok f).
Proof.
  intros Hr Hn Hv. rewrite name_valid_spec by apply Hn. rewrite value_valid_spec by apply Hv.
  pose proof Hn as (_ & _ & _ & En). pose proof Hv as (_ & _ & _ & Ev). rewrite En, Ev. unfold custom_ok.
  destruct (forallb sl_http2_header_name_char_valid (fst f)) eqn:Ef; [|by rewrite !andb_false_r].
  rewrite (managed_spec w _ _ Hr Hn Ef). by destruct (bool_decide _), (forallb header_value_byte _), (managed_name _).
Qed.

Lemma copy_headers_outcome hs fs : forall fields fs0 w,
  ready w -> Forall2 (fun h f => text_at w (hh_name h) (fst f) /\ text_at w (hh_value h) (snd f)) hs fs -> Forall2 (field_at w) fields fs0 ->
  match copy_response_headers REF hs fields w with
  | (Ok out, w') => grown w w' /\ Forall2 (field_at w') out (fs0 ++ fs) /\ forallb custom_ok fs = true
  | (Err c, w') => grown w w' /\ (c = SL_STATUS_INVALID_ARGUMENT /\ forallb custom_ok fs = false \/ starved c)
  end.
Proof.
  revert fs. induction hs as [|h hs IH]; intros fs fields fs0 w Hr Hh Hf; cbn [copy_response_headers].
  { inversion Hh; subst. rewrite app_nil_r. split; [apply grown_refl, Hr|]. by split. }
  inversion Hh as [|? f ? fs' [Hn Hv] Hh' E1 E2]; subst. unfold mbind, st_bind, gets. rewrite (custom_ok_spec w h f Hr Hn Hv). cbn [forallb].
  destruct (custom_ok f); cbn [negb andb].
  2: { split; [apply grown_refl, Hr|]. by left. }
  pose proof (copy_h2_outcome (hh_name h) (hh_value h) f w (rd_wf _ Hr) (rd_frame _ Hr) (text_readable _ _ _ Hn) (text_readable _ _ _ Hv)) as Hc.
  destruct (sl_http2_copy_h2_header REF _ _ REF w) as [[x|c] w1].
  2: { destruct Hc as [Hs Hc]. split; [by apply steady_grown|by right]. }
  destruct Hc as [Hs Hx]. pose proof (steady_grown _ _ Hs) as Hg.
  specialize (IH fs' (fields ++ [x]) (fs0 ++ [f]) w1 (ready_grown _ _ Hg Hr)).
  assert (Hh1 : Forall2 (fun h f => text_at w1 (hh_name h) (fst f) /\ text_at w1 (hh_value h) (snd f)) hs fs').
  { eapply Forall2_impl; [exact Hh'|]. intros ? ? [? ?]. split; by eapply text_at_grown. }
  specialize (IH Hh1 ltac:(apply Forall2_app; [by eapply fields_grown|by constructor])).
  destruct (copy_response_headers REF hs (fields ++ [x]) w1) as [[out|c] w2].
  - destruct IH as (H1 & H2 & H3). rewrite <- app_assoc in H2. split; [by eapply grown_trans|]. by split.
  - destruct IH as [H1 H2]. split; [by eapply grown_trans|done].
Qed.

Lemma alloc_fields_outcome w response n :
  arena_wf (w_arena w) -> is_size (Z.of_nat (length (rp_headers response))) ->
  match alloc_fields REF response n w with
  | (Ok p, w') => grown w w'
  | (Err c, w') => w' = w /\ starved c
  end.
Proof.
  intros Hwf Hsz. unfold alloc_fields. unfold_st. set (t := if str_length (rp_content_type response) =? 0 then 0 else 1).
  assert (Ht : 0 <= t <= 1) by (unfold t; destruct (_ =? 0); lia). destruct (checked_size_arithmetic_exact (Z.of_nat (length (rp_headers response))) 1 t) as (_ & _ & _ & E3); [done|size_lia|size_lia|].
  rewrite E3. unfold checked at 1.
  destruct (Z.leb_spec (Z.of_nat (length (rp_headers response)) + 1 + t) SIZE_MAX); [|split; [done|by right]].
  assert (Hn : is_size (if n then 0 else 1)) by (destruct n; size_lia).
  rewrite checked_add_spec by (done || size_lia). unfold checked at 1.
  destruct (Z.leb_spec (Z.of_nat (length (rp_headers response)) + 1 + t + (if n then 0 else 1)) SIZE_MAX); [|split; [done|by right]].
  set (k := Z.of_nat (length (rp_headers response)) + 1 + t + (if n then 0 else 1)) in *.
  assert (Hk : 0 < k) by (unfold k, is_size in *; lia). clearbody k. unfold sl_checked_array_size, SL_HTTP2_HEADER_FIELD_SIZE.
  rewrite checked_mul_spec by size_lia. unfold checked.
  destruct (Z.leb_spec (k * 40) SIZE_MAX); [|split; [done|by right]].
  pose proof (alloc_outcome (k * 40) SL_HTTP2_HEADER_FIELD_ALIGNMENT w Hwf ltac:(size_lia) ltac:(by split) ltac:(lia) eq_refl) as Ha.
  destruct (sl_arena_alloc REF (k * 40) SL_HTTP2_HEADER_FIELD_ALIGNMENT REF w) as [[p|c] w1] eqn:E; [|exact Ha].
  apply sl_arena_alloc_fresh in E as [_ [_ _ _ _ _ F6]]; [|done|size_lia|by split].
  split; [done|]. intros q m Hq _. by destruct (F6 q m Hq) as (_ & ? & ?).
Qed.

(** Digits in the frame. *)
Lemma format_outcome at_ cap value w :
  ready w -> is_size value -> 0 <= at_ -> at_ + cap <= FRAME_BYTES -> Z.of_nat (length (format_digits value)) < cap ->
  exists v w', in_memory (sl_string_format_u64 (frame + at_) cap value REF) w = (Ok v, w') /\ grown w w' /\ readable w' v (rev (format_digits value)).
Proof.
  intros Hr Hv H0 H1 Hc. destruct (rd_frame _ Hr) as (F1 & F2 & F3). pose proof (format_u64_spec (frame + at_) cap value (w_mem w) ltac:(lia) Hv) as Hf.
  cbv zeta in Hf. rewrite length_rev in Hf. destruct (Z.leb_spec cap (Z.of_nat (length (format_digits value)))); [lia|]. destruct Hf as (v & m' & E & [V1 V2 V3 V4]).
  exists v, (set_mem m' w). unfold in_memory, zoom. rewrite E. split; [done|]. rewrite length_rev in V1, V4. unfold FRAME_BYTES in *. split.
  - split; [by split; [apply Hr|..]|]. intros q n Hq Hd. split; [done|]. eapply load_bytes_same; [exact V4|]. unfold disjoint_ranges, FRAME_BYTES in *. lia.
  - subst v. split_and!; [|cbn; eapply outside_free_sub; [exact F3|lia|lia]|exact V2]. split; [split; cbn; lia|cbn; lia|].
    destruct (format_digits_spec value Hv) as (_ & _ & Hl & _). unfold simd_length. cbn. size_lia.
Qed.
(** * Responses *)

Definition digits (n : Z) : list Z := rev (format_digits n).

(** The fields of a response; the length is that of the body, and of the descriptor's own
    body when nothing is to be sent. *)
Definition type_fields (response : SlHttpResponse) (ct : list Z) : list field :=
  if negb (has_no_body response) && negb (bool_decide (ct = [])) then [(string_bytes "content-type", ct)] else [].

Definition length_fields (response : SlHttpResponse) (n : Z) : list field :=
  if has_no_body response then [] else [(string_bytes "content-length", digits n)].

Definition h2_fields (response : SlHttpResponse) (ct : list Z) (headers : list field) (n : Z) : list field :=
  (string_bytes ":status", digits (rp_status response)) :: type_fields response ct ++ headers ++ length_fields response n.

Definition announced (response : SlHttpResponse) (suppress : bool) (body : list Z) (chunks : list (list Z)) : Z :=
  Z.of_nat (length (if suppress then body else sent_body response suppress body chunks)).

Definition presentable (response : SlHttpResponse) (ct : list Z) (headers : list field) : bool :=
  sl_http2_mapping_status_supported (rp_status response) && forallb header_value_byte ct && forallb custom_ok headers.

Lemma response_ready w response ct headers body chunks : response_is w response ct headers body chunks -> ready w.
Proof. intros []. by split. Qed.

Lemma literal_readable w l : ready w -> l ∈ h2_response_literals -> readable w (literal l) (string_bytes l).
Proof. intros Hr Hl. by apply text_readable, (rd_literals _ Hr). Qed.

(** The field of a number in the frame. *)
Lemma number_field at_ cap l value w :
  ready w -> l ∈ h2_response_literals -> is_size value -> 0 <= at_ -> at_ + cap <= FRAME_BYTES -> Z.of_nat (length (format_digits value)) < cap ->
  match (v ← in_memory (sl_string_format_u64 (frame + at_) cap value REF) ; sl_http2_copy_h2_header REF (literal l) v REF) w with
  | (Ok h, w') => grown w w' /\ field_at w' h (string_bytes l, digits value)
  | (Err c, w') => grown w w' /\ starved c
  end.
Proof.
  intros Hr Hl Hv H0 H1 H2. destruct (format_outcome at_ cap value w Hr Hv H0 H1 H2) as (v & w1 & E & Hg & Hd). unfold mbind, st_bind. rewrite E.
  pose proof (ready_grown _ _ Hg Hr) as Hr1.
  pose proof (copy_h2_outcome (literal l) v (string_bytes l, digits value) w1 (rd_wf _ Hr1) (rd_frame _ Hr1) (literal_readable _ _ Hr1 Hl) Hd) as Hc.
  destruct (sl_http2_copy_h2_header REF (literal l) v REF w1) as [[h|c] w2]; destruct Hc as [Hs Hc]; (split; [|done]);
    (eapply grown_trans; [exact Hg|by apply steady_grown]).
Qed.

Lemma type_field_outcome w response ct :
  ready w -> text_at w (rp_content_type response) ct ->
  match (if negb (has_no_body response) && negb (str_length (rp_content_type response) =? 0)
         then field ← sl_http2_copy_h2_header REF (literal "content-type") (rp_content_type response) REF ; mret [field]
         else mret []) w with
  | (Ok hs, w') => grown w w' /\ Forall2 (field_at w') hs (type_fields response ct)
  | (Err c, w') => grown w w' /\ starved c
  end.
Proof.
  intros Hr Ht. unfold type_fields. pose proof Ht as (Hv & _ & _ & E).
  assert (He : (str_length (rp_content_type response) =? 0) = bool_decide (ct = [])).
  { pose proof (view_empty (w_mem w) _ Hv) as H. rewrite E in H. exact H. }
  rewrite He. destruct (negb (has_no_body response) && negb (bool_decide (ct = []))); [|split; [apply grown_refl, Hr|constructor]].
  pose proof (copy_h2_outcome (literal "content-type") (rp_content_type response) (string_bytes "content-type", ct) w (rd_wf _ Hr) (rd_frame _ Hr)
    (literal_readable _ "content-type" Hr ltac:(listed)) (text_readable _ _ _ Ht)) as Hc. unfold mbind, st_bind.
  destruct (sl_http2_copy_h2_header REF (literal "content-type") _ REF w) as [[h|c] w1]; destruct Hc as [Hs Hc]; (split; [by apply steady_grown|]); [|done].
  by constructor.
Qed.
Lemma length_field_outcome w response n fields fs :
  ready w -> is_size n -> Forall2 (field_at w) fields fs ->
  match (if negb (has_no_body response) then
           length_value ← in_memory (sl_string_format_size (frame + LENGTH_DIGITS) 32 n REF) ;
           field ← sl_http2_copy_h2_header REF (literal "content-length") length_value REF ;
           mret (fields ++ [field])
         else mret fields) w with
  | (Ok hs, w') => grown w w' /\ Forall2 (field_at w') hs (fs ++ length_fields response n)
  | (Err c, w') => grown w w' /\ starved c
  end.
Proof.
  intros Hr Hn Hf. unfold length_fields. destruct (has_no_body response); cbn [negb].
  { rewrite app_nil_r. split; [apply grown_refl, Hr|done]. }
  pose proof (number_field LENGTH_DIGITS 32 "content-length" n w Hr ltac:(listed) Hn ltac:(done) ltac:(done)
    ltac:(destruct (format_digits_spec n Hn) as (_ & _ & ? & _); lia)) as Hl. unfold sl_string_format_size. unfold mbind, st_bind in *.
  destruct (in_memory _ w) as [[v|c] w1]; [|done]. destruct (sl_http2_copy_h2_header REF _ v REF w1) as [[h|c] w2]; [|done].
  destruct Hl as [Hg Hl]. split; [done|]. apply Forall2_app; [by eapply fields_grown|by constructor].
Qed.

(** C30: Over HTTP/2 a response is presented exactly.  It is refused when its status is not
    among the supported, when a field is not legal or would collide with one the runtime
    writes, when its body is longer than the limit, when it is a stream and the limit is
    below the 256 bytes of the first block that collects it, however short its body
    ([block_fits]; a defect), or for lack of arena.  Otherwise the header list is
    [:status], the content type, the caller's fields in order and, unless the status has
    no body, the content length: that of the body, also where the body is suppressed,
    except that a suppressed stream announces that of its unused body field
    ([announced]).  The body is the response's, a stream's chunks joined, or empty where it is suppressed.  Nothing the
    caller holds is touched. *)
Theorem http2_response_exact w response ct headers body chunks suppress mx :
  response_is w response ct headers body chunks -> is_size mx ->
  let sent := sent_body response suppress body chunks in
  match sl_http2_response_to_headers tokens frame REF (Some response) suppress mx REF REF w with
  | (Ok (_, fields, b), w') => grown w w' /\
      presentable response ct headers = true /\ block_fits response suppress mx = true /\ Z.of_nat (length sent) <= mx /\
      Forall2 (field_at w') fields (h2_fields response ct headers (announced response suppress body chunks)) /\ held w' b sent
  | (Err c, w') => grown w w' /\
      (c = SL_STATUS_INVALID_ARGUMENT /\ presentable response ct headers && block_fits response suppress mx = false \/
       c = SL_STATUS_CAPACITY_EXCEEDED /\ mx < Z.of_nat (length sent) \/ starved c)
  end.
Proof.
  intros H Hmx sent. pose proof (response_ready _ _ _ _ _ _ H) as Hr. unfold sl_http2_response_to_headers. cbn [is_null orb].
  assert (Harr : negb (bool_decide (rp_headers response = [])) && is_null (rp_headers_ptr response) = false).
  { destruct (bool_decide_reflect (rp_headers response = [])) as [|Hne]; [done|]. by rewrite (proj1 (ri_arrays _ _ _ _ _ _ H) Hne). }
  rewrite Harr. pose proof (ri_content_type _ _ _ _ _ _ H) as (Hctv & _ & _ & Hct). unfold mbind at 1, st_bind at 1, gets at 1.
  rewrite (value_valid_spec (w_mem w) _ Hctv), Hct. unfold presentable. cbn [orb].
  destruct (sl_http2_mapping_status_supported (rp_status response)) eqn:Es; cbn [negb orb andb]; [|split; [apply grown_refl, Hr|by left]].
  destruct (forallb header_value_byte ct) eqn:Ec; cbn [negb andb]; [|split; [apply grown_refl, Hr|by left]]. fold (has_no_body response).
  unfold mbind, st_bind. pose proof (response_body_outcome w response ct headers body chunks suppress mx H Hmx) as Hb. cbv zeta in Hb. fold sent in Hb.
  destruct (sl_http2_response_body tokens frame REF (Some response) suppress mx REF w) as [[b|c] w1].
  2: { destruct Hb as [Hg [[-> ->]|Hb]]; (split; [exact Hg|]); [left; by rewrite andb_false_r|by right]. }
  destruct Hb as (G1 & B1 & B2 & B3). rewrite B2, andb_true_r. pose proof (ready_grown _ _ G1 Hr) as R1.
  pose proof (alloc_fields_outcome w1 response (has_no_body response) (rd_wf _ R1)
    ltac:(rewrite (Forall2_length _ _ _ (ri_headers _ _ _ _ _ _ H)); apply H)) as Ha.
  destruct (alloc_fields REF response (has_no_body response) w1) as [[storage|c] w2].
  2: { destruct Ha as [-> Ha]. split; [exact G1|by right; right]. }
  pose proof (grown_trans _ _ _ G1 Ha) as G2. pose proof (ready_grown _ _ G2 Hr) as R2. pose proof (ri_status _ _ _ _ _ _ H) as Hst.
  pose proof (number_field STATUS_DIGITS 8 ":status" (rp_status response) w2 R2 ltac:(listed) ltac:(size_lia) ltac:(done) ltac:(done)
    ltac:(unfold format_digits; pose proof (digits_loop_length 20 5 (rp_status response) ltac:(cbn; lia) ltac:(lia)); lia)) as Hn. unfold mbind, st_bind in Hn.
  destruct (in_memory _ w2) as [[v|c] w3].
  2: { destruct Hn as [Hg Hn]. split; [by eapply grown_trans|by right; right]. }
  destruct (sl_http2_copy_h2_header REF (literal ":status") v REF w3) as [[sf|c] w4].
  2: { destruct Hn as [Hg Hn]. split; [by eapply grown_trans|by right; right]. }
  destruct Hn as [G4 F4]. pose proof (grown_trans _ _ _ G2 G4) as G5. pose proof (ready_grown _ _ G5 Hr) as R5.
  pose proof (type_field_outcome w4 response ct R5 (text_at_grown _ _ _ _ G5 (ri_content_type _ _ _ _ _ _ H))) as Ht. unfold mbind, st_bind in Ht.
  match type of Ht with match ?x with pair _ _ => _ end => destruct x as [[tf|c] w5] end.
  2: { destruct Ht as [Hg Ht]. split; [by eapply grown_trans|by right; right]. }
  destruct Ht as [G6 F6]. pose proof (grown_trans _ _ _ G5 G6) as G7. pose proof (ready_grown _ _ G7 Hr) as R7.
  assert (Hh : Forall2 (fun h f => text_at w5 (hh_name h) (fst f) /\ text_at w5 (hh_value h) (snd f)) (rp_headers response) headers).
  { eapply Forall2_impl; [apply H|]. intros ? ? [? ?]. split; by eapply text_at_grown. }
  pose proof (copy_headers_outcome (rp_headers response) headers (sf :: tf)
    ((string_bytes ":status", digits (rp_status response)) :: type_fields response ct) w5 R7 Hh ltac:(constructor; [exact (field_grown _ _ _ _ G6 F4)|exact F6])) as Hc.
  destruct (copy_response_headers REF (rp_headers response) (sf :: tf) w5) as [[fields|c] w6].
  2: { destruct Hc as [Hg Hc]. split; [by eapply grown_trans|]. destruct Hc as [[-> ->]|Hc]; [by left|by right; right]. }
  destruct Hc as (G8 & F8 & ->). pose proof (grown_trans _ _ _ G7 G8) as G9. pose proof (ready_grown _ _ G9 Hr) as R9.
  assert (Hlen : (if suppress then bytes_length (rp_body response) else bytes_length b) = announced response suppress body chunks).
  { unfold announced. fold sent. destruct suppress; symmetry; [apply (held_length w), H|by apply (held_length w1)]. }
  rewrite Hlen. assert (Hsz : is_size (announced response suppress body chunks)).
  { rewrite <- Hlen. destruct suppress; [destruct (ri_body _ _ _ _ _ _ H) as (_ & (? & ? & ?) & _)|destruct B1 as (_ & (? & ? & ?) & _)]; size_lia. }
  pose proof (length_field_outcome w6 response (announced response suppress body chunks) fields _ R9 Hsz F8) as Hl. unfold mbind, st_bind in Hl.
  match type of Hl with match ?x with pair _ _ => _ end => destruct x as [[out|c] w7] end; destruct Hl as [G10 Hl]; (split; [by eapply grown_trans|]).
  2: { by right; right. }
  split_and!; [done|done|lia| |].
  - cbn [app] in Hl. rewrite <- app_assoc in Hl. exact Hl.
  - eapply held_grown; [|exact B1]. eapply grown_trans; [exact Ha|]. eapply grown_trans; [exact G4|]. eapply grown_trans; [exact G6|]. by eapply grown_trans.
Qed.
End Body.

Module Demo.
#[export] Instance build0 : BuildConfig := assert_build.
#[export] Instance simd0 : SimdConfig := {| SL_STRING_SIMD := SCALAR; SL_BYTES_SIMD := SCALAR |}.
Definition address (l : string) : Z :=
  match list_find (fun x => x = l) h2_response_literals with Some (i, _) => 4096 + 100 * Z.of_nat i | None => 0 end.
#[export] Instance rodata0 : ReadOnlyData := {| rodata := address |}.

Definition tokens0 (_ : Z) : SlCancellationToken := zero_token.
Definition frame0 : Z := 12000.

Definition values0 : list (Z * string) := [(9000, "ab"); (9010, "c"); (9020, "x-id"); (9030, "7"); (9040, "text/plain")]%string.
Definition world0 : World :=
  {| w_mem := fold_left (fun m '(p, l) => store m p (string_bytes l)) values0
                (fold_left (fun m l => store m (address l) (string_bytes l)) h2_response_literals (fun _ => 0));
     w_arena := {| ar_base := 16384; ar_capacity := 4096; ar_offset := 0; ar_high_water := 0; ar_generation := 1 |} |}.

(** A stream of two chunks with a field of its own. *)
Definition stream0 : SlHttpResponse :=
  {| rp_status := 200; rp_kind := SL_HTTP_RESPONSE_STREAM; rp_content_type := sl_str_from_parts 9040 10; rp_headers_ptr := REF;
     rp_headers := [{| hh_name := sl_str_from_parts 9020 4; hh_value := sl_str_from_parts 9030 1 |}]; rp_body := sl_bytes_empty;
     rp_stream_ptr := REF; rp_stream_chunks := [sl_bytes_from_parts 9000 2; sl_bytes_from_parts 9010 1] |}.

Definition in_place (v : SlStr) (l : list Z) : bool :=
  (0 <? str_ptr v) && (0 <=? str_length v) && (str_ptr v + str_length v <=? 12000) && bool_decide (str_val (w_mem world0) v = l).

Lemma text0 v l : in_place v l = true -> text_at frame0 world0 v l.
Proof.
  unfold in_place. rewrite !andb_true_iff, bool_decide_eq_true. intros [[[H1 H2] H3] H4]. split_and!; [split; [split; lia|lia|]| | |done].
  - unfold simd_length. size_lia.
  - unfold outside_free, disjoint_ranges. cbn. lia.
  - unfold disjoint_ranges, frame0. lia.
Qed.

Lemma held0 b l : in_place (sl_str_from_parts (bytes_ptr b) (bytes_length b)) l = true -> held frame0 world0 b l.
Proof.
  intros H. pose proof (text0 _ _ H) as ([[V1 V2] V3 V4] & Ho & Hd & E). unfold in_place in H. rewrite !andb_true_iff in H. cbn in *.
  split_and!; [split; lia|unfold bytes_wf; size_lia|done|done|exact E].
Qed.

Definition body0 : list (list Z) := [string_bytes "ab"; string_bytes "c"].
Definition headers0 : list field := [(string_bytes "x-id", string_bytes "7")].

Lemma response0 : response_is frame0 world0 stream0 (string_bytes "text/plain") headers0 [] body0.
Proof.
  split; [split_and!; done|split_and!; [done|done|unfold outside_free, disjoint_ranges, frame0, FRAME_BYTES; cbn; lia]|by cbn|..].
  - intros l Hl. assert (H : forallb (fun l => (0 <? rodata l) && in_place (literal l) (string_bytes l)) h2_response_literals = true) by by vm_compute.
    rewrite forallb_forall in H. apply list_elem_of_In in Hl. specialize (H l Hl). apply andb_true_iff in H as [H1 H2]. split; [lia|by apply text0].
  - apply text0. by vm_compute.
  - constructor; [split; apply text0; by vm_compute|constructor].
  - split; vm_compute; discriminate.
  - apply held_empty.
  - constructor; [apply held0; by vm_compute|]. constructor; [apply held0; by vm_compute|constructor].
  - by split.
Qed.

(** What a run yields, by its bytes. *)
Definition outcome (suppress : bool) : option (list field * list Z) :=
  match sl_http2_response_to_headers tokens0 frame0 REF (Some stream0) suppress 1024 REF REF world0 with
  | (Ok (_, fields, b), w) => Some (map (fun h => (str_val (w_mem w) (h2_name h), str_val (w_mem w) (h2_value h))) fields, bytes_val (w_mem w) b)
  | _ => None
  end.

Lemma outcome0 :
  match sl_http2_response_to_headers tokens0 frame0 REF (Some stream0) false 1024 REF REF world0 with (Ok _, _) => True | _ => False end.
Proof. vm_compute. exact I. Qed.

Lemma http2_response_exact_witness :
  exists storage fields b w',
    sl_http2_response_to_headers tokens0 frame0 REF (Some stream0) false 1024 REF REF world0 = (Ok (storage, fields, b), w') /\
    Forall2 (field_at frame0 w') fields (h2_fields stream0 (string_bytes "text/plain") headers0 3) /\ held frame0 w' b (string_bytes "abc").
Proof.
  pose proof (http2_response_exact tokens0 frame0 world0 stream0 (string_bytes "text/plain") headers0 [] body0 false 1024 response0 ltac:(size_lia)) as H.
  pose proof outcome0 as Hok. cbv zeta in H.
  assert (Ea : announced stream0 false [] body0 = 3) by by vm_compute. assert (Es : sent_body stream0 false [] body0 = string_bytes "abc") by by vm_compute.
  rewrite Ea, Es in H.
  destruct (sl_http2_response_to_headers tokens0 frame0 REF (Some stream0) false 1024 REF REF world0) as [[[[storage fields] b]|c] w']; [|destruct Hok].
  destruct H as (_ & _ & _ & _ & H1 & H2). exists storage, fields, b, w'. split; [reflexivity|]. split; [exact H1|exact H2].
Defined.

(** A stream of three bytes is refused under a limit of a hundred. *)
Example short_stream_refused :
  fst (sl_http2_response_to_headers tokens0 frame0 REF (Some stream0) false 100 REF REF world0) = Err SL_STATUS_INVALID_ARGUMENT.
Proof. by vm_compute. Qed.

(** The answer to HEAD announces no body where GET has one of three bytes: the length of a
    stream is not counted when the body is suppressed. *)
Example head_of_stream_announces_nothing :
  (last ∘ fst <$> outcome true) = Some (Some (string_bytes "content-length", string_bytes "0")) /\
  (last ∘ fst <$> outcome false) = Some (Some (string_bytes "content-length", string_bytes "3")).
Proof. by vm_compute. Qed.
End Demo.
