(* ===== verification/WebSocketHandshake.v ===== *)
(** The opening handshake of a WebSocket (src/core/websocket.c).

    The arrays of headers, protocols and origins are lists, with their pointers kept
    beside them.  OpenSSL is an interface with the laws its manual states.  The local
    arrays are a [frame] of memory: [decoded] and [accept] share the place after the
    builder's inline array, [digest] that of the array itself, for no two of them are in
    use at once. *)

From stdpp Require Import strings.
From S2P Require Import Prelude Memory Status Arena Str Bytes Simd StrArena Sink Builder Diag HttpResponse StreamMemory HttpWire HttpBackend HttpBody HttpMedia HttpAssemble HttpQuery Frame Http2Response.

Open Scope Z_scope.

(** * OpenSSL *)

(** What each function writes.  [EVP_EncodeBlock] appends a zero byte that it does not
    count; [EVP_DecodeBlock] also returns its result, -1 on failure. *)
Class OpenSsl := {
  SHA1 : list Z -> list Z;
  EVP_EncodeBlock : list Z -> list Z;
  EVP_DecodeBlock : list Z -> list Z * Z;
}.

Class OpenSslLaws (OS : OpenSsl) : Prop := {
  sha1_length l : length (SHA1 l) = 20%nat;
  sha1_bytes l : Forall is_byte (SHA1 l);
  encode_length l : Z.of_nat (length (EVP_EncodeBlock l)) = 4 * ((Z.of_nat (length l) + 2) / 3);
  encode_bytes l : Forall is_byte (EVP_EncodeBlock l);
  decode_bytes l : Forall is_byte (fst (EVP_DecodeBlock l));
  decode_bound l : 4 * Z.of_nat (length (fst (EVP_DecodeBlock l))) <= 3 * Z.of_nat (length l);
  decode_result l : snd (EVP_DecodeBlock l) = -1 \/
    snd (EVP_DecodeBlock l) = Z.of_nat (length (fst (EVP_DecodeBlock l))) /\ (3 | snd (EVP_DecodeBlock l));
  decode_encoded bs : Forall is_byte bs -> (3 | Z.of_nat (length bs)) ->
    EVP_DecodeBlock (EVP_EncodeBlock bs) = (bs, Z.of_nat (length bs));
}.

(** * Data *)

Inductive SlPlanWebSocketOriginPolicy :=
  SL_PLAN_WEBSOCKET_ORIGINS_NONE | SL_PLAN_WEBSOCKET_ORIGINS_ANY | SL_PLAN_WEBSOCKET_ORIGINS_LIST.

#[export] Instance origin_policy_eq : EqDecision SlPlanWebSocketOriginPolicy.
Proof. solve_decision. Defined.

(** The fields of the options and of the route that the handshake reads. *)
Record SlPlanWebSocketOptions := {
  pw_protocols_ptr : nullable;
  pw_protocols : list SlStr;
  pw_origins_ptr : nullable;
  pw_origins : list SlStr;
  pw_origin_policy : SlPlanWebSocketOriginPolicy;
}.

Record SlPlanAuthRequirement := { au_present : bool; au_required : bool; au_allow_anonymous : bool }.

Record SlPlanRoute := { pt_kind : SlStr; pt_websocket : SlPlanWebSocketOptions; pt_auth : SlPlanAuthRequirement }.

Record SlWebSocketHandshakeResult := { hr_http_status : Z; hr_selected_protocol : SlStr; hr_response_bytes : SlBytes }.

Definition zero_handshake : SlWebSocketHandshakeResult :=
  {| hr_http_status := 0; hr_selected_protocol := sl_str_empty; hr_response_bytes := sl_bytes_empty |}.

(** The world, and the caller's result and diagnostic. *)
Record HandshakeSys := { hk_world : World; hk_result : SlWebSocketHandshakeResult; hk_diag : SlDiag }.

Definition set_hk_world (w : World) (s : HandshakeSys) : HandshakeSys :=
  {| hk_world := w; hk_result := hk_result s; hk_diag := hk_diag s |}.
Definition set_hk_result (r : SlWebSocketHandshakeResult) (s : HandshakeSys) : HandshakeSys :=
  {| hk_world := hk_world s; hk_result := r; hk_diag := hk_diag s |}.
Definition set_hk_diag (d : SlDiag) (s : HandshakeSys) : HandshakeSys :=
  {| hk_world := hk_world s; hk_result := hk_result s; hk_diag := d |}.

Definition upd_result (f : SlWebSocketHandshakeResult -> SlWebSocketHandshakeResult) : ST HandshakeSys unit :=
  modify (fun s => set_hk_result (f (hk_result s)) s).
Definition set_http_status (status : Z) (r : SlWebSocketHandshakeResult) : SlWebSocketHandshakeResult :=
  {| hr_http_status := status; hr_selected_protocol := hr_selected_protocol r; hr_response_bytes := hr_response_bytes r |}.
Definition set_protocol (protocol : SlStr) (r : SlWebSocketHandshakeResult) : SlWebSocketHandshakeResult :=
  {| hr_http_status := hr_http_status r; hr_selected_protocol := protocol; hr_response_bytes := hr_response_bytes r |}.
Definition set_response (response : SlBytes) (r : SlWebSocketHandshakeResult) : SlWebSocketHandshakeResult :=
  {| hr_http_status := hr_http_status r; hr_selected_protocol := hr_selected_protocol r; hr_response_bytes := response |}.

Definition in_hk_world {A} (c : ST World A) : ST HandshakeSys A := zoom hk_world set_hk_world c.

(** * Operations *)

Definition comma : Z := 44.
Definition padding_char : Z := 61.
Definition guid : string := "258EAFA5-E914-47DA-95CA-C5AB0DC85B11".
Definition SHA_DIGEST_LENGTH : Z := 20.

(** The local arrays. *)
Definition DECODED : Z := 64.
Definition DECODED_BYTES : Z := 32.
Definition DIGEST : Z := 0.
Definition ACCEPT : Z := 64.
Definition ACCEPT_BYTES : Z := 32.

Section Handshake.
Context {BC : BuildConfig} {SC : SimdConfig} {RO : ReadOnlyData} {OS : OpenSsl} (frame : Z).

Definition refusal_diag (message : string) : SlDiag :=
  {| dg_severity := SL_DIAG_SEVERITY_ERROR; dg_code := SL_DIAG_INVALID_HTTP_REQUEST; dg_message := literal message; dg_hints := [] |}.

Definition sl_ws_diag (out_diag : nullable) (message : string) : ST HandshakeSys unit :=
  if is_null out_diag then mret tt else modify (set_hk_diag (refusal_diag message)).

Fixpoint header_loop (m : mem) (headers : list SlHttpHeader) (name : SlStr) : option SlStr :=
  match headers with
  | [] => None
  | header :: headers => if sl_str_equal_ci_ascii m (hh_name header) name then Some (hh_value header) else header_loop m headers name
  end.

(** [None]: false, with an empty [*out_value]. *)
Definition sl_ws_header_value (m : mem) (request : option SlHttpRequestHead) (name : SlStr) (out_value : nullable) : option SlStr :=
  match request with
  | None => None
  | Some request =>
      if is_null out_value || negb (bool_decide (hd_headers request = [])) && (hd_headers_ptr request =? 0) then None else
      header_loop m (hd_headers request) name
  end.

Definition sl_ws_trim (m : mem) (value : SlStr) : SlStr :=
  if str_ptr value =? 0 then sl_str_empty else
  let len := Z.to_nat (str_length value) in
  let begin := skip_front m (str_ptr value) len in
  let left := skip_back m (str_ptr value + Z.of_nat begin) (len - begin) in
  sl_str_from_parts (str_ptr value + Z.of_nat begin) (Z.of_nat left).

(** The end of the item that starts at [cursor], and the item. *)
Definition item_end (m : mem) (value : SlStr) (cursor : Z) : Z :=
  find_byte m value comma cursor (Z.to_nat (str_length value - cursor)).
Definition item (m : mem) (value : SlStr) (cursor : Z) : SlStr :=
  sl_ws_trim m (sl_str_from_parts (str_ptr value + cursor) (item_end m value cursor - cursor)).

(** The [while] over the items, one round for each. *)
Fixpoint token_loop (fuel : nat) (m : mem) (value token : SlStr) (cursor : Z) : bool :=
  match fuel with
  | O => false
  | S fuel =>
      if negb (cursor <=? str_length value) then false else
      if sl_str_equal_ci_ascii m (item m value cursor) token then true else
      if item_end m value cursor =? str_length value then false else token_loop fuel m value token (item_end m value cursor + 1)
  end.

Definition item_rounds (value : SlStr) : nat := S (Z.to_nat (str_length value)).

Definition sl_ws_header_has_token (m : mem) (value token : SlStr) : bool :=
  if (str_ptr value =? 0) && negb (str_length value =? 0) || (str_ptr token =? 0) || (str_length token =? 0) then false else
  token_loop (item_rounds value) m value token 0.

Definition sl_ws_decode_client_key (key : SlStr) : ST World bool :=
  in_memory (modify (fun m => fill m (frame + DECODED) (Z.to_nat DECODED_BYTES) 0)) ;;
  m ← gets w_mem ;
  if (str_ptr key =? 0) || (str_length key =? 0) || (64 <? str_length key) then mret false else
  let padding := (if ld8 m (str_ptr key + (str_length key - 1)) =? padding_char then 1 else 0) +
                 (if (1 <? str_length key) && (ld8 m (str_ptr key + (str_length key - 2)) =? padding_char) then 1 else 0) in
  let '(written, decoded_len) := EVP_DecodeBlock (str_val m key) in
  in_memory (modify (fun m => store m (frame + DECODED) written)) ;;
  mret (if (decoded_len <? 0) || (decoded_len <? padding) then false else decoded_len - padding =? 16).

Definition sl_ws_accept_key (arena : nullable) (key : SlStr) (out_accept : nullable) : ST World SlStr :=
  in_memory (modify (fun m => fill m (frame + DIGEST) (Z.to_nat SHA_DIGEST_LENGTH) 0)) ;;
  in_memory (modify (fun m => fill m (frame + ACCEPT) (Z.to_nat ACCEPT_BYTES) 0)) ;;
  let input_length := wrap64 (str_length key + string_size guid) in
  return_if is_null arena || is_null out_accept || (str_ptr key =? 0) with SL_STATUS_INVALID_ARGUMENT ;;
  input ← sl_arena_alloc arena input_length 1 REF ;
  in_memory (modify (fun m => copy_forward m input (str_ptr key) (Z.to_nat (str_length key)))) ;;
  in_memory (modify (fun m => copy_forward m (input + str_length key) (rodata guid) (Z.to_nat (string_size guid)))) ;;
  in_memory (modify (fun m => store m (frame + DIGEST) (SHA1 (load_bytes m input input_length)))) ;;
  m ← gets w_mem ;
  let text := EVP_EncodeBlock (load_bytes m (frame + DIGEST) SHA_DIGEST_LENGTH) in
  let encoded := Z.of_nat (length text) in
  in_memory (modify (fun m => store m (frame + ACCEPT) (text ++ [0]))) ;;
  return_if encoded <=? 0 with SL_STATUS_INTERNAL ;;
  copied ← sl_arena_alloc arena encoded 1 REF ;
  in_memory (modify (fun m => copy_forward m copied (frame + ACCEPT) (Z.to_nat encoded))) ;;
  mret (sl_str_from_parts copied encoded).

Definition sl_ws_origin_allowed (m : mem) (options : option SlPlanWebSocketOptions) (origin : SlStr) : bool :=
  match options with
  | None => true
  | Some options =>
      if sl_str_is_empty origin || bool_decide (pw_origin_policy options = SL_PLAN_WEBSOCKET_ORIGINS_NONE) ||
         bool_decide (pw_origin_policy options = SL_PLAN_WEBSOCKET_ORIGINS_ANY) then true else
      if negb (bool_decide (pw_origin_policy options = SL_PLAN_WEBSOCKET_ORIGINS_LIST)) ||
         negb (bool_decide (pw_origins options = [])) && is_null (pw_origins_ptr options) then false else
      existsb (fun o => sl_str_equal m o origin) (pw_origins options)
  end.

Fixpoint protocol_loop (fuel : nat) (m : mem) (protocols : list SlStr) (requested : SlStr) (cursor : Z) : SlStr :=
  match fuel with
  | O => sl_str_empty
  | S fuel =>
      if negb (cursor <=? str_length requested) then sl_str_empty else
      match List.find (fun p => sl_str_equal m p (item m requested cursor)) protocols with
      | Some p => p
      | None => if item_end m requested cursor =? str_length requested then sl_str_empty
                else protocol_loop fuel m protocols requested (item_end m requested cursor + 1)
      end
  end.

Definition sl_ws_select_protocol (m : mem) (options : option SlPlanWebSocketOptions) (requested : SlStr) : SlStr :=
  match options with
  | None => sl_str_empty
  | Some options =>
      if bool_decide (pw_protocols options = []) then sl_str_empty else
      if is_null (pw_protocols_ptr options) then sl_str_empty else
      protocol_loop (item_rounds requested) m (pw_protocols options) requested 0
  end.

Definition sl_ws_append (builder : nullable) (value : SlStr) : ST BuilderSys unit :=
  sl_byte_builder_append_bytes builder (sl_bytes_from_parts (str_ptr value) (str_length value)).

Definition status_line : string := "HTTP/1.1 101 Switching Protocols" ++ CRLF.
Definition upgrade_line : string := "Upgrade: websocket" ++ CRLF.
Definition connection_line : string := "Connection: Upgrade" ++ CRLF.

Definition sl_ws_build_response (arena : nullable) (accept protocol : SlStr) (out : nullable) : ST World SlBytes :=
  with_local_builder frame
    (sl_byte_builder_init_arena REF arena 256 1024 ;;
     sl_ws_append REF (literal status_line) ;;
     sl_ws_append REF (literal upgrade_line) ;;
     sl_ws_append REF (literal connection_line) ;;
     sl_ws_append REF (literal "Sec-WebSocket-Accept: ") ;;
     sl_ws_append REF accept ;;
     sl_ws_append REF (literal CRLF) ;;
     (if negb (sl_str_is_empty protocol) then
        sl_ws_append REF (literal "Sec-WebSocket-Protocol: ") ;;
        sl_ws_append REF protocol ;;
        sl_ws_append REF (literal CRLF)
      else mret tt) ;;
     sl_ws_append REF (literal CRLF) ;;
     gets (fun s => sl_byte_builder_view REF (bs_builder s))).

Definition sl_plan_route_is_websocket (m : mem) (route : option SlPlanRoute) : bool :=
  match route with None => false | Some route => sl_str_equal m (pt_kind route) (literal "websocket") end.

(** The reply carries a status and, when there is room for one, a diagnostic. *)
Definition refuse_with (status : Z) (out_diag : nullable) (message : string) : ST HandshakeSys unit :=
  upd_result (set_http_status status) ;; sl_ws_diag out_diag message.

(** [!sl_ws_header_value(...) || !accepted(value)], negated. *)
Definition header_passes (m : mem) (request : SlHttpRequestHead) (name : string) (accepted : SlStr -> bool) : bool :=
  match sl_ws_header_value m (Some request) (literal name) REF with Some value => accepted value | None => false end.

Definition header_or_empty (m : mem) (request : SlHttpRequestHead) (name : string) : SlStr :=
  default sl_str_empty (sl_ws_header_value m (Some request) (literal name) REF).

(** From the key on. *)
Definition answer_key (arena : nullable) (request : SlHttpRequestHead) (route : SlPlanRoute) (out_diag : nullable) (key : SlStr)
    : ST HandshakeSys unit :=
  m ← gets (fun s => w_mem (hk_world s)) ;
  let key := sl_ws_trim m key in
  if negb (sl_ws_origin_allowed m (Some (pt_websocket route)) (header_or_empty m request "Origin"))
  then refuse_with 403 out_diag "WebSocket origin is not allowed" else
  let protocol := sl_ws_select_protocol m (Some (pt_websocket route)) (header_or_empty m request "Sec-WebSocket-Protocol") in
  upd_result (set_protocol protocol) ;;
  if negb (bool_decide (pw_protocols (pt_websocket route) = [])) && sl_str_is_empty protocol
  then sl_ws_diag out_diag "WebSocket subprotocol is not allowed" else
  accept ← in_hk_world (sl_ws_accept_key arena key REF) ;
  response ← in_hk_world (sl_ws_build_response arena accept protocol REF) ;
  upd_result (set_response response) ;;
  upd_result (set_http_status 101).

Definition clear_handshake (out_result out_diag : nullable) (s : HandshakeSys) : HandshakeSys :=
  {| hk_world := hk_world s;
     hk_result := if is_null out_result then hk_result s else zero_handshake;
     hk_diag := if is_null out_diag then hk_diag s else zero_diag |}.

Definition sl_websocket_build_server_handshake (arena : nullable) (request : option SlHttpRequestHead) (route : option SlPlanRoute)
    (out_result out_diag : nullable) : ST HandshakeSys unit :=
  modify (clear_handshake out_result out_diag) ;;
  match request, route with
  | Some request, Some route =>
      return_if is_null arena || is_null out_result with SL_STATUS_INVALID_ARGUMENT ;;
      upd_result (set_http_status 400) ;;
      m ← gets (fun s => w_mem (hk_world s)) ;
      if negb (sl_plan_route_is_websocket m (Some route)) then sl_ws_diag out_diag "matched route is not a WebSocket route" else
      if au_present (pt_auth route) && au_required (pt_auth route) && negb (au_allow_anonymous (pt_auth route))
      then refuse_with 401 out_diag "WebSocket route requires authentication" else
      if negb (bool_decide (hd_method request = SL_HTTP_METHOD_GET)) then refuse_with 405 out_diag "WebSocket Upgrade requires GET" else
      if negb (hd_version_major request =? 1) || negb (hd_version_minor request =? 1)
      then sl_ws_diag out_diag "WebSocket Upgrade requires HTTP/1.1" else
      if negb (header_passes m request "Connection" (fun v => sl_ws_header_has_token m v (literal "Upgrade"))) ||
         negb (header_passes m request "Upgrade" (fun v => sl_str_equal_ci_ascii m (sl_ws_trim m v) (literal "websocket")))
      then sl_ws_diag out_diag "invalid WebSocket Upgrade headers" else
      if negb (header_passes m request "Sec-WebSocket-Version" (fun v => sl_str_equal m (sl_ws_trim m v) (literal "13")))
      then sl_ws_diag out_diag "WebSocket version must be 13" else
      match sl_ws_header_value m (Some request) (literal "Sec-WebSocket-Key") REF with
      | None => sl_ws_diag out_diag "invalid WebSocket client key"
      | Some key =>
          decoded ← in_hk_world (sl_ws_decode_client_key (sl_ws_trim m key)) ;
          if negb decoded then sl_ws_diag out_diag "invalid WebSocket client key" else
          answer_key arena request route out_diag key
      end
  | _, _ => fail SL_STATUS_INVALID_ARGUMENT
  end.
End Handshake.

(** * What the handshake answers *)

(** A request and a route by the bytes of their texts. *)
Record opening := { op_method : SlHttpMethod; op_major : Z; op_minor : Z; op_headers : list field }.
Record ws_route := {
  wr_kind : list Z; wr_auth : SlPlanAuthRequirement; wr_policy : SlPlanWebSocketOriginPolicy;
  wr_origins : list (list Z); wr_protocols : list (list Z);
}.

(** The first field of that name, in lower case. *)
Definition field_named (name : string) (fs : list field) : option (list Z) :=
  snd <$> List.find (fun f => is_text (map ascii_lower (fst f)) name) fs.

Definition items (value : list Z) : list (list Z) := map trim (split_at comma value).

Definition ends_in_padding (key : list Z) : bool := bool_decide (drop (length key - 2) key = [padding_char; padding_char]).

Inductive ws_answer := Refused (status : Z) (message : string) | Switched (key protocol : list Z).

Section Answer.
Context {OS : OpenSsl}.

(** Eighteen bytes, the last two of them padding: a nonce of sixteen. *)
Definition key_accepted (key : list Z) : bool :=
  (Z.of_nat (length key) <=? 64) && (snd (EVP_DecodeBlock key) =? 18) && ends_in_padding key.

Definition origin_accepted (route : ws_route) (origin : list Z) : bool :=
  bool_decide (origin = []) || negb (bool_decide (wr_policy route = SL_PLAN_WEBSOCKET_ORIGINS_LIST)) ||
  bool_decide (origin ∈ wr_origins route).

(** The first of the requested protocols that the route has. *)
Definition chosen_protocol (route : ws_route) (requested : list Z) : list Z :=
  default [] (List.find (fun p => bool_decide (p ∈ wr_protocols route)) (items requested)).

Definition field_or_empty (name : string) (fs : list field) : list Z := default [] (field_named name fs).

Definition field_passes (name : string) (fs : list field) (accepted : list Z -> bool) : bool :=
  match field_named name fs with Some v => accepted v | None => false end.

Definition handshake_answer (q : opening) (r : ws_route) : ws_answer :=
  let fs := op_headers q in
  let protocol := chosen_protocol r (field_or_empty "sec-websocket-protocol" fs) in
  if negb (is_text (wr_kind r) "websocket") then Refused 400 "matched route is not a WebSocket route" else
  if au_present (wr_auth r) && au_required (wr_auth r) && negb (au_allow_anonymous (wr_auth r))
  then Refused 401 "WebSocket route requires authentication" else
  if negb (bool_decide (op_method q = SL_HTTP_METHOD_GET)) then Refused 405 "WebSocket Upgrade requires GET" else
  if negb (op_major q =? 1) || negb (op_minor q =? 1) then Refused 400 "WebSocket Upgrade requires HTTP/1.1" else
  if negb (field_passes "connection" fs (fun v => existsb (fun t => is_text (map ascii_lower t) "upgrade") (items v))) ||
     negb (field_passes "upgrade" fs (fun v => is_text (map ascii_lower (trim v)) "websocket"))
  then Refused 400 "invalid WebSocket Upgrade headers" else
  if negb (field_passes "sec-websocket-version" fs (fun v => is_text (trim v) "13")) then Refused 400 "WebSocket version must be 13" else
  match trim <$> field_named "sec-websocket-key" fs with
  | None => Refused 400 "invalid WebSocket client key"
  | Some key =>
      if negb (key_accepted key) then Refused 400 "invalid WebSocket client key" else
      if negb (origin_accepted r (field_or_empty "origin" fs)) then Refused 403 "WebSocket origin is not allowed" else
      if negb (bool_decide (wr_protocols r = [])) && bool_decide (protocol = [])
      then Refused 400 "WebSocket subprotocol is not allowed" else
      Switched key protocol
  end.

Definition accept_text (key : list Z) : list Z := EVP_EncodeBlock (SHA1 (key ++ string_bytes guid)).

Definition line (name : string) (value : list Z) : list Z := string_bytes name ++ string_bytes ": " ++ value ++ string_bytes CRLF.

Definition switch_text (key protocol : list Z) : list Z :=
  string_bytes ("HTTP/1.1 101 Switching Protocols" ++ CRLF) ++
  line "Upgrade" (string_bytes "websocket") ++ line "Connection" (string_bytes "Upgrade") ++
  line "Sec-WebSocket-Accept" (accept_text key) ++
  (if bool_decide (protocol = []) then [] else line "Sec-WebSocket-Protocol" protocol) ++ string_bytes CRLF.
End Answer.

(** * Reading the request *)

Definition ws_literals : list string :=
  ["Connection"; "Upgrade"; "websocket"; "Sec-WebSocket-Version"; "13"; "Sec-WebSocket-Key"; "Origin"; "Sec-WebSocket-Protocol";
   status_line; upgrade_line; connection_line; "Sec-WebSocket-Accept: "; "Sec-WebSocket-Protocol: "; CRLF; guid]%string.

Section Reading.
Context {SC : SimdConfig} {RO : ReadOnlyData} (frame : Z).

(** The addresses of a text do not wrap around. *)
Definition bounded (v : SlStr) : Prop := str_ptr v + str_length v <= UINTPTR_MAX.

(** What the handshake starts from. *)
Record ws_ready (w : World) : Prop := {
  wy_wf : arena_wf (w_arena w);
  wy_frame : frame_ok frame w;
  wy_literals : forall l, l ∈ ws_literals -> 0 < rodata l /\ text_at frame w (literal l) (string_bytes l);
  wy_bounds : forall l, l ∈ ws_literals -> bounded (literal l);
}.

Lemma ws_ready_grown w w' : grown frame w w' -> ws_ready w -> ws_ready w'.
Proof.
  intros Hg [H1 H2 H3 H4]. split; [apply Hg|by eapply frame_grown; [apply Hg|]| |done]. intros l Hl. destruct (H3 l Hl) as [? ?].
  split; [done|by eapply text_at_grown].
Qed.

Lemma ws_literals_in w : ws_ready w -> literals_in (w_mem w) ws_literals.
Proof. intros H l Hl. destruct (wy_literals _ H l Hl) as [? (_ & _ & _ & ?)]. done. Qed.

Lemma literal_valid l : 0 < rodata l -> str_valid (literal l).
Proof. intros H. split; cbn; unfold string_size; lia. Qed.

(** Comparison with a literal whatever the case of both. *)
Lemma equal_ci_lowered w v l low :
  ws_ready w -> l ∈ ws_literals -> map ascii_lower (string_bytes l) = string_bytes low -> text_view v ->
  sl_str_equal_ci_ascii (w_mem w) v (literal l) = is_text (map ascii_lower (str_val (w_mem w) v)) low.
Proof.
  intros Hw Hl Hlow [Hv Hp Hs]. destruct (ws_literals_in w Hw l Hl) as [Hr El]. rewrite sl_str_equal_ci_ascii_scalar_eq by done.
  rewrite sl_str_equal_ci_scalar_spec by auto using literal_valid. by rewrite El, Hlow.
Qed.

Lemma equal_text w v l : ws_ready w -> l ∈ ws_literals -> text_view v -> sl_str_equal (w_mem w) v (literal l) = is_text (str_val (w_mem w) v) l.
Proof.
  intros Hw Hl [Hv _ _]. destruct (ws_literals_in w Hw l Hl) as [Hr El]. rewrite sl_str_equal_spec by auto using literal_valid. by rewrite El.
Qed.

Definition header_at (w : World) (h : SlHttpHeader) (f : field) : Prop :=
  text_at frame w (hh_name h) (fst f) /\ text_at frame w (hh_value h) (snd f).

Lemma header_loop_spec w l low hs fs :
  ws_ready w -> l ∈ ws_literals -> map ascii_lower (string_bytes l) = string_bytes low -> Forall2 (header_at w) hs fs ->
  option_Forall2 (text_at frame w) (header_loop (w_mem w) hs (literal l)) (field_named low fs).
Proof.
  intros Hw Hl Hlow. unfold field_named. induction 1 as [|h f hs fs [(Hn & _ & _ & En) Hv] _ IH]; [constructor|]. cbn [header_loop List.find].
  rewrite (equal_ci_lowered w _ l low Hw Hl Hlow Hn), En. destruct (is_text (map ascii_lower (fst f)) low); [by constructor|exact IH].
Qed.

(** A request whose fields are [q]'s. *)
Record request_at (w : World) (request : SlHttpRequestHead) (q : opening) : Prop := {
  rq_line : op_method q = hd_method request /\ op_major q = hd_version_major request /\ op_minor q = hd_version_minor request;
  rq_headers : Forall2 (header_at w) (hd_headers request) (op_headers q);
  rq_array : hd_headers request <> [] -> hd_headers_ptr request <> 0;
}.

Lemma request_grown w w' request q : grown frame w w' -> request_at w request q -> request_at w' request q.
Proof.
  intros Hg [H1 H2 H3]. split; [done| |done]. eapply Forall2_impl; [exact H2|]. intros ? ? [? ?]. split; by eapply text_at_grown.
Qed.

Lemma header_value_spec w request q l low :
  ws_ready w -> request_at w request q -> l ∈ ws_literals -> map ascii_lower (string_bytes l) = string_bytes low ->
  option_Forall2 (text_at frame w) (sl_ws_header_value (w_mem w) (Some request) (literal l) REF) (field_named low (op_headers q)).
Proof.
  intros Hw Hq Hl Hlow. unfold sl_ws_header_value. cbn [is_null orb].
  assert (E : negb (bool_decide (hd_headers request = [])) && (hd_headers_ptr request =? 0) = false).
  { destruct (bool_decide_reflect (hd_headers request = [])) as [|Hne]; [done|]. pose proof (rq_array _ _ _ Hq Hne). cbn. lia. }
  rewrite E. apply header_loop_spec; [done..|apply Hq].
Qed.

Lemma header_passes_spec w request q l low accepted ok :
  ws_ready w -> request_at w request q -> l ∈ ws_literals -> map ascii_lower (string_bytes l) = string_bytes low ->
  (forall v b, text_at frame w v b -> accepted v = ok b) ->
  header_passes (w_mem w) request l accepted = field_passes low (op_headers q) ok.
Proof.
  intros Hw Hq Hl Hlow Hok. unfold header_passes, field_passes.
  destruct (header_value_spec w request q l low Hw Hq Hl Hlow) as [v b Hv|]; [by apply Hok|done].
Qed.

Lemma header_or_empty_spec w request q l low :
  ws_ready w -> request_at w request q -> l ∈ ws_literals -> map ascii_lower (string_bytes l) = string_bytes low ->
  text_at frame w (header_or_empty (w_mem w) request l) (field_or_empty low (op_headers q)).
Proof.
  intros Hw Hq Hl Hlow. unfold header_or_empty, field_or_empty.
  destruct (header_value_spec w request q l low Hw Hq Hl Hlow) as [v b Hv|]; [done|apply no_text].
Qed.

Lemma ws_trim_spec m v : text_view v -> text_view (sl_ws_trim m v) /\ str_val m (sl_ws_trim m v) = trim (str_val m v).
Proof. exact (trim_spec m v). Qed.

Lemma trim_within m v :
  0 <= str_length v ->
  str_length (sl_ws_trim m v) = 0 \/
  str_ptr v <= str_ptr (sl_ws_trim m v) /\ str_ptr (sl_ws_trim m v) + str_length (sl_ws_trim m v) <= str_ptr v + str_length v.
Proof.
  intros Hl. unfold sl_ws_trim. destruct (str_ptr v =? 0); [by left|right]. cbn [str_ptr str_length sl_str_from_parts].
  pose proof (skip_front_spec m (str_ptr v) (Z.to_nat (str_length v))) as [H1 _].
  pose proof (skip_back_spec m (str_ptr v + Z.of_nat (skip_front m (str_ptr v) (Z.to_nat (str_length v))))
    (Z.to_nat (str_length v) - skip_front m (str_ptr v) (Z.to_nat (str_length v)))) as [H2 _]. lia.
Qed.

Lemma trim_text w v l : text_at frame w v l -> text_at frame w (sl_ws_trim (w_mem w) v) (trim l).
Proof.
  intros (Hv & Ho & Hd & <-). destruct (ws_trim_spec (w_mem w) v Hv) as [Ht Et]. pose proof (trim_within (w_mem w) v (proj1 (tv_valid _ Hv))) as Hin.
  split_and!; [done| | |done]; unfold outside_free, disjoint_ranges in *; pose proof (proj1 (tv_valid _ Ht)); lia.
Qed.

(** * Lists of items *)

(** The items from [cursor] on. *)
Definition items_from (m : mem) (value : SlStr) (cursor : Z) : list (list Z) :=
  items (load_bytes m (str_ptr value + cursor) (str_length value - cursor)).

Lemma items_step m value cursor :
  text_view value -> 0 <= cursor <= str_length value ->
  cursor <= item_end m value cursor <= str_length value /\ text_view (item m value cursor) /\
  items_from m value cursor = str_val m (item m value cursor) ::
    if item_end m value cursor =? str_length value then [] else items_from m value (item_end m value cursor + 1).
Proof.
  intros [[Hl Hv] Hp Hs] Hc. unfold items_from, items, item, item_end. pose proof (find_byte_view m value comma cursor (str_length value) Hc) as Hf. cbv zeta in Hf.
  set (e := find_byte m value comma cursor (Z.to_nat (str_length value - cursor))) in *. destruct Hf as (He & _ & ->). split; [done|].
  destruct (ws_trim_spec m (sl_str_from_parts (str_ptr value + cursor) (e - cursor))) as [T1 T2].
  { unfold simd_length in *. split; [split; cbn; lia|cbn; lia|unfold simd_length; cbn; lia]. }
  split; [done|]. rewrite T2. cbn [map]. f_equal. by destruct (e =? str_length value).
Qed.

Lemma token_loop_spec w value l low fuel cursor :
  ws_ready w -> l ∈ ws_literals -> map ascii_lower (string_bytes l) = string_bytes low -> text_view value ->
  0 <= cursor <= str_length value -> (Z.to_nat (str_length value - cursor) < fuel)%nat ->
  token_loop fuel (w_mem w) value (literal l) cursor = existsb (fun t => is_text (map ascii_lower t) low) (items_from (w_mem w) value cursor).
Proof.
  intros Hw Hl Hlow Hv. revert cursor. induction fuel as [|fuel IH]; intros cursor Hc Hf; [lia|]. cbn [token_loop].
  destruct (Z.leb_spec cursor (str_length value)); [|lia]. cbn [negb]. destruct (items_step (w_mem w) value cursor Hv Hc) as (He & Ht & ->). cbn [existsb].
  rewrite (equal_ci_lowered w _ l low Hw Hl Hlow Ht). destruct (is_text _ low); [done|]. cbn [orb].
  destruct (Z.eqb_spec (item_end (w_mem w) value cursor) (str_length value)); [done|]. apply IH; lia.
Qed.

Lemma has_token_spec w value b l low :
  ws_ready w -> l ∈ ws_literals -> map ascii_lower (string_bytes l) = string_bytes low -> string_size l <> 0 -> text_at frame w value b ->
  sl_ws_header_has_token (w_mem w) value (literal l) = existsb (fun t => is_text (map ascii_lower t) low) (items b).
Proof.
  intros Hw Hl Hlow Hz (Hv & _ & _ & <-). destruct (ws_literals_in w Hw l Hl) as [Hr _]. pose proof Hv as [[Hl0 Hv0] _ _].
  unfold sl_ws_header_has_token. cbn [str_ptr str_length literal sl_str_from_parts].
  destruct (Z.eqb_spec (rodata l) 0); [lia|]. destruct (Z.eqb_spec (string_size l) 0); [lia|].
  assert (E : (str_ptr value =? 0) && negb (str_length value =? 0) = false) by lia. rewrite E. cbn [orb].
  rewrite (token_loop_spec w value l low) by (done || unfold item_rounds; lia). unfold items_from. by rewrite Z.add_0_r, Z.sub_0_r.
Qed.

Lemma find_protocol w ps ts v :
  Forall2 (text_at frame w) ps ts -> text_view v ->
  match List.find (fun p => sl_str_equal (w_mem w) p v) ps with
  | Some p => bool_decide (str_val (w_mem w) v ∈ ts) = true /\ text_at frame w p (str_val (w_mem w) v)
  | None => bool_decide (str_val (w_mem w) v ∈ ts) = false
  end.
Proof.
  intros H [Hv _ _]. induction H as [|p t ps ts Hp _ IH]; cbn [List.find]; [by apply bool_decide_eq_false, not_elem_of_nil|].
  pose proof Hp as ([Hpv _ _] & _ & _ & Ep). rewrite sl_str_equal_spec, Ep by done. rewrite (bool_decide_ext _ _ (elem_of_cons ts _ t)).
  destruct (bool_decide_reflect (t = str_val (w_mem w) v)) as [->|Hne].
  - split; [apply bool_decide_eq_true; by left|done].
  - destruct (List.find _ ps) as [p'|]; [destruct IH as [IH ?]; split; [|done]|]; revert IH; rewrite ?bool_decide_eq_true, ?bool_decide_eq_false; naive_solver.
Qed.

Lemma protocol_loop_spec w ps ts requested fuel cursor :
  Forall2 (text_at frame w) ps ts -> text_view requested ->
  0 <= cursor <= str_length requested -> (Z.to_nat (str_length requested - cursor) < fuel)%nat ->
  text_at frame w (protocol_loop fuel (w_mem w) ps requested cursor)
    (default [] (List.find (fun p => bool_decide (p ∈ ts)) (items_from (w_mem w) requested cursor))).
Proof.
  intros Hps Hv. revert cursor. induction fuel as [|fuel IH]; intros cursor Hc Hf; [lia|]. cbn [protocol_loop].
  destruct (Z.leb_spec cursor (str_length requested)); [|lia]. cbn [negb]. destruct (items_step (w_mem w) requested cursor Hv Hc) as (He & Ht & ->).
  cbn [List.find]. pose proof (find_protocol w ps ts _ Hps Ht) as Hfd. destruct (List.find (fun p => sl_str_equal _ p _) ps) as [p|].
  - by destruct Hfd as [-> ?].
  - rewrite Hfd. destruct (Z.eqb_spec (item_end (w_mem w) requested cursor) (str_length requested)); [apply no_text|]. apply IH; lia.
Qed.

(** A route whose texts are [r]'s. *)
Record route_at (w : World) (route : SlPlanRoute) (r : ws_route) : Prop := {
  ru_kind : text_at frame w (pt_kind route) (wr_kind r);
  ru_auth : wr_auth r = pt_auth route;
  ru_policy : wr_policy r = pw_origin_policy (pt_websocket route);
  ru_origins : Forall2 (text_at frame w) (pw_origins (pt_websocket route)) (wr_origins r);
  ru_protocols : Forall2 (text_at frame w) (pw_protocols (pt_websocket route)) (wr_protocols r);
  ru_bounds : Forall bounded (pw_protocols (pt_websocket route));
  ru_arrays : (pw_origins (pt_websocket route) <> [] -> pw_origins_ptr (pt_websocket route) = REF) /\
              (pw_protocols (pt_websocket route) <> [] -> pw_protocols_ptr (pt_websocket route) = REF);
}.

Lemma route_grown w w' route r : grown frame w w' -> route_at w route r -> route_at w' route r.
Proof.
  intros Hg [H1 H2 H3 H4 H5 H6 H7]. split; [by eapply text_at_grown|done|done|..|done|done];
    (eapply Forall2_impl; [eassumption|]; intros ? ?; by apply text_at_grown).
Qed.

Lemma no_protocols w route r : route_at w route r -> bool_decide (pw_protocols (pt_websocket route) = []) = bool_decide (wr_protocols r = []).
Proof. intros H. pose proof (Forall2_length _ _ _ (ru_protocols _ _ _ H)). by destruct (pw_protocols _), (wr_protocols r). Qed.

Lemma select_protocol_spec w route r requested b :
  route_at w route r -> text_at frame w requested b ->
  text_at frame w (sl_ws_select_protocol (w_mem w) (Some (pt_websocket route)) requested) (chosen_protocol r b).
Proof.
  intros Hr (Hv & _ & _ & <-). unfold sl_ws_select_protocol, chosen_protocol. destruct (bool_decide_reflect (pw_protocols (pt_websocket route) = [])) as [E|E].
  - assert (Ep : wr_protocols r = []) by (pose proof (ru_protocols _ _ _ Hr) as H; rewrite E in H; by inversion H).
    rewrite Ep. assert (Hn : forall ls, List.find (fun p => bool_decide (p ∈ @nil (list Z))) ls = None).
    { induction ls as [|x ls IH]; [done|]. cbn [List.find]. rewrite bool_decide_eq_false_2 by apply not_elem_of_nil. exact IH. }
    rewrite Hn. apply no_text.
  - rewrite (proj2 (ru_arrays _ _ _ Hr) E). cbn [is_null]. pose proof (tv_valid _ Hv) as [Hl _].
    pose proof (protocol_loop_spec w _ _ requested (item_rounds requested) 0 (ru_protocols _ _ _ Hr) Hv ltac:(lia) ltac:(unfold item_rounds; lia)) as H.
    unfold items_from in H. rewrite Z.add_0_r, Z.sub_0_r in H. exact H.
Qed.

Lemma select_protocol_bounded m route requested :
  Forall bounded (pw_protocols (pt_websocket route)) -> bounded (sl_ws_select_protocol m (Some (pt_websocket route)) requested).
Proof.
  intros Hb. assert (He : bounded sl_str_empty) by (unfold bounded; cbn; size_lia). unfold sl_ws_select_protocol.
  destruct (bool_decide _); [done|]. destruct (is_null _); [done|]. generalize 0 at 1. induction (item_rounds requested) as [|fuel IH]; intros cursor; [done|].
  cbn [protocol_loop]. destruct (cursor <=? str_length requested); [|done]. cbn [negb]. destruct (List.find _ _) as [p|] eqn:E.
  - apply find_some in E as [E _]. rewrite Forall_forall in Hb. by apply Hb, list_elem_of_In.
  - by destruct (_ =? str_length requested).
Qed.

Lemma origin_allowed_spec w route r origin b :
  route_at w route r -> text_at frame w origin b ->
  sl_ws_origin_allowed (w_mem w) (Some (pt_websocket route)) origin = origin_accepted r b.
Proof.
  intros Hr (Hv & _ & _ & <-). unfold sl_ws_origin_allowed, origin_accepted. rewrite (view_empty (w_mem w) _ Hv), (ru_policy _ _ _ Hr).
  destruct (bool_decide (str_val (w_mem w) origin = [])) eqn:E; [done|].
  destruct (pw_origin_policy (pt_websocket route)) eqn:Ep; [done..|]. cbn [orb]. rewrite !bool_decide_eq_false_2, bool_decide_eq_true_2 by done. cbn [orb negb].
  assert (Ha : negb (bool_decide (pw_origins (pt_websocket route) = [])) && is_null (pw_origins_ptr (pt_websocket route)) = false).
  { destruct (bool_decide_reflect (pw_origins (pt_websocket route) = [])) as [|Hne]; [done|]. by rewrite (proj1 (ru_arrays _ _ _ Hr) Hne). }
  rewrite Ha. pose proof (ru_origins _ _ _ Hr) as H. clear - H Hv. induction H as [|p t ps ts ([Hp _ _] & _ & _ & Ep) _ IH]; cbn [existsb].
  { symmetry. by apply bool_decide_eq_false, not_elem_of_nil. }
  rewrite sl_str_equal_spec, Ep, IH by (done || apply Hv). rewrite (bool_decide_ext _ _ (elem_of_cons ts _ t)), bool_decide_or. f_equal. apply bool_decide_ext. done.
Qed.
End Reading.

(** * The key *)

Section Key.
Context {BC : BuildConfig} {SC : SimdConfig} {RO : ReadOnlyData} {OS : OpenSsl} {OL : OpenSslLaws OS} (frame : Z).

Local Abbreviation frame_write := (Frame.frame_write frame).
Local Abbreviation block_write := (Frame.block_write frame).

Definition padding_of (m : mem) (key : SlStr) : Z :=
  (if ld8 m (str_ptr key + (str_length key - 1)) =? padding_char then 1 else 0) +
  (if (1 <? str_length key) && (ld8 m (str_ptr key + (str_length key - 2)) =? padding_char) then 1 else 0).

Lemma padding_spec m key :
  0 < str_length key -> 0 <= padding_of m key <= 2 /\ (padding_of m key =? 2) = ends_in_padding (str_val m key).
Proof.
  intros Hl. unfold padding_of, ends_in_padding. split; [repeat case_match; lia|].
  pose proof (length_str_val m key ltac:(lia)) as Hn. destruct (Z.ltb_spec 1 (str_length key)) as [H1|H1]; cbn [andb].
  - assert (E : drop (length (str_val m key) - 2) (str_val m key) = [ld8 m (str_ptr key + (str_length key - 2)); ld8 m (str_ptr key + (str_length key - 1))]).
    { unfold str_val in *. pose proof (length_load_bytes m (str_ptr key) (str_length key - 2) ltac:(lia)) as Hk.
      replace (length (load_bytes m (str_ptr key) (str_length key)) - 2)%nat with (length (load_bytes m (str_ptr key) (str_length key - 2))) by lia.
      replace (str_length key) with (str_length key - 2 + 2) at 2 by lia. rewrite load_bytes_app, drop_app_length, !load_bytes_cons by lia.
      replace (str_ptr key + (str_length key - 1)) with (str_ptr key + (str_length key - 2) + 1) by lia. done. }
    rewrite E. destruct (Z.eqb_spec (ld8 m (str_ptr key + (str_length key - 1))) padding_char) as [->|N1],
      (Z.eqb_spec (ld8 m (str_ptr key + (str_length key - 2))) padding_char) as [->|N2]; symmetry;
      [by apply bool_decide_eq_true|apply bool_decide_eq_false; congruence..].
  - symmetry. destruct (ld8 m (str_ptr key + (str_length key - 1)) =? padding_char); apply bool_decide_eq_false; intros E; apply (f_equal length) in E;
      rewrite length_drop in E; cbn in E; lia.
Qed.

(** A result of OpenSSL is accepted when it is eighteen and the key ends in padding. *)
Lemma accepted_spec m key :
  0 < str_length key <= 64 ->
  (if (snd (EVP_DecodeBlock (str_val m key)) <? 0) || (snd (EVP_DecodeBlock (str_val m key)) <? padding_of m key) then false
   else snd (EVP_DecodeBlock (str_val m key)) - padding_of m key =? 16) = key_accepted (str_val m key).
Proof.
  intros Hl. destruct (padding_spec m key ltac:(lia)) as [Hb Hp]. unfold key_accepted. rewrite length_str_val, <- Hp by lia.
  destruct (decode_result (str_val m key)) as [->|[_ [k ->]]].
  - cbn. by destruct (_ <=? 64).
  - set (p := padding_of m key) in *. clearbody p. destruct (Z.leb_spec (str_length key) 64); [|lia]. cbn [andb].
    destruct (Z.ltb_spec (k * 3) 0), (Z.ltb_spec (k * 3) p); cbn [orb]; lia.
Qed.

Lemma empty_key_refused : key_accepted [] = false.
Proof.
  unfold key_accepted. pose proof (decode_bound []) as Hb. cbn in Hb. destruct (decode_result []) as [->|[-> _]]; [done|].
  destruct (fst (EVP_DecodeBlock [])); [done|cbn in Hb; lia].
Qed.

Lemma accepted_length k : key_accepted k = true -> k <> [] /\ Z.of_nat (length k) <= 64.
Proof.
  intros H. split; [intros ->; by rewrite empty_key_refused in H|]. unfold key_accepted in H. lia.
Qed.

(** The bytes of the key lie outside [decoded]. *)
Lemma key_unwritten w key l m :
  arena_wf (w_arena w) -> text_at frame w key l -> same_outside (frame + DECODED) (frame + DECODED + DECODED_BYTES) (w_mem w) m ->
  str_val m key = l.
Proof.
  intros Hwf Ht Hm. assert (Hg : grown frame w (set_mem m w)) by (eapply frame_write; [done| | |exact Hm]; unfold DECODED, DECODED_BYTES, FRAME_BYTES; clear; lia).
  by destruct (text_at_grown _ _ _ _ _ Hg Ht) as (_ & _ & _ & E).
Qed.

Lemma decode_key_runs w key l :
  arena_wf (w_arena w) -> text_at frame w key l -> 0 < str_length key <= 64 ->
  exists m, same_outside (frame + DECODED) (frame + DECODED + DECODED_BYTES) (w_mem w) m /\
    sl_ws_decode_client_key frame key w = (Ok (key_accepted l), set_mem (store m (frame + DECODED) (fst (EVP_DecodeBlock l))) w).
Proof.
  intros Hwf Ht Hl. exists (fill (w_mem w) (frame + DECODED) (Z.to_nat DECODED_BYTES) 0). split; [apply (fill_same_outside _ _ (Z.to_nat DECODED_BYTES))|].
  pose proof (key_unwritten w key l _ Hwf Ht (fill_same_outside (w_mem w) (frame + DECODED) (Z.to_nat DECODED_BYTES) 0)) as E.
  unfold sl_ws_decode_client_key, in_memory, zoom. unfold_st. cbn [w_mem set_mem]. set (m := fill _ _ _ _) in *.
  pose proof Ht as ([[_ Hv] _ _] & _). destruct (Z.eqb_spec (str_ptr key) 0); [lia|]. destruct (Z.eqb_spec (str_length key) 0); [lia|].
  destruct (Z.ltb_spec 64 (str_length key)); [lia|]. cbn [orb]. fold (padding_of m key). pose proof (accepted_spec m key Hl) as Ha. rewrite E in Ha |- *.
  destruct (EVP_DecodeBlock l) as [written r]. cbn [fst snd] in *. cbn. by rewrite Ha.
Qed.

(** No key of up to 43 characters is decoded past the array. *)
Lemma decode_key_outcome w key l :
  arena_wf (w_arena w) -> text_at frame w key l -> str_length key <= 43 ->
  exists w', sl_ws_decode_client_key frame key w = (Ok (key_accepted l), w') /\ grown frame w w'.
Proof.
  intros Hwf Ht Hl. pose proof Ht as ([[Hl0 Hv] _ _] & _ & _ & El). destruct (Z.eq_dec (str_length key) 0) as [E|E].
  - assert (l = []) as -> by (rewrite <- El; unfold str_val; rewrite E; done). rewrite empty_key_refused. eexists. split.
    + unfold sl_ws_decode_client_key, in_memory, zoom. unfold_st. rewrite E. change (0 =? 0) with true. rewrite orb_true_r. reflexivity.
    + eapply frame_write; [done| | |apply fill_same_outside]; unfold DECODED, FRAME_BYTES, DECODED_BYTES; lia.
  - destruct (decode_key_runs w key l Hwf Ht ltac:(lia)) as (m & Hm & ->). eexists. split; [done|].
    apply (frame_write _ _ (frame + DECODED) DECODED_BYTES); [done|unfold DECODED; lia|unfold DECODED, DECODED_BYTES, FRAME_BYTES; lia|].
    eapply same_outside_trans; [exact Hm|]. eapply same_outside_weaken; [apply store_same_outside|lia|].
    pose proof (decode_bound l) as Hb. rewrite <- El, length_str_val in Hb by lia. rewrite El in Hb. unfold DECODED_BYTES. lia.
Qed.

(** C27: The array of 32 bytes that receives the decoded key can be overrun.  Whatever
    33, 36, ..., 48 bytes a client chooses, their base64 form, a key of 44, 48, ..., 64
    characters, passes the test of the key's length, and decoding it puts those of the
    bytes after the first 32, up to sixteen of them, behind the end of the array. *)
Theorem websocket_key_overflows w key chosen k :
  arena_wf (w_arena w) -> Forall is_byte chosen -> Z.of_nat (length chosen) = 3 * k -> 11 <= k <= 16 ->
  text_at frame w key (EVP_EncodeBlock chosen) ->
  let '(_, w') := sl_ws_decode_client_key frame key w in
  str_length key = 4 * k /\ 0 < 3 * k - DECODED_BYTES /\
  load_bytes (w_mem w') (frame + DECODED + DECODED_BYTES) (3 * k - DECODED_BYTES) = drop (Z.to_nat DECODED_BYTES) chosen.
Proof.
  intros Hwf Hb Hn Hk Ht. pose proof Ht as ([[Hl0 _] _ _] & _ & _ & El).
  assert (Hkey : str_length key = 4 * k).
  { rewrite <- (length_str_val (w_mem w)), El, encode_length, Hn by done. replace (3 * k + 2) with (2 + k * 3) by lia. rewrite Z.div_add by lia. change (2 / 3) with 0. lia. }
  destruct (decode_key_runs w key _ Hwf Ht ltac:(lia)) as (m & _ & ->).
  rewrite (decode_encoded chosen Hb ltac:(exists k; lia)). cbn [fst snd w_mem set_mem].
  split; [done|]. split; [unfold DECODED_BYTES; lia|]. rewrite <- (load_store m (frame + DECODED) chosen Hb) at 2.
  replace (length chosen) with (Z.to_nat (3 * k)) by lia. fold (load_bytes (store m (frame + DECODED) chosen) (frame + DECODED) (3 * k)).
  by rewrite load_bytes_drop by (unfold DECODED_BYTES; lia).
Qed.

(** * The accept value *)

(** The key and the GUID in a block of their own. *)
Lemma input_spec w w1 p key l :
  ws_ready frame w -> text_at frame w key l -> fresh_block p (str_length key + string_size guid) w w1 -> forward w w1 ->
  let m := copy_forward (copy_forward (w_mem w1) p (str_ptr key) (Z.to_nat (str_length key))) (p + str_length key) (rodata guid)
             (Z.to_nat (string_size guid)) in
  grown frame w (set_mem m w1) /\ load_bytes m p (str_length key + string_size guid) = l ++ string_bytes guid.
Proof.
  intros Hr (Hv & Ho & _ & El) Hb Hf m. destruct (wy_literals _ _ Hr guid ltac:(listed)) as [_ (_ & Hgo & _ & Hgv)]. cbn in Hgo.
  pose proof (tv_valid _ Hv) as [Hl0 _]. pose proof (fb_others _ _ _ _ Hb _ _ Ho) as (D1 & L1 & _). pose proof (fb_others _ _ _ _ Hb _ _ Hgo) as (D2 & L2 & _).
  assert (Hg36 : string_size guid = 36) by done. set (n1 := Z.to_nat (str_length key)) in *. set (n2 := Z.to_nat (string_size guid)) in *.
  destruct (copy_into (w_mem w1) p (str_ptr key) n1) as [C1 S1]; [unfold disjoint_ranges in *; lia|].
  destruct (copy_into (copy_forward (w_mem w1) p (str_ptr key) n1) (p + str_length key) (rodata guid) n2) as [C2 S2]; [unfold disjoint_ranges in *; lia|]. split.
  - apply (block_write w w1 m p (str_length key + string_size guid) p (p + (str_length key + string_size guid))); [by eapply fresh_block_grown| |lia|lia|].
    { intros q k Hq. by apply (fb_others _ _ _ _ Hb). }
    eapply same_outside_trans; eapply same_outside_weaken; [exact S1|lia|lia|exact S2|lia|lia].
  - rewrite load_bytes_app by lia. f_equal.
    + unfold load_bytes. fold n1. unfold m. erewrite load_same; [|exact S2|unfold disjoint_ranges; lia]. exact (eq_trans C1 (eq_trans L1 El)).
    + unfold load_bytes. fold n2. unfold m. rewrite C2. erewrite load_same; [|exact S1|unfold disjoint_ranges in *; lia].
      rewrite <- Hgv. unfold str_val. cbn [str_ptr str_length literal sl_str_from_parts]. exact L2.
Qed.

Lemma digest_written m digest : Forall is_byte digest -> length digest = 20%nat -> load_bytes (store m (frame + DIGEST) digest) (frame + DIGEST) SHA_DIGEST_LENGTH = digest.
Proof. intros Hb Hl. unfold load_bytes. change (Z.to_nat SHA_DIGEST_LENGTH) with 20%nat. rewrite <- Hl at 1. by apply load_store. Qed.

(** The encoded digest is copied out of the frame. *)
Lemma publish_accept w text :
  ws_ready frame w -> length text = 28%nat -> Forall is_byte text ->
  match (in_memory (modify (fun m => store m (frame + ACCEPT) (text ++ [0]))) ;;
         return_if Z.of_nat (length text) <=? 0 with SL_STATUS_INTERNAL ;;
         copied ← sl_arena_alloc REF (Z.of_nat (length text)) 1 REF ;
         in_memory (modify (fun m => copy_forward m copied (frame + ACCEPT) (Z.to_nat (Z.of_nat (length text))))) ;;
         mret (sl_str_from_parts copied (Z.of_nat (length text)))) w with
  | (Ok v, w') => grown frame w w' /\ text_at frame w' v text /\ bounded v
  | (Err c, w') => grown frame w w' /\ starved c
  end.
Proof.
  intros Hr Hn Hb. rewrite Hn. unfold in_memory, zoom. unfold_st. change (Z.of_nat 28 <=? 0) with false. cbv iota.
  set (w1 := set_mem (store (w_mem w) (frame + ACCEPT) (text ++ [0])) w).
  assert (G1 : grown frame w w1).
  { eapply frame_write; [apply Hr| | |apply store_same_outside]; unfold ACCEPT, FRAME_BYTES; rewrite ?length_app, ?Hn; cbn; lia. }
  assert (Et : load (w_mem w1) (frame + ACCEPT) 28 = text).
  { unfold w1. cbn [w_mem set_mem]. pose proof (load_store (w_mem w) (frame + ACCEPT) (text ++ [0])) as H. rewrite length_app, Hn, load_app in H.
    apply app_inj_1 in H; [apply H|by rewrite length_load|]. apply Forall_app. split; [done|]. constructor; [split; lia|done]. }
  clearbody w1. pose proof (ws_ready_grown _ _ _ G1 Hr) as R1. pose proof (alloc_block 28 w1 (wy_wf _ _ R1) ltac:(size_lia) ltac:(lia)) as Ha.
  change (Z.of_nat 28) with 28. destruct (sl_arena_alloc REF 28 1 REF w1) as [[p|c] w2] eqn:E; rewrite E; clear E.
  2: { destruct Ha as [-> Ha]. by split. }
  destruct Ha as [Hbk Hf]. destruct (wy_frame _ _ R1) as (F1 & F2 & F3). destruct (fb_others _ _ _ _ Hbk _ _ F3) as (Hd & Hl & _).
  assert (Hoa : outside_free (w_arena w1) (frame + ACCEPT) 28) by (eapply outside_free_sub; [exact F3|unfold ACCEPT; lia|unfold ACCEPT, FRAME_BYTES; lia]).
  destruct (fb_others _ _ _ _ Hbk _ _ Hoa) as (Hda & Hla & _).
  change (Z.to_nat 28) with 28%nat. destruct (copy_into (w_mem w2) p (frame + ACCEPT) 28) as [C1 S1]; [exact Hda|]. cbv iota beta. split.
  - eapply grown_trans; [exact G1|]. apply (block_write w1 w2 _ p 28 p (p + Z.of_nat 28)); [by eapply fresh_block_grown| |lia|lia|exact S1].
    intros q k Hq. by apply (fb_others _ _ _ _ Hbk).
  - split; [split_and!; cbn [str_ptr str_length sl_str_from_parts w_arena set_mem]; [|apply Hbk|exact Hd|]|apply Hbk].
    + pose proof (fb_pos _ _ _ _ Hbk). split; [split; cbn; lia|cbn; lia|]. unfold simd_length. cbn. size_lia.
    + exact (eq_trans C1 (eq_trans Hla Et)).
Qed.

Lemma accept_outcome w key l :
  ws_ready frame w -> text_at frame w key l -> 0 < str_length key <= 64 ->
  match sl_ws_accept_key frame REF key REF w with
  | (Ok v, w') => grown frame w w' /\ text_at frame w' v (accept_text l) /\ bounded v
  | (Err c, w') => grown frame w w' /\ starved c
  end.
Proof.
  intros Hr Ht Hl. unfold sl_ws_accept_key. cbn [is_null orb]. unfold mbind, st_bind. rewrite !written. cbn [w_mem set_mem].
  pose proof Ht as ([[_ Hv] _ _] & _). destruct (Z.eqb_spec (str_ptr key) 0); [lia|].
  assert (E36 : string_size guid = 36) by done. rewrite wrap64_small by (rewrite E36; size_lia).
  set (w0 := set_mem _ (set_mem _ w)).
  assert (G0 : grown frame w w0).
  { eapply (grown_trans _ _ (set_mem (fill (w_mem w) (frame + DIGEST) (Z.to_nat SHA_DIGEST_LENGTH) 0) w));
      (eapply frame_write; [apply Hr| | |apply fill_same_outside]); unfold DIGEST, ACCEPT, ACCEPT_BYTES, SHA_DIGEST_LENGTH, FRAME_BYTES; lia. }
  pose proof (ws_ready_grown _ _ _ G0 Hr) as R0. pose proof (text_at_grown _ _ _ _ _ G0 Ht) as T0. clearbody w0.
  pose proof (alloc_block (str_length key + string_size guid) w0 (wy_wf _ _ R0) ltac:(rewrite E36; size_lia) ltac:(lia)) as Ha.
  destruct (sl_arena_alloc REF (str_length key + string_size guid) 1 REF w0) as [[p|c] w1].
  2: { destruct Ha as [-> Ha]. done. }
  destruct Ha as [Hb Hf]. destruct (input_spec w0 w1 p key l R0 T0 Hb Hf) as [G2 Hin]. cbv zeta in G2, Hin.
  rewrite !written. unfold gets. cbn [w_mem set_mem].
  set (m2 := copy_forward (copy_forward (w_mem w1) p _ _) _ _ _) in *. rewrite Hin. set (m3 := store m2 (frame + DIGEST) _).
  assert (G3 : grown frame w (set_mem m3 (set_mem m2 w1))).
  { eapply grown_trans; [exact G0|]. eapply grown_trans; [exact G2|]. eapply frame_write; [apply G2| | |apply store_same_outside];
      unfold DIGEST, FRAME_BYTES; rewrite ?sha1_length; lia. }
  assert (Ed : load_bytes m3 (frame + DIGEST) SHA_DIGEST_LENGTH = SHA1 (l ++ string_bytes guid)) by (apply digest_written; [apply sha1_bytes|apply sha1_length]).
  rewrite Ed. fold (accept_text l).
  change (set_mem m3 (set_mem m2 (set_mem (copy_forward (w_mem w1) p (str_ptr key) (Z.to_nat (str_length key))) w1))) with (set_mem m3 (set_mem m2 w1)).
  pose proof (encode_length (SHA1 (l ++ string_bytes guid))) as El. rewrite sha1_length in El. fold (accept_text l) in El. change (4 * ((Z.of_nat 20 + 2) / 3)) with 28 in El.
  pose proof (publish_accept _ (accept_text l) (ws_ready_grown _ _ _ G3 Hr) ltac:(lia) ltac:(apply encode_bytes)) as Hp.
  unfold mbind, st_bind in Hp. match type of Hp with match ?x with pair _ _ => _ end => destruct x as [[v|c] w4] end;
    destruct Hp as [G4 Hp]; (split; [by eapply grown_trans|done]).
Qed.

(** * The response *)

(** A step that adds [l] to what is collected, and one that ends with its view. *)
Definition emits (w0 : World) (c : ST BuilderSys unit) (l : list Z) : Prop := forall vs s, collecting frame w0 1024 vs s ->
  match c s with
  | (Ok _, s') => collecting frame w0 1024 (vs ++ l) s'
  | (Err c, s') => grown frame w0 (bs_world s') /\ (c = SL_STATUS_CAPACITY_EXCEEDED /\ 1024 < Z.of_nat (length (vs ++ l)) \/ starved c)
  end.

Definition builds (w0 : World) (c : ST BuilderSys SlBytes) (l : list Z) : Prop := forall vs s, collecting frame w0 1024 vs s ->
  match c s with
  | (Ok b, s') => grown frame w0 (bs_world s') /\ held frame (bs_world s') b (vs ++ l) /\ Z.of_nat (length (vs ++ l)) <= 1024
  | (Err c, s') => grown frame w0 (bs_world s') /\ (c = SL_STATUS_CAPACITY_EXCEEDED /\ 1024 < Z.of_nat (length (vs ++ l)) \/ starved c)
  end.

Lemma emits_nothing w0 : emits w0 (mret tt) [].
Proof. intros vs s H. by rewrite app_nil_r. Qed.

Lemma ws_emits_seq w0 c1 c2 l1 l2 : emits w0 c1 l1 -> emits w0 c2 l2 -> emits w0 (c1 ;; c2) (l1 ++ l2).
Proof.
  intros H1 H2 vs s H. unfold mbind, st_bind. specialize (H1 vs s H). destruct (c1 s) as [[[]|c] s1].
  - specialize (H2 _ s1 H1). rewrite <- app_assoc in H2. exact H2.
  - destruct H1 as [Hg [[-> Hlt]|Hst]]; (split; [done|]); [left|by right]. split; [done|]. rewrite !length_app in *. lia.
Qed.

Lemma builds_seq w0 c1 c2 l1 l2 : emits w0 c1 l1 -> builds w0 c2 l2 -> builds w0 (c1 ;; c2) (l1 ++ l2).
Proof.
  intros H1 H2 vs s H. unfold mbind, st_bind. specialize (H1 vs s H). destruct (c1 s) as [[[]|c] s1].
  - specialize (H2 _ s1 H1). rewrite <- app_assoc in H2. exact H2.
  - destruct H1 as [Hg [[-> Hlt]|Hst]]; (split; [done|]); [left|by right]. split; [done|]. rewrite !length_app in *. lia.
Qed.

Lemma builds_view w0 : frame_ok frame w0 -> builds w0 (gets (fun s => sl_byte_builder_view REF (bs_builder s))) [].
Proof.
  intros Hf vs s H. unfold gets. rewrite app_nil_r. split_and!; [by eapply collecting_grown|by eapply collected_held|by eapply collected_fits].
Qed.

Lemma emits_text w0 v l : text_at frame w0 v l -> bounded v -> emits w0 (sl_ws_append REF v) l.
Proof.
  intros (Hv & Ho & Hd & <-) Hb vs s H. apply (collect_append frame w0 1024 vs s (sl_bytes_from_parts (str_ptr v) (str_length v)) H).
  destruct Hv as [[Hl Hv] Hp Hs]. split_and!; [by split| |exact Ho|unfold disjoint_ranges, FRAME_BYTES, SCRATCH_BYTES, SL_BYTE_BUILDER_SMALL_CAPACITY in *; cbn; lia].
  unfold bytes_wf. cbn. unfold bounded in Hb. lia.
Qed.

Lemma ws_emits_literal w0 l : ws_ready frame w0 -> l ∈ ws_literals -> emits w0 (sl_ws_append REF (literal l)) (string_bytes l).
Proof. intros Hr Hl. apply emits_text; [by apply Hr|by apply (wy_bounds _ _ Hr)]. Qed.

Lemma build_response_outcome w accept protocol key p :
  ws_ready frame w -> text_at frame w accept (accept_text key) -> bounded accept -> text_at frame w protocol p -> bounded protocol ->
  match sl_ws_build_response frame REF accept protocol REF w with
  | (Ok b, w') => grown frame w w' /\ held frame w' b (switch_text key p) /\ Z.of_nat (length (switch_text key p)) <= 1024
  | (Err c, w') => grown frame w w' /\ (c = SL_STATUS_CAPACITY_EXCEEDED /\ 1024 < Z.of_nat (length (switch_text key p)) \/ starved c)
  end.
Proof.
  intros Hr Ha Hab Hp Hpb. unfold sl_ws_build_response, with_local_builder.
  pose proof (init_outcome frame 1024 w (wy_wf _ _ Hr) ltac:(size_lia)) as Hi. unfold mbind at 1, st_bind at 1.
  destruct (sl_byte_builder_init_arena REF REF 256 1024 _) as [[[]|c] s].
  2: { destruct Hi as [-> [[_ Hi]|Hi]]; [lia|]. split; [apply grown_refl, Hr|by right]. }
  destruct Hi as [_ Hc]. pose proof Hp as (Hpv & _ & _ & Ep). rewrite (view_empty (w_mem w) _ Hpv), Ep.
  assert (HP : emits w (if negb (bool_decide (p = [])) then
                          sl_ws_append REF (literal "Sec-WebSocket-Protocol: ") ;; sl_ws_append REF protocol ;; sl_ws_append REF (literal CRLF)
                        else mret tt) (if bool_decide (p = []) then [] else line "Sec-WebSocket-Protocol" p)).
  { destruct (bool_decide (p = [])); cbn [negb]; [apply emits_nothing|].
    apply (ws_emits_seq w _ _ (string_bytes "Sec-WebSocket-Protocol: ")); [apply ws_emits_literal; [done|listed]|].
    apply ws_emits_seq; [by apply emits_text|apply ws_emits_literal; [done|listed]]. }
  match goal with |- context [let '(_, _) := ?c s in _] => assert (HB : builds w c (switch_text key p)) end.
  { unfold switch_text. apply builds_seq; [apply (ws_emits_literal w status_line); [done|listed]|].
    apply (builds_seq w _ _ (string_bytes upgrade_line)); [apply ws_emits_literal; [done|listed]|].
    apply (builds_seq w _ _ (string_bytes connection_line)); [apply ws_emits_literal; [done|listed]|]. unfold line at 1. rewrite <- !app_assoc.
    apply (builds_seq w _ _ (string_bytes "Sec-WebSocket-Accept: ")); [apply ws_emits_literal; [done|listed]|].
    apply builds_seq; [by apply emits_text|]. apply builds_seq; [apply ws_emits_literal; [done|listed]|]. apply builds_seq; [exact HP|].
    rewrite <- (app_nil_r (string_bytes CRLF)). apply builds_seq; [apply ws_emits_literal; [done|listed]|]. apply builds_view, Hr. }
  specialize (HB [] s Hc). cbn [app] in HB. match goal with |- context [let '(_, _) := ?c s in _] => destruct (c s) as [[b|c0] s1] end; exact HB.
Qed.

(** * The handshake *)

(** The result as it is while the request is checked. *)
Definition undecided : SlWebSocketHandshakeResult := set_http_status 400 zero_handshake.

(** What the caller is left with: a refusal with its status and message, or the
    response, unless it is longer than the builder may grow or the arena is full. *)
Definition answered (w0 : World) (cleared : SlDiag) (out_diag : nullable) (a : ws_answer) (r : result unit) (s : HandshakeSys) : Prop :=
  grown frame w0 (hk_world s) /\
  match a with
  | Refused status message =>
      r = Ok tt /\ hr_http_status (hk_result s) = status /\ text_at frame (hk_world s) (hr_selected_protocol (hk_result s)) [] /\
      hr_response_bytes (hk_result s) = sl_bytes_empty /\ hk_diag s = if is_null out_diag then cleared else refusal_diag message
  | Switched key protocol =>
      let text := switch_text key protocol in
      hk_diag s = cleared /\ text_at frame (hk_world s) (hr_selected_protocol (hk_result s)) protocol /\
      match r with
      | Ok _ => hr_http_status (hk_result s) = 101 /\ held frame (hk_world s) (hr_response_bytes (hk_result s)) text /\ Z.of_nat (length text) <= 1024
      | Err c => hr_http_status (hk_result s) = 400 /\ hr_response_bytes (hk_result s) = sl_bytes_empty /\
                 (c = SL_STATUS_CAPACITY_EXCEEDED /\ 1024 < Z.of_nat (length text) \/ starved c)
      end
  end.

(** A refusal that sets no status of its own leaves 400. *)
Lemma refused w0 s d message :
  grown frame w0 (hk_world s) -> hr_http_status (hk_result s) = 400 -> hr_response_bytes (hk_result s) = sl_bytes_empty ->
  text_at frame (hk_world s) (hr_selected_protocol (hk_result s)) [] ->
  let '(r, s') := sl_ws_diag d message s in answered w0 (hk_diag s) d (Refused 400 message) r s'.
Proof. intros Hg H1 H2 H3. unfold sl_ws_diag. by destruct d. Qed.

Lemma refused_with w0 s d status message :
  grown frame w0 (hk_world s) -> hr_response_bytes (hk_result s) = sl_bytes_empty ->
  text_at frame (hk_world s) (hr_selected_protocol (hk_result s)) [] ->
  let '(r, s') := refuse_with status d message s in answered w0 (hk_diag s) d (Refused status message) r s'.
Proof. intros Hg H1 H2. unfold refuse_with, sl_ws_diag. by destruct d. Qed.

(** From the key on. *)
Lemma answer_key_outcome w0 s request q route r d key k :
  ws_ready frame (hk_world s) -> grown frame w0 (hk_world s) -> request_at frame (hk_world s) request q -> route_at frame (hk_world s) route r ->
  text_at frame (hk_world s) key k -> key_accepted (trim k) = true -> hk_result s = undecided ->
  let protocol := chosen_protocol r (field_or_empty "sec-websocket-protocol" (op_headers q)) in
  let '(res, s') := answer_key frame REF request route d key s in
  answered w0 (hk_diag s) d
    (if negb (origin_accepted r (field_or_empty "origin" (op_headers q))) then Refused 403 "WebSocket origin is not allowed" else
     if negb (bool_decide (wr_protocols r = [])) && bool_decide (protocol = []) then Refused 400 "WebSocket subprotocol is not allowed" else
     Switched (trim k) protocol) res s'.
Proof.
  intros Hr Hg Hq Hro Hk Hacc Hres protocol. destruct s as [w res0 diag0]. cbn [hk_world hk_result hk_diag] in *. subst res0. unfold answer_key.
  unfold mbind at 1, st_bind at 1, gets at 1. cbn [hk_world]. pose proof (trim_text _ _ _ _ Hk) as Ht.
  rewrite (origin_allowed_spec frame w route r _ _ Hro (header_or_empty_spec frame w request q "Origin" "origin" Hr Hq ltac:(listed) eq_refl)).
  destruct (origin_accepted r _); cbn [negb]; [|by apply refused_with; [..|apply no_text]].
  pose proof (select_protocol_spec frame w route r _ _ Hro
    (header_or_empty_spec frame w request q "Sec-WebSocket-Protocol" "sec-websocket-protocol" Hr Hq ltac:(listed) eq_refl)) as Hp. fold protocol in Hp.
  pose proof (select_protocol_bounded (w_mem w) route (header_or_empty (w_mem w) request "Sec-WebSocket-Protocol") (ru_bounds _ _ _ _ Hro)) as Hpb.
  set (p := sl_ws_select_protocol (w_mem w) _ _) in *. clearbody p. rewrite (no_protocols frame w route r Hro). pose proof Hp as (Hpv & _ & _ & Ep).
  unfold mbind at 1, st_bind at 1, upd_result at 1, modify at 1. cbn [hk_result hk_world hk_diag set_hk_result].
  rewrite (view_empty (w_mem w) _ Hpv), Ep. destruct (negb (bool_decide (wr_protocols r = [])) && bool_decide (protocol = [])) eqn:Es.
  { apply andb_true_iff in Es as [_ Es]. apply bool_decide_eq_true in Es. apply refused; [done..|cbn]. by rewrite <- Es. }
  assert (Hlen : 0 < str_length (sl_ws_trim (w_mem w) key) <= 64).
  { destruct (accepted_length _ Hacc) as [Hne Hle]. destruct Ht as ([[? _] _ _] & _ & _ & Et). rewrite <- Et, length_str_val in Hle by done.
    destruct (Z.eq_dec (str_length (sl_ws_trim (w_mem w) key)) 0) as [E0|]; [|lia]. destruct Hne. rewrite <- Et. unfold str_val. by rewrite E0. }
  unfold in_hk_world, zoom. unfold mbind, st_bind. cbn [hk_world set_hk_result]. pose proof (accept_outcome w _ _ Hr Ht Hlen) as Ha.
  destruct (sl_ws_accept_key frame REF (sl_ws_trim (w_mem w) key) REF w) as [[accept|c] w1].
  2: { destruct Ha as [G1 Ha]. split; [by eapply grown_trans|]. split_and!; [done|by eapply text_at_grown|done|done|by right]. }
  destruct Ha as (G1 & A1 & A2). cbn [hk_world set_hk_world hk_result hk_diag].
  pose proof (build_response_outcome w1 accept p (trim k) protocol (ws_ready_grown _ _ _ G1 Hr) A1 A2 (text_at_grown _ _ _ _ _ G1 Hp) Hpb) as Hb.
  destruct (sl_ws_build_response frame REF accept p REF w1) as [[response|c] w2]; destruct Hb as [G2 Hb];
    pose proof (grown_trans _ _ _ _ G1 G2) as G3; (split; [cbn; by eapply grown_trans|]); cbn; split_and!; try done; try (by eapply text_at_grown); apply Hb.
Qed.

(** C26: The opening handshake answers exactly as specified.  A request is refused, with
    the status and the message of the first rule it breaks, when the route is not a
    WebSocket's or wants authentication, when it is not a GET of HTTP/1.1 that asks for the
    upgrade in version 13 with a nonce of sixteen bytes, or when its origin or all its
    subprotocols are not the route's; otherwise the protocols are switched with the value
    computed from the key and the first requested subprotocol the route has.  This holds
    for keys of up to 43 characters, which fit the array they are decoded into. *)
Theorem websocket_handshake_exact s request q route r d :
  ws_ready frame (hk_world s) -> request_at frame (hk_world s) request q -> route_at frame (hk_world s) route r ->
  (forall key, field_named "sec-websocket-key" (op_headers q) = Some key -> Z.of_nat (length (trim key)) <= 43) ->
  let '(res, s') := sl_websocket_build_server_handshake frame REF (Some request) (Some route) REF d s in
  answered (hk_world s) (if is_null d then hk_diag s else zero_diag) d (handshake_answer q r) res s'.
Proof.
  intros Hr Hq Hro Hkey. unfold sl_websocket_build_server_handshake. unfold mbind at 1, st_bind at 1, modify at 1. cbn [is_null orb].
  set (cleared := if is_null d then hk_diag s else zero_diag). set (w := hk_world s) in *.
  unfold mbind at 1, st_bind at 1, upd_result at 1, modify at 1. change (set_hk_result _ _) with {| hk_world := w; hk_result := undecided; hk_diag := cleared |}.
  unfold mbind at 1, st_bind at 1, gets at 1. cbn [hk_world]. set (s1 := {| hk_world := w; hk_result := undecided; hk_diag := cleared |}).
  assert (Hg : grown frame w (hk_world s1)) by apply grown_refl, Hr.
  assert (Hno : forall message, let '(res, s') := sl_ws_diag d message s1 in answered w cleared d (Refused 400 message) res s').
  { intros message. apply (refused w s1); [done..|apply no_text]. }
  assert (Hnw : forall status message, let '(res, s') := refuse_with status d message s1 in answered w cleared d (Refused status message) res s').
  { intros status message. apply (refused_with w s1); [done..|apply no_text]. }
  unfold handshake_answer. cbv zeta. destruct (rq_line _ _ _ _ Hq) as (-> & -> & ->). rewrite (ru_auth _ _ _ _ Hro).
  unfold sl_plan_route_is_websocket. pose proof (ru_kind _ _ _ _ Hro) as (Hkv & _ & _ & Ekv). rewrite (equal_text frame w _ "websocket" Hr ltac:(listed) Hkv), Ekv.
  destruct (is_text (wr_kind r) "websocket"); cbn [negb]; [|apply Hno]. destruct (au_present _ && au_required _ && _); [apply Hnw|].
  destruct (bool_decide (hd_method request = SL_HTTP_METHOD_GET)); cbn [negb]; [|apply Hnw].
  destruct (negb (hd_version_major request =? 1) || negb (hd_version_minor request =? 1)); [apply Hno|].
  rewrite (header_passes_spec frame w request q "Connection" "connection" _ (fun v => existsb (fun t => is_text (map ascii_lower t) "upgrade") (items v)) Hr Hq ltac:(listed) eq_refl)
    by (intros v b Hv; exact (has_token_spec frame w v b "Upgrade" "upgrade" Hr ltac:(listed) eq_refl ltac:(done) Hv)).
  rewrite (header_passes_spec frame w request q "Upgrade" "upgrade" _ (fun v => is_text (map ascii_lower (trim v)) "websocket") Hr Hq ltac:(listed) eq_refl).
  2: { intros v b Hv. destruct (trim_text _ _ _ _ Hv) as (Htv & _ & _ & <-). by apply (equal_ci_lowered frame); [|listed|..]. }
  destruct (_ || _); [apply Hno|].
  rewrite (header_passes_spec frame w request q "Sec-WebSocket-Version" "sec-websocket-version" _ (fun v => is_text (trim v) "13") Hr Hq ltac:(listed) eq_refl).
  2: { intros v b Hv. destruct (trim_text _ _ _ _ Hv) as (Htv & _ & _ & <-). by apply (equal_text frame); [|listed|..]. }
  destruct (negb _); [apply Hno|].
  pose proof (header_value_spec frame w request q "Sec-WebSocket-Key" "sec-websocket-key" Hr Hq ltac:(listed) eq_refl) as Hh.
  destruct (sl_ws_header_value (w_mem w) (Some request) (literal "Sec-WebSocket-Key") REF) as [key|], (field_named "sec-websocket-key" (op_headers q)) as [k|];
    [|by inversion Hh|by inversion Hh|apply Hno]. assert (Hk : text_at frame w key k) by by inversion Hh. cbn [fmap option_fmap option_map].
  pose proof (trim_text _ _ _ _ Hk) as Ht. specialize (Hkey k eq_refl). destruct Ht as (Htv & Hto & Htd & Et).
  rewrite <- Et, length_str_val in Hkey by apply Htv. destruct (decode_key_outcome w _ _ (wy_wf _ _ Hr) (conj Htv (conj Hto (conj Htd Et))) Hkey) as (w1 & Ed & G1).
  unfold mbind, st_bind, in_hk_world, zoom. cbn [hk_world s1]. rewrite Ed. destruct (key_accepted (trim k)) eqn:Ek; cbn [negb].
  - pose proof (answer_key_outcome w (set_hk_world w1 s1) request q route r d key k (ws_ready_grown _ _ _ G1 Hr) G1 (request_grown _ _ _ _ _ G1 Hq)
      (route_grown _ _ _ _ _ G1 Hro) (text_at_grown _ _ _ _ _ G1 Hk) Ek eq_refl) as Ha. exact Ha.
  - apply (refused w (set_hk_world w1 s1)); [done..|apply no_text].
Qed.
End Key.

(** * SHA-1 and base64

    An instance of the interface. *)

Module Reference.
Definition mask32 (z : Z) : Z := z mod 2 ^ 32.
Definition rotl (n x : Z) : Z := Z.lor (mask32 (Z.shiftl x n)) (Z.shiftr x (32 - n)).

Definition word_bytes (w : Z) : list Z := [Z.shiftr w 24 mod 256; Z.shiftr w 16 mod 256; Z.shiftr w 8 mod 256; w mod 256].

Fixpoint words (l : list Z) : list Z :=
  match l with
  | a :: b :: c :: d :: l => (a * 2 ^ 24 + b * 2 ^ 16 + c * 2 ^ 8 + d) :: words l
  | _ => []
  end.

Definition padded (l : list Z) : list Z :=
  let n := Z.of_nat (length l) in
  l ++ 128 :: replicate (Z.to_nat ((55 - n) mod 64)) 0 ++ replicate 4 0 ++ word_bytes (8 * n).

(** The message schedule, latest word first. *)
Fixpoint schedule (n : nat) (ws : list Z) : list Z :=
  match n with
  | O => ws
  | S n => schedule n (rotl 1 (Z.lxor (Z.lxor (nth 2 ws 0) (nth 7 ws 0)) (Z.lxor (nth 13 ws 0) (nth 15 ws 0))) :: ws)
  end.

Record digest := { d_a : Z; d_b : Z; d_c : Z; d_d : Z; d_e : Z }.

Definition round_mix (t : nat) (h : digest) : Z * Z :=
  let '(b, c, d) := (d_b h, d_c h, d_d h) in
  if (t <? 20)%nat then (Z.lxor d (Z.land b (Z.lxor c d)), 1518500249) else
  if (t <? 40)%nat then (Z.lxor b (Z.lxor c d), 1859775393) else
  if (t <? 60)%nat then (Z.lor (Z.land b c) (Z.land d (Z.lor b c)), 2400959708) else
  (Z.lxor b (Z.lxor c d), 3395469782).

Definition step (h : digest) (tw : nat * Z) : digest :=
  let '(f, k) := round_mix (fst tw) h in
  {| d_a := mask32 (rotl 5 (d_a h) + f + d_e h + k + snd tw); d_b := d_a h; d_c := rotl 30 (d_b h); d_d := d_c h; d_e := d_d h |}.

Definition block (h : digest) (ws : list Z) : digest :=
  let h' := fold_left step (zip (seq 0 80) (rev (schedule 64 (rev ws)))) h in
  {| d_a := mask32 (d_a h + d_a h'); d_b := mask32 (d_b h + d_b h'); d_c := mask32 (d_c h + d_c h');
     d_d := mask32 (d_d h + d_d h'); d_e := mask32 (d_e h + d_e h') |}.

Fixpoint blocks (fuel : nat) (h : digest) (ws : list Z) : digest :=
  match fuel, ws with
  | S fuel, _ :: _ => blocks fuel (block h (take 16 ws)) (drop 16 ws)
  | _, _ => h
  end.

Definition sha1 (l : list Z) : list Z :=
  let h := blocks (length l + 2) {| d_a := 1732584193; d_b := 4023233417; d_c := 2562383102; d_d := 271733878; d_e := 3285377520 |} (words (padded l)) in
  word_bytes (d_a h) ++ word_bytes (d_b h) ++ word_bytes (d_c h) ++ word_bytes (d_d h) ++ word_bytes (d_e h).

Definition letter (n : Z) : Z :=
  if n <? 26 then 65 + n else if n <? 52 then 71 + n else if n <? 62 then n - 4 else if n =? 62 then 43 else 47.

(** Four characters of the 24 bits of [n]; the first [k] count, the others are padding. *)
Definition quad (k : nat) (n : Z) : list Z :=
  take k [letter (n / 2 ^ 18 mod 64); letter (n / 2 ^ 12 mod 64); letter (n / 2 ^ 6 mod 64); letter (n mod 64)] ++ replicate (4 - k) padding_char.

Fixpoint encode (l : list Z) : list Z :=
  match l with
  | a :: b :: c :: l => quad 4 (a * 2 ^ 16 + b * 2 ^ 8 + c) ++ encode l
  | [a; b] => quad 3 (a * 2 ^ 16 + b * 2 ^ 8)
  | [a] => quad 2 (a * 2 ^ 16)
  | [] => []
  end.

Definition value (c : Z) : option Z :=
  if (65 <=? c) && (c <=? 90) then Some (c - 65) else
  if (97 <=? c) && (c <=? 122) then Some (c - 71) else
  if (48 <=? c) && (c <=? 57) then Some (c + 4) else
  if c =? 43 then Some 62 else if c =? 47 then Some 63 else if c =? padding_char then Some 0 else None.

Fixpoint decode (l : list Z) : list Z * bool :=
  match l with
  | [] => ([], true)
  | a :: b :: c :: d :: l =>
      match value a, value b, value c, value d with
      | Some a, Some b, Some c, Some d =>
          let n := a * 2 ^ 18 + b * 2 ^ 12 + c * 2 ^ 6 + d in
          let '(ws, ok) := decode l in (n / 2 ^ 16 mod 256 :: n / 2 ^ 8 mod 256 :: n mod 256 :: ws, ok)
      | _, _, _, _ => ([], false)
      end
  | _ => ([], false)
  end.

#[export] Instance openssl : OpenSsl :=
  {| SHA1 := sha1; EVP_EncodeBlock := encode;
     EVP_DecodeBlock := fun l => let '(ws, ok) := decode l in (ws, if ok then Z.of_nat (length ws) else -1) |}.

Lemma word_is_bytes w : Forall is_byte (word_bytes w).
Proof. repeat constructor; apply Z.mod_pos_bound; lia. Qed.

Lemma letter_byte n : is_byte (letter (n mod 64)).
Proof. pose proof (Z.mod_pos_bound n 64 eq_refl). unfold letter, is_byte. repeat case_match; lia. Qed.

Lemma quad_bytes k n : Forall is_byte (quad k n).
Proof.
  apply Forall_app. split; [apply Forall_take; repeat constructor; apply letter_byte|]. apply Forall_replicate. unfold padding_char. split; lia.
Qed.

Lemma quad_length k n : (k <= 4)%nat -> length (quad k n) = 4%nat.
Proof. intros H. unfold quad. rewrite length_app, length_take, length_replicate. cbn [length]. lia. Qed.

Lemma encode_spec : forall l, Forall is_byte (encode l) /\ Z.of_nat (length (encode l)) = 4 * ((Z.of_nat (length l) + 2) / 3).
Proof.
  fix IH 1. intros [|a [|b [|c l]]]; [by split|by (split; [apply quad_bytes|])..|]. cbn [encode]. destruct (IH l) as [H1 H2]. split.
  - apply Forall_app. split; [apply quad_bytes|done].
  - rewrite length_app, quad_length, Nat2Z.inj_add, H2 by lia. cbn [length].
    replace (Z.of_nat (S (S (S (length l)))) + 2) with (Z.of_nat (length l) + 2 + 1 * 3) by lia. rewrite Z.div_add by lia. lia.
Qed.

Lemma decode_spec : forall l, let '(ws, ok) := decode l in
  Forall is_byte ws /\ 4 * Z.of_nat (length ws) <= 3 * Z.of_nat (length l) /\ (3 | Z.of_nat (length ws)).
Proof.
  fix IH 1. intros [|a [|b [|c [|d l]]]]; try (cbn [decode]; split_and!; [constructor|cbn [length]; lia|by exists 0]).
  cbn [decode]. destruct (value a), (value b), (value c), (value d); try (split_and!; [constructor|cbn [length]; lia|by exists 0]).
  specialize (IH l). destruct (decode l) as [ws ok]. destruct IH as (H1 & H2 & [j H3]). split_and!.
  - repeat constructor; [apply Z.mod_pos_bound; lia..|done].
  - cbn [length]. lia.
  - exists (j + 1). cbn [length]. lia.
Qed.

Lemma value_letter n : value (letter (n mod 64)) = Some (n mod 64).
Proof.
  pose proof (Z.mod_pos_bound n 64 eq_refl). unfold letter, padding_char. set (v := n mod 64) in *.
  destruct (Z.ltb_spec v 26); [|destruct (Z.ltb_spec v 52); [|destruct (Z.ltb_spec v 62); [|destruct (Z.eqb_spec v 62)]]];
    unfold value; repeat match goal with |- context [if ?b then _ else _] => destruct b eqn:?; try lia end; f_equal; lia.
Qed.

(** Three bytes as a number of 24 bits, in digits of six bits and back. *)
Lemma sextets n : 0 <= n < 2 ^ 24 -> n / 2 ^ 18 mod 64 * 2 ^ 18 + n / 2 ^ 12 mod 64 * 2 ^ 12 + n / 2 ^ 6 mod 64 * 2 ^ 6 + n mod 64 = n.
Proof. intros H. Z.div_mod_to_equations. lia. Qed.

Lemma base64_inverse : forall bs, Forall is_byte bs -> (3 | Z.of_nat (length bs)) -> decode (encode bs) = (bs, true).
Proof.
  fix IH 1. intros [|a [|b [|c bs]]] Hb [k Hk]; [done|cbn [length] in Hk; lia..|].
  apply Forall_cons in Hb as [Ha Hb]. apply Forall_cons in Hb as [Hb' Hb]. apply Forall_cons in Hb as [Hc Hb]. unfold is_byte in Ha, Hb', Hc.
  cbn [encode]. unfold quad. cbn [take replicate Nat.sub app decode]. rewrite !value_letter.
  set (n := a * 2 ^ 16 + b * 2 ^ 8 + c). rewrite sextets by (subst n; lia). rewrite (IH bs Hb) by (exists (k - 1); cbn [length] in Hk; lia).
  repeat f_equal; subst n; Z.div_mod_to_equations; lia.
Qed.

#[export] Instance openssl_laws : OpenSslLaws openssl.
Proof.
  assert (Hd : forall l, fst (EVP_DecodeBlock l) = fst (decode l)) by (intros l; cbn; by destruct (decode l)). split; intros l; rewrite ?Hd.
  - done.
  - cbn [SHA1 openssl]. unfold sha1. cbv zeta. rewrite !Forall_app. split_and!; apply word_is_bytes.
  - apply encode_spec.
  - apply encode_spec.
  - pose proof (decode_spec l) as H. destruct (decode l). apply H.
  - pose proof (decode_spec l) as H. destruct (decode l). apply H.
  - pose proof (decode_spec l) as H. cbn [EVP_DecodeBlock openssl]. destruct (decode l) as [ws []]; [right|by left]. split; [done|apply H].
  - intros Hb H3. cbn [EVP_DecodeBlock EVP_EncodeBlock openssl]. by rewrite base64_inverse.
Qed.
End Reference.

Module Demo.
Import Reference.
#[export] Instance build0 : BuildConfig := assert_build.
#[export] Instance simd0 : SimdConfig := {| SL_STRING_SIMD := SCALAR; SL_BYTES_SIMD := SCALAR |}.
Definition address (l : string) : Z :=
  match list_find (fun x => x = l) ws_literals with Some (i, _) => 4096 + 100 * Z.of_nat i | None => 0 end.
#[export] Instance rodata0 : ReadOnlyData := {| rodata := address |}.

Definition frame0 : Z := 12000.

(** The request of RFC 6455, section 1.2, with a list in its Connection field. *)
Definition fields0 : list (string * string) :=
  [("Connection", "keep-alive, Upgrade"); ("Upgrade", "websocket"); ("Sec-WebSocket-Version", "13");
   ("Sec-WebSocket-Key", " dGhlIHNhbXBsZSBub25jZQ== "); ("Origin", "http://example.com"); ("Sec-WebSocket-Protocol", "chat, superchat")]%string.

(** A key of sixty-four characters. *)
Definition long_key : string := "QUFBQUFBQUFBQUFBQUFBQUFBQUFBQUFBQUFBQUFBQUFBQUFBQUFBQUFBQUFBQUFB".

Definition texts0 : list string := concat (map (fun '(n, v) => [n; v]) fields0) ++ ["websocket"; "superchat"; long_key]%string.
Definition place (i : nat) : Z := 8000 + 100 * Z.of_nat i.
Definition text (i : nat) : SlStr := sl_str_from_parts (place i) (default 0 (string_size <$> texts0 !! i)).

Definition world0 : World :=
  {| w_mem := fold_left (fun m '(i, l) => store m (place i) (string_bytes l)) (imap pair texts0)
                (fold_left (fun m l => store m (address l) (string_bytes l)) ws_literals (fun _ => 0));
     w_arena := {| ar_base := 16384; ar_capacity := 4096; ar_offset := 0; ar_high_water := 0; ar_generation := 1 |} |}.

Definition request0 : SlHttpRequestHead :=
  {| hd_method := SL_HTTP_METHOD_GET; hd_version_major := 1; hd_version_minor := 1; hd_path := sl_str_empty; hd_raw_target := sl_str_empty;
     hd_headers_ptr := 64; hd_headers := map (fun i => {| hh_name := text (2 * i); hh_value := text (2 * i + 1) |}) (seq 0 6); hd_body := sl_bytes_empty |}.

Definition route0 : SlPlanRoute :=
  {| pt_kind := text 12;
     pt_websocket := {| pw_protocols_ptr := REF; pw_protocols := [text 13]; pw_origins_ptr := REF; pw_origins := [text 9];
                        pw_origin_policy := SL_PLAN_WEBSOCKET_ORIGINS_LIST |};
     pt_auth := {| au_present := false; au_required := false; au_allow_anonymous := false |} |}.

Definition state0 : HandshakeSys := {| hk_world := world0; hk_result := zero_handshake; hk_diag := zero_diag |}.

Definition opening0 : opening :=
  {| op_method := SL_HTTP_METHOD_GET; op_major := 1; op_minor := 1; op_headers := map (fun '(n, v) => (string_bytes n, string_bytes v)) fields0 |}.
Definition ws_route0 : ws_route :=
  {| wr_kind := string_bytes "websocket"; wr_auth := pt_auth route0; wr_policy := SL_PLAN_WEBSOCKET_ORIGINS_LIST;
     wr_origins := [string_bytes "http://example.com"]; wr_protocols := [string_bytes "superchat"] |}.

(** The answer the RFC gives. *)
Example rfc_answer :
  let key := string_bytes "dGhlIHNhbXBsZSBub25jZQ==" in
  handshake_answer opening0 ws_route0 = Switched key (string_bytes "superchat") /\ accept_text key = string_bytes "s3pPLMBiTxaQ9kYGzzhZRbK+xOo=".
Proof. by vm_compute. Qed.

Definition in_place (v : SlStr) (l : list Z) : bool :=
  (0 <? str_ptr v) && (0 <=? str_length v) && (str_ptr v + str_length v <=? 12000) && bool_decide (str_val (w_mem world0) v = l).

Lemma ws_text0 v l : in_place v l = true -> text_at frame0 world0 v l.
Proof.
  unfold in_place. rewrite !andb_true_iff, bool_decide_eq_true. intros [[[H1 H2] H3] H4]. split_and!; [split; [split; lia|lia|]| | |done].
  - unfold simd_length. size_lia.
  - unfold outside_free, disjoint_ranges. cbn. lia.
  - unfold disjoint_ranges, frame0. lia.
Qed.

Lemma wf0 : arena_wf (w_arena world0).
Proof. split_and!; done. Qed.

Lemma literal0 l : l ∈ ws_literals -> (0 <? rodata l) && in_place (literal l) (string_bytes l) = true.
Proof.
  intros Hl. assert (H : forallb (fun l => (0 <? rodata l) && in_place (literal l) (string_bytes l)) ws_literals = true) by by vm_compute.
  rewrite forallb_forall in H. apply H. by apply list_elem_of_In.
Qed.

Lemma ws_ready0 : ws_ready frame0 world0.
Proof.
  split; [apply wf0|split_and!; [done|done|unfold outside_free, disjoint_ranges, frame0, FRAME_BYTES; cbn; lia]|..]; intros l Hl; apply literal0, andb_true_iff in Hl as [H1 H2].
  - split; [lia|by apply ws_text0].
  - unfold bounded, in_place in *. rewrite !andb_true_iff in H2. unfold UINTPTR_MAX. lia.
Qed.

Lemma request0_at : request_at frame0 world0 request0 opening0.
Proof.
  split; [done| |done]. cbn [hd_headers request0 map seq op_headers opening0 fields0].
  repeat (apply Forall2_cons_2; [split; apply ws_text0; by vm_compute|]). apply Forall2_nil_2.
Qed.

Lemma route0_at : route_at frame0 world0 route0 ws_route0.
Proof.
  split; [apply ws_text0; by vm_compute|done|done|constructor; [apply ws_text0; by vm_compute|constructor]..| |done].
  constructor; [unfold bounded; vm_compute; discriminate|constructor].
Qed.

Lemma switched0 :
  match sl_websocket_build_server_handshake frame0 REF (Some request0) (Some route0) REF REF state0 with (Ok _, _) => True | _ => False end.
Proof. vm_compute. exact I. Qed.

Lemma websocket_handshake_exact_witness :
  exists s', sl_websocket_build_server_handshake frame0 REF (Some request0) (Some route0) REF REF state0 = (Ok tt, s') /\
    hr_http_status (hk_result s') = 101 /\
    held frame0 (hk_world s') (hr_response_bytes (hk_result s')) (switch_text (string_bytes "dGhlIHNhbXBsZSBub25jZQ==") (string_bytes "superchat")).
Proof.
  pose proof (websocket_handshake_exact frame0 state0 request0 opening0 route0 ws_route0 REF ws_ready0 request0_at route0_at) as H.
  assert (Hk : forall key, field_named "sec-websocket-key" (op_headers opening0) = Some key -> Z.of_nat (length (trim key)) <= 43).
  { intros key [= <-]. by vm_compute. }
  specialize (H Hk). rewrite (proj1 rfc_answer) in H. pose proof switched0 as Hok.
  destruct (sl_websocket_build_server_handshake frame0 REF (Some request0) (Some route0) REF REF state0) as [[[]|c] s']; [|destruct Hok].
  destruct H as (_ & _ & _ & H1 & H2 & _). exists s'. split; [reflexivity|]. split; [exact H1|exact H2].
Defined.

(** Sixteen bytes past the array. *)
Lemma websocket_key_overflows_witness :
  let '(_, w') := sl_ws_decode_client_key frame0 (text 14) world0 in
  load_bytes (w_mem w') (frame0 + DECODED + DECODED_BYTES) 16 = repeat 65 16.
Proof.
  pose proof (websocket_key_overflows frame0 world0 (text 14) (repeat 65 48) 16 wf0 ltac:(repeat constructor; lia) eq_refl ltac:(lia)
    (ws_text0 (text 14) (EVP_EncodeBlock (repeat 65 48)) ltac:(by vm_compute))) as H.
  destruct (sl_ws_decode_client_key frame0 (text 14) world0) as [r w']. exact (proj2 (proj2 H)).
Defined.

(** The same through the handshake: the request is refused, and the frame is overwritten. *)
Definition request_long : SlHttpRequestHead :=
  {| hd_method := SL_HTTP_METHOD_GET; hd_version_major := 1; hd_version_minor := 1; hd_path := sl_str_empty; hd_raw_target := sl_str_empty;
     hd_headers_ptr := 64; hd_body := sl_bytes_empty;
     hd_headers := map (fun i => {| hh_name := text (2 * i); hh_value := text (if decide (i = 3%nat) then 14%nat else (2 * i + 1)%nat) |}) (seq 0 6) |}.

Example long_key_overwrites :
  let '(res, s') := sl_websocket_build_server_handshake frame0 REF (Some request_long) (Some route0) REF REF state0 in
  res = Ok tt /\ hr_http_status (hk_result s') = 400 /\
  load_bytes (w_mem world0) (frame0 + DECODED + DECODED_BYTES) 16 = repeat 0 16 /\
  load_bytes (w_mem (hk_world s')) (frame0 + DECODED + DECODED_BYTES) 16 = repeat 65 16.
Proof. by vm_compute. Qed.
End Demo.
