(* ===== verification/FsPath.v ===== *)
(** Resolution of file-system paths (src/core/fs.c, the path half).

    The array of roots is a list with its pointer beside it; the two arrays of segment
    starts and lengths are allocated, and their contents are a list of pairs.  The result
    object is a [frame] of memory, of which the inline buffers of its two strings are
    written; the local string [normalized] is never inline, so it is its view. *)

From stdpp Require Import strings.
From S2P Require Import Prelude Memory Status Arena Str Bytes Simd StrArena Container Sink Builder Diag RouteParse HttpBody HttpMedia HttpAssemble HttpQuery Frame.

Open Scope Z_scope.

(** * Data *)

Inductive SlFsPathKind := SL_FS_PATH_INVALID | SL_FS_PATH_PROJECT_RELATIVE | SL_FS_PATH_NAMED_ROOT | SL_FS_PATH_ABSOLUTE.

Inductive SlFsPolicyMode := SL_FS_POLICY_DEVELOPMENT | SL_FS_POLICY_STRICT.

#[export] Instance path_kind_eq : EqDecision SlFsPathKind.
Proof. solve_decision. Defined.
#[export] Instance policy_mode_eq : EqDecision SlFsPolicyMode.
Proof. solve_decision. Defined.

Record SlFsRoot := { fr_name : SlStr; fr_path : SlStr }.

Record SlFsPolicy := {
  po_app_root : SlStr;
  po_roots_ptr : nullable;
  po_roots : list SlFsRoot;
  po_mode : SlFsPolicyMode;
  po_allow_absolute : bool;
}.

Record SlFsResolvedPath := {
  rv_kind : SlFsPathKind;
  rv_path : SlOwnedStr;
  rv_root_name : SlOwnedStr;
  rv_development_absolute_warning : bool;
}.

(** The inline buffers of [path] and [root_name] in the result object. *)
Definition PATH_SSO : Z := 32.
Definition ROOT_NAME_SSO : Z := 72.

(** The world, and the caller's result and diagnostic. *)
Record FsSys := { fx_world : World; fx_out : SlFsResolvedPath; fx_diag : SlDiag }.

Definition set_fx_world (w : World) (s : FsSys) : FsSys := {| fx_world := w; fx_out := fx_out s; fx_diag := fx_diag s |}.
Definition set_fx_out (o : SlFsResolvedPath) (s : FsSys) : FsSys := {| fx_world := fx_world s; fx_out := o; fx_diag := fx_diag s |}.
Definition set_fx_diag (d : SlDiag) (s : FsSys) : FsSys := {| fx_world := fx_world s; fx_out := fx_out s; fx_diag := d |}.

Definition upd_out (f : SlFsResolvedPath -> SlFsResolvedPath) : ST FsSys unit := modify (fun s => set_fx_out (f (fx_out s)) s).
Definition set_kind (k : SlFsPathKind) (o : SlFsResolvedPath) : SlFsResolvedPath :=
  {| rv_kind := k; rv_path := rv_path o; rv_root_name := rv_root_name o; rv_development_absolute_warning := rv_development_absolute_warning o |}.
Definition set_path (p : SlOwnedStr) (o : SlFsResolvedPath) : SlFsResolvedPath :=
  {| rv_kind := rv_kind o; rv_path := p; rv_root_name := rv_root_name o; rv_development_absolute_warning := rv_development_absolute_warning o |}.
Definition set_root_name (n : SlOwnedStr) (o : SlFsResolvedPath) : SlFsResolvedPath :=
  {| rv_kind := rv_kind o; rv_path := rv_path o; rv_root_name := n; rv_development_absolute_warning := rv_development_absolute_warning o |}.
Definition set_warning (b : bool) (o : SlFsResolvedPath) : SlFsResolvedPath :=
  {| rv_kind := rv_kind o; rv_path := rv_path o; rv_root_name := rv_root_name o; rv_development_absolute_warning := b |}.

Definition in_fx_world {A} (c : ST World A) : ST FsSys A := zoom fx_world set_fx_world c.

(** * Operations *)

Definition slash : Z := 47.
Definition dot : Z := 46.
Definition colon : Z := 58.

Definition sl_fs_str_valid (value : SlStr) : bool := (str_length value =? 0) || negb (str_ptr value =? 0).

Definition sl_fs_is_separator (ch : Z) : bool := (ch =? slash) || (ch =? 92).

Definition sl_fs_is_alpha (ch : Z) : bool := (65 <=? ch) && (ch <=? 90) || (97 <=? ch) && (ch <=? 122).

Definition sl_fs_contains_nul (m : mem) (value : SlStr) : bool :=
  if negb (sl_fs_str_valid value) then true else existsb (fun ch => ch =? 0) (str_val m value).

Definition sl_fs_development_policy (app_root : SlStr) : SlFsPolicy :=
  {| po_app_root := app_root; po_roots_ptr := NULL; po_roots := []; po_mode := SL_FS_POLICY_DEVELOPMENT; po_allow_absolute := true |}.

Definition sl_fs_strict_policy (app_root : SlStr) (roots_ptr : nullable) (roots : list SlFsRoot) (allow_absolute : bool) : SlFsPolicy :=
  {| po_app_root := app_root; po_roots_ptr := roots_ptr; po_roots := roots; po_mode := SL_FS_POLICY_STRICT; po_allow_absolute := allow_absolute |}.

Definition at_ (m : mem) (v : SlStr) (i : Z) : Z := ld8 m (str_ptr v + i).

(** [for (...) if (ptr[index] == ':')]: the first colon decides. *)
Definition classify_colon (m : mem) (input : SlStr) : result SlFsPathKind :=
  let index := find_byte m input colon 0 (Z.to_nat (str_length input)) in
  if index =? str_length input then Err SL_STATUS_INVALID_ARGUMENT else
  if (index =? 0) || (str_length input <=? index + 1) || negb (sl_fs_is_separator (at_ m input (index + 1)))
  then Err SL_STATUS_INVALID_ARGUMENT else Ok SL_FS_PATH_NAMED_ROOT.

Definition sl_fs_classify_path (m : mem) (input : SlStr) (out_kind : nullable) : result SlFsPathKind :=
  if is_null out_kind || (str_length input =? 0) || sl_fs_contains_nul m input then Err SL_STATUS_INVALID_ARGUMENT else
  if (2 <=? str_length input) && sl_fs_is_separator (at_ m input 0) && sl_fs_is_separator (at_ m input 1) then Ok SL_FS_PATH_ABSOLUTE else
  if sl_fs_is_separator (at_ m input 0) then Ok SL_FS_PATH_ABSOLUTE else
  if (3 <=? str_length input) && sl_fs_is_alpha (at_ m input 0) && (at_ m input 1 =? colon) && sl_fs_is_separator (at_ m input 2)
  then Ok SL_FS_PATH_ABSOLUTE else
  if (2 <=? str_length input) && (at_ m input 0 =? dot) && sl_fs_is_separator (at_ m input 1) then Ok SL_FS_PATH_PROJECT_RELATIVE else
  classify_colon m input.

Definition SIZE_T_BYTES : Z := 8.

Section Paths.
Context {BC : BuildConfig} {SC : SimdConfig} {RO : ReadOnlyData} (out : Z).

Definition sl_fs_path_kind_name (kind : SlFsPathKind) : SlStr :=
  match kind with
  | SL_FS_PATH_PROJECT_RELATIVE => literal "project-relative"
  | SL_FS_PATH_NAMED_ROOT => literal "named-root"
  | SL_FS_PATH_ABSOLUTE => literal "absolute"
  | SL_FS_PATH_INVALID => literal "invalid"
  end.

(** [primary_span] is unknown. *)
Definition sl_fs_diag (code : Z) (message : string) : SlDiag :=
  {| dg_severity := SL_DIAG_SEVERITY_ERROR; dg_code := code; dg_message := literal message; dg_hints := [] |}.

Definition sl_fs_fail (out_diag : nullable) (diag_code : Z) (status_code : SlStatusCode) (message : string) : ST FsSys unit :=
  (if is_null out_diag then mret tt else modify (set_fx_diag (sl_fs_diag diag_code message))) ;; fail status_code.

(** [sso] is the inline buffer of [*out]. *)
Definition sl_fs_copy_segment (arena : nullable) (value : SlStr) (out : nullable) (sso : Z) : ST World SlOwnedStr :=
  return_if is_null out with SL_STATUS_INVALID_ARGUMENT ;;
  write_owned sso owned_zero ;;
  sl_str_copy_to_arena arena value out sso.

Definition sl_fs_find_root (m : mem) (policy : option SlFsPolicy) (name : SlStr) : option SlFsRoot :=
  match policy with
  | None => None
  | Some policy =>
      if negb (bool_decide (po_roots policy = [])) && is_null (po_roots_ptr policy) then None else
      List.find (fun root => sl_str_equal m (fr_name root) name) (po_roots policy)
  end.

Definition sl_fs_copy_chars (dst src length : Z) : ST World unit :=
  in_memory (modify (fun m => copy_forward m dst src (Z.to_nat length))).

Definition sl_fs_alloc_size_array (arena : nullable) (count : Z) (out : nullable) : ST World Z :=
  return_if is_null arena || is_null out with SL_STATUS_INVALID_ARGUMENT ;;
  storage ← sl_arena_array_alloc arena count SIZE_T_BYTES SIZE_T_BYTES REF ;
  mret (slice_ptr storage).

(** The two inner loops: the rounds while the bytes are separators, and while they are not. *)
Fixpoint run_length (m : mem) (p : Z) (separator : bool) (n : nat) : nat :=
  match n with
  | O => O
  | S n => if Bool.eqb (sl_fs_is_separator (ld8 m p)) separator then S (run_length m (p + 1) separator n) else O
  end.

(** The [while] over the segments, with those stored so far; [None] is an escape. *)
Fixpoint collect_segments (fuel : nat) (m : mem) (input : SlStr) (cursor : Z) (segments : list (Z * Z)) : option (list (Z * Z)) :=
  match fuel with
  | O => Some segments
  | S fuel =>
      if negb (cursor <? str_length input) then Some segments else
      let start := cursor + Z.of_nat (run_length m (str_ptr input + cursor) true (Z.to_nat (str_length input - cursor))) in
      let length := Z.of_nat (run_length m (str_ptr input + start) false (Z.to_nat (str_length input - start))) in
      let cursor := start + length in
      if (length =? 0) || (length =? 1) && (at_ m input start =? dot) then collect_segments fuel m input cursor segments else
      if (length =? 2) && (at_ m input start =? dot) && (at_ m input (start + 1) =? dot) then
        if bool_decide (segments = []) then None else collect_segments fuel m input cursor (removelast segments)
      else collect_segments fuel m input cursor (segments ++ [(start, length)])
  end.

(** The segments, or [None] with [*out_escaped] set. *)
Definition sl_fs_collect_normalized_segments (m : mem) (input : SlStr) (starts lengths : Z) (out_count out_escaped : nullable)
    : result (option (list (Z * Z))) :=
  if (starts =? 0) || (lengths =? 0) || is_null out_count || is_null out_escaped || negb (sl_fs_str_valid input)
  then Err SL_STATUS_INVALID_ARGUMENT
  else Ok (collect_segments (S (Z.to_nat (str_length input))) m input 0 []).

(** [first] is [index == 0]; the result is [out->length]. *)
Fixpoint write_segments (input : SlStr) (segments : list (Z * Z)) (first : bool) (ptr length : Z) : ST World Z :=
  match segments with
  | [] => mret length
  | (start, n) :: segments =>
      length ← (if first then mret length
                else in_memory (modify (fun m => st8 m (ptr + length) slash)) ;; mret (length + 1)) ;
      sl_fs_copy_chars (ptr + length) (str_ptr input + start) n ;;
      write_segments input segments false ptr (length + n)
  end.

Definition sl_fs_write_normalized_segments (input : SlStr) (segments : list (Z * Z)) (ptr : Z) : ST World SlStr :=
  length ← write_segments input segments true ptr 0 ;
  mret (sl_str_from_parts ptr length).

(** [None] when the path escapes. *)
Definition sl_fs_normalize_tail (arena : nullable) (input : SlStr) (out out_escaped : nullable) : ST World (option SlStr) :=
  return_if is_null arena || is_null out || is_null out_escaped || negb (sl_fs_str_valid input) with SL_STATUS_INVALID_ARGUMENT ;;
  allocation_count ← lift (sl_checked_add_size (str_length input) 1 REF) ;
  memory ← sl_arena_alloc arena allocation_count 1 REF ;
  starts ← sl_fs_alloc_size_array arena allocation_count REF ;
  lengths ← sl_fs_alloc_size_array arena allocation_count REF ;
  m ← gets w_mem ;
  segments ← lift (sl_fs_collect_normalized_segments m input starts lengths REF REF) ;
  match segments with
  | None => mret None
  | Some segments => tail ← sl_fs_write_normalized_segments input segments memory ; mret (Some tail)
  end.

(** The root, perhaps a separator, the tail; the result is [offset]. *)
Definition join_into (buffer : Z) (root tail : SlStr) : ST World Z :=
  offset ← (if negb (str_length root =? 0) then sl_fs_copy_chars buffer (str_ptr root) (str_length root) ;; mret (str_length root) else mret 0) ;
  m ← gets w_mem ;
  offset ← (if negb (offset =? 0) && negb (str_length tail =? 0) && negb (sl_fs_is_separator (ld8 m (buffer + (offset - 1))))
            then in_memory (modify (fun m => st8 m (buffer + offset) slash)) ;; mret (offset + 1) else mret offset) ;
  if negb (str_length tail =? 0) then sl_fs_copy_chars (buffer + offset) (str_ptr tail) (str_length tail) ;; mret (offset + str_length tail)
  else mret offset.

(** [sso] is the inline buffer of [*out]. *)
Definition sl_fs_join_paths (arena : nullable) (root tail : SlStr) (out : nullable) (sso : Z) : ST World SlOwnedStr :=
  return_if is_null arena || is_null out || negb (sl_fs_str_valid root) || negb (sl_fs_str_valid tail) with SL_STATUS_INVALID_ARGUMENT ;;
  write_owned sso owned_zero ;;
  total ← lift (sl_checked_add_size (str_length root) (str_length tail) REF) ;
  total ← lift (sl_checked_add_size total 2 REF) ;
  buffer ← sl_arena_alloc arena total 1 REF ;
  offset ← join_into buffer root tail ;
  mret {| owned_ptr := buffer; owned_length := offset; owned_is_sso := false; owned_arena_generation := 0; owned_sso := sso |}.

(** The result of the reset is not looked at. *)
Definition reset_arena (arena : nullable) (mark : SlArenaMark) : ST FsSys unit :=
  modify (fun s => set_fx_world (snd (sl_arena_reset_to arena mark (fx_world s))) s).

Definition sl_fs_resolve_absolute (arena : nullable) (policy : SlFsPolicy) (input : SlStr) (out_diag : nullable) (mark : SlArenaMark)
    : ST FsSys unit :=
  if bool_decide (po_mode policy = SL_FS_POLICY_STRICT) && negb (po_allow_absolute policy) then
    reset_arena arena mark ;;
    sl_fs_fail out_diag SL_DIAG_PERMISSION_DENIED SL_STATUS_INVALID_STATE "absolute filesystem paths require explicit allow in strict mode"
  else
  path ← in_fx_world (sl_fs_copy_segment arena input REF (out + PATH_SSO)) ;
  upd_out (set_path path) ;;
  upd_out (set_warning (bool_decide (po_mode policy = SL_FS_POLICY_DEVELOPMENT))).

Definition sl_fs_resolve_project_relative (arena : nullable) (policy : SlFsPolicy) (input : SlStr) (out_diag : nullable) (mark : SlArenaMark)
    : ST FsSys unit :=
  let tail := sl_str_from_parts (str_ptr input + 2) (str_length input - 2) in
  normalized ← in_fx_world (sl_fs_normalize_tail arena tail REF REF) ;
  match normalized with
  | None =>
      reset_arena arena mark ;;
      sl_fs_fail out_diag SL_DIAG_PERMISSION_DENIED SL_STATUS_INVALID_STATE "project-relative filesystem path escapes the app root"
  | Some normalized =>
      path ← in_fx_world (sl_fs_join_paths arena (po_app_root policy) normalized REF (out + PATH_SSO)) ;
      upd_out (set_path path)
  end.

Definition sl_fs_resolve_named_root (arena : nullable) (policy : SlFsPolicy) (input : SlStr) (out_diag : nullable) (mark : SlArenaMark)
    : ST FsSys unit :=
  m ← gets (fun s => w_mem (fx_world s)) ;
  let index := find_byte m input colon 0 (Z.to_nat (str_length input)) in
  let name := sl_str_from_parts (str_ptr input) index in
  match sl_fs_find_root m (Some policy) name with
  | None =>
      reset_arena arena mark ;;
      sl_fs_fail out_diag SL_DIAG_INVALID_ARGUMENT SL_STATUS_INVALID_ARGUMENT "unknown filesystem root"
  | Some root =>
      let tail := sl_str_from_parts (str_ptr input + index + 2) (str_length input - index - 2) in
      normalized ← in_fx_world (sl_fs_normalize_tail arena tail REF REF) ;
      match normalized with
      | None =>
          reset_arena arena mark ;;
          sl_fs_fail out_diag SL_DIAG_PERMISSION_DENIED SL_STATUS_INVALID_STATE "named-root filesystem path escapes its root"
      | Some normalized =>
          root_name ← in_fx_world (sl_fs_copy_segment arena name REF (out + ROOT_NAME_SSO)) ;
          upd_out (set_root_name root_name) ;;
          path ← in_fx_world (sl_fs_join_paths arena (fr_path root) normalized REF (out + PATH_SSO)) ;
          upd_out (set_path path)
      end
  end.

Definition zero_owned (sso : Z) : SlOwnedStr :=
  {| owned_ptr := 0; owned_length := 0; owned_is_sso := false; owned_arena_generation := 0; owned_sso := sso |}.

Definition zero_resolved : SlFsResolvedPath :=
  {| rv_kind := SL_FS_PATH_INVALID; rv_path := zero_owned (out + PATH_SSO); rv_root_name := zero_owned (out + ROOT_NAME_SSO);
     rv_development_absolute_warning := false |}.

(** [*out = (SlFsResolvedPath){0}]; the inline buffers are zeroed with the rest. *)
Definition zero_out (s : FsSys) : FsSys :=
  let m := store (store (w_mem (fx_world s)) (out + PATH_SSO) (replicate 16 0)) (out + ROOT_NAME_SSO) (replicate 16 0) in
  {| fx_world := set_mem m (fx_world s); fx_diag := fx_diag s; fx_out := zero_resolved |}.

Definition resolve_kind (arena : nullable) (policy : SlFsPolicy) (input : SlStr) (kind : SlFsPathKind) (out_diag : nullable) (mark : SlArenaMark)
    : ST FsSys unit :=
  match kind with
  | SL_FS_PATH_ABSOLUTE => sl_fs_resolve_absolute arena policy input out_diag mark
  | SL_FS_PATH_PROJECT_RELATIVE => sl_fs_resolve_project_relative arena policy input out_diag mark
  | SL_FS_PATH_NAMED_ROOT => sl_fs_resolve_named_root arena policy input out_diag mark
  | SL_FS_PATH_INVALID => mret tt
  end.

Definition sl_fs_resolve_path (arena : nullable) (policy : option SlFsPolicy) (input : SlStr) (out_resolved out_diag : nullable) : ST FsSys unit :=
  (if is_null out_resolved then mret tt else modify zero_out) ;;
  match policy with
  | None => fail SL_STATUS_INVALID_ARGUMENT
  | Some policy =>
      return_if is_null arena || is_null out_resolved || (str_length input =? 0) || negb (sl_fs_str_valid (po_app_root policy))
        with SL_STATUS_INVALID_ARGUMENT ;;
      mark ← gets (fun s => sl_arena_mark arena (fx_world s)) ;
      m ← gets (fun s => w_mem (fx_world s)) ;
      match sl_fs_classify_path m input REF with
      | Err _ | Ok SL_FS_PATH_INVALID =>
          reset_arena arena mark ;;
          sl_fs_fail out_diag SL_DIAG_INVALID_ARGUMENT SL_STATUS_INVALID_ARGUMENT "invalid filesystem path syntax"
      | Ok kind =>
          upd_out (set_kind kind) ;;
          on_error (resolve_kind arena policy input kind out_diag mark)
            (fun status => reset_arena arena mark ;; modify zero_out ;; fail status)
      end
  end.
End Paths.

(** * What a path means *)

(** The parts between separators. *)
Fixpoint split_path (l : list Z) : list (list Z) :=
  match l with
  | [] => [[]]
  | c :: l => if sl_fs_is_separator c then [] :: split_path l else
              match split_path l with [] => [[c]] | p :: ps => (c :: p) :: ps end
  end.

(** One part read after [stack]; [None] when it leads above the start. *)
Definition norm_step (stack : list (list Z)) (part : list Z) : option (list (list Z)) :=
  if bool_decide (part = []) || bool_decide (part = [dot]) then Some stack else
  if bool_decide (part = [dot; dot]) then if bool_decide (stack = []) then None else Some (removelast stack) else
  Some (stack ++ [part]).

Fixpoint normalize (stack parts : list (list Z)) : option (list (list Z)) :=
  match parts with
  | [] => Some stack
  | part :: parts => stack ← norm_step stack part ; normalize stack parts
  end.

Fixpoint join_slash (parts : list (list Z)) : list Z :=
  match parts with
  | [] => []
  | [part] => part
  | part :: parts => part ++ slash :: join_slash parts
  end.

(** [tail] under [root]. *)
Definition under (root tail : list Z) : list Z :=
  if bool_decide (root = []) || bool_decide (tail = []) || sl_fs_is_separator (List.last root 0) then root ++ tail else root ++ slash :: tail.

Fixpoint starts (ps : list (Z -> bool)) (l : list Z) : bool :=
  match ps, l with
  | [], _ => true
  | p :: ps, c :: l => p c && starts ps l
  | _, [] => false
  end.

Definition is_colon (c : Z) : bool := c =? colon.
Definition is_dot (c : Z) : bool := c =? dot.

Definition path_kind (l : list Z) : option SlFsPathKind :=
  if bool_decide (l = []) || existsb (fun c => c =? 0) l then None else
  if starts [sl_fs_is_separator] l || starts [sl_fs_is_alpha; is_colon; sl_fs_is_separator] l then Some SL_FS_PATH_ABSOLUTE else
  if starts [is_dot; sl_fs_is_separator] l then Some SL_FS_PATH_PROJECT_RELATIVE else
  let '(name, rest) := break_at colon l in
  if bool_decide (name = []) || negb (starts [sl_fs_is_separator] rest) then None else Some SL_FS_PATH_NAMED_ROOT.

(** A policy by the bytes of its texts. *)
Record fs_policy := { sp_root : list Z; sp_roots : list (list Z * list Z); sp_mode : SlFsPolicyMode; sp_allow_absolute : bool }.

(** [Silent] is a refusal without a diagnostic. *)
Inductive fs_answer :=
| Silent (status : SlStatusCode)
| Rejected (status : SlStatusCode) (code : Z) (message : string)
| Located (kind : SlFsPathKind) (path root_name : list Z) (warning : bool).

(** A path below [root], or the message of its escape. *)
Definition locate_under (kind : SlFsPathKind) (root name tail : list Z) (message : string) : fs_answer :=
  match normalize [] (split_path tail) with
  | None => Rejected SL_STATUS_INVALID_STATE SL_DIAG_PERMISSION_DENIED message
  | Some parts => Located kind (under root (join_slash parts)) name false
  end.

Definition resolve (p : fs_policy) (l : list Z) : fs_answer :=
  if bool_decide (l = []) then Silent SL_STATUS_INVALID_ARGUMENT else
  match path_kind l with
  | None | Some SL_FS_PATH_INVALID => Rejected SL_STATUS_INVALID_ARGUMENT SL_DIAG_INVALID_ARGUMENT "invalid filesystem path syntax"
  | Some SL_FS_PATH_ABSOLUTE =>
      if bool_decide (sp_mode p = SL_FS_POLICY_STRICT) && negb (sp_allow_absolute p)
      then Rejected SL_STATUS_INVALID_STATE SL_DIAG_PERMISSION_DENIED "absolute filesystem paths require explicit allow in strict mode"
      else Located SL_FS_PATH_ABSOLUTE l [] (bool_decide (sp_mode p = SL_FS_POLICY_DEVELOPMENT))
  | Some SL_FS_PATH_PROJECT_RELATIVE =>
      locate_under SL_FS_PATH_PROJECT_RELATIVE (sp_root p) [] (drop 2 l) "project-relative filesystem path escapes the app root"
  | Some SL_FS_PATH_NAMED_ROOT =>
      let '(name, rest) := break_at colon l in
      match List.find (fun r => bool_decide (fst r = name)) (sp_roots p) with
      | None => Rejected SL_STATUS_INVALID_ARGUMENT SL_DIAG_INVALID_ARGUMENT "unknown filesystem root"
      | Some r => locate_under SL_FS_PATH_NAMED_ROOT (snd r) name (drop 1 rest) "named-root filesystem path escapes its root"
      end
  end.

(** * Parts *)

Definition no_separator (l : list Z) : bool := forallb (fun c => negb (sl_fs_is_separator c)) l.

Lemma split_run run rest :
  no_separator run = true -> exists p ps, split_path rest = p :: ps /\ split_path (run ++ rest) = (run ++ p) :: ps.
Proof.
  induction run as [|c run IH]; intros H; cbn [app].
  - destruct rest as [|c rest]; [by exists [], []|]. cbn [split_path]. destruct (sl_fs_is_separator c); [by eauto|].
    destruct (split_path rest) as [|p ps]; eauto.
  - cbn in H. apply andb_true_iff in H as [Hc Hr]. destruct (IH Hr) as (p & ps & E1 & E2). exists p, ps. split; [done|]. cbn [split_path].
    destruct (sl_fs_is_separator c); [done|]. by rewrite E2.
Qed.

(** Skipping separators, and reading one part. *)
Lemma normalize_skip stack seps rest :
  forallb sl_fs_is_separator seps = true -> normalize stack (split_path (seps ++ rest)) = normalize stack (split_path rest).
Proof.
  induction seps as [|c seps IH]; intros H; [done|]. cbn in H. apply andb_true_iff in H as [Hc Hs]. cbn [app split_path]. rewrite Hc. by rewrite <- IH.
Qed.

Lemma normalize_part stack run rest :
  no_separator run = true -> (rest = [] \/ exists c r, rest = c :: r /\ sl_fs_is_separator c = true) ->
  normalize stack (split_path (run ++ rest)) = stack ← norm_step stack run ; normalize stack (split_path rest).
Proof.
  intros Hr Hrest. destruct (split_run run rest Hr) as (p & ps & E1 & ->).
  assert (Hp : p = []). { destruct Hrest as [->|(c & r & -> & Hc)]; cbn [split_path] in E1; [by injection E1|]. rewrite Hc in E1. by injection E1. }
  subst p. rewrite app_nil_r, E1. cbn [normalize]. done.
Qed.

Lemma run_length_spec m p b n :
  let k := run_length m p b n in
  (k <= n)%nat /\ forallb (fun c => Bool.eqb (sl_fs_is_separator c) b) (load m p k) = true /\
  (k = n \/ sl_fs_is_separator (ld8 m (p + Z.of_nat k)) = negb b).
Proof.
  revert p. induction n as [|n IH]; intros p; cbn [run_length]; [by auto|]. destruct (Bool.eqb (sl_fs_is_separator (ld8 m p)) b) eqn:E; cbv zeta.
  - destruct (IH (p + 1)) as (H1 & H2 & H3). split; [lia|]. split; [cbn [load forallb]; by rewrite E|]. destruct H3 as [H3|H3]; [left; lia|right].
    rewrite <- H3. do 2 f_equal. lia.
  - split; [lia|]. split; [done|]. right. rewrite Z.add_0_r. by destruct (sl_fs_is_separator _), b.
Qed.

(** * Collecting the parts *)

Definition seg_text (m : mem) (input : SlStr) (s : Z * Z) : list Z := load_bytes m (str_ptr input + fst s) (snd s).

Definition seg_ok (input : SlStr) (s : Z * Z) : Prop := 0 <= fst s /\ 0 < snd s /\ fst s + snd s <= str_length input.

(** What the parts take when they are written, each with a separator. *)
Definition room (segs : list (Z * Z)) : Z := fold_right (fun s n => snd s + 1 + n) 0 segs.

Lemma room_app segs s : room (segs ++ [s]) = room segs + snd s + 1.
Proof. induction segs as [|x segs IH]; cbn; [lia|]. unfold room in IH. rewrite IH. lia. Qed.

Lemma room_nonneg input segs : Forall (seg_ok input) segs -> 0 <= room segs.
Proof. induction 1 as [|s segs (_ & ? & _) _ IH]; cbn; [lia|]. unfold room in IH. lia. Qed.

Lemma removelast_spec {A} (l : list A) : l <> [] -> exists x, l = removelast l ++ [x].
Proof. intros H. destruct (exists_last H) as (l' & x & ->). exists x. by rewrite removelast_last. Qed.

Lemma map_removelast {A B} (f : A -> B) l : map f (removelast l) = removelast (map f l).
Proof. induction l as [|x [|y l] IH]; [done|done|]. cbn in *. by rewrite IH. Qed.

Lemma part_empty m p n : 0 <= n -> bool_decide (load_bytes m p n = []) = (n =? 0).
Proof.
  intros Hn. destruct (Z.eqb_spec n 0) as [->|]; [done|]. apply bool_decide_eq_false. rewrite load_bytes_cons by lia. done.
Qed.

Lemma part_one m p n c : 0 <= n -> bool_decide (load_bytes m p n = [c]) = (n =? 1) && (ld8 m p =? c).
Proof.
  intros Hn. destruct (Z.eqb_spec n 1) as [->|N1]; cbn [andb].
  - rewrite load_bytes_cons, load_bytes_nonpos by lia. destruct (Z.eqb_spec (ld8 m p) c); [apply bool_decide_eq_true; congruence|apply bool_decide_eq_false; congruence].
  - apply bool_decide_eq_false. intros E. apply (f_equal length) in E. pose proof (length_load_bytes m p n Hn). cbn in E. lia.
Qed.

Lemma part_two m p n c d : 0 <= n -> bool_decide (load_bytes m p n = [c; d]) = (n =? 2) && (ld8 m p =? c) && (ld8 m (p + 1) =? d).
Proof.
  intros Hn. destruct (Z.eqb_spec n 2) as [->|N2]; cbn [andb].
  - rewrite !load_bytes_cons, load_bytes_nonpos by lia.
    destruct (Z.eqb_spec (ld8 m p) c), (Z.eqb_spec (ld8 m (p + 1)) d); cbn [andb]; [apply bool_decide_eq_true; congruence|apply bool_decide_eq_false; congruence..].
  - apply bool_decide_eq_false. intros E. apply (f_equal length) in E. pose proof (length_load_bytes m p n Hn). cbn in E. lia.
Qed.

Lemma forallb_same {A} (f g : A -> bool) l : (forall x, f x = g x) -> forallb f l = forallb g l.
Proof. intros H. induction l as [|x l IH]; [done|]. cbn. by rewrite H, IH. Qed.

(** One round of the loop: a run of separators, a part, and what is left. *)
Lemma round_spec m input cursor :
  0 <= cursor < str_length input ->
  let start := cursor + Z.of_nat (run_length m (str_ptr input + cursor) true (Z.to_nat (str_length input - cursor))) in
  let len := Z.of_nat (run_length m (str_ptr input + start) false (Z.to_nat (str_length input - start))) in
  let left c := load_bytes m (str_ptr input + c) (str_length input - c) in
  cursor <= start /\ 0 <= len /\ cursor < start + len <= str_length input /\
  (sl_fs_is_separator (at_ m input cursor) = true -> cursor < start) /\
  (start + len = str_length input \/ sl_fs_is_separator (at_ m input (start + len)) = true) /\
  forall stack, normalize stack (split_path (left cursor)) =
    stack ← norm_step stack (load_bytes m (str_ptr input + start) len) ; normalize stack (split_path (left (start + len))).
Proof.
  intros Hc start len left. pose proof (run_length_spec m (str_ptr input + cursor) true (Z.to_nat (str_length input - cursor))) as H1. cbv zeta in H1.
  set (k := run_length m (str_ptr input + cursor) true (Z.to_nat (str_length input - cursor))) in *. destruct H1 as (K1 & K2 & K3).
  pose proof (run_length_spec m (str_ptr input + start) false (Z.to_nat (str_length input - start))) as H2. cbv zeta in H2. fold len in H2.
  set (j := run_length m (str_ptr input + start) false (Z.to_nat (str_length input - start))) in *. destruct H2 as (J1 & J2 & J3). cbn [negb] in K3, J3.
  assert (Hs : start = cursor + Z.of_nat k) by done. assert (Hl : len = Z.of_nat j) by done. clearbody start len.
  assert (Hk0 : sl_fs_is_separator (at_ m input cursor) = true -> cursor < start).
  { intros Hsep. destruct k; [|lia]. change (Z.of_nat 0) with 0 in K3. rewrite Z.add_0_r in K3. destruct K3 as [K3|K3]; [lia|]. unfold at_ in Hsep. by rewrite Hsep in K3. }
  assert (Hend : start + len = str_length input \/ sl_fs_is_separator (at_ m input (start + len)) = true).
  { destruct J3 as [J3|J3]; [left; lia|right]. unfold at_. rewrite <- J3. do 2 f_equal. lia. }
  split_and!; [lia|lia| |lia|done|done|].
  { destruct (Z.eq_dec start cursor) as [E|E]; [|lia]. destruct j; [|lia]. exfalso. destruct J3 as [J3|J3]; [lia|].
    replace (str_ptr input + start + len) with (str_ptr input + cursor) in J3 by lia. apply Hk0 in J3. lia. }
  intros stack. unfold left.
  replace (str_length input - cursor) with (Z.of_nat k + (str_length input - start)) by lia. rewrite load_bytes_app by lia.
  replace (str_ptr input + cursor + Z.of_nat k) with (str_ptr input + start) by lia.
  replace (str_length input - start) with (len + (str_length input - (start + len))) by lia. rewrite load_bytes_app by lia.
  replace (str_ptr input + start + len) with (str_ptr input + (start + len)) by lia. rewrite normalize_skip, normalize_part; [done|..].
  - unfold no_separator, load_bytes. rewrite Hl, Nat2Z.id. erewrite forallb_same; [exact J2|]. intros c. cbv beta. by destruct (sl_fs_is_separator c).
  - destruct Hend as [He|He]; [left; apply load_bytes_nonpos; lia|]. destruct (Z.eq_dec (start + len) (str_length input)); [left; apply load_bytes_nonpos; lia|right].
    eexists _, _. split; [apply load_bytes_cons; lia|exact He].
  - unfold load_bytes. rewrite Nat2Z.id. erewrite forallb_same; [exact K2|]. intros c. cbv beta. by destruct (sl_fs_is_separator c).
Qed.

Lemma collect_spec m input fuel cursor segs :
  0 <= cursor <= str_length input -> (Z.to_nat (str_length input - cursor) < fuel)%nat ->
  Forall (seg_ok input) segs -> room segs <= cursor + 1 ->
  (segs = [] \/ cursor = str_length input \/ sl_fs_is_separator (at_ m input cursor) = true) ->
  let parts := split_path (load_bytes m (str_ptr input + cursor) (str_length input - cursor)) in
  match collect_segments fuel m input cursor segs with
  | None => normalize (map (seg_text m input) segs) parts = None
  | Some out => normalize (map (seg_text m input) segs) parts = Some (map (seg_text m input) out) /\
                Forall (seg_ok input) out /\ room out <= str_length input + 1
  end.
Proof.
  revert cursor segs. induction fuel as [|fuel IH]; intros cursor segs Hc Hf Hok Hroom Hpos parts; [lia|]. cbn [collect_segments].
  destruct (Z.ltb_spec cursor (str_length input)) as [Hlt|Hge]; cbn [negb].
  2: { unfold parts. rewrite load_bytes_nonpos by lia. cbn. split_and!; [done|done|lia]. }
  destruct (round_spec m input cursor ltac:(lia)) as (R1 & R2 & R3 & R4 & R5 & R6).
  set (start := cursor + Z.of_nat (run_length m (str_ptr input + cursor) true (Z.to_nat (str_length input - cursor)))) in *.
  set (len := Z.of_nat (run_length m (str_ptr input + start) false (Z.to_nat (str_length input - start)))) in *. clearbody start len.
  unfold parts. rewrite R6. clear R6 parts. unfold norm_step. rewrite part_empty, part_one, part_two by lia. fold (at_ m input start).
  replace (ld8 m (str_ptr input + start + 1)) with (at_ m input (start + 1)) by (unfold at_; f_equal; lia).
  destruct ((len =? 0) || (len =? 1) && (at_ m input start =? dot)) eqn:E1.
  { cbn. apply IH; [lia|lia|done|lia|tauto]. }
  destruct ((len =? 2) && (at_ m input start =? dot) && (at_ m input (start + 1) =? dot)).
  - destruct (bool_decide_reflect (segs = [])) as [->|Hne]; [done|]. rewrite bool_decide_eq_false_2 by (by destruct segs). cbn [mbind option_bind].
    rewrite <- map_removelast. destruct (removelast_spec segs Hne) as [x Hx]. rewrite Hx in Hok, Hroom. apply Forall_app in Hok as [Hok Hxo].
    rewrite room_app in Hroom. rewrite Forall_singleton in Hxo. destruct Hxo as (_ & ? & _). apply IH; [lia|lia|done|lia|tauto].
  - cbn [mbind option_bind]. apply orb_false_iff in E1 as [E1 _].
    specialize (IH (start + len) (segs ++ [(start, len)]) ltac:(lia) ltac:(lia)). rewrite map_app in IH. apply IH.
    + apply Forall_app. split; [done|]. apply Forall_singleton. split; cbn; lia.
    + rewrite room_app. cbn. destruct Hpos as [->|[?|?]]; [cbn in *; lia|lia|specialize (R4 ltac:(done)); lia].
    + tauto.
Qed.

(** * Writing the parts *)

(** Parts after the first, each with its separator. *)
Definition slashed (parts : list (list Z)) : list Z := mjoin (map (cons slash) parts).

Lemma join_slash_cons part parts : join_slash (part :: parts) = part ++ slashed parts.
Proof.
  revert part. induction parts as [|q parts IH]; intros part; [by rewrite app_nil_r|].
  change (join_slash (part :: q :: parts)) with (part ++ slash :: join_slash (q :: parts)). by rewrite IH.
Qed.

Section Writing.
Context {BC : BuildConfig} {SC : SimdConfig} {RO : ReadOnlyData}.

(** A range of the block at [p] is written after the first [n] bytes. *)
Lemma append_copy m p n cap src k :
  0 <= n -> 0 <= k -> n + k <= cap -> disjoint_ranges p cap src k ->
  let m' := copy_forward m (p + n) src (Z.to_nat k) in
  load_bytes m' p (n + k) = load_bytes m p n ++ load_bytes m src k /\ same_outside p (p + cap) m m'.
Proof.
  intros Hn Hk Hc Hd m'. destruct (copy_into m (p + n) src (Z.to_nat k)) as [C1 S1]; [unfold disjoint_ranges in *; lia|]. split.
  - rewrite load_bytes_app by lia. f_equal; [|exact C1]. eapply load_bytes_same; [exact S1|]. unfold disjoint_ranges. lia.
  - eapply same_outside_weaken; [exact S1|lia|lia].
Qed.

Lemma append_byte m p n cap v :
  0 <= n < cap -> is_byte v -> load_bytes (st8 m (p + n) v) p (n + 1) = load_bytes m p n ++ [v] /\ same_outside p (p + cap) m (st8 m (p + n) v).
Proof.
  intros Hn Hv. split.
  - rewrite load_bytes_app by lia. f_equal.
    + eapply load_bytes_same; [apply st8_same_outside|]. unfold disjoint_ranges. lia.
    + rewrite load_bytes_cons, load_bytes_nonpos, ld8_st8_eq, wrap8_small by (done || lia). done.
  - eapply same_outside_weaken; [apply st8_same_outside|lia|lia].
Qed.

(** The written bytes follow the [n] that are there. *)
Definition wrote_after (p n cap : Z) (bytes : list Z) (w : World) (o : result Z * World) : Prop :=
  exists m', o = (Ok (n + Z.of_nat (length bytes)), set_mem m' w) /\ same_outside p (p + cap) (w_mem w) m' /\
    load_bytes m' p (n + Z.of_nat (length bytes)) = load_bytes (w_mem w) p n ++ bytes.

Lemma write_rest input segs p n cap w :
  Forall (seg_ok input) segs -> 0 <= n -> n + room segs <= cap -> disjoint_ranges p cap (str_ptr input) (str_length input) ->
  wrote_after p n cap (slashed (map (seg_text (w_mem w) input) segs)) w (write_segments input segs false p n w).
Proof.
  intros Hok. revert n w. induction Hok as [|[start k] segs (S1 & S2 & S3) Hok IH]; intros n w Hn Hroom Hd; cbn [write_segments fst snd] in *.
  { exists (w_mem w). cbn. rewrite Z.add_0_r, app_nil_r. by destruct w. }
  unfold sl_fs_copy_chars. unfold mbind, st_bind. rewrite !written. cbn [w_mem set_mem mret st_ret].
  cbn in Hroom. fold (room segs) in Hroom. pose proof (room_nonneg input segs Hok) as Hr0.
  destruct (append_byte (w_mem w) p n cap slash ltac:(lia) ltac:(by split)) as [B1 B2].
  set (m1 := st8 (w_mem w) (p + n) slash) in *. rewrite Z.add_assoc.
  destruct (append_copy m1 p (n + 1) cap (str_ptr input + start) k ltac:(lia) ltac:(lia) ltac:(lia) ltac:(unfold disjoint_ranges in *; lia)) as [C1 C2].
  rewrite Z.add_assoc in C1, C2. rewrite written. cbn [w_mem set_mem]. set (m2 := copy_forward m1 (p + n + 1) (str_ptr input + start) (Z.to_nat k)) in *.
  assert (Hin : forall q j, seg_ok input (q, j) -> load_bytes m2 (str_ptr input + q) j = load_bytes (w_mem w) (str_ptr input + q) j).
  { intros q j (Q1 & Q2 & Q3). cbn in *. eapply load_bytes_same; [eapply same_outside_trans; [exact B2|exact C2]|]. unfold disjoint_ranges in *. lia. }
  change (set_mem m2 (set_mem m1 w)) with (set_mem m2 w). destruct (IH (n + 1 + k) (set_mem m2 w) ltac:(lia) ltac:(lia) Hd) as (m3 & -> & M1 & M2). cbn [w_mem set_mem] in *.
  assert (Et : map (seg_text m2 input) segs = map (seg_text (w_mem w) input) segs).
  { apply map_ext_in. intros [q j] Hq. rewrite Forall_forall in Hok. apply Hin. apply Hok. by apply list_elem_of_In. }
  rewrite Et in *. set (rest := slashed (map (seg_text (w_mem w) input) segs)) in *.
  assert (Hlen : Z.of_nat (length (seg_text (w_mem w) input (start, k))) = k) by (apply length_load_bytes; cbn; lia).
  exists m3. change (slashed (map (seg_text (w_mem w) input) ((start, k) :: segs))) with ((slash :: seg_text (w_mem w) input (start, k)) ++ rest).
  rewrite length_app. cbn [length]. replace (n + Z.of_nat (S (length (seg_text (w_mem w) input (start, k))) + length rest)) with (n + 1 + k + Z.of_nat (length rest)) by lia.
  split; [done|]. split; [eapply same_outside_trans; [eapply same_outside_trans; [exact B2|exact C2]|exact M1]|]. rewrite M2, C1, B1.
  replace (load_bytes m1 (str_ptr input + start) k) with (seg_text (w_mem w) input (start, k)).
  - rewrite <- !app_assoc. done.
  - unfold seg_text. cbn. symmetry. eapply load_bytes_same; [exact B2|]. unfold disjoint_ranges in *. lia.
Qed.

Lemma write_normalized input segs p cap w :
  Forall (seg_ok input) segs -> room segs <= cap -> disjoint_ranges p cap (str_ptr input) (str_length input) ->
  wrote_after p 0 cap (join_slash (map (seg_text (w_mem w) input) segs)) w (write_segments input segs true p 0 w).
Proof.
  intros Hok Hroom Hd. destruct segs as [|[start k] segs].
  { exists (w_mem w). cbn. by destruct w. }
  apply Forall_cons in Hok as [(S1 & S2 & S3) Hok']. cbn [fst snd] in *. cbn in Hroom. fold (room segs) in Hroom. pose proof (room_nonneg input segs Hok') as Hr0.
  cbn [map write_segments]. rewrite join_slash_cons. unfold sl_fs_copy_chars. unfold mbind, st_bind. cbn [mret st_ret]. rewrite !written.
  destruct (append_copy (w_mem w) p 0 cap (str_ptr input + start) k ltac:(lia) ltac:(lia) ltac:(lia) ltac:(unfold disjoint_ranges in *; lia)) as [C1 C2].
  set (m1 := copy_forward (w_mem w) (p + 0) _ _) in *. rewrite Z.add_0_l in *.
  destruct (write_rest input segs p k cap (set_mem m1 w) Hok' ltac:(lia) ltac:(lia) Hd) as (m2 & -> & M1 & M2). cbn [w_mem set_mem] in *.
  assert (Et : map (seg_text m1 input) segs = map (seg_text (w_mem w) input) segs).
  { apply map_ext_in. intros [q j] Hq. rewrite Forall_forall in Hok'. destruct (Hok' (q, j) ltac:(by apply list_elem_of_In)) as (Q1 & Q2 & Q3). cbn [fst snd] in *. unfold seg_text. cbn [fst snd].
    eapply load_bytes_same; [exact C2|]. unfold disjoint_ranges in *. lia. }
  rewrite Et in *. assert (Hlen : Z.of_nat (length (seg_text (w_mem w) input (start, k))) = k) by (apply length_load_bytes; cbn; lia).
  exists m2. rewrite length_app. replace (0 + Z.of_nat (length (seg_text (w_mem w) input (start, k)) + length (slashed (map (seg_text (w_mem w) input) segs))))
    with (k + Z.of_nat (length (slashed (map (seg_text (w_mem w) input) segs)))) by lia.
  split; [done|]. split; [by eapply same_outside_trans|]. rewrite M2, C1. cbn [app]. rewrite load_bytes_nonpos by lia. done.
Qed.
End Writing.

(** * Normalizing and joining *)

Lemma slashed_length m input segs : Forall (seg_ok input) segs -> Z.of_nat (length (slashed (map (seg_text m input) segs))) = room segs.
Proof.
  induction 1 as [|[start k] segs (_ & ? & _) _ IH]; [done|]. change (slashed (map (seg_text m input) ((start, k) :: segs)))
    with ((slash :: seg_text m input (start, k)) ++ slashed (map (seg_text m input) segs)). rewrite length_app. cbn [length room fold_right snd] in *.
  pose proof (length_load_bytes m (str_ptr input + start) k ltac:(lia)). unfold seg_text at 1. cbn [fst snd]. unfold room in IH. lia.
Qed.

Lemma joined_length m input segs :
  Forall (seg_ok input) segs -> room segs <= str_length input + 1 -> 0 <= str_length input ->
  Z.of_nat (length (join_slash (map (seg_text m input) segs))) <= str_length input.
Proof.
  intros Hok Hr Hl. destruct segs as [|s segs]; [cbn; lia|]. pose proof (slashed_length m input (s :: segs) Hok) as H. cbn [map] in *. rewrite join_slash_cons.
  change (slashed (seg_text m input s :: map (seg_text m input) segs)) with ((slash :: seg_text m input s) ++ slashed (map (seg_text m input) segs)) in H.
  rewrite length_app in *. cbn [length] in H. lia.
Qed.

Section Outcomes.
Context {BC : BuildConfig} {SC : SimdConfig} {RO : ReadOnlyData} (out : Z).

Lemma extends_grown w w' : extends w w' -> grown out w w'.
Proof.
  intros He. destruct (extends_keeps _ _ He) as [_ Hk]. destruct He as [H1 H2 H3 H4 H5 H6]. split; [by split|]. intros q n Hq _. by destruct (Hk q n Hq).
Qed.

(** A view of a block that was free. *)
Lemma block_text w w1 w' p n v l :
  frame_ok out w -> fresh_block p n w w1 -> forward w1 w' -> str_ptr v = p -> 0 <= str_length v <= n -> simd_length (str_length v) ->
  str_val (w_mem w') v = l -> text_at out w' v l.
Proof.
  intros (_ & _ & Hf) Hb [_ (G1 & G2 & _) G3] <- Hl Hs E. destruct (fb_others _ _ _ _ Hb _ _ Hf) as (Hd & _). pose proof (fb_pos _ _ _ _ Hb).
  split_and!; [split; [split; lia|lia|done]| |unfold disjoint_ranges in *; lia|done].
  apply (outside_free_forward (w_arena w1)); [done..|]. eapply outside_free_sub; [apply Hb|lia|lia].
Qed.

Lemma alloc_size_array_outcome count w :
  arena_wf (w_arena w) -> is_size count -> 0 < count ->
  match sl_fs_alloc_size_array REF count REF w with
  | (Ok p, w') => grown out w w' /\ 0 < p
  | (Err c, w') => w' = w /\ starved c
  end.
Proof.
  intros Hwf Hc Hp. unfold sl_fs_alloc_size_array. cbn [is_null orb].
  pose proof (array_alloc_block count SIZE_T_BYTES SIZE_T_BYTES w Hwf Hc ltac:(by split) ltac:(by split) Hp eq_refl eq_refl) as Ha. unfold mbind, st_bind.
  destruct (sl_arena_array_alloc REF count SIZE_T_BYTES SIZE_T_BYTES REF w) as [[sl|c] w']; [|exact Ha].
  destruct Ha as (He & Hb & _). split; [by apply extends_grown|apply Hb].
Qed.

Lemma valid_text w v l : text_at out w v l -> sl_fs_str_valid v = true.
Proof. intros ([[Hl Hv] _ _] & _). unfold sl_fs_str_valid. lia. Qed.

Lemma normalize_tail_outcome w input l :
  arena_wf (w_arena w) -> frame_ok out w -> text_at out w input l ->
  match sl_fs_normalize_tail REF input REF REF w with
  | (Ok None, w') => grown out w w' /\ normalize [] (split_path l) = None
  | (Ok (Some v), w') => grown out w w' /\ exists parts, normalize [] (split_path l) = Some parts /\ text_at out w' v (join_slash parts)
  | (Err c, w') => grown out w w' /\ starved c
  end.
Proof.
  intros Hwf Hfr Ht. unfold sl_fs_normalize_tail. rewrite (valid_text w input l Ht). cbn [is_null orb negb]. pose proof Ht as ([[Hl Hv] Hp Hs] & Ho & Hd & El).
  unfold simd_length in Hs. unfold mbind, st_bind, lift. rewrite checked_add_spec by size_lia. unfold checked.
  destruct (Z.leb_spec (str_length input + 1) SIZE_MAX); [|lia].
  pose proof (alloc_block (str_length input + 1) w Hwf ltac:(size_lia) ltac:(lia)) as Ha.
  destruct (sl_arena_alloc REF (str_length input + 1) 1 REF w) as [[p|c] w1].
  2: { destruct Ha as [-> Ha]. split; [by apply grown_refl|done]. }
  destruct Ha as [Hb Hf]. pose proof (fresh_block_grown out _ _ _ _ Hb Hf) as G1.
  pose proof (alloc_size_array_outcome (str_length input + 1) w1 (fw_wf _ _ Hf) ltac:(size_lia) ltac:(lia)) as Ha.
  destruct (sl_fs_alloc_size_array REF (str_length input + 1) REF w1) as [[starts|c] w2].
  2: { destruct Ha as [-> Ha]. done. }
  destruct Ha as [G2 P2]. pose proof (grown_trans _ _ _ _ G1 G2) as G12.
  pose proof (alloc_size_array_outcome (str_length input + 1) w2 (fw_wf _ _ (gr_forward _ _ _ G2)) ltac:(size_lia) ltac:(lia)) as Ha.
  destruct (sl_fs_alloc_size_array REF (str_length input + 1) REF w2) as [[lengths|c] w3].
  2: { destruct Ha as [-> Ha]. done. }
  destruct Ha as [G3 P3]. pose proof (grown_trans _ _ _ _ G12 G3) as G. pose proof (grown_trans _ _ _ _ G2 G3) as G23. unfold gets, sl_fs_collect_normalized_segments.
  rewrite (valid_text w input l Ht). cbn [is_null orb negb]. destruct (Z.eqb_spec starts 0); [lia|]. destruct (Z.eqb_spec lengths 0); [lia|]. cbn [orb].
  pose proof (collect_spec (w_mem w3) input (S (Z.to_nat (str_length input))) 0 [] ltac:(lia) ltac:(lia) ltac:(constructor) ltac:(cbn; lia) ltac:(by left)) as Hc.
  cbv zeta in Hc. rewrite Z.add_0_r, Z.sub_0_r in Hc. fold (str_val (w_mem w3) input) in Hc. destruct (text_at_grown _ _ _ _ _ G Ht) as (_ & _ & _ & E3). rewrite E3 in Hc. cbn [map] in Hc.
  destruct (collect_segments _ (w_mem w3) input 0 []) as [segs|]; [|done]. destruct Hc as (Hn & Hok & Hroom).
  pose proof (fb_others _ _ _ _ Hb _ _ Ho) as (Hdi & _).
  destruct (write_normalized input segs p (str_length input + 1) w3 Hok Hroom Hdi) as (m' & Ew & Hm & Hload).
  unfold sl_fs_write_normalized_segments, mbind, st_bind. rewrite Ew. cbn [mret st_ret].
  split; [apply (block_write out w w3 m' p (str_length input + 1) p (p + (str_length input + 1)) G); [|lia|lia|exact Hm]; intros q k Hq; by apply (fb_others _ _ _ _ Hb)|].
  eexists. split; [exact Hn|]. pose proof (joined_length (w_mem w3) input segs Hok Hroom Hl) as Hj.
  eapply block_text; [exact Hfr|exact Hb|apply forward_mem, G23|done|cbn; lia|unfold simd_length; cbn; lia|].
  unfold str_val. cbn [str_ptr str_length sl_str_from_parts w_mem set_mem]. rewrite Hload. done.
Qed.

(** An owned string of the result: in the arena, or in its inline buffer. *)
Definition owned_text (w : World) (o : SlOwnedStr) (l : list Z) : Prop :=
  let v := sl_owned_str_as_view_ref (Some o) in
  str_val (w_mem w) v = l /\ outside_free (w_arena w) (str_ptr v) (str_length v).

(** It lies beside the other parts of the object. *)
Definition beside (sso : Z) (o : SlOwnedStr) : Prop :=
  let v := sl_owned_str_as_view_ref (Some o) in
  forall b, out <= b -> b + 16 <= out + FRAME_BYTES -> disjoint_ranges b 16 sso 16 -> disjoint_ranges (str_ptr v) (str_length v) b 16.

(** Nothing but the free part and one inline buffer is written. *)
Definition spares (sso : Z) (w w' : World) : Prop :=
  forward w w' /\ forall q n, outside_free (w_arena w) q n -> disjoint_ranges q n sso 16 ->
    outside_free (w_arena w') q n /\ load_bytes (w_mem w') q n = load_bytes (w_mem w) q n.

Lemma fs_spares_trans sso w1 w2 w3 : spares sso w1 w2 -> spares sso w2 w3 -> spares sso w1 w3.
Proof.
  intros [F1 O1] [F2 O2]. split; [by eapply forward_trans|]. intros q n Hq Hd. destruct (O1 q n Hq Hd) as [H1 E1].
  destruct (O2 q n H1 Hd) as [H2 E2]. split; [done|congruence].
Qed.

Lemma spares_grown sso w w' : out <= sso -> sso + 16 <= out + FRAME_BYTES -> spares sso w w' -> grown out w w'.
Proof. intros H1 H2 [F O]. split; [done|]. intros q n Hq Hd. apply O; [done|]. unfold disjoint_ranges in *. lia. Qed.

Lemma spares_zero sso w : arena_wf (w_arena w) -> spares sso w (set_mem (store (w_mem w) sso (replicate 16 0)) w).
Proof.
  intros Hwf. split; [by apply forward_mem, forward_refl|]. intros q n Hq Hd. split; [done|]. cbn [w_mem set_mem]. eapply load_bytes_same; [apply store_same_outside|].
  rewrite length_replicate. unfold disjoint_ranges in *. lia.
Qed.

Lemma spares_block sso w w1 p n m :
  fresh_block p n w w1 -> forward w w1 -> same_outside p (p + n) (w_mem w1) m -> spares sso w (set_mem m w1).
Proof.
  intros Hb Hf Hm. split; [by apply forward_mem|]. intros q k Hq _. destruct (fb_others _ _ _ _ Hb q k Hq) as (Hd & Hl & Ho). split; [done|]. cbn. rewrite <- Hl.
  eapply load_bytes_same; [exact Hm|]. unfold disjoint_ranges in *. lia.
Qed.

Lemma zero_written sso w :
  arena_wf (w_arena w) -> out <= sso -> sso + 16 <= out + FRAME_BYTES -> grown out w (set_mem (store (w_mem w) sso (replicate 16 0)) w).
Proof.
  intros Hwf H1 H2. eapply frame_write; [done|exact H1| |apply store_same_outside]. rewrite length_replicate. lia.
Qed.

(** A copy into a string of the result. *)
Lemma copy_segment_outcome w v l sso :
  arena_wf (w_arena w) -> frame_ok out w -> text_at out w v l -> out <= sso -> sso + 16 <= out + FRAME_BYTES ->
  match sl_fs_copy_segment REF v REF sso w with
  | (Ok o, w') => grown out w w' /\ owned_text w' o l /\ beside sso o
  | (Err c, w') => grown out w w' /\ starved c
  end.
Proof.
  intros Hwf Hfr Ht H1 H2. unfold sl_fs_copy_segment, write_owned. cbn [is_null]. unfold_st. cbn [ol_sso owned_zero].
  set (w0 := set_mem _ w). assert (G0 : grown out w w0) by by apply zero_written. pose proof (frame_grown _ _ _ (gr_forward _ _ _ G0) Hfr) as Hf0.
  assert (Hsso : forall k, 0 <= k <= 16 -> outside_free (w_arena w0) sso k).
  { intros k Hk. destruct Hf0 as (_ & _ & Hf0). eapply outside_free_sub; [exact Hf0|lia|lia]. }
  pose proof (text_at_grown _ _ _ _ _ G0 Ht) as T0. pose proof (fw_wf _ _ (gr_forward _ _ _ G0)) as Hwf0. clearbody w0. pose proof T0 as (Hv & Ho & Hd & El).
  pose proof Hv as [Hva _ _]. pose proof Hva as [Hl _]. unfold sl_str_copy_to_arena. cbn [is_null orb]. rewrite str_valid_storage by done. cbn [negb orb].
  pose proof (length_str_val (w_mem w0) v Hl) as Hn. rewrite El in Hn. destruct (Z.eqb_spec (str_length v) 0) as [E0|E0].
  { unfold write_owned. unfold_st. cbn [ol_sso owned_zero]. split; [eapply grown_trans; [exact G0|by apply zero_written]|].
    destruct l; [|cbn in Hn; lia]. split; [split; [done|]; unfold outside_free, disjoint_ranges; cbn; lia|]. intros b _ _ _. unfold disjoint_ranges. cbn. lia. }
  unfold mbind at 1, st_bind at 1, gets at 1. rewrite El. destruct (Z.leb_spec (str_length v) SL_OWNED_STR_SSO_MAX_LENGTH) as [Hs|Hs].
  { unfold SL_OWNED_STR_SSO_MAX_LENGTH, SL_OWNED_STR_SSO_CAPACITY in Hs. unfold sl_owned_str_publish, write_owned. unfold_st.
    assert (Hbytes : Forall is_byte l) by (rewrite <- El; apply load_is_byte). pose proof (sso_store_val (w_mem w0) sso l false Hbytes ltac:(lia)) as [S1 _].
    pose proof (sso_result_bytes l false ltac:(lia)) as Esso. split.
    - eapply grown_trans; [exact G0|]. eapply frame_write; [done|exact H1| |apply store_same_outside]. rewrite Esso, length_app, length_replicate. lia.
    - split; [split|]; cbn -[store ol_sso].
      + unfold str_val, load_bytes. cbn -[store ol_sso]. rewrite Nat2Z.id. exact S1.
      + apply Hsso. lia.
      + intros b B1 B2. unfold disjoint_ranges. cbn -[store ol_sso]. lia. }
  pose proof (copy_view_outcome v w0 Hwf0 Hv Ho) as Hc. unfold sl_str_copy_view_to_arena in Hc. cbn [is_null orb] in Hc. rewrite str_valid_storage in Hc by done. cbn [negb orb] in Hc.
  destruct (Z.eqb_spec (str_length v) 0); [lia|]. unfold mbind, st_bind in *.
  destruct (sl_arena_alloc REF (str_length v) SL_STR_WORD_ALIGNMENT REF w0) as [[p|c] w1].
  2: { destruct Hc as [-> Hc]. done. }
  unfold copy_in_world, modify, gets, sl_owned_str_publish, write_owned, modify in *. unfold_st. cbn [mret st_ret] in Hc.
  set (w2 := set_mem (sl_internal_copy (w_mem w1) p (str_ptr v) (str_length v)) w1) in *. destruct Hc as [F1 F2 F3 F4 F5].
  destruct Hf0 as (Hf01 & Hf02 & Hf03). destruct (F2 _ _ Hf03) as (_ & _ & Hdf). cbn [str_ptr str_length sl_str_from_parts] in *.
  assert (G2 : grown out w0 w2) by (split; [done|]; intros q k Hq _; by destruct (F2 q k Hq) as (? & ? & _)).
  pose proof (zero_written sso w2 (fw_wf _ _ F1) H1 H2) as G3. split; [eapply grown_trans; [exact G0|]; by eapply grown_trans|].
  split; [split; [|exact F3]|intros b B1 B2 _; unfold disjoint_ranges in *; cbn; lia]. rewrite <- El, <- F4. unfold str_val.
  cbn [str_ptr str_length sl_str_from_parts sl_owned_str_as_view_ref owned_is_sso owned_ptr owned_length sl_owned_str_rebind]. apply (gr_others _ _ _ G3); [exact F3|exact Hdf].
Qed.

Lemma last_loaded m p n : 0 < n -> List.last (load_bytes m p n) 0 = ld8 m (p + (n - 1)).
Proof.
  intros Hn. replace n with (n - 1 + 1) at 1 by lia. rewrite load_bytes_app, (load_bytes_cons m (p + (n - 1)) 1), (load_bytes_nonpos m _ (1 - 1)) by lia. apply last_last.
Qed.

(** The buffer of a joined path: the root, perhaps a separator, the tail. *)
Lemma join_bytes w root tail p cap :
  0 <= str_length root -> 0 <= str_length tail -> str_length root + str_length tail + 2 = cap ->
  disjoint_ranges p cap (str_ptr root) (str_length root) -> disjoint_ranges p cap (str_ptr tail) (str_length tail) ->
  let r := str_val (w_mem w) root in
  let t := str_val (w_mem w) tail in
  exists m', same_outside p (p + cap) (w_mem w) m' /\ load_bytes m' p (Z.of_nat (length (under r t))) = under r t /\
  join_into p root tail w = (Ok (Z.of_nat (length (under r t))), set_mem m' w).
Proof.
  intros Hr Ht Hcap Dr Dt r t. unfold join_into. set (nr := str_length root) in *. set (nt := str_length tail) in *.
  assert (Lr : Z.of_nat (length r) = nr) by (apply length_str_val; done). assert (Lt : Z.of_nat (length t) = nt) by (apply length_str_val; done).
  assert (Er : bool_decide (r = []) = (nr =? 0)) by (apply part_empty; done). assert (Et : bool_decide (t = []) = (nt =? 0)) by (apply part_empty; done).
  (* the root *)
  assert (H1 : exists m1, same_outside p (p + cap) (w_mem w) m1 /\ load_bytes m1 p nr = r /\
    (if negb (nr =? 0) then sl_fs_copy_chars p (str_ptr root) nr ;; mret nr else mret 0) w = (Ok nr, set_mem m1 w)).
  { destruct (Z.eqb_spec nr 0) as [E|E]; cbn [negb].
    - exists (w_mem w). rewrite E in *. split_and!; [done|by destruct r; [|cbn in Lr; lia]|by destruct w].
    - destruct (append_copy (w_mem w) p 0 cap (str_ptr root) nr ltac:(lia) ltac:(lia) ltac:(lia) Dr) as [C1 C2]. rewrite Z.add_0_r, Z.add_0_l in *.
      eexists. split; [exact C2|]. split; [rewrite C1; by rewrite load_bytes_nonpos|done]. }
  destruct H1 as (m1 & M1 & L1 & E1). unfold mbind at 1, st_bind at 1. rewrite E1. unfold mbind at 1, st_bind at 1, gets at 1. cbn [w_mem set_mem].
  (* the separator *)
  set (c := negb (bool_decide (r = []) || bool_decide (t = []) || sl_fs_is_separator (List.last r 0))).
  assert (Hc : negb (nr =? 0) && negb (nt =? 0) && negb (sl_fs_is_separator (ld8 m1 (p + (nr - 1)))) = c).
  { unfold c. rewrite Er, Et. destruct (Z.eqb_spec nr 0); [done|]. rewrite <- L1, last_loaded by lia. by destruct (nt =? 0), (sl_fs_is_separator _). }
  rewrite Hc. set (r' := if c then r ++ [slash] else r).
  assert (Hu : under r t = r' ++ t). { unfold under, r', c. destruct (_ || _); cbn [negb]; [done|]. by rewrite <- app_assoc. }
  assert (H2 : exists m2, same_outside p (p + cap) (w_mem w) m2 /\ load_bytes m2 p (Z.of_nat (length r')) = r' /\ Z.of_nat (length r') <= nr + 1 /\
    (if c then in_memory (modify (fun m => st8 m (p + nr) slash)) ;; mret (nr + 1) else mret nr) (set_mem m1 w) = (Ok (Z.of_nat (length r')), set_mem m2 w)).
  { unfold r'. destruct c.
    - destruct (append_byte m1 p nr cap slash ltac:(lia) ltac:(by split)) as [B1 B2]. rewrite L1 in B1. exists (st8 m1 (p + nr) slash). rewrite length_app. cbn [length].
      replace (Z.of_nat (length r + 1)) with (nr + 1) by lia. split_and!; [by eapply same_outside_trans|done|lia|done].
    - exists m1. rewrite Lr. split_and!; [done|done|lia|done]. }
  destruct H2 as (m2 & M2 & L2 & B2 & E2). unfold mbind at 1, st_bind at 1. rewrite E2, Hu, length_app.
  (* the tail *)
  destruct (Z.eqb_spec nt 0) as [E|E]; cbn [negb].
  - assert (t = []) as -> by (destruct t; [done|cbn in Lt; lia]). rewrite app_nil_r, Nat.add_0_r. by exists m2.
  - destruct (append_copy m2 p (Z.of_nat (length r')) cap (str_ptr tail) nt ltac:(lia) ltac:(lia) ltac:(lia) Dt) as [C1 C2].
    replace (Z.of_nat (length r' + length t)) with (Z.of_nat (length r') + nt) by lia. eexists. split; [by eapply same_outside_trans; [exact M2|exact C2]|]. split; [|done].
    rewrite C1, L2. f_equal. eapply load_bytes_same; [exact M2|]. unfold disjoint_ranges in *. lia.
Qed.

Lemma join_outcome w root r tail t :
  arena_wf (w_arena w) -> frame_ok out w -> text_at out w root r -> text_at out w tail t ->
  match sl_fs_join_paths REF root tail REF (out + PATH_SSO) w with
  | (Ok o, w') => spares (out + PATH_SSO) w w' /\ owned_text w' o (under r t)
  | (Err c, w') => spares (out + PATH_SSO) w w' /\ starved c
  end.
Proof.
  intros Hwf Hfr Hr Ht. unfold sl_fs_join_paths. rewrite (valid_text _ _ _ Hr), (valid_text _ _ _ Ht). cbn [is_null orb negb].
  unfold mbind at 1, st_bind at 1. destruct (write_owned (out + PATH_SSO) owned_zero w) as [x w0] eqn:Ew. injection Ew as <- Ew.
  assert (S0 : spares (out + PATH_SSO) w w0) by (rewrite <- Ew; by apply spares_zero). clear Ew.
  assert (G0 : grown out w w0) by (eapply spares_grown; [| |exact S0]; unfold PATH_SSO, FRAME_BYTES; lia).
  pose proof (text_at_grown _ _ _ _ _ G0 Hr) as (Hrv & Hro & _ & Er). pose proof (text_at_grown _ _ _ _ _ G0 Ht) as (Htv & Hto & _ & Et).
  pose proof (fw_wf _ _ (gr_forward _ _ _ G0)) as Hwf0. destruct Hrv as [[Hr0 _] _ Hrs], Htv as [[Ht0 _] _ Hts]. unfold simd_length in *.
  unfold mbind at 1, st_bind at 1, lift at 1. rewrite checked_add_spec by size_lia. unfold checked at 1. destruct (Z.leb_spec (str_length root + str_length tail) SIZE_MAX); [|split; [done|by right]].
  unfold mbind at 1, st_bind at 1, lift at 1. rewrite checked_add_spec by size_lia. unfold checked at 1. destruct (Z.leb_spec (str_length root + str_length tail + 2) SIZE_MAX); [|split; [done|by right]].
  pose proof (alloc_block (str_length root + str_length tail + 2) w0 Hwf0 ltac:(size_lia) ltac:(lia)) as Ha. unfold mbind at 1, st_bind at 1.
  destruct (sl_arena_alloc REF (str_length root + str_length tail + 2) 1 REF w0) as [[p|c] w1].
  2: { destruct Ha as [-> Ha]. done. }
  destruct Ha as [Hb Hf]. destruct (fb_others _ _ _ _ Hb _ _ Hro) as (D1 & V1 & _). destruct (fb_others _ _ _ _ Hb _ _ Hto) as (D2 & V2 & _).
  destruct (join_bytes w1 root tail p _ Hr0 Ht0 eq_refl D1 D2) as (m' & M1 & M2 & E). cbv zeta in M2, E.
  assert (Er1 : str_val (w_mem w1) root = r) by (rewrite <- Er; exact V1). assert (Et1 : str_val (w_mem w1) tail = t) by (rewrite <- Et; exact V2). rewrite Er1, Et1 in *.
  assert (Hlen : Z.of_nat (length (under r t)) <= str_length root + str_length tail + 2).
  { pose proof (length_str_val (w_mem w1) root Hr0) as L1. pose proof (length_str_val (w_mem w1) tail Ht0) as L2. rewrite Er1 in L1. rewrite Et1 in L2.
    unfold under. destruct (_ || _); rewrite length_app; cbn [length]; lia. }
  unfold mbind, st_bind. rewrite E. cbn [mret st_ret]. split.
  - eapply fs_spares_trans; [exact S0|by eapply spares_block].
  - split; [exact M2|]. eapply outside_free_sub; [apply Hb|cbn; lia|cbn; lia].
Qed.

(** The arena is given back; what the caller holds stays. *)
Lemma reset_grown w w2 :
  arena_wf (w_arena w) -> grown out w w2 ->
  let w' := snd (sl_arena_reset_to REF (sl_arena_mark REF w) w2) in grown out w w' /\ ar_offset (w_arena w') = ar_offset (w_arena w).
Proof.
  intros Hwf [[X1 (X2 & X3 & X4) X5] O] w'. pose proof Hwf as Hwf0. pose proof X1 as X1'. unfold arena_wf in Hwf0, X1'.
  destruct (sl_arena_reset_to REF (sl_arena_mark REF w) w2) as [r w3] eqn:E. subst w'. cbn [snd].
  assert (Hr : r = Ok tt).
  { revert E. unfold sl_arena_reset_to, sl_arena_mark. unfold_st. cbn [is_null mark_generation mark_offset].
    destruct (Z.eqb_spec (ar_generation (w_arena w)) (ar_generation (w_arena w2))); [|congruence]. cbn [negb].
    destruct (Z.ltb_spec (ar_offset (w_arena w2)) (ar_offset (w_arena w))); [lia|]. destruct (Z.ltb_spec (ar_capacity (w_arena w2)) (ar_offset (w_arena w))); [lia|].
    cbn [orb]. by intros [= <- _]. }
  subst r. apply sl_arena_reset_to_ok in E as (_ & _ & Ea & Em); [|exact X1|cbn; lia]. cbn [mark_offset sl_arena_mark is_null] in *. split; [|by rewrite Ea].
  split; [split; rewrite ?Ea; cbn; [unfold arena_wf; cbn; lia|done|lia]|]. intros q n Hq Hd. destruct (O q n Hq Hd) as [H1 H2]. rewrite Ea. split.
  - unfold outside_free in *. cbn. by rewrite X2, X3.
  - rewrite <- H2. eapply load_bytes_same; [exact Em|]. unfold outside_free, disjoint_ranges in *. lia.
Qed.

(** * Classification *)

Lemma starts_cons f ps m p n : starts (f :: ps) (load_bytes m p n) = (0 <? n) && f (ld8 m p) && starts ps (load_bytes m (p + 1) (n - 1)).
Proof.
  destruct (Z.ltb_spec 0 n); [by rewrite load_bytes_cons by lia|by rewrite load_bytes_nonpos by lia].
Qed.

Lemma starts_nil l : starts [] l = true.
Proof. by destruct l. Qed.

Lemma break_colon m input :
  0 <= str_length input ->
  let i := find_byte m input colon 0 (Z.to_nat (str_length input)) in
  0 <= i <= str_length input /\
  break_at colon (str_val m input) = (load_bytes m (str_ptr input) i, load_bytes m (str_ptr input + (i + 1)) (str_length input - (i + 1))).
Proof.
  intros Hl i. pose proof (find_byte_view m input colon 0 (str_length input) ltac:(lia)) as H. cbv zeta in H. rewrite !Z.sub_0_r, Z.add_0_r in H.
  fold i in H. by destruct H as (? & ? & _).
Qed.

Lemma classify_colon_spec m input :
  0 < str_length input ->
  classify_colon m input =
    let '(name, rest) := break_at colon (str_val m input) in
    if bool_decide (name = []) || negb (starts [sl_fs_is_separator] rest) then Err SL_STATUS_INVALID_ARGUMENT else Ok SL_FS_PATH_NAMED_ROOT.
Proof.
  intros Hl. unfold classify_colon. destruct (break_colon m input ltac:(lia)) as [Hi ->]. set (i := find_byte m input colon 0 _) in *. clearbody i.
  rewrite part_empty, starts_cons, starts_nil, andb_true_r by lia. unfold at_.
  destruct (Z.eqb_spec i (str_length input)) as [E|E].
  - destruct (Z.ltb_spec 0 (str_length input - (i + 1))); [lia|]. cbn. by rewrite orb_true_r.
  - destruct (Z.eqb_spec i 0); [done|]. destruct (Z.leb_spec (str_length input) (i + 1)), (Z.ltb_spec 0 (str_length input - (i + 1))); try lia; [done|].
    by destruct (sl_fs_is_separator _).
Qed.

Lemma classify_path_spec m input :
  text_view input ->
  sl_fs_classify_path m input REF = match path_kind (str_val m input) with Some k => Ok k | None => Err SL_STATUS_INVALID_ARGUMENT end.
Proof.
  intros [[Hl Hv] _ _]. unfold sl_fs_classify_path, path_kind. cbn [is_null orb]. unfold str_val at 1. rewrite part_empty by done.
  destruct (Z.eqb_spec (str_length input) 0) as [|Hn]; [done|]. cbn [orb]. unfold sl_fs_contains_nul.
  assert (Hok : sl_fs_str_valid input = true) by (unfold sl_fs_str_valid; lia). rewrite Hok. cbn [negb].
  destruct (existsb (fun ch => ch =? 0) (str_val m input)); [done|]. rewrite classify_colon_spec by lia.
  unfold str_val. rewrite !starts_cons, !starts_nil, !andb_true_r. unfold at_, is_colon, is_dot. rewrite Z.add_0_r.
  replace (str_ptr input + 1 + 1) with (str_ptr input + 2) by lia. set (c0 := ld8 m (str_ptr input)). set (c1 := ld8 m (str_ptr input + 1)). set (c2 := ld8 m (str_ptr input + 2)).
  replace (0 <? str_length input) with true by lia. replace (0 <? str_length input - 1) with (2 <=? str_length input) by lia.
  replace (0 <? str_length input - 1 - 1) with (3 <=? str_length input) by lia. cbn [andb].
  destruct (sl_fs_is_separator c0) eqn:E0; cbn [andb orb]; [by destruct (_ && _)|]. rewrite !andb_false_r. cbn [andb].
  assert (E3 : (3 <=? str_length input) && sl_fs_is_alpha c0 && (c1 =? colon) && sl_fs_is_separator c2 =
               sl_fs_is_alpha c0 && ((2 <=? str_length input) && (c1 =? colon) && ((3 <=? str_length input) && sl_fs_is_separator c2))).
  { destruct (Z.leb_spec 3 (str_length input)), (Z.leb_spec 2 (str_length input)); try lia; destruct (sl_fs_is_alpha c0), (c1 =? colon), (sl_fs_is_separator c2); done. }
  rewrite E3. destruct (sl_fs_is_alpha c0 && _); [done|].
  assert (E2 : (2 <=? str_length input) && (c0 =? dot) && sl_fs_is_separator c1 = (c0 =? dot) && ((2 <=? str_length input) && sl_fs_is_separator c1)).
  { by destruct (2 <=? str_length input), (c0 =? dot). }
  rewrite E2. destruct ((c0 =? dot) && _); [done|]. destruct (break_at colon _) as [name rest]. by destruct (_ || _).
Qed.

(** * Policies *)

Definition root_at (w : World) (root : SlFsRoot) (r : list Z * list Z) : Prop :=
  text_at out w (fr_name root) (fst r) /\ text_at out w (fr_path root) (snd r).

Record policy_at (w : World) (policy : SlFsPolicy) (p : fs_policy) : Prop := {
  pa_root : text_at out w (po_app_root policy) (sp_root p);
  pa_roots : Forall2 (root_at w) (po_roots policy) (sp_roots p);
  pa_array : po_roots policy <> [] -> po_roots_ptr policy = REF;
  pa_mode : sp_mode p = po_mode policy /\ sp_allow_absolute p = po_allow_absolute policy;
}.

Lemma policy_grown w w' policy p : grown out w w' -> policy_at w policy p -> policy_at w' policy p.
Proof.
  intros Hg [H1 H2 H3 H4]. split; [by eapply text_at_grown| |done|done]. eapply Forall2_impl; [exact H2|]. intros ? ? [? ?]. split; by eapply text_at_grown.
Qed.

Lemma find_root_spec w policy p name l :
  policy_at w policy p -> str_valid name -> str_val (w_mem w) name = l ->
  option_Forall2 (root_at w) (sl_fs_find_root (w_mem w) (Some policy) name) (List.find (fun r => bool_decide (fst r = l)) (sp_roots p)).
Proof.
  intros Hp Hv El. unfold sl_fs_find_root.
  assert (E : negb (bool_decide (po_roots policy = [])) && is_null (po_roots_ptr policy) = false).
  { destruct (bool_decide_reflect (po_roots policy = [])) as [|Hne]; [done|]. by rewrite (pa_array _ _ _ Hp Hne). }
  rewrite E. clear E. induction (pa_roots _ _ _ Hp) as [|root r roots rs Hr _ IH]; cbn [List.find]; [constructor|].
  pose proof Hr as [([Hnv _ _] & _ & _ & En) _]. rewrite sl_str_equal_spec, En, El by done.
  destruct (bool_decide (fst r = l)); [exact (Some_Forall2 _ _ _ Hr)|exact IH].
Qed.

(** * Resolution *)

(** What an attempt leaves, before a failure is cleaned up: the arena is full, or the
    path is answered. *)
Definition attempted (w0 : World) (d0 : SlDiag) (d : nullable) (a : fs_answer) (res : result unit) (s : FsSys) : Prop :=
  grown out w0 (fx_world s) /\
  ((exists c, res = Err c /\ starved c /\ fx_diag s = d0) \/
   match a with
   | Silent status => res = Err status /\ fx_diag s = d0
   | Rejected status code message => res = Err status /\ fx_diag s = if is_null d then d0 else sl_fs_diag code message
   | Located kind path name warning =>
       res = Ok tt /\ fx_diag s = d0 /\ rv_kind (fx_out s) = kind /\ owned_text (fx_world s) (rv_path (fx_out s)) path /\
       owned_text (fx_world s) (rv_root_name (fx_out s)) name /\ rv_development_absolute_warning (fx_out s) = warning
   end).

Lemma zero_owned_text w sso : owned_text w (zero_owned sso) [].
Proof. split; [done|]. unfold outside_free, disjoint_ranges. cbn. lia. Qed.

Lemma inline_place b : b = PATH_SSO \/ b = ROOT_NAME_SSO -> out <= out + b /\ out + b + 16 <= out + FRAME_BYTES.
Proof. unfold PATH_SSO, ROOT_NAME_SSO, FRAME_BYTES. lia. Qed.

(** A refusal after the arena has been given back. *)
Lemma fail_attempted w w0 s d code status message :
  arena_wf (w_arena w0) -> grown out w0 (fx_world s) -> sl_arena_mark REF w = sl_arena_mark REF w0 ->
  let '(res, s') := (reset_arena REF (sl_arena_mark REF w) ;; sl_fs_fail d code status message) s in
  attempted w0 (fx_diag s) d (Rejected status code message) res s'.
Proof.
  intros Hwf Hg ->. destruct (reset_grown w0 (fx_world s) Hwf Hg) as [R1 _]. unfold reset_arena, sl_fs_fail. unfold_st. destruct d; (split; [exact R1|by right]).
Qed.

Record fs_ready (w : World) (policy : SlFsPolicy) (p : fs_policy) (input : SlStr) (l : list Z) : Prop := {
  fy_wf : arena_wf (w_arena w);
  fy_frame : frame_ok out w;
  fy_policy : policy_at w policy p;
  fy_input : text_at out w input l;
}.

Lemma ready_fs_grown w w' policy p input l : grown out w w' -> fs_ready w policy p input l -> fs_ready w' policy p input l.
Proof.
  intros Hg [H1 H2 H3 H4]. split; [apply Hg|eapply frame_grown; [apply Hg|done]|by eapply policy_grown|by eapply text_at_grown].
Qed.

Section Resolve.
Context (w : World) (diag0 : SlDiag) (policy : SlFsPolicy) (p : fs_policy) (input : SlStr) (l : list Z) (d : nullable).
Hypothesis Hready : fs_ready w policy p input l.

(** The state in which an attempt starts. *)
Definition attempt_state (kind : SlFsPathKind) : FsSys := {| fx_world := w; fx_out := set_kind kind (zero_resolved out); fx_diag := diag0 |}.

Lemma absolute_outcome :
  let '(res, s') := sl_fs_resolve_absolute out REF policy input d (sl_arena_mark REF w) (attempt_state SL_FS_PATH_ABSOLUTE) in
  attempted w diag0 d
    (if bool_decide (sp_mode p = SL_FS_POLICY_STRICT) && negb (sp_allow_absolute p)
     then Rejected SL_STATUS_INVALID_STATE SL_DIAG_PERMISSION_DENIED "absolute filesystem paths require explicit allow in strict mode"
     else Located SL_FS_PATH_ABSOLUTE l [] (bool_decide (sp_mode p = SL_FS_POLICY_DEVELOPMENT))) res s'.
Proof.
  destruct Hready as [Hwf Hfr Hp Hi]. destruct (pa_mode _ _ _ Hp) as [-> ->]. unfold sl_fs_resolve_absolute.
  destruct (bool_decide (po_mode policy = SL_FS_POLICY_STRICT) && negb (po_allow_absolute policy)).
  { apply fail_attempted; [done|by apply grown_refl|done]. }
  destruct (inline_place PATH_SSO ltac:(by left)) as [B1 B2]. pose proof (copy_segment_outcome w input l (out + PATH_SSO) Hwf Hfr Hi B1 B2) as Hc.
  unfold in_fx_world, zoom, mbind, st_bind. cbn [fx_world attempt_state].
  destruct (sl_fs_copy_segment REF input REF (out + PATH_SSO) w) as [[o|c] w1].
  - destruct Hc as (G1 & T1 & _). split; [exact G1|right]. cbn. split_and!; [done|done|done|exact T1|apply zero_owned_text|done].
  - destruct Hc as [G1 Hc]. split; [exact G1|left]. by exists c.
Qed.

(** The view of what follows a prefix of [k] bytes. *)
Lemma tail_text k : 0 <= k <= str_length input -> 0 < str_length input ->
  text_at out w (sl_str_from_parts (str_ptr input + k) (str_length input - k)) (drop (Z.to_nat k) l).
Proof.
  intros Hk Hpos. destruct (fy_input _ _ _ _ _ Hready) as ([[Hl Hv] Hp Hs] & Ho & Hd & El). unfold simd_length in *.
  split_and!; cbn [str_ptr str_length sl_str_from_parts].
  - split; [split; cbn; lia|cbn; lia|unfold simd_length; cbn; lia].
  - eapply outside_free_sub; [exact Ho|lia|lia].
  - unfold disjoint_ranges in *. lia.
  - rewrite <- El. unfold str_val. cbn [str_ptr str_length sl_str_from_parts]. symmetry. apply load_bytes_drop. lia.
Qed.

Lemma project_outcome :
  2 <= str_length input ->
  let '(res, s') := sl_fs_resolve_project_relative out REF policy input d (sl_arena_mark REF w) (attempt_state SL_FS_PATH_PROJECT_RELATIVE) in
  attempted w diag0 d (locate_under SL_FS_PATH_PROJECT_RELATIVE (sp_root p) [] (drop 2 l) "project-relative filesystem path escapes the app root") res s'.
Proof.
  intros Hlen. destruct Hready as [Hwf Hfr Hp Hi]. unfold sl_fs_resolve_project_relative, locate_under. cbv zeta.
  pose proof (normalize_tail_outcome w _ _ Hwf Hfr (tail_text 2 ltac:(lia) ltac:(lia))) as Hn. change (Z.to_nat 2) with 2%nat in Hn.
  unfold mbind at 1, st_bind at 1, in_fx_world at 1, zoom at 1. cbn [fx_world attempt_state].
  destruct (sl_fs_normalize_tail REF _ REF REF w) as [[[v|]|c] w1].
  - destruct Hn as (G1 & parts & -> & T1). pose proof (ready_fs_grown _ _ _ _ _ _ G1 Hready) as [Hwf1 Hfr1 Hp1 _].
    pose proof (join_outcome w1 _ _ _ _ Hwf1 Hfr1 (pa_root _ _ _ Hp1) T1) as Hj. unfold in_fx_world, zoom, mbind, st_bind. cbn [fx_world set_fx_world].
    destruct (inline_place PATH_SSO ltac:(by left)) as [B1 B2].
    destruct (sl_fs_join_paths REF (po_app_root policy) v REF (out + PATH_SSO) w1) as [[o|c] w2]; destruct Hj as [S2 T2]; pose proof (spares_grown _ _ _ B1 B2 S2) as G2;
      (split; [by eapply grown_trans|]); [right|left; by exists c]. cbn. split_and!; [done|done|done|exact T2|apply zero_owned_text|done].
  - destruct Hn as [G1 ->]. apply (fail_attempted w w {| fx_world := w1; fx_out := _; fx_diag := diag0 |}); done.
  - destruct Hn as [G1 Hn]. split; [exact G1|left]. by exists c.
Qed.

(** A string of the result stays while another is written. *)
Lemma owned_spared w1 w2 o name a b :
  owned_text w1 o name -> beside (out + a) o -> spares (out + b) w1 w2 -> a = ROOT_NAME_SSO -> b = PATH_SSO -> owned_text w2 o name.
Proof.
  intros [E Ho] Hb [_ S] -> ->. destruct (inline_place PATH_SSO ltac:(by left)) as [B1 B2].
  destruct (S _ _ Ho (Hb (out + PATH_SSO) B1 B2 ltac:(unfold disjoint_ranges, PATH_SSO, ROOT_NAME_SSO; lia))) as [H1 H2]. split; [|exact H1].
  rewrite <- E. exact H2.
Qed.

Lemma named_outcome name rest :
  break_at colon l = (name, rest) -> starts [sl_fs_is_separator] rest = true ->
  let '(res, s') := sl_fs_resolve_named_root out REF policy input d (sl_arena_mark REF w) (attempt_state SL_FS_PATH_NAMED_ROOT) in
  attempted w diag0 d
    match List.find (fun r => bool_decide (fst r = name)) (sp_roots p) with
    | None => Rejected SL_STATUS_INVALID_ARGUMENT SL_DIAG_INVALID_ARGUMENT "unknown filesystem root"
    | Some r => locate_under SL_FS_PATH_NAMED_ROOT (snd r) name (drop 1 rest) "named-root filesystem path escapes its root"
    end res s'.
Proof.
  intros Hbr Hst. destruct Hready as [Hwf Hfr Hp Hi]. pose proof Hi as ([[Hl Hv] Hp0 Hs] & Ho & Hd & El). unfold simd_length in Hs.
  destruct (break_colon (w_mem w) input Hl) as [Hix Hbr']. rewrite El, Hbr in Hbr'. unfold sl_fs_resolve_named_root.
  unfold mbind at 1, st_bind at 1, gets at 1. cbn [fx_world attempt_state]. cbv zeta. set (i := find_byte (w_mem w) input colon 0 _) in *. clearbody i.
  injection Hbr' as En Er. rewrite Er, starts_cons in Hst. assert (Hlen : 0 < str_length input - (i + 1)) by (destruct (Z.ltb_spec 0 (str_length input - (i + 1))); done).
  assert (Hname : text_at out w (sl_str_from_parts (str_ptr input) i) name).
  { split_and!; cbn [str_ptr str_length sl_str_from_parts]; [|eapply outside_free_sub; [exact Ho|lia|lia]|unfold disjoint_ranges in *; lia|by rewrite En].
    split; [split; cbn; lia|cbn; lia|unfold simd_length; cbn; lia]. }
  pose proof (find_root_spec w policy p _ name Hp (tv_valid _ (proj1 Hname)) (proj2 (proj2 (proj2 Hname)))) as Hf.
  destruct Hf as [root r [_ Hroot]|].
  2: { apply (fail_attempted w w (attempt_state SL_FS_PATH_NAMED_ROOT)); [done|by apply grown_refl|done]. }
  pose proof (tail_text (i + 2) ltac:(lia) ltac:(lia)) as Htail.
  assert (Edrop : drop (Z.to_nat (i + 2)) l = drop 1 rest).
  { rewrite Er, <- El. unfold str_val. rewrite load_bytes_drop by lia. change 1%nat with (Z.to_nat 1). rewrite load_bytes_drop by lia. f_equal; lia. }
  rewrite Edrop in Htail. replace (str_ptr input + (i + 2)) with (str_ptr input + i + 2) in Htail by lia.
  replace (str_length input - (i + 2)) with (str_length input - i - 2) in Htail by lia. unfold locate_under.
  pose proof (normalize_tail_outcome w _ _ Hwf Hfr Htail) as Hn. unfold mbind at 1, st_bind at 1, in_fx_world at 1, zoom at 1. cbn [fx_world attempt_state].
  destruct (sl_fs_normalize_tail REF _ REF REF w) as [[[v|]|c] w1].
  2: { destruct Hn as [G1 ->]. apply (fail_attempted w w {| fx_world := w1; fx_out := _; fx_diag := diag0 |}); done. }
  2: { destruct Hn as [G1 Hn]. split; [exact G1|left]. by exists c. }
  destruct Hn as (G1 & parts & -> & T1). pose proof (ready_fs_grown _ _ _ _ _ _ G1 Hready) as [Hwf1 Hfr1 _ _].
  destruct (inline_place ROOT_NAME_SSO ltac:(by right)) as [B1 B2].
  pose proof (copy_segment_outcome w1 _ _ (out + ROOT_NAME_SSO) Hwf1 Hfr1 (text_at_grown _ _ _ _ _ G1 Hname) B1 B2) as Hc.
  unfold in_fx_world, zoom, mbind, st_bind. cbn [fx_world set_fx_world].
  destruct (sl_fs_copy_segment REF _ REF (out + ROOT_NAME_SSO) w1) as [[o|c] w2].
  2: { destruct Hc as [G2 Hc]. split; [by eapply grown_trans|left]. by exists c. }
  destruct Hc as (G2 & O2 & B). pose proof (grown_trans _ _ _ _ G1 G2) as G12. cbn [upd_out modify fx_world set_fx_world set_fx_out fx_out fx_diag].
  pose proof (ready_fs_grown _ _ _ _ _ _ G12 Hready) as [Hwf2 Hfr2 _ _].
  pose proof (join_outcome w2 _ _ _ _ Hwf2 Hfr2 (text_at_grown _ _ _ _ _ G12 Hroot) (text_at_grown _ _ _ _ _ G2 T1)) as Hj.
  destruct (inline_place PATH_SSO ltac:(by left)) as [P1 P2].
  destruct (sl_fs_join_paths REF (fr_path root) v REF (out + PATH_SSO) w2) as [[o2|c] w3]; destruct Hj as [S3 T3]; pose proof (spares_grown _ _ _ P1 P2 S3) as G3;
    (split; [by eapply grown_trans|]); [right|left; by exists c]. cbn. split_and!; [done|done|done|exact T3|by eapply owned_spared|done].
Qed.

Lemma kind_outcome kind :
  path_kind l = Some kind ->
  let '(res, s') := resolve_kind out REF policy input kind d (sl_arena_mark REF w) (attempt_state kind) in attempted w diag0 d (resolve p l) res s'.
Proof.
  intros Hk. unfold resolve. rewrite Hk. assert (Hne : l <> []) by (by intros ->). rewrite bool_decide_eq_false_2 by done. pose proof (fy_input _ _ _ _ _ Hready) as ([[Hl _] _ _] & _ & _ & El).
  pose proof (length_str_val (w_mem w) input Hl) as Hlen. rewrite El in Hlen. revert Hk. unfold path_kind. destruct (_ || _); [done|].
  destruct (starts [sl_fs_is_separator] l || _); [intros [= <-]; apply absolute_outcome|].
  destruct (starts [is_dot; sl_fs_is_separator] l) eqn:Ed.
  - intros [= <-]. apply project_outcome. destruct l as [|a [|b l']]; cbn in Ed, Hlen; [done|by rewrite andb_false_r in Ed|lia].
  - destruct (break_at colon l) as [name rest] eqn:Eb. destruct (bool_decide (name = [])); [done|]. destruct (starts [sl_fs_is_separator] rest) eqn:Es; [|done].
    cbn. intros [= <-]. by apply named_outcome.
Qed.
End Resolve.

Lemma zero_out_grown s : arena_wf (w_arena (fx_world s)) -> grown out (fx_world s) (fx_world (zero_out out s)).
Proof.
  intros Hwf. destruct (inline_place PATH_SSO ltac:(by left)) as [P1 P2]. destruct (inline_place ROOT_NAME_SSO ltac:(by right)) as [R1 R2].
  eapply grown_trans; [exact (zero_written _ _ Hwf P1 P2)|]. exact (zero_written _ (set_mem _ _) Hwf R1 R2).
Qed.

(** A failed attempt is cleaned up. *)
Lemma cleanup_grown w0 s :
  arena_wf (w_arena w0) -> grown out w0 (fx_world s) ->
  let s' := zero_out out (set_fx_world (snd (sl_arena_reset_to REF (sl_arena_mark REF w0) (fx_world s))) s) in
  grown out w0 (fx_world s') /\ ar_offset (w_arena (fx_world s')) = ar_offset (w_arena w0) /\ fx_diag s' = fx_diag s /\ fx_out s' = zero_resolved out.
Proof.
  intros Hwf Hg s'. destruct (reset_grown w0 (fx_world s) Hwf Hg) as [R1 R2]. subst s'. split_and!; [|exact R2|done|done].
  eapply grown_trans; [exact R1|]. exact (zero_out_grown (set_fx_world _ s) (fw_wf _ _ (gr_forward _ _ _ R1))).
Qed.

(** What the caller is left with: an answer, and after a failure an empty result and the
    arena as it was. *)
Definition resolved_as (s0 : FsSys) (d : nullable) (a : fs_answer) (res : result unit) (s : FsSys) : Prop :=
  attempted (fx_world s0) (fx_diag s0) d a res s /\
  match res with
  | Ok _ => True
  | Err _ => fx_out s = zero_resolved out /\ ar_offset (w_arena (fx_world s)) = ar_offset (w_arena (fx_world s0))
  end.

Lemma resolve_path_outcome s policy p input l d :
  fs_ready (fx_world s) policy p input l ->
  let '(res, s') := sl_fs_resolve_path out REF (Some policy) input REF d s in resolved_as s d (resolve p l) res s'.
Proof.
  intros Hr. pose proof (zero_out_grown s (fy_wf _ _ _ _ _ Hr)) as G0. pose proof (ready_fs_grown _ _ _ _ _ _ G0 Hr) as R0.
  unfold sl_fs_resolve_path. cbn [is_null orb]. unfold mbind at 1, st_bind at 1, modify at 1.
  rewrite (valid_text _ _ _ (pa_root _ _ _ (fy_policy _ _ _ _ _ R0))). cbn [negb]. rewrite orb_false_r.
  pose proof (fy_input _ _ _ _ _ R0) as (Hv & _ & _ & El). pose proof Hv as [[Hl _] _ _].
  assert (E0 : bool_decide (l = []) = (str_length input =? 0)) by (rewrite <- El; by apply part_empty). unfold resolve at 1. rewrite E0.
  destruct (Z.eqb_spec (str_length input) 0) as [|Hn].
  { split; [|by split]. split; [exact G0|]. by right. }
  set (s0 := zero_out out s) in *. unfold mbind at 1 2, st_bind at 1 2, gets at 1 2. rewrite classify_path_spec by done. rewrite El.
  assert (Hbad : let '(res, s') := (reset_arena REF (sl_arena_mark REF (fx_world s0)) ;;
      sl_fs_fail d SL_DIAG_INVALID_ARGUMENT SL_STATUS_INVALID_ARGUMENT "invalid filesystem path syntax") s0 in
    resolved_as s d (Rejected SL_STATUS_INVALID_ARGUMENT SL_DIAG_INVALID_ARGUMENT "invalid filesystem path syntax") res s').
  { destruct (reset_grown (fx_world s0) (fx_world s0) (fy_wf _ _ _ _ _ R0) (grown_refl _ _ (fy_wf _ _ _ _ _ R0))) as [X1 X2].
    pose proof (grown_trans _ _ _ _ G0 X1) as X. unfold reset_arena, sl_fs_fail. unfold_st.
    destruct d; (split; [split; [exact X|by right]|]; cbn; split; [done|exact X2]). }
  pose proof (kind_outcome (fx_world s0) (fx_diag s) policy p input l d R0) as Hk. unfold resolve in Hk. rewrite E0 in Hk. destruct (Z.eqb_spec (str_length input) 0); [lia|].
  destruct (path_kind l) as [kind|] eqn:Ek; [|exact Hbad]. specialize (Hk kind eq_refl). destruct kind; [exact Hbad|..];
    (unfold mbind at 1, st_bind at 1, upd_out at 1, modify at 1; unfold on_error;
     match goal with |- context [resolve_kind out REF policy input ?k d ?mk ?st] => change st with (attempt_state (fx_world s0) (fx_diag s) k) end;
     match type of Hk with match ?x with pair _ _ => _ end => destruct x as [[[]|c] s1] end;
     [destruct Hk as [G1 Hk]; split; [|done]; split; [by eapply grown_trans|exact Hk]|];
     destruct Hk as [G1 Hk]; destruct (cleanup_grown (fx_world s0) s1 (fy_wf _ _ _ _ _ R0) G1) as (C1 & C2 & C3 & C4); unfold reset_arena; unfold_st;
     (split; [|by split]); split; [by eapply grown_trans|]; rewrite C3; destruct Hk as [Hk|Hk]; [left; exact Hk|right]; revert Hk;
     repeat match goal with |- context [match ?x with _ => _ end] => destruct x end; tauto || (intros (? & _); discriminate)).
Qed.

(** C28: A path is resolved exactly: empty and malformed paths and unknown roots are
    refused, absolute paths are taken as they are unless the policy is strict and does not
    allow them, and a project-relative or named-root path is its root followed by the
    normalized parts, or refused when a [..] leads above the root.  A failure leaves an
    empty result and the arena as it was, and nothing else the caller holds is touched. *)
Theorem fs_resolve_exact s policy p input l d :
  fs_ready (fx_world s) policy p input l ->
  let '(res, s') := sl_fs_resolve_path out REF (Some policy) input REF d s in resolved_as s d (resolve p l) res s'.
Proof. apply resolve_path_outcome. Qed.

(** * Containment *)

(** A part that names something in the directory it is read in. *)
Definition clean (part : list Z) : Prop :=
  part <> [] /\ part <> [dot] /\ part <> [dot; dot] /\ no_separator part = true /\ existsb (fun c => c =? 0) part = false.

(** A path that stays below [root]. *)
Definition below (root path : list Z) : Prop := exists parts, Forall clean parts /\ path = under root (join_slash parts).

Lemma split_path_parts l :
  existsb (fun c => c =? 0) l = false -> Forall (fun part => no_separator part = true /\ existsb (fun c => c =? 0) part = false) (split_path l).
Proof.
  induction l as [|c l IH]; intros H; cbn [split_path]; [by repeat constructor|]. cbn in H. apply orb_false_iff in H as [Hc Hl]. specialize (IH Hl).
  destruct (sl_fs_is_separator c) eqn:Es; [by repeat constructor|]. destruct (split_path l) as [|q qs]; [repeat constructor; cbn; by rewrite ?Es, ?Hc|].
  apply Forall_cons in IH as [[H1 H2] Hqs]. constructor; [|done]. unfold no_separator. cbn. rewrite Es, Hc. by split.
Qed.

Lemma normalize_clean parts stack done :
  Forall (fun part => no_separator part = true /\ existsb (fun c => c =? 0) part = false) parts -> Forall clean stack ->
  normalize stack parts = Some done -> Forall clean done.
Proof.
  intros H. revert stack. induction H as [|part parts [H1 H2] _ IH]; intros stack Hs; cbn [normalize]; [by intros [= <-]|]. unfold norm_step.
  destruct (bool_decide_reflect (part = [])) as [|N1]; cbn [orb]; [apply IH, Hs|]. destruct (bool_decide_reflect (part = [dot])) as [|N2]; [apply IH, Hs|].
  destruct (bool_decide_reflect (part = [dot; dot])) as [|N3].
  - destruct (bool_decide_reflect (stack = [])) as [|Hne]; [done|]. apply IH. destruct (removelast_spec stack Hne) as [x Hx]. rewrite Hx in Hs. by apply Forall_app in Hs as [? _].
  - apply IH, Forall_app. split; [done|]. by apply Forall_singleton.
Qed.

Lemma kind_not_empty l kind : path_kind l = Some kind -> existsb (fun c => c =? 0) l = false.
Proof. unfold path_kind. destruct (bool_decide (l = [])); [done|]. by destruct (existsb _ l). Qed.

Lemma drop_nonzero n l : existsb (fun c => c =? 0) l = false -> existsb (fun c => c =? 0) (drop n l) = false.
Proof. revert n. induction l as [|c l IH]; intros [|n] H; [done..|]. cbn in *. apply orb_false_iff in H as [_ H]. by apply IH. Qed.

Lemma break_rest b l : exists n, snd (break_at b l) = drop n l.
Proof.
  induction l as [|c l [n IH]]; [by exists 0%nat|]. cbn. destruct (c =? b); [by exists 1%nat|]. destruct (break_at b l). by exists (S n).
Qed.

(** What is located under a root is below it. *)
Lemma located_below kind root name tail message k path n wn :
  existsb (fun c => c =? 0) tail = false -> locate_under kind root name tail message = Located k path n wn -> k = kind /\ n = name /\ below root path.
Proof.
  intros Hz. unfold locate_under. destruct (normalize [] (split_path tail)) as [parts|] eqn:E; [|done]. intros [= <- <- <- _]. split; [done|]. split; [done|].
  exists parts. split; [|done]. eapply normalize_clean; [by apply split_path_parts|constructor|exact E].
Qed.

(** What a located path may be. *)
Definition contained (p : fs_policy) (kind : SlFsPathKind) (path name : list Z) : Prop :=
  match kind with
  | SL_FS_PATH_PROJECT_RELATIVE => below (sp_root p) path
  | SL_FS_PATH_NAMED_ROOT => exists root, (name, root) ∈ sp_roots p /\ below root path
  | SL_FS_PATH_ABSOLUTE => sp_mode p = SL_FS_POLICY_STRICT -> sp_allow_absolute p = true
  | SL_FS_PATH_INVALID => False
  end.

Lemma resolve_contained p l kind path name warning : resolve p l = Located kind path name warning -> contained p kind path name.
Proof.
  unfold resolve. destruct (bool_decide (l = [])); [done|]. destruct (path_kind l) as [k|] eqn:Ek; [|done]. pose proof (kind_not_empty _ _ Ek) as Hz. destruct k; [done|..].
  - intros H. apply located_below in H as (-> & _ & H); [exact H|by apply drop_nonzero].
  - destruct (break_at colon l) as [nm rest] eqn:Eb. destruct (List.find _ (sp_roots p)) as [[rn rp]|] eqn:Ef; [|done]. apply find_some in Ef as [Ef En]. cbn in En.
    apply bool_decide_eq_true in En. subst rn. intros H. apply located_below in H as (-> & -> & H).
    + exists rp. split; [by apply list_elem_of_In|exact H].
    + destruct (break_rest colon l) as [n Hn]. rewrite Eb in Hn. cbn in Hn. rewrite Hn. by do 2 apply drop_nonzero.
  - destruct (bool_decide_reflect (sp_mode p = SL_FS_POLICY_STRICT)) as [Hm|Hm]; destruct (sp_allow_absolute p) eqn:Ea; cbn; try done; intros [= <- _ _ _]; cbn; tauto.
Qed.

(** C29: No accepted path leaves its root: a project-relative path is the application's
    root, and a named-root path the root of that name, followed by parts none of which is
    empty, [.] or [..] or holds a separator or a zero byte; a strict policy accepts an
    absolute path only if it allows them. *)
Theorem fs_never_escapes s policy p input l d :
  fs_ready (fx_world s) policy p input l ->
  let '(res, s') := sl_fs_resolve_path out REF (Some policy) input REF d s in
  res = Ok tt -> exists path name,
    owned_text (fx_world s') (rv_path (fx_out s')) path /\ owned_text (fx_world s') (rv_root_name (fx_out s')) name /\
    contained p (rv_kind (fx_out s')) path name.
Proof.
  intros Hr. pose proof (resolve_path_outcome s policy p input l d Hr) as H. destruct (sl_fs_resolve_path out REF (Some policy) input REF d s) as [res s'].
  intros ->. destruct H as [[_ [(c & ? & _)|H]] _]; [done|]. destruct (resolve p l) as [|?|kind path name warning] eqn:E; [by destruct H..|].
  destruct H as (_ & _ & Hk & Hp & Hn & _). exists path, name. split_and!; [done|done|]. rewrite Hk. by eapply resolve_contained.
Qed.
End Outcomes.

(** * A resolution *)

Module Demo.
#[export] Instance fs_build0 : BuildConfig := assert_build.
#[export] Instance fs_simd0 : SimdConfig := {| SL_STRING_SIMD := SCALAR; SL_BYTES_SIMD := SCALAR |}.
#[export] Instance fs_rodata0 : ReadOnlyData := {| rodata := fun _ => 4096 |}.

Definition out0 : Z := 12000.

Definition texts0 : list string :=
  ["/app"; "data"; "/srv/data"; "./a/../b//c"; "data:/x/../y"; "data:/x/../../etc"; "/etc/passwd"]%string.
Definition place (i : nat) : Z := 8000 + 100 * Z.of_nat i.
Definition text (i : nat) : SlStr := sl_str_from_parts (place i) (default 0 (string_size <$> texts0 !! i)).

Definition world0 : World :=
  {| w_mem := fold_left (fun m '(i, l) => store m (place i) (string_bytes l)) (imap pair texts0) (fun _ => 0);
     w_arena := {| ar_base := 16384; ar_capacity := 4096; ar_offset := 0; ar_high_water := 0; ar_generation := 1 |} |}.

Definition policy0 : SlFsPolicy := sl_fs_strict_policy (text 0) REF [{| fr_name := text 1; fr_path := text 2 |}] false.
Definition fs_policy0 : fs_policy :=
  {| sp_root := string_bytes "/app"; sp_roots := [(string_bytes "data", string_bytes "/srv/data")];
     sp_mode := SL_FS_POLICY_STRICT; sp_allow_absolute := false |}.

Definition state0 : FsSys := {| fx_world := world0; fx_out := zero_resolved out0; fx_diag := zero_diag |}.

(** What the paths mean: two are found below their roots, and two are refused. *)
Example fs_answers0 :
  map (fun i => resolve fs_policy0 (string_bytes (default EmptyString (texts0 !! i)))) [3%nat; 4%nat; 5%nat; 6%nat] =
  [Located SL_FS_PATH_PROJECT_RELATIVE (string_bytes "/app/b/c") [] false;
   Located SL_FS_PATH_NAMED_ROOT (string_bytes "/srv/data/y") (string_bytes "data") false;
   Rejected SL_STATUS_INVALID_STATE SL_DIAG_PERMISSION_DENIED "named-root filesystem path escapes its root";
   Rejected SL_STATUS_INVALID_STATE SL_DIAG_PERMISSION_DENIED "absolute filesystem paths require explicit allow in strict mode"].
Proof. by vm_compute. Qed.

Definition in_place (v : SlStr) (l : list Z) : bool :=
  (0 <? str_ptr v) && (0 <=? str_length v) && (str_ptr v + str_length v <=? 12000) && bool_decide (str_val (w_mem world0) v = l).

Lemma fs_text0 v l : in_place v l = true -> text_at out0 world0 v l.
Proof.
  unfold in_place. rewrite !andb_true_iff, bool_decide_eq_true. intros [[[H1 H2] H3] H4]. split_and!; [split; [split; lia|lia|]| | |done].
  - unfold simd_length. size_lia.
  - unfold outside_free, disjoint_ranges. cbn. lia.
  - unfold disjoint_ranges, out0. lia.
Qed.

Lemma fs_ready0 i l : in_place (text i) l = true -> fs_ready out0 world0 policy0 fs_policy0 (text i) l.
Proof.
  intros H. split; [split_and!; done|split_and!; [done|done|unfold outside_free, disjoint_ranges, out0, FRAME_BYTES; cbn; lia]| |by apply fs_text0].
  split; [apply fs_text0; by vm_compute| |done|done]. apply Forall2_cons_2; [split; apply fs_text0; by vm_compute|apply Forall2_nil_2].
Qed.

Lemma fs_found0 i : i = 3%nat \/ i = 4%nat ->
  match sl_fs_resolve_path out0 REF (Some policy0) (text i) REF REF state0 with (Ok _, _) => True | _ => False end.
Proof. intros [-> | ->]; vm_compute; exact I. Qed.

Lemma fs_resolve_exact_witness :
  exists s', sl_fs_resolve_path out0 REF (Some policy0) (text 3) REF REF state0 = (Ok tt, s') /\
    rv_kind (fx_out s') = SL_FS_PATH_PROJECT_RELATIVE /\ owned_text (fx_world s') (rv_path (fx_out s')) (string_bytes "/app/b/c").
Proof.
  pose proof (fs_resolve_exact out0 state0 policy0 fs_policy0 (text 3) (string_bytes "./a/../b//c") REF (fs_ready0 3 (string_bytes "./a/../b//c") ltac:(by vm_compute))) as H.
  assert (E : resolve fs_policy0 (string_bytes "./a/../b//c") = Located SL_FS_PATH_PROJECT_RELATIVE (string_bytes "/app/b/c") [] false) by by vm_compute.
  rewrite E in H. pose proof (fs_found0 3 ltac:(by left)) as Hok.
  destruct (sl_fs_resolve_path out0 REF (Some policy0) (text 3) REF REF state0) as [[[]|c] s']; [|destruct Hok].
  destruct H as [[_ [(c & H & _)|(_ & _ & H1 & H2 & _)]] _]; [discriminate H|]. exists s'. split; [reflexivity|]. split; [exact H1|exact H2].
Defined.

Lemma fs_never_escapes_witness :
  exists s' path, sl_fs_resolve_path out0 REF (Some policy0) (text 4) REF REF state0 = (Ok tt, s') /\
    owned_text (fx_world s') (rv_path (fx_out s')) path /\ exists name, contained fs_policy0 (rv_kind (fx_out s')) path name.
Proof.
  pose proof (fs_never_escapes out0 state0 policy0 fs_policy0 (text 4) (string_bytes "data:/x/../y") REF (fs_ready0 4 (string_bytes "data:/x/../y") ltac:(by vm_compute))) as H.
  pose proof (fs_found0 4 ltac:(by right)) as Hok.
  destruct (sl_fs_resolve_path out0 REF (Some policy0) (text 4) REF REF state0) as [[[]|c] s']; [|destruct Hok].
  destruct (H eq_refl) as (path & name & H1 & _ & H2). exists s', path. split; [reflexivity|]. split; [exact H1|]. exists name. exact H2.
Defined.

(** An escape leaves no result. *)
Example fs_escape_refused :
  let '(res, s') := sl_fs_resolve_path out0 REF (Some policy0) (text 5) REF REF state0 in
  res = Err SL_STATUS_INVALID_STATE /\ fx_out s' = zero_resolved out0 /\ dg_code (fx_diag s') = SL_DIAG_PERMISSION_DENIED /\
  ar_offset (w_arena (fx_world s')) = 0.
Proof. by vm_compute. Qed.
End Demo.
